(* ===== verification/_CoqProject ===== *)
-Q . S2P
Prelude.v
CanId.v
FastPacket.v
Holes.v
Diff.v
ChangeTracker.v
Devices.v
Filters.v
Values.v
RequestRules.v
VirtualDevice.v
Ring.v
Broker.v
Consumer.v
JournalFormat.v
JournalReader.v
JournalWriter.v
JournalRoundTrip.v
BlockWriter.v
EventLog.v
ReplServer.v
ReplClient.v
GoNum.v
FilterLang.v
Keeper.v
CanIO.v
SendPolicy.v
Server.v
Slots.v
Monitor.v
History.v
PgnNaming.v
PgnSchema.v
PgnBits.v
PgnCodec.v
PgnRoundTrip.v
PgnVariable.v
PgnJson.v
PgnOutputs.v
GoLiteral.v
PgnParser.v
PgnPipeline.v
GoTime.v
Config.v
Startup.v
GoUrl.v
Client.v
Dump.v
Verify.v
Alarms.v
Switches.v
Cloud.v
Simulate.v
Boats.v
Export.v
Prefetch.v
Compress.v
Vendor.v
