(* ===== verification/Prelude.v ===== *)
(** * A verification library for lplex

    lplex reads NMEA 2000 traffic from CAN buses, numbers every frame, keeps the
    recent ones in a ring and the rest in journal files, tracks the devices and
    their last values, serves clients over HTTP with filters and buffered
    sessions, polls devices on demand, takes part in the bus with virtual devices
    and replicates to a cloud instance.  This library models the server, the cloud,
    the client library, the code generator and the command-line tool, and proves
    what they promise.

    ** How the parts fit

    Bytes of a CAN frame become a header ([CanId]) and, for multi-frame messages,
    a payload ([FastPacket]).  The broker ([Broker]) handles one frame at a time:
    it updates the device registry ([Devices]), runs virtual devices
    ([VirtualDevice]) and request rules ([RequestRules]), numbers the frame and
    puts it in the ring ([Ring]), records the last value ([Values]) and serves
    subscribers through filters ([Filters]).  Clients that pull read the ring, or
    the journal when they are behind ([Consumer]).  Replication tracks missing
    ranges ([Holes]); packets are reduced to changes by [ChangeTracker] over the
    diffs of [Diff].  [CanIO] stands between the bus and the broker's two queues;
    [Server] turns HTTP requests into broker operations and guards the transmit
    queue with [SendPolicy]; [Monitor] watches the broker from outside.  The
    payloads themselves are the business of another program: [pgngen] turns
    texts with definitions of PGNs ([PgnParser]), resolved as one schema
    ([PgnSchema]), into the Go codecs the server calls ([PgnCodec]).

    ** The files

    - [Prelude]: results, machine integers, time, bytes, strings, map iteration,
      binary search, and the tactics the other files use.
    - [CanId]: [canbus/canid.go], [canbus/name.go].  29-bit identifiers and 64-bit
      ISO NAMEs; building and parsing are inverse up to the bits that carry
      nothing.
    - [FastPacket]: [fastpacket.go].  The assembler is a map of one-transfer
      machines; fragments reassemble under any interleaving.
    - [Holes]: [replication.go].  The hole tracker is a canonical list of ranges;
      its operations are set operations on the missing numbers.
    - [Diff], [ChangeTracker]: [changetracker/diff.go], [changetracker/tracker.go].
      The class [Decodes] is what the tracker needs of an encoder and the replayer
      of a decoder; a replayer fed with every event rebuilds every payload.
    - [Devices]: [devices.go].  The registry invariant (one source per NAME and
      bus), address claims, expiry, and the seeding of a remote registry.
    - [Filters]: [EventFilter] and [resolvedFilter] of [broker.go], [valueFilter]
      of [values.go]; the three evaluations agree, and where they do not.
    - [Values]: [values.go].  The store is the last frame per key; snapshots are
      its filtered entries, sorted.
    - [RequestRules]: [requestrules/requestrules.go].  Requests are paced over every
      history; the hot-path guard loses nothing; no operation panics.
    - [VirtualDevice]: [virtual_device.go].  The address-claim state machine.
    - [Ring]: the ring buffer of [broker.go], live and replica.
    - [Broker]: [broker.go].  [handleFrame], the ticker, sessions, subscriptions and
      statistics; the invariant of the whole state, the log a live broker keeps.
    - [Consumer]: [consumer.go].  [Next] passes only frames its filter rejects as they
      are seen: with their bus in the ring, without one in the journal.
    - [JournalFormat]: [journal/format.go].  Uvarints, little-endian words, the
      CRC-32C, length-prefixed strings.
    - [JournalReader]: [journal/reader.go].  Opening (with the block index or by
      scanning), [Next], seeking, inspecting blocks and their device tables.
    - [JournalWriter]: [journal_writer.go].  Blocks, delta times, device tables,
      compression, rotation, files under names of a millisecond.
    - [JournalRoundTrip]: the writer's files read back by the reader.
    - [BlockWriter]: [block_writer.go].  Blocks received in a backfill, stored as
      they came.
    - [EventLog]: [replication_events.go].  The ring of recent events.
    - [ReplServer]: [replication_server.go].  Instances, handshake, the live and
      backfill handlers; the replication state machine they implement.
    - [ReplClient]: [replication_client.go].  The boat's side: streams, reconnects,
      the blocks that answer a hole.
    - [GoNum]: decimal and float text as [strconv] reads and prints it.
    - [FilterLang]: [filter/].  Lexer, recursive-descent parser, printing and
      evaluation of display filters.
    - [Keeper]: [keeper/keeper.go].  Retention and archiving over a disk.
    - [CanIO]: [can.go], [can_bus.go], the transmit router of
      [cmd/lplex-server/main.go].  What the reader and the writer do between
      socket and broker; two of them on one bus.
    - [SendPolicy]: [sendpolicy/sendpolicy.go].  Send rules and their parser.
    - [Server]: [server.go], [websocket.go].  Requests as values, an open WebSocket with
      the messages its client sends: authentication, the gates of sending, sessions,
      durations.
    - [Slots]: [slots.go].  Configured slots as session requests.
    - [History]: [history.go].  Queries over the journal's files.
    - [Monitor]: [alerting.go], [bus_silence.go], [health.go].
    - [PgnNaming]: [pgngen/naming.go].  Names of generated code, over runes.
    - [PgnSchema]: [pgngen/ast.go].  Definitions and their resolution.
    - [PgnBits]: the expressions and statements on bits of [pgngen/gen_go.go], with
      their text and their effect on a payload taken as one number.
    - [PgnCodec]: the rest of [pgngen/gen_go.go].  The statements of a field, the
      decoders and encoders they make, dispatch and registry, the helpers.
    - [PgnRoundTrip]: codecs of fixed width stay in their buffer and agree.
    - [PgnVariable]: decoders of variable width do not panic; where they do.
    - [PgnJson]: [pgngen/gen_go.go].  The JSON methods, struct declarations and
      lookup methods the generator writes.
    - [PgnOutputs]: [pgngen/gen_proto.go], [pgngen/gen_jsonschema.go] and the imports,
      enumerations and tables of [pgngen/gen_go.go], as text.
    - [GoLiteral]: numbers in Go notation as [strconv] reads them.
    - [PgnParser]: [pgngen/parser.go].  Tokens, fields, blocks and files of
      definitions; the parser reads every text to the end.
    - [PgnPipeline]: from texts to codecs: what parsing and resolution establish
      is what the codecs need.
    - [GoTime]: durations and booleans as [time] and [strconv] read them.
    - [Config]: [cmd/lplex-server/config.go].  A configuration file as the values
      its library gives; how it sets the flags; rules, slots and request rules.
    - [Startup]: [cmd/lplex-server/main.go], [validate.go].  What the program
      builds from the flags, what it refuses, what validation promises, and the
      reload.
    - [GoUrl]: query strings as [net/url] writes and reads them.
    - [Client]: [lplexc/].  Requests, filters, sessions, event streams and the
      loops that reconnect, against the routes of [Server].
    - [Dump]: [lplex dump] and [lplex tail] ([cmd/lplex/cmd_dump.go], [decode.go],
      [cmd_tail.go]).  Where a tail starts; when a replay shows what a stream does; how
      sessions end.
    - [Verify]: [cmd/lplex/cmd_verify.go].  Which journal files pass.
    - [Alarms]: [cmd/lplex/cmd_alarms.go], [pgn/diagnostics.go].  Alarm records and
      their episodes.
    - [Switches]: [cmd/lplex/cmd_switches.go].  Banks and the commands sent to them.
    - [Cloud]: [cmd/lplex-cloud/].  Its start, its listeners, its HTTP routes, and
      the isolation of boats over all of them.
    - [Simulate]: [cmd/lplex/cmd_simulate.go].  Journals played into a broker.
    - [Boats]: [cmd/lplex/config.go], [resolve.go].  The boats of a file, the choice
      of one, its server and its exclusions.
    - [Export]: [metrics.go], [mqtt.go].  Samples and the MQTT publisher.
    - [Prefetch]: the read-ahead of [journal/reader.go].  Goroutines on any schedule;
      reading ahead changes nothing a caller sees.
    - [Compress]: [compress.go].  Responses compressed on their way out.
    - [Vendor]: [pgn/garmin.go], [pgn/ac_utility.go].  Decoders written by hand.

    ** Conventions

    A Go struct is a [Record], a Go map a [gmap], a slice a list; a nil pointer or
    slice that the code tests for is an [option].  Unsigned integers are [Z] with
    the wrap-around of every operation that can leave the range ([wrap]).  Times
    are nanoseconds, [0] the zero time; every clock reading is an argument.  A
    [range] over a map takes the visited order as an argument, and theorems hold
    for every order ([ranges]).  A method that mutates its receiver returns the new
    state; [None] stands for a panic where one is possible.  Mutexes disappear:
    each method is one atomic step.  Bounded channels are lists with the capacity
    of the Go channel, and a send that would block is dropped where the code drops
    it.  Loops that are not structural take fuel that their definition shows to be
    enough: the length of an interval in [sort_Search], of a payload in
    [FragmentFastPacket], the distance to the head in [next_ring], the number of
    bytes in [writeLE], the rest of the file in the journal's loops, the length of
    the text in [scan], five times the number of tokens in the parser's mutual
    recursion, the length of the text in [iso_loop], the bytes of a text in
    [runes], sixteen digits in [fmt_hex], the length of a line in [tokenize], the
    number of lines in [PgnParser.Parse].  The readers of whole files
    ([read_all], [query_loop]) take any fuel above the number of frames.

    Generated or external code is a parameter: the PGN registry (fast-packet flags,
    intervals, tolerances, decoders), the answers of the rate limiter, the zstd coder of the journal (what it
    compresses it decompresses), the journal files a consumer reads, whose laws are
    the record [file_law], the answers of the archive script, the values a HOCON
    library finds in a configuration file, what JSON decoding makes of an event, and
    the order
    [slices.SortFunc] gives to equal elements.  Text is ASCII where the code folds
    case.

    ** What the theorems show

    Round trips: identifiers, NAMEs, fragments, byte-mask diffs, change streams,
    journal files (written and read, after a crash too, through a backfill to the
    cloud), printed filters, send rules, the frames a node writes to a shared bus,
    the generated codecs and their dispatch, the JSON of enumerations and bytes, a
    client's filter on its way to the server.
    Refinement: the assembler runs one-transfer machines,
    the hole tracker is a set, the ring and the live broker are a log, the
    replication handlers are steps of one state machine, the filter parser is its
    grammar.  Invariants: assembler bounds, the registry, virtual addresses, the
    broker's queues and guard, the keeper's queue, the layout of PGN definitions
    from their text to the buffers of their codecs.  Safety: request pacing, the
    guard's soundness, consumers without gaps, handshakes that leave no frame out,
    isolation of instances under mTLS, deletions the configuration allows, frames
    that reach the bus only past every gate of the HTTP server.  Slots are
    equivalent to session requests; a history query answers exactly from the
    frames handed to the journal; durations are exact up to 64 bits; alerts keep
    their distance.  A configuration that validates starts; a reload is a restart,
    within the conditions the theorem states; the command line wins over the file.
    A client's session misses no frame between two acknowledgements that its filter
    lets through as it is seen, and its reconnects wait within their bounds.
    A replay without a change tracker shows what a stream of the same frames does; a tail
    starts at the frame it was asked for; a recording played back is the
    recording; reading ahead and compressing responses change nothing a caller sees;
    files that verify have consecutive numbers from each to the next that has any;
    episodes are runs of alarms; switches are set all or up to the full queue;
    excluded numbers pass no filter of a command.

    The conditions of a theorem are named definitions ([input_ok], [run_room], [in_order],
    [sendable], [codable], [field_carried], [cursor_ok], [element_ok], [file_law], ...), stated
    in words in the comment above it.  Where the code does something else outside
    them, a lemma shows it on concrete data: [claim_overwrites_frames],
    [same_millisecond_overwrites], [short_fast_lost], [long_single_cut],
    [websocket_ignores_read_only], [boundary_frame_missed], [narrow_signed_not_extended],
    [repeated_string_out_of_range], [unchecked_capacity_panics],
    [wide_field_does_not_compile], [dropped_frame_claimed], [status_overclaims],
    [default_method_misread], [answer_misattributed], [gap_hidden_by_empty_file],
    [tail_of_everything_is_live], [two_banks_one_found].
    The fields of a Protocol Buffers message hold what the Go fields hold, under
    numbers of their own; the JSON Schema accepts the members of exactly the
    messages with nothing missing.
    Liveness: backfills complete, a retry that is answered ends.  Each theorem with
    hypotheses is followed by an instance on concrete data.

    ** Not modelled

    Sockets, JSON, SSE and WebSocket framing, routing of HTTP paths,
    the MQTT client, webhooks, the gRPC transport, certificates and tracing are
    input and output around the state modelled here.  Of the command-line tool the
    text and tables it prints, the delays of a playback and the commands that only
    print what a route answers are left out, as are the benchmarks.  Of the code generator,
    the text around the codecs' statements is left out, and the JSON of floats; floating-point
    products are rounded one by one, as on amd64.  In the
    journal reader, what a read or a decompression that fails leaves in the buffer is
    not modelled.  The filter's cache of field indices and the traffic counters
    of replication are left out because nothing they hold is observable in what is
    modelled. *)

From Stdlib Require Export ZArith Lia.
From Stdlib Require Import Ascii.
From stdpp Require Export base tactics list gmap strings pretty sorting.

#[global] Open Scope Z_scope.

(** * Results

    A Go function returning [(T, error)] is a [result E T]: exactly one of the
    two components is meaningful in every function modelled here. *)

Inductive result (E A : Type) : Type :=
| Ok (a : A)
| Err (e : E).
Arguments Ok {E A} a.
Arguments Err {E A} e.

#[export] Instance result_ret E : MRet (result E) := fun _ a => Ok a.
#[export] Instance result_bind E : MBind (result E) :=
  fun _ _ k m => match m with Ok a => k a | Err e => Err e end.

Definition is_ok {E A} (r : result E A) : bool :=
  match r with Ok _ => true | Err _ => false end.

(** * Machine integers

    A Go unsigned integer of width [w] is a [Z] in [[0, 2^w)]; every operation
    that can leave that range is followed by the [wrap] Go performs. *)

Definition wrap (n z : Z) : Z := z mod 2 ^ n.
Abbreviation u8 := (wrap 8).
Abbreviation u16 := (wrap 16).
Abbreviation u32 := (wrap 32).
Abbreviation u64 := (wrap 64).

(** Two's-complement reading of a 64-bit pattern, Go's [int64(x)]. *)
Definition i64 (z : Z) : Z := (z + 2 ^ 63) mod 2 ^ 64 - 2 ^ 63.

Definition max_u64 : Z := 2 ^ 64 - 1.

(** ** Time

    A [time.Time] is the number of nanoseconds since Go's zero instant, so the
    zero value is [0] and [IsZero] is a test against [0].  A [time.Duration] is
    an [int64] of nanoseconds; [Time.Sub] saturates at its bounds. *)

Definition time := Z.
Definition duration := Z.
Definition min_duration : duration := - 2 ^ 63.
Definition max_duration : duration := 2 ^ 63 - 1.
Definition time_IsZero (t : time) : bool := t =? 0.
Definition time_Sub (t u : time) : duration :=
  Z.max min_duration (Z.min max_duration (t - u)).

Definition nanosecond : duration := 1.
Definition millisecond : duration := 1000000.
Definition second : duration := 1000000000.
Definition minute : duration := 60 * second.
Definition hour : duration := 60 * minute.

Lemma wrap_range n z : 0 <= n -> 0 <= wrap n z < 2 ^ n.
Proof. intros. apply Z.mod_pos_bound. lia. Qed.

Lemma wrap_small n z : 0 <= z < 2 ^ n -> wrap n z = z.
Proof. apply Z.mod_small. Qed.

Lemma i64_small z : - 2 ^ 63 <= z < 2 ^ 63 -> i64 z = z.
Proof. intros. unfold i64. rewrite Z.mod_small by lia. lia. Qed.

Lemma i64_range z : - 2 ^ 63 <= i64 z < 2 ^ 63.
Proof. unfold i64. pose proof (Z.mod_pos_bound (z + 2 ^ 63) (2 ^ 64) ltac:(lia)). lia. Qed.

(** Conversions compose modulo [2^64]. *)
Lemma i64_mod z : i64 (z mod 2 ^ 64) = i64 z.
Proof. unfold i64. now rewrite Zplus_mod_idemp_l. Qed.

Lemma i64_add_i64 a b : i64 (a + i64 b) = i64 (a + b).
Proof.
  unfold i64. f_equal.
  replace (a + ((b + 2 ^ 63) mod 2 ^ 64 - 2 ^ 63) + 2 ^ 63) with (a + (b + 2 ^ 63) mod 2 ^ 64) by lia.
  rewrite Zplus_mod_idemp_r. f_equal. lia.
Qed.

(** * Bitwise reasoning *)

Lemma testbit_wrap n z i :
  0 <= n -> 0 <= i -> Z.testbit (wrap n z) i = (i <? n) && Z.testbit z i.
Proof.
  intros Hn Hi. unfold wrap. destruct (Z.ltb_spec i n).
  - now rewrite Z.mod_pow2_bits_low by lia.
  - now rewrite Z.mod_pow2_bits_high by lia.
Qed.

Lemma testbit_shiftl z m i :
  0 <= i -> Z.testbit (Z.shiftl z m) i = (m <=? i) && Z.testbit z (i - m).
Proof.
  intros Hi. rewrite Z.shiftl_spec by lia. destruct (Z.leb_spec m i); [done|].
  now rewrite Z.testbit_neg_r by lia.
Qed.

Lemma testbit_small n z i : 0 <= z < 2 ^ n -> 0 <= n <= i -> Z.testbit z i = false.
Proof.
  intros Hz Hi. rewrite <- (Z.mod_small z (2 ^ n)) by lia.
  apply Z.mod_pow2_bits_high; lia.
Qed.

Lemma bits_eq n a b :
  0 <= n -> 0 <= a < 2 ^ n -> 0 <= b < 2 ^ n ->
  (forall i, 0 <= i < n -> Z.testbit a i = Z.testbit b i) -> a = b.
Proof.
  intros Hn Ha Hb H. apply Z.bits_inj'. intros i Hi.
  destruct (Z.ltb_spec i n); [apply H; lia|].
  now rewrite !(testbit_small n) by lia.
Qed.

Lemma lor_range n a b :
  0 <= n -> 0 <= a < 2 ^ n -> 0 <= b < 2 ^ n -> 0 <= Z.lor a b < 2 ^ n.
Proof.
  intros Hn Ha Hb. replace (Z.lor a b) with (wrap n (Z.lor a b)); [now apply wrap_range|].
  apply Z.bits_inj'. intros i Hi. rewrite testbit_wrap, Z.lor_spec by lia.
  destruct (Z.ltb_spec i n); [done|]. now rewrite !(testbit_small n) by lia.
Qed.

Lemma land_range n a b : 0 <= n -> 0 <= a < 2 ^ n -> 0 <= Z.land a b < 2 ^ n.
Proof.
  intros Hn Ha. replace (Z.land a b) with (wrap n (Z.land a b)); [now apply wrap_range|].
  apply Z.bits_inj'. intros i Hi. rewrite testbit_wrap, Z.land_spec by lia.
  destruct (Z.ltb_spec i n); [done|]. now rewrite (testbit_small n a) by lia.
Qed.

Lemma land_range_r n a b : 0 <= n -> 0 <= b < 2 ^ n -> 0 <= Z.land a b < 2 ^ n.
Proof. rewrite Z.land_comm. apply land_range. Qed.

(** [enum_bits i n]: one goal per bit position [i] below the literal [n]. *)
Ltac enum_bits i n :=
  lazymatch n with
  | 0 => lia
  | _ => let m := eval cbv in (n - 1) in
         destruct (Z.eq_dec i m) as [->|]; [|enum_bits i m]
  end.

Ltac literal_bit :=
  match goal with
  | |- context [Z.testbit (Zpos ?p) ?i] =>
      let b := eval vm_compute in (Z.testbit (Zpos p) i) in
      change (Z.testbit (Zpos p) i) with b
  | |- context [Z.testbit 0 ?i] => rewrite (Z.testbit_0_l i)
  | |- context [?a <? ?b] => let v := eval vm_compute in (a <? b) in change (a <? b) with v
  | |- context [?a <=? ?b] => let v := eval vm_compute in (a <=? b) in change (a <=? b) with v
  end.

Ltac literal_index :=
  match goal with
  | |- context [Z.testbit ?x ?i] =>
      lazymatch i with
      | Zpos _ => fail | Z0 => fail | Zneg _ => fail
      | _ => let v := eval vm_compute in i in change (Z.testbit x i) with (Z.testbit x v)
      end
  end.

(** Push [Z.testbit] through shifts, masks and wraps at literal positions. *)
Ltac bit_push :=
  first [ rewrite Z.lor_spec | rewrite Z.land_spec | rewrite testbit_shiftl by lia
        | rewrite Z.shiftr_spec by lia | rewrite testbit_wrap by lia ].

Ltac bit_norm :=
  repeat (bit_push; repeat literal_bit; cbn [andb orb]; repeat literal_index);
  repeat first [ rewrite orb_false_r | rewrite andb_true_r | rewrite andb_false_r
               | rewrite orb_false_l | rewrite andb_true_l | rewrite andb_false_l ].

(** Drop the bits of variables known to lie below a power of two. *)
Ltac bit_small :=
  repeat match goal with
  | H : 0 <= ?x < 2 ^ ?n |- context [Z.testbit ?x ?i] =>
      rewrite (testbit_small n x i) by (first [exact H | lia])
  end; rewrite ?orb_false_r, ?orb_false_l.

Create HintDb bits.
#[export] Hint Resolve wrap_range lor_range land_range land_range_r : bits.

Lemma wrap_range_le n m z : 0 <= n <= m -> 0 <= wrap n z < 2 ^ m.
Proof.
  intros H. pose proof (wrap_range n z ltac:(lia)).
  pose proof (Z.pow_le_mono_r 2 n m). lia.
Qed.

Lemma range_weaken n m z : 0 <= n <= m -> 0 <= z < 2 ^ n -> 0 <= z < 2 ^ m.
Proof. intros H Hz. pose proof (Z.pow_le_mono_r 2 n m). lia. Qed.

(** Split a conjunction of ranges, leaving each range whole. *)
Ltac split_ranges := repeat match goal with |- (_ /\ _) /\ _ => apply conj end.

(** Goals [0 <= e < 2 ^ n] for [e] built from wraps, masks and [Z.lor]. *)
Ltac bit_range :=
  repeat first [ assumption | apply lor_range; [lia| |] | apply wrap_range_le; lia
               | apply land_range_r; [lia|]; lia
               | match goal with H : 0 <= ?x < 2 ^ ?n |- 0 <= ?x < 2 ^ _ =>
                   apply (range_weaken n); [lia|exact H] end
               | lia ].

(** * Bytes *)

Definition byte_ok (b : Z) : Prop := 0 <= b < 256.
Definition bytes_ok (bs : list Z) : Prop := Forall byte_ok bs.

(** [encoding/binary.LittleEndian]: [PutUintN] and [UintN]. *)
Fixpoint le_bytes (n : nat) (z : Z) : list Z :=
  match n with
  | O => []
  | S n => z mod 256 :: le_bytes n (z / 256)
  end.

Fixpoint le_val (bs : list Z) : Z :=
  match bs with
  | [] => 0
  | b :: bs => b + 256 * le_val bs
  end.

Lemma length_le_bytes n z : length (le_bytes n z) = n.
Proof. revert z. induction n; intros; simpl; auto. Qed.

Lemma le_bytes_ok n z : bytes_ok (le_bytes n z).
Proof.
  revert z. induction n as [|n IH]; intros z; simpl; constructor.
  - apply Z.mod_pos_bound. lia.
  - apply IH.
Qed.

Lemma le_val_bytes n z : le_val (le_bytes n z) = z mod 256 ^ Z.of_nat n.
Proof.
  revert z. induction n as [|n IH]; intros z; [simpl; now rewrite Z.mod_1_r|].
  cbn [le_bytes le_val]. rewrite IH, Nat2Z.inj_succ, Z.pow_succ_r by lia.
  rewrite Z.rem_mul_r by lia. lia.
Qed.

Lemma le_val_range bs : bytes_ok bs -> 0 <= le_val bs < 256 ^ Z.of_nat (length bs).
Proof.
  induction 1 as [|b bs Hb _ IH]; [simpl; lia|].
  cbn [le_val length]. rewrite Nat2Z.inj_succ, Z.pow_succ_r by lia.
  unfold byte_ok in Hb. lia.
Qed.

Lemma le_bytes_val bs n : bytes_ok bs -> n = length bs -> le_bytes n (le_val bs) = bs.
Proof.
  intros Hbs ->. induction Hbs as [|b bs Hb _ IH]; [done|].
  cbn [le_val length le_bytes]. unfold byte_ok in Hb. f_equal.
  - rewrite Z.mul_comm, Z.mod_add by lia. now apply Z.mod_small.
  - rewrite Z.mul_comm, Z.div_add by lia. now rewrite Z.div_small by lia.
Qed.

Definition le16 := le_bytes 2.
Definition le32 := le_bytes 4.
Definition le64 := le_bytes 8.

Lemma le_val_le64 z : 0 <= z < 2 ^ 64 -> le_val (le64 z) = z.
Proof. intros. unfold le64. rewrite le_val_bytes. apply Z.mod_small. lia. Qed.
Lemma le_val_le32 z : 0 <= z < 2 ^ 32 -> le_val (le32 z) = z.
Proof. intros. unfold le32. rewrite le_val_bytes. apply Z.mod_small. lia. Qed.
Lemma le_val_le16 z : 0 <= z < 2 ^ 16 -> le_val (le16 z) = z.
Proof. intros. unfold le16. rewrite le_val_bytes. apply Z.mod_small. lia. Qed.

(** Sub-slices [b[i:j]] of a Go slice. *)
Definition slice {A} (i j : nat) (l : list A) : list A := take (j - i) (drop i l).

Lemma slice_app_l {A} (a l : list A) i j :
  (length a <= i)%nat -> slice i j (a ++ l) = slice (i - length a) (j - length a) l.
Proof.
  intros. unfold slice. rewrite drop_app_ge by lia.
  now replace (j - length a - (i - length a))%nat with (j - i)%nat by lia.
Qed.

Lemma slice_app_exact {A} (a b c : list A) i j :
  i = length a -> j = (length a + length b)%nat -> slice i j (a ++ b ++ c) = b.
Proof.
  intros -> ->. unfold slice. rewrite drop_app_length.
  replace (length a + length b - length a)%nat with (length b) by lia.
  apply take_app_length.
Qed.

(** [encoding/binary.PutUvarint] and [Uvarint] on 64-bit values.  The fuel is
    the maximal encoded length, [MaxVarintLen64 = 10]. *)
Fixpoint put_uvarint_go (fuel : nat) (x : Z) : list Z :=
  match fuel with
  | O => []
  | S fuel => if x >=? 128 then Z.lor (x mod 256) 128 :: put_uvarint_go fuel (Z.shiftr x 7)
              else [x mod 256]
  end.
Definition PutUvarint (x : Z) : list Z := put_uvarint_go 10 x.

(** [Uvarint] returns the value and the number of bytes read, [None] standing
    for its two failures ([n = 0] when the buffer is too small, [n < 0] on
    overflow), which every caller here treats alike ([n <= 0]). *)
Fixpoint uvarint_go (i : nat) (x s : Z) (buf : list Z) : option (Z * nat) :=
  match buf with
  | [] => None
  | b :: buf =>
      if (i =? 10)%nat then None
      else if b <? 128 then
        if (i =? 9)%nat && (1 <? b) then None
        else Some (Z.lor x (u64 (Z.shiftl b s)), S i)
      else uvarint_go (S i) (Z.lor x (u64 (Z.shiftl (Z.land b 127) s))) (s + 7) buf
  end.
Definition Uvarint (buf : list Z) : option (Z * nat) := uvarint_go 0 0 0 buf.

(** * Strings

    A Go string is a byte sequence, as is a [String.string]. *)

Definition Z_of_ascii (c : ascii) : Z := Z.of_N (N_of_ascii c).
Definition ascii_of_Z (z : Z) : ascii := ascii_of_N (Z.to_N z).

Fixpoint bytes_of_string (s : string) : list Z :=
  match s with
  | EmptyString => []
  | String c s => Z_of_ascii c :: bytes_of_string s
  end.

Fixpoint string_of_bytes (bs : list Z) : string :=
  match bs with
  | [] => EmptyString
  | b :: bs => String (ascii_of_Z b) (string_of_bytes bs)
  end.

Definition strlen (s : string) : nat := length (bytes_of_string s).

Lemma Z_of_ascii_ok c : byte_ok (Z_of_ascii c).
Proof. pose proof (N_ascii_bounded c). unfold byte_ok, Z_of_ascii. lia. Qed.

Lemma ascii_of_Z_of_ascii c : ascii_of_Z (Z_of_ascii c) = c.
Proof. unfold ascii_of_Z, Z_of_ascii. rewrite N2Z.id. apply ascii_N_embedding. Qed.

Lemma Z_of_ascii_of_Z b : byte_ok b -> Z_of_ascii (ascii_of_Z b) = b.
Proof.
  intros Hb. unfold byte_ok in Hb. unfold ascii_of_Z, Z_of_ascii.
  rewrite N_ascii_embedding by lia. lia.
Qed.

Lemma string_length_app a b : String.length (a ++ b)%string = (String.length a + String.length b)%nat.
Proof. induction a as [|c a IH]; [done|]. exact (f_equal S IH). Qed.

Lemma string_app_assoc a b c : ((a ++ b) ++ c = a ++ (b ++ c))%string.
Proof. induction a as [|x a IH]; [done|]. exact (f_equal (String x) IH). Qed.

Lemma string_of_bytes_of_string s : string_of_bytes (bytes_of_string s) = s.
Proof. induction s as [|c s IH]; simpl; [done|]. now rewrite ascii_of_Z_of_ascii, IH. Qed.

Lemma bytes_of_string_of_bytes bs : bytes_ok bs -> bytes_of_string (string_of_bytes bs) = bs.
Proof.
  induction 1 as [|b bs Hb _ IH]; simpl; [done|]. now rewrite Z_of_ascii_of_Z, IH.
Qed.

Lemma bytes_of_string_ok s : bytes_ok (bytes_of_string s).
Proof. induction s; constructor; auto using Z_of_ascii_ok. Qed.

(** [fmt]'s [%x] of one nibble and [%016x] of a 64-bit value. *)
Definition hex_digit (z : Z) : ascii :=
  if z <? 10 then ascii_of_Z (48 + z) else ascii_of_Z (87 + z).

Fixpoint hex_pad (n : nat) (z : Z) (acc : string) : string :=
  match n with
  | O => acc
  | S n => hex_pad n (z / 16) (String (hex_digit (z mod 16)) acc)
  end.
Definition hex016 (z : Z) : string := hex_pad 16 z "".

(** [encoding/hex.EncodeToString]. *)
Fixpoint hex_encode (bs : list Z) : string :=
  match bs with
  | [] => ""
  | b :: bs => String (hex_digit (b / 16)) (String (hex_digit (b mod 16)) (hex_encode bs))
  end.

(** * Map iteration

    Go's [range] over a map visits every key once, in an unspecified order.  A
    loop over a map is modelled with the visited order as an argument; theorems
    hold for every order that [ranges] the map. *)

Definition ranges `{Countable K} {V} (ord : list K) (m : gmap K V) : Prop :=
  NoDup ord /\ forall k, k ∈ ord <-> is_Some (m !! k).

Definition any_order `{Countable K} {V} (m : gmap K V) : list K := (map_to_list m).*1.

Lemma any_order_ranges `{Countable K} {V} (m : gmap K V) : ranges (any_order m) m.
Proof.
  split; [apply NoDup_fst_map_to_list|]. intros k. unfold any_order.
  rewrite list_elem_of_fmap. split.
  - intros ([k' v] & -> & Hkv). apply elem_of_map_to_list in Hkv. eauto.
  - intros [v Hv]. exists (k, v). split; [done|]. now apply elem_of_map_to_list.
Qed.

(** [slices.Contains]. *)
Definition contains {A} `{EqDecision A} (l : list A) (x : A) : bool := bool_decide (x ∈ l).

Lemma contains_spec {A} `{EqDecision A} (l : list A) x : contains l x = true <-> x ∈ l.
Proof. apply bool_decide_eq_true. Qed.

(** * Binary search

    [sort.Search]: the loop over a half-open interval.  The fuel [n] bounds the
    interval's length, which every round strictly shrinks. *)
Fixpoint search_loop (fuel i j : nat) (f : nat -> bool) : nat :=
  match fuel with
  | O => i
  | S fuel =>
      if (i <? j)%nat then
        let h := ((i + j) / 2)%nat in
        if f h then search_loop fuel i h f else search_loop fuel (h + 1) j f
      else i
  end.
Definition sort_Search (n : nat) (f : nat -> bool) : nat := search_loop n 0 n f.

Definition monotone_pred (n : nat) (f : nat -> bool) : Prop :=
  forall i j, (i <= j < n)%nat -> f i = true -> f j = true.

Lemma search_loop_spec n f : monotone_pred n f ->
  forall fuel i j, (j - i <= fuel)%nat -> (i <= j <= n)%nat ->
  (forall k, (k < i)%nat -> f k = false) -> (forall k, (j <= k < n)%nat -> f k = true) ->
  let r := search_loop fuel i j f in
  (i <= r <= j)%nat /\ (forall k, (k < r)%nat -> f k = false) /\
  (forall k, (r <= k < n)%nat -> f k = true).
Proof.
  intros Hm. induction fuel as [|fuel IH]; intros i j Hf Hij Hlo Hhi; cbn [search_loop].
  - assert (i = j) by lia. subst. auto with lia.
  - destruct (Nat.ltb_spec i j); [|assert (i = j) by lia; subst; auto with lia].
    assert (Hh : (i <= (i + j) / 2 < j)%nat).
    { split; [apply Nat.div_le_lower_bound; lia|apply Nat.Div0.div_lt_upper_bound; lia]. }
    destruct (f ((i + j) / 2)%nat) eqn:E; edestruct IH as (H1 & H2 & H3); cycle -1;
      try (split; [|split; [exact H2|exact H3]]; lia); try lia; try assumption.
    + intros k Hk. apply (Hm ((i + j) / 2)%nat); [lia|done].
    + intros k Hk. destruct (f k) eqn:Ek; [|done]. destruct (decide (k < i)%nat); [now rewrite Hlo in Ek by lia|].
      rewrite <- E. symmetry. apply (Hm k); [lia|done].
Qed.

Lemma sort_Search_spec n f : monotone_pred n f ->
  let r := sort_Search n f in
  (r <= n)%nat /\ (forall k, (k < r)%nat -> f k = false) /\
  (forall k, (r <= k < n)%nat -> f k = true).
Proof.
  intros Hm. destruct (search_loop_spec n f Hm n 0 n) as (H1 & H2 & H3); try lia.
  unfold sort_Search. cbn zeta. auto with lia.
Qed.

(** * Tactics *)

(** Case on the scrutinee of the innermost match or conditional of the goal. *)
Ltac case_step :=
  match goal with
  | |- context [if ?b then _ else _] => destruct b eqn:?
  | |- context [match ?x with _ => _ end] => destruct x eqn:?
  end.

(** Turn boolean comparisons in the context into propositions. *)
Ltac to_props :=
  repeat match goal with
  | H : (_ && _) = true |- _ => apply andb_true_iff in H; destruct H
  | H : (_ || _) = false |- _ => apply orb_false_iff in H; destruct H
  | H : negb _ = true |- _ => apply negb_true_iff in H
  | H : negb _ = false |- _ => apply negb_false_iff in H
  | H : (_ =? _) = true |- _ => apply Z.eqb_eq in H
  | H : (_ =? _) = false |- _ => apply Z.eqb_neq in H
  | H : (_ <? _) = true |- _ => apply Z.ltb_lt in H
  | H : (_ <? _) = false |- _ => apply Z.ltb_ge in H
  | H : (_ <=? _) = true |- _ => apply Z.leb_le in H
  | H : (_ <=? _) = false |- _ => apply Z.leb_gt in H
  | H : (_ >=? _) = true |- _ => rewrite Z.geb_leb in H
  | H : (_ >=? _) = false |- _ => rewrite Z.geb_leb in H
  | H : (_ >? _) = true |- _ => rewrite Z.gtb_ltb in H
  | H : (_ >? _) = false |- _ => rewrite Z.gtb_ltb in H
  | H : bool_decide _ = true |- _ => apply bool_decide_eq_true in H
  | H : bool_decide _ = false |- _ => apply bool_decide_eq_false in H
  end.
