(* ===== verification/CanId.v ===== *)
(** The 29-bit CAN identifier and the 64-bit ISO NAME: [canbus/canid.go] and
    [canbus/name.go].  Parsing and building are total functions on machine
    integers; the theorems give the two round trips exactly, the bits an
    identifier loses included. *)

From S2P Require Import Prelude.

(** * CAN identifiers *)

Record CANHeader := mkCANHeader {
  Priority : Z;
  PGN : Z;
  Source : Z;
  Destination : Z
}.

Definition ParseCANID (id : Z) : CANHeader :=
  let source := u8 (Z.land id 0xFF) in
  let ps := u8 (Z.land (Z.shiftr id 8) 0xFF) in
  let pf := u8 (Z.land (Z.shiftr id 16) 0xFF) in
  let dp := u8 (Z.land (Z.shiftr id 24) 0x01) in
  let priority := u8 (Z.land (Z.shiftr id 26) 0x07) in
  let '(pgn, dest) :=
    if 240 <=? pf then
      (Z.lor (Z.lor (u32 (Z.shiftl dp 16)) (u32 (Z.shiftl pf 8))) ps, 0xFF)
    else
      (Z.lor (u32 (Z.shiftl dp 16)) (u32 (Z.shiftl pf 8)), ps) in
  mkCANHeader priority pgn source dest.

Definition BuildCANID (h : CANHeader) : Z :=
  let dp := Z.land (Z.shiftr (PGN h) 16) 0x01 in
  let pf := u8 (Z.land (Z.shiftr (PGN h) 8) 0xFF) in
  let ps := if 240 <=? pf then u8 (Z.land (PGN h) 0xFF) else Destination h in
  Z.lor (Z.lor (Z.lor (Z.lor
    (u32 (Z.shiftl (Priority h) 26)) (u32 (Z.shiftl dp 24)))
    (u32 (Z.shiftl pf 16))) (u32 (Z.shiftl ps 8))) (Source h).

(** The Go types of the header's fields. *)
Definition header_typed (h : CANHeader) : Prop :=
  0 <= Priority h < 2 ^ 8 /\ 0 <= PGN h < 2 ^ 32 /\
  0 <= Source h < 2 ^ 8 /\ 0 <= Destination h < 2 ^ 8.

(** A header a 29-bit identifier can carry: 3 priority bits, a PGN of 17 bits,
    and either a PDU2 PGN with the broadcast destination or a PDU1 PGN whose
    low byte, the destination's place, is zero. *)
Definition header_valid (h : CANHeader) : Prop :=
  0 <= Priority h < 2 ^ 3 /\ 0 <= PGN h < 2 ^ 17 /\
  0 <= Source h < 2 ^ 8 /\ 0 <= Destination h < 2 ^ 8 /\
  (if 240 <=? (PGN h / 2 ^ 8) mod 2 ^ 8 then Destination h = 0xFF else PGN h mod 2 ^ 8 = 0).

Lemma header_valid_typed h : header_valid h -> header_typed h.
Proof.
  intros (? & ? & ? & ? & _). unfold header_typed. split_ranges; bit_range.
Qed.

Lemma ParseCANID_typed id : header_typed (ParseCANID id).
Proof.
  unfold header_typed, ParseCANID. case_step; cbn [Priority PGN Source Destination];
    split_ranges; bit_range.
Qed.

Lemma BuildCANID_range h : header_typed h -> 0 <= BuildCANID h < 2 ^ 32.
Proof.
  intros (? & ? & ? & ?). unfold BuildCANID. case_step; bit_range.
Qed.

(** Building the identifier of a parsed header gives back the identifier
    without its reserved bit 25 and the flag bits 29-31 above the 29-bit id;
    so [BuildCANID (ParseCANID x) = x] exactly on the ids whose masked bits are
    clear. *)
Theorem BuildCANID_ParseCANID id :
  0 <= id < 2 ^ 32 -> BuildCANID (ParseCANID id) = Z.land id 0x1DFFFFFF.
Proof.
  intros Hid. apply (bits_eq 32); [lia|apply BuildCANID_range, ParseCANID_typed|bit_range|].
  assert (Hpf : forall pf dp, pf = u8 (Z.land (Z.shiftr id 16) 0xFF) -> dp = u8 (Z.land (Z.shiftr id 24) 1) ->
    forall ps, 0 <= ps < 2 ^ 8 ->
    u8 (Z.land (Z.shiftr (Z.lor (Z.lor (u32 (Z.shiftl dp 16)) (u32 (Z.shiftl pf 8))) ps) 8) 0xFF) = pf).
  { intros pf dp -> -> ps Hps. apply (bits_eq 8); [lia|bit_range..|].
    intros i Hi. enum_bits i 8; bit_norm; bit_small; try reflexivity. }
  intros i Hi. unfold ParseCANID. case_step; unfold BuildCANID; cbn [Priority PGN Source Destination].
  - rewrite (Hpf _ _ eq_refl eq_refl) by bit_range. rewrite Heqb.
    enum_bits i 32; bit_norm; reflexivity.
  - specialize (Hpf _ _ eq_refl eq_refl 0 ltac:(lia)). rewrite Z.lor_0_r in Hpf. rewrite Hpf, Heqb.
    enum_bits i 32; bit_norm; reflexivity.
Qed.

Lemma pdu_format h : u8 (Z.land (Z.shiftr (PGN h) 8) 0xFF) = (PGN h / 2 ^ 8) mod 2 ^ 8.
Proof.
  change 0xFF with (Z.ones 8). rewrite Z.land_ones, Z.shiftr_div_pow2 by lia.
  apply wrap_small, Z.mod_pos_bound. lia.
Qed.

(** The 8 bits of an identifier at position [k]. *)
Lemma BuildCANID_field h k :
  header_typed h ->
  (k = 0 -> u8 (Z.land (BuildCANID h) 0xFF) = Source h) /\
  (k = 8 -> u8 (Z.land (Z.shiftr (BuildCANID h) 8) 0xFF) =
     if 240 <=? u8 (Z.land (Z.shiftr (PGN h) 8) 0xFF)
     then u8 (Z.land (PGN h) 0xFF) else Destination h) /\
  (k = 16 -> u8 (Z.land (Z.shiftr (BuildCANID h) 16) 0xFF) = u8 (Z.land (Z.shiftr (PGN h) 8) 0xFF)).
Proof.
  intros (Hp & Hg & Hs & Hd). unfold BuildCANID. case_step; (split; [|split]); intros _;
    (apply (bits_eq 8); [lia|bit_range..|]); intros i Hi;
    enum_bits i 8; bit_norm; bit_small; reflexivity.
Qed.

Lemma parse_built h : header_valid h -> ParseCANID (BuildCANID h) = h.
Proof.
  intros Hv. pose proof (header_valid_typed h Hv) as Ht.
  destruct (BuildCANID_field h 0 Ht) as (F0 & _). destruct (BuildCANID_field h 8 Ht) as (_ & F8 & _).
  destruct (BuildCANID_field h 16 Ht) as (_ & _ & F16).
  specialize (F0 eq_refl). specialize (F8 eq_refl). specialize (F16 eq_refl).
  destruct Hv as (Hp & Hg & Hs & Hd & Hpdu). rewrite <- pdu_format in Hpdu.
  unfold ParseCANID. rewrite F0, F8, F16.
  replace (u8 (Z.land (Z.shiftr (BuildCANID h) 26) 0x07)) with (Priority h).
  2:{ apply (bits_eq 8); [lia|bit_range..|]. intros i Hi. unfold BuildCANID. case_step;
      enum_bits i 8; bit_norm; bit_small; reflexivity. }
  replace (u8 (Z.land (Z.shiftr (BuildCANID h) 24) 0x01)) with (Z.land (Z.shiftr (PGN h) 16) 1).
  2:{ apply (bits_eq 8); [lia|bit_range..|]. intros i Hi. unfold BuildCANID. case_step;
      enum_bits i 8; bit_norm; bit_small; reflexivity. }
  destruct h as [prio pgn src dst]; cbn [Priority PGN Source Destination] in *.
  case_step; f_equal; try congruence.
  - apply (bits_eq 32); [lia|bit_range..|]. intros i Hi.
    enum_bits i 32; bit_norm; bit_small; reflexivity.
  - assert (Hlow : forall i, 0 <= i < 8 -> Z.testbit pgn i = false).
    { intros i Hi. rewrite <- (Z.mod_pow2_bits_low pgn 8 i) by lia. rewrite Hpdu. apply Z.testbit_0_l. }
    apply (bits_eq 32); [lia|bit_range..|]. intros i Hi.
    enum_bits i 32; bit_norm; bit_small; rewrite ?Hlow by lia; reflexivity.
Qed.

Lemma shiftl_range k m z : 0 <= k -> 0 <= m -> 0 <= z < 2 ^ k -> 0 <= Z.shiftl z m < 2 ^ (k + m).
Proof.
  intros Hk Hm Hz. rewrite Z.shiftl_mul_pow2, Z.pow_add_r by lia.
  pose proof (Z.pow_pos_nonneg 2 m ltac:(lia) Hm). nia.
Qed.

(** A valid header's identifier is a 29-bit one. *)
Lemma BuildCANID_valid_range h : header_valid h -> 0 <= BuildCANID h < 2 ^ 29.
Proof.
  intros (Hp & Hg & Hs & Hd & _). unfold BuildCANID.
  assert (Hw : forall k m z, 0 <= k -> 0 <= m -> k + m <= 29 -> 0 <= z < 2 ^ k ->
    0 <= u32 (Z.shiftl z m) < 2 ^ 29).
  { intros k m z Hk Hm Hkm Hz. pose proof (shiftl_range k m z Hk Hm Hz).
    pose proof (Z.pow_le_mono_r 2 (k + m) 29 ltac:(lia) Hkm). rewrite wrap_small; lia. }
  repeat (apply lor_range; [lia| |]).
  - apply (Hw 3); lia.
  - apply (Hw 1); try lia. apply (land_range_r 1); lia.
  - apply (Hw 8); try lia. apply wrap_range. lia.
  - apply (Hw 8); try lia. case_step; [apply wrap_range; lia|lia].
  - lia.
Qed.

(** Every header a 29-bit identifier can carry survives building and
    parsing; [BuildCANID] is injective on those headers. *)
Theorem ParseCANID_BuildCANID h : header_valid h -> ParseCANID (BuildCANID h) = h.
Proof. exact (parse_built h). Qed.

Lemma ParseCANID_BuildCANID_witness :
  let h := mkCANHeader 6 59904 254 255 in header_valid h /\ ParseCANID (BuildCANID h) = h.
Proof.
  assert (H : header_valid (mkCANHeader 6 59904 254 255)).
  { unfold header_valid. cbn [Priority PGN Source Destination]. split_ranges; try lia; vm_compute; reflexivity. }
  split; [exact H|]. apply (ParseCANID_BuildCANID _ H).
Defined.

Lemma BuildCANID_ParseCANID_witness :
  0 <= 0x9DF11234 < 2 ^ 32 /\ BuildCANID (ParseCANID 0x9DF11234) = Z.land 0x9DF11234 0x1DFFFFFF.
Proof. split; [lia|]. apply BuildCANID_ParseCANID. lia. Defined.

(** * The ISO NAME *)

(** [Manufacturers]: NMEA 2000 manufacturer codes. *)
Definition Manufacturers : gmap Z string := list_to_map [
  (69, "Maretron"); (78, "FW Murphy"); (80, "Twin Disc");
  (85, "Kohler"); (88, "Hemisphere GPS"); (116, "BEP");
  (135, "Airmar"); (137, "Simrad"); (140, "Lowrance");
  (144, "Mercury Marine"); (147, "Nautibus"); (148, "Blue Water Data");
  (154, "Westerbeke"); (163, "Evinrude"); (165, "CPAC Systems");
  (168, "Xantrex"); (174, "Yanmar"); (176, "Mastervolt");
  (185, "BEP Marine"); (192, "Floscan"); (198, "Mystic Valley Comms");
  (199, "Actia"); (211, "Nobeltec"); (215, "Oceanic Systems");
  (224, "Yacht Monitoring Solutions"); (228, "ZF"); (229, "Garmin");
  (233, "Yacht Devices"); (235, "SilverHook/Fusion"); (243, "Coelmo");
  (257, "Honda"); (272, "Groco"); (273, "Actisense");
  (274, "Amphenol"); (275, "Navico"); (283, "Hamilton Jet");
  (285, "Sea Recovery"); (286, "Coelmo"); (295, "BEP Marine");
  (304, "Empir Bus"); (305, "NovAtel"); (306, "Sleipner");
  (315, "ICOM"); (328, "Qwerty"); (341, "Victron Energy");
  (345, "Korea Maritime University"); (351, "Thrane and Thrane"); (355, "Mastervolt");
  (356, "Fischer Panda"); (358, "Victron"); (370, "Rolls Royce Marine");
  (373, "Electronic Design"); (374, "Northern Lights"); (378, "Glendinning");
  (381, "B&G"); (384, "Rose Point Navigation"); (385, "Johnson Outdoors");
  (394, "Capi 2"); (396, "Beyond Measure"); (400, "Livorsi Marine");
  (404, "ComNav"); (409, "Chetco Digital Instruments"); (419, "Fusion");
  (421, "Standard Horizon"); (422, "True Heading"); (426, "Egersund Marine Electronics");
  (427, "Em-Trak Marine Electronics"); (431, "Tohatsu"); (437, "Digital Yacht");
  (440, "Comar Systems"); (443, "VDO/Continental"); (451, "Parker Hannifin");
  (459, "Alltek Marine Electronics"); (460, "SAN Giorgio"); (466, "Ocean Signal");
  (467, "Mastervolt"); (470, "Webasto"); (471, "Torqeedo");
  (473, "Silvertek"); (476, "GME/Standard Communications"); (478, "Humminbird");
  (481, "Sea Cross Marine"); (493, "LCJ Capteurs"); (499, "Vesper Marine");
  (502, "Attwood Marine"); (503, "Naviop"); (504, "Vessel Systems & Electronics");
  (510, "Marinesoft"); (517, "NoLand Engineering"); (518, "Transas Marine");
  (529, "National Instruments Korea"); (532, "Shenzhen Jiuzhou Himunication"); (540, "Cummins");
  (557, "Suzuki"); (571, "Volvo Penta"); (573, "Watcheye");
  (578, "Advansea"); (579, "KVH"); (580, "San Jose Technology");
  (583, "Yacht Control"); (586, "Ewol"); (591, "Raymarine");
  (595, "Diverse Yacht Services"); (600, "Furuno"); (605, "Si-Tex");
  (612, "Samwon IT"); (614, "Seekeeper"); (637, "Cox Powertrain");
  (641, "Humphree"); (644, "Ocean LED"); (645, "Prospec");
  (658, "NovAtel"); (688, "Poly Planar"); (715, "Lumishore");
  (717, "Bilt Solar"); (735, "Yamaha"); (739, "Dometic");
  (743, "Simrad"); (744, "Intellian"); (773, "Broyda Industries");
  (776, "Canadian Automotive"); (795, "Technicold"); (796, "Blue Water Desalination");
  (803, "Gill Sensors"); (811, "HelmSmith"); (815, "Quick");
  (824, "Undheim Systems"); (838, "TeamSurv"); (845, "Honda");
  (862, "Oceanvolt"); (868, "Prospec"); (890, "Oceanvolt");
  (909, "Still Water Designs"); (911, "BlueSea"); (1850, "Yamaha");
  (1851, "Yamaha"); (1852, "Yamaha"); (1853, "Yamaha");
  (1854, "Yamaha"); (1855, "Yamaha")
]%string.

Definition LookupManufacturer (code : Z) : string :=
  match Manufacturers !! code with
  | Some name => name
  | None => "Unknown (" +:+ pretty code +:+ ")"
  end.

Record NameFields := mkNameFields {
  NAMEHex : string;
  Manufacturer : string;
  ManufacturerCode : Z;
  DeviceClass : Z;
  DeviceFunction : Z;
  DeviceInstance : Z;
  UniqueNumber : Z
}.

Definition DecodeNAME (name : Z) : NameFields :=
  let uniqueNumber := u32 (Z.land name 0x1FFFFF) in
  let manufacturerCode := u16 (Z.land (Z.shiftr name 21) 0x7FF) in
  let instanceLower := u8 (Z.land (Z.shiftr name 32) 0x07) in
  let instanceUpper := u8 (Z.land (Z.shiftr name 35) 0x1F) in
  let deviceFunction := u8 (Z.land (Z.shiftr name 40) 0xFF) in
  let deviceClass := u8 (Z.land (Z.shiftr name 49) 0x7F) in
  let deviceInstance := Z.lor (u8 (Z.shiftl instanceUpper 3)) instanceLower in
  {| NAMEHex := hex016 name;
     Manufacturer := LookupManufacturer manufacturerCode;
     ManufacturerCode := manufacturerCode;
     DeviceClass := deviceClass;
     DeviceFunction := deviceFunction;
     DeviceInstance := deviceInstance;
     UniqueNumber := uniqueNumber |}.

Record NameEncodeFields := mkNameEncodeFields {
  ne_UniqueNumber : Z;
  ne_ManufacturerCode : Z;
  ne_DeviceInstance : Z;
  ne_DeviceFunction : Z;
  ne_DeviceClass : Z;
  ne_SystemInstance : Z;
  ne_IndustryGroup : Z;
  ne_ArbitraryAddressCapable : bool
}.

Definition EncodeName (f : NameEncodeFields) : Z :=
  let name := 0 in
  let name := Z.lor name (Z.land (ne_UniqueNumber f) 0x1FFFFF) in
  let name := Z.lor name (u64 (Z.shiftl (Z.land (ne_ManufacturerCode f) 0x7FF) 21)) in
  let name := Z.lor name (u64 (Z.shiftl (Z.land (ne_DeviceInstance f) 0x07) 32)) in
  let name := Z.lor name (u64 (Z.shiftl (Z.land (Z.shiftr (ne_DeviceInstance f) 3) 0x1F) 35)) in
  let name := Z.lor name (u64 (Z.shiftl (ne_DeviceFunction f) 40)) in
  let name := Z.lor name (u64 (Z.shiftl (Z.land (ne_DeviceClass f) 0x7F) 49)) in
  let name := Z.lor name (u64 (Z.shiftl (Z.land (ne_SystemInstance f) 0x0F) 56)) in
  let name := Z.lor name (u64 (Z.shiftl (Z.land (ne_IndustryGroup f) 0x07) 60)) in
  if ne_ArbitraryAddressCapable f then Z.lor name (u64 (Z.shiftl 1 63)) else name.

(** The Go types of the fields [DecodeNAME] gives back; [EncodeName] masks the
    wider ones, so these are the only bounds the round trip needs. *)
Definition name_typed (f : NameEncodeFields) : Prop :=
  0 <= ne_DeviceInstance f < 2 ^ 8 /\ 0 <= ne_DeviceFunction f < 2 ^ 8.

Ltac name_bits n :=
  let i := fresh "i" in intros i ?; unfold EncodeName; case_step;
  enum_bits i n; bit_norm; bit_small; reflexivity.

(** Decoding an encoded NAME gives back every field [DecodeNAME] reports,
    each cut to the width it has in the NAME (21, 11 and 7 bits; the instance,
    split over two bit fields, and the function come back whole), whatever the
    system instance, the industry group and the address capability are. *)
Theorem DecodeNAME_EncodeName f :
  name_typed f ->
  let d := DecodeNAME (EncodeName f) in
  UniqueNumber d = ne_UniqueNumber f mod 2 ^ 21 /\
  ManufacturerCode d = ne_ManufacturerCode f mod 2 ^ 11 /\
  DeviceInstance d = ne_DeviceInstance f /\
  DeviceFunction d = ne_DeviceFunction f /\
  DeviceClass d = ne_DeviceClass f mod 2 ^ 7 /\
  NAMEHex d = hex016 (EncodeName f) /\
  Manufacturer d = LookupManufacturer (ne_ManufacturerCode f mod 2 ^ 11).
Proof.
  intros (Hi & Hf) d.
  assert (Hmc : ManufacturerCode d = ne_ManufacturerCode f mod 2 ^ 11).
  { apply (bits_eq 16); [lia|unfold d; cbn [DecodeNAME ManufacturerCode]; bit_range| |].
    { apply (range_weaken 11); [lia|apply Z.mod_pos_bound; lia]. }
    unfold d; cbn [DecodeNAME ManufacturerCode]; fold (wrap 11 (ne_ManufacturerCode f)).
    name_bits 16. }
  split; [|split; [exact Hmc|split; [|split; [|split; [|split; [reflexivity|]]]]]].
  - unfold d; cbn [DecodeNAME UniqueNumber]; fold (wrap 21 (ne_UniqueNumber f)).
    apply (bits_eq 32); [lia|bit_range..|]. name_bits 32.
  - unfold d; cbn [DecodeNAME DeviceInstance].
    apply (bits_eq 8); [lia|bit_range..|]. name_bits 8.
  - unfold d; cbn [DecodeNAME DeviceFunction].
    apply (bits_eq 8); [lia|bit_range..|]. name_bits 8.
  - unfold d; cbn [DecodeNAME DeviceClass]; fold (wrap 7 (ne_DeviceClass f)).
    apply (bits_eq 8); [lia|bit_range..|]. name_bits 8.
  - change (Manufacturer d) with (LookupManufacturer (ManufacturerCode d)). now rewrite Hmc.
Qed.

Lemma DecodeNAME_EncodeName_witness :
  let f := mkNameEncodeFields 0x123456 229 0xAB 130 25 0 4 true in
  name_typed f /\ DeviceInstance (DecodeNAME (EncodeName f)) = 0xAB.
Proof.
  assert (H : name_typed (mkNameEncodeFields 0x123456 229 0xAB 130 25 0 4 true)) by (split; cbn; lia).
  split; [exact H|]. apply (DecodeNAME_EncodeName _ H).
Defined.
