(* ===== verification/FastPacket.v ===== *)
(** Fast-packet reassembly and fragmentation: [fastpacket.go].

    The assembler is a map from (PGN, source) to transfers in progress.  A
    single transfer is specified by [transfer_step], a machine over one optional
    [reassemblyState]; [Process] is shown to run that machine on its own key and
    to leave every other key alone, so that the round trip of fragmentation and
    reassembly holds under any interleaving with other transfers. *)

From S2P Require Import Prelude.

(** * The generated PGN registry

    [pgn.Registry] is generated at build time; the code relies only on the
    [FastPacket] flag of an entry here. *)
Section Registry.
Variable registry_fast : Z -> option bool.

Definition IsFastPacket (pgnNum : Z) : bool :=
    match registry_fast pgnNum with
    | Some fast => fast
    | None => false
    end.
End Registry.

(** * State *)

Abbreviation reassemblyKey := (Z * Z)%type.

Record reassemblyState := mkReassembly {
  SeqID : Z;
  TotalLen : nat;
  Data : list Z;
  NextFrame : Z;
  StartedAt : time
}.

Record FastPacketAssembler := mkAssembler {
  inProgress : gmap reassemblyKey reassemblyState;
  timeout : duration
}.

Definition NewFastPacketAssembler (t : duration) : FastPacketAssembler := mkAssembler ∅ t.

Definition set_progress (a : FastPacketAssembler) (m : gmap reassemblyKey reassemblyState) :=
  mkAssembler m (timeout a).

(** * Reassembly *)

Definition Process (a : FastPacketAssembler) (pgn source : Z) (data : list Z) (now : time)
  : FastPacketAssembler * option (list Z) :=
  match data with
  | b0 :: b1 :: rest =>
      let key := (pgn, source) in
      let seqID := Z.shiftr b0 5 in
      let frameNum := Z.land b0 0x1F in
      if frameNum =? 0 then
        let totalLen := Z.to_nat b1 in
        if (totalLen =? 0)%nat then (a, None)
        else
          let payload := if (totalLen <? length rest)%nat then take totalLen rest else rest in
          let state := mkReassembly seqID totalLen payload 1 now in
          if (totalLen <=? length (Data state))%nat then
            (set_progress a (delete key (inProgress a)), Some (take totalLen (Data state)))
          else
            (set_progress a (<[key := state]> (inProgress a)), None)
      else
        match inProgress a !! key with
        | None => (a, None)
        | Some state =>
            if negb (SeqID state =? seqID) || negb (frameNum =? NextFrame state) then
              (set_progress a (delete key (inProgress a)), None)
            else if time_Sub now (StartedAt state) >? timeout a then
              (set_progress a (delete key (inProgress a)), None)
            else
              let payload := b1 :: rest in
              let remaining := (TotalLen state - length (Data state))%nat in
              let payload := if (remaining <? length payload)%nat then take remaining payload else payload in
              let state' := mkReassembly (SeqID state) (TotalLen state) (Data state ++ payload)
                              (NextFrame state + 1) (StartedAt state) in
              if (TotalLen state' <=? length (Data state'))%nat then
                (set_progress a (delete key (inProgress a)), Some (take (TotalLen state') (Data state')))
              else
                (set_progress a (<[key := state']> (inProgress a)), None)
        end
  | _ => (a, None)
  end.

Definition stale (a : FastPacketAssembler) (now : time) (state : reassemblyState) : bool :=
  time_Sub now (StartedAt state) >? timeout a.

Definition PurgeStale (a : FastPacketAssembler) (now : time) : FastPacketAssembler :=
  set_progress a (filter (fun '(_, state) => stale a now state = false) (inProgress a)).

(** * Fragmentation *)

Fixpoint fragment_loop (fuel : nat) (data : list Z) (seqBits : Z) (offset : nat) (frameNum : Z)
  : list (list Z) :=
  match fuel with
  | O => []
  | S fuel =>
      if (offset <? length data)%nat then
        let copied := Nat.min 7 (length data - offset) in
        (Z.lor seqBits (Z.land frameNum 0x1F)
           :: slice offset (offset + copied) data ++ replicate (7 - copied) 0xFF)
        :: fragment_loop fuel data seqBits (offset + copied) (u8 (frameNum + 1))
      else []
  end.

Definition FragmentFastPacket (data : list Z) (seqCounter : Z) : list (list Z) :=
  let seqBits := u8 (Z.shiftl (Z.land seqCounter 0x07) 5) in
  let totalLen := length data in
  let n := Nat.min 6 totalLen in
  let frame0 := seqBits :: u8 (Z.of_nat totalLen) :: take n data ++ replicate (6 - n) 0 in
  frame0 :: fragment_loop totalLen data seqBits n 1.

(** * Specification: one transfer *)

(** A transfer's machine: its optional state, a frame and its arrival time give
    the next state and the payload, if complete. *)
Definition transfer_step (tmo : duration) (s : option reassemblyState) (f : list Z * time)
  : option reassemblyState * option (list Z) :=
  let '(data, now) := f in
  match data with
  | b0 :: b1 :: rest =>
      let num := Z.land b0 0x1F in
      let accept st more :=
        let got := Data st ++ take (TotalLen st - length (Data st)) more in
        if (TotalLen st <=? length got)%nat then (None, Some got)
        else (Some (mkReassembly (SeqID st) (TotalLen st) got (num + 1) (StartedAt st)), None) in
      if num =? 0 then
        if (Z.to_nat b1 =? 0)%nat then (s, None)
        else accept (mkReassembly (Z.shiftr b0 5) (Z.to_nat b1) [] 0 now) rest
      else
        match s with
        | None => (None, None)
        | Some st =>
            if (SeqID st =? Z.shiftr b0 5) && (num =? NextFrame st)
               && (time_Sub now (StartedAt st) <=? tmo)
            then accept st (b1 :: rest)
            else (None, None)
        end
  | _ => (s, None)
  end.

Definition state_ok (st : reassemblyState) : Prop :=
  (length (Data st) < TotalLen st)%nat /\ (TotalLen st <= 255)%nat /\ 1 <= NextFrame st <= 32.

(** Every transfer in progress is incomplete, announces at most 255 bytes and
    waits for a frame number a 5-bit counter can reach (32 is never matched). *)
Definition assembler_ok (a : FastPacketAssembler) : Prop :=
  forall k st, inProgress a !! k = Some st -> state_ok st.

Lemma take_all_if {A} n (l : list A) : (if (n <? length l)%nat then take n l else l) = take n l.
Proof. destruct (Nat.ltb_spec n (length l)); [done|]. now rewrite take_ge. Qed.

(** [Process] refines the one-transfer machine: on its own (PGN, source)
    key it takes exactly [transfer_step], and no other key changes. *)
Theorem Process_refines_transfer a pgn source data now :
  assembler_ok a ->
  let r := Process a pgn source data now in
  let s := transfer_step (timeout a) (inProgress a !! (pgn, source)) (data, now) in
  inProgress r.1 !! (pgn, source) = s.1 /\ r.2 = s.2 /\ timeout r.1 = timeout a /\
  forall k, k <> (pgn, source) -> inProgress r.1 !! k = inProgress a !! k.
Proof.
  intros Hok. unfold Process, transfer_step.
  destruct data as [|b0 [|b1 rest]]; [done..|].
  destruct (Z.land b0 0x1F =? 0) eqn:E0.
  - destruct (Z.to_nat b1 =? 0)%nat; [done|]. cbn [Data TotalLen SeqID StartedAt app length].
    rewrite take_all_if, Nat.sub_0_r. apply Z.eqb_eq in E0. rewrite E0.
    destruct (_ <=? _)%nat; cbn; rewrite ?lookup_delete_eq, ?lookup_insert_eq.
    + rewrite take_take, Nat.min_id. repeat split. intros. now apply lookup_delete_ne.
    + repeat split. intros. now apply lookup_insert_ne.
  - destruct (inProgress a !! (pgn, source)) as [st|] eqn:Est; [|done].
    destruct (Hok _ _ Est) as (Hlen & _ & _).
    destruct (Z.eqb_spec (SeqID st) (Z.shiftr b0 5)), (Z.eqb_spec (Z.land b0 0x1F) (NextFrame st));
      cbn [negb orb andb fst snd set_progress inProgress timeout];
      rewrite ?lookup_delete_eq; try (repeat split; intros; now apply lookup_delete_ne).
    rewrite Z.gtb_ltb, Z.ltb_antisym.
    destruct (time_Sub now (StartedAt st) <=? timeout a); cbn [negb];
      [|cbn; rewrite lookup_delete_eq; repeat split; intros; now apply lookup_delete_ne].
    rewrite take_all_if. cbn [TotalLen Data].
    destruct (_ <=? _)%nat eqn:Ele; cbn; rewrite ?lookup_delete_eq, ?lookup_insert_eq.
    + rewrite take_ge by (rewrite length_app, length_take; cbn; lia).
      repeat split. intros. now apply lookup_delete_ne.
    + rewrite e0. repeat split. intros. now apply lookup_insert_ne.
Qed.

(** * The invariant *)

Lemma land31_range b : 0 <= Z.land b 0x1F < 32.
Proof. change 32 with (2 ^ 5). apply land_range_r; lia. Qed.

Lemma transfer_step_ok tmo s f :
  bytes_ok f.1 -> (forall st, s = Some st -> state_ok st) ->
  (forall st, (transfer_step tmo s f).1 = Some st -> state_ok st) /\
  (forall p, (transfer_step tmo s f).2 = Some p -> (1 <= length p <= 255)%nat).
Proof.
  destruct f as [[|b0 [|b1 rest]] now]; cbn [fst transfer_step]; intros Hb Hs; [by split..|].
  assert (Hb1 : 0 <= b1 < 256) by (inversion Hb as [|? ? _ Hb']; inversion Hb'; done).
  pose proof (land31_range b0).
  assert (Haccept : forall st more, (length (Data st) < TotalLen st)%nat -> (TotalLen st <= 255)%nat ->
    let got := Data st ++ take (TotalLen st - length (Data st)) more in
    let r := if (TotalLen st <=? length got)%nat then (None, Some got)
             else (Some (mkReassembly (SeqID st) (TotalLen st) got (Z.land b0 0x1F + 1) (StartedAt st)), None) in
    (forall st', r.1 = Some st' -> state_ok st') /\
    (forall p, r.2 = Some p -> (1 <= length p <= 255)%nat)).
  { intros st more Hd Ht got r. subst got r.
    destruct (Nat.leb_spec (TotalLen st) (length (Data st ++ take (TotalLen st - length (Data st)) more)));
      rewrite length_app, length_take in *; (split; [intros st' [= <-]|intros p [= <-]]);
      unfold state_ok; cbn [Data TotalLen NextFrame]; rewrite ?length_app, ?length_take; lia. }
  destruct (Z.land b0 0x1F =? 0).
  - destruct (Nat.eqb_spec (Z.to_nat b1) 0); [by split|].
    apply (Haccept (mkReassembly (Z.shiftr b0 5) (Z.to_nat b1) [] 0 now)); cbn; lia.
  - destruct s as [st|]; [|by split]. destruct (_ && _); [|by split].
    destruct (Hs st eq_refl) as (? & ? & ?). now apply Haccept.
Qed.

(** Every operation keeps the assembler's transfers well formed, and a
    payload [Process] returns has between 1 and 255 bytes. *)
Theorem Process_PurgeStale_ok a pgn source data now :
  assembler_ok a -> bytes_ok data ->
  assembler_ok (Process a pgn source data now).1 /\
  (forall p, (Process a pgn source data now).2 = Some p -> (1 <= length p <= 255)%nat) /\
  assembler_ok (PurgeStale a now).
Proof.
  intros Hok Hb.
  destruct (Process_refines_transfer a pgn source data now Hok) as (Hk & Ho & _ & Hother).
  destruct (transfer_step_ok (timeout a) (inProgress a !! (pgn, source)) (data, now) Hb
              ltac:(intros; eapply Hok; eassumption)) as [Hs Hp].
  split; [|split].
  - intros k st Hst. destruct (decide (k = (pgn, source))) as [->|Hne].
    + rewrite Hk in Hst. exact (Hs _ Hst).
    + rewrite Hother in Hst by done. eauto.
  - intros p. rewrite Ho. apply Hp.
  - intros k st Hst. cbn in Hst. apply map_lookup_filter_Some in Hst as [Hst _]. eauto.
Qed.

Lemma NewFastPacketAssembler_ok t : assembler_ok (NewFastPacketAssembler t).
Proof. intros k st H. cbn in H. now rewrite lookup_empty in H. Qed.

(** * Traces *)

Inductive event :=
| EvFrame (key : reassemblyKey) (data : list Z) (now : time)
| EvPurge (now : time).

Definition ev_time (e : event) : time :=
  match e with EvFrame _ _ t | EvPurge t => t end.

Fixpoint run (a : FastPacketAssembler) (evs : list event)
  : FastPacketAssembler * list (reassemblyKey * option (list Z)) :=
  match evs with
  | [] => (a, [])
  | EvFrame k data now :: evs =>
      let r := Process a k.1 k.2 data now in
      let rs := run r.1 evs in (rs.1, (k, r.2) :: rs.2)
  | EvPurge now :: evs => run (PurgeStale a now) evs
  end.

Fixpoint frames_of (k : reassemblyKey) (evs : list event) : list (list Z * time) :=
  match evs with
  | [] => []
  | EvFrame k' data now :: evs =>
      if decide (k' = k) then (data, now) :: frames_of k evs else frames_of k evs
  | EvPurge _ :: evs => frames_of k evs
  end.

Fixpoint outputs_for (k : reassemblyKey) (outs : list (reassemblyKey * option (list Z)))
  : list (option (list Z)) :=
  match outs with
  | [] => []
  | (k', o) :: outs => if decide (k' = k) then o :: outputs_for k outs else outputs_for k outs
  end.

Fixpoint transfer_run (tmo : duration) (s : option reassemblyState) (fs : list (list Z * time))
  : option reassemblyState * list (option (list Z)) :=
  match fs with
  | [] => (s, [])
  | f :: fs =>
      let r := transfer_step tmo s f in
      let rs := transfer_run tmo r.1 fs in (rs.1, r.2 :: rs.2)
  end.

Definition in_window (t0 tmo : Z) (e : event) : Prop := t0 <= ev_time e <= t0 + tmo.
Definition event_bytes (e : event) : Prop :=
  match e with EvFrame _ data _ => bytes_ok data | EvPurge _ => True end.

Lemma time_Sub_window t0 tmo t st :
  0 <= tmo <= max_duration -> t0 <= st -> t <= t0 + tmo -> time_Sub t st <= tmo.
Proof. unfold time_Sub, min_duration, max_duration. lia. Qed.

Lemma transfer_step_started tmo s f t0 :
  t0 <= f.2 -> (forall st, s = Some st -> t0 <= StartedAt st) ->
  forall st, (transfer_step tmo s f).1 = Some st -> t0 <= StartedAt st.
Proof.
  destruct f as [[|b0 [|b1 rest]] now]; cbn [snd transfer_step]; intros Hn Hs st Hst; [by eauto..|].
  assert (Haccept : forall st' more, t0 <= StartedAt st' ->
    (if (TotalLen st' <=? length (Data st' ++ take (TotalLen st' - length (Data st')) more))%nat
     then (None, Some (Data st' ++ take (TotalLen st' - length (Data st')) more))
     else (Some (mkReassembly (SeqID st') (TotalLen st')
                  (Data st' ++ take (TotalLen st' - length (Data st')) more)
                  (Z.land b0 0x1F + 1) (StartedAt st')), None)).1 = Some st -> t0 <= StartedAt st).
  { intros st' more H0. case_step; cbn; [done|]. now intros [= <-]. }
  destruct (Z.land b0 0x1F =? 0).
  - destruct (_ =? 0)%nat; [eauto|]. eapply Haccept; [|exact Hst]. done.
  - destruct s as [st'|]; [|done]. destruct (_ && _); [|done].
    eapply Haccept; [|exact Hst]. eauto.
Qed.

(** Inside a window no longer than the timeout, purges do not touch a transfer
    of the window and a key sees only its own frames. *)
Lemma run_project k t0 tmo evs : forall a,
  assembler_ok a -> timeout a = tmo -> 0 <= tmo <= max_duration ->
  (forall st, inProgress a !! k = Some st -> t0 <= StartedAt st) ->
  Forall (in_window t0 tmo) evs -> Forall event_bytes evs ->
  inProgress (run a evs).1 !! k = (transfer_run tmo (inProgress a !! k) (frames_of k evs)).1 /\
  outputs_for k (run a evs).2 = (transfer_run tmo (inProgress a !! k) (frames_of k evs)).2.
Proof.
  induction evs as [|e evs IH]; intros a Hok Ht Htmo Hst Hw Hb; [done|].
  inversion Hw as [|? ? Hwe Hws]; inversion Hb as [|? ? Hbe Hbs]; subst.
  destruct e as [[p s] data now|now]; cbn [run frames_of].
  - destruct (Process_refines_transfer a p s data now Hok) as (Hk & Ho & Htm & Hother).
    destruct (Process_PurgeStale_ok a p s data now Hok Hbe) as (Hok' & _).
    cbn [fst snd] in *. destruct (decide ((p, s) = k)) as [<-|Hne]; cbn [transfer_run fst snd outputs_for].
    + rewrite decide_True by done. rewrite <- Hk, <- Ho.
      edestruct (IH (Process a p s data now).1) as [-> ->]; eauto.
      intros st E. rewrite Hk in E. eapply transfer_step_started; [|exact Hst|exact E].
      cbn. apply Hwe.
    + rewrite decide_False by done. rewrite <- (Hother k) by congruence.
      apply IH; eauto. intros st. rewrite Hother by congruence. eauto.
  - assert (Hkeep : inProgress (PurgeStale a now) !! k = inProgress a !! k).
    { cbn. destruct (inProgress a !! k) as [st|] eqn:E.
      - apply map_lookup_filter_Some. split; [done|]. unfold stale. rewrite Z.gtb_ltb.
        apply Z.ltb_ge, (time_Sub_window t0); eauto. apply Hwe.
      - apply map_lookup_filter_None. auto. }
    rewrite <- Hkeep. apply IH; eauto.
    + apply (Process_PurgeStale_ok a 0 0 [] now Hok). constructor.
    + intros st. rewrite Hkeep. eauto.
Qed.

(** * The round trip *)

Lemma header_byte seqCounter n :
  0 <= n < 32 ->
  let b := Z.lor (u8 (Z.shiftl (Z.land seqCounter 7) 5)) (Z.land n 0x1F) in
  Z.shiftr b 5 = Z.land seqCounter 7 /\ Z.land b 0x1F = n.
Proof.
  intros Hn b. change 32 with (2 ^ 5) in Hn. split; apply (bits_eq 8); try lia; try bit_range.
  - rewrite Z.shiftr_div_pow2 by lia.
    assert (0 <= b < 2 ^ 8) by (unfold b; bit_range). split; [apply Z.div_pos; lia|].
    apply Z.div_lt_upper_bound; lia.
  - intros i Hi. unfold b. enum_bits i 8; bit_norm; reflexivity.
  - intros i Hi. unfold b. enum_bits i 8; bit_norm; bit_small; reflexivity.
Qed.

Lemma slice_snoc {A} (l : list A) i j : (i <= j)%nat -> take i l ++ slice i j l = take j l.
Proof.
  intros. unfold slice. rewrite <- take_drop_commute || idtac.
  replace j with (i + (j - i))%nat at 2 by lia. now rewrite <- take_take_drop.
Qed.

Lemma length_slice {A} (l : list A) i j : (j <= length l)%nat -> length (slice i j l) = (j - i)%nat.
Proof. intros. unfold slice. rewrite length_take, length_drop. lia. Qed.

Section RoundTrip.
Context (tmo : duration) (data : list Z) (seqCounter : Z).
Let seqBits := u8 (Z.shiftl (Z.land seqCounter 7) 5).
Let seqID := Z.land seqCounter 7.

Lemma fragment_loop_step fuel offset n :
    (offset < length data)%nat ->
    let copied := Nat.min 7 (length data - offset) in
    fragment_loop (S fuel) data seqBits offset n =
      (Z.lor seqBits (Z.land n 0x1F) :: slice offset (offset + copied) data ++ replicate (7 - copied) 0xFF)
      :: fragment_loop fuel data seqBits (offset + copied) (u8 (n + 1)).
  Proof. intros H. cbn [fragment_loop]. now apply Nat.ltb_lt in H as ->. Qed.

  (** Feeding the continuation frames from [offset] on completes the transfer. *)
Lemma transfer_run_loop started : forall fuel offset n fs,
    (length data - offset <= fuel)%nat -> (offset < length data)%nat ->
    1 <= n -> Z.of_nat (length data) <= Z.of_nat offset + 7 * (32 - n) ->
    map fst fs = fragment_loop fuel data seqBits offset n ->
    Forall (fun f => time_Sub f.2 started <= tmo) fs ->
    transfer_run tmo (Some (mkReassembly seqID (length data) (take offset data) n started)) fs
      = (None, replicate (length fs - 1) None ++ [Some data]).
  Proof.
    induction fuel as [|fuel IH]; intros offset n fs Hfuel Hoff Hn Hlen Hfs Htime; [lia|].
    rewrite fragment_loop_step in Hfs by done.
    remember (Nat.min 7 (length data - offset)) as copied eqn:Hcop.
    destruct fs as [|[fr t] fs]; [done|]. injection Hfs as Hfr Hfs.
    inversion Htime as [|? ? Ht Htime']; subst fr. cbn [snd] in Ht.
    destruct (header_byte seqCounter n ltac:(lia)) as [Hseq Hnum]. fold seqBits seqID in Hseq, Hnum.
    assert (Hsl : length (slice offset (offset + copied) data) = copied) by (rewrite length_slice; lia).
    assert (Hstep : transfer_step tmo (Some (mkReassembly seqID (length data) (take offset data) n started))
      (Z.lor seqBits (Z.land n 0x1F) :: slice offset (offset + copied) data ++ replicate (7 - copied) 0xFF, t)
      = if (length data <=? offset + copied)%nat then (None, Some data)
        else (Some (mkReassembly seqID (length data) (take (offset + copied) data) (n + 1) started), None)).
    { destruct (slice offset (offset + copied) data) as [|b1 rest] eqn:Esl; [cbn in Hsl; lia|].
      cbn [transfer_step app]. rewrite Hnum. destruct (Z.eqb_spec n 0); [lia|].
      cbn [SeqID NextFrame StartedAt TotalLen Data]. rewrite Hseq, !Z.eqb_refl.
      destruct (Z.leb_spec (time_Sub t started) tmo); [cbn [andb]|lia].
      change (b1 :: rest ++ ?x) with ((b1 :: rest) ++ x). rewrite <- Esl, length_take.
      rewrite Nat.min_l by lia.
      assert (Htk : take (length data - offset) (slice offset (offset + copied) data ++ replicate (7 - copied) 0xFF)
                  = slice offset (offset + copied) data).
      { destruct (decide (copied = 7%nat)) as [E|].
        - replace (7 - copied)%nat with 0%nat by lia. cbn [replicate].
          rewrite app_nil_r. apply take_ge. rewrite Esl. lia.
        - rewrite take_app_le by (rewrite Esl; lia). apply take_ge. rewrite Esl. lia. }
      rewrite Htk, slice_snoc by lia. rewrite length_take, Nat.min_l by lia.
      destruct (Nat.leb_spec (length data) (offset + copied)); [|done]. now rewrite take_ge by lia. }
    cbn [transfer_run]. rewrite Hstep. destruct (Nat.leb_spec (length data) (offset + copied)); cbn [fst snd].
    - assert (Hnil : fragment_loop fuel data seqBits (offset + copied) (u8 (n + 1)) = []).
      { destruct fuel; [done|]. cbn [fragment_loop]. now rewrite (proj2 (Nat.ltb_ge _ _)) by lia. }
      rewrite Hnil in Hfs. apply map_eq_nil in Hfs as ->. reflexivity.
    - rewrite (IH (offset + copied)%nat (n + 1) fs); [|lia|lia|lia|lia| |done].
      + cbn [length fst snd]. destruct fs as [|f fs].
        { destruct fuel; [lia|]. rewrite fragment_loop_step in Hfs by lia. done. }
        cbn [length]. f_equal. now rewrite !Nat.sub_succ, !Nat.sub_0_r.
      + rewrite Hfs. f_equal. apply wrap_small. lia.
  Qed.
End RoundTrip.

Lemma transfer_step_first tmo s data seqCounter fr t0 :
  (1 <= length data <= 255)%nat ->
  fr = u8 (Z.shiftl (Z.land seqCounter 7) 5) :: u8 (Z.of_nat (length data))
         :: take (Nat.min 6 (length data)) data ++ replicate (6 - Nat.min 6 (length data)) 0 ->
  transfer_step tmo s (fr, t0) =
    if (length data <=? 6)%nat then (None, Some data)
    else (Some (mkReassembly (Z.land seqCounter 7) (length data) (take 6 data) 1 t0), None).
Proof.
  intros Hlen ->. destruct (header_byte seqCounter 0 ltac:(lia)) as [Hs Hn].
  change (Z.land 0 0x1F) with 0 in Hs, Hn. rewrite Z.lor_0_r in Hs, Hn.
  cbn [transfer_step]. rewrite Hs, Hn. cbn [Z.eqb].
  rewrite wrap_small by lia. rewrite Nat2Z.id.
  destruct (Nat.eqb_spec (length data) 0); [lia|].
  cbn [Data TotalLen SeqID StartedAt app length]. rewrite Nat.sub_0_r.
  destruct (Nat.leb_spec (length data) 6).
  - rewrite Nat.min_r by lia. rewrite (take_ge data) by lia.
    rewrite take_app_le, take_ge by lia. rewrite Nat.leb_refl. done.
  - rewrite Nat.min_l by lia. cbn [replicate Nat.sub]. rewrite app_nil_r.
    rewrite take_ge by (rewrite length_take; lia). rewrite length_take.
    destruct (Nat.leb_spec (length data) (Nat.min 6 (length data))); [lia|done].
Qed.

Lemma frames_of_window k t0 tmo evs :
  0 <= tmo <= max_duration -> Forall (in_window t0 tmo) evs ->
  Forall (fun f => time_Sub f.2 t0 <= tmo) (frames_of k evs).
Proof.
  intros Ht. induction 1 as [|e evs He _ IH]; [constructor|].
  destruct e as [k' fr t|t]; cbn [frames_of]; [|done].
  destruct (decide _); [|done]. constructor; [|done]. cbn.
  apply (time_Sub_window t0); [done|lia|apply He].
Qed.

Lemma fragment_reassemble_ok a k data seqCounter t0 evs :
  assembler_ok a -> 0 <= timeout a <= max_duration ->
  (1 <= length data <= 223)%nat ->
  Forall (in_window t0 (timeout a)) evs -> Forall event_bytes evs ->
  (exists fr evs', evs = EvFrame k fr t0 :: evs') ->
  map fst (frames_of k evs) = FragmentFastPacket data seqCounter ->
  inProgress (run a evs).1 !! k = None /\
  outputs_for k (run a evs).2 =
    replicate (length (FragmentFastPacket data seqCounter) - 1) None ++ [Some data].
Proof.
  intros Hok Htmo Hlen Hw Hb (fr & evs' & ->) Hfs.
  inversion Hw as [|? ? _ Hw']; inversion Hb as [|? ? Hbe Hb']; subst.
  cbn [frames_of run] in *. rewrite decide_True in Hfs by done.
  assert (Hfrag : fr :: map fst (frames_of k evs') = FragmentFastPacket data seqCounter) by exact Hfs.
  rewrite <- Hfrag. cbn [length]. rewrite Nat.sub_succ, Nat.sub_0_r, length_map.
  destruct k as [p s]. cbn [fst snd] in *.
  destruct (Process_refines_transfer a p s fr t0 Hok) as (Hk & Ho & Htm & _).
  destruct (Process_PurgeStale_ok a p s fr t0 Hok Hbe) as (Hok' & _).
  cbn [outputs_for]. rewrite decide_True by done. rewrite Ho.
  pose proof (f_equal (hd []) Hfrag) as Hfr. pose proof (f_equal (@tl _) Hfrag) as Hrest.
  cbn [hd tl FragmentFastPacket] in Hfr, Hrest.
  rewrite transfer_step_first with (data := data) (seqCounter := seqCounter) in Hk |- * by (lia || done).
  edestruct (run_project (p, s) t0 (timeout a) evs') as [-> ->];
    [exact Hok'|exact Htm|exact Htmo| |exact Hw'|exact Hb'|].
  { rewrite Hk. case_step; cbn; [done|]. now intros st [= <-]. }
  rewrite Hk. destruct (Nat.leb_spec (length data) 6); cbn [fst snd].
  - rewrite Nat.min_r in Hrest by lia.
    assert (Hnil : frames_of (p, s) evs' = []).
    { destruct (length data) as [|n] eqn:E; [lia|]. cbn [fragment_loop] in Hrest.
      rewrite E, (proj2 (Nat.ltb_ge _ _)) in Hrest by lia. now apply map_eq_nil in Hrest. }
    now rewrite Hnil.
  - rewrite Nat.min_l in Hrest by lia.
    rewrite (transfer_run_loop _ data seqCounter t0 (length data) 6 1); try lia; try done.
    + destruct (frames_of (p, s) evs') as [|f fs]; [|cbn; now rewrite Nat.sub_0_r].
      destruct (length data) as [|n] eqn:E; [lia|].
      rewrite fragment_loop_step in Hrest by lia. done.
    + apply frames_of_window; done.
Qed.

(** The fragments of a payload of 1 to 223 bytes reassemble to it under
    any interleaving with other transfers and purges: whatever the assembler
    held before, every output of the transfer's key is empty but the last, which
    is the payload, and the key is then free, provided all events after frame 0
    fall within the timeout of it. *)
Theorem fragment_reassemble a k data seqCounter t0 evs :
  assembler_ok a -> 0 <= timeout a <= max_duration ->
  (1 <= length data <= 223)%nat ->
  Forall (in_window t0 (timeout a)) evs -> Forall event_bytes evs ->
  (exists fr evs', evs = EvFrame k fr t0 :: evs') ->
  map fst (frames_of k evs) = FragmentFastPacket data seqCounter ->
  inProgress (run a evs).1 !! k = None /\
  outputs_for k (run a evs).2 =
    replicate (length (FragmentFastPacket data seqCounter) - 1) None ++ [Some data].
Proof. apply fragment_reassemble_ok. Qed.

(** Frames of one payload, arriving one millisecond apart. *)
Definition arrivals (k : reassemblyKey) (t0 : time) (frames : list (list Z)) : list event :=
  imap (fun i fr => EvFrame k fr (t0 + Z.of_nat i * millisecond)) frames.

Fixpoint interleave {A} (l1 l2 : list A) : list A :=
  match l1, l2 with
  | x :: l1, y :: l2 => x :: y :: interleave l1 l2
  | [], l | l, [] => l
  end.

(** Two transfers of one source, frame by frame, and a purge in between. *)
Definition sample_payload : list Z := Eval vm_compute in Z.of_nat <$> seq 0 43.
Definition sample_events : list event := Eval vm_compute in
  interleave (arrivals (129029, 3) 1000 (FragmentFastPacket sample_payload 5))
             (arrivals (129540, 3) 1000 (FragmentFastPacket sample_payload 6))
  ++ [EvPurge (1000 + 700 * millisecond)].

Lemma fragment_reassemble_witness :
  outputs_for (129029, 3) (run (NewFastPacketAssembler (750 * millisecond)) sample_events).2 =
    replicate (length (FragmentFastPacket sample_payload 5) - 1) None ++ [Some sample_payload].
Proof.
  apply (fragment_reassemble (NewFastPacketAssembler (750 * millisecond)) (129029, 3) sample_payload 5 1000).
  - apply NewFastPacketAssembler_ok.
  - cbn [timeout NewFastPacketAssembler]. unfold max_duration, millisecond. lia.
  - cbn. lia.
  - cbn [timeout NewFastPacketAssembler]. unfold sample_events, millisecond.
    repeat constructor; cbn; lia.
  - unfold sample_events, event_bytes, bytes_ok, byte_ok. repeat constructor; lia.
  - unfold sample_events. eexists _, _. reflexivity.
  - vm_compute. reflexivity.
Defined.

Lemma Process_PurgeStale_ok_witness :
  let a := NewFastPacketAssembler (750 * millisecond) in
  assembler_ok (Process a 129029 3 [0xA0; 43; 1; 2; 3; 4; 5; 6] 1000).1.
Proof.
  apply (Process_PurgeStale_ok (NewFastPacketAssembler (750 * millisecond)) 129029 3).
  - apply NewFastPacketAssembler_ok.
  - repeat constructor; vm_compute; discriminate.
Defined.

Lemma Process_refines_transfer_witness :
  let a := NewFastPacketAssembler (750 * millisecond) in
  (Process a 129029 3 [0xA0; 3; 1; 2; 3; 4; 5; 6] 1000).2 = Some [1; 2; 3].
Proof.
  destruct (Process_refines_transfer (NewFastPacketAssembler (750 * millisecond)) 129029 3
    [0xA0; 3; 1; 2; 3; 4; 5; 6] 1000 (NewFastPacketAssembler_ok _)) as (_ & H & _).
  exact H.
Defined.

(** The bound is sharp: the 33rd frame of a 224-byte payload carries frame
    number 0 again, starts a new transfer and the payload is lost. *)
Example fragment_224_lost :
  let data := Z.of_nat <$> seq 0 224 in
  let a := NewFastPacketAssembler (750 * millisecond) in
  let evs := arrivals (129029, 3) 1000 (FragmentFastPacket data 0) in
  Forall (fun o => o = None) (outputs_for (129029, 3) (run a evs).2).
Proof. vm_compute. repeat constructor. Qed.
