(* ===== verification/Holes.v ===== *)
(** The replication bookkeeping of [replication.go]: a [HoleTracker] is a list
    of half-open ranges of missing sequence numbers.  Its contract is the finite
    set of missing numbers; the operations are shown to implement set union, set
    difference and the least missing number, on a canonical representation. *)

From S2P Require Import Prelude.

Record SeqRange := mkRange { Start : Z; End : Z }.

#[export] Instance SeqRange_eq_dec : EqDecision SeqRange.
Proof. solve_decision. Defined.

(** * Operations

    A tracker is its slice of holes. *)
Abbreviation HoleTracker := (list SeqRange).

Definition NewHoleTracker : HoleTracker := [].

(** The loop of [Add]: the merged range, the ranges emitted so far and whether
    the merged one is among them. *)
Fixpoint add_loop (holes : list SeqRange) (merged : SeqRange) (out : list SeqRange) (inserted : bool)
  : list SeqRange :=
  match holes with
  | [] => if inserted then out else out ++ [merged]
  | hole :: holes =>
      if End hole <? Start merged then add_loop holes merged (out ++ [hole]) inserted
      else if Start hole >? End merged then
        if inserted then add_loop holes merged (out ++ [hole]) true
        else add_loop holes merged (out ++ [merged; hole]) true
      else
        add_loop holes (mkRange (Z.min (Start merged) (Start hole)) (Z.max (End merged) (End hole)))
          out inserted
  end.

Definition Add (h : HoleTracker) (start end_ : Z) : HoleTracker :=
  if start >=? end_ then h else add_loop h (mkRange start end_) [] false.

Fixpoint fill_loop (holes : list SeqRange) (start end_ : Z) (out : list SeqRange) (affected : bool)
  : list SeqRange * bool :=
  match holes with
  | [] => (out, affected)
  | hole :: holes =>
      if (End hole <=? start) || (Start hole >=? end_) then
        fill_loop holes start end_ (out ++ [hole]) affected
      else
        let out := if Start hole <? start then out ++ [mkRange (Start hole) start] else out in
        let out := if End hole >? end_ then out ++ [mkRange end_ (End hole)] else out in
        fill_loop holes start end_ out true
  end.

Definition Fill (h : HoleTracker) (start end_ : Z) : HoleTracker * bool :=
  if (start >=? end_) || (length h =? 0)%nat then (h, false) else fill_loop h start end_ [] false.

(** [Holes] returns a copy, which in a pure model is the slice itself. *)
Definition Holes (h : HoleTracker) : list SeqRange := h.

Definition Len (h : HoleTracker) : nat := length h.

Definition TotalMissing (h : HoleTracker) : Z :=
  fold_left (fun total hole => u64 (total + u64 (End hole - Start hole))) h 0.

Definition ContinuousThrough (h : HoleTracker) (cursor : Z) : Z :=
  if (length h =? 0)%nat then max_u64
  else
    let idx := sort_Search (length h) (fun i => match h !! i with Some r => End r >? cursor | None => true end) in
    match h !! idx with
    | None => max_u64
    | Some hole =>
        if Start hole <=? cursor then if cursor =? 0 then 0 else cursor - 1
        else Start hole - 1
    end.

(** * The contract: the set of missing numbers *)

Definition covers (r : SeqRange) (q : Z) : Prop := Start r <= q < End r.
Definition missing (h : HoleTracker) (q : Z) : Prop := exists r, r ∈ h /\ covers r q.

(** Sorted, non-empty, neither overlapping nor adjacent, above [lo]. *)
Fixpoint holes_from (lo : Z) (h : HoleTracker) : Prop :=
  match h with
  | [] => True
  | r :: h => lo <= Start r /\ Start r < End r /\ holes_from (End r + 1) h
  end.

Definition holes_ok (h : HoleTracker) : Prop := holes_from 0 h /\ Forall (fun r => End r <= max_u64) h.

Lemma missing_nil q : missing [] q <-> False.
Proof. split; [|done]. intros (r & Hr & _). now apply elem_of_nil in Hr. Qed.

Lemma missing_cons r h q : missing (r :: h) q <-> covers r q \/ missing h q.
Proof.
  unfold missing. setoid_rewrite elem_of_cons. split.
  - intros (r' & [->|Hr] & Hc); eauto.
  - intros [Hc|(r' & Hr & Hc)]; eauto.
Qed.

Lemma missing_app h1 h2 q : missing (h1 ++ h2) q <-> missing h1 q \/ missing h2 q.
Proof.
  unfold missing. setoid_rewrite elem_of_app. split.
  - intros (r & [Hr|Hr] & Hc); eauto.
  - intros [(r & Hr & Hc)|(r & Hr & Hc)]; eauto.
Qed.

Create Rewrite HintDb holes.
#[export] Hint Rewrite missing_nil missing_cons missing_app : holes.

Lemma holes_from_weaken lo lo' h : lo' <= lo -> holes_from lo h -> holes_from lo' h.
Proof. destruct h; cbn; [done|]. intros ? (? & ? & ?). repeat split; (lia || done). Qed.

Lemma holes_from_lower lo h q : holes_from lo h -> missing h q -> lo <= q.
Proof.
  revert lo. induction h as [|r h IH]; intros lo; cbn; [now rewrite missing_nil|].
  intros (Hlo & Hr & Hh) [Hc|Hm]%missing_cons; [unfold covers in Hc; lia|].
  specialize (IH _ Hh Hm). lia.
Qed.

(** [holes_from] of a list with a range appended below everything after it. *)
Definition upto (hi : Z) (out : HoleTracker) : Prop :=
  holes_from 0 out /\ Forall (fun r => End r < hi) out.

Lemma holes_from_app lo h1 h2 hi :
  holes_from lo h1 -> Forall (fun r => End r < hi) h1 -> lo <= hi -> holes_from hi h2 -> holes_from lo (h1 ++ h2).
Proof.
  revert lo. induction h1 as [|r h1 IH]; intros lo; cbn.
  - intros. now apply (holes_from_weaken hi).
  - intros (? & ? & Hh) Hf%Forall_cons ? ?. destruct Hf. repeat split; [done..|].
    apply IH; (done || lia).
Qed.

Lemma upto_snoc hi hi' out r :
  upto hi out -> hi <= Start r < End r -> 0 <= hi -> End r < hi' -> upto hi' (out ++ [r]).
Proof.
  intros [Ho Hf] Hr H0 He. split.
  - apply (holes_from_app 0 _ _ hi); [done..|]. cbn. lia.
  - apply Forall_app. split; [|constructor; [done|constructor]].
    eapply Forall_impl; [exact Hf|]. cbn. intros. lia.
Qed.

Lemma upto_weaken hi hi' out : upto hi out -> hi <= hi' -> upto hi' out.
Proof. intros [Ho Hf] H. split; [done|]. eapply Forall_impl; [exact Hf|]. cbn. lia. Qed.

Lemma holes_from_bounds lo h b :
  holes_from lo h -> (forall q, missing h q -> q < b) -> Forall (fun r => End r <= b) h.
Proof.
  revert lo. induction h as [|r h IH]; intros lo; cbn; [constructor|].
  intros (? & ? & Hh) Hb. constructor.
  - assert (missing (r :: h) (End r - 1)) as Hm by (apply missing_cons; left; unfold covers; lia).
    apply Hb in Hm. lia.
  - eapply IH; [exact Hh|]. intros q Hq. apply Hb, missing_cons. now right.
Qed.

Lemma holes_ok_below h q : holes_ok h -> missing h q -> 0 <= q < max_u64.
Proof.
  intros [Hh Hb] Hm. split; [eapply holes_from_lower; eauto|].
  destruct Hm as (r & Hr & Hc). rewrite Forall_forall in Hb. specialize (Hb r Hr). unfold covers in Hc. lia.
Qed.

(** ** Add *)

Lemma add_loop_inserted h : forall m out,
  Start m < End m -> holes_from (End m + 1) h -> add_loop h m out true = out ++ h.
Proof.
  induction h as [|r h IH]; intros m out Hm; cbn; [now rewrite app_nil_r|].
  intros (? & ? & Hh). destruct (Z.ltb_spec (End r) (Start m)); [lia|].
  rewrite Z.gtb_ltb. destruct (Z.ltb_spec (End m) (Start r)); [|lia].
  rewrite IH; [now rewrite <- app_assoc|done|]. eapply holes_from_weaken; [|exact Hh]. lia.
Qed.

Lemma add_loop_spec h : forall lo m out,
  0 <= lo -> holes_from lo h -> 0 <= Start m < End m -> upto (Start m) out -> upto lo out ->
  holes_from 0 (add_loop h m out false) /\
  forall q, missing (add_loop h m out false) q <-> missing out q \/ covers m q \/ missing h q.
Proof.
  induction h as [|r h IH]; intros lo m out H0 Hh Hm Ho Hlo; cbn.
  - split; [apply (upto_snoc (Start m) (End m + 1)); auto; lia|].
    intros q. autorewrite with holes. tauto.
  - destruct Hh as (Hr & Hne & Hh).
    assert (Hlo' : upto (End r + 1) out) by (apply (upto_weaken lo); auto; lia).
    destruct (Z.ltb_spec (End r) (Start m)).
    + destruct (IH (End r + 1) m (out ++ [r])) as [HA HB]; try done; try lia.
      * apply (upto_snoc lo); auto; lia.
      * apply (upto_snoc lo); auto; lia.
      * split; [done|]. intros q. rewrite HB. autorewrite with holes. tauto.
    + rewrite Z.gtb_ltb. destruct (Z.ltb_spec (End m) (Start r)).
      * rewrite add_loop_inserted; [|lia|eapply holes_from_weaken; [|exact Hh]; lia].
        split.
        -- rewrite <- app_assoc. destruct Ho as [Ho Hf].
           apply (holes_from_app 0 _ _ (Start m)); [done..|lia|]. cbn. repeat split; (lia || done).
        -- intros q. autorewrite with holes. tauto.
      * edestruct (IH (End r + 1) (mkRange (Z.min (Start m) (Start r)) (Z.max (End m) (End r))) out)
          as [HA HB]; cbn [Start End]; try done; try lia.
        { destruct (Z.min_spec (Start m) (Start r)) as [[_ ->]|[_ ->]]; [done|].
          apply (upto_weaken lo); auto; lia. }
        split; [done|]. intros q. rewrite HB. autorewrite with holes.
        unfold covers; cbn [Start End]. intuition lia.
Qed.

Lemma Add_ok h start end_ :
  holes_ok h -> 0 <= start -> end_ <= max_u64 ->
  holes_ok (Add h start end_) /\
  forall q, missing (Add h start end_) q <-> missing h q \/ start <= q < end_.
Proof.
  intros Hok Hs He. unfold Add. rewrite Z.geb_leb. destruct (Z.leb_spec end_ start).
  { split; [done|]. intros q. intuition lia. }
  destruct (add_loop_spec h 0 (mkRange start end_) []) as [HA HB]; cbn [Start End]; try lia;
    [apply Hok|split; [done|constructor]..|].
  assert (H3 : forall q, missing (add_loop h (mkRange start end_) [] false) q <->
                 missing h q \/ start <= q < end_).
  { intros q. rewrite HB. autorewrite with holes. unfold covers. cbn. tauto. }
  split; [split; [done|]|done].
  eapply holes_from_bounds; [exact HA|]. intros q [Hm|Hq]%H3; [|lia].
  eapply holes_ok_below in Hm; [|done]. lia.
Qed.

(** ** Fill *)

Definition hit (start end_ : Z) (h : HoleTracker) : bool :=
  existsb (fun r => negb ((End r <=? start) || (Start r >=? end_))) h.

Lemma fill_loop_spec start end_ h : start < end_ -> forall lo out aff,
  0 <= lo -> holes_from lo h -> upto lo out ->
  let r := fill_loop h start end_ out aff in
  holes_from 0 r.1 /\ r.2 = aff || hit start end_ h /\
  forall q, missing r.1 q <-> missing out q \/ (missing h q /\ ~ start <= q < end_).
Proof.
  intros Hse. induction h as [|r h IH]; intros lo out aff H0 Hh Ho; cbn [fill_loop hit existsb].
  - cbn [fst snd]. split; [apply Ho|split; [now rewrite orb_false_r|]].
    intros q. rewrite missing_nil. tauto.
  - destruct Hh as (Hr & Hne & Hh). fold (hit start end_ h).
    destruct ((End r <=? start) || (Start r >=? end_)) eqn:Eo.
    + assert (Hout : End r <= start \/ end_ <= Start r)
        by (apply orb_true_iff in Eo as [E|E]; rewrite ?Z.geb_leb in E; apply Z.leb_le in E; lia).
      cbn [negb orb]. edestruct (IH (End r + 1) (out ++ [r]) aff) as (HA & HB & HC); try done; try lia.
      { apply (upto_snoc lo); auto; lia. }
      split; [done|split; [done|]]. intros q. rewrite HC. autorewrite with holes.
      unfold covers. intuition lia.
    + apply orb_false_iff in Eo as [E1 E2]. rewrite Z.geb_leb in E2. apply Z.leb_gt in E1, E2.
      set (out1 := if Start r <? start then out ++ [mkRange (Start r) start] else out).
      set (out2 := if End r >? end_ then out1 ++ [mkRange end_ (End r)] else out1).
      assert (Hup1 : upto (if Start r <? start then start + 1 else lo) out1
                /\ forall q, missing out1 q <-> missing out q \/ (Start r <= q < start)).
      { subst out1. destruct (Z.ltb_spec (Start r) start); (split; [|intros q; autorewrite with holes;
          unfold covers; cbn [Start End]; intuition lia]); [|done].
        apply (upto_snoc lo); cbn [Start End]; auto; lia. }
      assert (Hup2 : upto (End r + 1) out2 /\
                forall q, missing out2 q <-> missing out1 q \/ (end_ <= q < End r)).
      { subst out2. rewrite Z.gtb_ltb. destruct Hup1 as [Hup1 _].
        destruct (Z.ltb_spec end_ (End r)); (split; [|intros q; autorewrite with holes;
          unfold covers; cbn [Start End]; intuition lia]).
        - eapply upto_snoc; [exact Hup1|..]; cbn [Start End]; destruct (Z.ltb_spec (Start r) start); lia.
        - eapply upto_weaken; [exact Hup1|]. destruct (Z.ltb_spec (Start r) start); lia. }
      destruct Hup1 as [_ Hm1], Hup2 as [Hup2 Hm2]. cbn [negb orb].
      edestruct (IH (End r + 1) out2 true) as (HA & HB & HC); try done; try lia.
      split; [done|split; [rewrite HB; now rewrite !orb_true_l, orb_true_r|]].
      intros q. rewrite HC, Hm2, Hm1. autorewrite with holes. unfold covers. intuition lia.
Qed.

Lemma hit_spec start end_ h lo :
  start < end_ -> holes_from lo h ->
  hit start end_ h = true <-> exists q, missing h q /\ start <= q < end_.
Proof.
  intros Hse. revert lo. induction h as [|r h IH]; intros lo; cbn [hit existsb holes_from].
  - intros _. split; [done|]. intros (q & Hm & _). now apply missing_nil in Hm.
  - intros (Hr & Hne & Hh). fold (hit start end_ h). rewrite orb_true_iff, (IH _ Hh), negb_true_iff,
      orb_false_iff, Z.geb_leb, !Z.leb_gt. setoid_rewrite missing_cons. unfold covers. split.
    + intros [[]|(q & ? & ?)]; [|eauto]. exists (Z.max start (Start r)). lia.
    + intros (q & [Hc|Hm] & Hq); [left; lia|right; eauto].
Qed.

Lemma Fill_ok h start end_ :
  holes_ok h ->
  holes_ok (Fill h start end_).1 /\
  (forall q, missing (Fill h start end_).1 q <-> missing h q /\ ~ start <= q < end_) /\
  ((Fill h start end_).2 = true <-> exists q, missing h q /\ start <= q < end_).
Proof.
  intros Hok. unfold Fill. rewrite Z.geb_leb. destruct (Z.leb_spec end_ start); cbn [orb].
  { split; [done|split; [intros q; intuition lia|]]. split; [done|]. intros (q & _ & ?). lia. }
  destruct (Nat.eqb_spec (length h) 0) as [->%nil_length_inv|]; cbn [fst snd].
  { split; [done|split; [intros q; rewrite missing_nil; tauto|]]. split; [done|].
    intros (q & Hm & _). now apply missing_nil in Hm. }
  destruct (fill_loop_spec start end_ h ltac:(lia) 0 [] false) as (HA & HB & HC);
    [lia|apply Hok|split; [done|constructor]|].
  assert (H4 : forall q, missing (fill_loop h start end_ [] false).1 q <-> missing h q /\ ~ start <= q < end_).
  { intros q. rewrite HC, missing_nil. tauto. }
  split; [split; [done|]|split; [done|]].
  - eapply holes_from_bounds; [exact HA|]. intros q [Hm _]%H4. eapply holes_ok_below in Hm; [|done]. lia.
  - rewrite HB. cbn [orb]. apply (hit_spec start end_ h 0); [lia|apply Hok].
Qed.

(** ** Canonicity, counting and the continuous prefix *)

Lemma holes_canonical_from h1 : forall lo h2,
  holes_from lo h1 -> holes_from lo h2 -> (forall q, missing h1 q <-> missing h2 q) -> h1 = h2.
Proof.
  induction h1 as [|[s1 e1] h1 IH]; intros lo [|[s2 e2] h2]; cbn [holes_from Start End].
  - done.
  - intros _ (? & ? & _) Hq. exfalso. apply (missing_nil s2), Hq, missing_cons. left. unfold covers; cbn; lia.
  - intros (? & ? & _) _ Hq. exfalso. apply (missing_nil s1), Hq, missing_cons. left. unfold covers; cbn; lia.
  - intros (Hs1 & Hn1 & H1) (Hs2 & Hn2 & H2) Hq. setoid_rewrite missing_cons in Hq.
    unfold covers in Hq; cbn [Start End] in Hq.
    assert (B1 : forall q, missing h1 q -> e1 + 1 <= q) by (intros; eapply holes_from_lower; eauto).
    assert (B2 : forall q, missing h2 q -> e2 + 1 <= q) by (intros; eapply holes_from_lower; eauto).
    assert (s1 = s2).
    { assert (s2 <= s1) by (destruct (proj1 (Hq s1)) as [HA|HA%B2]; lia).
      assert (s1 <= s2) by (destruct (proj2 (Hq s2)) as [HA|HA%B1]; lia). lia. }
    assert (e1 = e2).
    { destruct (Z.lt_trichotomy e1 e2) as [Hlt|[?|Hlt]]; [|done|].
      - destruct (proj2 (Hq e1)) as [?|?%B1]; lia.
      - destruct (proj1 (Hq e2)) as [?|?%B2]; lia. }
    subst. f_equal. apply (IH (e2 + 1)); [done..|]. intros q. split; intros Hm.
    + destruct (proj1 (Hq q)) as [?|?]; [now right|apply B1 in Hm; lia|done].
    + destruct (proj2 (Hq q)) as [?|?]; [now right|apply B2 in Hm; lia|done].
Qed.

(** The representation is canonical: two well-formed trackers with the same
    missing numbers are equal, so the order of [Add]s and [Fill]s that lead to a
    set of missing numbers does not matter. *)
Theorem holes_canonical h1 h2 :
  holes_ok h1 -> holes_ok h2 -> (forall q, missing h1 q <-> missing h2 q) -> h1 = h2.
Proof. intros [H1 _] [H2 _]. now apply (holes_canonical_from h1 0). Qed.

Definition range_set (r : SeqRange) : gset Z := list_to_set (seqZ (Start r) (End r - Start r)).

Lemma range_set_spec r q : Start r < End r -> q ∈ range_set r <-> covers r q.
Proof.
  intros. unfold range_set, covers. rewrite elem_of_list_to_set, elem_of_seqZ. lia.
Qed.

Lemma range_set_size r : Start r < End r -> Z.of_nat (size (range_set r)) = End r - Start r.
Proof.
  intros. unfold range_set. rewrite size_list_to_set by apply NoDup_seqZ. rewrite length_seqZ. lia.
Qed.

Lemma total_fold h : forall lo acc (X : gset Z),
  holes_from lo h -> Forall (fun r => End r <= max_u64) h -> 0 <= lo -> 0 <= acc <= lo ->
  (forall q, q ∈ X <-> missing h q) ->
  fold_left (fun total hole => u64 (total + u64 (End hole - Start hole))) h acc = acc + Z.of_nat (size X).
Proof.
  induction h as [|r h IH]; intros lo acc X Hh Hb Hlo Hacc HX; cbn [fold_left holes_from] in *.
  - assert (X = ∅) as -> by (apply set_eq; intros q; rewrite HX, missing_nil; set_solver).
    rewrite size_empty. lia.
  - destruct Hh as (Hr & Hne & Hh). apply Forall_cons in Hb as [Hbr Hb].
    unfold max_u64 in Hbr. rewrite (wrap_small 64 (End r - Start r)), (wrap_small 64) by lia.
    assert (HX' : X = range_set r ∪ (X ∖ range_set r)).
    { apply set_eq. intros q. destruct (decide (q ∈ range_set r)) as [Hq|Hq]; [|set_solver].
      assert (q ∈ X) by (apply HX, missing_cons; left; now apply range_set_spec). set_solver. }
    rewrite HX', size_union by set_solver. rewrite Nat2Z.inj_add, range_set_size by done.
    rewrite (IH (End r + 1) _ (X ∖ range_set r)); [lia|done|done|lia|lia|].
    intros q. rewrite elem_of_difference, HX, range_set_spec, missing_cons by done.
    unfold covers. split; [tauto|]. intros Hm. split; [now right|].
    eapply holes_from_lower in Hm; [|exact Hh]. lia.
Qed.

(** [TotalMissing] is the number of missing sequence numbers; the 64-bit
    sum does not wrap. *)
Theorem TotalMissing_spec h (X : gset Z) :
  holes_ok h -> (forall q, q ∈ X <-> missing h q) -> TotalMissing h = Z.of_nat (size X).
Proof.
  intros [Hh Hb] HX. unfold TotalMissing. rewrite (total_fold h 0 0 X); auto; lia.
Qed.

Lemma holes_from_sorted lo h i j r1 r2 :
  holes_from lo h -> (i < j)%nat -> h !! i = Some r1 -> h !! j = Some r2 -> End r1 < Start r2.
Proof.
  revert lo i j. induction h as [|r h IH]; intros lo i j; cbn [holes_from]; [done|].
  intros (? & ? & Hh) Hij Hi Hj. destruct j as [|j]; [lia|]. destruct i as [|i]; cbn in Hi, Hj.
  - injection Hi as ->. assert (Hm : missing h (Start r2)).
    { exists r2. split; [eapply list_elem_of_lookup_2; eauto|]. unfold covers.
      clear IH. revert Hh Hj. generalize (End r1 + 1). revert j Hij. induction h as [|r h IH]; [done|].
      intros j Hij lo' Hh Hj. cbn in Hh. destruct j as [|j]; cbn in Hj; [injection Hj as ->; lia|].
      destruct Hh as (_ & _ & Hh). eapply (IH j); [lia|exact Hh|exact Hj]. }
    eapply holes_from_lower in Hm; [|exact Hh]. lia.
  - eapply (IH _ i j); eauto; lia.
Qed.

Lemma holes_from_lookup lo h i r : holes_from lo h -> h !! i = Some r -> lo <= Start r < End r.
Proof.
  revert lo i. induction h as [|r' h IH]; intros lo i; cbn [holes_from]; [done|].
  intros (? & ? & Hh) Hi. destruct i as [|i]; cbn in Hi; [injection Hi as ->; lia|].
  specialize (IH _ _ Hh Hi). lia.
Qed.

Lemma ContinuousThrough_ok h cursor :
  holes_ok h -> 0 <= cursor ->
  (ContinuousThrough h cursor = max_u64 /\ forall q, cursor <= q -> ~ missing h q) \/
  (exists m, missing h m /\ cursor <= m /\ (forall q, cursor <= q < m -> ~ missing h q) /\
     ContinuousThrough h cursor = if m =? 0 then 0 else m - 1).
Proof.
  intros [Hh _] H0. unfold ContinuousThrough.
  destruct (Nat.eqb_spec (length h) 0) as [->%nil_length_inv|Hne].
  { left. split; [done|]. intros q _. now rewrite missing_nil. }
  set (f := fun i => match h !! i with Some r => End r >? cursor | None => true end).
  assert (Hmono : monotone_pred (length h) f).
  { intros i j Hij Hi. unfold f in *. destruct (h !! j) as [rj|] eqn:Ej; [|done].
    destruct (h !! i) as [ri|] eqn:Ei; [|apply lookup_ge_None in Ei; lia].
    destruct (decide (i = j)) as [->|]; [congruence|].
    pose proof (holes_from_sorted 0 h i j ri rj Hh ltac:(lia) Ei Ej).
    pose proof (holes_from_lookup 0 h j rj Hh Ej). rewrite !Z.gtb_ltb, !Z.ltb_lt in *. lia. }
  destruct (sort_Search_spec (length h) f Hmono) as (Hle & Hlo & Hhi).
  set (idx := sort_Search (length h) f) in *.
  assert (Hbelow : forall q i r, cursor <= q -> h !! i = Some r -> covers r q -> (idx <= i)%nat).
  { intros q i r Hq Hi Hc. destruct (decide (i < idx)%nat) as [Hlt|]; [|lia].
    specialize (Hlo i Hlt). unfold f in Hlo. rewrite Hi, Z.gtb_ltb, Z.ltb_ge in Hlo.
    unfold covers in Hc. lia. }
  destruct (h !! idx) as [hole|] eqn:Eh.
  - right. assert (Hf : f idx = true) by (apply Hhi; split; [done|]; eapply lookup_lt_Some; exact Eh).
    unfold f in Hf. rewrite Eh, Z.gtb_ltb, Z.ltb_lt in Hf.
    pose proof (holes_from_lookup 0 h idx hole Hh Eh) as Hb.
    exists (Z.max cursor (Start hole)).
    split; [exists hole; split; [eapply list_elem_of_lookup_2; exact Eh|unfold covers; lia]|].
    split; [lia|split].
    + intros q Hq (r & Hr & Hc). apply list_elem_of_lookup in Hr as [i Hi].
      pose proof (Hbelow q i r ltac:(lia) Hi Hc) as Hge. destruct (decide (i = idx)) as [->|].
      * rewrite Eh in Hi. injection Hi as <-. unfold covers in Hc. lia.
      * pose proof (holes_from_sorted 0 h idx i hole r Hh ltac:(lia) Eh Hi). unfold covers in Hc. lia.
    + destruct (Z.leb_spec (Start hole) cursor); destruct (Z.eqb_spec (Z.max cursor (Start hole)) 0);
        destruct (Z.eqb_spec cursor 0); lia.
  - left. split; [done|]. intros q Hq (r & Hr & Hc). apply list_elem_of_lookup in Hr as [i Hi].
    pose proof (Hbelow q i r Hq Hi Hc). apply lookup_lt_Some in Hi. apply lookup_ge_None in Eh. lia.
Qed.

Definition sample_holes : HoleTracker := [mkRange 10 20; mkRange 30 40].

Lemma sample_holes_ok : holes_ok sample_holes.
Proof. split; [cbn; lia|]. unfold sample_holes, max_u64. repeat constructor; cbn; lia. Qed.

Lemma holes_canonical_witness : Add (Add [] 10 20) 30 40 = Add (Add [] 30 40) 10 20.
Proof.
  apply holes_canonical; [exact sample_holes_ok|exact sample_holes_ok|].
  intros q. reflexivity.
Defined.

Lemma TotalMissing_spec_witness :
  TotalMissing sample_holes = Z.of_nat (size (list_to_set (seqZ 10 10 ++ seqZ 30 10) : gset Z)).
Proof.
  apply TotalMissing_spec; [exact sample_holes_ok|]. intros q.
  rewrite elem_of_list_to_set, elem_of_app, !elem_of_seqZ. unfold sample_holes.
  rewrite !missing_cons, missing_nil. unfold covers; cbn [Start End]. lia.
Defined.

(** ** The tracker as a set *)

Inductive hole_op :=
| OpAdd (start end_ : Z)
| OpFill (start end_ : Z).

Definition run_op (h : HoleTracker) (op : hole_op) : HoleTracker :=
  match op with OpAdd s e => Add h s e | OpFill s e => (Fill h s e).1 end.

(** The abstract operation: union with or difference from an interval. *)
Definition set_op (S : Z -> Prop) (op : hole_op) : Z -> Prop :=
  match op with
  | OpAdd s e => fun q => S q \/ s <= q < e
  | OpFill s e => fun q => S q /\ ~ s <= q < e
  end.

Definition op_ok (op : hole_op) : Prop :=
  match op with OpAdd s e => 0 <= s /\ e <= max_u64 | OpFill _ _ => True end.

Lemma run_ops_refine ops : forall h S, Forall op_ok ops -> holes_ok h -> (forall q, missing h q <-> S q) ->
  holes_ok (foldl run_op h ops) /\ forall q, missing (foldl run_op h ops) q <-> foldl set_op S ops q.
Proof.
  induction ops as [|op ops IH]; intros h S Hops Hok Hrep; [done|].
  inversion Hops as [|? ? Hop Hops']; subst. cbn [foldl]. destruct op as [s e|s e]; cbn [run_op set_op].
  - destruct Hop as [Hs He]. destruct (Add_ok h s e Hok Hs He) as [Hok' Hm]. apply IH; [done..|].
    intros q. rewrite Hm, Hrep. done.
  - destruct (Fill_ok h s e Hok) as (Hok' & Hm & _). apply IH; [done..|]. intros q. rewrite Hm, Hrep. done.
Qed.

(** C35: the hole tracker is a set of numbers.  After any operations the list is
    sorted, disjoint, non-adjacent and inside the 64-bit space, and its members
    are those of the set the unions and differences build; [Fill] reports whether
    it removes anything; and [ContinuousThrough] is the number before the least
    missing one from the cursor on, or the maximal value when there is none. *)
Theorem tracker_refines_set ops : Forall op_ok ops ->
  let h := foldl run_op NewHoleTracker ops in let S := foldl set_op (fun _ => False) ops in
  holes_ok h /\ (forall q, missing h q <-> S q) /\
  (forall s e, (Fill h s e).2 = true <-> exists q, S q /\ s <= q < e) /\
  forall cursor, 0 <= cursor ->
    (ContinuousThrough h cursor = max_u64 /\ forall q, cursor <= q -> ~ S q) \/
    exists m, S m /\ cursor <= m /\ (forall q, cursor <= q < m -> ~ S q) /\
      ContinuousThrough h cursor = if m =? 0 then 0 else m - 1.
Proof.
  intros Hops. cbv zeta.
  destruct (run_ops_refine ops NewHoleTracker (fun _ => False) Hops) as [Hok Hrep].
  { split; [done|constructor]. }
  { intros q. rewrite missing_nil. done. }
  set (h := foldl run_op _ ops) in *. set (S := foldl set_op _ ops) in *. clearbody h S.
  split; [exact Hok|]. split; [exact Hrep|]. split.
  - intros s e. destruct (Fill_ok h s e Hok) as (_ & _ & ->). now setoid_rewrite Hrep.
  - intros cursor Hc. pose proof (ContinuousThrough_ok h cursor Hok Hc) as H. now setoid_rewrite Hrep in H.
Qed.

Lemma tracker_refines_set_witness :
  foldl run_op NewHoleTracker [OpAdd 10 20; OpAdd 20 40; OpFill 12 35] = [mkRange 10 12; mkRange 35 40] /\
  holes_ok [mkRange 10 12; mkRange 35 40].
Proof.
  split; [reflexivity|].
  refine (proj1 (tracker_refines_set [OpAdd 10 20; OpAdd 20 40; OpFill 12 35] _)).
  repeat constructor; unfold max_u64; lia.
Defined.
