(* ===== verification/Diff.v ===== *)
(** Compact packet diffs: [changetracker/diff.go].

    A [DiffMethod] computes a diff of two payloads and applies one.  Its promise
    to the tracker is the class [Decodes]: what one method encodes another
    decodes.  [ByteMaskDiff] and [FieldToleranceDiff] are shown to keep it. *)

From Stdlib Require Import SpecFloat Ascii.
From S2P Require Import Prelude.

(** [Diff] returns the significance and the encoding (Go's nil is the empty
    list); both are [None] where the Go code panics on an index. *)
Record DiffMethod := mkDiffMethod {
  Diff : list Z -> list Z -> option (bool * list Z);
  Apply : list Z -> list Z -> option (list Z)
}.

(** The longest payload whose mask length fits the 16-bit length field. *)
Definition max_payload : Z := 8 * 65535.

(** What the tracker needs of an encoder and the replayer of a decoder: every
    significant diff of two equally long payloads can be applied. *)
Class Decodes (enc dec : DiffMethod) : Prop :=
  decodes : forall prev curr d,
    length prev = length curr -> Z.of_nat (length prev) <= max_payload ->
    Diff enc prev curr = Some (true, d) -> Apply dec prev d = Some curr.

(** * ByteMaskDiff *)

Definition mask_set (mask : list Z) (i : nat) : list Z :=
  alter (fun b => Z.lor b (Z.shiftl 1 (Z.of_nat (i mod 8)))) (i / 8)%nat mask.

Fixpoint diff_loop (i : nat) (prev curr mask changed : list Z) : list Z * list Z :=
  match prev, curr with
  | p :: prev, c :: curr =>
      if p =? c then diff_loop (S i) prev curr mask changed
      else diff_loop (S i) prev curr (mask_set mask i) (changed ++ [c])
  | _, _ => (mask, changed)
  end.

Definition ByteMask_Diff (prev curr : list Z) : bool * list Z :=
  if negb (length prev =? length curr)%nat then (true, [])
  else
    let n := length curr in
    let maskLen := ((n + 7) / 8)%nat in
    let '(mask, changed) := diff_loop 0 prev curr (replicate maskLen 0) [] in
    if (length changed =? 0)%nat then (false, [])
    else if (n <=? 8)%nat then (true, take 1 mask ++ changed)
    else (true, le16 (u16 (Z.of_nat maskLen)) ++ mask ++ changed).

(** Bit [i] of the mask; [None] is an index out of range. *)
Definition mask_bit (mask : list Z) (i : nat) : option bool :=
  (fun b => negb (Z.land b (Z.shiftl 1 (Z.of_nat (i mod 8))) =? 0)) <$> mask !! (i / 8)%nat.

Fixpoint apply_loop (i : nat) (mask prev changed : list Z) : option (list Z) :=
  match prev with
  | [] => Some []
  | p :: prev =>
      match mask_bit mask i, changed with
      | None, _ => None
      | Some true, [] => None
      | Some true, c :: changed => cons c <$> apply_loop (S i) mask prev changed
      | Some false, _ => cons p <$> apply_loop (S i) mask prev changed
      end
  end.

Definition ByteMask_Apply (prev diff : list Z) : option (list Z) :=
  if (length prev <=? 8)%nat then
    match diff with
    | [] => None
    | mask :: changed => apply_loop 0 [mask] prev changed
    end
  else if (length diff <? 2)%nat then None
  else
    let maskLen := Z.to_nat (le_val (take 2 diff)) in
    if (length diff <? 2 + maskLen)%nat then None
    else apply_loop 0 (slice 2 (2 + maskLen) diff) prev (drop (2 + maskLen) diff).

Definition ByteMaskDiff : DiffMethod := mkDiffMethod (fun prev curr => Some (ByteMask_Diff prev curr)) ByteMask_Apply.

(** The mask and the changed bytes of two payloads, position by position. *)
Definition mask_marks (mask prev curr : list Z) (i0 : nat) : Prop :=
  forall i p c, prev !! i = Some p -> curr !! i = Some c ->
    mask_bit mask (i0 + i) = Some (negb (p =? c)).

Fixpoint changes (prev curr : list Z) : list Z :=
  match prev, curr with
  | p :: prev, c :: curr => if p =? c then changes prev curr else c :: changes prev curr
  | _, _ => []
  end.

Lemma mask_bit_testbit mask i b :
  mask !! (i / 8)%nat = Some b -> mask_bit mask i = Some (Z.testbit b (Z.of_nat (i mod 8))).
Proof.
  intros H. unfold mask_bit. rewrite H. cbn [fmap option_fmap option_map]. f_equal.
  rewrite Z.shiftl_1_l.
  destruct (Z.eqb_spec (Z.land b (2 ^ Z.of_nat (i mod 8))) 0) as [E|E]; cbn [negb].
  - symmetry. pose proof (Z.land_spec b (2 ^ Z.of_nat (i mod 8)) (Z.of_nat (i mod 8))) as Hs.
    rewrite E, Z.bits_0, Z.pow2_bits_true, andb_true_r in Hs by lia. congruence.
  - destruct (Z.testbit b (Z.of_nat (i mod 8))) eqn:Eb; [done|]. exfalso. apply E.
    apply Z.bits_inj'. intros k Hk. rewrite Z.land_spec, Z.bits_0, Z.pow2_bits_eqb by lia.
    destruct (Z.eqb_spec (Z.of_nat (i mod 8)) k) as [<-|]; [now rewrite Eb|apply andb_false_r].
Qed.

Lemma length_mask_set mask i : length (mask_set mask i) = length mask.
Proof. apply length_alter. Qed.

Lemma mask_bit_set mask i j b :
  mask_bit mask j = Some b -> mask_bit (mask_set mask i) j = Some (b || (i =? j)%nat).
Proof.
  intros Hb. unfold mask_bit in Hb. destruct (mask !! (j / 8)%nat) as [m|] eqn:Em; [|done].
  pose proof (mask_bit_testbit mask j m Em) as Ht. unfold mask_bit in Ht. rewrite Em in Ht.
  cbn [fmap option_fmap option_map] in Hb, Ht. rewrite Hb in Ht. injection Ht as ->.
  pose proof (Nat.div_mod_eq i 8). pose proof (Nat.div_mod_eq j 8).
  pose proof (Nat.mod_upper_bound i 8 ltac:(lia)). pose proof (Nat.mod_upper_bound j 8 ltac:(lia)).
  destruct (decide (i / 8 = j / 8)%nat) as [E|E].
  - rewrite (mask_bit_testbit _ _ (Z.lor m (Z.shiftl 1 (Z.of_nat (i mod 8))))).
    2:{ unfold mask_set. rewrite E, list_lookup_alter_eq. now rewrite Em. }
    rewrite Z.lor_spec, Z.shiftl_1_l, Z.pow2_bits_eqb by lia. do 2 f_equal.
    destruct (Nat.eqb_spec i j), (Z.eqb_spec (Z.of_nat (i mod 8)) (Z.of_nat (j mod 8))); (done || lia).
  - rewrite (mask_bit_testbit _ _ m).
    2:{ unfold mask_set. now rewrite list_lookup_alter_ne. }
    destruct (Nat.eqb_spec i j); [congruence|]. now rewrite orb_false_r.
Qed.

Lemma diff_loop_changed prev : forall i curr mask changed,
  (diff_loop i prev curr mask changed).2 = changed ++ changes prev curr /\
  length (diff_loop i prev curr mask changed).1 = length mask.
Proof.
  induction prev as [|p prev IH]; intros i curr mask changed; cbn [diff_loop changes fst snd];
    [now rewrite app_nil_r|].
  destruct curr as [|c curr]; cbn [fst snd]; [now rewrite app_nil_r|]. destruct (p =? c).
  - apply IH.
  - destruct (IH (S i) curr (mask_set mask i) (changed ++ [c])) as [-> ->].
    now rewrite <- app_assoc, length_mask_set.
Qed.

Lemma diff_loop_bit prev : forall i curr mask changed j b,
  mask_bit mask j = Some b ->
  mask_bit (diff_loop i prev curr mask changed).1 j =
    Some (b || (bool_decide (i <= j)%nat &&
                match prev !! (j - i)%nat, curr !! (j - i)%nat with
                | Some p, Some c => negb (p =? c) | _, _ => false end)).
Proof.
  induction prev as [|p prev IH]; intros i curr mask changed j b Hb; cbn [diff_loop].
  { cbn [fst]. now rewrite lookup_nil, andb_false_r, orb_false_r. }
  destruct curr as [|c curr].
  { cbn [fst]. rewrite lookup_nil. now destruct (_ !! _); rewrite andb_false_r, orb_false_r. }
  assert (Hstep : forall mask' b', mask_bit mask' j = Some b' ->
    b' = b || ((i =? j)%nat && negb (p =? c)) -> forall ch,
    mask_bit (diff_loop (S i) prev curr mask' ch).1 j =
    Some (b || (bool_decide (i <= j)%nat &&
      match (p :: prev) !! (j - i)%nat, (c :: curr) !! (j - i)%nat with
      | Some p, Some c => negb (p =? c) | _, _ => false end))).
  { intros mask' b' Hb' -> ch. rewrite (IH _ _ _ _ _ _ Hb'). f_equal.
    destruct (Nat.eqb_spec i j) as [->|].
    - rewrite Nat.sub_diag. cbn. rewrite bool_decide_false, bool_decide_true by lia. cbn.
      now rewrite orb_false_r.
    - cbn [andb]. rewrite orb_false_r. destruct (decide (i <= j)%nat).
      + rewrite !bool_decide_true by lia. now replace (j - i)%nat with (S (j - S i)) by lia.
      + now rewrite !bool_decide_false by lia. }
  destruct (p =? c) eqn:E.
  - apply (Hstep mask b); [done|]. cbn [negb]. now rewrite andb_false_r, orb_false_r.
  - apply (Hstep (mask_set mask i) (b || (i =? j)%nat)); [now apply mask_bit_set|].
    cbn [negb]. now rewrite andb_true_r.
Qed.

Lemma apply_loop_changes mask prev : forall i curr,
  length prev = length curr -> mask_marks mask prev curr i ->
  apply_loop i mask prev (changes prev curr) = Some curr.
Proof.
  induction prev as [|p prev IH]; intros i [|c curr] Hlen Hm; try done.
  cbn [apply_loop changes]. pose proof (Hm 0%nat p c eq_refl eq_refl) as H0.
  rewrite Nat.add_0_r in H0. rewrite H0. cbn [fmap option_fmap option_map].
  assert (IH' : apply_loop (S i) mask prev (changes prev curr) = Some curr).
  { apply IH; [by injection Hlen|]. intros k p' c' Hp Hc.
    replace (S i + k)%nat with (i + S k)%nat by lia. exact (Hm (S k) p' c' Hp Hc). }
  destruct (Z.eqb_spec p c) as [->|]; cbn [negb]; rewrite IH'; done.
Qed.

Lemma changes_nil prev curr : length prev = length curr -> changes prev curr = [] <-> prev = curr.
Proof.
  revert curr. induction prev as [|p prev IH]; intros [|c curr] Hlen; try done.
  cbn [changes]. destruct (Z.eqb_spec p c) as [->|].
  - rewrite IH by (by injection Hlen). split; [now intros ->|now intros [= ->]].
  - split; [done|]. now intros [= -> _].
Qed.

(** The mask of a whole diff marks the changed positions. *)
Lemma diff_mask_marks prev curr :
  length prev = length curr ->
  let r := diff_loop 0 prev curr (replicate ((length curr + 7) / 8) 0) [] in
  mask_marks r.1 prev curr 0 /\ r.2 = changes prev curr /\ length r.1 = ((length curr + 7) / 8)%nat.
Proof.
  intros Hlen r.
  destruct (diff_loop_changed prev 0 curr (replicate ((length curr + 7) / 8) 0) []) as [Hc Hl].
  split; [|split; [exact Hc|rewrite length_replicate in Hl; exact Hl]].
  intros i p c Hp Hcu. rewrite Nat.add_0_l.
  assert (Hi : (i < length curr)%nat) by (eapply lookup_lt_Some; exact Hcu).
  assert (Hm : mask_bit (replicate ((length curr + 7) / 8) 0) i = Some false).
  { unfold mask_bit. rewrite lookup_replicate_2; [done|]. apply Nat.Div0.div_lt_upper_bound.
    pose proof (Nat.div_mod_eq (length curr + 7) 8).
    pose proof (Nat.mod_upper_bound (length curr + 7) 8 ltac:(lia)). lia. }
  unfold r. rewrite (diff_loop_bit _ _ _ _ _ _ _ Hm), Nat.sub_0_r, Hp, Hcu.
  now rewrite bool_decide_true by lia.
Qed.

Lemma ByteMaskDiff_sound prev curr :
  length prev = length curr -> Z.of_nat (length prev) <= max_payload ->
  ((ByteMask_Diff prev curr).1 = true <-> prev <> curr) /\
  (prev <> curr -> ByteMask_Apply prev (ByteMask_Diff prev curr).2 = Some curr).
Proof.
  intros Hlen Hmax. destruct (diff_mask_marks prev curr Hlen) as (Hm & Hc & Hl).
  pose proof (changes_nil prev curr Hlen) as Hnil.
  pose proof (apply_loop_changes _ prev 0 curr Hlen Hm) as Ha.
  unfold ByteMask_Diff. rewrite (proj2 (Nat.eqb_eq _ _) Hlen). cbn [negb].
  destruct (diff_loop 0 prev curr _ []) as [mask changed] eqn:E. cbn [fst snd] in *. subst changed.
  destruct (Nat.eqb_spec (length (changes prev curr)) 0) as [E0|E0].
  { apply nil_length_inv in E0. split; [split; [done|]|]; intros Hne; now apply Hnil in E0. }
  assert (Hne : prev <> curr) by (intros Heq; apply Hnil in Heq; rewrite Heq in E0; done).
  split; [destruct (_ <=? _)%nat; now split|]. intros _. unfold ByteMask_Apply. rewrite Hlen.
  assert (Hn0 : length curr <> 0%nat).
  { intros H0. apply Hne. apply nil_length_inv in H0 as ->. now apply nil_length_inv in Hlen. }
  destruct (Nat.leb_spec (length curr) 8); cbn [fst snd].
  - assert (Hl1 : ((length curr + 7) / 8 = 1)%nat).
    { apply Nat.le_antisymm; [apply Nat.lt_succ_r, Nat.Div0.div_lt_upper_bound; lia|
        apply Nat.div_le_lower_bound; lia]. }
    rewrite Hl1 in Hl. destruct mask as [|m [|]]; done.
  - assert (Hml : Z.of_nat ((length curr + 7) / 8) <= 65535).
    { unfold max_payload in Hmax. rewrite Nat2Z.inj_div. apply Z.lt_succ_r. apply Z.div_lt_upper_bound; lia. }
    rewrite wrap_small by lia. unfold le16. rewrite !length_app, length_le_bytes.
    destruct (Nat.ltb_spec (2 + (length mask + length (changes prev curr))) 2); [lia|].
    assert (Ht : take 2 (le_bytes 2 (Z.of_nat ((length curr + 7) / 8)) ++ mask ++ changes prev curr)
                 = le_bytes 2 (Z.of_nat ((length curr + 7) / 8))) by reflexivity.
    rewrite Ht, le_val_bytes, Z.mod_small, Nat2Z.id, <- Hl by lia.
    destruct (Nat.ltb_spec (2 + (length mask + length (changes prev curr))) (2 + length mask)); [lia|].
    rewrite (slice_app_exact (le_bytes 2 _) mask) by (rewrite length_le_bytes; lia).
    rewrite app_assoc, drop_app_length' by (rewrite length_app, length_le_bytes; lia). exact Ha.
Qed.

(** A byte-mask diff of two equally long payloads (up to the 16-bit mask
    length) is significant exactly when they differ, and applying a significant
    diff to the old payload gives the new one, without a panic. *)
Theorem ByteMaskDiff_roundtrip prev curr :
  length prev = length curr -> Z.of_nat (length prev) <= max_payload ->
  ((ByteMask_Diff prev curr).1 = true <-> prev <> curr) /\
  (prev <> curr -> ByteMask_Apply prev (ByteMask_Diff prev curr).2 = Some curr).
Proof. apply ByteMaskDiff_sound. Qed.

Lemma ByteMaskDiff_roundtrip_witness :
  let prev := [1; 2; 3; 4; 5; 6; 7; 8; 9; 10] in
  let curr := [1; 2; 3; 40; 5; 6; 7; 8; 90; 10] in
  ByteMask_Diff prev curr = (true, [2; 0; 8; 1; 40; 90]) /\
  ByteMask_Apply prev (ByteMask_Diff prev curr).2 = Some curr.
Proof.
  split; [reflexivity|].
  apply (ByteMaskDiff_roundtrip [1; 2; 3; 4; 5; 6; 7; 8; 9; 10] [1; 2; 3; 40; 5; 6; 7; 8; 90; 10]);
    [reflexivity|unfold max_payload; cbn; lia|done].
Defined.

#[export] Instance ByteMaskDiff_decodes : Decodes ByteMaskDiff ByteMaskDiff.
Proof.
  intros prev curr d Hlen Hmax Hd. destruct (ByteMaskDiff_sound prev curr Hlen Hmax) as [Hs Ha].
  cbn [Diff Apply ByteMaskDiff] in *. injection Hd as Hd. rewrite Hd in Hs, Ha. apply Ha, Hs. done.
Qed.

(** * FieldToleranceDiff

    The decoder is generated code; what [reflect] shows of its result is data
    here: whether the (dereferenced) value is a struct, and of each field its
    visibility, tag, name and value.  float64 arithmetic is IEEE binary64, the
    Standard Library's [SpecFloat] at precision 53 and exponent bound 1024. *)
Section FieldTolerance.
Context {Other : Type} `{EqDecision Other}.

(** [reflect.Value]s of the kinds [toFloat64] tells apart. *)
Inductive rvalue :=
| RFloat (f : spec_float)
| RInt (z : Z)
| RUint (z : Z)
| RNilPtr
| RPtr (v : rvalue)
| ROther (o : Other).

Record rfield := mkRField {
  IsExported : bool; JsonTag : string; FieldName : string; FieldVal : rvalue
}.

Definition f64_of_Z (z : Z) : spec_float := binary_normalize 53 1024 z 0 false.
Definition f64_sub : spec_float -> spec_float -> spec_float := SFsub 53 1024.

Definition toFloat64 (v : rvalue) : option spec_float :=
  let num v := match v with
    | RFloat f => Some f
    | RInt z | RUint z => Some (f64_of_Z z)
    | _ => None
    end in
  match v with
  | RPtr v => num v
  | v => num v
  end.

Fixpoint strip_comma (s : string) : string :=
  match s with
  | EmptyString => EmptyString
  | String c s => if bool_decide (c = ","%char) then EmptyString else String c (strip_comma s)
  end.

(** One entry of [buildFieldIndex]: the field's name, unless unexported. *)
Definition field_name (f : rfield) : option string :=
  if negb (IsExported f) then None
  else
    let name := JsonTag f in
    let name := if bool_decide (name = ""%string) || bool_decide (name = "-"%string)
                then FieldName f else name in
    Some (strip_comma name).

Definition buildFieldIndex (fs : list rfield) : list (option string) := map field_name fs.

(** [reflect.DeepEqual] of two values of one static type. *)
Fixpoint DeepEqual (a b : rvalue) : bool :=
  match a, b with
  | RFloat x, RFloat y => SFeqb x y
  | RInt x, RInt y | RUint x, RUint y => x =? y
  | RNilPtr, RNilPtr => true
  | RPtr x, RPtr y => DeepEqual x y
  | ROther x, ROther y => bool_decide (x = y)
  | _, _ => false
  end.

Record FieldTolerance := mkFieldTolerance { Field : string; Tolerance : spec_float }.

Definition tolerance_map (ts : list FieldTolerance) : gmap string spec_float :=
  foldl (fun m t => <[Field t := Tolerance t]> m) ∅ ts.

(** Whether one field's change is beyond its tolerance. *)
Definition field_exceeds (tolMap : gmap string spec_float) (name : option string)
    (pf cf : rvalue) : bool :=
  match n ← name; tolMap !! n with
  | None => false
  | Some tol =>
      match toFloat64 pf, toFloat64 cf with
      | Some pv, Some cv => SFltb tol (SFabs (f64_sub pv cv))
      | _, _ => negb (DeepEqual pf cf)
      end
  end.

(** The loop over the previous value's fields: [Some true] when a field exceeds
    its tolerance, [None] when the current value has no such field. *)
Fixpoint tolerance_loop (tolMap : gmap string spec_float) (index : list (option string))
    (prev curr : list rfield) : option bool :=
  match prev, index with
  | pf :: prev, name :: index =>
      match curr with
      | [] => None
      | cf :: curr =>
          if field_exceeds tolMap name (FieldVal pf) (FieldVal cf) then Some true
          else tolerance_loop tolMap index prev curr
      end
  | _, _ => Some false
  end.

(** [Decode] yields [None] on an error, [Some None] for a value that is not a
    struct. *)
Record FieldToleranceDiff := mkFieldToleranceDiff {
  Inner : option DiffMethod;
  Decode : option (list Z -> option (option (list rfield)));
  Tolerances : list FieldTolerance
}.

Definition inner (f : FieldToleranceDiff) : DiffMethod :=
  match Inner f with Some m => m | None => ByteMaskDiff end.

Definition Tolerance_Diff (f : FieldToleranceDiff) (prev curr : list Z)
    : option (bool * list Z) :=
  let fall_back := Diff (inner f) prev curr in
  if bool_decide (prev = curr) then Some (false, [])
  else match Decode f with
  | None => fall_back
  | Some dec =>
      match dec prev with
      | None => fall_back
      | Some prevDecoded =>
          match dec curr with
          | None => fall_back
          | Some currDecoded =>
              match prevDecoded, currDecoded with
              | Some prevVal, Some currVal =>
                  match tolerance_loop (tolerance_map (Tolerances f)) (buildFieldIndex prevVal)
                          prevVal currVal with
                  | None => None
                  | Some true => fall_back
                  | Some false => Some (false, [])
                  end
              | _, _ => fall_back
              end
          end
      end
  end.

Definition Tolerance_Apply (f : FieldToleranceDiff) : list Z -> list Z -> option (list Z) :=
  Apply (inner f).

Definition FieldTolerance_method (f : FieldToleranceDiff) : DiffMethod :=
  mkDiffMethod (Tolerance_Diff f) (Tolerance_Apply f).

(** Some field of the two decoded payloads moved beyond its tolerance. *)
Definition moved_beyond (f : FieldToleranceDiff) (prev curr : list rfield) : Prop :=
  exists i pf cf, prev !! i = Some pf /\ curr !! i = Some cf /\
    field_exceeds (tolerance_map (Tolerances f)) (field_name pf) (FieldVal pf) (FieldVal cf) = true.

Lemma tolerance_loop_spec f prev : forall curr,
  length prev = length curr ->
  exists b, tolerance_loop (tolerance_map (Tolerances f)) (buildFieldIndex prev) prev curr = Some b /\
    (b = true <-> moved_beyond f prev curr).
Proof.
  induction prev as [|pf prev IH]; intros [|cf curr] Hlen; try done.
  - exists false. split; [done|]. split; [done|]. intros (i & ? & ? & Hi & _). done.
  - cbn [buildFieldIndex map tolerance_loop].
    destruct (field_exceeds _ (field_name pf) (FieldVal pf) (FieldVal cf)) eqn:E.
    + exists true. split; [done|]. split; [|done]. intros _. exists 0%nat, pf, cf. done.
    + destruct (IH curr ltac:(by injection Hlen)) as (b & Hb & Hiff). exists b. split; [exact Hb|].
      rewrite Hiff. split; intros (i & p & c & Hp & Hc & He).
      * exists (S i), p, c. done.
      * destruct i as [|i]; [|exists i, p, c; done]. cbn in Hp, Hc. congruence.
Qed.

(** A tolerance method decodes with whatever decodes its inner method: the
    tolerances gate significance and never touch the encoding. *)
#[export] Instance FieldTolerance_decodes f dec :
  Decodes (inner f) dec -> Decodes (FieldTolerance_method f) dec.
Proof.
  intros Hin prev curr d Hlen Hmax Hd.
  cbn [Diff FieldTolerance_method] in Hd. unfold Tolerance_Diff in Hd.
  repeat case_match; simplify_eq; eauto.
Qed.

(** On two decodable payloads of one struct type, a tolerance method never
    panics (if its inner method does not), reports identical payloads and
    payloads whose toleranced fields all stayed within their tolerance as not
    significant with no diff, and otherwise answers exactly as its inner
    method; fields with no tolerance never matter. *)
Theorem FieldTolerance_gates f dec prev curr pv cv :
  Decode f = Some dec -> dec prev = Some (Some pv) -> dec curr = Some (Some cv) ->
  length pv = length cv -> prev <> curr ->
  (moved_beyond f pv cv -> Tolerance_Diff f prev curr = Diff (inner f) prev curr) /\
  (~ moved_beyond f pv cv -> Tolerance_Diff f prev curr = Some (false, [])).
Proof.
  intros Hd Hp Hc Hlen Hne. destruct (tolerance_loop_spec f pv cv Hlen) as (b & Hb & Hiff).
  unfold Tolerance_Diff. rewrite bool_decide_false, Hd, Hp, Hc, Hb by done.
  rewrite <- Hiff. destruct b; split; intros H; done.
Qed.

End FieldTolerance.

(** A wind-speed decoder in the shape the generator gives: a sequence counter
    with no tolerance and a scaled field with tolerance 0.5. *)
Definition demo_f64 (z : Z) : spec_float := f64_of_Z z.
Definition demo_tolerance : @FieldToleranceDiff unit :=
  mkFieldToleranceDiff None
    (Some (fun d => match d with
      | [sid; v] => Some (Some [mkRField true "sid" "SID" (RUint sid);
                                mkRField true "speed,omitempty" "Speed" (RPtr (RFloat (f64_of_Z v)))])
      | _ => None end))
    [mkFieldTolerance "speed" (f64_of_Z 2)].

Lemma FieldTolerance_gates_witness :
  Tolerance_Diff demo_tolerance [1; 10] [2; 12] = Some (false, []) /\
  Tolerance_Diff demo_tolerance [1; 10] [2; 13] = Some (true, [3; 2; 13]).
Proof.
  split.
  - apply (FieldTolerance_gates demo_tolerance _ [1; 10] [2; 12] _ _ eq_refl eq_refl eq_refl eq_refl);
      [done|]. intros (i & pf & cf & Hp & Hc & He).
    destruct i as [|[|[]]]; cbn in Hp, Hc; simplify_eq; vm_compute in He; done.
  - rewrite (proj1 (FieldTolerance_gates demo_tolerance _ [1; 10] [2; 13] _ _
      eq_refl eq_refl eq_refl eq_refl ltac:(done))); [reflexivity|].
    exists 1%nat. do 2 eexists. repeat split.
Defined.
