(* ===== verification/ChangeTracker.v ===== *)
(** The change tracker and its replayer: [changetracker/tracker.go].

    The tracker keeps a baseline per (source, PGN, subkey) and emits a snapshot,
    a delta or an idle event; the replayer rebuilds payloads from the events.
    The diff methods are used only through the [Decodes] interface of [Diff]. *)

From Stdlib Require Import SpecFloat.
From S2P Require Import Prelude Diff.

Inductive ChangeEventType := Snapshot | Delta | Idle.

Record ChangeEvent := mkChangeEvent {
  ev_Type : ChangeEventType;
  ev_Timestamp : time;
  ev_Source : Z;
  ev_PGN : Z;
  ev_SubKey : Z;
  ev_Seq : Z;
  ev_Data : list Z
}.

(** [trackerKey]: source, PGN, subkey. *)
Abbreviation trackerKey := (Z * Z * Z)%type.

Definition ev_key (e : ChangeEvent) : trackerKey := (ev_Source e, ev_PGN e, ev_SubKey e).

Record trackedPair := mkTrackedPair {
  lastData : list Z;
  lastSeen : time;
  idleEmitted : bool
}.

Record Config := mkConfig {
  DefaultMethod : option DiffMethod;
  Methods : gmap Z DiffMethod;
  SubKeys : gmap Z (option (list Z -> Z));
  DefaultIdleTimeout : duration;
  IdleMultiplier : Z;
  IdleTimeouts : gmap Z duration
}.

Record ChangeTracker := mkChangeTracker { cfg : Config; pairs : gmap trackerKey trackedPair }.

Section Tracker.
Context {Other : Type} `{EqDecision Other}.

(** What the tracker reads of an entry of the generated [pgn.Registry]. *)
Record RegistryInfo := mkRegistryInfo {
  ri_Interval : duration;
  ri_Tolerances : gmap string spec_float;
  ri_Decode : option (list Z -> option (option (list (@rfield Other))))
}.

Variable Registry : gmap Z RegistryInfo.

(** ** Construction *)

Definition autowire (m : gmap Z DiffMethod) (pgnID : Z) : gmap Z DiffMethod :=
  match Registry !! pgnID with
  | None => m
  | Some info =>
      if bool_decide (size (ri_Tolerances info) = 0%nat) then m
      else match ri_Decode info with
      | None => m
      | Some dec =>
          match m !! pgnID with
          | Some _ => m
          | None =>
              let tols := map (fun '(f, t) => mkFieldTolerance f t)
                            (map_to_list (ri_Tolerances info)) in
              <[pgnID := FieldTolerance_method (mkFieldToleranceDiff None (Some dec) tols)]> m
          end
      end
  end.

(** [ord] is the order in which the registry is visited. *)
Definition NewChangeTracker (ord : list Z) (c : Config) : ChangeTracker :=
  mkChangeTracker
    (mkConfig (DefaultMethod c) (foldl autowire (Methods c) ord) (SubKeys c)
       (if DefaultIdleTimeout c =? 0 then 5 * second else DefaultIdleTimeout c)
       (if IdleMultiplier c =? 0 then 3 else IdleMultiplier c)
       (IdleTimeouts c)) ∅.

(** ** Operations *)

Definition methodFor (c : Config) (pgnID : Z) : DiffMethod :=
  match Methods c !! pgnID with
  | Some m => m
  | None => match DefaultMethod c with Some m => m | None => ByteMaskDiff end
  end.

Definition idleTimeout (c : Config) (pgnID : Z) : duration :=
  match IdleTimeouts c !! pgnID with
  | Some t => t
  | None =>
      match Registry !! pgnID with
      | Some info => if 0 <? ri_Interval info then i64 (ri_Interval info * IdleMultiplier c)
                     else DefaultIdleTimeout c
      | None => DefaultIdleTimeout c
      end
  end.

Definition sub_key (c : Config) (pgnID : Z) (data : list Z) : Z :=
  match SubKeys c !! pgnID with
  | Some (Some fn) => fn data
  | _ => 0
  end.

(** [None] is a panic inside the diff method. *)
Definition Process (ts : time) (source pgnID : Z) (data : list Z) (seq : Z)
    (ct : ChangeTracker) : option (ChangeTracker * option ChangeEvent) :=
  let subKey := sub_key (cfg ct) pgnID data in
  let key := (source, pgnID, subKey) in
  let event ty d := mkChangeEvent ty ts source pgnID subKey seq d in
  let set p := mkChangeTracker (cfg ct) (<[key := p]> (pairs ct)) in
  match pairs ct !! key with
  | None => Some (set (mkTrackedPair data ts false), Some (event Snapshot data))
  | Some pr =>
      if negb (length (lastData pr) =? length data)%nat then
        Some (set (mkTrackedPair data ts false), Some (event Snapshot data))
      else
        '(sig, diff) ← Diff (methodFor (cfg ct) pgnID) (lastData pr) data;
        if negb sig then Some (set (mkTrackedPair (lastData pr) ts false), None)
        else Some (set (mkTrackedPair data ts false), Some (event Delta diff))
  end.

Definition idle_due (ct : ChangeTracker) (now : time) (key : trackerKey) (pr : trackedPair) : bool :=
  negb (idleEmitted pr) && (idleTimeout (cfg ct) key.1.2 <=? time_Sub now (lastSeen pr)).

Definition idle_event (now : time) (key : trackerKey) : ChangeEvent :=
  mkChangeEvent Idle now key.1.1 key.1.2 key.2 0 [].

(** One round of [Tick]'s loop. *)
Definition tick_step (now : time) (acc : ChangeTracker * list ChangeEvent) (key : trackerKey)
    : ChangeTracker * list ChangeEvent :=
  let '(ct, events) := acc in
  match pairs ct !! key with
  | None => acc
  | Some pr =>
      if idleEmitted pr then acc
      else if idleTimeout (cfg ct) key.1.2 <=? time_Sub now (lastSeen pr) then
        (mkChangeTracker (cfg ct)
           (<[key := mkTrackedPair (lastData pr) (lastSeen pr) true]> (pairs ct)),
         events ++ [idle_event now key])
      else acc
  end.

Definition Tick (now : time) (ord : list trackerKey) (ct : ChangeTracker)
    : ChangeTracker * list ChangeEvent :=
  foldl (tick_step now) (ct, []) ord.

Definition Reset (ct : ChangeTracker) : ChangeTracker := mkChangeTracker (cfg ct) ∅.

Definition Remove (source pgnID subKey : Z) (ct : ChangeTracker) : ChangeTracker :=
  mkChangeTracker (cfg ct) (delete (source, pgnID, subKey) (pairs ct)).

Definition TrackedPairs (ct : ChangeTracker) : nat := size (pairs ct).

End Tracker.

(** ** The replayer *)

Record ChangeReplayer := mkChangeReplayer {
  rp_methods : gmap Z DiffMethod;
  rp_state : gmap trackerKey (list Z)
}.

Definition NewChangeReplayer (methods : gmap Z DiffMethod) : ChangeReplayer :=
  mkChangeReplayer methods ∅.

Definition rp_methodFor (r : ChangeReplayer) (pgnID : Z) : DiffMethod :=
  match rp_methods r !! pgnID with Some m => m | None => ByteMaskDiff end.

(** The outer [None] is a panic of the method; [Ok None] is Go's [nil, nil]. *)
Definition Replay (e : ChangeEvent) (r : ChangeReplayer)
    : option (ChangeReplayer * result string (option (list Z))) :=
  let key := ev_key e in
  match ev_Type e with
  | Snapshot => Some (mkChangeReplayer (rp_methods r) (<[key := ev_Data e]> (rp_state r)),
                      Ok (Some (ev_Data e)))
  | Delta =>
      match rp_state r !! key with
      | None => Some (r, Err "delta without prior snapshot"%string)
      | Some prev =>
          full ← Apply (rp_methodFor r (ev_PGN e)) prev (ev_Data e);
          Some (mkChangeReplayer (rp_methods r) (<[key := full]> (rp_state r)), Ok (Some full))
      end
  | Idle => Some (r, Ok None)
  end.

(** Go's nil slice is the empty list. *)
Definition State (source pgnID subKey : Z) (r : ChangeReplayer) : list Z :=
  default [] (rp_state r !! (source, pgnID, subKey)).

(** * Reconstruction *)

Section Sync.
Context {Other : Type} `{EqDecision Other}.
Variable Registry : gmap Z (@RegistryInfo Other).

(** The replayer was built for the tracker: for every PGN the tracker's diffs
    are what the replayer's method decodes. *)
Definition compatible (c : Config) (methods : gmap Z DiffMethod) : Prop :=
  forall pgnID, Decodes (methodFor c pgnID)
    (match methods !! pgnID with Some m => m | None => ByteMaskDiff end).

Definition payload_ok (data : list Z) : Prop := Z.of_nat (length data) <= max_payload.

(** Every baseline of the tracker is what the replayer holds for its key. *)
Definition in_sync (ct : ChangeTracker) (r : ChangeReplayer) : Prop :=
  compatible (cfg ct) (rp_methods r) /\
  forall key p, pairs ct !! key = Some p ->
    rp_state r !! key = Some (lastData p) /\ payload_ok (lastData p).

Lemma in_sync_insert ct r key p :
  in_sync ct r -> payload_ok (lastData p) ->
  in_sync (mkChangeTracker (cfg ct) (<[key := p]> (pairs ct)))
    (mkChangeReplayer (rp_methods r) (<[key := lastData p]> (rp_state r))).
Proof.
  intros [Hc Hs] Hp. split; [exact Hc|]. intros k q. cbn [pairs rp_state].
  intros [[<- <-]|[Hne Hq]]%lookup_insert_Some; [by rewrite lookup_insert_eq|].
  rewrite lookup_insert_ne by done. auto.
Qed.

Lemma in_sync_refresh ct r key p p' :
  in_sync ct r -> pairs ct !! key = Some p -> lastData p' = lastData p ->
  in_sync (mkChangeTracker (cfg ct) (<[key := p']> (pairs ct))) r.
Proof.
  intros [Hc Hs] Hp He. split; [exact Hc|]. intros k q. cbn [pairs].
  intros [[<- <-]|[Hne Hq]]%lookup_insert_Some; [rewrite He|]; auto.
Qed.

(** What the outcome of one [Process] means to a replayer in step with the
    tracker: an event reconstructs the payload exactly; no event means that the
    method found no significant change from what the replayer holds. *)
Definition process_replays (ct : ChangeTracker) (source pgnID : Z) (data : list Z)
    (r : ChangeReplayer) (ct' : ChangeTracker) (ev : option ChangeEvent) : Prop :=
  match ev with
  | Some e => exists r', Replay e r = Some (r', Ok (Some data)) /\ in_sync ct' r' /\
                rp_state r' !! ev_key e = Some data
  | None => in_sync ct' r /\ exists base d,
      rp_state r !! (source, pgnID, sub_key (cfg ct) pgnID data) = Some base /\
      length base = length data /\ Diff (methodFor (cfg ct) pgnID) base data = Some (false, d)
  end.

Lemma Process_replays ts source pgnID data seq ct r ct' ev :
  in_sync ct r -> payload_ok data ->
  Process ts source pgnID data seq ct = Some (ct', ev) ->
  process_replays ct source pgnID data r ct' ev /\ cfg ct' = cfg ct.
Proof.
  intros Hsync Hdata. unfold Process.
  set (key := (source, pgnID, sub_key (cfg ct) pgnID data)).
  assert (Hins : in_sync (mkChangeTracker (cfg ct) (<[key := mkTrackedPair data ts false]> (pairs ct)))
            (mkChangeReplayer (rp_methods r) (<[key := data]> (rp_state r)))).
  { now apply (in_sync_insert ct r key (mkTrackedPair data ts false)). }
  destruct (pairs ct !! key) as [pr|] eqn:Ek.
  2:{ intros [= <- <-]. split; [|done]. eexists. split; [reflexivity|]. split; [exact Hins|].
      apply lookup_insert_eq. }
  destruct (proj2 Hsync key pr Ek) as [Hst Hok].
  destruct (Nat.eqb_spec (length (lastData pr)) (length data)) as [Hlen|]; cbn [negb].
  2:{ intros [= <- <-]. split; [|done]. eexists. split; [reflexivity|]. split; [exact Hins|].
      apply lookup_insert_eq. }
  destruct (Diff (methodFor (cfg ct) pgnID) (lastData pr) data) as [[sig d]|] eqn:Ed; [|done].
  cbn. destruct sig; cbn [negb]; intros [= <- <-]; (split; [|done]).
  - pose proof (proj1 Hsync pgnID _ _ _ Hlen Hok Ed) as Ha. eexists. split.
    + unfold Replay, ev_key. cbn [ev_Type ev_Source ev_PGN ev_SubKey ev_Data]. fold key.
      rewrite Hst. unfold rp_methodFor. rewrite Ha. reflexivity.
    + split; [exact Hins|]. apply lookup_insert_eq.
  - split; [now apply (in_sync_refresh ct r key pr)|]. exists (lastData pr), d. auto.
Qed.

Lemma tick_step_sync now acc key r :
  in_sync acc.1 r -> in_sync (tick_step Registry now acc key).1 r /\
  cfg (tick_step Registry now acc key).1 = cfg acc.1.
Proof.
  intros Hs. destruct acc as [ct evs]. cbn [tick_step fst] in *.
  destruct (pairs ct !! key) as [pr|] eqn:Ek; [|done].
  destruct (idleEmitted pr); [done|]. destruct (_ <=? _); [|done].
  split; [|done]. now apply (in_sync_refresh ct r key pr).
Qed.

Lemma Tick_sync now ord ct r :
  in_sync ct r -> in_sync (Tick Registry now ord ct).1 r /\
  cfg (Tick Registry now ord ct).1 = cfg ct.
Proof.
  unfold Tick. enough (H : forall acc, in_sync acc.1 r ->
    in_sync (foldl (tick_step Registry now) acc ord).1 r /\
    cfg (foldl (tick_step Registry now) acc ord).1 = cfg acc.1) by apply (H (ct, [])).
  induction ord as [|k ord IH]; intros acc Hs; [done|]. cbn [foldl].
  destruct (tick_step_sync now acc k r Hs) as [Hs' Hc]. rewrite <- Hc. now apply IH.
Qed.

(** ** Whole streams *)

Inductive tracker_op :=
| OpProcess (ts : time) (source pgnID : Z) (data : list Z) (seq : Z)
| OpTick (now : time) (ord : list trackerKey)
| OpReset
| OpRemove (source pgnID subKey : Z).

(** One operation, with the events it emits and what each should replay to. *)
Definition op_step (ct : ChangeTracker) (op : tracker_op)
    : option (ChangeTracker * list (ChangeEvent * option (list Z))) :=
  match op with
  | OpProcess ts source pgnID data seq =>
      '(ct', ev) ← Process ts source pgnID data seq ct;
      Some (ct', match ev with Some e => [(e, Some data)] | None => [] end)
  | OpTick now ord => let '(ct', evs) := Tick Registry now ord ct in
                      Some (ct', map (fun e => (e, None)) evs)
  | OpReset => Some (Reset ct, [])
  | OpRemove s p k => Some (Remove s p k ct, [])
  end.

Fixpoint run_ops (ct : ChangeTracker) (ops : list tracker_op)
    : option (ChangeTracker * list (ChangeEvent * option (list Z))) :=
  match ops with
  | [] => Some (ct, [])
  | op :: ops =>
      '(ct', evs) ← op_step ct op;
      '(ct'', evs') ← run_ops ct' ops;
      Some (ct'', evs ++ evs')
  end.

Fixpoint replay_all (r : ChangeReplayer) (evs : list ChangeEvent)
    : option (ChangeReplayer * list (result string (option (list Z)))) :=
  match evs with
  | [] => Some (r, [])
  | e :: evs =>
      '(r', out) ← Replay e r;
      '(r'', outs) ← replay_all r' evs;
      Some (r'', out :: outs)
  end.

Definition op_payload_ok (op : tracker_op) : Prop :=
  match op with OpProcess _ _ _ data _ => payload_ok data | _ => True end.

Lemma replay_all_app r evs1 evs2 r1 o1 r2 o2 :
  replay_all r evs1 = Some (r1, o1) -> replay_all r1 evs2 = Some (r2, o2) ->
  replay_all r (evs1 ++ evs2) = Some (r2, o1 ++ o2).
Proof.
  revert r o1. induction evs1 as [|e evs1 IH]; intros r o1; cbn; [intros [= -> <-]; done|].
  destruct (Replay e r) as [[r' out]|]; [|done]. cbn.
  destruct (replay_all r' evs1) as [[r'' outs]|] eqn:E; [|done]. cbn. intros [= -> <-] H2.
  now rewrite (IH r' outs E H2).
Qed.

Lemma replay_idle r evs :
  Forall (fun e => ev_Type e = Idle) evs ->
  replay_all r evs = Some (r, map (fun _ => Ok None) evs).
Proof.
  induction 1 as [|e evs He _ IH]; [done|]. cbn [replay_all]. unfold Replay. rewrite He. cbn.
  now rewrite IH.
Qed.

Lemma Tick_events_idle now ord ct :
  Forall (fun e => ev_Type e = Idle) (Tick Registry now ord ct).2.
Proof.
  unfold Tick. enough (H : forall acc, Forall (fun e => ev_Type e = Idle) acc.2 ->
    Forall (fun e => ev_Type e = Idle) (foldl (tick_step Registry now) acc ord).2) by now apply (H (ct, [])).
  induction ord as [|k ord IH]; intros acc Ha; [done|]. cbn [foldl]. apply IH.
  destruct acc as [c evs]. cbn [tick_step fst snd] in *. repeat case_match; cbn [snd]; auto.
  apply Forall_app. auto.
Qed.

Lemma op_step_replays ct r op ct' evs :
  in_sync ct r -> op_payload_ok op -> op_step ct op = Some (ct', evs) ->
  exists r', replay_all r evs.*1 = Some (r', map (fun x => Ok x) evs.*2) /\ in_sync ct' r'.
Proof.
  intros Hs Hp. destruct op as [ts s p d q|now ord| |s p k]; cbn [op_step].
  - destruct (Process ts s p d q ct) as [[c ev]|] eqn:E; [|done]. cbn. intros [= <- <-].
    destruct (Process_replays _ _ _ _ _ _ _ _ _ Hs Hp E) as [Hr _].
    destruct ev as [e|]; cbn in *.
    + destruct Hr as (r' & -> & Hs' & _). exists r'. done.
    + exists r. split; [done|apply Hr].
  - pose proof (Tick_events_idle now ord ct) as Hi. pose proof (proj1 (Tick_sync now ord ct r Hs)) as Ht.
    destruct (Tick Registry now ord ct) as [c es]. intros [= <- <-]. exists r. split; [|exact Ht].
    cbn [snd] in Hi. rewrite <- !list_fmap_compose. cbn. rewrite list_fmap_id.
    rewrite (replay_idle r es Hi). do 2 f_equal.
  - intros [= <- <-]. exists r. split; [done|]. split; [apply Hs|]. intros k q Hk.
    cbn in Hk. rewrite lookup_empty in Hk. done.
  - intros [= <- <-]. exists r. split; [done|]. split; [apply Hs|]. intros k' q Hk.
    cbn in Hk. apply lookup_delete_Some in Hk as [_ Hk]. now apply (proj2 Hs).
Qed.

Lemma run_ops_replays ops : forall ct r ct' evs,
  in_sync ct r -> Forall op_payload_ok ops -> run_ops ct ops = Some (ct', evs) ->
  exists r', replay_all r evs.*1 = Some (r', map (fun x => Ok x) evs.*2) /\ in_sync ct' r'.
Proof.
  induction ops as [|op ops IH]; intros ct r ct' evs Hs Hp; cbn [run_ops].
  { intros [= <- <-]. exists r. done. }
  apply Forall_cons in Hp as [Hp Hps].
  destruct (op_step ct op) as [[c1 e1]|] eqn:E1; [|done]. cbn.
  destruct (run_ops c1 ops) as [[c2 e2]|] eqn:E2; [|done]. cbn. intros [= <- <-].
  destruct (op_step_replays _ _ _ _ _ Hs Hp E1) as (r1 & Hr1 & Hs1).
  destruct (IH _ _ _ _ Hs1 Hps E2) as (r2 & Hr2 & Hs2).
  exists r2. split; [|exact Hs2]. rewrite !fmap_app. eapply replay_all_app; [exact Hr1|exact Hr2].
Qed.

(** ** Construction *)

(** Wiring adds a method only where none was configured, and then one whose
    diffs [ByteMaskDiff] applies. *)
Lemma autowire_lookup ord m pgnID :
  match foldl (autowire Registry) m ord !! pgnID with
  | None => m !! pgnID = None
  | Some meth => m !! pgnID = Some meth \/
      (m !! pgnID = None /\ exists dec tols,
         meth = FieldTolerance_method (mkFieldToleranceDiff (Other:=Other) None dec tols))
  end.
Proof.
  revert m. induction ord as [|k ord IH]; intros m; cbn [foldl]; [destruct (m !! pgnID); auto|].
  specialize (IH (autowire Registry m k)).
  assert (Hw : autowire Registry m k !! pgnID = m !! pgnID \/
    (m !! pgnID = None /\ exists dec tols, autowire Registry m k !! pgnID =
      Some (FieldTolerance_method (mkFieldToleranceDiff (Other:=Other) None dec tols)))).
  { unfold autowire. destruct (decide (k = pgnID)) as [->|Hne].
    - destruct (Registry !! pgnID) as [info|]; [|by left].
      destruct (bool_decide _); [by left|]. destruct (ri_Decode info) as [dec|]; [|by left].
      destruct (m !! pgnID) eqn:Em; [left; exact Em|]. right. split; [done|].
      do 2 eexists. apply lookup_insert_eq.
    - left. repeat case_match; auto; now rewrite lookup_insert_ne. }
  destruct Hw as [Hw|(Hm & dec & tols & Hw)]; rewrite Hw in IH; [exact IH|].
  destruct (foldl _ _ ord !! pgnID) as [meth|]; [|done].
  destruct IH as [IH|[IH _]]; [|done]. injection IH as <-. right. split; [done|]. eauto.
Qed.

(** A configuration with no default method and lawful per-PGN methods. *)
Definition lawful_config (c : Config) : Prop :=
  DefaultMethod c = None /\
  forall pgnID m, Methods c !! pgnID = Some m -> Decodes m m.

Lemma new_tracker_compatible ord c methods :
  lawful_config c ->
  methods = Methods c \/ methods = Methods (cfg (NewChangeTracker Registry ord c)) ->
  compatible (cfg (NewChangeTracker Registry ord c)) methods.
Proof.
  intros [Hd Hm] Hms pgnID. unfold methodFor. cbn [NewChangeTracker cfg Methods DefaultMethod].
  rewrite Hd. pose proof (autowire_lookup ord (Methods c) pgnID) as Hw.
  assert (Hwired : forall dec tols,
    Decodes (FieldTolerance_method (mkFieldToleranceDiff (Other:=Other) None dec tols)) ByteMaskDiff).
  { intros dec tols. apply FieldTolerance_decodes. apply ByteMaskDiff_decodes. }
  assert (Hself : forall dec tols, let m := FieldTolerance_method (mkFieldToleranceDiff (Other:=Other) None dec tols) in
    Decodes m m).
  { intros dec tols. exact (Hwired dec tols). }
  destruct (foldl _ _ ord !! pgnID) as [m|] eqn:Ef.
  - destruct Hms as [-> | ->]; destruct Hw as [Hw|(Hw & dec & tols & ->)];
      cbn [NewChangeTracker cfg Methods]; rewrite ?Ef, ?Hw; eauto.
  - destruct Hms as [-> | ->]; cbn [NewChangeTracker cfg Methods]; rewrite ?Ef, ?Hw;
      apply ByteMaskDiff_decodes.
Qed.

(** C23: A replayer rebuilds what the tracker saw. Take a tracker built from a
    configuration without a default diff method (the replayer is not told of one and
    misreads its deltas, see [default_method_misread]), whose explicit methods
    decode their own diffs ([lawful_config]), with any registry, and a replayer
    given either the configured methods or the wired ones. For every sequence of
    frames, ticks, resets and removals whose payloads are within the 16-bit mask
    bound ([payload_ok]) and that the tracker runs without a panic, replaying all
    emitted events in order never fails: each snapshot or delta gives back exactly
    the payload it was emitted for, each idle event gives no data, and at the end
    the replayer holds every baseline of the tracker. *)
Theorem stream_reconstructs ord c methods ops ct' evs :
  lawful_config c ->
  methods = Methods c \/ methods = Methods (cfg (NewChangeTracker Registry ord c)) ->
  Forall op_payload_ok ops ->
  run_ops (NewChangeTracker Registry ord c) ops = Some (ct', evs) ->
  exists r', replay_all (NewChangeReplayer methods) evs.*1 =
               Some (r', map (fun x => Ok x) evs.*2) /\
    forall s p k q, pairs ct' !! (s, p, k) = Some q -> State s p k r' = lastData q.
Proof.
  intros Hc Hm Hp Hrun.
  destruct (run_ops_replays ops (NewChangeTracker Registry ord c) (NewChangeReplayer methods)
    ct' evs) as (r' & Hr & Hs); [|exact Hp|exact Hrun|].
  - split; [now apply new_tracker_compatible|]. intros k q Hk. cbn in Hk.
    rewrite lookup_empty in Hk. done.
  - exists r'. split; [exact Hr|]. intros s p k q Hq. unfold State.
    now rewrite (proj1 (proj2 Hs _ _ Hq)).
Qed.

(** Against a replayer in step with the tracker, an event of [Process]
    replays to exactly the payload received, and when [Process] emits nothing the
    key's method found no significant change from what the replayer holds, so the
    baseline never drifts. *)
Theorem Process_reconstructs ts source pgnID data seq ct r ct' ev :
  in_sync ct r -> payload_ok data ->
  Process ts source pgnID data seq ct = Some (ct', ev) ->
  process_replays ct source pgnID data r ct' ev.
Proof. intros Hs Hd Hp. eapply Process_replays; eauto. Qed.

(** ** Idle detection *)

Definition mark_idle (now : time) (ct : ChangeTracker) (k : trackerKey) (p : trackedPair) : trackedPair :=
  if idle_due Registry ct now k p then mkTrackedPair (lastData p) (lastSeen p) true else p.

Definition due_at (now : time) (ct : ChangeTracker) (k : trackerKey) : bool :=
  match pairs ct !! k with Some p => idle_due Registry ct now k p | None => false end.

Lemma tick_loop_spec now ord : forall ct evs, NoDup ord ->
  let r := foldl (tick_step Registry now) (ct, evs) ord in
  cfg r.1 = cfg ct /\
  r.2 = evs ++ map (idle_event now) (List.filter (due_at now ct) ord) /\
  forall k, pairs r.1 !! k = if bool_decide (k ∈ ord) then mark_idle now ct k <$> pairs ct !! k
                             else pairs ct !! k.
Proof.
  induction ord as [|k ord IH]; intros ct evs Hnd.
  { cbn. split; [done|]. split; [now rewrite app_nil_r|]. intros k.
    now rewrite bool_decide_false by apply not_elem_of_nil. }
  apply NoDup_cons in Hnd as [Hk Hnd]. cbn [foldl].
  assert (Hstep : exists ct1 evs1, tick_step Registry now (ct, evs) k = (ct1, evs1) /\
    cfg ct1 = cfg ct /\ pairs ct1 !! k = mark_idle now ct k <$> pairs ct !! k /\
    (forall k', k' <> k -> pairs ct1 !! k' = pairs ct !! k') /\
    evs1 = evs ++ map (idle_event now) (List.filter (due_at now ct) [k])).
  { cbn [tick_step List.filter]. unfold mark_idle, due_at, idle_due.
    destruct (pairs ct !! k) as [p|] eqn:Ep; cbn [fmap option_fmap option_map];
      [destruct (idleEmitted p) eqn:Ei; cbn [negb andb];
        [|destruct (idleTimeout Registry (cfg ct) k.1.2 <=? time_Sub now (lastSeen p)) eqn:Et]|];
      do 2 eexists; (split; [reflexivity|]); cbn [cfg pairs map]; rewrite ?app_nil_r; auto.
    split; [done|]. split; [apply lookup_insert_eq|]. split; [|done].
    intros. now rewrite lookup_insert_ne. }
  destruct Hstep as (ct1 & evs1 & -> & Hc & Hpk & Hpo & ->).
  destruct (IH ct1 (evs ++ map (idle_event now) (List.filter (due_at now ct) [k]))
    Hnd) as (Hc1 & He1 & Hp1).
  assert (Hdue : forall k' p, idle_due Registry ct1 now k' p = idle_due Registry ct now k' p).
  { intros. unfold idle_due. now rewrite Hc. }
  split; [now rewrite Hc1|]. split.
  - rewrite He1. change (k :: ord) with ([k] ++ ord). rewrite List.filter_app, map_app, app_assoc.
    do 2 f_equal. apply List.filter_ext_in. intros k' Hk'%list_elem_of_In. unfold due_at.
    rewrite Hpo by (intros ->; done). destruct (pairs ct !! k'); [now rewrite Hdue|done].
  - intros k'. rewrite Hp1. destruct (decide (k' = k)) as [->|Hne].
    + rewrite bool_decide_false, bool_decide_true by (done || set_solver). exact Hpk.
    + rewrite Hpo by done. rewrite (bool_decide_ext (k' ∈ k :: ord) (k' ∈ ord)) by set_solver.
      unfold mark_idle. destruct (bool_decide _), (pairs ct !! k'); cbn; rewrite ?Hdue; done.
Qed.

(** Visiting the pairs in any order, [Tick] emits exactly one idle event for
    each pair that is not yet marked and was last seen at least its timeout ago,
    in the visited order, marks exactly those pairs and changes nothing else. *)
Theorem Tick_spec now ord ct :
  ranges ord (pairs ct) ->
  let r := Tick Registry now ord ct in
  r.2 = map (idle_event now) (List.filter (due_at now ct) ord) /\
  (forall k, pairs r.1 !! k = mark_idle now ct k <$> pairs ct !! k).
Proof.
  intros [Hnd Hr]. destruct (tick_loop_spec now ord ct [] Hnd) as (_ & He & Hp).
  split; [exact He|]. intros k. unfold Tick. rewrite Hp.
  destruct (bool_decide_reflect (k ∈ ord)) as [|Hk]; [done|].
  destruct (pairs ct !! k) eqn:E; [|done]. exfalso. apply Hk, Hr. eauto.
Qed.

(** The key is silent: no pair, or one already reported idle. *)
Definition silent (k : trackerKey) (ct : ChangeTracker) : Prop :=
  forall p, pairs ct !! k = Some p -> idleEmitted p = true.

Definition op_touches (c : Config) (k : trackerKey) (op : tracker_op) : Prop :=
  match op with
  | OpProcess _ s p d _ => (s, p, sub_key c p d) = k
  | OpTick _ ord => ~ NoDup ord
  | _ => False
  end.

Lemma op_step_silent k ct op ct' evs :
  silent k ct -> ~ op_touches (cfg ct) k op -> op_step ct op = Some (ct', evs) ->
  silent k ct' /\ cfg ct' = cfg ct /\ Forall (fun e => ev_key e <> k) evs.*1.
Proof.
  intros Hs Ht. destruct op as [ts s p d q|now ord| |s p sk]; cbn [op_step op_touches] in *.
  - destruct (Process ts s p d q ct) as [[c ev]|] eqn:E; [|done]. cbn. intros [= <- <-].
    unfold Process in E.
    assert (Hset : forall v, silent k (mkChangeTracker (cfg ct)
        (<[(s, p, sub_key (cfg ct) p d) := v]> (pairs ct)))).
    { intros v w. cbn. rewrite lookup_insert_ne by done. apply Hs. }
    destruct (pairs ct !! _) as [pr|]; [destruct (negb _)|];
      [| destruct (Diff _ _ _) as [[[|] ?]|]; cbn in E|]; simplify_eq;
      (split; [apply Hset|split; [done|]]); cbn; repeat constructor; done.
  - assert (Hnd : NoDup ord) by (destruct (decide (NoDup ord)); [done|exfalso; tauto]).
    destruct (tick_loop_spec now ord ct [] Hnd) as (Hc & He & Hp). fold (Tick Registry now ord ct) in *.
    destruct (Tick Registry now ord ct) as [c es]. cbn [fst snd] in *. intros [= <- <-].
    split; [|split; [exact Hc|]].
    + intros w. rewrite Hp. case_bool_decide; [|apply Hs]. intros (v & Hv & ->)%fmap_Some.
      unfold mark_idle. destruct (idle_due _ _ _ _ _); [done|]. now apply Hs.
    + rewrite <- list_fmap_compose. rewrite He. rewrite Forall_fmap, Forall_forall. cbn.
      intros e (k' & <- & Hk')%list_elem_of_In%in_map_iff.
      apply filter_In in Hk' as [_ Hd]. unfold due_at in Hd.
      assert (ev_key (idle_event now k') = k') as -> by now destruct k' as [[] ].
      intros ->. destruct (pairs ct !! k) as [w|] eqn:Ew; [|done].
      unfold idle_due in Hd. now rewrite (Hs w Ew) in Hd.
  - intros [= <- <-]. split; [intros w; cbn; now rewrite lookup_empty|]. split; [done|constructor].
  - intros [= <- <-]. split; [|split; [done|constructor]].
    intros w. cbn. intros [_ Hw]%lookup_delete_Some. now apply Hs.
Qed.

Lemma run_ops_silent k ops : forall ct ct' evs,
  silent k ct -> Forall (fun op => ~ op_touches (cfg ct) k op) ops ->
  run_ops ct ops = Some (ct', evs) -> Forall (fun e => ev_key e <> k) evs.*1.
Proof.
  induction ops as [|op ops IH]; intros ct ct' evs Hs Ht; cbn [run_ops].
  { intros [= <- <-]. constructor. }
  apply Forall_cons in Ht as [Ht Hts].
  destruct (op_step ct op) as [[c1 e1]|] eqn:E1; [|done]. cbn.
  destruct (run_ops c1 ops) as [[c2 e2]|] eqn:E2; [|done]. cbn. intros [= <- <-].
  destruct (op_step_silent _ _ _ _ _ Hs Ht E1) as (Hs1 & Hc & He1).
  rewrite fmap_app. apply Forall_app. split; [exact He1|]. eapply IH; [exact Hs1| |exact E2].
  now rewrite Hc.
Qed.

(** Once [Tick] has reported a key idle, no later operation emits any event
    for that key until a frame of that key is processed, whatever else is
    processed, ticked, reset or removed. *)
Theorem idle_reported_once now ord ct k ops ct' evs :
  ranges ord (pairs ct) -> idle_event now k ∈ (Tick Registry now ord ct).2 ->
  Forall (fun op => ~ op_touches (cfg ct) k op) ops ->
  run_ops (Tick Registry now ord ct).1 ops = Some (ct', evs) ->
  Forall (fun e => ev_key e <> k) evs.*1.
Proof.
  intros [Hnd _] Hin Ht Hrun. destruct (tick_loop_spec now ord ct [] Hnd) as (Hc & He & Hp).
  fold (Tick Registry now ord ct) in *. rewrite He in Hin.
  apply list_elem_of_In, in_map_iff in Hin as (k' & Heq & Hk').
  assert (k' = k) as -> by (destruct k as [[] ], k' as [[] ]; unfold idle_event in Heq; cbn in Heq; congruence).
  apply filter_In in Hk' as [Hko Hd]. apply list_elem_of_In in Hko. unfold due_at in Hd.
  eapply run_ops_silent; [|rewrite Hc; exact Ht|exact Hrun].
  intros w. rewrite Hp, bool_decide_true by done.
  intros (v & Hv & ->)%fmap_Some. rewrite Hv in Hd. unfold mark_idle. now rewrite Hd.
Qed.

(** A tracker whose methods never panic never panics. *)
Lemma Process_total ts source pgnID data seq ct :
  (forall pgnID prev curr, is_Some (Diff (methodFor (cfg ct) pgnID) prev curr)) ->
  exists ct' ev, Process ts source pgnID data seq ct = Some (ct', ev).
Proof.
  intros Ht. unfold Process. destruct (pairs ct !! _) as [pr|]; [|eauto].
  destruct (negb _); [eauto|]. destruct (Ht pgnID (lastData pr) data) as [[[|] d] ->]; cbn; eauto.
Qed.

End Sync.

(** * Concrete runs *)

(** A registry with one entry: PGN 130306 every 100 ms, its second byte within
    tolerance 2. *)
Definition demo_registry : gmap Z (@RegistryInfo unit) :=
  {[ 130306 := mkRegistryInfo (100 * millisecond) {[ "speed"%string := f64_of_Z 2 ]}
                 (Decode demo_tolerance) ]}.
Definition demo_config : Config := mkConfig None ∅ {[ 61184 := Some (fun d => nth 0 d 0) ]} 0 0 ∅.
Definition demo_tracker := NewChangeTracker demo_registry [130306] demo_config.
Definition demo_t (s : Z) : time := 63000000000 * second + s * millisecond.
Definition demo_ops : list tracker_op :=
  [ OpProcess (demo_t 0) 7 130306 [1; 10] 1; OpProcess (demo_t 100) 7 130306 [2; 11] 2;
    OpProcess (demo_t 200) 7 130306 [3; 15] 3; OpProcess (demo_t 250) 9 61184 [5; 1; 2] 4;
    OpTick (demo_t 600) [(7, 130306, 0); (9, 61184, 5)];
    OpProcess (demo_t 700) 9 61184 [5; 1; 3] 5; OpRemove 7 130306 0 ].

Definition demo_events : list (ChangeEvent * option (list Z)) :=
  Eval vm_compute in default [] (snd <$> run_ops demo_registry demo_tracker demo_ops).

Lemma demo_run : exists ct', run_ops demo_registry demo_tracker demo_ops = Some (ct', demo_events) /\
  pairs ct' !! (9, 61184, 5) = Some (mkTrackedPair [5; 1; 3] (demo_t 700) false).
Proof.
  assert (H : (fun x => (x.2, pairs x.1 !! (9, 61184, 5))) <$> run_ops demo_registry demo_tracker demo_ops
    = Some (demo_events, Some (mkTrackedPair [5; 1; 3] (demo_t 700) false))) by (vm_compute; reflexivity).
  destruct (run_ops demo_registry demo_tracker demo_ops) as [[ct' evs]|]; [|done].
  exists ct'. cbn in H. injection H as -> ->. done.
Qed.

Lemma demo_config_lawful : lawful_config demo_config.
Proof. split; [done|]. intros pgnID m Hm. cbn in Hm. rewrite lookup_empty in Hm. done. Qed.

Lemma demo_stream_ok : Forall op_payload_ok demo_ops.
Proof. apply Forall_forall. intros op Hop. unfold demo_ops in Hop. set_unfold in Hop.
  destruct_or! Hop; subst op; try done; cbv; discriminate. Qed.

Lemma stream_reconstructs_witness :
  exists ct' r', run_ops demo_registry demo_tracker demo_ops = Some (ct', demo_events) /\
    map ev_Type demo_events.*1 = [Snapshot; Delta; Snapshot; Idle; Delta] /\
    replay_all (NewChangeReplayer ∅) demo_events.*1 =
      Some (r', [Ok (Some [1; 10]); Ok (Some [3; 15]); Ok (Some [5; 1; 2]); Ok None; Ok (Some [5; 1; 3])]) /\
    State 9 61184 5 r' = [5; 1; 3].
Proof.
  destruct demo_run as (ct' & Hrun & Hp).
  destruct (stream_reconstructs demo_registry [130306] demo_config ∅ demo_ops ct' demo_events
    demo_config_lawful (or_introl eq_refl) demo_stream_ok Hrun) as (r' & Hr & Hs).
  exists ct', r'. split; [exact Hrun|]. split; [reflexivity|]. split; [exact Hr|].
  now rewrite (Hs 9 61184 5 _ Hp).
Defined.

(** The tracker after its first frame, and a replayer fed its snapshot. *)
Definition one_pair : ChangeTracker :=
  mkChangeTracker demo_config {[ (7, 130310, 0) := mkTrackedPair [1; 10] (demo_t 0) false ]}.
Definition one_replayer : ChangeReplayer := mkChangeReplayer ∅ {[ (7, 130310, 0) := [1; 10] ]}.

Lemma one_in_sync : in_sync one_pair one_replayer.
Proof.
  split.
  - intros pgnID. unfold methodFor. cbn. rewrite !lookup_empty. apply ByteMaskDiff_decodes.
  - intros k q Hk. cbn in *. apply lookup_singleton_Some in Hk as [<- <-].
    split; [reflexivity|]. unfold payload_ok, max_payload. cbn. lia.
Qed.

Lemma Process_reconstructs_witness :
  exists ct' e, Process (demo_t 100) 7 130310 [1; 12] 2 one_pair = Some (ct', Some e) /\
    ev_Data e = [2; 12] /\
    process_replays one_pair 7 130310 [1; 12] one_replayer ct' (Some e).
Proof.
  do 2 eexists. split; [reflexivity|]. split; [reflexivity|].
  apply (Process_reconstructs (demo_t 100) 7 130310 [1; 12] 2 one_pair one_replayer).
  - apply one_in_sync.
  - unfold payload_ok, max_payload. cbn. lia.
  - reflexivity.
Defined.

Lemma one_pair_ranges : ranges [(7, 130310, 0)] (pairs one_pair).
Proof.
  split; [apply NoDup_singleton|]. intros k. rewrite list_elem_of_singleton. cbn. split.
  - intros ->. eexists. apply lookup_singleton_eq.
  - intros [v [<- _]%lookup_singleton_Some]. done.
Qed.

Lemma Tick_spec_witness :
  let r := Tick demo_registry (demo_t 6000) [(7, 130310, 0)] one_pair in
  r.2 = map (idle_event (demo_t 6000)) (List.filter (due_at demo_registry (demo_t 6000) one_pair) [(7, 130310, 0)]) /\
  length r.2 = 1%nat.
Proof.
  split; [|vm_compute; reflexivity].
  apply (Tick_spec demo_registry (demo_t 6000) [(7, 130310, 0)] one_pair one_pair_ranges).
Defined.

Lemma idle_reported_once_witness :
  exists ct' evs,
    run_ops demo_registry (Tick demo_registry (demo_t 6000) [(7, 130310, 0)] one_pair).1
      [OpTick (demo_t 9000) [(7, 130310, 0)]; OpProcess (demo_t 9100) 8 130310 [4] 9] = Some (ct', evs) /\
    Forall (fun e => ev_key e <> (7, 130310, 0)) evs.*1.
Proof.
  do 2 eexists. split; [reflexivity|].
  eapply (idle_reported_once demo_registry (demo_t 6000) [(7, 130310, 0)] one_pair (7, 130310, 0)
    [OpTick (demo_t 9000) [(7, 130310, 0)]; OpProcess (demo_t 9100) 8 130310 [4] 9]);
    [exact one_pair_ranges| | |].
  - apply list_elem_of_In. left. reflexivity.
  - repeat constructor; cbn.
    + intros H. apply H, NoDup_singleton.
    + intros [=].
  - vm_compute. reflexivity.
Defined.

(** A custom default method is unknown to the replayer, which falls back to
    [ByteMaskDiff]: with a default that sends the new payload as it is, the
    replayer misreads the first delta. *)
Definition whole_payload : DiffMethod :=
  mkDiffMethod (fun p c => Some (negb (bool_decide (p = c)), c)) (fun _ d => Some d).
Definition whole_config : Config := mkConfig (Some whole_payload) ∅ ∅ 0 0 ∅.

(** With a custom default diff method the replayer, which is not told of it,
    rebuilds a wrong payload from the first delta although the method decodes its
    own diffs. *)
Theorem default_method_misread :
  Decodes whole_payload whole_payload /\
  exists ct evs r' outs,
    run_ops (Other:=unit) ∅ (NewChangeTracker (Other:=unit) ∅ [] whole_config)
      [OpProcess (demo_t 0) 7 130310 [1; 10] 1; OpProcess (demo_t 100) 7 130310 [3; 9; 9] 2;
       OpProcess (demo_t 200) 7 130310 [3; 8; 9] 3] = Some (ct, evs) /\
    replay_all (NewChangeReplayer ∅) evs.*1 = Some (r', outs) /\
    outs !! 2%nat = Some (Ok (Some [8; 9; 9])) /\ evs.*2 !! 2%nat = Some (Some [3; 8; 9]).
Proof.
  split.
  - intros p c d _ _ [= _ <-]. done.
  - do 4 eexists. split; [reflexivity|]. split; [reflexivity|]. split; reflexivity.
Qed.
