(* ===== verification/Devices.v ===== *)
(** The device registry: [devices.go], with [RxFrame] of [broker.go].

    Devices are keyed by (bus, source).  The registry learns them from traffic
    ([RecordPacket]), address claims and product information, and can emit the
    frames that seed a remote registry ([SynthesizeFrames]). *)

From Stdlib Require Import Ascii.
From S2P Require Import Prelude CanId.

(** [RxFrame] of [broker.go]. *)
Record RxFrame := mkRxFrame {
  rx_Timestamp : time;
  rx_Header : CANHeader;
  rx_Data : list Z;
  rx_Bus : string;
  rx_Seq : Z
}.

(** * Fixed-width strings *)

(** [encodeFixedString] into a field of [n] bytes: [copy] cuts the string. *)
Definition encodeFixedString (n : nat) (s : string) : list Z :=
  let bs := take n (bytes_of_string s) in bs ++ replicate (n - length bs) 0xFF.

Fixpoint until_pad (data : list Z) : list Z :=
  match data with
  | [] => []
  | b :: data => if (b =? 0x00) || (b =? 0xFF) then [] else b :: until_pad data
  end.

Definition decodeFixedString (data : list Z) : string := string_of_bytes (until_pad data).

(** What a decoded field of width [n] holds: at most [n] bytes, none of them a
    terminator. *)
Definition fits (n : nat) (s : string) : Prop :=
  (strlen s <= n)%nat /\ Forall (fun b => b <> 0 /\ b <> 0xFF) (bytes_of_string s).

Lemma until_pad_clean bs tl :
  Forall (fun b => b <> 0 /\ b <> 0xFF) bs -> until_pad (bs ++ tl) = bs ++ until_pad tl.
Proof.
  induction 1 as [|b bs [H0 H1] _ IH]; [done|]. cbn [app until_pad].
  apply Z.eqb_neq in H0, H1. now rewrite H0, H1, IH.
Qed.

Lemma until_pad_ok bs :
  bytes_ok bs -> bytes_ok (until_pad bs) /\ (length (until_pad bs) <= length bs)%nat /\
  Forall (fun b => b <> 0 /\ b <> 0xFF) (until_pad bs).
Proof.
  induction 1 as [|b bs Hb _ (IH1 & IH2 & IH3)]; [repeat constructor|]. cbn [until_pad].
  destruct ((b =? 0) || (b =? 255)) eqn:E; [cbn; repeat constructor; lia|].
  to_props. cbn [length]. split; [now constructor|]. split; [lia|]. now constructor.
Qed.

Lemma decodeFixedString_fits n bs :
  bytes_ok bs -> length bs = n -> fits n (decodeFixedString bs).
Proof.
  intros Hb <-. destruct (until_pad_ok bs Hb) as (H1 & H2 & H3).
  unfold fits, strlen, decodeFixedString. now rewrite bytes_of_string_of_bytes.
Qed.

Lemma length_encodeFixedString n s : length (encodeFixedString n s) = n.
Proof.
  unfold encodeFixedString. rewrite length_app, length_replicate.
  pose proof (length_take_le (bytes_of_string s) n) as H. rewrite length_take. lia.
Qed.

Lemma decode_encodeFixedString n s :
  fits n s -> decodeFixedString (encodeFixedString n s) = s.
Proof.
  intros [Hl Hc]. unfold strlen in Hl. unfold encodeFixedString, decodeFixedString.
  rewrite take_ge, until_pad_clean by done.
  assert (until_pad (replicate (n - length (bytes_of_string s)) 0xFF) = []) as ->
    by now destruct (n - _)%nat.
  now rewrite app_nil_r, string_of_bytes_of_string.
Qed.

(** * State *)

Record Device := mkDevice {
  dev_Bus : string;
  dev_Source : Z;
  dev_NAME : Z;
  dev_NAMEHex : string;
  dev_Manufacturer : string;
  dev_ManufacturerCode : Z;
  dev_DeviceClass : Z;
  dev_DeviceFunction : Z;
  dev_DeviceInstance : Z;
  dev_UniqueNumber : Z;
  ModelID : string;
  SoftwareVersion : string;
  ModelVersion : string;
  ModelSerial : string;
  ProductCode : Z;
  FirstSeen : time;
  LastSeen : time;
  PacketCount : Z;
  ByteCount : Z
}.

Abbreviation deviceKey := (string * Z)%type.
Abbreviation BusSource := (string * Z)%type.
Abbreviation DeviceRegistry := (gmap deviceKey Device).

Definition dev_key (d : Device) : deviceKey := (dev_Bus d, dev_Source d).

Definition NewDeviceRegistry : DeviceRegistry := ∅.

(** * Operations *)

Definition set_stats (d : Device) (first last : time) (packets bytes : Z) : Device :=
  mkDevice (dev_Bus d) (dev_Source d) (dev_NAME d) (dev_NAMEHex d) (dev_Manufacturer d)
    (dev_ManufacturerCode d) (dev_DeviceClass d) (dev_DeviceFunction d) (dev_DeviceInstance d)
    (dev_UniqueNumber d) (ModelID d) (SoftwareVersion d) (ModelVersion d) (ModelSerial d)
    (ProductCode d) first last packets bytes.

Definition set_product (d : Device) (code : Z) (model sw ver serial : string) : Device :=
  mkDevice (dev_Bus d) (dev_Source d) (dev_NAME d) (dev_NAMEHex d) (dev_Manufacturer d)
    (dev_ManufacturerCode d) (dev_DeviceClass d) (dev_DeviceFunction d) (dev_DeviceInstance d)
    (dev_UniqueNumber d) model sw ver serial code
    (FirstSeen d) (LastSeen d) (PacketCount d) (ByteCount d).

(** A device with the zero value in every other field. *)
Definition new_device (bus : string) (source : Z) : Device :=
  mkDevice bus source 0 "" "" 0 0 0 0 0 "" "" "" "" 0 0 0 0 0.

Definition RecordPacket (bus : string) (source : Z) (ts : time) (dataLen : Z) (r : DeviceRegistry)
    : DeviceRegistry * bool :=
  if 254 <=? source then (r, false)
  else
    let key := (bus, source) in
    match r !! key with
    | Some dev =>
        (<[key := set_stats dev (FirstSeen dev) ts (u64 (PacketCount dev + 1))
                    (u64 (ByteCount dev + u64 dataLen))]> r, false)
    | None => (<[key := set_stats (new_device bus source) ts ts 1 (u64 dataLen)]> r, true)
    end.

Definition decodeNAME (name : Z) (bus : string) (source : Z) : Device :=
  let fields := DecodeNAME name in
  mkDevice bus source name (NAMEHex fields) (Manufacturer fields) (ManufacturerCode fields)
    (DeviceClass fields) (DeviceFunction fields) (DeviceInstance fields) (UniqueNumber fields)
    "" "" "" "" 0 0 0 0 0.

(** The eviction loop over the registry in the visited order [ord]: the first
    other source of the bus holding the NAME, if any. *)
Definition prior_holder (bus : string) (source name : Z) (r : DeviceRegistry) (ord : list deviceKey)
    : option deviceKey :=
  List.find (fun k => match r !! k with
    | Some d => bool_decide (k.1 = bus) && negb (k.2 =? source) && (dev_NAME d =? name)
    | None => false end) ord.

(** Returns the device if new or changed, and the evicted source if any. *)
Definition HandleAddressClaim (ord : list deviceKey) (bus : string) (source : Z) (data : list Z)
    (r : DeviceRegistry) : DeviceRegistry * option Device * option Z :=
  if (length data <? 8)%nat then (r, None, None)
  else
    let name := le_val (take 8 data) in
    let key := (bus, source) in
    let existing := r !! key in
    if match existing with Some e => dev_NAME e =? name | None => false end then (r, None, None)
    else
      let evicted := prior_holder bus source name r ord in
      let r := match evicted with Some k => delete k r | None => r end in
      let dev := decodeNAME name bus source in
      let dev := match existing with
        | Some e => set_stats dev (FirstSeen e) (LastSeen e) (PacketCount e) (ByteCount e)
        | None => dev end in
      (<[key := dev]> r, Some dev, snd <$> evicted).

Definition HandleProductInfo (bus : string) (source : Z) (data : list Z) (r : DeviceRegistry)
    : DeviceRegistry * option Device :=
  if (length data <? 134)%nat then (r, None)
  else
    let productCode := le_val (slice 2 4 data) in
    let modelID := decodeFixedString (slice 4 36 data) in
    let softwareVersion := decodeFixedString (slice 36 76 data) in
    let modelVersion := decodeFixedString (slice 76 100 data) in
    let modelSerial := decodeFixedString (slice 100 132 data) in
    let key := (bus, source) in
    match r !! key with
    | None => (r, None)
    | Some dev =>
        if (ProductCode dev =? productCode) && bool_decide (ModelID dev = modelID) &&
           bool_decide (SoftwareVersion dev = softwareVersion) &&
           bool_decide (ModelVersion dev = modelVersion) &&
           bool_decide (ModelSerial dev = modelSerial)
        then (r, None)
        else
          let dev := set_product dev productCode modelID softwareVersion modelVersion modelSerial in
          (<[key := dev]> r, Some dev)
    end.

(** Deleting during [range] visits every key once; the evicted keys come back
    in the visited order. *)
Definition expired (cutoff : time) (r : DeviceRegistry) (k : deviceKey) : bool :=
  match r !! k with Some d => LastSeen d <? cutoff | None => false end.

Definition ExpireIdle (ord : list deviceKey) (cutoff : time) (r : DeviceRegistry)
    : DeviceRegistry * list BusSource :=
  foldl (fun '(r, evicted) key =>
    if expired cutoff r key then (delete key r, evicted ++ [key]) else (r, evicted)) (r, []) ord.

Definition SourcesMissingProductInfo (ord : list deviceKey) (r : DeviceRegistry) : list BusSource :=
  List.filter (fun k => match r !! k with
    | Some d => negb (dev_NAME d =? 0) && bool_decide (ModelID d = ""%string) && (ProductCode d =? 0)
    | None => false end) ord.

Definition Get (bus : string) (source : Z) (r : DeviceRegistry) : option Device := r !! (bus, source).

Definition Snapshot (ord : list deviceKey) (r : DeviceRegistry) : list Device :=
  omap (fun k => r !! k) ord.

Definition claim_frame (ts : time) (d : Device) : RxFrame :=
  mkRxFrame ts (mkCANHeader 6 60928 (dev_Source d) 255) (le64 (dev_NAME d)) (dev_Bus d) 0.

Definition product_data (d : Device) : list Z :=
  [0; 0] ++ le16 (ProductCode d) ++ encodeFixedString 32 (ModelID d) ++
  encodeFixedString 40 (SoftwareVersion d) ++ encodeFixedString 24 (ModelVersion d) ++
  encodeFixedString 32 (ModelSerial d) ++ [0; 0].

Definition product_frame (ts : time) (d : Device) : RxFrame :=
  mkRxFrame ts (mkCANHeader 6 126996 (dev_Source d) 255) (product_data d) (dev_Bus d) 0.

Definition synthesize_device (ts : time) (d : Device) : list RxFrame :=
  if dev_NAME d =? 0 then []
  else claim_frame ts d ::
    (if (ProductCode d =? 0) && bool_decide (ModelID d = ""%string) then [] else [product_frame ts d]).

Definition SynthesizeFrames (ord : list deviceKey) (ts : time) (r : DeviceRegistry) : list RxFrame :=
  flat_map (fun k => match r !! k with Some d => synthesize_device ts d | None => [] end) ord.

(** * The registry invariant *)

(** The identity fields of a claimed device are those of its NAME, and the
    product fields fit the widths of PGN 126996. *)
Definition identity_of_name (d : Device) : Prop :=
  let f := DecodeNAME (dev_NAME d) in
  dev_NAMEHex d = NAMEHex f /\ dev_Manufacturer d = Manufacturer f /\
  dev_ManufacturerCode d = ManufacturerCode f /\ dev_DeviceClass d = DeviceClass f /\
  dev_DeviceFunction d = DeviceFunction f /\ dev_DeviceInstance d = DeviceInstance f /\
  dev_UniqueNumber d = UniqueNumber f.

Record device_ok (d : Device) : Prop := {
  ok_name : 0 <= dev_NAME d < 2 ^ 64;
  ok_identity : dev_NAME d <> 0 -> identity_of_name d;
  ok_code : 0 <= ProductCode d < 2 ^ 16;
  ok_model : fits 32 (ModelID d);
  ok_software : fits 40 (SoftwareVersion d);
  ok_version : fits 24 (ModelVersion d);
  ok_serial : fits 32 (ModelSerial d);
  ok_packets : 0 <= PacketCount d < 2 ^ 64;
  ok_bytes : 0 <= ByteCount d < 2 ^ 64
}.

(** Entries sit under their own key, and no two sources of a bus hold the same
    (nonzero) NAME. *)
Record registry_ok (r : DeviceRegistry) : Prop := {
  ok_entry : forall k d, r !! k = Some d -> dev_key d = k /\ device_ok d;
  ok_unique : forall k1 k2 d1 d2, r !! k1 = Some d1 -> r !! k2 = Some d2 ->
    k1.1 = k2.1 -> dev_NAME d1 = dev_NAME d2 -> dev_NAME d1 <> 0 -> k1 = k2
}.

Lemma fits_empty n : fits n "".
Proof. split; [cbn; lia|constructor]. Qed.

#[local] Hint Resolve fits_empty : core.

Lemma registry_ok_empty : registry_ok NewDeviceRegistry.
Proof. split; intros *; unfold NewDeviceRegistry; rewrite lookup_empty; done. Qed.

Lemma registry_ok_delete r k : registry_ok r -> registry_ok (delete k r).
Proof.
  intros [He Hu]. split.
  - intros k' d [_ Hd]%lookup_delete_Some. auto.
  - intros k1 k2 d1 d2 [_ H1]%lookup_delete_Some [_ H2]%lookup_delete_Some. now apply Hu.
Qed.

(** Inserting a well-formed device whose NAME no other source of the bus has. *)
Lemma registry_ok_insert r k d :
  registry_ok r -> dev_key d = k -> device_ok d ->
  (forall k' d', r !! k' = Some d' -> k' <> k -> k'.1 = k.1 -> dev_NAME d <> 0 ->
     dev_NAME d' <> dev_NAME d) ->
  registry_ok (<[k := d]> r).
Proof.
  intros [He Hu] Hk Hd Hn. split.
  - intros k' d' [[<- <-]|[_ Hd']]%lookup_insert_Some; auto.
  - intros k1 k2 d1 d2 [[<- <-]|[N1 H1]]%lookup_insert_Some [[<- <-]|[N2 H2]]%lookup_insert_Some
      Hb Heq H0; [done| | |by apply (Hu k1 k2 d1 d2)].
    + exfalso. apply (Hn k2 d2); congruence.
    + exfalso. apply (Hn k1 d1); congruence.
Qed.

(** Replacing a device by one of the same NAME. *)
Lemma registry_ok_update r k d d' :
  registry_ok r -> r !! k = Some d -> dev_key d' = k -> dev_NAME d' = dev_NAME d -> device_ok d' ->
  registry_ok (<[k := d']> r).
Proof.
  intros Hok Hd Hk Hname Hd'. apply registry_ok_insert; [done..|].
  intros k1 d1 H1 Hne Hb H0 Heq. apply Hne. eapply (ok_unique _ Hok k1 k d1 d); [done..| |]; congruence.
Qed.

Lemma RecordPacket_ok bus src ts n r :
  registry_ok r -> registry_ok (RecordPacket bus src ts n r).1.
Proof.
  intros Hok. unfold RecordPacket. destruct (254 <=? src); [done|].
  destruct (r !! (bus, src)) as [d|] eqn:E; cbn [fst].
  - destruct (ok_entry _ Hok _ _ E) as [Hk Hd].
    apply (registry_ok_update r (bus, src) d); [done..|]. destruct Hd.
    constructor; cbn; try done; apply wrap_range; lia.
  - apply registry_ok_insert; [done|done| |done].
    constructor; cbn; auto; try lia. apply wrap_range. lia.
Qed.

Lemma HandleProductInfo_ok bus src data r :
  registry_ok r -> bytes_ok data -> registry_ok (HandleProductInfo bus src data r).1.
Proof.
  intros Hok Hb. unfold HandleProductInfo. destruct (Nat.ltb_spec (length data) 134); [done|].
  destruct (r !! (bus, src)) as [d|] eqn:E; [|done]. destruct (_ && _); [done|]. cbn [fst].
  destruct (ok_entry _ Hok _ _ E) as [Hk Hd].
  apply (registry_ok_update r (bus, src) d); [done..|].
  assert (Hs : forall i j, bytes_ok (slice i j data)) by (intros; now apply Forall_take, Forall_drop).
  assert (Hl : forall i j, (i <= j <= 134)%nat -> length (slice i j data) = (j - i)%nat).
  { intros. unfold slice. rewrite length_take, length_drop. lia. }
  destruct Hd. constructor; cbn [set_product dev_NAME ProductCode ModelID SoftwareVersion
    ModelVersion ModelSerial PacketCount ByteCount]; try done;
    try (apply decodeFixedString_fits; [apply Hs|rewrite Hl by lia; lia]).
  pose proof (le_val_range _ (Hs 2%nat 4%nat)) as Hr. rewrite Hl in Hr by lia. exact Hr.
Qed.

Lemma prior_holder_Some bus src name r ord k :
  prior_holder bus src name r ord = Some k ->
  k ∈ ord /\ k.1 = bus /\ k.2 <> src /\ exists d, r !! k = Some d /\ dev_NAME d = name.
Proof.
  intros [Hin H]%find_some. apply list_elem_of_In in Hin. destruct (r !! k) as [d|] eqn:E; [|done].
  to_props. eauto 10.
Qed.

Lemma prior_holder_None bus src name r ord :
  ranges ord r -> prior_holder bus src name r ord = None ->
  forall k d, r !! k = Some d -> k.1 = bus -> k.2 <> src -> dev_NAME d <> name.
Proof.
  intros [_ Hr] Hn k d Hk Hb Hs Hname. pose proof (find_none _ _ Hn k) as H.
  cbv beta in H. rewrite Hk in H. rewrite bool_decide_true in H by done.
  rewrite (proj2 (Z.eqb_neq _ _) Hs), (proj2 (Z.eqb_eq _ _) Hname) in H.
  discriminate H. apply list_elem_of_In, Hr. eauto.
Qed.

Lemma decodeNAME_identity name bus src : identity_of_name (decodeNAME name bus src).
Proof. repeat split. Qed.

(** The holder found is the only one, so the visiting order does not matter. *)
Lemma prior_holder_unique bus src name r ord k d :
  registry_ok r -> ranges ord r -> name <> 0 ->
  r !! k = Some d -> k.1 = bus -> k.2 <> src -> dev_NAME d = name ->
  prior_holder bus src name r ord = Some k.
Proof.
  intros Hok Hr H0 Hk Hb Hs Hn. destruct (prior_holder bus src name r ord) as [k'|] eqn:E.
  - apply prior_holder_Some in E as (_ & Hb' & _ & d' & Hd' & Hn'). f_equal.
    apply (ok_unique _ Hok k' k d' d); congruence.
  - exfalso. eapply prior_holder_None; eauto.
Qed.

Lemma HandleAddressClaim_ok ord bus src data r :
  registry_ok r -> ranges ord r -> bytes_ok data ->
  registry_ok (HandleAddressClaim ord bus src data r).1.1.
Proof.
  intros Hok Hr Hb. unfold HandleAddressClaim.
  destruct (Nat.ltb_spec (length data) 8) as [|Hl]; [done|].
  set (name := le_val (take 8 data)).
  assert (Hname : 0 <= name < 2 ^ 64).
  { pose proof (le_val_range (take 8 data) ltac:(now apply Forall_take)) as H.
    rewrite length_take, Nat.min_l in H by lia. exact H. }
  destruct (match r !! (bus, src) with Some e => dev_NAME e =? name | None => false end); [done|].
  cbn [fst]. apply registry_ok_insert.
  - destruct (prior_holder _ _ _ _ _); [now apply registry_ok_delete|done].
  - now destruct (r !! (bus, src)).
  - destruct (r !! (bus, src)) as [e|] eqn:E; [destruct (proj2 (ok_entry _ Hok _ _ E))|];
      constructor; cbn; auto; try lia; intros _; apply (decodeNAME_identity name bus src).
  - intros k d Hk Hne Hbus H0. destruct k as [kb ks]. cbn in Hbus. subst kb.
    assert (ks <> src) by congruence.
    assert (Hname' : dev_NAME (match r !! (bus, src) with
       | Some e => set_stats (decodeNAME name bus src) (FirstSeen e) (LastSeen e) (PacketCount e) (ByteCount e)
       | None => decodeNAME name bus src end) = name) by now destruct (r !! (bus, src)).
    cbv zeta in *. rewrite Hname' in *. intros Hn.
    destruct (prior_holder bus src name r ord) as [k'|] eqn:E.
    + apply lookup_delete_Some in Hk as [Hk' Hk].
      rewrite (prior_holder_unique bus src name r ord (bus, ks) d) in E by done. congruence.
    + eapply prior_holder_None; eauto.
Qed.

Lemma ExpireIdle_loop cutoff ord : forall r acc,
  NoDup ord ->
  let s := foldl (fun '(r, evicted) key =>
    if expired cutoff r key then (delete key r, evicted ++ [key]) else (r, evicted)) (r, acc) ord in
  s.2 = acc ++ List.filter (expired cutoff r) ord /\
  forall k, s.1 !! k = if bool_decide (k ∈ ord) && expired cutoff r k then None else r !! k.
Proof.
  induction ord as [|k ord IH]; intros r acc Hnd; cbn [foldl].
  { cbn. rewrite app_nil_r. split; [done|]. intros k. now rewrite bool_decide_false by apply not_elem_of_nil. }
  apply NoDup_cons in Hnd as [Hk Hnd].
  assert (Hex : forall k', k' <> k -> expired cutoff (delete k r) k' = expired cutoff r k').
  { intros k' Hne. unfold expired. now rewrite lookup_delete_ne. }
  assert (Hfl : List.filter (expired cutoff (delete k r)) ord = List.filter (expired cutoff r) ord).
  { apply List.filter_ext_in. intros k' Hk'%list_elem_of_In. apply Hex. now intros ->. }
  cbn [List.filter]. destruct (expired cutoff r k) eqn:E.
  - destruct (IH (delete k r) (acc ++ [k]) Hnd) as [H1 H2]. split.
    + rewrite H1, Hfl, <- app_assoc. done.
    + intros k'. rewrite H2. destruct (decide (k' = k)) as [->|Hne].
      * rewrite bool_decide_false by done. cbn [andb]. rewrite lookup_delete_eq.
        now rewrite bool_decide_true, E by set_solver.
      * rewrite Hex, lookup_delete_ne by done.
        now rewrite (bool_decide_ext (k' ∈ k :: ord) (k' ∈ ord)) by set_solver.
  - destruct (IH r acc Hnd) as [H1 H2]. split; [exact H1|]. intros k'. rewrite H2.
    destruct (decide (k' = k)) as [->|Hne]; [now rewrite E, !andb_false_r|].
    now rewrite (bool_decide_ext (k' ∈ k :: ord) (k' ∈ ord)) by set_solver.
Qed.

Lemma ExpireIdle_ok ord cutoff r :
  registry_ok r -> NoDup ord -> registry_ok (ExpireIdle ord cutoff r).1.
Proof.
  intros [He Hu] Hnd. destruct (ExpireIdle_loop cutoff ord r [] Hnd) as [_ Hl].
  fold (ExpireIdle ord cutoff r) in Hl.
  assert (Hsub : forall k d, (ExpireIdle ord cutoff r).1 !! k = Some d -> r !! k = Some d).
  { intros k d. unfold ExpireIdle. rewrite Hl. now destruct (_ && _). }
  split; [intros k d Hk; auto|]. intros k1 k2 d1 d2 H1 H2. apply Hu; auto.
Qed.

(** Every way the registry changes, with the types the callers give. *)
Inductive registry_step : DeviceRegistry -> DeviceRegistry -> Prop :=
| step_RecordPacket bus src ts n r :
    registry_step r (RecordPacket bus src ts n r).1
| step_HandleAddressClaim ord bus src data r :
    ranges ord r -> bytes_ok data ->
    registry_step r (HandleAddressClaim ord bus src data r).1.1
| step_HandleProductInfo bus src data r :
    bytes_ok data -> registry_step r (HandleProductInfo bus src data r).1
| step_ExpireIdle ord cutoff r :
    ranges ord r -> registry_step r (ExpireIdle ord cutoff r).1.

Lemma registry_step_ok r r' : registry_step r r' -> registry_ok r -> registry_ok r'.
Proof.
  intros [] Hok; eauto using RecordPacket_ok, HandleAddressClaim_ok, HandleProductInfo_ok.
  apply ExpireIdle_ok; [done|]. match goal with H : ranges _ _ |- _ => apply H end.
Qed.

(** C28: in every registry reachable from the empty one by traffic, claims,
    product information and expiry, entries sit under their own key, carry the
    identity their NAME decodes to and product strings within their field widths,
    and no two sources of a bus hold the same nonzero NAME. *)
Theorem registry_reachable_ok r : rtc registry_step NewDeviceRegistry r -> registry_ok r.
Proof.
  intros H. pose proof registry_ok_empty as H0. revert H0.
  induction H as [|r1 r2 r3 Hs _ IH]; [done|]. intros H1. apply IH. now apply (registry_step_ok r1).
Qed.

(** What an address claim does to a well-formed registry. *)
Definition claim_outcome (bus : string) (src name : Z) (r r' : DeviceRegistry)
    (changed : option Device) (evicted : option Z) : Prop :=
  match changed with
  | None => r' = r /\ evicted = None /\ exists d, r !! (bus, src) = Some d /\ dev_NAME d = name
  | Some d =>
      r' !! (bus, src) = Some d /\ dev_NAME d = name /\ identity_of_name d /\
      (forall e, r !! (bus, src) = Some e ->
         dev_NAME e <> name /\ FirstSeen d = FirstSeen e /\ LastSeen d = LastSeen e /\
         PacketCount d = PacketCount e /\ ByteCount d = ByteCount e) /\
      (forall s, evicted = Some s <-> exists e, r !! (bus, s) = Some e /\ s <> src /\ dev_NAME e = name) /\
      (forall k, k <> (bus, src) -> r' !! k = if bool_decide (Some k = pair bus <$> evicted) then None else r !! k)
  end.

Lemma prior_holder_key bus src name r ord k :
  prior_holder bus src name r ord = Some k -> k = (bus, k.2).
Proof. intros (_ & <- & _)%prior_holder_Some. now destruct k. Qed.

(** A claim of a nonzero NAME on a well-formed registry, whatever the order
    the registry is visited in: if the source already has that NAME nothing
    changes; otherwise the source gets a device with the NAME's identity and its
    old statistics, the other source of that bus holding the NAME (there is at
    most one) is removed and reported, and every other entry is untouched. *)
Theorem HandleAddressClaim_spec ord bus src data r :
  registry_ok r -> ranges ord r -> (8 <= length data)%nat -> le_val (take 8 data) <> 0 ->
  let '(r', changed, evicted) := HandleAddressClaim ord bus src data r in
  claim_outcome bus src (le_val (take 8 data)) r r' changed evicted.
Proof.
  intros Hok Hr Hl H0. unfold HandleAddressClaim. destruct (Nat.ltb_spec (length data) 8); [lia|].
  set (name := le_val (take 8 data)) in *.
  destruct (match r !! (bus, src) with Some e => dev_NAME e =? name | None => false end) eqn:Es.
  { destruct (r !! (bus, src)) as [e|] eqn:E; [|done]. to_props. cbn. eauto. }
  assert (Hold : forall e, r !! (bus, src) = Some e -> dev_NAME e <> name).
  { intros e He. rewrite He in Es. now to_props. }
  cbn [claim_outcome]. split; [apply lookup_insert_eq|].
  split; [now destruct (r !! (bus, src))|].
  split; [destruct (r !! (bus, src)); apply (decodeNAME_identity name bus src)|].
  split; [intros e He; rewrite He; split; [now apply Hold|done]|].
  pose proof (prior_holder_key bus src name r ord) as Hkey.
  split.
  - intros s. destruct (prior_holder bus src name r ord) as [k|] eqn:E; cbn [fmap option_fmap option_map].
    + pose proof (prior_holder_Some _ _ _ _ _ _ E) as (_ & Hb & Hs & d & Hd & Hn).
      rewrite (Hkey k eq_refl) in Hd. cbn in Hd. split; [intros [= <-]; eauto|].
      intros (e & He & Hse & Hne). f_equal.
      cut ((bus, s) = (bus, k.2)); [congruence|]. apply (ok_unique _ Hok _ _ e d); (done || congruence).
    + split; [done|]. intros (e & He & Hse & Hne). exfalso.
      eapply (prior_holder_None _ _ _ _ _ Hr E (bus, s)); eauto.
  - intros k Hk. rewrite lookup_insert_ne by done.
    destruct (prior_holder bus src name r ord) as [k'|] eqn:E; cbn [fmap option_fmap option_map].
    + rewrite (Hkey k' eq_refl). cbn [snd]. case_bool_decide as Hd.
      * injection Hd as ->. apply lookup_delete_eq.
      * rewrite lookup_delete_ne; congruence.
    + now rewrite bool_decide_false.
Qed.

(** Visiting the devices in any order, expiry removes and reports exactly the
    devices last seen before the cutoff, each once. *)
Theorem ExpireIdle_spec ord cutoff r :
  ranges ord r ->
  let '(r', evicted) := ExpireIdle ord cutoff r in
  NoDup evicted /\
  (forall k, k ∈ evicted <-> exists d, r !! k = Some d /\ LastSeen d < cutoff) /\
  (forall k, r' !! k = if bool_decide (k ∈ evicted) then None else r !! k).
Proof.
  intros [Hnd Hr]. destruct (ExpireIdle_loop cutoff ord r [] Hnd) as [He Hl].
  fold (ExpireIdle ord cutoff r) in *. unfold ExpireIdle in *.
  destruct (foldl _ _ ord) as [r' evicted]. cbn [fst snd app] in *. subst evicted.
  assert (Hin : forall k, k ∈ List.filter (expired cutoff r) ord <-> exists d, r !! k = Some d /\ LastSeen d < cutoff).
  { intros k. rewrite list_elem_of_In, filter_In, <- list_elem_of_In, Hr. unfold expired. split.
    - intros [[d Hd] Hx]. rewrite Hd in Hx. to_props. eauto.
    - intros (d & Hd & Hx). rewrite Hd. split; [eauto|]. now apply Z.ltb_lt. }
  split; [|split; [exact Hin|]].
  - apply NoDup_ListNoDup, List.NoDup_filter, NoDup_ListNoDup, Hnd.
  - intros k. rewrite Hl. case_bool_decide as Hk.
    + cbn [andb]. unfold expired. destruct (r !! k) as [d|] eqn:Ek.
      * destruct (Z.ltb_spec (LastSeen d) cutoff).
        -- rewrite bool_decide_true; [done|]. apply Hin. eauto.
        -- rewrite bool_decide_false; [done|]. intros (d' & Hd' & Hlt)%Hin. rewrite Ek in Hd'. injection Hd' as <-. lia.
      * now destruct (bool_decide _).
    + cbn [andb]. destruct (bool_decide_reflect (k ∈ List.filter (expired cutoff r) ord)) as [Hi|]; [|done].
      apply Hin in Hi as (d & Hd & _). exfalso. apply Hk, Hr. eauto.
Qed.

(** * Seeding a remote registry *)

(** What the registry learns from one received frame: the statistics and the
    two discovery PGNs, as the broker dispatches them.  [oracle] is the visiting
    order of each [range]. *)
Definition learn (oracle : DeviceRegistry -> list deviceKey) (r : DeviceRegistry) (f : RxFrame)
    : DeviceRegistry :=
  let bus := rx_Bus f in
  let src := Source (rx_Header f) in
  let r := (RecordPacket bus src (rx_Timestamp f) (Z.of_nat (length (rx_Data f))) r).1 in
  if PGN (rx_Header f) =? 60928 then (HandleAddressClaim (oracle r) bus src (rx_Data f) r).1.1
  else if PGN (rx_Header f) =? 126996 then (HandleProductInfo bus src (rx_Data f) r).1
  else r.

Definition has_product (d : Device) : bool :=
  negb ((ProductCode d =? 0) && bool_decide (ModelID d = ""%string)).

(** The seeded device: same key, NAME and identity, and the same product
    information if the original has a product code or a model. *)
Definition same_device (d d' : Device) : Prop :=
  dev_key d' = dev_key d /\ dev_NAME d' = dev_NAME d /\
  (dev_NAMEHex d' = dev_NAMEHex d /\ dev_Manufacturer d' = dev_Manufacturer d /\
   dev_ManufacturerCode d' = dev_ManufacturerCode d /\ dev_DeviceClass d' = dev_DeviceClass d /\
   dev_DeviceFunction d' = dev_DeviceFunction d /\ dev_DeviceInstance d' = dev_DeviceInstance d /\
   dev_UniqueNumber d' = dev_UniqueNumber d) /\
  (has_product d = true ->
   ProductCode d' = ProductCode d /\ ModelID d' = ModelID d /\ SoftwareVersion d' = SoftwareVersion d /\
   ModelVersion d' = ModelVersion d /\ ModelSerial d' = ModelSerial d).

Section Seed.
Variable oracle : DeviceRegistry -> list deviceKey.
Hypothesis oracle_ranges : forall r, ranges (oracle r) r.

(** Traffic statistics never touch what [same_device] compares. *)
Lemma RecordPacket_frame bus src ts n r :
  let r' := (RecordPacket bus src ts n r).1 in
  (forall k, k <> (bus, src) -> r' !! k = r !! k) /\
  match r !! (bus, src) with
  | Some d => exists d', r' !! (bus, src) = Some d' /\ forall e, same_device e d -> same_device e d'
  | None => forall d', r' !! (bus, src) = Some d' -> dev_NAME d' = 0
  end.
Proof.
  unfold RecordPacket. destruct (254 <=? src); cbn [fst].
  { split; [done|]. destruct (r !! (bus, src)) eqn:E; [eauto|congruence]. }
  destruct (r !! (bus, src)) as [d|] eqn:E; cbn [fst].
  - split; [intros; now rewrite lookup_insert_ne|]. eexists. split; [apply lookup_insert_eq|].
    intros e He. exact He.
  - split; [intros; now rewrite lookup_insert_ne|]. intros d'. rewrite lookup_insert_eq.
    now intros [= <-].
Qed.

Lemma le_val_claim d : 0 <= dev_NAME d < 2 ^ 64 -> le_val (take 8 (le64 (dev_NAME d))) = dev_NAME d.
Proof.
  intros H. rewrite take_ge by (unfold le64; rewrite length_le_bytes; lia). now apply le_val_le64.
Qed.

(** The claim frame of a claimed device adds it. *)
Lemma learn_claim ts d s :
  device_ok d -> dev_NAME d <> 0 -> s !! dev_key d = None ->
  (forall k d', s !! k = Some d' -> k.1 = dev_Bus d -> dev_NAME d' <> dev_NAME d) ->
  exists d', learn oracle s (claim_frame ts d) !! dev_key d = Some d' /\
    dev_key d' = dev_key d /\ dev_NAME d' = dev_NAME d /\ identity_of_name d' /\
    (forall k, k <> dev_key d -> learn oracle s (claim_frame ts d) !! k = s !! k).
Proof.
  intros Hd H0 Hs Hu. unfold learn. cbn [claim_frame rx_Bus rx_Header rx_Data rx_Timestamp Source PGN].
  cbn [Z.eqb Pos.eqb]. fold (dev_key d).
  destruct (RecordPacket_frame (dev_Bus d) (dev_Source d) ts (Z.of_nat (length (le64 (dev_NAME d)))) s)
    as [Hfr Hnew].
  set (s1 := (RecordPacket _ _ _ _ s).1) in *. fold (dev_key d) in *. rewrite Hs in Hnew.
  unfold HandleAddressClaim. assert (length (le64 (dev_NAME d)) = 8%nat) as -> by reflexivity.
  cbn [Nat.ltb Nat.leb]. rewrite (le_val_claim d (ok_name _ Hd)).
  assert ((match s1 !! (dev_Bus d, dev_Source d) with Some e => dev_NAME e =? dev_NAME d | None => false end) = false) as ->.
  { fold (dev_key d). destruct (s1 !! dev_key d) as [e|] eqn:E; [|done].
    apply Z.eqb_neq. rewrite (Hnew e eq_refl). congruence. }
  assert (prior_holder (dev_Bus d) (dev_Source d) (dev_NAME d) s1 (oracle s1) = None) as ->.
  { destruct (prior_holder _ _ _ _ _) as [k|] eqn:E; [|done]. exfalso.
    apply prior_holder_Some in E as (_ & Hb & Hsrc & e & He & Hn).
    assert (k <> dev_key d) by (intros ->; now apply Hsrc).
    rewrite Hfr in He by done. exact (Hu k e He Hb Hn). }
  cbn [fst]. fold (dev_key d). eexists. split; [apply lookup_insert_eq|].
  split; [now destruct (s1 !! dev_key d)|]. split; [now destruct (s1 !! dev_key d)|].
  split; [destruct (s1 !! dev_key d); apply (decodeNAME_identity (dev_NAME d) (dev_Bus d) (dev_Source d))|].
  intros k Hk. rewrite lookup_insert_ne by done. now apply Hfr.
Qed.

Lemma product_fields d :
  device_ok d -> let data := product_data d in
  length data = 134%nat /\ le_val (slice 2 4 data) = ProductCode d /\
  decodeFixedString (slice 4 36 data) = ModelID d /\
  decodeFixedString (slice 36 76 data) = SoftwareVersion d /\
  decodeFixedString (slice 76 100 data) = ModelVersion d /\
  decodeFixedString (slice 100 132 data) = ModelSerial d.
Proof.
  intros Hd data. unfold data, product_data.
  split; [now rewrite !length_app, !length_encodeFixedString|].
  set (C := le16 (ProductCode d)). set (M := encodeFixedString 32 (ModelID d)).
  set (S := encodeFixedString 40 (SoftwareVersion d)).
  set (V := encodeFixedString 24 (ModelVersion d)). set (R := encodeFixedString 32 (ModelSerial d)).
  assert (HC : length C = 2%nat) by reflexivity.
  assert (HM : length M = 32%nat) by apply length_encodeFixedString.
  assert (HS : length S = 40%nat) by apply length_encodeFixedString.
  assert (HV : length V = 24%nat) by apply length_encodeFixedString.
  assert (HR : length R = 32%nat) by apply length_encodeFixedString.
  rewrite (slice_app_exact [0; 0] C) by (rewrite ?HC; reflexivity).
  split; [apply le_val_le16, (ok_code _ Hd)|].
  rewrite (app_assoc [0; 0] C).
  rewrite (slice_app_exact ([0; 0] ++ C) M) by (rewrite length_app, ?HC, ?HM; reflexivity).
  split; [apply decode_encodeFixedString, (ok_model _ Hd)|]. rewrite (app_assoc ([0; 0] ++ C) M).
  rewrite (slice_app_exact (([0; 0] ++ C) ++ M) S) by (rewrite !length_app, ?HC, ?HM, ?HS; reflexivity).
  split; [apply decode_encodeFixedString, (ok_software _ Hd)|]. rewrite (app_assoc _ S).
  rewrite (slice_app_exact ((([0; 0] ++ C) ++ M) ++ S) V)
    by (rewrite !length_app, ?HC, ?HM, ?HS, ?HV; reflexivity).
  split; [apply decode_encodeFixedString, (ok_version _ Hd)|]. rewrite (app_assoc _ V).
  rewrite (slice_app_exact (((([0; 0] ++ C) ++ M) ++ S) ++ V) R)
    by (rewrite !length_app, ?HC, ?HM, ?HS, ?HV, ?HR; reflexivity).
  apply decode_encodeFixedString, (ok_serial _ Hd).
Qed.

(** The product frame completes a claimed device. *)
Lemma learn_product ts d s e :
  device_ok d -> s !! dev_key d = Some e ->
  exists d', learn oracle s (product_frame ts d) !! dev_key d = Some d' /\
    dev_key d' = dev_key e /\ dev_NAME d' = dev_NAME e /\
    (identity_of_name e -> identity_of_name d') /\
    (ProductCode d' = ProductCode d /\ ModelID d' = ModelID d /\ SoftwareVersion d' = SoftwareVersion d /\
     ModelVersion d' = ModelVersion d /\ ModelSerial d' = ModelSerial d) /\
    (forall k, k <> dev_key d -> learn oracle s (product_frame ts d) !! k = s !! k).
Proof.
  intros Hd Hs. unfold learn. cbn [product_frame rx_Bus rx_Header rx_Data rx_Timestamp Source PGN].
  cbn [Z.eqb Pos.eqb]. destruct (product_fields d Hd) as (Hl & Hc & Hm & Hsw & Hv & Hr).
  rewrite Hl. assert (Hrec : exists e', (RecordPacket (dev_Bus d) (dev_Source d) ts (Z.of_nat 134) s).1 !!
      dev_key d = Some e' /\ dev_key e' = dev_key e /\ dev_NAME e' = dev_NAME e /\
      (identity_of_name e -> identity_of_name e')).
  { unfold RecordPacket. destruct (254 <=? dev_Source d); cbn [fst]; [eauto 10|].
    fold (dev_key d). rewrite Hs. cbn [fst]. eexists. split; [apply lookup_insert_eq|]. done. }
  destruct (RecordPacket_frame (dev_Bus d) (dev_Source d) ts (Z.of_nat 134) s) as [Hfr _].
  set (s1 := (RecordPacket _ _ _ _ s).1) in *. clearbody s1.
  destruct Hrec as (e' & He' & Hk & Hn & Hid). fold (dev_key d) in Hfr.
  unfold HandleProductInfo. rewrite Hl. cbn [Nat.ltb Nat.leb]. fold (dev_key d).
  rewrite He', Hc, Hm, Hsw, Hv, Hr.
  destruct (_ && _) eqn:Esame; cbn [fst].
  - to_props. exists e'. auto 10.
  - eexists. split; [apply lookup_insert_eq|]. split; [exact Hk|]. split; [exact Hn|].
    split; [exact Hid|]. split; [done|]. intros k Hne. rewrite lookup_insert_ne by done. now apply Hfr.
Qed.

Lemma identity_same d d' :
  identity_of_name d -> identity_of_name d' -> dev_NAME d' = dev_NAME d ->
  dev_NAMEHex d' = dev_NAMEHex d /\ dev_Manufacturer d' = dev_Manufacturer d /\
  dev_ManufacturerCode d' = dev_ManufacturerCode d /\ dev_DeviceClass d' = dev_DeviceClass d /\
  dev_DeviceFunction d' = dev_DeviceFunction d /\ dev_DeviceInstance d' = dev_DeviceInstance d /\
  dev_UniqueNumber d' = dev_UniqueNumber d.
Proof.
  unfold identity_of_name. intros (H1 & H2 & H3 & H4 & H5 & H6 & H7) H' Hn. rewrite Hn in H'.
  destruct H' as (G1 & G2 & G3 & G4 & G5 & G6 & G7). repeat split; congruence.
Qed.

Lemma learn_device ts d s :
  device_ok d -> dev_NAME d <> 0 -> s !! dev_key d = None ->
  (forall k d', s !! k = Some d' -> k.1 = dev_Bus d -> dev_NAME d' <> dev_NAME d) ->
  let s' := foldl (learn oracle) s (synthesize_device ts d) in
  (exists d', s' !! dev_key d = Some d' /\ same_device d d') /\
  (forall k, k <> dev_key d -> s' !! k = s !! k).
Proof.
  intros Hd H0 Hs Hu. unfold synthesize_device. rewrite (proj2 (Z.eqb_neq _ _) H0).
  destruct (learn_claim ts d s Hd H0 Hs Hu) as (e & He & Hk & Hn & Hid & Hfr).
  unfold same_device, has_product.
  destruct ((ProductCode d =? 0) && _) eqn:Ep; cbn [foldl negb].
  - split; [|exact Hfr]. exists e. split; [exact He|]. split; [exact Hk|]. split; [exact Hn|].
    split; [|done]. apply identity_same; [apply (ok_identity _ Hd H0)|done..].
  - destruct (learn_product ts d _ e Hd He) as (d' & Hd' & Hk' & Hn' & Hid' & Hp & Hfr').
    split; [|intros k Hne; rewrite Hfr', Hfr by done; done].
    exists d'. split; [exact Hd'|]. split; [congruence|]. split; [congruence|]. split; [|done].
    apply identity_same; [apply (ok_identity _ Hd H0)|auto|congruence].
Qed.

(** The state of a seeded registry once the keys of [done] were sent. *)
Definition seeded (r s : DeviceRegistry) (sent : list deviceKey) : Prop :=
  forall k, match r !! k with
    | Some d => if bool_decide (k ∈ sent) && negb (dev_NAME d =? 0)
                then exists d', s !! k = Some d' /\ same_device d d' else s !! k = None
    | None => s !! k = None
    end.

Lemma seeded_from r s sent k d :
  seeded r s sent -> s !! k = Some d ->
  exists e, r !! k = Some e /\ k ∈ sent /\ dev_NAME e <> 0 /\ dev_NAME d = dev_NAME e.
Proof.
  intros H Hk. specialize (H k). destruct (r !! k) as [e|]; [|congruence].
  destruct (bool_decide_reflect (k ∈ sent)); cbn [andb] in H; [|congruence].
  destruct (Z.eqb_spec (dev_NAME e) 0); cbn [negb] in H; [congruence|].
  destruct H as (d' & Hd' & Hs). exists e. split; [done|]. split; [done|]. split; [done|].
  rewrite Hk in Hd'. injection Hd' as ->. apply Hs.
Qed.

Lemma seeded_step ts r s sent k d :
  registry_ok r -> r !! k = Some d -> k ∉ sent -> seeded r s sent ->
  seeded r (foldl (learn oracle) s (synthesize_device ts d)) (sent ++ [k]).
Proof.
  intros Hok Hk Hns Hsd. destruct (ok_entry _ Hok _ _ Hk) as [Hkey Hd].
  assert (Hsent : forall k', k' <> k -> bool_decide (k' ∈ sent ++ [k]) = bool_decide (k' ∈ sent)).
  { intros k' Hne. apply bool_decide_ext. set_solver. }
  assert (Hsk : s !! k = None).
  { specialize (Hsd k). rewrite Hk, bool_decide_false in Hsd by done. exact Hsd. }
  destruct (decide (dev_NAME d = 0)) as [H0|H0].
  - unfold synthesize_device. rewrite (proj2 (Z.eqb_eq _ _) H0). cbn [foldl].
    intros k'. destruct (decide (k' = k)) as [->|Hne].
    + now rewrite Hk, (proj2 (Z.eqb_eq _ _) H0), andb_false_r.
    + specialize (Hsd k'). now rewrite Hsent.
  - destruct (learn_device ts d s Hd H0) as [(d' & Hd' & Hsame) Hfr]; [now rewrite Hkey| |].
    { intros k1 d1 H1 Hb Hn. destruct (seeded_from _ _ _ _ _ Hsd H1) as (e & He & Hin & _ & Hne).
      assert (k1 = k) as ->; [|done]. apply (ok_unique _ Hok k1 k e d); try congruence.
      rewrite Hb, <- Hkey. done. }
    rewrite Hkey in *. intros k'. destruct (decide (k' = k)) as [->|Hne].
    + rewrite Hk, bool_decide_true by set_solver. rewrite (proj2 (Z.eqb_neq _ _) H0). cbn. eauto.
    + specialize (Hsd k'). rewrite Hsent, Hfr by done. exact Hsd.
Qed.

Lemma seed_loop ts r ord : forall s sent,
  registry_ok r -> NoDup (sent ++ ord) -> (forall k, k ∈ ord -> is_Some (r !! k)) -> seeded r s sent ->
  seeded r (foldl (learn oracle) s (SynthesizeFrames ord ts r)) (sent ++ ord).
Proof.
  induction ord as [|k ord IH]; intros s sent Hok Hnd Hr Hsd.
  - now rewrite app_nil_r.
  - unfold SynthesizeFrames. cbn [flat_map]. rewrite foldl_app. fold (SynthesizeFrames ord ts r).
    destruct (Hr k) as [d Hd]; [left|]. rewrite Hd.
    replace (sent ++ k :: ord) with ((sent ++ [k]) ++ ord) in * by now rewrite <- app_assoc.
    apply IH; [done|done|intros; apply Hr; now right|].
    apply seeded_step; [done..| |done]. apply NoDup_app in Hnd as (Hnd & _).
    apply NoDup_app in Hnd as (_ & Hx & _). intros Hin. apply (Hx k Hin). left.
Qed.

(** Feed the frames a well-formed registry synthesizes, in any visiting
    order, to an empty registry: exactly the devices with a NAME appear, each
    under its own (bus, source) with the same NAME and decoded identity, and with
    the same product information whenever the original had a product code or a
    model. *)
Theorem SynthesizeFrames_seed ord ts r :
  registry_ok r -> ranges ord r ->
  let s := foldl (learn oracle) NewDeviceRegistry (SynthesizeFrames ord ts r) in
  forall k, match r !! k with
    | Some d => if dev_NAME d =? 0 then s !! k = None
                else exists d', s !! k = Some d' /\ same_device d d'
    | None => s !! k = None
    end.
Proof.
  intros Hok [Hnd Hr] s k.
  assert (Hs : seeded r s ([] ++ ord)).
  { apply seed_loop; [done|done|intros k' Hk'; now apply Hr|]. intros k'. cbn.
    unfold NewDeviceRegistry. rewrite lookup_empty. now destruct (r !! k'). }
  specialize (Hs k). cbn [app] in Hs. destruct (r !! k) as [d|] eqn:E; [|exact Hs].
  rewrite bool_decide_true in Hs by (apply Hr; eauto). now destruct (dev_NAME d =? 0).
Qed.

End Seed.

(** * Concrete registries *)

Definition demo_name : Z := 0xC08C870002600001.
Definition demo_claim (n : Z) : list Z := le64 n.
Definition claim_in (bus : string) (src n : Z) (r : DeviceRegistry) : DeviceRegistry :=
  (HandleAddressClaim (any_order r) bus src (demo_claim n) r).1.1.
Definition demo_product : list Z :=
  product_data (set_product (new_device "can0" 2) 77 "AIS700" "1.2" "A" "0042").

(** A source seen in traffic, one that claimed, and one with product information. *)
Definition demo_registry : DeviceRegistry :=
  (HandleProductInfo "can0" 2 demo_product
    (claim_in "can0" 2 demo_name
      (claim_in "can0" 1 5 (RecordPacket "can0" 9 1000 8 NewDeviceRegistry).1))).1.

Lemma claim_in_ok bus src n r : registry_ok r -> registry_ok (claim_in bus src n r).
Proof.
  intros. apply HandleAddressClaim_ok; [done|apply any_order_ranges|apply le_bytes_ok].
Qed.

Lemma bytes_ok_dec bs : forallb (fun b => (0 <=? b) && (b <? 256)) bs = true -> bytes_ok bs.
Proof.
  intros H. apply Forall_forall. intros b Hb. rewrite forallb_forall in H.
  specialize (H b (proj1 (list_elem_of_In _ _) Hb)). to_props. split; lia.
Qed.

Lemma demo_registry_ok : registry_ok demo_registry.
Proof.
  apply HandleProductInfo_ok; [|apply bytes_ok_dec; vm_compute; reflexivity].
  do 2 apply claim_in_ok. apply RecordPacket_ok, registry_ok_empty.
Qed.

Lemma registry_reachable_ok_witness :
  rtc registry_step NewDeviceRegistry demo_registry /\ registry_ok demo_registry.
Proof.
  assert (H : rtc registry_step NewDeviceRegistry demo_registry).
  { eapply rtc_l; [apply (step_RecordPacket "can0" 9 1000 8)|].
    eapply rtc_l; [apply (step_HandleAddressClaim (any_order (RecordPacket "can0" 9 1000 8 NewDeviceRegistry).1)
      "can0" 1 (demo_claim 5)); [apply any_order_ranges|apply le_bytes_ok]|].
    fold (claim_in "can0" 1 5 (RecordPacket "can0" 9 1000 8 NewDeviceRegistry).1).
    eapply rtc_l; [apply (step_HandleAddressClaim (any_order (claim_in "can0" 1 5 (RecordPacket "can0" 9 1000 8 NewDeviceRegistry).1))
      "can0" 2 (demo_claim demo_name)); [apply any_order_ranges|apply le_bytes_ok]|].
    apply rtc_once. apply (step_HandleProductInfo "can0" 2 demo_product).
    apply bytes_ok_dec; vm_compute; reflexivity. }
  split; [exact H|]. apply registry_reachable_ok. exact H.
Defined.

(** The device with NAME 5 moves from source 1 to source 7. *)
Lemma HandleAddressClaim_spec_witness :
  let '(r', changed, evicted) :=
    HandleAddressClaim (any_order demo_registry) "can0" 7 (demo_claim 5) demo_registry in
  claim_outcome "can0" 7 (le_val (take 8 (demo_claim 5))) demo_registry r' changed evicted.
Proof.
  assert (Hl : (8 <= length (demo_claim 5))%nat) by (vm_compute; lia).
  assert (H0 : le_val (take 8 (demo_claim 5)) <> 0) by (vm_compute; congruence).
  exact (HandleAddressClaim_spec (any_order demo_registry) "can0" 7 (demo_claim 5) demo_registry
    demo_registry_ok (any_order_ranges demo_registry) Hl H0).
Defined.

Lemma ExpireIdle_spec_witness :
  let '(r', evicted) := ExpireIdle (any_order demo_registry) 2000 demo_registry in
  NoDup evicted /\
  (forall k, k ∈ evicted <-> exists d, demo_registry !! k = Some d /\ LastSeen d < 2000) /\
  (forall k, r' !! k = if bool_decide (k ∈ evicted) then None else demo_registry !! k).
Proof. exact (ExpireIdle_spec (any_order demo_registry) 2000 demo_registry (any_order_ranges demo_registry)). Defined.

Definition demo_device : Device :=
  Eval vm_compute in default (new_device "" 0) (demo_registry !! ("can0"%string, 2)).

Lemma demo_device_lookup : demo_registry !! ("can0"%string, 2) = Some demo_device.
Proof. vm_compute. reflexivity. Qed.

Lemma SynthesizeFrames_seed_witness :
  let s := foldl (learn any_order) NewDeviceRegistry
             (SynthesizeFrames (any_order demo_registry) 3000 demo_registry) in
  s !! ("can0"%string, 9) = None /\ option_map ModelID (s !! ("can0"%string, 2)) = Some "AIS700"%string /\
  exists d d', demo_registry !! ("can0"%string, 2) = Some d /\ s !! ("can0"%string, 2) = Some d' /\ same_device d d'.
Proof.
  pose proof (SynthesizeFrames_seed any_order any_order_ranges (any_order demo_registry) 3000 demo_registry
    demo_registry_ok (any_order_ranges demo_registry)) as H.
  intros s. split; [vm_compute; reflexivity|]. split; [vm_compute; reflexivity|].
  specialize (H ("can0"%string, 2)). fold s in H.
  clearbody s. rewrite demo_device_lookup in H. destruct H as (d' & H1 & H2).
  exists demo_device, d'. split; [exact demo_device_lookup|]. auto.
Defined.

(** A claim of NAME 0 takes the entry of a source that never claimed. *)
Example zero_claim_evicts :
  (HandleAddressClaim (any_order demo_registry) "can0" 30 (demo_claim 0) demo_registry).2 = Some 9.
Proof. vm_compute. reflexivity. Qed.
