(* ===== verification/Filters.v ===== *)
(** Event filters: [EventFilter] and [resolvedFilter] of [broker.go], and the
    [valueFilter] of [values.go].

    The same filter is evaluated in three ways: frame by frame against the live
    device registry, resolved to source addresses before a replay, and compiled
    for a values snapshot.  Their agreement is what a client relies on. *)

From S2P Require Import Prelude CanId Devices.

Record EventFilter := mkEventFilter {
  PGNs : list Z;
  ExcludePGNs : list Z;
  Manufacturers : list string;
  Instances : list Z;
  Names : list Z;
  ExcludeNames : list Z;
  Buses : list string
}.

Definition nonempty {A} (l : list A) : bool := negb (bool_decide (length l = 0%nat)).

(** A filter pointer; [None] is nil. *)
Definition IsEmpty (f : option EventFilter) : bool :=
  match f with
  | None => true
  | Some f => negb (nonempty (PGNs f)) && negb (nonempty (ExcludePGNs f)) &&
      negb (nonempty (Manufacturers f)) && negb (nonempty (Instances f)) &&
      negb (nonempty (Names f)) && negb (nonempty (ExcludeNames f)) && negb (nonempty (Buses f))
  end.

(** The early returns of the Go code, as a first-refusal sequence. *)
Definition matchesManufacturer (f : EventFilter) (dev : Device) : bool :=
  let codeStr := pretty (dev_ManufacturerCode dev) in
  existsb (fun m => bool_decide (m = dev_Manufacturer dev) || bool_decide (m = codeStr)) (Manufacturers f).

Definition matchesDevice (f : EventFilter) (dev : Device) : bool :=
  if nonempty (Manufacturers f) && negb (matchesManufacturer f dev) then false
  else if nonempty (Instances f) && negb (contains (Instances f) (dev_DeviceInstance dev)) then false
  else if nonempty (Names f) && negb (contains (Names f) (dev_NAME dev)) then false
  else true.

Definition device_criteria (f : EventFilter) : bool :=
  nonempty (Manufacturers f) || nonempty (Instances f) || nonempty (Names f).

Definition matches (fp : option EventFilter) (bus : string) (header : CANHeader)
    (devices : DeviceRegistry) : bool :=
  match fp with
  | None => true
  | Some f =>
      if IsEmpty fp then true
      else if nonempty (Buses f) && negb (contains (Buses f) bus) then false
      else if nonempty (PGNs f) && negb (contains (PGNs f) (PGN header)) then false
      else if nonempty (ExcludePGNs f) && contains (ExcludePGNs f) (PGN header) then false
      else if nonempty (ExcludeNames f) &&
        match Get bus (Source header) devices with
        | Some dev => contains (ExcludeNames f) (dev_NAME dev)
        | None => false
        end then false
      else if device_criteria f then
        match Get bus (Source header) devices with
        | None => false
        | Some dev => matchesDevice f dev
        end
      else true
  end.

(** * Resolved filters *)

(** [None] is the nil set: no restriction. *)
Record resolvedFilter := mkResolved {
  pgns : option (gset Z);
  excludePGNs : option (gset Z);
  sources : option (gset Z);
  excludeSources : option (gset Z);
  buses : option (gset string)
}.

Definition set_if {A} `{Countable A} (l : list A) : option (gset A) :=
  if nonempty l then Some (list_to_set l) else None.

(** The sources of the devices satisfying [p], in the visited order. *)
Definition sources_of (p : Device -> bool) (ord : list deviceKey) (devices : DeviceRegistry) : gset Z :=
  list_to_set (map dev_Source (List.filter p (Snapshot ord devices))).

Definition resolve (fp : option EventFilter) (ord : list deviceKey) (devices : DeviceRegistry)
    : option resolvedFilter :=
  match fp with
  | None => None
  | Some f =>
      if IsEmpty fp then None
      else Some (mkResolved (set_if (PGNs f)) (set_if (ExcludePGNs f))
        (if device_criteria f then Some (sources_of (matchesDevice f) ord devices) else None)
        (if nonempty (ExcludeNames f) then
           Some (sources_of (fun d => contains (ExcludeNames f) (dev_NAME d)) ord devices) else None)
        (set_if (Buses f)))
  end.

Definition refuses {A} `{Countable A} (s : option (gset A)) (x : A) : bool :=
  match s with Some s => negb (bool_decide (x ∈ s)) | None => false end.
Definition excludes {A} `{Countable A} (s : option (gset A)) (x : A) : bool :=
  match s with Some s => bool_decide (x ∈ s) | None => false end.

Definition resolved_matches (rp : option resolvedFilter) (bus : string) (header : CANHeader) : bool :=
  match rp with
  | None => true
  | Some r =>
      if refuses (buses r) bus then false
      else if refuses (pgns r) (PGN header) then false
      else if excludes (excludePGNs r) (PGN header) then false
      else if excludes (excludeSources r) (Source header) then false
      else if refuses (sources r) (Source header) then false
      else true
  end.

(** * Value filters *)

Record valueFilter := mkValueFilter {
  vf_pgns : option (gset Z);
  vf_excludePGNs : option (gset Z);
  vf_buses : option (gset string);
  hasDev : bool;
  devFunc : string -> Z -> bool
}.

(** The closure chain: the second closure calls the first; with neither the
    function is nil and [hasDev] is false, so it is never called. *)
Definition newValueFilter (fp : option EventFilter) (devices : DeviceRegistry) : option valueFilter :=
  match fp with
  | None => None
  | Some f =>
      if IsEmpty fp then None
      else
        let prev := if nonempty (ExcludeNames f) then
            Some (fun bus src => match Get bus src devices with
              | Some dev => negb (contains (ExcludeNames f) (dev_NAME dev))
              | None => true end)
          else None in
        let hasDev := nonempty (ExcludeNames f) in
        let '(hasDev, devFunc) :=
          if nonempty (Manufacturers f) || nonempty (Names f) || nonempty (Instances f) then
            (true, fun bus src =>
              if match prev with Some p => negb (p bus src) | None => false end then false
              else match Get bus src devices with
                | None => false
                | Some dev => if dev_NAME dev =? 0 then false else matchesDevice f dev
                end)
          else (hasDev, match prev with Some p => p | None => fun _ _ => true end) in
        Some (mkValueFilter (set_if (PGNs f)) (set_if (ExcludePGNs f)) (set_if (Buses f)) hasDev devFunc)
  end.

(** What [Snapshot] keeps of one value under a filter: the entry-level checks
    and, for its device, [devFunc]. *)
Definition vf_entry (vp : option valueFilter) (bus : string) (pgn : Z) : bool :=
  match vp with
  | None => true
  | Some vf => negb (refuses (vf_buses vf) bus) && negb (refuses (vf_pgns vf) pgn) &&
               negb (excludes (vf_excludePGNs vf) pgn)
  end.
Definition vf_device (vp : option valueFilter) (bus : string) (src : Z) : bool :=
  match vp with
  | None => true
  | Some vf => negb (hasDev vf && negb (devFunc vf bus src))
  end.

(** * Agreement *)

Lemma refuses_set_if {A} `{Countable A} (l : list A) x :
  refuses (set_if l) x = nonempty l && negb (contains l x).
Proof.
  unfold set_if, refuses, contains. destruct (nonempty l); [|done]. cbn [andb]. f_equal.
  apply bool_decide_ext. apply elem_of_list_to_set.
Qed.

Lemma excludes_set_if {A} `{Countable A} (l : list A) x :
  excludes (set_if l) x = nonempty l && contains l x.
Proof.
  unfold set_if, excludes, contains. destruct (nonempty l); [|done]. cbn [andb].
  apply bool_decide_ext. apply elem_of_list_to_set.
Qed.

Lemma elem_of_sources_of p ord devices src :
  registry_ok devices -> ranges ord devices ->
  src ∈ sources_of p ord devices <->
  exists bus d, devices !! (bus, src) = Some d /\ p d = true.
Proof.
  intros Hok [_ Hr]. unfold sources_of.
  rewrite elem_of_list_to_set, list_elem_of_In, in_map_iff. setoid_rewrite filter_In.
  unfold Snapshot. setoid_rewrite <- list_elem_of_In. setoid_rewrite list_elem_of_omap. split.
  - intros (d & <- & (k & _ & Hk) & Hp). pose proof (proj1 (ok_entry _ Hok _ _ Hk)) as <-. eauto.
  - intros (bus & d & Hd & Hp). pose proof (proj1 (ok_entry _ Hok _ _ Hd)) as Hkey. exists d.
    split; [now injection Hkey|]. split; [|done]. exists (bus, src). split; [apply Hr; eauto|done].
Qed.

(** The source address is used on no other bus. *)
Definition only_on (bus : string) (src : Z) (devices : DeviceRegistry) : Prop :=
  forall bus' d, devices !! (bus', src) = Some d -> bus' = bus.

Lemma sources_of_only p ord devices bus src :
  registry_ok devices -> ranges ord devices -> only_on bus src devices ->
  bool_decide (src ∈ sources_of p ord devices) =
  match Get bus src devices with Some d => p d | None => false end.
Proof.
  intros Hok Hr Hon. unfold Get. destruct (devices !! (bus, src)) as [d|] eqn:E.
  - destruct (p d) eqn:Ep.
    + apply bool_decide_true, elem_of_sources_of; eauto.
    + apply bool_decide_false. rewrite elem_of_sources_of by done. intros (b & d' & Hd' & Hp).
      assert (b = bus) as -> by eauto. congruence.
  - apply bool_decide_false. rewrite elem_of_sources_of by done. intros (b & d' & Hd' & _).
    assert (b = bus) as -> by eauto. congruence.
Qed.

(** For every filter and every frame whose source address is used on no other
    bus, a filter resolved against a well-formed registry (in any visiting order)
    decides as the filter evaluated directly against that registry. *)
Theorem resolve_matches f ord devices bus header :
  registry_ok devices -> ranges ord devices -> only_on bus (Source header) devices ->
  resolved_matches (resolve f ord devices) bus header = matches f bus header devices.
Proof.
  intros Hok Hr Hon. destruct f as [f|]; [|done]. unfold resolve, matches.
  destruct (IsEmpty (Some f)); [done|]. unfold resolved_matches.
  cbn [buses pgns excludePGNs excludeSources sources].
  rewrite !refuses_set_if, excludes_set_if.
  destruct (nonempty (Buses f) && _); [done|]. destruct (nonempty (PGNs f) && _); [done|].
  destruct (nonempty (ExcludePGNs f) && _); [done|].
  destruct (nonempty (ExcludeNames f)); cbn [excludes andb];
    [rewrite (sources_of_only _ _ _ bus) by done; destruct (match Get _ _ _ with Some _ => _ | None => _ end); [done|]|];
    (destruct (device_criteria f); cbn [refuses]; [|done]);
    rewrite (sources_of_only _ _ _ bus) by done; destruct (Get bus (Source header) devices) as [d|]; try done;
    now destruct (matchesDevice f d).
Qed.

(** A values snapshot additionally wants a device that has claimed a NAME. *)
Definition claimed_if_needed (fp : option EventFilter) (bus : string) (src : Z)
    (devices : DeviceRegistry) : bool :=
  match fp with
  | Some f => negb (device_criteria f) ||
      match Get bus src devices with Some d => negb (dev_NAME d =? 0) | None => false end
  | None => true
  end.

(** A values snapshot keeps a stored value exactly when the filter matches a
    frame with that bus, source and PGN, and, if the filter has device criteria,
    the device has claimed a NAME. *)
Theorem valueFilter_matches fp bus header devices :
  let vf := newValueFilter fp devices in
  vf_entry vf bus (PGN header) && vf_device vf bus (Source header) =
  matches fp bus header devices && claimed_if_needed fp bus (Source header) devices.
Proof.
  intros vf. subst vf. destruct fp as [f|]; [|done]. unfold newValueFilter, matches, claimed_if_needed.
  destruct (IsEmpty (Some f)) eqn:Ee.
  { cbn. unfold IsEmpty in Ee. to_props. unfold device_criteria.
    repeat match goal with H : nonempty _ = false |- _ => rewrite H; clear H end. done. }
  assert (Hc : nonempty (Manufacturers f) || nonempty (Names f) || nonempty (Instances f) = device_criteria f).
  { unfold device_criteria. now destruct (nonempty (Manufacturers f)), (nonempty (Names f)), (nonempty (Instances f)). }
  rewrite Hc. unfold vf_entry, vf_device.
  destruct (device_criteria f); cbn [vf_buses vf_pgns vf_excludePGNs hasDev devFunc];
    rewrite !refuses_set_if, excludes_set_if;
    destruct (nonempty (Buses f) && _); try done; destruct (nonempty (PGNs f) && _); try done;
    destruct (nonempty (ExcludePGNs f) && _); try done; cbn [negb andb orb].
  - destruct (nonempty (ExcludeNames f)); cbn [andb]; destruct (Get bus (Source header) devices) as [d|];
      cbn [negb andb]; try done; repeat (case_match; cbn [negb andb]; try done);
      now destruct (matchesDevice f d).
  - destruct (nonempty (ExcludeNames f)); cbn [andb negb]; [|done].
    destruct (Get bus (Source header) devices) as [d|]; [|done].
    now destruct (contains (ExcludeNames f) (dev_NAME d)).
Qed.

(** * Concrete filters *)

Definition airmar_only : EventFilter := mkEventFilter [] [] ["Airmar"%string] [] [] [] [].

(** Two gateways: source 1 is an Airmar sensor on can0 and a Furuno one on can1. *)
Definition two_buses : DeviceRegistry :=
  claim_in "can1" 1 (EncodeName (mkNameEncodeFields 2 1855 0 130 60 0 4 true))
    (claim_in "can0" 1 (EncodeName (mkNameEncodeFields 1 135 0 130 60 0 4 true)) ∅).

(** When one source address is used on two buses a resolved filter lets
    through a frame the filter itself rejects: resolving forgets the bus. *)
Theorem resolve_forgets_bus :
  registry_ok two_buses /\
  matches (Some airmar_only) "can1" (mkCANHeader 2 127250 1 255) two_buses = false /\
  resolved_matches (resolve (Some airmar_only) (any_order two_buses) two_buses) "can1"
    (mkCANHeader 2 127250 1 255) = true.
Proof.
  split; [do 2 apply claim_in_ok; apply registry_ok_empty|]. split; vm_compute; reflexivity.
Qed.

Lemma only_on_dec (bus : string) (src : Z) (r : DeviceRegistry) :
  forallb (fun '(k, _) => bool_decide (k.1 = bus)) (map_to_list r) = true -> only_on bus src r.
Proof.
  intros Hall bus' d Hd%elem_of_map_to_list%list_elem_of_In. rewrite forallb_forall in Hall.
  specialize (Hall _ Hd). cbn in Hall. now to_props.
Qed.

Lemma resolve_matches_witness :
  let f := Some (mkEventFilter [127250] [] [] [] [demo_name] [] ["can0"%string]) in
  resolved_matches (resolve f (any_order demo_registry) demo_registry) "can0" (mkCANHeader 2 127250 2 255) = true /\
  resolved_matches (resolve f (any_order demo_registry) demo_registry) "can0" (mkCANHeader 2 127250 2 255)
    = matches f "can0" (mkCANHeader 2 127250 2 255) demo_registry.
Proof.
  intros f. split; [vm_compute; reflexivity|].
  apply (resolve_matches f (any_order demo_registry) demo_registry "can0" (mkCANHeader 2 127250 2 255)
    demo_registry_ok (any_order_ranges demo_registry)).
  apply only_on_dec. vm_compute. reflexivity.
Defined.
