(* ===== verification/Values.v ===== *)
(** The last-values store: [values.go].

    One entry per (bus, source, PGN).  [Snapshot] and [DecodedSnapshot] differ
    only in how an entry is rendered, so both are instances of one grouping
    function, [snapshot_with], over the renderer. *)

From S2P Require Import Prelude CanId Devices Filters.

Abbreviation valueKey := (string * Z * Z)%type.
Abbreviation deviceGroupKey := (string * Z)%type.

Record valueEntry := mkValueEntry { ve_Timestamp : time; ve_Data : list Z; ve_Seq : Z }.

Abbreviation ValueStore := (gmap valueKey valueEntry).

Definition NewValueStore : ValueStore := ∅.

Definition RemoveSource (ord : list valueKey) (bus : string) (source : Z) (vs : ValueStore) : ValueStore :=
  foldl (fun vs k => if bool_decide (k.1.1 = bus) && (k.1.2 =? source) then delete k vs else vs) vs ord.

Definition Record_ (bus : string) (source pgn : Z) (ts : time) (data : list Z) (seq : Z)
    (vs : ValueStore) : ValueStore :=
  <[(bus, source, pgn) := mkValueEntry ts data seq]> vs.

(** * Snapshots *)

Record DeviceValues (V : Type) := mkDeviceValues {
  dv_Name : string;
  dv_Bus : string;
  dv_Source : Z;
  dv_Manufacturer : string;
  dv_ModelID : string;
  dv_Values : list V
}.
Arguments mkDeviceValues {V}.
Arguments dv_Name {V}.
Arguments dv_Bus {V}.
Arguments dv_Source {V}.
Arguments dv_Manufacturer {V}.
Arguments dv_ModelID {V}.
Arguments dv_Values {V}.

Definition dv_key {V} (d : DeviceValues V) : deviceGroupKey := (dv_Bus d, dv_Source d).

(** [cmp.Compare] on the bus, then on the source. *)
Definition group_le (a b : deviceGroupKey) : Prop :=
  (a.1 <> b.1 /\ String.le a.1 b.1) \/ (a.1 = b.1 /\ a.2 <= b.2).

#[export] Instance group_le_dec a b : Decision (group_le a b).
Proof. unfold group_le. apply _. Defined.

#[export] Instance group_le_trans : Transitive group_le.
Proof.
  intros [a1 a2] [b1 b2] [c1 c2]. unfold group_le. cbn.
  intros [[N1 H1]|[<- H1]] [[N2 H2]|[<- H2]]; [|auto..|right; split; [done|lia]].
  left. split; [|now trans b1]. intros ->. apply N1. now apply (anti_symm String.le).
Qed.

#[export] Instance group_le_total : Total group_le.
Proof.
  intros [a1 a2] [b1 b2]. unfold group_le. cbn. destruct (decide (a1 = b1)) as [->|Hne].
  - destruct (Z.le_ge_cases a2 b2); auto.
  - destruct (total String.le a1 b1); auto.
Qed.

Section Snapshot.
Context {V : Type}.
(** How an entry is rendered ([None]: skipped), and the PGN a rendering shows. *)
Variable render : valueKey -> valueEntry -> option V.
Variable pgn_of : V -> Z.

Definition pgn_le (a b : V) : Prop := pgn_of a <= pgn_of b.

#[local] Instance pgn_le_dec a b : Decision (pgn_le a b).
Proof. unfold pgn_le. apply _. Defined.
#[local] Instance pgn_le_trans : Transitive pgn_le.
Proof. unfold pgn_le. intros a b c. lia. Qed.
#[local] Instance pgn_le_total : Total pgn_le.
Proof. unfold pgn_le. intros a b. lia. Qed.

(** The entries that pass the entry-level checks, in the visited order. *)
Definition passing (vf : option valueFilter) (ord : list valueKey) (vs : ValueStore)
    : list (valueKey * valueEntry) :=
  omap (fun k => match vs !! k with
    | Some v => if vf_entry vf k.1.1 k.2 then Some (k, v) else None
    | None => None end) ord.

Definition group_add (m : gmap deviceGroupKey (list V)) (e : valueKey * valueEntry)
    : gmap deviceGroupKey (list V) :=
  match render e.1 e.2 with
  | None => m
  | Some v => <[e.1.1 := default [] (m !! e.1.1) ++ [v]]> m
  end.

Definition byDevice (es : list (valueKey * valueEntry)) : gmap deviceGroupKey (list V) :=
  foldl group_add ∅ es.

(** Resolve a group's identity from the registry. *)
Definition device_values (devices : DeviceRegistry) (dk : deviceGroupKey) (vals : list V) : DeviceValues V :=
  let sorted := merge_sort pgn_le vals in
  match Get dk.1 dk.2 devices with
  | Some dev =>
      if negb (dev_NAME dev =? 0) then
        mkDeviceValues ("0x" +:+ hex016 (dev_NAME dev)) dk.1 dk.2 (dev_Manufacturer dev) (ModelID dev) sorted
      else mkDeviceValues "" dk.1 dk.2 "" "" sorted
  | None => mkDeviceValues "" dk.1 dk.2 "" "" sorted
  end.

(** Sorting makes the order in which the device set is visited irrelevant. *)
Definition snapshot_with (devices : DeviceRegistry) (filter : option EventFilter)
    (ord : list valueKey) (vs : ValueStore) : list (DeviceValues V) :=
  let vf := newValueFilter filter devices in
  let groups := byDevice (passing vf ord vs) in
  let sortedDevices := merge_sort group_le (elements (dom groups)) in
  omap (fun dk => if vf_device vf dk.1 dk.2
                  then Some (device_values devices dk (default [] (groups !! dk))) else None)
    sortedDevices.

(** ** What a snapshot contains *)

Lemma group_add_lookup es : forall m dk,
  foldl group_add m es !! dk =
  match omap (fun e => if bool_decide (e.1.1 = dk) then render e.1 e.2 else None) es with
  | [] => m !! dk
  | l => Some (default [] (m !! dk) ++ l)
  end.
Proof.
  induction es as [|e es IH]; intros m dk; [done|]. cbn [foldl]. rewrite IH. clear IH.
  cbn [omap list_omap]. unfold group_add. destruct (bool_decide_reflect (e.1.1 = dk)) as [<-|Hne].
  - destruct (render e.1 e.2) as [v|]; [|done]. rewrite lookup_insert_eq. cbn [default].
    destruct (omap _ es); [done|]. cbn. now rewrite <- app_assoc.
  - destruct (render e.1 e.2) as [v|]; [|done]. now rewrite lookup_insert_ne.
Qed.

Lemma byDevice_lookup es dk v :
  v ∈ default [] (byDevice es !! dk) <->
  exists e, e ∈ es /\ e.1.1 = dk /\ render e.1 e.2 = Some v.
Proof.
  unfold byDevice. rewrite group_add_lookup, lookup_empty.
  assert (H : v ∈ omap (fun e => if bool_decide (e.1.1 = dk) then render e.1 e.2 else None) es <->
     exists e, e ∈ es /\ e.1.1 = dk /\ render e.1 e.2 = Some v).
  { rewrite list_elem_of_omap. split; intros (e & H1 & H2); exists e.
    - case_bool_decide; [auto|done].
    - now rewrite bool_decide_true by apply H2. }
  rewrite <- H. now destruct (omap _ es).
Qed.

Lemma byDevice_nonempty es dk l : byDevice es !! dk = Some l -> l <> [].
Proof.
  unfold byDevice. rewrite group_add_lookup, lookup_empty. destruct (omap _ es); [done|]. now intros [= <-].
Qed.

Lemma elem_of_passing vf ord vs k v :
  ranges ord vs -> (k, v) ∈ passing vf ord vs <-> vs !! k = Some v /\ vf_entry vf k.1.1 k.2 = true.
Proof.
  intros [_ Hr]. unfold passing. rewrite list_elem_of_omap. split.
  - intros (k' & _ & H). destruct (vs !! k') eqn:E; [|done]. destruct (vf_entry _ _ _) eqn:E'; [|done].
    now injection H as <- <-.
  - intros [H1 H2]. exists k. split; [apply Hr; eauto|]. now rewrite H1, H2.
Qed.

Lemma sorted_distinct {A B} (R : A -> A -> Prop) (f : A -> B) l :
  StronglySorted R l -> NoDup (f <$> l) -> StronglySorted (fun x y => R x y /\ f x <> f y) l.
Proof.
  induction 1 as [|x l Hs IH Hx]; intros Hnd; [constructor|].
  apply NoDup_cons in Hnd as [Hnx Hnd]. constructor; [auto|]. rewrite Forall_forall in *.
  intros y Hy. split; [auto|]. intros Heq. apply Hnx. rewrite Heq. now apply list_elem_of_fmap_2.
Qed.

Lemma StronglySorted_omap {A B} (R : A -> A -> Prop) (S : B -> B -> Prop) (f : A -> option B) l :
  (forall x y a b, f x = Some a -> f y = Some b -> R x y -> S a b) ->
  StronglySorted R l -> StronglySorted S (omap f l).
Proof.
  intros Hf. induction 1 as [|x l Hs IH Hx]; [constructor|]. cbn [omap list_omap].
  destruct (f x) as [a|] eqn:E; [|exact IH]. constructor; [exact IH|]. apply Forall_forall.
  intros b (y & Hy & Hb)%list_elem_of_omap. apply (Hf x y a b E Hb). now apply (proj1 (Forall_forall _ _) Hx).
Qed.

Lemma StronglySorted_weaken {A} (R S : A -> A -> Prop) l :
  (forall x y, R x y -> S x y) -> StronglySorted R l -> StronglySorted S l.
Proof.
  intros Hi. induction 1 as [|x l _ IH Hx]; constructor; [done|]. eapply Forall_impl; eauto.
Qed.

Hypothesis render_pgn : forall k e v, render k e = Some v -> pgn_of v = k.2.

Lemma passing_keys vf ord vs : NoDup ord -> NoDup ((passing vf ord vs).*1).
Proof.
  intros Hnd. unfold passing. induction Hnd as [|k ord Hk _ IH]; [constructor|].
  cbn [omap list_omap]. destruct (vs !! k) as [v|]; [|exact IH].
  destruct (vf_entry vf k.1.1 k.2); [|exact IH]. cbn [fmap list_fmap fst]. constructor; [|exact IH].
  intros ([k' v'] & -> & Hin)%list_elem_of_fmap. apply Hk.
  apply list_elem_of_omap in Hin as (k2 & Hin & H). destruct (vs !! k2); [|done].
  destruct (vf_entry _ _ _); [|done]. now injection H as <- <-.
Qed.

Lemma group_pgns es : NoDup (es.*1) -> forall dk,
  NoDup (pgn_of <$> omap (fun e => if bool_decide (e.1.1 = dk) then render e.1 e.2 else None) es).
Proof.
  intros Hnd dk. induction es as [|e es IH]; [constructor|].
  apply NoDup_cons in Hnd as [He Hnd]. cbn [omap list_omap].
  destruct (bool_decide_reflect (e.1.1 = dk)) as [Heq|]; [|auto].
  destruct (render e.1 e.2) as [v|] eqn:Er; [|auto]. cbn [fmap list_fmap]. constructor; [|auto].
  intros (v' & Hv & (e' & Hin & He')%list_elem_of_omap)%list_elem_of_fmap. apply He.
  case_bool_decide; [|done]. apply render_pgn in Er, He'.
  assert (e.1 = e'.1) as ->; [|now apply list_elem_of_fmap_2].
  destruct e as [[bs p] w], e' as [[bs' p'] w']. cbn in *. congruence.
Qed.

(** The specification of a snapshot. *)
Record snapshot_spec (devices : DeviceRegistry) (filter : option EventFilter) (vs : ValueStore)
    (out : list (DeviceValues V)) : Prop := {
  (* devices strictly increasing by (bus, source) *)
  spec_devices : StronglySorted (fun a b => group_le (dv_key a) (dv_key b) /\ dv_key a <> dv_key b) out;
  (* each with at least one value, strictly increasing by PGN *)
  spec_values : Forall (fun d => dv_Values d <> [] /\
    StronglySorted (fun a b => pgn_of a < pgn_of b) (dv_Values d)) out;
  (* exactly the stored entries that the filter keeps and the renderer shows *)
  spec_content : forall bus src v,
    (exists d, d ∈ out /\ dv_key d = (bus, src) /\ v ∈ dv_Values d) <->
    (exists pgn e, vs !! (bus, src, pgn) = Some e /\ render (bus, src, pgn) e = Some v /\
       vf_entry (newValueFilter filter devices) bus pgn && vf_device (newValueFilter filter devices) bus src = true);
  (* identities from the registry *)
  spec_identity : Forall (fun d => match Get (dv_Bus d) (dv_Source d) devices with
    | Some dev => if dev_NAME dev =? 0 then dv_Name d = ""%string
                  else dv_Name d = ("0x" +:+ hex016 (dev_NAME dev))%string /\
                       dv_Manufacturer d = dev_Manufacturer dev /\ dv_ModelID d = ModelID dev
    | None => dv_Name d = ""%string end) out
}.

Lemma dv_key_device_values devices dk vals : dv_key (device_values devices dk vals) = dk.
Proof. unfold device_values. destruct dk. now repeat case_match. Qed.

Lemma dv_Values_device_values devices dk vals :
  dv_Values (device_values devices dk vals) = merge_sort pgn_le vals.
Proof. unfold device_values. now repeat case_match. Qed.

Lemma snapshot_with_spec devices filter ord vs :
  ranges ord vs -> snapshot_spec devices filter vs (snapshot_with devices filter ord vs).
Proof.
  intros Hr. unfold snapshot_with. set (vf := newValueFilter filter devices).
  set (es := passing vf ord vs).
  assert (Hnd : NoDup (es.*1)) by apply passing_keys, Hr.
  set (sd := merge_sort group_le (elements (dom (byDevice es)))).
  assert (Hsd : forall dk, dk ∈ sd <-> is_Some (byDevice es !! dk)).
  { intros dk. unfold sd. rewrite merge_sort_Permutation, elem_of_elements. apply elem_of_dom. }
  assert (Hout : forall d, d ∈ omap (fun dk => if vf_device vf dk.1 dk.2
      then Some (device_values devices dk (default [] (byDevice es !! dk))) else None) sd <->
    exists dk l, byDevice es !! dk = Some l /\ vf_device vf dk.1 dk.2 = true /\ d = device_values devices dk l).
  { intros d. rewrite list_elem_of_omap. split.
    - intros (dk & [l Hl]%Hsd & H). destruct (vf_device vf dk.1 dk.2) eqn:E; [|done].
      injection H as <-. exists dk, l. now rewrite Hl.
    - intros (dk & l & Hl & Hv & ->). exists dk. split; [apply Hsd; eauto|]. now rewrite Hv, Hl. }
  split.
  - apply (StronglySorted_omap (fun x y => group_le x y /\ x <> y)).
    + intros x y a b Ha Hb Hxy. destruct (vf_device vf x.1 x.2), (vf_device vf y.1 y.2); try done.
      injection Ha as <-. injection Hb as <-. now rewrite !dv_key_device_values.
    + apply (sorted_distinct group_le id); [apply (StronglySorted_merge_sort group_le)|].
      rewrite list_fmap_id. unfold sd. rewrite merge_sort_Permutation. apply NoDup_elements.
  - apply Forall_forall. intros d (dk & l & Hl & _ & ->)%Hout. rewrite dv_Values_device_values.
    assert (Hls : NoDup (pgn_of <$> l)).
    { pose proof (group_pgns es Hnd dk) as Hg. unfold byDevice in Hl.
      rewrite group_add_lookup, lookup_empty in Hl. destruct (omap _ es); [done|]. now injection Hl as <-. }
    split.
    + intros H. apply (byDevice_nonempty _ _ _ Hl). apply Permutation_nil.
      rewrite <- H. apply merge_sort_Permutation.
    + apply (StronglySorted_weaken (fun a b => pgn_le a b /\ pgn_of a <> pgn_of b));
        [unfold pgn_le; intros; lia|]. apply sorted_distinct; [apply (StronglySorted_merge_sort pgn_le)|].
      now rewrite merge_sort_Permutation.
  - intros bus src v. split.
    + intros (d & (dk & l & Hl & Hv & ->)%Hout & Hk & Hin). rewrite dv_key_device_values in Hk. subst dk.
      rewrite dv_Values_device_values, merge_sort_Permutation in Hin.
      assert (Hin' : v ∈ default [] (byDevice es !! (bus, src))) by now rewrite Hl.
      apply byDevice_lookup in Hin' as ([[dk pgn] e] & Hes & Hdk & Hren). cbn in Hdk. subst dk.
      apply elem_of_passing in Hes as [Hvs Hve]; [|done]. exists pgn, e.
      split; [done|]. split; [done|]. cbn in Hv, Hve. fold vf. now rewrite Hve, Hv.
    + intros (pgn & e & Hvs & Hren & Hf). to_props.
      assert (Hes : ((bus, src, pgn), e) ∈ es) by now apply elem_of_passing.
      assert (Hin : v ∈ default [] (byDevice es !! (bus, src))).
      { apply byDevice_lookup. exists ((bus, src, pgn), e). auto. }
      destruct (byDevice es !! (bus, src)) as [l|] eqn:El; [|now apply not_elem_of_nil in Hin].
      exists (device_values devices (bus, src) l). split; [apply Hout; eauto 10|].
      rewrite dv_key_device_values, dv_Values_device_values, merge_sort_Permutation. auto.
  - apply Forall_forall. intros d (dk & l & _ & _ & ->)%Hout. unfold device_values.
    destruct (Get dk.1 dk.2 devices) as [dev|] eqn:E;
      [destruct (dev_NAME dev =? 0) eqn:E0|]; cbn; rewrite E; try rewrite E0; auto.
Qed.

End Snapshot.

(** * The two snapshots *)

Record PGNValue := mkPGNValue { pv_PGN : Z; pv_Ts : time; pv_Data : string; pv_Seq : Z }.

(** The timestamp is kept as a time: its RFC 3339 rendering loses nothing. *)
Definition render_raw (k : valueKey) (e : valueEntry) : option PGNValue :=
  Some (mkPGNValue k.2 (ve_Timestamp e) (hex_encode (ve_Data e)) (ve_Seq e)).

Definition Snapshot : DeviceRegistry -> option EventFilter -> list valueKey -> ValueStore ->
    list (DeviceValues PGNValue) :=
  snapshot_with render_raw pv_PGN.

Section Decoded.
(** The generated registry: description and decoder ([None]: nil decoder; the
    decoder's [None]: an error). *)
Context {Fields : Type}.
Variable pgn_registry : Z -> option (string * option (list Z -> option Fields)).

Record DecodedPGNValue := mkDecodedPGNValue {
  dpv_PGN : Z; dpv_Description : string; dpv_Ts : time; dpv_Seq : Z; dpv_Fields : Fields
}.

Definition render_decoded (k : valueKey) (e : valueEntry) : option DecodedPGNValue :=
  match pgn_registry k.2 with
  | Some (description, Some decode) =>
      match decode (ve_Data e) with
      | Some fields => Some (mkDecodedPGNValue k.2 description (ve_Timestamp e) (ve_Seq e) fields)
      | None => None
      end
  | _ => None
  end.

Definition DecodedSnapshot : DeviceRegistry -> option EventFilter -> list valueKey -> ValueStore ->
    list (DeviceValues DecodedPGNValue) :=
  snapshot_with render_decoded dpv_PGN.

(** A snapshot of the store, raw or decoded and in any visiting order, lists
    devices strictly by (bus, source), each with a nonempty list of values
    strictly by PGN; it holds exactly the stored entries that the filter keeps
    (and, decoded, whose PGN decodes), with identities from the registry. *)
Theorem Snapshot_spec devices filter ord vs :
  ranges ord vs ->
  snapshot_spec render_raw pv_PGN devices filter vs (Snapshot devices filter ord vs) /\
  snapshot_spec render_decoded dpv_PGN devices filter vs (DecodedSnapshot devices filter ord vs).
Proof.
  intros Hr. split; apply snapshot_with_spec; try done.
  - now intros k e v [= <-].
  - intros k e v. unfold render_decoded. repeat case_match; try done. now intros [= <-].
Qed.

End Decoded.

(** ** Updates *)

Lemma RemoveSource_lookup ord bus src : forall vs k,
  (forall k, is_Some (vs !! k) -> k ∈ ord) ->
  RemoveSource ord bus src vs !! k =
    if bool_decide (k.1.1 = bus) && (k.1.2 =? src) then None else vs !! k.
Proof.
  unfold RemoveSource. intros vs k Hr.
  enough (H : forall vs : ValueStore, foldl (fun (vs : ValueStore) (k : valueKey) => if bool_decide (k.1.1 = bus) && (k.1.2 =? src) then delete k vs else vs) vs ord !! k
    = if bool_decide (k ∈ ord) && (bool_decide (k.1.1 = bus) && (k.1.2 =? src)) then None else vs !! k).
  { rewrite H. destruct (bool_decide_reflect (k ∈ ord)) as [Hk|Hk]; cbn [andb]; [done|].
    destruct (vs !! k) eqn:E; [|now repeat case_match]. exfalso. apply Hk, Hr. eauto. }
  clear Hr vs. induction ord as [|k' ord IH]; intros vs; cbn [foldl].
  { now rewrite bool_decide_false by apply not_elem_of_nil. }
  rewrite IH. destruct (decide (k' = k)) as [->|Hne].
  - rewrite (bool_decide_true (k ∈ k :: ord)) by left. cbn [andb].
    destruct (bool_decide (k.1.1 = bus) && (k.1.2 =? src)); rewrite ?andb_true_r, ?andb_false_r; [|done].
    rewrite lookup_delete_eq. now destruct (bool_decide _).
  - rewrite (bool_decide_ext (k ∈ k' :: ord) (k ∈ ord)) by set_solver.
    destruct (bool_decide (k'.1.1 = bus) && _); [|done]. now rewrite lookup_delete_ne.
Qed.

(** The store under a history of frames and source removals. *)
Inductive value_op :=
| VRecord (bus : string) (source pgn : Z) (ts : time) (data : list Z) (seq : Z)
| VRemove (bus : string) (source : Z).

Definition value_step (vs : ValueStore) (op : value_op) : ValueStore :=
  match op with
  | VRecord bus source pgn ts data seq => Record_ bus source pgn ts data seq vs
  | VRemove bus source => RemoveSource (any_order vs) bus source vs
  end.

(** What the history says about one key: the last frame recorded for it since its
    source was last removed. *)
Definition last_step (k : valueKey) (acc : option valueEntry) (op : value_op) : option valueEntry :=
  match op with
  | VRecord bus source pgn ts data seq =>
      if bool_decide ((bus, source, pgn) = k) then Some (mkValueEntry ts data seq) else acc
  | VRemove bus source => if bool_decide (k.1 = (bus, source)) then None else acc
  end.
Definition last_value (k : valueKey) (ops : list value_op) : option valueEntry :=
  foldl (last_step k) None ops.

(** After any history of frames and source removals the store holds, for each
    (bus, source, PGN), exactly the last frame recorded since the source was last
    removed. *)
Theorem value_store_last ops k : foldl value_step NewValueStore ops !! k = last_value k ops.
Proof.
  unfold last_value. assert (H : NewValueStore !! k = None) by apply lookup_empty. revert H.
  generalize NewValueStore (@None valueEntry). induction ops as [|op ops IH]; intros vs acc H; [done|].
  cbn [foldl]. apply IH. destruct op as [bus src pgn ts data seq|bus src]; cbn [value_step last_step].
  - unfold Record_. case_bool_decide as Hk; [subst k; now rewrite lookup_insert_eq|].
    now rewrite lookup_insert_ne.
  - rewrite RemoveSource_lookup by (intros k'; apply (proj2 (any_order_ranges vs))). rewrite H.
    destruct k as [[kb ks] kp]. cbn. destruct (bool_decide_reflect (kb = bus)), (Z.eqb_spec ks src);
      cbn [andb]; case_bool_decide; congruence.
Qed.

(** ** A concrete store *)

Definition demo_values : ValueStore :=
  foldl value_step NewValueStore
    [VRecord "can0" 2 130306 10 [1; 2] 4; VRecord "can0" 2 127250 11 [3] 5;
     VRecord "can0" 1 127250 12 [0xAB] 6; VRecord "can0" 9 127250 13 [5] 7].

Lemma Snapshot_spec_witness :
  let dec := fun pgn : Z => if pgn =? 127250 then Some ("Heading"%string, Some (fun d : list Z => Some d)) else None in
  map (fun d => (dv_key d, map pv_PGN (dv_Values d)))
    (Snapshot demo_registry None (any_order demo_values) demo_values) =
    [(("can0"%string, 1), [127250]); (("can0"%string, 2), [127250; 130306]); (("can0"%string, 9), [127250])] /\
  snapshot_spec render_raw pv_PGN demo_registry None demo_values
    (Snapshot demo_registry None (any_order demo_values) demo_values) /\
  snapshot_spec (render_decoded dec) dpv_PGN demo_registry None demo_values
    (DecodedSnapshot dec demo_registry None (any_order demo_values) demo_values).
Proof.
  intros dec. split; [vm_compute; reflexivity|].
  exact (Snapshot_spec dec demo_registry None (any_order demo_values) demo_values
    (any_order_ranges demo_values)).
Defined.
