(* ===== verification/RequestRules.v ===== *)
(** The request-rule engine: [requestrules/requestrules.go].

    Rules say which data to keep available from which devices; the engine tracks
    per (rule, device, want) when it last asked and last received, and emits
    requests.  The clock reading of each operation is an argument [now]. *)

From Stdlib Require Import Ascii.
From S2P Require Import Prelude.

(** * Strings: [EqualFold] and [ToLower] on ASCII *)

Definition lower (c : ascii) : ascii :=
  let z := Z_of_ascii c in if (65 <=? z) && (z <=? 90) then ascii_of_Z (z + 32) else c.
Fixpoint ToLower (s : string) : string :=
  match s with EmptyString => EmptyString | String c s => String (lower c) (ToLower s) end.
Definition EqualFold (a b : string) : bool := bool_decide (ToLower a = ToLower b).

(** [strings.CutSuffix(s, "*")]. *)
Fixpoint CutStar (s : string) : option string :=
  match s with
  | EmptyString => None
  | String c EmptyString => if bool_decide (c = "*"%char) then Some EmptyString else None
  | String c s => String c <$> CutStar s
  end.

(** * Data *)

Record DeviceView := mkDeviceView {
  dvw_Bus : string;
  dvw_Source : Z;
  dvw_NAMEHex : string;
  dvw_Manufacturer : string;
  dvw_ManufacturerCode : Z;
  dvw_DeviceClass : Z;
  dvw_DeviceFunction : Z;
  dvw_DeviceInstance : Z;
  dvw_ModelID : string;
  dvw_ProductCode : Z
}.

Record Match := mkMatch {
  m_Manufacturer : string;
  m_ManufacturerCode : Z;
  m_ModelID : string;
  m_DeviceClass : option Z;
  m_DeviceFunction : option Z;
  m_Name : string;
  m_Source : option Z;
  m_Bus : string
}.

Definition globMatch (pattern s : string) : bool :=
  match CutStar pattern with
  | Some p => String.prefix (ToLower p) (ToLower s)
  | None => EqualFold pattern s
  end.

Definition set_and_differs (o : option Z) (z : Z) : bool :=
  match o with Some x => negb (x =? z) | None => false end.
Definition empty (s : string) : bool := bool_decide (s = ""%string).

Definition matches (m : Match) (d : DeviceView) : bool :=
  if negb (empty (m_Manufacturer m)) && negb (EqualFold (m_Manufacturer m) (dvw_Manufacturer d)) then false
  else if negb (m_ManufacturerCode m =? 0) && negb (m_ManufacturerCode m =? dvw_ManufacturerCode d) then false
  else if negb (empty (m_ModelID m)) && negb (globMatch (m_ModelID m) (dvw_ModelID d)) then false
  else if set_and_differs (m_DeviceClass m) (dvw_DeviceClass d) then false
  else if set_and_differs (m_DeviceFunction m) (dvw_DeviceFunction d) then false
  else if negb (empty (m_Name m)) && negb (EqualFold (m_Name m) (dvw_NAMEHex d)) then false
  else if set_and_differs (m_Source m) (dvw_Source d) then false
  else if negb (empty (m_Bus m)) && negb (bool_decide (m_Bus m = dvw_Bus d)) then false
  else true.

Inductive Via := ViaISORequest | ViaFrame.

Record Want := mkWant { w_PGN : Z; w_SubKey : Z; w_HasSubKey : bool }.

Definition want_key (w : Want) : Z := Z.lor (u64 (Z.shiftl (w_PGN w) 32)) (w_SubKey w).

Record Rule := mkRule {
  r_Name : string;
  r_Match : Match;
  r_Wants : list Want;
  r_Via : Via;
  ToDevice : bool;
  Dst : Z;
  FramePGN : Z;
  FramePriority : Z;
  FrameTemplate : list Z;
  SubKeyWriteOff : Z;
  SubKeyWriteLen : Z;
  SubKeyReadOff : Z;
  SubKeyReadLen : Z;
  MinInterval : duration;
  MaxAge : duration;
  OnOnline : bool;
  InvalidateOn : list Z
}.

Inductive rule_error := NoName | NoWants | BadMinInterval | NoFramePGN.

Definition validate (r : Rule) : result rule_error unit :=
  if empty (r_Name r) then Err NoName
  else if (length (r_Wants r) =? 0)%nat then Err NoWants
  else if MinInterval r <=? 0 then Err BadMinInterval
  else match r_Via r with
    | ViaFrame => if FramePGN r =? 0 then Err NoFramePGN else Ok tt
    | ViaISORequest => Ok tt
    end.

Record Request := mkRequest {
  q_Bus : string;
  q_Dst : Z;
  q_Via : Via;
  q_PGN : Z;
  q_Data : list Z;
  q_Priority : Z;
  q_Rule : string;
  q_Want : Want
}.

Abbreviation devKey := (string * Z)%type.
Abbreviation trackKey := (nat * (string * Z) * Z)%type.

Record trackState := mkTrackState {
  lastRequested : time;
  lastReceived : time;
  haveData : bool
}.

Record Engine := mkEngine {
  globalMin : duration;
  lastGlobal : time;
  rules : list Rule;
  byInvalidate : gmap Z (list nat);
  devices : gmap devKey DeviceView;
  track : gmap trackKey trackState
}.

Definition New (globalMin : duration) : Engine := mkEngine globalMin 0 [] ∅ ∅ ∅.

Definition set_track (e : Engine) (t : gmap trackKey trackState) : Engine :=
  mkEngine (globalMin e) (lastGlobal e) (rules e) (byInvalidate e) (devices e) t.
Definition set_devices (e : Engine) (d : gmap devKey DeviceView) : Engine :=
  mkEngine (globalMin e) (lastGlobal e) (rules e) (byInvalidate e) d (track e).
Definition set_lastGlobal (e : Engine) (t : time) : Engine :=
  mkEngine (globalMin e) t (rules e) (byInvalidate e) (devices e) (track e).

(** * Sub-keys *)

(** [writeLE]: an index at or past the end stops the loop; a negative one is a
    panic ([None]).  [byte(v >> (8*i))] is zero for shifts of 32 and more. *)
Fixpoint writeLE_loop (fuel : nat) (i : Z) (b : list Z) (off length_ v : Z) : option (list Z) :=
  match fuel with
  | O => Some b
  | S fuel =>
      if (i <? length_) && (off + i <? Z.of_nat (length b)) then
        if off + i <? 0 then None
        else writeLE_loop fuel (i + 1) (<[Z.to_nat (off + i) := u8 (Z.shiftr v (8 * i))]> b) off length_ v
      else Some b
  end.
(** At most [length_] rounds. *)
Definition writeLE (b : list Z) (off length_ v : Z) : option (list Z) :=
  writeLE_loop (Z.to_nat length_) 0 b off length_ v.

Definition readLE (b : list Z) (off length_ : Z) : option Z :=
  if (length_ <=? 0) || (4 <? length_) || (off <? 0) || (Z.of_nat (length b) <? off + length_) then None
  else
    let bs := slice (Z.to_nat off) (Z.to_nat (off + length_)) b in
    Some (if length_ =? 1 then nth 0 bs 0
          else if length_ =? 2 then le_val bs
          else le_val (take 4 (bs ++ replicate 4 0))).

Definition wantMatchesFrame (r : Rule) (w : Want) (pgn : Z) (data : list Z) : bool :=
  match r_Via r with
  | ViaISORequest => w_PGN w =? pgn
  | ViaFrame =>
      if negb (pgn =? FramePGN r) then false
      else if negb (w_HasSubKey w) || (SubKeyReadLen r =? 0) then true
      else match readLE data (SubKeyReadOff r) (SubKeyReadLen r) with
        | Some got => got =? w_SubKey w
        | None => false
        end
  end.

Definition build (r : Rule) (d : DeviceView) (w : Want) : option Request :=
  let dst := if ToDevice r then dvw_Source d else if Dst r =? 0 then 0xFF else Dst r in
  match r_Via r with
  | ViaISORequest => Some (mkRequest (dvw_Bus d) dst ViaISORequest (w_PGN w) [] (FramePriority r) (r_Name r) w)
  | ViaFrame =>
      payload ← if w_HasSubKey w && (0 <? SubKeyWriteLen r)
                then writeLE (FrameTemplate r) (SubKeyWriteOff r) (SubKeyWriteLen r) (w_SubKey w)
                else Some (FrameTemplate r);
      Some (mkRequest (dvw_Bus d) dst ViaFrame (FramePGN r) payload (FramePriority r) (r_Name r) w)
  end.

(** * Deciding on one target *)

(** The outputs carry the target each request is for. *)
Abbreviation output := (list (trackKey * Request)).

Definition view_key (d : DeviceView) : devKey := (dvw_Bus d, dvw_Source d).

Definition zero_state : trackState := mkTrackState 0 0 false.
Definition stateFor (e : Engine) (k : trackKey) : trackState := default zero_state (track e !! k).

Definition update (k : trackKey) (f : trackState -> trackState) (e : Engine) : Engine :=
  set_track e (<[k := f (stateFor e k)]> (track e)).

(** The three early returns of [consider]. *)
Definition too_soon (r : Rule) (ts : trackState) (now : time) : bool :=
  negb (time_IsZero (lastRequested ts)) && (time_Sub now (lastRequested ts) <? MinInterval r).
Definition fresh (r : Rule) (ts : trackState) (now : time) : bool :=
  haveData ts && ((MaxAge r <=? 0) || (time_Sub now (lastReceived ts) <? MaxAge r)).
Definition floor_hit (e : Engine) (now : time) : bool :=
  (0 <? globalMin e) && negb (time_IsZero (lastGlobal e)) && (time_Sub now (lastGlobal e) <? globalMin e).

(** [None] is a panic in [build]. *)
Definition consider (idx : nat) (r : Rule) (d : DeviceView) (w : Want) (now : time) (e : Engine)
    : option (Engine * option Request) :=
  let k := (idx, view_key d, want_key w) in
  let e := update k id e in
  let ts := stateFor e k in
  if too_soon r ts now then Some (e, None)
  else if fresh r ts now then Some (e, None)
  else if floor_hit e now then Some (e, None)
  else
    let e := update k (fun ts => mkTrackState now (lastReceived ts) (haveData ts)) e in
    let e := set_lastGlobal e now in
    req ← build r d w;
    Some (e, Some req).

(** Loops that may panic. *)
Fixpoint foldo {S A} (f : S -> A -> option S) (s : S) (l : list A) : option S :=
  match l with
  | [] => Some s
  | a :: l => s' ← f s a; foldo f s' l
  end.

Definition consider_into (idx : nat) (r : Rule) (d : DeviceView) (now : time)
    (s : Engine * output) (w : Want) : option (Engine * output) :=
  '(e, req) ← consider idx r d w now s.1;
  Some (e, match req with
           | Some q => s.2 ++ [((idx, view_key d, want_key w), q)]
           | None => s.2 end).

Definition indexed {A} (l : list A) : list (nat * A) := zip (seq 0 (length l)) l.

(** * Operations *)

Definition AddRule (r : Rule) (e : Engine) : result rule_error Engine :=
  _ ← validate r;
  let idx := length (rules e) in
  Ok (mkEngine (globalMin e) (lastGlobal e) (rules e ++ [r])
        (foldl (fun m p => <[p := default [] (m !! p) ++ [idx]]> m) (byInvalidate e) (InvalidateOn r))
        (devices e) (track e)).

Definition OnDeviceOnline (d : DeviceView) (now : time) (e : Engine) : option (Engine * output) :=
  let e := set_devices e (<[view_key d := d]> (devices e)) in
  foldo (fun s '(idx, r) =>
    if negb (OnOnline r) || negb (matches (r_Match r) d) then Some s
    else foldo (consider_into idx r d now) s (r_Wants r)) (e, []) (indexed (rules e)).

Definition rule_pgns (r : Rule) : list Z :=
  map (fun w => match r_Via r with ViaFrame => FramePGN r | ViaISORequest => w_PGN w end) (r_Wants r)
  ++ InvalidateOn r.

Definition InterestingPGNs (e : Engine) : gset Z := list_to_set (flat_map rule_pgns (rules e)).

Definition OnDeviceOffline (bus : string) (src : Z) (e : Engine) : Engine :=
  let dk := (bus, src) in
  set_track (set_devices e (delete dk (devices e)))
    (filter (fun kv : trackKey * trackState => kv.1.1.2 <> dk) (track e)).

Definition mark_fresh (idx : nat) (r : Rule) (dk : devKey) (now : time) (pgn : Z) (data : list Z)
    (e : Engine) (w : Want) : Engine :=
  if negb (wantMatchesFrame r w pgn data) then e
  else update (idx, dk, want_key w) (fun ts => mkTrackState (lastRequested ts) now true) e.

Definition mark_all_fresh (d : DeviceView) (dk : devKey) (now : time) (pgn : Z) (data : list Z) (e : Engine)
    : Engine :=
  foldl (fun e '(idx, r) =>
    if negb (matches (r_Match r) d) then e
    else foldl (mark_fresh idx r dk now pgn data) e (r_Wants r)) e (indexed (rules e)).

Definition invalidate_into (idx : nat) (r : Rule) (d : DeviceView) (dk : devKey) (now : time)
    (s : Engine * output) (w : Want) : option (Engine * output) :=
  let e := update (idx, dk, want_key w)
             (fun ts => mkTrackState (lastRequested ts) (lastReceived ts) false) s.1 in
  consider_into idx r d now (e, s.2) w.

Definition OnFrame (bus : string) (src pgn : Z) (data : list Z) (now : time) (e : Engine)
    : option (Engine * output) :=
  let dk := (bus, src) in
  match devices e !! dk with
  | None => Some (e, [])
  | Some d =>
      let e := mark_all_fresh d dk now pgn data e in
      foldo (fun s idx =>
        match rules e !! idx with
        | None => None
        | Some r =>
            if negb (matches (r_Match r) d) then Some s
            else foldo (invalidate_into idx r d dk now) s (r_Wants r)
        end) (e, []) (default [] (byInvalidate e !! pgn))
  end.

(** [ord idx] is the order in which rule [idx]'s round visits the devices. *)
Definition Tick (ord : nat -> list devKey) (now : time) (e : Engine) : option (Engine * output) :=
  foldo (fun s '(idx, r) =>
    if (MaxAge r <=? 0) && negb (OnOnline r) then Some s
    else foldo (fun s dk =>
      match devices e !! dk with
      | None => Some s
      | Some d => if negb (matches (r_Match r) d) then Some s
                  else foldo (consider_into idx r d now) s (r_Wants r)
      end) s (ord idx)) (e, []) (indexed (rules e)).

(** * Pacing

    A history of the engine is a log of the requests sent and of the devices that
    went offline. *)

Inductive log_event :=
| Sent (t : time) (k : trackKey)
| Forgot (dk : devKey).

(** The last request for a target since its device was last forgotten, and the
    last request of all. *)
Definition sent_step (k : trackKey) (acc : option time) (ev : log_event) : option time :=
  match ev with
  | Sent t k' => if bool_decide (k' = k) then Some t else acc
  | Forgot dk => if bool_decide (dk = k.1.2) then None else acc
  end.
Definition last_sent (k : trackKey) (log : list log_event) : option time :=
  foldl (sent_step k) None log.
Definition any_step (acc : option time) (ev : log_event) : option time :=
  match ev with Sent t _ => Some t | Forgot _ => acc end.
Definition last_any (log : list log_event) : option time := foldl any_step None log.

(** Every request of the log keeps its rule's interval from the previous one for
    its target, and the global floor from the previous one of all. *)
Definition paced (rs : list Rule) (gm : duration) (log : list log_event) : Prop :=
  forall l1 t k l2, log = l1 ++ Sent t k :: l2 ->
    (forall t0 r, last_sent k l1 = Some t0 -> rs !! k.1.1 = Some r -> MinInterval r <= time_Sub t t0) /\
    (forall t0, last_any l1 = Some t0 -> 0 < gm -> gm <= time_Sub t t0).

Record pacing_inv (e : Engine) (log : list log_event) : Prop := {
  pi_target : forall k t, last_sent k log = Some t -> lastRequested (stateFor e k) = t /\ t <> 0;
  pi_global : forall t, last_any log = Some t -> lastGlobal e = t /\ t <> 0;
  pi_index : forall t k, Sent t k ∈ log -> (k.1.1 < length (rules e))%nat;
  pi_paced : paced (rules e) (globalMin e) log
}.

Lemma snoc_split {A} (l l1 l2 : list A) x y :
  l ++ [x] = l1 ++ y :: l2 ->
  (l2 = [] /\ l = l1 /\ x = y) \/ (exists l2', l2 = l2' ++ [x] /\ l = l1 ++ y :: l2').
Proof.
  intros H. destruct l2 as [|z l2' _] using rev_ind.
  - apply app_inj_tail in H as [-> ->]. auto.
  - right. exists l2'. rewrite app_comm_cons, app_assoc in H. now apply app_inj_tail in H as [-> ->].
Qed.

Lemma last_sent_snoc k log ev : last_sent k (log ++ [ev]) = sent_step k (last_sent k log) ev.
Proof. unfold last_sent. now rewrite foldl_app. Qed.
Lemma last_any_snoc log ev : last_any (log ++ [ev]) = any_step (last_any log) ev.
Proof. unfold last_any. now rewrite foldl_app. Qed.

(** Same pacing data, whatever else differs. *)
Record same_pacing (e e' : Engine) : Prop := {
  sp_rules : rules e' = rules e;
  sp_min : globalMin e' = globalMin e;
  sp_global : lastGlobal e' = lastGlobal e;
  sp_target : forall k, lastRequested (stateFor e' k) = lastRequested (stateFor e k)
}.

Lemma same_pacing_refl e : same_pacing e e.
Proof. done. Qed.
Lemma same_pacing_trans e1 e2 e3 : same_pacing e1 e2 -> same_pacing e2 e3 -> same_pacing e1 e3.
Proof. intros [] []. constructor; congruence. Qed.

Lemma stateFor_update k f e k' :
  stateFor (update k f e) k' = if bool_decide (k' = k) then f (stateFor e k) else stateFor e k'.
Proof.
  unfold stateFor at 1, update. cbn [set_track track]. case_bool_decide as H.
  - subst. now rewrite lookup_insert_eq.
  - now rewrite lookup_insert_ne.
Qed.

Lemma same_pacing_update k f e :
  (forall ts, lastRequested (f ts) = lastRequested ts) -> same_pacing e (update k f e).
Proof.
  intros Hf. constructor; try done. intros k'. rewrite stateFor_update.
  case_bool_decide as H; [now rewrite Hf, H|done].
Qed.

Lemma pacing_inv_same e e' log : same_pacing e e' -> pacing_inv e log -> pacing_inv e' log.
Proof.
  intros [Hr Hm Hg Ht] [P1 P2 P3 P4]. constructor; rewrite ?Hr, ?Hm, ?Hg; auto.
  intros k t Hk. rewrite Ht. auto.
Qed.

(** Appending a request that keeps its distances. *)
Lemma pacing_inv_sent e log now k r :
  now <> 0 -> rules e !! k.1.1 = Some r ->
  too_soon r (stateFor e k) now = false -> floor_hit e now = false -> pacing_inv e log ->
  pacing_inv (set_lastGlobal (update k (fun ts => mkTrackState now (lastReceived ts) (haveData ts)) e) now)
    (log ++ [Sent now k]).
Proof.
  intros Hnow Hr Hs Hf [P1 P2 P3 P4]. constructor; cbn [set_lastGlobal lastGlobal rules globalMin].
  - intros k' t. rewrite last_sent_snoc. cbn [sent_step].
    change (stateFor (set_lastGlobal ?x now) k') with (stateFor x k').
    rewrite stateFor_update. case_bool_decide as Hk.
    + intros [= <-]. now rewrite bool_decide_true by done.
    + rewrite bool_decide_false by congruence. apply P1.
  - intros t. rewrite last_any_snoc. cbn. now intros [= <-].
  - intros t k'. rewrite elem_of_app, list_elem_of_singleton. intros [H|[= -> ->]]; [eauto|].
    now apply lookup_lt_Some in Hr.
  - intros l1 t k' l2 [(-> & <- & [= <- <-])|(l2' & -> & ->)]%snoc_split; [|now eapply P4].
    split.
    + intros t0 r' Ht0 Hr'. cbn [update set_track rules] in Hr'. rewrite Hr in Hr'. injection Hr' as <-. destruct (P1 _ _ Ht0) as [Hl H0].
      unfold too_soon, time_IsZero in Hs. rewrite Hl in Hs.
      rewrite (proj2 (Z.eqb_neq _ _) H0) in Hs. cbn in Hs. now to_props.
    + intros t0 Ht0 Hgm. cbn [update set_track globalMin] in *. destruct (P2 _ Ht0) as [Hl H0]. unfold floor_hit, time_IsZero in Hf.
      rewrite Hl, (proj2 (Z.eqb_neq _ _) H0), (proj2 (Z.ltb_lt _ _) Hgm) in Hf. cbn in Hf. now to_props.
Qed.

Definition sent_at (now : time) (out : output) : list log_event := map (fun o => Sent now o.1) out.

(** The loops' invariant: pacing holds with the outputs so far, and the rules are
    those the loop started from. *)
Definition loop_inv (rs : list Rule) (now : time) (log : list log_event) (s : Engine * output) : Prop :=
  pacing_inv s.1 (log ++ sent_at now s.2) /\ rules s.1 = rs.

Lemma consider_into_inv rs now log idx r d s w s' :
  now <> 0 -> rs !! idx = Some r -> loop_inv rs now log s ->
  consider_into idx r d now s w = Some s' -> loop_inv rs now log s'.
Proof.
  intros Hnow Hr [Hp Hrs]. unfold consider_into, consider.
  set (k := (idx, view_key d, want_key w)).
  assert (Hid : same_pacing s.1 (update k id s.1)) by now apply same_pacing_update.
  pose proof (pacing_inv_same _ _ _ Hid Hp) as Hp'. pose proof (sp_rules _ _ Hid) as Hrs'.
  set (e := update k id s.1) in *. clearbody e.
  destruct (too_soon r (stateFor e k) now) eqn:E1; [cbn; intros [= <-]; split; [exact Hp'|cbn; congruence]|].
  destruct (fresh r (stateFor e k) now); [cbn; intros [= <-]; split; [exact Hp'|cbn; congruence]|].
  destruct (floor_hit e now) eqn:E3; [cbn; intros [= <-]; split; [exact Hp'|cbn; congruence]|].
  destruct (build r d w) as [q|]; [|done]. cbn. intros [= <-]. split; [|cbn; congruence]. cbn [fst snd].
  unfold sent_at. rewrite map_app, app_assoc.
  apply (pacing_inv_sent e _ now k r Hnow); [cbn; congruence|done..].
Qed.

Lemma foldo_inv {S A} (P : S -> Prop) (f : S -> A -> option S) l :
  (forall s a s', a ∈ l -> P s -> f s a = Some s' -> P s') ->
  forall s s', P s -> foldo f s l = Some s' -> P s'.
Proof.
  intros Hf. induction l as [|a l IH]; intros s s' Hs; cbn [foldo]; [now intros [= <-]|].
  destruct (f s a) as [s1|] eqn:E; [|done]. cbn. apply IH; [|apply (Hf s a s1); [left|done..]].
  intros s2 a2 s3 Ha. apply Hf. now right.
Qed.

Lemma elem_of_indexed {A} (l : list A) i x : (i, x) ∈ indexed l -> l !! i = Some x.
Proof.
  unfold indexed. intros (j & Hj)%list_elem_of_lookup.
  apply lookup_zip_Some in Hj as [H1 H2]. apply lookup_seq in H1 as [-> _]. exact H2.
Qed.

Lemma loop_inv_same rs now log s e' :
  same_pacing s.1 e' -> loop_inv rs now log s -> loop_inv rs now log (e', s.2).
Proof.
  intros Hsp [Hp Hr]. split; cbn [fst snd]; [now apply (pacing_inv_same s.1)|].
  rewrite (sp_rules _ _ Hsp). exact Hr.
Qed.

Lemma mark_all_fresh_same d dk now pgn data e : same_pacing e (mark_all_fresh d dk now pgn data e).
Proof.
  unfold mark_all_fresh. assert (H : forall l e, same_pacing e (foldl (fun e '(idx, r) =>
    if negb (matches (r_Match r) d) then e
    else foldl (mark_fresh idx r dk now pgn data) e (r_Wants r)) e l)); [|apply H].
  clear e. induction l as [|[idx r] l IH]; intros e; [apply same_pacing_refl|]. cbn [foldl].
  eapply same_pacing_trans; [|apply IH]. destruct (negb _); [apply same_pacing_refl|].
  generalize (r_Wants r). intros ws. revert e. induction ws as [|w ws IHw]; intros e; [apply same_pacing_refl|].
  cbn [foldl]. eapply same_pacing_trans; [|apply IHw]. unfold mark_fresh.
  destruct (negb _); [apply same_pacing_refl|now apply same_pacing_update].
Qed.

(** ** Histories *)

Inductive engine_op :=
| OpAddRule (r : Rule)
| OpOnline (d : DeviceView) (now : time)
| OpOffline (bus : string) (src : Z)
| OpFrame (bus : string) (src pgn : Z) (data : list Z) (now : time)
| OpTick (ord : nat -> list devKey) (now : time).

Definition op_step (e : Engine) (op : engine_op) : option (Engine * output) :=
  match op with
  | OpAddRule r => Some (match AddRule r e with Ok e' => e' | Err _ => e end, [])
  | OpOnline d now => OnDeviceOnline d now e
  | OpOffline bus src => Some (OnDeviceOffline bus src e, [])
  | OpFrame bus src pgn data now => OnFrame bus src pgn data now e
  | OpTick ord now => Tick ord now e
  end.

Definition op_log (op : engine_op) (out : output) : list log_event :=
  match op with
  | OpAddRule _ => []
  | OpOffline bus src => [Forgot (bus, src)]
  | OpOnline _ now | OpFrame _ _ _ _ now | OpTick _ now => sent_at now out
  end.

(** Clock readings are later than the zero time. *)
Definition op_timed (op : engine_op) : Prop :=
  match op with
  | OpOnline _ now | OpFrame _ _ _ _ now | OpTick _ now => now <> 0
  | _ => True
  end.

Fixpoint run (e : Engine) (log : list log_event) (ops : list engine_op) : option (Engine * list log_event) :=
  match ops with
  | [] => Some (e, log)
  | op :: ops => '(e', out) ← op_step e op; run e' (log ++ op_log op out) ops
  end.

Lemma loop_inv_start e e' log now :
  same_pacing e e' -> pacing_inv e log -> loop_inv (rules e) now log (e', []).
Proof.
  intros Hs Hp. split; cbn [fst snd sent_at map]; [|apply Hs]. rewrite app_nil_r.
  now apply (pacing_inv_same e).
Qed.

Lemma wants_inv rs now log idx r d s s' :
  now <> 0 -> rs !! idx = Some r -> loop_inv rs now log s ->
  foldo (consider_into idx r d now) s (r_Wants r) = Some s' -> loop_inv rs now log s'.
Proof.
  intros Hn Hr. apply foldo_inv. intros s0 w s1 _ H0. now apply (consider_into_inv rs now log idx r d).
Qed.

Lemma OnDeviceOnline_paced d now e log e' out :
  now <> 0 -> pacing_inv e log -> OnDeviceOnline d now e = Some (e', out) ->
  pacing_inv e' (log ++ sent_at now out).
Proof.
  intros Hn Hp. unfold OnDeviceOnline. cbn zeta. cbn [set_devices rules]. intros Hf.
  enough (loop_inv (rules e) now log (e', out)) as [? _] by done. revert Hf.
  apply foldo_inv; [|apply (loop_inv_start e); done].
  intros s [idx r] s' Hin%elem_of_indexed Hs. destruct (_ || _); [now intros [= <-]|].
  now apply wants_inv.
Qed.

Lemma Tick_paced ord now e log e' out :
  now <> 0 -> pacing_inv e log -> Tick ord now e = Some (e', out) ->
  pacing_inv e' (log ++ sent_at now out).
Proof.
  intros Hn Hp. unfold Tick. intros Hf.
  enough (loop_inv (rules e) now log (e', out)) as [? _] by done. revert Hf.
  apply foldo_inv; [|apply (loop_inv_start e); done].
  intros s [idx r] s' Hin%elem_of_indexed Hs. destruct (_ && _); [now intros [= <-]|].
  apply foldo_inv; [|done]. intros s1 dk s2 _ H1. destruct (devices e !! dk); [|now intros [= <-]].
  destruct (negb _); [now intros [= <-]|]. now apply wants_inv.
Qed.

Lemma OnFrame_paced bus src pgn data now e log e' out :
  now <> 0 -> pacing_inv e log -> OnFrame bus src pgn data now e = Some (e', out) ->
  pacing_inv e' (log ++ sent_at now out).
Proof.
  intros Hn Hp. unfold OnFrame. destruct (devices e !! (bus, src)) as [d|].
  2:{ intros [= <- <-]. cbn. now rewrite app_nil_r. }
  pose proof (mark_all_fresh_same d (bus, src) now pgn data e) as Hsp.
  set (e1 := mark_all_fresh d (bus, src) now pgn data e) in *. clearbody e1. intros Hf.
  enough (loop_inv (rules e) now log (e', out)) as [? _] by done. revert Hf.
  apply foldo_inv; [|now apply (loop_inv_start e)].
  intros s idx s' _ Hs. destruct (rules e1 !! idx) as [r|] eqn:Er; [|done].
  rewrite (sp_rules _ _ Hsp) in Er.
  destruct (negb _); [now intros [= <-]|]. apply foldo_inv; [|done].
  intros s1 w s2 _ H1. unfold invalidate_into.
  apply (consider_into_inv (rules e)); [done|done|]. apply loop_inv_same; [|done].
  now apply same_pacing_update.
Qed.

Lemma OnDeviceOffline_paced bus src e log :
  pacing_inv e log -> pacing_inv (OnDeviceOffline bus src e) (log ++ [Forgot (bus, src)]).
Proof.
  intros [P1 P2 P3 P4]. constructor; cbn [OnDeviceOffline set_track set_devices lastGlobal rules globalMin].
  - intros k t. rewrite last_sent_snoc. cbn [sent_step]. case_bool_decide as Hk; [done|]. intros Ht.
    unfold stateFor. cbn [OnDeviceOffline set_track set_devices track].
    destruct (P1 k t Ht) as [Hl H0]. unfold stateFor in Hl. split; [|done].
    destruct (track e !! k) as [ts|] eqn:E; [|cbn in Hl; congruence].
    rewrite (map_lookup_filter_Some_2 _ _ _ ts); [exact Hl|done|]. cbn. congruence.
  - intros t. rewrite last_any_snoc. apply P2.
  - intros t k. rewrite elem_of_app, list_elem_of_singleton. intros [H|[=]]; eauto.
  - intros l1 t k l2 [(_ & _ & [=])|(l2' & -> & ->)]%snoc_split. now eapply P4.
Qed.

Lemma AddRule_paced r e e' log :
  AddRule r e = Ok e' -> pacing_inv e log -> pacing_inv e' log.
Proof.
  unfold AddRule. destruct (validate r); [|done]. cbn. intros [= <-] [P1 P2 P3 P4].
  constructor; cbn [lastGlobal rules globalMin]; [exact P1|exact P2| |].
  - intros t k H. rewrite length_app. cbn. specialize (P3 t k H). lia.
  - intros l1 t k l2 Hl. destruct (P4 l1 t k l2 Hl) as [H1 H2]. split; [|exact H2].
    intros t0 r' Ht0 Hr'. eapply H1; [exact Ht0|].
    rewrite lookup_app_l in Hr'; [done|]. apply (P3 t). rewrite Hl. set_solver.
Qed.

Lemma op_step_paced e op log e' out :
  op_timed op -> pacing_inv e log -> op_step e op = Some (e', out) -> pacing_inv e' (log ++ op_log op out).
Proof.
  destruct op as [r|d now|bus src|bus src pgn data now|ord now]; cbn [op_timed op_step op_log]; intros Hn Hp.
  - intros [= <- <-]. rewrite app_nil_r. destruct (AddRule r e) eqn:E; [now apply (AddRule_paced r e)|done].
  - now apply OnDeviceOnline_paced.
  - intros [= <- <-]. now apply OnDeviceOffline_paced.
  - now apply OnFrame_paced.
  - now apply Tick_paced.
Qed.

Lemma run_paced ops : forall e log e' log',
  Forall op_timed ops -> pacing_inv e log -> run e log ops = Some (e', log') -> pacing_inv e' log'.
Proof.
  induction ops as [|op ops IH]; intros e log e' log' Ht Hp; cbn [run]; [now intros [= <- <-]|].
  apply Forall_cons in Ht as [Ht Hts]. destruct (op_step e op) as [[e1 out]|] eqn:E; [|done]. cbn.
  apply IH; [done|]. now apply (op_step_paced e).
Qed.

Lemma pacing_inv_new gm : pacing_inv (New gm) [].
Proof.
  constructor.
  - done.
  - done.
  - intros t k H. now apply not_elem_of_nil in H.
  - intros l1 t k l2 H. now destruct l1.
Qed.

(** C24: in the whole history of an engine, whatever rules are added and whatever
    devices, frames and ticks come: between two requests for one target (rule,
    device, want) at least the rule's minimum interval passes unless the device
    went offline in between, and between any two requests the global floor. *)
Theorem requests_paced gm ops e log :
  Forall op_timed ops -> run (New gm) [] ops = Some (e, log) -> paced (rules e) (globalMin e) log.
Proof. intros Ht Hr. exact (pi_paced _ _ (run_paced ops _ _ _ _ Ht (pacing_inv_new gm) Hr)). Qed.

(** * The hot-path guard *)

(** The invalidation index points at rules that list the PGN. *)
Definition index_ok (e : Engine) : Prop :=
  forall p idx, idx ∈ default [] (byInvalidate e !! p) ->
    exists r, rules e !! idx = Some r /\ p ∈ InvalidateOn r.

(** Operations on devices and frames keep rules and index. *)
Definition same_rules (e e' : Engine) : Prop := rules e' = rules e /\ byInvalidate e' = byInvalidate e.

Lemma same_rules_trans e1 e2 e3 : same_rules e1 e2 -> same_rules e2 e3 -> same_rules e1 e3.
Proof. intros [? ?] [? ?]. split; congruence. Qed.

Lemma consider_into_rules idx r d now s w s' :
  consider_into idx r d now s w = Some s' -> same_rules s.1 s'.1.
Proof.
  unfold consider_into, consider. case_match; [cbn; now intros [= <-]|]. case_match; [cbn; now intros [= <-]|].
  case_match; [cbn; now intros [= <-]|]. destruct (build r d w); [|done]. cbn. now intros [= <-].
Qed.

Lemma same_rules_fold {A} (f : Engine * output -> A -> option (Engine * output)) l s s' :
  (forall s a s', f s a = Some s' -> same_rules s.1 s'.1) ->
  foldo f s l = Some s' -> same_rules s.1 s'.1.
Proof.
  intros Hf. apply (foldo_inv (fun x => same_rules s.1 x.1)); [|done].
  intros s1 a s2 _ [H1 H2] Hs. destruct (Hf _ _ _ Hs) as [H3 H4]. split; congruence.
Qed.

Lemma mark_all_fresh_rules d dk now pgn data e : same_rules e (mark_all_fresh d dk now pgn data e).
Proof.
  unfold mark_all_fresh. assert (H : forall l e, same_rules e (foldl (fun e '(idx, r) =>
    if negb (matches (r_Match r) d) then e
    else foldl (mark_fresh idx r dk now pgn data) e (r_Wants r)) e l)); [|apply H].
  clear e. induction l as [|[idx r] l IH]; intros e; [done|]. cbn [foldl].
  match goal with |- same_rules e (foldl _ ?e1 l) => assert (H1 : same_rules e e1) end.
  { destruct (negb _); [done|]. generalize (r_Wants r). intros ws. revert e.
    induction ws as [|w ws IHw]; intros e; [done|]. cbn [foldl].
    eapply same_rules_trans; [|apply IHw]. unfold mark_fresh. now destruct (negb _). }
  eapply same_rules_trans; [exact H1|apply IH].
Qed.

Lemma op_step_rules e op e' out :
  op_step e op = Some (e', out) ->
  match op with OpAddRule _ => True | _ => same_rules e e' end.
Proof.
  destruct op as [r|d now|bus src|bus src pgn data now|ord now]; cbn [op_step]; [done| |now intros [= <- <-]| |].
  - unfold OnDeviceOnline. intros H. change (same_rules e (e', out).1).
    apply same_rules_fold in H; [exact H|]. intros s [idx r] s'. destruct (_ || _); [now intros [= <-]|].
    apply same_rules_fold. intros; eapply consider_into_rules; eassumption.
  - unfold OnFrame. destruct (devices e !! (bus, src)) as [d|]; [|now intros [= <- <-]].
    pose proof (mark_all_fresh_rules d (bus, src) now pgn data e) as [M1 M2]. intros H.
    apply same_rules_fold in H; [destruct H as [H1 H2]; cbn in H1, H2; split; congruence|].
    intros s idx s'. destruct (rules _ !! idx); [|done]. destruct (negb _); [now intros [= <-]|].
    apply same_rules_fold. intros s1 w s2. unfold invalidate_into. intros Hc%consider_into_rules. exact Hc.
  - unfold Tick. intros H. apply same_rules_fold in H; [exact H|].
    intros s [idx r] s'. destruct (_ && _); [now intros [= <-]|]. apply same_rules_fold.
    intros s1 dk s2. destruct (devices e !! dk); [|now intros [= <-]]. destruct (negb _); [now intros [= <-]|].
    apply same_rules_fold. intros; eapply consider_into_rules; eassumption.
Qed.

Lemma add_index_lookup ps idx : forall m p i,
  i ∈ default [] (foldl (fun m p => <[p := default [] (m !! p) ++ [idx]]> m) m ps !! p) <->
  i ∈ default [] ((m : gmap Z (list nat)) !! p) \/ (i = idx /\ p ∈ ps).
Proof.
  induction ps as [|q ps IH]; intros m p i; cbn [foldl]; [set_solver|]. rewrite IH.
  destruct (decide (q = p)) as [->|Hne].
  - rewrite lookup_insert_eq. cbn [from_option default id]. rewrite elem_of_app, list_elem_of_singleton. set_solver.
  - rewrite lookup_insert_ne by done. set_solver.
Qed.

Lemma op_step_index e op e' out : op_step e op = Some (e', out) -> index_ok e -> index_ok e'.
Proof.
  intros Hs Hi. pose proof (op_step_rules _ _ _ _ Hs) as Hr.
  destruct op as [r| | | |]; try (destruct Hr as [H1 H2]; intros p idx; rewrite H1, H2; apply Hi).
  cbn in Hs. injection Hs as <- <-. destruct (AddRule r e) as [e1|] eqn:E; [|done].
  unfold AddRule in E. destruct (validate r); [|done]. cbn in E. injection E as <-.
  intros p idx. cbn [byInvalidate rules]. rewrite add_index_lookup. intros [H|[-> H]].
  - destruct (Hi p idx H) as (r' & Hr' & Hp). exists r'. split; [|done]. now apply lookup_app_l_Some.
  - exists r. split; [|done]. now apply list_lookup_middle.
Qed.

Lemma run_index ops : forall e log e' log',
  index_ok e -> run e log ops = Some (e', log') -> index_ok e'.
Proof.
  induction ops as [|op ops IH]; intros e log e' log' Hi; cbn [run]; [now intros [= <- <-]|].
  destruct (op_step e op) as [[e1 out]|] eqn:E; [|done]. cbn. apply IH. eapply op_step_index; eassumption.
Qed.

Lemma index_ok_new gm : index_ok (New gm).
Proof. intros p idx. cbn. rewrite lookup_empty. cbn. set_solver. Qed.

Lemma mark_all_fresh_uninteresting d dk now pgn data e :
  pgn ∉ InterestingPGNs e -> mark_all_fresh d dk now pgn data e = e.
Proof.
  intros Hp. unfold mark_all_fresh.
  assert (H : forall l, (forall idx r, (idx, r) ∈ l -> r ∈ rules e) -> foldl (fun e '(idx, r) =>
    if negb (matches (r_Match r) d) then e
    else foldl (mark_fresh idx r dk now pgn data) e (r_Wants r)) e l = e).
  { induction l as [|[idx r] l IH]; intros Hl; [done|]. cbn [foldl].
    assert (Hr : r ∈ rules e) by (apply (Hl idx); left).
    assert (Hw : forall ws, (forall w, w ∈ ws -> w ∈ r_Wants r) -> foldl (mark_fresh idx r dk now pgn data) e ws = e).
    { induction ws as [|w ws IHw]; intros Hws; [done|]. cbn [foldl].
      assert (wantMatchesFrame r w pgn data = false) as Hm.
      { destruct (wantMatchesFrame r w pgn data) eqn:E; [|done]. exfalso. apply Hp.
        unfold InterestingPGNs. rewrite elem_of_list_to_set, list_elem_of_In, in_flat_map. exists r.
        split; [now apply list_elem_of_In|]. unfold rule_pgns. apply in_app_iff. left. apply in_map_iff.
        exists w. split; [|apply list_elem_of_In, Hws; left]. unfold wantMatchesFrame in E.
        destruct (r_Via r); [now to_props|]. destruct (Z.eqb_spec pgn (FramePGN r)); [done|discriminate]. }
      unfold mark_fresh at 2. rewrite Hm. cbn [negb]. apply IHw. intros; apply Hws. now right. }
    destruct (negb _); [|rewrite Hw by done]; apply IH; intros; apply (Hl idx0); now right. }
  apply H. intros idx r Hin%elem_of_indexed. now apply list_elem_of_lookup_2 in Hin.
Qed.

(** The lock-free guard is sound: in every reachable engine, a frame whose PGN
    is not in [InterestingPGNs] leaves the engine exactly as it was and requests
    nothing, so skipping [OnFrame] for it changes nothing. *)
Theorem uninteresting_frame_noop gm ops e log bus src pgn data now :
  run (New gm) [] ops = Some (e, log) -> pgn ∉ InterestingPGNs e ->
  OnFrame bus src pgn data now e = Some (e, []).
Proof.
  intros Hr Hp. pose proof (run_index ops _ _ _ _ (index_ok_new gm) Hr) as Hi.
  unfold OnFrame. destruct (devices e !! (bus, src)) as [d|]; [|done].
  rewrite mark_all_fresh_uninteresting by done.
  destruct (default [] (byInvalidate e !! pgn)) as [|idx l] eqn:E; [done|]. exfalso.
  destruct (Hi pgn idx) as (r & Hr' & Hin); [rewrite E; left|]. apply Hp.
  unfold InterestingPGNs. rewrite elem_of_list_to_set, list_elem_of_In, in_flat_map. exists r.
  split; [apply list_elem_of_In; now apply (list_elem_of_lookup_2 _ idx)|]. apply in_app_iff. right. now apply list_elem_of_In.
Qed.

(** * No panics *)

Definition safe_rule (r : Rule) : Prop := 0 <= SubKeyWriteOff r.

Lemma writeLE_loop_total fuel : forall i b off n v,
  0 <= i -> 0 <= off -> is_Some (writeLE_loop fuel i b off n v).
Proof.
  induction fuel as [|fuel IH]; intros i b off n v Hi Ho; cbn [writeLE_loop]; [eauto|].
  destruct (_ && _); [|eauto]. destruct (Z.ltb_spec (off + i) 0); [lia|]. apply IH; lia.
Qed.

Lemma consider_total idx r d w now e : safe_rule r -> is_Some (consider idx r d w now e).
Proof.
  intros Hs. unfold consider. do 3 (case_match; [eauto|]).
  assert (is_Some (build r d w)) as [q ->]; [|cbn; eauto].
  unfold build. destruct (r_Via r); [eauto|].
  destruct (w_HasSubKey w && _); cbn; [|eauto].
  destruct (writeLE_loop_total (Z.to_nat (SubKeyWriteLen r)) 0 (FrameTemplate r) (SubKeyWriteOff r)
    (SubKeyWriteLen r) (w_SubKey w)) as [p Hp]; [lia|done|]. unfold writeLE. rewrite Hp. cbn. eauto.
Qed.

Lemma foldo_total {S A} (P : S -> Prop) (f : S -> A -> option S) l :
  (forall s a, a ∈ l -> P s -> exists s', f s a = Some s' /\ P s') ->
  forall s, P s -> exists s', foldo f s l = Some s' /\ P s'.
Proof.
  intros Hf. induction l as [|a l IH]; intros s Hs; cbn [foldo]; [eauto|].
  destruct (Hf s a ltac:(left) Hs) as (s1 & -> & H1). cbn. apply IH; [|done].
  intros s2 a2 Ha. apply Hf. now right.
Qed.

(** The rules and index a total loop relies on. *)
Definition engine_safe (e : Engine) : Prop := Forall safe_rule (rules e) /\ index_ok e.

Lemma engine_safe_same e e' : same_rules e e' -> engine_safe e -> engine_safe e'.
Proof. intros [H1 H2] [H3 H4]. split; [now rewrite H1|]. intros p idx. rewrite H1, H2. apply H4. Qed.

Lemma wants_total rs idx r d now s :
  safe_rule r -> same_rules rs s.1 ->
  exists s', foldo (consider_into idx r d now) s (r_Wants r) = Some s' /\ same_rules rs s'.1.
Proof.
  intros Hr. apply (foldo_total (fun s => same_rules rs s.1)). intros s1 w _ H1.
  destruct (consider_total idx r d w now s1.1 Hr) as [[e q] Hc].
  assert (Hci : consider_into idx r d now s1 w = Some (e, match q with
     | Some q => s1.2 ++ [((idx, view_key d, want_key w), q)] | None => s1.2 end)).
  { unfold consider_into. now rewrite Hc. }
  eexists. split; [exact Hci|]. eapply same_rules_trans; [exact H1|]. eapply consider_into_rules. exact Hci.
Qed.

Lemma invalidate_total rs idx r d dk now s :
  safe_rule r -> same_rules rs s.1 ->
  exists s', foldo (invalidate_into idx r d dk now) s (r_Wants r) = Some s' /\ same_rules rs s'.1.
Proof.
  intros Hr. apply (foldo_total (fun s => same_rules rs s.1)). intros s1 w _ H1.
  unfold invalidate_into. set (e1 := update _ _ s1.1).
  destruct (consider_total idx r d w now e1 Hr) as [[e q] Hc].
  assert (Hci : consider_into idx r d now (e1, s1.2) w = Some (e, match q with
     | Some q => s1.2 ++ [((idx, view_key d, want_key w), q)] | None => s1.2 end)).
  { unfold consider_into. cbn [fst snd]. now rewrite Hc. }
  eexists. split; [exact Hci|]. eapply same_rules_trans; [exact H1|].
  apply consider_into_rules in Hci. exact Hci.
Qed.

Lemma fold_some {A} e (f : Engine * output -> A -> option (Engine * output)) l s0 :
  (forall s a, a ∈ l -> same_rules e s.1 -> exists s', f s a = Some s' /\ same_rules e s'.1) ->
  same_rules e s0.1 -> exists s, foldo f s0 l = Some s.
Proof.
  intros Hf H0. destruct (foldo_total (fun s : Engine * output => same_rules e s.1) f l Hf s0 H0) as (s & Hs & _).
  eauto.
Qed.

Lemma op_step_total e op :
  engine_safe e -> match op with OpAddRule r => safe_rule r | _ => True end ->
  exists e' out, op_step e op = Some (e', out) /\ engine_safe e'.
Proof.
  intros Hs Hop. assert (H : exists s, op_step e op = Some s).
  { destruct Hs as [Hs Hi].
    assert (Hix : forall idx r, (idx, r) ∈ indexed (rules e) -> safe_rule r).
    { intros idx r Hin%elem_of_indexed. exact (Forall_lookup_1 _ _ _ _ Hs Hin). }
    destruct op as [r|d now|bus src|bus src pgn data now|ord now]; cbn [op_step]; [eauto| |eauto| |].
    - unfold OnDeviceOnline. apply (fold_some e); [|done].
      intros s [idx r] Hin H1. destruct (_ || _); [eauto|]. apply wants_total; eauto.
    - unfold OnFrame. destruct (devices e !! (bus, src)) as [d|]; [|eauto].
      pose proof (mark_all_fresh_rules d (bus, src) now pgn data e) as M.
      set (e1 := mark_all_fresh d (bus, src) now pgn data e) in *. clearbody e1.
      apply (fold_some e); [|done].
      intros s idx Hin H1. destruct M as [M1 M2]. rewrite M2 in Hin.
      destruct (Hi pgn idx Hin) as (r & Hr & _). rewrite M1, Hr.
      destruct (negb _); [eauto|]. apply invalidate_total; [|done]. exact (Forall_lookup_1 _ _ _ _ Hs Hr).
    - unfold Tick. apply (fold_some e); [|done].
      intros s [idx r] Hin H1. destruct (_ && _); [eauto|].
      apply (foldo_total (fun s : Engine * output => same_rules e s.1)); [|done].
      intros s2 dk _ H2. destruct (devices e !! dk); [|eauto]. destruct (negb _); [eauto|].
      apply wants_total; eauto. }
  destruct H as [[e' out] H]. exists e', out. split; [exact H|].
  pose proof (op_step_rules _ _ _ _ H) as Hr. pose proof (op_step_index _ _ _ _ H (proj2 Hs)) as Hi'.
  destruct op as [r| | | |]; try (now apply (engine_safe_same e)). split; [|exact Hi'].
  cbn in H. injection H as <- _. destruct (AddRule r e) as [e1|] eqn:E; [|apply Hs].
  unfold AddRule in E. destruct (validate r); [|done]. cbn in E. injection E as <-.
  apply Forall_app. split; [apply Hs|repeat constructor; done].
Qed.

(** If every rule added has a nonnegative sub-key write offset, no operation of
    any history panics: each returns, whatever devices and frames come. *)
Theorem engine_never_panics gm ops :
  Forall (fun op => match op with OpAddRule r => safe_rule r | _ => True end) ops ->
  is_Some (run (New gm) [] ops).
Proof.
  intros Hops. assert (Hs : engine_safe (New gm)) by (split; [constructor|apply index_ok_new]).
  revert Hs. generalize (New gm) (@nil log_event). induction Hops as [|op ops Hop _ IH]; intros e log Hs; [cbn; eauto|].
  cbn [run]. destruct (op_step_total e op Hs Hop) as (e' & out & -> & Hs'). cbn. now apply IH.
Qed.

(** * Concrete rules *)

Definition any_device : Match := mkMatch "" 0 "" None None "" None "".

(** A rule for a Victron register read: frame PGN 61184, register at bytes 4-5. *)
Definition register_rule (off : Z) : Rule :=
  mkRule "dc-voltage" (mkMatch "victron energy" 0 "Smart*" None None "" None "") [mkWant 61184 0xED8D true] ViaFrame
    true 0 61184 7 [0x66; 0x99; 1; 0; 0; 0; 0xFF; 0xFF] off 2 2 2
    (10 * second) (60 * second) true [127501].
Definition iso_rule : Rule :=
  mkRule "config" any_device [mkWant 126998 0 false] ViaISORequest true 0 0 0 [] 0 0 0 0 (5 * second) 0 true [].
Definition battery : DeviceView :=
  mkDeviceView "can0" 30 "00" "Victron Energy" 358 35 170 0 "SmartSolar MPPT" 41312.

Definition demo_history : list engine_op :=
  [ OpAddRule (register_rule 4); OpAddRule iso_rule; OpOnline battery (100 * second);
    OpTick (fun _ => [("can0"%string, 30)]) (105 * second);
    OpTick (fun _ => [("can0"%string, 30)]) (111 * second);
    OpFrame "can0" 30 61184 [0x66; 0x99; 0x8D; 0xED; 1; 2; 3; 4] (112 * second);
    OpTick (fun _ => [("can0"%string, 30)]) (130 * second);
    OpFrame "can0" 30 127501 [1] (140 * second);
    OpOffline "can0" 30; OpOnline battery (141 * second) ].

Definition demo_log : list log_event :=
  Eval vm_compute in match run (New 0) [] demo_history with Some (_, log) => log | None => [] end.
Definition demo_engine : Engine :=
  Eval vm_compute in match run (New 0) [] demo_history with Some (e, _) => e | None => New 0 end.

Lemma demo_history_timed : Forall op_timed demo_history.
Proof. unfold demo_history. repeat (apply Forall_cons; split; [cbv; done|]). apply Forall_nil. done. Qed.

Lemma requests_paced_witness :
  run (New 0) [] demo_history = Some (demo_engine, demo_log) /\ length demo_log = 10%nat /\
  paced (rules demo_engine) (globalMin demo_engine) demo_log.
Proof.
  assert (H : run (New 0) [] demo_history = Some (demo_engine, demo_log)) by (vm_compute; reflexivity).
  split; [exact H|]. split; [reflexivity|].
  exact (requests_paced 0 demo_history demo_engine demo_log demo_history_timed H).
Defined.

Lemma uninteresting_frame_noop_witness :
  OnFrame "can0" 30 127250 [1; 2] (150 * second) demo_engine = Some (demo_engine, []).
Proof.
  assert (H : run (New 0) [] demo_history = Some (demo_engine, demo_log)) by (vm_compute; reflexivity).
  assert (Hp : 127250 ∉ InterestingPGNs demo_engine) by (apply (bool_decide_unpack _); vm_compute; exact I).
  exact (uninteresting_frame_noop 0 demo_history demo_engine demo_log "can0" 30 127250 [1; 2] (150 * second) H Hp).
Defined.

Lemma engine_never_panics_witness : is_Some (run (New 0) [] demo_history).
Proof.
  apply (engine_never_panics 0 demo_history). unfold demo_history.
  repeat (apply Forall_cons; split; [cbv; done|]). now apply Forall_nil.
Defined.

(** A negative write offset passes [validate] and panics when a device appears. *)
Example negative_offset_panics :
  validate (register_rule (-1)) = Ok tt /\
  run (New 0) [] [OpAddRule (register_rule (-1)); OpOnline battery (100 * second)] = None.
Proof. split; vm_compute; reflexivity. Qed.

(** A device that goes offline and returns is asked again at once: the interval
    is not kept across the gap. *)
Example offline_resets_interval :
  let ops := [OpAddRule iso_rule; OpOnline battery (100 * second); OpOffline "can0" 30;
              OpOnline battery (100 * second + 1)] in
  match run (New 0) [] ops with Some (_, log) => log | None => [] end =
  [Sent (100 * second) (0%nat, ("can0"%string, 30), want_key (mkWant 126998 0 false)); Forgot ("can0"%string, 30);
   Sent (100 * second + 1) (0%nat, ("can0"%string, 30), want_key (mkWant 126998 0 false))].
Proof. vm_compute. reflexivity. Qed.
