(* ===== verification/VirtualDevice.v ===== *)
(** Virtual NMEA 2000 devices: [virtual_device.go], with [TxRequest] of
    [broker.go].

    Each device walks a claim state machine; frames handed to the broker's
    transmit function are the outputs of the operations.  The registry consulted
    for free addresses and the clock reading are arguments. *)

From S2P Require Import Prelude CanId Devices.

(** [TxRequest] of [broker.go]. *)
Record TxRequest := mkTxRequest { tx_Header : CANHeader; tx_Data : list Z; tx_Bus : string }.

Inductive ClaimState := ClaimIdle | ClaimInProgress | ClaimHeld | ClaimCannotClaim.

#[export] Instance ClaimState_eq_dec : EqDecision ClaimState.
Proof. solve_decision. Defined.

Definition ClaimState_String (s : ClaimState) : string :=
  match s with
  | ClaimIdle => "idle"
  | ClaimInProgress => "in_progress"
  | ClaimHeld => "held"
  | ClaimCannotClaim => "cannot_claim"
  end.

Record VirtualProductInfo := mkVirtualProductInfo {
  vp_ModelID : string;
  vp_SoftwareVersion : string;
  vp_ModelVersion : string;
  vp_ModelSerial : string;
  vp_ProductCode : Z
}.

Record VirtualDeviceConfig := mkVirtualDeviceConfig {
  cfg_NAME : Z;
  cfg_ProductInfo : VirtualProductInfo
}.

Record VirtualDevice := mkVirtualDevice {
  vd_cfg : VirtualDeviceConfig;
  vd_state : ClaimState;
  vd_source : Z;
  vd_readyAt : time
}.

Definition DefaultClaimHeartbeat : duration := 60 * second.
Definition DefaultProductInfoHeartbeat : duration := 5 * minute.

Record VirtualDeviceManager := mkManager {
  vdevices : list VirtualDevice;
  claimInterval : duration;
  productInfoInterval : duration;
  lastClaimAt : time;
  lastProductInfoAt : time
}.

Definition set_vdevices (m : VirtualDeviceManager) (ds : list VirtualDevice) : VirtualDeviceManager :=
  mkManager ds (claimInterval m) (productInfoInterval m) (lastClaimAt m) (lastProductInfoAt m).

Definition NewVirtualDeviceManager (claim product : duration) : VirtualDeviceManager :=
  mkManager [] (if claim <=? 0 then DefaultClaimHeartbeat else claim)
    (if product <=? 0 then DefaultProductInfoHeartbeat else product) 0 0.

Definition Add (c : VirtualDeviceConfig) (m : VirtualDeviceManager) : VirtualDeviceManager :=
  set_vdevices m (vdevices m ++ [mkVirtualDevice c ClaimIdle 0 0]).

(** * Frames *)

Definition sendAddressClaim (dev : VirtualDevice) (source : Z) : TxRequest :=
  mkTxRequest (mkCANHeader 6 60928 source 255) (le64 (cfg_NAME (vd_cfg dev))) "".

Definition product_payload (info : VirtualProductInfo) : list Z :=
  le16 0x0834 ++ le16 (vp_ProductCode info) ++ encodeFixedString 32 (vp_ModelID info) ++
  encodeFixedString 40 (vp_SoftwareVersion info) ++ encodeFixedString 24 (vp_ModelVersion info) ++
  encodeFixedString 32 (vp_ModelSerial info) ++ [0; 0].

Definition sendProductInfo (dev : VirtualDevice) : TxRequest :=
  mkTxRequest (mkCANHeader 6 126996 (vd_source dev) 255) (product_payload (cfg_ProductInfo (vd_cfg dev))) "".

(** * Claiming *)

Definition active (dev : VirtualDevice) : bool :=
  match vd_state dev with ClaimInProgress | ClaimHeld => true | _ => false end.

(** The addresses [findFreeAddress] regards as taken. *)
Definition taken (registry : DeviceRegistry) (ds : list VirtualDevice) : gset Z :=
  list_to_set (map dev_Source (Snapshot (any_order registry) registry)) ∪
  list_to_set (map vd_source (List.filter active ds)).

(** The scan from [addr] down to 0. *)
Fixpoint scan_down (addr : nat) (t : gset Z) : option Z :=
  if negb (bool_decide (Z.of_nat addr ∈ t)) then Some (Z.of_nat addr)
  else match addr with O => None | S addr => scan_down addr t end.

Definition findFreeAddress (registry : DeviceRegistry) (ds : list VirtualDevice) : option Z :=
  scan_down 252 (taken registry ds).

(** The device after its claim, and the frame sent; [ds] are all the devices,
    this one included. *)
Definition claimForDevice (registry : DeviceRegistry) (ds : list VirtualDevice) (now : time)
    (dev : VirtualDevice) : VirtualDevice * TxRequest :=
  match findFreeAddress registry ds with
  | None => (mkVirtualDevice (vd_cfg dev) ClaimCannotClaim 254 (vd_readyAt dev), sendAddressClaim dev 254)
  | Some addr =>
      (mkVirtualDevice (vd_cfg dev) ClaimInProgress addr (now + 250 * millisecond),
       sendAddressClaim dev addr)
  end.

(** Devices claim one after the other, each seeing the claims before it; [now i]
    is the clock reading of device [i]. *)
Fixpoint claim_loop (registry : DeviceRegistry) (now : nat -> time) (ds : list VirtualDevice) (idxs : list nat)
    : list VirtualDevice * list TxRequest :=
  match idxs with
  | [] => (ds, [])
  | i :: idxs =>
      match ds !! i with
      | None => claim_loop registry now ds idxs
      | Some dev =>
          let '(dev', tx) := claimForDevice registry ds (now i) dev in
          let '(ds', txs) := claim_loop registry now (<[i := dev']> ds) idxs in
          (ds', tx :: txs)
      end
  end.

(** [StartAfterDiscovery] once its delay has passed. *)
Definition StartAfterDiscovery (registry : DeviceRegistry) (t : time) (now : nat -> time)
    (m : VirtualDeviceManager) : VirtualDeviceManager * list TxRequest :=
  let '(ds, txs) := claim_loop registry now (vdevices m) (seq 0 (length (vdevices m))) in
  (mkManager ds (claimInterval m) (productInfoInterval m) t t, txs).

Definition Heartbeat (now : time) (m : VirtualDeviceManager) : VirtualDeviceManager * list TxRequest :=
  let sendClaims := claimInterval m <=? time_Sub now (lastClaimAt m) in
  let sendProduct := productInfoInterval m <=? time_Sub now (lastProductInfoAt m) in
  if negb sendClaims && negb sendProduct then (m, [])
  else
    (mkManager (vdevices m) (claimInterval m) (productInfoInterval m)
       (if sendClaims then now else lastClaimAt m) (if sendProduct then now else lastProductInfoAt m),
     flat_map (fun dev =>
       if negb (bool_decide (vd_state dev = ClaimHeld)) then []
       else (if sendClaims then [sendAddressClaim dev (vd_source dev)] else []) ++
            (if sendProduct then [sendProductInfo dev] else [])) (vdevices m)).

(** The loop of [HandleBusClaim]: the devices, the frames and the result. *)
Fixpoint bus_claim_loop (registry : DeviceRegistry) (now : time) (source name : Z)
    (before ds : list VirtualDevice) : list VirtualDevice * list TxRequest * bool :=
  match ds with
  | [] => (before, [], false)
  | dev :: rest =>
      if negb (active dev) then bus_claim_loop registry now source name (before ++ [dev]) rest
      else if negb (vd_source dev =? source) then
        bus_claim_loop registry now source name (before ++ [dev]) rest
      else if cfg_NAME (vd_cfg dev) =? name then
        let dev' := match vd_state dev with
          | ClaimInProgress => mkVirtualDevice (vd_cfg dev) ClaimHeld (vd_source dev) (vd_readyAt dev)
          | _ => dev end in
        (before ++ dev' :: rest, [], true)
      else if cfg_NAME (vd_cfg dev) <? name then
        (before ++ dev :: rest, [sendAddressClaim dev (vd_source dev)], false)
      else
        let '(dev', tx) := claimForDevice registry (before ++ dev :: rest) now dev in
        (before ++ dev' :: rest, [tx], false)
  end.

Definition HandleBusClaim (registry : DeviceRegistry) (now : time) (source name : Z)
    (m : VirtualDeviceManager) : VirtualDeviceManager * list TxRequest * bool :=
  let '(ds, txs, handled) := bus_claim_loop registry now source name [] (vdevices m) in
  (set_vdevices m ds, txs, handled).

Definition HandleISORequest (dst requestedPGN : Z) (m : VirtualDeviceManager) : list TxRequest :=
  flat_map (fun dev =>
    if negb (active dev) then []
    else if negb (dst =? 255) && negb (dst =? vd_source dev) then []
    else if requestedPGN =? 60928 then [sendAddressClaim dev (vd_source dev)]
    else if requestedPGN =? 126996 then [sendProductInfo dev]
    else []) (vdevices m).

Definition ClaimedSource (m : VirtualDeviceManager) : option Z :=
  vd_source <$> List.find (fun dev => bool_decide (vd_state dev = ClaimHeld)) (vdevices m).

Definition Ready (now : time) (m : VirtualDeviceManager) : bool :=
  existsb (fun dev => bool_decide (vd_state dev = ClaimHeld) && negb (now <? vd_readyAt dev)) (vdevices m).

Definition ProductInfoPayload (source : Z) (m : VirtualDeviceManager) : option (list Z) :=
  (fun dev => product_payload (cfg_ProductInfo (vd_cfg dev))) <$>
    List.find (fun dev => vd_source dev =? source) (vdevices m).

Record VirtualDeviceStatus := mkStatus {
  st_NAME : string; st_Source : Z; st_State : string; st_ModelID : string
}.

Definition Devices (m : VirtualDeviceManager) : list VirtualDeviceStatus :=
  map (fun dev => mkStatus (hex016 (cfg_NAME (vd_cfg dev))) (vd_source dev)
         (ClaimState_String (vd_state dev)) (vp_ModelID (cfg_ProductInfo (vd_cfg dev)))) (vdevices m).

(** * Free addresses *)

Lemma scan_down_spec t addr :
  match scan_down addr t with
  | Some a => 0 <= a <= Z.of_nat addr /\ a ∉ t /\ forall b, a < b <= Z.of_nat addr -> b ∈ t
  | None => forall b, 0 <= b <= Z.of_nat addr -> b ∈ t
  end.
Proof.
  induction addr as [|addr IH]; cbn [scan_down];
    (case_bool_decide as Ht; cbn [negb];
     [|split; [lia|split; [done|intros; lia]]]).
  - intros b Hb. now replace b with 0 by lia.
  - destruct (scan_down addr t) as [a|].
    + destruct IH as (Ha & Hn & Hb). split; [lia|]. split; [done|]. intros b Hab.
      destruct (decide (b = Z.of_nat (S addr))) as [->|]; [done|]. apply Hb. lia.
    + intros b Hb. destruct (decide (b = Z.of_nat (S addr))) as [->|]; [done|]. apply IH. lia.
Qed.

(** An address is in use on the bus or by an active virtual device. *)
Definition in_use (registry : DeviceRegistry) (ds : list VirtualDevice) (a : Z) : Prop :=
  (exists k d, registry !! k = Some d /\ dev_Source d = a) \/
  (exists dev, dev ∈ ds /\ active dev = true /\ vd_source dev = a).

Lemma elem_of_taken registry ds a : a ∈ taken registry ds <-> in_use registry ds a.
Proof.
  unfold taken, in_use. rewrite elem_of_union, !elem_of_list_to_set, !list_elem_of_In, !in_map_iff.
  unfold Snapshot. split; (intros [H|H]; [left|right]).
  - destruct H as (d & <- & (k & _ & Hk)%list_elem_of_In%list_elem_of_omap). eauto.
  - destruct H as (dev & <- & [H1%list_elem_of_In H2]%filter_In). eauto.
  - destruct H as (k & d & Hk & <-). exists d. split; [done|]. apply list_elem_of_In, list_elem_of_omap.
    exists k. split; [|done]. apply (proj2 (any_order_ranges registry)). eauto.
  - destruct H as (dev & H1 & H2 & <-). exists dev. split; [done|]. apply filter_In.
    split; [now apply list_elem_of_In|done].
Qed.

Lemma findFreeAddress_sound registry ds :
  match findFreeAddress registry ds with
  | Some a => 0 <= a <= 252 /\ ~ in_use registry ds a /\ forall b, a < b <= 252 -> in_use registry ds b
  | None => forall b, 0 <= b <= 252 -> in_use registry ds b
  end.
Proof.
  unfold findFreeAddress. pose proof (scan_down_spec (taken registry ds) 252) as H.
  destruct (scan_down 252 _) as [a|]; setoid_rewrite elem_of_taken in H; exact H.
Qed.

(** An address is found exactly when one of 0..252 is in use neither on the
    bus nor by an active virtual device, and it is the highest such address. *)
Theorem findFreeAddress_spec registry ds :
  match findFreeAddress registry ds with
  | Some a => 0 <= a <= 252 /\ ~ in_use registry ds a /\ forall b, a < b <= 252 -> in_use registry ds b
  | None => forall b, 0 <= b <= 252 -> in_use registry ds b
  end.
Proof. apply findFreeAddress_sound. Qed.

(** * The claim invariant *)

(** Active devices hold distinct addresses in 0..252; a device that cannot claim
    sits at the null address. *)
Record claims_ok (ds : list VirtualDevice) : Prop := {
  ok_range : forall dev, dev ∈ ds -> active dev = true -> 0 <= vd_source dev <= 252;
  ok_null : forall dev, dev ∈ ds -> vd_state dev = ClaimCannotClaim -> vd_source dev = 254;
  ok_distinct : forall i j d1 d2, ds !! i = Some d1 -> ds !! j = Some d2 ->
    active d1 = true -> active d2 = true -> vd_source d1 = vd_source d2 -> i = j
}.

(** Replacing device [i] by one that is inactive, keeps its address, or took one
    that was free. *)
Lemma claims_ok_replace ds i dev dev' :
  claims_ok ds -> ds !! i = Some dev ->
  (vd_state dev' = ClaimCannotClaim -> vd_source dev' = 254) ->
  (active dev' = true ->
     (active dev = true /\ vd_source dev' = vd_source dev) \/
     (0 <= vd_source dev' <= 252 /\
      forall d, d ∈ ds -> active d = true -> vd_source d <> vd_source dev')) ->
  claims_ok (<[i := dev']> ds).
Proof.
  intros [Hr Hn Hd] Hi Hnull Hact. pose proof (lookup_lt_Some _ _ _ Hi) as Hlt.
  assert (Hin : forall d, d ∈ <[i := dev']> ds -> d = dev' \/ d ∈ ds).
  { intros d (j & [(-> & <- & _)|[_ H]]%list_lookup_insert_Some)%list_elem_of_lookup; [auto|].
    right. now apply list_elem_of_lookup_2 in H. }
  pose proof (list_elem_of_lookup_2 _ _ _ Hi) as Hdev.
  assert (Hcmp : forall j d, j <> i -> ds !! j = Some d -> active dev' = true -> active d = true ->
    vd_source d = vd_source dev' -> False).
  { intros j d Hji Hj Ha' Ha Hs. destruct (Hact Ha') as [[Ha0 Hs0]|[_ Hf]].
    - apply Hji. apply (Hd j i d dev); congruence.
    - apply (Hf d); [now apply list_elem_of_lookup_2 in Hj|done..]. }
  split.
  - intros d [->|H]%Hin Ha; [|auto]. destruct (Hact Ha) as [[Ha0 ->]|[? _]]; [auto|done].
  - intros d [->|H]%Hin; auto.
  - intros j1 j2 d1 d2 [(-> & <- & _)|[N1 H1]]%list_lookup_insert_Some
      [(-> & <- & _)|[N2 H2]]%list_lookup_insert_Some A1 A2 Hs; [done| | |now apply (Hd j1 j2 d1 d2)].
    + exfalso. apply (Hcmp j2 d2); congruence.
    + exfalso. apply (Hcmp j1 d1); congruence.
Qed.

Lemma claimForDevice_ok registry ds now i dev :
  claims_ok ds -> ds !! i = Some dev -> claims_ok (<[i := (claimForDevice registry ds now dev).1]> ds).
Proof.
  intros Hok Hi. unfold claimForDevice. pose proof (findFreeAddress_sound registry ds) as Hf.
  apply (claims_ok_replace ds i dev); [done|done| |]; destruct (findFreeAddress registry ds) as [a|]; try done.
  intros _. right. cbn. destruct Hf as (Ha & Hn & _). split; [done|]. intros d Hd Had Hs. apply Hn. right. eauto.
Qed.

Lemma claim_loop_ok registry now idxs : forall ds,
  claims_ok ds -> claims_ok (claim_loop registry now ds idxs).1.
Proof.
  induction idxs as [|i idxs IH]; intros ds Hok; cbn [claim_loop]; [done|].
  destruct (ds !! i) as [dev|] eqn:Ei; [|auto].
  pose proof (claimForDevice_ok registry ds (now i) i dev Hok Ei) as H.
  destruct (claimForDevice registry ds (now i) dev) as [dev' tx]. cbn in H. specialize (IH _ H).
  now destruct (claim_loop registry now (<[i := dev']> ds) idxs).
Qed.

(** What one bus claim does: the first active device at the claimed address, if
    any, and its response. *)
Definition claim_response (registry : DeviceRegistry) (now : time) (name : Z) (ds : list VirtualDevice)
    (dev : VirtualDevice) : VirtualDevice * list TxRequest * bool :=
  if cfg_NAME (vd_cfg dev) =? name then
    (match vd_state dev with
     | ClaimInProgress => mkVirtualDevice (vd_cfg dev) ClaimHeld (vd_source dev) (vd_readyAt dev)
     | _ => dev end, [], true)
  else if cfg_NAME (vd_cfg dev) <? name then (dev, [sendAddressClaim dev (vd_source dev)], false)
  else let '(dev', tx) := claimForDevice registry ds now dev in (dev', [tx], false).

Lemma bus_claim_loop_spec registry now source name rest : forall before,
  (forall d, d ∈ before -> active d = true -> vd_source d <> source) ->
  let r := bus_claim_loop registry now source name before rest in
  (r = (before ++ rest, [], false) /\
   forall d, d ∈ before ++ rest -> active d = true -> vd_source d <> source) \/
  (exists i dev dev' txs b, (before ++ rest) !! i = Some dev /\ active dev = true /\ vd_source dev = source /\
     claim_response registry now name (before ++ rest) dev = (dev', txs, b) /\
     r = (<[i := dev']> (before ++ rest), txs, b)).
Proof.
  induction rest as [|dev rest IH]; intros before Hb; cbn [bus_claim_loop].
  { left. now rewrite app_nil_r. }
  assert (Hskip : (active dev = true -> vd_source dev <> source) ->
    forall d, d ∈ before ++ [dev] -> active d = true -> vd_source d <> source).
  { intros Hd d [H| ->%list_elem_of_singleton]%elem_of_app; auto. }
  assert (Hmid : (before ++ dev :: rest) !! length before = Some dev) by now apply list_lookup_middle.
  assert (Hins : forall dev', before ++ dev' :: rest = <[length before := dev']> (before ++ dev :: rest)).
  { intros dev'. now rewrite insert_app_r_alt, Nat.sub_diag by lia. }
  destruct (active dev) eqn:Ea; cbn [negb].
  2:{ specialize (IH (before ++ [dev])). rewrite <- app_assoc in IH. apply IH, Hskip. done. }
  destruct (Z.eqb_spec (vd_source dev) source) as [Es|Es]; cbn [negb].
  2:{ specialize (IH (before ++ [dev])). rewrite <- app_assoc in IH. apply IH, Hskip. done. }
  right. destruct (claim_response registry now name (before ++ dev :: rest) dev) as [[dev' txs] b] eqn:Er.
  exists (length before), dev, dev', txs, b. do 4 (split; [done|]). rewrite <- Hins. revert Er. unfold claim_response.
  destruct (_ =? name); [now intros [= <- <- <-]|]. destruct (_ <? name); [now intros [= <- <- <-]|].
  destruct (claimForDevice _ _ _ _) as [d tx]. now intros [= <- <- <-].
Qed.

Lemma claim_response_ok registry now name ds i dev dev' txs b :
  claims_ok ds -> ds !! i = Some dev -> active dev = true ->
  claim_response registry now name ds dev = (dev', txs, b) -> claims_ok (<[i := dev']> ds).
Proof.
  intros Hok Hi Ha. unfold claim_response. destruct (_ =? name).
  { intros [= <- <- <-]. apply (claims_ok_replace ds i dev); [done|done| |].
    - destruct dev as [c [] s t]; done.
    - intros _. left. split; [done|]. now destruct dev as [c [] s t]. }
  destruct (_ <? name).
  { intros [= <- <- <-]. now rewrite list_insert_id. }
  pose proof (claimForDevice_ok registry ds now i dev Hok Hi) as H.
  destruct (claimForDevice registry ds now dev). now intros [= <- <- <-].
Qed.

(** Every way the manager's devices change. *)
Inductive manager_step : VirtualDeviceManager -> VirtualDeviceManager -> Prop :=
| step_Add c m : manager_step m (Add c m)
| step_Start registry t now m : manager_step m (StartAfterDiscovery registry t now m).1
| step_Heartbeat now m : manager_step m (Heartbeat now m).1
| step_BusClaim registry now source name m :
    manager_step m (HandleBusClaim registry now source name m).1.1.

Lemma HandleBusClaim_ok registry now source name m :
  claims_ok (vdevices m) -> claims_ok (vdevices (HandleBusClaim registry now source name m).1.1).
Proof.
  intros Hok. unfold HandleBusClaim.
  destruct (bus_claim_loop_spec registry now source name (vdevices m) []) as
    [[Heq _]|(i & dev & dev' & txs & b & Hi & Ha & _ & Hr & Heq)];
    [intros d Hd; now apply not_elem_of_nil in Hd|rewrite Heq; done|].
  rewrite Heq. now apply (claim_response_ok _ _ _ _ _ _ _ _ _ Hok Hi Ha Hr).
Qed.

Lemma manager_step_ok m m' : manager_step m m' -> claims_ok (vdevices m) -> claims_ok (vdevices m').
Proof.
  intros [c m0|registry t now m0|now m0|registry now source name m0] Hok.
  - destruct Hok as [Hr Hn Hd]. cbn [Add set_vdevices vdevices]. split.
    + intros d [H| ->%list_elem_of_singleton]%elem_of_app; [auto|done].
    + intros d [H| ->%list_elem_of_singleton]%elem_of_app; [auto|done].
    + intros i j d1 d2 H1 H2 A1 A2. apply lookup_snoc_Some in H1 as [[? H1]|[_ <-]]; [|done].
      apply lookup_snoc_Some in H2 as [[? H2]|[_ <-]]; [|done]. now apply (Hd i j d1 d2).
  - unfold StartAfterDiscovery.
    pose proof (claim_loop_ok registry now (seq 0 (length (vdevices m0))) _ Hok) as H.
    now destruct (claim_loop _ _ _ _).
  - unfold Heartbeat. now destruct (_ && _).
  - now apply HandleBusClaim_ok.
Qed.

(** In every reachable manager, devices that hold or are claiming an address
    have pairwise distinct addresses within 0..252, and a device out of addresses
    sits at 254. *)
Theorem manager_claims_ok claim product m :
  rtc manager_step (NewVirtualDeviceManager claim product) m -> claims_ok (vdevices m).
Proof.
  intros H. assert (H0 : claims_ok (vdevices (NewVirtualDeviceManager claim product))).
  { split; cbn; intros *; rewrite ?lookup_nil, ?elem_of_nil; done. }
  revert H0. induction H as [|m1 m2 m3 Hs _ IH]; [done|]. intros H1. apply IH. now apply (manager_step_ok m1).
Qed.

(** The outcome of a bus claim (source, name) on a well-formed manager.  No
    active device at that address: nothing happens.  Otherwise exactly the one
    device there responds, no other device changes, and: its own NAME is an echo,
    which makes it held and is reported; a higher foreign NAME is answered by
    re-asserting the claim; a lower one makes the device leave for the highest
    address in use by nobody, claiming it there, or give up at 254 when all
    addresses are in use. *)
Theorem HandleBusClaim_spec registry now source name m :
  claims_ok (vdevices m) ->
  let '(m', txs, handled) := HandleBusClaim registry now source name m in
  (m' = m /\ txs = [] /\ handled = false /\
   forall d, d ∈ vdevices m -> active d = true -> vd_source d <> source) \/
  (exists i dev dev', vdevices m !! i = Some dev /\ active dev = true /\ vd_source dev = source /\
    vdevices m' = <[i := dev']> (vdevices m) /\ vd_cfg dev' = vd_cfg dev /\
    (cfg_NAME (vd_cfg dev) = name ->
       vd_state dev' = ClaimHeld /\ vd_source dev' = source /\ txs = [] /\ handled = true) /\
    (cfg_NAME (vd_cfg dev) < name ->
       dev' = dev /\ txs = [sendAddressClaim dev source] /\ handled = false) /\
    (name < cfg_NAME (vd_cfg dev) ->
       handled = false /\ txs = [sendAddressClaim dev (vd_source dev')] /\
       ((vd_state dev' = ClaimInProgress /\ vd_source dev' <> source /\ 0 <= vd_source dev' <= 252 /\
         ~ in_use registry (vdevices m) (vd_source dev') /\ vd_readyAt dev' = now + 250 * millisecond) \/
        (vd_state dev' = ClaimCannotClaim /\ vd_source dev' = 254 /\
         forall a, 0 <= a <= 252 -> in_use registry (vdevices m) a)))).
Proof.
  intros Hok. unfold HandleBusClaim.
  destruct (bus_claim_loop_spec registry now source name (vdevices m) []) as
    [[Heq Hno]|(i & dev & dev' & txs & b & Hi & Ha & Hs & Hr & Heq)];
    [intros d Hd; now apply not_elem_of_nil in Hd|rewrite Heq; left; split; [now destruct m|done]|].
  rewrite Heq. right. cbn [app] in *. exists i, dev, dev'. split; [done|]. split; [done|]. split; [done|]. split; [done|].
  revert Hr. unfold claim_response. destruct (Z.eqb_spec (cfg_NAME (vd_cfg dev)) name) as [En|En].
  { intros [= <- <- <-]. destruct dev as [c [] s t]; cbn in *; try done; repeat split; (done || lia). }
  destruct (Z.ltb_spec (cfg_NAME (vd_cfg dev)) name).
  { intros [= <- <- <-]. subst source. repeat split; (done || lia). }
  unfold claimForDevice. pose proof (findFreeAddress_sound registry (vdevices m)) as Hf.
  destruct (findFreeAddress registry (vdevices m)) as [a|]; intros [= <- <- <-]; cbn;
    (split; [done|]; split; [lia|]; split; [lia|]); intros _; (split; [done|]; split; [done|]).
  - left. destruct Hf as (Hr & Hn & _). split; [done|]. split; [|done]. intros ->. apply Hn. right.
    exists dev. split; [now apply list_elem_of_lookup_2 in Hi|done].
  - right. done.
Qed.

(** * A concrete manager *)

Definition demo_cfg (name : Z) : VirtualDeviceConfig :=
  mkVirtualDeviceConfig name (mkVirtualProductInfo "lplex" "1.0" "A" "1" 42).
Definition start_manager : VirtualDeviceManager :=
  Add (demo_cfg 100) (Add (demo_cfg 200) (NewVirtualDeviceManager 0 0)).
(** After discovery: devices at 252 and 251, the first one's claim echoed. *)
Definition started_manager : VirtualDeviceManager :=
  (HandleBusClaim demo_registry 6000 252 200
    (StartAfterDiscovery demo_registry 5000 (fun _ => 5000) start_manager).1).1.1.

Lemma started_steps : rtc manager_step (NewVirtualDeviceManager 0 0) started_manager.
Proof.
  eapply rtc_l; [apply (step_Add (demo_cfg 200))|]. eapply rtc_l; [apply (step_Add (demo_cfg 100))|].
  eapply rtc_l; [apply (step_Start demo_registry 5000 (fun _ => 5000))|].
  apply rtc_once. apply (step_BusClaim demo_registry 6000 252 200).
Qed.

Lemma manager_claims_ok_witness :
  map vd_source (vdevices started_manager) = [252; 251] /\
  map vd_state (vdevices started_manager) = [ClaimHeld; ClaimInProgress] /\
  claims_ok (vdevices started_manager).
Proof.
  split; [vm_compute; reflexivity|]. split; [vm_compute; reflexivity|].
  exact (manager_claims_ok 0 0 started_manager started_steps).
Defined.

Lemma started_ok : claims_ok (vdevices started_manager).
Proof.
  apply HandleBusClaim_ok. apply (manager_step_ok start_manager); [apply step_Start|].
  apply (manager_step_ok (Add (demo_cfg 200) (NewVirtualDeviceManager 0 0))); [apply step_Add|].
  apply (manager_step_ok (NewVirtualDeviceManager 0 0)); [apply step_Add|].
  split; cbn; intros *; rewrite ?lookup_nil, ?elem_of_nil; done.
Qed.

Definition started_devices : list VirtualDevice := Eval vm_compute in vdevices started_manager.
Lemma started_devices_eq : vdevices started_manager = started_devices.
Proof. vm_compute. reflexivity. Qed.

(** A lower NAME takes 252: the first device relocates to 250. *)
Lemma HandleBusClaim_spec_witness :
  map vd_source (vdevices (HandleBusClaim demo_registry 7000 252 150 started_manager).1.1) = [250; 251] /\
  exists i dev dev', vdevices started_manager !! i = Some dev /\ vd_source dev = 252 /\
    vdevices (HandleBusClaim demo_registry 7000 252 150 started_manager).1.1 =
      <[i := dev']> (vdevices started_manager).
Proof.
  split; [vm_compute; reflexivity|].
  pose proof (HandleBusClaim_spec demo_registry 7000 252 150 started_manager started_ok) as H.
  destruct (HandleBusClaim demo_registry 7000 252 150 started_manager) as [[m' txs] handled].
  destruct H as [(_ & _ & _ & Hno)|(i & dev & dev' & Hi & _ & Hs & Hm & _)].
  - exfalso. rewrite started_devices_eq in Hno. eapply Hno; [left|reflexivity|reflexivity].
  - exists i, dev, dev'. auto.
Defined.
