(* ===== verification/Ring.v ===== *)
(** The broker's ring buffer: the [ring], [ringMask], [head] and [tail] fields of
    [Broker] in [broker.go], the append block of [handleFrame], [readEntry] and
    [ringRange].

    The ring implements an append-only log of which the last entries can be read;
    in replica mode frames are placed at the sequence numbers they carry. *)

From S2P Require Import Prelude CanId.

(** [frameJSON]: what is serialized for clients, as data. *)
Record frameJSON := mkFrameJSON {
  fj_Seq : Z; fj_Ts : time; fj_Bus : string; fj_Prio : Z; fj_PGN : Z; fj_Src : Z; fj_Dst : Z;
  fj_Data : string
}.

Record ringEntry := mkRingEntry {
  re_Seq : Z;
  re_Timestamp : time;
  re_Header : CANHeader;
  re_Bus : string;
  re_RawData : list Z;
  re_JSON : frameJSON
}.

(** The zero [ringEntry]. *)
Definition zero_entry : ringEntry :=
  mkRingEntry 0 0 (mkCANHeader 0 0 0 0) "" [] (mkFrameJSON 0 0 "" 0 0 0 0 "").

Record Ring := mkRing { ring : list ringEntry; ringMask : Z; head : Z; tail : Z }.

(** The ring part of [NewBroker]; [None] is its panic. *)
Definition new_ring (ringSize initialHead : Z) : option Ring :=
  let ringSize := if ringSize =? 0 then 65536 else ringSize in
  if negb (Z.land ringSize (ringSize - 1) =? 0) then None
  else
    let head := if 0 <? initialHead then initialHead else 1 in
    Some (mkRing (replicate (Z.to_nat ringSize) zero_entry) (ringSize - 1) head head).

(** "Advance tail if ring is full". *)
Definition advance_tail (r : Ring) : Ring :=
  if u64 (ringMask r + 1) <? u64 (head r - tail r)
  then mkRing (ring r) (ringMask r) (head r) (u64 (head r - u64 (ringMask r + 1)))
  else r.

(** The append block in live mode; the entry's sequence number is [head]. *)
Definition ring_append (entry : Z -> ringEntry) (r : Ring) : Ring :=
  let idx := Z.land (head r) (ringMask r) in
  advance_tail (mkRing (<[Z.to_nat idx := entry (head r)]> (ring r)) (ringMask r) (u64 (head r + 1)) (tail r)).

(** The append block in replica mode, at the frame's own [seq]. *)
Definition ring_put (seq : Z) (entry : Z -> ringEntry) (r : Ring) : Ring :=
  let idx := Z.land seq (ringMask r) in
  advance_tail (mkRing (<[Z.to_nat idx := entry seq]> (ring r)) (ringMask r)
    (if head r <? u64 (seq + 1) then u64 (seq + 1) else head r) (tail r)).

Definition readEntry (seq : Z) (r : Ring) : option ringEntry :=
  if (seq <? tail r) || (head r <=? seq) then None
  else
    let idx := Z.land seq (ringMask r) in
    match ring r !! Z.to_nat idx with
    | Some entry => if re_Seq entry =? seq then Some entry else None
    | None => None
    end.

Definition ringRange (r : Ring) : Z * Z := (tail r, head r).

(** * The ring as a log *)

(** [2 ^ k] slots. *)
Definition ring_sized (k : Z) (r : Ring) : Prop :=
  0 <= k < 63 /\ ringMask r = 2 ^ k - 1 /\ Z.of_nat (length (ring r)) = 2 ^ k.

Lemma ring_slot k r seq :
  ring_sized k r -> Z.land seq (ringMask r) = seq mod 2 ^ k /\
  (Z.to_nat (seq mod 2 ^ k) < length (ring r))%nat.
Proof.
  intros (Hk & Hm & Hl). rewrite Hm, Z.sub_1_r, <- Z.ones_equiv, Z.land_ones by lia.
  split; [done|]. pose proof (Z.mod_pos_bound seq (2 ^ k)). lia.
Qed.

Lemma slot_inj k a b :
  0 <= k -> a mod 2 ^ k = b mod 2 ^ k -> Z.abs (a - b) < 2 ^ k -> a = b.
Proof.
  intros Hk Hm Hd. pose proof (Z.div_mod a (2 ^ k)). pose proof (Z.div_mod b (2 ^ k)).
  assert (H2 : 0 < 2 ^ k) by lia.
  assert (a - b = 2 ^ k * (a / 2 ^ k - b / 2 ^ k)) by lia.
  assert (a / 2 ^ k - b / 2 ^ k = 0) by nia. lia.
Qed.

(** The ring holds the log [h0, h0+1, ...] of [entries]: every entry carries its
    number, [tail] trails by at most the capacity, and the slots from [tail] on
    hold the last entries. *)
Record ring_log (k h0 : Z) (entries : list ringEntry) (r : Ring) : Prop := {
  rl_sized : ring_sized k r;
  rl_base : 0 < h0;
  rl_bound : head r < 2 ^ 64;
  rl_head : head r = h0 + Z.of_nat (length entries);
  rl_tail : tail r = Z.max h0 (head r - 2 ^ k);
  rl_seq : forall i e, entries !! i = Some e -> re_Seq e = h0 + Z.of_nat i;
  rl_slot : forall i e, entries !! i = Some e -> tail r <= h0 + Z.of_nat i ->
    ring r !! Z.to_nat ((h0 + Z.of_nat i) mod 2 ^ k) = Some e
}.

Lemma pow_lt_64 k : 0 <= k < 63 -> 0 < 2 ^ k < 2 ^ 63.
Proof. intros. split; [lia|]. apply Z.pow_lt_mono_r; lia. Qed.

Lemma advance_tail_lookup r : ring (advance_tail r) = ring r /\ head (advance_tail r) = head r /\
  ringMask (advance_tail r) = ringMask r.
Proof. unfold advance_tail. now destruct (_ <? _). Qed.

Lemma advance_tail_max k r :
  0 <= k < 63 -> ringMask r = 2 ^ k - 1 -> 0 <= tail r <= head r -> head r < 2 ^ 64 ->
  tail (advance_tail r) = Z.max (tail r) (head r - 2 ^ k).
Proof.
  intros Hk Hm Ht Hh. pose proof (pow_lt_64 k Hk). unfold advance_tail. rewrite Hm.
  replace (2 ^ k - 1 + 1) with (2 ^ k) by lia.
  rewrite (wrap_small 64 (2 ^ k)) by lia. rewrite (wrap_small 64 (head r - tail r)) by lia.
  destruct (Z.ltb_spec (2 ^ k) (head r - tail r)); cbn [tail]; [|lia].
  rewrite wrap_small by lia. lia.
Qed.

Lemma ring_append_log k h0 entries r entry :
  ring_log k h0 entries r -> head r + 1 < 2 ^ 64 -> re_Seq (entry (head r)) = head r ->
  ring_log k h0 (entries ++ [entry (head r)]) (ring_append entry r).
Proof.
  intros [Hs Hb Hb64 Hh Ht Hseq Hslot] Hbound Hse. pose proof Hs as (Hk & Hm & Hl).
  destruct (ring_slot k r (head r) Hs) as [Hidx Hlt]. pose proof (pow_lt_64 k Hk).
  unfold ring_append. rewrite Hidx. rewrite (wrap_small 64 (head r + 1)) by lia.
  set (r1 := mkRing _ _ _ _). destruct (advance_tail_lookup r1) as (Er & Eh & Em).
  assert (Et : tail (advance_tail r1) = Z.max (tail r) (head r + 1 - 2 ^ k)).
  { apply (advance_tail_max k r1); cbn; lia. }
  constructor; rewrite ?Er, ?Eh, ?Et; cbn [r1 ring head].
  - split; [done|]. rewrite Em, Er. cbn [r1 ring ringMask]. now rewrite length_insert.
  - done.
  - lia.
  - rewrite length_app. cbn. lia.
  - lia.
  - intros i e [Hi|[Hi <-]]%lookup_snoc_Some; [now apply Hseq|]. lia.
  - intros i e [Hi|[Hi <-]]%lookup_snoc_Some Hti.
    + rewrite list_lookup_insert_ne; [apply Hslot; [apply Hi|lia]|].
      destruct Hi as [Hi _]. intros Heq. apply Z2Nat.inj in Heq; [|apply Z.mod_pos_bound; lia..].
      apply slot_inj in Heq; lia.
    + subst i. rewrite <- Hh. now apply list_lookup_insert_eq.
Qed.

Lemma readEntry_log k h0 entries r seq :
  ring_log k h0 entries r ->
  readEntry seq r = if (tail r <=? seq) && (seq <? head r) then entries !! Z.to_nat (seq - h0) else None.
Proof.
  intros [Hs Hb Hb64 Hh Ht Hseq Hslot]. unfold readEntry.
  destruct (Z.ltb_spec seq (tail r)), (Z.leb_spec (head r) seq), (Z.leb_spec (tail r) seq),
    (Z.ltb_spec seq (head r)); cbn [orb andb]; try lia; try done.
  rewrite (proj1 (ring_slot k r seq Hs)).
  destruct (lookup_lt_is_Some_2 entries (Z.to_nat (seq - h0))) as [e He]; [lia|].
  pose proof (Hslot _ _ He) as H'. pose proof (Hseq _ _ He) as Hq.
  replace (h0 + Z.of_nat (Z.to_nat (seq - h0))) with seq in * by lia.
  rewrite H' by lia. now rewrite Hq, Z.eqb_refl, He.
Qed.

Lemma new_ring_log size h0 r k :
  new_ring size h0 = Some r -> 0 <= k < 63 -> (if size =? 0 then 65536 else size) = 2 ^ k -> h0 < 2 ^ 64 ->
  ring_log k (if 0 <? h0 then h0 else 1) [] r.
Proof.
  intros Hr Hk Hs Hh. unfold new_ring in Hr. rewrite Hs in Hr. destruct (negb _); [done|].
  injection Hr as <-. pose proof (pow_lt_64 k Hk). constructor; cbn [head tail ring length].
  - split; [done|]. cbn [ringMask ring]. rewrite length_replicate. split; [done|lia].
  - destruct (Z.ltb_spec 0 h0); lia.
  - destruct (Z.ltb_spec 0 h0); lia.
  - lia.
  - lia.
  - done.
  - done.
Qed.

(** A ring fed with frames. *)
Definition append_all (r : Ring) (fs : list (Z -> ringEntry)) : Ring :=
  foldl (fun r f => ring_append f r) r fs.

(** What each frame becomes, numbered from [h]. *)
Definition numbered (h : Z) (fs : list (Z -> ringEntry)) : list ringEntry :=
  imap (fun i f => f (h + Z.of_nat i)) fs.

Definition carries_seq (f : Z -> ringEntry) : Prop := forall seq, re_Seq (f seq) = seq.

Lemma append_all_log k h0 fs : forall entries r,
  ring_log k h0 entries r -> Forall carries_seq fs -> head r + Z.of_nat (length fs) < 2 ^ 64 ->
  ring_log k h0 (entries ++ numbered (head r) fs) (append_all r fs) /\
  head (append_all r fs) = head r + Z.of_nat (length fs).
Proof.
  induction fs as [|f fs IH]; intros entries r Hl Hc Hb; cbn [append_all foldl].
  { cbn. rewrite app_nil_r, Z.add_0_r. done. }
  apply Forall_cons in Hc as [Hf Hc]. cbn [length] in Hb.
  assert (Hhd : head (ring_append f r) = head r + 1).
  { unfold ring_append. rewrite (proj1 (proj2 (advance_tail_lookup _))). cbn [head].
    apply wrap_small. pose proof (rl_head _ _ _ _ Hl). pose proof (rl_base _ _ _ _ Hl). lia. }
  pose proof (ring_append_log k h0 entries r f Hl ltac:(lia) (Hf _)) as Hl'.
  destruct (IH _ _ Hl' Hc ltac:(lia)) as [IH1 IH2]. fold (append_all (ring_append f r) fs) in *.
  split; [|rewrite IH2; cbn [length]; lia].
  unfold numbered in *. cbn [imap]. rewrite <- app_assoc in IH1. cbn [app] in IH1.
  rewrite Hhd in IH1. replace (head r + Z.of_nat 0) with (head r) by lia.
  erewrite (imap_ext _ (fun i f => f (head r + 1 + Z.of_nat i))); [exact IH1|].
  intros i x _. cbn. f_equal. lia.
Qed.

Lemma ring_sound size h0 r k fs s :
  new_ring size h0 = Some r -> 0 <= k < 63 -> (if size =? 0 then 65536 else size) = 2 ^ k ->
  Forall carries_seq fs -> head r + Z.of_nat (length fs) < 2 ^ 64 ->
  head (append_all r fs) = head r + Z.of_nat (length fs) /\
  readEntry s (append_all r fs) =
    if (head r <=? s) && (head r + Z.of_nat (length fs) - 2 ^ k <=? s)
    then (fun f => f s) <$> fs !! Z.to_nat (s - head r) else None.
Proof.
  intros Hr Hk Hs Hc Hb. assert (Hb0 : h0 < 2 ^ 64).
  { unfold new_ring in Hr. rewrite Hs in Hr. destruct (negb _); [done|]. injection Hr as <-.
    cbn [head] in Hb. destruct (Z.ltb_spec 0 h0); lia. }
  pose proof (new_ring_log size h0 r k Hr Hk Hs Hb0) as Hl.
  assert (Hh0 : head r = (if 0 <? h0 then h0 else 1)) by (rewrite (rl_head _ _ _ _ Hl); cbn; lia).
  destruct (append_all_log k _ fs [] r Hl Hc Hb) as [Hl' Hh']. split; [exact Hh'|]. cbn [app] in Hl'.
  rewrite (readEntry_log _ _ _ _ s Hl'), (rl_tail _ _ _ _ Hl'), Hh', <- Hh0.
  unfold numbered. rewrite list_lookup_imap.
  destruct (Z.leb_spec (head r) s); cbn [andb].
  2:{ destruct (Z.leb_spec (Z.max (head r) (head r + Z.of_nat (length fs) - 2 ^ k)) s); [lia|done]. }
  destruct (Z.leb_spec (head r + Z.of_nat (length fs) - 2 ^ k) s),
    (Z.leb_spec (Z.max (head r) (head r + Z.of_nat (length fs) - 2 ^ k)) s); cbn [andb]; try lia; try done.
  replace (head r + Z.of_nat (Z.to_nat (s - head r))) with s by lia.
  destruct (Z.ltb_spec s (head r + Z.of_nat (length fs))); [done|].
  now rewrite lookup_ge_None_2 by lia.
Qed.

Lemma ring_head_pos size h0 r : new_ring size h0 = Some r -> 1 <= head r.
Proof.
  unfold new_ring. destruct (negb _); [done|]. intros [= <-]. cbn [head]. destruct (Z.ltb_spec 0 h0); lia.
Qed.

(** A fresh live ring of [2^k] slots fed with any frames: sequence numbers are
    consecutive from the initial head, and reading number [s] gives exactly the
    frame appended under [s] if it is among the last [2^k], and nothing
    otherwise. *)
Theorem ring_keeps_last size h0 r k fs s :
  new_ring size h0 = Some r -> 0 <= k < 63 -> (if size =? 0 then 65536 else size) = 2 ^ k ->
  Forall carries_seq fs -> head r + Z.of_nat (length fs) < 2 ^ 64 ->
  head (append_all r fs) = head r + Z.of_nat (length fs) /\
  readEntry s (append_all r fs) =
    if (head r <=? s) && (head r + Z.of_nat (length fs) - 2 ^ k <=? s)
    then (fun f => f s) <$> fs !! Z.to_nat (s - head r) else None.
Proof. apply ring_sound. Qed.

(** * Replica mode *)

Abbreviation put := (Z * (Z -> ringEntry))%type.

Definition put_all (r : Ring) (ps : list put) : Ring := foldl (fun r p => ring_put p.1 p.2 r) r ps.

(** [f] was the last frame put into the slot of [s], under the number [s]. *)
Definition last_in_slot (k s : Z) (f : Z -> ringEntry) (ps : list put) : Prop :=
  exists l1 l2, ps = l1 ++ (s, f) :: l2 /\ forall p, p ∈ l2 -> p.1 mod 2 ^ k <> s mod 2 ^ k.

Record replica_inv (k : Z) (ps : list put) (r : Ring) : Prop := {
  ri_sized : ring_sized k r;
  ri_range : 1 <= tail r <= head r;
  ri_bound : head r < 2 ^ 64;
  ri_slot : forall i e, 0 <= i < 2 ^ k -> ring r !! Z.to_nat i = Some e ->
    e = zero_entry \/ exists s f, s mod 2 ^ k = i /\ last_in_slot k s f ps /\ e = f s /\ re_Seq e = s;
  ri_last : forall s f, last_in_slot k s f ps -> ring r !! Z.to_nat (s mod 2 ^ k) = Some (f s)
}.

Lemma last_in_slot_snoc k s f ps p :
  last_in_slot k s f (ps ++ [p]) <->
  (p = (s, f)) \/ (last_in_slot k s f ps /\ p.1 mod 2 ^ k <> s mod 2 ^ k).
Proof.
  split.
  - intros (l1 & l2 & H & Hl). destruct l2 as [|q l2 _] using rev_ind.
    + apply app_inj_tail in H as [_ ->]. by left.
    + right. rewrite app_comm_cons, app_assoc in H. apply app_inj_tail in H as [-> ->]. split.
      * exists l1, l2. split; [done|]. intros p' Hp'. apply Hl. set_solver.
      * apply Hl. set_solver.
  - intros [->|[(l1 & l2 & -> & Hl) Hp]].
    + exists ps, []. split; [done|]. intros q Hq. now apply not_elem_of_nil in Hq.
    + exists l1, (l2 ++ [p]). split; [now rewrite <- app_assoc|]. set_solver.
Qed.

Lemma ring_put_inv k ps r seq f :
  replica_inv k ps r -> 0 <= seq -> seq + 1 < 2 ^ 64 -> carries_seq f ->
  replica_inv k (ps ++ [(seq, f)]) (ring_put seq f r).
Proof.
  intros [Hs Ht Hb Hsl Hla] H0 Hseq Hf. pose proof Hs as (Hk & Hm & Hl). pose proof (pow_lt_64 k Hk).
  destruct (ring_slot k r seq Hs) as [Hidx Hlt]. unfold ring_put. rewrite Hidx, (wrap_small 64 (seq + 1)) by lia.
  set (r1 := mkRing _ _ _ _). destruct (advance_tail_lookup r1) as (Er & Eh & Em).
  assert (Hh1 : head r <= head r1 < 2 ^ 64) by (cbn; destruct (Z.ltb_spec (head r) (seq + 1)); lia).
  assert (Et : tail (advance_tail r1) = Z.max (tail r) (head r1 - 2 ^ k)).
  { apply (advance_tail_max k r1); [exact Hk|exact Hm|change (0 <= tail r <= head r1); lia|apply Hh1]. }
  assert (Hpos : 0 <= seq mod 2 ^ k < 2 ^ k) by (apply Z.mod_pos_bound; lia).
  constructor; rewrite ?Er, ?Eh, ?Et.
  - split; [done|]. rewrite Em, Er. cbn [r1 ring ringMask]. now rewrite length_insert.
  - change (tail r1) with (tail r) in *. lia.
  - lia.
  - intros i e Hi. cbn [r1 ring]. intros [(Heq & <- & _)|[Hne He]]%list_lookup_insert_Some.
    + right. exists seq, f. split; [lia|]. split; [apply last_in_slot_snoc; by left|]. split; [done|apply Hf].
    + destruct (Hsl i e Hi He) as [->|(s & g & Hsi & Hg & He' & Hq)]; [by left|]. right. exists s, g.
      split; [done|]. split; [|done]. apply last_in_slot_snoc. right. split; [done|]. cbn. subst i.
      intros Hx. apply Hne. now rewrite Hx.
  - intros s g. cbn [r1 ring]. rewrite last_in_slot_snoc. cbn. intros [[= -> ->]|[Hg Hne]].
    + now apply list_lookup_insert_eq.
    + rewrite list_lookup_insert_ne; [now apply Hla|]. intros Heq. apply Hne.
      apply Z2Nat.inj in Heq; [done|lia|]. apply Z.mod_pos_bound. lia.
Qed.

Definition put_ok (p : put) : Prop := 0 <= p.1 /\ p.1 + 1 < 2 ^ 64 /\ carries_seq p.2.

Lemma put_all_inv k ps : forall ps0 r,
  replica_inv k ps0 r -> Forall put_ok ps -> replica_inv k (ps0 ++ ps) (put_all r ps).
Proof.
  induction ps as [|p ps IH]; intros ps0 r Hi Hp; cbn [put_all foldl]; [now rewrite app_nil_r|].
  apply Forall_cons in Hp as [(H1 & H2 & H3) Hp].
  replace (ps0 ++ p :: ps) with ((ps0 ++ [p]) ++ ps) by now rewrite <- app_assoc.
  apply IH; [|done]. destruct p. now apply ring_put_inv.
Qed.

Lemma new_ring_replica size h0 r k :
  new_ring size h0 = Some r -> 0 <= k < 63 -> (if size =? 0 then 65536 else size) = 2 ^ k -> h0 < 2 ^ 64 ->
  replica_inv k [] r.
Proof.
  intros Hr Hk Hs Hh. pose proof (new_ring_log size h0 r k Hr Hk Hs Hh) as [Hsz Hb Hbd Hhd Htl _ _].
  pose proof (pow_lt_64 k Hk). constructor; [done|lia|done| |].
  - intros i e _ He. left. unfold new_ring in Hr. destruct (negb _); [done|]. injection Hr as <-.
    cbn [ring] in He. now apply lookup_replicate in He as [-> _].
  - intros s f (l1 & l2 & H' & _). now destruct l1.
Qed.

(** A replica ring fed with frames at arbitrary sequence numbers: reading
    number [s] succeeds exactly when [s] lies between tail and head and the last
    frame put into its slot was put under [s], and then gives that frame.  It never
    returns a frame of another number or an older frame of the same number. *)
Theorem replica_read size h0 r k ps s e :
  new_ring size h0 = Some r -> 0 <= k < 63 -> (if size =? 0 then 65536 else size) = 2 ^ k -> h0 < 2 ^ 64 ->
  Forall put_ok ps ->
  readEntry s (put_all r ps) = Some e <->
  tail (put_all r ps) <= s < head (put_all r ps) /\ exists f, last_in_slot k s f ps /\ e = f s.
Proof.
  intros Hr Hk Hs Hh Hp.
  pose proof (put_all_inv k ps [] r (new_ring_replica size h0 r k Hr Hk Hs Hh) Hp) as [Hsz Ht Hb Hsl Hla].
  cbn [app] in *. set (r' := put_all r ps) in *. clearbody r'. unfold readEntry.
  rewrite (proj1 (ring_slot k r' s Hsz)).
  assert (Hpos : 0 <= s mod 2 ^ k < 2 ^ k) by (apply Z.mod_pos_bound; lia). split.
  - destruct (Z.ltb_spec s (tail r')); [done|]. destruct (Z.leb_spec (head r') s); [done|]. cbn [orb].
    destruct (ring r' !! Z.to_nat (s mod 2 ^ k)) as [e'|] eqn:E; [|done].
    destruct (Z.eqb_spec (re_Seq e') s) as [Hq|]; [|done]. intros [= <-]. split; [lia|].
    destruct (Hsl _ _ Hpos E) as [->|(s' & f & Hm & Hf & -> & Hq')]; [cbn in Hq; lia|].
    rewrite Hq' in Hq. subst s'. eauto.
  - intros [Hr' (f & Hf & ->)]. destruct (Z.ltb_spec s (tail r')); [lia|].
    destruct (Z.leb_spec (head r') s); [lia|]. cbn [orb]. rewrite (Hla s f Hf).
    destruct Hf as (l1 & l2 & -> & _). apply Forall_app in Hp as [_ Hp].
    apply Forall_cons in Hp as [(_ & _ & Hc) _]. cbn in Hc. now rewrite (Hc s), Z.eqb_refl.
Qed.

(** * Concrete rings *)

Definition demo_entry (src : Z) (seq : Z) : ringEntry :=
  mkRingEntry seq (1000 + seq) (mkCANHeader 2 127250 src 255) "can0" [src]
    (mkFrameJSON seq (1000 + seq) "can0" 2 127250 src 255 (hex_encode [src])).

Lemma demo_entry_seq src : carries_seq (demo_entry src).
Proof. done. Qed.

Definition ring4 : Ring := Eval vm_compute in default (mkRing [] 0 0 0) (new_ring 4 0).

Lemma ring_keeps_last_witness :
  let fs := map demo_entry [10; 11; 12; 13; 14; 15] in
  new_ring 4 0 = Some ring4 /\
  head (append_all ring4 fs) = 7 /\
  readEntry 3 (append_all ring4 fs) = Some (demo_entry 12 3) /\ readEntry 2 (append_all ring4 fs) = None.
Proof.
  intros fs. split; [reflexivity|].
  assert (Hc : Forall carries_seq fs) by (apply Forall_forall; intros f (z & -> & _)%list_elem_of_fmap; done).
  assert (Hb : head ring4 + Z.of_nat (length fs) < 2 ^ 64) by (cbn; lia).
  destruct (ring_keeps_last 4 0 ring4 2 fs 3 eq_refl ltac:(lia) eq_refl Hc Hb) as [H1 H2].
  destruct (ring_keeps_last 4 0 ring4 2 fs 2 eq_refl ltac:(lia) eq_refl Hc Hb) as [_ H3].
  split; [exact H1|]. split; [exact H2|exact H3].
Defined.

Lemma replica_read_witness :
  let ps := [(5, demo_entry 1); (9, demo_entry 2); (7, demo_entry 3)] in
  readEntry 7 (put_all ring4 ps) = Some (demo_entry 3 7) <->
  tail (put_all ring4 ps) <= 7 < head (put_all ring4 ps) /\ exists f, last_in_slot 2 7 f ps /\ demo_entry 3 7 = f 7.
Proof.
  intros ps. apply (replica_read 4 0 ring4 2 ps 7); [reflexivity|lia|reflexivity|lia|].
  repeat (apply Forall_cons; split; [unfold put_ok; cbn; split; [lia|split; [lia|done]]|]). by apply Forall_nil.
Defined.

(** A synthesized device frame carries sequence number 0; in a replica it takes
    slot 0, and the frame of number 4 that was there can no longer be read. *)
Example seq_zero_overwrites :
  let ps := [(3, demo_entry 1); (4, demo_entry 2); (5, demo_entry 3)] in
  readEntry 4 (put_all ring4 ps) = Some (demo_entry 2 4) /\
  readEntry 4 (put_all ring4 (ps ++ [(0, demo_entry 9)])) = None.
Proof. split; vm_compute; reflexivity. Qed.
