(* ===== verification/Broker.v ===== *)
(** The broker: [broker.go].

    One goroutine handles each received frame in full before the next; its
    handlers are functions on the broker's state.  Bounded channels (transmit
    queue, subscribers, journal) are lists with the Go capacity, and a send that
    would block is dropped as the [select] with [default] does.  [None] is a panic
    of the request engine. *)

From S2P Require Import Prelude CanId Devices Filters Values RequestRules VirtualDevice Ring.

(** * State *)

Record ClientSession := mkClientSession {
  ID : string;
  Cursor : Z;
  BufferTimeout : duration;
  LastActivity : time;
  Filter : option EventFilter
}.

(** What a subscriber's channel carries, before JSON encoding. *)
Inductive sse_event :=
| EvFrame (f : frameJSON)
| EvDevice (d : Device)
| EvDeviceRemoved (bus : string) (src : Z).

Record subscriber := mkSubscriber { sub_ch : list sse_event; sub_filter : option EventFilter }.

(** The part of a [Consumer] the broker touches. *)
Record Consumer := mkConsumer {
  c_cursor : Z;
  c_filter : option resolvedFilter;
  c_notify : bool;
  c_done : bool
}.

(** Subscribers and consumers are keyed by identity (Go: by pointer). *)
Record brokerState := mkBrokerState {
  devices : DeviceRegistry;
  values : ValueStore;
  sessions : gmap string ClientSession;
  subscribers : gmap nat subscriber;
  consumers : gmap nat Consumer
}.

Record counters := mkCounters {
  frameCount : Z;
  lastFrameNano : time;
  journalDrops : Z;
  devicesAdded : Z;
  devicesRemoved : Z
}.

(** The journal channel: its queue and capacity. *)
Record journalChan := mkJournalChan { j_queue : list RxFrame; j_cap : nat }.

Record Broker := mkBroker {
  b_ring : Ring;
  b_state : brokerState;
  b_tx : list TxRequest;
  b_journal : option journalChan;
  b_requests : option Engine;
  b_requestPGNs : option (gset Z);
  b_virtual : option VirtualDeviceManager;
  b_alerts : option (list Z);
  b_counters : counters;
  replicaMode : bool;
  deviceIdleTimeout : duration;
  maxBufferDuration : duration
}.

Definition with_ring (b : Broker) (x : Ring) : Broker :=
  mkBroker x (b_state b) (b_tx b) (b_journal b) (b_requests b) (b_requestPGNs b) (b_virtual b)
    (b_alerts b) (b_counters b) (replicaMode b) (deviceIdleTimeout b) (maxBufferDuration b).
Definition with_state (b : Broker) (x : brokerState) : Broker :=
  mkBroker (b_ring b) x (b_tx b) (b_journal b) (b_requests b) (b_requestPGNs b) (b_virtual b)
    (b_alerts b) (b_counters b) (replicaMode b) (deviceIdleTimeout b) (maxBufferDuration b).
Definition with_tx (b : Broker) (x : list TxRequest) : Broker :=
  mkBroker (b_ring b) (b_state b) x (b_journal b) (b_requests b) (b_requestPGNs b) (b_virtual b)
    (b_alerts b) (b_counters b) (replicaMode b) (deviceIdleTimeout b) (maxBufferDuration b).
Definition with_journal (b : Broker) (x : option journalChan) : Broker :=
  mkBroker (b_ring b) (b_state b) (b_tx b) x (b_requests b) (b_requestPGNs b) (b_virtual b)
    (b_alerts b) (b_counters b) (replicaMode b) (deviceIdleTimeout b) (maxBufferDuration b).
Definition with_requests (b : Broker) (x : option Engine) : Broker :=
  mkBroker (b_ring b) (b_state b) (b_tx b) (b_journal b) x (b_requestPGNs b) (b_virtual b)
    (b_alerts b) (b_counters b) (replicaMode b) (deviceIdleTimeout b) (maxBufferDuration b).
Definition with_requestPGNs (b : Broker) (x : option (gset Z)) : Broker :=
  mkBroker (b_ring b) (b_state b) (b_tx b) (b_journal b) (b_requests b) x (b_virtual b)
    (b_alerts b) (b_counters b) (replicaMode b) (deviceIdleTimeout b) (maxBufferDuration b).
Definition with_virtual (b : Broker) (x : option VirtualDeviceManager) : Broker :=
  mkBroker (b_ring b) (b_state b) (b_tx b) (b_journal b) (b_requests b) (b_requestPGNs b) x
    (b_alerts b) (b_counters b) (replicaMode b) (deviceIdleTimeout b) (maxBufferDuration b).
Definition with_alerts (b : Broker) (x : option (list Z)) : Broker :=
  mkBroker (b_ring b) (b_state b) (b_tx b) (b_journal b) (b_requests b) (b_requestPGNs b) (b_virtual b)
    x (b_counters b) (replicaMode b) (deviceIdleTimeout b) (maxBufferDuration b).
Definition with_counters (b : Broker) (x : counters) : Broker :=
  mkBroker (b_ring b) (b_state b) (b_tx b) (b_journal b) (b_requests b) (b_requestPGNs b) (b_virtual b)
    (b_alerts b) x (replicaMode b) (deviceIdleTimeout b) (maxBufferDuration b).

Definition with_devices (b : Broker) (x : DeviceRegistry) : Broker :=
  with_state b (mkBrokerState x (values (b_state b)) (sessions (b_state b)) (subscribers (b_state b))
                  (consumers (b_state b))).
Definition with_values (b : Broker) (x : ValueStore) : Broker :=
  with_state b (mkBrokerState (devices (b_state b)) x (sessions (b_state b)) (subscribers (b_state b))
                  (consumers (b_state b))).
Definition with_sessions (b : Broker) (x : gmap string ClientSession) : Broker :=
  with_state b (mkBrokerState (devices (b_state b)) (values (b_state b)) x (subscribers (b_state b))
                  (consumers (b_state b))).
Definition with_subscribers (b : Broker) (x : gmap nat subscriber) : Broker :=
  with_state b (mkBrokerState (devices (b_state b)) (values (b_state b)) (sessions (b_state b)) x
                  (consumers (b_state b))).
Definition with_consumers (b : Broker) (x : gmap nat Consumer) : Broker :=
  with_state b (mkBrokerState (devices (b_state b)) (values (b_state b)) (sessions (b_state b))
                  (subscribers (b_state b)) x).

Definition count_added (b : Broker) : Broker :=
  let c := b_counters b in
  with_counters b (mkCounters (frameCount c) (lastFrameNano c) (journalDrops c)
    (u64 (devicesAdded c + 1)) (devicesRemoved c)).
Definition count_removed (b : Broker) : Broker :=
  let c := b_counters b in
  with_counters b (mkCounters (frameCount c) (lastFrameNano c) (journalDrops c)
    (devicesAdded c) (u64 (devicesRemoved c + 1))).

(** * Transmit queue *)

Definition tx_capacity : nat := 64.

(** [QueueTx]: whether the frame was accepted. *)
Definition QueueTx (req : TxRequest) (b : Broker) : Broker * bool :=
  if (length (b_tx b) <? tx_capacity)%nat then (with_tx b (b_tx b ++ [req]), true) else (b, false).

Definition queueTx (req : TxRequest) (b : Broker) : Broker := (QueueTx req b).1.

Definition isoRequestSource (b : Broker) : Z :=
  match b_virtual b with
  | Some m => match ClaimedSource m with Some addr => addr | None => 254 end
  | None => 254
  end.

Definition iso_request (b : Broker) (bus : string) (dst pgn : Z) : TxRequest :=
  mkTxRequest (mkCANHeader 6 59904 (isoRequestSource b) dst)
    [u8 pgn; u8 (Z.shiftr pgn 8); u8 (Z.shiftr pgn 16)] bus.

Definition sendISORequest (bus : string) (dst pgn : Z) (b : Broker) : Broker :=
  queueTx (iso_request b bus dst pgn) b.

(** The exported form reports a full queue. *)
Definition SendISORequest (bus : string) (dst pgn : Z) (b : Broker) : Broker * result string unit :=
  let '(b', ok) := QueueTx (iso_request b bus dst pgn) b in
  (b', if ok then Ok tt else Err "tx queue full"%string).

(** * Request rules *)

Definition refreshRequestPGNs (b : Broker) : Broker :=
  match b_requests b with
  | Some e => with_requestPGNs b (Some (InterestingPGNs e))
  | None => b
  end.

Definition AddRequestRule (r : Rule) (b : Broker) : Broker * result (option rule_error) unit :=
  if replicaMode b then (b, Err None)
  else
    let e := match b_requests b with Some e => e | None => New 0 end in
    let b := with_requests b (Some e) in
    match AddRule r e with
    | Err err => (b, Err (Some err))
    | Ok e' => (refreshRequestPGNs (with_requests b (Some e')), Ok tt)
    end.

Definition deviceViewFrom (d : Device) : DeviceView :=
  mkDeviceView (dev_Bus d) (dev_Source d) (dev_NAMEHex d) (dev_Manufacturer d) (dev_ManufacturerCode d)
    (dev_DeviceClass d) (dev_DeviceFunction d) (dev_DeviceInstance d) (ModelID d) (ProductCode d).

Definition dispatch_one (b : Broker) (r : Request) : Broker :=
  match q_Via r with
  | ViaISORequest => sendISORequest (q_Bus r) (q_Dst r) (q_PGN r) b
  | ViaFrame =>
      let prio := if q_Priority r =? 0 then 6 else q_Priority r in
      queueTx (mkTxRequest (mkCANHeader prio (q_PGN r) (isoRequestSource b) (q_Dst r)) (q_Data r) (q_Bus r)) b
  end.

Definition dispatchRequests (reqs : list Request) (b : Broker) : Broker := foldl dispatch_one b reqs.

(** Run an engine operation and transmit what it asks for. *)
Definition with_engine (op : Engine -> option (Engine * output)) (b : Broker) : option Broker :=
  match b_requests b with
  | None => Some b
  | Some e => '(e', out) ← op e; Some (dispatchRequests (map snd out) (with_requests b (Some e')))
  end.

Definition requestDeviceOnline (now : time) (d : Device) : Broker -> option Broker :=
  with_engine (OnDeviceOnline (deviceViewFrom d) now).

Definition requestTick (ord : nat -> list devKey) (now : time) : Broker -> option Broker :=
  with_engine (RequestRules.Tick ord now).

Definition requestDeviceOffline (bus : string) (src : Z) (b : Broker) : Broker :=
  with_requests b (OnDeviceOffline bus src <$> b_requests b).

(** * Fan-out *)

Definition sub_capacity : nat := 128.

Definition sub_send (ev : sse_event) (s : subscriber) : subscriber :=
  if (length (sub_ch s) <? sub_capacity)%nat then mkSubscriber (sub_ch s ++ [ev]) (sub_filter s) else s.

(** Each subscriber is served independently, so the visiting order of the map
    does not matter. *)
Definition fanOut (bus : string) (header : CANHeader) (data : frameJSON) (b : Broker) : Broker :=
  with_subscribers b ((fun s =>
    if negb (Filters.matches (sub_filter s) bus header (devices (b_state b))) then s
    else sub_send (EvFrame data) s) <$> subscribers (b_state b)).

Definition fanOutDevice (dev : Device) (b : Broker) : Broker :=
  with_subscribers b (sub_send (EvDevice dev) <$> subscribers (b_state b)).

Definition fanOutDeviceRemoved (bus : string) (src : Z) (b : Broker) : Broker :=
  with_subscribers b (sub_send (EvDeviceRemoved bus src) <$> subscribers (b_state b)).

Definition notifyConsumers (b : Broker) : Broker :=
  with_consumers b ((fun c => mkConsumer (c_cursor c) (c_filter c) true (c_done c)) <$> consumers (b_state b)).

(** [Subscribe] (its identity is the key) and its cleanup. *)
Definition Subscribe (id : nat) (filter : option EventFilter) (b : Broker) : Broker :=
  let filter := if IsEmpty filter then None else filter in
  with_subscribers b (<[id := mkSubscriber [] filter]> (subscribers (b_state b))).
Definition Unsubscribe (id : nat) (b : Broker) : Broker :=
  with_subscribers b (delete id (subscribers (b_state b))).

(** * Frames *)

(** What is serialized of a frame under a sequence number. *)
Definition frame_json (frame : RxFrame) (seq : Z) : frameJSON :=
  let h := rx_Header frame in
  mkFrameJSON seq (rx_Timestamp frame) (rx_Bus frame) (Priority h) (PGN h) (Source h) (Destination h)
    (hex_encode (rx_Data frame)).

Definition frame_entry (frame : RxFrame) (seq : Z) : ringEntry :=
  mkRingEntry seq (rx_Timestamp frame) (rx_Header frame) (rx_Bus frame) (rx_Data frame) (frame_json frame seq).

(** Transmit the frames a virtual-device operation sends through [queueTx]. *)
Definition transmit (txs : list TxRequest) (b : Broker) : Broker := foldl (fun b tx => queueTx tx b) b txs.

(** Echo detection and conflict resolution for our virtual devices. *)
Definition virtual_claim (now : time) (src : Z) (data : list Z) (b : Broker) : Broker * bool :=
  match b_virtual b with
  | Some m =>
      if (8 <=? length data)%nat then
        let '(m', txs, ours) := HandleBusClaim (devices (b_state b)) now src (le_val (take 8 data)) m in
        (transmit txs (with_virtual b (Some m')), ours)
      else (b, false)
  | None => (b, false)
  end.

Definition remove_values (bus : string) (src : Z) (b : Broker) : Broker :=
  let vs := values (b_state b) in with_values b (RemoveSource (any_order vs) bus src vs).

(** [case 60928]: [ord] is the order in which the registry is searched. *)
Definition on_address_claim (ord : list deviceKey) (now : time) (frame : RxFrame) (b : Broker) : option Broker :=
  let src := Source (rx_Header frame) in
  let bus := rx_Bus frame in
  let '(b, isOurClaim) := virtual_claim now src (rx_Data frame) b in
  let '(reg, dev, evicted) := HandleAddressClaim ord bus src (rx_Data frame) (devices (b_state b)) in
  let b := with_devices b reg in
  match dev with
  | None => Some b
  | Some dev =>
      let b := count_added b in
      let b := match evicted with
        | Some evictedSrc =>
            requestDeviceOffline bus evictedSrc
              (fanOutDeviceRemoved bus evictedSrc (remove_values bus evictedSrc (count_removed b)))
        | None => b end in
      let b := fanOutDevice dev b in
      b ← requestDeviceOnline now dev b;
      Some (if isOurClaim then
              match m ← b_virtual b; ProductInfoPayload src m with
              | Some prodData => with_devices b (HandleProductInfo bus src prodData (devices (b_state b))).1
              | None => b
              end
            else if negb (replicaMode b) then sendISORequest bus src 126996 b
            else b)
  end.

(** [case 59904]. *)
Definition on_iso_request (frame : RxFrame) (b : Broker) : Broker :=
  match b_virtual b, rx_Data frame with
  | Some m, d0 :: d1 :: d2 :: _ =>
      let reqPGN := Z.lor (Z.lor d0 (Z.shiftl d1 8)) (Z.shiftl d2 16) in
      transmit (HandleISORequest (Destination (rx_Header frame)) reqPGN m) b
  | _, _ => b
  end.

(** [case 126996]. *)
Definition on_product_info (now : time) (frame : RxFrame) (b : Broker) : option Broker :=
  let src := Source (rx_Header frame) in
  let bus := rx_Bus frame in
  let '(reg, dev) := HandleProductInfo bus src (rx_Data frame) (devices (b_state b)) in
  let b := with_devices b reg in
  match dev with
  | None => Some b
  | Some dev => requestDeviceOnline now dev (fanOutDevice dev b)
  end.

(** Statistics, discovery and request rules: everything [handleFrame] does before
    the frame is numbered. *)
Definition discover (ord : DeviceRegistry -> list deviceKey) (now : time) (frame : RxFrame) (b : Broker)
    : option Broker :=
  let src := Source (rx_Header frame) in
  let bus := rx_Bus frame in
  let '(reg, newSource) :=
    RecordPacket bus src (rx_Timestamp frame) (Z.of_nat (length (rx_Data frame))) (devices (b_state b)) in
  let b := with_devices b reg in
  let pgn := PGN (rx_Header frame) in
  if pgn =? 60928 then on_address_claim (ord reg) now frame b
  else if pgn =? 59904 then Some (on_iso_request frame b)
  else if pgn =? 126996 then on_product_info now frame b
  else Some (if newSource && negb (replicaMode b) then sendISORequest bus src 60928 b else b).

Definition react (now : time) (frame : RxFrame) (b : Broker) : option Broker :=
  match b_requestPGNs b with
  | Some s =>
      if bool_decide (PGN (rx_Header frame) ∈ s) then
        with_engine (OnFrame (rx_Bus frame) (Source (rx_Header frame)) (PGN (rx_Header frame))
                       (rx_Data frame) now) b
      else Some b
  | None => Some b
  end.

(** The non-blocking send to the journal writer. *)
Definition journal_frame (frame : RxFrame) (b : Broker) : Broker :=
  match b_journal b with
  | None => b
  | Some ch =>
      if (length (j_queue ch) <? j_cap ch)%nat
      then with_journal b (Some (mkJournalChan (j_queue ch ++ [frame]) (j_cap ch)))
      else let c := b_counters b in
           with_counters b (mkCounters (frameCount c) (lastFrameNano c) (u64 (journalDrops c + 1))
                              (devicesAdded c) (devicesRemoved c))
  end.

Definition set_seq (frame : RxFrame) (seq : Z) : RxFrame :=
  mkRxFrame (rx_Timestamp frame) (rx_Header frame) (rx_Data frame) (rx_Bus frame) seq.

(** Numbering, ring, counters, values, fan-out and journal. *)
Definition publish (frame : RxFrame) (b : Broker) : Broker :=
  let bus := rx_Bus frame in
  let h := rx_Header frame in
  let seq := if replicaMode b then rx_Seq frame else head (b_ring b) in
  let b := with_ring b (if replicaMode b then ring_put seq (frame_entry frame) (b_ring b)
                        else ring_append (frame_entry frame) (b_ring b)) in
  let c := b_counters b in
  let b := with_counters b (mkCounters (u64 (frameCount c + 1)) (rx_Timestamp frame) (journalDrops c)
                              (devicesAdded c) (devicesRemoved c)) in
  let b := with_values b (Record_ bus (Source h) (PGN h) (rx_Timestamp frame) (rx_Data frame) seq
                            (values (b_state b))) in
  let b := fanOut bus h (frame_json frame seq) b in
  journal_frame (set_seq frame seq) (notifyConsumers b).

Definition handleFrame (ord : DeviceRegistry -> list deviceKey) (now : time) (frame : RxFrame) (b : Broker)
    : option Broker :=
  b ← discover ord now frame b; b ← react now frame b; Some (publish frame b).

(** * The ticker *)

Definition expire_one (b : Broker) (key : BusSource) : Broker :=
  let b := count_removed b in
  let b := with_alerts b ((fun l => l ++ [key.2]) <$> b_alerts b) in
  requestDeviceOffline key.1 key.2 (fanOutDeviceRemoved key.1 key.2 (remove_values key.1 key.2 b)).

Definition expireDevices (ord : list deviceKey) (now : time) (b : Broker) : Broker :=
  if deviceIdleTimeout b =? 0 then b
  else
    let '(reg, evicted) := ExpireIdle ord (now - deviceIdleTimeout b) (devices (b_state b)) in
    foldl expire_one (with_devices b reg) evicted.

Definition retryProductInfo (ord : list deviceKey) (b : Broker) : Broker :=
  foldl (fun b bs => sendISORequest bs.1 bs.2 126996 b) b
    (SourcesMissingProductInfo ord (devices (b_state b))).

Definition expireSessions (now : time) (b : Broker) : Broker :=
  with_sessions b (filter (fun kv : string * ClientSession =>
    ~ (BufferTimeout kv.2 < time_Sub now (LastActivity kv.2))) (sessions (b_state b))).

Definition virtual_heartbeat (now : time) (b : Broker) : Broker :=
  match b_virtual b with
  | Some m => let '(m', txs) := Heartbeat now m in transmit txs (with_virtual b (Some m'))
  | None => b
  end.

(** The goroutine that claims the virtual devices' addresses, once its delay has
    passed. *)
Definition virtual_start (t : time) (now : nat -> time) (b : Broker) : Broker :=
  match b_virtual b with
  | Some m => let '(m', txs) := StartAfterDiscovery (devices (b_state b)) t now m in transmit txs (with_virtual b (Some m'))
  | None => b
  end.

(** One round of the 10 s ticker in [Run]; the orders are those of its map loops. *)
Definition on_tick (ord : DeviceRegistry -> list deviceKey) (rord : nat -> list devKey) (now : time)
    (b : Broker) : option Broker :=
  let b := expireSessions now b in
  let b := expireDevices (ord (devices (b_state b))) now b in
  b ← requestTick rord now b;
  let b := if negb (replicaMode b) then retryProductInfo (ord (devices (b_state b))) b else b in
  Some (virtual_heartbeat now b).

(** * Sessions *)

Definition CreateSession (id : string) (bufferTimeout : duration) (filter : option EventFilter) (now : time)
    (b : Broker) : Broker * ClientSession * Z :=
  let bufferTimeout := if maxBufferDuration b <? bufferTimeout then maxBufferDuration b else bufferTimeout in
  let filter := if IsEmpty filter then None else filter in
  let seq := u64 (head (b_ring b) - 1) in
  let s := match sessions (b_state b) !! id with
    | Some s => mkClientSession (ID s) (if bufferTimeout =? 0 then 0 else Cursor s) bufferTimeout now filter
    | None => mkClientSession id 0 bufferTimeout now filter
    end in
  (with_sessions b (<[id := s]> (sessions (b_state b))), s, seq).

Definition GetSession (id : string) (b : Broker) : option ClientSession := sessions (b_state b) !! id.

Definition TouchSession (id : string) (now : time) (b : Broker) : Broker :=
  match sessions (b_state b) !! id with
  | Some s => with_sessions b (<[id := mkClientSession (ID s) (Cursor s) (BufferTimeout s) now (Filter s)]>
                                 (sessions (b_state b)))
  | None => b
  end.

(** [Err id] is [SessionNotFoundError]. *)
Definition AckSession (id : string) (seq : Z) (now : time) (b : Broker) : Broker * result string unit :=
  match sessions (b_state b) !! id with
  | None => (b, Err id)
  | Some s => (with_sessions b (<[id := mkClientSession (ID s) seq (BufferTimeout s) now (Filter s)]>
                                  (sessions (b_state b))), Ok tt)
  end.

Definition CurrentSeq (b : Broker) : Z :=
  if head (b_ring b) =? 0 then 0 else u64 (head (b_ring b) - 1).

(** * Construction and statistics *)

Record BrokerConfig := mkBrokerConfig {
  RingSize : Z;
  MaxBufferDuration : duration;
  ReplicaMode : bool;
  InitialHead : Z;
  DeviceIdleTimeout : duration;
  VirtualDevices : list VirtualDeviceConfig;
  ClaimHeartbeat : duration;
  ProductInfoHeartbeat : duration;
  RequestRules : list Rule;
  RequestGlobalMinInterval : duration
}.

Definition add_rule (e : Engine) (r : Rule) : Engine :=
  match AddRule r e with Ok e' => e' | Err _ => e end.

Definition NewBroker (c : BrokerConfig) : option Broker :=
  r ← new_ring (RingSize c) (InitialHead c);
  let idle := if DeviceIdleTimeout c =? 0 then 5 * minute else DeviceIdleTimeout c in
  let idle := if idle <? 0 then 0 else idle in
  let vdm := if negb (length (VirtualDevices c) =? 0)%nat && negb (ReplicaMode c)
    then Some (foldl (fun m v => VirtualDevice.Add v m)
                 (NewVirtualDeviceManager (ClaimHeartbeat c) (ProductInfoHeartbeat c)) (VirtualDevices c))
    else None in
  let e := if negb (length (RequestRules c) =? 0)%nat && negb (ReplicaMode c)
    then Some (foldl add_rule (New (RequestGlobalMinInterval c)) (RequestRules c)) else None in
  Some (refreshRequestPGNs
    (mkBroker r (mkBrokerState NewDeviceRegistry NewValueStore ∅ ∅ ∅) [] None e None vdm None
       (mkCounters 0 0 0 0 0) (ReplicaMode c) idle
       (if MaxBufferDuration c =? 0 then 5 * minute else MaxBufferDuration c))).

Record BrokerStats := mkBrokerStats {
  FramesTotal : Z;
  LastFrameTime : time;
  RingEntries : Z;
  RingCapacity : Z;
  HeadSeq : Z;
  ActiveSessions : nat;
  ActiveSubscribers : nat;
  ActiveConsumers : nat;
  DeviceCount : nat;
  JournalDrops : Z;
  DevicesAdded : Z;
  DevicesRemoved : Z;
  ConsumerMaxLag : Z
}.

Definition max_lag (head : Z) (cs : list Consumer) : Z :=
  foldl (fun m c => if (c_cursor c <? head) && (m <? u64 (head - c_cursor c)) then u64 (head - c_cursor c) else m)
    0 cs.

(** The number of devices snapshot is the number of registry entries. *)
Definition Stats (b : Broker) : BrokerStats :=
  let r := b_ring b in
  let c := b_counters b in
  let st := b_state b in
  mkBrokerStats (frameCount c) (lastFrameNano c) (u64 (head r - tail r)) (ringMask r + 1) (head r)
    (size (sessions st)) (size (subscribers st)) (size (consumers st)) (size (devices st))
    (journalDrops c) (devicesAdded c) (devicesRemoved c)
    (max_lag (head r) (map snd (map_to_list (consumers st)))).

(** * The broker invariant *)

Definition virtual_ok (b : Broker) : Prop := forall m, b_virtual b = Some m -> claims_ok (vdevices m).
Definition engine_ok (b : Broker) : Prop :=
  forall e, b_requests b = Some e -> engine_safe e /\ b_requestPGNs b = Some (InterestingPGNs e).

(** The registry is well formed, every bounded queue within its capacity, the
    virtual devices' addresses distinct, the request engine safe and its hot-path
    guard current. *)
Record broker_ok (b : Broker) : Prop := {
  bo_registry : registry_ok (devices (b_state b));
  bo_tx : (length (b_tx b) <= tx_capacity)%nat;
  bo_subs : forall i s, subscribers (b_state b) !! i = Some s -> (length (sub_ch s) <= sub_capacity)%nat;
  bo_journal : forall ch, b_journal b = Some ch -> (length (j_queue ch) <= j_cap ch)%nat;
  bo_virtual : virtual_ok b;
  bo_engine : engine_ok b
}.

(** What discovery and request handling leave alone. *)
Record keeps (b b' : Broker) : Prop := {
  kp_ring : b_ring b' = b_ring b;
  kp_journal : b_journal b' = b_journal b;
  kp_replica : replicaMode b' = replicaMode b;
  kp_sessions : sessions (b_state b') = sessions (b_state b);
  kp_consumers : consumers (b_state b') = consumers (b_state b);
  kp_frames : frameCount (b_counters b') = frameCount (b_counters b);
  kp_drops : journalDrops (b_counters b') = journalDrops (b_counters b)
}.

Lemma keeps_refl b : keeps b b.
Proof. done. Qed.
Lemma keeps_trans b1 b2 b3 : keeps b1 b2 -> keeps b2 b3 -> keeps b1 b3.
Proof. intros [] []. constructor; congruence. Qed.

(** Both at once: a step within discovery. *)
Definition step_ok (b b' : Broker) : Prop := (broker_ok b -> broker_ok b') /\ keeps b b'.

Lemma step_refl b : step_ok b b.
Proof. split; [done|apply keeps_refl]. Qed.
Lemma step_trans b1 b2 b3 : step_ok b1 b2 -> step_ok b2 b3 -> step_ok b1 b3.
Proof. intros [H1 K1] [H2 K2]. split; [auto|eapply keeps_trans; eauto]. Qed.

Create HintDb broker.
#[export] Hint Resolve step_refl : broker.

Lemma step_fold {A} (f : Broker -> A -> Broker) l b :
  (forall b a, step_ok b (f b a)) -> step_ok b (foldl f b l).
Proof.
  intros Hf. revert b. induction l as [|a l IH]; intros b; [apply step_refl|]. cbn [foldl].
  eapply step_trans; [apply Hf|apply IH].
Qed.

Lemma queueTx_step req b : step_ok b (queueTx req b).
Proof.
  unfold queueTx, QueueTx. destruct (Nat.ltb_spec (length (b_tx b)) tx_capacity); cbn [fst]; [|apply step_refl].
  split; [|done]. intros []. constructor; try done. cbn. rewrite length_app. cbn. lia.
Qed.

Lemma sendISORequest_step bus dst pgn b : step_ok b (sendISORequest bus dst pgn b).
Proof. apply queueTx_step. Qed.
#[export] Hint Resolve queueTx_step sendISORequest_step : broker.

Lemma transmit_step txs b : step_ok b (transmit txs b).
Proof. apply step_fold. auto with broker. Qed.

Lemma dispatchRequests_step reqs b : step_ok b (dispatchRequests reqs b).
Proof. apply step_fold. intros b' r. unfold dispatch_one. destruct (q_Via r); auto with broker. Qed.
#[export] Hint Resolve transmit_step dispatchRequests_step : broker.

Lemma sub_send_bound ev s :
  (length (sub_ch s) <= sub_capacity)%nat -> (length (sub_ch (sub_send ev s)) <= sub_capacity)%nat.
Proof.
  intros H. unfold sub_send. destruct (Nat.ltb_spec (length (sub_ch s)) sub_capacity); [|done].
  cbn. rewrite length_app. cbn. lia.
Qed.

Lemma fan_step (f : subscriber -> subscriber) b :
  (forall s, (length (sub_ch s) <= sub_capacity)%nat -> (length (sub_ch (f s)) <= sub_capacity)%nat) ->
  step_ok b (with_subscribers b (f <$> subscribers (b_state b))).
Proof.
  intros Hf. split; [|done]. intros []. constructor; try done. cbn. intros i s.
  rewrite lookup_fmap. intros (s0 & Hs & ->)%fmap_Some. apply Hf. eauto.
Qed.

Lemma fanOutDevice_step d b : step_ok b (fanOutDevice d b).
Proof. apply fan_step. intros; now apply sub_send_bound. Qed.
Lemma fanOutDeviceRemoved_step bus src b : step_ok b (fanOutDeviceRemoved bus src b).
Proof. apply fan_step. intros; now apply sub_send_bound. Qed.
Lemma fanOut_step bus h j b : step_ok b (fanOut bus h j b).
Proof. apply fan_step. intros s H. destruct (negb _); [done|now apply sub_send_bound]. Qed.
Lemma count_added_step b : step_ok b (count_added b).
Proof. split; [|done]. intros []. now constructor. Qed.
Lemma count_removed_step b : step_ok b (count_removed b).
Proof. split; [|done]. intros []. now constructor. Qed.
Lemma remove_values_step bus src b : step_ok b (remove_values bus src b).
Proof. split; [|done]. intros []. now constructor. Qed.
Lemma with_alerts_step b x : step_ok b (with_alerts b x).
Proof. split; [|done]. intros []. now constructor. Qed.
#[export] Hint Resolve fanOutDevice_step fanOutDeviceRemoved_step fanOut_step count_added_step
  count_removed_step remove_values_step with_alerts_step : broker.

Lemma with_devices_step b reg :
  (registry_ok (devices (b_state b)) -> registry_ok reg) -> step_ok b (with_devices b reg).
Proof. intros Hr. split; [|done]. intros []. constructor; auto. Qed.

Lemma with_virtual_step b m :
  (virtual_ok b -> claims_ok (vdevices m)) -> step_ok b (with_virtual b (Some m)).
Proof. intros Hm. split; [|done]. intros []. constructor; auto. intros m' [= <-]. auto. Qed.

Lemma with_requests_step b e e' :
  b_requests b = Some e -> (engine_safe e -> engine_safe e') -> same_rules e e' ->
  step_ok b (with_requests b (Some e')).
Proof.
  intros He Hs [Hr Hi]. split; [|done]. intros []. constructor; auto. intros e1 [= <-].
  destruct (bo_engine0 e He) as [H1 H2]. split; [auto|]. cbn. rewrite H2. unfold InterestingPGNs. now rewrite Hr.
Qed.

Lemma requestDeviceOffline_step bus src b : step_ok b (requestDeviceOffline bus src b).
Proof.
  unfold requestDeviceOffline. destruct (b_requests b) as [e|] eqn:E; cbn.
  - apply (with_requests_step b e); [done|now apply engine_safe_same|done].
  - split; [|now destruct b]. intros []. constructor; auto. intros e. done.
Qed.
#[export] Hint Resolve requestDeviceOffline_step : broker.

(** Peel the operations off the resulting state, the last one first. *)
Ltac broker_steps :=
  repeat match goal with
  | |- step_ok ?b ?b => apply step_refl
  | |- step_ok _ (fanOutDevice _ _) => eapply step_trans; [|apply fanOutDevice_step]
  | |- step_ok _ (fanOutDeviceRemoved _ _ _) => eapply step_trans; [|apply fanOutDeviceRemoved_step]
  | |- step_ok _ (requestDeviceOffline _ _ _) => eapply step_trans; [|apply requestDeviceOffline_step]
  | |- step_ok _ (remove_values _ _ _) => eapply step_trans; [|apply remove_values_step]
  | |- step_ok _ (count_removed _) => eapply step_trans; [|apply count_removed_step]
  | |- step_ok _ (count_added _) => eapply step_trans; [|apply count_added_step]
  | |- step_ok _ (with_alerts _ _) => eapply step_trans; [|apply with_alerts_step]
  end.

(** An engine operation cannot panic on a well-formed broker. *)
Lemma with_engine_step op b :
  (forall e, engine_safe e -> exists e' out, op e = Some (e', out) /\ engine_safe e' /\ same_rules e e') ->
  broker_ok b -> exists b', with_engine op b = Some b' /\ step_ok b b'.
Proof.
  intros Hop Hb. unfold with_engine. destruct (b_requests b) as [e|] eqn:E; [|eexists; split; [done|apply step_refl]].
  destruct (Hop e (proj1 (bo_engine _ Hb e E))) as (e' & out & -> & Hs & Hr). cbn.
  eexists. split; [done|]. eapply step_trans; [now apply (with_requests_step b e e')|auto with broker].
Qed.

Lemma engine_op_total op : match op with OpAddRule _ => False | _ => True end -> forall e, engine_safe e ->
  exists e' out, op_step e op = Some (e', out) /\ engine_safe e' /\ same_rules e e'.
Proof.
  intros Hop e He. destruct (op_step_total e op He ltac:(now destruct op)) as (e' & out & H & Hs).
  exists e', out. split; [done|]. split; [done|]. pose proof (op_step_rules _ _ _ _ H). now destruct op.
Qed.

Lemma requestDeviceOnline_step now d b :
  broker_ok b -> exists b', requestDeviceOnline now d b = Some b' /\ step_ok b b'.
Proof. apply with_engine_step. exact (engine_op_total (OpOnline (deviceViewFrom d) now) I). Qed.

Lemma requestTick_step ord now b :
  broker_ok b -> exists b', requestTick ord now b = Some b' /\ step_ok b b'.
Proof. apply with_engine_step. exact (engine_op_total (OpTick ord now) I). Qed.

Lemma react_step now frame b :
  broker_ok b -> exists b', react now frame b = Some b' /\ step_ok b b'.
Proof.
  intros Hb. unfold react. destruct (b_requestPGNs b); [|eexists; split; [done|apply step_refl]].
  case_bool_decide; [|eexists; split; [done|apply step_refl]]. revert Hb. apply with_engine_step.
  exact (engine_op_total (OpFrame _ _ _ _ now) I).
Qed.

Lemma virtual_claim_step now src data b : step_ok b (virtual_claim now src data b).1.
Proof.
  unfold virtual_claim. destruct (b_virtual b) as [m|] eqn:E; [|apply step_refl].
  destruct (_ <=? _)%nat; [|apply step_refl].
  pose proof (HandleBusClaim_ok (devices (b_state b)) now src (le_val (take 8 data)) m) as H.
  destruct (HandleBusClaim _ _ _ _ m) as [[m' txs] ours]. cbn [fst] in *.
  eapply step_trans; [|apply transmit_step]. apply with_virtual_step. eauto.
Qed.

Definition oracle_ok (ord : DeviceRegistry -> list deviceKey) : Prop := forall r, ranges (ord r) r.

Lemma product_payload_ok info : bytes_ok (product_payload info).
Proof.
  assert (He : forall n s, bytes_ok (encodeFixedString n s)).
  { intros n s. unfold encodeFixedString. apply Forall_app. split; [apply Forall_take, bytes_of_string_ok|].
    apply Forall_replicate. unfold byte_ok. lia. }
  unfold product_payload, bytes_ok. rewrite !Forall_app. split_and!; try apply le_bytes_ok; try apply He.
  apply bytes_ok_dec. reflexivity.
Qed.

Lemma ProductInfoPayload_ok src m d : ProductInfoPayload src m = Some d -> bytes_ok d.
Proof. unfold ProductInfoPayload. intros (dev & _ & ->)%fmap_Some. apply product_payload_ok. Qed.

Lemma on_address_claim_step ord now frame b :
  broker_ok b -> ranges ord (devices (b_state b)) -> bytes_ok (rx_Data frame) ->
  exists b', on_address_claim ord now frame b = Some b' /\ step_ok b b'.
Proof.
  intros Hb Hr Hbytes. unfold on_address_claim.
  pose proof (virtual_claim_step now (Source (rx_Header frame)) (rx_Data frame) b) as Hv.
  assert (Hdev : devices (b_state (virtual_claim now (Source (rx_Header frame)) (rx_Data frame) b).1)
                 = devices (b_state b)).
  { clear. unfold virtual_claim. destruct (b_virtual b) as [m|]; [|done]. destruct (_ <=? _)%nat; [|done].
    destruct (HandleBusClaim _ _ _ _ m) as [[m' txs] ours]. cbn [fst]. unfold transmit.
    change (devices (b_state b)) with (devices (b_state (with_virtual b (Some m')))).
    generalize (with_virtual b (Some m')). induction txs as [|tx txs IH]; intros b0; [done|].
    cbn [foldl]. rewrite IH. unfold queueTx, QueueTx. now destruct (_ <? _)%nat. }
  destruct (virtual_claim now (Source (rx_Header frame)) (rx_Data frame) b) as [b1 ours]. cbn [fst] in *.
  pose proof (HandleAddressClaim_ok ord (rx_Bus frame) (Source (rx_Header frame)) (rx_Data frame)
    (devices (b_state b1))) as Hreg. rewrite Hdev in *.
  destruct (HandleAddressClaim ord _ _ _ _) as [[reg dev] evicted]. cbn [fst] in Hreg.
  assert (H2 : step_ok b (with_devices b1 reg)).
  { eapply step_trans; [exact Hv|]. apply with_devices_step. rewrite Hdev. auto. }
  destruct dev as [dev|]; [|eauto].
  set (b3 := fanOutDevice dev _).
  assert (H3 : step_ok b b3).
  { eapply step_trans; [exact H2|]. unfold b3. destruct evicted; broker_steps. }
  destruct (requestDeviceOnline_step now dev b3 (proj1 H3 Hb)) as (b4 & Heq & H4). rewrite Heq. cbn.
  eexists. split; [done|]. eapply step_trans; [exact H3|]. eapply step_trans; [exact H4|].
  destruct ours; [|destruct (negb _); auto with broker].
  destruct (b_virtual b4) as [m|]; cbn; [|apply step_refl].
  destruct (ProductInfoPayload _ m) as [d|] eqn:Ep; [|apply step_refl].
  apply with_devices_step. intros Hreg4. apply HandleProductInfo_ok; [done|]. now apply (ProductInfoPayload_ok (Source (rx_Header frame)) m).
Qed.

Lemma discover_step ord now frame b :
  broker_ok b -> oracle_ok ord -> bytes_ok (rx_Data frame) ->
  exists b', discover ord now frame b = Some b' /\ step_ok b b'.
Proof.
  intros Hb Hord Hbytes. unfold discover.
  pose proof (RecordPacket_ok (rx_Bus frame) (Source (rx_Header frame)) (rx_Timestamp frame)
    (Z.of_nat (length (rx_Data frame))) (devices (b_state b))) as Hreg.
  destruct (RecordPacket _ _ _ _ _) as [reg newSource]. cbn [fst] in Hreg.
  assert (H1 : step_ok b (with_devices b reg)) by now apply with_devices_step.
  pose proof (proj1 H1 Hb) as Hb1. destruct (_ =? 60928).
  { destruct (on_address_claim_step (ord reg) now frame (with_devices b reg) Hb1 (Hord reg) Hbytes) as (b' & H & Hs).
    exists b'. split; [done|]. eapply step_trans; eassumption. }
  destruct (_ =? 59904).
  { eexists. split; [done|]. eapply step_trans; [exact H1|]. unfold on_iso_request.
    repeat case_match; auto with broker. }
  destruct (_ =? 126996).
  { unfold on_product_info. pose proof (HandleProductInfo_ok (rx_Bus frame) (Source (rx_Header frame))
      (rx_Data frame) (devices (b_state (with_devices b reg)))) as Hp.
    destruct (HandleProductInfo _ _ _ _) as [reg' dev]. cbn [fst] in Hp.
    assert (H2 : step_ok b (with_devices (with_devices b reg) reg')).
    { eapply step_trans; [exact H1|]. apply with_devices_step. auto. }
    destruct dev as [dev|]; [|eauto].
    assert (H3 : step_ok b (fanOutDevice dev (with_devices (with_devices b reg) reg'))).
    { eapply step_trans; [exact H2|]. auto with broker. }
    destruct (requestDeviceOnline_step now dev _ (proj1 H3 Hb)) as (b4 & Heq & H4).
    exists b4. split; [done|]. eapply step_trans; eassumption. }
  eexists. split; [done|]. eapply step_trans; [exact H1|]. destruct (_ && _); auto with broker.
Qed.

(** ** Publishing *)

Lemma publish_ok frame b : broker_ok b -> broker_ok (publish frame b).
Proof.
  intros [H1 H2 H3 H4 H5 H6]. unfold publish. set (seq := if replicaMode b then _ else _). clearbody seq.
  set (r := if replicaMode b then _ else _). clearbody r.
  set (b1 := with_values _ _).
  assert (Hb1 : broker_ok b1) by now constructor.
  pose proof (proj1 (fanOut_step (rx_Bus frame) (rx_Header frame) (frame_json frame seq) b1) Hb1) as Hb2.
  set (b2 := fanOut _ _ _ b1) in *. clearbody b2. clear b1 Hb1.
  assert (Hb3 : broker_ok (notifyConsumers b2)) by (destruct Hb2; now constructor).
  set (b3 := notifyConsumers b2) in *. clearbody b3. unfold journal_frame.
  destruct (b_journal b3) as [ch|] eqn:E; [|done].
  destruct (Nat.ltb_spec (length (j_queue ch)) (j_cap ch)).
  - destruct Hb3. constructor; try done. cbn. intros ch' [= <-]. cbn. rewrite length_app. cbn. lia.
  - destruct Hb3. now constructor.
Qed.

Lemma handleFrame_runs ord now frame b :
  broker_ok b -> oracle_ok ord -> bytes_ok (rx_Data frame) ->
  exists b1, handleFrame ord now frame b = Some (publish frame b1) /\ step_ok b b1.
Proof.
  intros Hb Hord Hbytes. unfold handleFrame.
  destruct (discover_step ord now frame b Hb Hord Hbytes) as (b1 & -> & H1). cbn.
  destruct (react_step now frame b1 (proj1 H1 Hb)) as (b2 & -> & H2). cbn.
  exists b2. split; [done|]. eapply step_trans; eassumption.
Qed.

Lemma on_tick_runs ord rord now b :
  broker_ok b -> oracle_ok ord -> exists b', on_tick ord rord now b = Some b' /\ broker_ok b'.
Proof.
  intros Hb Hord. unfold on_tick.
  assert (Hb1 : broker_ok (expireSessions now b)) by (destruct Hb; now constructor).
  set (b1 := expireSessions now b) in *. clearbody b1.
  assert (H2 : step_ok b1 (expireDevices (ord (devices (b_state b1))) now b1)).
  { unfold expireDevices. destruct (_ =? 0); [apply step_refl|].
    pose proof (ExpireIdle_ok (ord (devices (b_state b1))) (now - deviceIdleTimeout b1) (devices (b_state b1))) as He.
    destruct (ExpireIdle _ _ _) as [reg evicted]. cbn [fst] in He.
    eapply step_trans; [apply with_devices_step; intros Hr; apply He; [done|apply Hord]|].
    apply step_fold. intros b0 key. unfold expire_one. broker_steps. }
  pose proof (proj1 H2 Hb1) as Hb2. set (b2 := expireDevices _ _ b1) in *. clearbody b2.
  destruct (requestTick_step rord now b2 Hb2) as (b3 & -> & H3). cbn. eexists. split; [done|].
  pose proof (proj1 H3 Hb2) as Hb3.
  assert (Hb4 : broker_ok (if negb (replicaMode b3) then retryProductInfo (ord (devices (b_state b3))) b3 else b3)).
  { destruct (negb _); [|done]. refine (proj1 (step_fold _ _ _ _) Hb3). intros. auto with broker. }
  set (b4 := if negb (replicaMode b3) then _ else _) in *. clearbody b4. unfold virtual_heartbeat.
  destruct (b_virtual b4) as [m|] eqn:E; [|done].
  assert (Hm : claims_ok (vdevices (Heartbeat now m).1)).
  { apply (manager_step_ok m); [apply step_Heartbeat|]. now apply (bo_virtual _ Hb4). }
  destruct (Heartbeat now m) as [m' txs]. cbn [fst] in Hm.
  apply (transmit_step txs), with_virtual_step; auto.
Qed.

(** What happens to a broker in [Run]: frames, ticks, and its virtual devices'
    start. *)
Inductive broker_op :=
| BFrame (now : time) (frame : RxFrame)
| BTick (rord : nat -> list devKey) (now : time)
| BVirtualStart (t : time) (now : nat -> time).

Definition bop_step (ord : DeviceRegistry -> list deviceKey) (b : Broker) (op : broker_op) : option Broker :=
  match op with
  | BFrame now frame => handleFrame ord now frame b
  | BTick rord now => on_tick ord rord now b
  | BVirtualStart t now => Some (virtual_start t now b)
  end.

(** The request that makes devices on the bus identify themselves. *)
Definition broker_start (b : Broker) : Broker := if replicaMode b then b else sendISORequest "" 0xFF 60928 b.

Definition run_broker (ord : DeviceRegistry -> list deviceKey) (b : Broker) (ops : list broker_op) : option Broker :=
  foldo (bop_step ord) (broker_start b) ops.

Definition bop_ok (op : broker_op) : Prop :=
  match op with BFrame _ frame => bytes_ok (rx_Data frame) | _ => True end.

Lemma broker_start_step b : step_ok b (broker_start b).
Proof. unfold broker_start. destruct (replicaMode b); auto with broker. Qed.

Lemma virtual_start_step t now b : step_ok b (virtual_start t now b).
Proof.
  unfold virtual_start. destruct (b_virtual b) as [m|] eqn:E; [|apply step_refl].
  assert (Hm : virtual_ok b -> claims_ok (vdevices (StartAfterDiscovery (devices (b_state b)) t now m).1)) by (intros Hv; apply (manager_step_ok m); [apply step_Start|by apply Hv]).
  destruct (StartAfterDiscovery _ _ _ _) as [m' txs]. eapply step_trans; [by apply with_virtual_step|apply transmit_step].
Qed.

(** Any frames and ticks keep a broker well formed. *)
Lemma run_broker_runs ord b ops : broker_ok b -> oracle_ok ord -> Forall bop_ok ops ->
  exists b', run_broker ord b ops = Some b' /\ broker_ok b'.
Proof.
  intros Hb Hord Hops. apply (foldo_total broker_ok); [|by apply (proj1 (broker_start_step b))].
  intros b0 op Hin Hb0. rewrite Forall_forall in Hops. specialize (Hops op Hin).
  destruct op as [now frame|rord now|t now]; cbn [bop_step bop_ok] in *.
  - destruct (handleFrame_runs ord now frame b0 Hb0 Hord Hops) as (b1 & -> & H1).
    eexists. split; [done|]. apply publish_ok, (proj1 H1 Hb0).
  - now apply on_tick_runs.
  - eexists. split; [done|]. by apply (proj1 (virtual_start_step t now b0)).
Qed.

(** C34: on a well-formed broker whose request rules have nonnegative write offsets,
    no sequence of frames (of any bytes) and ticks ever panics, and afterwards the
    broker is again well formed: registry invariant, every bounded queue within
    its capacity, distinct virtual addresses, the request guard current. *)
Theorem broker_never_panics ord b ops :
  broker_ok b -> oracle_ok ord -> Forall bop_ok ops ->
  exists b', run_broker ord b ops = Some b' /\ broker_ok b'.
Proof. apply run_broker_runs. Qed.

(** ** One frame *)

Lemma journal_frame_fields frame b :
  b_ring (journal_frame frame b) = b_ring b /\ b_state (journal_frame frame b) = b_state b /\
  replicaMode (journal_frame frame b) = replicaMode b /\
  frameCount (b_counters (journal_frame frame b)) = frameCount (b_counters b).
Proof. unfold journal_frame. destruct (b_journal b); [destruct (_ <? _)%nat|]; done. Qed.

(** The journal's share: the frame is queued or, with the queue full, counted. *)
Definition journal_took (frame : RxFrame) (b b' : Broker) : Prop :=
  match b_journal b with
  | None => b_journal b' = None /\ journalDrops (b_counters b') = journalDrops (b_counters b)
  | Some ch =>
      if (length (j_queue ch) <? j_cap ch)%nat then
        b_journal b' = Some (mkJournalChan (j_queue ch ++ [frame]) (j_cap ch)) /\
        journalDrops (b_counters b') = journalDrops (b_counters b)
      else b_journal b' = Some ch /\ journalDrops (b_counters b') = u64 (journalDrops (b_counters b) + 1)
  end.

(** The sequence number a broker gives the next frame. *)
Definition next_seq (frame : RxFrame) (b : Broker) : Z :=
  if replicaMode b then rx_Seq frame else head (b_ring b).

(** What handling one frame does, [b1] being the broker once discovery and request
    rules have run. *)
Record frame_handled (frame : RxFrame) (b b1 b' : Broker) : Prop := {
  fh_discovery : keeps b b1;
  fh_ring : b_ring b' = (if replicaMode b then ring_put (rx_Seq frame) (frame_entry frame) (b_ring b)
                         else ring_append (frame_entry frame) (b_ring b));
  fh_mode : replicaMode b' = replicaMode b;
  fh_count : frameCount (b_counters b') = u64 (frameCount (b_counters b) + 1);
  fh_value : values (b_state b') !! (rx_Bus frame, Source (rx_Header frame), PGN (rx_Header frame)) =
    Some (mkValueEntry (rx_Timestamp frame) (rx_Data frame) (next_seq frame b));
  fh_journal : journal_took (set_seq frame (next_seq frame b)) b b';
  fh_subscribers : forall i, subscribers (b_state b') !! i =
    (fun s => if Filters.matches (sub_filter s) (rx_Bus frame) (rx_Header frame) (devices (b_state b1))
              then sub_send (EvFrame (frame_json frame (next_seq frame b))) s else s)
      <$> subscribers (b_state b1) !! i;
  fh_consumers : forall i c, consumers (b_state b') !! i = Some c -> c_notify c = true
}.

Lemma publish_handled frame b b1 : keeps b b1 -> frame_handled frame b b1 (publish frame b1).
Proof.
  intros K. pose proof K as [K1 K2 K3 K4 K5 K6 K7].
  unfold publish. set (seq := if replicaMode b1 then rx_Seq frame else head (b_ring b1)).
  assert (Hseq : seq = next_seq frame b) by (unfold seq, next_seq; now rewrite K1, K3).
  set (b2 := notifyConsumers _).
  destruct (journal_frame_fields (set_seq frame seq) b2) as (J1 & J2 & J3 & J4).
  constructor; rewrite ?J1, ?J2, ?J3, ?J4; try done.
  - unfold b2, seq. cbn. rewrite K1, K3. now destruct (replicaMode b).
  - cbn. now rewrite K6.
  - cbn. rewrite Hseq. apply lookup_insert_eq.
  - rewrite <- Hseq. unfold journal_took, journal_frame. rewrite <- K2, <- K7.
    change (b_journal b2) with (b_journal b1). destruct (b_journal b1) as [ch|] eqn:Ej.
    + destruct (_ <? _)%nat; [done|]. cbn. now rewrite Ej.
    + cbn. done.
  - intros i. cbn. rewrite lookup_fmap. rewrite <- Hseq. destruct (subscribers (b_state b1) !! i) as [s|]; cbn; [|done].
    f_equal. now destruct (Filters.matches _ _ _ _).
  - intros i c. cbn. rewrite lookup_fmap. intros (c0 & _ & ->)%fmap_Some. done.
Qed.

(** Handling a frame on a well-formed broker, live or replica, whatever
    discovery does first: the frame takes the next number (in a replica, its own)
    and goes into the ring under it; the values store holds it; every subscriber
    whose filter matches against the updated registry is sent it if there is room;
    every consumer is notified; the journal is handed the numbered frame or the
    drop is counted. *)
Theorem handleFrame_spec ord now frame b :
  broker_ok b -> oracle_ok ord -> bytes_ok (rx_Data frame) ->
  exists b1 b', handleFrame ord now frame b = Some b' /\ frame_handled frame b b1 b'.
Proof.
  intros Hb Hord Hf. destruct (handleFrame_runs ord now frame b Hb Hord Hf) as (b1 & H & _ & K).
  exists b1, (publish frame b1). split; [done|]. now apply publish_handled.
Qed.

(** ** The log of a live broker *)

(** What the log of frames consists of. *)
Record log_keeps (b b' : Broker) : Prop := {
  lk_ring : b_ring b' = b_ring b;
  lk_journal : b_journal b' = b_journal b;
  lk_replica : replicaMode b' = replicaMode b;
  lk_frames : frameCount (b_counters b') = frameCount (b_counters b)
}.

Lemma keeps_log b b' : keeps b b' -> log_keeps b b'.
Proof. intros []. now constructor. Qed.
Lemma log_keeps_trans b1 b2 b3 : log_keeps b1 b2 -> log_keeps b2 b3 -> log_keeps b1 b3.
Proof. intros [] []. constructor; congruence. Qed.

Lemma on_tick_log ord rord now b b' : on_tick ord rord now b = Some b' -> log_keeps b b'.
Proof.
  unfold on_tick. assert (H1 : log_keeps b (expireSessions now b)) by done.
  set (b1 := expireSessions now b) in *. clearbody b1.
  assert (H2 : log_keeps b1 (expireDevices (ord (devices (b_state b1))) now b1)).
  { unfold expireDevices. destruct (_ =? 0); [done|]. destruct (ExpireIdle _ _ _) as [reg evicted].
    apply (log_keeps_trans _ (with_devices b1 reg)); [done|]. apply keeps_log, step_fold.
    intros b0 key. unfold expire_one. broker_steps. }
  set (b2 := expireDevices _ _ b1) in *. clearbody b2. pose proof (log_keeps_trans _ _ _ H1 H2) as H12.
  unfold requestTick, with_engine.
  assert (H3 : forall b3, log_keeps b2 b3 -> Some (virtual_heartbeat now
    (if negb (replicaMode b3) then retryProductInfo (ord (devices (b_state b3))) b3 else b3)) = Some b' -> log_keeps b b').
  { intros b3 H3 [= <-]. apply (log_keeps_trans _ _ _ H12). apply (log_keeps_trans _ _ _ H3).
    assert (H4 : log_keeps b3 (if negb (replicaMode b3) then retryProductInfo (ord (devices (b_state b3))) b3 else b3)).
    { destruct (negb _); [|done]. apply keeps_log. unfold retryProductInfo. refine (proj2 (step_fold _ _ _ _)).
      intros; auto with broker. }
    set (b4 := if negb (replicaMode b3) then _ else _) in *. clearbody b4. apply (log_keeps_trans _ _ _ H4).
    unfold virtual_heartbeat. destruct (b_virtual b4) as [m|]; [|done]. destruct (Heartbeat now m) as [m' txs].
    apply (log_keeps_trans _ (with_virtual b4 (Some m'))); [done|]. apply keeps_log, transmit_step. }
  destruct (b_requests b2) as [e|]; [|now apply H3].
  destruct (RequestRules.Tick rord now e) as [[e' out]|]; [|done]. cbn. apply H3.
  apply (log_keeps_trans _ (with_requests b2 (Some e'))); [done|]. apply keeps_log, dispatchRequests_step.
Qed.

Definition frames_of (ops : list broker_op) : list RxFrame :=
  omap (fun op => match op with BFrame _ f => Some f | _ => None end) ops.

Lemma run_ops_log ord ops : forall b b',
  broker_ok b -> oracle_ok ord -> Forall bop_ok ops -> replicaMode b = false ->
  foldo (bop_step ord) b ops = Some b' ->
  b_ring b' = append_all (b_ring b) (map frame_entry (frames_of ops)) /\ replicaMode b' = false.
Proof.
  induction ops as [|op ops IH]; intros b b' Hb Hord Hops Hm; cbn [foldo].
  { intros [= <-]. done. }
  apply Forall_cons in Hops as [Hop Hops]. destruct op as [now frame|rord now|t now]; cbn [bop_step bop_ok] in *.
  - destruct (handleFrame_runs ord now frame b Hb Hord Hop) as (b1 & -> & H1 & K). cbn.
    pose proof (publish_handled frame b b1 K) as Hh. intros Hrun.
    destruct (IH (publish frame b1) b' (publish_ok frame b1 (H1 Hb)) Hord Hops) as [Hr Hrep]; [|exact Hrun|].
    + now rewrite (fh_mode _ _ _ _ Hh).
    + split; [|exact Hrep]. rewrite Hr, (fh_ring _ _ _ _ Hh), Hm. reflexivity.
  - destruct (on_tick ord rord now b) as [b1|] eqn:E; [|done]. cbn. intros Hrun.
    destruct (on_tick_runs ord rord now b Hb Hord) as (b2 & E2 & Hb2). rewrite E in E2. injection E2 as <-.
    pose proof (on_tick_log _ _ _ _ _ E) as [Lr _ Lm _].
    destruct (IH b1 b' Hb2 Hord Hops) as [Hr Hrep]; [congruence|exact Hrun|].
    split; [|exact Hrep]. now rewrite Hr, Lr.
  - intros Hrun. destruct (virtual_start_step t now b) as [H1 [Lr _ Lm _ _ _ _]].
    destruct (IH (virtual_start t now b) b' (H1 Hb) Hord Hops) as [Hr Hrep]; [congruence|exact Hrun|].
    split; [|exact Hrep]. now rewrite Hr, Lr.
Qed.

Lemma run_broker_log ord ops b b' :
  broker_ok b -> oracle_ok ord -> Forall bop_ok ops -> replicaMode b = false ->
  run_broker ord b ops = Some b' ->
  b_ring b' = append_all (b_ring b) (map frame_entry (frames_of ops)) /\ replicaMode b' = false.
Proof.
  intros Hb Hord Hops Hm Hrun. destruct (broker_start_step b) as [H1 [Lr _ Lm _ _ _ _]].
  rewrite <- Lr. apply (run_ops_log ord ops (broker_start b)); [by apply H1|done|done|congruence|exact Hrun].
Qed.

Lemma frame_entry_seq frame : carries_seq (frame_entry frame).
Proof. done. Qed.

Lemma safe_rules_engine rs : forall e, Forall safe_rule rs -> engine_safe e -> engine_safe (foldl add_rule e rs).
Proof.
  induction rs as [|r rs IH]; intros e Hr He; [done|]. apply Forall_cons in Hr as [Hr Hrs]. cbn [foldl].
  apply IH; [done|]. destruct (op_step_total e (OpAddRule r) He Hr) as (e' & out & H & Hs).
  cbn in H. injection H as <- _. exact Hs.
Qed.

(** A new broker whose rules have nonnegative write offsets is well formed. *)
Lemma NewBroker_ok c b : NewBroker c = Some b -> Forall safe_rule (RequestRules c) -> broker_ok b.
Proof.
  unfold NewBroker. destruct (new_ring _ _) as [r|]; [|done]. cbn. intros [= <-] Hr.
  match goal with |- broker_ok (refreshRequestPGNs (mkBroker _ _ _ _ ?x _ ?y _ _ _ _ _)) =>
    set (e := x); set (vdm := y) end.
  assert (He : forall e0, e = Some e0 -> engine_safe e0).
  { unfold e. destruct (_ && _); [|done]. intros e0 [= <-]. apply safe_rules_engine; [done|].
    split; [constructor|apply index_ok_new]. }
  assert (Hv : forall m, vdm = Some m -> claims_ok (vdevices m)).
  { unfold vdm. intros m Hm. case_match; [|discriminate]. injection Hm as <-.
    assert (H0 : claims_ok (vdevices (NewVirtualDeviceManager (ClaimHeartbeat c) (ProductInfoHeartbeat c)))).
    { split; cbn; intros *; rewrite ?lookup_nil, ?elem_of_nil; done. }
    revert H0. generalize (NewVirtualDeviceManager (ClaimHeartbeat c) (ProductInfoHeartbeat c)).
    generalize (VirtualDevices c). intros vs. induction vs as [|v vs IH]; intros m Hm; [done|].
    cbn [foldl]. apply IH. apply (manager_step_ok m); [apply step_Add|exact Hm]. }
  clearbody vdm e. unfold refreshRequestPGNs. cbn [b_requests].
  destruct e as [e|]; (constructor; cbn [b_state devices b_tx subscribers b_journal with_requestPGNs];
    [apply registry_ok_empty|cbn; lia|intros i s; rewrite lookup_empty; done|done|exact Hv|]).
  - intros e0 [= <-]. split; [now apply He|done].
  - intros e0. done.
Qed.

(** C2: a live broker with [2^k] ring slots, after any frames and ticks: the frames
    are numbered consecutively from the initial head in the order handled, and
    reading number [s] gives exactly the frame that got it if it is among the last
    [2^k], and nothing otherwise; discovery, request rules, expiry and virtual
    devices never disturb the log. *)
Theorem live_broker_log ord c b k ops b' s :
  NewBroker c = Some b -> ReplicaMode c = false -> Forall safe_rule (RequestRules c) ->
  oracle_ok ord -> Forall bop_ok ops -> run_broker ord b ops = Some b' ->
  0 <= k < 63 -> (if RingSize c =? 0 then 65536 else RingSize c) = 2 ^ k ->
  head (b_ring b) + Z.of_nat (length (frames_of ops)) < 2 ^ 64 ->
  CurrentSeq b' = head (b_ring b) + Z.of_nat (length (frames_of ops)) - 1 /\
  readEntry s (b_ring b') =
    if (head (b_ring b) <=? s) && (head (b_ring b) + Z.of_nat (length (frames_of ops)) - 2 ^ k <=? s)
    then (fun f => frame_entry f s) <$> frames_of ops !! Z.to_nat (s - head (b_ring b)) else None.
Proof.
  intros Hnew Hmode Hrules Hord Hops Hrun Hk Hsize Hbound.
  pose proof (NewBroker_ok c b Hnew Hrules) as Hb.
  assert (Hm : replicaMode b = false).
  { revert Hnew. unfold NewBroker. destruct (new_ring _ _); [|done]. cbn. intros [= <-].
    unfold refreshRequestPGNs. now destruct (b_requests _). }
  assert (Hring : new_ring (RingSize c) (InitialHead c) = Some (b_ring b)).
  { revert Hnew. unfold NewBroker. destruct (new_ring _ _); [|done]. cbn. intros [= <-].
    unfold refreshRequestPGNs. now destruct (b_requests _). }
  destruct (run_broker_log ord ops b b' Hb Hord Hops Hm Hrun) as [Hr _].
  assert (Hc : Forall carries_seq (map frame_entry (frames_of ops))).
  { apply Forall_forall. intros f (fr & -> & _)%list_elem_of_fmap. done. }
  pose proof (ring_sound (RingSize c) (InitialHead c) (b_ring b) k (map frame_entry (frames_of ops)) s
    Hring Hk Hsize Hc) as H.
  rewrite length_map in H. specialize (H Hbound) as [Hh Hread]. rewrite <- Hr in Hh, Hread. split.
  - unfold CurrentSeq. rewrite Hh. pose proof (ring_head_pos _ _ _ Hring).
    destruct (Z.eqb_spec (head (b_ring b) + Z.of_nat (length (frames_of ops))) 0); [lia|].
    apply wrap_small. lia.
  - rewrite Hread. destruct (_ && _); [|done]. rewrite list_lookup_fmap.
    now destruct (frames_of ops !! _).
Qed.

(** * A concrete broker *)

Definition demo_broker_config : BrokerConfig :=
  mkBrokerConfig 4 0 false 0 0 [demo_cfg 100] 0 0 [register_rule 4; iso_rule] 0.

Definition demo_frame (src pgn : Z) (data : list Z) (ts : time) : RxFrame :=
  mkRxFrame ts (mkCANHeader 6 pgn src 255) data "can0" 0.

(** Traffic, a claim, a stolen address, product information and a tick. *)
Definition demo_ops : list broker_op :=
  [ BFrame 1000 (demo_frame 5 127250 [1; 2] 1000);
    BFrame 2000 (demo_frame 5 60928 (le64 5) 2000);
    BFrame 3000 (demo_frame 6 60928 (le64 5) 3000);
    BFrame 4000 (demo_frame 6 126996 demo_product 4000);
    BTick (fun _ => [("can0"%string, 6)]) 5000;
    BFrame 6000 (demo_frame 6 127250 [3; 4] 6000) ].

Definition demo_broker : option Broker := Eval vm_compute in NewBroker demo_broker_config.
Definition demo_broker' : option Broker :=
  Eval vm_compute in b ← demo_broker; run_broker any_order b demo_ops.

Lemma demo_broker_runs : exists b b', NewBroker demo_broker_config = Some b /\
  run_broker any_order b demo_ops = Some b' /\ head (b_ring b) = 1 /\
  map dev_key (Devices.Snapshot (any_order (devices (b_state b'))) (devices (b_state b'))) = [("can0"%string, 6)].
Proof.
  assert (H0 : NewBroker demo_broker_config = demo_broker) by (vm_compute; reflexivity).
  destruct demo_broker as [b|] eqn:Eb; [|done].
  assert (H1 : run_broker any_order b demo_ops = demo_broker') by (injection Eb as <-; vm_compute; reflexivity).
  destruct demo_broker' as [b'|] eqn:Eb'; [|done].
  exists b, b'. split; [exact H0|]. split; [exact H1|]. injection Eb as <-. injection Eb' as <-.
  split; vm_compute; reflexivity.
Qed.

Lemma demo_rules_safe : Forall safe_rule (RequestRules demo_broker_config).
Proof. repeat (apply Forall_cons; split; [cbv; discriminate|]). by apply Forall_nil. Qed.

Lemma demo_ops_ok : Forall bop_ok demo_ops.
Proof.
  unfold demo_ops. repeat (apply Forall_cons; split; [try exact I; cbn [bop_ok]; apply bytes_ok_dec; vm_compute; reflexivity|]).
  by apply Forall_nil.
Qed.

Lemma broker_never_panics_witness :
  exists b b', NewBroker demo_broker_config = Some b /\ run_broker any_order b demo_ops = Some b' /\ broker_ok b'.
Proof.
  destruct demo_broker_runs as (b & _ & Hb & _).
  destruct (broker_never_panics any_order b demo_ops (NewBroker_ok _ _ Hb demo_rules_safe) any_order_ranges
    demo_ops_ok) as (b' & H1 & H2).
  exists b, b'. auto.
Defined.

Lemma handleFrame_spec_witness :
  exists b b1 b', NewBroker demo_broker_config = Some b /\
    handleFrame any_order 1000 (demo_frame 5 127250 [1; 2] 1000) b = Some b' /\
    frame_handled (demo_frame 5 127250 [1; 2] 1000) b b1 b'.
Proof.
  destruct demo_broker_runs as (b & _ & Hb & _).
  destruct (handleFrame_spec any_order 1000 (demo_frame 5 127250 [1; 2] 1000) b
    (NewBroker_ok _ _ Hb demo_rules_safe) any_order_ranges) as (b1 & b' & H1 & H2);
    [apply bytes_ok_dec; reflexivity|].
  exists b, b1, b'. auto.
Defined.

Lemma live_broker_log_witness :
  exists b b', NewBroker demo_broker_config = Some b /\ run_broker any_order b demo_ops = Some b' /\
    CurrentSeq b' = 5 /\
    readEntry 5 (b_ring b') = Some (frame_entry (demo_frame 6 127250 [3; 4] 6000) 5) /\
    readEntry 1 (b_ring b') = None.
Proof.
  destruct demo_broker_runs as (b & b' & Hb & Hrun & Hh & _).
  assert (Hbound : head (b_ring b) + Z.of_nat (length (frames_of demo_ops)) < 2 ^ 64) by (rewrite Hh; cbn; lia).
  destruct (live_broker_log any_order demo_broker_config b 2 demo_ops b' 5 Hb eq_refl demo_rules_safe
    any_order_ranges demo_ops_ok Hrun ltac:(lia) eq_refl Hbound) as [H1 H2].
  destruct (live_broker_log any_order demo_broker_config b 2 demo_ops b' 1 Hb eq_refl demo_rules_safe
    any_order_ranges demo_ops_ok Hrun ltac:(lia) eq_refl Hbound) as [_ H3].
  rewrite Hh in H1, H2, H3. exists b, b'. auto.
Defined.
