(* ===== verification/Consumer.v ===== *)
(** The pull consumer: [consumer.go].

    A consumer reads the log of frames at its own pace: from journal files while
    its cursor is behind the ring, from the ring otherwise.  What it needs of a
    journal file is the interface [JournalFile]; one call of [Next] runs against
    one state of the ring. *)

From S2P Require Import Prelude CanId Devices Filters Ring.

(** A frame of a journal file, as [journal.Reader] yields it. *)
Record journalFrame := mkJournalFrame {
  jfr_Timestamp : time;
  jfr_Header : CANHeader;
  jfr_Data : list Z
}.

(** What the consumer uses of a journal file: whether it opens as a v2 journal
    ([openJournalFile]), the first sequence number ([readFirstSeq]), its frames
    with their numbers up to the end or the first read error, and where
    [SeekToSeq] leaves the reader ([None] on an error). *)
Record JournalFile := mkJournalFile {
  jf_opens : bool;
  jf_first : option Z;
  jf_frames : list (Z * journalFrame);
  jf_seek : Z -> option (list (Z * journalFrame))
}.

(** The frame handed to the client; frames from the journal have no bus. *)
Record Frame := mkFrame {
  f_Seq : Z; f_Timestamp : time; f_Header : CANHeader; f_Bus : string; f_Data : list Z
}.

(** [Frame.JSON]. *)
Definition frame_JSON (f : Frame) : frameJSON :=
  let h := f_Header f in
  mkFrameJSON (f_Seq f) (f_Timestamp f) (f_Bus f) (Priority h) (PGN h) (Source h) (Destination h)
    (hex_encode (f_Data f)).

(** The open journal: the files, the current index and what is left of the
    current file ([None]: no reader). *)
Record journalState := mkJournalState {
  jFiles : list JournalFile;
  jIdx : nat;
  jReader : option (list (Z * journalFrame))
}.

Record Consumer := mkConsumer {
  cursor : Z;
  filter : option resolvedFilter;
  journal : option journalState
}.

Inductive next_result :=
| NextFrame (f : Frame)
| NextFallenBehind
| NextGap (expected actual : Z)
| NextWait.

Definition set_cursor (c : Consumer) (s : Z) : Consumer := mkConsumer s (filter c) (journal c).
Definition set_journal (c : Consumer) (j : option journalState) : Consumer := mkConsumer (cursor c) (filter c) j.

(** * Reading the journal *)

(** The last file whose first number is at most [seq]: the loop over the
    candidates breaks at the first larger one. *)
Fixpoint last_at_most (seq : Z) (result : nat) (cands : list (nat * Z)) : nat :=
  match cands with
  | [] => result
  | (i, base) :: cands => if base <=? seq then last_at_most seq i cands else result
  end.

Definition candidates (files : list JournalFile) : list (nat * Z) :=
  omap (fun '(i, f) => match jf_first f with
    | Some s => if 0 <? s then Some (i, s) else None
    | None => None end) (zip (seq 0 (length files)) files).

Definition findJournalFile (files : list JournalFile) (seq : Z) : option nat :=
  match candidates files with
  | [] => None
  | (i, _) :: _ as cs => Some (last_at_most seq i cs)
  end.

(** [openJournalFile]: a reader at the start of file [idx]. *)
Definition openJournalFile (files : list JournalFile) (idx : nat) : option (list (Z * journalFrame)) :=
  match files !! idx with
  | Some f => if jf_opens f then Some (jf_frames f) else None
  | None => None
  end.

(** The lazy initialisation; [dir] is what the directory lists, sorted by name.
    [None] is [ErrFallenBehind]. *)
Definition discover_journal (dir : option (list JournalFile)) (c : Consumer) : option journalState :=
  match journal c with
  | Some j => Some j
  | None =>
      match dir with
      | None | Some [] => None
      | Some files =>
          i ← findJournalFile files (cursor c);
          _ ← openJournalFile files i;
          f ← files !! i;
          rest ← jf_seek f (cursor c);
          Some (mkJournalState files i (Some rest))
      end
  end.

Inductive journal_result :=
| JFrame (f : Frame)
| JCaughtUp
| JFallenBehind
| JGap (expected actual : Z)
| JFileDone.

(** The loop over the current file: the new cursor, what is left of the file
    ([None] once it is closed) and why it stopped. *)
Fixpoint read_frames (tail : Z) (f : option resolvedFilter) (cur : Z) (frames : list (Z * journalFrame))
    : Z * option (list (Z * journalFrame)) * journal_result :=
  if tail <=? cur then (cur, Some frames, JCaughtUp)
  else match frames with
  | [] => (cur, Some [], JFileDone)
  | (seq, e) :: rest =>
      if seq =? 0 then (cur, None, JFileDone)
      else if seq <? cur then read_frames tail f cur rest
      else if cur <? seq then (cur, Some rest, JGap cur seq)
      else if negb (resolved_matches f "" (jfr_Header e)) then read_frames tail f (u64 (cur + 1)) rest
      else (u64 (cur + 1), Some rest, JFrame (mkFrame seq (jfr_Timestamp e) (jfr_Header e) "" (jfr_Data e)))
  end.

(** The loop over the files; [later] are the files after the current one. *)
Fixpoint read_files (later : list JournalFile) (tail : Z) (c : Consumer) (j : journalState)
    : Consumer * journal_result :=
  let '(cur, left_, res) := read_frames tail (filter c) (cursor c) (default [] (jReader j)) in
  let c := set_cursor c cur in
  match res with
  | JCaughtUp => (set_journal c None, JCaughtUp)
  | JFileDone =>
      let j := mkJournalState (jFiles j) (S (jIdx j)) left_ in
      match later with
      | [] => if tail <=? cur then (set_journal c None, JCaughtUp) else (set_journal c (Some j), JFallenBehind)
      | file :: later =>
          if jf_opens file then
            read_files later tail c (mkJournalState (jFiles j) (jIdx j) (Some (jf_frames file)))
          else (set_journal c None, JFallenBehind)
      end
  | _ => (set_journal c (Some (mkJournalState (jFiles j) (jIdx j) left_)), res)
  end.

Definition readFromJournal (dir : option (list JournalFile)) (tail : Z) (c : Consumer)
    : Consumer * journal_result :=
  match discover_journal dir c with
  | None => (set_journal c None, JFallenBehind)
  | Some j => read_files (drop (S (jIdx j)) (jFiles j)) tail c j
  end.

(** * Next *)

(** The ring part of the loop.  The cursor moves at every round, so [head - cursor]
    rounds are enough. *)
Fixpoint next_ring (fuel : nat) (r : Ring) (c : Consumer) : Consumer * next_result :=
  if cursor c <? head r then
    match readEntry (cursor c) r with
    | None => (c, NextFallenBehind)
    | Some e =>
        let c := set_cursor c (u64 (cursor c + 1)) in
        if negb (resolved_matches (filter c) (re_Bus e) (re_Header e)) then
          match fuel with O => (c, NextWait) | S fuel => next_ring fuel r c end
        else (c, NextFrame (mkFrame (re_Seq e) (re_Timestamp e) (re_Header e) (re_Bus e) (re_RawData e)))
    end
  else (c, NextWait).

Definition read_ring (r : Ring) (c : Consumer) : Consumer * next_result :=
  next_ring (Z.to_nat (head r - cursor c)) r c.

(** One call of [Next], [NextWait] where it would block for a notification. *)
Definition Next (dir : option (list JournalFile)) (r : Ring) (c : Consumer) : Consumer * next_result :=
  if cursor c <? tail r then
    match readFromJournal dir (tail r) c with
    | (c, JFrame f) => (c, NextFrame f)
    | (c, JCaughtUp) => read_ring r c
    | (c, JGap e a) => (c, NextGap e a)
    | (c, _) => (c, NextFallenBehind)
    end
  else read_ring r c.

(** * No gaps *)

Section Log.
(** The log of frames the broker ever numbered; the ring and the journal files
    hold parts of it. *)
Variable log : Z -> option ringEntry.

(** The ring holds the log's frames from [tail] to [head]. *)
Definition ring_in_log (r : Ring) : Prop :=
  0 <= tail r <= head r /\ head r < 2 ^ 64 /\
  forall s e, readEntry s r = Some e -> log s = Some e /\ re_Seq e = s.

(** A journal frame is the log's frame of its number, without the bus. *)
Definition in_log (sf : Z * journalFrame) : Prop :=
  sf.1 <> 0 -> exists x, log sf.1 = Some x /\
    sf.2 = mkJournalFrame (re_Timestamp x) (re_Header x) (re_RawData x).

Record file_law (f : JournalFile) : Prop := {
  fl_frames : Forall in_log (jf_frames f);
  fl_seek : forall s rest, jf_seek f s = Some rest -> Forall in_log rest
}.

Definition journal_law (j : option journalState) : Prop :=
  match j with
  | None => True
  | Some j => Forall file_law (jFiles j) /\ Forall in_log (default [] (jReader j))
  end.

(** The bus a read of number [s] shows the filter, while the ring starts at [tl]:
    the frame's own, or none for a number the ring has lost, which the journal
    gives back without its bus. *)
Definition seen_bus (tl s : Z) (x : ringEntry) : string := if s <? tl then "" else re_Bus x.

(** The filter does not let the log's frame [s] through, as it was seen. *)
Definition skipped (tl : Z) (f : option resolvedFilter) (s : Z) : Prop :=
  exists x, log s = Some x /\ resolved_matches f (seen_bus tl s x) (re_Header x) = false.

(** The log's frame [s] is delivered, with the bus it was seen with, which the
    filter lets through. *)
Definition delivers (tl : Z) (f : option resolvedFilter) (fr : Frame) : Prop :=
  exists x, log (f_Seq fr) = Some x /\
    f_Timestamp fr = re_Timestamp x /\ f_Header fr = re_Header x /\ f_Data fr = re_RawData x /\
    f_Bus fr = seen_bus tl (f_Seq fr) x /\ resolved_matches f (f_Bus fr) (f_Header fr) = true.

Lemma seen_in_journal tl s x : s < tl -> seen_bus tl s x = ""%string.
Proof. intros H. unfold seen_bus. now rewrite (proj2 (Z.ltb_lt s tl)). Qed.
Lemma seen_in_ring r s e : readEntry s r = Some e -> seen_bus (tail r) s e = re_Bus e.
Proof. unfold readEntry, seen_bus. destruct (Z.ltb_spec s (tail r)); [done|reflexivity]. Qed.

Section Tail.
(** The number the ring starts at. *)
Context (tl : Z).

Definition all_skipped (f : option resolvedFilter) (a b : Z) : Prop :=
  a <= b /\ forall s, a <= s < b -> skipped tl f s.

Lemma all_skipped_refl f a : all_skipped f a a.
Proof. split; [lia|]. intros; lia. Qed.
Lemma all_skipped_trans f a b c : all_skipped f a b -> all_skipped f b c -> all_skipped f a c.
Proof.
  intros [H1 H2] [H3 H4]. split; [lia|]. intros s Hs. destruct (Z.lt_ge_cases s b); [apply H2|apply H4]; lia.
Qed.
Lemma all_skipped_one f a : skipped tl f a -> all_skipped f a (a + 1).
Proof. intros H. split; [lia|]. intros s Hs. now replace s with a by lia. Qed.

(** One reading step from cursor [cur] to [cur'] with the frame delivered, if any. *)
Definition advances (f : option resolvedFilter) (cur cur' : Z) (out : option Frame) : Prop :=
  match out with
  | Some fr => all_skipped f cur (f_Seq fr) /\ cur' = f_Seq fr + 1 /\ delivers tl f fr
  | None => all_skipped f cur cur'
  end.

Lemma advances_trans f a b c out : all_skipped f a b -> advances f b c out -> advances f a c out.
Proof.
  intros H1 H2. destruct out as [fr|]; cbn in *; [|eapply all_skipped_trans; eassumption].
  destruct H2 as (H2 & H3 & H4). split; [eapply all_skipped_trans; eassumption|done].
Qed.

End Tail.

Definition journal_out (res : journal_result) : option Frame :=
  match res with JFrame f => Some f | _ => None end.

Lemma read_frames_spec tail f frames : forall cur,
  Forall in_log frames -> 0 <= cur -> 0 <= tail < 2 ^ 64 ->
  let '(cur', left_, res) := read_frames tail f cur frames in
  advances tail f cur cur' (journal_out res) /\ Forall in_log (default [] left_) /\ 0 <= cur' /\
  (res = JCaughtUp -> tail <= cur') /\ (cur < 2 ^ 64 -> cur' < 2 ^ 64).
Proof.
  induction frames as [|[sq e] rest IH]; intros cur Hlaw Hcur Htail; cbn [read_frames];
    (destruct (Z.leb_spec tail cur); [split; [apply all_skipped_refl|done]|]).
  { split; [apply all_skipped_refl|]. done. }
  apply Forall_cons in Hlaw as [He Hrest]. unfold in_log in He. cbn in He.
  destruct (Z.eqb_spec sq 0) as [|H0]; [split; [apply all_skipped_refl|]; repeat split; (done || constructor)|].
  destruct (Z.ltb_spec sq cur); [now apply IH|].
  destruct (Z.ltb_spec cur sq); [split; [apply all_skipped_refl|done]|].
  assert (sq = cur) as -> by lia. destruct (He H0) as (x & Hx & ->). cbn [jfr_Header jfr_Timestamp jfr_Data].
  rewrite (wrap_small 64 (cur + 1)) by lia.
  destruct (resolved_matches f "" (re_Header x)) eqn:Em; cbn [negb].
  - split; [|split; [done|split; [lia|split; [done|lia]]]]. cbn.
    split; [apply all_skipped_refl|]. split; [done|]. exists x. cbn. rewrite (seen_in_journal tail) by lia. auto 10.
  - specialize (IH (cur + 1) Hrest ltac:(lia) Htail).
    destruct (read_frames tail f (cur + 1) rest) as [[cur' left_] res].
    destruct IH as (I1 & I2 & I3 & I4 & I5). split; [|split; [done|split; [done|split; [done|lia]]]].
    eapply advances_trans; [apply all_skipped_one|exact I1]. exists x. rewrite (seen_in_journal tail) by lia. auto.
Qed.

Lemma read_files_spec tail later : forall c j,
  journal_law (Some j) -> Forall file_law later -> 0 <= cursor c < 2 ^ 64 -> 0 <= tail < 2 ^ 64 ->
  let '(c', res) := read_files later tail c j in
  advances tail (filter c) (cursor c) (cursor c') (journal_out res) /\ filter c' = filter c /\
  journal_law (journal c') /\ 0 <= cursor c' < 2 ^ 64 /\ (res = JCaughtUp -> tail <= cursor c').
Proof.
  induction later as [|file later IH]; intros c j [Hf Hr] Hl Hc Ht; cbn [read_files];
    pose proof (read_frames_spec tail (filter c) (default [] (jReader j)) (cursor c) Hr (proj1 Hc) Ht) as H;
    destruct (read_frames _ _ _ _) as [[cur left_] res]; destruct H as (H1 & H2 & H3 & H4 & H5);
    (destruct res as [fr| | | |]; cbn [journal_out] in *;
     [split; [exact H1|split; [done|split; [done|split; [cbn; lia|done]]]]
     |split; [exact H1|split; [done|split; [done|split; [cbn; lia|cbn; auto]]]]
     |split; [exact H1|split; [done|split; [done|split; [cbn; lia|done]]]]
     |split; [exact H1|split; [done|split; [done|split; [cbn; lia|done]]]]
     |]).
  - destruct (Z.leb_spec tail cur); (split; [exact H1|split; [done|split; [done|split; [cbn; lia|cbn; done]]]]).
  - apply Forall_cons in Hl as [Hfile Hl]. destruct (jf_opens file).
    2:{ split; [exact H1|split; [done|split; [done|split; [cbn; lia|done]]]]. }
    specialize (IH (set_cursor c cur) (mkJournalState (jFiles j) (S (jIdx j)) (Some (jf_frames file)))
      (conj Hf (fl_frames _ Hfile)) Hl ltac:(cbn; lia) Ht).
    destruct (read_files later tail _ _) as [c' res]. cbn [set_cursor cursor filter jFiles jIdx] in *.
    destruct IH as (I1 & I2 & I3 & I4 & I5). split; [eapply advances_trans; eassumption|auto].
Qed.

Lemma next_ring_spec r fuel : forall c,
  ring_in_log r -> 0 <= cursor c < 2 ^ 64 -> head r - cursor c <= Z.of_nat fuel ->
  let '(c', res) := next_ring fuel r c in
  filter c' = filter c /\ journal c' = journal c /\ 0 <= cursor c' < 2 ^ 64 /\
  match res with
  | NextFrame fr => advances (tail r) (filter c) (cursor c) (cursor c') (Some fr)
  | NextWait => all_skipped (tail r) (filter c) (cursor c) (cursor c') /\ head r <= cursor c'
  | _ => all_skipped (tail r) (filter c) (cursor c) (cursor c')
  end.
Proof.
  induction fuel as [|fuel IH]; intros c Hr Hc Hf; cbn [next_ring].
  { destruct (Z.ltb_spec (cursor c) (head r)); [lia|]. auto using all_skipped_refl. }
  destruct (Z.ltb_spec (cursor c) (head r)); [|auto using all_skipped_refl].
  pose proof Hr as (Ht & Hh & Hlog). destruct (readEntry (cursor c) r) as [e|] eqn:E; [|auto using all_skipped_refl].
  destruct (Hlog _ _ E) as [Hx Hq]. pose proof (seen_in_ring r (cursor c) e E) as Hbus. cbn [set_cursor filter]. rewrite (wrap_small 64 (cursor c + 1)) by lia.
  destruct (resolved_matches (filter c) (re_Bus e) (re_Header e)) eqn:Em; cbn [negb].
  - split; [done|]. split; [done|]. split; [cbn; lia|]. cbn [advances f_Seq].
    rewrite Hq. split; [apply all_skipped_refl|]. split; [done|]. exists e. cbn. rewrite ?Hq, Hbus. auto 10.
  - specialize (IH (set_cursor c (cursor c + 1)) Hr ltac:(cbn; lia) ltac:(cbn; lia)).
    destruct (next_ring fuel r _) as [c' res]. cbn [set_cursor filter journal cursor] in *.
    destruct IH as (I1 & I2 & I3 & I4). split; [done|]. split; [done|]. split; [done|].
    assert (Hsk : all_skipped (tail r) (filter c) (cursor c) (cursor c + 1)).
    { apply all_skipped_one. exists e. rewrite Hbus. auto. }
    destruct res; [now apply (advances_trans _ _ _ (cursor c + 1))|..].
    + eapply all_skipped_trans; eassumption.
    + eapply all_skipped_trans; eassumption.
    + destruct I4. split; [eapply all_skipped_trans; eassumption|done].
Qed.

Lemma discover_law dir c j :
  Forall file_law (default [] dir) -> journal_law (journal c) -> discover_journal dir c = Some j ->
  journal_law (Some j).
Proof.
  intros Hd Hj. unfold discover_journal. destruct (journal c) as [j0|]; [now intros [= <-]|].
  destruct dir as [[|f0 fs]|]; try done. cbn [default] in Hd.
  destruct (findJournalFile (f0 :: fs) (cursor c)) as [i|]; [|done]. cbn.
  destruct (openJournalFile (f0 :: fs) i); [|done]. cbn.
  destruct ((f0 :: fs) !! i) as [f|] eqn:Ef; [|done]. cbn.
  destruct (jf_seek f (cursor c)) as [rest|] eqn:Es; [|done]. cbn. intros [= <-]. split; [done|]. cbn.
  eapply fl_seek; [|exact Es]. exact (Forall_lookup_1 _ _ _ _ Hd Ef).
Qed.

Lemma Next_sound dir r c c' res :
  ring_in_log r -> Forall file_law (default [] dir) -> journal_law (journal c) -> 0 <= cursor c < 2 ^ 64 ->
  Next dir r c = (c', res) ->
  filter c' = filter c /\ journal_law (journal c') /\ 0 <= cursor c' < 2 ^ 64 /\
  match res with
  | NextFrame fr => advances (tail r) (filter c) (cursor c) (cursor c') (Some fr)
  | NextWait => all_skipped (tail r) (filter c) (cursor c) (cursor c') /\ head r <= cursor c'
  | _ => all_skipped (tail r) (filter c) (cursor c) (cursor c')
  end.
Proof.
  intros Hr Hd Hj Hc. unfold Next, read_ring. destruct (Z.ltb_spec (cursor c) (tail r)).
  - unfold readFromJournal. destruct (discover_journal dir c) as [j|] eqn:Ej.
    2:{ intros [= <- <-]. cbn. auto using all_skipped_refl. }
    pose proof (discover_law dir c j Hd Hj Ej) as Hlaw.
    assert (Hlater : Forall file_law (drop (S (jIdx j)) (jFiles j))) by (apply Forall_drop, Hlaw).
    pose proof Hr as (Ht & Hh & _).
    pose proof (read_files_spec (tail r) (drop (S (jIdx j)) (jFiles j)) c j Hlaw Hlater Hc ltac:(lia)) as H1.
    destruct (read_files _ _ _ _) as [c1 jres]. destruct H1 as (H1 & H2 & H3 & H4 & H5).
    destruct jres as [fr| | |e a|]; cbn [journal_out] in H1; try (intros [= <- <-]; auto).
    intros Hn. pose proof (next_ring_spec r (Z.to_nat (head r - cursor c1)) c1 Hr H4 ltac:(lia)) as Hs.
    rewrite Hn in Hs. destruct Hs as (S1 & S2 & S3 & S4). rewrite H2 in *.
    split; [done|]. split; [now rewrite S2|]. split; [done|].
    destruct res; [eapply advances_trans; eassumption|eapply all_skipped_trans; eassumption|eapply all_skipped_trans; eassumption|].
    destruct S4. split; [eapply all_skipped_trans; eassumption|done].
  - intros Hn. pose proof (next_ring_spec r (Z.to_nat (head r - cursor c)) c Hr Hc ltac:(lia)) as Hs.
    rewrite Hn in Hs. destruct Hs as (S1 & S2 & S3 & S4). split; [done|]. split; [now rewrite S2|]. auto.
Qed.


End Log.

(** * A concrete consumer *)

(** Six frames from sources 10 to 15, of which the ring keeps the last four and a
    journal file the first three. *)
Definition demo_log (s : Z) : option ringEntry :=
  if (1 <=? s) && (s <=? 6) then Some (demo_entry (9 + s) s) else None.
Definition demo_ring : Ring := Eval vm_compute in append_all ring4 (map demo_entry [10; 11; 12; 13; 14; 15]).
Definition demo_jframe (s : Z) : Z * journalFrame :=
  (s, mkJournalFrame (re_Timestamp (demo_entry (9 + s) s)) (re_Header (demo_entry (9 + s) s))
        (re_RawData (demo_entry (9 + s) s))).
Definition demo_file : JournalFile :=
  mkJournalFile true (Some 1) [demo_jframe 1; demo_jframe 2; demo_jframe 3]
    (fun s => Some (if s <=? 1 then [demo_jframe 1; demo_jframe 2; demo_jframe 3]
                    else [demo_jframe 2; demo_jframe 3])).
Definition demo_consumer : Consumer :=
  mkConsumer 2 (Some (mkResolved None None (Some {[ 13 ]}) None None)) None.

Lemma demo_ring_in_log : ring_in_log demo_log demo_ring.
Proof.
  split; [cbn; lia|]. split; [cbn; lia|]. intros s e. unfold readEntry. cbn [tail head demo_ring].
  destruct (Z.ltb_spec s 3); [done|]. destruct (Z.leb_spec 7 s); [done|]. cbn [orb].
  assert (Hs : s = 3 \/ s = 4 \/ s = 5 \/ s = 6) by lia.
  destruct_or! Hs; subst s; intros Hd; vm_compute in Hd; injection Hd as <-; split; reflexivity.
Qed.

Lemma demo_jframe_in_log s : 1 <= s <= 6 -> in_log demo_log (demo_jframe s).
Proof.
  intros Hs _. exists (demo_entry (9 + s) s). split; [|done]. unfold demo_log. cbn [demo_jframe fst].
  now rewrite (proj2 (Z.leb_le 1 s)), (proj2 (Z.leb_le s 6)) by lia.
Qed.

Lemma demo_file_law : file_law demo_log demo_file.
Proof.
  split; cbn [demo_file jf_frames jf_seek].
  - repeat (apply Forall_cons; split; [apply demo_jframe_in_log; lia|]). by apply Forall_nil.
  - intros s rest. destruct (s <=? 1); intros [= <-];
      repeat (apply Forall_cons; split; [apply demo_jframe_in_log; lia|]); by apply Forall_nil.
Qed.

