(* ===== verification/JournalFormat.v ===== *)
(** The block format of journal files: [journal/format.go], and the byte-level
    helpers [journal_writer.go] and [journal/reader.go] share.

    A block is written in place, one bounds-checked store after another
    ([put], [copy_at]); the lemmas collapse a run of adjacent stores into the
    store of one byte string, which is what the reader's slices give back. *)

From Stdlib Require Import Ascii.
From S2P Require Import Prelude.

(** * Constants *)

Definition CompressionNone : Z := 0.
Definition CompressionZstd : Z := 1.
Definition CompressionZstdDict : Z := 2.

Definition Magic : list Z := [76; 80; 74].
Definition Version : Z := 1.
Definition Version2 : Z := 2.
Definition BlockIndexMagic : list Z := [76; 80; 74; 73].
Definition FileHeaderSize : Z := 16.
Definition BlockTrailerLen : Z := 10.
Definition BlockHeaderLen : Z := 12.
Definition BlockHeaderLenDict : Z := 16.
Definition BlockDataOffsetV1 : Z := 8.
Definition BlockDataOffsetV2 : Z := 16.
Definition DeviceEntryMaxSize : Z := 1 + 8 + 4 + 2 + 4 + 128.

(** The errors of the package, by the condition that raises them, and the two
    ways the code can leave by a runtime panic or an operating-system error. *)
Inductive jerror :=
| ErrPanic                      (* index or slice out of range, or [make] of a bad length *)
| ErrRead                       (* [io.ReadFull] or [Seek] *)
| ErrNilFile                    (* a write to a closed (nil) file *)
| ErrHeader                     (* bad magic, version, block size or compression *)
| ErrIndex                      (* block index absent or malformed *)
| ErrChecksum
| ErrDecompress
| ErrBlockRange
| ErrFrame                      (* a frame that does not parse *)
| ErrTable                      (* a device table that does not parse *)
| ErrEmpty
| ErrNoSeq
| ErrBlockSize.

(** * Names of files

    A journal file is named after its prefix and its start, to the millisecond.
    [os.Create] truncates a file that has the name already: what it held is gone. *)

Definition file_name (ts : time) : Z := ts / millisecond.

Definition os_Create (ts : time) (files : list (time * list Z)) : list (time * list Z) :=
  List.filter (fun f => negb (file_name f.1 =? file_name ts)) files.

Definition name_free (ts : time) (files : list (time * list Z)) : bool :=
  forallb (fun f => negb (file_name f.1 =? file_name ts)) files.

Lemma os_Create_free ts files : name_free ts files = true -> os_Create ts files = files.
Proof.
  unfold name_free, os_Create. induction files as [|f files IH]; [done|]. cbn. intros [-> H]%andb_true_iff. by rewrite IH.
Qed.

(** * CRC-32C

    [hash/crc32] with the Castagnoli table: reflected polynomial [0x82F63B78],
    register initialised to and finally inverted by all ones. *)

Definition crc_bit (crc : Z) : Z :=
  if Z.odd crc then Z.lxor (Z.shiftr crc 1) 0x82F63B78 else Z.shiftr crc 1.
Definition crc_byte (crc b : Z) : Z := Nat.iter 8 crc_bit (Z.lxor crc b).
Definition Checksum (bs : list Z) : Z := u32 (Z.lxor (foldl crc_byte 0xFFFFFFFF bs) 0xFFFFFFFF).

(** The catalogue's check value of CRC-32C on "123456789". *)
Example Checksum_check : Checksum [49; 50; 51; 52; 53; 54; 55; 56; 57] = 0xE3069283.
Proof. vm_compute. reflexivity. Qed.

Lemma Checksum_range bs : 0 <= Checksum bs < 2 ^ 32.
Proof. apply wrap_range. lia. Qed.

(** * Wall-clock times

    [time.Time.UnixMicro] and [time.UnixMicro]; the zero instant is
    62135596800 seconds before the Unix epoch. *)

Definition unix_epoch_us : Z := 62135596800 * 1000000.
Definition Time_UnixMicro (t : time) : Z := i64 (t / 1000 - unix_epoch_us).
Definition time_UnixMicro (us : Z) : time := (us + unix_epoch_us) * 1000.

(** * Slices of a buffer *)

Definition zlen {A} (l : list A) : Z := Z.of_nat (length l).

(** [b[i:j]] for offsets the code has compared with the bounds. *)
Definition sub (b : list Z) (i j : Z) : list Z := slice (Z.to_nat i) (Z.to_nat j) b.

Definition splice (b : list Z) (off : Z) (bs : list Z) : list Z :=
  take (Z.to_nat off) b ++ bs ++ drop (Z.to_nat off + length bs) b.

(** A store of all of [bs] at [off] ([b[off] = x], [PutUintN(b[off:], x)],
    [PutUvarint(b[off:], x)]), which panics when it does not fit. *)
Definition put (b : list Z) (off : Z) (bs : list Z) : result jerror (list Z) :=
  if (0 <=? off) && (off + zlen bs <=? zlen b) then Ok (splice b off bs) else Err ErrPanic.

(** [copy(b[off:], bs)] stops at the end of the buffer; the slice expression
    itself panics past it. *)
Definition copy_at (b : list Z) (off : Z) (bs : list Z) : result jerror (list Z) :=
  if (0 <=? off) && (off <=? zlen b)
  then Ok (splice b off (take (Z.to_nat (zlen b - off)) bs)) else Err ErrPanic.

(** [PutUvarint]'s length, computed without encoding. *)
Fixpoint uvarint_size_loop (fuel : nat) (v n : Z) : Z :=
  match fuel with
  | O => n
  | S fuel => if v >=? 128 then uvarint_size_loop fuel (Z.shiftr v 7) (n + 1) else n
  end.
Definition UvarintSize (v : Z) : Z := uvarint_size_loop 10 v 1.

Definition PutLenPrefixedString (b : list Z) (off : Z) (s : string) : result jerror (list Z * Z) :=
  let n := Z.min (Z.of_nat (strlen s)) 255 in
  b ← put b off [n];
  b ← copy_at b (off + 1) (take (Z.to_nat n) (bytes_of_string s));
  Ok (b, 1 + n).

Definition ReadLenPrefixedString (block : list Z) (off : Z) : result jerror (string * Z) :=
  if off >=? zlen block then Err ErrTable
  else match block !! Z.to_nat off with
       | Some n =>
           if off + 1 + n >? zlen block then Err ErrTable
           else Ok (string_of_bytes (sub block (off + 1) (off + 1 + n)), 1 + n)
       | None => Err ErrPanic
       end.

(** * Devices and device tables *)

Record JDevice := mkJDevice {
  jd_Source : Z;
  jd_NAME : Z;
  jd_ProductCode : Z;
  jd_ModelID : string;
  jd_SoftwareVersion : string;
  jd_ModelVersion : string;
  jd_ModelSerial : string
}.

(** [deviceTableEntry], also [flushBlock]'s local [devEntry]. *)
Record deviceTableEntry := mkEntry {
  te_Source : Z;
  te_NAME : Z;
  te_ActiveFrom : Z;
  te_ProductCode : Z;
  te_ModelID : string;
  te_SoftwareVersion : string;
  te_ModelVersion : string;
  te_ModelSerial : string
}.

Definition toDevice (e : deviceTableEntry) : JDevice :=
  mkJDevice (te_Source e) (te_NAME e) (te_ProductCode e) (te_ModelID e)
    (te_SoftwareVersion e) (te_ModelVersion e) (te_ModelSerial e).

(** The block index of compressed files: the offset table, the count, the magic. *)
Definition index_bytes (offs : list Z) : list Z :=
  concat (map le64 offs) ++ le32 (zlen offs) ++ BlockIndexMagic.

(** * Stores *)

Lemma length_splice b off bs :
  0 <= off -> off + zlen bs <= zlen b -> length (splice b off bs) = length b.
Proof.
  unfold zlen, splice. intros. rewrite !length_app, length_take, length_drop. lia.
Qed.

Lemma put_Ok b off bs : 0 <= off -> off + zlen bs <= zlen b -> put b off bs = Ok (splice b off bs).
Proof. intros. unfold put. now rewrite (proj2 (Z.leb_le _ _)), (proj2 (Z.leb_le _ _)) by lia. Qed.

Lemma copy_at_Ok b off bs :
  0 <= off -> off + zlen bs <= zlen b -> copy_at b off bs = Ok (splice b off bs).
Proof.
  intros. unfold copy_at, zlen in *.
  rewrite (proj2 (Z.leb_le _ _)), (proj2 (Z.leb_le _ _)) by lia. cbn [andb].
  now rewrite take_ge by lia.
Qed.

(** Adjacent stores are one store. *)
Lemma splice_splice b off x y :
  0 <= off -> off + zlen x + zlen y <= zlen b ->
  splice (splice b off x) (off + zlen x) y = splice b off (x ++ y).
Proof.
  unfold zlen. intros. unfold splice at 1.
  assert (E : take (Z.to_nat (off + Z.of_nat (length x))) (splice b off x)
              = take (Z.to_nat off) b ++ x).
  { unfold splice. rewrite (app_assoc _ x). apply take_app_length'.
    rewrite length_app, length_take. lia. }
  rewrite E. unfold splice. rewrite <- !app_assoc. do 3 f_equal.
  rewrite length_app, (app_assoc _ x), drop_app_ge;
    rewrite ?length_app, ?length_take; [|lia].
  rewrite drop_drop. f_equal. lia.
Qed.

Lemma splice_nil b off : 0 <= off <= zlen b -> splice b off [] = b.
Proof. intros. unfold splice. cbn [length]. rewrite Nat.add_0_r. apply take_drop. Qed.

(** What lies before and at a store. *)
Lemma take_splice b off bs n :
  0 <= off -> off + zlen bs <= zlen b -> (n <= Z.to_nat off)%nat ->
  take n (splice b off bs) = take n b.
Proof.
  intros. unfold splice, zlen in *. rewrite take_app_le by (rewrite length_take; lia).
  rewrite take_take. f_equal. lia.
Qed.

Lemma take_splice_exact b off bs :
  0 <= off -> off + zlen bs <= zlen b ->
  take (Z.to_nat off + length bs) (splice b off bs) = take (Z.to_nat off) b ++ bs.
Proof.
  intros. unfold splice, zlen in *. rewrite app_assoc. apply take_app_length'.
  rewrite length_app, length_take. lia.
Qed.

Lemma sub_splice b off bs j :
  0 <= off -> off + zlen bs <= zlen b -> off + zlen bs <= j ->
  sub (splice b off bs) off j = bs ++ sub b (off + zlen bs) j.
Proof.
  unfold zlen, sub, slice. intros. unfold splice.
  rewrite drop_app_length' by (rewrite length_take; lia).
  rewrite take_app_ge by lia. f_equal.
  replace (Z.to_nat (off + Z.of_nat (length bs))) with (Z.to_nat off + length bs)%nat by lia.
  f_equal. lia.
Qed.

Lemma sub_splice_before b off bs i j :
  0 <= off -> off + zlen bs <= zlen b -> 0 <= i -> j <= off ->
  sub (splice b off bs) i j = sub b i j.
Proof.
  intros. unfold sub, slice. rewrite !take_drop_commute.
  destruct (decide (j <= i)).
  - replace (Z.to_nat i + (Z.to_nat j - Z.to_nat i))%nat with (Z.to_nat i) by lia.
    now rewrite !drop_ge by (rewrite length_take; lia).
  - rewrite take_splice by (try assumption; lia). done.
Qed.

Lemma sub_splice_after b off bs i j :
  0 <= off -> off + zlen bs <= zlen b -> off + zlen bs <= i ->
  sub (splice b off bs) i j = sub b i j.
Proof.
  unfold zlen. intros. unfold sub, slice, splice. f_equal. rewrite (app_assoc _ bs).
  rewrite drop_app_ge by (rewrite length_app, length_take; lia).
  rewrite length_app, length_take, drop_drop. f_equal. lia.
Qed.

Lemma sub_app_l b i j k : 0 <= i <= j -> j <= k -> k <= zlen b -> sub b i j ++ sub b j k = sub b i k.
Proof.
  unfold zlen, sub, slice. intros.
  replace (Z.to_nat k - Z.to_nat i)%nat
    with ((Z.to_nat j - Z.to_nat i) + (Z.to_nat k - Z.to_nat j))%nat by lia.
  rewrite <- take_take_drop, drop_drop. do 3 f_equal. lia.
Qed.

Lemma length_sub b i j : 0 <= i <= j -> j <= zlen b -> zlen (sub b i j) = j - i.
Proof. unfold zlen, sub, slice. intros. rewrite length_take, length_drop. lia. Qed.

(** A slice whose contents are known starts with what its bytes start with. *)
Lemma sub_prefix b i j x y :
  0 <= i -> sub b i j = x ++ y -> sub b i (i + zlen x) = x.
Proof.
  unfold zlen, sub, slice. intros Hi E.
  assert (L : length (x ++ y) = length (take (Z.to_nat j - Z.to_nat i) (drop (Z.to_nat i) b)))
    by now rewrite E.
  rewrite length_app, length_take in L.
  replace (Z.to_nat (i + Z.of_nat (length x)) - Z.to_nat i)%nat with (length x) by lia.
  transitivity (take (length x) (take (Z.to_nat j - Z.to_nat i) (drop (Z.to_nat i) b))).
  - rewrite take_take. f_equal. lia.
  - rewrite E. apply take_app_length.
Qed.

Lemma sub_suffix b i j x y :
  0 <= i -> sub b i j = x ++ y -> sub b (i + zlen x) j = y.
Proof.
  unfold zlen, sub, slice. intros Hi E.
  replace (Z.to_nat (i + Z.of_nat (length x))) with (Z.to_nat i + length x)%nat by lia.
  rewrite <- drop_drop. rewrite <- (drop_app_length x y), <- E.
  rewrite skipn_firstn_comm. f_equal. lia.
Qed.

(** * Uvarints *)

Lemma put_uvarint_bytes fuel : forall x, bytes_ok (put_uvarint_go fuel x).
Proof.
  induction fuel as [|fuel IH]; intros x; [constructor|]. cbn [put_uvarint_go].
  destruct (x >=? 128); repeat constructor; try apply Z.mod_pos_bound; try lia; [| |apply IH].
  - apply Z.lor_nonneg. split; [apply Z.mod_pos_bound|]; lia.
  - apply (lor_range 8); [lia| |lia]. apply Z.mod_pos_bound. lia.
Qed.

Lemma uvarint_chunk acc x s :
  0 <= x -> 0 <= s -> Z.lor (Z.lor acc (Z.shiftl (x mod 128) s)) (Z.shiftl (Z.shiftr x 7) (s + 7))
  = Z.lor acc (Z.shiftl x s).
Proof.
  intros Hx Hs. rewrite <- Z.lor_assoc. f_equal. apply Z.bits_inj'. intros i Hi.
  rewrite Z.lor_spec, !testbit_shiftl by lia.
  destruct (Z.leb_spec s i) as [H|H]; destruct (Z.leb_spec (s + 7) i) as [H'|H']; cbn [andb];
    try lia; rewrite ?orb_false_r, ?orb_false_l; try done.
  - rewrite Z.shiftr_spec by lia. change 128 with (2 ^ 7). rewrite Z.mod_pow2_bits_high by lia.
    cbn [orb]. f_equal. lia.
  - change 128 with (2 ^ 7). now rewrite Z.mod_pow2_bits_low by lia.
Qed.

Lemma uvarint_go_put fuel : forall i acc x rest,
  (i + fuel = 10)%nat -> 0 <= x < 2 ^ (64 - 7 * Z.of_nat i) -> (0 < fuel)%nat ->
  uvarint_go i acc (7 * Z.of_nat i) (put_uvarint_go fuel x ++ rest)
  = Some (Z.lor acc (Z.shiftl x (7 * Z.of_nat i)), (i + length (put_uvarint_go fuel x))%nat).
Proof.
  induction fuel as [|fuel IH]; intros i acc x rest Hi Hx Hf; [lia|].
  assert (Hsh : u64 (Z.shiftl x (7 * Z.of_nat i)) = Z.shiftl x (7 * Z.of_nat i)).
  { apply wrap_small. rewrite Z.shiftl_mul_pow2 by lia.
    replace 64 with ((64 - 7 * Z.of_nat i) + 7 * Z.of_nat i) at 1 by lia.
    rewrite Z.pow_add_r by lia.
    pose proof (Z.pow_pos_nonneg 2 (7 * Z.of_nat i) ltac:(lia) ltac:(lia)). nia. }
  cbn [put_uvarint_go]. rewrite Z.geb_leb. destruct (Z.leb_spec 128 x) as [Hge|Hlt].
  - assert (Hfuel : (0 < fuel)%nat).
    { destruct fuel; [|lia]. assert (i = 9)%nat as -> by lia. cbn in Hx. lia. }
    cbn [app uvarint_go]. rewrite (proj2 (Nat.eqb_neq _ _)) by lia.
    assert (Hlor : Z.lor (x mod 256) 128 >= 128).
    { assert (E : Z.testbit (Z.lor (x mod 256) 128) 7 = true).
      { rewrite Z.lor_spec. now rewrite orb_true_r. }
      pose proof (lor_range 8 (x mod 256) 128 ltac:(lia) ltac:(apply Z.mod_pos_bound; lia) ltac:(lia)).
      destruct (Z.lt_ge_cases (Z.lor (x mod 256) 128) (2 ^ 7)); [|lia].
      rewrite (testbit_small 7) in E by lia. done. }
    rewrite (proj2 (Z.ltb_ge _ _)) by lia.
    assert (Hand : Z.land (Z.lor (x mod 256) 128) 127 = x mod 128).
    { apply (bits_eq 7); [lia| |apply Z.mod_pos_bound; lia|].
      - apply land_range_r; lia.
      - intros j Hj. rewrite Z.land_spec, Z.lor_spec.
        change 256 with (2 ^ 8). change 128 with (2 ^ 7). rewrite !Z.mod_pow2_bits_low by lia.
        rewrite Z.pow2_bits_false, orb_false_r by lia. change 127 with (Z.ones 7).
        now rewrite Z.ones_spec_low, andb_true_r by lia. }
    rewrite Hand.
    assert (Hmod : u64 (Z.shiftl (x mod 128) (7 * Z.of_nat i))
                   = Z.shiftl (x mod 128) (7 * Z.of_nat i)).
    { apply wrap_small. rewrite Z.shiftl_mul_pow2 in Hsh |- * by lia.
      pose proof (wrap_range 64 (x * 2 ^ (7 * Z.of_nat i)) ltac:(lia)).
      pose proof (Z.mod_pos_bound x 128 ltac:(lia)). pose proof (Z.mod_le x 128 ltac:(lia) ltac:(lia)).
      pose proof (Z.pow_pos_nonneg 2 (7 * Z.of_nat i) ltac:(lia) ltac:(lia)). nia. }
    rewrite Hmod. replace (7 * Z.of_nat i + 7) with (7 * Z.of_nat (S i)) by lia.
    rewrite IH; [|lia| |lia].
    + replace (7 * Z.of_nat (S i)) with (7 * Z.of_nat i + 7) by lia.
      rewrite uvarint_chunk by lia. cbn [length]. do 2 f_equal. lia.
    + rewrite Z.shiftr_div_pow2 by lia. split; [apply Z.div_pos; lia|].
      apply Z.div_lt_upper_bound; [lia|].
      assert (57 >= 7 * Z.of_nat i).
      { destruct (decide (i <= 8)%nat); [lia|]. assert (i = 9)%nat as -> by lia. cbn in Hx. lia. }
      replace (64 - 7 * Z.of_nat i) with (7 + (64 - 7 * Z.of_nat (S i))) in Hx by lia.
      destruct (decide (7 * Z.of_nat (S i) <= 64)); [|lia].
      rewrite Z.pow_add_r in Hx by lia. lia.
  - cbn [app uvarint_go]. rewrite (proj2 (Nat.eqb_neq _ _)) by lia.
    rewrite (Z.mod_small x 256) by lia. rewrite (proj2 (Z.ltb_lt _ _)) by lia.
    rewrite Hsh. destruct (Nat.eqb_spec i 9) as [->|].
    + cbn in Hx. rewrite (proj2 (Z.ltb_ge _ _)) by lia. done.
    + cbn [andb length]. do 2 f_equal. lia.
Qed.

(** A varint followed by anything reads back, and says how long it is. *)
Lemma Uvarint_PutUvarint x rest :
  0 <= x < 2 ^ 64 -> Uvarint (PutUvarint x ++ rest) = Some (x, length (PutUvarint x)).
Proof.
  intros Hx. unfold Uvarint, PutUvarint. change 0 with (7 * Z.of_nat 0) at 2.
  rewrite uvarint_go_put; [|lia|cbn; lia|lia]. cbn [Z.of_nat]. rewrite Z.mul_0_r, Z.shiftl_0_r. done.
Qed.

Lemma uvarint_size_loop_go fuel : forall x n,
  (0 < fuel)%nat -> 0 <= x < 2 ^ (7 * Z.of_nat fuel) ->
  uvarint_size_loop fuel x n = n - 1 + zlen (put_uvarint_go fuel x).
Proof.
  unfold zlen. induction fuel as [|fuel IH]; intros x n Hf Hx; [lia|].
  cbn [uvarint_size_loop put_uvarint_go]. rewrite Z.geb_leb.
  destruct (Z.leb_spec 128 x); [|cbn; lia].
  assert (0 < fuel)%nat by (destruct fuel; [cbn in Hx; lia|lia]).
  rewrite IH; [cbn [length]; lia|lia|].
  rewrite Z.shiftr_div_pow2 by lia. split; [apply Z.div_pos; lia|].
  apply Z.div_lt_upper_bound; [lia|]. rewrite <- Z.pow_add_r by lia.
  now replace (7 + 7 * Z.of_nat fuel) with (7 * Z.of_nat (S fuel)) by lia.
Qed.

Lemma UvarintSize_length x : 0 <= x < 2 ^ 64 -> UvarintSize x = zlen (PutUvarint x).
Proof. intros. unfold UvarintSize, PutUvarint. rewrite uvarint_size_loop_go by (cbn; lia). lia. Qed.

(** * Strings and device table entries *)

Definition enc_string (s : string) : list Z := Z.of_nat (strlen s) :: bytes_of_string s.

Definition enc_entry (e : deviceTableEntry) : list Z :=
  te_Source e :: le64 (te_NAME e) ++ le32 (te_ActiveFrom e) ++ le16 (te_ProductCode e) ++
  enc_string (te_ModelID e) ++ enc_string (te_SoftwareVersion e) ++
  enc_string (te_ModelVersion e) ++ enc_string (te_ModelSerial e).

(** The bytes of a device table: a 16-bit count and the entries. *)
Definition enc_table (es : list deviceTableEntry) : list Z :=
  le16 (zlen es) ++ concat (map enc_entry es).

Record entry_ok (e : deviceTableEntry) : Prop := {
  te_ok_source : 0 <= te_Source e < 2 ^ 8;
  te_ok_name : 0 <= te_NAME e < 2 ^ 64;
  te_ok_active : 0 <= te_ActiveFrom e < 2 ^ 32;
  te_ok_code : 0 <= te_ProductCode e < 2 ^ 16;
  te_ok_model : (strlen (te_ModelID e) <= 255)%nat;
  te_ok_software : (strlen (te_SoftwareVersion e) <= 255)%nat;
  te_ok_version : (strlen (te_ModelVersion e) <= 255)%nat;
  te_ok_serial : (strlen (te_ModelSerial e) <= 255)%nat
}.

Definition entry_size (e : deviceTableEntry) : Z :=
  15 + 4 + Z.of_nat (strlen (te_ModelID e)) + Z.of_nat (strlen (te_SoftwareVersion e)) +
  Z.of_nat (strlen (te_ModelVersion e)) + Z.of_nat (strlen (te_ModelSerial e)).

Lemma zlen_app {A} (x y : list A) : zlen (x ++ y) = zlen x + zlen y.
Proof. unfold zlen. rewrite length_app. lia. Qed.

Lemma zlen_cons {A} (a : A) (x : list A) : zlen (a :: x) = 1 + zlen x.
Proof. unfold zlen. cbn [length]. lia. Qed.

Lemma zlen_nil {A} : zlen (@nil A) = 0.
Proof. done. Qed.

Lemma zlen_nonneg {A} (x : list A) : 0 <= zlen x.
Proof. unfold zlen. lia. Qed.

Lemma zlen_le16 z : zlen (le16 z) = 2. Proof. unfold zlen, le16. now rewrite length_le_bytes. Qed.
Lemma zlen_le32 z : zlen (le32 z) = 4. Proof. unfold zlen, le32. now rewrite length_le_bytes. Qed.
Lemma zlen_le64 z : zlen (le64 z) = 8. Proof. unfold zlen, le64. now rewrite length_le_bytes. Qed.

Lemma zlen_bytes_of_string s : zlen (bytes_of_string s) = Z.of_nat (strlen s).
Proof. done. Qed.

Lemma zlen_enc_string s : zlen (enc_string s) = 1 + Z.of_nat (strlen s).
Proof. unfold enc_string. now rewrite zlen_cons. Qed.

Create HintDb zlen.
#[export] Hint Rewrite @zlen_app @zlen_cons @zlen_nil zlen_le16 zlen_le32 zlen_le64
  zlen_enc_string zlen_bytes_of_string : zlen.

Lemma zlen_enc_entry e : zlen (enc_entry e) = entry_size e.
Proof. unfold enc_entry, entry_size. autorewrite with zlen. lia. Qed.
#[export] Hint Rewrite zlen_enc_entry : zlen.

Lemma zlen_splice b off bs : 0 <= off -> off + zlen bs <= zlen b -> zlen (splice b off bs) = zlen b.
Proof. intros. unfold zlen. now rewrite length_splice. Qed.

(** Two stores in a row, the second where the first ends. *)
Lemma put_splice b off x y :
  0 <= off -> off + zlen x + zlen y <= zlen b ->
  put (splice b off x) (off + zlen x) y = Ok (splice b off (x ++ y)).
Proof.
  intros. pose proof (zlen_nonneg x). pose proof (zlen_nonneg y).
  rewrite put_Ok by (rewrite ?zlen_splice; lia). now rewrite splice_splice by lia.
Qed.

Lemma copy_at_splice b off x y :
  0 <= off -> off + zlen x + zlen y <= zlen b ->
  copy_at (splice b off x) (off + zlen x) y = Ok (splice b off (x ++ y)).
Proof.
  intros. pose proof (zlen_nonneg x). pose proof (zlen_nonneg y).
  rewrite copy_at_Ok by (rewrite ?zlen_splice; lia). now rewrite splice_splice by lia.
Qed.

Lemma PutLenPrefixedString_splice b off x s :
  (strlen s <= 255)%nat -> 0 <= off -> off + zlen x + zlen (enc_string s) <= zlen b ->
  PutLenPrefixedString (splice b off x) (off + zlen x) s
  = Ok (splice b off (x ++ enc_string s), zlen (enc_string s)).
Proof.
  intros Hs Ho Hb. rewrite zlen_enc_string in *. unfold PutLenPrefixedString.
  rewrite Z.min_l, Nat2Z.id by lia.
  rewrite (take_ge (bytes_of_string s)) by (unfold strlen; lia).
  rewrite put_splice by (autorewrite with zlen; lia). cbn [mbind result_bind].
  replace (off + zlen x + 1) with (off + zlen (x ++ [Z.of_nat (strlen s)]))
    by (autorewrite with zlen; lia).
  rewrite copy_at_splice by (autorewrite with zlen; lia). cbn [mbind result_bind].
  unfold enc_string. now rewrite <- app_assoc.
Qed.

Lemma sub_to_end b off : sub b off (zlen b) = drop (Z.to_nat off) b.
Proof. unfold sub, slice, zlen. apply take_ge. rewrite length_drop. lia. Qed.

Lemma sub_lookup b off j c rest :
  0 <= off -> sub b off j = c :: rest -> b !! Z.to_nat off = Some c.
Proof.
  unfold sub, slice. intros Ho E.
  assert (Hc : take (Z.to_nat j - Z.to_nat off) (drop (Z.to_nat off) b) !! 0%nat = Some c) by now rewrite E.
  rewrite lookup_take_Some, lookup_drop, Nat.add_0_r in Hc. apply Hc.
Qed.

Lemma sub_length b off j x : 0 <= off -> sub b off j = x -> zlen x <= Z.max 0 (zlen b - off).
Proof. unfold sub, slice, zlen. intros ? <-. rewrite length_take, length_drop. lia. Qed.

Lemma ReadLenPrefixedString_enc b off j s rest :
  0 <= off -> sub b off j = enc_string s ++ rest ->
  ReadLenPrefixedString b off = Ok (s, zlen (enc_string s)).
Proof.
  intros Ho E. pose proof (sub_length _ _ _ _ Ho E) as L.
  autorewrite with zlen in L. pose proof (zlen_nonneg rest).
  unfold ReadLenPrefixedString. rewrite Z.geb_leb, (proj2 (Z.leb_gt _ _)) by lia.
  rewrite (sub_lookup _ _ _ _ _ Ho E). rewrite Z.gtb_ltb, (proj2 (Z.ltb_ge _ _)) by lia.
  apply (sub_suffix b off j [Z.of_nat (strlen s)] (bytes_of_string s ++ rest)) in E; [|done].
  replace (off + 1 + Z.of_nat (strlen s))
    with (off + zlen [Z.of_nat (strlen s)] + zlen (bytes_of_string s)) by (autorewrite with zlen; lia).
  replace (off + 1) with (off + zlen [Z.of_nat (strlen s)]) by (autorewrite with zlen; lia).
  erewrite sub_prefix; [|autorewrite with zlen; lia|exact E].
  rewrite string_of_bytes_of_string, zlen_enc_string. done.
Qed.

(** * Frames *)

(** A frame as a block stores it: the delta to the previous frame's time, the
    CAN identifier, the payload; eight-byte payloads go without a length. *)
Abbreviation raw_frame := (Z * Z * list Z)%type.

Definition enc_frame (r : raw_frame) : list Z :=
  let '(delta, canID, data) := r in
  PutUvarint delta ++
  (if zlen data =? 8 then le32 (Z.lor canID 0x80000000) ++ data
   else le32 canID ++ PutUvarint (zlen data) ++ data).

Definition enc_frames (rs : list raw_frame) : list Z := concat (map enc_frame rs).

(** What the encoding can carry: a 64-bit delta, a 31-bit identifier. *)
Definition raw_ok (r : raw_frame) : Prop :=
  let '(delta, canID, data) := r in
  0 <= delta < 2 ^ 64 /\ 0 <= canID < 2 ^ 31 /\ zlen data < 2 ^ 48.

Lemma put_uvarint_nonempty x : (0 < length (PutUvarint x))%nat.
Proof. unfold PutUvarint. cbn [put_uvarint_go]. destruct (x >=? 128); cbn [length]; lia. Qed.

Lemma enc_frame_pos r : 5 <= zlen (enc_frame r).
Proof.
  destruct r as [[d id] data]. unfold enc_frame. pose proof (put_uvarint_nonempty d).
  assert (0 < zlen (PutUvarint d)) by (unfold zlen; lia). rewrite zlen_app.
  pose proof (zlen_nonneg data). pose proof (zlen_nonneg (PutUvarint (zlen data))).
  destruct (zlen data =? 8); autorewrite with zlen; lia.
Qed.

Lemma zlen_sub_le b i j : 0 <= i -> zlen (sub b i j) <= Z.max 0 (j - i).
Proof. intros. unfold sub, slice, zlen. rewrite length_take. lia. Qed.

Lemma uint_sub b off j n x rest :
  0 <= off -> 0 <= n -> sub b off j = x ++ rest -> zlen x = n -> sub b off (off + n) = x.
Proof. intros Ho Hn E <-. eapply sub_prefix; eauto. Qed.

(** The flag the top bit of a stored identifier carries. *)
Lemma stored_id id :
  0 <= id < 2 ^ 31 ->
  Z.land (Z.lor id 0x80000000) 0x80000000 <> 0 /\
  Z.land (Z.lor id 0x80000000) 0x7FFFFFFF = id /\
  Z.land id 0x80000000 = 0 /\ Z.land id 0x7FFFFFFF = id /\
  0 <= Z.lor id 0x80000000 < 2 ^ 32.
Proof.
  intros Hid. change 0x80000000 with (2 ^ 31). change 0x7FFFFFFF with (Z.ones 31).
  assert (Hl : Z.land id (2 ^ 31) = 0).
  { apply Z.bits_inj'. intros i Hi. rewrite Z.land_spec, Z.bits_0, Z.pow2_bits_eqb by lia.
    destruct (Z.eqb_spec 31 i) as [<-|]; [|now rewrite andb_false_r].
    now rewrite (testbit_small 31) by lia. }
  split; [|split; [|split; [|split]]].
  - intros E. assert (T : Z.testbit (Z.land (Z.lor id (2 ^ 31)) (2 ^ 31)) 31 = false)
      by now rewrite E.
    rewrite Z.land_spec, Z.lor_spec, Z.pow2_bits_true in T by lia. now rewrite orb_true_r in T.
  - apply Z.bits_inj'. intros i Hi. rewrite Z.land_spec, Z.lor_spec, Z.pow2_bits_eqb by lia.
    rewrite Z.testbit_ones by lia. rewrite (proj2 (Z.leb_le 0 i)) by lia. cbn [andb].
    destruct (Z.ltb_spec i 31).
    + rewrite (proj2 (Z.eqb_neq 31 i)) by lia. now rewrite orb_false_r, andb_true_r.
    + now rewrite andb_false_r, (testbit_small 31) by lia.
  - exact Hl.
  - rewrite Z.land_ones by lia. now apply Z.mod_small.
  - apply (lor_range 32); lia.
Qed.
