(* ===== verification/JournalReader.v ===== *)
(** Reading journal files: [journal/reader.go].

    A file is its bytes, read at absolute offsets ([Seek] then [ReadFull]).
    [NewReader] validates the header and finds the blocks, [Next] walks the
    frames, [SeekToSeq]/[SeekToTime] search the blocks, and the device table of
    the loaded block is resolved per frame.  The zstd decoder is a parameter.
    Prefetching is modelled in [Prefetch], which shows that it changes nothing; what a
    read or a decompression that fails leaves in the buffer is not modelled. *)

From Stdlib Require Import Ascii.
From stdpp Require Import sorting.
From S2P Require Import Prelude CanId JournalFormat.

Definition maxBlockIndexEntries : Z := Z.shiftl 1 18.

(** The largest length [make([]byte, n)] can allocate on a 64-bit platform. *)
Definition max_alloc : Z := 2 ^ 48.

(** * State *)

Record Entry := mkJEntry {
  e_Timestamp : time;
  e_Header : CANHeader;
  e_Data : list Z
}.

Record blockInfo := mkBlockInfo {
  bi_Offset : Z;
  bi_BaseTime : Z;
  bi_BaseSeq : Z
}.

(** The fields fixed by [NewReader]. *)
Record OpenJournal := mkOpenJournal {
  jr_r : list Z;
  jr_blockSize : Z;
  jr_compression : Z;
  jr_version : Z;
  jr_blocks : list blockInfo
}.

(** The fields of the loaded block.  [blockData] is nil or the same slice as
    [blockBuf], so one buffer and a flag describe both. *)
Record BlockState := mkBlockState {
  blockBuf : list Z;
  blockLoaded : bool;
  blockOff : Z;
  frameIdx : Z;
  frameCount : Z;
  baseTimeUs : Z;
  lastTimeUs : Z;
  devTableOff : Z;
  baseSeqBlock : Z
}.

Record Reader := mkReader {
  jr_file : OpenJournal;
  jr_currentBlock : Z;
  jr_block : BlockState;
  jr_entry : option Entry;
  jr_err : option jerror
}.

Definition set_block (jr : Reader) (b : BlockState) : Reader :=
  mkReader (jr_file jr) (jr_currentBlock jr) b (jr_entry jr) (jr_err jr).
Definition set_err (jr : Reader) (e : option jerror) : Reader :=
  mkReader (jr_file jr) (jr_currentBlock jr) (jr_block jr) (jr_entry jr) e.
Definition set_buf (b : BlockState) (buf : list Z) : BlockState :=
  mkBlockState buf (blockLoaded b) (blockOff b) (frameIdx b) (frameCount b) (baseTimeUs b)
    (lastTimeUs b) (devTableOff b) (baseSeqBlock b).
Definition unload (b : BlockState) : BlockState :=
  mkBlockState (blockBuf b) false (blockOff b) (frameIdx b) (frameCount b) (baseTimeUs b)
    (lastTimeUs b) (devTableOff b) (baseSeqBlock b).

(** * Reading the file *)

(** [Seek(pos, SeekStart)] and [ReadFull] of [n] bytes. *)
Definition read_full (r : list Z) (pos n : Z) : result jerror (list Z) :=
  if (0 <=? pos) && (pos + n <=? zlen r) then Ok (sub r pos (pos + n)) else Err ErrRead.

Definition uint (b : list Z) (i n : Z) : Z := le_val (sub b i (i + n)).

Fixpoint index_offsets (table : list Z) (tableStart : Z) (n : nat) (i prev : Z)
    : result jerror (list Z) :=
  match n with
  | O => Ok []
  | S n =>
      let off := i64 (uint table (i * 8) 8) in
      if off <? FileHeaderSize then Err ErrIndex
      else if off >=? tableStart then Err ErrIndex
      else if (i >? 0) && (off <=? prev) then Err ErrIndex
      else rest ← index_offsets table tableStart n (i + 1) off; Ok (off :: rest)
  end.

Fixpoint index_headers (r : list Z) (version : Z) (offs : list Z) : result jerror (list blockInfo) :=
  match offs with
  | [] => Ok []
  | off :: offs =>
      hdr ← read_full r off (if version =? Version2 then 16 else 8);
      rest ← index_headers r version offs;
      Ok (mkBlockInfo off (i64 (uint hdr 0 8)) (if version =? Version2 then uint hdr 8 8 else 0) :: rest)
  end.

Definition readBlockIndex (r : list Z) (version : Z) : result jerror (list blockInfo) :=
  let fileSize := zlen r in
  if fileSize <? FileHeaderSize + 8 then Err ErrIndex
  else
    tail ← read_full r (fileSize - 8) 8;
    let count := uint tail 0 4 in
    if negb (bool_decide (sub tail 4 8 = BlockIndexMagic)) then Err ErrIndex
    else if count =? 0 then Ok []
    else if count >? maxBlockIndexEntries then Err ErrIndex
    else
      let tableSize := count * 8 in
      let tableStart := fileSize - 8 - tableSize in
      if tableStart <? FileHeaderSize then Err ErrIndex
      else
        buf ← read_full r tableStart tableSize;
        offs ← index_offsets buf tableStart (Z.to_nat count) 0 0;
        index_headers r version offs.

Definition seqFieldLen (version : Z) : Z := if version =? Version2 then 8 else 0.

Definition header_len (compression version : Z) : Z :=
  if compression =? CompressionZstdDict then BlockHeaderLenDict + seqFieldLen version
  else BlockHeaderLen + seqFieldLen version.

(** The forward scan; every block is at least a header long, so the number of
    bytes bounds the rounds. *)
Fixpoint scan_loop (fuel : nat) (r : list Z) (compression version pos : Z) : list blockInfo :=
  match fuel with
  | O => []
  | S fuel =>
      let sfl := seqFieldLen version in
      let hdrLen := header_len compression version in
      if pos + hdrLen <=? zlen r then
        match read_full r pos hdrLen with
        | Err _ => []
        | Ok hdr =>
            let baseTime := i64 (uint hdr 0 8) in
            let baseSeq := if version =? Version2 then uint hdr 8 8 else 0 in
            let dict := compression =? CompressionZstdDict in
            let dictLen := if dict then uint hdr (8 + sfl) 4 else 0 in
            let compressedLen := if dict then uint hdr (12 + sfl) 4 else uint hdr (8 + sfl) 4 in
            if (dictLen =? 0) && (compressedLen =? 0) then []
            else
              let blockEnd := pos + hdrLen + dictLen + compressedLen in
              if blockEnd >? zlen r then []
              else mkBlockInfo pos baseTime baseSeq ::
                   scan_loop fuel r compression version blockEnd
        end
      else []
  end.

Definition scanBlocks (r : list Z) (compression version : Z) : list blockInfo :=
  scan_loop (length r) r compression version FileHeaderSize.

Definition NewReader (r : list Z) : result jerror Reader :=
  hdr ← read_full r 0 16;
  if negb (bool_decide (sub hdr 0 3 = Magic)) then Err ErrHeader
  else
    let version := uint hdr 3 1 in
    if negb (version =? Version) && negb (version =? Version2) then Err ErrHeader
    else
      let blockSize := uint hdr 4 4 in
      if (blockSize <? 4096) || negb (Z.land blockSize (blockSize - 1) =? 0) then Err ErrHeader
      else
        let compression := Z.land (uint hdr 8 4) 0xFF in
        if compression >? CompressionZstdDict then Err ErrHeader
        else
          let blocks :=
            if compression =? CompressionNone then
              let count := Z.quot (zlen r - FileHeaderSize) blockSize in
              map (fun i => mkBlockInfo (FileHeaderSize + Z.of_nat i * blockSize) 0 0)
                (seq 0 (Z.to_nat count))
            else match readBlockIndex r version with
                 | Ok bs => bs
                 | Err _ => scanBlocks r compression version
                 end in
          Ok (mkReader (mkOpenJournal r blockSize compression version blocks) (-1)
                (mkBlockState (replicate (Z.to_nat blockSize) 0) false 0 0 0 0 0 0 0) None None).

(** * Loading a block *)

(** [parseLoadedBlock]: checksum, trailer, and the frame cursor. *)
Definition parseLoadedBlock (n : Z) (jr : Reader) : Reader * option jerror :=
  let bs := jr_blockSize (jr_file jr) in
  let buf := blockBuf (jr_block jr) in
  if negb (uint buf (bs - 4) 4 =? Checksum (sub buf 0 (bs - 4))) then (jr, Some ErrChecksum)
  else
    let trailerOff := bs - BlockTrailerLen in
    let devTableSize := uint buf trailerOff 2 in
    let base := i64 (uint buf 0 8) in
    let v2 := jr_version (jr_file jr) =? Version2 in
    (mkReader (jr_file jr) n
       (mkBlockState buf true (if v2 then BlockDataOffsetV2 else BlockDataOffsetV1) 0
          (uint buf (trailerOff + 2) 4) base base (bs - BlockTrailerLen - devTableSize)
          (if v2 then uint buf 8 8 else 0))
       (jr_entry jr) (jr_err jr), None).

Section reader.
  (** [zstd.Decoder.DecodeAll], plain and with a dictionary. *)
  Context (DecodeAll : list Z -> option (list Z)).
  Context (DecodeAllDict : list Z -> list Z -> option (list Z)).

(** [blockPayloadLimit] *)
Definition blockPayloadLimit (f : OpenJournal) (n headerLen : Z) : result jerror Z :=
  match jr_blocks f !! Z.to_nat n with
  | None => Err ErrPanic
  | Some b =>
      let stop := match jr_blocks f !! Z.to_nat (n + 1) with
                  | Some b' => bi_Offset b' | None => zlen (jr_r f) end in
      let available := stop - bi_Offset b - headerLen in
      if available <? 0 then Err ErrBlockRange else Ok available
  end.

(** The payload [loadCompressedBlock] decompresses for block [n]. *)
Definition compressed_payload (f : OpenJournal) (n off : Z) : result jerror (list Z) :=
  let sfl := seqFieldLen (jr_version f) in
  let hdrLen := BlockHeaderLen + sfl in
  hdr ← read_full (jr_r f) off hdrLen;
  let compressedLen := uint hdr (8 + sfl) 4 in
  maxPayload ← blockPayloadLimit f n hdrLen;
  if (compressedLen =? 0) || (compressedLen >? maxPayload) then Err ErrBlockRange
  else
    compressed ← read_full (jr_r f) (off + hdrLen) compressedLen;
    match DecodeAll compressed with Some d => Ok d | None => Err ErrDecompress end.

Definition dict_payload (f : OpenJournal) (n off : Z) : result jerror (list Z) :=
  let sfl := seqFieldLen (jr_version f) in
  let hdrLen := BlockHeaderLenDict + sfl in
  hdr ← read_full (jr_r f) off hdrLen;
  let dictLen := uint hdr (8 + sfl) 4 in
  let compressedLen := uint hdr (12 + sfl) 4 in
  maxPayload ← blockPayloadLimit f n hdrLen;
  if dictLen >? u32 maxPayload then Err ErrBlockRange
  else if (compressedLen =? 0) || (compressedLen >? maxPayload - dictLen) then Err ErrBlockRange
  else
    dictData ← (if dictLen >? 0 then read_full (jr_r f) (off + hdrLen) dictLen else Ok []);
    compressed ← read_full (jr_r f) (off + hdrLen + dictLen) compressedLen;
    match (if dictLen >? 0 then DecodeAllDict dictData compressed else DecodeAll compressed) with
    | Some d => Ok d | None => Err ErrDecompress
    end.

Definition loadUncompressedBlock (off n : Z) (jr : Reader) : Reader * option jerror :=
  match read_full (jr_r (jr_file jr)) off (jr_blockSize (jr_file jr)) with
  | Err e => (jr, Some e)
  | Ok buf => parseLoadedBlock n (set_block jr (set_buf (jr_block jr) buf))
  end.

Definition loadCompressedBlock (off n : Z) (jr : Reader) : Reader * option jerror :=
  let f := jr_file jr in
  match (if jr_compression f =? CompressionZstdDict then dict_payload f n off
         else compressed_payload f n off) with
  | Err e => (jr, Some e)
  | Ok d =>
      if negb (zlen d =? jr_blockSize f) then (jr, Some ErrDecompress)
      else parseLoadedBlock n (set_block jr (set_buf (jr_block jr) d))
  end.

(** [jr.blocks[n]] panics out of range; every caller checks the range. *)
Definition loadBlock (n : Z) (jr : Reader) : Reader * option jerror :=
  match jr_blocks (jr_file jr) !! Z.to_nat n with
  | None => (jr, Some ErrPanic)
  | Some b =>
      if negb (jr_compression (jr_file jr) =? CompressionNone)
      then loadCompressedBlock (bi_Offset b) n jr
      else loadUncompressedBlock (bi_Offset b) n jr
  end.

(** * Frames *)

(** [parseNextFrame] decodes one frame; [ErrFrame] is the error it stores in
    [jr.err], [ErrPanic] a runtime panic.  The length comparison is on [int],
    so a length near [2^63] wraps. *)
Definition parse_payload (data : list Z) (off limit : Z) (standard : bool)
    : result jerror (list Z * Z) :=
  if standard then
    if off + 8 >? limit then Err ErrFrame
    else Ok (sub data off (off + 8), off + 8)
  else
    match Uvarint (sub data off limit) with
    | None => Err ErrFrame
    | Some (dataLen, n) =>
        let off := off + Z.of_nat n in
        if i64 (off + i64 dataLen) >? limit then Err ErrFrame
        else if dataLen >? max_alloc then Err ErrPanic
        else Ok (sub data off (off + dataLen), off + dataLen)
    end.

Definition parse_frame (data : list Z) (off limit : Z)
    : result jerror (Z * CANHeader * list Z * Z) :=
  if off >=? limit then Err ErrFrame
  else
    match Uvarint (sub data off limit) with
    | None => Err ErrFrame
    | Some (deltaUs, n) =>
        let off := off + Z.of_nat n in
        if off + 4 >? limit then Err ErrFrame
        else
          let storedID := uint data off 4 in
          let off := off + 4 in
          let standard := negb (Z.land storedID 0x80000000 =? 0) in
          let header := ParseCANID (Z.land storedID 0x7FFFFFFF) in
          '(frameData, off) ← parse_payload data off limit standard;
          Ok (deltaUs, header, frameData, off)
    end.

Definition parseNextFrame (jr : Reader) : result jerror Reader :=
  let b := jr_block jr in
  '(deltaUs, header, frameData, off) ← parse_frame (blockBuf b) (blockOff b) (devTableOff b);
  let tsUs := if frameIdx b =? 0 then baseTimeUs b else i64 (lastTimeUs b + i64 deltaUs) in
  Ok (mkReader (jr_file jr) (jr_currentBlock jr)
        (mkBlockState (blockBuf b) (blockLoaded b) off (frameIdx b + 1) (frameCount b)
           (baseTimeUs b) tsUs (devTableOff b) (baseSeqBlock b))
        (Some (mkJEntry (time_UnixMicro tsUs) header frameData)) (jr_err jr)).

Inductive next_outcome :=
| NextFrame                     (* [true] *)
| NextStop                      (* [false] *)
| NextPanic
| NextFuel.                     (* the loop's fuel ran out; never happens *)

Fixpoint next_loop (fuel : nat) (jr : Reader) : Reader * next_outcome :=
  match fuel with
  | O => (jr, NextFuel)
  | S fuel =>
      let load jr :=
        let nextBlock := jr_currentBlock jr + 1 in
        if nextBlock >=? zlen (jr_blocks (jr_file jr)) then (jr, NextStop)
        else match loadBlock nextBlock jr with
             | (jr, None) => next_loop fuel jr
             | (jr, Some e) => (set_err jr (Some e), NextStop)
             end in
      if blockLoaded (jr_block jr) && (frameIdx (jr_block jr) <? frameCount (jr_block jr)) then
        match parseNextFrame jr with
        | Ok jr => (jr, NextFrame)
        | Err ErrPanic => (jr, NextPanic)
        | Err _ => next_loop fuel (set_err (set_block jr (unload (jr_block jr))) None)
        end
      else load jr
  end.

(** Every round but one in two loads a later block. *)
Definition next_fuel (jr : Reader) : nat :=
  (2 * (length (jr_blocks (jr_file jr)) - Z.to_nat (jr_currentBlock jr + 1)) + 2)%nat.
Definition Next (jr : Reader) : Reader * next_outcome := next_loop (next_fuel jr) jr.

Definition FrameSeq (jr : Reader) : Z :=
  let b := jr_block jr in
  if negb (jr_version (jr_file jr) =? Version2) || (frameIdx b =? 0) then 0
  else u64 (baseSeqBlock b + u64 (frameIdx b - 1)).

(** * Seeking *)

Definition SeekBlock (n : Z) (jr : Reader) : Reader * option jerror :=
  if (n <? 0) || (n >=? zlen (jr_blocks (jr_file jr))) then (jr, Some ErrBlockRange)
  else loadBlock n jr.

(** The binary search that reads each probed block's field from the file. *)
Fixpoint seek_loop (fuel : nat) (key : blockInfo -> result jerror Z) (blocks : list blockInfo)
    (target lo hi res : Z) : result jerror Z :=
  match fuel with
  | O => Ok res
  | S fuel =>
      if lo <=? hi then
        let mid := lo + (hi - lo) / 2 in
        match blocks !! Z.to_nat mid with
        | None => Err ErrPanic
        | Some b =>
            k ← key b;
            if k <=? target then seek_loop fuel key blocks target (mid + 1) hi mid
            else seek_loop fuel key blocks target lo (mid - 1) res
        end
      else Ok res
  end.

Definition seek_block (mem : blockInfo -> Z) (disk : blockInfo -> result jerror Z) (target : Z)
    (f : OpenJournal) : result jerror Z :=
  let blocks := jr_blocks f in
  if negb (jr_compression f =? CompressionNone) then
    let idx := sort_Search (length blocks)
      (fun i => match blocks !! i with Some b => mem b >? target | None => false end) in
    Ok (Z.of_nat (idx - 1))
  else seek_loop (length blocks) disk blocks target 0 (zlen blocks - 1) 0.

Definition seek_load (r : result jerror Z) (jr : Reader) : Reader * option jerror :=
  match r with Err e => (jr, Some e) | Ok n => loadBlock n jr end.

Definition SeekToSeq (target : Z) (jr : Reader) : Reader * option jerror :=
  let f := jr_file jr in
  if negb (jr_version f =? Version2) then (jr, Some ErrNoSeq)
  else if zlen (jr_blocks f) =? 0 then (jr, Some ErrEmpty)
  else seek_load (seek_block bi_BaseSeq
         (fun b => s ← read_full (jr_r f) (bi_Offset b + 8) 8; Ok (le_val s)) target f) jr.

Definition SeekToTime (t : time) (jr : Reader) : Reader * option jerror :=
  let f := jr_file jr in
  if zlen (jr_blocks f) =? 0 then (jr, Some ErrEmpty)
  else seek_load (seek_block bi_BaseTime
         (fun b => s ← read_full (jr_r f) (bi_Offset b) 8; Ok (i64 (le_val s)))
         (Time_UnixMicro t) f) jr.

(** * Device tables *)

Fixpoint read_strings (n : nat) (block : list Z) (off : Z) : result jerror (list string * Z) :=
  match n with
  | O => Ok ([], off)
  | S n =>
      '(s, k) ← ReadLenPrefixedString block off;
      '(ss, off) ← read_strings n block (off + k);
      Ok (s :: ss, off)
  end.

Fixpoint read_entries (n : nat) (block : list Z) (off : Z) : result jerror (list deviceTableEntry) :=
  match n with
  | O => Ok []
  | S n =>
      if off + 15 >? zlen block then Err ErrTable
      else
        '(ss, off') ← read_strings 4 block (off + 15);
        match ss with
        | [model; sw; ver; serial] =>
            rest ← read_entries n block off';
            Ok (mkEntry (uint block off 1) (uint block (off + 1) 8) (uint block (off + 9) 4)
                  (uint block (off + 13) 2) model sw ver serial :: rest)
        | _ => Err ErrPanic
        end
  end.

Definition readDeviceTable (block : list Z) (offset : Z) : result jerror (list deviceTableEntry) :=
  if offset + 2 >? zlen block then Err ErrTable
  else if offset <? 0 then Err ErrPanic
  else read_entries (Z.to_nat (uint block offset 2)) block (offset + 2).

(** [entries, _ := readDeviceTable(...)]: an error leaves no entries, a panic
    is one of the caller. *)
Definition table_entries (jr : Reader) : result jerror (list deviceTableEntry) :=
  match readDeviceTable (blockBuf (jr_block jr)) (devTableOff (jr_block jr)) with
  | Ok es => Ok es
  | Err ErrPanic => Err ErrPanic
  | Err _ => Ok []
  end.

Definition BlockDevices (jr : Reader) : result jerror (list JDevice) :=
  if blockLoaded (jr_block jr) then es ← table_entries jr; Ok (map toDevice es) else Ok [].

Definition resolve_step (idx : Z) (best : gmap Z deviceTableEntry) (e : deviceTableEntry)
    : gmap Z deviceTableEntry :=
  if te_ActiveFrom e <=? idx then
    match best !! te_Source e with
    | None => <[te_Source e := e]> best
    | Some cur => if te_ActiveFrom e >? te_ActiveFrom cur then <[te_Source e := e]> best else best
    end
  else best.

Definition by_source (a b : JDevice) : Prop := jd_Source a <= jd_Source b.
#[global] Instance by_source_dec : RelDecision by_source.
Proof. intros a b. unfold by_source. apply _. Defined.

Definition resolve_devices (idx : Z) (es : list deviceTableEntry) : list JDevice :=
  let best := foldl (resolve_step idx) ∅ es in
  merge_sort by_source (map (toDevice ∘ snd) (map_to_list best)).

Definition BlockDevicesAt (idx : Z) (jr : Reader) : result jerror (list JDevice) :=
  if blockLoaded (jr_block jr) then es ← table_entries jr; Ok (resolve_devices idx es) else Ok [].

(** [BlockInfo] and [InspectBlock] *)
Record BlockInfo := mkBlockMeta {
  bm_Index : Z;
  bm_Offset : Z;
  bm_BaseTime : time;
  bm_BaseSeq : Z;
  bm_FrameCount : Z;
  bm_DeviceCount : Z;
  bm_CompressedLen : Z;
  bm_DictLen : Z
}.

Definition inspect_header (f : OpenJournal) (off : Z) : result jerror (Z * Z) :=
  let sfl := seqFieldLen (jr_version f) in
  if jr_compression f =? CompressionZstdDict then
    hdr ← read_full (jr_r f) off (BlockHeaderLenDict + sfl);
    Ok (uint hdr (8 + sfl) 4, uint hdr (12 + sfl) 4)
  else if negb (jr_compression f =? CompressionNone) then
    hdr ← read_full (jr_r f) off (BlockHeaderLen + sfl);
    Ok (0, uint hdr (8 + sfl) 4)
  else Ok (0, 0).

Definition InspectBlock (n : Z) (jr : Reader) : Reader * result jerror BlockInfo :=
  let f := jr_file jr in
  if (n <? 0) || (n >=? zlen (jr_blocks f)) then (jr, Err ErrBlockRange)
  else match jr_blocks f !! Z.to_nat n with
  | None => (jr, Err ErrPanic)
  | Some b =>
      match inspect_header f (bi_Offset b) with
      | Err e => (jr, Err e)
      | Ok (dictLen, compressedLen) =>
          match loadBlock n jr with
          | (jr, Some e) => (jr, Err e)
          | (jr, None) =>
              let k := jr_block jr in
              if (devTableOff k + 2 <=? jr_blockSize f) && (devTableOff k <? 0)
              then (jr, Err ErrPanic)
              else (jr, Ok (mkBlockMeta n (bi_Offset b) (time_UnixMicro (baseTimeUs k))
                     (baseSeqBlock k) (frameCount k)
                     (if devTableOff k + 2 <=? jr_blockSize f
                      then uint (blockBuf k) (devTableOff k) 2 else 0)
                     compressedLen dictLen))
          end
      end
  end.

(** The loop of a consumer of the file: every frame to the end, with its
    sequence number.  The fuel bounds the number of frames. *)
Fixpoint read_all (fuel : nat) (jr : Reader) : option (list (Z * Entry)) :=
  match fuel with
  | O => None
  | S fuel =>
      match Next jr with
      | (jr', NextFrame) =>
          match jr_entry jr' with
          | Some e => (fun es => (FrameSeq jr', e) :: es) <$> read_all fuel jr'
          | None => None
          end
      | (jr', NextStop) => match jr_err jr' with None => Some [] | Some _ => None end
      | _ => None
      end
  end.

End reader.

Definition HasBlockIndex (f : OpenJournal) : bool :=
  if jr_compression f =? CompressionNone then false
  else
    let stop := zlen (jr_r f) in
    if stop <? FileHeaderSize + 8 then false
    else match read_full (jr_r f) (stop - 8) 8 with
         | Ok tail => bool_decide (sub tail 4 8 = BlockIndexMagic)
         | Err _ => false
         end.

(** * Frames round trip *)

Lemma parse_payload_enc data off limit payload rest :
  0 <= off -> limit <= zlen data -> zlen data < 2 ^ 62 -> zlen payload < 2 ^ 48 ->
  let standard := zlen payload =? 8 in
  let bytes := if standard then payload else PutUvarint (zlen payload) ++ payload in
  sub data off limit = bytes ++ rest ->
  parse_payload data off limit standard = Ok (payload, off + zlen bytes).
Proof.
  intros Ho Hl Hd Hp standard bytes E. pose proof (zlen_nonneg rest). pose proof (zlen_nonneg payload).
  pose proof (zlen_sub_le data off limit Ho) as L. rewrite E, zlen_app in L.
  unfold parse_payload, bytes, standard in *. destruct (Z.eqb_spec (zlen payload) 8) as [H8|H8].
  - rewrite Z.gtb_ltb, (proj2 (Z.ltb_ge _ _)) by lia. rewrite H8.
    rewrite (uint_sub _ _ _ 8 _ _ Ho ltac:(lia) E H8). done.
  - rewrite <- app_assoc in E. pose proof E as E'. rewrite zlen_app in L |- *.
    rewrite E, Uvarint_PutUvarint by lia.
    fold (zlen (PutUvarint (zlen payload))).
    assert (0 < zlen (PutUvarint (zlen payload)))
      by (pose proof (put_uvarint_nonempty (zlen payload)); unfold zlen in *; lia).
    apply sub_suffix in E; [|lia]. set (off' := off + zlen (PutUvarint (zlen payload))) in *.
    assert (Hi : i64 (zlen payload) = zlen payload) by (apply i64_small; lia).
    rewrite Hi. assert (Hi' : i64 (off' + zlen payload) = off' + zlen payload) by (apply i64_small; lia).
    rewrite Hi'. rewrite Z.gtb_ltb, (proj2 (Z.ltb_ge _ _)) by lia.
    unfold max_alloc. rewrite Z.gtb_ltb, (proj2 (Z.ltb_ge _ _)) by lia.
    erewrite sub_prefix; [|lia|exact E]. do 2 f_equal. lia.
Qed.

(** A stored frame parses to itself, whatever follows it. *)
Lemma parse_frame_enc data off limit r rest :
  0 <= off -> limit <= zlen data -> zlen data < 2 ^ 62 -> raw_ok r ->
  sub data off limit = enc_frame r ++ rest ->
  parse_frame data off limit
  = Ok (r.1.1, ParseCANID r.1.2, r.2, off + zlen (enc_frame r)).
Proof.
  destruct r as [[delta id] payload]. intros Ho Hl Hd (Hdelta & Hid & Hp) E. cbn [fst snd].
  pose proof (zlen_nonneg rest). pose proof (zlen_nonneg payload).
  pose proof (zlen_sub_le data off limit Ho) as L. rewrite E, zlen_app in L.
  pose proof (enc_frame_pos (delta, id, payload)).
  destruct (stored_id id Hid) as (Hs1 & Hs2 & Hs3 & Hs4 & Hs5).
  unfold parse_frame. rewrite Z.geb_leb, (proj2 (Z.leb_gt _ _)) by lia.
  set (stored := if zlen payload =? 8 then Z.lor id 0x80000000 else id).
  set (tail := if zlen payload =? 8 then payload else PutUvarint (zlen payload) ++ payload).
  assert (Eq : enc_frame (delta, id, payload) = PutUvarint delta ++ le32 stored ++ tail).
  { unfold enc_frame, stored, tail. now destruct (zlen payload =? 8). }
  rewrite Eq in *. rewrite <- !app_assoc in E. pose proof E as E0.
  autorewrite with zlen in *. pose proof (zlen_nonneg tail).
  rewrite E0, Uvarint_PutUvarint by lia. fold (zlen (PutUvarint delta)).
  apply sub_suffix in E; [|lia]. pose proof (zlen_nonneg (PutUvarint delta)).
  set (off' := off + zlen (PutUvarint delta)) in *.
  rewrite Z.gtb_ltb, (proj2 (Z.ltb_ge _ _)) by lia.
  unfold uint. rewrite (uint_sub data off' limit 4 (le32 stored) (tail ++ rest)) by (assumption || apply zlen_le32 || lia).
  rewrite le_val_le32 by (unfold stored; destruct (zlen payload =? 8); lia).
  apply sub_suffix in E; [|lia]. rewrite zlen_le32 in E.
  replace (negb (Z.land stored 0x80000000 =? 0)) with (zlen payload =? 8).
  2: { unfold stored. destruct (zlen payload =? 8); symmetry; [apply negb_true_iff, Z.eqb_neq, Hs1|].
       now rewrite Hs3. }
  rewrite (parse_payload_enc data (off' + 4) limit payload rest); try lia; [|exact E].
  cbn [mbind result_bind]. fold tail.
  replace (Z.land stored 0x7FFFFFFF) with id
    by (unfold stored; destruct (zlen payload =? 8); congruence).
  do 2 f_equal. unfold off'. lia.
Qed.

(** * Blocks round trip *)

(** What a block holds, as the reader sees it. *)
Record ABlock := mkABlock {
  ab_buf : list Z;
  ab_base : Z;
  ab_seq : Z;
  ab_raw : list raw_frame;
  ab_table : list deviceTableEntry
}.

(** The bytes of [a] are a sealed block of [bs] bytes with those contents, the
    frames between the header and the device table. *)
Record block_ok (bs : Z) (a : ABlock) : Prop := {
  bk_len : zlen (ab_buf a) = bs;
  bk_crc : uint (ab_buf a) (bs - 4) 4 = Checksum (sub (ab_buf a) 0 (bs - 4));
  bk_base : i64 (uint (ab_buf a) 0 8) = ab_base a;
  bk_seq : uint (ab_buf a) 8 8 = ab_seq a;
  bk_count : uint (ab_buf a) (bs - BlockTrailerLen + 2) 4 = zlen (ab_raw a);
  bk_dev : 0 <= uint (ab_buf a) (bs - BlockTrailerLen) 2;
  bk_frames : exists pad,
    sub (ab_buf a) BlockDataOffsetV2
      (bs - BlockTrailerLen - uint (ab_buf a) (bs - BlockTrailerLen) 2)
    = enc_frames (ab_raw a) ++ pad;
  bk_raw : Forall raw_ok (ab_raw a);
  bk_some : ab_raw a <> []
}.

(** The entries of a run of frames, from the time of the previous one; the
    first frame of a block is at the block's base time whatever its delta. *)
Fixpoint entries_of (base seq0 last idx : Z) (rs : list raw_frame) : list (Z * Entry) :=
  match rs with
  | [] => []
  | r :: rs =>
      let ts := if idx =? 0 then base else i64 (last + i64 r.1.1) in
      (u64 (seq0 + u64 idx), mkJEntry (time_UnixMicro ts) (ParseCANID r.1.2) r.2)
      :: entries_of base seq0 ts (idx + 1) rs
  end.

Definition block_entries (a : ABlock) : list (Z * Entry) :=
  entries_of (ab_base a) (ab_seq a) (ab_base a) 0 (ab_raw a).

Lemma length_entries_of base seq0 last idx rs : length (entries_of base seq0 last idx rs) = length rs.
Proof. revert last idx. induction rs as [|r rs IH]; intros; [done|]. cbn. now rewrite IH. Qed.

Lemma length_block_entries a : length (block_entries a) = length (ab_raw a).
Proof. apply length_entries_of. Qed.

(** The cursor stands before the frames [rs] of a loaded block. *)
Record at_cursor (jr : Reader) (rs : list raw_frame) : Prop := {
  ac_loaded : blockLoaded (jr_block jr) = true;
  ac_off : 0 <= blockOff (jr_block jr);
  ac_limit : devTableOff (jr_block jr) <= zlen (blockBuf (jr_block jr));
  ac_len : zlen (blockBuf (jr_block jr)) < 2 ^ 62;
  ac_idx : 0 <= frameIdx (jr_block jr);
  ac_count : frameCount (jr_block jr) = frameIdx (jr_block jr) + zlen rs;
  ac_frames : exists pad, sub (blockBuf (jr_block jr)) (blockOff (jr_block jr))
                              (devTableOff (jr_block jr)) = enc_frames rs ++ pad;
  ac_raw : Forall raw_ok rs;
  ac_v2 : jr_version (jr_file jr) = Version2
}.

(** Nothing is left of the current block. *)
Definition exhausted (jr : Reader) : Prop :=
  blockLoaded (jr_block jr) && (frameIdx (jr_block jr) <? frameCount (jr_block jr)) = false.

Lemma at_cursor_nil jr : at_cursor jr [] -> exhausted jr.
Proof.
  intros H. unfold exhausted. rewrite (ac_count _ _ H), zlen_nil, Z.add_0_r, Z.ltb_irrefl.
  apply andb_false_r.
Qed.

Definition remaining (jr : Reader) (rs : list raw_frame) : list (Z * Entry) :=
  let b := jr_block jr in entries_of (baseTimeUs b) (baseSeqBlock b) (lastTimeUs b) (frameIdx b) rs.

Lemma parseNextFrame_cursor jr r rs :
  at_cursor jr (r :: rs) ->
  exists jr' e, parseNextFrame jr = Ok jr' /\ at_cursor jr' rs /\ jr_entry jr' = Some e /\
    jr_file jr' = jr_file jr /\ jr_currentBlock jr' = jr_currentBlock jr /\
    jr_err jr' = jr_err jr /\ remaining jr (r :: rs) = (FrameSeq jr', e) :: remaining jr' rs.
Proof.
  intros [Hl Ho Hlim Hlen Hidx Hc [pad Hf] Hr Hv]. inversion Hr as [|? ? Hr1 Hrs]; subst.
  cbn [enc_frames map concat] in Hf. rewrite <- app_assoc in Hf.
  pose proof (enc_frame_pos r).
  unfold parseNextFrame. rewrite (parse_frame_enc _ _ _ _ _ Ho Hlim Hlen Hr1 Hf).
  cbn [mbind result_bind]. eexists _, _. split; [done|].
  rewrite zlen_cons in Hc.
  split; [|split; [done|split; [done|split; [done|split; [done|]]]]].
  - constructor; cbn; try lia; try done. exists pad. eapply sub_suffix; [lia|exact Hf].
  - unfold remaining. cbn [entries_of]. f_equal. f_equal.
    unfold FrameSeq. cbn. rewrite Hv. cbn. rewrite (proj2 (Z.eqb_neq _ 0)) by lia.
    cbn. do 3 f_equal. lia.
Qed.

Section reading.
  Context (DecodeAll : list Z -> option (list Z)) (DecodeAllDict : list Z -> list Z -> option (list Z)).
  Abbreviation rNext := (Next DecodeAll DecodeAllDict).
  Abbreviation rnext_loop := (next_loop DecodeAll DecodeAllDict).
  Abbreviation rloadBlock := (loadBlock DecodeAll DecodeAllDict).
  Abbreviation rread_all := (read_all DecodeAll DecodeAllDict).

Lemma next_loop_frame fuel jr r rs :
  at_cursor jr (r :: rs) ->
  rnext_loop (S fuel) jr
  = match parseNextFrame jr with Ok jr' => (jr', NextFrame) | Err _ => (jr, NextPanic) end.
Proof.
  intros H. destruct (parseNextFrame_cursor _ _ _ H) as (jr' & e & E & _).
  cbn [next_loop]. rewrite (ac_loaded _ _ H), (ac_count _ _ H), zlen_cons, E.
  pose proof (zlen_nonneg rs). now rewrite (proj2 (Z.ltb_lt _ _)) by lia.
Qed.

(** Block [n] of file [f] decodes to the bytes [buf]. *)
Definition stored (f : OpenJournal) (n : Z) (buf : list Z) : Prop :=
  forall jr, jr_file jr = f ->
    rloadBlock n jr = parseLoadedBlock n (set_block jr (set_buf (jr_block jr) buf)).

Lemma parseLoadedBlock_ok a n jr :
  jr_version (jr_file jr) = Version2 -> block_ok (jr_blockSize (jr_file jr)) a ->
  4096 <= jr_blockSize (jr_file jr) < 2 ^ 62 -> blockBuf (jr_block jr) = ab_buf a ->
  exists jr', parseLoadedBlock n jr = (jr', None) /\ at_cursor jr' (ab_raw a) /\
    remaining jr' (ab_raw a) = block_entries a /\ jr_file jr' = jr_file jr /\
    jr_currentBlock jr' = n /\ jr_err jr' = jr_err jr /\
    blockBuf (jr_block jr') = ab_buf a /\
    devTableOff (jr_block jr') = jr_blockSize (jr_file jr) - BlockTrailerLen -
      uint (ab_buf a) (jr_blockSize (jr_file jr) - BlockTrailerLen) 2.
Proof.
  intros Hv [Hlen Hcrc Hbase Hseq Hcount Hdev [pad Hf] Hraw Hsome] Hbs Hb.
  unfold parseLoadedBlock. rewrite Hb, Hcrc, Z.eqb_refl, Hv. cbn [negb].
  eexists. split; [reflexivity|].
  rewrite Hseq, Hbase. split; [|repeat split; reflexivity].
  constructor; cbn; unfold BlockTrailerLen in *; try lia; try done.
  now exists pad.
Qed.

Lemma next_loop_load fuel jr a :
  exhausted jr -> jr_currentBlock jr + 1 < zlen (jr_blocks (jr_file jr)) ->
  stored (jr_file jr) (jr_currentBlock jr + 1) (ab_buf a) ->
  jr_version (jr_file jr) = Version2 -> block_ok (jr_blockSize (jr_file jr)) a ->
  4096 <= jr_blockSize (jr_file jr) < 2 ^ 62 ->
  exists jr', rnext_loop (S fuel) jr = rnext_loop fuel jr' /\ at_cursor jr' (ab_raw a) /\
    remaining jr' (ab_raw a) = block_entries a /\ jr_file jr' = jr_file jr /\
    jr_currentBlock jr' = jr_currentBlock jr + 1 /\ jr_err jr' = jr_err jr.
Proof.
  intros Hex Hlt Hst Hv Hok Hbs.
  destruct (parseLoadedBlock_ok a (jr_currentBlock jr + 1)
    (set_block jr (set_buf (jr_block jr) (ab_buf a)))) as (jr' & E & H1 & H2 & H3 & H4 & H5 & _);
    [done..|].
  exists jr'. cbn [next_loop]. rewrite Hex.
  rewrite Z.geb_leb, (proj2 (Z.leb_gt _ _)) by lia. rewrite (Hst jr eq_refl), E. auto 10.
Qed.

Lemma Next_unfold jr : exists m, rNext jr = rnext_loop (S (S m)) jr.
Proof. eexists. unfold Next, next_fuel. rewrite Nat.add_comm. reflexivity. Qed.

Definition frames_in (bs : list ABlock) : nat := length (concat (map ab_raw bs)).

(** From any position, what is left of the file is read, in order, and then the
    end is reported without an error. *)
Lemma read_all_blocks fuel : forall jr rs later,
  (at_cursor jr rs \/ (rs = [] /\ exhausted jr)) ->
  jr_version (jr_file jr) = Version2 -> 4096 <= jr_blockSize (jr_file jr) < 2 ^ 62 ->
  jr_err jr = None -> zlen (jr_blocks (jr_file jr)) = jr_currentBlock jr + 1 + zlen later ->
  (forall i a, later !! i = Some a ->
     stored (jr_file jr) (jr_currentBlock jr + 1 + Z.of_nat i) (ab_buf a) /\
     block_ok (jr_blockSize (jr_file jr)) a) ->
  (length rs + frames_in later < fuel)%nat ->
  rread_all fuel jr = Some (remaining jr rs ++ concat (map block_entries later)).
Proof.
  induction fuel as [|fuel IH]; intros jr rs later Hpos Hv Hbs Herr Hn Hst Hfuel; [lia|].
  destruct (Next_unfold jr) as [m Hm]. cbn [read_all]. rewrite Hm.
  assert (Hframe : forall jr0 r rs0 later0 m0, at_cursor jr0 (r :: rs0) ->
    jr_version (jr_file jr0) = Version2 -> 4096 <= jr_blockSize (jr_file jr0) < 2 ^ 62 ->
    jr_err jr0 = None -> zlen (jr_blocks (jr_file jr0)) = jr_currentBlock jr0 + 1 + zlen later0 ->
    (forall i a, later0 !! i = Some a ->
       stored (jr_file jr0) (jr_currentBlock jr0 + 1 + Z.of_nat i) (ab_buf a) /\
       block_ok (jr_blockSize (jr_file jr0)) a) ->
    (length rs0 + frames_in later0 < fuel)%nat ->
    match rnext_loop (S m0) jr0 with
    | (jr', NextFrame) => match jr_entry jr' with
        | Some e => (fun es => (FrameSeq jr', e) :: es) <$> rread_all fuel jr'
        | None => None end
    | (jr', NextStop) => match jr_err jr' with None => Some [] | Some _ => None end
    | _ => None
    end = Some (remaining jr0 (r :: rs0) ++ concat (map block_entries later0))).
  { intros jr0 r rs0 later0 m0 Hc Hv0 Hbs0 He0 Hn0 Hst0 Hf0.
    destruct (parseNextFrame_cursor _ _ _ Hc) as (jr' & e & E & Hc' & He & Hfile & Hcur & Herr' & Hrem).
    rewrite (next_loop_frame _ _ _ _ Hc), E, He, (IH jr' rs0 later0); rewrite ?Hfile, ?Hcur, ?Herr'; auto.
    now rewrite Hrem. }
  destruct rs as [|r rs].
  - assert (Hex : exhausted jr) by (destruct Hpos as [H|[_ H]]; [now apply at_cursor_nil|done]).
    destruct later as [|a later].
    + cbn [next_loop]. rewrite Hex. rewrite zlen_nil in Hn.
      rewrite Z.geb_leb, (proj2 (Z.leb_le _ _)) by lia. rewrite Herr. done.
    + rewrite zlen_cons in Hn. destruct (Hst 0%nat a eq_refl) as [Hs Hok].
      pose proof (zlen_nonneg later).
      destruct (next_loop_load (S m) jr a Hex ltac:(lia)) as (jr' & E & Hc & Hrem & Hfile & Hcur & Herr');
        [now rewrite Z.add_0_r in Hs|done..|].
      rewrite E. cbn [map concat]. rewrite <- Hrem.
      destruct (ab_raw a) as [|r rs] eqn:Hr; [now destruct (bk_some _ _ Hok)|].
      rewrite (Hframe jr' r rs later); rewrite ?Hfile, ?Hcur, ?Herr'; auto; try lia.
      * intros i b Hi. destruct (Hst (S i) b Hi) as [Hs' Hok']. split; [|done].
        now replace (jr_currentBlock jr + 1 + 1 + Z.of_nat i)
          with (jr_currentBlock jr + 1 + Z.of_nat (S i)) by lia.
      * unfold frames_in in Hfuel. cbn [map concat] in Hfuel. rewrite length_app, Hr in Hfuel.
        cbn [length] in Hfuel. unfold frames_in. lia.
  - destruct Hpos as [Hc|[? _]]; [|done]. apply Hframe; auto. cbn [length] in Hfuel. lia.
Qed.

End reading.

(** * Files round trip *)

(** The bytes [c] stand at offset [o] of the file. *)
Definition holds_at (r : list Z) (o : Z) (c : list Z) : Prop :=
  0 <= o /\ o + zlen c <= zlen r /\ sub r o (o + zlen c) = c.

Lemma holds_at_mid pre c post : holds_at (pre ++ c ++ post) (zlen pre) c.
Proof.
  pose proof (zlen_nonneg pre). pose proof (zlen_nonneg post). split; [done|].
  split; [autorewrite with zlen; lia|]. unfold sub. apply slice_app_exact; unfold zlen; lia.
Qed.

Lemma holds_at_app r o x y : holds_at r o (x ++ y) -> holds_at r o x /\ holds_at r (o + zlen x) y.
Proof.
  intros (Ho & Hl & E). rewrite zlen_app in *. pose proof (zlen_nonneg x). pose proof (zlen_nonneg y).
  split; (split; [lia|]; split; [lia|]).
  - eapply sub_prefix; [done|exact E].
  - rewrite <- Z.add_assoc. eapply sub_suffix; [done|exact E].
Qed.

Lemma read_full_at r o x n : holds_at r o x -> zlen x = n -> read_full r o n = Ok x.
Proof.
  intros (Ho & Hl & E) <-. unfold read_full.
  rewrite (proj2 (Z.leb_le _ _)), (proj2 (Z.leb_le _ _)) by lia. now rewrite E.
Qed.

Lemma holds_at_end r o x : holds_at r o x -> o + zlen x <= zlen r.
Proof. now intros (_ & ? & _). Qed.

(** [uint] of a field inside known bytes. *)
Lemma uint_mid pre n z post k :
  zlen pre = k -> 0 <= z < 256 ^ Z.of_nat n ->
  uint (pre ++ le_bytes n z ++ post) k (Z.of_nat n) = z.
Proof.
  intros <- Hz. unfold uint, sub.
  rewrite slice_app_exact by (rewrite ?length_le_bytes; unfold zlen; lia).
  rewrite le_val_bytes. now apply Z.mod_small.
Qed.

Definition jheader (bs comp : Z) : list Z :=
  Magic ++ [Version2] ++ le32 bs ++ le32 comp ++ [0; 0; 0; 0].

Lemma zlen_jheader bs comp : zlen (jheader bs comp) = 16.
Proof. done. Qed.

(** A block and the bytes it takes in the file. *)
Abbreviation Chunk := (ABlock * list Z)%type.
Definition chunks_bytes (cs : list Chunk) : list Z := concat (map snd cs).

Fixpoint infos (comp start : Z) (cs : list Chunk) : list blockInfo :=
  match cs with
  | [] => []
  | (a, c) :: cs =>
      (if comp =? CompressionNone then mkBlockInfo start 0 0
       else mkBlockInfo start (ab_base a) (ab_seq a)) :: infos comp (start + zlen c) cs
  end.

Lemma length_infos comp cs : forall start, length (infos comp start cs) = length cs.
Proof. induction cs as [|[a c] cs IH]; intros; cbn [infos length]; auto. Qed.

(** Where the blocks of a file stand. *)
Lemma infos_at comp cs : forall pre post i b,
  infos comp (zlen pre) cs !! i = Some b ->
  exists a c, cs !! i = Some (a, c) /\ holds_at (pre ++ chunks_bytes cs ++ post) (bi_Offset b) c /\
    zlen pre <= bi_Offset b /\ bi_Offset b + zlen c <= zlen (pre ++ chunks_bytes cs) /\
    match infos comp (zlen pre) cs !! S i with
    | Some b' => bi_Offset b' = bi_Offset b + zlen c
    | None => bi_Offset b + zlen c = zlen (pre ++ chunks_bytes cs)
    end.
Proof.
  induction cs as [|[a c] cs IH]; intros pre post i b Hi; [done|].
  unfold chunks_bytes. cbn [map concat snd infos] in *.
  destruct i as [|i].
  - assert (Ho : bi_Offset b = zlen pre) by (cbn in Hi; injection Hi as <-; now destruct (comp =? _)).
    exists a, c. rewrite Ho. pose proof (zlen_nonneg c). split; [done|]. split; [|split; [lia|split]].
    + rewrite <- app_assoc. apply holds_at_mid.
    + autorewrite with zlen. pose proof (zlen_nonneg (concat (map snd cs))). lia.
    + destruct cs as [|[a' c'] cs]; cbn [infos lookup list_lookup map concat];
        [autorewrite with zlen; lia|]. now destruct (comp =? _).
  - cbn [lookup list_lookup] in Hi |- *.
    rewrite <- (zlen_app pre c) in Hi |- *.
    destruct (IH (pre ++ c) post i b Hi) as (a' & c' & Hc & Hat & Hle & Hend & Hnext).
    unfold chunks_bytes in Hat, Hend. pose proof (zlen_nonneg c). rewrite zlen_app in Hle.
    exists a', c'. split; [done|]. split; [|split; [lia|split]].
    + now rewrite <- !app_assoc in Hat |- *.
    + now rewrite <- !app_assoc in Hend.
    + destruct (infos comp (zlen (pre ++ c)) cs !! S i); [exact Hnext|].
      now rewrite <- app_assoc in Hnext.
Qed.

(** The offsets of one more block. *)
Lemma infos_snoc comp cs : forall start ch,
  map bi_Offset (infos comp start (cs ++ [ch]))
  = map bi_Offset (infos comp start cs) ++ [start + zlen (chunks_bytes cs)].
Proof.
  induction cs as [|[a c] cs IH]; intros start [a' c']; unfold chunks_bytes in *;
    cbn [app map concat infos snd].
  - destruct (comp =? CompressionNone); cbn; now rewrite Z.add_0_r.
  - rewrite IH. cbn [app]. do 3 f_equal. autorewrite with zlen. lia.
Qed.

(** How a block of contents [a] can be stored under each compression; a
    compressed block repeats its base time and sequence number in front. *)
Section storing.
  Context (DecodeAll : list Z -> option (list Z)) (DecodeAllDict : list Z -> list Z -> option (list Z)).
  Abbreviation stored := (stored DecodeAll DecodeAllDict).

Definition chunk_header (a : ABlock) : list Z := le64 (ab_base a) ++ le64 (ab_seq a).

Inductive chunk_of (comp : Z) (a : ABlock) : list Z -> Prop :=
| chunk_plain : comp = CompressionNone -> chunk_of comp a (ab_buf a)
| chunk_zstd payload : comp = CompressionZstd ->
    DecodeAll payload = Some (ab_buf a) -> 0 < zlen payload < 2 ^ 30 ->
    chunk_of comp a (chunk_header a ++ le32 (zlen payload) ++ payload)
| chunk_dict d payload : comp = CompressionZstdDict ->
    (if zlen d >? 0 then DecodeAllDict d payload else DecodeAll payload) = Some (ab_buf a) ->
    0 < zlen payload -> zlen d + zlen payload < 2 ^ 30 ->
    chunk_of comp a (chunk_header a ++ le32 (zlen d) ++ le32 (zlen payload) ++ d ++ payload).

Lemma zlen_chunk_header a : zlen (chunk_header a) = 16.
Proof. unfold chunk_header. now autorewrite with zlen. Qed.

(** The block [n] at its offset, with what follows it: enough for every load. *)
Lemma blockPayloadLimit_ok f n b h :
  0 <= n -> jr_blocks f !! Z.to_nat n = Some b ->
  let stop := match jr_blocks f !! Z.to_nat (n + 1) with Some b' => bi_Offset b' | None => zlen (jr_r f) end in
  bi_Offset b + h <= stop -> blockPayloadLimit f n h = Ok (stop - bi_Offset b - h).
Proof.
  intros Hn Hb stop Hs. unfold blockPayloadLimit. rewrite Hb. fold stop.
  now rewrite (proj2 (Z.ltb_ge _ _)) by lia.
Qed.

Lemma compressed_payload_ok f n off a payload :
  jr_version f = Version2 ->
  holds_at (jr_r f) off (chunk_header a ++ le32 (zlen payload) ++ payload) ->
  DecodeAll payload = Some (ab_buf a) -> 0 < zlen payload < 2 ^ 30 ->
  (exists avail, blockPayloadLimit f n 20 = Ok avail /\ zlen payload <= avail) ->
  compressed_payload DecodeAll f n off = Ok (ab_buf a).
Proof.
  intros Hv Hat Hd Hp (avail & Ha & Hle). unfold compressed_payload. rewrite Hv.
  change (BlockHeaderLen + seqFieldLen Version2) with 20. change (8 + seqFieldLen Version2) with 16.
  rewrite app_assoc in Hat. apply holds_at_app in Hat as [H1 H2].
  assert (L : zlen (chunk_header a ++ le32 (zlen payload)) = 20)
    by (autorewrite with zlen; now rewrite zlen_chunk_header).
  rewrite L in H2. rewrite (read_full_at _ _ _ _ H1 L). cbn [mbind result_bind].
  rewrite Ha. cbn [mbind result_bind].
  pose proof (uint_mid (chunk_header a) 4 (zlen payload) [] 16 (zlen_chunk_header a) ltac:(lia)) as Hu.
  rewrite app_nil_r in Hu. fold (le32 (zlen payload)) in Hu. change (Z.of_nat 4) with 4 in Hu.
  rewrite Hu. rewrite (proj2 (Z.eqb_neq _ _)) by lia. rewrite Z.gtb_ltb, (proj2 (Z.ltb_ge _ _)) by lia.
  cbn [orb]. rewrite (read_full_at _ _ _ _ H2 eq_refl). cbn [mbind result_bind]. now rewrite Hd.
Qed.

Lemma dict_payload_ok f n off a d payload :
  jr_version f = Version2 ->
  holds_at (jr_r f) off (chunk_header a ++ le32 (zlen d) ++ le32 (zlen payload) ++ d ++ payload) ->
  (if zlen d >? 0 then DecodeAllDict d payload else DecodeAll payload) = Some (ab_buf a) ->
  0 < zlen payload -> zlen d + zlen payload < 2 ^ 30 ->
  (exists avail, blockPayloadLimit f n 24 = Ok avail /\ zlen d + zlen payload <= avail < 2 ^ 32) ->
  dict_payload DecodeAll DecodeAllDict f n off = Ok (ab_buf a).
Proof.
  intros Hv Hat Hd Hp Hsz (avail & Ha & Hle). unfold dict_payload. rewrite Hv.
  change (BlockHeaderLenDict + seqFieldLen Version2) with 24.
  change (8 + seqFieldLen Version2) with 16. change (12 + seqFieldLen Version2) with 20.
  pose proof (zlen_nonneg d).
  set (hdr := chunk_header a ++ le32 (zlen d) ++ le32 (zlen payload)).
  replace (chunk_header a ++ le32 (zlen d) ++ le32 (zlen payload) ++ d ++ payload)
    with (hdr ++ d ++ payload) in Hat by (unfold hdr; now rewrite <- !app_assoc).
  assert (L : zlen hdr = 24) by (unfold hdr; autorewrite with zlen; now rewrite zlen_chunk_header).
  apply holds_at_app in Hat as [H1 H2]. apply holds_at_app in H2 as [H2 H3]. rewrite L in *.
  rewrite (read_full_at _ _ _ _ H1 L). cbn [mbind result_bind]. rewrite Ha. cbn [mbind result_bind].
  assert (U1 : uint hdr 16 4 = zlen d).
  { unfold hdr. apply (uint_mid (chunk_header a) 4 (zlen d)); [apply zlen_chunk_header|lia]. }
  assert (U2 : uint hdr 20 4 = zlen payload).
  { unfold hdr. pose proof (uint_mid (chunk_header a ++ le32 (zlen d)) 4 (zlen payload) [] 20) as Hu.
    rewrite app_nil_r, <- app_assoc in Hu. apply Hu; [|lia].
    autorewrite with zlen. now rewrite zlen_chunk_header. }
  rewrite U1, U2. rewrite wrap_small by lia.
  rewrite !Z.gtb_ltb, (proj2 (Z.ltb_ge avail _)) by lia.
  rewrite (proj2 (Z.eqb_neq _ _)) by lia. rewrite (proj2 (Z.ltb_ge (avail - zlen d) _)) by lia. cbn [orb].
  rewrite (read_full_at _ _ _ _ H3 eq_refl).
  rewrite Z.gtb_ltb in Hd. destruct (Z.ltb_spec 0 (zlen d)).
  - rewrite (read_full_at _ _ _ _ H2 eq_refl). cbn [mbind result_bind]. now rewrite Hd.
  - cbn [mbind result_bind]. now rewrite Hd.
Qed.

(** A block stored in the file loads as its bytes. *)
Lemma chunk_stored f n b a c :
  0 <= n -> jr_version f = Version2 -> jr_blocks f !! Z.to_nat n = Some b ->
  chunk_of (jr_compression f) a c -> holds_at (jr_r f) (bi_Offset b) c ->
  zlen (ab_buf a) = jr_blockSize f ->
  match jr_blocks f !! Z.to_nat (n + 1) with
  | Some b' => bi_Offset b' = bi_Offset b + zlen c
  | None => zlen (jr_r f) < bi_Offset b + 2 ^ 32
  end ->
  stored f n (ab_buf a).
Proof.
  intros Hn Hv Hb Hc Hat Hlen Hnext jr <-. unfold loadBlock. rewrite Hb.
  pose proof (holds_at_end _ _ _ Hat) as Hend.
  destruct Hc as [E|payload E Hd Hp|d payload E Hd Hp Hsz]; rewrite E.
  - cbn [Z.eqb CompressionNone negb]. unfold loadUncompressedBlock. now rewrite (read_full_at _ _ _ _ Hat Hlen).
  - autorewrite with zlen in *. rewrite zlen_chunk_header in *.
    change (negb (CompressionZstd =? CompressionNone)) with true.
    cbv beta iota. unfold loadCompressedBlock. rewrite E.
    change (CompressionZstd =? CompressionZstdDict) with false. cbv beta iota zeta.
    rewrite (compressed_payload_ok (jr_file jr) n (bi_Offset b) a payload Hv Hat Hd Hp).
    + now rewrite Hlen, Z.eqb_refl.
    + eexists. split; [apply (blockPayloadLimit_ok (jr_file jr) n b 20 Hn Hb)|];
        destruct (jr_blocks (jr_file jr) !! Z.to_nat (n + 1)); lia.
  - autorewrite with zlen in *. rewrite zlen_chunk_header in *. pose proof (zlen_nonneg d).
    change (negb (CompressionZstdDict =? CompressionNone)) with true.
    cbv beta iota. unfold loadCompressedBlock. rewrite E.
    change (CompressionZstdDict =? CompressionZstdDict) with true. cbv beta iota zeta.
    rewrite (dict_payload_ok (jr_file jr) n (bi_Offset b) a d payload Hv Hat Hd Hp Hsz).
    + now rewrite Hlen, Z.eqb_refl.
    + eexists. split; [apply (blockPayloadLimit_ok (jr_file jr) n b 24 Hn Hb)|];
        destruct (jr_blocks (jr_file jr) !! Z.to_nat (n + 1)); lia.
Qed.

End storing.

(** ** Opening a file *)

Definition compression_ok (comp : Z) : Prop :=
  comp = CompressionNone \/ comp = CompressionZstd \/ comp = CompressionZstdDict.

Definition block_size_ok (bs : Z) : Prop := 4096 <= bs < 2 ^ 31 /\ Z.land bs (bs - 1) = 0.

Definition opened (r : list Z) (bs comp : Z) (blocks : list blockInfo) : Reader :=
  mkReader (mkOpenJournal r bs comp Version2 blocks) (-1)
    (mkBlockState (replicate (Z.to_nat bs) 0) false 0 0 0 0 0 0 0) None None.

Definition found_blocks (r : list Z) (bs comp : Z) : list blockInfo :=
  if comp =? CompressionNone then
    map (fun i => mkBlockInfo (FileHeaderSize + Z.of_nat i * bs) 0 0)
      (seq 0 (Z.to_nat (Z.quot (zlen r - FileHeaderSize) bs)))
  else match readBlockIndex r Version2 with
       | Ok bs => bs | Err _ => scanBlocks r comp Version2 end.

Lemma NewReader_header bs comp rest :
  block_size_ok bs -> compression_ok comp ->
  NewReader (jheader bs comp ++ rest)
  = Ok (opened (jheader bs comp ++ rest) bs comp (found_blocks (jheader bs comp ++ rest) bs comp)).
Proof.
  intros [Hbs Hp] Hc. unfold NewReader. set (r := jheader bs comp ++ rest).
  assert (Hh : holds_at r 0 (jheader bs comp)) by exact (holds_at_mid [] (jheader bs comp) rest).
  rewrite (read_full_at _ _ _ _ Hh (zlen_jheader bs comp)). cbn [mbind result_bind].
  assert (Hcr : 0 <= comp < 2 ^ 32) by (unfold compression_ok, CompressionNone, CompressionZstd, CompressionZstdDict in Hc; lia).
  assert (U1 : uint (jheader bs comp) 4 4 = bs) by (apply (uint_mid [76; 80; 74; 2] 4 bs); [done|lia]).
  assert (U2 : uint (jheader bs comp) 8 4 = comp).
  { pose proof (uint_mid ([76; 80; 74; 2] ++ le32 bs) 4 comp [0; 0; 0; 0] 8 ltac:(done) ltac:(lia)) as H.
    now rewrite <- app_assoc in H. }
  rewrite U1, U2. change (sub (jheader bs comp) 0 3) with Magic.
  change (uint (jheader bs comp) 3 1) with 2. rewrite bool_decide_true by done.
  rewrite (proj2 (Z.ltb_ge _ _)) by lia. rewrite Hp. cbn [negb Z.eqb andb orb Version Version2].
  replace (Z.land comp 255) with comp by (destruct Hc as [->|[->| ->]]; reflexivity).
  replace (comp >? CompressionZstdDict) with false by (destruct Hc as [->|[->| ->]]; reflexivity).
  reflexivity.
Qed.

(** Uncompressed files: complete blocks, whatever fraction of one follows. *)
Lemma found_blocks_plain bs cs torn :
  0 < bs -> Forall (fun '(_, c) => zlen c = bs) cs -> zlen torn < bs ->
  found_blocks (jheader bs CompressionNone ++ chunks_bytes cs ++ torn) bs CompressionNone
  = infos CompressionNone 16 cs.
Proof.
  intros Hbs Hcs Ht. unfold found_blocks. rewrite Z.eqb_refl.
  pose proof (zlen_nonneg torn).
  assert (Hl : zlen (chunks_bytes cs) = zlen cs * bs).
  { clear Ht. induction Hcs as [|[a c] cs Hc _ IH]; [done|]. unfold chunks_bytes in *.
    cbn [map concat snd]. rewrite zlen_app, zlen_cons, IH, Hc. lia. }
  rewrite !zlen_app, zlen_jheader, Hl. unfold FileHeaderSize.
  replace (16 + (zlen cs * bs + zlen torn) - 16) with (zlen torn + zlen cs * bs) by lia.
  pose proof (zlen_nonneg cs). rewrite Z.quot_div_nonneg by nia.
  rewrite Z.div_add, Z.div_small by lia. rewrite Z.add_0_l. unfold zlen. rewrite Nat2Z.id.
  assert (G : forall (ds : list Chunk) k, Forall (fun '(_, c) => zlen c = bs) ds ->
    map (fun i => mkBlockInfo (16 + Z.of_nat i * bs) 0 0) (seq k (length ds))
    = infos CompressionNone (16 + Z.of_nat k * bs) ds).
  { induction ds as [|[a c] ds IH]; intros k Hd; [done|]. inversion Hd; subst.
    cbn [length seq map infos]. rewrite Z.eqb_refl. f_equal. rewrite IH by done. f_equal. lia. }
  exact (G cs 0%nat Hcs).
Qed.

(** Compressed blocks repeat their base time and sequence number. *)
Definition headed (ch : Chunk) : Prop :=
  exists rest, ch.2 = chunk_header ch.1 ++ rest /\
    - 2 ^ 63 <= ab_base ch.1 < 2 ^ 63 /\ 0 <= ab_seq ch.1 < 2 ^ 64.

Lemma headed_fields a rest n :
  - 2 ^ 63 <= ab_base a < 2 ^ 63 -> 0 <= ab_seq a < 2 ^ 64 -> n = chunk_header a ++ rest ->
  i64 (uint n 0 8) = ab_base a /\ uint n 8 8 = ab_seq a.
Proof.
  intros Hb Hs ->. unfold chunk_header. rewrite <- app_assoc. split.
  - unfold uint, sub. change (slice (Z.to_nat 0) (Z.to_nat (0 + 8))) with (@slice Z 0 8).
    pose proof (slice_app_exact [] (le64 (ab_base a)) (le64 (ab_seq a) ++ rest) 0 8 eq_refl eq_refl) as E.
    cbn [app] in E. rewrite E. unfold le64. rewrite le_val_bytes.
    change (256 ^ Z.of_nat 8) with (2 ^ 64). rewrite i64_mod. apply i64_small. lia.
  - apply (uint_mid (le64 (ab_base a)) 8 (ab_seq a)); [apply zlen_le64|lia].
Qed.

Lemma infos_cons comp start a c cs :
  comp <> CompressionNone ->
  infos comp start ((a, c) :: cs) = mkBlockInfo start (ab_base a) (ab_seq a) :: infos comp (start + zlen c) cs.
Proof. intros H. cbn [infos]. now rewrite (proj2 (Z.eqb_neq _ _) H). Qed.

Lemma index_headers_ok comp cs : forall pre post,
  comp <> CompressionNone -> Forall headed cs ->
  index_headers (pre ++ chunks_bytes cs ++ post) Version2 (map bi_Offset (infos comp (zlen pre) cs))
  = Ok (infos comp (zlen pre) cs).
Proof.
  induction cs as [|[a c] cs IH]; intros pre post Hc Hf; [done|].
  inversion Hf as [|? ? (rest & E & Hb & Hs) Hf']; subst. cbn [fst snd] in *.
  rewrite (infos_cons _ _ _ _ _ Hc). cbn [map bi_Offset index_headers].
  change (Version2 =? Version2) with true. cbv iota.
  unfold chunks_bytes in *. cbn [map concat snd].
  assert (Hat : holds_at (pre ++ (c ++ concat (map snd cs)) ++ post) (zlen pre) (chunk_header a)).
  { rewrite <- app_assoc. pose proof (holds_at_mid pre c (concat (map snd cs) ++ post)) as H.
    rewrite E in H at 2. now apply holds_at_app in H. }
  rewrite (read_full_at _ _ _ _ Hat (zlen_chunk_header a)). cbn [mbind result_bind].
  destruct (headed_fields a [] (chunk_header a) Hb Hs ltac:(now rewrite app_nil_r)) as [-> ->].
  specialize (IH (pre ++ c) post Hc Hf'). rewrite zlen_app in IH.
  rewrite <- !app_assoc in *. rewrite IH. done.
Qed.

Lemma index_offsets_ok offs : forall pre tableStart prev,
  tableStart < 2 ^ 63 -> Forall (fun o => 16 <= o < tableStart) offs ->
  StronglySorted Z.lt offs -> (pre = [] \/ Forall (fun o => prev < o) offs) ->
  forall i, zlen pre = i * 8 ->
  index_offsets (pre ++ concat (map le64 offs)) tableStart (length offs) i prev = Ok offs.
Proof.
  induction offs as [|o offs IH]; intros pre ts prev Hts Hr Hso Hprev i Hi; [done|].
  inversion Hr as [|? ? Ho Hr']; subst. inversion Hso as [|? ? Hso' Hlt]; subst.
  cbn [length index_offsets map concat].
  pose proof (uint_mid pre 8 o (concat (map le64 offs)) (i * 8) Hi ltac:(lia)) as U.
  fold (le64 o) in U. change (Z.of_nat 8) with 8 in U. rewrite U.
  rewrite i64_small by lia. unfold FileHeaderSize.
  rewrite (proj2 (Z.ltb_ge _ _)) by lia. rewrite Z.geb_leb, (proj2 (Z.leb_gt _ _)) by lia.
  replace ((i >? 0) && (o <=? prev)) with false.
  2: { destruct Hprev as [->|Hp]; [rewrite zlen_nil in Hi; now replace i with 0 by lia|].
       inversion Hp; subst. rewrite (proj2 (Z.leb_gt o prev)) by lia. now rewrite andb_false_r. }
  rewrite app_assoc, IH; [done|done|done|done|right; exact Hlt|].
  autorewrite with zlen. lia.
Qed.

Lemma infos_offsets comp cs : forall start,
  Forall (fun ch : Chunk => 0 < zlen ch.2) cs ->
  StronglySorted Z.lt (map bi_Offset (infos comp start cs)) /\
  Forall (fun o => start <= o < start + zlen (chunks_bytes cs)) (map bi_Offset (infos comp start cs)).
Proof.
  induction cs as [|[a c] cs IH]; intros start Hcs; [repeat constructor|].
  inversion Hcs as [|? ? Hc Hcs']; subst. cbn [snd] in Hc.
  destruct (IH (start + zlen c) Hcs') as [Hs Hr].
  unfold chunks_bytes in *. cbn [infos map concat snd]. rewrite zlen_app.
  assert (Ho : bi_Offset (if comp =? CompressionNone then mkBlockInfo start 0 0
                else mkBlockInfo start (ab_base a) (ab_seq a)) = start) by now destruct (comp =? _).
  rewrite Ho. pose proof (zlen_nonneg (concat (map snd cs))). split; constructor.
  - exact Hs.
  - eapply Forall_impl; [exact Hr|]. cbn. lia.
  - lia.
  - eapply Forall_impl; [exact Hr|]. cbn. lia.
Qed.

Lemma headed_pos cs : Forall headed cs -> Forall (fun ch : Chunk => 0 < zlen ch.2) cs.
Proof.
  intros H. eapply Forall_impl; [exact H|]. intros [a c] (rest & E & _). cbn [fst snd] in *.
  rewrite E, zlen_app, zlen_chunk_header. pose proof (zlen_nonneg rest). lia.
Qed.

(** A finished file: the index at its end names exactly its blocks. *)
Lemma readBlockIndex_ok bs comp cs :
  comp <> CompressionNone -> Forall headed cs -> cs <> [] -> zlen cs <= maxBlockIndexEntries ->
  let offs := map bi_Offset (infos comp 16 cs) in
  let r := jheader bs comp ++ chunks_bytes cs ++ index_bytes offs in
  zlen r < 2 ^ 62 -> readBlockIndex r Version2 = Ok (infos comp 16 cs).
Proof.
  intros Hc Hcs Hne Hmax offs r Hr.
  destruct (infos_offsets comp cs 16 (headed_pos _ Hcs)) as [Hsort Hrange]. fold offs in Hsort, Hrange.
  assert (Hlen : zlen offs = zlen cs)
    by (unfold offs, zlen; now rewrite length_map, length_infos).
  assert (Hpos : 0 < zlen cs) by (destruct cs; [done|]; rewrite zlen_cons; pose proof (zlen_nonneg cs); lia).
  assert (Htab : zlen (concat (map le64 offs)) = 8 * zlen offs).
  { clear. unfold offs. induction (infos comp 16 cs) as [|b l IH]; [done|].
    cbn [map concat]. autorewrite with zlen. rewrite IH. lia. }
  change maxBlockIndexEntries with 262144 in *.
  assert (Hzr : zlen r = 16 + zlen (chunks_bytes cs) + 8 * zlen cs + 8).
  { unfold r, index_bytes. autorewrite with zlen. rewrite zlen_jheader, Htab, Hlen.
    change (zlen BlockIndexMagic) with 4. lia. }
  pose proof (zlen_nonneg (chunks_bytes cs)).
  unfold readBlockIndex. rewrite Hzr. unfold FileHeaderSize.
  rewrite (proj2 (Z.ltb_ge _ _)) by lia.
  set (front := jheader bs comp ++ chunks_bytes cs).
  assert (Hf : zlen front = 16 + zlen (chunks_bytes cs)) by (unfold front; now rewrite zlen_app, zlen_jheader).
  assert (Hr1 : r = front ++ concat (map le64 offs) ++ (le32 (zlen offs) ++ BlockIndexMagic))
    by (unfold r, front, index_bytes; now rewrite <- !app_assoc).
  assert (H1 : holds_at r (zlen front) (concat (map le64 offs))) by (rewrite Hr1; apply holds_at_mid).
  assert (H2 : holds_at r (zlen (front ++ concat (map le64 offs))) (le32 (zlen offs) ++ BlockIndexMagic)).
  { rewrite Hr1, app_assoc. pose proof (holds_at_mid (front ++ concat (map le64 offs))
      (le32 (zlen offs) ++ BlockIndexMagic) []) as H2. now rewrite app_nil_r in H2. }
  rewrite zlen_app, Htab, Hlen in H2.
  replace (16 + zlen (chunks_bytes cs) + 8 * zlen cs + 8 - 8) with (zlen front + 8 * zlen cs) by lia.
  rewrite (read_full_at _ _ _ _ H2) by (autorewrite with zlen; done). cbn [mbind result_bind].
  pose proof (uint_mid [] 4 (zlen cs) BlockIndexMagic 0 eq_refl ltac:(lia)) as U. cbn [app] in U.
  fold (le32 (zlen cs)) in U. change (Z.of_nat 4) with 4 in U. rewrite U.
  change (sub (le32 (zlen cs) ++ BlockIndexMagic) 4 8) with BlockIndexMagic.
  rewrite bool_decide_true by done. cbn [negb].
  change maxBlockIndexEntries with 262144.
  rewrite (proj2 (Z.eqb_neq _ _)) by lia. rewrite Z.gtb_ltb, (proj2 (Z.ltb_ge _ _)) by lia.
  replace (zlen front + 8 * zlen cs - zlen cs * 8) with (zlen front) by lia.
  rewrite (proj2 (Z.ltb_ge _ _)) by lia.
  rewrite (read_full_at _ _ _ _ H1) by lia. cbn [mbind result_bind].
  replace (Z.to_nat (zlen cs)) with (length offs) by (unfold zlen in Hlen |- *; lia).
  pose proof (index_offsets_ok offs [] (zlen front) 0) as Hio. cbn [app] in Hio.
  rewrite Hio; [|lia| |done|now left|done].
  2: { eapply Forall_impl; [exact Hrange|]. intros o Ho. cbv beta in *. lia. }
  cbn [mbind result_bind]. unfold r, offs.
  exact (index_headers_ok comp cs (jheader bs comp) _ Hc Hcs).
Qed.

(** ** Files left by a crash *)

Section recovery.
  Context (DecodeAll : list Z -> option (list Z)) (DecodeAllDict : list Z -> list Z -> option (list Z)).
  Abbreviation chunk_of := (chunk_of DecodeAll DecodeAllDict).

(** A block the writer can have put in a file of compression [comp]. *)
Definition stored_chunk (comp : Z) (ch : Chunk) : Prop :=
  chunk_of comp ch.1 ch.2 /\ - 2 ^ 63 <= ab_base ch.1 < 2 ^ 63 /\ 0 <= ab_seq ch.1 < 2 ^ 64.

Lemma stored_chunk_headed comp ch : comp <> CompressionNone -> stored_chunk comp ch -> headed ch.
Proof.
  intros Hc (H & Hb & Hs). destruct ch as [a c]. cbn [fst snd] in *.
  destruct H as [E|payload E _ _|d payload E _ _ _]; [done| |];
    (eexists; split; [reflexivity|split; assumption]).
Qed.

(** The fields the forward scan reads from a compressed block. *)
Lemma chunk_scan_fields comp a c :
  comp <> CompressionNone -> chunk_of comp a c ->
  exists hdr body dl cl, c = hdr ++ body /\ zlen hdr = header_len comp Version2 /\
    (exists rest, hdr = chunk_header a ++ rest) /\
    (if comp =? CompressionZstdDict then uint hdr 16 4 else 0) = dl /\
    (if comp =? CompressionZstdDict then uint hdr 20 4 else uint hdr 16 4) = cl /\
    (dl =? 0) && (cl =? 0) = false /\ zlen body = dl + cl /\ 0 <= dl /\ 0 <= cl.
Proof.
  intros Hc H. destruct H as [E|payload E _ Hp|d payload E _ Hp Hs]; [done| |].
  - exists (chunk_header a ++ le32 (zlen payload)), payload, 0, (zlen payload).
    rewrite E. change (CompressionZstd =? CompressionZstdDict) with false. cbv iota.
    split; [now rewrite <- app_assoc|]. split; [rewrite zlen_app, zlen_chunk_header; reflexivity|].
    split; [now eexists|]. split; [done|]. split; [|split; [|lia]].
    + pose proof (uint_mid (chunk_header a) 4 (zlen payload) [] 16 (zlen_chunk_header a) ltac:(lia)) as U.
      now rewrite app_nil_r in U.
    + rewrite (proj2 (Z.eqb_neq (zlen payload) 0)) by lia. apply andb_false_r.
  - pose proof (zlen_nonneg d).
    exists (chunk_header a ++ le32 (zlen d) ++ le32 (zlen payload)), (d ++ payload), (zlen d), (zlen payload).
    rewrite E. change (CompressionZstdDict =? CompressionZstdDict) with true. cbv iota.
    split; [now rewrite <- !app_assoc|].
    split; [rewrite !zlen_app, zlen_chunk_header; reflexivity|].
    split; [now eexists|]. split; [|split; [|split; [|split; [apply zlen_app|lia]]]].
    + apply (uint_mid (chunk_header a) 4 (zlen d)); [apply zlen_chunk_header|lia].
    + pose proof (uint_mid (chunk_header a ++ le32 (zlen d)) 4 (zlen payload) [] 20) as U.
      rewrite app_nil_r, <- app_assoc in U. apply U; [|lia].
      rewrite zlen_app, zlen_chunk_header. reflexivity.
    + rewrite (proj2 (Z.eqb_neq (zlen payload) 0)) by lia. apply andb_false_r.
Qed.

(** What a crash leaves after the last complete block: a proper prefix of the
    next one (possibly empty). *)
Definition torn_tail (comp : Z) (torn : list Z) : Prop :=
  torn = [] \/ exists ch more, stored_chunk comp ch /\ ch.2 = torn ++ more /\ more <> [].

Lemma header_len_v2 comp :
  header_len comp Version2 = if comp =? CompressionZstdDict then 24 else 20.
Proof. unfold header_len. now destruct (comp =? CompressionZstdDict). Qed.

Lemma scan_loop_torn comp fuel pre torn :
  comp <> CompressionNone -> torn_tail comp torn ->
  scan_loop fuel (pre ++ torn) comp Version2 (zlen pre) = [].
Proof.
  intros Hc Ht. destruct fuel as [|fuel]; [done|]. cbn [scan_loop]. rewrite zlen_app.
  set (h := header_len comp Version2).
  assert (Hh : 20 <= h) by (unfold h; rewrite header_len_v2; destruct (comp =? _); lia).
  destruct (Z.leb_spec (zlen pre + h) (zlen pre + zlen torn)) as [Hle|]; [|done].
  destruct Ht as [->|([a c] & more & (Hch & Hb & Hs) & E & Hmore)]; [rewrite zlen_nil in Hle; lia|].
  cbn [fst snd] in *.
  destruct (chunk_scan_fields comp a c Hc Hch) as (hdr & body & dl & cl & Ec & Hl & _ & Hdl & Hcl & Hz & Hbody & _).
  fold h in Hl.
  assert (Et : torn = hdr ++ drop (length hdr) torn).
  { rewrite <- (take_drop (length hdr) torn) at 1. f_equal.
    assert (length hdr <= length torn)%nat by (unfold zlen in *; lia).
    transitivity (take (length hdr) c); [rewrite E; now rewrite take_app_le|].
    rewrite Ec. apply take_app_length. }
  assert (Hat : holds_at (pre ++ torn) (zlen pre) hdr).
  { rewrite Et. apply holds_at_mid. }
  rewrite (read_full_at _ _ _ _ Hat Hl).
  change (8 + seqFieldLen Version2) with 16. change (12 + seqFieldLen Version2) with 20.
  rewrite Hdl, Hcl, Hz. rewrite Z.gtb_ltb, (proj2 (Z.ltb_lt _ _)); [done|].
  assert (zlen c = zlen torn + zlen more) by (rewrite E; apply zlen_app).
  assert (zlen c = h + (dl + cl)) by (rewrite Ec, zlen_app; lia).
  assert (0 < zlen more) by (destruct more; [done|rewrite zlen_cons; pose proof (zlen_nonneg more); lia]).
  lia.
Qed.

Lemma scan_loop_ok comp cs : forall fuel pre torn,
  comp <> CompressionNone -> Forall (stored_chunk comp) cs -> torn_tail comp torn ->
  (length cs <= fuel)%nat ->
  scan_loop fuel (pre ++ chunks_bytes cs ++ torn) comp Version2 (zlen pre) = infos comp (zlen pre) cs.
Proof.
  induction cs as [|[a c] cs IH]; intros fuel pre torn Hc Hcs Ht Hf; [now apply scan_loop_torn|].
  destruct fuel as [|fuel]; [cbn in Hf; lia|].
  inversion Hcs as [|? ? (Hch & Hb & Hs) Hcs']; subst. cbn [fst snd length] in *.
  destruct (chunk_scan_fields comp a c Hc Hch)
    as (hdr & body & dl & cl & Ec & Hl & (rest & Hhdr) & Hdl & Hcl & Hz & Hbody & _).
  unfold chunks_bytes in *. cbn [map concat snd]. rewrite (infos_cons _ _ _ _ _ Hc).
  cbn [scan_loop]. rewrite !zlen_app.
  assert (Lc : zlen c = header_len comp Version2 + dl + cl) by (rewrite Ec, zlen_app; lia).
  pose proof (zlen_nonneg (concat (map snd cs))). pose proof (zlen_nonneg torn).
  pose proof (zlen_nonneg body).
  rewrite (proj2 (Z.leb_le _ _)) by lia.
  assert (Hat : holds_at (pre ++ (c ++ concat (map snd cs)) ++ torn) (zlen pre) hdr).
  { rewrite <- app_assoc. pose proof (holds_at_mid pre c (concat (map snd cs) ++ torn)) as H3.
    rewrite Ec in H3 at 2. now apply holds_at_app in H3. }
  rewrite (read_full_at _ _ _ _ Hat Hl).
  change (8 + seqFieldLen Version2) with 16. change (12 + seqFieldLen Version2) with 20.
  change (Version2 =? Version2) with true. cbv iota.
  rewrite Hdl, Hcl, Hz. rewrite Z.gtb_ltb, (proj2 (Z.ltb_ge _ _)) by lia.
  destruct (headed_fields a rest hdr Hb Hs Hhdr) as [-> ->]. f_equal.
  specialize (IH fuel (pre ++ c) torn Hc Hcs' Ht ltac:(lia)). rewrite zlen_app in IH.
  replace (zlen pre + header_len comp Version2 + dl + cl) with (zlen pre + zlen c) by lia.
  rewrite <- !app_assoc in *. exact IH.
Qed.

Lemma scanBlocks_ok bs comp cs torn :
  comp <> CompressionNone -> Forall (stored_chunk comp) cs -> torn_tail comp torn ->
  scanBlocks (jheader bs comp ++ chunks_bytes cs ++ torn) comp Version2 = infos comp 16 cs.
Proof.
  intros Hc Hcs Ht. unfold scanBlocks. change FileHeaderSize with (zlen (jheader bs comp)).
  rewrite scan_loop_ok; try done. rewrite !length_app.
  enough (length cs <= length (chunks_bytes cs))%nat by lia.
  clear Ht. induction Hcs as [|ch cs Hch _ IH]; [cbn; lia|].
  apply (stored_chunk_headed _ _ Hc) in Hch. pose proof (headed_pos [ch] ltac:(now constructor)) as Hp.
  inversion Hp; subst. unfold chunks_bytes in *. cbn [map concat length]. rewrite length_app.
  unfold zlen in *. lia.
Qed.

End recovery.

(** ** A whole file *)

Section files.
  Context (DecodeAll : list Z -> option (list Z)) (DecodeAllDict : list Z -> list Z -> option (list Z)).
  Context (bs comp : Z) (Hbs : block_size_ok bs) (Hcomp : compression_ok comp).
  Abbreviation stored_chunk := (stored_chunk DecodeAll DecodeAllDict comp).

(** What may follow the blocks [cs]: in an uncompressed file, part of a block;
    in a compressed one the index, or what a crash left of the next block when
    that is not mistaken for an index. *)
Definition file_tail (cs : list Chunk) (tail : list Z) : Prop :=
  if comp =? CompressionNone then zlen tail < bs
  else (cs <> [] /\ zlen cs <= maxBlockIndexEntries /\
        tail = index_bytes (map bi_Offset (infos comp 16 cs))) \/
       (torn_tail DecodeAll DecodeAllDict comp tail /\
        exists e, readBlockIndex (jheader bs comp ++ chunks_bytes cs ++ tail) Version2 = Err e).

Definition journal_bytes (cs : list Chunk) (tail : list Z) : list Z :=
  jheader bs comp ++ chunks_bytes cs ++ tail.

Lemma found_blocks_ok cs tail :
  Forall stored_chunk cs -> Forall (fun ch => block_ok bs ch.1) cs -> file_tail cs tail ->
  zlen (journal_bytes cs tail) < 2 ^ 62 ->
  found_blocks (journal_bytes cs tail) bs comp = infos comp 16 cs.
Proof.
  unfold file_tail, journal_bytes. intros Hst Hok Ht Hr. destruct (Z.eqb_spec comp CompressionNone) as [->|Hc].
  - apply found_blocks_plain; [unfold block_size_ok in Hbs; lia| |done].
    rewrite Forall_forall in *. intros [a c] Hin.
    destruct (Hst _ Hin) as [Hch _]. pose proof (bk_len _ _ (Hok _ Hin)) as L. cbn [fst snd] in *.
    inversion Hch; subst; try done.
  - unfold found_blocks. rewrite (proj2 (Z.eqb_neq _ _) Hc).
    destruct Ht as [(Hne & Hmax & ->)|(Ht & e & ->)].
    + rewrite readBlockIndex_ok; try done.
      eapply Forall_impl; [exact Hst|]. intros ch. now apply stored_chunk_headed.
    + now apply (scanBlocks_ok DecodeAll DecodeAllDict).
Qed.

Lemma chunk_bytes_bound a c : stored_chunk (a, c) -> block_ok bs a -> 0 < zlen c < 2 ^ 31.
Proof.
  intros [Hch _] Hok. cbn [fst snd] in *. pose proof (bk_len _ _ Hok). unfold block_size_ok in Hbs.
  destruct Hch as [E|payload E _ Hp|d payload E _ Hp Hs]; autorewrite with zlen;
    rewrite ?zlen_chunk_header; [lia|lia|]. pose proof (zlen_nonneg d). lia.
Qed.

Lemma tail_bound cs tail : file_tail cs tail -> Forall (fun ch => block_ok bs ch.1) cs -> zlen tail < 2 ^ 31.
Proof.
  unfold file_tail, block_size_ok in *. destruct (Z.eqb_spec comp CompressionNone) as [->|Hc]; [lia|].
  intros [(Hne & Hmax & ->)|([->|([a c] & more & (Hch & _) & E & _)] & _)] _.
  - unfold index_bytes. autorewrite with zlen. change (zlen BlockIndexMagic) with 4.
    assert (L : forall l, zlen (concat (map le64 l)) = 8 * zlen l).
    { induction l as [|o l IH]; [done|]. cbn [map concat]. autorewrite with zlen. lia. }
    rewrite L. unfold zlen at 1. rewrite length_map, length_infos. fold (zlen cs).
    change maxBlockIndexEntries with 262144 in Hmax. lia.
  - rewrite zlen_nil. lia.
  - cbn [fst snd] in *. assert (zlen c = zlen tail + zlen more) by (rewrite E; apply zlen_app).
    pose proof (zlen_nonneg more).
    destruct Hch as [?|payload _ _ Hp|d payload _ _ Hp Hs]; [done| |]; autorewrite with zlen in *;
      rewrite zlen_chunk_header in *; try pose proof (zlen_nonneg d); lia.
Qed.

(** Opening the file finds the blocks, and every one of them loads. *)
Lemma opened_stored cs tail i a c :
  Forall stored_chunk cs -> Forall (fun ch => block_ok bs ch.1) cs -> file_tail cs tail ->
  cs !! i = Some (a, c) ->
  stored DecodeAll DecodeAllDict
    (mkOpenJournal (journal_bytes cs tail) bs comp Version2 (infos comp 16 cs)) (Z.of_nat i) (ab_buf a).
Proof.
  intros Hst Hok Ht Hi.
  destruct (infos comp 16 cs !! i) as [b|] eqn:Hb.
  2: { apply lookup_ge_None in Hb. rewrite length_infos in Hb. apply lookup_lt_Some in Hi. lia. }
  change 16 with (zlen (jheader bs comp)) in Hb.
  destruct (infos_at comp cs (jheader bs comp) tail i b Hb) as (a' & c' & Hi' & Hat & Hle & Hend & Hnext).
  rewrite Hi in Hi'. injection Hi' as <- <-. change (zlen (jheader bs comp)) with 16 in *.
  rewrite Forall_forall in Hst, Hok. apply list_elem_of_lookup_2 in Hi.
  pose proof (chunk_bytes_bound _ _ (Hst _ Hi) (Hok _ Hi)).
  eapply chunk_stored; cbn [jr_version jr_blocks jr_compression jr_r jr_blockSize].
  - lia.
  - done.
  - rewrite Nat2Z.id. exact Hb.
  - apply (Hst _ Hi).
  - exact Hat.
  - apply (bk_len _ _ (Hok _ Hi)).
  - replace (Z.to_nat (Z.of_nat i + 1)) with (S i) by lia.
    destruct (infos comp 16 cs !! S i) as [b'|] eqn:Hb'; [exact Hnext|].
    pose proof (tail_bound cs tail Ht ltac:(now apply Forall_forall)).
    unfold journal_bytes. rewrite !zlen_app, zlen_jheader in *. lia.
Qed.

(** Every frame of every block is read back, in file order. *)
Lemma journal_read cs tail fuel :
  Forall stored_chunk cs -> Forall (fun ch => block_ok bs ch.1) cs -> file_tail cs tail ->
  zlen (journal_bytes cs tail) < 2 ^ 62 -> (frames_in (map fst cs) < fuel)%nat ->
  exists jr, NewReader (journal_bytes cs tail) = Ok jr /\
    read_all DecodeAll DecodeAllDict fuel jr = Some (concat (map (block_entries ∘ fst) cs)).
Proof.
  intros Hst Hok Ht Hr Hfuel. eexists. split; [apply NewReader_header; done|].
  fold (journal_bytes cs tail). rewrite found_blocks_ok by done.
  rewrite (read_all_blocks DecodeAll DecodeAllDict fuel _ [] (map fst cs)); cbn;
    try done; try (unfold block_size_ok in Hbs; lia).
  - cbn. now rewrite map_map.
  - right. done.
  - unfold zlen. now rewrite length_infos, length_map.
  - intros i a Hi. apply list_lookup_fmap_Some in Hi as ([a' c] & -> & E). cbn [fst].
    split; [|rewrite Forall_forall in Hok; apply (Hok (a', c)); now apply list_elem_of_lookup_2 in E].
    apply (opened_stored cs tail i a' c); done.
Qed.

End files.

(** * Device tables round trip *)

Lemma read_strings_enc ss : forall b off rest,
  0 <= off -> sub b off (zlen b) = concat (map enc_string ss) ++ rest ->
  read_strings (length ss) b off = Ok (ss, off + zlen (concat (map enc_string ss))).
Proof.
  induction ss as [|s ss IH]; intros b off rest Ho E; cbn [length read_strings map concat].
  - now rewrite zlen_nil, Z.add_0_r.
  - cbn [map concat] in E. rewrite <- app_assoc in E.
    rewrite (ReadLenPrefixedString_enc _ _ _ _ _ Ho E). cbn [mbind result_bind].
    apply sub_suffix in E; [|done]. pose proof (zlen_nonneg (enc_string s)).
    rewrite (IH _ _ rest); [|lia|exact E]. cbn [mbind result_bind].
    do 2 f_equal. autorewrite with zlen. lia.
Qed.

Lemma uint_at b off j n z rest :
  0 <= off -> 0 <= z < 256 ^ Z.of_nat n -> sub b off j = le_bytes n z ++ rest ->
  uint b off (Z.of_nat n) = z.
Proof.
  intros Ho Hz E. unfold uint.
  rewrite (uint_sub b off j (Z.of_nat n) (le_bytes n z) rest); try assumption; try lia.
  - rewrite le_val_bytes. now apply Z.mod_small.
  - unfold zlen. now rewrite length_le_bytes.
Qed.

Lemma read_entries_enc ts : forall b off rest,
  0 <= off -> Forall entry_ok ts -> sub b off (zlen b) = concat (map enc_entry ts) ++ rest ->
  read_entries (length ts) b off = Ok ts.
Proof.
  induction ts as [|t ts IH]; intros b off rest Ho Hts E; [done|].
  inversion Hts as [|? ? [Hs Hn Ha Hp Hm Hsw Hv Hr] Hts']; subst.
  cbn [length read_entries map concat] in *. rewrite <- app_assoc in E.
  pose proof (sub_length _ _ _ _ Ho E) as L. rewrite zlen_app, zlen_enc_entry in L.
  pose proof (zlen_nonneg (concat (map enc_entry ts) ++ rest)). unfold entry_size in L.
  rewrite Z.gtb_ltb, (proj2 (Z.ltb_ge _ _)) by lia.
  set (rest' := concat (map enc_entry ts) ++ rest) in *.
  assert (E0 : sub b off (zlen b) = [te_Source t] ++ le64 (te_NAME t) ++ le32 (te_ActiveFrom t) ++
    le16 (te_ProductCode t) ++ concat (map enc_string [te_ModelID t; te_SoftwareVersion t;
      te_ModelVersion t; te_ModelSerial t]) ++ rest').
  { rewrite E. unfold enc_entry. cbn [map concat]. rewrite app_nil_r, <- !app_assoc.
    cbn [app]. f_equal. now rewrite <- !app_assoc. }
  assert (U0 : uint b off 1 = te_Source t).
  { apply (uint_at b off (zlen b) 1 (te_Source t) (drop 1 (sub b off (zlen b)))); [done|lia|].
    rewrite E0. cbn [le_bytes app]. rewrite Z.mod_small by lia. done. }
  apply sub_suffix in E0; [|done]. change (zlen [te_Source t]) with 1 in E0.
  assert (U1 : uint b (off + 1) 8 = te_NAME t) by (eapply (uint_at _ _ _ 8); [lia|cbn; lia|exact E0]).
  apply sub_suffix in E0; [|lia]. rewrite zlen_le64 in E0. rewrite <- Z.add_assoc in E0.
  assert (U2 : uint b (off + 9) 4 = te_ActiveFrom t) by (eapply (uint_at _ _ _ 4); [lia|cbn; lia|exact E0]).
  apply sub_suffix in E0; [|lia]. rewrite zlen_le32 in E0. rewrite <- Z.add_assoc in E0.
  assert (U3 : uint b (off + 13) 2 = te_ProductCode t) by (eapply (uint_at _ _ _ 2); [lia|cbn; lia|exact E0]).
  apply sub_suffix in E0; [|lia]. rewrite zlen_le16 in E0. rewrite <- Z.add_assoc in E0.
  change (off + (1 + 8 + 4 + 2)) with (off + 15) in *.
  assert (Ho15 : 0 <= off + 15) by lia.
  pose proof (read_strings_enc _ _ _ _ Ho15 E0) as Rs. cbn [length] in Rs. rewrite Rs. cbn [mbind result_bind].
  apply sub_suffix in E0; [|lia].
  pose proof (zlen_nonneg (concat (map enc_string [te_ModelID t; te_SoftwareVersion t;
      te_ModelVersion t; te_ModelSerial t]))).
  rewrite (IH b _ rest); [|lia|done|exact E0]. cbn [mbind result_bind].
  rewrite U0, U1, U2, U3. now destruct t.
Qed.

Lemma readDeviceTable_enc b off ts :
  Forall entry_ok ts -> zlen ts < 2 ^ 16 -> holds_at b off (enc_table ts) ->
  readDeviceTable b off = Ok ts.
Proof.
  intros Hts Hn (Ho & Hend & E). unfold enc_table in *. rewrite zlen_app, zlen_le16 in *.
  pose proof (zlen_nonneg (concat (map enc_entry ts))).
  unfold readDeviceTable. rewrite Z.gtb_ltb, (proj2 (Z.ltb_ge _ _)), (proj2 (Z.ltb_ge _ _)) by lia.
  assert (E' : sub b off (zlen b) = (le16 (zlen ts) ++ concat (map enc_entry ts)) ++
    sub b (off + (2 + zlen (concat (map enc_entry ts)))) (zlen b)).
  { rewrite <- E. symmetry. apply sub_app_l; lia. }
  rewrite <- app_assoc in E'. pose proof (zlen_nonneg ts).
  assert (U : uint b off 2 = zlen ts) by (eapply (uint_at _ _ _ 2); [lia|cbn; lia|exact E']).
  rewrite U. unfold zlen at 1. rewrite Nat2Z.id.
  apply sub_suffix in E'; [|lia]. rewrite zlen_le16 in E'.
  eapply read_entries_enc; [lia|done|exact E'].
Qed.

(** ** Resolving the table at a frame *)

(** For every source the entry with the largest [ActiveFrom] not after the
    frame, the first such one. *)
Definition active_at (idx : Z) (es : list deviceTableEntry) (e : deviceTableEntry) : Prop :=
  exists pre post, es = pre ++ e :: post /\ te_ActiveFrom e <= idx /\
    Forall (fun e' => te_Source e' = te_Source e -> te_ActiveFrom e' <= idx ->
      te_ActiveFrom e' < te_ActiveFrom e) pre /\
    Forall (fun e' => te_Source e' = te_Source e -> te_ActiveFrom e' <= idx ->
      te_ActiveFrom e' <= te_ActiveFrom e) post.

Definition best_of (idx : Z) (es : list deviceTableEntry) : gmap Z deviceTableEntry :=
  foldl (resolve_step idx) ∅ es.

Lemma best_of_spec idx es s :
  match best_of idx es !! s with
  | Some e => te_Source e = s /\ active_at idx es e
  | None => Forall (fun e => te_Source e = s -> idx < te_ActiveFrom e) es
  end.
Proof.
  unfold best_of. induction es as [|e es IH] using rev_ind; [cbn [foldl]; now rewrite lookup_empty|].
  rewrite foldl_app. cbn [foldl]. set (best := foldl (resolve_step idx) ∅ es) in *.
  assert (Hskip : forall e', best !! s = Some e' -> (te_Source e = s -> te_ActiveFrom e <= idx ->
      te_ActiveFrom e <= te_ActiveFrom e') -> te_Source e' = s /\ active_at idx (es ++ [e]) e').
  { intros e' He' Hle. rewrite He' in IH. destruct IH as [Hs (pre & post & -> & Ha & Hp & Hq)].
    split; [done|]. exists pre, (post ++ [e]). rewrite <- app_assoc. split; [done|].
    split; [done|]. split; [done|]. apply Forall_app. split; [done|]. constructor; [|done].
    rewrite Hs. exact Hle. }
  assert (Hnone : best !! s = None -> (te_Source e = s -> idx < te_ActiveFrom e) ->
      Forall (fun e => te_Source e = s -> idx < te_ActiveFrom e) (es ++ [e])).
  { intros Hb He. rewrite Hb in IH. apply Forall_app. split; [done|]. now constructor. }
  unfold resolve_step. destruct (Z.leb_spec (te_ActiveFrom e) idx) as [Hle|Hgt].
  2: { destruct (best !! s) as [e'|] eqn:Hb; [apply Hskip; [done|lia]|apply Hnone; [done|lia]]. }
  destruct (decide (te_Source e = s)) as [<-|Hne].
  - destruct (best !! te_Source e) as [cur|] eqn:Hb.
    + rewrite Z.gtb_ltb. destruct (Z.ltb_spec (te_ActiveFrom cur) (te_ActiveFrom e)) as [Hlt|Hge].
      * rewrite lookup_insert_eq. destruct IH as [Hs (pre & post & -> & Ha & Hp & Hq)].
        split; [done|]. exists (pre ++ cur :: post), []. split; [done|]. split; [done|]. split; [|done].
        apply Forall_app. split; [|constructor].
        -- eapply Forall_impl; [exact Hp|]. intros e' H Hs' Hl'. specialize (H ltac:(congruence) Hl'). lia.
        -- lia.
        -- eapply Forall_impl; [exact Hq|]. intros e' H Hs' Hl'. specialize (H ltac:(congruence) Hl'). lia.
      * rewrite Hb. apply Hskip; [done|lia].
    + rewrite lookup_insert_eq. split; [done|]. exists es, []. split; [done|]. split; [done|]. split; [|done].
      eapply Forall_impl; [exact IH|]. intros e' H Hs' Hl'. specialize (H Hs'). lia.
  - assert (Hsame : (match best !! te_Source e with
      | Some cur => if te_ActiveFrom e >? te_ActiveFrom cur then <[te_Source e:=e]> best else best
      | None => <[te_Source e:=e]> best end) !! s = best !! s).
    { destruct (best !! te_Source e); [destruct (_ >? _)|]; now rewrite ?lookup_insert_ne. }
    rewrite Hsame. destruct (best !! s) as [e'|] eqn:Hb; [apply Hskip; [done|congruence]|].
    apply Hnone; [done|congruence].
Qed.

(** * Termination of [Next] *)

Section next.
  Context (DecodeAll : list Z -> option (list Z)) (DecodeAllDict : list Z -> list Z -> option (list Z)).

Lemma parseLoadedBlock_frame n jr jr' :
  parseLoadedBlock n jr = (jr', None) -> jr_file jr' = jr_file jr /\ jr_currentBlock jr' = n.
Proof. unfold parseLoadedBlock. destruct (negb _); [done|]. now intros [= <-]. Qed.

Lemma loadBlock_frame n jr jr' :
  loadBlock DecodeAll DecodeAllDict n jr = (jr', None) -> jr_file jr' = jr_file jr /\ jr_currentBlock jr' = n.
Proof.
  unfold loadBlock, loadCompressedBlock, loadUncompressedBlock.
  destruct (jr_blocks (jr_file jr) !! Z.to_nat n) as [b|]; [|done].
  destruct (negb _).
  - destruct (if jr_compression (jr_file jr) =? CompressionZstdDict then _ else _); [|done].
    destruct (negb _); [done|]. intros H. now apply parseLoadedBlock_frame in H.
  - destruct (read_full _ _ _); [|done]. intros H. now apply parseLoadedBlock_frame in H.
Qed.

(** The rounds left: two per block not yet loaded, one more when the current
    block still has frames. *)
Definition next_rounds (jr : Reader) : nat :=
  (2 * (length (jr_blocks (jr_file jr)) - Z.to_nat (jr_currentBlock jr + 1)) +
   (if blockLoaded (jr_block jr) && (frameIdx (jr_block jr) <? frameCount (jr_block jr))%Z then 1 else 0))%nat.

Lemma next_loop_fuel fuel : forall jr,
  -1 <= jr_currentBlock jr -> (next_rounds jr < fuel)%nat ->
  (next_loop DecodeAll DecodeAllDict fuel jr).2 <> NextFuel.
Proof.
  induction fuel as [|fuel IH]; intros jr Hcur Hf; [lia|]. cbn [next_loop]. unfold next_rounds in Hf.
  destruct (blockLoaded (jr_block jr) && _) eqn:E.
  - destruct (parseNextFrame jr) as [jr'|[]]; try done; (apply IH; [done|]; unfold next_rounds; cbn; lia).
  - rewrite Z.geb_leb. destruct (Z.leb_spec (zlen (jr_blocks (jr_file jr))) (jr_currentBlock jr + 1)); [done|].
    destruct (loadBlock DecodeAll DecodeAllDict (jr_currentBlock jr + 1) jr) as [jr' [e|]] eqn:El; [done|].
    apply loadBlock_frame in El as [Hfile Hcur']. apply IH; [lia|]. unfold next_rounds.
    rewrite Hfile, Hcur'. unfold zlen in *.
    destruct (blockLoaded (jr_block jr') && _); lia.
Qed.

(** [Next] always decides: whatever the bytes of the file, its loop over
    corrupt and empty blocks ends with a frame, the end of the file, an error
    or a panic. *)
Theorem Next_terminates jr :
  -1 <= jr_currentBlock jr -> (Next DecodeAll DecodeAllDict jr).2 <> NextFuel.
Proof.
  intros Hcur. apply next_loop_fuel; [done|]. unfold next_rounds, next_fuel.
  destruct (blockLoaded (jr_block jr) && _); lia.
Qed.

Lemma parseNextFrame_file jr jr' : parseNextFrame jr = Ok jr' -> jr_file jr' = jr_file jr.
Proof.
  unfold parseNextFrame. destruct (parse_frame _ _ _) as [[[[d h] data] off]|]; [|done].
  cbn [mbind result_bind]. now intros [= <-].
Qed.

(** A reader stays on its file. *)
Lemma next_loop_file fuel : forall jr jr',
  next_loop DecodeAll DecodeAllDict fuel jr = (jr', NextFrame) -> jr_file jr' = jr_file jr.
Proof.
  induction fuel as [|fuel IH]; intros jr jr'; cbn [next_loop]; [done|].
  destruct (blockLoaded (jr_block jr) && _).
  - destruct (parseNextFrame jr) as [jr1|[]] eqn:Ep; intros H; try done; try now apply IH in H.
    injection H as <-. now apply parseNextFrame_file.
  - destruct (_ >=? _); [done|].
    destruct (loadBlock DecodeAll DecodeAllDict (jr_currentBlock jr + 1) jr) as [jr1 [e|]] eqn:El; [done|].
    intros H. rewrite (IH _ _ H). now apply loadBlock_frame in El.
Qed.

Lemma Next_file jr jr' : Next DecodeAll DecodeAllDict jr = (jr', NextFrame) -> jr_file jr' = jr_file jr.
Proof. apply next_loop_file. Qed.

End next.

(** * Seeking *)

Section seek.

(** [i] is the last index whose key is at most the target, or the first. *)
Definition seek_target {A} (key : A -> Z) (target : Z) (l : list A) (i : nat) : Prop :=
  (i < length l)%nat /\ (i = 0%nat \/ exists a, l !! i = Some a /\ key a <= target) /\
  (forall j a, (i < j)%nat -> l !! j = Some a -> target < key a).

Definition ascending {A} (key : A -> Z) (l : list A) : Prop :=
  forall i j a b, (i <= j)%nat -> l !! i = Some a -> l !! j = Some b -> key a <= key b.

Lemma seek_loop_spec blocks (key : blockInfo -> result jerror Z) (val : blockInfo -> Z) target :
  (forall b, b ∈ blocks -> key b = Ok (val b)) -> ascending val blocks -> blocks <> [] ->
  forall fuel lo hi res,
  hi - lo < Z.of_nat fuel -> 0 <= lo -> lo <= hi + 1 -> hi < zlen blocks ->
  res = Z.max 0 (lo - 1) ->
  (forall j b, Z.of_nat j < lo -> blocks !! j = Some b -> val b <= target) ->
  (forall j b, hi < Z.of_nat j -> blocks !! j = Some b -> target < val b) ->
  exists i, seek_loop fuel key blocks target lo hi res = Ok (Z.of_nat i) /\ seek_target val target blocks i.
Proof.
  intros Hkey Hasc Hne. unfold zlen.
  assert (Hdone : forall lo hi res, hi < lo -> 0 <= lo -> lo <= hi + 1 -> hi < Z.of_nat (length blocks) ->
    res = Z.max 0 (lo - 1) ->
    (forall j b, Z.of_nat j < lo -> blocks !! j = Some b -> val b <= target) ->
    (forall j b, hi < Z.of_nat j -> blocks !! j = Some b -> target < val b) ->
    exists i, Ok res = @Ok jerror Z (Z.of_nat i) /\ seek_target val target blocks i).
  { intros lo hi res Hlt Hlo Hle Hhi -> Hlow Hhigh. exists (Z.to_nat (Z.max 0 (lo - 1))).
    split; [f_equal; lia|].
    assert (0 < length blocks)%nat by (destruct blocks; [done|cbn [length]; lia]).
    split; [lia|]. split.
    - destruct (Z.eq_dec lo 0) as [->|]; [left; lia|].
      destruct (lookup_lt_is_Some_2 blocks (Z.to_nat (Z.max 0 (lo - 1))) ltac:(lia)) as [b Hb].
      right. exists b. split; [exact Hb|]. apply (Hlow (Z.to_nat (Z.max 0 (lo - 1))) b); [lia|exact Hb].
    - intros j a Hj Ha. apply (Hhigh j a); [lia|exact Ha]. }
  induction fuel as [|fuel IH]; intros lo hi res Hfuel Hlo Hle Hhi Hres Hlow Hhigh; cbn [seek_loop].
  - apply (Hdone lo hi); assumption || lia.
  - destruct (Z.leb_spec lo hi); [|apply (Hdone lo hi); assumption || lia].
    set (mid := lo + (hi - lo) / 2).
    assert (Hmid : lo <= mid <= hi) by (unfold mid;
      pose proof (Z.div_le_upper_bound (hi - lo) 2 (hi - lo) ltac:(lia) ltac:(lia));
      pose proof (Z.div_pos (hi - lo) 2 ltac:(lia) ltac:(lia)); lia).
    destruct (lookup_lt_is_Some_2 blocks (Z.to_nat mid) ltac:(lia)) as [b Hb]. rewrite Hb.
    rewrite (Hkey b) by (eapply list_elem_of_lookup_2; exact Hb). cbn [mbind result_bind].
    destruct (Z.leb_spec (val b) target).
    + apply IH; try lia; try assumption. intros j b' Hj Hb'.
      pose proof (Hasc j (Z.to_nat mid) b' b ltac:(lia) Hb' Hb). lia.
    + apply IH; try lia; try assumption. intros j b' Hj Hb'.
      pose proof (Hasc (Z.to_nat mid) j b b' ltac:(lia) Hb Hb'). lia.
Qed.

Lemma seek_search_spec blocks (val : blockInfo -> Z) target :
  ascending val blocks -> blocks <> [] ->
  seek_target val target blocks
    (sort_Search (length blocks)
       (fun i => match blocks !! i with Some b => val b >? target | None => false end) - 1).
Proof.
  intros Hasc Hne. set (f := fun i => match blocks !! i with Some b => val b >? target | None => false end).
  assert (0 < length blocks)%nat by (destruct blocks; [done|cbn; lia]).
  assert (Hm : monotone_pred (length blocks) f).
  { intros i j Hij. unfold f. destruct (blocks !! i) as [a|] eqn:Ha; [|done].
    destruct (lookup_lt_is_Some_2 blocks j ltac:(lia)) as [b Hb]. rewrite Hb, !Z.gtb_ltb, !Z.ltb_lt.
    pose proof (Hasc i j a b ltac:(lia) Ha Hb). lia. }
  destruct (sort_Search_spec _ _ Hm) as (Hr & Hlo & Hhi). cbv zeta in *.
  set (r := sort_Search (length blocks) f) in *. split; [lia|]. split.
  - destruct (decide (r = 0)%nat); [left; lia|]. right.
    destruct (lookup_lt_is_Some_2 blocks (r - 1) ltac:(lia)) as [b Hb]. exists b. split; [done|].
    specialize (Hlo (r - 1)%nat ltac:(lia)). unfold f in Hlo. rewrite Hb in Hlo. to_props. lia.
  - intros j a Hj Ha. pose proof (lookup_lt_Some _ _ _ Ha).
    specialize (Hhi j ltac:(lia)). unfold f in Hhi. rewrite Ha in Hhi. to_props. lia.
Qed.

End seek.

Section seek_files.
  Context (DecodeAll : list Z -> option (list Z)) (DecodeAllDict : list Z -> list Z -> option (list Z)).
  Context (bs comp : Z) (Hbs : block_size_ok bs) (Hcomp : compression_ok comp).
  Context (cs : list Chunk) (tail : list Z).
  Context (Hst : Forall (stored_chunk DecodeAll DecodeAllDict comp) cs).
  Context (Hok : Forall (fun ch : Chunk => block_ok bs ch.1) cs).
  Context (Htail : file_tail DecodeAll DecodeAllDict bs comp cs tail).
  Context (Hlen : zlen (journal_bytes bs comp cs tail) < 2 ^ 62).

(** The file is open, at any position. *)
Definition open_on (jr : Reader) : Prop :=
  jr_file jr = mkOpenJournal (journal_bytes bs comp cs tail) bs comp Version2 (infos comp 16 cs) /\
  jr_err jr = None.

Lemma NewReader_open_on jr : NewReader (journal_bytes bs comp cs tail) = Ok jr -> open_on jr.
Proof.
  intros H. unfold journal_bytes in H. rewrite NewReader_header in H by done.
  assert (E : opened (journal_bytes bs comp cs tail) bs comp
    (found_blocks (journal_bytes bs comp cs tail) bs comp) = jr) by (unfold journal_bytes; congruence).
  rewrite (found_blocks_ok DecodeAll DecodeAllDict bs comp Hbs Hcomp cs tail Hst Hok Htail Hlen) in E.
  rewrite <- E. done.
Qed.

(** Loading block [i] leaves the reader before its first frame, with the rest
    of the file to come. *)
Lemma load_then_read jr i ch fuel :
  open_on jr -> cs !! i = Some ch -> (frames_in (map fst (drop i cs)) < fuel)%nat ->
  exists jr', loadBlock DecodeAll DecodeAllDict (Z.of_nat i) jr = (jr', None) /\ open_on jr' /\
    read_all DecodeAll DecodeAllDict fuel jr' = Some (concat (map (block_entries ∘ fst) (drop i cs))).
Proof.
  intros [Hfile Herr] Hi Hfuel. destruct ch as [a c].
  pose proof (opened_stored DecodeAll DecodeAllDict bs comp Hbs Hcomp cs tail i a c Hst Hok Htail Hi jr Hfile) as Hload.
  pose proof (proj1 (Forall_forall _ _) Hok (a, c) (list_elem_of_lookup_2 _ _ _ Hi)) as Hblk. cbn [fst] in Hblk.
  destruct (parseLoadedBlock_ok a (Z.of_nat i) (set_block jr (set_buf (jr_block jr) (ab_buf a))))
    as (jr' & E & Hc & Hrem & Hf & Hcur & He & _); cbn [set_block set_buf jr_file jr_block blockBuf] in *;
    rewrite ?Hfile; cbn [jr_version jr_blockSize]; try done; [unfold block_size_ok in Hbs; lia|].
  exists jr'. rewrite Hload, E. split; [done|]. split; [split; [congruence|]; cbn in He; congruence|].
  rewrite (drop_S _ _ _ Hi). cbn [map concat]. unfold compose at 1. cbn [fst]. rewrite <- Hrem.
  rewrite (drop_S _ _ _ Hi) in Hfuel. unfold frames_in in Hfuel. cbn [map concat fst] in Hfuel.
  rewrite length_app in Hfuel.
  replace (map (block_entries ∘ fst) (drop (S i) cs)) with (map block_entries (map fst (drop (S i) cs)))
    by (rewrite map_map; done).
  apply read_all_blocks; rewrite ?Hf, ?Hfile; cbn [jr_version jr_blockSize jr_blocks]; try done.
  - now left.
  - unfold block_size_ok in Hbs. lia.
  - cbn in He. congruence.
  - rewrite Hcur. unfold zlen. rewrite length_infos, length_map, length_drop.
    apply lookup_lt_Some in Hi. lia.
  - intros j b Hj. apply list_lookup_fmap_Some in Hj as ([b' c'] & -> & Hj). cbn [fst].
    rewrite lookup_drop in Hj. rewrite Hcur.
    replace (Z.of_nat i + 1 + Z.of_nat j) with (Z.of_nat (S i + j)) by lia. split.
    + apply (opened_stored DecodeAll DecodeAllDict bs comp Hbs Hcomp cs tail _ b' c'); done.
    + apply (proj1 (Forall_forall _ _) Hok (b', c') (list_elem_of_lookup_2 _ _ _ Hj)).
Qed.

(** A field of the block header: eight bytes at [o], read by [dec] from a block
    and by [mem] from the index. *)
Record header_key (mem : blockInfo -> Z) (disk : blockInfo -> result jerror Z) (o : Z) (dec : list Z -> Z)
    (key : ABlock -> Z) : Prop := {
  hk_off : 0 <= o <= 8;
  hk_mem : forall start a, mem (mkBlockInfo start (ab_base a) (ab_seq a)) = key a;
  hk_dec : forall a, block_ok bs a -> dec (sub (ab_buf a) o (o + 8)) = key a;
  hk_disk : forall b, disk b = (s ← read_full (journal_bytes bs comp cs tail) (bi_Offset b + o) 8; Ok (dec s))
}.

Section header_field.
  Context (mem : blockInfo -> Z) (disk : blockInfo -> result jerror Z) (o : Z) (dec : list Z -> Z) (key : ABlock -> Z).
  Context (Hkey : header_key mem disk o dec key).

(** What a seek compares is the block's own field, whether it is read from the
    index or from the block. *)
Definition block_key (b : blockInfo) : Z :=
  if negb (comp =? CompressionNone) then mem b
  else match disk b with Ok k => k | Err _ => 0 end.

Lemma block_key_ok i b :
  infos comp 16 cs !! i = Some b ->
  exists a c, cs !! i = Some (a, c) /\ block_key b = key a /\ (comp = CompressionNone -> disk b = Ok (key a)).
Proof.
  intros Hb. pose proof Hb as Hb0. change 16 with (zlen (jheader bs comp)) in Hb0.
  destruct (infos_at comp cs (jheader bs comp) tail i b Hb0) as (a & c & Hi & Hat & _).
  exists a, c. split; [done|].
  pose proof (proj1 (Forall_forall _ _) Hok _ (list_elem_of_lookup_2 _ _ _ Hi)) as Hblk. cbn [fst] in Hblk.
  pose proof (proj1 (Forall_forall _ _) Hst _ (list_elem_of_lookup_2 _ _ _ Hi)) as [Hch _]. cbn [fst snd] in Hch.
  unfold block_key. destruct (Z.eqb_spec comp CompressionNone) as [Hn|Hn]; cbn [negb].
  - assert (c = ab_buf a) as -> by (clear -Hn Hch; rewrite Hn in Hch; now inversion Hch). destruct Hkey as [Ho _ Hd Hdisk].
    assert (Hr : read_full (journal_bytes bs comp cs tail) (bi_Offset b + o) 8 = Ok (sub (ab_buf a) o (o + 8))).
    { pose proof (bk_len _ _ Hblk) as L. unfold block_size_ok in Hbs.
      assert (E : ab_buf a = sub (ab_buf a) 0 o ++ sub (ab_buf a) o (o + 8) ++ sub (ab_buf a) (o + 8) (zlen (ab_buf a))).
      { rewrite (sub_app_l _ o (o + 8)), (sub_app_l _ 0 o) by lia. rewrite sub_to_end. done. }
      assert (Lo : zlen (sub (ab_buf a) 0 o) = o) by (rewrite <- (Z.sub_0_r o) at 2; apply length_sub; lia).
      rewrite E in Hat at 1. apply holds_at_app in Hat as [_ Hat]. apply holds_at_app in Hat as [Hat _].
      rewrite Lo in Hat. apply (read_full_at _ _ _ _ Hat). rewrite length_sub; lia. }
    rewrite Hdisk, Hr. cbn [mbind result_bind]. rewrite Hd by done. done.
  - split; [|done]. clear -Hkey Hb Hi Hn. generalize 16, Hb, Hi. clear Hb Hi. destruct Hkey as [_ Hm _ _]. revert i.
    induction cs as [|[a' c'] ds IH]; intros i start Hb Hi; [done|].
    rewrite (infos_cons _ _ _ _ _ Hn) in Hb. destruct i as [|i]; cbn in Hb, Hi.
    + injection Hb as <-. injection Hi as -> _. apply Hm.
    + exact (IH _ _ Hb Hi).
Qed.

Lemma seek_target_infos target i :
  seek_target block_key target (infos comp 16 cs) i ->
  seek_target (fun ch : Chunk => key ch.1) target cs i.
Proof.
  intros (Hlt & Hle & Hgt). rewrite length_infos in Hlt. split; [done|]. split.
  - destruct Hle as [|(b & Hb & Hle)]; [now left|]. right.
    destruct (block_key_ok _ _ Hb) as (a & c & Hi & E & _). exists (a, c). cbn [fst]. split; [done|lia].
  - intros j [a c] Hj Ha. pose proof (lookup_lt_Some _ _ _ Ha) as Hl.
    destruct (lookup_lt_is_Some_2 (infos comp 16 cs) j ltac:(now rewrite length_infos)) as [b Hb].
    destruct (block_key_ok _ _ Hb) as (a' & c' & Hi & E & _). rewrite Ha in Hi. injection Hi as <- <-.
    specialize (Hgt j b Hj Hb). cbn [fst]. lia.
Qed.

Lemma seek_block_ok target :
  cs <> [] -> ascending (fun ch : Chunk => key ch.1) cs ->
  exists i, seek_block mem disk target
      (mkOpenJournal (journal_bytes bs comp cs tail) bs comp Version2 (infos comp 16 cs)) = Ok (Z.of_nat i) /\
    seek_target (fun ch : Chunk => key ch.1) target cs i.
Proof.
  intros Hne Hasc. assert (Hinf : infos comp 16 cs <> []) by (destruct cs as [|[]]; [done|]; cbn; done).
  assert (Hasc' : ascending block_key (infos comp 16 cs)).
  { intros i j a b Hij Ha Hb. destruct (block_key_ok _ _ Ha) as (a' & ca & Hi & -> & _).
    destruct (block_key_ok _ _ Hb) as (b' & cb & Hj & -> & _). exact (Hasc i j _ _ Hij Hi Hj). }
  assert (Hseek : exists i, seek_block mem disk target
      (mkOpenJournal (journal_bytes bs comp cs tail) bs comp Version2 (infos comp 16 cs)) = Ok (Z.of_nat i) /\
      seek_target block_key target (infos comp 16 cs) i).
  { unfold seek_block. cbn [jr_compression jr_blocks]. destruct (comp =? CompressionNone) eqn:Hn; cbn [negb].
    - apply (seek_loop_spec _ _ block_key target); try done; try (unfold zlen; lia).
      + intros b Hb. apply list_elem_of_lookup in Hb as [i Hb].
        destruct (block_key_ok _ _ Hb) as (a & c & _ & E & Hr). rewrite E. apply Hr. now apply Z.eqb_eq.
      + intros j b Hj Hb. apply lookup_lt_Some in Hb. unfold zlen in Hj. lia.
    - eexists. split; [reflexivity|]. pose proof (seek_search_spec _ block_key target Hasc' Hinf) as H.
      unfold block_key in H at 2. rewrite Hn in H. exact H. }
  destruct Hseek as (i & Es & Ht). exists i. split; [exact Es|]. now apply seek_target_infos.
Qed.

(** A seek lands on the target's block, and what is read from there is the rest
    of the file. *)
Lemma seek_file jr target :
  open_on jr -> cs <> [] -> ascending (fun ch : Chunk => key ch.1) cs ->
  exists jr' i, seek_load DecodeAll DecodeAllDict (seek_block mem disk target (jr_file jr)) jr = (jr', None) /\
    open_on jr' /\ seek_target (fun ch : Chunk => key ch.1) target cs i /\
    forall fuel, (frames_in (map fst cs) < fuel)%nat ->
      read_all DecodeAll DecodeAllDict fuel jr' = Some (concat (map (block_entries ∘ fst) (drop i cs))).
Proof.
  intros Hopen Hne Hasc. destruct (seek_block_ok target Hne Hasc) as (i & Es & Ht). pose proof Ht as (Hlt & _).
  destruct (lookup_lt_is_Some_2 cs i Hlt) as [ch Hi].
  assert (Hdrop : (frames_in (map fst (drop i cs)) <= frames_in (map fst cs))%nat).
  { unfold frames_in. rewrite <- (take_drop i cs) at 2. rewrite map_app, map_app, concat_app, length_app. lia. }
  destruct (load_then_read jr i ch (S (frames_in (map fst cs))) Hopen Hi ltac:(lia)) as (jr' & El & Ho & _).
  exists jr', i. pose proof Hopen as [Hfile _]. rewrite Hfile, Es. split; [done|]. split; [done|]. split; [done|].
  intros fuel Hfuel. destruct (load_then_read jr i ch fuel Hopen Hi ltac:(lia)) as (jr2 & El2 & _ & Hread).
  now replace jr' with jr2 by congruence.
Qed.

End header_field.

Lemma has_blocks : cs <> [] -> (zlen (infos comp 16 cs) =? 0) = false.
Proof. intros Hne. apply Z.eqb_neq. destruct cs as [|[]]; [done|]. cbn [infos]. rewrite zlen_cons. pose proof (zlen_nonneg (infos comp (16 + zlen l) l0)). lia. Qed.

(** Seeking by sequence number.  On a file whose blocks ascend, whatever
    the target, [SeekToSeq] lands on the last block that starts at or before
    the target (the first block when there is none), through the block index or
    through the blocks themselves, and reading from there gives exactly the
    frames of that block and of all later ones. *)
Theorem SeekToSeq_spec jr target fuel :
  NewReader (journal_bytes bs comp cs tail) = Ok jr -> cs <> [] ->
  ascending (fun ch : Chunk => ab_seq ch.1) cs -> (frames_in (map fst cs) < fuel)%nat ->
  exists jr' i, SeekToSeq DecodeAll DecodeAllDict target jr = (jr', None) /\
    seek_target (fun ch : Chunk => ab_seq ch.1) target cs i /\
    read_all DecodeAll DecodeAllDict fuel jr' = Some (concat (map (block_entries ∘ fst) (drop i cs))).
Proof.
  intros Hnew Hne Hasc Hfuel. pose proof (NewReader_open_on jr Hnew) as Hopen.
  destruct (seek_file bi_BaseSeq (fun b => s ← read_full (jr_r (jr_file jr)) (bi_Offset b + 8) 8; Ok (le_val s))
    8 le_val ab_seq) with (jr := jr) (target := target) as (jr' & i & E & _ & Ht & Hr); try done.
  { constructor; [lia|done|exact (bk_seq _)|]. intros b. destruct Hopen as [-> _]. done. }
  exists jr', i. split; [|split; [exact Ht|now apply Hr]]. unfold SeekToSeq. rewrite <- E. destruct Hopen as [-> _].
  cbn [jr_version jr_blocks]. now rewrite has_blocks.
Qed.

(** [SeekToTime] compares microseconds. *)
Lemma SeekToTime_spec jr t :
  open_on jr -> cs <> [] -> ascending (fun ch : Chunk => ab_base ch.1) cs ->
  exists jr' i, SeekToTime DecodeAll DecodeAllDict t jr = (jr', None) /\ open_on jr' /\
    seek_target (fun ch : Chunk => ab_base ch.1) (Time_UnixMicro t) cs i /\
    forall fuel, (frames_in (map fst cs) < fuel)%nat ->
      read_all DecodeAll DecodeAllDict fuel jr' = Some (concat (map (block_entries ∘ fst) (drop i cs))).
Proof.
  intros Hopen Hne Hasc.
  destruct (seek_file bi_BaseTime (fun b => s ← read_full (jr_r (jr_file jr)) (bi_Offset b) 8; Ok (i64 (le_val s)))
    0 (fun s => i64 (le_val s)) ab_base) with (jr := jr) (target := Time_UnixMicro t)
    as (jr' & i & E & Ho & Ht & Hr); try done.
  { constructor; [lia|done|exact (bk_base _)|]. intros b. destruct Hopen as [-> _]. now rewrite Z.add_0_r. }
  exists jr', i. split; [|done]. unfold SeekToTime. rewrite <- E. destruct Hopen as [-> _].
  cbn [jr_blocks]. now rewrite has_blocks.
Qed.

End seek_files.

(** ** Finished files

    What the users of a journal rely on, whoever wrote it. *)

Definition entry_time (e : Z * Entry) : time := e_Timestamp e.2.

Section sound_files.
  Context (DecodeAll : list Z -> option (list Z)) (DecodeAllDict : list Z -> list Z -> option (list Z)).

(** [c] is a journal file that holds the entries [es]. *)
Inductive sound_file (c : list Z) (es : list (Z * Entry)) : Prop :=
| sound_file_intro bs comp cs tail :
    block_size_ok bs -> compression_ok comp ->
    Forall (stored_chunk DecodeAll DecodeAllDict comp) cs -> Forall (fun ch : Chunk => block_ok bs ch.1) cs ->
    file_tail DecodeAll DecodeAllDict bs comp cs tail -> c = journal_bytes bs comp cs tail -> zlen c < 2 ^ 62 ->
    es = concat (map (block_entries ∘ fst) cs) -> sound_file c es.

Lemma length_entries (cs : list Chunk) : length (concat (map (block_entries ∘ fst) cs)) = frames_in (map fst cs).
Proof.
  unfold frames_in. induction cs as [|ch cs IH]; [done|]. cbn [map concat].
  rewrite !length_app, IH. f_equal. apply length_block_entries.
Qed.

Lemma sound_file_read c es : sound_file c es ->
  exists jr, NewReader c = Ok jr /\
    forall fuel, (length es < fuel)%nat -> read_all DecodeAll DecodeAllDict fuel jr = Some es.
Proof.
  intros [bs comp cs tail Hbs Hcomp Hst Hok Ht -> Hlen ->]. rewrite length_entries.
  destruct (journal_read DecodeAll DecodeAllDict bs comp Hbs Hcomp cs tail (S (frames_in (map fst cs)))
    Hst Hok Ht Hlen ltac:(lia)) as (jr & Hjr & _).
  exists jr. split; [exact Hjr|]. intros fuel Hfuel.
  destruct (journal_read DecodeAll DecodeAllDict bs comp Hbs Hcomp cs tail fuel
    Hst Hok Ht Hlen ltac:(lia)) as (jr' & Hjr' & Hread).
  congruence.
Qed.

(** A file without entries has no blocks. *)
Lemma sound_file_empty c : sound_file c [] ->
  exists jr, NewReader c = Ok jr /\ (zlen (jr_blocks (jr_file jr)) =? 0) = true.
Proof.
  intros [bs comp cs tail Hbs Hcomp Hst Hok Ht -> Hlen E].
  destruct (journal_read DecodeAll DecodeAllDict bs comp Hbs Hcomp cs tail (S (frames_in (map fst cs)))
    Hst Hok Ht Hlen ltac:(lia)) as (jr & Hjr & _).
  destruct (NewReader_open_on DecodeAll DecodeAllDict bs comp Hbs Hcomp cs tail Hst Hok Ht Hlen jr Hjr) as [Hf _].
  exists jr. split; [done|]. rewrite Hf. destruct cs as [|ch cs]; [done|]. exfalso.
  apply Forall_cons in Hok as [Hb _]. pose proof (bk_some _ _ Hb) as Hne. apply (f_equal length) in E.
  cbn [map concat] in E. rewrite length_app in E. unfold compose at 1 in E. rewrite length_block_entries in E.
  destruct (ab_raw ch.1); [done|cbn in E; lia].
Qed.

(** A block starts with a frame at its base time. *)
Lemma block_entries_head bs a : block_ok bs a ->
  exists e es, block_entries a = e :: es /\ entry_time e = time_UnixMicro (ab_base a).
Proof.
  intros H. unfold block_entries. pose proof (bk_some _ _ H). destruct (ab_raw a) as [|r rs]; [done|].
  by eexists _, _.
Qed.

(** The time order of a file's entries carries over to its blocks. *)
Lemma base_times_ascend bs cs : Forall (fun ch : Chunk => block_ok bs ch.1) cs ->
  StronglySorted (fun x y => entry_time x <= entry_time y) (concat (map (block_entries ∘ fst) cs)) ->
  ascending (fun ch : Chunk => ab_base ch.1) cs.
Proof.
  induction 1 as [|ch cs Hok Hall IH]; [intros _ i j a b _ Hi; done|]. cbn [map concat]. intros Hs.
  apply StronglySorted_app in Hs as (Hcross & _ & Hs). specialize (IH Hs).
  destruct (block_entries_head _ _ Hok) as (e & es & E & Ht).
  assert (Hmin : forall j b, cs !! j = Some b -> ab_base ch.1 <= ab_base b.1).
  { intros j b Hj. pose proof (proj1 (Forall_forall _ _) Hall _ (list_elem_of_lookup_2 _ _ _ Hj)) as Hb.
    destruct (block_entries_head _ _ Hb) as (e' & es' & E' & Ht').
    assert (entry_time e <= entry_time e').
    { apply Hcross; [unfold compose; rewrite E; by left|]. apply list_elem_of_In, in_concat.
      exists (block_entries b.1). rewrite E' at 2. split; [|by left].
      apply in_map_iff. exists b. split; [done|]. apply list_elem_of_In. by eapply list_elem_of_lookup_2. }
    unfold time_UnixMicro in *. lia. }
  intros [|i] [|j] a b Hij Ha Hb; cbn in Ha, Hb.
  - injection Ha as <-. injection Hb as <-. lia.
  - injection Ha as <-. exact (Hmin j b Hb).
  - lia.
  - exact (IH i j a b ltac:(lia) Ha Hb).
Qed.

(** Seeking a time in a file whose entries are in time order passes over entries
    that are not later than the one it stops at, which is not after the time. *)
Lemma sound_file_seek c es t : sound_file c es ->
  StronglySorted (fun x y => entry_time x <= entry_time y) es ->
  - 2 ^ 63 <= t / 1000 - unix_epoch_us < 2 ^ 63 -> es <> [] ->
  exists jr jr' skipped rest, NewReader c = Ok jr /\ SeekToTime DecodeAll DecodeAllDict t jr = (jr', None) /\
    jr_version (jr_file jr') = Version2 /\ es = skipped ++ rest /\
    (skipped = [] \/ exists e rest', rest = e :: rest' /\ entry_time e <= t) /\
    forall fuel, (length es < fuel)%nat -> read_all DecodeAll DecodeAllDict fuel jr' = Some rest.
Proof.
  intros [bs comp cs tail Hbs Hcomp Hst Hok Ht -> Hlen ->] Hs Hrange Hne. rewrite length_entries.
  assert (Hcs : cs <> []) by (intros ->; done). pose proof (base_times_ascend _ _ Hok Hs) as Hasc.
  destruct (journal_read DecodeAll DecodeAllDict bs comp Hbs Hcomp cs tail (S (frames_in (map fst cs)))
    Hst Hok Ht Hlen ltac:(lia)) as (jr & Hjr & _).
  pose proof (NewReader_open_on DecodeAll DecodeAllDict bs comp Hbs Hcomp cs tail Hst Hok Ht Hlen jr Hjr) as Hopen.
  destruct (SeekToTime_spec DecodeAll DecodeAllDict bs comp Hbs Hcomp cs tail Hst Hok Ht Hlen jr t Hopen Hcs Hasc)
    as (jr' & i & E & [Hf _] & (Hi & Hle & _) & Hread).
  exists jr, jr', (concat (map (block_entries ∘ fst) (take i cs))), (concat (map (block_entries ∘ fst) (drop i cs))).
  split; [done|]. split; [done|]. split; [now rewrite Hf|].
  split; [rewrite <- concat_app, <- map_app; now rewrite take_drop|]. split.
  - destruct Hle as [->|(a & Ha & Hle)]; [now left|]. right. rewrite (drop_S _ _ _ Ha). cbn [map concat].
    destruct (block_entries_head bs a.1) as (e & es & Ee & Hte).
    { apply (proj1 (Forall_forall _ _) Hok). by eapply list_elem_of_lookup_2. }
    unfold compose at 1. rewrite Ee. eexists e, _. split; [reflexivity|]. rewrite Hte.
    unfold Time_UnixMicro in Hle. rewrite i64_small in Hle by lia. unfold time_UnixMicro.
    pose proof (Z.div_mod t 1000 ltac:(lia)). pose proof (Z.mod_pos_bound t 1000 ltac:(lia)). lia.
  - exact Hread.
Qed.

End sound_files.

(** ** The devices of a frame *)

Lemma active_at_unique idx es e e' :
  active_at idx es e -> active_at idx es e' -> te_Source e = te_Source e' -> e = e'.
Proof.
  intros (pre & post & E & Ha & Hp & Hq) (pre' & post' & E' & Ha' & Hp' & Hq') Hs.
  assert (L : es !! length pre = Some e) by (rewrite E; now apply list_lookup_middle).
  assert (L' : es !! length pre' = Some e') by (rewrite E'; now apply list_lookup_middle).
  assert (Hcase : forall (pre pre' post : list deviceTableEntry) e e', es = pre ++ e :: post ->
    es !! length pre' = Some e' -> (length pre < length pre')%nat -> e' ∈ post).
  { intros p p' q x x' Ex Lx Hlt. rewrite Ex, lookup_app_r in Lx by lia.
    replace (length p' - length p)%nat with (S (length p' - length p - 1)) in Lx by lia.
    exact (list_elem_of_lookup_2 q _ _ Lx). }
  assert (Hpre : forall pre' post' x x' k, es = pre' ++ x' :: post' -> es !! k = Some x ->
    (k < length pre')%nat -> x ∈ pre').
  { intros p q x x' k Ex Lx Hlt. rewrite Ex, lookup_app_l in Lx by lia. now apply list_elem_of_lookup_2 in Lx. }
  rewrite Forall_forall in Hp, Hq, Hp', Hq'.
  destruct (lt_eq_lt_dec (length pre) (length pre')) as [[Hlt|Heq]|Hlt].
  - pose proof (Hq e' (Hcase pre pre' post e e' E L' Hlt) ltac:(congruence) Ha').
    pose proof (Hp' e (Hpre pre' post' e e' _ E' L Hlt) ltac:(congruence) Ha). lia.
  - rewrite Heq, L' in L. congruence.
  - pose proof (Hq' e (Hcase pre' pre post' e' e E' L Hlt) ltac:(congruence) Ha).
    pose proof (Hp e' (Hpre pre post e' e _ E L' Hlt) ltac:(congruence) Ha'). lia.
Qed.

Lemma best_of_active idx es e : best_of idx es !! te_Source e = Some e <-> active_at idx es e.
Proof.
  pose proof (best_of_spec idx es (te_Source e)) as H. split.
  - intros E. rewrite E in H. apply H.
  - intros Ha. destruct (best_of idx es !! te_Source e) as [e'|].
    + destruct H as [Hs Ha']. f_equal. now apply (active_at_unique idx es).
    + destruct Ha as (pre & post & -> & Hle & _). apply Forall_app in H as [_ H].
      inversion H as [|? ? He _]; subst. specialize (He eq_refl). lia.
Qed.

#[local] Instance by_source_total : Total by_source.
Proof. intros a b. unfold by_source. lia. Qed.
#[local] Instance by_source_trans : Transitive by_source.
Proof. intros a b c. unfold by_source. lia. Qed.

(** The devices active at a frame, each source once, in order of source. *)
Lemma resolve_devices_spec idx es :
  StronglySorted by_source (resolve_devices idx es) /\ NoDup (map jd_Source (resolve_devices idx es)) /\
  forall d, d ∈ resolve_devices idx es <-> exists e, active_at idx es e /\ d = toDevice e.
Proof.
  unfold resolve_devices. fold (best_of idx es). set (m := best_of idx es).
  set (ds := map (toDevice ∘ snd) (map_to_list m)).
  pose proof (merge_sort_Permutation by_source ds) as Hp.
  split; [apply Sorted_StronglySorted; [apply _|apply Sorted_merge_sort; apply _]|]. split.
  - rewrite Hp. unfold ds. rewrite map_map.
    assert (E : map (fun x => jd_Source ((toDevice ∘ snd) x)) (map_to_list m) = (map_to_list m).*1).
    { apply map_ext_in. intros [k e] Hin. apply list_elem_of_In, elem_of_map_to_list in Hin.
      pose proof (best_of_spec idx es k) as Hb. fold m in Hb. rewrite Hin in Hb. cbn. apply Hb. }
    rewrite E. apply NoDup_fst_map_to_list.
  - intros d. rewrite Hp. unfold ds. rewrite list_elem_of_fmap. split.
    + intros ([k e] & -> & Hin). apply elem_of_map_to_list in Hin. exists e. split; [|done].
      pose proof (best_of_spec idx es k) as Hb. fold m in Hb. rewrite Hin in Hb. apply Hb.
    + intros (e & Ha & ->). exists (te_Source e, e). split; [done|]. apply elem_of_map_to_list.
      now apply best_of_active.
Qed.

(** * A concrete file *)

(** The bytes of a block holding the frames [rs], with an empty device table. *)
Definition build_block (bs base seq : Z) (rs : list raw_frame) : list Z :=
  let body := le64 base ++ le64 seq ++ enc_frames rs in
  let buf := body ++ replicate (Z.to_nat (bs - zlen body - 12)) 0 ++ le16 0 ++ le16 2 ++ le32 (zlen rs) in
  buf ++ le32 (Checksum buf).

Definition demo_raws (k : Z) : list raw_frame :=
  [(0, 0x19F80123, [1; 2; 3; 4; 5; 6; 7; k]); (1500, 0x19F11223, [k])].

(** Block [k] of the file: frames [10 k] and [10 k + 1]. *)
Definition demo_block (k : Z) : ABlock :=
  mkABlock (build_block 4096 (1000000 * k) (10 * k) (demo_raws k)) (1000000 * k) (10 * k) (demo_raws k) [].

Definition demo_decode (x : list Z) : option (list Z) := match x with 1 :: y => Some y | _ => None end.
Definition demo_dict_decode (_ x : list Z) : option (list Z) := match x with 2 :: y => Some y | _ => None end.

Definition demo_chunk (k : Z) : Chunk :=
  let payload := 1 :: ab_buf (demo_block k) in
  (demo_block k, chunk_header (demo_block k) ++ le32 (zlen payload) ++ payload).

Definition demo_blocks : list Z := [1; 2; 3; 5].
Definition demo_chunks : list Chunk := map demo_chunk demo_blocks.
Definition demo_tail : list Z := index_bytes (map bi_Offset (infos CompressionZstd 16 demo_chunks)).
Definition demo_journal : list Z := journal_bytes 4096 CompressionZstd demo_chunks demo_tail.

Definition raw_okb (r : raw_frame) : bool :=
  let '(delta, canID, data) := r in
  (0 <=? delta) && (delta <? 2 ^ 64) && (0 <=? canID) && (canID <? 2 ^ 31) && (zlen data <? 2 ^ 48).

Definition block_okb (bs : Z) (a : ABlock) : bool :=
  let buf := ab_buf a in
  let dev := uint buf (bs - BlockTrailerLen) 2 in
  let frames := sub buf BlockDataOffsetV2 (bs - BlockTrailerLen - dev) in
  (zlen buf =? bs) && (uint buf (bs - 4) 4 =? Checksum (sub buf 0 (bs - 4))) &&
  (i64 (uint buf 0 8) =? ab_base a) && (uint buf 8 8 =? ab_seq a) &&
  (uint buf (bs - BlockTrailerLen + 2) 4 =? zlen (ab_raw a)) && (0 <=? dev) &&
  bool_decide (take (length (enc_frames (ab_raw a))) frames = enc_frames (ab_raw a)) &&
  forallb raw_okb (ab_raw a) && negb (zlen (ab_raw a) =? 0).

Lemma block_okb_sound bs a : block_okb bs a = true -> block_ok bs a.
Proof.
  unfold block_okb. intros H. to_props. constructor; try assumption.
  - eexists. rewrite <- (take_drop (length (enc_frames (ab_raw a))) (sub _ _ _)). f_equal. assumption.
  - apply Forall_forall. intros [[d c] x] Hr. apply list_elem_of_In in Hr.
    match goal with H : forallb _ _ = true |- _ => rewrite forallb_forall in H; specialize (H _ Hr) end.
    cbn in *. to_props. unfold raw_ok. lia.
  - intros E. rewrite E in *. rewrite zlen_nil in *. lia.
Qed.

Lemma demo_block_ok k : k ∈ demo_blocks -> block_ok 4096 (demo_block k).
Proof.
  assert (H : forallb (fun k => block_okb 4096 (demo_block k)) demo_blocks = true) by (vm_compute; reflexivity).
  rewrite forallb_forall in H. intros Hk. apply block_okb_sound, H. now apply list_elem_of_In.
Qed.

Lemma demo_chunks_ok : Forall (fun ch : Chunk => block_ok 4096 ch.1) demo_chunks.
Proof. unfold demo_chunks. apply Forall_map, Forall_forall. exact demo_block_ok. Qed.

Lemma demo_chunk_stored k : zlen (ab_buf (demo_block k)) = 4096 -> 0 <= k < 1000 ->
  stored_chunk demo_decode demo_dict_decode CompressionZstd (demo_chunk k).
Proof.
  intros Hlen Hk. split; [|cbn [demo_chunk fst demo_block ab_base ab_seq]; lia].
  unfold demo_chunk. cbn [fst snd]. apply chunk_zstd; [reflexivity|reflexivity|].
  rewrite zlen_cons, Hlen. lia.
Qed.

Lemma demo_chunks_stored : Forall (stored_chunk demo_decode demo_dict_decode CompressionZstd) demo_chunks.
Proof.
  unfold demo_chunks. apply Forall_map, Forall_forall. intros k Hk.
  apply demo_chunk_stored; [apply (bk_len _ _ (demo_block_ok k Hk))|].
  repeat (apply elem_of_cons in Hk as [->|Hk]; [lia|]). now apply elem_of_nil in Hk.
Qed.

Lemma demo_chunks_tail : file_tail demo_decode demo_dict_decode 4096 CompressionZstd demo_chunks demo_tail.
Proof. left. split; [discriminate|]. split; [vm_compute; discriminate|reflexivity]. Qed.

Definition demo_open : Reader := opened demo_journal 4096 CompressionZstd (infos CompressionZstd 16 demo_chunks).

Lemma demo_opens : NewReader demo_journal = Ok demo_open.
Proof. vm_compute. reflexivity. Qed.

Lemma demo_ascending : ascending (fun ch : Chunk => ab_seq ch.1) demo_chunks.
Proof.
  intros i j a b Hij Ha Hb.
  assert (H : forallb (fun i => forallb (fun j => (j <? i)%nat || match demo_chunks !! i, demo_chunks !! j with
      | Some a, Some b => ab_seq a.1 <=? ab_seq b.1 | _, _ => true end) (seq 0 4)) (seq 0 4) = true)
    by (vm_compute; reflexivity).
  pose proof (lookup_lt_Some _ _ _ Ha) as Hi. pose proof (lookup_lt_Some _ _ _ Hb) as Hj.
  change (length demo_chunks) with 4%nat in *.
  rewrite forallb_forall in H. specialize (H i ltac:(apply in_seq; lia)).
  rewrite forallb_forall in H. specialize (H j ltac:(apply in_seq; lia)).
  rewrite Ha, Hb in H. apply orb_true_iff in H as [H|H]; [apply Nat.ltb_lt in H; lia|now apply Z.leb_le].
Qed.

(** Seeking to sequence number 42 lands on the block of frames 30 and 31, the
    last one that starts at or before it. *)
Lemma SeekToSeq_spec_witness :
  exists jr' i, SeekToSeq demo_decode demo_dict_decode 42 demo_open = (jr', None) /\
    seek_target (fun ch : Chunk => ab_seq ch.1) 42 demo_chunks i /\
    read_all demo_decode demo_dict_decode 100 jr'
      = Some (concat (map (block_entries ∘ fst) (drop i demo_chunks))).
Proof.
  exact (SeekToSeq_spec demo_decode demo_dict_decode 4096 CompressionZstd
    ltac:(split; [lia|reflexivity]) (or_intror (or_introl eq_refl)) demo_chunks demo_tail
    demo_chunks_stored demo_chunks_ok demo_chunks_tail ltac:(vm_compute; reflexivity)
    demo_open 42 100 demo_opens ltac:(discriminate) demo_ascending ltac:(vm_compute; lia)).
Defined.

(** The file cut in its second block still gives an answer. *)
Lemma Next_terminates_witness :
  let jr := opened (sub demo_journal 0 6000) 4096 CompressionNone
              [mkBlockInfo 16 1 1; mkBlockInfo 4112 0 0] in
  -1 <= jr_currentBlock jr /\ (Next demo_decode demo_dict_decode jr).2 <> NextFuel.
Proof.
  split; [cbn; lia|]. apply (Next_terminates demo_decode demo_dict_decode). cbn. lia.
Defined.
