(* ===== verification/JournalWriter.v ===== *)
(** Writing journal files: [journal_writer.go].

    [appendFrame] encodes into the current block, in place, and flushes,
    rotates and opens files as it goes; [finalize] ends the file.  A file is
    the bytes written to it; the files handed to [OnRotate] are kept in order,
    each under its start time.  Its name renders that time to the millisecond, and
    creating a file under a name that is taken overwrites the one that has it
    ([os_Create]).  The zstd
    encoder and the dictionary builder are parameters.  The theorems: what a
    block, a file and a whole run hold is what the reader of [JournalReader]
    gives back. *)

From Stdlib Require Import Ascii.
From S2P Require Import Prelude CanId Devices JournalFormat JournalReader.

(** * State *)

Record JournalConfig := mkJournalConfig {
  BlockSize : Z;
  Compression : Z;
  RotateDuration : duration;
  RotateSize : Z;
  RotateCount : Z
}.

Definition validate (c : JournalConfig) : bool :=
  negb (BlockSize c <? 4096) && (Z.land (BlockSize c) (BlockSize c - 1) =? 0).

Record journalDeviceChange := mkChange {
  ch_Bus : string;
  ch_Source : Z;
  ch_NAME : Z;
  ch_FrameIdx : Z
}.

(** The current file, its accounting, and the files already rotated out. *)
Record FileState := mkFileState {
  file : option (list Z);
  fileStart : time;
  fileBytes : Z;
  fileFrames : Z;
  blockOffsets : list Z;
  rotated : list (time * list Z);
  blocksWritten : Z;
  bytesWritten : Z
}.

(** The current block. *)
Record BlockBuf := mkBlockBuf {
  block : list Z;
  dataOffset : Z;
  bb_frameCount : Z;
  bb_baseTimeUs : Z;
  bb_lastTimeUs : Z;
  baseSeq : Z;
  blockStartDevices : list JDevice;
  blockStartDeviceTableSize : Z;
  blockDeviceChanges : list journalDeviceChange
}.

Record JournalWriter := mkJournalWriter {
  jw_file : FileState;
  jw_block : BlockBuf
}.

Definition setDefaults (c : JournalConfig) : JournalConfig :=
  mkJournalConfig (if BlockSize c =? 0 then 262144 else BlockSize c) (Compression c) (RotateDuration c)
    (RotateSize c) (RotateCount c).

(** The configuration in effect and the writer. *)
Definition NewJournalWriter (cfg : JournalConfig) : option (JournalConfig * JournalWriter) :=
  let cfg := setDefaults cfg in
  if validate cfg then
    Some (cfg, mkJournalWriter (mkFileState None 0 0 0 [] [] 0 0)
            (mkBlockBuf (replicate (Z.to_nat (BlockSize cfg)) 0) 0 0 0 0 0 [] 0 []))
  else None.

(** [Stats], but for the duration of the last write. *)
Definition writer_stats (w : JournalWriter) : Z * Z := (blocksWritten (jw_file w), bytesWritten (jw_file w)).

(** What one call sees of the world: the wall clock, the device registry (with
    the order its map is ranged over), and whether a file can be created. *)
Record Env := mkEnv {
  env_now : time;
  env_devices : DeviceRegistry;
  env_order : list deviceKey;
  env_create_ok : bool
}.

(** * The block *)

Definition start_device (d : Device) : JDevice :=
  mkJDevice (dev_Source d) (dev_NAME d) (ProductCode d) (ModelID d) (SoftwareVersion d)
    (ModelVersion d) (ModelSerial d).

Definition device_size (d : JDevice) : Z :=
  15 + 4 + Z.of_nat (strlen (jd_ModelID d)) + Z.of_nat (strlen (jd_SoftwareVersion d)) +
  Z.of_nat (strlen (jd_ModelVersion d)) + Z.of_nat (strlen (jd_ModelSerial d)).

Definition sumZ (l : list Z) : Z := foldr Z.add 0 l.

Definition start_devices (e : Env) : list JDevice :=
  map start_device (List.filter (fun d => negb (dev_NAME d =? 0)) (Snapshot (env_order e) (env_devices e))).

Definition initBlock (cfg : JournalConfig) (e : Env) (base seq : Z) : BlockBuf :=
  let zeros := replicate (Z.to_nat (BlockSize cfg)) 0 in
  mkBlockBuf (splice (splice zeros 0 (le64 base)) 8 (le64 seq)) 16 0 base base seq
    (start_devices e) (sumZ (map device_size (start_devices e))) [].

Definition deviceTableSize (b : BlockBuf) : Z :=
  2 + blockStartDeviceTableSize b + zlen (blockDeviceChanges b) * DeviceEntryMaxSize.

(** The encoding half of [appendFrame]: delta, identifier, payload. *)
Definition encode_frame (b : list Z) (off delta canID : Z) (data : list Z)
    : result jerror (list Z * Z) :=
  let standard := zlen data =? 8 in
  b ← put b off (PutUvarint delta);
  let off := off + zlen (PutUvarint delta) in
  b ← put b off (le32 (if standard then Z.lor canID 0x80000000 else canID));
  let off := off + 4 in
  if standard then
    b ← copy_at b off data; Ok (b, off + 8)
  else
    b ← put b off (PutUvarint (zlen data));
    let off := off + zlen (PutUvarint (zlen data)) in
    b ← copy_at b off data;
    Ok (b, off + zlen data).

Definition change_of (f : RxFrame) (idx : Z) : list journalDeviceChange :=
  if (PGN (rx_Header f) =? 60928) && (8 <=? zlen (rx_Data f))
  then [mkChange (rx_Bus f) (Source (rx_Header f)) (le_val (take 8 (rx_Data f))) idx] else [].

(** [flushBlock]'s device table. *)
Definition start_entry (d : JDevice) : deviceTableEntry :=
  mkEntry (jd_Source d) (jd_NAME d) 0 (jd_ProductCode d) (jd_ModelID d) (jd_SoftwareVersion d)
    (jd_ModelVersion d) (jd_ModelSerial d).

Definition change_entry (e : Env) (c : journalDeviceChange) : deviceTableEntry :=
  match Get (ch_Bus c) (ch_Source c) (env_devices e) with
  | Some d => mkEntry (ch_Source c) (ch_NAME c) (ch_FrameIdx c) (ProductCode d) (ModelID d)
                (SoftwareVersion d) (ModelVersion d) (ModelSerial d)
  | None => mkEntry (ch_Source c) (ch_NAME c) (ch_FrameIdx c) 0 "" "" "" ""
  end.

Definition table_of (e : Env) (b : BlockBuf) : list deviceTableEntry :=
  map start_entry (blockStartDevices b) ++ map (change_entry e) (blockDeviceChanges b).

Definition put_entry (b : list Z) (off : Z) (t : deviceTableEntry) : result jerror (list Z * Z) :=
  b ← put b off [te_Source t];
  let off := off + 1 in
  b ← put b off (le64 (te_NAME t));
  let off := off + 8 in
  b ← put b off (le32 (te_ActiveFrom t));
  let off := off + 4 in
  b ← put b off (le16 (te_ProductCode t));
  let off := off + 2 in
  '(b, n) ← PutLenPrefixedString b off (te_ModelID t);
  let off := off + n in
  '(b, n) ← PutLenPrefixedString b off (te_SoftwareVersion t);
  let off := off + n in
  '(b, n) ← PutLenPrefixedString b off (te_ModelVersion t);
  let off := off + n in
  '(b, n) ← PutLenPrefixedString b off (te_ModelSerial t);
  Ok (b, off + n).

Fixpoint put_entries (b : list Z) (off : Z) (ts : list deviceTableEntry) : result jerror (list Z) :=
  match ts with
  | [] => Ok b
  | t :: ts => '(b, off) ← put_entry b off t; put_entries b off ts
  end.

(** The block's bytes with table, trailer and checksum in place. *)
Definition seal_block (cfg : JournalConfig) (entries : list deviceTableEntry) (count : Z) (b : list Z)
    : result jerror (list Z) :=
  let bs := BlockSize cfg in
  let devTableBytes := 2 + sumZ (map entry_size entries) in
  let devTableOffset := bs - BlockTrailerLen - devTableBytes in
  b ← put b devTableOffset (le16 (zlen entries));
  b ← put_entries b (devTableOffset + 2) entries;
  let trailerOff := bs - BlockTrailerLen in
  b ← put b trailerOff (le16 devTableBytes);
  b ← put b (trailerOff + 2) (le32 count);
  put b (bs - 4) (le32 (Checksum (sub b 0 (bs - 4)))).

(** * The file *)

Definition file_write (bs : list Z) (f : FileState) : result jerror FileState :=
  match file f with
  | None => Err ErrNilFile
  | Some c => Ok (mkFileState (Some (c ++ bs)) (fileStart f) (fileBytes f + zlen bs) (fileFrames f)
                    (blockOffsets f) (rotated f) (blocksWritten f) (bytesWritten f))
  end.

Definition note_offset (f : FileState) : FileState :=
  mkFileState (file f) (fileStart f) (fileBytes f) (fileFrames f) (blockOffsets f ++ [fileBytes f])
    (rotated f) (blocksWritten f) (bytesWritten f).

Definition writeBlockIndex (f : FileState) : result jerror FileState :=
  match blockOffsets f with
  | [] => Ok f
  | offs =>
      match file f with
      | None => Err ErrNilFile
      | Some c => Ok (mkFileState (Some (c ++ index_bytes offs)) (fileStart f) (fileBytes f)
                        (fileFrames f) offs (rotated f) (blocksWritten f) (bytesWritten f))
      end
  end.

Definition file_header (cfg : JournalConfig) : list Z :=
  Magic ++ [Version2] ++ le32 (BlockSize cfg) ++ le32 (Compression cfg) ++ [0; 0; 0; 0].

(** The file is created under the name of its start; a file the writer closed under
    that name is overwritten. *)
Definition openFile (cfg : JournalConfig) (e : Env) (ts : time) (f : FileState)
    : result jerror FileState :=
  if env_create_ok e then
    Ok (mkFileState (Some (file_header cfg)) ts FileHeaderSize 0 [] (os_Create ts (rotated f))
          (blocksWritten f) (bytesWritten f))
  else Err ErrRead.

(** Closing the file and handing it to [OnRotate]. *)
Definition close_file (cfg : JournalConfig) (f : FileState) : result jerror FileState :=
  f ← (if negb (Compression cfg =? CompressionNone) then writeBlockIndex f else Ok f);
  match file f with
  | None => Err ErrNilFile
  | Some c => Ok (mkFileState None (fileStart f) (fileBytes f) (fileFrames f) (blockOffsets f)
                    (rotated f ++ [(fileStart f, c)]) (blocksWritten f) (bytesWritten f))
  end.

Definition rotation_due (cfg : JournalConfig) (e : Env) (f : FileState) : bool :=
  ((RotateDuration cfg >? 0) && (time_Sub (env_now e) (fileStart f) >=? RotateDuration cfg)) ||
  ((RotateSize cfg >? 0) && (fileBytes f >=? RotateSize cfg)) ||
  ((RotateCount cfg >? 0) && (fileFrames f >=? RotateCount cfg)).

Definition checkRotation (cfg : JournalConfig) (e : Env) (f : FileState) : result jerror FileState :=
  if negb (rotation_due cfg e f) then Ok f
  else
    f ← close_file cfg f;
    Ok (mkFileState (file f) (fileStart f) 0 0 [] (rotated f) (blocksWritten f) (bytesWritten f)).

Section writer.
  (** [zstd.Encoder.EncodeAll]; the encoder of a dictionary, whose construction
      can fail; [dict.BuildZstdDict]. *)
  Context (EncodeAll : list Z -> list Z).
  Context (EncodeAllDict : list Z -> option (list Z -> list Z)).
  Context (BuildZstdDict : list (list Z) -> option (list Z)).
  Context (cfg : JournalConfig).

Fixpoint dict_samples (fuel : nat) (b : list Z) (off frameEnd : Z) : list (list Z) :=
  match fuel with
  | O => []
  | S fuel => if off + 256 <=? frameEnd
              then sub b off (off + 256) :: dict_samples fuel b (off + 128) frameEnd else []
  end.

Definition buildBlockDict (b : list Z) (frameEnd : Z) : option (list Z) :=
  let samples := dict_samples (Z.to_nat frameEnd) b 8 frameEnd in
  if zlen samples <? 4 then None else BuildZstdDict samples.

Definition writeCompressedBlock (base seq : Z) (b : list Z) (f : FileState) : result jerror FileState :=
  let payload := EncodeAll b in
  f ← file_write (le64 base ++ le64 seq ++ le32 (zlen payload)) (note_offset f);
  file_write payload f.

(** The dictionary and the payload [writeDictCompressedBlock] settles on. *)
Definition dict_encode (dataOff : Z) (b : list Z) : list Z * list Z :=
  match (if dataOff >? 1024 then buildBlockDict b dataOff else None) with
  | Some d => match EncodeAllDict d with
              | Some enc => (d, enc b)
              | None => ([], EncodeAll b)
              end
  | None => ([], EncodeAll b)
  end.

Definition writeDictCompressedBlock (dataOff base seq : Z) (b : list Z) (f : FileState)
    : result jerror FileState :=
  let '(d, payload) := dict_encode dataOff b in
  f ← file_write (le64 base ++ le64 seq ++ le32 (zlen d) ++ le32 (zlen payload)) (note_offset f);
  f ← (if zlen d >? 0 then file_write d f else Ok f);
  file_write payload f.

Definition write_block (k : BlockBuf) (b : list Z) (f : FileState) : result jerror FileState :=
  if Compression cfg =? CompressionZstd then writeCompressedBlock (bb_baseTimeUs k) (baseSeq k) b f
  else if Compression cfg =? CompressionZstdDict
       then writeDictCompressedBlock (dataOffset k) (bb_baseTimeUs k) (baseSeq k) b f
  else file_write b f.

Definition count_block (before : Z) (f : FileState) : FileState :=
  mkFileState (file f) (fileStart f) (fileBytes f) (fileFrames f) (blockOffsets f) (rotated f)
    (u64 (blocksWritten f + 1)) (u64 (bytesWritten f + (fileBytes f - before))).

Definition flushBlock (e : Env) (w : JournalWriter) : result jerror JournalWriter :=
  let k := jw_block w in
  if bb_frameCount k =? 0 then Ok w
  else
    b ← seal_block cfg (table_of e k) (bb_frameCount k) (block k);
    f ← write_block k b (jw_file w);
    Ok (mkJournalWriter (count_block (fileBytes (jw_file w)) f)
          (mkBlockBuf b 16 0 (bb_baseTimeUs k) (bb_lastTimeUs k) (baseSeq k) (blockStartDevices k)
             (blockStartDeviceTableSize k) (blockDeviceChanges k))).

Definition frame_delta (k : BlockBuf) (tsUs : Z) : Z :=
  if (bb_frameCount k >? 0) && (tsUs >=? bb_lastTimeUs k) then u64 (tsUs - bb_lastTimeUs k) else 0.

Definition frame_size (delta : Z) (data : list Z) : Z :=
  if zlen data =? 8 then UvarintSize delta + 4 + 8
  else UvarintSize delta + 4 + UvarintSize (zlen data) + zlen data.

Definition available (k : BlockBuf) : Z :=
  BlockSize cfg - dataOffset k - deviceTableSize k - BlockTrailerLen.

(** The store of a frame into the current block, and the accounting. *)
Definition store_frame (f : RxFrame) (delta : Z) (w : JournalWriter) : result jerror JournalWriter :=
  let k := jw_block w in
  '(b, off) ← encode_frame (block k) (dataOffset k) delta (BuildCANID (rx_Header f)) (rx_Data f);
  Ok (mkJournalWriter
        (mkFileState (file (jw_file w)) (fileStart (jw_file w)) (fileBytes (jw_file w))
           (fileFrames (jw_file w) + 1) (blockOffsets (jw_file w)) (rotated (jw_file w))
           (blocksWritten (jw_file w)) (bytesWritten (jw_file w)))
        (mkBlockBuf b off (u32 (bb_frameCount k + 1)) (bb_baseTimeUs k)
           (Time_UnixMicro (rx_Timestamp f)) (baseSeq k) (blockStartDevices k)
           (blockStartDeviceTableSize k)
           (blockDeviceChanges k ++ change_of f (bb_frameCount k)))).

Definition appendFrame (e : Env) (f : RxFrame) (w : JournalWriter) : result jerror JournalWriter :=
  fs ← (match file (jw_file w) with
        | None => openFile cfg e (rx_Timestamp f) (jw_file w) | Some _ => Ok (jw_file w) end);
  let w := mkJournalWriter fs (jw_block w) in
  let tsUs := Time_UnixMicro (rx_Timestamp f) in
  let delta := frame_delta (jw_block w) tsUs in
  '(w, delta) ← (if available (jw_block w) <? frame_size delta (rx_Data f) then
      w ← flushBlock e w;
      fs ← checkRotation cfg e (jw_file w);
      Ok (mkJournalWriter fs (initBlock cfg e tsUs (rx_Seq f)), 0)
    else Ok (w, delta));
  let w := if bb_frameCount (jw_block w) =? 0
           then mkJournalWriter (jw_file w) (initBlock cfg e tsUs (rx_Seq f)) else w in
  store_frame f delta w.

Definition finalize (e : Env) (w : JournalWriter) : result jerror JournalWriter :=
  w ← (if bb_frameCount (jw_block w) >? 0 then flushBlock e w else Ok w);
  match file (jw_file w) with
  | None => Ok w
  | Some _ => fs ← close_file cfg (jw_file w); Ok (mkJournalWriter fs (jw_block w))
  end.

(** [Run]: the frames received until the channel closes, each with the world it
    is handled in and whether the writer is paused. *)
Fixpoint run_frames (w : JournalWriter) (input : list (Env * bool * RxFrame)) : result jerror JournalWriter :=
  match input with
  | [] => Ok w
  | (e, paused, f) :: input =>
      w ← (if paused : bool then Ok w else appendFrame e f w); run_frames w input
  end.

Definition Run (e : Env) (w : JournalWriter) (input : list (Env * bool * RxFrame))
    : result jerror JournalWriter :=
  w ← run_frames w input; finalize e w.

End writer.
