(* ===== verification/JournalRoundTrip.v ===== *)
(** What the journal writer writes, the journal reader reads.

    The block a writer is filling, the file it is appending to and the files it
    has rotated out are related to the frames appended so far; the relation is
    kept by every append, flush, rotation and by the end of the run.  The zstd
    codec enters through [zstd_law]: what it encodes, it decodes. *)

From Stdlib Require Import Ascii.
From S2P Require Import Prelude CanId Devices JournalFormat JournalReader JournalWriter.

(** * Stores of the writer *)

Lemma encode_frame_splice b off delta id data :
  0 <= off -> off + zlen (enc_frame (delta, id, data)) <= zlen b ->
  encode_frame b off delta id data
  = Ok (splice b off (enc_frame (delta, id, data)), off + zlen (enc_frame (delta, id, data))).
Proof.
  intros Ho Hb. unfold encode_frame, enc_frame in *. pose proof (zlen_nonneg data).
  pose proof (zlen_nonneg (PutUvarint delta)). pose proof (zlen_nonneg (PutUvarint (zlen data))).
  destruct (Z.eqb_spec (zlen data) 8) as [H8|H8]; autorewrite with zlen in *.
  - rewrite put_Ok by lia. cbn [mbind result_bind].
    rewrite put_splice by (autorewrite with zlen; lia). cbn [mbind result_bind].
    replace (off + zlen (PutUvarint delta) + 4)
      with (off + zlen (PutUvarint delta ++ le32 (Z.lor id 2147483648))) by (autorewrite with zlen; lia).
    rewrite copy_at_splice by (autorewrite with zlen; lia). cbn [mbind result_bind].
    rewrite <- app_assoc. do 2 f_equal. autorewrite with zlen. lia.
  - rewrite put_Ok by lia. cbn [mbind result_bind].
    rewrite put_splice by (autorewrite with zlen; lia). cbn [mbind result_bind].
    replace (off + zlen (PutUvarint delta) + 4)
      with (off + zlen (PutUvarint delta ++ le32 id)) by (autorewrite with zlen; lia).
    rewrite put_splice by (autorewrite with zlen; lia). cbn [mbind result_bind].
    replace (off + zlen (PutUvarint delta ++ le32 id) + zlen (PutUvarint (zlen data)))
      with (off + zlen ((PutUvarint delta ++ le32 id) ++ PutUvarint (zlen data)))
      by (autorewrite with zlen; lia).
    rewrite copy_at_splice by (autorewrite with zlen; lia). cbn [mbind result_bind].
    rewrite <- !app_assoc. do 2 f_equal. autorewrite with zlen. lia.
Qed.

(** One store after the other: name the cursor by the bytes stored so far, then
    merge the next store into them. *)
Ltac cursor :=
  match goal with
  | |- context [?o + zlen ?y + ?n] =>
      match goal with
      | |- context [splice _ o ?z] => replace (o + zlen y + n) with (o + zlen z) by (autorewrite with zlen; lia)
      end
  end.
Ltac store :=
  first [ rewrite put_splice by (autorewrite with zlen; lia)
        | rewrite PutLenPrefixedString_splice by (try assumption; autorewrite with zlen; lia) ];
  cbn [mbind result_bind].

Lemma put_entry_splice b off x t :
  entry_ok t -> 0 <= off -> off + zlen x + entry_size t <= zlen b ->
  put_entry (splice b off x) (off + zlen x) t
  = Ok (splice b off (x ++ enc_entry t), off + zlen (x ++ enc_entry t)).
Proof.
  intros [_ _ _ _ Hm Hs Hv Hr] Ho Hb. unfold put_entry, entry_size in *.
  store. do 7 (cursor; store).
  unfold enc_entry. rewrite <- !app_assoc. cbn [app]. do 2 f_equal. autorewrite with zlen. lia.
Qed.

Lemma put_entries_splice ts : forall b off x,
  Forall entry_ok ts -> 0 <= off -> off + zlen x + sumZ (map entry_size ts) <= zlen b ->
  put_entries (splice b off x) (off + zlen x) ts = Ok (splice b off (x ++ concat (map enc_entry ts))).
Proof.
  induction ts as [|t ts IH]; intros b off x Hts Ho Hb; cbn [put_entries map concat].
  - now rewrite app_nil_r.
  - inversion Hts as [|? ? Ht Hts']; subst. cbn [map sumZ foldr] in Hb. fold (sumZ (map entry_size ts)) in Hb.
    assert (0 <= sumZ (map entry_size ts)).
    { clear. induction ts as [|t ts IH]; cbn; [lia|]. unfold sumZ, entry_size in *. lia. }
    rewrite put_entry_splice by (try assumption; lia). cbn [mbind result_bind].
    rewrite IH; [now rewrite <- app_assoc|done|done|]. autorewrite with zlen. lia.
Qed.

Lemma zlen_entries ts : zlen (concat (map enc_entry ts)) = sumZ (map entry_size ts).
Proof.
  induction ts as [|t ts IH]; [done|]. cbn [map concat sumZ foldr]. autorewrite with zlen.
  rewrite IH. done.
Qed.

(** * Sealing a block *)

Lemma seal_block_ok cfg b base seq rs ts :
  let bs := BlockSize cfg in
  let T := 2 + sumZ (map entry_size ts) in
  bs <= 2 ^ 31 -> zlen b = bs -> Forall entry_ok ts -> T < 2 ^ 16 -> zlen ts < 2 ^ 16 ->
  Forall raw_ok rs -> rs <> [] -> zlen rs < 2 ^ 32 ->
  - 2 ^ 63 <= base < 2 ^ 63 -> 0 <= seq < 2 ^ 64 ->
  16 + zlen (enc_frames rs) + T + BlockTrailerLen <= bs ->
  (exists pad, b = le64 base ++ le64 seq ++ enc_frames rs ++ pad) ->
  exists b', seal_block cfg ts (zlen rs) b = Ok b' /\ block_ok bs (mkABlock b' base seq rs ts) /\
    holds_at b' (bs - BlockTrailerLen - uint b' (bs - BlockTrailerLen) 2) (enc_table ts).
Proof.
  intros bs T Hbs Hlen Hts HT Hn Hraw Hne Hcount Hbase Hseq Hfit [pad Hb].
  unfold BlockTrailerLen in *. set (o := bs - 10 - T).
  pose proof (zlen_nonneg (enc_frames rs)). pose proof (zlen_nonneg pad). pose proof (zlen_nonneg rs).
  pose proof (zlen_nonneg ts).
  assert (HT0 : 2 <= T).
  { unfold T. rewrite <- zlen_entries. pose proof (zlen_nonneg (concat (map enc_entry ts))). lia. }
  assert (HTab : zlen (enc_table ts) = T)
    by (unfold enc_table; autorewrite with zlen; now rewrite zlen_entries).
  unfold seal_block. fold bs. fold T. unfold BlockTrailerLen. fold o.
  rewrite put_Ok by (autorewrite with zlen; lia). cbn [mbind result_bind].
  replace (o + 2) with (o + zlen (le16 (zlen ts))) by (now autorewrite with zlen).
  rewrite put_entries_splice by (try assumption; autorewrite with zlen; unfold T in *; lia).
  cbn [mbind result_bind]. fold (enc_table ts).
  replace (bs - 10) with (o + zlen (enc_table ts)) by lia.
  rewrite put_splice by (autorewrite with zlen; lia). cbn [mbind result_bind].
  replace (o + zlen (enc_table ts) + 2) with (o + zlen (enc_table ts ++ le16 T)) by (autorewrite with zlen; lia).
  rewrite put_splice by (autorewrite with zlen; lia). cbn [mbind result_bind].
  set (X := (enc_table ts ++ le16 T) ++ le32 (zlen rs)).
  assert (HX : zlen X = T + 6) by (unfold X; autorewrite with zlen; lia).
  set (crc := Checksum (sub (splice b o X) 0 (bs - 4))).
  replace (bs - 4) with (o + zlen X) by lia.
  rewrite put_splice by (autorewrite with zlen; lia).
  set (b' := splice b o (X ++ le32 crc)).
  assert (Hb' : b' = take (Z.to_nat o) b ++ enc_table ts ++ le16 T ++ le32 (zlen rs) ++ le32 crc).
  { unfold b', splice. rewrite drop_ge, app_nil_r; [unfold X; now rewrite <- !app_assoc|].
    assert (L : zlen (X ++ le32 crc) = T + 10) by (autorewrite with zlen; lia).
    unfold zlen in L, Hlen. lia. }
  set (P := take (Z.to_nat o) b) in *.
  assert (HP : zlen P = o) by (unfold P, zlen in *; rewrite length_take; lia).
  assert (Hfront : exists pad', P = le64 base ++ le64 seq ++ enc_frames rs ++ pad').
  { set (A := le64 base ++ le64 seq ++ enc_frames rs).
    assert (HA : zlen A = 16 + zlen (enc_frames rs)) by (unfold A; autorewrite with zlen; lia).
    exists (take (Z.to_nat o - length A) pad). unfold P.
    replace b with (A ++ pad) by (rewrite Hb; unfold A; now rewrite <- !app_assoc).
    rewrite take_app_ge by (unfold zlen in *; lia). unfold A. now rewrite <- !app_assoc. }
  destruct Hfront as [pad' HP'].
  assert (Hsz : uint b' (bs - 10) 2 = T).
  { rewrite Hb', app_assoc. apply (uint_mid (P ++ enc_table ts) 2 T); [|lia].
    rewrite zlen_app. lia. }
  exists b'. split; [done|]. split; [constructor|].
  all: unfold BlockTrailerLen, BlockDataOffsetV2; cbn [ab_buf ab_base ab_seq ab_raw].
  - unfold b'. rewrite zlen_splice by (autorewrite with zlen; lia). exact Hlen.
  - pose proof (uint_mid (P ++ enc_table ts ++ le16 T ++ le32 (zlen rs)) 4 crc [] (bs - 4)) as U.
    rewrite app_nil_r, <- !app_assoc in U. fold (le32 crc) in U. rewrite <- Hb' in U.
    change (Z.of_nat 4) with 4 in U.
    rewrite U; [|autorewrite with zlen; lia|apply Checksum_range].
    unfold crc. f_equal. unfold b'. rewrite <- splice_splice by (autorewrite with zlen; lia).
    symmetry. apply sub_splice_before; rewrite ?zlen_splice; autorewrite with zlen; lia.
  - rewrite Hb', HP'. unfold uint, sub. change (slice (Z.to_nat 0) (Z.to_nat (0 + 8))) with (@slice Z 0 8).
    rewrite <- app_assoc.
    pose proof (slice_app_exact [] (le64 base) ((le64 seq ++ enc_frames rs ++ pad') ++ enc_table ts
      ++ le16 T ++ le32 (zlen rs) ++ le32 crc) 0 8 eq_refl eq_refl) as E.
    cbn [app] in E. rewrite E. unfold le64. rewrite le_val_bytes.
    change (256 ^ Z.of_nat 8) with (2 ^ 64). rewrite i64_mod. apply i64_small. lia.
  - rewrite Hb', HP', <- !app_assoc. apply (uint_mid (le64 base) 8 seq); [apply zlen_le64|lia].
  - rewrite Hb'. pose proof (uint_mid (P ++ enc_table ts ++ le16 T) 4 (zlen rs) (le32 crc) (bs - 10 + 2)) as U.
    rewrite <- !app_assoc in U. apply U; [autorewrite with zlen; lia|lia].
  - rewrite Hsz. lia.
  - exists pad'. rewrite Hsz. fold o. rewrite Hb', HP', <- !app_assoc.
    rewrite (app_assoc (le64 base)), (app_assoc (enc_frames rs)).
    unfold sub. apply slice_app_exact; [reflexivity|].
    rewrite length_app. rewrite HP' in HP. autorewrite with zlen in HP. unfold zlen in *.
    unfold le64. rewrite !length_app, !length_le_bytes. lia.
  - exact Hraw.
  - exact Hne.
  - replace (o + zlen (enc_table ts)) with (bs - 10) by lia.
    rewrite Hsz. fold o. rewrite Hb', <- HP. apply holds_at_mid.
Qed.

(** * What a block means

    The frames of a block, as the writer stores them and as the reader times
    and numbers them. *)

Definition us (f : RxFrame) : Z := Time_UnixMicro (rx_Timestamp f).

Definition delta_of (last ts : Z) : Z := if ts >=? last then u64 (ts - last) else 0.

Fixpoint raws_after (last : Z) (fs : list RxFrame) : list raw_frame :=
  match fs with
  | [] => []
  | f :: fs => (delta_of last (us f), BuildCANID (rx_Header f), rx_Data f) :: raws_after (us f) fs
  end.

Definition raws (fs : list RxFrame) : list raw_frame :=
  match fs with
  | [] => []
  | f :: fs => (0, BuildCANID (rx_Header f), rx_Data f) :: raws_after (us f) fs
  end.

Definition first_us (fs : list RxFrame) : Z := match fs with [] => 0 | f :: _ => us f end.
Definition first_seq (fs : list RxFrame) : Z := match fs with [] => 0 | f :: _ => rx_Seq f end.

(** The entries the reader yields for a block of frames [fs]. *)
Definition view (fs : list RxFrame) : list (Z * Entry) :=
  entries_of (first_us fs) (first_seq fs) (first_us fs) 0 (raws fs).

(** What a frame's entry should be: its sequence number, its time to the
    microsecond, its header and its data. *)
Definition logged (f : RxFrame) : Z * Entry :=
  (rx_Seq f, mkJEntry (time_UnixMicro (us f)) (rx_Header f) (rx_Data f)).

Record frame_ok (f : RxFrame) : Prop := {
  fr_header : header_valid (rx_Header f);
  fr_data : bytes_ok (rx_Data f) /\ zlen (rx_Data f) <= 1785;
  fr_seq : 0 <= rx_Seq f < 2 ^ 64
}.

Lemma last_us_snoc d fs f : us (List.last (fs ++ [f]) d) = us f.
Proof. now rewrite last_last. Qed.

Lemma raws_after_snoc fs : forall last f d,
  raws_after last (fs ++ [f])
  = raws_after last fs ++
    [(delta_of (match fs with [] => last | _ => us (List.last fs d) end) (us f),
      BuildCANID (rx_Header f), rx_Data f)].
Proof.
  induction fs as [|g fs IH]; intros last f d; [done|].
  cbn [app raws_after]. rewrite (IH (us g) f d). f_equal. destruct fs; done.
Qed.

Lemma raws_snoc fs f d :
  fs <> [] ->
  raws (fs ++ [f]) = raws fs ++ [(delta_of (us (List.last fs d)) (us f), BuildCANID (rx_Header f), rx_Data f)].
Proof.
  destruct fs as [|g fs]; [done|]. intros _. cbn [app raws]. rewrite (raws_after_snoc fs (us g) f d).
  cbn [app]. f_equal. do 2 f_equal. destruct fs; done.
Qed.

Lemma length_raws fs : length (raws fs) = length fs.
Proof.
  destruct fs as [|f fs]; [done|]. cbn [raws length]. f_equal.
  generalize (us f). induction fs as [|g fs IH]; intros last; [done|]. cbn. f_equal. apply IH.
Qed.

Lemma frame_raw_ok f delta : frame_ok f -> 0 <= delta < 2 ^ 64 ->
  raw_ok (delta, BuildCANID (rx_Header f), rx_Data f).
Proof.
  intros [Hh [_ Hd] _] Hdelta. pose proof (BuildCANID_valid_range _ Hh).
  unfold raw_ok. lia.
Qed.

Lemma delta_of_range last ts : 0 <= delta_of last ts < 2 ^ 64.
Proof. unfold delta_of. destruct (ts >=? last); [apply wrap_range|]; lia. Qed.

Lemma raws_ok fs : Forall frame_ok fs -> Forall raw_ok (raws fs).
Proof.
  destruct fs as [|f fs]; intros H; [constructor|]. inversion H as [|? ? Hf Hfs]; subst.
  cbn [raws]. constructor; [now apply frame_raw_ok|]. generalize (us f).
  induction Hfs as [|g fs Hg _ IH]; intros last; cbn [raws_after]; constructor; [|apply IH].
  - apply frame_raw_ok; [done|apply delta_of_range].
  - inversion H as [|? ? _ H']. inversion H'; subst. now constructor.
Qed.

(** With times that do not run backwards and consecutive sequence numbers the
    reader's account of a block is exact. *)
Fixpoint in_order (fs : list RxFrame) : Prop :=
  match fs with
  | f :: (g :: _) as rest => us f <= us g /\ rx_Seq g = rx_Seq f + 1 /\ in_order rest
  | _ => True
  end.

Lemma us_range f : - 2 ^ 63 <= us f < 2 ^ 63.
Proof. apply i64_range. Qed.

Lemma entries_of_after base seq0 fs : forall idx f,
  0 < idx -> Forall frame_ok (f :: fs) -> in_order (f :: fs) ->
  rx_Seq f = seq0 + (idx - 1) -> 0 <= seq0 ->
  entries_of base seq0 (us f) idx (raws_after (us f) fs) = map logged fs.
Proof.
  induction fs as [|g fs IH]; intros idx f Hidx Hok Hord Hseq Hs0; [done|].
  destruct Hord as (Hus & Hsq & Hord). inversion Hok as [|? ? Hf Hok']; subst.
  inversion Hok' as [|? ? Hg Hok'']; subst.
  cbn [raws_after entries_of map fst snd]. rewrite (proj2 (Z.eqb_neq _ _)) by lia.
  assert (Hts : i64 (us f + i64 (delta_of (us f) (us g))) = us g).
  { unfold delta_of. rewrite Z.geb_leb, (proj2 (Z.leb_le _ _) Hus).
    unfold wrap. rewrite i64_mod, i64_add_i64.
    replace (us f + (us g - us f)) with (us g) by lia. apply i64_small, us_range. }
  rewrite Hts. f_equal.
  - unfold logged. pose proof (fr_seq _ Hg). rewrite (parse_built _ (fr_header _ Hg)). f_equal.
    rewrite (wrap_small 64 idx) by lia. rewrite wrap_small by lia. lia.
  - apply (IH (idx + 1) g); try done; lia.
Qed.

Lemma view_exact fs : Forall frame_ok fs -> in_order fs -> view fs = map logged fs.
Proof.
  destruct fs as [|f fs]; intros Hok Hord; [done|]. inversion Hok as [|? ? Hf Hok']; subst.
  pose proof (fr_seq _ Hf). unfold view. cbn [first_us first_seq raws entries_of map fst snd].
  rewrite Z.eqb_refl. f_equal.
  - unfold logged. rewrite (parse_built _ (fr_header _ Hf)). f_equal.
    rewrite (wrap_small 64 0) by lia. rewrite wrap_small by lia. lia.
  - apply (entries_of_after _ _ fs 1 f); try done; lia.
Qed.

Lemma in_order_app fs gs : in_order (fs ++ gs) -> in_order fs /\ in_order gs.
Proof.
  induction fs as [|f fs IH]; intros H; [done|].
  destruct fs as [|g fs]; cbn [app in_order] in *.
  - split; [done|]. destruct gs; [done|apply H].
  - destruct H as (H1 & H2 & H3). destruct (IH H3). auto.
Qed.

(** * The codec *)

Record zstd_law (EncodeAll : list Z -> list Z) (EncodeAllDict : list Z -> option (list Z -> list Z))
    (BuildZstdDict : list (list Z) -> option (list Z))
    (DecodeAll : list Z -> option (list Z)) (DecodeAllDict : list Z -> list Z -> option (list Z)) : Prop := {
  zl_plain : forall x, zlen x <= 2 ^ 28 ->
    DecodeAll (EncodeAll x) = Some x /\ 0 < zlen (EncodeAll x) < 2 ^ 29;
  zl_dict : forall d enc x, EncodeAllDict d = Some enc -> 0 < zlen d -> zlen x <= 2 ^ 28 ->
    DecodeAllDict d (enc x) = Some x /\ 0 < zlen (enc x) < 2 ^ 29;
  zl_build : forall samples d, BuildZstdDict samples = Some d -> 0 < zlen d <= 8192
}.

Definition cfg_ok (cfg : JournalConfig) : Prop :=
  validate cfg = true /\ BlockSize cfg <= 2 ^ 28 /\ compression_ok (Compression cfg).

Lemma cfg_block_size cfg : cfg_ok cfg -> block_size_ok (BlockSize cfg) /\ BlockSize cfg <= 2 ^ 28.
Proof.
  intros (Hv & Hb & _). unfold validate in Hv. to_props. unfold block_size_ok. lia.
Qed.

(** * The invariant of the writer *)

Section invariant.
  Context (EncodeAll : list Z -> list Z) (EncodeAllDict : list Z -> option (list Z -> list Z)).
  Context (BuildZstdDict : list (list Z) -> option (list Z)).
  Context (DecodeAll : list Z -> option (list Z)) (DecodeAllDict : list Z -> list Z -> option (list Z)).
  Context (Z_law : zstd_law EncodeAll EncodeAllDict BuildZstdDict DecodeAll DecodeAllDict).
  Context (cfg : JournalConfig) (Hcfg : cfg_ok cfg).
  Abbreviation bs := (BlockSize cfg).
  Abbreviation comp := (Compression cfg).
  Abbreviation stored_chunk := (stored_chunk DecodeAll DecodeAllDict comp).

Definition jdevice_ok (d : JDevice) : Prop := entry_ok (start_entry d).

Definition change_ok (c : journalDeviceChange) : Prop :=
  0 <= ch_Source c < 2 ^ 8 /\ 0 <= ch_NAME c < 2 ^ 64 /\ 0 <= ch_FrameIdx c < 2 ^ 32.

(** The device side of a block: what the table will be built from. *)
Record devices_ok (k : BlockBuf) : Prop := {
  dv_start : Forall jdevice_ok (blockStartDevices k);
  dv_size : blockStartDeviceTableSize k = sumZ (map device_size (blockStartDevices k));
  dv_changes : Forall change_ok (blockDeviceChanges k)
}.

(** The current block holds the frames [fs]. *)
Definition block_holds (k : BlockBuf) (fs : list RxFrame) : Prop :=
  bb_frameCount k = zlen fs /\
  (fs <> [] ->
   zlen (block k) = bs /\ (exists pad, block k = le64 (first_us fs) ++ le64 (first_seq fs) ++ enc_frames (raws fs) ++ pad) /\
   dataOffset k = 16 + zlen (enc_frames (raws fs)) /\ dataOffset k <= bs /\
   bb_baseTimeUs k = first_us fs /\ baseSeq k = first_seq fs /\
   (exists d, bb_lastTimeUs k = us (List.last fs d)) /\ devices_ok k).

(** A stored block of the frames [fs]. *)
Definition chunk_holds (ch : Chunk) (fs : list RxFrame) : Prop :=
  stored_chunk ch /\ block_ok bs ch.1 /\ ab_raw ch.1 = raws fs /\
  ab_base ch.1 = first_us fs /\ ab_seq ch.1 = first_seq fs.

(** The current file holds the blocks [cs] of the frames [bl]. *)
Record file_holds (f : FileState) (cs : list Chunk) (bl : list (list RxFrame)) : Prop := {
  fh_chunks : Forall2 chunk_holds cs bl;
  fh_file : match file f with
            | Some c => c = jheader bs comp ++ chunks_bytes cs /\ fileBytes f = zlen c /\
                        blockOffsets f = (if comp =? CompressionNone then []
                                          else map bi_Offset (infos comp 16 cs))
            | None => cs = []
            end
}.

(** A finished file holds the frames [bl]. *)
Definition reads_back (c : list Z) (bl : list (list RxFrame)) : Prop :=
  sound_file DecodeAll DecodeAllDict c (concat (map view bl)).

Definition rotated_hold (f : FileState) (closed : list (list (list RxFrame))) : Prop :=
  Forall2 (fun '(_, c) bl => reads_back c bl) (rotated f) closed.

(** What the fit check of [appendFrame] leaves free, and the sizes the format
    can express. *)
Definition room (w : JournalWriter) : bool :=
  (dataOffset (jw_block w) + deviceTableSize (jw_block w) + BlockTrailerLen <=? bs) &&
  (deviceTableSize (jw_block w) <? 2 ^ 16) &&
  (zlen (blockOffsets (jw_file w)) <? maxBlockIndexEntries) &&
  (fileBytes (jw_file w) <? 2 ^ 61).

Lemma view_chunk ch fs : chunk_holds ch fs -> block_entries ch.1 = view fs.
Proof. intros (_ & _ & Hr & Hb & Hs). unfold block_entries, view. now rewrite Hr, Hb, Hs. Qed.

(** ** Writing a sealed block *)

(** [f'] is [f] with the block [ch] appended. *)
Definition block_appended (f f' : FileState) (ch : Chunk) : Prop :=
  (exists c, file f = Some c /\ file f' = Some (c ++ ch.2)) /\ fileBytes f' = fileBytes f + zlen ch.2 /\
  blockOffsets f' = (if comp =? CompressionNone then blockOffsets f else blockOffsets f ++ [fileBytes f]) /\
  rotated f' = rotated f /\ fileStart f' = fileStart f /\ fileFrames f' = fileFrames f.

Lemma file_holds_snoc f f' cs bl ch fs :
  file_holds f cs bl -> chunk_holds ch fs -> block_appended f f' ch ->
  file_holds f' (cs ++ [ch]) (bl ++ [fs]).
Proof.
  intros [Hcs Hf] Hch ((c & Hc & Hc') & Hb & Ho & _). rewrite Hc in Hf. destruct Hf as (Ec & Hfb & Hoff).
  constructor; [apply Forall2_app; [done|]; constructor; [done|constructor]|].
  rewrite Hc'. split; [|split].
  - rewrite Ec. unfold chunks_bytes. rewrite map_app, concat_app. cbn [map concat].
    rewrite app_nil_r. symmetry. apply app_assoc.
  - rewrite zlen_app. lia.
  - rewrite Ho. destruct (comp =? CompressionNone); [done|].
    rewrite infos_snoc, Hoff, Hfb, Ec. now rewrite zlen_app, zlen_jheader.
Qed.

Lemma dict_encode_ok off b : zlen b <= 2 ^ 28 ->
  exists d p, dict_encode EncodeAll EncodeAllDict BuildZstdDict off b = (d, p) /\
    (if zlen d >? 0 then DecodeAllDict d p else DecodeAll p) = Some b /\
    0 < zlen p < 2 ^ 29 /\ zlen d <= 8192.
Proof.
  intros Hb. destruct Z_law as [Hpl Hdi Hbu]. destruct (Hpl b Hb) as [Hd Hsz].
  assert (Hplain : exists d p, (@nil Z, EncodeAll b) = (d, p) /\
    (if zlen d >? 0 then DecodeAllDict d p else DecodeAll p) = Some b /\ 0 < zlen p < 2 ^ 29 /\ zlen d <= 8192).
  { eexists _, _. split; [reflexivity|]. split; [exact Hd|]. split; [done|]. rewrite zlen_nil. lia. }
  unfold dict_encode. destruct (if off >? 1024 then _ else None) as [d|] eqn:Ed; [|done].
  destruct (EncodeAllDict d) as [enc|] eqn:Ee; [|done].
  assert (Hdl : 0 < zlen d <= 8192).
  { destruct (off >? 1024); [|done]. unfold buildBlockDict in Ed. destruct (_ <? 4); [done|].
    now apply Hbu in Ed. }
  destruct (Hdi d enc b Ee ltac:(lia) Hb) as [Hd' Hsz'].
  exists d, (enc b). split; [done|]. rewrite Z.gtb_ltb, (proj2 (Z.ltb_lt _ _)) by lia.
  split; [done|]. split; [done|]. lia.
Qed.

Lemma file_write_Ok x f c : file f = Some c ->
  file_write x f = Ok (mkFileState (Some (c ++ x)) (fileStart f) (fileBytes f + zlen x) (fileFrames f)
                        (blockOffsets f) (rotated f) (blocksWritten f) (bytesWritten f)).
Proof. intros H. unfold file_write. now rewrite H. Qed.

Lemma write_block_ok k b f c a :
  file f = Some c -> zlen b <= 2 ^ 28 -> ab_buf a = b ->
  bb_baseTimeUs k = ab_base a -> baseSeq k = ab_seq a ->
  exists f' ch, write_block EncodeAll EncodeAllDict BuildZstdDict cfg k b f = Ok f' /\
    ch.1 = a /\ chunk_of DecodeAll DecodeAllDict comp a ch.2 /\ zlen ch.2 <= 2 ^ 30 /\
    block_appended f f' ch.
Proof.
  intros Hfile Hlen Ha Hbase Hseq. pose proof Hcfg as (_ & Hbs & Hcomp).
  destruct (zl_plain _ _ _ _ _ Z_law b Hlen) as [Hd Hsz].
  unfold write_block, block_appended. rewrite Hbase, Hseq, <- Ha in *.
  destruct Hcomp as [E|[E|E]]; rewrite E.
  - cbn [Z.eqb CompressionNone CompressionZstd CompressionZstdDict]. rewrite (file_write_Ok _ _ _ Hfile).
    eexists _, (a, ab_buf a). split; [reflexivity|]. split; [done|]. split; [now apply chunk_plain|].
    split; [cbn [snd]; lia|]. split; [eauto|]. repeat split; reflexivity.
  - cbn [Z.eqb CompressionNone CompressionZstd CompressionZstdDict]. unfold writeCompressedBlock.
    erewrite file_write_Ok by exact Hfile. cbn [mbind result_bind]. erewrite file_write_Ok by reflexivity.
    eexists _, (a, chunk_header a ++ le32 (zlen (EncodeAll (ab_buf a))) ++ EncodeAll (ab_buf a)).
    split; [reflexivity|]. split; [done|]. cbn [snd].
    split; [apply chunk_zstd; [done|exact Hd|lia]|]. autorewrite with zlen. rewrite zlen_chunk_header.
    split; [lia|]. split; [|cbn; autorewrite with zlen; repeat split; try reflexivity; lia].
    eexists. split; [exact Hfile|]. cbn [file]. unfold chunk_header. now rewrite <- !app_assoc.
  - cbn [Z.eqb CompressionNone CompressionZstd CompressionZstdDict Pos.eqb]. unfold writeDictCompressedBlock.
    destruct (dict_encode_ok (dataOffset k) (ab_buf a) Hlen) as (d & p & -> & Hdp & Hp & Hdl).
    pose proof (zlen_nonneg d).
    erewrite file_write_Ok by exact Hfile. cbn [mbind result_bind].
    pose proof (chunk_dict DecodeAll DecodeAllDict CompressionZstdDict a d p eq_refl Hdp ltac:(lia) ltac:(lia)) as Hch.
    rewrite Z.gtb_ltb. destruct (Z.ltb_spec 0 (zlen d)) as [Hpos|Hzero].
    + erewrite file_write_Ok by reflexivity. cbn [mbind result_bind]. erewrite file_write_Ok by reflexivity.
      eexists _, (a, _). split; [reflexivity|]. split; [done|]. cbn [snd]. split; [exact Hch|].
      autorewrite with zlen. rewrite zlen_chunk_header.
      split; [lia|]. split; [|cbn; autorewrite with zlen; repeat split; try reflexivity; lia].
      eexists. split; [exact Hfile|]. cbn [file]. unfold chunk_header. now rewrite <- !app_assoc.
    + assert (d = []) as -> by (destruct d; [done|rewrite zlen_cons in *; pose proof (zlen_nonneg d); lia]).
      cbn [mbind result_bind]. erewrite file_write_Ok by reflexivity.
      eexists _, (a, _). split; [reflexivity|]. split; [done|]. cbn [snd]. split; [exact Hch|].
      autorewrite with zlen. rewrite zlen_chunk_header.
      split; [lia|]. split; [|cbn; autorewrite with zlen; repeat split; try reflexivity; lia].
      eexists. split; [exact Hfile|]. cbn [file]. unfold chunk_header. now rewrite <- !app_assoc.
Qed.

(** ** Flushing *)

Lemma sumZ_app x y : sumZ (x ++ y) = sumZ x + sumZ y.
Proof. induction x as [|a x IH]; cbn; [done|]. unfold sumZ in *. lia. Qed.

Lemma sumZ_bound {A} (f : A -> Z) m l :
  Forall (fun x => 1 <= f x <= m) l -> zlen l <= sumZ (map f l) <= zlen l * m.
Proof.
  induction 1 as [|x l Hx _ IH]; [unfold sumZ, zlen; cbn; lia|]. rewrite zlen_cons. cbn [map sumZ foldr].
  fold (sumZ (map f l)). lia.
Qed.

Lemma change_entry_ok e c : registry_ok (env_devices e) -> change_ok c ->
  entry_ok (change_entry e c) /\ 1 <= entry_size (change_entry e c) <= DeviceEntryMaxSize.
Proof.
  intros Hr (Hs & Hn & Hi). unfold change_entry, Get.
  destruct (env_devices e !! (ch_Bus c, ch_Source c)) as [d|] eqn:Ed.
  - destruct (ok_entry _ Hr _ _ Ed) as [_ [_ _ Hc [Hm _] [Hsw _] [Hv _] [Hse _] _ _]].
    split; [constructor; cbn [te_Source te_NAME te_ActiveFrom te_ProductCode te_ModelID te_SoftwareVersion
      te_ModelVersion te_ModelSerial]; assumption || lia|].
    unfold entry_size, DeviceEntryMaxSize.
    cbn [te_ModelID te_SoftwareVersion te_ModelVersion te_ModelSerial]. lia.
  - split; [constructor; cbn; assumption || lia|]. unfold entry_size, DeviceEntryMaxSize. cbn. lia.
Qed.

Lemma start_size d : entry_size (start_entry d) = device_size d.
Proof. done. Qed.

Lemma table_ok e k : registry_ok (env_devices e) -> devices_ok k ->
  Forall entry_ok (table_of e k) /\ 2 + sumZ (map entry_size (table_of e k)) <= deviceTableSize k /\
  zlen (table_of e k) <= sumZ (map entry_size (table_of e k)).
Proof.
  intros Hr [Hst Hsz Hch]. unfold table_of, deviceTableSize. rewrite map_app, sumZ_app, zlen_app, Hsz.
  assert (Hc : Forall (fun t => entry_ok t /\ 1 <= entry_size t <= DeviceEntryMaxSize)
                 (map (change_entry e) (blockDeviceChanges k))).
  { apply Forall_map. eapply Forall_impl; [exact Hch|]. intros c. now apply change_entry_ok. }
  apply Forall_and in Hc as [Hc1 Hc2]. apply sumZ_bound in Hc2.
  assert (Hs : Forall (fun t => 1 <= entry_size t <= entry_size t) (map start_entry (blockStartDevices k))).
  { apply Forall_map. apply Forall_true. intros d. unfold entry_size. lia. }
  assert (Hs' : zlen (map start_entry (blockStartDevices k)) <= sumZ (map entry_size (map start_entry (blockStartDevices k)))).
  { clear -Hs. induction Hs as [|x l Hx _ IH]; [done|]. rewrite zlen_cons. cbn [map sumZ foldr].
    fold (sumZ (map entry_size l)). lia. }
  replace (sumZ (map device_size (blockStartDevices k)))
    with (sumZ (map entry_size (map start_entry (blockStartDevices k)))) by (now rewrite map_map).
  split; [apply Forall_app; split; [now apply Forall_map|done]|].
  replace (zlen (map (change_entry e) (blockDeviceChanges k))) with (zlen (blockDeviceChanges k)) in Hc2 |- *
    by (unfold zlen; now rewrite length_map).
  lia.
Qed.

(** Everything the writer keeps true: the files closed so far read back as the
    frames of [closed], the current file holds [bl], the current block [fs]. *)
Record writer_holds (w : JournalWriter) (closed : list (list (list RxFrame))) (bl : list (list RxFrame))
    (fs : list RxFrame) : Prop := {
  wh_closed : rotated_hold (jw_file w) closed;
  wh_file : exists cs, file_holds (jw_file w) cs bl;
  wh_block : block_holds (jw_block w) fs;
  wh_frames : Forall frame_ok fs;
  wh_some : Forall (fun fs => fs <> []) bl
}.

Lemma enc_frames_size rs : zlen rs <= zlen (enc_frames rs).
Proof.
  unfold enc_frames. induction rs as [|r rs IH]; [done|]. cbn [map concat].
  rewrite zlen_cons, zlen_app. pose proof (enc_frame_pos r). lia.
Qed.

Lemma first_seq_range fs : Forall frame_ok fs -> 0 <= first_seq fs < 2 ^ 64.
Proof. intros H. destruct H as [|f fs Hf _]; cbn; [lia|apply (fr_seq _ Hf)]. Qed.

(** The current block seals to a well-formed block of its frames. *)
Lemma seal_current e w closed bl fs :
  registry_ok (env_devices e) -> writer_holds w closed bl fs -> room w = true -> fs <> [] ->
  exists b, let a := mkABlock b (first_us fs) (first_seq fs) (raws fs) (table_of e (jw_block w)) in
    seal_block cfg (table_of e (jw_block w)) (bb_frameCount (jw_block w)) (block (jw_block w)) = Ok b /\
    block_ok bs a /\ zlen b <= 2 ^ 28 /\
    holds_at b (bs - BlockTrailerLen - uint b (bs - BlockTrailerLen) 2) (enc_table (table_of e (jw_block w))) /\
    Forall entry_ok (table_of e (jw_block w)) /\ zlen (table_of e (jw_block w)) < 2 ^ 16.
Proof.
  intros Hr [_ _ (Hcnt & Hblk) Hok _] Hroom Hne.
  destruct (Hblk Hne) as (Hlen & Hpad & Hdo & _ & _ & _ & _ & Hdev).
  unfold room in Hroom. to_props. pose proof (cfg_block_size _ Hcfg) as [[[Hb1 Hb2] _] Hb28].
  destruct (table_ok e _ Hr Hdev) as (Hent & Hsz & Hcount).
  pose proof (enc_frames_size (raws fs)) as Hes. pose proof (zlen_nonneg (table_of e (jw_block w))).
  assert (Hzl : zlen (raws fs) = zlen fs) by (unfold zlen; now rewrite length_raws).
  unfold BlockTrailerLen in *.
  destruct (seal_block_ok cfg (block (jw_block w)) (first_us fs) (first_seq fs) (raws fs)
    (table_of e (jw_block w))) as (b & Hseal & Hbok & Htab); unfold BlockTrailerLen;
    try assumption; try lia; [now apply raws_ok| | |now apply first_seq_range|].
  { intros E. apply (f_equal length) in E. rewrite length_raws in E. destruct fs; done. }
  { destruct fs; [done|apply us_range]. }
  exists b. cbv zeta. rewrite Hcnt, <- Hzl. split; [exact Hseal|]. split; [exact Hbok|].
  pose proof (bk_len _ _ Hbok) as Hbl. cbn [ab_buf] in Hbl. split; [lia|]. split; [exact Htab|].
  split; [exact Hent|lia].
Qed.

Lemma frame_count_pos w closed bl fs : writer_holds w closed bl fs -> fs <> [] ->
  0 < bb_frameCount (jw_block w).
Proof.
  intros [_ _ (Hcnt & _) _ _] Hne. rewrite Hcnt. destruct fs; [done|].
  rewrite zlen_cons. pose proof (zlen_nonneg fs). lia.
Qed.

Lemma flushBlock_ok e w closed bl fs :
  registry_ok (env_devices e) -> writer_holds w closed bl fs -> room w = true ->
  fs <> [] -> is_Some (file (jw_file w)) ->
  exists w', flushBlock EncodeAll EncodeAllDict BuildZstdDict cfg e w = Ok w' /\
    writer_holds w' closed (bl ++ [fs]) [] /\ is_Some (file (jw_file w')) /\
    zlen (blockOffsets (jw_file w')) <= zlen (blockOffsets (jw_file w)) + 1 /\
    fileBytes (jw_file w') <= fileBytes (jw_file w) + 2 ^ 30.
Proof.
  intros Hr Hw Hroom Hne (c & Hfile).
  destruct (seal_current e w closed bl fs Hr Hw Hroom Hne) as (b & Hseal & Hbok & Hbl & _).
  pose proof (frame_count_pos _ _ _ _ Hw Hne) as Hpos.
  destruct Hw as [Hcl (cs & Hf) (Hcnt & Hblk) Hok Hsome].
  destruct (Hblk Hne) as (_ & _ & _ & _ & Hbase & Hseq & _).
  set (a := mkABlock b (first_us fs) (first_seq fs) (raws fs) (table_of e (jw_block w))) in *.
  destruct (write_block_ok (jw_block w) b (jw_file w) c a Hfile Hbl eq_refl Hbase Hseq)
    as (f' & ch & Hw & Hcha & Hch & Hchl & Happ).
  pose proof Happ as ((c0 & Hc0 & Hc1) & Hfb & Hoffs & Hrot & _).
  unfold flushBlock. rewrite (proj2 (Z.eqb_neq _ _)) by lia.
  rewrite Hseal. cbn [mbind result_bind]. rewrite Hw. cbn [mbind result_bind].
  eexists. split; [reflexivity|]. cbn [jw_file jw_block count_block file blockOffsets fileBytes].
  assert (Hchunk : chunk_holds ch fs).
  { unfold chunk_holds, JournalReader.stored_chunk. rewrite Hcha. split; [|split; [exact Hbok|done]].
    split; [exact Hch|]. cbn [ab_base ab_seq a]. split; [|now apply first_seq_range].
    destruct fs; [done|apply us_range]. }
  pose proof (file_holds_snoc _ _ _ _ _ _ Hf Hchunk Happ) as [Hfc Hff].
  split; [constructor|].
  - unfold rotated_hold in *. cbn [jw_file count_block rotated]. now rewrite Hrot.
  - eexists. constructor; [exact Hfc|]. exact Hff.
  - split; [done|]. congruence.
  - constructor.
  - apply Forall_app. split; [done|]. now constructor.
  - split; [now rewrite Hc1|]. split; [|lia]. rewrite Hoffs. pose proof (zlen_nonneg (blockOffsets (jw_file w))).
    destruct (comp =? CompressionNone); autorewrite with zlen; lia.
Qed.

(** ** Closing a file *)

Lemma chunks_view cs bl : Forall2 chunk_holds cs bl ->
  concat (map (block_entries ∘ fst) cs) = concat (map view bl) /\
  frames_in (map fst cs) = length (concat bl) /\
  Forall stored_chunk cs /\ Forall (fun ch => block_ok bs ch.1) cs.
Proof.
  induction 1 as [|ch fs cs bl Hch _ (IH1 & IH2 & IH3 & IH4)]; [done|].
  pose proof Hch as (Hs & Hb & Hr & _). cbn [map concat]. unfold frames_in in *. cbn [map concat].
  rewrite !length_app, IH2. unfold compose at 1. rewrite (view_chunk _ _ Hch), IH1, Hr, length_raws.
  repeat split; by constructor.
Qed.

Lemma tail_reads_back cs bl tail :
  Forall2 chunk_holds cs bl -> zlen (jheader bs comp ++ chunks_bytes cs ++ tail) < 2 ^ 62 ->
  file_tail DecodeAll DecodeAllDict bs comp cs tail ->
  reads_back (jheader bs comp ++ chunks_bytes cs ++ tail) bl.
Proof.
  intros Hcs Hlen Ht. destruct (chunks_view _ _ Hcs) as (Hview & Hcount & Hst & Hok).
  destruct (cfg_block_size _ Hcfg) as [Hbs _]. pose proof Hcfg as (_ & _ & Hcomp).
  by apply (sound_file_intro _ _ _ _ bs comp cs tail).
Qed.

Lemma finished_reads_back cs bl tail :
  Forall2 chunk_holds cs bl -> zlen (jheader bs comp ++ chunks_bytes cs ++ tail) < 2 ^ 62 ->
  (tail = [] /\ (comp = CompressionNone \/ cs = [])) \/
  (comp <> CompressionNone /\ cs <> [] /\ zlen cs <= maxBlockIndexEntries /\
   tail = index_bytes (map bi_Offset (infos comp 16 cs))) ->
  reads_back (jheader bs comp ++ chunks_bytes cs ++ tail) bl.
Proof.
  intros Hcs Hlen Htail. apply (tail_reads_back _ _ _ Hcs Hlen).
  destruct (cfg_block_size _ Hcfg) as [[Hbs _] _]. unfold file_tail.
  destruct Htail as [[-> Hor]|(Hc & Hne & Hmax & ->)].
  - destruct (Z.eqb_spec comp CompressionNone) as [|Hc]; [rewrite zlen_nil; lia|].
    destruct Hor as [| ->]; [done|]. right. split; [now left|]. exists ErrIndex. reflexivity.
  - rewrite (proj2 (Z.eqb_neq _ _) Hc). left. auto.
Qed.

Lemma close_file_ok f cs bl c :
  file_holds f cs bl -> file f = Some c -> zlen (blockOffsets f) <= maxBlockIndexEntries ->
  fileBytes f < 2 ^ 61 + 2 ^ 60 ->
  exists f' c', close_file cfg f = Ok f' /\ file f' = None /\
    rotated f' = rotated f ++ [(fileStart f, c')] /\ reads_back c' bl.
Proof.
  intros [Hcs Hf] Hfile Hmax Hsz. rewrite Hfile in Hf. destruct Hf as (Hc & Hfb & Hoff).
  assert (Hlen : comp <> CompressionNone -> zlen (blockOffsets f) = zlen cs).
  { intros Hne. rewrite Hoff, (proj2 (Z.eqb_neq _ _) Hne). unfold zlen. now rewrite length_map, length_infos. }
  assert (Happ : jheader bs comp ++ chunks_bytes cs ++ [] = c) by now rewrite app_nil_r.
  unfold close_file, writeBlockIndex. destruct (Z.eqb_spec comp CompressionNone) as [Hn|Hn]; cbn [negb].
  - cbn [mbind result_bind]. rewrite Hfile. eexists _, c. split; [reflexivity|]. split; [done|]. split; [done|].
    rewrite <- Happ. apply (finished_reads_back _ _ _ Hcs); [rewrite Happ; lia|]. left. auto.
  - destruct (blockOffsets f) as [|o offs] eqn:Eo.
    + cbn [mbind result_bind]. rewrite Hfile. eexists _, c. split; [reflexivity|]. split; [done|]. split; [done|].
      assert (cs = []) as -> by (specialize (Hlen Hn); destruct cs; [done|rewrite zlen_nil, zlen_cons in Hlen; pose proof (zlen_nonneg cs); lia]).
      rewrite <- Happ. apply (finished_reads_back _ _ _ Hcs); [rewrite Happ; lia|]. left. auto.
    + rewrite Hfile. cbn [mbind result_bind file]. eexists _, _. split; [reflexivity|]. split; [done|]. split; [done|].
      specialize (Hlen Hn). change maxBlockIndexEntries with 262144 in *.
      rewrite Hc, <- app_assoc. apply (finished_reads_back _ _ _ Hcs).
      * rewrite app_assoc, <- Hc, zlen_app. unfold index_bytes. autorewrite with zlen.
        change (zlen BlockIndexMagic) with 4.
        assert (L : forall l, zlen (concat (map le64 l)) = 8 * zlen l).
        { induction l as [|x l IH]; [done|]. cbn [map concat]. autorewrite with zlen. lia. }
        rewrite L. autorewrite with zlen in Hlen, Hmax |- *. lia.
      * right. split; [done|]. split; [destruct cs; [rewrite zlen_nil, zlen_cons in Hlen; pose proof (zlen_nonneg offs); lia|done]|].
        split; [change maxBlockIndexEntries with 262144; lia|]. now rewrite Hoff.
Qed.

Lemma rotated_hold_snoc f f' closed c t bl :
  rotated_hold f closed -> rotated f' = rotated f ++ [(t, c)] -> reads_back c bl ->
  rotated_hold f' (closed ++ [bl]).
Proof.
  unfold rotated_hold. intros H E Hr. rewrite E. apply Forall2_app; [done|]. by repeat constructor.
Qed.

(** Rotation, due or not, keeps the frames: they move to the closed files or
    stay in the current one. *)
Lemma checkRotation_ok e f cs bl closed c :
  rotated_hold f closed -> file_holds f cs bl -> file f = Some c ->
  zlen (blockOffsets f) <= maxBlockIndexEntries -> fileBytes f < 2 ^ 61 + 2 ^ 60 ->
  exists f', checkRotation cfg e f = Ok f' /\
    ((f' = f) \/
     (file_holds f' [] [] /\ rotated_hold f' (closed ++ [bl]) /\ file f' = None)).
Proof.
  intros Hcl Hf Hfile Hmax Hsz. unfold checkRotation. destruct (rotation_due cfg e f); cbn [negb].
  2: { eexists. split; [done|]. now left. }
  destruct (close_file_ok _ _ _ _ Hf Hfile Hmax Hsz) as (f' & c' & -> & Hnone & Hrot & Hr).
  cbn [mbind result_bind]. eexists. split; [reflexivity|]. right. split; [|split].
  - constructor; [constructor|]. cbn [file]. now rewrite Hnone.
  - eapply rotated_hold_snoc; [exact Hcl|exact Hrot|exact Hr].
  - exact Hnone.
Qed.

(** ** Appending *)

(** What the writer is given: a well-formed registry whose sources are bytes,
    and a directory in which files can be created. *)
Definition env_ok (e : Env) : Prop :=
  registry_ok (env_devices e) /\
  (forall k d, env_devices e !! k = Some d -> 0 <= k.2 < 2 ^ 8) /\ env_create_ok e = true.

Lemma start_devices_ok e : env_ok e -> Forall jdevice_ok (start_devices e).
Proof.
  intros (Hr & Hsrc & _). unfold start_devices. apply Forall_map, Forall_forall. intros d Hd.
  apply list_elem_of_In, filter_In in Hd as [Hd _]. apply list_elem_of_In in Hd.
  unfold Snapshot in Hd. apply list_elem_of_omap in Hd as (k & _ & Hk).
  destruct (ok_entry _ Hr _ _ Hk) as [Hkey [Hn _ Hc [Hm _] [Hsw _] [Hv _] [Hse _] _ _]].
  pose proof (Hsrc _ _ Hk) as Hs. rewrite <- Hkey in Hs. cbn in Hs.
  unfold jdevice_ok, start_entry, start_device.
  constructor; cbn [te_Source te_NAME te_ActiveFrom te_ProductCode te_ModelID te_SoftwareVersion
    te_ModelVersion te_ModelSerial jd_Source jd_NAME jd_ProductCode jd_ModelID jd_SoftwareVersion
    jd_ModelVersion jd_ModelSerial]; lia.
Qed.

Lemma initBlock_ok e base seq : env_ok e ->
  let k := initBlock cfg e base seq in
  zlen (block k) = bs /\ (exists pad, block k = (le64 base ++ le64 seq) ++ pad) /\
  dataOffset k = zlen (le64 base ++ le64 seq) /\ devices_ok k /\ bb_frameCount k = 0 /\
  bb_baseTimeUs k = base /\ bb_lastTimeUs k = base /\ baseSeq k = seq.
Proof.
  intros He k. destruct (cfg_block_size _ Hcfg) as [[[Hb _] _] _].
  assert (Hz : zlen (replicate (Z.to_nat bs) 0) = bs) by (unfold zlen; rewrite length_replicate; lia).
  assert (Hbl : block k = splice (replicate (Z.to_nat bs) 0) 0 (le64 base ++ le64 seq)).
  { unfold k, initBlock. cbn [block]. change 8 with (0 + zlen (le64 base)) at 1.
    apply splice_splice; [lia|]. autorewrite with zlen. lia. }
  rewrite Hbl. split; [rewrite zlen_splice by (autorewrite with zlen; lia); exact Hz|].
  split; [eexists; unfold splice; cbn [Z.to_nat take app]; reflexivity|].
  split; [autorewrite with zlen; reflexivity|].
  split; [constructor; cbn; [now apply start_devices_ok|reflexivity|constructor]|]. auto.
Qed.

Lemma change_of_ok f idx : frame_ok f -> 0 <= idx < 2 ^ 32 -> Forall change_ok (change_of f idx).
Proof.
  intros Hf Hi. unfold change_of. destruct (_ && _); [|constructor]. constructor; [|constructor].
  destruct (fr_header _ Hf) as (_ & _ & Hs & _). destruct (fr_data _ Hf) as [Hd _].
  split; [exact Hs|]. split; [|exact Hi].
  pose proof (le_val_range (take 8 (rx_Data f)) ltac:(now apply Forall_take)) as Hr.
  cbn [ch_NAME]. split; [lia|]. eapply Z.lt_le_trans; [apply Hr|].
  change (2 ^ 64) with (256 ^ 8). apply Z.pow_le_mono_r; [lia|]. rewrite length_take. lia.
Qed.

Lemma store_frame_ok f delta w P :
  let enc := enc_frame (delta, BuildCANID (rx_Header f), rx_Data f) in
  let k := jw_block w in
  zlen (block k) = bs -> (exists pad, block k = P ++ pad) -> dataOffset k = zlen P ->
  zlen P + zlen enc <= bs ->
  exists b pad, b = P ++ enc ++ pad /\ zlen b = bs /\
    store_frame f delta w
    = Ok (mkJournalWriter
        (mkFileState (file (jw_file w)) (fileStart (jw_file w)) (fileBytes (jw_file w))
           (fileFrames (jw_file w) + 1) (blockOffsets (jw_file w)) (rotated (jw_file w))
           (blocksWritten (jw_file w)) (bytesWritten (jw_file w)))
        (mkBlockBuf b (zlen P + zlen enc) (u32 (bb_frameCount k + 1)) (bb_baseTimeUs k) (us f)
           (baseSeq k) (blockStartDevices k) (blockStartDeviceTableSize k)
           (blockDeviceChanges k ++ change_of f (bb_frameCount k)))).
Proof.
  intros enc k Hlen [pad Hpad] Hoff Hfit. pose proof (zlen_nonneg P). pose proof (zlen_nonneg enc).
  exists (splice (block k) (zlen P) enc), (drop (length enc) pad). split; [|split].
  - rewrite Hpad. unfold splice, zlen. rewrite Nat2Z.id, take_app_length. do 2 f_equal.
    rewrite drop_app_ge by lia. f_equal. lia.
  - rewrite zlen_splice; lia.
  - unfold store_frame. fold k. rewrite Hoff, encode_frame_splice by (fold enc; lia). reflexivity.
Qed.

(** The part of the invariant that is about files only. *)
Definition files_hold (f : FileState) (closed : list (list (list RxFrame))) (bl : list (list RxFrame)) : Prop :=
  rotated_hold f closed /\ (exists cs, file_holds f cs bl) /\ Forall (fun fs => fs <> []) bl.

Lemma writer_files w closed bl fs : writer_holds w closed bl fs -> files_hold (jw_file w) closed bl.
Proof. intros [H1 H2 _ _ H5]. split; auto. Qed.

(** A frame stored into a block of [fs] makes it a block of [fs ++ [f]]. *)
Lemma store_frame_holds f delta w closed bl fs P :
  let k := jw_block w in
  frame_ok f -> files_hold (jw_file w) closed bl -> Forall frame_ok fs ->
  zlen (block k) = bs -> (exists pad, block k = P ++ pad) -> dataOffset k = zlen P ->
  P = le64 (first_us (fs ++ [f])) ++ le64 (first_seq (fs ++ [f])) ++ enc_frames (raws fs) ->
  raws (fs ++ [f]) = raws fs ++ [(delta, BuildCANID (rx_Header f), rx_Data f)] ->
  bb_frameCount k = zlen fs -> bb_baseTimeUs k = first_us (fs ++ [f]) ->
  baseSeq k = first_seq (fs ++ [f]) -> devices_ok k ->
  zlen P + zlen (enc_frame (delta, BuildCANID (rx_Header f), rx_Data f)) <= bs ->
  exists w', store_frame f delta w = Ok w' /\ writer_holds w' closed bl (fs ++ [f]).
Proof.
  intros k Hf (Hcl & Hfile & Hsome) Hok Hlen Hpad Hoff HP Hraws Hcnt Hbase Hseq [Hd1 Hd2 Hd3] Hfit.
  destruct (cfg_block_size _ Hcfg) as [_ Hb28].
  destruct (store_frame_ok f delta w P Hlen Hpad Hoff Hfit) as (b & pad & Hb & Hbl & Hst).
  eexists. split; [exact Hst|]. pose proof (enc_frames_size (raws fs)) as Hes.
  assert (Hcount : zlen fs + 1 < 2 ^ 32).
  { pose proof (enc_frame_pos (delta, BuildCANID (rx_Header f), rx_Data f)).
    unfold zlen in Hes at 1. rewrite length_raws in Hes. fold (zlen fs) in Hes.
    rewrite HP in Hfit. autorewrite with zlen in Hfit. lia. }
  pose proof (zlen_nonneg fs).
  assert (Henc : enc_frames (raws (fs ++ [f])) =
    enc_frames (raws fs) ++ enc_frame (delta, BuildCANID (rx_Header f), rx_Data f)).
  { rewrite Hraws. unfold enc_frames. rewrite map_app, concat_app. cbn [map concat]. now rewrite app_nil_r. }
  constructor; [exact Hcl| |split|apply Forall_app; split; [done|by constructor]|exact Hsome].
  - destruct Hfile as [cs Hfile]. exists cs. destruct Hfile as [H1 H2]. constructor; [exact H1|].
    cbn [jw_file file fileBytes blockOffsets] in *. exact H2.
  - cbn [jw_block bb_frameCount]. fold k. rewrite Hcnt, wrap_small by lia. autorewrite with zlen. lia.
  - intros _. cbn [jw_block block dataOffset bb_baseTimeUs bb_lastTimeUs baseSeq]. fold k.
    split; [exact Hbl|]. split; [exists pad; rewrite Hb, HP, Henc, <- !app_assoc; reflexivity|].
    split; [rewrite HP, Henc; autorewrite with zlen; lia|]. split; [lia|].
    split; [exact Hbase|]. split; [exact Hseq|]. split; [exists f; now rewrite last_us_snoc|].
    constructor; [exact Hd1|exact Hd2|]. cbn [blockDeviceChanges]. apply Forall_app. split; [exact Hd3|].
    apply change_of_ok; [done|]. fold k. lia.
Qed.

Lemma put_uvarint_go_len fuel : forall x, (length (put_uvarint_go fuel x) <= fuel)%nat.
Proof.
  induction fuel as [|fuel IH]; intros x; [done|]. cbn [put_uvarint_go].
  destruct (x >=? 128); cbn [length]; [specialize (IH (Z.shiftr x 7))|]; lia.
Qed.

Lemma enc_frame_fresh_size f : frame_ok f ->
  zlen (enc_frame (0, BuildCANID (rx_Header f), rx_Data f)) <= 2000.
Proof.
  intros [_ [_ Hd] _]. unfold enc_frame. pose proof (put_uvarint_go_len 10 (zlen (rx_Data f))) as H.
  fold (PutUvarint (zlen (rx_Data f))) in H. rewrite zlen_app.
  change (zlen (PutUvarint 0)) with 1.
  assert (zlen (PutUvarint (zlen (rx_Data f))) <= 10) by (unfold zlen at 1; lia).
  destruct (zlen (rx_Data f) =? 8); autorewrite with zlen; lia.
Qed.

(** A frame that starts a block. *)
Lemma append_fresh e f fl closed bl :
  env_ok e -> frame_ok f -> files_hold fl closed bl ->
  exists w', store_frame f 0 (mkJournalWriter fl (initBlock cfg e (us f) (rx_Seq f))) = Ok w' /\
    writer_holds w' closed bl [f].
Proof.
  intros He Hf Hw. destruct (initBlock_ok e (us f) (rx_Seq f) He) as (H1 & H2 & H3 & H4 & H5 & H6 & H7 & H8).
  destruct (cfg_block_size _ Hcfg) as [[[Hb _] _] _]. pose proof (enc_frame_fresh_size f Hf).
  apply (store_frame_holds f 0 (mkJournalWriter fl (initBlock cfg e (us f) (rx_Seq f))) closed bl []
    (le64 (us f) ++ le64 (rx_Seq f))); try done.
  - autorewrite with zlen. lia.
Qed.

(** A frame that fits the block being filled. *)
Lemma append_fits f w closed bl fs :
  frame_ok f -> writer_holds w closed bl fs -> fs <> [] ->
  frame_size (frame_delta (jw_block w) (us f)) (rx_Data f) <= available cfg (jw_block w) ->
  exists w', store_frame f (frame_delta (jw_block w) (us f)) w = Ok w' /\
    writer_holds w' closed bl (fs ++ [f]).
Proof.
  intros Hf Hw Hne Hav. pose proof Hw as [_ _ (Hcnt & Hblk) Hok _].
  destruct (Hblk Hne) as (Hlen & [pad Hpad] & Hdo & Hdb & Hbase & Hseq & [d Hlast] & Hdev).
  assert (Hdelta : frame_delta (jw_block w) (us f) = delta_of (us (List.last fs d)) (us f)).
  { unfold frame_delta, delta_of. rewrite Hcnt, Hlast. destruct fs; [done|].
    rewrite zlen_cons, Z.gtb_ltb. pose proof (zlen_nonneg fs).
    now rewrite (proj2 (Z.ltb_lt _ _)) by lia. }
  assert (Hfirst : forall x, first_us (fs ++ [x]) = first_us fs /\ first_seq (fs ++ [x]) = first_seq fs)
    by (intros x; destruct fs; done).
  destruct (Hfirst f) as [Hfu Hfs].
  set (P := le64 (first_us fs) ++ le64 (first_seq fs) ++ enc_frames (raws fs)) in *.
  assert (HP : zlen P = dataOffset (jw_block w)) by (unfold P; autorewrite with zlen; lia).
  assert (Hsize : frame_size (frame_delta (jw_block w) (us f)) (rx_Data f)
    = zlen (enc_frame (frame_delta (jw_block w) (us f), BuildCANID (rx_Header f), rx_Data f))).
  { unfold frame_size, enc_frame. rewrite Hdelta, UvarintSize_length by apply delta_of_range.
    destruct (fr_data _ Hf) as [_ Hd]. pose proof (zlen_nonneg (rx_Data f)).
    destruct (Z.eqb_spec (zlen (rx_Data f)) 8); [autorewrite with zlen; lia|].
    rewrite UvarintSize_length by lia. autorewrite with zlen. lia. }
  unfold available, deviceTableSize, BlockTrailerLen in Hav.
  assert (0 <= blockStartDeviceTableSize (jw_block w)).
  { rewrite (dv_size _ Hdev). clear. induction (blockStartDevices (jw_block w)) as [|x l IH]; [done|].
    cbn [map sumZ foldr]. fold (sumZ (map device_size l)). assert (0 <= device_size x) by (unfold device_size; lia). lia. }
  pose proof (zlen_nonneg (blockDeviceChanges (jw_block w))). unfold DeviceEntryMaxSize in Hav.
  apply (store_frame_holds f _ w closed bl fs P); try done.
  - eapply writer_files; exact Hw.
  - exists pad. rewrite Hpad. unfold P. now rewrite <- !app_assoc.
  - unfold P. now rewrite Hfu, Hfs.
  - rewrite Hdelta. now apply raws_snoc.
  - now rewrite Hfu.
  - now rewrite Hfs.
  - lia.
Qed.

(** A file that must be opened has a name of its own. *)
Definition fresh_name (ts : time) (w : JournalWriter) : bool :=
  match file (jw_file w) with None => name_free ts (rotated (jw_file w)) | Some _ => true end.

(** Opening the file when there is none. *)
Lemma open_ok e f w closed bl fs :
  env_ok e -> writer_holds w closed bl fs -> room w = true -> fresh_name (rx_Timestamp f) w = true ->
  exists fl, (match file (jw_file w) with
              | None => openFile cfg e (rx_Timestamp f) (jw_file w) | Some _ => Ok (jw_file w) end) = Ok fl /\
    writer_holds (mkJournalWriter fl (jw_block w)) closed bl fs /\
    room (mkJournalWriter fl (jw_block w)) = true /\ is_Some (file fl).
Proof.
  intros (_ & _ & Hc) Hw Hroom Hfree. unfold fresh_name in Hfree. destruct (file (jw_file w)) as [c|] eqn:Hfile.
  { exists (jw_file w). destruct w. rewrite Hfile. eauto. }
  unfold openFile. rewrite Hc, os_Create_free by done. eexists. split; [reflexivity|].
  destruct Hw as [H1 [cs [Hcs Hf]] H3 H4 H5]. rewrite Hfile in Hf. subst cs. inversion Hcs; subst.
  split; [|split; [|eauto]].
  - constructor; [exact H1| |exact H3|exact H4|constructor].
    exists []. constructor; [constructor|]. cbn [jw_file file fileBytes blockOffsets].
    unfold chunks_bytes, file_header. cbn [map concat]. rewrite app_nil_r.
    split; [reflexivity|]. split; [reflexivity|]. cbn [infos map]. now destruct (comp =? CompressionNone).
  - unfold room in *. cbn [jw_file jw_block blockOffsets fileBytes]. to_props.
    rewrite !andb_true_iff. repeat split; apply Z.ltb_lt || apply Z.leb_le; try assumption; vm_compute; done.
Qed.

(** Flushing and rotating moves the block's frames to a file, current or
    rotated out, and loses none. *)
Lemma flush_rotate_ok e w closed bl fs :
  env_ok e -> writer_holds w closed bl fs -> room w = true -> is_Some (file (jw_file w)) ->
  exists w2 f3 closed' bl',
    flushBlock EncodeAll EncodeAllDict BuildZstdDict cfg e w = Ok w2 /\
    checkRotation cfg e (jw_file w2) = Ok f3 /\ files_hold f3 closed' bl' /\
    concat (concat closed' ++ bl') = concat (concat closed ++ bl) ++ fs.
Proof.
  intros He Hw Hroom Hfile.
  assert (Hfl : exists w2 bl2, flushBlock EncodeAll EncodeAllDict BuildZstdDict cfg e w = Ok w2 /\
    files_hold (jw_file w2) closed bl2 /\ concat bl2 = concat bl ++ fs /\ is_Some (file (jw_file w2)) /\
    zlen (blockOffsets (jw_file w2)) <= maxBlockIndexEntries /\
    fileBytes (jw_file w2) < 2 ^ 61 + 2 ^ 60).
  { pose proof Hroom as Hroom'. unfold room in Hroom'. to_props. destruct fs as [|f0 fs].
    - exists w, bl. destruct Hw as [H1' H2' [Hc _] H4' H5']. unfold flushBlock. rewrite Hc, zlen_nil, Z.eqb_refl.
      rewrite app_nil_r. repeat split; auto; lia.
    - destruct (flushBlock_ok e w closed bl (f0 :: fs) (proj1 He) Hw Hroom ltac:(done) Hfile)
        as (w2 & E & Hw2 & Hs & Ho & Hb). exists w2, (bl ++ [f0 :: fs]).
      split; [exact E|]. split; [eapply writer_files; exact Hw2|].
      split; [rewrite concat_app; cbn; now rewrite app_nil_r|]. split; [exact Hs|]. lia. }
  destruct Hfl as (w2 & bl2 & E & (Hcl & (cs & Hf) & Hs) & Hbl & (c & Hc) & Ho & Hb).
  destruct (checkRotation_ok e (jw_file w2) cs bl2 closed c Hcl Hf Hc Ho Hb) as (f3 & Er & [->|(Hf3 & Hcl3 & _)]).
  - exists w2, (jw_file w2), closed, bl2. split; [exact E|]. split; [exact Er|].
    split; [split; eauto|]. rewrite !concat_app, Hbl. now rewrite app_assoc.
  - exists w2, f3, (closed ++ [bl2]), []. split; [exact E|]. split; [exact Er|].
    split; [split; [exact Hcl3|split; [eauto|constructor]]|].
    rewrite !concat_app. cbn [concat]. rewrite !app_nil_r, <- app_assoc. now rewrite Hbl.
Qed.

Lemma appendFrame_ok e f w closed bl fs :
  env_ok e -> frame_ok f -> writer_holds w closed bl fs -> room w = true -> fresh_name (rx_Timestamp f) w = true ->
  exists w' closed' bl' fs', appendFrame EncodeAll EncodeAllDict BuildZstdDict cfg e f w = Ok w' /\
    writer_holds w' closed' bl' fs' /\ fs' <> [] /\
    concat (concat closed' ++ bl') ++ fs' = concat (concat closed ++ bl) ++ fs ++ [f].
Proof.
  intros He Hf Hw Hroom Hfree. destruct (open_ok e f w closed bl fs He Hw Hroom Hfree) as (fl & Eo & Hw1 & Hroom1 & Hfile).
  unfold appendFrame. rewrite Eo. cbn [mbind result_bind jw_block]. fold (us f).
  destruct (Z.ltb_spec (available cfg (jw_block w)) (frame_size (frame_delta (jw_block w) (us f)) (rx_Data f))).
  - destruct (flush_rotate_ok e _ closed bl fs He Hw1 Hroom1 Hfile) as (w2 & f3 & closed' & bl' & E1 & E2 & Hfh & Hcat).
    rewrite E1. cbn [mbind result_bind]. rewrite E2. cbn [mbind result_bind jw_block jw_file].
    change (bb_frameCount (initBlock cfg e (us f) (rx_Seq f)) =? 0) with true. cbv iota.
    destruct (append_fresh e f f3 closed' bl' He Hf Hfh) as (w' & E3 & Hw').
    exists w', closed', bl', [f]. split; [exact E3|]. split; [exact Hw'|]. split; [done|].
    rewrite Hcat. now rewrite <- !app_assoc.
  - cbn [mbind result_bind jw_block jw_file]. pose proof Hw1 as [_ _ (Hcnt & _) _ _]. cbn [jw_block] in Hcnt.
    rewrite Hcnt. destruct fs as [|f0 fs].
    + rewrite zlen_nil, Z.eqb_refl.
      assert (Hd : frame_delta (jw_block w) (us f) = 0) by (unfold frame_delta; now rewrite Hcnt). rewrite Hd.
      destruct (append_fresh e f fl closed bl He Hf (writer_files _ _ _ _ Hw1)) as (w' & E3 & Hw').
      exists w', closed, bl, [f]. eauto.
    + rewrite zlen_cons. pose proof (zlen_nonneg fs). rewrite (proj2 (Z.eqb_neq _ _)) by lia.
      destruct (append_fits f _ closed bl (f0 :: fs) Hf Hw1 ltac:(done) ltac:(cbn [jw_block]; lia)) as (w' & E3 & Hw').
      exists w', closed, bl, ((f0 :: fs) ++ [f]). split; [exact E3|]. split; [exact Hw'|].
      split; [done|]. now rewrite app_assoc.
Qed.

(** ** The run *)

Definition kept (input : list (Env * bool * RxFrame)) : list RxFrame :=
  omap (fun '(_, paused, f) => if paused : bool then None else Some f) input.

Definition input_ok (input : list (Env * bool * RxFrame)) : Prop :=
  Forall (fun '(e, _, f) => env_ok e /\ frame_ok f) input.

(** There is room before every append and at the end, and every file that is
    opened has a name of its own. *)
Fixpoint run_room (w : JournalWriter) (input : list (Env * bool * RxFrame)) : bool :=
  room w &&
  match input with
  | [] => true
  | (e, paused, f) :: input =>
      ((paused : bool) || fresh_name (rx_Timestamp f) w) &&
      match (if paused : bool then Ok w else appendFrame EncodeAll EncodeAllDict BuildZstdDict cfg e f w) with
      | Ok w => run_room w input
      | Err _ => true
      end
  end.

Lemma run_frames_ok input : forall w closed bl fs,
  input_ok input -> writer_holds w closed bl fs -> run_room w input = true ->
  exists w' closed' bl' fs', run_frames EncodeAll EncodeAllDict BuildZstdDict cfg w input = Ok w' /\
    writer_holds w' closed' bl' fs' /\ room w' = true /\
    concat (concat closed' ++ bl') ++ fs' = concat (concat closed ++ bl) ++ fs ++ kept input /\
    (fs' = [] -> fs = [] /\ kept input = []).
Proof.
  induction input as [|[[e paused] f] input IH]; intros w closed bl fs Hin Hw Hroom.
  - cbn in Hroom. rewrite andb_true_r in Hroom. exists w, closed, bl, fs.
    cbn [run_frames kept omap list_omap]. rewrite app_nil_r.
    split; [done|]. split; [exact Hw|]. split; [exact Hroom|]. split; [done|auto].
  - apply Forall_cons in Hin as [[He Hf] Hin']. cbn [run_room] in Hroom. apply andb_true_iff in Hroom as [Hr [Hfree Hroom]%andb_true_iff].
    cbn [run_frames]. destruct paused.
    + cbn [mbind result_bind]. exact (IH w closed bl fs Hin' Hw Hroom).
    + destruct (appendFrame_ok e f w closed bl fs He Hf Hw Hr Hfree) as (w1 & c1 & b1 & f1 & E & Hw1 & Hne1 & Hcat).
      rewrite E in *. cbn [mbind result_bind].
      destruct (IH w1 c1 b1 f1 Hin' Hw1 Hroom) as (w' & c' & b' & f' & E' & Hw' & Hr' & Hcat' & Hne').
      exists w', c', b', f'. split; [exact E'|]. split; [exact Hw'|]. split; [exact Hr'|].
      split; [rewrite Hcat', app_assoc, Hcat; unfold kept; cbn [omap list_omap]; now rewrite <- !app_assoc|].
      intros Hnil. now destruct (Hne' Hnil).
Qed.

(** ** The end of a run *)

Lemma finalize_open e w closed bl fs :
  env_ok e -> writer_holds w closed bl fs -> room w = true -> is_Some (file (jw_file w)) ->
  exists w' closed', finalize EncodeAll EncodeAllDict BuildZstdDict cfg e w = Ok w' /\
    file (jw_file w') = None /\ rotated_hold (jw_file w') closed' /\
    concat (concat closed') = concat (concat closed ++ bl) ++ fs.
Proof.
  intros He Hw Hroom Hfile. unfold finalize.
  assert (Hfl : exists w2 bl2, (if bb_frameCount (jw_block w) >? 0
      then flushBlock EncodeAll EncodeAllDict BuildZstdDict cfg e w else Ok w) = Ok w2 /\
    files_hold (jw_file w2) closed bl2 /\ concat bl2 = concat bl ++ fs /\ is_Some (file (jw_file w2)) /\
    zlen (blockOffsets (jw_file w2)) <= maxBlockIndexEntries /\ fileBytes (jw_file w2) < 2 ^ 61 + 2 ^ 60).
  { pose proof Hroom as Hroom'. unfold room in Hroom'. to_props. destruct fs as [|f0 fs].
    - exists w, bl. destruct Hw as [H1' H2' [Hc _] H4' H5']. rewrite Hc, zlen_nil, app_nil_r.
      cbn [Z.gtb Z.compare]. repeat split; auto; lia.
    - pose proof (frame_count_pos _ _ _ _ Hw ltac:(done)) as Hpos.
      rewrite Z.gtb_ltb, (proj2 (Z.ltb_lt _ _)) by lia.
      destruct (flushBlock_ok e w closed bl (f0 :: fs) (proj1 He) Hw Hroom ltac:(done) Hfile)
        as (w2 & E & Hw2 & Hs & Ho & Hb). exists w2, (bl ++ [f0 :: fs]).
      split; [exact E|]. split; [eapply writer_files; exact Hw2|].
      split; [rewrite concat_app; cbn; now rewrite app_nil_r|]. split; [exact Hs|]. lia. }
  destruct Hfl as (w2 & bl2 & -> & (Hcl & (cs & Hf) & _) & Hbl & (c & Hc) & Ho & Hb).
  cbn [mbind result_bind]. rewrite Hc.
  destruct (close_file_ok _ _ _ _ Hf Hc Ho Hb) as (f' & c' & -> & Hnone & Hrot & Hr).
  cbn [mbind result_bind]. eexists _, (closed ++ [bl2]). split; [reflexivity|]. split; [exact Hnone|].
  split; [eapply rotated_hold_snoc; [exact Hcl|exact Hrot|exact Hr]|].
  rewrite !concat_app. cbn [concat]. rewrite app_nil_r, Hbl. apply app_assoc.
Qed.

(** A block whose file was rotated away before it filled cannot be written. *)
Lemma finalize_closed e w closed bl fs :
  env_ok e -> writer_holds w closed bl fs -> room w = true -> fs <> [] -> file (jw_file w) = None ->
  finalize EncodeAll EncodeAllDict BuildZstdDict cfg e w = Err ErrNilFile.
Proof.
  intros He Hw Hroom Hne Hfile. pose proof (frame_count_pos _ _ _ _ Hw Hne) as Hpos.
  destruct (seal_current e w closed bl fs (proj1 He) Hw Hroom Hne) as (b & Hseal & _).
  unfold finalize. rewrite Z.gtb_ltb, (proj2 (Z.ltb_lt _ _)) by lia.
  unfold flushBlock. rewrite (proj2 (Z.eqb_neq _ _)) by lia. rewrite Hseal. cbn [mbind result_bind].
  unfold write_block, writeCompressedBlock, writeDictCompressedBlock, file_write, note_offset.
  destruct (comp =? CompressionZstd); [cbn [file]; now rewrite Hfile|].
  destruct (comp =? CompressionZstdDict); [|now rewrite Hfile].
  destruct (dict_encode _ _ _ _ _) as [d p]. cbn [file]. now rewrite Hfile.
Qed.

(** What a file says of the frames [fs]: header and bytes of each, in order; number
    and time too, when the numbers are consecutive and no time lies before the one
    before it. *)
Definition recorded (fs : list RxFrame) (es : list (Z * Entry)) : Prop :=
  map (fun x => (e_Header x.2, e_Data x.2)) es = map (fun f => (rx_Header f, rx_Data f)) fs /\
  (in_order fs -> es = map logged fs).

Lemma entries_payloads base seq0 fs : Forall frame_ok fs -> forall last lastTs idx,
  map (fun x => (e_Header x.2, e_Data x.2)) (entries_of base seq0 lastTs idx (raws_after last fs)) =
  map (fun f => (rx_Header f, rx_Data f)) fs.
Proof.
  induction 1 as [|f fs Hf _ IH]; intros last lastTs idx; [done|]. cbn [raws_after entries_of map e_Header e_Data fst snd].
  by rewrite (parse_built _ (fr_header _ Hf)), IH.
Qed.

Lemma recorded_view fs : Forall frame_ok fs -> recorded fs (view fs).
Proof.
  intros H. split; [|by apply view_exact]. destruct H as [|f fs Hf H]; [done|].
  unfold view. cbn [raws entries_of map e_Header e_Data fst snd]. by rewrite (parse_built _ (fr_header _ Hf)), entries_payloads.
Qed.

Lemma recorded_app fs gs es es' : recorded fs es -> recorded gs es' -> recorded (fs ++ gs) (es ++ es').
Proof.
  intros [H1 H2] [H3 H4]. split; [by rewrite !map_app, H1, H3|]. intros H%in_order_app. rewrite map_app. f_equal; tauto.
Qed.

Lemma recorded_views blocks : Forall frame_ok (concat blocks) -> recorded (concat blocks) (concat (map view blocks)).
Proof.
  induction blocks as [|fs blocks IH]; [done|]. cbn [concat map]. intros [H1 H2]%Forall_app.
  apply recorded_app; [by apply recorded_view|by apply IH].
Qed.

(** The files of a list read back, in order, as [ess]. *)
Definition files_read (files : list (time * list Z)) (ess : list (list (Z * Entry))) : Prop :=
  Forall2 (fun '(_, c) es => exists jr, NewReader c = Ok jr /\
    forall fuel, (length es < fuel)%nat -> read_all DecodeAll DecodeAllDict fuel jr = Some es) files ess.

Definition files_sound (files : list (time * list Z)) (ess : list (list (Z * Entry))) : Prop :=
  Forall2 (fun '(_, c) es => sound_file DecodeAll DecodeAllDict c es) files ess.

Lemma files_sound_read files ess : files_sound files ess -> files_read files ess.
Proof. intros H. eapply Forall2_impl; [exact H|]. intros [t c] es. apply sound_file_read. Qed.

Lemma rotated_sound f closed :
  rotated_hold f closed -> Forall frame_ok (concat (concat closed)) ->
  exists ess, files_sound (rotated f) ess /\ recorded (concat (concat closed)) (concat ess).
Proof.
  unfold rotated_hold, files_sound. intros H. induction H as [|[t c] bl files closed Hr _ IH].
  - intros _. exists []. split; [constructor|done].
  - cbn [concat]. rewrite concat_app. intros [Ho1 Ho2]%Forall_app.
    destruct (IH Ho2) as (ess & Hess & Hcat). exists (concat (map view bl) :: ess). split; [by constructor|].
    cbn [concat]. apply recorded_app; [by apply recorded_views|done].
Qed.

Lemma new_writer_holds w : NewJournalWriter cfg = Some (cfg, w) -> writer_holds w [] [] [].
Proof.
  unfold NewJournalWriter. destruct (validate (setDefaults cfg)); [|done]. intros H. injection H as E <-.
  constructor; try constructor; try done. exists []. constructor; [constructor|done].
Qed.

Lemma kept_ok input : input_ok input -> Forall frame_ok (kept input).
Proof.
  induction 1 as [|[[e paused] f] input [_ Hf] _ IH]; [constructor|].
  unfold kept. cbn. destruct paused; [exact IH|]. constructor; [exact Hf|exact IH].
Qed.

(** The run of a fresh writer: the files hold every frame handed over unpaused,
    in order, each exactly once, with its sequence number, its time to the
    microsecond, its header and its data; the one exception is a run whose last
    frames were appended after a rotation and never reached a file, which ends in
    an error. *)
Lemma journal_files_sound w input e :
  NewJournalWriter cfg = Some (cfg, w) -> input_ok input -> env_ok e ->
  run_room w input = true -> kept input <> [] ->
  exists w1, run_frames EncodeAll EncodeAllDict BuildZstdDict cfg w input = Ok w1 /\
    match file (jw_file w1) with
    | None => Run EncodeAll EncodeAllDict BuildZstdDict cfg e w input = Err ErrNilFile
    | Some _ => exists w' ess, Run EncodeAll EncodeAllDict BuildZstdDict cfg e w input = Ok w' /\
        file (jw_file w') = None /\ files_sound (rotated (jw_file w')) ess /\
        recorded (kept input) (concat ess)
    end.
Proof.
  intros Hnew Hin He Hroom Hne.
  destruct (run_frames_ok input w [] [] [] Hin (new_writer_holds w Hnew) Hroom)
    as (w1 & closed & bl & fs & E & Hw1 & Hr1 & Hcat & Hnil).
  cbn [concat app] in Hcat.
  exists w1. split; [exact E|]. unfold Run. rewrite E. cbn [mbind result_bind].
  destruct (file (jw_file w1)) as [c|] eqn:Hfile.
  - destruct (finalize_open e w1 closed bl fs He Hw1 Hr1 ltac:(now rewrite Hfile))
      as (w' & closed' & Ef & Hnone & Hrot & Hcat').
    rewrite Hcat in Hcat'. destruct (rotated_sound _ _ Hrot) as (ess & Hess & Hes);
      [rewrite Hcat'; now apply kept_ok|].
    exists w', ess. rewrite Hcat' in Hes. auto.
  - apply (finalize_closed e w1 closed bl fs He Hw1 Hr1); [|exact Hfile].
    intros Hfs. now destruct (Hnil Hfs).
Qed.

(** ** A crash *)

(** What a crash can leave after the current file's last complete block: part
    of the next block, which does not happen to end like a block index. *)
Definition crash_tail (c torn : list Z) : Prop :=
  if comp =? CompressionNone then zlen torn < bs
  else torn_tail DecodeAll DecodeAllDict comp torn /\
       exists e, readBlockIndex (c ++ torn) Version2 = Err e.

Lemma rotated_frames f closed bl c t :
  rotated_hold f closed -> reads_back c bl ->
  Forall frame_ok (concat (concat closed ++ bl)) ->
  exists ess, files_sound (rotated f ++ [(t, c)]) ess /\ recorded (concat (concat closed ++ bl)) (concat ess).
Proof.
  intros Hcl Hr Hok.
  pose (f' := mkFileState None 0 0 0 [] (rotated f ++ [(t, c)]) 0 0).
  destruct (rotated_sound f' (closed ++ [bl])) as (ess & H1 & H2).
  - eapply rotated_hold_snoc; [exact Hcl|reflexivity|exact Hr].
  - rewrite concat_app. cbn [concat]. now rewrite app_nil_r.
  - exists ess. split; [exact H1|]. rewrite concat_app in H2. cbn [concat] in H2. now rewrite app_nil_r in H2.
Qed.

Lemma journal_crash_sound w0 w input c torn :
  NewJournalWriter cfg = Some (cfg, w0) -> input_ok input -> run_room w0 input = true ->
  run_frames EncodeAll EncodeAllDict BuildZstdDict cfg w0 input = Ok w ->
  file (jw_file w) = Some c -> crash_tail c torn -> zlen torn < 2 ^ 31 ->
  exists ess, files_sound (rotated (jw_file w) ++ [(fileStart (jw_file w), c ++ torn)]) ess /\
    recorded (take (length (kept input) - Z.to_nat (bb_frameCount (jw_block w))) (kept input)) (concat ess).
Proof.
  intros Hnew Hin Hroom E Hfile Ht Hlen.
  destruct (run_frames_ok input w0 [] [] [] Hin (new_writer_holds w0 Hnew) Hroom)
    as (w1 & closed & bl & fs & E' & [Hcl [cs [Hcs Hf]] [Hcnt _] _ _] & Hr1 & Hcat & _).
  assert (w1 = w) as -> by congruence. cbn [concat app] in Hcat.
  rewrite Hfile in Hf. destruct Hf as (Hc & Hfb & Hoff).
  unfold room in Hr1. to_props.
  assert (Htake : take (length (kept input) - Z.to_nat (bb_frameCount (jw_block w))) (kept input)
                  = concat (concat closed ++ bl)).
  { rewrite Hcnt, <- Hcat. unfold zlen. rewrite Nat2Z.id, length_app.
    replace (length (concat (concat closed ++ bl)) + length fs - length fs)%nat
      with (length (concat (concat closed ++ bl))) by lia. apply take_app_length. }
  rewrite Htake. apply rotated_frames; [exact Hcl| |].
  - rewrite Hc, <- app_assoc. apply (tail_reads_back _ _ _ Hcs).
    + rewrite app_assoc, <- Hc, zlen_app. lia.
    + unfold file_tail, crash_tail in *. destruct (comp =? CompressionNone); [exact Ht|].
      right. now rewrite Hc, <- app_assoc in Ht.
  - rewrite <- Htake. apply Forall_take. now apply kept_ok.
Qed.

(** ** The device table of a block *)

Lemma sealed_table e w closed bl fs b n jr :
  registry_ok (env_devices e) -> writer_holds w closed bl fs -> room w = true -> fs <> [] ->
  seal_block cfg (table_of e (jw_block w)) (bb_frameCount (jw_block w)) (block (jw_block w)) = Ok b ->
  jr_version (jr_file jr) = Version2 -> jr_blockSize (jr_file jr) = bs -> blockBuf (jr_block jr) = b ->
  exists jr', parseLoadedBlock n jr = (jr', None) /\ at_cursor jr' (raws fs) /\
    forall idx, BlockDevicesAt idx jr' = Ok (resolve_devices idx (table_of e (jw_block w))).
Proof.
  intros Hr Hw Hroom Hne Hseal Hv Hbs Hb.
  destruct (seal_current e w closed bl fs Hr Hw Hroom Hne) as (b' & Hseal' & Hbok & Hbl & Htab & Hent & Hcount).
  assert (b' = b) as -> by congruence. cbv zeta in *.
  destruct (cfg_block_size _ Hcfg) as [[[Hb1 Hb2] _] _]. rewrite <- Hbs in Hbok.
  destruct (parseLoadedBlock_ok _ n jr Hv Hbok ltac:(lia) Hb)
    as (jr' & Hp & Hcur & _ & _ & _ & _ & Hbuf & Hoff).
  exists jr'. split; [exact Hp|]. split; [exact Hcur|]. intros idx.
  unfold BlockDevicesAt, table_entries. rewrite (ac_loaded _ _ Hcur), Hbuf, Hoff, Hbs. cbn [ab_buf].
  rewrite (readDeviceTable_enc _ _ _ Hent Hcount Htab). done.
Qed.

(** * Properties *)

(** C1: What the journal writer writes, the journal reader reads, as long as the
    writer is not asked for more than its format holds. Take a run of a fresh writer
    over frames with valid headers, bytes of data of at most 1785 and 64-bit numbers
    ([input_ok]), with any compression, rotation limits and device traffic, in a
    directory where files can be created. Suppose that before every append and at
    the end the block has room for its frames, its device table and its trailer, the
    table and the file are below the sizes the format can express ([room]; the code
    does not ensure it: a device claim that only just fits overwrites frames, see
    [claim_overwrites_frames]), and that every file opened has a name of its own
    ([fresh_name]; two rotations in the same millisecond overwrite each other's
    file, see [same_millisecond_overwrites]). Then no append fails. If a file is
    open at the end, [Run] ends without an error and the files it leaves read back
    as the frames handed over unpaused: header and bytes of each, in order and each
    once, and also the number and the microsecond of each when their numbers are
    consecutive and their times do not go back ([recorded]). If no file is open at
    the end, [Run] ends in the error of a write to a nil file. *)
Theorem journal_roundtrip w input e :
  NewJournalWriter cfg = Some (cfg, w) -> input_ok input -> env_ok e ->
  run_room w input = true -> kept input <> [] ->
  exists w1, run_frames EncodeAll EncodeAllDict BuildZstdDict cfg w input = Ok w1 /\
    match file (jw_file w1) with
    | None => Run EncodeAll EncodeAllDict BuildZstdDict cfg e w input = Err ErrNilFile
    | Some _ => exists w' ess, Run EncodeAll EncodeAllDict BuildZstdDict cfg e w input = Ok w' /\
        file (jw_file w') = None /\ files_read (rotated (jw_file w')) ess /\
        recorded (kept input) (concat ess)
    end.
Proof.
  intros Hnew Hin He Hroom Hne.
  destruct (journal_files_sound w input e Hnew Hin He Hroom Hne) as (w1 & E & H). exists w1. split; [exact E|].
  destruct (file (jw_file w1)); [|exact H]. destruct H as (w' & ess & Er & Hn & Hs & Hc). exists w', ess.
  auto using files_sound_read.
Qed.

(** C27: A crash loses at most the block in memory. Take a run as in
    [journal_roundtrip] - frames the format holds, room before every append, names
    of their own for its files, a directory where files can be created - that has a
    file open. Let the crash leave, after the complete blocks of that file, part of
    the next block which does not happen to end like a block index ([crash_tail])
    and is shorter than 2^31 bytes. Then the rotated files and the current one read
    back as all the frames appended but those of the unflushed block: header and
    bytes of each, in order, and number and microsecond as well where the numbers
    are consecutive and the times do not go back. *)
Theorem journal_crash w0 w input c torn :
  NewJournalWriter cfg = Some (cfg, w0) -> input_ok input -> run_room w0 input = true ->
  run_frames EncodeAll EncodeAllDict BuildZstdDict cfg w0 input = Ok w ->
  file (jw_file w) = Some c -> crash_tail c torn -> zlen torn < 2 ^ 31 ->
  exists ess, files_read (rotated (jw_file w) ++ [(fileStart (jw_file w), c ++ torn)]) ess /\
    recorded (take (length (kept input) - Z.to_nat (bb_frameCount (jw_block w))) (kept input)) (concat ess).
Proof.
  intros Hnew Hin Hroom E Hf Ht Hl.
  destruct (journal_crash_sound w0 w input c torn Hnew Hin Hroom E Hf Ht Hl) as (ess & Hs & Hc).
  exists ess. auto using files_sound_read.
Qed.

(** The device table survives.  The block a run has in memory, once sealed,
    loads with its checksum accepted, and [BlockDevicesAt] gives at every frame
    the devices of the table the writer meant: per source the claim with the
    largest frame index not after the frame, the sources in order, each once. *)
Theorem block_devices w0 w input e b n jr :
  NewJournalWriter cfg = Some (cfg, w0) -> input_ok input -> run_room w0 input = true -> env_ok e ->
  run_frames EncodeAll EncodeAllDict BuildZstdDict cfg w0 input = Ok w -> kept input <> [] ->
  seal_block cfg (table_of e (jw_block w)) (bb_frameCount (jw_block w)) (block (jw_block w)) = Ok b ->
  jr_version (jr_file jr) = Version2 -> jr_blockSize (jr_file jr) = bs -> blockBuf (jr_block jr) = b ->
  exists jr', parseLoadedBlock n jr = (jr', None) /\
    forall idx, exists ds, BlockDevicesAt idx jr' = Ok ds /\
      StronglySorted by_source ds /\ NoDup (map jd_Source ds) /\
      forall d, d ∈ ds <-> exists t, active_at idx (table_of e (jw_block w)) t /\ d = toDevice t.
Proof.
  intros Hnew Hin Hroom He E Hne Hseal Hv Hbs Hb.
  destruct (run_frames_ok input w0 [] [] [] Hin (new_writer_holds w0 Hnew) Hroom)
    as (w1 & closed & bl & fs & E' & Hw & Hr1 & _ & Hnil).
  assert (w1 = w) as -> by congruence.
  destruct (sealed_table e w closed bl fs b n jr (proj1 He) Hw Hr1 ltac:(intros Hf; now destruct (Hnil Hf))
    Hseal Hv Hbs Hb) as (jr' & Hp & _ & Hd).
  exists jr'. split; [exact Hp|]. intros idx. eexists. split; [apply Hd|]. apply resolve_devices_spec.
Qed.

End invariant.

(** * Concrete runs *)

Fixpoint in_orderb (fs : list RxFrame) : bool :=
  match fs with
  | f :: (g :: _) as rest => (us f <=? us g) && (rx_Seq g =? rx_Seq f + 1) && in_orderb rest
  | _ => true
  end.

Lemma in_orderb_sound fs : in_orderb fs = true -> in_order fs.
Proof.
  induction fs as [|f [|g fs] IH]; [done|done|]. intros H. cbn [in_orderb] in H. to_props.
  split; [done|]. split; [done|]. now apply IH.
Qed.

Definition frame_okb (f : RxFrame) : bool :=
  let h := rx_Header f in
  (0 <=? Priority h) && (Priority h <? 2 ^ 3) && (0 <=? PGN h) && (PGN h <? 2 ^ 17) &&
  (0 <=? Source h) && (Source h <? 2 ^ 8) && (0 <=? Destination h) && (Destination h <? 2 ^ 8) &&
  (if 240 <=? (PGN h / 2 ^ 8) mod 2 ^ 8 then Destination h =? 0xFF else PGN h mod 2 ^ 8 =? 0) &&
  forallb (fun b => (0 <=? b) && (b <? 256)) (rx_Data f) && (zlen (rx_Data f) <=? 1785) &&
  (0 <=? rx_Seq f) && (rx_Seq f <? 2 ^ 64).

Lemma frame_okb_sound f : frame_okb f = true -> frame_ok f.
Proof.
  unfold frame_okb. intros H. to_props. constructor.
  - unfold header_valid. split_ranges; try lia. destruct (240 <=? _); to_props; assumption.
  - split; [now apply bytes_ok_dec|assumption].
  - lia.
Qed.

(** A codec that is not the identity, standing for zstd. *)
Definition tag_encode (x : list Z) : list Z := 1 :: x.
Definition tag_decode (x : list Z) : option (list Z) := match x with 1 :: y => Some y | _ => None end.
Definition tag_dict (_ : list Z) : option (list Z -> list Z) := Some (fun x => 2 :: x).
Definition tag_undict (_ x : list Z) : option (list Z) := match x with 2 :: y => Some y | _ => None end.
Definition tag_build (_ : list (list Z)) : option (list Z) := Some [7; 7].

Lemma tag_law : zstd_law tag_encode tag_dict tag_build tag_decode tag_undict.
Proof.
  constructor.
  - intros x Hx. split; [done|]. unfold tag_encode. rewrite zlen_cons. pose proof (zlen_nonneg x). lia.
  - intros d enc x [= <-] Hd Hx. split; [done|]. rewrite zlen_cons. pose proof (zlen_nonneg x). lia.
  - intros s d [= <-]. change (zlen [7; 7]) with 2. lia.
Qed.

Definition demo_cfg : JournalConfig := mkJournalConfig 4096 CompressionZstdDict 0 0 100.

Lemma demo_cfg_ok : cfg_ok demo_cfg.
Proof. split; [reflexivity|]. split; [cbn; lia|]. now right; right. Qed.

Definition demo_env : Env := mkEnv 0 demo_registry (any_order demo_registry) true.

Lemma demo_env_ok : env_ok demo_env.
Proof.
  split; [exact demo_registry_ok|]. split; [|done].
  assert (H : forallb (fun '(k, _) => (0 <=? k.2) && (k.2 <? 2 ^ 8)) (map_to_list demo_registry) = true)
    by (vm_compute; reflexivity).
  rewrite forallb_forall in H. intros k d Hk. apply elem_of_map_to_list, list_elem_of_In in Hk.
  specialize (H _ Hk). cbv beta iota in H. to_props. lia.
Qed.

(** Position reports, an address claim and a fast-packet message, three
    milliseconds apart; every seventh arrives while the writer is paused. *)
Definition demo_frame (i : nat) : RxFrame :=
  let ts := time_UnixMicro (1700000000000000 + 3000 * Z.of_nat i) in
  if (i =? 20)%nat then mkRxFrame ts (mkCANHeader 6 60928 2 255) (le64 demo_name) "can0" (100 + Z.of_nat i)
  else if (i =? 30)%nat then mkRxFrame ts (mkCANHeader 3 129029 2 255) (replicate 43 9) "can0" (100 + Z.of_nat i)
  else mkRxFrame ts (mkCANHeader 2 129025 2 255) (replicate 8 (Z.of_nat i mod 256)) "can0" (100 + Z.of_nat i).

Definition demo_input : list (Env * bool * RxFrame) :=
  map (fun i => (demo_env, (400 <=? i)%nat, demo_frame i)) (seq 0 410).

Lemma demo_input_ok : input_ok demo_input.
Proof.
  unfold input_ok, demo_input. apply Forall_map, Forall_forall. intros i Hi.
  split; [exact demo_env_ok|]. apply frame_okb_sound.
  assert (H : forallb (fun i => frame_okb (demo_frame i)) (seq 0 410) = true) by (vm_compute; reflexivity).
  rewrite forallb_forall in H. apply H. now apply list_elem_of_In.
Qed.

Definition demo_writer : JournalWriter := Eval vm_compute in
  match NewJournalWriter demo_cfg with Some (_, w) => w | None => mkJournalWriter (mkFileState None 0 0 0 [] [] 0 0)
    (mkBlockBuf [] 0 0 0 0 0 [] 0 []) end.

Definition demo_after : result jerror JournalWriter := Eval vm_compute in
  run_frames tag_encode tag_dict tag_build demo_cfg demo_writer demo_input.

Lemma demo_new : NewJournalWriter demo_cfg = Some (demo_cfg, demo_writer).
Proof. vm_compute. reflexivity. Qed.

Lemma demo_runs : run_frames tag_encode tag_dict tag_build demo_cfg demo_writer demo_input = demo_after.
Proof. vm_compute. reflexivity. Qed.

Lemma demo_room : run_room tag_encode tag_dict tag_build demo_cfg demo_writer demo_input = true.
Proof. vm_compute. reflexivity. Qed.

Lemma demo_in_order : in_order (kept demo_input).
Proof. apply in_orderb_sound. vm_compute. reflexivity. Qed.

Lemma demo_kept : kept demo_input <> [].
Proof. discriminate. Qed.

(** Two rotations, three files, all 400 unpaused frames read back. *)
Lemma journal_roundtrip_witness :
  exists w1, run_frames tag_encode tag_dict tag_build demo_cfg demo_writer demo_input = Ok w1 /\
    match file (jw_file w1) with
    | None => Run tag_encode tag_dict tag_build demo_cfg demo_env demo_writer demo_input = Err ErrNilFile
    | Some _ => exists w' ess, Run tag_encode tag_dict tag_build demo_cfg demo_env demo_writer demo_input = Ok w' /\
        file (jw_file w') = None /\ files_read tag_decode tag_undict (rotated (jw_file w')) ess /\
        recorded (kept demo_input) (concat ess)
    end.
Proof.
  exact (journal_roundtrip tag_encode tag_dict tag_build tag_decode tag_undict tag_law demo_cfg demo_cfg_ok
    demo_writer demo_input demo_env demo_new demo_input_ok demo_env_ok demo_room demo_kept).
Defined.

Definition demo_w : JournalWriter := Eval vm_compute in
  match demo_after with Ok w => w | Err _ => demo_writer end.
Definition demo_file : list Z := Eval vm_compute in
  match file (jw_file demo_w) with Some c => c | None => [] end.

Lemma demo_run_frames : run_frames tag_encode tag_dict tag_build demo_cfg demo_writer demo_input = Ok demo_w.
Proof. rewrite demo_runs. reflexivity. Qed.

Lemma demo_has_file : file (jw_file demo_w) = Some demo_file.
Proof. reflexivity. Qed.

(** The first twenty bytes of another block. *)
Definition demo_torn : list Z := le64 5 ++ le64 6 ++ le32 0.

Lemma demo_crash_tail : crash_tail tag_decode tag_undict demo_cfg demo_file demo_torn.
Proof.
  split; [|exists ErrIndex; vm_compute; reflexivity]. right.
  exists (mkABlock [8; 8] 5 6 [] [], (le64 5 ++ le64 6) ++ le32 0 ++ le32 3 ++ [] ++ [1; 8; 8]), (le32 3 ++ [1; 8; 8]).
  split; [split; [|cbn; lia]|split; [reflexivity|discriminate]].
  apply (chunk_dict tag_decode tag_undict CompressionZstdDict (mkABlock [8; 8] 5 6 [] []) [] [1; 8; 8]);
    reflexivity.
Qed.

Lemma journal_crash_witness :
  exists ess, files_read tag_decode tag_undict
      (rotated (jw_file demo_w) ++ [(fileStart (jw_file demo_w), demo_file ++ demo_torn)]) ess /\
    recorded (take (length (kept demo_input) - Z.to_nat (bb_frameCount (jw_block demo_w))) (kept demo_input)) (concat ess).
Proof.
  exact (journal_crash tag_encode tag_dict tag_build tag_decode tag_undict tag_law demo_cfg demo_cfg_ok
    demo_writer demo_w demo_input demo_file demo_torn demo_new demo_input_ok demo_room
    demo_run_frames demo_has_file demo_crash_tail ltac:(vm_compute; reflexivity)).
Defined.

Definition demo_sealed : list Z := Eval vm_compute in
  match seal_block demo_cfg (table_of demo_env (jw_block demo_w)) (bb_frameCount (jw_block demo_w))
          (block (jw_block demo_w)) with Ok b => b | Err _ => [] end.
Definition demo_reader : Reader :=
  mkReader (mkOpenJournal [] 4096 CompressionZstdDict Version2 []) (-1)
    (mkBlockState demo_sealed false 0 0 0 0 0 0 0) None None.

Lemma demo_seal : seal_block demo_cfg (table_of demo_env (jw_block demo_w)) (bb_frameCount (jw_block demo_w))
  (block (jw_block demo_w)) = Ok demo_sealed.
Proof. vm_compute. reflexivity. Qed.

Lemma block_devices_witness :
  exists jr', parseLoadedBlock 0 demo_reader = (jr', None) /\
    forall idx, exists ds, BlockDevicesAt idx jr' = Ok ds /\
      StronglySorted by_source ds /\ NoDup (map jd_Source ds) /\
      forall d, d ∈ ds <-> exists t, active_at idx (table_of demo_env (jw_block demo_w)) t /\ d = toDevice t.
Proof.
  exact (block_devices tag_encode tag_dict tag_build tag_decode tag_undict tag_law demo_cfg demo_cfg_ok
    demo_writer demo_w demo_input demo_env demo_sealed 0 demo_reader demo_new demo_input_ok demo_room
    demo_env_ok demo_run_frames demo_kept demo_seal eq_refl eq_refl eq_refl).
Defined.

(** * Where the reservation does not hold

    An address claim stored into a block adds a table entry of up to
    [DeviceEntryMaxSize] bytes that the fit check of the same append did not
    count, so a claim that just fits makes the sealed table overwrite the end
    of the frames. *)
Definition tight_input : list (Env * bool * RxFrame) :=
  map (fun i => (demo_env, false, demo_frame (100 + i)%nat)) (seq 0 285) ++
  [(demo_env, false, mkRxFrame (time_UnixMicro 1700000002000000) (mkCANHeader 6 60928 2 255)
      (le64 demo_name) "can0" 449)].

Definition plain_cfg : JournalConfig := mkJournalConfig 4096 CompressionNone 0 0 0.

(** The claim is accepted and the run ends without an error. *)
Definition tight_files : list (list Z) :=
  match NewJournalWriter plain_cfg with
  | Some (_, w) => match Run tag_encode tag_dict tag_build plain_cfg demo_env w tight_input with
              | Ok w => map snd (rotated (jw_file w)) | Err _ => [] end
  | None => []
  end.

Lemma claim_overwrites_frames :
  length (kept tight_input) = 286%nat /\
  map (fun f => match NewReader f with
                | Ok jr => length <$> read_all tag_decode tag_undict 1000 jr
                | Err _ => None end) tight_files = [Some 284%nat].
Proof. vm_compute. split; reflexivity. Qed.

(** A run that ends on a block begun after a rotation loses it. *)
Lemma rotated_block_lost :
  let input := take 274 demo_input in
  Run tag_encode tag_dict tag_build demo_cfg demo_env demo_writer input = Err ErrNilFile.
Proof. vm_compute. reflexivity. Qed.

(** * Where two files have one name

    Names go to the millisecond: when the writer rotates and the next file starts
    in the same millisecond, [os.Create] empties the file just closed. *)
Definition burst_input : list (Env * bool * RxFrame) :=
  map (fun i => (demo_env, false, mkRxFrame (time_UnixMicro (1700000000000000 + Z.of_nat i))
                   (mkCANHeader 2 127250 2 255) (replicate 8 7) "can0" (Z.of_nat i + 1))) (seq 0 700).

Definition burst_cfg : JournalConfig := mkJournalConfig 4096 CompressionNone 0 0 1.

Definition burst_files : list (list Z) :=
  match NewJournalWriter burst_cfg with
  | Some (_, w) => match Run tag_encode tag_dict tag_build burst_cfg demo_env w burst_input with
              | Ok w => map snd (rotated (jw_file w)) | Err _ => [] end
  | None => []
  end.

Lemma same_millisecond_overwrites :
  length (kept burst_input) = 700%nat /\
  map (fun f => match NewReader f with
                | Ok jr => length <$> read_all tag_decode tag_undict 1000 jr
                | Err _ => None end) burst_files = [Some 84%nat].
Proof. vm_compute. split; reflexivity. Qed.
