(* ===== verification/BlockWriter.v ===== *)
(** Appending pre-encoded blocks: [block_writer.go].

    The replication server writes the blocks it receives for backfill as they
    are, in files named by the millisecond of their start; the theorem says the files it
    closes read back, through the reader of [JournalReader], as exactly those blocks,
    when each has a name of its own. *)

From S2P Require Import Prelude CanId JournalFormat JournalReader.

(** * State *)

Record BlockWriterConfig := mkBWConfig {
  bwc_BlockSize : Z;
  bwc_Compression : Z;
  bwc_RotateDuration : duration;
  bwc_RotateSize : Z
}.

Record BlockWriter := mkBlockWriter {
  bw_file : option (list Z);
  bw_fileStart : time;
  bw_fileBytes : Z;
  bw_fileBlocks : Z;
  bw_blockOffsets : list Z;
  bw_rotated : list (time * list Z)
}.

(** What a call sees of the world: the wall clock and whether a file can be
    created. *)
Record BWEnv := mkBWEnv { bwe_now : time; bwe_create_ok : bool }.

Definition bw_setDefaults (c : BlockWriterConfig) : BlockWriterConfig :=
  mkBWConfig (if bwc_BlockSize c =? 0 then 262144 else bwc_BlockSize c) (bwc_Compression c)
    (bwc_RotateDuration c) (bwc_RotateSize c).

(** The configuration in effect and the writer. *)
Definition NewBlockWriter (cfg : BlockWriterConfig) : option (BlockWriterConfig * BlockWriter) :=
  let cfg := bw_setDefaults cfg in
  if (bwc_BlockSize cfg <? 4096) || negb (Z.land (bwc_BlockSize cfg) (bwc_BlockSize cfg - 1) =? 0)
  then None else Some (cfg, mkBlockWriter None 0 0 0 [] []).

(** * Operations *)

Definition bw_write (bs : list Z) (w : BlockWriter) : result jerror BlockWriter :=
  match bw_file w with
  | None => Err ErrNilFile
  | Some c => Ok (mkBlockWriter (Some (c ++ bs)) (bw_fileStart w) (bw_fileBytes w + zlen bs)
                    (bw_fileBlocks w) (bw_blockOffsets w) (bw_rotated w))
  end.

Definition bw_writeBlockIndex (w : BlockWriter) : result jerror BlockWriter :=
  match bw_blockOffsets w with
  | [] => Ok w
  | offs =>
      match bw_file w with
      | None => Err ErrNilFile
      | Some c => Ok (mkBlockWriter (Some (c ++ index_bytes offs)) (bw_fileStart w) (bw_fileBytes w)
                        (bw_fileBlocks w) offs (bw_rotated w))
      end
  end.

(** The tail [rotateFile] and [Close] share: index, sync, close, [OnRotate],
    reset. *)
Definition rotateFile (cfg : BlockWriterConfig) (w : BlockWriter) : result jerror BlockWriter :=
  w ← (if negb (bwc_Compression cfg =? CompressionNone) && (0 <? zlen (bw_blockOffsets w))
       then bw_writeBlockIndex w else Ok w);
  match bw_file w with
  | None => Err ErrNilFile
  | Some c => Ok (mkBlockWriter None (bw_fileStart w) 0 0 [] (bw_rotated w ++ [(bw_fileStart w, c)]))
  end.

Definition bw_checkRotation (cfg : BlockWriterConfig) (e : BWEnv) (w : BlockWriter)
    : result jerror BlockWriter :=
  if ((bwc_RotateDuration cfg >? 0) &&
      (time_Sub (bwe_now e) (bw_fileStart w) >=? bwc_RotateDuration cfg)) ||
     ((bwc_RotateSize cfg >? 0) && (bw_fileBytes w >=? bwc_RotateSize cfg))
  then rotateFile cfg w else Ok w.

Definition Close (cfg : BlockWriterConfig) (w : BlockWriter) : result jerror BlockWriter :=
  match bw_file w with None => Ok w | Some _ => rotateFile cfg w end.

Definition bw_openFile (cfg : BlockWriterConfig) (e : BWEnv) (ts : time) (w : BlockWriter)
    : result jerror BlockWriter :=
  if bwe_create_ok e then
    Ok (mkBlockWriter
          (Some (Magic ++ [Version2] ++ le32 (bwc_BlockSize cfg) ++ le32 (bwc_Compression cfg) ++ [0; 0; 0; 0]))
          ts FileHeaderSize 0 [] (os_Create ts (bw_rotated w)))
  else Err ErrRead.

Definition count_blocks (w : BlockWriter) : BlockWriter :=
  mkBlockWriter (bw_file w) (bw_fileStart w) (bw_fileBytes w) (bw_fileBlocks w + 1)
    (bw_blockOffsets w) (bw_rotated w).

Definition bw_writeUncompressedBlock (cfg : BlockWriterConfig) (e : BWEnv) (data : list Z) (w : BlockWriter)
    : result jerror BlockWriter :=
  let bs := bwc_BlockSize cfg in
  if negb (zlen data =? bs) then Err ErrBlockSize
  else if negb (uint data (bs - 4) 4 =? Checksum (sub data 0 (bs - 4))) then Err ErrChecksum
  else w ← bw_write data w; bw_checkRotation cfg e (count_blocks w).

Definition bw_writeCompressedBlock (cfg : BlockWriterConfig) (e : BWEnv) (seq base : Z) (data : list Z)
    (w : BlockWriter) : result jerror BlockWriter :=
  let w := mkBlockWriter (bw_file w) (bw_fileStart w) (bw_fileBytes w) (bw_fileBlocks w)
             (bw_blockOffsets w ++ [bw_fileBytes w]) (bw_rotated w) in
  w ← bw_write (le64 base ++ le64 seq ++ le32 (zlen data)) w;
  w ← bw_write data w;
  bw_checkRotation cfg e (count_blocks w).

Definition AppendBlock (cfg : BlockWriterConfig) (e : BWEnv) (seq base : Z) (data : list Z)
    (compressed : bool) (w : BlockWriter) : result jerror BlockWriter :=
  w ← (match bw_file w with
       | None => bw_openFile cfg e (time_UnixMicro base) w | Some _ => Ok w end);
  if compressed then bw_writeCompressedBlock cfg e seq base data w
  else bw_writeUncompressedBlock cfg e data w.

(** A received block and the world it is handled in. *)
Record BlockIn := mkBlockIn {
  bi_env : BWEnv;
  bi_seq : Z;
  bi_base : Z;
  bi_data : list Z
}.

(** A session: every block in turn, then [Close]. *)
Fixpoint append_blocks (cfg : BlockWriterConfig) (compressed : bool) (bs : list BlockIn) (w : BlockWriter)
    : result jerror BlockWriter :=
  match bs with
  | [] => Ok w
  | b :: bs =>
      w ← AppendBlock cfg (bi_env b) (bi_seq b) (bi_base b) (bi_data b) compressed w;
      append_blocks cfg compressed bs w
  end.

Definition write_session (cfg : BlockWriterConfig) (compressed : bool) (bs : list BlockIn) (w : BlockWriter)
    : result jerror BlockWriter :=
  w ← append_blocks cfg compressed bs w; Close cfg w.

(** * The invariant *)

Section session.
  Context (DecodeAll : list Z -> option (list Z)) (DecodeAllDict : list Z -> list Z -> option (list Z)).
  Context (cfg : BlockWriterConfig) (compressed : bool).
  Abbreviation bs := (bwc_BlockSize cfg).
  Abbreviation comp := (bwc_Compression cfg).
  Context (Hbs : block_size_ok bs).
  (** The server sets the compression from the blocks it receives: plain
      blocks in plain files, zstd blocks in zstd files. *)
  Context (Hcomp : comp = if compressed then CompressionZstd else CompressionNone).

(** The received bytes are those of a well-formed block [a]. *)
Definition carries (b : BlockIn) (a : ABlock) : Prop :=
  block_ok bs a /\ bi_base b = ab_base a /\ bi_seq b = ab_seq a /\
  - 2 ^ 63 <= ab_base a < 2 ^ 63 /\ 0 <= ab_seq a < 2 ^ 64 /\ bwe_create_ok (bi_env b) = true /\
  if compressed then DecodeAll (bi_data b) = Some (ab_buf a) /\ 0 < zlen (bi_data b) < 2 ^ 30
  else bi_data b = ab_buf a.

Definition good_chunk (ch : Chunk) : Prop :=
  stored_chunk DecodeAll DecodeAllDict comp ch /\ block_ok bs ch.1.

Definition closed_reads (c : list Z) (blocks : list ABlock) : Prop :=
  exists jr, NewReader c = Ok jr /\
    forall fuel, (frames_in blocks < fuel)%nat ->
      read_all DecodeAll DecodeAllDict fuel jr = Some (concat (map block_entries blocks)).

Record bw_holds (w : BlockWriter) (closed : list (list ABlock)) (cs : list Chunk) : Prop := {
  bh_closed : Forall2 (fun '(_, c) blocks => closed_reads c blocks) (bw_rotated w) closed;
  bh_chunks : Forall good_chunk cs;
  bh_file : match bw_file w with
            | Some c => c = jheader bs comp ++ chunks_bytes cs /\ bw_fileBytes w = zlen c /\
                        bw_blockOffsets w = (if comp =? CompressionNone then []
                                             else map bi_Offset (infos comp 16 cs))
            | None => cs = []
            end
}.

(** The limits of the format on one file. *)
Definition bw_room (w : BlockWriter) : bool :=
  (zlen (bw_blockOffsets w) <? maxBlockIndexEntries) && (bw_fileBytes w <? 2 ^ 61).

Lemma comp_ok : compression_ok comp.
Proof. rewrite Hcomp. destruct compressed; [right; left|left]; done. Qed.

Lemma rotateFile_ok w closed cs c :
  bw_holds w closed cs -> bw_file w = Some c ->
  zlen (bw_blockOffsets w) <= maxBlockIndexEntries -> bw_fileBytes w < 2 ^ 61 + 2 ^ 60 ->
  exists w', rotateFile cfg w = Ok w' /\ bw_holds w' (closed ++ [map fst cs]) [] /\ bw_file w' = None.
Proof.
  intros [Hcl Hcs Hf] Hfile Hmax Hsz. rewrite Hfile in Hf. destruct Hf as (Hc & Hfb & Hoff).
  pose proof comp_ok as Hco.
  assert (Hread : forall tail, file_tail DecodeAll DecodeAllDict bs comp cs tail -> zlen tail < 2 ^ 60 ->
    closed_reads (c ++ tail) (map fst cs)).
  { intros tail Ht Hl. apply Forall_and in Hcs as [Hst Hok].
    assert (Hlen : zlen (journal_bytes bs comp cs tail) < 2 ^ 62)
      by (unfold journal_bytes; rewrite app_assoc, <- Hc, zlen_app; lia).
    assert (E : c ++ tail = journal_bytes bs comp cs tail) by (rewrite Hc, <- app_assoc; done).
    destruct (journal_read DecodeAll DecodeAllDict bs comp Hbs Hco cs tail (S (frames_in (map fst cs)))
      Hst Hok Ht Hlen ltac:(lia)) as (jr & Hjr & _).
    exists jr. rewrite E. split; [exact Hjr|]. intros fuel Hfuel.
    destruct (journal_read DecodeAll DecodeAllDict bs comp Hbs Hco cs tail fuel
      Hst Hok Ht Hlen Hfuel) as (jr' & Hjr' & Hr).
    assert (jr' = jr) as -> by congruence. rewrite Hr, map_map. done. }
  assert (Hdone : forall tail, closed_reads (c ++ tail) (map fst cs) ->
    bw_holds (mkBlockWriter None (bw_fileStart w) 0 0 [] (bw_rotated w ++ [(bw_fileStart w, c ++ tail)]))
      (closed ++ [map fst cs]) []).
  { intros tail Hr. constructor; [|constructor|done]. apply Forall2_app; [exact Hcl|]. by repeat constructor. }
  assert (Hlen : comp <> CompressionNone -> zlen (bw_blockOffsets w) = zlen cs).
  { intros Hne. rewrite Hoff, (proj2 (Z.eqb_neq _ _) Hne). unfold zlen. now rewrite length_map, length_infos. }
  unfold rotateFile. destruct (negb (comp =? CompressionNone) && (0 <? zlen (bw_blockOffsets w))) eqn:E.
  - apply andb_true_iff in E as [Hn Hpos]. apply negb_true_iff, Z.eqb_neq in Hn. apply Z.ltb_lt in Hpos.
    specialize (Hlen Hn). unfold bw_writeBlockIndex.
    destruct (bw_blockOffsets w) as [|o offs] eqn:Eo; [vm_compute in Hpos; discriminate|].
    rewrite <- Eo in *.
    rewrite Hfile. cbn [mbind result_bind bw_file bw_rotated bw_fileStart].
    eexists. split; [reflexivity|]. split; [|done]. apply Hdone, Hread.
    + unfold file_tail. rewrite (proj2 (Z.eqb_neq _ _) Hn). left. rewrite Hoff, (proj2 (Z.eqb_neq _ _) Hn).
      split; [intros ->; rewrite zlen_nil in Hlen; lia|]. split; [lia|done].
    + unfold index_bytes. autorewrite with zlen. change (zlen BlockIndexMagic) with 4.
      assert (L : forall l, zlen (concat (map le64 l)) = 8 * zlen l).
      { induction l as [|x l IH]; [done|]. cbn [map concat]. autorewrite with zlen. lia. }
      rewrite L. change maxBlockIndexEntries with 262144 in Hmax. lia.
  - cbn [mbind result_bind]. rewrite Hfile. eexists. split; [reflexivity|]. split; [|done].
    specialize (Hdone []). rewrite app_nil_r in Hdone. apply Hdone. specialize (Hread []).
    rewrite app_nil_r in Hread. apply Hread; [|rewrite zlen_nil; lia].
    unfold file_tail. destruct (Z.eqb_spec comp CompressionNone) as [|Hn].
    + rewrite zlen_nil. unfold block_size_ok in Hbs. lia.
    + cbn [negb andb] in E. apply Z.ltb_ge in E. rewrite (Hlen Hn) in E. pose proof (zlen_nonneg cs).
      assert (cs = []) as -> by (destruct cs; [done|rewrite zlen_cons in E; pose proof (zlen_nonneg cs); lia]).
      right. split; [now left|]. exists ErrIndex. reflexivity.
Qed.

(** A block written to the open file, before rotation is considered. *)
Lemma written_holds w w' closed cs c a bytes :
  bw_holds w closed cs -> bw_file w = Some c -> good_chunk (a, bytes) ->
  bw_file w' = Some (c ++ bytes) -> bw_fileBytes w' = bw_fileBytes w + zlen bytes ->
  bw_blockOffsets w' = (if comp =? CompressionNone then bw_blockOffsets w
                        else bw_blockOffsets w ++ [bw_fileBytes w]) ->
  bw_rotated w' = bw_rotated w -> bw_holds w' closed (cs ++ [(a, bytes)]).
Proof.
  intros [Hcl Hcs Hf] Hfile Hch Hf' Hb Ho Hr. rewrite Hfile in Hf. destruct Hf as (Hc & Hfb & Hoff).
  constructor; [now rewrite Hr|apply Forall_app; split; [exact Hcs|]; constructor; [exact Hch|constructor]|].
  rewrite Hf'. split; [|split].
  - rewrite Hc. unfold chunks_bytes. rewrite map_app, concat_app. cbn [map concat snd].
    rewrite app_nil_r. symmetry. apply app_assoc.
  - rewrite zlen_app. lia.
  - rewrite Ho. destruct (comp =? CompressionNone) eqn:E; [done|].
    rewrite infos_snoc, Hoff, Hfb, Hc. now rewrite zlen_app, zlen_jheader.
Qed.

Lemma rotation_holds e w closed cs c :
  bw_holds w closed cs -> bw_file w = Some c ->
  zlen (bw_blockOffsets w) <= maxBlockIndexEntries -> bw_fileBytes w < 2 ^ 61 + 2 ^ 60 ->
  exists w' closed' cs', bw_checkRotation cfg e w = Ok w' /\ bw_holds w' closed' cs' /\
    concat closed' ++ map fst cs' = concat closed ++ map fst cs.
Proof.
  intros Hw Hfile Hmax Hsz. unfold bw_checkRotation. destruct (_ || _).
  - destruct (rotateFile_ok w closed cs c Hw Hfile Hmax Hsz) as (w' & E & Hw' & _).
    exists w', (closed ++ [map fst cs]), []. split; [exact E|]. split; [exact Hw'|].
    rewrite concat_app. cbn. now rewrite !app_nil_r.
  - exists w, closed, cs. done.
Qed.

(** Either kind of block, written to the open file [c], extends the chunks. *)
Lemma writeCompressedBlock_ok b a w closed cs c :
  compressed = true -> carries b a -> bw_holds w closed cs -> bw_file w = Some c ->
  zlen (bw_blockOffsets w) < maxBlockIndexEntries -> bw_fileBytes w < 2 ^ 61 ->
  exists w' closed' cs',
    bw_writeCompressedBlock cfg (bi_env b) (bi_seq b) (bi_base b) (bi_data b) w = Ok w' /\
    bw_holds w' closed' cs' /\ concat closed' ++ map fst cs' = concat closed ++ map fst cs ++ [a].
Proof.
  intros Hc (Hok & Hb & Hs & Hbr & Hsr & _ & Hdata) Hw Hfile Hmax Hsz. rewrite Hc in Hdata.
  destruct Hdata as [Hd Hdl]. pose proof Hcomp as Hz. rewrite Hc in Hz.
  change maxBlockIndexEntries with 262144 in *.
  unfold bw_writeCompressedBlock, bw_write. cbn [bw_file]. rewrite Hfile.
  cbn [mbind result_bind bw_file bw_fileBytes bw_fileStart bw_fileBlocks bw_blockOffsets bw_rotated count_blocks].
  set (bytes := chunk_header a ++ le32 (zlen (bi_data b)) ++ bi_data b).
  assert (Hbytes : (le64 (bi_base b) ++ le64 (bi_seq b) ++ le32 (zlen (bi_data b))) ++ bi_data b = bytes).
  { unfold bytes, chunk_header. rewrite Hb, Hs, <- !app_assoc. done. }
  assert (Hzl : zlen (le64 (bi_base b) ++ le64 (bi_seq b) ++ le32 (zlen (bi_data b))) + zlen (bi_data b) = zlen bytes)
    by (rewrite <- Hbytes; symmetry; apply zlen_app).
  assert (Hbl : zlen bytes < 2 ^ 31) by (rewrite <- Hzl; autorewrite with zlen; lia).
  rewrite <- (app_assoc c), Hbytes, <- Z.add_assoc, Hzl.
  match goal with |- context [bw_checkRotation cfg _ ?w2] =>
    assert (Hw2 : bw_holds w2 closed (cs ++ [(a, bytes)])) end.
  { eapply written_holds; try exact Hw; try exact Hfile; try reflexivity.
    - split; [split|]; cbn [fst snd]; try assumption; [|split; assumption].
      apply chunk_zstd; [exact Hz|exact Hd|exact Hdl].
    - rewrite Hz. reflexivity. }
  destruct (rotation_holds (bi_env b) _ closed _ (c ++ bytes) Hw2) as (w' & closed' & cs' & E & Hw' & Hcat);
    [reflexivity|cbn [bw_blockOffsets count_blocks]; change maxBlockIndexEntries with 262144; rewrite zlen_app, zlen_cons, zlen_nil; lia
    |cbn [bw_fileBytes count_blocks]; lia|].
  exists w', closed', cs'. split; [exact E|]. split; [exact Hw'|]. rewrite Hcat, map_app. done.
Qed.

Lemma writeUncompressedBlock_ok b a w closed cs c :
  compressed = false -> carries b a -> bw_holds w closed cs -> bw_file w = Some c ->
  zlen (bw_blockOffsets w) < maxBlockIndexEntries -> bw_fileBytes w < 2 ^ 61 ->
  exists w' closed' cs', bw_writeUncompressedBlock cfg (bi_env b) (bi_data b) w = Ok w' /\
    bw_holds w' closed' cs' /\ concat closed' ++ map fst cs' = concat closed ++ map fst cs ++ [a].
Proof.
  intros Hc (Hok & Hb & Hs & Hbr & Hsr & _ & Hdata) Hw Hfile Hmax Hsz. rewrite Hc in Hdata.
  pose proof Hcomp as Hz. rewrite Hc in Hz. pose proof (bk_len _ _ Hok) as Hlen. pose proof Hbs as [Hb1 _].
  unfold bw_writeUncompressedBlock. rewrite Hdata, Hlen, Z.eqb_refl, (bk_crc _ _ Hok), Z.eqb_refl. cbn [negb].
  unfold bw_write. rewrite Hfile.
  cbn [mbind result_bind bw_file bw_fileBytes bw_fileStart bw_fileBlocks bw_blockOffsets bw_rotated count_blocks].
  match goal with |- context [bw_checkRotation cfg _ ?w2] =>
    assert (Hw2 : bw_holds w2 closed (cs ++ [(a, ab_buf a)])) end.
  { eapply written_holds; try exact Hw; try exact Hfile; try reflexivity.
    - split; [split|]; cbn [fst snd]; try assumption; [|split; assumption].
      apply chunk_plain. exact Hz.
    - rewrite Hz. reflexivity. }
  destruct (rotation_holds (bi_env b) _ closed _ (c ++ ab_buf a) Hw2) as (w' & closed' & cs' & E & Hw' & Hcat);
    [reflexivity|cbn [bw_blockOffsets count_blocks]; lia|cbn [bw_fileBytes count_blocks]; lia|].
  exists w', closed', cs'. split; [exact E|]. split; [exact Hw'|]. rewrite Hcat, map_app. done.
Qed.

(** A file that must be opened has a name of its own. *)
Definition bw_fresh (ts : time) (w : BlockWriter) : bool :=
  match bw_file w with None => name_free ts (bw_rotated w) | Some _ => true end.

Lemma AppendBlock_ok b a w closed cs :
  carries b a -> bw_holds w closed cs -> bw_room w = true -> bw_fresh (time_UnixMicro (bi_base b)) w = true ->
  exists w' closed' cs', AppendBlock cfg (bi_env b) (bi_seq b) (bi_base b) (bi_data b) compressed w = Ok w' /\
    bw_holds w' closed' cs' /\ concat closed' ++ map fst cs' = concat closed ++ map fst cs ++ [a].
Proof.
  intros Hcar Hw Hroom Hfree. unfold bw_room in Hroom. to_props.
  assert (Hopen : exists w1 c, (match bw_file w with
      | None => bw_openFile cfg (bi_env b) (time_UnixMicro (bi_base b)) w | Some _ => Ok w end) = Ok w1 /\
    bw_holds w1 closed cs /\ bw_file w1 = Some c /\
    zlen (bw_blockOffsets w1) < maxBlockIndexEntries /\ bw_fileBytes w1 < 2 ^ 61).
  { unfold bw_fresh in Hfree. destruct (bw_file w) as [c|] eqn:Hfile; [exists w, c; auto|].
    destruct Hcar as (_ & _ & _ & _ & _ & Hcr & _).
    unfold bw_openFile. rewrite Hcr, os_Create_free by done. eexists _, _. split; [reflexivity|].
    destruct Hw as [Hcl Hcs Hf]. rewrite Hfile in Hf. subst cs.
    split; [constructor; [exact Hcl|constructor|]|].
    - cbn [bw_file bw_fileBytes bw_blockOffsets]. unfold chunks_bytes. cbn [map concat]. rewrite app_nil_r.
      split; [reflexivity|]. split; [reflexivity|]. cbn [infos map]. now destruct (comp =? CompressionNone).
    - cbn [bw_blockOffsets bw_fileBytes bw_file]. split; [reflexivity|]. split; vm_compute; reflexivity. }
  destruct Hopen as (w1 & c & Eo & Hw1 & Hfile & Hmax & Hsz). unfold AppendBlock. rewrite Eo. cbn [mbind result_bind].
  case_eq compressed; intros Hc.
  - exact (writeCompressedBlock_ok b a w1 closed cs c Hc Hcar Hw1 Hfile Hmax Hsz).
  - exact (writeUncompressedBlock_ok b a w1 closed cs c Hc Hcar Hw1 Hfile Hmax Hsz).
Qed.

(** The sizes the format can express, and a name of its own for every file. *)
Fixpoint session_room (w : BlockWriter) (blocks : list BlockIn) : bool :=
  bw_room w &&
  match blocks with
  | [] => true
  | b :: blocks =>
      bw_fresh (time_UnixMicro (bi_base b)) w &&
      match AppendBlock cfg (bi_env b) (bi_seq b) (bi_base b) (bi_data b) compressed w with
      | Ok w => session_room w blocks
      | Err _ => true
      end
  end.

Lemma append_blocks_ok ins : forall blocks w closed cs,
  Forall2 carries ins blocks -> bw_holds w closed cs -> session_room w ins = true ->
  exists w' closed' cs', append_blocks cfg compressed ins w = Ok w' /\ bw_holds w' closed' cs' /\
    bw_room w' = true /\ concat closed' ++ map fst cs' = concat closed ++ map fst cs ++ blocks.
Proof.
  induction ins as [|b ins IH]; intros blocks w closed cs Hin Hw Hroom; inversion Hin as [|? a ? blocks' Hb Hin']; subst.
  - cbn in Hroom. rewrite andb_true_r in Hroom. exists w, closed, cs. rewrite app_nil_r. auto.
  - cbn [session_room] in Hroom. apply andb_true_iff in Hroom as [Hr Hroom].
    apply andb_true_iff in Hroom as [Hfree Hroom]. destruct (AppendBlock_ok b a w closed cs Hb Hw Hr Hfree) as (w1 & c1 & s1 & E & Hw1 & Hcat).
    rewrite E in Hroom. cbn [append_blocks]. rewrite E. cbn [mbind result_bind].
    destruct (IH blocks' w1 c1 s1 Hin' Hw1 Hroom) as (w' & c' & s' & E' & Hw' & Hr' & Hcat').
    exists w', c', s'. split; [exact E'|]. split; [exact Hw'|]. split; [exact Hr'|].
    rewrite Hcat', (app_assoc (concat c1)), Hcat. now rewrite <- !app_assoc.
Qed.

Lemma write_session_sound ins blocks w :
  NewBlockWriter cfg = Some (cfg, w) -> Forall2 carries ins blocks -> session_room w ins = true ->
  exists w' ess, write_session cfg compressed ins w = Ok w' /\ bw_file w' = None /\
    Forall2 (fun '(_, c) es => exists jr, NewReader c = Ok jr /\
      forall fuel, (length es < fuel)%nat -> read_all DecodeAll DecodeAllDict fuel jr = Some es)
      (bw_rotated w') ess /\
    concat ess = concat (map block_entries blocks).
Proof.
  intros Hnew Hin Hroom.
  assert (Hw0 : bw_holds w [] []).
  { unfold NewBlockWriter in Hnew. destruct (_ || _); [done|]. injection Hnew as _ <-. by repeat constructor. }
  destruct (append_blocks_ok ins blocks w [] [] Hin Hw0 Hroom) as (w1 & closed & cs & E & Hw1 & Hr1 & Hcat).
  cbn [concat map app] in Hcat. unfold write_session. rewrite E. cbn [mbind result_bind]. unfold Close.
  assert (Hfinal : forall w2 closed2, bw_holds w2 closed2 [] -> concat closed2 = blocks ->
    exists ess, Forall2 (fun '(_, c) es => exists jr, NewReader c = Ok jr /\
      forall fuel, (length es < fuel)%nat -> read_all DecodeAll DecodeAllDict fuel jr = Some es)
      (bw_rotated w2) ess /\ concat ess = concat (map block_entries blocks)).
  { intros w2 closed2 [Hcl _ _] <-. exists (map (fun bl => concat (map block_entries bl)) closed2). split.
    - apply Forall2_fmap_r. eapply Forall2_impl; [exact Hcl|]. intros [t c] bl (jr & Hjr & Hr).
      exists jr. split; [exact Hjr|]. intros fuel Hf. apply Hr. unfold frames_in.
      assert (El : length (concat (map block_entries bl)) = length (concat (map ab_raw bl))).
      { clear. induction bl as [|a bl IH]; [done|]. cbn [map concat]. now rewrite !length_app, length_block_entries, IH. }
      lia.
    - clear. induction closed2 as [|bl closed2 IH]; [done|]. cbn [map concat].
      now rewrite map_app, concat_app, IH. }
  destruct (bw_file w1) as [c|] eqn:Hfile.
  - unfold bw_room in Hr1. to_props.
    destruct (rotateFile_ok w1 closed cs c Hw1 Hfile ltac:(lia) ltac:(lia)) as (w' & Er & Hw' & Hnone).
    destruct (Hfinal w' _ Hw') as (ess & H1 & H2).
    { rewrite concat_app. cbn [concat]. now rewrite app_nil_r. }
    exists w', ess. auto.
  - pose proof (bh_file _ _ _ Hw1) as Hf. rewrite Hfile in Hf. subst cs. rewrite app_nil_r in Hcat.
    destruct (Hfinal w1 closed Hw1 Hcat) as (ess & H1 & H2). exists w1, ess. auto.
Qed.

(** A backfill session keeps its blocks.  Whatever the rotation limits,
    every received block is accepted, and the files the session closes read
    back as exactly the frames of the received blocks, in order. *)
Theorem block_writer_roundtrip ins blocks w :
  NewBlockWriter cfg = Some (cfg, w) -> Forall2 carries ins blocks -> session_room w ins = true ->
  exists w' ess, write_session cfg compressed ins w = Ok w' /\ bw_file w' = None /\
    Forall2 (fun '(_, c) es => exists jr, NewReader c = Ok jr /\
      forall fuel, (length es < fuel)%nat -> read_all DecodeAll DecodeAllDict fuel jr = Some es)
      (bw_rotated w') ess /\
    concat ess = concat (map block_entries blocks).
Proof. apply write_session_sound. Qed.

End session.

(** * A concrete session

    The four blocks of [JournalReader.demo_chunks], received as zstd blocks,
    with a rotation after every ten thousand bytes. *)
Definition demo_bw_cfg : BlockWriterConfig := mkBWConfig 4096 CompressionZstd 0 10000.

Definition demo_block_in (k : Z) : BlockIn :=
  mkBlockIn (mkBWEnv k true) (10 * k) (1000000 * k) (1 :: ab_buf (demo_block k)).

Lemma demo_carries k : k ∈ demo_blocks ->
  carries demo_decode demo_bw_cfg true (demo_block_in k) (demo_block k).
Proof.
  intros Hk. pose proof (demo_block_ok k Hk) as Hok.
  assert (Hr : 0 <= k < 1000)
    by (repeat (apply elem_of_cons in Hk as [->|Hk]; [lia|]); now apply elem_of_nil in Hk).
  split; [exact Hok|]. split; [reflexivity|]. split; [reflexivity|].
  split; [cbn [demo_block ab_base]; lia|]. split; [cbn [demo_block ab_seq]; lia|].
  split; [reflexivity|]. split; [reflexivity|].
  cbn [demo_block_in bi_data]. rewrite zlen_cons, (bk_len _ _ Hok). lia.
Qed.

Lemma demo_all_carry : Forall2 (carries demo_decode demo_bw_cfg true)
  (map demo_block_in demo_blocks) (map demo_block demo_blocks).
Proof.
  assert (H : forall ks, (forall k, k ∈ ks -> k ∈ demo_blocks) ->
    Forall2 (carries demo_decode demo_bw_cfg true) (map demo_block_in ks) (map demo_block ks)).
  { induction ks as [|k ks IH]; intros Hin; [constructor|]. constructor.
    - apply demo_carries, Hin. now left.
    - apply IH. intros i Hi. apply Hin. now right. }
  now apply H.
Qed.

Definition demo_bw : BlockWriter := mkBlockWriter None 0 0 0 [] [].

Lemma block_writer_roundtrip_witness :
  exists w' ess,
    write_session demo_bw_cfg true (map demo_block_in demo_blocks) demo_bw = Ok w' /\ bw_file w' = None /\
    Forall2 (fun '(_, c) es => exists jr, NewReader c = Ok jr /\
      forall fuel, (length es < fuel)%nat -> read_all demo_decode demo_dict_decode fuel jr = Some es)
      (bw_rotated w') ess /\
    concat ess = concat (map block_entries (map demo_block demo_blocks)).
Proof.
  exact (block_writer_roundtrip demo_decode demo_dict_decode demo_bw_cfg true
    ltac:(split; [cbn; lia|reflexivity]) eq_refl (map demo_block_in demo_blocks) (map demo_block demo_blocks)
    demo_bw eq_refl demo_all_carry ltac:(vm_compute; reflexivity)).
Defined.

(** A block that fails its checks is refused and leaves the writer's bytes
    unread: nothing is appended for a wrong length or a wrong checksum. *)
Lemma bad_block_refused cfg e seq base data w c :
  bw_file w = Some c ->
  zlen data <> bwc_BlockSize cfg \/
  uint data (bwc_BlockSize cfg - 4) 4 <> Checksum (sub data 0 (bwc_BlockSize cfg - 4)) ->
  exists err, AppendBlock cfg e seq base data false w = Err err.
Proof.
  intros Hf Hbad. unfold AppendBlock. rewrite Hf. cbn [mbind result_bind].
  unfold bw_writeUncompressedBlock. destruct (Z.eqb_spec (zlen data) (bwc_BlockSize cfg)); cbn [negb]; [|eauto].
  destruct (Z.eqb_spec (uint data (bwc_BlockSize cfg - 4) 4) (Checksum (sub data 0 (bwc_BlockSize cfg - 4))));
    cbn [negb]; [|eauto]. tauto.
Qed.
