(* ===== verification/EventLog.v ===== *)
(** The diagnostic event log of an instance: [replication_events.go].

    A fixed array with a write position and a count.  Its contract is the list
    of every event ever recorded: [Recent n] gives the last [n] of them, newest
    first, as far as the array reaches back. *)

From S2P Require Import Prelude.

Inductive ReplicationEventType :=
| EventLiveStart
| EventLiveStop
| EventBackfillStart
| EventBackfillStop
| EventBlockReceived
| EventCheckpoint.

(** The values a detail map carries. *)
Inductive detail_value :=
| DInt (z : Z)
| DString (s : string)
| DBool (b : bool).

Record ReplicationEvent := mkReplicationEvent {
  ev_Time : time;
  ev_Type : ReplicationEventType;
  ev_Detail : list (string * detail_value)
}.

Definition eventLogSize : Z := 1024.

Definition clampInt (v upper1 upper2 : Z) : Z :=
  let upper2 := if upper1 <? upper2 then upper1 else upper2 in
  if v <? 0 then 0 else if v >? upper2 then upper2 else v.

Record EventLog := mkEventLog {
  el_entries : list ReplicationEvent;
  el_head : Z;
  el_count : Z
}.

(** The zero value of an array slot. *)
Definition zero_event : ReplicationEvent := mkReplicationEvent 0 EventLiveStart [].

Definition NewEventLog : EventLog :=
  mkEventLog (replicate (Z.to_nat eventLogSize) zero_event) 0 0.

(** [Record]; [ev] carries the clock reading. *)
Definition record_event (ev : ReplicationEvent) (l : EventLog) : EventLog :=
  mkEventLog (<[Z.to_nat (el_head l) := ev]> (el_entries l))
    (Z.land (el_head l + 1) (eventLogSize - 1))
    (if el_count l <? eventLogSize then el_count l + 1 else el_count l).

(** Slot of the [i]-th newest event. *)
Definition recent_slot (l : EventLog) (i : Z) : Z := Z.land (el_head l - 1 - i) (eventLogSize - 1).

(** [Recent]; an index outside the array would be a panic. *)
Definition Recent (n : Z) (l : EventLog) : option (list ReplicationEvent) :=
  if (n <=? 0) || (el_count l =? 0) then Some []
  else mapM (fun i => el_entries l !! Z.to_nat (recent_slot l i))
         (seqZ 0 (clampInt n (el_count l) eventLogSize)).

(** * The contract *)

Lemma land_size z : Z.land z (eventLogSize - 1) = z mod eventLogSize.
Proof. change (eventLogSize - 1) with (Z.ones 10). now rewrite Z.land_ones by lia. Qed.

(** The array holds the events [es], given oldest first. *)
Record log_holds (l : EventLog) (es : list ReplicationEvent) : Prop := {
  lh_length : Z.of_nat (length (el_entries l)) = eventLogSize;
  lh_head : el_head l = Z.of_nat (length es) mod eventLogSize;
  lh_count : el_count l = Z.min (Z.of_nat (length es)) eventLogSize;
  lh_slots : forall k, (k < length es)%nat -> Z.of_nat (length es) - eventLogSize <= Z.of_nat k ->
    el_entries l !! Z.to_nat (Z.of_nat k mod eventLogSize) = es !! k
}.

Lemma NewEventLog_holds : log_holds NewEventLog [].
Proof. constructor; try reflexivity. intros k H. cbn in H. lia. Qed.

Lemma record_event_holds ev l es : log_holds l es -> log_holds (record_event ev l) (es ++ [ev]).
Proof.
  intros [Hlen Hhead Hcount Hslots]. assert (Hsz : eventLogSize = 1024) by reflexivity.
  pose proof (Z.mod_pos_bound (Z.of_nat (length es)) eventLogSize ltac:(lia)) as Hb.
  unfold record_event. constructor; cbn [el_entries el_head el_count].
  - now rewrite length_insert.
  - rewrite land_size, Hhead, length_app, Nat2Z.inj_add, Zplus_mod_idemp_l. done.
  - rewrite length_app, Nat2Z.inj_add. cbn [length]. destruct (Z.ltb_spec (el_count l) eventLogSize); lia.
  - intros k Hk Hlo. rewrite length_app in Hk, Hlo. cbn [length] in Hk, Hlo. rewrite Hhead.
    destruct (decide (k = length es)) as [->|Hne].
    + rewrite list_lookup_insert_eq by lia. now rewrite list_lookup_middle.
    + rewrite list_lookup_insert_ne.
      * rewrite Hslots by lia. now rewrite lookup_app_l by lia.
      * intros E. apply Z2Nat.inj in E; [|apply Z.mod_pos_bound; lia..].
        pose proof (Z_div_mod_eq_full (Z.of_nat (length es)) eventLogSize).
        pose proof (Z_div_mod_eq_full (Z.of_nat k) eventLogSize).
        pose proof (Z.mod_pos_bound (Z.of_nat k) eventLogSize ltac:(lia)). nia.
Qed.

Lemma recorded_holds es : forall l es0, log_holds l es0 ->
  log_holds (foldl (fun l ev => record_event ev l) l es) (es0 ++ es).
Proof.
  induction es as [|ev es IH]; intros l es0 H; [now rewrite app_nil_r|].
  cbn [foldl]. rewrite cons_middle, app_assoc. apply IH, record_event_holds, H.
Qed.

Lemma Recent_holds n l es :
  log_holds l es -> Recent n l = Some (take (Z.to_nat (Z.min n eventLogSize)) (reverse es)).
Proof.
  intros [Hlen Hhead Hcount Hslots]. assert (Hsz : eventLogSize = 1024) by reflexivity.
  unfold Recent. destruct (Z.leb_spec n 0); cbn [orb].
  { replace (Z.to_nat _) with 0%nat by lia. done. }
  destruct (Z.eqb_spec (el_count l) 0) as [E|E].
  { assert (es = []) as -> by (destruct es; [done|cbn in *; lia]). by rewrite reverse_nil, take_nil. }
  assert (Hc : clampInt n (el_count l) eventLogSize = Z.min n (Z.min (Z.of_nat (length es)) eventLogSize)).
  { unfold clampInt. rewrite Hcount, Z.gtb_ltb.
    destruct (Z.ltb_spec (Z.min (Z.of_nat (length es)) eventLogSize) eventLogSize);
      destruct (Z.ltb_spec n 0); try lia.
    - destruct (Z.ltb_spec (Z.min (Z.of_nat (length es)) eventLogSize) n); lia.
    - destruct (Z.ltb_spec eventLogSize n); lia. }
  rewrite Hc. apply mapM_Some_2. apply Forall2_same_length_lookup_2.
  - rewrite length_seqZ, length_take, length_reverse. lia.
  - intros i z ev Hz Hev. apply lookup_seqZ in Hz as [-> Hi].
    apply lookup_take_Some in Hev as [Hev Hlt]. apply reverse_lookup_Some in Hev as [Hev Hi'].
    unfold recent_slot. rewrite land_size, Hhead.
    replace (Z.of_nat (length es) mod eventLogSize - 1 - (0 + Z.of_nat i))
      with (Z.of_nat (length es) mod eventLogSize + (- 1 - Z.of_nat i)) by lia.
    rewrite Zplus_mod_idemp_l.
    replace (Z.of_nat (length es) + (-1 - Z.of_nat i)) with (Z.of_nat (length es - S i)) by lia.
    rewrite Hslots by lia. exact Hev.
Qed.

(** The event log is its history.  Whatever events were recorded, [Recent n]
    never panics and gives the newest [n] of them, newest first, limited to the
    last [eventLogSize]. *)
Theorem Recent_refines es n :
  Recent n (foldl (fun l ev => record_event ev l) NewEventLog es) =
    Some (take (Z.to_nat (Z.min n eventLogSize)) (reverse es)).
Proof. apply Recent_holds, (recorded_holds es NewEventLog []), NewEventLog_holds. Qed.
