(* ===== verification/ReplServer.v ===== *)
(** The cloud side of replication: [replication_server.go].

    One [InstanceState] per boat: its cursor, its holes, its replica broker with
    a journal writer, and the [state.json] it persists.  [Handshake], [Live] and
    [Backfill] are the three gRPC handlers; each message they receive is one
    locked step on the instance, so any interleaving of streams is a sequence of
    those steps.  The section variables are the zstd library of
    [JournalWriter]. *)

From S2P Require Import Prelude CanId Devices Values VirtualDevice Ring Broker Holes EventLog JournalFormat JournalReader JournalWriter BlockWriter.

(** * State *)

(** [state.json]. *)
Record instanceStatePersist := mkPersist {
  ps_ID : string;
  ps_Cursor : Z;
  ps_Holes : list SeqRange;
  ps_BoatHeadSeq : Z;
  ps_BoatJournalBytes : Z;
  ps_LastSeen : time
}.

(** A started broker with its two goroutines: the frames waiting for the broker
    and the journal writer fed by the broker's journal channel. *)
Record RunningBroker := mkRunning {
  rb_broker : Broker.Broker;
  rb_rx : list RxFrame;
  rb_writer : JournalWriter.JournalWriter;
  rb_cfg : JournalConfig;
  rb_paused : bool
}.

(** The files of a directory: prefix, start and bytes. *)
Abbreviation journal_dir := (list (string * time * list Z)).

(** The files a writer has closed are in the directory; each replaced what had its
    name. *)
Definition store_files (prefix : string) (files : list (time * list Z)) (dir : journal_dir) : journal_dir :=
  List.filter (fun f => negb (bool_decide (f.1.1 = prefix) && negb (name_free f.1.2 files))) dir ++
  map (fun f => (prefix, f.1, f.2)) files.

(** [is_onRotate] is the instance a rotation callback reports;
    [is_journal] the files closed so far. *)
Record InstanceState := mkInstance {
  is_ID : string;
  is_Cursor : Z;
  is_BoatHeadSeq : Z;
  is_BoatJournalBytes : Z;
  is_LastSeen : time;
  is_Connected : bool;
  is_HoleTracker : HoleTracker;
  is_events : EventLog.EventLog;
  is_broker : option RunningBroker;
  is_onRotate : option string;
  is_rotateDuration : duration;
  is_rotateSize : Z;
  is_deviceIdleTimeout : duration;
  is_ringSize : Z;
  is_disk : option instanceStatePersist;
  is_journal : journal_dir
}.

Definition set_seen (s : InstanceState) (head bytes : Z) (seen : time) (connected : bool) : InstanceState :=
  mkInstance (is_ID s) (is_Cursor s) head bytes seen connected (is_HoleTracker s) (is_events s) (is_broker s)
    (is_onRotate s) (is_rotateDuration s) (is_rotateSize s) (is_deviceIdleTimeout s) (is_ringSize s)
    (is_disk s) (is_journal s).
Definition set_progress (s : InstanceState) (cursor : Z) (holes : HoleTracker) : InstanceState :=
  mkInstance (is_ID s) cursor (is_BoatHeadSeq s) (is_BoatJournalBytes s) (is_LastSeen s) (is_Connected s) holes
    (is_events s) (is_broker s) (is_onRotate s) (is_rotateDuration s) (is_rotateSize s)
    (is_deviceIdleTimeout s) (is_ringSize s) (is_disk s) (is_journal s).
Definition set_events (s : InstanceState) (l : EventLog.EventLog) : InstanceState :=
  mkInstance (is_ID s) (is_Cursor s) (is_BoatHeadSeq s) (is_BoatJournalBytes s) (is_LastSeen s) (is_Connected s)
    (is_HoleTracker s) l (is_broker s) (is_onRotate s) (is_rotateDuration s) (is_rotateSize s)
    (is_deviceIdleTimeout s) (is_ringSize s) (is_disk s) (is_journal s).
Definition set_broker (s : InstanceState) (b : option RunningBroker) (files : journal_dir) : InstanceState :=
  mkInstance (is_ID s) (is_Cursor s) (is_BoatHeadSeq s) (is_BoatJournalBytes s) (is_LastSeen s) (is_Connected s)
    (is_HoleTracker s) (is_events s) b (is_onRotate s) (is_rotateDuration s) (is_rotateSize s)
    (is_deviceIdleTimeout s) (is_ringSize s) (is_disk s) files.
Definition set_disk (s : InstanceState) (d : option instanceStatePersist) : InstanceState :=
  mkInstance (is_ID s) (is_Cursor s) (is_BoatHeadSeq s) (is_BoatJournalBytes s) (is_LastSeen s) (is_Connected s)
    (is_HoleTracker s) (is_events s) (is_broker s) (is_onRotate s) (is_rotateDuration s) (is_rotateSize s)
    (is_deviceIdleTimeout s) (is_ringSize s) d (is_journal s).
Definition set_tuning (s : InstanceState) (onRotate : option string) (rd : duration) (rs : Z) (idle : duration)
    (ring : Z) : InstanceState :=
  mkInstance (is_ID s) (is_Cursor s) (is_BoatHeadSeq s) (is_BoatJournalBytes s) (is_LastSeen s) (is_Connected s)
    (is_HoleTracker s) (is_events s) (is_broker s) onRotate rd rs idle ring (is_disk s) (is_journal s).

Definition RecordEvent (typ : ReplicationEventType) (detail : list (string * detail_value)) (now : time)
    (s : InstanceState) : InstanceState :=
  set_events s (record_event (mkReplicationEvent now typ detail) (is_events s)).

Definition RecentEvents (n : Z) (s : InstanceState) : option (list ReplicationEvent) := Recent n (is_events s).

Definition snapshotLocked (s : InstanceState) : instanceStatePersist :=
  mkPersist (is_ID s) (is_Cursor s) (Holes.Holes (is_HoleTracker s)) (is_BoatHeadSeq s) (is_BoatJournalBytes s)
    (is_LastSeen s).

(** [persist]; [ok] is whether the file could be written.  Callers ignore the
    error. *)
Definition persist (ok : bool) (s : InstanceState) : InstanceState :=
  if ok then set_disk s (Some (snapshotLocked s)) else s.

(** * The broker of an instance *)

Definition rx_capacity : nat := 256.

Definition SetJournal (ch : journalChan) (b : Broker.Broker) : Broker.Broker := with_journal b (Some ch).

Definition replica_config (s : InstanceState) : BrokerConfig :=
  mkBrokerConfig (if is_ringSize s =? 0 then 65536 else is_ringSize s) 0 true
    (Z.max (u64 (is_Cursor s + 1)) 1) (is_deviceIdleTimeout s) [] 0 0 [] 0.

Definition replica_journal (s : InstanceState) : JournalConfig :=
  mkJournalConfig 262144 CompressionZstd (is_rotateDuration s) (is_rotateSize s) 0.

(** [None] is the panic of [NewBroker] on a ring size that is no power of two. *)
Definition ensureBroker (s : InstanceState) : option InstanceState :=
  match is_broker s with
  | Some _ => Some s
  | None =>
      b ← NewBroker (replica_config s);
      let b := SetJournal (mkJournalChan [] 16384) b in
      match NewJournalWriter (replica_journal s) with
      | None => Some s
      | Some (cfg, jw) => Some (set_broker s (Some (mkRunning b [] jw cfg false)) (is_journal s))
      end
  end.

(** The non-blocking send to the broker. *)
Definition offer (f : RxFrame) (rb : RunningBroker) : RunningBroker :=
  if (length (rb_rx rb) <? rx_capacity)%nat
  then mkRunning (rb_broker rb) (rb_rx rb ++ [f]) (rb_writer rb) (rb_cfg rb) (rb_paused rb)
  else rb.

(** The broker's goroutine takes one frame. *)
Definition broker_takes (ord : DeviceRegistry -> list deviceKey) (now : time) (rb : RunningBroker)
    : option RunningBroker :=
  match rb_rx rb with
  | [] => Some rb
  | f :: rest =>
      b ← handleFrame ord now f (rb_broker rb);
      Some (mkRunning b rest (rb_writer rb) (rb_cfg rb) (rb_paused rb))
  end.

Definition SetPaused (p : bool) (rb : RunningBroker) : RunningBroker :=
  mkRunning (rb_broker rb) (rb_rx rb) (rb_writer rb) (rb_cfg rb) p.

Section server.
  Context (EncodeAll : list Z -> list Z) (EncodeAllDict : list Z -> option (list Z -> list Z))
          (BuildZstdDict : list (list Z) -> option (list Z)).
  Abbreviation run_frames := (run_frames EncodeAll EncodeAllDict BuildZstdDict).
  Abbreviation finalize := (finalize EncodeAll EncodeAllDict BuildZstdDict).

(** What the writer sees: the registry is the broker's. *)
Definition writer_env (now : time) (create_ok : bool) (b : Broker.Broker) : Env :=
  mkEnv now (devices (b_state b)) (any_order (devices (b_state b))) create_ok.

(** The writer's goroutine takes one frame of the journal channel; after an
    error it has stopped, which is not represented further. *)
Definition writer_takes (now : time) (create_ok : bool) (rb : RunningBroker) : result jerror RunningBroker :=
  match b_journal (rb_broker rb) with
  | Some (mkJournalChan (f :: rest) cap) =>
      jw ← run_frames (rb_cfg rb) (rb_writer rb) [(writer_env now create_ok (rb_broker rb), rb_paused rb, f)];
      Ok (mkRunning (with_journal (rb_broker rb) (Some (mkJournalChan rest cap))) (rb_rx rb) jw (rb_cfg rb)
            (rb_paused rb))
  | _ => Ok rb
  end.

(** [stopBroker]: the broker drains its queue and stops; then the journal
    channel is closed and the writer's context cancelled, after which the writer
    may take any number [n] of the queued frames before it finalizes. *)
Fixpoint drain_broker (ord : DeviceRegistry -> list deviceKey) (now : time) (fs : list RxFrame) (b : Broker.Broker)
    : option Broker.Broker :=
  match fs with
  | [] => Some b
  | f :: fs => b ← handleFrame ord now f b; drain_broker ord now fs b
  end.

Definition closed_files (now : time) (create_ok : bool) (n : nat) (rb : RunningBroker) (b : Broker.Broker)
    : list (time * list Z) :=
  let e := writer_env now create_ok b in
  let queue := match b_journal b with Some ch => j_queue ch | None => [] end in
  let written := run_frames (rb_cfg rb) (rb_writer rb) (map (fun f => (e, rb_paused rb, f)) (take n queue)) in
  match written with
  | Err _ => rotated (jw_file (rb_writer rb))
  | Ok jw => match finalize (rb_cfg rb) e jw with
             | Ok jw => rotated (jw_file jw) | Err _ => rotated (jw_file jw) end
  end.

Definition stopBroker (ord : DeviceRegistry -> list deviceKey) (now : time) (create_ok : bool) (n : nat)
    (s : InstanceState) : option InstanceState :=
  match is_broker s with
  | None => Some s
  | Some rb =>
      b ← drain_broker ord now (rb_rx rb) (rb_broker rb);
      Some (set_broker s None (store_files "nmea2k" (closed_files now create_ok n rb b) (is_journal s)))
  end.

End server.

(** * The manager *)

Record InstanceManager := mkManager {
  instances : gmap string InstanceState;
  im_onRotate : bool;
  im_rotateDuration : duration;
  im_rotateSize : Z;
  im_deviceIdleTimeout : duration;
  im_ringSize : Z
}.

Definition with_instances (im : InstanceManager) (m : gmap string InstanceState) : InstanceManager :=
  mkManager m (im_onRotate im) (im_rotateDuration im) (im_rotateSize im) (im_deviceIdleTimeout im)
    (im_ringSize im).

(** What [loadInstanceState] finds in a directory. *)
Inductive load_result :=
| LoadErr
| LoadNone
| LoadOk (p : instanceStatePersist).

Definition add_hole (h : HoleTracker) (r : SeqRange) : HoleTracker := Holes.Add h (Start r) (End r).

Definition loaded (id : string) (p : option instanceStatePersist) : InstanceState :=
  let holes := match p with Some p => foldl add_hole NewHoleTracker (ps_Holes p) | None => NewHoleTracker end in
  match p with
  | Some q => mkInstance id (ps_Cursor q) (ps_BoatHeadSeq q) (ps_BoatJournalBytes q) (ps_LastSeen q) false holes
                NewEventLog None None 0 0 0 0 p []
  | None => mkInstance id 0 0 0 0 false holes NewEventLog None None 0 0 0 0 None []
  end.

(** The instance directories, in the order [ReadDir] lists them. *)
Definition NewInstanceManager (dirs : list (string * load_result)) : InstanceManager :=
  mkManager
    (foldl (fun m '(id, r) =>
        match r with
        | LoadErr => m
        | LoadNone => <[id := loaded id None]> m
        | LoadOk p => <[id := loaded id (Some p)]> m
        end) ∅ dirs)
    false 0 0 0 0.

Definition makeOnRotate (im : InstanceManager) (id : string) : option string :=
  if im_onRotate im then Some id else None.

Definition SetOnRotate (im : InstanceManager) : InstanceManager :=
  let im := mkManager (instances im) true (im_rotateDuration im) (im_rotateSize im) (im_deviceIdleTimeout im)
              (im_ringSize im) in
  with_instances im (map_imap (fun id s =>
    Some (set_tuning s (makeOnRotate im id) (is_rotateDuration s) (is_rotateSize s) (is_deviceIdleTimeout s)
            (is_ringSize s))) (instances im)).

Definition SetJournalRotation (d : duration) (size : Z) (im : InstanceManager) : InstanceManager :=
  mkManager ((fun s => set_tuning s (is_onRotate s) d size (is_deviceIdleTimeout s) (is_ringSize s)) <$> instances im)
    (im_onRotate im) d size (im_deviceIdleTimeout im) (im_ringSize im).

Definition SetDeviceIdleTimeout (d : duration) (im : InstanceManager) : InstanceManager :=
  mkManager ((fun s => set_tuning s (is_onRotate s) (is_rotateDuration s) (is_rotateSize s) d (is_ringSize s))
               <$> instances im)
    (im_onRotate im) (im_rotateDuration im) (im_rotateSize im) d (im_ringSize im).

Definition SetRingSize (size : Z) (im : InstanceManager) : InstanceManager :=
  mkManager ((fun s => set_tuning s (is_onRotate s) (is_rotateDuration s) (is_rotateSize s)
                         (is_deviceIdleTimeout s) size) <$> instances im)
    (im_onRotate im) (im_rotateDuration im) (im_rotateSize im) (im_deviceIdleTimeout im) size.

Definition SetInstancePaused (id : string) (paused : bool) (im : InstanceManager) : InstanceManager :=
  match instances im !! id with
  | None => im
  | Some s => with_instances im
      (<[id := set_broker s (SetPaused paused <$> is_broker s) (is_journal s)]> (instances im))
  end.

Definition fresh_instance (id : string) (im : InstanceManager) : InstanceState :=
  mkInstance id 0 0 0 0 false NewHoleTracker NewEventLog None (makeOnRotate im id) (im_rotateDuration im)
    (im_rotateSize im) (im_deviceIdleTimeout im) (im_ringSize im) None [].

Definition GetOrCreate (id : string) (im : InstanceManager) : InstanceManager * InstanceState :=
  match instances im !! id with
  | Some s => (im, s)
  | None => let s := fresh_instance id im in (with_instances im (<[id := s]> (instances im)), s)
  end.

Definition Get (id : string) (im : InstanceManager) : option InstanceState := instances im !! id.

Definition put_instance (id : string) (s : InstanceState) (im : InstanceManager) : InstanceManager :=
  with_instances im (<[id := s]> (instances im)).

Record InstanceSummary := mkSummary {
  sm_ID : string;
  sm_Connected : bool;
  sm_Cursor : Z;
  sm_BoatHeadSeq : Z;
  sm_Holes : nat;
  sm_LagSeqs : Z;
  sm_LastSeen : time
}.

Definition summary (s : InstanceState) : InstanceSummary :=
  mkSummary (is_ID s) (is_Connected s) (is_Cursor s) (is_BoatHeadSeq s) (Len (is_HoleTracker s))
    (u64 (is_BoatHeadSeq s - is_Cursor s)) (is_LastSeen s).

(** [List]; [ord] is the order the map is ranged over. *)
Definition List_ (ord : list string) (im : InstanceManager) : list InstanceSummary :=
  omap (fun id => summary <$> instances im !! id) ord.

Record InstanceStatus := mkStatus {
  st_ID : string;
  st_Connected : bool;
  st_Cursor : Z;
  st_BoatHeadSeq : Z;
  st_BoatJournalBytes : Z;
  st_Holes : list SeqRange;
  st_LagSeqs : Z;
  st_LastSeen : time
}.

Definition Status (s : InstanceState) : InstanceStatus :=
  mkStatus (is_ID s) (is_Connected s) (is_Cursor s) (is_BoatHeadSeq s) (is_BoatJournalBytes s)
    (Holes.Holes (is_HoleTracker s)) (u64 (is_BoatHeadSeq s - is_Cursor s)) (is_LastSeen s).

(** [Shutdown]: every instance, in the order [ids] of the map loop; [n id] is
    how much of the journal queue its writer takes. *)
Definition Shutdown (EncodeAll : list Z -> list Z) (EncodeAllDict : list Z -> option (list Z -> list Z))
    (BuildZstdDict : list (list Z) -> option (list Z)) (ord : DeviceRegistry -> list deviceKey) (now : time)
    (create_ok persist_ok : bool) (n : string -> nat) (ids : list string) (im : InstanceManager)
    : option InstanceManager :=
  foldl (fun im id =>
    im ← im;
    match instances im !! id with
    | None => Some im
    | Some s =>
        s ← stopBroker EncodeAll EncodeAllDict BuildZstdDict ord now create_ok (n id) s;
        Some (put_instance id (persist persist_ok s) im)
    end) (Some im) ids.

(** * Identity *)

Inductive code :=
| Unauthenticated
| PermissionDenied
| FailedPrecondition
| ResourceExhausted
| Internal
| RecvError
| SendError.

(** The peer of a call: its verified certificate chains when the connection is
    TLS, by common name, and the [x-instance-id] values of its metadata. *)
Record RpcContext := mkRpc {
  rpc_tls : option (list (list string));
  rpc_ids : list string
}.

Definition verifyIdentity (ctx : RpcContext) (instanceID : string) : result code unit :=
  match rpc_tls ctx with
  | None => Ok tt
  | Some ((cn :: _) :: _) => if bool_decide (cn = instanceID) then Ok tt else Err PermissionDenied
  | Some _ => Err Unauthenticated
  end.

Definition extractInstanceID (ctx : RpcContext) : result code string :=
  match rpc_tls ctx with
  | Some ((cn :: _) :: _) => Ok cn
  | _ => match rpc_ids ctx with id :: _ => Ok id | [] => Err Unauthenticated end
  end.

(** * Handshake *)

Record HandshakeRequest := mkHandshake { hq_InstanceId : string; hq_HeadSeq : Z; hq_JournalBytes : Z }.
Record HandshakeResponse := mkHandshakeResp { hr_Cursor : Z; hr_Holes : list SeqRange; hr_LiveStartFrom : Z }.

(** The locked section of [Handshake]; [None] is a panic. *)
Definition handshake_instance (now : time) (persist_ok : bool) (head bytes : Z) (s : InstanceState)
    : option (InstanceState * HandshakeResponse) :=
  let s := set_seen s head bytes now true in
  let s := if (is_Cursor s >? 0) && (head >? u64 (is_Cursor s + 1))
           then set_progress s (is_Cursor s) (Holes.Add (is_HoleTracker s) (u64 (is_Cursor s + 1)) head) else s in
  s ← ensureBroker s;
  let live := if is_Cursor s =? 0 then 1 else head in
  let resp := mkHandshakeResp (is_Cursor s) (Holes.Holes (is_HoleTracker s)) live in
  Some (persist persist_ok s, resp).

Definition Handshake (ctx : RpcContext) (now : time) (persist_ok : bool) (req : HandshakeRequest)
    (im : InstanceManager) : option (InstanceManager * result code HandshakeResponse) :=
  match verifyIdentity ctx (hq_InstanceId req) with
  | Err e => Some (im, Err e)
  | Ok _ =>
      let '(im, s) := GetOrCreate (hq_InstanceId req) im in
      '(s, resp) ← handshake_instance now persist_ok (hq_HeadSeq req) (hq_JournalBytes req) s;
      Some (put_instance (hq_InstanceId req) s im, Ok resp)
  end.

(** * Live *)

Record LiveFrame := mkLiveFrame { lf_Seq : Z; lf_TimestampUs : Z; lf_CanId : Z; lf_Data : list Z }.

Inductive live_msg :=
| LFrame (f : LiveFrame)
| LStatus (head bytes : Z).

(** What one round of the loop sees: the clock, the rate limiter's answer,
    whether the ACK ticker has fired, and the fate of its writes. *)
Record LiveEnv := mkLiveEnv {
  le_now : time;
  le_allow : bool;
  le_tick : bool;
  le_send_ok : bool;
  le_persist_ok : bool
}.

(** The loop's variables; [ls_inst] is the resolved instance. *)
Record LiveState := mkLive {
  ls_inst : option string;
  ackedThrough : Z;
  framesReceived : Z;
  lastLiveSeq : Z;
  ls_acks : list Z
}.

Definition DefaultMaxFrameRate : Z := 2000.
Definition DefaultRateBurst : Z := 500.
Definition DefaultMaxLiveLag : Z := 10000.

Record ReplicationServer := mkServer { MaxFrameRate : Z; RateBurst : Z; MaxLiveLag : Z }.

Definition max_lag_of (srv : ReplicationServer) : Z :=
  if MaxLiveLag srv >? 0 then MaxLiveLag srv else DefaultMaxLiveLag.

Definition rx_of (f : LiveFrame) : RxFrame :=
  mkRxFrame (time_UnixMicro (lf_TimestampUs f)) (ParseCANID (lf_CanId f)) (lf_Data f) "" (lf_Seq f).

(** The locked section of a frame; [None] is a panic: a ring size that is no
    power of two, or the nil broker of a failed start. *)
Definition live_frame (now : time) (f : LiveFrame) (s : InstanceState) : option InstanceState :=
  s ← ensureBroker s;
  rb ← is_broker s;
  let s := set_seen s (is_BoatHeadSeq s) (is_BoatJournalBytes s) now (is_Connected s) in
  let s := set_broker s (Some (offer (rx_of f) rb)) (is_journal s) in
  Some (if lf_Seq f =? u64 (is_Cursor s + 1) then set_progress s (lf_Seq f) (is_HoleTracker s) else s).

(** How a round of the loop ends: [LiveReturn] leaves the handler. *)
Inductive live_outcome :=
| LiveGo (im : InstanceManager) (ls : LiveState)
| LiveReturn (im : InstanceManager) (ls : LiveState) (e : option code)
| LivePanic.

Definition received_detail (ls : LiveState) : list (string * detail_value) :=
  [("frames_received"%string, DInt (framesReceived ls))].

(** The instance of a live stream, resolved on its first frame. *)
Definition live_resolve (ctx : RpcContext) (now : time) (im : InstanceManager) (ls : LiveState)
    : result code (InstanceManager * LiveState * string) :=
  match ls_inst ls with
  | Some id => Ok (im, ls, id)
  | None =>
      match extractInstanceID ctx with
      | Err e => Err e
      | Ok id =>
          match Get id im with
          | None => Err FailedPrecondition
          | Some s =>
              let s := RecordEvent EventLiveStart [("boat_head_seq"%string, DInt (is_BoatHeadSeq s))] now s in
              Ok (put_instance id s im,
                  mkLive (Some id) (ackedThrough ls) (framesReceived ls) (lastLiveSeq ls) (ls_acks ls), id)
          end
      end
  end.

Definition live_on_frame (ctx : RpcContext) (e : LiveEnv) (f : LiveFrame) (im : InstanceManager) (ls : LiveState)
    : live_outcome :=
  match live_resolve ctx (le_now e) im ls with
  | Err c => LiveReturn im ls (Some c)
  | Ok (im, ls, id) =>
      let ls := mkLive (ls_inst ls) (ackedThrough ls) (u64 (framesReceived ls + 1)) (lastLiveSeq ls) (ls_acks ls) in
      match Get id im with
      | None => LivePanic
      | Some s =>
          if negb (le_allow e) then
            let s := RecordEvent EventLiveStop
              (received_detail ls ++ [("reason"%string, DString "rate_limit_exceeded")]) (le_now e) s in
            LiveReturn (put_instance id s im) ls (Some ResourceExhausted)
          else
            let last := if lf_Seq f >? lastLiveSeq ls then lf_Seq f else lastLiveSeq ls in
            match live_frame (le_now e) f s with
            | None => LivePanic
            | Some s =>
                let ls := mkLive (ls_inst ls) (is_Cursor s) (framesReceived ls) last (ls_acks ls) in
                let s := if framesReceived ls mod 50000 =? 0 then
                    RecordEvent EventCheckpoint
                      (received_detail ls ++ [("cursor"%string, DInt (ackedThrough ls));
                                              ("boat_head_seq"%string, DInt (is_BoatHeadSeq s))]) (le_now e) s
                  else s in
                if le_tick e then
                  if le_send_ok e then
                    LiveGo (put_instance id (persist (le_persist_ok e) s) im)
                      (mkLive (ls_inst ls) (ackedThrough ls) (framesReceived ls) (lastLiveSeq ls)
                         (ls_acks ls ++ [ackedThrough ls]))
                  else LiveReturn (put_instance id s im) ls (Some SendError)
                else LiveGo (put_instance id s im) ls
            end
      end
  end.

Definition live_on_status (srv : ReplicationServer) (e : LiveEnv) (head bytes : Z) (im : InstanceManager)
    (ls : LiveState) : live_outcome :=
  match ls_inst ls with
  | None => LiveGo im ls
  | Some id =>
      match Get id im with
      | None => LivePanic
      | Some s =>
          let s := set_seen s head bytes (le_now e) (is_Connected s) in
          if (lastLiveSeq ls >? 0) && (head >? lastLiveSeq ls) && (u64 (head - lastLiveSeq ls) >? max_lag_of srv)
          then
            let s := RecordEvent EventLiveStop
              (received_detail ls ++ [("reason"%string, DString "cloud_lag_exceeded");
                                      ("lag"%string, DInt (u64 (head - lastLiveSeq ls)))]) (le_now e) s in
            LiveReturn (put_instance id s im) ls (Some ResourceExhausted)
          else LiveGo (put_instance id s im) ls
      end
  end.

(** The deferred event, and the disconnect of a failed [Recv]. *)
Definition live_leave (now : time) (disconnect : bool) (im : InstanceManager) (ls : LiveState) : InstanceManager :=
  match ls_inst ls with
  | None => im
  | Some id =>
      match Get id im with
      | None => im
      | Some s =>
          let s := if disconnect
            then set_seen s (is_BoatHeadSeq s) (is_BoatJournalBytes s) (is_LastSeen s) false else s in
          put_instance id (RecordEvent EventLiveStop (received_detail ls) now s) im
      end
  end.

(** The loop over what [Recv] returns: messages, then [eof] or an error. *)
Fixpoint live_loop (srv : ReplicationServer) (ctx : RpcContext) (now : time) (eof : bool)
    (msgs : list (LiveEnv * live_msg)) (im : InstanceManager) (ls : LiveState)
    : option (InstanceManager * LiveState * option code) :=
  match msgs with
  | [] => Some (live_leave now (negb eof) im ls, ls, if eof then None else Some RecvError)
  | (e, m) :: msgs =>
      let out := match m with
        | LFrame f => live_on_frame ctx e f im ls
        | LStatus head bytes => live_on_status srv e head bytes im ls
        end in
      match out with
      | LiveGo im ls => live_loop srv ctx now eof msgs im ls
      | LiveReturn im ls c => Some (live_leave now false im ls, ls, c)
      | LivePanic => None
      end
  end.

Definition Live (srv : ReplicationServer) (ctx : RpcContext) (now : time) (eof : bool)
    (msgs : list (LiveEnv * live_msg)) (im : InstanceManager)
    : option (InstanceManager * LiveState * option code) :=
  live_loop srv ctx now eof msgs im (mkLive None 0 0 0 []).

(** * Backfill *)

Record Block := mkBlock {
  bk_BaseSeq : Z;
  bk_BaseTimeUs : Z;
  bk_FrameCount : Z;
  bk_Data : list Z;
  bk_Compressed : bool;
  bk_BlockSize : Z
}.

Record BackfillEnv := mkBackfillEnv {
  be_now : time;
  be_create_ok : bool;
  be_send_ok : bool;
  be_persist_ok : bool
}.

Record BackfillDownstream := mkDownstream { ContinuousThrough_ : Z; Remaining : list SeqRange }.

Record BackfillState := mkBackfill {
  bf_cfg : BlockWriterConfig;
  bf_bw : BlockWriter.BlockWriter;
  blocksReceived : Z;
  bf_sent : list BackfillDownstream
}.

(** [AppendBlock] with the writer it leaves behind on an error: a file it
    opened stays open. *)
Definition append_or_skip (cfg : BlockWriterConfig) (e : BWEnv) (b : Block) (w : BlockWriter.BlockWriter)
    : BlockWriter.BlockWriter * bool :=
  match AppendBlock cfg e (bk_BaseSeq b) (bk_BaseTimeUs b) (bk_Data b) (bk_Compressed b) w with
  | Ok w => (w, true)
  | Err _ =>
      (match bw_file w with
       | None => match bw_openFile cfg e (time_UnixMicro (bk_BaseTimeUs b)) w with Ok w' => w' | Err _ => w end
       | Some _ => w
       end, false)
  end.

(** The locked section of a block: the range it fills and the new cursor. *)
Definition fill_block (now : time) (b : Block) (s : InstanceState) : InstanceState :=
  let endSeq := u64 (bk_BaseSeq b + bk_FrameCount b) in
  let holes := (Fill (is_HoleTracker s) (bk_BaseSeq b) endSeq).1 in
  let continuous := ContinuousThrough holes 0 in
  let cursor :=
    if negb (continuous =? max_u64) && (continuous >? is_Cursor s) then continuous
    else if (continuous =? max_u64) && (is_BoatHeadSeq s >? 0) then is_BoatHeadSeq s
    else is_Cursor s in
  set_progress (set_seen s (is_BoatHeadSeq s) (is_BoatJournalBytes s) now (is_Connected s)) cursor holes.

(** One received message; [None] in the result means the stream goes on. *)
Definition backfill_block (id : string) (e : BackfillEnv) (msg : option Block) (im : InstanceManager)
    (bf : BackfillState) : option (InstanceManager * BackfillState * option code) :=
  match msg with
  | None => Some (im, bf, None)
  | Some b =>
      let cfg := mkBWConfig (if bk_BlockSize b >? 0 then bk_BlockSize b else bwc_BlockSize (bf_cfg bf))
                   (if bk_Compressed b then CompressionZstd else bwc_Compression (bf_cfg bf))
                   (bwc_RotateDuration (bf_cfg bf)) (bwc_RotateSize (bf_cfg bf)) in
      let '(w, ok) := append_or_skip cfg (mkBWEnv (be_now e) (be_create_ok e)) b (bf_bw bf) in
      if negb ok then Some (im, mkBackfill cfg w (blocksReceived bf) (bf_sent bf), None)
      else
        s ← Get id im;
        let n := blocksReceived bf + 1 in
        let s := RecordEvent EventBlockReceived
          [("base_seq"%string, DInt (bk_BaseSeq b)); ("frame_count"%string, DInt (bk_FrameCount b));
           ("bytes"%string, DInt (zlen (bk_Data b))); ("compressed"%string, DBool (bk_Compressed b))] (be_now e) s in
        let s := fill_block (be_now e) b s in
        let resp := mkDownstream (is_Cursor s) (Holes.Holes (is_HoleTracker s)) in
        if be_send_ok e then
          let s := if n mod 10 =? 0 then persist (be_persist_ok e) s else s in
          Some (put_instance id s im, mkBackfill cfg w n (bf_sent bf ++ [resp]), None)
        else Some (put_instance id s im, mkBackfill cfg w n (bf_sent bf), Some SendError)
  end.

(** The deferred [bw.Close]: the files of the session join the journal. *)
Definition backfill_close (id : string) (bf : BackfillState) (im : InstanceManager) : InstanceManager :=
  let w := match BlockWriter.Close (bf_cfg bf) (bf_bw bf) with Ok w => w | Err _ => bf_bw bf end in
  match Get id im with
  | None => im
  | Some s => put_instance id (set_broker s (is_broker s) (store_files "backfill" (bw_rotated w) (is_journal s))) im
  end.

Definition backfill_done (id : string) (now : time) (persist_ok : bool) (bf : BackfillState) (im : InstanceManager)
    : InstanceManager :=
  match Get id im with
  | None => im
  | Some s =>
      let s := persist persist_ok s in
      put_instance id
        (RecordEvent EventBackfillStop [("blocks_received"%string, DInt (blocksReceived bf))] now s) im
  end.

Fixpoint backfill_loop (id : string) (now : time) (eof persist_ok : bool)
    (msgs : list (BackfillEnv * option Block)) (im : InstanceManager) (bf : BackfillState)
    : option (InstanceManager * BackfillState * option code) :=
  match msgs with
  | [] =>
      if eof then Some (backfill_close id bf (backfill_done id now persist_ok bf im), bf, None)
      else Some (backfill_close id bf im, bf, Some RecvError)
  | (e, m) :: msgs =>
      '(im, bf, c) ← backfill_block id e m im bf;
      match c with
      | Some c => Some (backfill_close id bf im, bf, Some c)
      | None => backfill_loop id now eof persist_ok msgs im bf
      end
  end.

Definition backfill_config : BlockWriterConfig := mkBWConfig 262144 CompressionNone 0 0.

Definition Backfill (ctx : RpcContext) (now : time) (eof persist_ok : bool)
    (msgs : list (BackfillEnv * option Block)) (im : InstanceManager)
    : option (InstanceManager * list BackfillDownstream * option code) :=
  match extractInstanceID ctx with
  | Err c => Some (im, [], Some c)
  | Ok id =>
      match Get id im with
      | None => Some (im, [], Some FailedPrecondition)
      | Some s =>
          let s := RecordEvent EventBackfillStart
            [("holes"%string, DInt (Z.of_nat (Len (is_HoleTracker s))))] now s in
          let im := put_instance id s im in
          match NewBlockWriter backfill_config with
          | None => Some (im, [], Some Internal)
          | Some (cfg, w) =>
              '(im, bf, c) ← backfill_loop id now eof persist_ok msgs im (mkBackfill cfg w 0 []);
              Some (im, bf_sent bf, c)
          end
      end
  end.

Definition GetInstanceBroker (id : string) (im : InstanceManager) : option (InstanceManager * option RunningBroker) :=
  match Get id im with
  | None => Some (im, None)
  | Some s => s ← ensureBroker s; Some (put_instance id s im, is_broker s)
  end.

(** * What the replication state claims

    [received] lists the sequence numbers the instance has taken in: live frames
    accepted by the broker's queue and ranges of blocks appended. *)

Record world := mkWorld { w_inst : InstanceState; w_received : list SeqRange }.
Definition got (w : world) (q : Z) : Prop := missing (w_received w) q.

(** The instance's broker can take one more frame. *)
Definition has_room (s : InstanceState) : bool :=
  match is_broker s with Some rb => (length (rb_rx rb) <? rx_capacity)%nat | None => true end.

(** Everything but handlers: the two goroutines, events, disconnects, closed
    files.  None of it touches the cursor, the holes or [state.json]. *)
Inductive background : InstanceState -> InstanceState -> Prop :=
| bg_broker ord now s rb rb' :
    is_broker s = Some rb -> broker_takes ord now rb = Some rb' ->
    background s (set_broker s (Some rb') (is_journal s))
| bg_writer EA ED BD now ok s rb rb' :
    is_broker s = Some rb -> writer_takes EA ED BD now ok rb = Ok rb' ->
    background s (set_broker s (Some rb') (is_journal s))
| bg_stop EA ED BD ord now ok n s s' : stopBroker EA ED BD ord now ok n s = Some s' -> background s s'
| bg_start s s' : ensureBroker s = Some s' -> background s s'
| bg_event typ detail now s : background s (RecordEvent typ detail now s)
| bg_seen s head bytes seen connected : 0 <= head <= max_u64 -> background s (set_seen s head bytes seen connected)
| bg_tuning s o rd rs idle ring : background s (set_tuning s o rd rs idle ring)
| bg_files s b files : background s (set_broker s b files).

(** The numbers up to the boat's head that a block leaves unaccounted for. *)
Definition caught_up (w : world) (b : Block) : Prop :=
  forall q, 1 <= q <= is_BoatHeadSeq (w_inst w) ->
    got w q \/ bk_BaseSeq b <= q < bk_BaseSeq b + bk_FrameCount b.

Definition block_range (b : Block) : SeqRange := mkRange (bk_BaseSeq b) (bk_BaseSeq b + bk_FrameCount b).
Definition frame_range (f : LiveFrame) : SeqRange := mkRange (lf_Seq f) (lf_Seq f + 1).

Inductive step : world -> world -> Prop :=
| step_handshake now ok head bytes w s resp :
    0 <= head <= max_u64 -> handshake_instance now ok head bytes (w_inst w) = Some (s, resp) ->
    step w (mkWorld s (w_received w))
| step_frame now f w s :
    0 <= lf_Seq f <= max_u64 -> live_frame now f (w_inst w) = Some s -> has_room (w_inst w) = true ->
    step w (mkWorld s (w_received w ++ [frame_range f]))
| step_dropped now f w s :
    0 <= lf_Seq f <= max_u64 -> live_frame now f (w_inst w) = Some s ->
    lf_Seq f <> u64 (is_Cursor (w_inst w) + 1) -> step w (mkWorld s (w_received w))
| step_block now b w :
    0 <= bk_BaseSeq b -> 0 <= bk_FrameCount b ->
    (is_HoleTracker (fill_block now b (w_inst w)) = [] -> caught_up w b) ->
    step w (mkWorld (fill_block now b (w_inst w)) (w_received w ++ [block_range b]))
| step_persist ok w : step w (mkWorld (persist ok (w_inst w)) (w_received w))
| step_restart w :
    step w (mkWorld (loaded (is_ID (w_inst w)) (is_disk (w_inst w))) (w_received w))
| step_background w s : background (w_inst w) s -> step w (mkWorld s (w_received w)).

Inductive reachable : world -> Prop :=
| reach_new id im : reachable (mkWorld (fresh_instance id im) [])
| reach_step w w' : reachable w -> step w w' -> reachable w'.

(** Every number the cursor or a hole reaches over is received or in a hole. *)
Definition known (cursor : Z) (holes : HoleTracker) (q : Z) : Prop :=
  q <= cursor \/ exists r, r ∈ holes /\ q < End r.
Definition accounted (cursor : Z) (holes : HoleTracker) (rs : list SeqRange) : Prop :=
  forall q, 1 <= q -> known cursor holes q -> missing rs q \/ missing holes q.

Record claim_ok (cursor : Z) (holes : HoleTracker) (rs : list SeqRange) : Prop := {
  co_holes : holes_ok holes;
  co_cursor : 0 <= cursor <= max_u64;
  co_accounted : accounted cursor holes rs
}.

Record world_ok (w : world) : Prop := {
  wo_claim : claim_ok (is_Cursor (w_inst w)) (is_HoleTracker (w_inst w)) (w_received w);
  wo_head : 0 <= is_BoatHeadSeq (w_inst w) <= max_u64;
  wo_disk : forall p, is_disk (w_inst w) = Some p ->
    claim_ok (ps_Cursor p) (ps_Holes p) (w_received w) /\ 0 <= ps_BoatHeadSeq p <= max_u64
}.

Lemma claim_more cursor holes rs rs' : claim_ok cursor holes rs -> claim_ok cursor holes (rs ++ rs').
Proof.
  intros [H1 H2 H3]. constructor; auto. intros q Hq Hk. rewrite missing_app. destruct (H3 q Hq Hk); auto.
Qed.

Lemma claim_add cursor holes rs head :
  claim_ok cursor holes rs -> 0 <= head <= max_u64 -> 0 < cursor -> u64 (cursor + 1) < head ->
  claim_ok cursor (Holes.Add holes (u64 (cursor + 1)) head) rs.
Proof.
  intros [H1 H2 H3] Hh Hc Hlt. pose proof (wrap_range 64 (cursor + 1) ltac:(lia)) as Hr.
  destruct (Add_ok holes (u64 (cursor + 1)) head H1 ltac:(lia) ltac:(lia)) as [Hok Hm].
  constructor; [exact Hok|exact H2|]. intros q Hq Hk. rewrite Hm.
  destruct (decide (u64 (cursor + 1) <= q < head)) as [|Hout]; [tauto|].
  destruct Hk as [Hle|(r & Hr' & Hlt')]; [destruct (H3 q Hq ltac:(now left)); tauto|].
  assert (Hlast : missing (Holes.Add holes (u64 (cursor + 1)) head) (End r - 1)).
  { exists r. split; [done|]. apply list_elem_of_lookup in Hr' as [i Hi].
    pose proof (holes_from_lookup 0 _ _ _ (proj1 Hok) Hi). unfold covers. lia. }
  apply Hm in Hlast as [(r0 & Hr0 & Hc0)|Hin].
  - destruct (H3 q Hq) as [|]; [|tauto|tauto]. right. exists r0. split; [done|]. unfold covers in Hc0. lia.
  - assert (q <= cursor) by (unfold wrap in *; destruct (decide (cursor + 1 < 2 ^ 64));
      [rewrite Z.mod_small in * by lia|unfold max_u64 in *]; lia).
    destruct (H3 q Hq ltac:(now left)); tauto.
Qed.

Lemma claim_fill cursor holes rs s n :
  claim_ok cursor holes rs -> 0 <= s -> 0 <= n ->
  claim_ok cursor (Fill holes s (u64 (s + n))).1 (rs ++ [mkRange s (s + n)]).
Proof.
  intros [H1 H2 H3] Hs Hn. destruct (Fill_ok holes s (u64 (s + n)) H1) as (Hok & Hm & _).
  assert (Hw : u64 (s + n) <= s + n) by (apply Z.mod_le; lia).
  assert (Hcase : forall q, missing holes q ->
    missing (rs ++ [mkRange s (s + n)]) q \/ missing (Fill holes s (u64 (s + n))).1 q).
  { intros q Hq. rewrite missing_app, missing_cons, missing_nil, Hm. unfold covers. cbn [Start End].
    destruct (decide (s <= q < u64 (s + n))); [left; right; left; lia|tauto]. }
  constructor; [exact Hok|exact H2|]. intros q Hq Hk.
  assert (Hk' : known cursor holes q).
  { destruct Hk as [|(r & Hr & Hlt)]; [now left|]. right.
    assert (Hlast : missing (Fill holes s (u64 (s + n))).1 (End r - 1)).
    { exists r. split; [done|]. apply list_elem_of_lookup in Hr as [i Hi].
      pose proof (holes_from_lookup 0 _ _ _ (proj1 Hok) Hi). unfold covers. lia. }
    apply Hm in Hlast as [(r0 & Hr0 & Hc0) _]. exists r0. split; [done|]. unfold covers in Hc0. lia. }
  destruct (H3 q Hq Hk') as [|Hmiss]; [left; rewrite missing_app; auto|auto].
Qed.

Lemma claim_cursor cursor cursor' holes rs :
  claim_ok cursor holes rs -> 0 <= cursor' <= max_u64 ->
  (forall q, cursor < q <= cursor' -> missing rs q \/ known cursor holes q) -> claim_ok cursor' holes rs.
Proof.
  intros [H1 H2 H3] Hr Hq. constructor; [exact H1|exact Hr|]. intros q Hq1 [Hle|Hk].
  - destruct (decide (q <= cursor)); [apply H3; [done|now left]|].
    destruct (Hq q ltac:(lia)) as [|Hk]; [now left|]. now apply H3.
  - apply H3; [done|now right].
Qed.

Lemma continuous_unbounded h : holes_ok h -> ContinuousThrough h 0 = max_u64 -> h = [].
Proof.
  intros Hok E. destruct h as [|r h]; [done|]. exfalso.
  pose proof (holes_from_lookup 0 _ 0%nat r (proj1 Hok) eq_refl) as Hr.
  assert (Hm : missing (r :: h) (Start r)) by (exists r; split; [now left|unfold covers; lia]).
  destruct (ContinuousThrough_ok _ 0 Hok ltac:(lia)) as [[_ H]|(m & Hm' & _ & _ & H)].
  - now apply (H (Start r) ltac:(lia)).
  - apply (holes_ok_below _ _ Hok) in Hm'. rewrite E in H. destruct (Z.eqb_spec m 0); unfold max_u64 in *; lia.
Qed.

Lemma fill_block_claim now b s rs :
  claim_ok (is_Cursor s) (is_HoleTracker s) rs -> 0 <= is_BoatHeadSeq s <= max_u64 ->
  0 <= bk_BaseSeq b -> 0 <= bk_FrameCount b ->
  (is_HoleTracker (fill_block now b s) = [] -> caught_up (mkWorld s rs) b) ->
  claim_ok (is_Cursor (fill_block now b s)) (is_HoleTracker (fill_block now b s)) (rs ++ [block_range b]).
Proof.
  intros Hcl Hhead Hb Hn Hcaught. pose proof (claim_fill _ _ _ (bk_BaseSeq b) (bk_FrameCount b) Hcl Hb Hn) as Hf.
  unfold fill_block, block_range in *. cbn [is_Cursor is_HoleTracker set_progress set_seen is_BoatHeadSeq] in *.
  set (holes := (Fill (is_HoleTracker s) (bk_BaseSeq b) (u64 (bk_BaseSeq b + bk_FrameCount b))).1) in *.
  pose proof (co_holes _ _ _ Hf) as Hok. pose proof (co_cursor _ _ _ Hf) as Hcr.
  destruct (ContinuousThrough_ok holes 0 Hok ltac:(lia)) as [[E _]|(m & Hm & Hm0 & _ & E)].
  - pose proof (continuous_unbounded _ Hok E) as Hnil. rewrite E. change (max_u64 =? max_u64) with true. cbn [negb andb].
    destruct (is_BoatHeadSeq s >? 0) eqn:Hpos; [|exact Hf].
    apply (claim_cursor (is_Cursor s)); [exact Hf|exact Hhead|]. intros q Hq. left.
    destruct (Hcaught Hnil q) as [Hgot|Hin]; [cbn; lia| |]; rewrite missing_app, missing_cons.
    + now left.
    + right. left. unfold covers. cbn. lia.
  - pose proof (holes_ok_below _ _ Hok Hm) as Hrange.
    assert (Hne : (ContinuousThrough holes 0 =? max_u64) = false)
      by (apply Z.eqb_neq; rewrite E; destruct (Z.eqb_spec m 0); unfold max_u64 in *; lia).
    rewrite Hne. cbn [negb andb]. destruct (ContinuousThrough holes 0 >? is_Cursor s) eqn:Hgt; [|exact Hf].
    to_props. apply (claim_cursor (is_Cursor s)); [exact Hf| |].
    + rewrite E. destruct (Z.eqb_spec m 0); unfold max_u64 in *; lia.
    + intros q Hq. right. right. rewrite E in Hq. destruct Hm as (r & Hr & Hc). exists r. split; [done|].
      unfold covers in Hc. destruct (Z.eqb_spec m 0); lia.
Qed.

(** ** The background leaves the claim alone *)

Definition same_claim (s s' : InstanceState) : Prop :=
  is_Cursor s' = is_Cursor s /\ is_HoleTracker s' = is_HoleTracker s /\ is_disk s' = is_disk s.

Lemma ensureBroker_same s s' : ensureBroker s = Some s' -> same_claim s s' /\
  is_BoatHeadSeq s' = is_BoatHeadSeq s /\ is_ID s' = is_ID s.
Proof.
  unfold ensureBroker. destruct (is_broker s); [now intros [= <-]|].
  destruct (NewBroker _); [|done]. cbn. destruct (NewJournalWriter _) as [[cfg jw]|]; now intros [= <-].
Qed.

Lemma background_same s s' :
  background s s' -> same_claim s s' /\ (0 <= is_BoatHeadSeq s <= max_u64 -> 0 <= is_BoatHeadSeq s' <= max_u64).
Proof.
  induction 1 as [| |? ? ? ? ? ? ? s s' H|s s' H| | | |]; try done.
  - unfold stopBroker in H. destruct (is_broker s); [|now injection H as <-].
    destruct (drain_broker _ _ _ _); [|done]. now injection H as <-.
  - apply ensureBroker_same in H as (Hs & Hh & _). split; [exact Hs|]. now rewrite Hh.
Qed.

Lemma handshake_claim now ok head bytes s s' resp rs :
  claim_ok (is_Cursor s) (is_HoleTracker s) rs -> 0 <= head <= max_u64 ->
  handshake_instance now ok head bytes s = Some (s', resp) ->
  is_Cursor s' = is_Cursor s /\ is_BoatHeadSeq s' = head /\
  is_HoleTracker s' = (if (is_Cursor s >? 0) && (head >? u64 (is_Cursor s + 1))
                       then Holes.Add (is_HoleTracker s) (u64 (is_Cursor s + 1)) head else is_HoleTracker s) /\
  hr_Holes resp = is_HoleTracker s' /\ hr_LiveStartFrom resp = (if is_Cursor s =? 0 then 1 else head) /\
  (is_disk s' = is_disk s \/ is_disk s' = Some (snapshotLocked s')) /\
  claim_ok (is_Cursor s) (is_HoleTracker s') rs.
Proof.
  intros Hcl Hh. unfold handshake_instance.
  set (s1 := if _ && _ then _ else _).
  destruct (ensureBroker s1) as [s2|] eqn:E; [|done]. cbn [mbind option_bind]. intros [= <- <-].
  apply ensureBroker_same in E as ((Ec & Eh & Ed) & Ehead & _).
  assert (H1 : is_Cursor s1 = is_Cursor s /\ is_BoatHeadSeq s1 = head /\ is_disk s1 = is_disk s /\
    is_HoleTracker s1 = (if (is_Cursor s >? 0) && (head >? u64 (is_Cursor s + 1))
                         then Holes.Add (is_HoleTracker s) (u64 (is_Cursor s + 1)) head else is_HoleTracker s))
    by (unfold s1; cbn [is_Cursor is_HoleTracker set_seen]; destruct (_ && _); done).
  clearbody s1. destruct H1 as (Hc1 & Hh1 & Hd1 & Ht1). unfold Holes.Holes. cbn [hr_Holes hr_LiveStartFrom].
  assert (Hfinal : forall t, (t = s2 \/ t = set_disk s2 (Some (snapshotLocked s2))) ->
    is_Cursor t = is_Cursor s /\ is_BoatHeadSeq t = head /\ is_HoleTracker t = is_HoleTracker s1 /\
    is_HoleTracker s2 = is_HoleTracker t /\ (is_disk t = is_disk s \/ is_disk t = Some (snapshotLocked t))).
  { intros t [->| ->]; cbn; rewrite ?Ec, ?Hc1, ?Ehead, ?Hh1, ?Eh; repeat split; auto. left. congruence. }
  destruct (Hfinal (persist ok s2)) as (F1 & F2 & F3 & F4 & F5); [unfold persist; destruct ok; auto|].
  rewrite F3, Ht1, Ec, Hc1. split; [exact F1|]. split; [exact F2|]. split; [done|].
  split; [congruence|]. split; [done|]. split; [exact F5|]. destruct (_ && _) eqn:Eb; [|exact Hcl].
  to_props. apply claim_add; (exact Hcl || lia).
Qed.

Lemma live_frame_fields now f s s' :
  live_frame now f s = Some s' ->
  is_Cursor s' = (if lf_Seq f =? u64 (is_Cursor s + 1) then lf_Seq f else is_Cursor s) /\
  is_HoleTracker s' = is_HoleTracker s /\ is_disk s' = is_disk s /\ is_BoatHeadSeq s' = is_BoatHeadSeq s.
Proof.
  unfold live_frame. destruct (ensureBroker s) as [s1|] eqn:E; [|done]. cbn.
  apply ensureBroker_same in E as ((Ec & Eh & Ed) & Ehead & _). destruct (is_broker s1); [|done]. cbn.
  rewrite Ec. destruct (lf_Seq f =? u64 (is_Cursor s + 1)); intros [= <-]; cbn; auto.
Qed.

Lemma live_frame_claim cursor holes rs f :
  claim_ok cursor holes rs -> 0 <= lf_Seq f <= max_u64 ->
  claim_ok (if lf_Seq f =? u64 (cursor + 1) then lf_Seq f else cursor) holes (rs ++ [frame_range f]).
Proof.
  intros Hcl Hr. pose proof (claim_more _ _ _ [frame_range f] Hcl) as Hmore.
  destruct (Z.eqb_spec (lf_Seq f) (u64 (cursor + 1))) as [E|]; [|exact Hmore].
  apply (claim_cursor cursor); [exact Hmore|lia|]. intros q Hq. left.
  rewrite missing_app, missing_cons. right. left. unfold covers, frame_range. cbn [Start End].
  pose proof (Z.mod_le (cursor + 1) (2 ^ 64)) as Hle. destruct Hcl as [_ Hc _]. unfold wrap in E. lia.
Qed.

(** ** Restarting from [state.json] *)

Lemma add_holes_ok hs : forall h,
  holes_ok h -> Forall (fun r => 0 <= Start r /\ End r <= max_u64) hs ->
  holes_ok (foldl add_hole h hs) /\ forall q, missing (foldl add_hole h hs) q <-> missing h q \/ missing hs q.
Proof.
  induction hs as [|r hs IH]; intros h Hh Hr; cbn [foldl].
  - split; [exact Hh|]. intros q. rewrite missing_nil. tauto.
  - inversion Hr as [|? ? [Hs He] Hr']; subst. destruct (Add_ok h (Start r) (End r) Hh Hs He) as [Hok Hm].
    destruct (IH (add_hole h r) Hok Hr') as [Hok' Hm']. split; [exact Hok'|].
    intros q. rewrite Hm'. unfold add_hole. rewrite Hm, missing_cons. unfold covers. tauto.
Qed.

Lemma reload_holes hs : holes_ok hs -> foldl add_hole NewHoleTracker hs = hs.
Proof.
  intros Hok. assert (Hr : Forall (fun r => 0 <= Start r /\ End r <= max_u64) hs).
  { apply Forall_lookup. intros i r Hi. pose proof (holes_from_lookup 0 _ _ _ (proj1 Hok) Hi).
    pose proof (proj1 (Forall_lookup _ _) (proj2 Hok) _ _ Hi). cbn in *. lia. }
  destruct (add_holes_ok hs NewHoleTracker) as [Hok' Hm]; [split; [done|constructor]|exact Hr|].
  apply holes_canonical; [exact Hok'|exact Hok|]. intros q. rewrite Hm. unfold NewHoleTracker.
  rewrite missing_nil. tauto.
Qed.

(** ** Every step keeps the claim *)

Lemma disk_more w rs p :
  world_ok w -> is_disk (w_inst w) = Some p ->
  claim_ok (ps_Cursor p) (ps_Holes p) (w_received w ++ rs) /\ 0 <= ps_BoatHeadSeq p <= max_u64.
Proof. intros Hw Hp. destruct (wo_disk _ Hw p Hp) as [H1 H2]. split; [now apply claim_more|exact H2]. Qed.

(** A step that leaves the disk alone and keeps the claim. *)
Lemma world_step w s rs :
  world_ok w -> is_disk s = is_disk (w_inst w) -> 0 <= is_BoatHeadSeq s <= max_u64 ->
  claim_ok (is_Cursor s) (is_HoleTracker s) (w_received w ++ rs) -> world_ok (mkWorld s (w_received w ++ rs)).
Proof.
  intros Hw Hd Hh Hc. constructor; [exact Hc|exact Hh|]. cbn [w_inst w_received]. rewrite Hd.
  intros p Hp. now apply disk_more.
Qed.

Lemma step_ok w w' : world_ok w -> step w w' -> world_ok w'.
Proof.
  intros Hw Hstep. pose proof Hw as [Hcl Hhead Hdisk].
  destruct Hstep as [now ok head bytes w s resp Hr H|now f w s Hr H _|now f w s Hr H Hne|now b w Hb Hn Hc|ok w|w|w s H].
  - destruct (handshake_claim now ok head bytes _ _ _ _ Hcl Hr H) as (E1 & E2 & E3 & _ & _ & Hd & Hcl').
    constructor; cbn [w_inst w_received]; rewrite ?E1, ?E2; [exact Hcl'|exact Hr|].
    intros p Hp. destruct Hd as [Hd|Hd]; rewrite Hd in Hp; [now apply Hdisk|]. injection Hp as <-.
    cbn [snapshotLocked ps_Cursor ps_Holes ps_BoatHeadSeq]. rewrite E1, E2. split; [exact Hcl'|exact Hr].
  - apply live_frame_fields in H as (E1 & E2 & E3 & E4).
    apply world_step; [exact Hw|exact E3|now rewrite E4|]. rewrite E1, E2. now apply live_frame_claim.
  - apply live_frame_fields in H as (E1 & E2 & E3 & E4).
    rewrite (proj2 (Z.eqb_neq _ _) Hne) in E1. rewrite <- (app_nil_r (w_received w)).
    apply world_step; [exact Hw|exact E3|now rewrite E4|]. rewrite E1, E2, app_nil_r. exact Hcl.
  - apply world_step; [exact Hw|done|exact Hhead|].
    now apply fill_block_claim.
  - constructor; cbn [w_inst w_received]; unfold persist; destruct ok; cbn; try assumption.
    intros p [= <-]. cbn. split; assumption.
  - destruct (is_disk (w_inst w)) as [p|] eqn:Ed.
    + destruct (Hdisk p eq_refl) as [Hp Hph]. constructor; cbn [w_inst w_received loaded is_Cursor is_HoleTracker
        is_BoatHeadSeq is_disk]; rewrite ?(reload_holes _ (co_holes _ _ _ Hp)); [exact Hp|exact Hph|].
      intros p' [= <-]. split; assumption.
    + constructor; cbn [w_inst w_received loaded is_Cursor is_HoleTracker is_BoatHeadSeq is_disk]; try done.
      constructor; [split; [done|constructor]|unfold max_u64; lia|].
      intros q Hq [Hk|(r & Hr & _)]; [lia|now apply elem_of_nil in Hr].
  - apply background_same in H as ((E1 & E2 & E3) & Hh). rewrite <- (app_nil_r (w_received w)).
    apply world_step; [exact Hw|exact E3|auto|]. rewrite E1, E2, app_nil_r. exact Hcl.
Qed.

Lemma reachable_ok w : reachable w -> world_ok w.
Proof.
  induction 1 as [id im|w w' _ IH Hs]; [|exact (step_ok _ _ IH Hs)].
  constructor; cbn; [|unfold max_u64; lia|done].
  constructor; [split; [done|constructor]|unfold max_u64; lia|].
  intros q Hq [Hk|(r & Hr & _)]; [lia|now apply elem_of_nil in Hr].
Qed.


(** * Backfill completes *)

Definition in_blocks (bs : list Block) (q : Z) : Prop :=
  exists b, b ∈ bs /\ bk_BaseSeq b <= q < bk_BaseSeq b + bk_FrameCount b.
Definition block_ok64 (b : Block) : Prop :=
  0 <= bk_BaseSeq b /\ 0 <= bk_FrameCount b /\ bk_BaseSeq b + bk_FrameCount b <= max_u64.

Lemma fill_block_holes now b s :
  holes_ok (is_HoleTracker s) -> block_ok64 b ->
  holes_ok (is_HoleTracker (fill_block now b s)) /\
  is_BoatHeadSeq (fill_block now b s) = is_BoatHeadSeq s /\
  forall q, missing (is_HoleTracker (fill_block now b s)) q <->
    missing (is_HoleTracker s) q /\ ~ bk_BaseSeq b <= q < bk_BaseSeq b + bk_FrameCount b.
Proof.
  intros Hok (H1 & H2 & H3). cbn [fill_block is_HoleTracker set_progress is_BoatHeadSeq set_seen].
  rewrite (wrap_small 64 (_ + _)) by (unfold max_u64 in *; lia).
  destruct (Fill_ok (is_HoleTracker s) (bk_BaseSeq b) (bk_BaseSeq b + bk_FrameCount b) Hok) as (Hk & Hm & _).
  split; [exact Hk|]. split; [done|exact Hm].
Qed.

Lemma fill_blocks_holes now bs : forall s,
  holes_ok (is_HoleTracker s) -> Forall block_ok64 bs ->
  let s' := foldl (fun s b => fill_block now b s) s bs in
  holes_ok (is_HoleTracker s') /\ is_BoatHeadSeq s' = is_BoatHeadSeq s /\
  forall q, missing (is_HoleTracker s') q <-> missing (is_HoleTracker s) q /\ ~ in_blocks bs q.
Proof.
  induction bs as [|b bs IH]; intros s Hok Hbs; cbn [foldl].
  - split; [exact Hok|]. split; [done|]. intros q. split; [|tauto]. intros Hq. split; [done|].
    intros (b & Hb & _). now apply elem_of_nil in Hb.
  - inversion Hbs as [|? ? Hb Hbs']; subst. destruct (fill_block_holes now b s Hok Hb) as (Hk & Hh & Hm).
    destruct (IH _ Hk Hbs') as (Hk' & Hh' & Hm'). cbv zeta in *. split; [exact Hk'|]. split; [congruence|].
    intros q. rewrite Hm', Hm. unfold in_blocks. setoid_rewrite elem_of_cons. split.
    + intros [[H1 H2] H3]. split; [done|]. intros (b' & [->|Hb'] & Hc); [tauto|]. apply H3. eauto.
    + intros [H1 H2]. split; [split; [done|]|]; [|intros (b' & Hb' & Hc); apply H2; eauto].
      intros Hc. apply H2. exists b. auto.
Qed.

(** C31: backfill completes.  Once the blocks received cover every missing number,
    in whatever order and with whatever overlaps, no hole is left and the cursor
    stands at the head the boat reported. *)
Theorem backfill_completes now bs s :
  holes_ok (is_HoleTracker s) -> Forall block_ok64 bs -> bs <> [] -> 0 < is_BoatHeadSeq s ->
  (forall q, missing (is_HoleTracker s) q -> in_blocks bs q) ->
  let s' := foldl (fun s b => fill_block now b s) s bs in
  is_HoleTracker s' = [] /\ is_Cursor s' = is_BoatHeadSeq s.
Proof.
  intros Hok Hbs Hne Hhead Hcov. cbv zeta. destruct (fill_blocks_holes now bs s Hok Hbs) as (Hk & _ & Hm).
  cbv zeta in *.
  assert (Hnil : is_HoleTracker (foldl (fun s b => fill_block now b s) s bs) = []).
  { apply holes_canonical; [exact Hk|split; [done|constructor]|]. intros q. rewrite Hm, missing_nil.
    split; [|done]. intros [H1 H2]. auto. }
  split; [exact Hnil|]. destruct (exists_last Hne) as (bs1 & b & ->). rewrite foldl_app in *. cbn [foldl] in *.
  apply Forall_app in Hbs as [Hbs1 _].
  destruct (fill_blocks_holes now bs1 s Hok Hbs1) as (_ & Hh & _). cbv zeta in Hh.
  set (s1 := foldl _ s bs1) in *. clearbody s1. unfold fill_block in *.
  cbn [is_HoleTracker is_Cursor set_progress set_seen is_BoatHeadSeq] in *. rewrite Hnil, Hh.
  change (ContinuousThrough [] 0) with max_u64. change (max_u64 =? max_u64) with true. cbn [negb andb].
  rewrite Z.gtb_ltb, (proj2 (Z.ltb_lt _ _) Hhead). done.
Qed.

(** * Who may touch what, and panics *)

(** A ring size [NewBroker] accepts. *)
Definition ring_ok (n : Z) : bool :=
  let n := if n =? 0 then 65536 else n in Z.land n (n - 1) =? 0.

(** A ring size [NewBroker] accepts, and a log of events that is one. *)
Definition state_ok (s : InstanceState) : Prop :=
  ring_ok (is_ringSize s) = true /\ exists es, log_holds (is_events s) es.

Definition im_ok (im : InstanceManager) : Prop :=
  ring_ok (im_ringSize im) = true /\ forall id s, instances im !! id = Some s -> state_ok s.

Lemma state_ok_same s s' : is_ringSize s' = is_ringSize s -> is_events s' = is_events s -> state_ok s -> state_ok s'.
Proof. unfold state_ok. by intros -> ->. Qed.

Lemma state_ok_event typ d now s : state_ok s -> state_ok (RecordEvent typ d now s).
Proof. intros [H [es He]]. split; [exact H|]. eexists. cbn. by apply record_event_holds. Qed.

Lemma state_ok_persist ok s : state_ok s -> state_ok (persist ok s).
Proof. unfold persist. by destruct ok. Qed.

(** A state after events and persists. *)
Ltac keep_ok := repeat (apply state_ok_event || apply state_ok_persist); try done.

(** Only instance [id] changes, and the manager stays well formed. *)
Record only (id : string) (im im' : InstanceManager) : Prop := {
  on_others : forall id', id' <> id -> instances im' !! id' = instances im !! id';
  on_kept : is_Some (instances im !! id) -> is_Some (instances im' !! id);
  on_ok : im_ok im -> im_ok im'
}.

Lemma only_refl id im : only id im im.
Proof. done. Qed.
Lemma only_trans id im1 im2 im3 : only id im1 im2 -> only id im2 im3 -> only id im1 im3.
Proof. intros [A1 B1 C1] [A2 B2 C2]. constructor; auto. intros id' Hne. rewrite A2, A1; auto. Qed.

Lemma only_put id im s : (im_ok im -> state_ok s) -> only id im (put_instance id s im).
Proof.
  intros Hr. constructor; cbn [put_instance with_instances instances im_ringSize].
  - intros id' Hne. now rewrite lookup_insert_ne.
  - rewrite lookup_insert_eq. eauto.
  - intros Hok. split; [apply Hok|]. intros id' s'. cbn. destruct (decide (id' = id)) as [->|Hne].
    + rewrite lookup_insert_eq. intros [= <-]. auto.
    + rewrite lookup_insert_ne by done. apply Hok.
Qed.

Lemma ensureBroker_runs s :
  ring_ok (is_ringSize s) = true ->
  exists s', ensureBroker s = Some s' /\ is_Some (is_broker s') /\ is_ringSize s' = is_ringSize s /\ is_events s' = is_events s.
Proof.
  intros Hr. unfold ensureBroker. destruct (is_broker s) as [rb|] eqn:E; [eauto|].
  unfold NewBroker, new_ring. cbn [replica_config RingSize InitialHead].
  set (n := if is_ringSize s =? 0 then 65536 else is_ringSize s).
  assert (En : (if n =? 0 then 65536 else n) = n)
    by (unfold n; destruct (Z.eqb_spec (is_ringSize s) 0); [done|]; now rewrite (proj2 (Z.eqb_neq _ _))).
  rewrite En. unfold ring_ok in Hr. fold n in Hr. rewrite Hr. cbn [negb mbind option_bind].
  assert (Hj : exists jw, NewJournalWriter (replica_journal s) = Some jw) by (eexists; reflexivity).
  destruct Hj as [[cfg jw] ->]. eexists. split; [reflexivity|]. split; [cbn; eauto|done].
Qed.

Lemma handshake_runs now ok head bytes s :
  ring_ok (is_ringSize s) = true ->
  exists s' resp, handshake_instance now ok head bytes s = Some (s', resp) /\ is_ringSize s' = is_ringSize s /\
    (state_ok s -> state_ok s').
Proof.
  intros Hr. unfold handshake_instance. set (s1 := if _ && _ then _ else _).
  assert (Hr1 : is_ringSize s1 = is_ringSize s) by (unfold s1; destruct (_ && _); done).
  assert (He1 : state_ok s -> state_ok s1) by (unfold s1; destruct (_ && _); done).
  destruct (ensureBroker_runs s1) as (s2 & -> & _ & Hr2 & He2); [now rewrite Hr1|]. cbn.
  eexists _, _. split; [reflexivity|]. split; [unfold persist; destruct ok; cbn; congruence|].
  intros H%He1. apply state_ok_persist. apply (state_ok_same s1); [exact Hr2|exact He2|exact H].
Qed.

Lemma live_frame_runs now f s :
  ring_ok (is_ringSize s) = true -> exists s', live_frame now f s = Some s' /\ is_ringSize s' = is_ringSize s /\ is_events s' = is_events s.
Proof.
  intros Hr. unfold live_frame. destruct (ensureBroker_runs s Hr) as (s1 & -> & [rb Hrb] & Hr1 & He1). cbn. rewrite Hrb. cbn.
  eexists. split; [reflexivity|]. destruct (_ =? _); cbn; split; congruence.
Qed.

(** The calls of [ctx] act on instance [cn] only. *)
Definition acts_as (ctx : RpcContext) (cn : string) : Prop :=
  forall id, extractInstanceID ctx = Ok id -> id = cn.

(** The stream is resolved to nothing yet, or to the existing instance [cn]. *)
Definition stream_at (cn : string) (im : InstanceManager) (ls : LiveState) : Prop :=
  match ls_inst ls with None => True | Some id => id = cn /\ is_Some (instances im !! cn) end.

Definition outcome_ok (cn : string) (im : InstanceManager) (out : live_outcome) : Prop :=
  match out with
  | LiveGo im' ls' | LiveReturn im' ls' _ => only cn im im' /\ stream_at cn im' ls'
  | LivePanic => False
  end.

Lemma get_ok id im s : im_ok im -> instances im !! id = Some s -> state_ok s.
Proof. intros [_ H]. apply H. Qed.

Lemma put_at cn im s ls id :
  ls_inst ls = Some id -> id = cn -> is_Some (instances (put_instance cn s im) !! cn) /\ stream_at cn (put_instance cn s im) ls.
Proof.
  intros Hl ->. assert (H : is_Some (instances (put_instance cn s im) !! cn))
    by (cbn; rewrite lookup_insert_eq; eauto).
  split; [exact H|]. unfold stream_at. now rewrite Hl.
Qed.

Lemma live_resolve_ok ctx now cn im ls :
  acts_as ctx cn -> stream_at cn im ls -> im_ok im ->
  match live_resolve ctx now im ls with
  | Err _ => True
  | Ok (im', ls', id) => id = cn /\ only cn im im' /\ ls_inst ls' = Some cn /\ is_Some (instances im' !! cn)
  end.
Proof.
  intros Hact Hs Hok. unfold live_resolve, stream_at in *. destruct (ls_inst ls) as [id|] eqn:El.
  - destruct Hs as [-> Hs]. split; [done|]. split; [apply only_refl|]. split; assumption.
  - destruct (extractInstanceID ctx) as [id|c] eqn:Ee; [|done]. apply Hact in Ee as ->.
    unfold Get. destruct (instances im !! cn) as [s|] eqn:Es; [|done]. split; [done|].
    split; [apply only_put; intros _; now apply state_ok_event, (get_ok cn im s)|]. split; [done|].
    cbn. rewrite lookup_insert_eq. eauto.
Qed.

Lemma live_on_frame_ok ctx e f cn im ls :
  acts_as ctx cn -> stream_at cn im ls -> im_ok im -> outcome_ok cn im (live_on_frame ctx e f im ls).
Proof.
  intros Hact Hs Hok. pose proof (live_resolve_ok ctx (le_now e) cn im ls Hact Hs Hok) as H.
  unfold live_on_frame. destruct (live_resolve ctx (le_now e) im ls) as [[[im1 ls1] id]|c];
    [|split; [apply only_refl|exact Hs]].
  destruct H as (-> & Honly & Hl & [s Hget]). unfold Get. rewrite Hget.
  pose proof (on_ok _ _ _ Honly Hok) as Hok1. pose proof (get_ok cn im1 s Hok1 Hget) as Hring.
  assert (Hput : forall s' ls', state_ok s' -> ls_inst ls' = Some cn ->
    only cn im (put_instance cn s' im1) /\ stream_at cn (put_instance cn s' im1) ls').
  { intros s' ls' Hr Hl'. split; [eapply only_trans; [exact Honly|]; apply only_put; auto|].
    now apply (put_at cn im1 s' ls' cn). }
  destruct (le_allow e); cbn [negb]; [|apply Hput; keep_ok; done].
  destruct (live_frame_runs (le_now e) f s (proj1 Hring)) as (s' & -> & Hr' & He'). apply (state_ok_same s s' Hr' He') in Hring.
  destruct (le_tick e); [destruct (le_send_ok e)|]; cbn [outcome_ok]; apply Hput; try done;
    try destruct (_ mod _ =? 0); keep_ok.
Qed.

Lemma live_on_status_ok srv e head bytes cn im ls :
  stream_at cn im ls -> im_ok im -> outcome_ok cn im (live_on_status srv e head bytes im ls).
Proof.
  intros Hs Hok. unfold live_on_status. destruct (ls_inst ls) as [id|] eqn:El;
    [|split; [apply only_refl|exact Hs]].
  pose proof Hs as Hs'. unfold stream_at in Hs'. rewrite El in Hs'. destruct Hs' as [-> [s Hget]].
  unfold Get. rewrite Hget. pose proof (get_ok cn im s Hok Hget) as Hring.
  destruct (_ && _); cbn [outcome_ok]; (split; [apply only_put; intros _; keep_ok|]);
    now apply (put_at cn im _ ls cn).
Qed.

Lemma live_leave_only now d cn im ls : stream_at cn im ls -> im_ok im -> only cn im (live_leave now d im ls).
Proof.
  intros Hs Hok. unfold live_leave, stream_at in *. destruct (ls_inst ls) as [id|]; [|apply only_refl].
  destruct Hs as [-> [s Hget]]. unfold Get. rewrite Hget. apply only_put. intros _.
  apply state_ok_event. destruct d; now apply (get_ok cn im s).
Qed.

Lemma live_loop_ok srv ctx now eof cn msgs : forall im ls,
  acts_as ctx cn -> stream_at cn im ls -> im_ok im ->
  exists im' ls' c, live_loop srv ctx now eof msgs im ls = Some (im', ls', c) /\ only cn im im'.
Proof.
  induction msgs as [|[e m] msgs IH]; intros im ls Hact Hs Hok; cbn [live_loop].
  - eexists _, _, _. split; [reflexivity|]. now apply live_leave_only.
  - set (out := match m with LFrame f => _ | LStatus _ _ => _ end).
    assert (Hout : outcome_ok cn im out)
      by (destruct m; [now apply live_on_frame_ok|now apply live_on_status_ok]).
    destruct out as [im1 ls1|im1 ls1 c|]; [| |done]; destruct Hout as [Ho Hs1];
      pose proof (on_ok _ _ _ Ho Hok) as Hok1.
    + destruct (IH im1 ls1 Hact Hs1 Hok1) as (im' & ls' & c & E & Ho'). exists im', ls', c. split; [exact E|].
      now apply (only_trans cn im im1).
    + eexists _, _, _. split; [reflexivity|]. eapply only_trans; [exact Ho|]. now apply live_leave_only.
Qed.

Lemma backfill_block_ok cn e msg im bf :
  im_ok im -> is_Some (instances im !! cn) ->
  exists im' bf' c, backfill_block cn e msg im bf = Some (im', bf', c) /\ only cn im im'.
Proof.
  intros Hok [s Hget]. unfold backfill_block. destruct msg as [b|]; [|eexists _, _, _; split; [reflexivity|apply only_refl]].
  cbv zeta. destruct (append_or_skip _ _ _ _) as [w ok]. destruct ok; cbn [negb];
    [|eexists _, _, _; split; [reflexivity|apply only_refl]].
  unfold Get. rewrite Hget. cbn [mbind option_bind]. pose proof (get_ok cn im s Hok Hget) as Hring.
  destruct (be_send_ok e); eexists _, _, _; (split; [reflexivity|]); apply only_put; intros _; [destruct (_ =? 0)|]; unfold fill_block; keep_ok;
    (destruct (_ && _); keep_ok).
Qed.

Lemma backfill_close_only cn bf im : im_ok im -> only cn im (backfill_close cn bf im).
Proof.
  intros Hok. unfold backfill_close, Get. destruct (instances im !! cn) as [s|] eqn:E; [|apply only_refl].
  apply only_put. intros _. now apply (get_ok cn im s).
Qed.

Lemma backfill_done_only cn now ok bf im : im_ok im -> only cn im (backfill_done cn now ok bf im).
Proof.
  intros Hok. unfold backfill_done, Get. destruct (instances im !! cn) as [s|] eqn:E; [|apply only_refl].
  apply only_put. intros _. keep_ok. now apply (get_ok cn im s).
Qed.

Lemma backfill_loop_ok cn now eof ok msgs : forall im bf,
  im_ok im -> is_Some (instances im !! cn) ->
  exists im' bf' c, backfill_loop cn now eof ok msgs im bf = Some (im', bf', c) /\ only cn im im'.
Proof.
  induction msgs as [|[e m] msgs IH]; intros im bf Hok Hs; cbn [backfill_loop].
  - pose proof (backfill_done_only cn now ok bf im Hok) as Hd.
    destruct eof; eexists _, _, _; (split; [reflexivity|]).
    + eapply only_trans; [exact Hd|]. apply backfill_close_only, (on_ok _ _ _ Hd), Hok.
    + now apply backfill_close_only.
  - destruct (backfill_block_ok cn e m im bf Hok Hs) as (im1 & bf1 & c & -> & Ho). cbn [mbind option_bind].
    pose proof (on_ok _ _ _ Ho Hok) as Hok1. destruct c as [c|].
    + eexists _, _, _. split; [reflexivity|]. eapply only_trans; [exact Ho|]. now apply backfill_close_only.
    + destruct (IH im1 bf1 Hok1 (on_kept _ _ _ Ho Hs)) as (im' & bf' & c & E & Ho').
      exists im', bf', c. split; [exact E|]. now apply (only_trans cn im im1).
Qed.

Lemma GetOrCreate_ok id im :
  im_ok im -> exists im1 s, GetOrCreate id im = (im1, s) /\ only id im im1 /\ state_ok s.
Proof.
  intros Hok. unfold GetOrCreate. destruct (instances im !! id) as [s|] eqn:E.
  - exists im, s. split; [done|]. split; [apply only_refl|]. now apply (get_ok id im s).
  - assert (Hf : state_ok (fresh_instance id im)) by (split; [apply Hok|exists []; apply NewEventLog_holds]).
    eexists _, _. split; [reflexivity|]. split; [|exact Hf]. by apply (only_put id im).
Qed.

Lemma Handshake_ok ctx now ok req im cn :
  (verifyIdentity ctx (hq_InstanceId req) = Ok tt -> hq_InstanceId req = cn) -> im_ok im ->
  exists im' r, Handshake ctx now ok req im = Some (im', r) /\ only cn im im' /\
    (r = Err PermissionDenied \/ r = Err Unauthenticated -> im' = im).
Proof.
  intros Hv Hok. unfold Handshake. destruct (verifyIdentity ctx (hq_InstanceId req)) as [[]|c];
    [|eexists _, _; split; [reflexivity|]; split; [apply only_refl|done]].
  specialize (Hv eq_refl). subst cn.
  destruct (GetOrCreate_ok (hq_InstanceId req) im Hok) as (im1 & s & -> & Ho & Hring).
  destruct (handshake_runs now ok (hq_HeadSeq req) (hq_JournalBytes req) s (proj1 Hring)) as (s' & resp & -> & _ & Hr').
  cbn [mbind option_bind]. eexists _, _. split; [reflexivity|]. split; [|intros []; done].
  eapply only_trans; [exact Ho|]. apply only_put. intros _. now apply Hr'.
Qed.

Lemma Backfill_ok ctx now eof ok msgs im cn : extractInstanceID ctx = Ok cn -> im_ok im ->
  exists im' sent c, Backfill ctx now eof ok msgs im = Some (im', sent, c) /\ only cn im im'.
Proof.
  intros Hext Hok. unfold Backfill. rewrite Hext. unfold Get. destruct (instances im !! cn) as [s|] eqn:Es;
    [|eexists _, _, _; split; [reflexivity|apply only_refl]].
  cbv zeta. set (im1 := put_instance cn _ im).
  assert (Ho : only cn im im1) by (apply only_put; intros _; keep_ok; now apply (get_ok cn im s)).
  change (NewBlockWriter backfill_config) with (Some (backfill_config, mkBlockWriter None 0 0 0 [] [])).
  cbv iota beta.
  destruct (backfill_loop_ok cn now eof ok msgs im1 (mkBackfill backfill_config (mkBlockWriter None 0 0 0 [] []) 0 [])
    (on_ok _ _ _ Ho Hok)) as (im' & bf & c & E & Ho'); [unfold im1; cbn; rewrite lookup_insert_eq; eauto|].
  rewrite E. cbn [mbind option_bind]. eexists _, _, _. split; [reflexivity|]. now apply (only_trans cn im im1).
Qed.

(** A boat can touch its own instance only, and no request can bring the
    server down.  On a connection whose certificate names [cn], every handler, on
    every request and every stream of messages, returns (no nil broker, no
    missing instance) and leaves every other instance as it was. *)
Theorem mtls_isolation ctx cn chain chains srv now ok req eof lmsgs bmsgs im :
  rpc_tls ctx = Some ((cn :: chain) :: chains) -> im_ok im ->
  (exists im' r, Handshake ctx now ok req im = Some (im', r) /\ only cn im im') /\
  (exists im' ls c, Live srv ctx now eof lmsgs im = Some (im', ls, c) /\ only cn im im') /\
  (exists im' sent c, Backfill ctx now eof ok bmsgs im = Some (im', sent, c) /\ only cn im im').
Proof.
  intros Htls Hok. assert (Hext : extractInstanceID ctx = Ok cn) by (unfold extractInstanceID; now rewrite Htls).
  split; [|split].
  - destruct (Handshake_ok ctx now ok req im cn) as (im' & r & E & Ho & _); [|exact Hok|eauto].
    unfold verifyIdentity. rewrite Htls. case_bool_decide; [done|discriminate].
  - apply live_loop_ok; [|done|exact Hok]. intros id E. congruence.
  - by apply Backfill_ok.
Qed.

(** * The handlers are sequences of steps *)

Definition steps : world -> world -> Prop := rtc step.

Lemma steps_event typ d now s rs : steps (mkWorld s rs) (mkWorld (RecordEvent typ d now s) rs).
Proof. apply rtc_once, (step_background (mkWorld s rs)), bg_event. Qed.

Lemma steps_persist ok s rs : steps (mkWorld s rs) (mkWorld (persist ok s) rs).
Proof. apply rtc_once, (step_persist ok (mkWorld s rs)). Qed.

Lemma steps_frame now f s s' rs :
  0 <= lf_Seq f <= max_u64 -> live_frame now f s = Some s' ->
  has_room s = true \/ lf_Seq f <> u64 (is_Cursor s + 1) ->
  exists rs', steps (mkWorld s rs) (mkWorld s' rs') /\ (rs' = rs \/ rs' = rs ++ [frame_range f]).
Proof.
  intros Hr H [Hroom|Hne].
  - exists (rs ++ [frame_range f]). split; [|now right]. apply rtc_once, (step_frame now f (mkWorld s rs)); done.
  - exists rs. split; [|now left]. apply rtc_once, (step_dropped now f (mkWorld s rs)); done.
Qed.

(** The instance [cn] of [im'] is reached from [s] by steps that receive [rs']
    after [rs]. *)
Definition evolves (cn : string) (s : InstanceState) (rs : list SeqRange) (im' : InstanceManager)
    (rs' : list SeqRange) : Prop :=
  exists s', instances im' !! cn = Some s' /\ steps (mkWorld s rs) (mkWorld s' rs').

Lemma evolves_put cn s s' rs rs' im : steps (mkWorld s rs) (mkWorld s' rs') ->
  evolves cn s rs (put_instance cn s' im) rs'.
Proof. intros H. exists s'. split; [cbn; apply lookup_insert_eq|exact H]. Qed.

Lemma live_resolve_evolves ctx now cn im ls s rs im1 ls1 id :
  acts_as ctx cn -> stream_at cn im ls -> instances im !! cn = Some s ->
  live_resolve ctx now im ls = Ok (im1, ls1, id) ->
  id = cn /\ exists s1, instances im1 !! cn = Some s1 /\ steps (mkWorld s rs) (mkWorld s1 rs) /\
    is_Cursor s1 = is_Cursor s /\ has_room s1 = has_room s.
Proof.
  intros Hact Hs Hget. unfold live_resolve, stream_at in *. destruct (ls_inst ls) as [i|].
  - intros [= <- _ <-]. destruct Hs as [-> _]. split; [done|]. exists s. split; [exact Hget|]. split; [apply rtc_refl|done].
  - destruct (extractInstanceID ctx) as [i|] eqn:Ee; [|done]. apply Hact in Ee as ->.
    unfold Get. rewrite Hget. intros [= <- _ <-]. split; [done|]. eexists. split; [cbn; apply lookup_insert_eq|].
    split; [apply steps_event|done].
Qed.

Lemma live_on_frame_evolves ctx e f cn im ls s rs im' ls' :
  acts_as ctx cn -> stream_at cn im ls -> instances im !! cn = Some s -> 0 <= lf_Seq f <= max_u64 ->
  has_room s = true \/ lf_Seq f <> u64 (is_Cursor s + 1) ->
  live_on_frame ctx e f im ls = LiveGo im' ls' ->
  exists rs', evolves cn s rs im' rs' /\ (rs' = rs \/ rs' = rs ++ [frame_range f]).
Proof.
  intros Hact Hs Hget Hr Hroom. unfold live_on_frame.
  destruct (live_resolve ctx (le_now e) im ls) as [[[im1 ls1] id]|] eqn:El; [|done].
  destruct (live_resolve_evolves _ _ _ _ _ _ rs _ _ _ Hact Hs Hget El) as (-> & s1 & Hg1 & Hst & Hc1 & Hr1).
  unfold Get. rewrite Hg1. destruct (le_allow e); cbn [negb]; [|done].
  destruct (live_frame (le_now e) f s1) as [s2|] eqn:Ef; [|done].
  destruct (steps_frame (le_now e) f s1 s2 rs Hr Ef) as (rs' & Hst2 & Hrs'); [now rewrite Hc1, Hr1|].
  set (s3 := if _ =? 0 then RecordEvent _ _ _ s2 else s2).
  assert (Hst3 : steps (mkWorld s rs) (mkWorld s3 rs')).
  { etransitivity; [exact Hst|]. etransitivity; [exact Hst2|].
    unfold s3. destruct (_ =? 0); [apply steps_event|apply rtc_refl]. }
  intros H. exists rs'. split; [|exact Hrs']. destruct (le_tick e).
  - destruct (le_send_ok e); [|done]. injection H as <- _. apply evolves_put.
    etransitivity; [exact Hst3|apply steps_persist].
  - injection H as <- _. now apply evolves_put.
Qed.

Lemma live_on_status_evolves srv e head bytes cn im ls s rs im' ls' :
  stream_at cn im ls -> instances im !! cn = Some s -> 0 <= head <= max_u64 ->
  live_on_status srv e head bytes im ls = LiveGo im' ls' -> evolves cn s rs im' rs.
Proof.
  intros Hs Hget Hr. unfold live_on_status, stream_at in *. destruct (ls_inst ls) as [id|].
  - destruct Hs as [-> _]. unfold Get. rewrite Hget. destruct (_ && _); [done|]. intros [= <- _].
    apply evolves_put, rtc_once, (step_background (mkWorld s rs)), bg_seen, Hr.
  - intros [= <- _]. exists s. split; [exact Hget|apply rtc_refl].
Qed.

Lemma backfill_block_evolves cn e msg im bf s rs im' bf' c :
  instances im !! cn = Some s ->
  (forall b, msg = Some b -> 0 <= bk_BaseSeq b /\ 0 <= bk_FrameCount b /\
    (is_HoleTracker (fill_block (be_now e) b s) = [] -> caught_up (mkWorld s rs) b)) ->
  backfill_block cn e msg im bf = Some (im', bf', c) ->
  exists rs', evolves cn s rs im' rs' /\
    (rs' = rs \/ exists b, msg = Some b /\ rs' = rs ++ [block_range b] /\
       AppendBlock (bf_cfg bf') (mkBWEnv (be_now e) (be_create_ok e)) (bk_BaseSeq b) (bk_BaseTimeUs b) (bk_Data b)
         (bk_Compressed b) (bf_bw bf) = Ok (bf_bw bf')).
Proof.
  intros Hget Hb. unfold backfill_block.
  destruct msg as [b|]; [|intros [= <- _ _]; exists rs; split; [exists s; split; [exact Hget|apply rtc_refl]|now left]].
  destruct (Hb b eq_refl) as (H1 & H2 & H3). cbv zeta. unfold append_or_skip.
  destruct (AppendBlock _ _ _ _ _ _ _) as [w|err] eqn:Ea; cbn [negb];
    [|intros [= <- _ _]; exists rs; split; [exists s; split; [exact Hget|apply rtc_refl]|now left]].
  unfold Get. rewrite Hget. cbn [mbind option_bind].
  set (s1 := RecordEvent EventBlockReceived _ (be_now e) s). set (s2 := fill_block (be_now e) b s1).
  assert (Hst : steps (mkWorld s rs) (mkWorld s2 (rs ++ [block_range b]))).
  { eapply rtc_l; [apply (step_background (mkWorld s rs)), bg_event|]. fold s1.
    apply rtc_once, (step_block (be_now e) b (mkWorld s1 rs)); try assumption. }
  destruct (be_send_ok e).
  - intros [= <- <- _]. exists (rs ++ [block_range b]). split; [|right; exists b; auto].
    apply evolves_put. etransitivity; [exact Hst|]. destruct (_ =? 0); [apply steps_persist|apply rtc_refl].
  - intros [= <- <- _]. exists (rs ++ [block_range b]). split; [|right; exists b; auto]. now apply evolves_put.
Qed.


(** * Concrete runs *)

Definition demo_mgr : InstanceManager := mkManager ∅ true 0 0 0 16.

Definition after_handshake (now : time) (head : Z) (s : InstanceState) : InstanceState :=
  match handshake_instance now true head 0 s with Some (s', _) => s' | None => s end.
Definition handshake_answer (now : time) (head : Z) (s : InstanceState) : HandshakeResponse :=
  match handshake_instance now true head 0 s with Some (_, r) => r | None => mkHandshakeResp 0 [] 0 end.
Definition after_frame (now : time) (f : LiveFrame) (s : InstanceState) : InstanceState :=
  match live_frame now f s with Some s' => s' | None => s end.

Lemma handshake_total now head s : ring_ok (is_ringSize s) = true ->
  handshake_instance now true head 0 s = Some (after_handshake now head s, handshake_answer now head s).
Proof.
  intros Hr. unfold after_handshake, handshake_answer.
  destruct (handshake_runs now true head 0 s Hr) as (s' & r & -> & _). done.
Qed.

Lemma frame_total now f s : ring_ok (is_ringSize s) = true -> live_frame now f s = Some (after_frame now f s).
Proof.
  intros Hr. unfold after_frame. destruct (live_frame_runs now f s Hr) as (s' & -> & _). done.
Qed.

(** A boat connects, sends two frames, goes away while forty are recorded,
    comes back, fills part of the hole; the server restarts. *)
Definition demo_live (seq : Z) : LiveFrame := mkLiveFrame seq (1000 * seq) 0x19F80123 [1; 2; 3].
Definition demo_gap_block : Block := mkBlock 3 3000 7 [] false 0.
Definition demo_s0 : InstanceState := fresh_instance "boat" demo_mgr.
Definition demo_s1 : InstanceState := after_handshake 1 3 demo_s0.
Definition demo_s2 : InstanceState := after_frame 2 (demo_live 1) demo_s1.
Definition demo_s3 : InstanceState := after_frame 3 (demo_live 2) demo_s2.
Definition demo_s4 : InstanceState := after_handshake 4 40 demo_s3.
Definition demo_s5 : InstanceState := fill_block 5 demo_gap_block demo_s4.
Definition demo_s6 : InstanceState := loaded (is_ID (persist true demo_s5)) (is_disk (persist true demo_s5)).
Definition demo_received : list SeqRange :=
  ([frame_range (demo_live 1)] ++ [frame_range (demo_live 2)]) ++ [block_range demo_gap_block].

Lemma demo_reachable : reachable (mkWorld demo_s6 demo_received).
Proof.
  assert (R1 : reachable (mkWorld demo_s1 [])).
  { apply (reach_step _ _ (reach_new "boat" demo_mgr)).
    apply (step_handshake 1 true 3 0 (mkWorld demo_s0 []) demo_s1 (handshake_answer 1 3 demo_s0));
      [unfold max_u64; lia|apply handshake_total; reflexivity]. }
  assert (R2 : reachable (mkWorld demo_s2 [frame_range (demo_live 1)])).
  { apply (reach_step _ _ R1). apply (step_frame 2 (demo_live 1) (mkWorld demo_s1 []));
      [cbn; unfold max_u64; lia|apply frame_total; vm_compute; reflexivity|vm_compute; reflexivity]. }
  assert (R3 : reachable (mkWorld demo_s3 ([frame_range (demo_live 1)] ++ [frame_range (demo_live 2)]))).
  { apply (reach_step _ _ R2). apply (step_frame 3 (demo_live 2) (mkWorld demo_s2 [frame_range (demo_live 1)]));
      [cbn; unfold max_u64; lia|apply frame_total; vm_compute; reflexivity|vm_compute; reflexivity]. }
  assert (R4 : reachable (mkWorld demo_s4 ([frame_range (demo_live 1)] ++ [frame_range (demo_live 2)]))).
  { apply (reach_step _ _ R3).
    apply (step_handshake 4 true 40 0 (mkWorld demo_s3 ([frame_range (demo_live 1)] ++ [frame_range (demo_live 2)]))
      demo_s4 (handshake_answer 4 40 demo_s3));
      [unfold max_u64; lia|apply handshake_total; vm_compute; reflexivity]. }
  assert (R5 : reachable (mkWorld demo_s5 demo_received)).
  { apply (reach_step _ _ R4). apply (step_block 5 demo_gap_block
      (mkWorld demo_s4 ([frame_range (demo_live 1)] ++ [frame_range (demo_live 2)]))); [cbn; lia|cbn; lia|].
    intros H. vm_compute in H. discriminate H. }
  apply (reach_step _ _ (reach_step _ _ R5 (step_persist true _))). apply step_restart.
Qed.


(** What that last answer is: the cursor is at 9, the rest is asked for. *)
Lemma demo_answer : let r := handshake_answer 6 60 demo_s6 in
  (hr_Cursor r, hr_Holes r, hr_LiveStartFrom r) = (9, [mkRange 10 60], 60).
Proof. vm_compute. reflexivity. Qed.

Definition demo_holes : InstanceState :=
  set_progress (set_seen demo_s0 60 0 0 true) 9 [mkRange 10 20; mkRange 30 40].

Lemma backfill_completes_witness :
  let s' := foldl (fun s b => fill_block 7 b s) demo_holes [mkBlock 28 0 20 [] true 0; mkBlock 8 0 12 [] true 0] in
  is_HoleTracker s' = [] /\ is_Cursor s' = 60.
Proof.
  apply (backfill_completes 7 [mkBlock 28 0 20 [] true 0; mkBlock 8 0 12 [] true 0] demo_holes).
  - exact sample_holes_ok.
  - repeat constructor; cbn; unfold max_u64; lia.
  - discriminate.
  - cbn. lia.
  - intros q (r & Hr & Hc). unfold covers in Hc.
    apply elem_of_cons in Hr as [->|[->|Hr%elem_of_nil]%elem_of_cons]; [| |done]; cbn [Start End] in Hc;
      [exists (mkBlock 8 0 12 [] true 0)|exists (mkBlock 28 0 20 [] true 0)]; rewrite !elem_of_cons;
      cbn [bk_BaseSeq bk_FrameCount]; (split; [auto|lia]).
Defined.

Definition demo_ctx : RpcContext := mkRpc (Some [["boat"%string]]) ["other"%string].

Lemma demo_mgr_ok : im_ok demo_mgr.
Proof. split; [reflexivity|]. intros id s. cbn. now rewrite lookup_empty. Qed.

Lemma mtls_isolation_witness :
  (exists im' r, Handshake demo_ctx 0 true (mkHandshake "other" 5 0) demo_mgr = Some (im', r) /\ only "boat" demo_mgr im') /\
  (exists im' ls c, Live (mkServer 0 0 0) demo_ctx 0 true [(mkLiveEnv 0 true false true true, LFrame (demo_live 1))]
     demo_mgr = Some (im', ls, c) /\ only "boat" demo_mgr im') /\
  (exists im' sent c, Backfill demo_ctx 0 true true [(mkBackfillEnv 0 true true true, Some demo_gap_block)] demo_mgr
     = Some (im', sent, c) /\ only "boat" demo_mgr im').
Proof.
  exact (mtls_isolation demo_ctx "boat" [] [] (mkServer 0 0 0) 0 true (mkHandshake "other" 5 0) true
    [(mkLiveEnv 0 true false true true, LFrame (demo_live 1))]
    [(mkBackfillEnv 0 true true true, Some demo_gap_block)] demo_mgr eq_refl demo_mgr_ok).
Defined.

Definition demo_boats : InstanceManager := put_instance "boat" demo_s0 demo_mgr.
Definition demo_env1 : LiveEnv := mkLiveEnv 1 true true true true.
Definition demo_ls0 : LiveState := mkLive None 0 0 0 [].


(** * Where the bookkeeping loses frames *)

(** An instance at cursor 50 with the boat at 100; a status report raises the
    head to 200 while the live stream has sent nothing yet; the block that closes
    the hole moves the cursor to 200; the stream breaks.  The next handshake asks
    for 201 onwards: 100 to 200 were never received. *)
Definition overclaim_run : HandshakeResponse :=
  let s := set_tuning (loaded "boat" (Some (mkPersist "boat" 50 [] 100 0 0))) None 0 0 0 16 in
  let s := after_handshake 1 100 s in
  let s := set_seen s 200 0 2 true in
  let s := fill_block 3 (mkBlock 51 0 49 [] true 0) s in
  handshake_answer 4 250 s.

Lemma status_overclaims :
  (hr_Cursor overclaim_run, hr_Holes overclaim_run, hr_LiveStartFrom overclaim_run) = (200, [mkRange 201 250], 250).
Proof. vm_compute. reflexivity. Qed.

(** The same rule moves a cursor back when the live stream is ahead of the last
    status report; frames that follow no longer extend it. *)
Lemma cursor_moves_back :
  is_Cursor (fill_block 0 (mkBlock 10 0 10 [] true 0)
    (set_progress (set_seen demo_s0 200 0 0 true) 300 [mkRange 10 20])) = 200.
Proof. vm_compute. reflexivity. Qed.

(** A frame the full queue of the broker refuses still advances the cursor. *)
Lemma dropped_frame_claimed now f s s' rb :
  is_broker s = Some rb -> has_room s = false -> lf_Seq f = u64 (is_Cursor s + 1) ->
  live_frame now f s = Some s' -> is_Cursor s' = lf_Seq f /\ is_broker s' = Some rb.
Proof.
  intros Hb Hroom Hseq. unfold live_frame, ensureBroker, has_room in *. rewrite Hb in *. cbn [mbind option_bind].
  rewrite Hb. cbn [mbind option_bind]. unfold offer. rewrite Hroom. cbn [set_broker set_seen is_Cursor].
  rewrite Hseq, Z.eqb_refl. intros [= <-]. split; reflexivity.
Qed.
