(* ===== verification/ReplClient.v ===== *)
(** The boat side of replication: [replication_client.go].

    The live stream is a consumer of the local broker; backfill reads the raw
    blocks of the journal files that overlap a hole.  The gRPC transport is what
    the messages are handed to. *)

From S2P Require Import Prelude CanId Devices Filters Values Ring Broker Consumer Holes EventLog JournalFormat JournalReader BlockWriter ReplServer.

(** * State *)

Record ReplicationClientConfig := mkReplConfig {
  rc_MaxLiveLag : Z;
  rc_LagCheckInterval : Z;
  rc_MinLagReconnectInterval : duration
}.

Definition DefaultLagCheckInterval : Z := 1000.
Definition DefaultMinLagReconnectInterval : duration := 30 * second.

Definition client_defaults (c : ReplicationClientConfig) : ReplicationClientConfig :=
  mkReplConfig (if rc_MaxLiveLag c =? 0 then DefaultMaxLiveLag else rc_MaxLiveLag c)
    (if rc_LagCheckInterval c =? 0 then DefaultLagCheckInterval else rc_LagCheckInterval c)
    (if rc_MinLagReconnectInterval c =? 0 then DefaultMinLagReconnectInterval else rc_MinLagReconnectInterval c).

Record ReplicationClient := mkReplClient {
  rp_cloudCursor : Z;
  rp_holes : list SeqRange;
  rp_connected : bool;
  rp_lastAck : time;
  rp_liveStartSeq : Z;
  rp_lagTriggered : bool;
  rp_lastLagReconnect : time;
  rp_liveFramesSent : Z;
  rp_backfillBlocksSent : Z;
  rp_backfillBytesSent : Z;
  rp_reconnects : Z
}.

(** [NewReplicationClient]: the configuration in effect and the state. *)
Definition NewReplicationClient (c : ReplicationClientConfig) : ReplicationClientConfig * ReplicationClient :=
  (client_defaults c, mkReplClient 0 [] false 0 0 false 0 0 0 0 0).

(** ** Connecting *)

(** The handshake's answer. *)
Definition on_handshake (resp : HandshakeResponse) (c : ReplicationClient) : ReplicationClient :=
  mkReplClient (hr_Cursor resp) (hr_Holes resp) true (rp_lastAck c) (hr_LiveStartFrom resp) (rp_lagTriggered c)
    (rp_lastLagReconnect c) (rp_liveFramesSent c) (rp_backfillBlocksSent c) (rp_backfillBytesSent c)
    (rp_reconnects c).

Definition on_live_ack (now : time) (acked : Z) (c : ReplicationClient) : ReplicationClient :=
  mkReplClient acked (rp_holes c) (rp_connected c) now (rp_liveStartSeq c) (rp_lagTriggered c)
    (rp_lastLagReconnect c) (rp_liveFramesSent c) (rp_backfillBlocksSent c) (rp_backfillBytesSent c)
    (rp_reconnects c).

Definition on_backfill_ack (now : time) (d : BackfillDownstream) (c : ReplicationClient) : ReplicationClient :=
  mkReplClient (ContinuousThrough_ d) (Remaining d) (rp_connected c) now (rp_liveStartSeq c) (rp_lagTriggered c)
    (rp_lastLagReconnect c) (rp_liveFramesSent c) (rp_backfillBlocksSent c) (rp_backfillBytesSent c)
    (rp_reconnects c).

(** One turn of [Run] after a connection ended: the state, how long it waits
    before it reconnects, and the next backoff. *)
Definition maxBackoff : duration := 60 * second.

Definition after_disconnect (cfg : ReplicationClientConfig) (now : time) (backoff : duration)
    (c : ReplicationClient) : ReplicationClient * duration * duration :=
  let set lag last := mkReplClient (rp_cloudCursor c) (rp_holes c) false (rp_lastAck c) (rp_liveStartSeq c) lag last
    (rp_liveFramesSent c) (rp_backfillBlocksSent c) (rp_backfillBytesSent c) (u64 (rp_reconnects c + 1)) in
  if rp_lagTriggered c then
    let sinceLastLag := time_Sub now (rp_lastLagReconnect c) in
    let wait := if sinceLastLag <? rc_MinLagReconnectInterval cfg
                then rc_MinLagReconnectInterval cfg - sinceLastLag else 0 in
    (set false now, wait, second)
  else (set false (rp_lastLagReconnect c), backoff, Z.min (backoff * 2) maxBackoff).

(** [Run]: the waits of a sequence of connections, each given by what it left
    behind and the time it ended. *)
Fixpoint run_waits (cfg : ReplicationClientConfig) (backoff : duration) (ends : list (time * bool))
    (c : ReplicationClient) : list duration :=
  match ends with
  | [] => []
  | (now, lag) :: ends =>
      let c := mkReplClient (rp_cloudCursor c) (rp_holes c) (rp_connected c) (rp_lastAck c) (rp_liveStartSeq c) lag
        (rp_lastLagReconnect c) (rp_liveFramesSent c) (rp_backfillBlocksSent c) (rp_backfillBytesSent c)
        (rp_reconnects c) in
      let '(c, wait, backoff) := after_disconnect cfg now backoff c in
      wait :: run_waits cfg backoff ends c
  end.

Record ReplicationStatus := mkReplStatus {
  rs_Connected : bool;
  rs_LocalHeadSeq : Z;
  rs_CloudCursor : Z;
  rs_Holes : list SeqRange;
  rs_LiveLag : Z;
  rs_BackfillRemainingSeqs : Z;
  rs_LastAck : time;
  rs_LiveFramesSent : Z;
  rs_BackfillBlocksSent : Z;
  rs_BackfillBytesSent : Z;
  rs_Reconnects : Z
}.

Definition client_Status (headSeq : Z) (c : ReplicationClient) : ReplicationStatus :=
  mkReplStatus (rp_connected c) headSeq (rp_cloudCursor c) (rp_holes c)
    (if headSeq >? rp_cloudCursor c then headSeq - rp_cloudCursor c else 0)
    (TotalMissing (rp_holes c)) (rp_lastAck c) (rp_liveFramesSent c) (rp_backfillBlocksSent c)
    (rp_backfillBytesSent c) (rp_reconnects c).

(** ** The live stream *)

(** Where the consumer starts: the requested number, unless the boat is not that
    far. *)
Definition live_start (startSeq head : Z) : Z :=
  if (startSeq =? 0) || (startSeq >? u64 (head + 1)) then u64 (head + 1) else startSeq.

(** The device snapshot sent first. *)
Definition snapshot_frame (now : time) (f : RxFrame) : LiveFrame :=
  mkLiveFrame 0 (Time_UnixMicro now) (BuildCANID (rx_Header f)) (rx_Data f).

Definition live_frame_of (f : Frame) : LiveFrame :=
  mkLiveFrame (f_Seq f) (Time_UnixMicro (f_Timestamp f)) (BuildCANID (f_Header f)) (f_Data f).

(** What one turn of the loop sees: whether the status ticker fired, the ring
    and the journal directory at [Next], the head at the lag check, and whether
    sends succeed. *)
Record LiveRound := mkRound {
  lr_tick : bool;
  lr_ring : Ring;
  lr_dir : option (list JournalFile);
  lr_bytes : Z;
  lr_head : Z;
  lr_send_ok : bool
}.

Inductive live_end :=
| EndCancelled
| EndSend
| EndNext (r : Consumer.next_result)
| EndLag.

(** The loop of [runLiveStream]: what it sends, the frames sent so far, and how
    it ends.  A [Next] that would block waits for the next round. *)
Fixpoint live_send (cfg : ReplicationClientConfig) (rounds : list LiveRound) (c : Consumer.Consumer) (framesSent : Z)
    : list live_msg * live_end :=
  match rounds with
  | [] => ([], EndCancelled)
  | e :: rounds =>
      let status := if lr_tick e then [LStatus (if Ring.head (lr_ring e) =? 0 then 0 else u64 (Ring.head (lr_ring e) - 1))
                                          (lr_bytes e)] else [] in
      if lr_tick e && negb (lr_send_ok e) then ([], EndSend)
      else
        let '(c, r) := Consumer.Next (lr_dir e) (lr_ring e) c in
        match r with
        | Consumer.NextFrame f =>
            if negb (lr_send_ok e) then (status, EndSend)
            else
              let n := framesSent + 1 in
              let msgs := status ++ [LFrame (live_frame_of f)] in
              if (n mod rc_LagCheckInterval cfg =? 0) && (lr_head e >? Consumer.cursor c) &&
                 (lr_head e - Consumer.cursor c >? rc_MaxLiveLag cfg)
              then (msgs, EndLag)
              else let '(rest, out) := live_send cfg rounds c n in (msgs ++ rest, out)
        | Consumer.NextWait => let '(rest, out) := live_send cfg rounds c framesSent in (status ++ rest, out)
        | r => (status, EndNext r)
        end
  end.

(** The frames of the snapshot, each with whether its send succeeds: those sent,
    and whether all were. *)
Fixpoint send_snapshot (now : time) (snapshot : list (RxFrame * bool)) : list live_msg * bool :=
  match snapshot with
  | [] => ([], true)
  | (f, ok) :: snapshot =>
      if negb ok then ([], false)
      else let '(msgs, all) := send_snapshot now snapshot in (LFrame (snapshot_frame now f) :: msgs, all)
  end.

(** [runLiveStream]: the snapshot, then the loop from the requested number. *)
Definition runLiveStream (cfg : ReplicationClientConfig) (now : time) (snapshot : list (RxFrame * bool)) (startSeq head : Z)
    (rounds : list LiveRound) : list live_msg * live_end :=
  let '(devices, all) := send_snapshot now snapshot in
  if negb all then (devices, EndSend)
  else
    let '(msgs, out) := live_send cfg rounds (Consumer.mkConsumer (live_start startSeq head) None None) 0 in
    (devices ++ msgs, out).

(** ** Backfill *)

Section backfill.
  Context (DecodeAll : list Z -> option (list Z)) (DecodeAllDict : list Z -> list Z -> option (list Z)).
  Abbreviation InspectBlock := (InspectBlock DecodeAll DecodeAllDict).

(** [f.ReadAt] on the file the reader has open; a short read is an error. *)
Definition readRawBlock (jr : Reader) (i : Z) : Reader * result jerror (list Z) :=
  match InspectBlock i jr with
  | (jr, Err e) => (jr, Err e)
  | (jr, Ok info) =>
      let f := jr_file jr in
      (jr, if jr_compression f =? CompressionNone then read_full (jr_r f) (bm_Offset info) (jr_blockSize f)
           else if bm_CompressedLen info <=? 0 then Err ErrBlockRange
           else read_full (jr_r f) (bm_Offset info + 20) (bm_CompressedLen info))
  end.

(** The block sent for an inspected block. *)
Definition block_of (f : OpenJournal) (info : BlockInfo) (data : list Z) : Block :=
  mkBlock (bm_BaseSeq info) (Time_UnixMicro (bm_BaseTime info)) (bm_FrameCount info) data
    (negb (jr_compression f =? CompressionNone)) (jr_blockSize f).

(** The loop of [backfillFromFile] over blocks [i], [i + 1], ... ; [send_ok] is
    whether the stream takes the n-th block of the session. *)
Fixpoint file_blocks (n : nat) (i : Z) (hole : SeqRange) (send_ok : nat -> bool) (jr : Reader) (sent : list Block)
    : list Block * bool :=
  match n with
  | O => (sent, true)
  | S n =>
      match InspectBlock i jr with
      | (jr, Err _) => file_blocks n (i + 1) hole send_ok jr sent
      | (jr, Ok info) =>
          let blockEnd := u64 (bm_BaseSeq info + bm_FrameCount info) in
          if (blockEnd <=? Start hole) || (bm_BaseSeq info >=? End hole)
          then file_blocks n (i + 1) hole send_ok jr sent
          else
            match readRawBlock jr i with
            | (jr, Err _) => file_blocks n (i + 1) hole send_ok jr sent
            | (jr, Ok data) =>
                if send_ok (length sent)
                then file_blocks n (i + 1) hole send_ok jr (sent ++ [block_of (jr_file jr) info data])
                else (sent, false)
            end
      end
  end.

(** [backfillFromFile]; [None] is a file that cannot be opened. *)
Definition backfillFromFile (content : option (list Z)) (hole : SeqRange) (send_ok : nat -> bool) (sent : list Block)
    : list Block * bool :=
  match content with
  | None => (sent, false)
  | Some bytes =>
      match NewReader bytes with
      | Err _ => (sent, false)
      | Ok jr =>
          if negb (jr_version (jr_file jr) =? Version2) then (sent, true)
          else file_blocks (length (jr_blocks (jr_file jr))) 0 hole send_ok jr sent
      end
  end.

(** [backfillHole]: every file, in name order; a failing file is skipped. *)
Definition backfillHole (files : list (option (list Z))) (hole : SeqRange) (send_ok : nat -> bool) (sent : list Block)
    : list Block :=
  foldl (fun sent f => (backfillFromFile f hole send_ok sent).1) sent files.

Definition newest_first (a b : SeqRange) : Prop := Start b <= Start a.
#[global] Instance newest_first_dec a b : Decision (newest_first a b).
Proof. unfold newest_first. apply _. Defined.

(** [runBackfillStream]: the holes newest first; without a journal directory or
    holes nothing is sent. *)
Definition runBackfillStream (dir : option (list (option (list Z)))) (holes : list SeqRange) (send_ok : nat -> bool)
    : list Block :=
  match dir with
  | None => []
  | Some files => foldl (fun sent hole => backfillHole files hole send_ok sent) []
                    (merge_sort newest_first holes)
  end.

End backfill.

(** * What backfill sends *)

Section file.
  Context (DecodeAll : list Z -> option (list Z)) (DecodeAllDict : list Z -> list Z -> option (list Z)).
  Context (bs comp : Z) (Hbs : block_size_ok bs) (Hplain : comp = CompressionNone \/ comp = CompressionZstd).
  Context (cs : list Chunk) (tail : list Z).
  Context (Hst : Forall (stored_chunk DecodeAll DecodeAllDict comp) cs).
  Context (Hok : Forall (fun ch : Chunk => block_ok bs ch.1) cs).
  Context (Htail : file_tail DecodeAll DecodeAllDict bs comp cs tail).
  Context (Hlen : zlen (journal_bytes bs comp cs tail) < 2 ^ 62).
  Abbreviation open_on := (open_on bs comp cs tail).

Lemma plain_ok : compression_ok comp.
Proof. destruct Hplain as [->| ->]; [now left|right; now left]. Qed.

(** A sent block is block [a] of the file. *)
Definition sent_as (b : Block) (a : ABlock) : Prop :=
  bk_BaseSeq b = ab_seq a /\ bk_BaseTimeUs b = ab_base a /\ bk_FrameCount b = zlen (ab_raw a) /\
  bk_Compressed b = negb (comp =? CompressionNone) /\ bk_BlockSize b = bs /\
  if comp =? CompressionNone then bk_Data b = ab_buf a
  else DecodeAll (bk_Data b) = Some (ab_buf a) /\ 0 < zlen (bk_Data b) < 2 ^ 30.

(** Frames sit between the header and the device table, so the table's offset is
    inside the block. *)
Lemma table_inside a : block_ok bs a -> 0 <= bs - BlockTrailerLen - uint (ab_buf a) (bs - BlockTrailerLen) 2.
Proof.
  intros [_ _ _ _ _ _ [pad Hf] Hraw Hsome]. destruct (Z.le_gt_cases 0 (bs - BlockTrailerLen -
    uint (ab_buf a) (bs - BlockTrailerLen) 2)) as [|Hlt]; [done|]. exfalso.
  assert (E : sub (ab_buf a) BlockDataOffsetV2 (bs - BlockTrailerLen - uint (ab_buf a) (bs - BlockTrailerLen) 2) = []).
  { unfold sub, slice. replace (Z.to_nat (bs - BlockTrailerLen - uint (ab_buf a) (bs - BlockTrailerLen) 2)) with 0%nat by lia.
    rewrite Nat.sub_0_l. reflexivity. }
  rewrite E in Hf. destruct (ab_raw a) as [|[[d c] x] rs]; [done|].
  pose proof (put_uvarint_nonempty d) as Hne. apply (f_equal length) in Hf. unfold enc_frames in Hf.
  cbn [map concat length] in Hf. unfold enc_frame in Hf. rewrite !length_app in Hf.
  destruct (zlen x =? 8) in Hf; rewrite !length_app in Hf; lia.
Qed.

Lemma loadBlock_fields jr i a c :
  open_on jr -> cs !! i = Some (a, c) ->
  exists jr', loadBlock DecodeAll DecodeAllDict (Z.of_nat i) jr = (jr', None) /\ open_on jr' /\
    baseTimeUs (jr_block jr') = ab_base a /\ baseSeqBlock (jr_block jr') = ab_seq a /\
    frameCount (jr_block jr') = zlen (ab_raw a) /\ 0 <= devTableOff (jr_block jr').
Proof.
  intros [Hfile Herr] Hi.
  pose proof (proj1 (Forall_forall _ _) Hok (a, c) (list_elem_of_lookup_2 _ _ _ Hi)) as Hblk. cbn [fst] in Hblk.
  rewrite (opened_stored DecodeAll DecodeAllDict bs comp Hbs plain_ok cs tail i a c Hst Hok Htail Hi jr Hfile).
  pose proof (table_inside a Hblk). destruct Hblk as [Hl Hcrc Hb Hs Hc _ _ _ _].
  unfold parseLoadedBlock. cbn [set_block set_buf jr_file jr_block blockBuf]. rewrite Hfile.
  cbn [jr_blockSize jr_version]. rewrite Hcrc, Z.eqb_refl. cbn [negb].
  eexists. split; [reflexivity|].
  cbn [jr_block baseTimeUs baseSeqBlock frameCount devTableOff].
  split; [split; [reflexivity|exact Herr]|]. auto.
Qed.

(** Where block [i] stands in the file. *)
Lemma block_at i a c :
  cs !! i = Some (a, c) ->
  exists b, infos comp 16 cs !! i = Some b /\ holds_at (journal_bytes bs comp cs tail) (bi_Offset b) c.
Proof.
  intros Hi. destruct (infos comp 16 cs !! i) as [b|] eqn:Hb.
  2: { apply lookup_ge_None in Hb. rewrite length_infos in Hb. apply lookup_lt_Some in Hi. lia. }
  exists b. split; [done|]. change 16 with (zlen (jheader bs comp)) in Hb.
  destruct (infos_at comp cs (jheader bs comp) tail i b Hb) as (a' & c' & Hi' & Hat & _).
  rewrite Hi in Hi'. injection Hi' as <- <-. exact Hat.
Qed.

(** What a stored block is, by compression: the block itself, or a header and
    its payload. *)
Lemma chunk_shape i a c :
  cs !! i = Some (a, c) ->
  (comp = CompressionNone /\ c = ab_buf a) \/
  (comp = CompressionZstd /\ exists payload, c = chunk_header a ++ le32 (zlen payload) ++ payload /\
     DecodeAll payload = Some (ab_buf a) /\ 0 < zlen payload < 2 ^ 30).
Proof.
  intros Hi. pose proof (proj1 (Forall_forall _ _) Hst (a, c) (list_elem_of_lookup_2 _ _ _ Hi)) as [Hc _].
  cbn [fst snd] in Hc. destruct Hc as [E|payload E Hd Hp|d payload E]; [now left|right; eauto 10|].
  exfalso. clear -Hplain E. unfold CompressionNone, CompressionZstd, CompressionZstdDict in *. lia.
Qed.

Lemma InspectBlock_ok jr i a c b :
  open_on jr -> cs !! i = Some (a, c) -> infos comp 16 cs !! i = Some b ->
  exists jr' info, InspectBlock DecodeAll DecodeAllDict (Z.of_nat i) jr = (jr', Ok info) /\ open_on jr' /\
    bm_Offset info = bi_Offset b /\ bm_BaseSeq info = ab_seq a /\ bm_FrameCount info = zlen (ab_raw a) /\
    bm_BaseTime info = time_UnixMicro (ab_base a) /\
    (comp = CompressionZstd -> bm_CompressedLen info + 20 = zlen c).
Proof.
  intros Hopen Hi Hb. pose proof Hopen as [Hfile _].
  destruct (loadBlock_fields jr i a c Hopen Hi) as (jr' & Hload & Hopen' & Ebase & Eseq & Ecnt & Htab).
  pose proof (lookup_lt_Some _ _ _ Hi) as Hlt.
  destruct (block_at i a c Hi) as (b' & Hb' & Hat). rewrite Hb in Hb'. injection Hb' as <-.
  assert (Hhdr : exists n, inspect_header (jr_file jr) (bi_Offset b) = Ok (0, n) /\
    (comp = CompressionZstd -> n + 20 = zlen c)).
  { unfold inspect_header. rewrite Hfile. cbn [jr_version jr_compression jr_r].
    destruct (chunk_shape i a c Hi) as [[E _]|[E (payload & Ec & _ & Hp)]]; rewrite E.
    - exists 0. split; [reflexivity|]. discriminate.
    - change (CompressionZstd =? CompressionZstdDict) with false.
      change (negb (CompressionZstd =? CompressionNone)) with true. cbv iota.
      change (BlockHeaderLen + seqFieldLen Version2) with 20. change (8 + seqFieldLen Version2) with 16.
      rewrite Ec, app_assoc in Hat. apply holds_at_app in Hat as [H1 _]. rewrite E in H1.
      assert (L : zlen (chunk_header a ++ le32 (zlen payload)) = 20)
        by (autorewrite with zlen; now rewrite zlen_chunk_header).
      rewrite (read_full_at _ _ _ _ H1 L). cbn [mbind result_bind].
      pose proof (uint_mid (chunk_header a) 4 (zlen payload) [] 16 (zlen_chunk_header a) ltac:(lia)) as Hu.
      rewrite app_nil_r in Hu. fold (le32 (zlen payload)) in Hu. change (Z.of_nat 4) with 4 in Hu. rewrite Hu.
      exists (zlen payload). split; [done|]. intros _. rewrite Ec. autorewrite with zlen.
      rewrite zlen_chunk_header. lia. }
  destruct Hhdr as (n & Hh & Hn). unfold JournalReader.InspectBlock.
  assert (Hrange : (Z.of_nat i <? 0) || (Z.of_nat i >=? zlen (jr_blocks (jr_file jr))) = false).
  { rewrite Hfile. cbn [jr_blocks]. unfold zlen. rewrite length_infos.
    apply orb_false_iff. rewrite Z.geb_leb, Z.ltb_ge, Z.leb_gt. lia. }
  rewrite Hrange. assert (Hlook : jr_blocks (jr_file jr) !! Z.to_nat (Z.of_nat i) = Some b)
    by (rewrite Hfile, Nat2Z.id; exact Hb).
  rewrite Hlook, Hh, Hload. cbv zeta.
  rewrite (proj2 (Z.ltb_ge (devTableOff (jr_block jr')) 0) Htab), andb_false_r.
  do 2 eexists. split; [reflexivity|]. split; [exact Hopen'|].
  cbn [bm_Offset bm_BaseSeq bm_FrameCount bm_BaseTime bm_CompressedLen]. rewrite Ebase. auto 10.
Qed.

Lemma UnixMicro_roundtrip us : - 2 ^ 63 <= us < 2 ^ 63 -> Time_UnixMicro (time_UnixMicro us) = us.
Proof.
  intros H. unfold Time_UnixMicro, time_UnixMicro. rewrite Z.div_mul by lia.
  replace (us + unix_epoch_us - unix_epoch_us) with us by lia. now apply i64_small.
Qed.

(** One block of the file, read and made a message. *)
Lemma readRawBlock_ok jr i a c :
  open_on jr -> cs !! i = Some (a, c) ->
  exists jr1 info jr2 data, InspectBlock DecodeAll DecodeAllDict (Z.of_nat i) jr = (jr1, Ok info) /\
    bm_BaseSeq info = ab_seq a /\ bm_FrameCount info = zlen (ab_raw a) /\
    readRawBlock DecodeAll DecodeAllDict jr1 (Z.of_nat i) = (jr2, Ok data) /\ open_on jr1 /\ open_on jr2 /\
    sent_as (block_of (jr_file jr2) info data) a.
Proof.
  intros Hopen Hi. destruct (block_at i a c Hi) as (b & Hb & Hat).
  destruct (InspectBlock_ok jr i a c b Hopen Hi Hb) as (jr1 & info & E1 & Hopen1 & _ & Es & Ec & Et & _).
  destruct (InspectBlock_ok jr1 i a c b Hopen1 Hi Hb) as (jr2 & info2 & E2 & Hopen2 & Eo2 & _ & _ & _ & Ecl2).
  exists jr1, info, jr2. unfold readRawBlock. rewrite E2. pose proof Hopen2 as [Hf2 _].
  pose proof (proj1 (Forall_forall _ _) Hst (a, c) (list_elem_of_lookup_2 _ _ _ Hi)) as (_ & Hbase & _).
  pose proof (proj1 (Forall_forall _ _) Hok (a, c) (list_elem_of_lookup_2 _ _ _ Hi)) as Hblk. cbn [fst] in *.
  assert (Hdata : exists data, (if jr_compression (jr_file jr2) =? CompressionNone
      then read_full (jr_r (jr_file jr2)) (bm_Offset info2) (jr_blockSize (jr_file jr2))
      else if bm_CompressedLen info2 <=? 0 then Err ErrBlockRange
      else read_full (jr_r (jr_file jr2)) (bm_Offset info2 + 20) (bm_CompressedLen info2)) = Ok data /\
    if comp =? CompressionNone then data = ab_buf a
    else DecodeAll data = Some (ab_buf a) /\ 0 < zlen data < 2 ^ 30).
  { rewrite Hf2, Eo2. cbn [jr_compression jr_r jr_blockSize].
    destruct (chunk_shape i a c Hi) as [[E Ecc]|[E (payload & Ecc & Hd & Hp)]]; rewrite E in *.
    - change (CompressionNone =? CompressionNone) with true. cbv iota. exists (ab_buf a). split; [|done].
      subst c. apply (read_full_at _ _ _ _ Hat). exact (bk_len _ _ Hblk).
    - change (CompressionZstd =? CompressionNone) with false. cbv iota. exists payload. split; [|auto].
      specialize (Ecl2 eq_refl). rewrite Ecc in Ecl2, Hat. autorewrite with zlen in Ecl2.
      rewrite zlen_chunk_header in Ecl2. rewrite (proj2 (Z.leb_gt (bm_CompressedLen info2) 0)) by lia.
      rewrite app_assoc in Hat. apply holds_at_app in Hat as [_ Hat].
      assert (L : zlen (chunk_header a ++ le32 (zlen payload)) = 20)
        by (autorewrite with zlen; now rewrite zlen_chunk_header).
      rewrite L in Hat. apply (read_full_at _ _ _ _ Hat). lia. }
  destruct Hdata as (data & Ed & Hd). exists data. rewrite Ed.
  split; [exact E1|]. split; [exact Es|]. split; [exact Ec|]. split; [reflexivity|]. split; [exact Hopen1|].
  split; [exact Hopen2|]. unfold sent_as, block_of. cbn [bk_BaseSeq bk_BaseTimeUs bk_FrameCount bk_Compressed
    bk_BlockSize bk_Data]. rewrite Hf2, Et, UnixMicro_roundtrip by exact Hbase. cbn [jr_compression jr_blockSize].
  auto 10.
Qed.

(** A block the boat sends for a hole. *)
Definition overlaps (hole : SeqRange) (a : ABlock) : bool :=
  negb ((u64 (ab_seq a + zlen (ab_raw a)) <=? Start hole) || (ab_seq a >=? End hole)).

Lemma file_blocks_ok hole n : forall i jr sent,
  (i + n = length cs)%nat -> open_on jr ->
  exists blocks, file_blocks DecodeAll DecodeAllDict n (Z.of_nat i) hole (fun _ => true) jr sent = (sent ++ blocks, true) /\
    Forall2 sent_as blocks (List.filter (overlaps hole) (map fst (drop i cs))).
Proof.
  induction n as [|n IH]; intros i jr sent Hn Hopen; cbn [file_blocks].
  - exists []. rewrite app_nil_r, drop_ge by lia. split; [done|constructor].
  - destruct (lookup_lt_is_Some_2 cs i ltac:(lia)) as [[a c] Hi].
    destruct (readRawBlock_ok jr i a c Hopen Hi)
      as (jr1 & info & jr2 & data & E1 & Es & Ec & E2 & Hopen1 & Hopen2 & Hsent).
    rewrite E1, Es, Ec. cbv zeta. rewrite (drop_S _ _ _ Hi). cbn [map fst List.filter].
    replace (Z.of_nat i + 1) with (Z.of_nat (S i)) by lia. unfold overlaps at 1.
    destruct (_ || _); cbn [negb].
    + apply IH; [lia|exact Hopen1].
    + rewrite E2. destruct (IH (S i) jr2 (sent ++ [block_of (jr_file jr2) info data]) ltac:(lia) Hopen2)
        as (blocks & E & Hf). exists (block_of (jr_file jr2) info data :: blocks).
      rewrite E, <- app_assoc. split; [done|]. now constructor.
Qed.

Lemma backfillFromFile_ok hole sent :
  exists blocks, backfillFromFile DecodeAll DecodeAllDict (Some (journal_bytes bs comp cs tail)) hole
      (fun _ => true) sent = (sent ++ blocks, true) /\
    Forall2 sent_as blocks (List.filter (overlaps hole) (map fst cs)).
Proof.
  unfold backfillFromFile.
  destruct (journal_read DecodeAll DecodeAllDict bs comp Hbs plain_ok cs tail (S (frames_in (map fst cs)))
    Hst Hok Htail Hlen ltac:(lia)) as (jr & Hjr & _).
  rewrite Hjr. pose proof (NewReader_open_on DecodeAll DecodeAllDict bs comp Hbs plain_ok cs tail Hst Hok Htail Hlen jr Hjr)
    as Hopen. pose proof Hopen as [Hfile _]. rewrite Hfile. cbn [jr_version jr_blocks].
  change (negb (Version2 =? Version2)) with false. cbv iota. rewrite length_infos.
  destruct (file_blocks_ok hole (length cs) 0 jr sent ltac:(lia) Hopen) as (blocks & E & Hf).
  exists blocks. exact (conj E Hf).
Qed.

(** Backfill sends what a hole needs.  From a well-formed journal file, plain or
    zstd, the boat sends exactly the blocks that overlap the hole, in order, each
    with its sequence number, time, frame count and stored bytes; so every
    missing number some block of the file holds is in a block sent. *)
Theorem backfill_sends_hole hole sent :
  exists blocks, backfillFromFile DecodeAll DecodeAllDict (Some (journal_bytes bs comp cs tail)) hole
      (fun _ => true) sent = (sent ++ blocks, true) /\
    Forall2 sent_as blocks (List.filter (overlaps hole) (map fst cs)) /\
    forall a q, a ∈ map fst cs -> covers hole q -> ab_seq a + zlen (ab_raw a) < 2 ^ 64 ->
      ab_seq a <= q < ab_seq a + zlen (ab_raw a) -> in_blocks blocks q.
Proof.
  destruct (backfillFromFile_ok hole sent) as (blocks & E & Hf). exists blocks. split; [exact E|]. split; [exact Hf|].
  intros a q Ha Hq Hmax Hin. unfold covers in Hq.
  assert (Hseq : 0 <= ab_seq a).
  { apply list_elem_of_fmap in Ha as (ch & -> & Hch). rewrite Forall_forall in Hst.
    destruct (Hst _ Hch) as (_ & _ & Hs). lia. }
  assert (Ho : a ∈ List.filter (overlaps hole) (map fst cs)).
  { apply list_elem_of_In, filter_In. split; [now apply list_elem_of_In|]. unfold overlaps.
    rewrite wrap_small by lia. rewrite Z.geb_leb, (proj2 (Z.leb_gt _ _)), (proj2 (Z.leb_gt _ _)) by lia. done. }
  apply list_elem_of_lookup in Ho as [k Hk]. destruct (Forall2_lookup_r _ _ _ _ _ Hf Hk) as (b & Hb & Es & _ & Ec & _).
  exists b. split; [now apply list_elem_of_lookup_2 in Hb|]. lia.
Qed.

(** ** Into the cloud *)

(** The configuration of the session's writer once the first block came. *)
Definition session_cfg : BlockWriterConfig := mkBWConfig bs comp 0 0.
Definition session_compressed : bool := negb (comp =? CompressionNone).

Definition block_in (e : BackfillEnv) (b : Block) : BlockIn :=
  mkBlockIn (mkBWEnv (be_now e) (be_create_ok e)) (bk_BaseSeq b) (bk_BaseTimeUs b) (bk_Data b).

Definition env_fine (e : BackfillEnv) : Prop := be_create_ok e = true /\ be_send_ok e = true.

Lemma sent_carries e b a :
  env_fine e -> sent_as b a -> block_ok bs a -> - 2 ^ 63 <= ab_base a < 2 ^ 63 -> 0 <= ab_seq a < 2 ^ 64 ->
  carries DecodeAll session_cfg session_compressed (block_in e b) a.
Proof.
  intros [Hc _] (E1 & E2 & _ & _ & _ & Hd) Hok' Hb Hs. unfold carries, session_cfg, session_compressed.
  cbn [block_in bi_base bi_seq bi_env bi_data bwe_create_ok bwc_BlockSize].
  split; [exact Hok'|]. split; [exact E2|]. split; [exact E1|]. split; [exact Hb|]. split; [exact Hs|].
  split; [exact Hc|]. destruct (comp =? CompressionNone); exact Hd.
Qed.

(** What one accepted block does to the session and the instance. *)
Lemma backfill_block_accepted id e b a im bf s w :
  env_fine e -> sent_as b a -> bf_cfg bf = session_cfg \/ bf_cfg bf = backfill_config ->
  instances im !! id = Some s ->
  AppendBlock session_cfg (mkBWEnv (be_now e) (be_create_ok e)) (bk_BaseSeq b) (bk_BaseTimeUs b) (bk_Data b)
    session_compressed (bf_bw bf) = Ok w ->
  exists im' bf' s', backfill_block id e (Some b) im bf = Some (im', bf', None) /\
    bf_cfg bf' = session_cfg /\ bf_bw bf' = w /\ instances im' !! id = Some s' /\
    is_journal s' = is_journal s /\ is_HoleTracker s' = is_HoleTracker (fill_block (be_now e) b s).
Proof.
  intros [Hc Hs] (E1 & E2 & E3 & E4 & E5 & _) Hcfg Hget Happ. unfold backfill_block. cbv zeta.
  set (cfg := mkBWConfig (if bk_BlockSize b >? 0 then bk_BlockSize b else bwc_BlockSize (bf_cfg bf))
                   (if bk_Compressed b then CompressionZstd else bwc_Compression (bf_cfg bf))
                   (bwc_RotateDuration (bf_cfg bf)) (bwc_RotateSize (bf_cfg bf))).
  assert (Ecfg : cfg = session_cfg).
  { unfold cfg, session_cfg. rewrite E5, E4, Z.gtb_ltb, (proj2 (Z.ltb_lt _ _)) by (unfold block_size_ok in Hbs; lia).
    destruct Hplain as [E|E]; rewrite E; destruct Hcfg as [-> | ->]; reflexivity || (unfold session_cfg; cbn; now rewrite E). }
  rewrite Ecfg. unfold append_or_skip. rewrite E4. fold session_compressed. rewrite Happ. cbn [negb].
  unfold Get. rewrite Hget. cbn [mbind option_bind]. rewrite Hs.
  eexists _, _, _. split; [reflexivity|]. split; [reflexivity|]. split; [reflexivity|].
  split; [cbn; apply lookup_insert_eq|]. unfold persist. destruct (_ =? 0); [destruct (be_persist_ok e)|]; done.
Qed.

(** The messages of a session and what the block writer is handed. *)
Definition messages (es : list BackfillEnv) (blocks : list Block) : list (BackfillEnv * option Block) :=
  zip_with (fun e b => (e, Some b)) es blocks.
Definition handed (es : list BackfillEnv) (blocks : list Block) : list BlockIn := zip_with block_in es blocks.

(** An accepted session, message by message. *)
Lemma backfill_loop_accepted id now ok es : forall blocks as_ im bf s w,
  Forall env_fine es -> length es = length blocks -> Forall2 sent_as blocks as_ -> Forall block_ok64 blocks ->
  bf_cfg bf = session_cfg \/ bf_cfg bf = backfill_config ->
  instances im !! id = Some s -> holes_ok (is_HoleTracker s) ->
  append_blocks session_cfg session_compressed (handed es blocks) (bf_bw bf) = Ok w ->
  exists im' bf' s', backfill_loop id now true ok (messages es blocks) im bf = backfill_loop id now true ok [] im' bf' /\
    bf_bw bf' = w /\ (blocks <> [] -> bf_cfg bf' = session_cfg) /\ instances im' !! id = Some s' /\
    is_journal s' = is_journal s /\
    forall q, missing (is_HoleTracker s') q <-> missing (is_HoleTracker s) q /\ ~ in_blocks blocks q.
Proof.
  induction es as [|e es IH]; intros [|b blocks] as_ im bf s w He Hl Hsent H64 Hcfg Hget Hholes Happ; try discriminate Hl.
  - exists im, bf, s. injection Happ as <-. split; [done|]. split; [done|]. split; [done|]. split; [done|]. split; [done|].
    intros q. split; [|tauto]. intros Hq. split; [done|]. intros (b & Hb & _). now apply elem_of_nil in Hb.
  - inversion He as [|? ? He1 He2]; inversion Hsent as [|? a ? as' Hs1 Hs2]; inversion H64 as [|? ? Hb1 Hb2]; subst.
    cbn [handed zip_with append_blocks block_in bi_env bi_seq bi_base bi_data] in Happ.
    destruct (AppendBlock _ _ _ _ _ _ _) as [w1|] eqn:Ea; [|done]. cbn [mbind result_bind] in Happ.
    destruct (backfill_block_accepted id e b a im bf s w1 He1 Hs1 Hcfg Hget Ea)
      as (im1 & bf1 & s1 & E1 & Hc1 & Hw1 & Hg1 & Hj1 & Hh1).
    destruct (fill_block_holes (be_now e) b s Hholes Hb1) as (Hok1 & _ & Hm1). rewrite <- Hh1 in Hok1, Hm1.
    rewrite <- Hw1 in Happ. injection Hl as Hl.
    destruct (IH blocks as' im1 bf1 s1 w He2 Hl Hs2 Hb2 (or_introl Hc1) Hg1 Hok1 Happ)
      as (im' & bf' & s' & E & Hw & Hc & Hg & Hj & Hm).
    exists im', bf', s'. cbn [messages zip_with backfill_loop]. rewrite E1. cbn [mbind option_bind].
    split; [exact E|]. split; [exact Hw|]. split; [|split; [exact Hg|split; [congruence|]]].
    + intros _. destruct blocks as [|b2 blocks]; [|now apply Hc]. destruct es; [|discriminate Hl].
      cbn in E. injection E as _ E. now rewrite <- E.
    + intros q. rewrite Hm, Hm1. unfold in_blocks. setoid_rewrite elem_of_cons. split.
      * intros [[H1 H2] H3]. split; [done|]. intros (b' & [->|Hb'] & Hq); [tauto|]. apply H3. eauto.
      * intros [H1 H2]. split; [split; [done|]|]; [|intros (b' & Hb' & Hq); apply H2; eauto].
        intros Hq. apply H2. exists b. auto.
Qed.

Lemma Close_unopened cfg w : bw_file w = None -> BlockWriter.Close cfg w = Ok w.
Proof. intros E. unfold BlockWriter.Close. now rewrite E. Qed.

(** C22: Backfill end to end, for journal files without dictionaries. Take a
    well-formed journal file, plain or zstd (a zstd-dict file arrives garbled, see
    [dict_backfill_garbled]), shorter than 2^62 bytes, whose blocks carry 64-bit
    numbers. The blocks the boat sends for a hole, every send succeeding, pass
    through the cloud's [Backfill] handler for an instance that exists without an
    error, when the cloud can create its files and send its answers and the
    session's files stay within the format's sizes and have names of their own
    ([session_room]; two files opened in the same millisecond overwrite each other).
    The files the session closes read back, through the journal reader, as exactly
    the frames of the blocks that overlap the hole, in order; they are added to the
    instance's journal under the prefix backfill; and exactly the numbers of those
    blocks leave the hole tracker. *)
Theorem backfill_end_to_end ctx id im s now ok hole es blocks :
  extractInstanceID ctx = Ok id -> instances im !! id = Some s -> holes_ok (is_HoleTracker s) ->
  backfillFromFile DecodeAll DecodeAllDict (Some (journal_bytes bs comp cs tail)) hole (fun _ => true) []
    = (blocks, true) ->
  Forall env_fine es -> length es = length blocks -> Forall block_ok64 blocks ->
  session_room session_cfg session_compressed (mkBlockWriter None 0 0 0 [] []) (handed es blocks) = true ->
  exists im' sent s' files ess,
    Backfill ctx now true ok (messages es blocks) im = Some (im', sent, None) /\
    instances im' !! id = Some s' /\ is_journal s' = store_files "backfill" files (is_journal s) /\
    Forall2 (fun '(_, c) es => exists jr, NewReader c = Ok jr /\
      forall fuel, (length es < fuel)%nat -> read_all DecodeAll DecodeAllDict fuel jr = Some es) files ess /\
    concat ess = concat (map block_entries (List.filter (overlaps hole) (map fst cs))) /\
    forall q, missing (is_HoleTracker s') q <-> missing (is_HoleTracker s) q /\ ~ in_blocks blocks q.
Proof.
  intros Hid Hget Hholes Hfile He Hl H64 Hroom.
  destruct (backfillFromFile_ok hole []) as (blocks' & E & Hsent). rewrite Hfile in E. cbn [app] in E.
  injection E as <-. set (w0 := mkBlockWriter None 0 0 0 [] []).
  assert (Hcar : Forall2 (carries DecodeAll session_cfg session_compressed) (handed es blocks)
                   (List.filter (overlaps hole) (map fst cs))).
  { assert (Hin : Forall (fun a => block_ok bs a /\ - 2 ^ 63 <= ab_base a < 2 ^ 63 /\ 0 <= ab_seq a < 2 ^ 64)
      (List.filter (overlaps hole) (map fst cs))).
    { apply Forall_forall. intros a Ha. apply list_elem_of_In, filter_In in Ha as [Ha _].
      apply list_elem_of_In, list_elem_of_fmap in Ha as (ch & -> & Hch). rewrite Forall_forall in Hst, Hok.
      destruct (Hst _ Hch) as (_ & Hb & Hs). split; [exact (Hok _ Hch)|]. auto. }
    clear -He Hl Hsent Hin. revert es He Hl Hin. induction Hsent as [|b a blocks as_ Hb _ IH];
      intros [|e es] He Hl Hin; try discriminate Hl; [constructor|]. inversion He; inversion Hin; subst.
    cbn [handed zip_with]. constructor; [now apply sent_carries|]. apply IH; auto. }
  assert (Hcomp : bwc_Compression session_cfg = if session_compressed then CompressionZstd else CompressionNone)
    by (unfold session_cfg, session_compressed; cbn; destruct Hplain as [-> | ->]; reflexivity).
  assert (Hnew : NewBlockWriter session_cfg = Some (session_cfg, w0)).
  { unfold NewBlockWriter, bw_setDefaults, session_cfg. cbn [bwc_BlockSize bwc_Compression bwc_RotateDuration bwc_RotateSize].
    pose proof Hbs as [H1 H2]. rewrite (proj2 (Z.eqb_neq bs 0)) by lia. cbn [bwc_BlockSize].
    rewrite (proj2 (Z.ltb_ge bs 4096)), H2 by lia. reflexivity. }
  destruct (write_session_sound DecodeAll DecodeAllDict session_cfg session_compressed Hbs Hcomp _ _ w0 Hnew Hcar Hroom)
    as (w' & ess & Ews & Hnone & Hread & Hcat).
  unfold write_session in Ews. destruct (append_blocks _ _ _ w0) as [w1|] eqn:Ea; [|done].
  cbn [mbind result_bind] in Ews. unfold Backfill. rewrite Hid. unfold Get. rewrite Hget. cbv zeta.
  change (NewBlockWriter backfill_config) with (Some (backfill_config, w0)). cbv iota beta.
  set (s1 := RecordEvent EventBackfillStart _ now s). set (im1 := put_instance id s1 im).
  destruct (backfill_loop_accepted id now ok es blocks _ im1 (mkBackfill backfill_config w0 0 []) s1 w1 He Hl Hsent H64
    (or_intror eq_refl) (lookup_insert_eq _ _ _) Hholes Ea) as (im2 & bf2 & s2 & El & Hw2 & Hc2 & Hg2 & Hj2 & Hm2).
  rewrite El. cbn [backfill_loop mbind option_bind].
  assert (Hclose : BlockWriter.Close (bf_cfg bf2) (bf_bw bf2) = Ok w').
  { rewrite Hw2. destruct blocks as [|b blocks].
    - destruct es; [|discriminate Hl]. injection Ea as <-. rewrite Close_unopened in Ews |- * by reflexivity.
      exact Ews.
    - now rewrite Hc2. }
  unfold backfill_close. rewrite Hclose. unfold backfill_done at 1. unfold Get. rewrite Hg2.
  cbn [put_instance with_instances instances]. rewrite lookup_insert_eq.
  do 5 eexists. split; [reflexivity|]. split; [apply lookup_insert_eq|].
  split; [|split; [exact Hread|split; [exact Hcat|]]].
  - unfold persist. destruct ok; cbn [is_journal set_broker RecordEvent set_events set_disk]; now rewrite Hj2.
  - intros q. unfold persist. destruct ok; exact (Hm2 q).
Qed.

End file.

(** * What the live stream sends *)

Definition frames_of (msgs : list live_msg) : list LiveFrame :=
  omap (fun m => match m with LFrame f => Some f | LStatus _ _ => None end) msgs.

Lemma frames_of_app m1 m2 : frames_of (m1 ++ m2) = frames_of m1 ++ frames_of m2.
Proof. apply omap_app. Qed.

(** The cloud takes the frames of a stream in turn. *)
Fixpoint cloud_takes (now : time) (fs : list LiveFrame) (s : InstanceState) : option InstanceState :=
  match fs with
  | [] => Some s
  | f :: fs => s ← live_frame now f s; cloud_takes now fs s
  end.

(** Where a cursor gets to by [n] consecutive numbers from [start]. *)
Definition followed (cursor start n : Z) : Z := if start <=? cursor + 1 then Z.max cursor (start + n - 1) else cursor.

Lemma cloud_follows now fs : forall start s,
  map lf_Seq fs = seqZ start (zlen fs) -> ring_ok (is_ringSize s) = true -> 0 <= is_Cursor s < 2 ^ 64 - 1 -> 1 <= start ->
  start + zlen fs < 2 ^ 64 -> exists s', cloud_takes now fs s = Some s' /\ is_Cursor s' = followed (is_Cursor s) start (zlen fs).
Proof.
  induction fs as [|f fs IH]; intros start s Hseq Hr Hc H0 Hmax; cbn [cloud_takes].
  - exists s. split; [done|]. rewrite zlen_nil. unfold followed. destruct (Z.leb_spec start (is_Cursor s + 1)); lia.
  - rewrite zlen_cons in *. pose proof (zlen_nonneg fs). rewrite seqZ_cons in Hseq by lia.
    cbn [map] in Hseq. injection Hseq as Hf Hseq.
    destruct (live_frame_runs now f s Hr) as (s1 & E & Hr1 & _). rewrite E. cbn [mbind option_bind].
    apply live_frame_fields in E as (Ec & _). rewrite (wrap_small 64), Hf in Ec by lia.
    destruct (IH (Z.succ start) s1) as (s' & E' & Ec').
    + rewrite Hseq. f_equal. lia.
    + now rewrite Hr1.
    + rewrite Ec. destruct (Z.eqb_spec start (is_Cursor s + 1)); lia.
    + lia.
    + lia.
    + exists s'. split; [exact E'|]. rewrite Ec', Ec. unfold followed.
      destruct (Z.eqb_spec start (is_Cursor s + 1)); repeat match goal with |- context [?a <=? ?b] => destruct (Z.leb_spec a b) end; lia.
Qed.

(** The frames of the snapshot have the number 0, which moves no cursor. *)
Lemma cloud_ignores now fs : forall s,
  Forall (fun f => lf_Seq f = 0) fs -> ring_ok (is_ringSize s) = true -> 0 <= is_Cursor s < 2 ^ 64 - 1 ->
  exists s', cloud_takes now fs s = Some s' /\ is_Cursor s' = is_Cursor s /\ is_ringSize s' = is_ringSize s.
Proof.
  induction fs as [|f fs IH]; intros s Hf Hr Hc; [by exists s|]. apply Forall_cons in Hf as [Hf Hfs]. cbn [cloud_takes].
  destruct (live_frame_runs now f s Hr) as (s1 & E & Hr1 & _). rewrite E. cbn [mbind option_bind].
  apply live_frame_fields in E as (Ec & _). rewrite (wrap_small 64), Hf in Ec by lia. rewrite (proj2 (Z.eqb_neq 0 _)) in Ec by lia.
  destruct (IH s1 Hfs) as (s' & E' & H1 & H2); [congruence|congruence|]. exists s'. split; [exact E'|]. split; congruence.
Qed.

Lemma cloud_takes_app now a b : forall s, cloud_takes now (a ++ b) s = (s ← cloud_takes now a s; cloud_takes now b s).
Proof. induction a as [|f a IH]; intros s; [done|]. cbn [cloud_takes app]. destruct (live_frame now f s); [apply IH|done]. Qed.

Lemma send_snapshot_frames now snapshot : exists sent,
  (send_snapshot now snapshot).1 = map LFrame (map (snapshot_frame now) sent) /\ sent `prefix_of` map fst snapshot /\
  ((send_snapshot now snapshot).2 = true -> sent = map fst snapshot).
Proof.
  induction snapshot as [|[f []] snapshot (sent & H1 & H2 & H3)]; cbn [send_snapshot negb].
  - by exists [].
  - destruct (send_snapshot now snapshot) as [msgs all]. exists (f :: sent). cbn [fst snd map] in *. rewrite H1.
    split; [done|]. split; [by apply prefix_cons|]. intros E. by rewrite (H3 E).
  - exists []. split; [done|]. split; [apply prefix_nil|done].
Qed.

Lemma frames_of_frames fs : frames_of (map LFrame fs) = fs.
Proof. unfold frames_of. induction fs as [|f fs IH]; [done|]. cbn. by rewrite IH. Qed.

Section live.
Variable log : Z -> option ringEntry.

(** The ring and the journal directory a round sees hold the log. *)
Definition round_ok (e : LiveRound) : Prop :=
  ring_in_log log (lr_ring e) /\ Forall (file_law log) (default [] (lr_dir e)).

(** A live frame is the log's frame of its number. *)
Definition from_log (f : LiveFrame) : Prop :=
  exists x, log (lf_Seq f) = Some x /\ f = mkLiveFrame (lf_Seq f) (Time_UnixMicro (re_Timestamp x))
    (BuildCANID (re_Header x)) (re_RawData x).

Lemma unfiltered_none tl a b : all_skipped log tl None a b -> a = b.
Proof.
  intros [Hle H]. destruct (Z.eq_dec a b) as [|Hne]; [done|]. destruct (H a ltac:(lia)) as (x & _ & E).
  discriminate E.
Qed.

Lemma live_send_frames cfg rounds : forall c n msgs out,
  Forall round_ok rounds -> Consumer.filter c = None -> journal_law log (Consumer.journal c) ->
  0 <= Consumer.cursor c < 2 ^ 64 -> live_send cfg rounds c n = (msgs, out) ->
  map lf_Seq (frames_of msgs) = seqZ (Consumer.cursor c) (zlen (frames_of msgs)) /\ Forall from_log (frames_of msgs).
Proof.
  induction rounds as [|e rounds IH]; intros c n msgs out Hr Hf Hj Hc; cbn [live_send].
  - intros [= <- _]. split; [reflexivity|constructor].
  - inversion Hr as [|? ? [Hring Hdir] Hr']; subst. set (status := if lr_tick e then _ else _).
    assert (Hst : frames_of status = []) by (unfold status; destruct (lr_tick e); reflexivity).
    destruct (lr_tick e && negb (lr_send_ok e)); [intros [= <- _]; split; [reflexivity|constructor]|].
    destruct (Consumer.Next (lr_dir e) (lr_ring e) c) as [c1 r] eqn:En.
    destruct (Next_sound log _ _ _ _ _ Hring Hdir Hj Hc En) as (Hf1 & Hj1 & Hc1 & Hres). rewrite Hf in *.
    destruct r as [f| | |].
    + destruct Hres as (Hsk & Ecur & x & Hx & Ht & Hh & Hd & _). apply unfiltered_none in Hsk.
      assert (Hone : from_log (live_frame_of f)).
      { exists x. unfold live_frame_of. cbn [lf_Seq]. split; [exact Hx|]. now rewrite Ht, Hh, Hd. }
      destruct (lr_send_ok e); cbn [negb];
        [|intros [= <- _]; rewrite Hst; split; [reflexivity|constructor]].
      destruct (_ && _ && _).
      * intros [= <- _]. rewrite frames_of_app, Hst. cbn. split; [|now repeat constructor].
        rewrite zlen_cons, zlen_nil. cbn. now rewrite <- Hsk.
      * destruct (live_send cfg rounds c1 (n + 1)) as [rest o] eqn:Er. intros [= <- _].
        destruct (IH c1 (n + 1) rest o Hr' Hf1 Hj1 Hc1 Er) as [Hs Hl].
        rewrite !frames_of_app, Hst. cbn [app frames_of omap list_omap map].
        split; [|now constructor]. rewrite zlen_cons. pose proof (zlen_nonneg (frames_of rest)).
        rewrite seqZ_cons by lia. cbn [lf_Seq live_frame_of]. rewrite <- Hsk. f_equal.
        replace (Z.pred (1 + zlen (frames_of rest))) with (zlen (frames_of rest)) by lia.
        replace (Z.succ (Consumer.cursor c)) with (Consumer.cursor c1) by lia. exact Hs.
    + intros [= <- _]. rewrite Hst. split; [reflexivity|constructor].
    + intros [= <- _]. rewrite Hst. split; [reflexivity|constructor].
    + destruct (live_send cfg rounds c1 n) as [rest o] eqn:Er. intros [= <- _].
      destruct (IH c1 n rest o Hr' Hf1 Hj1 Hc1 Er) as [Hs Hl]. rewrite frames_of_app, Hst. cbn [app].
      destruct Hres as [Hsk _]. apply unfiltered_none in Hsk. now rewrite Hsk.
Qed.


End live.

(** Reconnects back off.  The waits after failures without lag are one second,
    doubled each time, up to a minute, for ever. *)
Theorem backoff_doubles cfg ends c :
  Forall (fun e => e.2 = false) ends ->
  run_waits cfg second ends c =
    map (fun k => Z.min (second * 2 ^ Z.of_nat k) maxBackoff) (List.seq 0 (length ends)).
Proof.
  assert (H : forall ends k c, Forall (fun e => e.2 = false) ends ->
    run_waits cfg (Z.min (second * 2 ^ Z.of_nat k) maxBackoff) ends c =
    map (fun k => Z.min (second * 2 ^ Z.of_nat k) maxBackoff) (List.seq k (length ends))).
  { clear. induction ends as [|[now lag] ends IH]; intros k c He; [done|].
    inversion He as [|? ? Hl He']; subst. cbn in Hl. subst lag. cbn [run_waits after_disconnect rp_lagTriggered].
    cbn [length List.seq map]. f_equal.
    assert (E : Z.min (Z.min (second * 2 ^ Z.of_nat k) maxBackoff * 2) maxBackoff
                = Z.min (second * 2 ^ Z.of_nat (S k)) maxBackoff).
    { rewrite Nat2Z.inj_succ, Z.pow_succ_r by lia. pose proof (Z.pow_pos_nonneg 2 (Z.of_nat k)).
      unfold maxBackoff, second in *. lia. }
    rewrite E. now apply IH. }
  intros He. exact (H ends 0%nat c He).
Qed.

(** * Concrete runs *)

(** The file of [JournalReader] (frames 10, 11, 20, 21, 30, 31, 50, 51) and a
    hole over 21 to 44. *)
Definition demo_hole : SeqRange := mkRange 21 45.

Lemma demo_size : block_size_ok 4096.
Proof. split; [lia|reflexivity]. Qed.

Lemma demo_short : zlen demo_journal < 2 ^ 62.
Proof. vm_compute. reflexivity. Qed.

Lemma backfill_sends_hole_witness :
  exists blocks, backfillFromFile demo_decode demo_dict_decode (Some demo_journal) demo_hole (fun _ => true) []
      = ([] ++ blocks, true) /\
    Forall2 (sent_as demo_decode 4096 CompressionZstd) blocks
      (List.filter (overlaps demo_hole) (map fst demo_chunks)) /\
    forall a q, a ∈ map fst demo_chunks -> covers demo_hole q -> ab_seq a + zlen (ab_raw a) < 2 ^ 64 ->
      ab_seq a <= q < ab_seq a + zlen (ab_raw a) -> in_blocks blocks q.
Proof.
  exact (backfill_sends_hole demo_decode demo_dict_decode 4096 CompressionZstd demo_size (or_intror eq_refl)
    demo_chunks demo_tail demo_chunks_stored demo_chunks_ok demo_chunks_tail demo_short demo_hole []).
Defined.

Definition demo_sent : list Block :=
  (backfillFromFile demo_decode demo_dict_decode (Some demo_journal) demo_hole (fun _ => true) []).1.
Definition demo_envs : list BackfillEnv := [mkBackfillEnv 8 true true true; mkBackfillEnv 9 true true false].

Lemma demo_sent_ok : backfillFromFile demo_decode demo_dict_decode (Some demo_journal) demo_hole (fun _ => true) []
  = (demo_sent, true).
Proof.
  assert (H : (backfillFromFile demo_decode demo_dict_decode (Some demo_journal) demo_hole (fun _ => true) []).2 = true)
    by (vm_compute; reflexivity).
  unfold demo_sent. destruct (backfillFromFile _ _ _ _ _ _) as [bl b]. cbn in *. now rewrite H.
Qed.

Lemma demo_sent_64 : Forall block_ok64 demo_sent.
Proof.
  assert (H : forallb (fun b => (0 <=? bk_BaseSeq b) && (0 <=? bk_FrameCount b) &&
    (bk_BaseSeq b + bk_FrameCount b <=? max_u64)) demo_sent = true) by (vm_compute; reflexivity).
  rewrite forallb_forall in H. apply Forall_forall. intros b Hb. apply list_elem_of_In, H in Hb. to_props.
  unfold block_ok64. lia.
Qed.

(** The cloud misses 15 to 44 and gets the blocks of 20, 21 and 30, 31. *)
Definition demo_cloud : InstanceManager :=
  put_instance "boat" (set_progress demo_s0 14 [mkRange 15 45]) demo_mgr.

Lemma backfill_end_to_end_witness :
  exists im' sent s' files ess,
    Backfill (mkRpc None ["boat"%string]) 7 true true (messages demo_envs demo_sent) demo_cloud
      = Some (im', sent, None) /\
    instances im' !! "boat"%string = Some s' /\ is_journal s' = store_files "backfill" files [] /\
    Forall2 (fun '(_, c) es => exists jr, NewReader c = Ok jr /\
      forall fuel, (length es < fuel)%nat -> read_all demo_decode demo_dict_decode fuel jr = Some es) files ess /\
    concat ess = concat (map block_entries (List.filter (overlaps demo_hole) (map fst demo_chunks))) /\
    forall q, missing (is_HoleTracker s') q <-> missing [mkRange 15 45] q /\ ~ in_blocks demo_sent q.
Proof.
  exact (backfill_end_to_end demo_decode demo_dict_decode 4096 CompressionZstd demo_size (or_intror eq_refl)
    demo_chunks demo_tail demo_chunks_stored demo_chunks_ok demo_chunks_tail demo_short
    (mkRpc None ["boat"%string]) "boat" demo_cloud (set_progress demo_s0 14 [mkRange 15 45]) 7 true demo_hole demo_envs demo_sent
    eq_refl (lookup_insert_eq _ _ _)
    ltac:(split; [cbn; lia|repeat constructor; cbn; unfold max_u64; lia])
    demo_sent_ok ltac:(repeat constructor) ltac:(vm_compute; reflexivity) demo_sent_64
    ltac:(vm_compute; reflexivity)).
Defined.

Definition demo_round : LiveRound := mkRound true demo_ring None 0 6 true.

Lemma demo_round_ok : Forall (round_ok demo_log) [demo_round; demo_round; demo_round].
Proof.
  assert (H : round_ok demo_log demo_round) by (split; [exact demo_ring_in_log|constructor]).
  repeat (constructor; [exact H|]). constructor.
Qed.

Definition demo_live_cfg : ReplicationClientConfig := client_defaults (mkReplConfig 0 0 0).

(** Two frames of the snapshot, then 3 on; the cursor 2 follows. *)
Definition demo_snapshot : list (RxFrame * bool) := map (fun f => (f, true)) [rx_of (mkLiveFrame 0 0 0 [1]); rx_of (mkLiveFrame 0 0 0 [2])].
Definition demo_live : list live_msg * live_end :=
  runLiveStream demo_live_cfg 5 demo_snapshot 3 6 [demo_round; demo_round; demo_round].


Lemma backoff_doubles_witness :
  run_waits demo_live_cfg second (replicate 8 (0, false)) (NewReplicationClient demo_live_cfg).2 =
    map (fun z => z * second) [1; 2; 4; 8; 16; 32; 60; 60].
Proof.
  rewrite (backoff_doubles demo_live_cfg (replicate 8 (0, false)) (NewReplicationClient demo_live_cfg).2);
    [reflexivity|repeat constructor].
Defined.

(** * Where backfill fails

    Blocks with a dictionary have 24-byte headers; [readRawBlock] skips 20, so
    what it sends starts inside the header and the cloud, which stores it as a
    zstd block, can no longer decode it. *)
Definition dict_chunk : Chunk :=
  let a := demo_block 1 in
  let payload := 2 :: ab_buf a in
  (a, chunk_header a ++ le32 2 ++ le32 (zlen payload) ++ [7; 7] ++ payload).
Definition dict_journal : list Z :=
  journal_bytes 4096 CompressionZstdDict [dict_chunk] (index_bytes [16]).

Lemma dict_backfill_garbled :
  match backfillFromFile demo_decode demo_dict_decode (Some dict_journal) (mkRange 10 12) (fun _ => true) [] with
  | ([b], true) =>
      (bk_Compressed b, bool_decide (demo_decode (bk_Data b) = Some (ab_buf (demo_block 1))), take 8 (bk_Data b))
  | _ => (false, true, [])
  end = (true, false, [1; 16; 0; 0; 7; 7; 2; 64]).
Proof. vm_compute. reflexivity. Qed.
