(* ===== verification/GoNum.v ===== *)
(** Numbers as Go's standard library reads and writes them: [strconv].

    Integers of a base, and [float64] as the IEEE 754 binary64 numbers of
    [SpecFloat].  [ParseFloat] covers the texts the program's lexers produce:
    digits and dots after an optional sign, no exponent. *)

From S2P Require Import Prelude.
From Stdlib Require Import SpecFloat Decimal DecimalString DecimalN Ascii.

(** * Integers *)

Inductive num_error := ErrSyntax | ErrRange.

Definition digit_value (c : ascii) : option N :=
  let z := Z_of_ascii c in
  if (48 <=? z) && (z <=? 57) then Some (Z.to_N (z - 48))
  else if (97 <=? z) && (z <=? 122) then Some (Z.to_N (z - 87))
  else if (65 <=? z) && (z <=? 90) then Some (Z.to_N (z - 55))
  else None.

Definition isDigit (c : ascii) : bool := let z := Z_of_ascii c in (48 <=? z) && (z <=? 57).

(** The value of a text all of whose characters are digits of [base]. *)
Fixpoint parse_digits (base : N) (s : string) (acc : N) : option N :=
  match s with
  | EmptyString => Some acc
  | String c s =>
      match digit_value c with
      | Some d => if (d <? base)%N then parse_digits base s (acc * base + d)%N else None
      | None => None
      end
  end.

(** [strconv.ParseUint] with an explicit base; a sign is a syntax error. *)
Definition ParseUint (s : string) (base : N) (bits : Z) : result num_error Z :=
  match s with
  | EmptyString => Err ErrSyntax
  | _ => match parse_digits base s 0 with
         | None => Err ErrSyntax
         | Some n => if Z.of_N n <? 2 ^ bits then Ok (Z.of_N n) else Err ErrRange
         end
  end.

(** The sign of a text and what follows it. *)
Definition cut_sign (s : string) : bool * string :=
  match s with
  | String "-" s => (true, s)
  | String "+" s => (false, s)
  | _ => (false, s)
  end%char.

(** [strconv.ParseInt] in base 10 for 64 bits. *)
Definition ParseInt (s : string) : result num_error Z :=
  let '(neg, d) := cut_sign s in
  match d with
  | EmptyString => Err ErrSyntax
  | _ => match parse_digits 10 d 0 with
         | None => Err ErrSyntax
         | Some n =>
             let z := if neg then - Z.of_N n else Z.of_N n in
             if (- 2 ^ 63 <=? z) && (z <? 2 ^ 63) then Ok z else Err ErrRange
         end
  end.

Definition string_of_N (n : N) : string := NilEmpty.string_of_uint (N.to_uint n).

(** [strconv.FormatInt] in base 10. *)
Definition FormatInt (z : Z) : string :=
  if z <? 0 then String "-" (string_of_N (Z.to_N (- z))) else string_of_N (Z.to_N z).

(** ** Bytes in hexadecimal *)

(** [hex.DecodeString]. *)
Definition hex_value (c : ascii) : option Z :=
  match digit_value c with
  | Some d => if (d <? 16)%N then Some (Z.of_N d) else None
  | None => None
  end.

Fixpoint hex_DecodeString (s : string) : option (list Z) :=
  match s with
  | EmptyString => Some []
  | String a (String b s) => x ← hex_value a; y ← hex_value b; rest ← hex_DecodeString s; Some (x * 16 + y :: rest)
  | String _ EmptyString => None
  end.

Lemma hex_digits_all (P : Z -> Prop) : Forall P (map Z.of_nat (seq 0 16)) -> forall d, 0 <= d < 16 -> P d.
Proof.
  intros H d Hd. apply (Forall_forall P _) with (x := d) in H; [done|].
  apply list_elem_of_In. replace d with (Z.of_nat (Z.to_nat d)) by lia. apply in_map, in_seq. lia.
Qed.

Lemma hex_value_digit d : 0 <= d < 16 -> hex_value (hex_digit d) = Some d.
Proof. apply (hex_digits_all (fun d => hex_value (hex_digit d) = Some d)). repeat constructor. Qed.

Lemma hex_decode_encode bs : bytes_ok bs -> hex_DecodeString (hex_encode bs) = Some bs.
Proof.
  induction 1 as [|b bs Hb _ IH]; [done|]. unfold byte_ok in Hb. cbn [hex_encode hex_DecodeString].
  rewrite !hex_value_digit by (first [apply Z.mod_pos_bound|split; [apply Z.div_pos|apply Z.div_lt_upper_bound]]; lia).
  rewrite IH. cbn [mbind option_bind]. f_equal. f_equal. pose proof (Z.div_mod b 16 ltac:(lia)). lia.
Qed.

(** * Floating point *)

Definition float64 : Type := spec_float.

(** [float64(z)] of an integer. *)
Definition float_of_Z (z : Z) : float64 := binary_normalize 53 1024 z 0 false.

(** The float nearest to [(-1)^neg * m * 10^e10], ties to even. *)
Definition float_of_decimal (neg : bool) (m : N) (e10 : Z) : float64 :=
  match m with
  | N0 => S754_zero neg
  | Npos p =>
      if 0 <=? e10
      then binary_normalize 53 1024 (cond_Zopp neg (Zpos p * 10 ^ e10)) 0 neg
      else match 10 ^ (- e10) with
           | Zpos q => SFdiv 53 1024 (S754_finite neg p 0) (S754_finite false q 0)
           | _ => S754_nan
           end
  end.

(** What precedes the first dot, and what follows it. *)
Fixpoint cut_dot (s : string) : string * option string :=
  match s with
  | EmptyString => (EmptyString, None)
  | String c s' =>
      if Ascii.eqb c "." then (EmptyString, Some s')
      else let '(a, b) := cut_dot s' in (String c a, b)
  end.

(** [strconv.ParseFloat(s, 64)] on such a text. *)
Definition ParseFloat (s : string) : result num_error float64 :=
  let '(neg, s) := cut_sign s in
  let '(ip, fp) := cut_dot s in
  let fp := default EmptyString fp in
  match (ip ++ fp)%string with
  | EmptyString => Err ErrSyntax
  | digits =>
      match parse_digits 10 digits 0 with
      | None => Err ErrSyntax
      | Some m =>
          match float_of_decimal neg m (- Z.of_nat (String.length fp)) with
          | S754_infinity _ => Err ErrRange
          | f => Ok f
          end
      end
  end.

(** ** The shortest decimal

    A finite positive float is [num / den].  [decimal_point] is the position of
    the decimal point, [10^(dp-1) <= num/den < 10^dp]; [candidates n] are the two
    [n]-digit decimals around the number, the nearer one first; [shortest] is the
    first that parses back. *)

Definition ratio (m : positive) (e : Z) : Z * Z :=
  if 0 <=? e then (Zpos m * 2 ^ e, 1) else (Zpos m, 2 ^ (- e)).

Definition zdigits (n : N) : Z := Z.of_nat (String.length (string_of_N n)).

Fixpoint leading_zeros (fuel : nat) (num den : Z) : Z :=
  match fuel with
  | O => 0
  | S fuel => if den <=? num * 10 then 0 else 1 + leading_zeros fuel (num * 10) den
  end.

Definition decimal_point (num den : Z) : Z :=
  if den <=? num then zdigits (Z.to_N (num / den)) else - leading_zeros 330 num den.

Definition candidates (num den n dp : Z) : list (N * Z) :=
  let e10 := dp - n in
  let '(num, den) := if 0 <=? e10 then (num, den * 10 ^ e10) else (num * 10 ^ (- e10), den) in
  let lo := num / den in
  let near_lo := (2 * (num - lo * den) <? den) || ((2 * (num - lo * den) =? den) && Z.even lo) in
  let lo := (Z.to_N lo, e10) in let hi := (Z.to_N (num / den + 1), e10) in
  if near_lo then [lo; hi] else [hi; lo].

Fixpoint strip_zeros (fuel : nat) (d : N) (e10 : Z) : N * Z :=
  match fuel with
  | O => (d, e10)
  | S fuel => if (d mod 10 =? 0)%N then strip_zeros fuel (d / 10)%N (e10 + 1) else (d, e10)
  end.

Definition spec_eqb (x y : float64) : bool :=
  match x, y with
  | S754_zero s, S754_zero s' => Bool.eqb s s'
  | S754_finite s m e, S754_finite s' m' e' => Bool.eqb s s' && Pos.eqb m m' && Z.eqb e e'
  | _, _ => false
  end.

Definition shortest (s : bool) (m : positive) (e : Z) : option (N * Z) :=
  let '(num, den) := ratio m e in
  let dp := decimal_point num den in
  head (List.filter (fun '(d, e10) => negb (d =? 0)%N && spec_eqb (float_of_decimal s d e10) (S754_finite s m e))
         (map (fun '(d, e10) => strip_zeros 18 d e10)
           (flat_map (fun n => candidates num den n dp) (seqZ 1 17)))).

(** ** Formatting *)

Fixpoint zeros (n : nat) : string := match n with O => EmptyString | S n => String "0" (zeros n) end.

Fixpoint string_cut (n : nat) (s : string) : string * string :=
  match n, s with
  | S n, String c s => let '(a, b) := string_cut n s in (String c a, b)
  | _, _ => (EmptyString, s)
  end.

(** [%f] with the digits there are. *)
Definition fmtF (d : N) (e10 : Z) : string :=
  let dp := zdigits d + e10 in
  if 0 <=? e10 then string_of_N (d * 10 ^ Z.to_N e10)
  else if 0 <? dp then
    let '(ip, fp) := string_cut (Z.to_nat dp) (string_of_N d) in (ip ++ String "." fp)%string
  else ("0." ++ zeros (Z.to_nat (- dp)) ++ string_of_N d)%string.

(** [%e] with the digits there are: an exponent of two digits or more. *)
Definition fmtE (d : N) (e10 : Z) : string :=
  let exp := zdigits d + e10 - 1 in
  let '(ip, fp) := string_cut 1 (string_of_N d) in
  let frac := match fp with EmptyString => EmptyString | _ => String "." fp end in
  let a := Z.to_N (Z.abs exp) in
  (ip ++ frac ++ (if (exp <? 0)%Z then "e-" else "e+") ++ (if (a <? 10)%N then "0" else "") ++ string_of_N a)%string.

(** Whether [%e] is used: the exponent is below -4 or at least 6. *)
Definition uses_exponent (d : N) (e10 : Z) : bool :=
  let exp := zdigits d + e10 - 1 in (exp <? -4) || (6 <=? exp).

(** [strconv.FormatFloat(x, 'g', -1, 64)]. *)
Definition FormatFloat (x : float64) : string :=
  match x with
  | S754_nan => "NaN"
  | S754_infinity s => if s then "-Inf" else "+Inf"
  | S754_zero s => if s then "-0" else "0"
  | S754_finite s m e =>
      match shortest s m e with
      | None => EmptyString
      | Some (d, e10) =>
          let body := if uses_exponent d e10 then fmtE d e10 else fmtF d e10 in
          if s then String "-" body else body
      end
  end%string.

Definition demo_float (s : string) : string :=
  match ParseFloat s with Ok x => FormatFloat x | Err _ => "?" end%string.

Example format_examples :
  map demo_float ["2.50"; "-0.1"; "100000."; "1234567."; "0.00012"; "0.00001234"; ".5"; "1.7976931348623157";
                  "123456.789012"; "9007199254740993.0"; "0.3"; "2."; "-0.0"; "1..2"; "-."]%string =
  ["2.5"; "-0.1"; "100000"; "1.234567e+06"; "0.00012"; "1.234e-05"; "0.5"; "1.7976931348623157";
   "123456.789012"; "9.007199254740992e+15"; "0.3"; "2"; "-0"; "?"; "?"]%string.
Proof. vm_compute. reflexivity. Qed.

(** * Reading what was written *)

Fixpoint all_chars (p : ascii -> bool) (s : string) : bool :=
  match s with EmptyString => true | String c s => p c && all_chars p s end.

Lemma all_chars_app p a b : all_chars p (a ++ b)%string = all_chars p a && all_chars p b.
Proof.
  induction a as [|c a IH]; [done|]. change (p c && all_chars p (a ++ b)%string = (p c && all_chars p a) && all_chars p b).
  now rewrite IH, andb_assoc.
Qed.

Lemma all_chars_weaken (p q : ascii -> bool) s : (forall c, p c = true -> q c = true) ->
  all_chars p s = true -> all_chars q s = true.
Proof. intros Hpq. induction s as [|c s IH]; cbn; [done|]. intros [Hc Hs]%andb_prop. rewrite Hpq, IH; auto. Qed.

Lemma all_chars_zeros n : all_chars isDigit (zeros n) = true.
Proof. induction n; cbn; auto. Qed.

Lemma string_of_N_digits n : all_chars isDigit (string_of_N n) = true.
Proof. unfold string_of_N. induction (N.to_uint n); cbn; auto. Qed.

Lemma parse_digits_uint_pos u : forall p,
  parse_digits 10 (NilEmpty.string_of_uint u) (Npos p) = Some (Npos (Pos.of_uint_acc u p)).
Proof.
  induction u as [|u IH|u IH|u IH|u IH|u IH|u IH|u IH|u IH|u IH|u IH]; intros p; [reflexivity|..];
    cbn [NilEmpty.string_of_uint parse_digits Pos.of_uint_acc]; rewrite <- IH;
    match goal with |- context [digit_value ?c] =>
      let d := eval vm_compute in (digit_value c) in change (digit_value c) with d end;
    cbv iota beta; match goal with |- context [(?d <? 10)%N] => change (d <? 10)%N with true end;
    cbv iota; f_equal; lia.
Qed.

Lemma parse_digits_uint u : parse_digits 10 (NilEmpty.string_of_uint u) 0 = Some (N.of_uint u).
Proof. induction u; cbn; try reflexivity; [exact IHu|..]; apply (parse_digits_uint_pos u). Qed.

Lemma parse_string_of_N n : parse_digits 10 (string_of_N n) 0 = Some n.
Proof. unfold string_of_N. now rewrite parse_digits_uint, DecimalN.Unsigned.of_to. Qed.

Lemma parse_digits_zeros k s : parse_digits 10 (zeros k ++ s)%string 0 = parse_digits 10 s 0.
Proof. induction k; cbn; auto. Qed.

Lemma string_of_N_cons n : exists c s, string_of_N n = String c s.
Proof.
  destruct (string_of_N n) as [|c s] eqn:E; [|eauto]. exfalso.
  pose proof (parse_string_of_N n) as H. rewrite E in H. injection H as <-. discriminate.
Qed.

Lemma cut_sign_digit s : all_chars isDigit s = true -> cut_sign s = (false, s).
Proof.
  destruct s as [|c s]; [done|]. cbn. intros [Hc _]%andb_prop.
  destruct c as [[][][][][][][][]]; vm_compute in Hc; try discriminate; reflexivity.
Qed.

Lemma cut_sign_string_of_N n : cut_sign (string_of_N n) = (false, string_of_N n).
Proof. apply cut_sign_digit, string_of_N_digits. Qed.

Lemma ParseInt_FormatInt z : - 2 ^ 63 <= z < 2 ^ 63 -> ParseInt (FormatInt z) = Ok z.
Proof.
  intros Hz. unfold ParseInt, FormatInt. destruct (Z.ltb_spec z 0) as [Hn|Hn].
  - cbn [cut_sign]. destruct (string_of_N_cons (Z.to_N (- z))) as (c & s & E). rewrite E, <- E, parse_string_of_N.
    rewrite Z2N.id, Z.opp_involutive by lia. cbv zeta.
    rewrite (proj2 (Z.leb_le _ _)), (proj2 (Z.ltb_lt _ _)) by lia. done.
  - rewrite cut_sign_string_of_N. destruct (string_of_N_cons (Z.to_N z)) as (c & s & E).
    rewrite E, <- E, parse_string_of_N, Z2N.id by lia. cbv zeta.
    rewrite (proj2 (Z.leb_le _ _)), (proj2 (Z.ltb_lt _ _)) by lia. done.
Qed.

Lemma string_cut_app n : forall s a b, string_cut n s = (a, b) -> (a ++ b)%string = s.
Proof.
  induction n as [|n IH]; intros [|c s] a b; cbn; try (intros [= <- <-]; reflexivity).
  destruct (string_cut n s) as [a' b'] eqn:E. intros [= <- <-].
  change (String c (a' ++ b') = String c s)%string. f_equal. eauto.
Qed.

Lemma string_cut_length n : forall s a b, string_cut n s = (a, b) -> (n <= String.length s)%nat ->
  String.length a = n /\ (String.length b = String.length s - n)%nat.
Proof.
  induction n as [|n IH]; intros [|c s] a b; cbn; try (intros [= <- <-] ?; cbn; lia).
  destruct (string_cut n s) as [a' b'] eqn:E. intros [= <- <-] Hl. cbn. destruct (IH _ _ _ E); lia.
Qed.

Lemma cut_dot_digits a b : all_chars isDigit a = true -> cut_dot (a ++ String "." b)%string = (a, Some b).
Proof.
  induction a as [|c a IH]; [done|]. intros [Hc Ha]%andb_prop. specialize (IH Ha).
  change (cut_dot (String c a ++ String "." b)%string) with
    (if Ascii.eqb c "." then (EmptyString, Some (a ++ String "." b)%string)
     else let '(x, y) := cut_dot (a ++ String "." b)%string in (String c x, y)).
  rewrite IH. destruct (Ascii.eqb_spec c "."); [subst; discriminate|done].
Qed.

(** ** Floats *)

Definition float_finite (x : float64) : bool := match x with S754_zero _ | S754_finite _ _ _ => true | _ => false end.

(** A finite float that [FormatFloat] writes without an exponent; not [-0]. *)
Definition plain_float (x : float64) : bool :=
  match x with
  | S754_zero s => negb s
  | S754_finite s m e => match shortest s m e with Some (d, e10) => negb (uses_exponent d e10) | None => false end
  | _ => false
  end.

Lemma spec_eqb_eq x y : spec_eqb x y = true -> x = y.
Proof.
  destruct x, y; cbn; try discriminate; [now intros ->%Bool.eqb_prop|].
  intros [[->%Bool.eqb_prop ->%Pos.eqb_eq]%andb_prop ->%Z.eqb_eq]%andb_prop. reflexivity.
Qed.

Lemma shortest_value s m e d e10 : shortest s m e = Some (d, e10) ->
  d <> 0%N /\ float_of_decimal s d e10 = S754_finite s m e.
Proof.
  unfold shortest. destruct (ratio m e) as [num den]. cbv zeta. intros H%head_Some_elem_of.
  apply list_elem_of_In, filter_In in H as [_ [H1 H2]%andb_prop].
  split; [now apply N.eqb_neq, negb_true_iff|now apply spec_eqb_eq].
Qed.

(** The integer a plain float without a fraction denotes. *)
Definition integral (x : float64) : option Z :=
  match x with
  | S754_zero _ => Some 0
  | S754_finite s m e =>
      match shortest s m e with
      | Some (d, e10) => if 0 <=? e10 then Some (cond_Zopp s (Z.of_N d * 10 ^ e10)) else None
      | None => None
      end
  | _ => None
  end.

Lemma FormatInt_signed s n : n <> 0%N ->
  FormatInt (cond_Zopp s (Z.of_N n)) = if s then String "-" (string_of_N n) else string_of_N n.
Proof.
  intros Hn. unfold FormatInt. destruct s; cbn [cond_Zopp].
  - rewrite (proj2 (Z.ltb_lt _ _)), Z.opp_involutive, N2Z.id by lia. done.
  - rewrite (proj2 (Z.ltb_ge _ _)), N2Z.id by lia. done.
Qed.

(** A plain float without a fraction is written as its integer, which converts
    back to it. *)
Lemma format_integral x z : plain_float x = true -> integral x = Some z ->
  FormatFloat x = FormatInt z /\ float_of_Z z = x.
Proof.
  destruct x as [s|s| |s m e]; cbn [plain_float integral]; try discriminate.
  { destruct s; [discriminate|]. intros _ [= <-]. split; reflexivity. }
  cbn [FormatFloat]. destruct (shortest s m e) as [[d e10]|] eqn:Es; [|discriminate].
  intros Hx%negb_true_iff. rewrite Hx. destruct (Z.leb_spec 0 e10) as [He|He]; [|discriminate]. intros [= <-].
  destruct (shortest_value _ _ _ _ _ Es) as [Hd Hv].
  assert (En : Z.of_N d * 10 ^ e10 = Z.of_N (d * 10 ^ Z.to_N e10)).
  { rewrite N2Z.inj_mul, N2Z.inj_pow, Z2N.id by lia. done. }
  assert (Hne : (d * 10 ^ Z.to_N e10 <> 0)%N).
  { intros H0. apply N.mul_eq_0 in H0 as [?|H0]; [done|]. apply N.pow_eq_0_iff in H0. lia. }
  split.
  - rewrite En, FormatInt_signed by done. unfold fmtF. rewrite (proj2 (Z.leb_le _ _)) by lia. done.
  - rewrite <- Hv. unfold float_of_Z, float_of_decimal. destruct d as [|p]; [done|].
    rewrite (proj2 (Z.leb_le _ _)) by lia. unfold binary_normalize.
    change (Z.of_N (N.pos p)) with (Z.pos p). destruct (cond_Zopp s (Z.pos p * 10 ^ e10)) eqn:Ez; [|reflexivity..].
    destruct s; cbn [cond_Zopp] in Ez; pose proof (Z.pow_pos_nonneg 10 e10); lia.
Qed.

Lemma FormatFloat_digits s m e d e10 : shortest s m e = Some (d, e10) -> uses_exponent d e10 = false -> e10 < 0 ->
  exists a b, FormatFloat (S754_finite s m e) = (if s then String "-" (a ++ String "." b) else a ++ String "." b)%string /\
    a <> EmptyString /\ all_chars isDigit a = true /\ all_chars isDigit b = true /\
    parse_digits 10 (a ++ b)%string 0 = Some d /\ - Z.of_nat (String.length b) = e10.
Proof.
  intros Es Hx He. cbn [FormatFloat]. rewrite Es, Hx. unfold fmtF. rewrite (proj2 (Z.leb_gt _ _)) by lia.
  pose proof (string_of_N_digits d) as Hdig. pose proof (parse_string_of_N d) as Hp.
  assert (Hl : zdigits d = Z.of_nat (String.length (string_of_N d))) by done.
  destruct (Z.ltb_spec 0 (zdigits d + e10)) as [Hdp|Hdp].
  - destruct (string_cut (Z.to_nat (zdigits d + e10)) (string_of_N d)) as [a b] eqn:Ec.
    pose proof (string_cut_app _ _ _ _ Ec) as Eab. destruct (string_cut_length _ _ _ _ Ec) as [La Lb]; [lia|].
    rewrite <- Eab in Hdig, Hp. rewrite all_chars_app in Hdig. apply andb_prop in Hdig as [Ha Hb].
    exists a, b. repeat split; [|done|done|exact Hp|lia]. intros ->. cbn in La. lia.
  - exists "0"%string, (zeros (Z.to_nat (- (zdigits d + e10))) ++ string_of_N d)%string.
    repeat split; [done| |rewrite <- Hp; apply (parse_digits_zeros (S (Z.to_nat (- (zdigits d + e10)))))|].
    + now rewrite all_chars_app, all_chars_zeros.
    + assert (Hz : forall k, String.length (zeros k) = k) by (induction k; cbn; congruence).
      assert (Ha : forall x y, String.length (x ++ y)%string = (String.length x + String.length y)%nat).
      { intros x y. induction x as [|c x IH]; [done|]. exact (f_equal S IH). }
      rewrite Ha, Hz. lia.
Qed.

(** A plain float with a fraction is written with a dot and parses back. *)
Lemma ParseFloat_format x : plain_float x = true -> integral x = None ->
  exists (neg : bool) a b, FormatFloat x = (if neg then String "-" (a ++ String "." b) else a ++ String "." b)%string /\
    a <> EmptyString /\ all_chars isDigit a = true /\ all_chars isDigit b = true /\ ParseFloat (FormatFloat x) = Ok x.
Proof.
  destruct x as [s|s| |s m e]; cbn [plain_float integral]; try discriminate.
  destruct (shortest s m e) as [[d e10]|] eqn:Es; [|discriminate].
  intros Hx%negb_true_iff. destruct (Z.leb_spec 0 e10) as [He|He]; [discriminate|]. intros _.
  destruct (FormatFloat_digits s m e d e10 Es Hx He) as (a & b & Ef & Hne & Ha & Hb & Hp & Hl).
  exists s, a, b. repeat split; try assumption.
  destruct (shortest_value _ _ _ _ _ Es) as [_ Hv]. rewrite Ef. unfold ParseFloat.
  assert (Hs : cut_sign (if s then String "-" (a ++ String "." b) else a ++ String "." b)%string
             = (s, a ++ String "." b)%string).
  { destruct s; [reflexivity|]. destruct a as [|c a]; [done|]. cbn in Ha. apply andb_prop in Ha as [Hc _].
    change (cut_sign (String c (a ++ String "." b)) = (false, String c (a ++ String "." b)))%string.
    destruct c as [[][][][][][][][]]; vm_compute in Hc; try discriminate; reflexivity. }
  rewrite Hs, cut_dot_digits by done. cbn [from_option id].
  destruct (a ++ b)%string as [|c r] eqn:Eab; [destruct a; [done|discriminate]|].
  now rewrite Hp, Hl, Hv.
Qed.

(** ** Parsed floats are finite *)

Lemma shr_1_nonneg r : 0 <= shr_m r -> 0 <= shr_m (shr_1 r).
Proof. destruct r as [[|[p|p|]|p] rr ss]; cbn; lia. Qed.

Lemma iter_shr_nonneg p : forall r, 0 <= shr_m r -> 0 <= shr_m (iter_pos shr_1 p r).
Proof. induction p as [p IH|p IH|]; intros r Hr; cbn; auto using shr_1_nonneg. Qed.

Lemma shr_fexp_nonneg m e l : 0 <= m -> 0 <= shr_m (shr_fexp 53 1024 m e l).1.
Proof.
  intros Hm. unfold shr_fexp, shr.
  assert (Hr : 0 <= shr_m (shr_record_of_loc m l)) by (destruct l as [|[]]; exact Hm).
  destruct (fexp 53 1024 (Zdigits2 m + e) - e); [exact Hr|now apply iter_shr_nonneg|exact Hr].
Qed.

Lemma round_aux_not_nan s m e l : 0 <= m -> binary_round_aux 53 1024 s m e l <> S754_nan.
Proof.
  intros Hm. unfold binary_round_aux. pose proof (shr_fexp_nonneg m e l Hm) as H1.
  destruct (shr_fexp 53 1024 m e l) as [r1 e1]. cbn [fst] in H1.
  assert (H2 : 0 <= round_nearest_even (shr_m r1) (loc_of_shr_record r1)).
  { unfold round_nearest_even. destruct (loc_of_shr_record r1) as [|[]]; [lia| |lia..].
    destruct (Z.even (shr_m r1)); lia. }
  pose proof (shr_fexp_nonneg _ e1 loc_Exact H2) as H3.
  destruct (shr_fexp 53 1024 _ e1 loc_Exact) as [r2 e2]. cbn [fst] in H3.
  destruct (shr_m r2); [done| |lia]. now destruct (e2 <=? _).
Qed.

Lemma binary_round_not_nan s p e : binary_round 53 1024 s p e <> S754_nan.
Proof. unfold binary_round. destruct (shl_align _ _ _). now apply round_aux_not_nan. Qed.

Lemma float_of_decimal_not_nan neg m e10 : float_of_decimal neg m e10 <> S754_nan.
Proof.
  unfold float_of_decimal. destruct m as [|p]; [done|]. destruct (Z.leb_spec 0 e10).
  - unfold binary_normalize. destruct (cond_Zopp _ _); [done|apply binary_round_not_nan..].
  - destruct (10 ^ (- e10)) as [|q|q] eqn:Eq; [pose proof (Z.pow_pos_nonneg 10 (- e10)); lia| |
      pose proof (Z.pow_pos_nonneg 10 (- e10)); lia].
    unfold SFdiv. destruct (SFdiv_core_binary 53 1024 (Zpos p) 0 (Zpos q) 0) as [[mz ez] lz] eqn:Ed.
    apply round_aux_not_nan. unfold SFdiv_core_binary in Ed. cbv zeta in Ed.
    set (m' := match _ with Zpos _ => _ | Z0 => _ | Zneg _ => _ end) in Ed.
    assert (Hm' : 0 <= m').
    { unfold m'. match goal with |- context [match ?s with Z0 => _ | Zpos _ => _ | Zneg _ => _ end] => destruct s end;
        [lia|now apply Z.shiftl_nonneg|lia]. }
    destruct (Z.div_eucl m' (Zpos q)) as [qq r] eqn:Ee. injection Ed as <- _ _.
    pose proof (Z.div_pos m' (Zpos q) Hm' ltac:(lia)) as Hq. unfold Z.div in Hq. now rewrite Ee in Hq.
Qed.

Lemma ParseFloat_finite s x : ParseFloat s = Ok x -> float_finite x = true.
Proof.
  unfold ParseFloat. destruct (cut_sign s) as [neg s']. destruct (cut_dot s') as [ip fp].
  destruct (ip ++ default EmptyString fp)%string; [done|]. destruct (parse_digits 10 _ 0) as [m|]; [|done].
  pose proof (float_of_decimal_not_nan neg m (- Z.of_nat (String.length (default EmptyString fp)))) as Hn.
  destruct (float_of_decimal neg m _); [|done..| |]; intros [= <-]; done.
Qed.

Lemma ParseInt_range s z : ParseInt s = Ok z -> - 2 ^ 63 <= z < 2 ^ 63.
Proof.
  unfold ParseInt. destruct (cut_sign s) as [neg d]. destruct d; [done|].
  destruct (parse_digits 10 _ 0); [|done]. cbv zeta.
  destruct (_ && _) eqn:E; [|done]. intros [= <-]. apply andb_prop in E as [E1%Z.leb_le E2%Z.ltb_lt]. lia.
Qed.

Lemma parse_digits_bound s : forall acc n, parse_digits 10 s acc = Some n ->
  (n < (acc + 1) * 10 ^ N.of_nat (String.length s))%N.
Proof.
  induction s as [|c s IH]; intros acc n; cbn [parse_digits String.length]; [intros [= <-]; cbn; lia|].
  destruct (digit_value c) as [d|]; [|done]. destruct (N.ltb_spec d 10); [|done]. intros Hn%IH.
  rewrite Nat2N.inj_succ, N.pow_succ_r'. nia.
Qed.

Lemma integral_range x z : plain_float x = true -> integral x = Some z -> - 10 ^ 6 < z < 10 ^ 6.
Proof.
  destruct x as [s|s| |s m e]; cbn [plain_float integral]; try discriminate; [intros _ [= <-]; lia|].
  destruct (shortest s m e) as [[d e10]|]; [|discriminate]. intros Hx%negb_true_iff.
  destruct (Z.leb_spec 0 e10) as [He|He]; [|discriminate]. intros [= <-].
  unfold uses_exponent in Hx. apply orb_false_iff in Hx as [_ Hx%Z.leb_gt].
  pose proof (parse_digits_bound _ _ _ (parse_string_of_N d)) as Hd. unfold zdigits in *.
  set (k := String.length (string_of_N d)) in *. apply N2Z.inj_lt in Hd.
  rewrite N2Z.inj_mul, N2Z.inj_pow, nat_N_Z in Hd. change (Z.of_N (0 + 1)) with 1 in Hd. change (Z.of_N 10) with 10 in Hd.
  assert (H6 : 10 ^ Z.of_nat k * 10 ^ e10 <= 10 ^ 6).
  { rewrite <- Z.pow_add_r by lia. apply Z.pow_le_mono_r; lia. }
  pose proof (Z.pow_pos_nonneg 10 e10 ltac:(lia) He). destruct s; cbn [cond_Zopp]; nia.
Qed.
