(* ===== verification/FilterLang.v ===== *)
(** The display-filter language: [filter/parse.go] and [filter/filter.go].

    A lexer over bytes, a recursive-descent parser over tokens, an evaluator over
    the header, the lookups and the decoded struct of a frame, and a printer.
    The grammar the parser implements is the inductive [G_or] and its companions.
    [scan] takes as fuel the length of its input and the parser a multiple of the
    number of tokens; [Compile_terminates] shows both to be enough. *)

From S2P Require Import Prelude GoNum.
From Stdlib Require Import SpecFloat Ascii.

(** * Syntax trees *)

(** [compOp]: the six operators. *)
Inductive compOp := opEq | opNe | opLt | opGt | opLe | opGe.

Definition compOp_String (o : compOp) : string :=
  match o with
  | opEq => "==" | opNe => "!=" | opLt => "<" | opGt => ">" | opLe => "<=" | opGe => ">="
  end.

Record fieldRef := mkFieldRef { fr_name : string; fr_subName : string }.

Record literal := mkLiteral {
  intVal : Z;
  floatVal : float64;
  strVal : string;
  isFloat : bool;
  isString : bool;
  isInt : bool
}.

Definition int_literal (z : Z) : literal := mkLiteral z (S754_zero false) "" false false true.
Definition float_literal (x : float64) : literal := mkLiteral 0 x "" true false false.
Definition string_literal (s : string) : literal := mkLiteral 0 (S754_zero false) s false true false.

Inductive node :=
| orNode (left right : node)
| andNode (left right : node)
| notNode (expr : node)
| compNode (field : fieldRef) (op : compOp) (value : literal).

(** * The lexer *)

Inductive tokenType :=
| tokEOF | tokIdent | tokInt | tokFloat | tokString | tokLParen | tokRParen | tokDot
| tokEq | tokNe | tokLt | tokGt | tokLe | tokGe | tokAnd | tokOr | tokNot.

#[global] Instance tokenType_eq_dec : EqDecision tokenType.
Proof. solve_decision. Defined.

Record token := mkToken { typ : tokenType; val : string; tpos : Z }.

(** The errors, with the position or text the message quotes. *)
Inductive filter_error :=
| UnexpectedChar (c : ascii) (pos : Z)
| Unterminated (pos : Z)
| UnexpectedToken (val : string) (pos : Z)
| ExpectedRParen (pos : Z)
| ExpectedField (pos : Z) (val : string)
| ExpectedSubField (pos : Z)
| ExpectedOp (pos : Z) (val : string)
| ExpectedValue (pos : Z) (val : string)
| InvalidInt (val : string)
| InvalidFloat (val : string)
| OutOfFuel.

Definition in_range (lo hi : Z) (c : ascii) : bool := let z := Z_of_ascii c in (lo <=? z) && (z <=? hi).

Definition isIdentStart (c : ascii) : bool :=
  in_range 97 122 c || in_range 65 90 c || (Z_of_ascii c =? 95).
Definition isIdentPart (c : ascii) : bool := isIdentStart c || isDigit c.

(** [unicode.IsSpace] of a byte read as a rune: Latin-1. *)
Definition IsSpace (c : ascii) : bool :=
  in_range 9 13 c || (Z_of_ascii c =? 32) || (Z_of_ascii c =? 133) || (Z_of_ascii c =? 160).

(** The longest prefix of bytes in [p], and the rest. *)
Fixpoint span (p : ascii -> bool) (s : string) : string * string :=
  match s with
  | String c s' => if p c then let '(a, b) := span p s' in (String c a, b) else (EmptyString, s)
  | EmptyString => (EmptyString, EmptyString)
  end.

Definition skipWhitespace (s : string) : string := (span IsSpace s).2.

(** [peek]: the byte after the current one, 0 at the end. *)
Definition peek (rest : string) : ascii :=
  match rest with String c _ => c | EmptyString => "000"%char end.

(** [scanString] after the opening quote: the contents and what follows the
    closing quote. *)
Fixpoint scanString (quote : ascii) (s : string) : option (string * string) :=
  match s with
  | EmptyString => None
  | String c s' =>
      if Ascii.eqb c "\" then
        match s' with
        | EmptyString => None
        | String d s'' => '(v, r) ← scanString quote s''; Some (String d v, r)
        end
      else if Ascii.eqb c quote then Some (EmptyString, s')
      else '(v, r) ← scanString quote s'; Some (String c v, r)
  end.

Definition is_dot (c : ascii) : bool := Ascii.eqb c ".".

(** [scanNumber]: type, text and rest. *)
Definition number_sign (s : string) : string * string :=
  match s with
  | String c s' => if Ascii.eqb c "-" then ("-"%string, s') else (EmptyString, s)
  | EmptyString => (EmptyString, s)
  end.

Definition scanNumber (s : string) : tokenType * string * string :=
  let '(sign, s) := number_sign s in
  let '(digits, rest) := span (fun c => isDigit c || is_dot c) s in
  ((if all_chars (fun c => negb (is_dot c)) digits then tokInt else tokFloat), (sign ++ digits)%string, rest).

Definition keyword (val : string) : tokenType :=
  if bool_decide (val = "and"%string) then tokAnd
  else if bool_decide (val = "or"%string) then tokOr
  else if bool_decide (val = "not"%string) then tokNot
  else tokIdent.

Definition scanIdent (s : string) : tokenType * string * string :=
  let '(val, rest) := span isIdentPart s in (keyword val, val, rest).

(** One turn of [scan]'s loop on the byte [c] followed by [r]: the token and the
    rest of the input. *)
Definition scan_token (c : ascii) (r : string) (pos : Z) : result filter_error (token * string) :=
  let emit1 t := Ok (mkToken t (String c "") pos, r) in
  let emit2 t := Ok (mkToken t (String c (String (peek r) "")) pos,
                     match r with String _ r' => r' | EmptyString => r end) in
  if Ascii.eqb c "(" then emit1 tokLParen
  else if Ascii.eqb c ")" then emit1 tokRParen
  else if Ascii.eqb c "." then emit1 tokDot
  else if Ascii.eqb c "!" && Ascii.eqb (peek r) "=" then emit2 tokNe
  else if Ascii.eqb c "!" then emit1 tokNot
  else if Ascii.eqb c "=" && Ascii.eqb (peek r) "=" then emit2 tokEq
  else if Ascii.eqb c "<" && Ascii.eqb (peek r) "=" then emit2 tokLe
  else if Ascii.eqb c "<" then emit1 tokLt
  else if Ascii.eqb c ">" && Ascii.eqb (peek r) "=" then emit2 tokGe
  else if Ascii.eqb c ">" then emit1 tokGt
  else if Ascii.eqb c "&" && Ascii.eqb (peek r) "&" then emit2 tokAnd
  else if Ascii.eqb c "|" && Ascii.eqb (peek r) "|" then emit2 tokOr
  else if Ascii.eqb c "034" || Ascii.eqb c "'" then
    match scanString c r with
    | Some (v, rest) => Ok (mkToken tokString v pos, rest)
    | None => Err (Unterminated pos)
    end
  else if Ascii.eqb c "-" || isDigit c then
    let '(t, v, rest) := scanNumber (String c r) in Ok (mkToken t v pos, rest)
  else if isIdentStart c then
    let '(t, v, rest) := scanIdent (String c r) in Ok (mkToken t v pos, rest)
  else Err (UnexpectedChar c pos).

(** [scan]; a position is the distance from the start of an input of [total]
    bytes. *)
Fixpoint scan (fuel : nat) (total : Z) (s : string) : result filter_error (list token) :=
  match fuel with
  | O => Err OutOfFuel
  | S fuel =>
      let s := skipWhitespace s in
      let pos := total - Z.of_nat (String.length s) in
      match s with
      | EmptyString => Ok [mkToken tokEOF "" pos]
      | String c r =>
          '(t, rest) ← scan_token c r pos;
          ts ← scan fuel total rest;
          Ok (t :: ts)
      end
  end.

Definition lex (input : string) : result filter_error (list token) :=
  scan (S (String.length input)) (Z.of_nat (String.length input)) input.

(** * The parser

    The tokens not yet consumed stand for the parser's position. *)

Definition current (ts : list token) : token := default (mkToken tokEOF "" (-1)) (head ts).
Definition advance (ts : list token) : list token := tail ts.
Definition at_tok (t : tokenType) (ts : list token) : bool := bool_decide (typ (current ts) = t).

Abbreviation parsed A := (result filter_error (A * list token)).

Definition parseCompOp (ts : list token) : parsed compOp :=
  match typ (current ts) with
  | tokEq => Ok (opEq, advance ts)
  | tokNe => Ok (opNe, advance ts)
  | tokLt => Ok (opLt, advance ts)
  | tokGt => Ok (opGt, advance ts)
  | tokLe => Ok (opLe, advance ts)
  | tokGe => Ok (opGe, advance ts)
  | _ => Err (ExpectedOp (tpos (current ts)) (val (current ts)))
  end.

Definition parseValue (ts : list token) : parsed literal :=
  let t := current ts in
  match typ t with
  | tokInt => match ParseInt (val t) with
              | Ok v => Ok (int_literal v, advance ts) | Err _ => Err (InvalidInt (val t)) end
  | tokFloat => match ParseFloat (val t) with
                | Ok v => Ok (float_literal v, advance ts) | Err _ => Err (InvalidFloat (val t)) end
  | tokString => Ok (string_literal (val t), advance ts)
  | _ => Err (ExpectedValue (tpos t) (val t))
  end.

Definition parseField (ts : list token) : parsed fieldRef :=
  if negb (at_tok tokIdent ts) then Err (ExpectedField (tpos (current ts)) (val (current ts)))
  else
    let name := val (current ts) in
    let ts := advance ts in
    if at_tok tokDot ts then
      let ts := advance ts in
      if negb (at_tok tokIdent ts) then Err (ExpectedSubField (tpos (current ts)))
      else Ok (mkFieldRef name (val (current ts)), advance ts)
    else Ok (mkFieldRef name "", ts).

Definition parseComparison (ts : list token) : parsed node :=
  '(field, ts) ← parseField ts;
  '(op, ts) ← parseCompOp ts;
  '(v, ts) ← parseValue ts;
  Ok (compNode field op v, ts).

(** [or_loop] and [and_loop] are the loops of [parseOr] and [parseAnd], from the
    left operand built so far. *)
Fixpoint parseOr (n : nat) (ts : list token) : parsed node :=
  match n with
  | O => Err OutOfFuel
  | S n => '(lhs, ts) ← parseAnd n ts; or_loop n lhs ts
  end
with or_loop (n : nat) (lhs : node) (ts : list token) : parsed node :=
  match n with
  | O => Err OutOfFuel
  | S n =>
      if at_tok tokOr ts
      then '(rhs, ts) ← parseAnd n (advance ts); or_loop n (orNode lhs rhs) ts
      else Ok (lhs, ts)
  end
with parseAnd (n : nat) (ts : list token) : parsed node :=
  match n with
  | O => Err OutOfFuel
  | S n => '(lhs, ts) ← parseUnary n ts; and_loop n lhs ts
  end
with and_loop (n : nat) (lhs : node) (ts : list token) : parsed node :=
  match n with
  | O => Err OutOfFuel
  | S n =>
      if at_tok tokAnd ts
      then '(rhs, ts) ← parseUnary n (advance ts); and_loop n (andNode lhs rhs) ts
      else Ok (lhs, ts)
  end
with parseUnary (n : nat) (ts : list token) : parsed node :=
  match n with
  | O => Err OutOfFuel
  | S n =>
      if at_tok tokNot ts
      then '(expr, ts) ← parseUnary n (advance ts); Ok (notNode expr, ts)
      else parsePrimary n ts
  end
with parsePrimary (n : nat) (ts : list token) : parsed node :=
  match n with
  | O => Err OutOfFuel
  | S n =>
      if at_tok tokLParen ts then
        '(expr, ts) ← parseOr n (advance ts);
        if at_tok tokRParen ts then Ok (expr, advance ts) else Err (ExpectedRParen (tpos (current ts)))
      else parseComparison ts
  end.

Definition parse (input : string) : result filter_error node :=
  ts ← lex input;
  '(n, ts) ← parseOr (5 * length ts + 5) ts;
  if at_tok tokEOF ts then Ok n else Err (UnexpectedToken (val (current ts)) (tpos (current ts))).

(** * Filters *)

Record Filter := mkFilter { root : node; needsDecode : bool }.

Definition headerFields (name : string) : bool :=
  bool_decide (name ∈ (["pgn"; "src"; "dst"; "prio"] : list string)%string).

Fixpoint checkNeedsDecode (n : node) : bool :=
  match n with
  | orNode l r | andNode l r => checkNeedsDecode l || checkNeedsDecode r
  | notNode e => checkNeedsDecode e
  | compNode f _ _ => negb (headerFields (fr_name f))
  end.

Definition Compile (expr : string) : result filter_error Filter :=
  root ← parse expr;
  Ok (mkFilter root (checkNeedsDecode root)).

Definition NeedsDecode (f : Filter) : bool := needsDecode f.

(** ** Printing *)

Definition formatLiteral (l : literal) : string :=
  if isString l then (String "034" (strVal l ++ String "034" ""))%string
  else if isFloat l then FormatFloat (floatVal l)
  else if isInt l then FormatInt (intVal l)
  else "?".

Definition formatField (f : fieldRef) : string :=
  (fr_name f ++ if bool_decide (fr_subName f = EmptyString) then EmptyString else String "." (fr_subName f))%string.

Fixpoint formatNode (n : node) : string :=
  match n with
  | orNode l r => "(" ++ formatNode l ++ " || " ++ formatNode r ++ ")"
  | andNode l r => "(" ++ formatNode l ++ " && " ++ formatNode r ++ ")"
  | notNode e => "!" ++ formatNode e
  | compNode f op v => formatField f ++ " " ++ compOp_String op ++ " " ++ formatLiteral v
  end%string.

Definition Filter_String (f : Filter) : string := formatNode (root f).

(** * Evaluation *)

(** A Go value as reflection sees it: numbers, strings, pointers (nil or not),
    structs with their fields' name, [json] tag and exportedness, other kinds. *)
Inductive go_value :=
| VFloat (x : float64)
| VInt (z : Z)
| VUint (z : Z)
| VString (s : string)
| VNil
| VPtr (v : go_value)
| VStruct (fields : list (string * string * bool * go_value))
| VOther.

Record EvalContext := mkEvalContext {
  ec_PGN : Z;
  ec_Src : Z;
  ec_Dst : Z;
  ec_Prio : Z;
  ec_Decoded : option go_value;
  ec_Lookups : option (gmap string string)
}.

(** The six comparisons of [float64]; every comparison with NaN but [!=] is
    false. *)
Definition compare_floats (x : float64) (op : compOp) (y : float64) : bool :=
  match op with
  | opEq => SFeqb x y
  | opNe => negb (SFeqb x y)
  | opLt => SFltb x y
  | opGt => SFltb y x
  | opLe => SFleb x y
  | opGe => SFleb y x
  end.

Definition compareNumeric (fieldVal : float64) (op : compOp) (lit : literal) : bool :=
  if isInt lit then compare_floats fieldVal op (float_of_Z (intVal lit))
  else if isFloat lit then compare_floats fieldVal op (floatVal lit)
  else if isString lit then false
  else compare_floats fieldVal op (S754_zero false).

Definition compareString (fieldVal : string) (op : compOp) (lit : literal) : bool :=
  let litVal := if isString lit then strVal lit
                else if isInt lit then FormatInt (intVal lit)
                else if isFloat lit then FormatFloat (floatVal lit)
                else EmptyString in
  match op with
  | opEq => String.eqb fieldVal litVal
  | opNe => negb (String.eqb fieldVal litVal)
  | opLt => String.ltb fieldVal litVal
  | opGt => String.ltb litVal fieldVal
  | opLe => String.leb fieldVal litVal
  | opGe => String.leb litVal fieldVal
  end.

(** [toFloat64]: one pointer is followed. *)
Definition toFloat64 (v : go_value) : option float64 :=
  let v := match v with VPtr v => v | v => v end in
  match v with
  | VFloat x => Some x
  | VInt z | VUint z => Some (float_of_Z z)
  | _ => None
  end.

Definition compareReflectValue (fv : go_value) (op : compOp) (lit : literal) : bool :=
  match toFloat64 fv with
  | Some x => compareNumeric x op lit
  | None => match fv with VString s => compareString s op lit | _ => false end
  end.

(** The name under which a field is found: its [json] tag without options, or
    its Go name. *)
Definition before_comma (s : string) : string := (span (fun c => negb (Ascii.eqb c ",")) s).1.
Definition field_key (name tag : string) : string :=
  before_comma (if bool_decide (tag = EmptyString) || bool_decide (tag = "-"%string) then name else tag).

(** [buildFieldIndex]: a later field of the same key replaces an earlier one. *)
Definition buildFieldIndex (fields : list (string * string * bool * go_value)) : gmap string nat :=
  foldl (fun m '(i, (name, tag, exported, _)) => if exported : bool then <[field_key name tag := i]> m else m) ∅
    (zip (seq 0 (length fields)) fields).

Definition evalDecodedField (f : fieldRef) (op : compOp) (value : literal) (decoded : go_value) : bool :=
  match (match decoded with VPtr v => v | v => v end) with
  | VStruct fields =>
      match buildFieldIndex fields !! fr_name f with
      | None => false
      | Some i => match fields !! i with
                  | Some (_, fv) => compareReflectValue fv op value
                  | None => false
                  end
      end
  | _ => false
  end.

Definition evalHeaderField (f : fieldRef) (op : compOp) (value : literal) (ctx : EvalContext) : bool :=
  let compare v := compareNumeric (float_of_Z v) op value in
  if bool_decide (fr_name f = "pgn"%string) then compare (ec_PGN ctx)
  else if bool_decide (fr_name f = "src"%string) then compare (ec_Src ctx)
  else if bool_decide (fr_name f = "dst"%string) then compare (ec_Dst ctx)
  else if bool_decide (fr_name f = "prio"%string) then compare (ec_Prio ctx)
  else false.

(** The key a sub-accessor is looked up under. *)
Definition lookup_key (f : fieldRef) : string :=
  if headerFields (fr_name f) then (fr_name f ++ "." ++ fr_subName f)%string else fr_name f.

Definition evalComp (f : fieldRef) (op : compOp) (value : literal) (ctx : EvalContext) : bool :=
  if bool_decide (fr_subName f = EmptyString) && headerFields (fr_name f) then evalHeaderField f op value ctx
  else if negb (bool_decide (fr_subName f = EmptyString)) then
    match ec_Lookups ctx with
    | None => false
    | Some m => match m !! lookup_key f with
                | None => false
                | Some resolved => compareString resolved op value
                end
    end
  else match ec_Decoded ctx with
       | None => false
       | Some d => evalDecodedField f op value d
       end.

Fixpoint eval (n : node) (ctx : EvalContext) : bool :=
  match n with
  | orNode l r => eval l ctx || eval r ctx
  | andNode l r => eval l ctx && eval r ctx
  | notNode e => negb (eval e ctx)
  | compNode f op v => evalComp f op v ctx
  end.

Definition Match (f : Filter) (ctx : EvalContext) : bool := eval (root f) ctx.

(** * Fuel *)

Lemma at_tok_cons t ts : t <> tokEOF -> at_tok t ts = true -> exists x rest, ts = x :: rest /\ typ x = t.
Proof.
  unfold at_tok. intros Ht H%bool_decide_eq_true. destruct ts as [|x rest]; [|eauto].
  cbn in H. congruence.
Qed.

(** A parser's result on [len] tokens: never out of fuel, and it leaves fewer
    than [len]. *)
Definition fine (len : nat) (r : parsed node) : Prop :=
  match r with
  | Ok (_, ts) => (length ts < len)%nat
  | Err OutOfFuel => False
  | Err _ => True
  end.

Lemma fine_bind len len' r (k : node * list token -> parsed node) :
  fine len r -> (forall n ts, (length ts < len)%nat -> fine len' (k (n, ts))) -> fine len' (r ≫= k).
Proof. destruct r as [[n ts]|e]; cbn; [auto|]. destruct e; cbn; auto. Qed.

Ltac case_tok := repeat match goal with
  | |- context [at_tok ?t ?ts] => let E := fresh "E" in destruct (at_tok t ts) eqn:E; cbn [negb]
  end.

Ltac open_toks := repeat match goal with
  | H : at_tok _ ?ts = true |- _ =>
      apply at_tok_cons in H as (? & ? & -> & ?); [|discriminate]; cbn [advance tail length] in *
  end.

Lemma parseComparison_fine ts : fine (length ts) (parseComparison ts).
Proof.
  unfold parseComparison, parseField.
  destruct (at_tok tokIdent ts) eqn:E1; [|exact I]. apply at_tok_cons in E1 as (x & r & -> & _); [|done].
  cbn [negb advance tail current head default val]. cbv zeta.
  assert (Hrest : forall f l, (length l <= length r)%nat ->
    fine (length (x :: r)) ('(op, ts) ← parseCompOp l; '(v, ts) ← parseValue ts; Ok (compNode f op v, ts))).
  { intros f l Hl.
    destruct (parseCompOp l) as [[op l1]|e] eqn:Eo.
    - assert (length l1 <= length l)%nat as Hl1.
      { unfold parseCompOp in Eo. destruct (typ (current l)); inversion Eo; destruct l; cbn; lia. }
      cbn. destruct (parseValue l1) as [[v l2]|e] eqn:Ev.
      + assert (length l2 <= length l1)%nat as Hl2.
        { unfold parseValue in Ev. destruct (typ (current l1)); try destruct (ParseInt _);
            try destruct (ParseFloat _); inversion Ev; destruct l1; cbn; lia. }
        cbn. lia.
      + unfold parseValue in Ev. destruct (typ (current l1)); try destruct (ParseInt _);
          try destruct (ParseFloat _); inversion Ev; exact I.
    - unfold parseCompOp in Eo. destruct (typ (current l)); inversion Eo; exact I. }
  destruct (at_tok tokDot r) eqn:E2.
  - apply at_tok_cons in E2 as (y & r' & -> & _); [|done]. change (advance (y :: r')) with r'.
    destruct (at_tok tokIdent r') eqn:E3; [|exact I]. apply Hrest.
    apply at_tok_cons in E3 as (z & r'' & -> & _); [|done]. cbn. lia.
  - now apply Hrest.
Qed.

Lemma parse_fine n : forall ts,
  ((5 * length ts + 5 <= n)%nat -> fine (length ts) (parseOr n ts)) /\
  (forall l, (5 * length ts + 4 <= n)%nat -> fine (S (length ts)) (or_loop n l ts)) /\
  ((5 * length ts + 4 <= n)%nat -> fine (length ts) (parseAnd n ts)) /\
  (forall l, (5 * length ts + 3 <= n)%nat -> fine (S (length ts)) (and_loop n l ts)) /\
  ((5 * length ts + 3 <= n)%nat -> fine (length ts) (parseUnary n ts)) /\
  ((5 * length ts + 2 <= n)%nat -> fine (length ts) (parsePrimary n ts)).
Proof.
  assert (weaken : forall a b r, fine a r -> (a <= b)%nat -> fine b r).
  { intros a b [[? ?]|[]]; cbn; auto; lia. }
  induction n as [|n IH]; intros ts; [repeat split; intros; lia|].
  repeat split; cbn [parseOr or_loop parseAnd and_loop parseUnary parsePrimary].
  - intros Hn. eapply fine_bind; [apply IH; lia|]. intros l r Hr. eapply weaken; [apply IH; lia|lia].
  - intros l Hn. case_tok; [|cbn; lia]. open_toks. eapply fine_bind; [apply IH; lia|].
    intros rr r Hr. eapply weaken; [apply IH; lia|lia].
  - intros Hn. eapply fine_bind; [apply IH; lia|]. intros l r Hr. eapply weaken; [apply IH; lia|lia].
  - intros l Hn. case_tok; [|cbn; lia]. open_toks. eapply fine_bind; [apply IH; lia|].
    intros rr r Hr. eapply weaken; [apply IH; lia|lia].
  - intros Hn. case_tok; [|apply IH; lia]. open_toks. eapply fine_bind; [apply IH; lia|].
    intros e r Hr. cbn. lia.
  - intros Hn. case_tok; [|apply parseComparison_fine]. open_toks. eapply fine_bind; [apply IH; lia|].
    intros e r Hr. case_tok; [|exact I]. open_toks. cbn in *. lia.
Qed.

(** ** The lexer *)

Lemma span_app p : forall s a b, span p s = (a, b) -> s = (a ++ b)%string.
Proof.
  induction s as [|c s IH]; intros a b; cbn; [intros [= <- <-]; done|].
  destruct (p c); [|intros [= <- <-]; done]. destruct (span p s) as [x y] eqn:E. intros [= <- <-].
  change (String c s = String c (x ++ y))%string. f_equal. now apply IH.
Qed.

Lemma span_length p s a b : span p s = (a, b) -> (String.length s = String.length a + String.length b)%nat.
Proof. intros H%span_app. now rewrite H, string_length_app. Qed.

Lemma skipWhitespace_length s : (String.length (skipWhitespace s) <= String.length s)%nat.
Proof. unfold skipWhitespace. destruct (span IsSpace s) as [a b] eqn:E. apply span_length in E. cbn. lia. Qed.

Lemma scanString_length q : forall n s v r, (String.length s <= n)%nat -> scanString q s = Some (v, r) ->
  (String.length r < String.length s)%nat.
Proof.
  induction n as [|n IH]; intros [|c s] v r Hn; cbn in *; try lia; try done.
  destruct (Ascii.eqb c "\").
  - destruct s as [|d s]; [done|]. destruct (scanString q s) as [[v' r']|] eqn:E; [|done].
    intros [= _ <-]. cbn in *. specialize (IH s v' r' ltac:(lia) E). lia.
  - destruct (Ascii.eqb c q); [intros [= _ <-]; lia|]. destruct (scanString q s) as [[v' r']|] eqn:E; [|done].
    intros [= _ <-]. specialize (IH s v' r' ltac:(lia) E). lia.
Qed.

Lemma scanNumber_length s t v r : scanNumber s = (t, v, r) ->
  (exists c s', s = String c s' /\ (isDigit c || Ascii.eqb c "-") = true) -> (String.length r < String.length s)%nat.
Proof.
  intros H (c & s' & -> & Hc). unfold scanNumber, number_sign in H. destruct (Ascii.eqb c "-").
  - destruct (span _ s') as [a b] eqn:E. apply span_length in E. injection H as _ _ <-. cbn. lia.
  - rewrite orb_false_r in Hc. cbn [span] in H. rewrite Hc in H. cbn [orb] in H.
    destruct (span _ s') as [a b] eqn:E. apply span_length in E. injection H as _ _ <-. cbn. lia.
Qed.

Lemma scanIdent_length c s t v r : isIdentStart c = true -> scanIdent (String c s) = (t, v, r) ->
  (String.length r < String.length (String c s))%nat.
Proof.
  intros Hc. unfold scanIdent, isIdentPart. cbn [span]. rewrite Hc. cbn [orb].
  destruct (span _ s) as [a b] eqn:E. apply span_length in E. intros [= _ _ <-]. cbn. lia.
Qed.

Lemma scan_token_length c r pos : match scan_token c r pos with
  | Ok (_, rest) => (String.length rest < String.length (String c r))%nat
  | Err e => e <> OutOfFuel end.
Proof.
  unfold scan_token. cbv zeta.
  repeat match goal with
  | |- context [if ?b then _ else _] => lazymatch b with
      | context [scanString] => fail | _ => let E := fresh "E" in destruct b eqn:E end
  end; try done; try (cbn; lia); try (destruct r; cbn; lia).
  - destruct (scanString c r) as [[v rest]|] eqn:Es; [|done]. apply (scanString_length _ _ _ _ _ (le_n _)) in Es.
    cbn. lia.
  - destruct (scanNumber (String c r)) as [[t v] rest] eqn:En. eapply scanNumber_length; [exact En|].
    exists c, r. split; [done|]. now rewrite orb_comm.
  - destruct (scanIdent (String c r)) as [[t v] rest] eqn:Ei. eapply scanIdent_length; eassumption.
Qed.

Lemma scan_fuel n : forall total s, (String.length s < n)%nat -> scan n total s <> Err OutOfFuel.
Proof.
  induction n as [|n IH]; intros total s Hn; [lia|]. cbn [scan]. cbv zeta.
  pose proof (skipWhitespace_length s) as Hw. destruct (skipWhitespace s) as [|c r]; [done|].
  pose proof (scan_token_length c r (total - Z.of_nat (String.length (String c r)))) as Ht.
  destruct (scan_token c r _) as [[t rest]|e]; cbn; [|congruence].
  cbn in *. specialize (IH total rest ltac:(lia)). destruct (scan n total rest) as [ts|e]; cbn; congruence.
Qed.

(** * The grammar

    [expr = and { "||" and }], [and = unary { "&&" unary }],
    [unary = "!" unary | primary], [primary = "(" expr ")" | comparison]; the two
    binary operators associate to the left. *)

Definition token_op (t : token) : option compOp :=
  match parseCompOp [t] with Ok (op, _) => Some op | Err _ => None end.
Definition token_literal (t : token) : option literal :=
  match parseValue [t] with Ok (l, _) => Some l | Err _ => None end.

Inductive level := LOr | LAnd | LUnary | LPrimary.

Inductive derives : level -> list token -> node -> Prop :=
| g_or ts n : derives LAnd ts n -> derives LOr ts n
| g_or_step ts1 t ts2 l r : derives LOr ts1 l -> typ t = tokOr -> derives LAnd ts2 r ->
    derives LOr (ts1 ++ t :: ts2) (orNode l r)
| g_and ts n : derives LUnary ts n -> derives LAnd ts n
| g_and_step ts1 t ts2 l r : derives LAnd ts1 l -> typ t = tokAnd -> derives LUnary ts2 r ->
    derives LAnd (ts1 ++ t :: ts2) (andNode l r)
| g_unary ts n : derives LPrimary ts n -> derives LUnary ts n
| g_not t ts n : typ t = tokNot -> derives LUnary ts n -> derives LUnary (t :: ts) (notNode n)
| g_paren a ts b n : typ a = tokLParen -> derives LOr ts n -> typ b = tokRParen ->
    derives LPrimary (a :: ts ++ [b]) n
| g_comparison f o v op l : typ f = tokIdent -> token_op o = Some op -> token_literal v = Some l ->
    derives LPrimary [f; o; v] (compNode (mkFieldRef (val f) "") op l)
| g_sub_comparison f d g o v op l : typ f = tokIdent -> typ d = tokDot -> typ g = tokIdent ->
    token_op o = Some op -> token_literal v = Some l ->
    derives LPrimary [f; d; g; o; v] (compNode (mkFieldRef (val f) (val g)) op l).

(** ** The parser is sound *)

Lemma parseCompOp_cons ts op r : parseCompOp ts = Ok (op, r) -> exists o, ts = o :: r /\ token_op o = Some op.
Proof.
  destruct ts as [|o r']; [done|]. unfold token_op, parseCompOp. change (current (o :: r')) with o.
  intros H. exists o. change (current [o]) with o. destruct (typ o); try done; injection H as <- <-; done.
Qed.

Lemma parseValue_cons ts l r : parseValue ts = Ok (l, r) -> exists v, ts = v :: r /\ token_literal v = Some l.
Proof.
  destruct ts as [|v r']; [done|]. unfold token_literal, parseValue. change (current (v :: r')) with v.
  intros H. exists v. change (current [v]) with v.
  destruct (typ v); try done; [destruct (ParseInt (val v)); [|done]|destruct (ParseFloat (val v)); [|done]|];
    injection H as <- <-; done.
Qed.

Lemma parseComparison_sound ts n r : parseComparison ts = Ok (n, r) ->
  exists pre, ts = pre ++ r /\ derives LPrimary pre n.
Proof.
  unfold parseComparison, parseField. destruct (at_tok tokIdent ts) eqn:E1; [|done].
  apply at_tok_cons in E1 as (f & r1 & -> & Hf); [|done].
  change (advance (f :: r1)) with r1. change (current (f :: r1)) with f. cbn [negb]. cbv zeta.
  destruct (at_tok tokDot r1) eqn:E2.
  - apply at_tok_cons in E2 as (d & r2 & -> & Hd); [|done]. change (advance (d :: r2)) with r2.
    destruct (at_tok tokIdent r2) eqn:E3; [|done]. apply at_tok_cons in E3 as (g & r3 & -> & Hg); [|done].
    change (advance (g :: r3)) with r3. change (current (g :: r3)) with g. cbn [negb mbind result_bind].
    destruct (parseCompOp r3) as [[op r4]|] eqn:Eo; [|done]. cbn [mbind result_bind].
    destruct (parseValue r4) as [[v r5]|] eqn:Ev; [|done]. cbn [mbind result_bind]. intros [= <- <-].
    apply parseCompOp_cons in Eo as (o & -> & Ho). apply parseValue_cons in Ev as (w & -> & Hw).
    exists [f; d; g; o; w]. split; [done|]. now constructor.
  - cbn [mbind result_bind].
    destruct (parseCompOp r1) as [[op r4]|] eqn:Eo; [|done]. cbn [mbind result_bind].
    destruct (parseValue r4) as [[v r5]|] eqn:Ev; [|done]. cbn [mbind result_bind]. intros [= <- <-].
    apply parseCompOp_cons in Eo as (o & -> & Ho). apply parseValue_cons in Ev as (w & -> & Hw).
    exists [f; o; w]. split; [done|]. now constructor.
Qed.

Definition sound_at (lv : level) (r : parsed node) (ts : list token) : Prop :=
  forall n rest, r = Ok (n, rest) -> exists pre, ts = pre ++ rest /\ derives lv pre n.

Definition loop_sound_at (lv : level) (loop : node -> list token -> parsed node) : Prop :=
  forall l ts pre0 n rest, derives lv pre0 l -> loop l ts = Ok (n, rest) ->
    exists pre, ts = pre ++ rest /\ derives lv (pre0 ++ pre) n.

Lemma bind_Ok {A} (r : parsed node) (k : node * list token -> result filter_error A) x :
  r ≫= k = Ok x -> exists n ts, r = Ok (n, ts) /\ k (n, ts) = Ok x.
Proof. destruct r as [[n ts]|]; cbn; [eauto|done]. Qed.

Lemma parse_sound n :
  (forall ts, sound_at LOr (parseOr n ts) ts) /\ loop_sound_at LOr (or_loop n) /\
  (forall ts, sound_at LAnd (parseAnd n ts) ts) /\ loop_sound_at LAnd (and_loop n) /\
  (forall ts, sound_at LUnary (parseUnary n ts) ts) /\ (forall ts, sound_at LPrimary (parsePrimary n ts) ts).
Proof.
  induction n as [|n (IHo & IHol & IHa & IHal & IHu & IHp)]; [repeat split; repeat intro; discriminate|].
  repeat split; repeat intro; cbn [parseOr or_loop parseAnd and_loop parseUnary parsePrimary] in *.
  - apply bind_Ok in H as (l & r & E & H). apply IHa in E as (p & -> & Hd).
    apply (IHol _ _ p) in H as (p' & -> & Hd'); [|now apply g_or]. exists (p ++ p'). now rewrite <- app_assoc.
  - destruct (at_tok tokOr ts) eqn:E; [|injection H0 as <- <-; exists []; now rewrite app_nil_r].
    apply at_tok_cons in E as (t & r & -> & Ht); [|done]. change (advance (t :: r)) with r in H0.
    apply bind_Ok in H0 as (x & r' & E & H0). apply IHa in E as (p & -> & Hd).
    apply (IHol _ _ (pre0 ++ t :: p)) in H0 as (p' & -> & Hd'); [|now apply g_or_step].
    exists (t :: p ++ p'). cbn. rewrite <- !app_assoc in *. now cbn in *; rewrite <- ?app_assoc in *.
  - apply bind_Ok in H as (l & r & E & H). apply IHu in E as (p & -> & Hd).
    apply (IHal _ _ p) in H as (p' & -> & Hd'); [|now apply g_and]. exists (p ++ p'). now rewrite <- app_assoc.
  - destruct (at_tok tokAnd ts) eqn:E; [|injection H0 as <- <-; exists []; now rewrite app_nil_r].
    apply at_tok_cons in E as (t & r & -> & Ht); [|done]. change (advance (t :: r)) with r in H0.
    apply bind_Ok in H0 as (x & r' & E & H0). apply IHu in E as (p & -> & Hd).
    apply (IHal _ _ (pre0 ++ t :: p)) in H0 as (p' & -> & Hd'); [|now apply g_and_step].
    exists (t :: p ++ p'). cbn. rewrite <- !app_assoc in *. now cbn in *; rewrite <- ?app_assoc in *.
  - destruct (at_tok tokNot ts) eqn:E; [|apply IHp in H as (p & -> & Hd); exists p; split; [done|now apply g_unary]].
    apply at_tok_cons in E as (t & r & -> & Ht); [|done]. change (advance (t :: r)) with r in H.
    apply bind_Ok in H as (x & r' & E & H). injection H as <- <-. apply IHu in E as (p & -> & Hd).
    exists (t :: p). split; [done|now apply g_not].
  - destruct (at_tok tokLParen ts) eqn:E; [|now apply parseComparison_sound].
    apply at_tok_cons in E as (t & r & -> & Ht); [|done]. change (advance (t :: r)) with r in H.
    apply bind_Ok in H as (x & r' & E & H). apply IHo in E as (p & -> & Hd).
    destruct (at_tok tokRParen r') eqn:E; [|done]. apply at_tok_cons in E as (b & r & -> & Hb); [|done].
    injection H as <- <-. exists (t :: p ++ [b]). split; [cbn; now rewrite <- app_assoc|now apply g_paren].
Qed.

(** ** More fuel changes nothing *)

Definition settled (r r' : parsed node) : Prop := r <> Err OutOfFuel -> r' = r.

Lemma settled_bind r r' k k' :
  settled r r' -> (forall n ts, settled (k (n, ts)) (k' (n, ts))) -> settled (r ≫= k) (r' ≫= k').
Proof.
  intros Hr Hk Hne. destruct r as [[n ts]|e].
  - assert (r' = Ok (n, ts)) as -> by now apply Hr. now apply Hk.
  - assert (r' = Err e) as -> by (apply Hr; exact Hne). done.
Qed.

(** The equations of the parser at positive fuel. *)
Definition or_S n ts : parseOr (S n) ts = '(l, ts) ← parseAnd n ts; or_loop n l ts := eq_refl.
Definition or_loop_S n l ts : or_loop (S n) l ts =
  if at_tok tokOr ts then '(r, ts) ← parseAnd n (advance ts); or_loop n (orNode l r) ts else Ok (l, ts) := eq_refl.
Definition and_S n ts : parseAnd (S n) ts = '(l, ts) ← parseUnary n ts; and_loop n l ts := eq_refl.
Definition and_loop_S n l ts : and_loop (S n) l ts =
  if at_tok tokAnd ts then '(r, ts) ← parseUnary n (advance ts); and_loop n (andNode l r) ts else Ok (l, ts)
  := eq_refl.
Definition unary_S n ts : parseUnary (S n) ts =
  if at_tok tokNot ts then '(e, ts) ← parseUnary n (advance ts); Ok (notNode e, ts) else parsePrimary n ts := eq_refl.
Definition primary_S n ts : parsePrimary (S n) ts =
  if at_tok tokLParen ts then
    '(e, ts) ← parseOr n (advance ts);
    if at_tok tokRParen ts then Ok (e, advance ts) else Err (ExpectedRParen (tpos (current ts)))
  else parseComparison ts := eq_refl.

Lemma settled_refl r : settled r r.
Proof. now intros _. Qed.

Lemma more_fuel n :
  (forall ts, settled (parseOr n ts) (parseOr (S n) ts)) /\
  (forall l ts, settled (or_loop n l ts) (or_loop (S n) l ts)) /\
  (forall ts, settled (parseAnd n ts) (parseAnd (S n) ts)) /\
  (forall l ts, settled (and_loop n l ts) (and_loop (S n) l ts)) /\
  (forall ts, settled (parseUnary n ts) (parseUnary (S n) ts)) /\
  (forall ts, settled (parsePrimary n ts) (parsePrimary (S n) ts)).
Proof.
  induction n as [|n (IHo & IHol & IHa & IHal & IHu & IHp)]; [repeat split; intros; now intros []|].
  split; [|split; [|split; [|split; [|split]]]]; intros.
  - rewrite (or_S n), (or_S (S n)). apply settled_bind; auto.
  - rewrite (or_loop_S n), (or_loop_S (S n)). destruct (at_tok _ _); [apply settled_bind; auto|apply settled_refl].
  - rewrite (and_S n), (and_S (S n)). apply settled_bind; auto.
  - rewrite (and_loop_S n), (and_loop_S (S n)). destruct (at_tok _ _); [apply settled_bind; auto|apply settled_refl].
  - rewrite (unary_S n), (unary_S (S n)).
    destruct (at_tok _ _); [apply settled_bind; auto using settled_refl|auto].
  - rewrite (primary_S n), (primary_S (S n)).
    destruct (at_tok _ _); [apply settled_bind; auto using settled_refl|apply settled_refl].
Qed.

Lemma fuel_le {A} (f : nat -> A -> parsed node) (a : A) :
  (forall n, settled (f n a) (f (S n) a)) -> forall n m, (n <= m)%nat -> settled (f n a) (f m a).
Proof.
  intros Hs n m Hnm. induction Hnm as [|m _ IH]; [apply settled_refl|]. intros Hne.
  specialize (IH Hne). rewrite <- IH in Hne. rewrite (Hs m Hne). exact IH.
Qed.

Lemma parseOr_le n m ts x : (n <= m)%nat -> parseOr n ts = Ok x -> parseOr m ts = Ok x.
Proof. intros Hnm E. rewrite <- E. apply (fuel_le parseOr); [intros; apply more_fuel|done|congruence]. Qed.
Lemma parseAnd_le n m ts x : (n <= m)%nat -> parseAnd n ts = Ok x -> parseAnd m ts = Ok x.
Proof. intros Hnm E. rewrite <- E. apply (fuel_le parseAnd); [intros; apply more_fuel|done|congruence]. Qed.
Lemma parseUnary_le n m ts x : (n <= m)%nat -> parseUnary n ts = Ok x -> parseUnary m ts = Ok x.
Proof. intros Hnm E. rewrite <- E. apply (fuel_le parseUnary); [intros; apply more_fuel|done|congruence]. Qed.
Lemma or_loop_le n m l ts x : (n <= m)%nat -> or_loop n l ts = Ok x -> or_loop m l ts = Ok x.
Proof.
  intros Hnm E. rewrite <- E.
  apply (fuel_le (fun n => or_loop n l)); [intros; apply more_fuel|done|congruence].
Qed.
Lemma and_loop_le n m l ts x : (n <= m)%nat -> and_loop n l ts = Ok x -> and_loop m l ts = Ok x.
Proof.
  intros Hnm E. rewrite <- E.
  apply (fuel_le (fun n => and_loop n l)); [intros; apply more_fuel|done|congruence].
Qed.

(** ** The parser is complete *)

Lemma parseComparison_complete f o v op l rest : typ f = tokIdent -> token_op o = Some op ->
  token_literal v = Some l ->
  parseComparison (f :: o :: v :: rest) = Ok (compNode (mkFieldRef (val f) "") op l, rest).
Proof.
  intros Hf Ho Hv. unfold parseComparison, parseField, at_tok. change (current (f :: o :: v :: rest)) with f.
  rewrite Hf. change (advance (f :: o :: v :: rest)) with (o :: v :: rest).
  change (current (o :: v :: rest)) with o.
  assert (Hnd : typ o <> tokDot) by (intros E; unfold token_op, parseCompOp in Ho; change (current [o]) with o in Ho;
    now rewrite E in Ho).
  rewrite bool_decide_eq_true_2 by done. cbn [negb]. cbv zeta. rewrite bool_decide_eq_false_2 by done.
  cbn [mbind result_bind].
  unfold token_op, parseCompOp in *. change (current [o]) with o in Ho. change (current (o :: v :: rest)) with o.
  unfold token_literal, parseValue in *. change (current [v]) with v in Hv.
  destruct (typ o); try done; injection Ho as <-; cbn [mbind result_bind];
    change (advance (o :: v :: rest)) with (v :: rest); change (current (v :: rest)) with v;
    destruct (typ v); try done; try destruct (ParseInt (val v)); try destruct (ParseFloat (val v)); try done;
    now injection Hv as <-.
Qed.

Lemma parseComparison_sub f d g ts : typ f = tokIdent -> typ d = tokDot -> typ g = tokIdent ->
  parseComparison (f :: d :: g :: ts) =
  '(op, ts) ← parseCompOp ts; '(v, ts) ← parseValue ts; Ok (compNode (mkFieldRef (val f) (val g)) op v, ts).
Proof.
  intros Hf Hd Hg. unfold parseComparison, parseField, at_tok. change (current (f :: d :: g :: ts)) with f.
  rewrite Hf. change (advance (f :: d :: g :: ts)) with (d :: g :: ts). change (current (d :: g :: ts)) with d.
  rewrite Hd. change (advance (d :: g :: ts)) with (g :: ts). change (current (g :: ts)) with g. now rewrite Hg.
Qed.

Definition complete_at (lv : level) (ts : list token) (r : node) : Prop :=
  match lv with
  | LPrimary => forall rest, exists n, parsePrimary n (ts ++ rest) = Ok (r, rest)
  | LUnary => forall rest, exists n, parseUnary n (ts ++ rest) = Ok (r, rest)
  | LAnd => forall rest out n, and_loop n r rest = Ok out -> exists n, parseAnd n (ts ++ rest) = Ok out
  | LOr => forall rest out n, at_tok tokAnd rest = false -> or_loop n r rest = Ok out ->
             exists n, parseOr n (ts ++ rest) = Ok out
  end.

Lemma at_tok_typ t x rest : typ x = t -> at_tok t (x :: rest) = true.
Proof. intros H. now apply bool_decide_eq_true. Qed.

Lemma at_tok_other t t' x rest : typ x = t' -> t' <> t -> at_tok t (x :: rest) = false.
Proof. intros <- H. now apply bool_decide_eq_false. Qed.

Lemma or_stop l rest : at_tok tokOr rest = false -> or_loop 1 l rest = Ok (l, rest).
Proof. intros H. rewrite or_loop_S. now rewrite H. Qed.

Lemma and_stop l rest : at_tok tokAnd rest = false -> and_loop 1 l rest = Ok (l, rest).
Proof. intros H. rewrite and_loop_S. now rewrite H. Qed.

Lemma derives_first lv ts n : derives lv ts n -> exists t r, ts = t :: r /\
  (typ t = tokIdent \/ typ t = tokLParen \/ (typ t = tokNot /\ lv <> LPrimary)).
Proof.
  induction 1 as [ts n _ (t & r & -> & H)|ts1 t ts2 l r _ (t' & r' & -> & H) _ _ _|ts n _ (t & r & -> & H)
    |ts1 t ts2 l r _ (t' & r' & -> & H) _ _ _|ts n _ (t & r & -> & H)| | | |]; eexists _, _; (split; [reflexivity|]);
    intuition congruence.
Qed.

Lemma derives_complete lv ts r : derives lv ts r -> complete_at lv ts r.
Proof.
  induction 1 as [ts n Hd IH|ts1 t ts2 l r Hl IHl Ht Hr IHr|ts n Hd IH|ts1 t ts2 l r Hl IHl Ht Hr IHr|ts n Hd IH
    |t ts n Ht Hd IH|a ts b n Ha Hd IH Hb|f o v op l Hf Ho Hv|f d g o v op l Hf Hdot Hg Ho Hv]; cbn [complete_at] in *.
  - intros rest out k Hna Hk. destruct (IH rest (n, rest) 1%nat) as [j Hj]; [now apply and_stop|].
    exists (S (max j k)). rewrite or_S, (parseAnd_le j _ _ (n, rest)) by (lia || exact Hj).
    apply (or_loop_le k); [lia|exact Hk].
  - intros rest out k Hna Hk. destruct (IHr rest (r, rest) 1%nat) as [j Hj]; [now apply and_stop|].
    destruct (IHl (t :: ts2 ++ rest) out (S (max j k))) as [i Hi].
    + now apply (at_tok_other _ tokOr).
    + rewrite or_loop_S, (at_tok_typ tokOr) by done. change (advance (t :: ts2 ++ rest)) with (ts2 ++ rest).
      rewrite (parseAnd_le j _ _ (r, rest)) by (lia || exact Hj). apply (or_loop_le k); [lia|exact Hk].
    + exists i. now rewrite <- app_assoc.
  - intros rest out k Hk. destruct (IH rest) as [j Hj]. exists (S (max j k)).
    rewrite and_S, (parseUnary_le j _ _ (n, rest)) by (lia || exact Hj). apply (and_loop_le k); [lia|exact Hk].
  - intros rest out k Hk. destruct (IHr rest) as [j Hj].
    destruct (IHl (t :: ts2 ++ rest) out (S (max j k))) as [i Hi].
    + rewrite and_loop_S, (at_tok_typ tokAnd) by done. change (advance (t :: ts2 ++ rest)) with (ts2 ++ rest).
      rewrite (parseUnary_le j _ _ (r, rest)) by (lia || exact Hj). apply (and_loop_le k); [lia|exact Hk].
    + exists i. now rewrite <- app_assoc.
  - intros rest. destruct (IH rest) as [j Hj]. exists (S j). rewrite unary_S.
    destruct (derives_first _ _ _ Hd) as (t & r & -> & Ht). cbn [app] in *.
    replace (at_tok tokNot (t :: r ++ rest)) with false; [exact Hj|].
    symmetry. apply bool_decide_eq_false. cbn. intuition congruence.
  - intros rest. destruct (IH rest) as [j Hj]. exists (S j). cbn [app]. rewrite unary_S, (at_tok_typ tokNot) by done.
    change (advance (t :: ts ++ rest)) with (ts ++ rest). now rewrite Hj.
  - intros rest. destruct (IH (b :: rest) (n, b :: rest) 1%nat) as [j Hj].
    + now apply (at_tok_other _ tokRParen).
    + apply or_stop. now apply (at_tok_other _ tokRParen).
    + exists (S j). cbn [app]. rewrite primary_S, (at_tok_typ tokLParen), <- app_assoc by done.
      change (advance (a :: ts ++ [b] ++ rest)) with (ts ++ b :: rest). rewrite Hj. cbn [mbind result_bind].
      now rewrite (at_tok_typ tokRParen).
  - intros rest. exists 1%nat. cbn [app]. rewrite primary_S, (at_tok_other tokLParen tokIdent) by done.
    now apply parseComparison_complete.
  - intros rest. exists 1%nat. cbn [app]. rewrite primary_S, (at_tok_other tokLParen tokIdent) by done.
    rewrite parseComparison_sub by done.
    pose proof (parseComparison_complete f o v op l rest Hf Ho Hv) as H.
    unfold parseComparison, parseField, at_tok in H. change (current (f :: o :: v :: rest)) with f in H.
    rewrite Hf in H. change (advance (f :: o :: v :: rest)) with (o :: v :: rest) in H.
    change (current (o :: v :: rest)) with o in H. rewrite bool_decide_eq_true_2 in H by done. cbn [negb] in H.
    cbv zeta in H. destruct (bool_decide_reflect (typ o = tokDot)) as [Ed|_] in H.
    { unfold token_op, parseCompOp in Ho. change (current [o]) with o in Ho. now rewrite Ed in Ho. }
    cbn [mbind result_bind] in H. destruct (parseCompOp (o :: v :: rest)) as [[op' r1]|]; [|done].
    cbn [mbind result_bind] in *. destruct (parseValue r1) as [[w r2]|]; [|done]. cbn [mbind result_bind] in *.
    now injection H as -> -> ->.
Qed.

(** ** The tokens of a text *)

Lemma scan_token_not_EOF c r pos t rest : scan_token c r pos = Ok (t, rest) -> typ t <> tokEOF.
Proof.
  unfold scan_token. cbv zeta.
  repeat match goal with
  | |- (if ?b then _ else _) = _ -> _ => destruct b
  end; try done; try (intros [= <- _]; done).
  - destruct (scanString c r) as [[v rest']|]; [|done]. intros [= <- _]. done.
  - unfold scanNumber. destruct (number_sign _) as [sign s'].
    destruct (span _ s') as [ds rest']. intros [= <- _]. cbn. now destruct (all_chars _ ds).
  - unfold scanIdent, keyword. destruct (span _ _) as [v rest']. intros [= <- _]. cbn.
    repeat case_bool_decide; done.
Qed.

Lemma scan_shape n : forall total s ts, scan n total s = Ok ts ->
  exists ts0 e, ts = ts0 ++ [e] /\ typ e = tokEOF /\ Forall (fun t => typ t <> tokEOF) ts0.
Proof.
  induction n as [|n IH]; [done|]. intros total s ts. cbn [scan]. cbv zeta.
  destruct (skipWhitespace s) as [|c r]; [intros [= <-]; exists [], (mkToken tokEOF "" (total - 0)); repeat split; constructor|].
  destruct (scan_token c r _) as [[t rest]|e] eqn:Et; [|done]. cbn [mbind result_bind].
  destruct (scan n total rest) as [ts'|] eqn:Es; [|done]. intros [= <-].
  destruct (IH _ _ _ Es) as (ts0 & e & -> & He & Hf). exists (t :: ts0), e. repeat split; [done|].
  constructor; [now apply scan_token_not_EOF in Et|done].
Qed.

Lemma token_op_not_EOF o op : token_op o = Some op -> typ o <> tokEOF.
Proof. unfold token_op, parseCompOp. change (current [o]) with o. intros H E. now rewrite E in H. Qed.
Lemma token_literal_not_EOF v l : token_literal v = Some l -> typ v <> tokEOF.
Proof. unfold token_literal, parseValue. change (current [v]) with v. intros H E. now rewrite E in H. Qed.

Lemma derives_not_EOF lv ts n : derives lv ts n -> Forall (fun t => typ t <> tokEOF) ts.
Proof.
  induction 1; repeat first [assumption | apply Forall_app; split | constructor];
    try congruence; eauto using token_op_not_EOF, token_literal_not_EOF.
Qed.

Lemma parse_derives input n :
  parse input = Ok n <-> exists ts e, lex input = Ok (ts ++ [e]) /\ typ e = tokEOF /\ derives LOr ts n.
Proof.
  unfold parse. destruct (lex input) as [toks|er] eqn:El.
  2:{ split; [done|]. intros (ts & e & H & _). done. }
  destruct (scan_shape _ _ _ _ El) as (ts0 & e & -> & He & Hne). cbn [mbind result_bind]. split.
  - destruct (parseOr _ (ts0 ++ [e])) as [[m rest]|] eqn:Ep; [|done]. cbn [mbind result_bind].
    destruct (at_tok tokEOF rest) eqn:Ea; [|done]. intros [= ->].
    apply parse_sound in Ep as (pre & E & Hd). pose proof (derives_not_EOF _ _ _ Hd) as Hp.
    destruct rest as [|x rest] using rev_ind.
    + rewrite app_nil_r in E. subst pre. apply Forall_app in Hp as [_ Hp]. inversion Hp. done.
    + clear IHrest. rewrite app_assoc in E. apply app_inj_tail in E as [-> ->]. exists (pre ++ rest), x.
      split; [done|]. split; [done|]. destruct rest as [|y rest]; [now rewrite app_nil_r|].
      apply Forall_app in Hne as [_ Hne]. inversion Hne as [|? ? Hy]. now apply bool_decide_eq_true in Ea.
  - intros (ts & e' & E & He' & Hd). injection E as E. apply app_inj_tail in E as [-> ->].
    destruct (derives_complete _ _ _ Hd [e'] (n, [e']) 1%nat) as [k Hk].
    + now apply (at_tok_other _ tokEOF).
    + apply or_stop. now apply (at_tok_other _ tokEOF).
    + destruct (parse_fine (5 * length (ts ++ [e']) + 5) (ts ++ [e'])) as [Hf _]. specialize (Hf ltac:(lia)).
      set (m := (5 * length (ts ++ [e']) + 5)%nat) in *.
      assert (Hset : settled (parseOr m (ts ++ [e'])) (parseOr (max m k) (ts ++ [e']))).
      { apply (fuel_le parseOr); [intros; apply more_fuel|lia]. }
      apply (parseOr_le _ (max m k)) in Hk; [|lia]. unfold settled in Hset. rewrite Hk in Hset.
      rewrite <- Hset; [cbn [mbind result_bind]; now rewrite (at_tok_typ tokEOF)|].
      intros E. now rewrite E in Hf.
Qed.

(** C26: the recursive-descent parser implements the grammar.  A text compiles to
    a tree exactly when its tokens derive that tree in the grammar, where [!]
    binds tighter than [&&], and [&&] tighter than [||], both to the left. *)
Theorem parse_grammar input n :
  parse input = Ok n <-> exists ts e, lex input = Ok (ts ++ [e]) /\ typ e = tokEOF /\ derives LOr ts n.
Proof. apply parse_derives. Qed.

(** Compiling ends.  The fuel of the lexer and of the parser is never used
    up: on every text [Compile] gives a filter or one of the code's errors. *)
Theorem Compile_terminates input : Compile input <> Err OutOfFuel.
Proof.
  unfold Compile, parse, lex. pose proof (scan_fuel (S (String.length input)) (Z.of_nat (String.length input)) input
    (Nat.lt_succ_diag_r _)) as Hs.
  destruct (scan _ _ input) as [ts|e]; cbn [mbind result_bind]; [|congruence].
  pose proof (proj1 (parse_fine (5 * length ts + 5) ts) (le_n _)) as Hf.
  destruct (parseOr _ ts) as [[n rest]|e]; cbn [mbind result_bind fine] in *.
  - now destruct (at_tok tokEOF rest).
  - destruct e; done.
Qed.

(** * Well-typed trees *)

Definition valid_ident (s : string) : bool :=
  match s with
  | String c r => isIdentStart c && all_chars isIdentPart r && bool_decide (keyword s = tokIdent)
  | EmptyString => false
  end.

(** A literal carries exactly one kind of value: an [int64], a finite float or a
    string. *)
Definition wf_literal (l : literal) : Prop :=
  (exists z, l = int_literal z /\ - 2 ^ 63 <= z < 2 ^ 63) \/
  (exists x, l = float_literal x /\ float_finite x = true) \/
  exists s, l = string_literal s.

Fixpoint wf_node (n : node) : Prop :=
  match n with
  | orNode l r | andNode l r => wf_node l /\ wf_node r
  | notNode e => wf_node e
  | compNode f _ v =>
      valid_ident (fr_name f) = true /\ (fr_subName f = EmptyString \/ valid_ident (fr_subName f) = true) /\
      wf_literal v
  end.

Definition ident_ok (t : token) : Prop := typ t = tokIdent -> valid_ident (val t) = true.

Lemma span_all p s : forall a b, span p s = (a, b) -> all_chars p a = true.
Proof.
  induction s as [|c s IH]; intros a b; cbn; [intros [= <- _]; done|].
  destruct (p c) eqn:E; [|intros [= <- _]; done]. destruct (span p s) as [x y] eqn:Es. intros [= <- _].
  cbn. now rewrite E, (IH x y).
Qed.

Lemma scanIdent_ident c r t v rest : isIdentStart c = true -> scanIdent (String c r) = (t, v, rest) ->
  t = tokIdent -> valid_ident v = true.
Proof.
  intros Hc. unfold scanIdent, isIdentPart. cbn [span]. rewrite Hc. cbn [orb].
  destruct (span _ r) as [a b] eqn:Es. apply span_all in Es. intros [= <- <- _] Ht. cbn [valid_ident].
  rewrite Hc. cbn [andb]. unfold isIdentPart. rewrite Es. now apply bool_decide_eq_true.
Qed.

Lemma scan_token_ident_ok c r pos t rest : scan_token c r pos = Ok (t, rest) -> ident_ok t.
Proof.
  unfold scan_token, ident_ok. cbv zeta.
  repeat match goal with
  | |- (if ?b then _ else _) = _ -> _ => let E := fresh "E" in destruct b eqn:E
  end; try done; try (intros [= <- _]; done).
  - destruct (scanString c r) as [[v rest']|]; [|done]. intros [= <- _]. done.
  - unfold scanNumber. destruct (number_sign _) as [sign s']. destruct (span _ s') as [ds rest'].
    intros [= <- _]. cbn. now destruct (all_chars _ ds).
  - destruct (scanIdent (String c r)) as [[ty v] rest'] eqn:Ei. intros [= <- _] Ht. cbn in *.
    eapply scanIdent_ident; eassumption.
Qed.

Lemma scan_ident_ok n : forall total s ts, scan n total s = Ok ts -> Forall ident_ok ts.
Proof.
  induction n as [|n IH]; [done|]. intros total s ts. cbn [scan]. cbv zeta.
  destruct (skipWhitespace s) as [|c r]; [intros [= <-]; repeat constructor; done|].
  destruct (scan_token c r _) as [[t rest]|e] eqn:Et; [|done]. cbn [mbind result_bind].
  destruct (scan n total rest) as [ts'|] eqn:Es; [|done]. intros [= <-].
  constructor; [now apply scan_token_ident_ok in Et|now apply (IH total rest)].
Qed.

Lemma token_literal_wf v l : token_literal v = Some l -> wf_literal l.
Proof.
  unfold token_literal, parseValue. change (current [v]) with v. destruct (typ v); try done.
  - destruct (ParseInt (val v)) eqn:E; [|done]. intros [= <-]. left. eauto using ParseInt_range.
  - destruct (ParseFloat (val v)) eqn:E; [|done]. intros [= <-]. right. left. eauto using ParseFloat_finite.
  - intros [= <-]. right. right. eauto.
Qed.

Lemma derives_wf lv ts n : derives lv ts n -> Forall ident_ok ts -> wf_node n.
Proof.
  induction 1; cbn [wf_node fr_name fr_subName]; rewrite ?Forall_app, ?Forall_cons, ?Forall_app; intros Hf;
    unfold ident_ok in *; intuition eauto using token_literal_wf.
Qed.

Lemma Compile_wf input f : Compile input = Ok f -> wf_node (root f) /\ needsDecode f = checkNeedsDecode (root f).
Proof.
  unfold Compile. destruct (parse input) as [n|] eqn:E; [|done]. cbn. intros [= <-]. split; [|done].
  apply parse_derives in E as (ts & e & El & _ & Hd). apply scan_ident_ok in El.
  apply Forall_app in El as [El _]. eapply derives_wf; eassumption.
Qed.

(** C33: Compiled filters are well typed.  Field names are identifiers and no
    keywords, and every literal is one [int64], one finite float or one string, so
    the evaluator's untyped cases cannot arise; the decode flag is that of the tree. *)
Theorem Compile_type input f : Compile input = Ok f ->
  wf_node (root f) /\ NeedsDecode f = checkNeedsDecode (root f).
Proof. apply Compile_wf. Qed.

(** ** Decoding on demand *)

Definition with_decoded (ctx : EvalContext) (d : option go_value) : EvalContext :=
  mkEvalContext (ec_PGN ctx) (ec_Src ctx) (ec_Dst ctx) (ec_Prio ctx) d (ec_Lookups ctx).

Lemma eval_ignores_decoded n ctx d : checkNeedsDecode n = false -> eval n (with_decoded ctx d) = eval n ctx.
Proof.
  induction n as [l IHl r IHr|l IHl r IHr|e IH|f op v]; cbn [checkNeedsDecode eval].
  1, 2: intros [Hl Hr]%orb_false_iff; now rewrite IHl, IHr.
  - intros H. now rewrite IH.
  - intros H%negb_false_iff. unfold evalComp. rewrite H. now destruct (bool_decide (fr_subName f = EmptyString)).
Qed.

(** A filter that says it needs no decoding does not look at the decoded
    frame: matching it against any decoded value, or none, gives the same answer. *)
Theorem NeedsDecode_sound input f ctx d : Compile input = Ok f -> NeedsDecode f = false ->
  Match f (with_decoded ctx d) = Match f ctx.
Proof.
  unfold Compile. destruct (parse input) as [n|]; [|done]. cbn. intros [= <-] H. now apply eval_ignores_decoded.
Qed.

(** * Printing and parsing *)

Definition kv (t : token) : tokenType * string := (typ t, val t).

(** A text lexes to these tokens, whatever the offset and the fuel. *)
Definition lexes (s : string) (kvs : list (tokenType * string)) : Prop :=
  forall total fuel, (String.length s < fuel)%nat -> exists ts, scan fuel total s = Ok ts /\ map kv ts = kvs.

Lemma lexes_nil : lexes "" [(tokEOF, ""%string)].
Proof. intros total [|fuel] Hf; [cbn in Hf; lia|]. eexists. split; reflexivity. Qed.

Lemma lexes_space s kvs : lexes s kvs -> lexes (String " " s) kvs.
Proof.
  intros H total [|fuel] Hf; [lia|]. cbn in Hf. specialize (H total (S fuel) ltac:(lia)).
  assert (E : skipWhitespace (String " " s) = skipWhitespace s).
  { unfold skipWhitespace. cbn [span]. change (IsSpace " ") with true. cbv iota. now destruct (span IsSpace s). }
  cbn [scan] in *. cbv zeta in *. now rewrite E.
Qed.

Lemma lexes_token c r k rest kvs : IsSpace c = false ->
  (forall pos, exists t, scan_token c r pos = Ok (t, rest) /\ kv t = k) ->
  lexes rest kvs -> lexes (String c r) (k :: kvs).
Proof.
  intros Hc Ht H total [|fuel] Hf; [lia|]. cbn [scan]. cbv zeta.
  assert (E : skipWhitespace (String c r) = String c r) by (unfold skipWhitespace; cbn [span]; now rewrite Hc).
  rewrite E. destruct (Ht (total - Z.of_nat (String.length (String c r)))) as (t & Et & Ek).
  pose proof (scan_token_length c r (total - Z.of_nat (String.length (String c r)))) as Hl. rewrite Et in *.
  destruct (H total fuel) as (ts & Es & Em); [cbn in *; lia|]. cbn [mbind result_bind]. rewrite Es.
  eexists. split; [reflexivity|]. cbn. now rewrite Ek, Em.
Qed.

Definition starts_not (p : ascii -> bool) (s : string) : bool :=
  match s with EmptyString => true | String c _ => negb (p c) end.

Lemma span_exact p a rest : all_chars p a = true -> starts_not p rest = true -> span p (a ++ rest)%string = (a, rest).
Proof.
  intros Ha Hr. induction a as [|c a IH].
  - destruct rest as [|c rest]; [done|]. apply negb_true_iff in Hr.
    change ((if p c then let '(x, y) := span p rest in (String c x, y) else (EmptyString, String c rest))
      = (EmptyString, String c rest)). now rewrite Hr.
  - cbn in Ha. apply andb_prop in Ha as [Hc Ha].
    change (span p (String c a ++ rest)%string)
      with (if p c then let '(x, y) := span p (a ++ rest)%string in (String c x, y)
            else (EmptyString, String c (a ++ rest)%string)).
    now rewrite Hc, (IH Ha).
Qed.

(** The branches of [scan_token], by cases on the byte. *)
Lemma scan_token_ident c r pos : isIdentStart c = true -> IsSpace c = false /\
  scan_token c r pos = let '(t, v, rest) := scanIdent (String c r) in Ok (mkToken t v pos, rest).
Proof. destruct c as [[][][][][][][][]]; intros H; vm_compute in H; try discriminate; split; reflexivity. Qed.

Lemma scan_token_number c r pos : Ascii.eqb c "-" || isDigit c = true -> IsSpace c = false /\
  scan_token c r pos = let '(t, v, rest) := scanNumber (String c r) in Ok (mkToken t v pos, rest).
Proof. destruct c as [[][][][][][][][]]; intros H; vm_compute in H; try discriminate; split; reflexivity. Qed.

Lemma lexes_ident a rest kvs : valid_ident a = true -> starts_not isIdentPart rest = true ->
  lexes rest kvs -> lexes (a ++ rest) ((tokIdent, a) :: kvs).
Proof.
  intros Ha Hr H. destruct a as [|c a]; [done|]. cbn [valid_ident] in Ha.
  apply andb_prop in Ha as [[Hc Ha]%andb_prop Hk%bool_decide_eq_true].
  change (String c a ++ rest)%string with (String c (a ++ rest)). apply (lexes_token _ _ _ rest); [|intros pos|exact H].
  { now apply (scan_token_ident c EmptyString 0). }
  rewrite (proj2 (scan_token_ident c _ pos Hc)). unfold scanIdent. cbn [span]. unfold isIdentPart at 1.
  rewrite Hc. cbn [orb]. rewrite span_exact by done. eexists. split; [reflexivity|]. cbn. now rewrite Hk.
Qed.

Definition number_char (c : ascii) : bool := isDigit c || is_dot c.

Lemma lexes_number (neg : bool) c d rest kvs : isDigit c = true -> all_chars number_char d = true ->
  starts_not number_char rest = true -> lexes rest kvs ->
  let s := if neg then String "-" (String c d) else String c d in
  lexes (s ++ rest) ((if all_chars (fun c => negb (is_dot c)) (String c d) then tokInt else tokFloat, s) :: kvs).
Proof.
  intros Hc Hd Hr H. cbv zeta.
  assert (Hs : span (fun c => isDigit c || is_dot c) (String c (d ++ rest)) = (String c d, rest)).
  { apply (span_exact number_char (String c d) rest); [|exact Hr]. cbn. unfold number_char at 1. now rewrite Hc. }
  destruct neg.
  - change (String "-" (String c d) ++ rest)%string with (String "-" (String c (d ++ rest))).
    apply (lexes_token _ _ _ rest); [reflexivity|intros pos|exact H].
    rewrite (proj2 (scan_token_number "-" _ pos eq_refl)). unfold scanNumber.
    change (number_sign (String "-" (String c (d ++ rest)))) with ("-"%string, String c (d ++ rest)).
    cbv iota beta. rewrite Hs. eexists. split; reflexivity.
  - change (String c d ++ rest)%string with (String c (d ++ rest)).
    assert (Hn : Ascii.eqb c "-" || isDigit c = true) by (rewrite Hc; apply orb_true_r).
    apply (lexes_token _ _ _ rest); [now apply (scan_token_number c EmptyString 0)|intros pos|exact H].
    rewrite (proj2 (scan_token_number c _ pos Hn)). unfold scanNumber, number_sign.
    destruct (Ascii.eqb_spec c "-") as [->|_]; [discriminate|]. rewrite Hs. eexists. split; reflexivity.
Qed.

(** A string without quotes and backslashes. *)
Definition plain_char (c : ascii) : bool := negb (Ascii.eqb c "\") && negb (Ascii.eqb c "034").

Lemma scanString_plain s rest : all_chars plain_char s = true ->
  scanString "034" (s ++ String "034" rest)%string = Some (s, rest).
Proof.
  induction s as [|c s IH]; [reflexivity|]. intros [[H1%negb_true_iff H2%negb_true_iff]%andb_prop Hs]%andb_prop.
  change (String c s ++ String "034" rest)%string with (String c (s ++ String "034" rest)).
  cbn [scanString]. rewrite H1, H2, (IH Hs). reflexivity.
Qed.

Lemma lexes_string s rest kvs : all_chars plain_char s = true -> lexes rest kvs ->
  lexes (String "034" (s ++ String "034" rest)) ((tokString, s) :: kvs).
Proof.
  intros Hs H. apply (lexes_token _ _ _ rest); [reflexivity|intros pos|exact H].
  change (scan_token "034" (s ++ String "034" rest) pos) with
    (match scanString "034" (s ++ String "034" rest) with
     | Some (v, rest) => Ok (mkToken tokString v pos, rest) | None => Err (Unterminated pos) end).
  rewrite scanString_plain by done. eexists. split; reflexivity.
Qed.

Definition op_token (op : compOp) : tokenType :=
  match op with opEq => tokEq | opNe => tokNe | opLt => tokLt | opGt => tokGt | opLe => tokLe | opGe => tokGe end.

Lemma lexes_op op rest kvs : lexes rest kvs ->
  lexes (compOp_String op ++ String " " rest) ((op_token op, compOp_String op) :: kvs).
Proof.
  intros H%lexes_space. destruct op; (eapply lexes_token; [reflexivity| |exact H]); intros pos; eexists; split; reflexivity.
Qed.

(** ** Literals *)

(** What survives printing: strings without quotes and backslashes, floats
    written without an exponent. *)
Definition printable_literal (l : literal) : bool :=
  if isString l then all_chars plain_char (strVal l) else if isFloat l then plain_float (floatVal l) else true.

Fixpoint printable (n : node) : bool :=
  match n with
  | orNode l r | andNode l r => printable l && printable r
  | notNode e => printable e
  | compNode _ _ v => printable_literal v
  end.

(** The literal read back: a float without a fraction becomes an integer. *)
Definition norm_literal (l : literal) : literal :=
  if isFloat l then match integral (floatVal l) with Some z => int_literal z | None => l end else l.

Fixpoint norm (n : node) : node :=
  match n with
  | orNode l r => orNode (norm l) (norm r)
  | andNode l r => andNode (norm l) (norm r)
  | notNode e => notNode (norm e)
  | compNode f op v => compNode f op (norm_literal v)
  end.

Definition literal_kv (l : literal) : tokenType * string :=
  if isString l then (tokString, strVal l)
  else if isFloat l then
    (match integral (floatVal l) with Some _ => tokInt | None => tokFloat end, FormatFloat (floatVal l))
  else (tokInt, FormatInt (intVal l)).

Definition delim (s : string) : bool :=
  match s with EmptyString => true | String c _ => Ascii.eqb c " " || Ascii.eqb c ")" end.

Lemma delim_not_number s : delim s = true -> starts_not number_char s = true.
Proof.
  destruct s as [|c s]; [done|]. cbn. destruct (Ascii.eqb_spec c " ") as [->|_]; [done|].
  destruct (Ascii.eqb_spec c ")") as [->|_]; done.
Qed.

Lemma digit_not_dot c : isDigit c = true -> negb (is_dot c) = true.
Proof. intros H. unfold is_dot. destruct (Ascii.eqb_spec c "."); [now subst|done]. Qed.

Lemma lexes_FormatInt z rest kvs : delim rest = true -> lexes rest kvs ->
  lexes (FormatInt z ++ rest) ((tokInt, FormatInt z) :: kvs).
Proof.
  intros Hr%delim_not_number H.
  assert (Hn : forall neg n, let s := if neg : bool then String "-" (string_of_N n) else string_of_N n in
    lexes (s ++ rest) ((tokInt, s) :: kvs)).
  { intros neg n. cbv zeta. destruct (string_of_N_cons n) as (c & d & E). pose proof (string_of_N_digits n) as Hd.
    rewrite E in *. apply andb_prop in Hd as [Hc Hd].
    assert (Hdots : all_chars (fun c => negb (is_dot c)) (String c d) = true).
    { apply (all_chars_weaken isDigit); [exact digit_not_dot|]. cbn. rewrite Hc. exact Hd. }
    pose proof (lexes_number neg c d rest kvs Hc) as L. cbv zeta in L. rewrite Hdots in L.
    apply L; [|exact Hr|exact H]. apply (all_chars_weaken isDigit); [|exact Hd]. unfold number_char.
    intros x ->. done. }
  unfold FormatInt. destruct (z <? 0); [apply (Hn true)|apply (Hn false)].
Qed.

Lemma lexes_fraction (neg : bool) a b rest kvs : a <> EmptyString -> all_chars isDigit a = true ->
  all_chars isDigit b = true -> delim rest = true -> lexes rest kvs ->
  let s := (if neg then String "-" (a ++ String "." b) else a ++ String "." b)%string in
  lexes (s ++ rest) ((tokFloat, s) :: kvs).
Proof.
  intros Hne Ha Hb Hr%delim_not_number H. cbv zeta. destruct a as [|c a]; [done|]. cbn in Ha.
  apply andb_prop in Ha as [Hc Ha]. change (String c a ++ String "." b)%string with (String c (a ++ String "." b)).
  assert (Hdots : all_chars (fun c => negb (is_dot c)) (String c (a ++ String "." b)) = false).
  { change (negb (is_dot c) && all_chars (fun c => negb (is_dot c)) (a ++ String "." b)%string = false).
    rewrite all_chars_app. apply andb_false_iff. right. apply andb_false_r. }
  pose proof (lexes_number neg c (a ++ String "." b) rest kvs Hc) as L. cbv zeta in L. rewrite Hdots in L.
  assert (Hw : forall s, all_chars isDigit s = true -> all_chars number_char s = true).
  { intros s. apply all_chars_weaken. unfold number_char. now intros x ->. }
  apply L; [|exact Hr|exact H]. rewrite all_chars_app, (Hw a Ha). exact (Hw b Hb).
Qed.

Lemma lexes_literal l rest kvs : wf_literal l -> printable_literal l = true -> delim rest = true -> lexes rest kvs ->
  lexes (formatLiteral l ++ rest) (literal_kv l :: kvs).
Proof.
  intros [(z & -> & Hz)|[(x & -> & Hx)|(s & ->)]] Hp Hr H; unfold formatLiteral, literal_kv; cbn in *.
  - now apply lexes_FormatInt.
  - destruct (integral x) as [z|] eqn:Ei.
    + destruct (format_integral x z Hp Ei) as [-> _]. now apply lexes_FormatInt.
    + destruct (ParseFloat_format x Hp Ei) as (neg & a & b & -> & Hne & Ha & Hb & _). now apply lexes_fraction.
  - assert (E : (String "034" (s ++ String "034" EmptyString) ++ rest)%string = String "034" (s ++ String "034" rest)).
    { apply (f_equal (String "034")). exact (string_app_assoc s (String "034" EmptyString) rest). }
    rewrite E. now apply lexes_string.
Qed.

Lemma literal_reads l t : wf_literal l -> printable_literal l = true -> kv t = literal_kv l ->
  token_literal t = Some (norm_literal l).
Proof.
  unfold token_literal, parseValue. change (current [t]) with t. destruct t as [ty v p]. unfold kv. cbn [typ val].
  intros [(z & -> & Hz)|[(x & -> & Hx)|(s & ->)]] Hp; unfold literal_kv, norm_literal; cbn in *.
  - intros [= -> ->]. now rewrite ParseInt_FormatInt.
  - destruct (integral x) as [z|] eqn:Ei; intros [= -> ->].
    + destruct (format_integral x z Hp Ei) as [-> _]. pose proof (integral_range x z Hp Ei).
      now rewrite ParseInt_FormatInt by lia.
    + destruct (ParseFloat_format x Hp Ei) as (neg & a & b & _ & _ & _ & _ & ->). done.
  - now intros [= -> ->].
Qed.

(** ** Trees *)

Definition field_kvs (f : fieldRef) : list (tokenType * string) :=
  (tokIdent, fr_name f) ::
  if bool_decide (fr_subName f = EmptyString) then [] else [(tokDot, "."%string); (tokIdent, fr_subName f)].

Fixpoint node_kvs (n : node) : list (tokenType * string) :=
  match n with
  | orNode l r => (tokLParen, "("%string) :: node_kvs l ++ (tokOr, "||"%string) :: node_kvs r ++ [(tokRParen, ")"%string)]
  | andNode l r => (tokLParen, "("%string) :: node_kvs l ++ (tokAnd, "&&"%string) :: node_kvs r ++ [(tokRParen, ")"%string)]
  | notNode e => (tokNot, "!"%string) :: node_kvs e
  | compNode f op v => field_kvs f ++ [(op_token op, compOp_String op); literal_kv v]
  end.

Lemma lexes_field f rest kvs : valid_ident (fr_name f) = true ->
  (fr_subName f = EmptyString \/ valid_ident (fr_subName f) = true) -> lexes rest kvs ->
  lexes (formatField f ++ String " " rest) (field_kvs f ++ kvs).
Proof.
  intros Hn Hs H%lexes_space. unfold formatField, field_kvs.
  destruct (bool_decide_reflect (fr_subName f = EmptyString)) as [Hsub|Hne].
  - rewrite string_app_assoc. now apply lexes_ident.
  - destruct Hs as [|Hs]; [done|]. rewrite string_app_assoc. apply lexes_ident; [done|done|].
    change (String "." (fr_subName f) ++ String " " rest)%string with (String "." (fr_subName f ++ String " " rest)).
    apply (lexes_token _ _ _ (fr_subName f ++ String " " rest)%string); [reflexivity| |now apply lexes_ident].
    intros pos. eexists. split; reflexivity.
Qed.

Lemma not_first f rest : valid_ident (fr_name f) = true -> peek (formatField f ++ rest) <> "="%char.
Proof.
  unfold formatField. destruct (fr_name f) as [|c s]; [done|]. cbn [valid_ident].
  intros [[Hc _]%andb_prop _]%andb_prop E. change (c = "="%char) in E. subst c. discriminate.
Qed.

Lemma format_first n rest : wf_node n -> peek (formatNode n ++ rest) <> "="%char.
Proof.
  destruct n as [l r|l r|e|f op v]; cbn [formatNode wf_node]; [done..|]. intros (Hn & _).
  rewrite string_app_assoc. now apply not_first.
Qed.

Lemma lexes_node n : forall rest kvs, wf_node n -> printable n = true -> delim rest = true -> lexes rest kvs ->
  lexes (formatNode n ++ rest) (node_kvs n ++ kvs).
Proof.
  assert (Hbin : forall a b x y op ty rest kvs, op = "|"%char /\ ty = tokOr \/ op = "&"%char /\ ty = tokAnd ->
    (forall rest kvs, delim rest = true -> lexes rest kvs -> lexes (a ++ rest) (x ++ kvs)) ->
    (forall rest kvs, delim rest = true -> lexes rest kvs -> lexes (b ++ rest) (y ++ kvs)) -> lexes rest kvs ->
    lexes (("(" ++ a ++ (String " " (String op (String op " "))) ++ b ++ ")") ++ rest)
      (((tokLParen, "("%string) :: x ++ (ty, String op (String op "")) :: y ++ [(tokRParen, ")"%string)]) ++ kvs)).
  { intros a b x y op ty rest kvs Hop Ha Hb H.
    assert (H1 : lexes (String ")" rest) ((tokRParen, ")"%string) :: kvs)).
    { eapply lexes_token; [reflexivity| |exact H]. intros pos. eexists. split; reflexivity. }
    apply Hb in H1; [|reflexivity]. apply lexes_space in H1.
    assert (H2 : lexes (String op (String op (String " " (b ++ String ")" rest))))
                   ((ty, String op (String op "")) :: y ++ (tokRParen, ")"%string) :: kvs)).
    { destruct Hop as [[-> ->]|[-> ->]]; (eapply lexes_token; [reflexivity| |exact H1]); intros pos;
        eexists; split; reflexivity. }
    apply lexes_space, Ha in H2; [|reflexivity].
    cbn [app]. rewrite <- app_assoc. cbn [app]. rewrite <- app_assoc. cbn [app].
    eapply lexes_token; [reflexivity| |exact H2]. intros pos.
    exists (mkToken tokLParen "(" pos). split; [|reflexivity]. rewrite !string_app_assoc. reflexivity. }
  induction n as [l IHl r IHr|l IHl r IHr|e IH|f op v]; intros rest kvs; cbn [wf_node printable formatNode node_kvs].
  - intros [Hl Hr] [Pl Pr]%andb_prop Hd H. apply (Hbin _ _ _ _ "|"%char); auto.
  - intros [Hl Hr] [Pl Pr]%andb_prop Hd H. apply (Hbin _ _ _ _ "&"%char); auto.
  - intros He Hp Hd H. cbn [app]. change (("!" ++ formatNode e) ++ rest)%string with (String "!" (formatNode e ++ rest)).
    apply (lexes_token _ _ _ (formatNode e ++ rest)%string); [reflexivity| |now apply IH]. intros pos.
    exists (mkToken tokNot "!" pos). split; [|reflexivity]. unfold scan_token. cbn [Ascii.eqb Bool.eqb andb].
    destruct (Ascii.eqb_spec (peek (formatNode e ++ rest)) "=") as [E|_]; [now apply format_first in E|reflexivity].
  - intros (Hn & Hs & Hv) Hp Hd H. rewrite <- app_assoc. cbn [app]. rewrite !string_app_assoc.
    apply (lexes_field f (compOp_String op ++ String " " (formatLiteral v ++ rest))); [done|done|].
    apply lexes_op. now apply lexes_literal.
Qed.

Lemma map_app_split {A B} (f : A -> B) ts ks1 ks2 : map f ts = ks1 ++ ks2 ->
  exists ts1 ts2, ts = ts1 ++ ts2 /\ map f ts1 = ks1 /\ map f ts2 = ks2.
Proof. intros (ts1 & ts2 & -> & -> & ->)%fmap_app_inv. eauto. Qed.

Lemma map_cons_split {A B} (f : A -> B) ts k ks : map f ts = k :: ks ->
  exists t ts', ts = t :: ts' /\ f t = k /\ map f ts' = ks.
Proof. destruct ts as [|t ts]; [done|]. intros [= <- <-]. eauto. Qed.

Lemma op_reads o op : kv o = (op_token op, compOp_String op) -> token_op o = Some op.
Proof.
  destruct o as [ty v p]. intros [= -> ->]. unfold token_op, parseCompOp. now destruct op.
Qed.

Lemma node_derives n : forall ts, wf_node n -> printable n = true -> map kv ts = node_kvs n ->
  derives LUnary ts (norm n).
Proof.
  induction n as [l IHl r IHr|l IHl r IHr|e IH|f op v]; intros ts; cbn [wf_node printable node_kvs norm].
  - intros [Hl Hr] [Pl Pr]%andb_prop E.
    apply map_cons_split in E as (a & ts' & -> & Ea & E). apply map_app_split in E as (ts1 & ts2 & -> & E1 & E).
    apply map_cons_split in E as (o & ts3 & -> & Eo & E). apply map_app_split in E as (ts4 & ts5 & -> & E4 & E).
    apply map_cons_split in E as (b & ts6 & -> & Eb & E). destruct ts6; [|done].
    apply g_unary. replace (ts1 ++ o :: ts4 ++ [b]) with ((ts1 ++ o :: ts4) ++ [b]) by (now rewrite <- app_assoc).
    apply g_paren; [now injection Ea| |now injection Eb].
    apply g_or_step; [apply g_or, g_and; auto|now injection Eo|apply g_and; auto].
  - intros [Hl Hr] [Pl Pr]%andb_prop E.
    apply map_cons_split in E as (a & ts' & -> & Ea & E). apply map_app_split in E as (ts1 & ts2 & -> & E1 & E).
    apply map_cons_split in E as (o & ts3 & -> & Eo & E). apply map_app_split in E as (ts4 & ts5 & -> & E4 & E).
    apply map_cons_split in E as (b & ts6 & -> & Eb & E). destruct ts6; [|done].
    apply g_unary. replace (ts1 ++ o :: ts4 ++ [b]) with ((ts1 ++ o :: ts4) ++ [b]) by (now rewrite <- app_assoc).
    apply g_paren; [now injection Ea| |now injection Eb].
    apply g_or, g_and_step; [apply g_and; auto|now injection Eo|auto].
  - intros He Hp E. apply map_cons_split in E as (a & ts' & -> & Ea & E). apply g_not; [now injection Ea|auto].
  - intros (Hn & Hs & Hv) Hp E. apply g_unary. destruct f as [name sub]. unfold field_kvs in E.
    cbn [fr_name fr_subName] in *. apply map_app_split in E as (tf & tov & -> & Ef & E).
    apply map_cons_split in E as (o & ts1 & -> & Eo & E). apply map_cons_split in E as (w & ts2 & -> & Ew & E).
    destruct ts2; [|done]. apply map_cons_split in Ef as (t1 & ts3 & -> & E1 & Ef). injection E1 as Ht1 <-.
    apply op_reads in Eo. apply (literal_reads _ _ Hv Hp) in Ew.
    destruct (bool_decide_reflect (sub = EmptyString)) as [->|Hne].
    + destruct ts3; [|done]. cbn [app]. now apply g_comparison.
    + apply map_cons_split in Ef as (t2 & ts4 & -> & E2 & Ef). apply map_cons_split in Ef as (t3 & ts5 & -> & E3 & Ef).
      destruct ts5; [|done]. injection E2 as Ht2 _. injection E3 as Ht3 <-. cbn [app]. now apply g_sub_comparison.
Qed.

(** ** Reading back *)

Lemma norm_eval n ctx : wf_node n -> printable n = true -> eval (norm n) ctx = eval n ctx.
Proof.
  induction n as [l IHl r IHr|l IHl r IHr|e IH|f op v]; cbn [wf_node printable norm eval].
  1, 2: intros [Hl Hr] [Pl Pr]%andb_prop; now rewrite IHl, IHr.
  - intros He Hp. now rewrite IH.
  - intros (_ & _ & Hv) Hp. unfold norm_literal.
    destruct Hv as [(z & -> & Hz)|[(x & -> & Hx)|(s & ->)]]; cbn in *; [done| |done].
    destruct (integral x) as [z|] eqn:Ei; [|done]. destruct (format_integral x z Hp Ei) as [Ef Ez].
    assert (Hnum : forall y, compareNumeric y op (int_literal z) = compareNumeric y op (float_literal x))
      by (intros y; unfold compareNumeric; cbn; now rewrite Ez).
    assert (Hstr : forall y, compareString y op (int_literal z) = compareString y op (float_literal x))
      by (intros y; unfold compareString; cbn; now rewrite Ef).
    assert (Hrefl : forall fv, compareReflectValue fv op (int_literal z) = compareReflectValue fv op (float_literal x)).
    { intros fv. unfold compareReflectValue. destruct (toFloat64 fv); [apply Hnum|destruct fv; [done..| | | |];
        first [apply Hstr|done]]. }
    unfold evalComp. destruct (_ && _); [unfold evalHeaderField; cbv beta zeta; now rewrite !Hnum|].
    destruct (negb _).
    + destruct (ec_Lookups ctx) as [m|]; [|done]. destruct (m !! _); [apply Hstr|done].
    + destruct (ec_Decoded ctx) as [d|]; [|done]. unfold evalDecodedField.
      destruct (match d with VPtr v => v | v => v end); try done. destruct (buildFieldIndex _ !! _) as [i|]; [|done].
      destruct (fields !! i) as [[? fv]|]; [apply Hrefl|done].
Qed.

Lemma norm_literal_format v : wf_literal v -> printable_literal v = true ->
  formatLiteral (norm_literal v) = formatLiteral v.
Proof.
  intros [(z & -> & Hz)|[(x & -> & Hx)|(s & ->)]] Hp; unfold norm_literal; cbn in *; [done| |done].
  destruct (integral x) as [z|] eqn:Ei; [|done]. destruct (format_integral x z Hp Ei) as [Ef _].
  unfold formatLiteral. cbn. now rewrite Ef.
Qed.

Lemma norm_format n : wf_node n -> printable n = true -> formatNode (norm n) = formatNode n.
Proof.
  induction n as [l IHl r IHr|l IHl r IHr|e IH|f op v]; cbn [wf_node printable norm formatNode].
  1, 2: intros [Hl Hr] [Pl Pr]%andb_prop; now rewrite IHl, IHr.
  - intros He Hp. now rewrite IH.
  - intros (_ & _ & Hv) Hp. now rewrite norm_literal_format.
Qed.

Lemma norm_needsDecode n : checkNeedsDecode (norm n) = checkNeedsDecode n.
Proof. induction n; cbn; congruence. Qed.

(** A printed filter compiles back.  For every compiled filter whose strings
    hold no quote or backslash and whose floats print without an exponent, the
    text of [String] compiles to a filter that prints the same, decodes the same
    and matches exactly the same frames. *)
Theorem String_Compile input f : Compile input = Ok f -> printable (root f) = true ->
  exists f', Compile (Filter_String f) = Ok f' /\ Filter_String f' = Filter_String f /\
    NeedsDecode f' = NeedsDecode f /\ forall ctx, Match f' ctx = Match f ctx.
Proof.
  intros Hc Hp. destruct (Compile_wf _ _ Hc) as [Hwf Hn].
  assert (E : parse (Filter_String f) = Ok (norm (root f))).
  { apply parse_derives. pose proof (lexes_node (root f) "" _ Hwf Hp eq_refl lexes_nil) as Hl.
    unfold lex, Filter_String. specialize (Hl (Z.of_nat (String.length (formatNode (root f))))
      (S (String.length (formatNode (root f))))).
    assert (Enil : forall s, (s ++ "")%string = s) by (induction s as [|c s IH]; [done|exact (f_equal (String c) IH)]).
    rewrite Enil in Hl. destruct Hl as (ts & -> & Em); [lia|].
    apply map_app_split in Em as (ts1 & ts2 & -> & E1 & E2). apply map_cons_split in E2 as (e & ts3 & -> & Ee & E3).
    destruct ts3; [|done]. exists ts1, e. split; [done|]. split; [now injection Ee|].
    apply g_or, g_and. now apply node_derives. }
  exists (mkFilter (norm (root f)) (checkNeedsDecode (norm (root f)))). unfold Compile. rewrite E.
  split; [done|]. split; [now apply norm_format|]. split; [unfold NeedsDecode; cbn [needsDecode]; now rewrite Hn, norm_needsDecode|].
  intros ctx. now apply norm_eval.
Qed.

(** * On concrete filters *)

Definition demo_filter : string := "pgn == 130310 && !(water_temperature < 280.5 || src.manufacturer == 'Garmin')"%string.

Definition compiled (s : string) : Filter :=
  match Compile s with Ok f => f | Err _ => mkFilter (compNode (mkFieldRef "" "") opEq (int_literal 0)) false end.

Lemma Compile_type_witness : Compile demo_filter = Ok (compiled demo_filter) /\
  wf_node (root (compiled demo_filter)).
Proof.
  assert (H : Compile demo_filter = Ok (compiled demo_filter)) by (vm_compute; reflexivity).
  split; [exact H|]. exact (proj1 (Compile_type _ _ H)).
Defined.

Definition demo_ctx : EvalContext :=
  mkEvalContext 130310 5 255 4
    (Some (VPtr (VStruct [(("WaterTemperature", "water_temperature,omitempty"), true, VPtr (VFloat (float_of_Z 290)))%string])))
    (Some {["src.manufacturer"%string := "Maretron"%string]}).

Lemma String_Compile_witness : exists f',
  Compile (Filter_String (compiled demo_filter)) = Ok f' /\ Match f' demo_ctx = Match (compiled demo_filter) demo_ctx.
Proof.
  assert (H : Compile demo_filter = Ok (compiled demo_filter)) by (vm_compute; reflexivity).
  assert (Hp : printable (root (compiled demo_filter)) = true) by (vm_compute; reflexivity).
  destruct (String_Compile _ _ H Hp) as (f' & H1 & _ & _ & H2). exists f'. split; [exact H1|apply H2].
Defined.

Definition header_filter : string := "src == 5 or src.manufacturer == 'Maretron'"%string.

Lemma NeedsDecode_sound_witness : Match (compiled header_filter) (with_decoded demo_ctx None)
  = Match (compiled header_filter) demo_ctx.
Proof.
  refine (NeedsDecode_sound header_filter (compiled header_filter) demo_ctx None _ _); vm_compute; reflexivity.
Defined.

Example demo_matches :
  (Filter_String (compiled demo_filter), Match (compiled demo_filter) demo_ctx,
   Match (compiled demo_filter) (with_decoded demo_ctx (Some (VStruct []))), NeedsDecode (compiled header_filter)) =
  ("(pgn == 130310 && !(water_temperature < 280.5 || src.manufacturer == " ++ String "034" "Garmin" ++ String "034" "))",
   true, true, false)%string.
Proof. vm_compute. reflexivity. Qed.

(** ** Where printing does not read back *)

(** A quote inside a string is printed as it is. *)
Lemma quote_not_printed_back :
  let f := compiled ("name == 'a" ++ String "034" "b'")%string in
  (Filter_String f, Compile (Filter_String f)) =
  ("name == " ++ String "034" "a" ++ String "034" "b" ++ String "034" "", Err (Unterminated 12))%string.
Proof. vm_compute. reflexivity. Qed.

(** A float of a million or more is printed with an exponent the lexer does not
    know. *)
Lemma exponent_not_read_back :
  let f := compiled "frequency > 1500000.0"%string in
  (Filter_String f, Compile (Filter_String f)) =
  ("frequency > 1.5e+06", Err (UnexpectedChar "+"%char 16))%string.
Proof. vm_compute. reflexivity. Qed.
