(* ===== verification/Keeper.v ===== *)
(** Archival and retention of journal files: [keeper/keeper.go].

    The keeper watches directories: [scanDir] deletes what is too old or over the
    size cap and queues files for the archive script; failed files are retried
    with a growing delay.  The disk is part of the state: files with their sizes,
    the zero-byte [.archived] markers among them.  A path is its directory and its
    file name, which is what [filepath.Join] makes of the two.  The archive script
    is a program outside the repository: each call of [runScript] takes the
    script's answers as an argument. *)

From S2P Require Import Prelude GoNum.
From Stdlib Require Import Ascii.

(** * Data *)

Definition path : Type := string * string.

Record RotatedFile := mkRotated { rf_Path : path; rf_InstanceID : string }.

Inductive ArchiveTrigger := ArchiveDisabled | ArchiveOnRotate | ArchiveBeforeExpire.
Inductive OverflowPolicy := OverflowDeleteUnarchived | OverflowPauseRecording.

#[global] Instance ArchiveTrigger_eq_dec : EqDecision ArchiveTrigger.
Proof. solve_decision. Defined.

Record KeeperDir := mkKeeperDir { kd_Dir : string; kd_InstanceID : string }.

Record KeeperConfig := mkKeeperConfig {
  kc_MaxAge : duration;
  kc_MinKeep : duration;
  kc_MaxSize : Z;
  kc_SoftPct : Z;
  kc_OverflowPolicy : OverflowPolicy;
  kc_ArchiveCommand : string;
  kc_ArchiveTrigger : ArchiveTrigger
}.

Definition hasArchive (c : KeeperConfig) : bool :=
  negb (bool_decide (kc_ArchiveCommand c = EmptyString)) && negb (bool_decide (kc_ArchiveTrigger c = ArchiveDisabled)).

(** An answer of the script; only [Status = "ok"] counts as archived, and [Path]
    is never read. *)
Record archiveResponse := mkResponse { ar_Path : string; ar_Status : string; ar_Error : string }.
Definition response_ok (r : archiveResponse) : bool := bool_decide (ar_Status r = "ok"%string).

Record pendingFile := mkPending { pf_path : path; pf_instanceID : string; pf_size : Z; pf_created : time }.

Record journalFileInfo := mkFileInfo {
  jf_path : path;
  jf_instanceID : string;
  jf_size : Z;
  jf_created : time;
  jf_archived : bool
}.

Definition keeperScanInterval : duration := 5 * minute.
Definition keeperInitialBackoff : duration := minute.
Definition keeperMaxBackoff : duration := hour.

(** ** The disk *)

Record Disk := mkDisk { disk_dirs : gset string; disk_files : gmap path Z }.

Definition marker (p : path) : path := (p.1, (p.2 ++ ".archived")%string).

Definition name_le (a b : string * Z) : Prop := String.le a.1 b.1.
#[global] Instance name_le_dec a b : Decision (name_le a b).
Proof. unfold name_le. apply _. Defined.

(** [os.ReadDir] with each entry's size: the names of a directory in order. *)
Definition ReadDir (dir : string) (d : Disk) : option (list (string * Z)) :=
  if bool_decide (dir ∈ disk_dirs d)
  then Some (merge_sort name_le
         (omap (fun '(p, size) => if bool_decide (p.1 = dir) then Some (p.2, size) else None)
            (map_to_list (disk_files d))))
  else None.

Definition exists_file (p : path) (d : Disk) : bool := bool_decide (is_Some (disk_files d !! p)).
Definition with_files (d : Disk) (m : gmap path Z) : Disk := mkDisk (disk_dirs d) m.

Definition isArchived (p : path) (d : Disk) : bool := exists_file (marker p) d.

(** ** File names *)

Definition HasSuffix (s suffix : string) : bool :=
  let n := String.length s in let k := String.length suffix in
  (k <=? n)%nat && bool_decide (String.substring (n - k) k s = suffix).

Definition TrimSuffix (s suffix : string) : string :=
  if HasSuffix s suffix then String.substring 0 (String.length s - String.length suffix) s else s.

Fixpoint LastIndex (s : string) (c : ascii) : option nat :=
  match s with
  | EmptyString => None
  | String x s' =>
      match LastIndex s' c with
      | Some i => Some (S i)
      | None => if Ascii.eqb x c then Some O else None
      end
  end.

(** A number of exactly [n] digits at position [i]. *)
Definition digits_at (s : string) (i n : nat) : option Z :=
  let part := String.substring i n s in
  if (String.length part =? n)%nat then Z.of_N <$> parse_digits 10 part 0 else None.

Definition char_at (s : string) (i : nat) (c : ascii) : bool :=
  match String.get i s with Some x => Ascii.eqb x c | None => false end.

Definition leap (y : Z) : bool := (y mod 4 =? 0) && (negb (y mod 100 =? 0) || (y mod 400 =? 0)).

Definition days_in_month (y m : Z) : Z :=
  if m =? 2 then if leap y then 29 else 28
  else if (m =? 4) || (m =? 6) || (m =? 9) || (m =? 11) then 30 else 31.

(** Days from the first of January of year 1. *)
Definition days_before_year (y : Z) : Z := (y - 1) * 365 + (y - 1) / 4 - (y - 1) / 100 + (y - 1) / 400.
Definition days_before_month (y m : Z) : Z :=
  foldl (fun acc k => acc + days_in_month y k) 0 (seqZ 1 (m - 1)).

Definition time_Date (y mo d h mi s ms : Z) : time :=
  (((days_before_year y + days_before_month y mo + d - 1) * 24 + h) * 60 + mi) * minute + s * second
    + ms * millisecond.

(** [time.Parse] with the layout [20060102T150405.000Z]. *)
Definition parse_stamp (s : string) : option time :=
  y ← digits_at s 0 4; mo ← digits_at s 4 2; d ← digits_at s 6 2;
  h ← digits_at s 9 2; mi ← digits_at s 11 2; se ← digits_at s 13 2; ms ← digits_at s 16 3;
  if char_at s 8 "T" && char_at s 15 "." && char_at s 19 "Z" && (String.length s =? 20)%nat
     && (1 <=? mo) && (mo <=? 12) && (1 <=? d) && (d <=? days_in_month y mo)
     && (h <? 24) && (mi <? 60) && (se <? 60)
  then Some (time_Date y mo d h mi se ms) else None.

(** The zero time when the name carries none. *)
Definition parseTimestampFromFilename (name : string) : time :=
  let name := TrimSuffix name ".lpj" in
  match LastIndex name "-" with
  | None => 0
  | Some i =>
      if (String.length name <=? S i)%nat then 0
      else default 0 (parse_stamp (String.substring (S i) (String.length name - S i) name))
  end.

Example stamps :
  map (fun n => parseTimestampFromFilename n / second - 62135596800)
    ["nmea2k-20260302T140000.000Z.lpj"; "a-b-20240229T235959.999Z.lpj"]%string = [1772460000; 1709251199] /\
  map parseTimestampFromFilename
    ["nmea2k.lpj"; "x-20260230T140000.000Z.lpj"; "x-20260302T240000.000Z.lpj"; "x-.lpj"]%string = [0; 0; 0; 0].
Proof. vm_compute. split; reflexivity. Qed.

Definition ParseArchiveTrigger (s : string) : option ArchiveTrigger :=
  if bool_decide (s = ""%string) || bool_decide (s = "disabled"%string) then Some ArchiveDisabled
  else if bool_decide (s = "on-rotate"%string) then Some ArchiveOnRotate
  else if bool_decide (s = "before-expire"%string) then Some ArchiveBeforeExpire
  else None.

Definition ArchiveTrigger_String (t : ArchiveTrigger) : string :=
  match t with ArchiveOnRotate => "on-rotate" | ArchiveBeforeExpire => "before-expire" | ArchiveDisabled => "disabled" end.

Definition ParseOverflowPolicy (s : string) : option OverflowPolicy :=
  if bool_decide (s = ""%string) || bool_decide (s = "delete-unarchived"%string) then Some OverflowDeleteUnarchived
  else if bool_decide (s = "pause-recording"%string) then Some OverflowPauseRecording
  else None.

Definition OverflowPolicy_String (p : OverflowPolicy) : string :=
  match p with OverflowPauseRecording => "pause-recording" | OverflowDeleteUnarchived => "delete-unarchived" end.

(** * State *)

(** The keeper's variables, those of [Run] among them: [jk_armed] is whether the
    retry timer runs. *)
Record JournalKeeper := mkKeeper {
  jk_rotateCh : list RotatedFile;
  jk_pending : list pendingFile;
  jk_backoff : duration;
  jk_paused : gmap string bool;
  jk_armed : bool
}.

Definition NewJournalKeeper : JournalKeeper := mkKeeper [] [] 0 ∅ false.

(** [Send]: the channel holds 64. *)
Definition Send (rf : RotatedFile) (k : JournalKeeper) : JournalKeeper :=
  if (length (jk_rotateCh k) <? 64)%nat
  then mkKeeper (jk_rotateCh k ++ [rf]) (jk_pending k) (jk_backoff k) (jk_paused k) (jk_armed k)
  else k.

Definition set_pending (k : JournalKeeper) (p : list pendingFile) (b : duration) : JournalKeeper :=
  mkKeeper (jk_rotateCh k) p b (jk_paused k) (jk_armed k).

(** The keeper, the disk, and the calls of [OnPauseChange]. *)
Record World := mkWorld {
  w_keeper : JournalKeeper;
  w_disk : Disk;
  w_notified : list (KeeperDir * bool)
}.

(** What a call sees of the outside: the clock, the directories [Dirs] or
    [DirFunc] gives, whether the context is done, the script's answers, and which
    creations and removals the file system carries out. *)
Record Env := mkEnv {
  ke_now : time;
  ke_dirs : list KeeperDir;
  ke_done : bool;
  ke_script : list pendingFile -> list archiveResponse;
  ke_create : path -> bool;
  ke_remove : path -> bool
}.

Definition isPending (p : path) (k : JournalKeeper) : bool :=
  existsb (fun f => bool_decide (pf_path f = p)) (jk_pending k).

Definition makePending (f : journalFileInfo) : pendingFile :=
  mkPending (jf_path f) (jf_instanceID f) (jf_size f) (jf_created f).

(** * Operations *)

Section keeper.
  Context (cfg : KeeperConfig).

Definition markArchived (e : Env) (p : path) (d : Disk) : Disk :=
  if ke_create e (marker p) then with_files d (<[marker p := 0]> (disk_files d)) else d.

(** [os.Remove], and whether it reports an error other than a missing file. *)
Definition Remove (e : Env) (p : path) (d : Disk) : Disk * bool :=
  match disk_files d !! p with
  | None => (d, true)
  | Some _ => if ke_remove e p then (with_files d (delete p (disk_files d)), true) else (d, false)
  end.

Definition deleteFile (e : Env) (p : path) (d : Disk) : Disk :=
  let '(d, ok) := Remove e p d in
  if ok then (Remove e (marker p) d).1 else d.

(** The loop of [archiveFiles] and [retryArchive] over the files and the script's
    answers: the markers made and the files that failed. *)
Fixpoint archive_results (e : Env) (files : list pendingFile) (results : list archiveResponse) (d : Disk)
    : Disk * list pendingFile :=
  match files with
  | [] => (d, [])
  | f :: files =>
      if match head results with Some r => response_ok r | None => false end
      then archive_results e files (tail results) (markArchived e (pf_path f) d)
      else let '(d, failed) := archive_results e files (tail results) d in (d, f :: failed)
  end.

Definition archiveFiles (e : Env) (files : list pendingFile) (k : JournalKeeper) (d : Disk) : JournalKeeper * Disk :=
  if bool_decide (files = []) || bool_decide (kc_ArchiveCommand cfg = EmptyString) then (k, d)
  else
    let '(d, failed) := archive_results e files (ke_script e files) d in
    let failed := List.filter (fun f => negb (isPending (pf_path f) k)) failed in
    match failed with
    | _ :: _ => (set_pending k (jk_pending k ++ failed) (jk_backoff k), d)
    | [] => match jk_pending k with
            | [] => (set_pending k [] 0, d)
            | _ => (k, d)
            end
    end.

Definition retryArchive (e : Env) (w : World) : World :=
  let k := w_keeper w in
  match jk_pending k with
  | [] => w
  | _ =>
      let alive := List.filter (fun f => exists_file (pf_path f) (w_disk w)) (jk_pending k) in
      match alive with
      | [] => mkWorld (set_pending k [] 0) (w_disk w) (w_notified w)
      | _ =>
          let '(d, failed) := archive_results e alive (ke_script e alive) (w_disk w) in
          let backoff := match failed with
            | [] => 0
            | _ => Z.min (jk_backoff k * 2) keeperMaxBackoff
            end in
          mkWorld (set_pending k failed backoff) d (w_notified w)
      end
  end.

(** [slices.SortFunc] is not stable: the order of files with the same timestamp
    is the library's. *)
Context (SortFunc : list journalFileInfo -> list journalFileInfo).

Definition file_info (d : Disk) (kd : KeeperDir) (name : string) (size : Z) : journalFileInfo :=
  mkFileInfo (kd_Dir kd, name) (kd_InstanceID kd) size (parseTimestampFromFilename name)
    (isArchived (kd_Dir kd, name) d).

(** The journal files of a listing. *)
Definition list_files (d : Disk) (kd : KeeperDir) (entries : list (string * Z)) : list journalFileInfo :=
  omap (fun '(name, size) => if HasSuffix name ".lpj" then Some (file_info d kd name size) else None) entries.

Definition softThreshold : Z :=
  if (0 <? kc_MaxSize cfg) && hasArchive cfg && (0 <? kc_SoftPct cfg)
  then Z.quot (i64 (kc_MaxSize cfg * kc_SoftPct cfg)) 100 else 0.

Definition over_size (total : Z) : bool := (0 <? kc_MaxSize cfg) && (total >? kc_MaxSize cfg).

Definition too_old (now created : time) : bool :=
  let age := time_Sub now created in
  (0 <? kc_MaxAge cfg) && (age >? kc_MaxAge cfg) && ((kc_MinKeep cfg <=? 0) || (age >? kc_MinKeep cfg)).

(** The loop of [scanDir] over the files, oldest first: what to archive, whether
    to pause, and the disk. *)
Fixpoint scan_files (e : Env) (k : JournalKeeper) (files : list journalFileInfo) (totalSize : Z)
    (toArchive : list pendingFile) (needPause : bool) (d : Disk) : list pendingFile * bool * Disk :=
  match files with
  | [] => (toArchive, needPause, d)
  | f :: rest =>
      if over_size totalSize || too_old (ke_now e) (jf_created f) then
        let '(toArchive, needPause, d) :=
          if hasArchive cfg && negb (jf_archived f) then
            if over_size totalSize && isPending (jf_path f) k then
              match kc_OverflowPolicy cfg with
              | OverflowDeleteUnarchived => (toArchive, needPause, deleteFile e (jf_path f) d)
              | OverflowPauseRecording => (toArchive, true, d)
              end
            else if negb (isPending (jf_path f) k) then (toArchive ++ [makePending f], needPause, d)
            else (toArchive, needPause, d)
          else (toArchive, needPause, deleteFile e (jf_path f) d) in
        scan_files e k rest (totalSize - jf_size f) toArchive needPause d
      else if (softThreshold =? 0) || (totalSize <=? softThreshold) then (toArchive, needPause, d)
      else (toArchive ++ map makePending
              (List.filter (fun f => negb (jf_archived f) && negb (isPending (jf_path f) k)) files), needPause, d)
  end.

Definition total_size (files : list journalFileInfo) : Z := foldr (fun f acc => jf_size f + acc) 0 files.

(** The end of [scanDir]: the pause state of the directory. *)
Definition update_pause (kd : KeeperDir) (needPause : bool) (w : World) : World :=
  let k := w_keeper w in
  if Bool.eqb needPause (default false (jk_paused k !! kd_Dir kd)) then w
  else mkWorld (mkKeeper (jk_rotateCh k) (jk_pending k) (jk_backoff k) (<[kd_Dir kd := needPause]> (jk_paused k))
                  (jk_armed k)) (w_disk w) (w_notified w ++ [(kd, needPause)]).

Definition scanDir (e : Env) (w : World) (kd : KeeperDir) : World :=
  match ReadDir (kd_Dir kd) (w_disk w) with
  | None => w
  | Some entries =>
      let files := SortFunc (list_files (w_disk w) kd entries) in
      let '(toArchive, needPause, d) := scan_files e (w_keeper w) files (total_size files) [] false (w_disk w) in
      let '(k, d) := archiveFiles e toArchive (w_keeper w) d in
      update_pause kd needPause (mkWorld k d (w_notified w))
  end.

Definition scanAll (e : Env) (w : World) : World :=
  if ke_done e then w else foldl (scanDir e) w (ke_dirs e).

Definition handleRotation (e : Env) (rf : RotatedFile) (w : World) : World :=
  match kc_ArchiveTrigger cfg, disk_files (w_disk w) !! rf_Path rf with
  | ArchiveOnRotate, Some size =>
      let f := mkPending (rf_Path rf) (rf_InstanceID rf) size (parseTimestampFromFilename (rf_Path rf).2) in
      let '(k, d) := archiveFiles e [f] (w_keeper w) (w_disk w) in
      mkWorld k d (w_notified w)
  | _, _ => w
  end.

(** The files of a directory the startup sweep archives. *)
Definition unarchived_in (w : World) (kd : KeeperDir) : list pendingFile :=
  match ReadDir (kd_Dir kd) (w_disk w) with
  | None => []
  | Some entries =>
      map makePending (List.filter (fun f => negb (jf_archived f) && negb (isPending (jf_path f) (w_keeper w)))
        (list_files (w_disk w) kd entries))
  end.

Definition archiveUnarchived (e : Env) (w : World) : World :=
  if bool_decide (kc_ArchiveCommand cfg = EmptyString) || negb (bool_decide (kc_ArchiveTrigger cfg = ArchiveOnRotate))
     || ke_done e
  then w
  else
    let '(k, d) := archiveFiles e (flat_map (unarchived_in w) (ke_dirs e)) (w_keeper w) (w_disk w) in
    mkWorld k d (w_notified w).

(** ** The main loop *)

(** What wakes [Run]; [Sent] is a call of [Send] from outside. *)
Inductive event :=
| Rotation
| ScanTick
| RetryTick
| Sent (rf : RotatedFile).

Definition take_rotation (k : JournalKeeper) : option (RotatedFile * JournalKeeper) :=
  match jk_rotateCh k with
  | [] => None
  | rf :: rest => Some (rf, mkKeeper rest (jk_pending k) (jk_backoff k) (jk_paused k) (jk_armed k))
  end.

Definition with_keeper (w : World) (k : JournalKeeper) : World := mkWorld k (w_disk w) (w_notified w).

(** The end of a turn: the retry timer. *)
Definition arm (w : World) : World :=
  let k := w_keeper w in
  match jk_pending k with
  | [] => w
  | _ => if jk_armed k then w
         else with_keeper w (mkKeeper (jk_rotateCh k) (jk_pending k)
                (if jk_backoff k =? 0 then keeperInitialBackoff else jk_backoff k) (jk_paused k) true)
  end.

Definition disarm (w : World) : World :=
  let k := w_keeper w in
  with_keeper w (mkKeeper (jk_rotateCh k) (jk_pending k) (jk_backoff k) (jk_paused k) false).

(** One event; [None] when it cannot happen. *)
Definition run_event (e : Env) (ev : event) (w : World) : option World :=
  match ev with
  | Sent rf => Some (with_keeper w (Send rf (w_keeper w)))
  | Rotation => '(rf, k) ← take_rotation (w_keeper w); Some (arm (handleRotation e rf (with_keeper w k)))
  | ScanTick => Some (arm (scanAll e w))
  | RetryTick => if jk_armed (w_keeper w) then Some (arm (disarm (retryArchive e w))) else None
  end.

Definition startup (e : Env) (w : World) : World := archiveUnarchived e (scanAll e w).

(** The drain when the context is done: every queued notification. *)
Definition drain (e : Env) (w : World) : World :=
  let k := w_keeper w in
  foldl (fun w rf => handleRotation e rf w)
    (with_keeper w (mkKeeper [] (jk_pending k) (jk_backoff k) (jk_paused k) (jk_armed k))) (jk_rotateCh k).

Inductive reachable (d0 : Disk) : World -> Prop :=
| reach_start e : NoDup (map kd_Dir (ke_dirs e)) ->
    reachable d0 (startup e (mkWorld NewJournalKeeper d0 []))
| reach_event w e ev w' : reachable d0 w -> NoDup (map kd_Dir (ke_dirs e)) -> run_event e ev w = Some w' ->
    reachable d0 w'.

(** * What a turn does to the disk *)

Lemma Remove_lookup e p d q :
  disk_files (Remove e p d).1 !! q = disk_files d !! q \/ (disk_files (Remove e p d).1 !! q = None /\ q = p).
Proof.
  unfold Remove. destruct (disk_files d !! p) eqn:E; [|now left]. destruct (ke_remove e p); [|now left].
  destruct (decide (q = p)) as [->|Hne]; [right|left]; cbn; [now rewrite lookup_delete_eq|].
  now rewrite lookup_delete_ne by congruence.
Qed.

Lemma Remove_dirs e p d : disk_dirs (Remove e p d).1 = disk_dirs d.
Proof. unfold Remove. destruct (disk_files d !! p); [|done]. now destruct (ke_remove e p). Qed.

Lemma deleteFile_dirs e p d : disk_dirs (deleteFile e p d) = disk_dirs d.
Proof.
  unfold deleteFile. pose proof (Remove_dirs e p d) as H. destruct (Remove e p d) as [d1 []]; [|exact H].
  now rewrite Remove_dirs.
Qed.

Lemma deleteFile_lookup e p d q :
  disk_files (deleteFile e p d) !! q = disk_files d !! q \/
  (disk_files (deleteFile e p d) !! q = None /\ (q = p \/ q = marker p)).
Proof.
  unfold deleteFile. pose proof (Remove_lookup e p d q) as H1. destruct (Remove e p d) as [d1 ok]. cbn in H1.
  destruct ok; [|tauto]. pose proof (Remove_lookup e (marker p) d1 q) as H2.
  destruct H2 as [->|[-> ->]]; [tauto|right; auto].
Qed.

(** The script's answer at the place of this file in the batch it was given is ok. *)
Definition vouched (e : Env) (batch : list pendingFile) (p : path) : Prop :=
  exists i f r, batch !! i = Some f /\ pf_path f = p /\ ke_script e batch !! i = Some r /\ response_ok r = true.

Lemma archive_results_lookup e files : forall results d d' failed q,
  archive_results e files results d = (d', failed) ->
  disk_files d' !! q = disk_files d !! q \/
  (disk_files d' !! q = Some 0 /\
   exists i f r, files !! i = Some f /\ q = marker (pf_path f) /\ results !! i = Some r /\ response_ok r = true).
Proof.
  induction files as [|f files IH]; intros results d d' failed q; cbn [archive_results]; [intros [= <- _]; now left|].
  destruct results as [|r results]; cbn [head tail].
  - destruct (archive_results e files [] d) as [d1 fl] eqn:E. intros [= <- _].
    destruct (IH _ _ _ _ q E) as [H|(H & i & g & r & _ & _ & Hr & _)]; [now left|done].
  - destruct (response_ok r) eqn:Er.
    + intros E. destruct (IH _ _ _ _ q E) as [H|(H & i & g & r' & H1 & H2 & H3 & H4)].
      * unfold markArchived in H. destruct (ke_create e _); [|now left]. cbn in H.
        destruct (decide (q = marker (pf_path f))) as [->|Hne].
        -- right. split; [rewrite H; now rewrite lookup_insert_eq|]. now exists 0%nat, f, r.
        -- left. rewrite H. now rewrite lookup_insert_ne by congruence.
      * right. split; [done|]. now exists (S i), g, r'.
    + destruct (archive_results e files results d) as [d1 fl] eqn:E. intros [= <- _].
      destruct (IH _ _ _ _ q E) as [H|(H & i & g & r' & H1 & H2 & H3 & H4)]; [now left|].
      right. split; [done|]. now exists (S i), g, r'.
Qed.

(** What archiving does: markers for vouched files, pending entries of the batch. *)
Record archiving (e : Env) (files : list pendingFile) (d d' : Disk) : Prop := {
  ag_dirs : disk_dirs d' = disk_dirs d;
  ag_lookup : forall q, disk_files d' !! q = disk_files d !! q \/
    (disk_files d' !! q = Some 0 /\ exists f, f ∈ files /\ q = marker (pf_path f) /\ vouched e files (pf_path f))
}.

Lemma archive_results_dirs e files : forall results d d' failed,
  archive_results e files results d = (d', failed) -> disk_dirs d' = disk_dirs d /\ failed `sublist_of` files.
Proof.
  induction files as [|f files IH]; intros results d d' failed; cbn [archive_results].
  - intros [= <- <-]. split; [done|constructor].
  - destruct (match head results with Some r => response_ok r | None => false end).
    + intros E. destruct (IH _ _ _ _ E) as [H1 H2]. split; [|now constructor].
      rewrite H1. unfold markArchived. now destruct (ke_create _ _).
    + destruct (archive_results e files (tail results) d) as [d1 fl] eqn:E. intros [= <- <-].
      destruct (IH _ _ _ _ E) as [H1 H2]. split; [done|now constructor].
Qed.

Lemma archive_results_archiving e files d d' failed :
  archive_results e files (ke_script e files) d = (d', failed) -> archiving e files d d'.
Proof.
  intros E. constructor; [now apply archive_results_dirs in E|]. intros q.
  destruct (archive_results_lookup e files _ _ _ _ q E) as [H|(H & i & f & r & H1 & H2 & H3 & H4)]; [now left|].
  right. split; [done|]. exists f. split; [now apply list_elem_of_lookup_2 in H1|]. split; [done|].
  now exists i, f, r.
Qed.

Lemma archiving_refl e files d : archiving e files d d.
Proof. constructor; auto. Qed.

Lemma archiveFiles_disk e files k d k' d' : archiveFiles e files k d = (k', d') -> archiving e files d d'.
Proof.
  unfold archiveFiles. destruct (_ || _); [intros [= _ <-]; apply archiving_refl|].
  destruct (archive_results e files _ d) as [d1 failed] eqn:E. apply archive_results_archiving in E.
  destruct (List.filter _ failed); [destruct (jk_pending k)|]; intros [= _ <-]; exact E.
Qed.

Lemma filter_sublist {A} (p : A -> bool) l : List.filter p l `sublist_of` l.
Proof. induction l as [|x l IH]; [constructor|]. cbn. destruct (p x); now constructor. Qed.

Lemma archiveFiles_pending e files k d k' d' : archiveFiles e files k d = (k', d') ->
  exists new, jk_pending k' = jk_pending k ++ new /\ new `sublist_of` files /\
    Forall (fun f => isPending (pf_path f) k = false) new /\
    jk_paused k' = jk_paused k /\ jk_armed k' = jk_armed k /\ jk_rotateCh k' = jk_rotateCh k /\
    (jk_backoff k' = jk_backoff k \/ jk_backoff k' = 0 /\ jk_pending k' = []).
Proof.
  assert (Hnil : [] `sublist_of` files) by apply sublist_nil_l.
  unfold archiveFiles. destruct (_ || _); [intros [= <- _]; exists []; rewrite app_nil_r; repeat split; auto|].
  destruct (archive_results e files _ d) as [d1 failed] eqn:E. apply archive_results_dirs in E as [_ E].
  assert (Hf : Forall (fun f => isPending (pf_path f) k = false)
                 (List.filter (fun f => negb (isPending (pf_path f) k)) failed)).
  { apply List.Forall_forall. intros f Hf. apply filter_In in Hf as [_ Hf]. now apply negb_true_iff. }
  pose proof (filter_sublist (fun f => negb (isPending (pf_path f) k)) failed) as Hs.
  destruct (List.filter _ failed) as [|g gs].
  - destruct (jk_pending k) eqn:Ep; intros [= <- _]; exists []; rewrite ?Ep, ?app_nil_r; repeat split; auto.
  - intros [= <- _]. exists (g :: gs). repeat split; auto. now transitivity failed.
Qed.

(** ** The scan *)

(** Why a file of a listing may be deleted: it and those after it are over the size
    cap, or it is too old, and besides archiving is off, or it is archived, or it
    failed to archive, the cap is exceeded and the policy is to delete. *)
Definition may_delete (e : Env) (k : JournalKeeper) (files : list journalFileInfo) (f : journalFileInfo) : Prop :=
  exists before after, files = before ++ f :: after /\
    (over_size (total_size (f :: after)) = true \/ too_old (ke_now e) (jf_created f) = true) /\
    (hasArchive cfg = false \/ jf_archived f = true \/
     (kc_OverflowPolicy cfg = OverflowDeleteUnarchived /\ isPending (jf_path f) k = true /\
      over_size (total_size (f :: after)) = true)).

Lemma scan_files_spec e k : forall files all ta np d ta' np' d',
  files `suffix_of` all -> scan_files e k files (total_size files) ta np d = (ta', np', d') ->
  disk_dirs d' = disk_dirs d /\
  (forall q, disk_files d' !! q = disk_files d !! q \/
     (disk_files d' !! q = None /\
      exists f, f ∈ files /\ (q = jf_path f \/ q = marker (jf_path f)) /\ may_delete e k all f)) /\
  exists new, ta' = ta ++ map makePending new /\ new `sublist_of` files /\
    Forall (fun f => isPending (jf_path f) k = false) new.
Proof.
  induction files as [|f files IH]; intros all ta np d ta' np' d' Hsuf; cbn [scan_files].
  { intros [= <- <- <-]. split; [done|]. split; [now left|]. exists []. rewrite app_nil_r. repeat split; constructor. }
  assert (Hsuf' : files `suffix_of` all) by (eapply suffix_cons_l; exact Hsuf).
  assert (Hstep : forall new1 np1 d1,
    (new1 = [] \/ new1 = [f] /\ isPending (jf_path f) k = false) -> disk_dirs d1 = disk_dirs d ->
    (forall q, disk_files d1 !! q = disk_files d !! q \/
       (disk_files d1 !! q = None /\ (q = jf_path f \/ q = marker (jf_path f)) /\ may_delete e k all f)) ->
    scan_files e k files (total_size (f :: files) - jf_size f) (ta ++ map makePending new1) np1 d1 = (ta', np', d') ->
    disk_dirs d' = disk_dirs d /\
    (forall q, disk_files d' !! q = disk_files d !! q \/
       (disk_files d' !! q = None /\
        exists g, g ∈ f :: files /\ (q = jf_path g \/ q = marker (jf_path g)) /\ may_delete e k all g)) /\
    exists new, ta' = ta ++ map makePending new /\ new `sublist_of` f :: files /\
      Forall (fun f => isPending (jf_path f) k = false) new).
  { intros new1 np1 d1 Hnew Hd Hq E. cbn [total_size foldr] in E.
    replace (jf_size f + foldr (fun f acc => jf_size f + acc) 0 files - jf_size f) with (total_size files) in E
      by (unfold total_size; lia).
    destruct (IH all _ _ _ _ _ _ Hsuf' E) as (H1 & H2 & new & -> & Hsub & Hp). split; [congruence|]. split.
    - intros q. destruct (H2 q) as [->|(-> & g & Hg & Hg')]; [|right; split; [done|]; exists g; split; [now right|done]].
      destruct (Hq q) as [->|(-> & Hg)]; [now left|]. right. split; [done|]. exists f. split; [now left|exact Hg].
    - exists (new1 ++ new). rewrite map_app, app_assoc. split; [done|]. destruct Hnew as [->|[-> Hf]].
      + split; [now apply sublist_cons|exact Hp].
      + split; [now apply sublist_skip|now constructor]. }
  assert (Hnil : ta ++ map makePending [] = ta) by apply app_nil_r.
  destruct (over_size (total_size (f :: files)) || too_old (ke_now e) (jf_created f)) eqn:Ehard.
  - apply orb_true_iff in Ehard. destruct Hsuf as [before Hall].
    destruct (hasArchive cfg && negb (jf_archived f)) eqn:Ea.
    + destruct (over_size (total_size (f :: files)) && isPending (jf_path f) k) eqn:Eo.
      * apply andb_prop in Eo as [Eo Ep]. destruct (kc_OverflowPolicy cfg) eqn:Epol.
        -- intros E. apply (Hstep [] np (deleteFile e (jf_path f) d)); [now left|apply deleteFile_dirs| |now rewrite Hnil].
           intros q. destruct (deleteFile_lookup e (jf_path f) d q) as [H|[H H']]; [now left|]. right.
           split; [done|]. split; [done|]. exists before, files. auto 10.
        -- intros E. apply (Hstep [] true d); [now left|done|now left|now rewrite Hnil].
      * destruct (isPending (jf_path f) k) eqn:Ep; cbn [negb].
        -- intros E. apply (Hstep [] np d); [now left|done|now left|now rewrite Hnil].
        -- intros E. apply (Hstep [f] np d); [now right|done|now left|exact E].
    + intros E. apply (Hstep [] np (deleteFile e (jf_path f) d)); [now left|apply deleteFile_dirs| |now rewrite Hnil].
      intros q. destruct (deleteFile_lookup e (jf_path f) d q) as [H|[H H']]; [now left|]. right.
      split; [done|]. split; [done|]. exists before, files. apply andb_false_iff in Ea as [->|H0%negb_false_iff]; auto.
  - destruct ((softThreshold =? 0) || _).
    all: intros E; injection E as <- <- <-; split; [done|]; split; [now left|].
    + exists []. rewrite app_nil_r. split; [done|]. split; [apply sublist_nil_l|constructor].
    + exists (List.filter (fun f => negb (jf_archived f) && negb (isPending (jf_path f) k)) (f :: files)).
      split; [reflexivity|]. split.
      * apply filter_sublist.
      * apply List.Forall_forall. intros g Hg. apply filter_In in Hg as [_ [_ Hg%negb_true_iff]%andb_prop]. exact Hg.
Qed.

Context (SortFunc_perm : forall l, SortFunc l ≡ₚ l).

Lemma ReadDir_elem dir d es name size : ReadDir dir d = Some es ->
  (name, size) ∈ es <-> disk_files d !! (dir, name) = Some size.
Proof.
  unfold ReadDir. case_bool_decide; [|done]. intros [= <-].
  rewrite merge_sort_Permutation, list_elem_of_omap. split.
  - intros ([p s] & Hp & E). apply elem_of_map_to_list in Hp. case_bool_decide as Ed; [|done].
    injection E as <- <-. destruct p as [a b]. cbn in *. now subst.
  - intros Hl. exists ((dir, name), size). split; [now apply elem_of_map_to_list|]. cbn.
    now rewrite bool_decide_eq_true_2.
Qed.

Lemma list_files_elem d kd es f : f ∈ list_files d kd es ->
  exists name size, (name, size) ∈ es /\ HasSuffix name ".lpj" = true /\ f = file_info d kd name size.
Proof.
  unfold list_files. rewrite list_elem_of_omap. intros ([name size] & Hin & E).
  destruct (HasSuffix name ".lpj") eqn:Es; [|done]. injection E as <-. eauto.
Qed.

(** The journal files of a directory as its scan goes through them, and the batch
    it hands to the script. *)
Definition scanned (w : World) (kd : KeeperDir) : list journalFileInfo :=
  match ReadDir (kd_Dir kd) (w_disk w) with None => [] | Some es => SortFunc (list_files (w_disk w) kd es) end.
Definition scan_batch (e : Env) (w : World) (kd : KeeperDir) : list pendingFile :=
  (scan_files e (w_keeper w) (scanned w kd) (total_size (scanned w kd)) [] false (w_disk w)).1.1.

(** A journal file, or its marker, that the scan of a directory has to remove. *)
Definition expired (e : Env) (w : World) (kd : KeeperDir) (q : path) : Prop :=
  exists f, (q = jf_path f \/ q = marker (jf_path f)) /\ HasSuffix (jf_path f).2 ".lpj" = true /\
    jf_archived f = isArchived (jf_path f) (w_disk w) /\ may_delete e (w_keeper w) (scanned w kd) f.

(** The marker of a file the script was given and vouched for. *)
Definition created (e : Env) (batch : list pendingFile) (q : path) : Prop := exists p, q = marker p /\ vouched e batch p.

Record scan_effect (e : Env) (w : World) (kd : KeeperDir) (w' : World) : Prop := {
  se_dirs : disk_dirs (w_disk w') = disk_dirs (w_disk w);
  se_files : forall q : path, disk_files (w_disk w') !! q = disk_files (w_disk w) !! q \/
    (q.1 = kd_Dir kd /\ ((disk_files (w_disk w') !! q = None /\ expired e w kd q) \/
                         (disk_files (w_disk w') !! q = Some 0 /\ created e (scan_batch e w kd) q)));
  se_pending : forall p : path, p.1 <> kd_Dir kd -> isPending p (w_keeper w') = isPending p (w_keeper w)
}.

Lemma isPending_app p k new k' : jk_pending k' = jk_pending k ++ new ->
  (forall f, f ∈ new -> pf_path f <> p) -> isPending p k' = isPending p k.
Proof.
  unfold isPending. intros -> Hn. rewrite existsb_app.
  assert (E : existsb (fun f => bool_decide (pf_path f = p)) new = false).
  { apply not_true_is_false. intros (f & Hf & H%bool_decide_eq_true)%existsb_exists.
    apply (Hn f); [now apply list_elem_of_In|done]. }
  rewrite E. apply orb_false_r.
Qed.

Lemma update_pause_disk kd np w : w_disk (update_pause kd np w) = w_disk w /\
  jk_pending (w_keeper (update_pause kd np w)) = jk_pending (w_keeper w).
Proof. unfold update_pause. now destruct (Bool.eqb _ _). Qed.

Lemma scan_member w kd es f : f ∈ SortFunc (list_files (w_disk w) kd es) ->
  (jf_path f).1 = kd_Dir kd /\ HasSuffix (jf_path f).2 ".lpj" = true /\
  jf_archived f = isArchived (jf_path f) (w_disk w).
Proof. rewrite SortFunc_perm. intros (name & size & _ & Hs & ->)%list_files_elem. done. Qed.

Lemma scanDir_effect e w kd : scan_effect e w kd (scanDir e w kd).
Proof.
  pose proof (scan_member w kd) as Hmem. assert (Hb : scan_batch e w kd = scan_batch e w kd) by done. revert Hb.
  unfold scanDir, scan_batch at 1. unfold scanned. destruct (ReadDir (kd_Dir kd) (w_disk w)) as [es|] eqn:Er; [|constructor; auto].
  cbv zeta. specialize (Hmem es). set (files := SortFunc _) in *.
  assert (Hfiles : scanned w kd = files) by (unfold scanned; now rewrite Er).
  destruct (scan_files e (w_keeper w) files (total_size files) [] false (w_disk w)) as [[ta np] d1] eqn:Es.
  destruct (scan_files_spec e (w_keeper w) files files _ _ _ _ _ _ (reflexivity files) Es)
    as (Hd1 & Hq1 & new & Eta & Hsub & Hp). cbn [app fst] in *. intros Hb.
  destruct (archiveFiles e ta (w_keeper w) d1) as [k2 d2] eqn:Ea.
  pose proof (archiveFiles_disk _ _ _ _ _ _ Ea) as [Hd2 Hq2].
  destruct (archiveFiles_pending _ _ _ _ _ _ Ea) as (add & Epend & Hadd & _).
  destruct (update_pause_disk kd np (mkWorld k2 d2 (w_notified w))) as [Ed Ep]. cbn in Ed, Ep.
  assert (Hta : forall f, f ∈ ta -> (pf_path f).1 = kd_Dir kd).
  { rewrite Eta. intros f (g & -> & Hg)%list_elem_of_fmap. apply Hmem.
    eapply elem_of_submseteq; [exact Hg|now apply sublist_submseteq]. }
  constructor.
  - rewrite Ed. congruence.
  - intros q. rewrite Ed. destruct (Hq2 q) as [->|(-> & f & Hf & -> & Hv)].
    + destruct (Hq1 q) as [->|(-> & f & Hf & Hqf & Hmay)]; [now left|]. right.
      destruct (Hmem f Hf) as (H1 & H2 & H3). split; [destruct Hqf as [->| ->]; exact H1|]. left. split; [done|].
      exists f. now rewrite Hfiles.
    + right. split; [exact (Hta f Hf)|]. right. split; [done|]. exists (pf_path f). now rewrite <- Hb.
  - intros p Hne. unfold isPending. rewrite Ep. fold (isPending p k2). change (isPending p k2 = isPending p (w_keeper w)).
    apply (isPending_app _ _ _ _ Epend). intros f Hf <-. apply Hne, Hta. eapply elem_of_submseteq; [exact Hf|now apply sublist_submseteq].
Qed.

(** What the scans of other directories leave alone. *)
Definition same_dir (dir : string) (w w' : World) : Prop := forall p : path, p.1 = dir ->
  disk_files (w_disk w') !! p = disk_files (w_disk w) !! p /\ isPending p (w_keeper w') = isPending p (w_keeper w).

Lemma scans_same_dir e dir : forall dirs w, dir ∉ map kd_Dir dirs -> same_dir dir w (foldl (scanDir e) w dirs).
Proof.
  induction dirs as [|kd dirs IH]; intros w Hd p Hp; [done|]. cbn [foldl map] in *.
  apply not_elem_of_cons in Hd as [Hne Hd]. destruct (scanDir_effect e w kd) as [_ Hf Hpe].
  destruct (IH (scanDir e w kd) Hd p Hp) as [-> ->].
  split; [destruct (Hf p) as [E|[E _]]; congruence|apply Hpe; congruence].
Qed.

(** The scan of one of the directories, after those before it. *)
Definition scan_turn (e : Env) (dirs : list KeeperDir) (w : World) (kd : KeeperDir) (w0 : World) : Prop :=
  exists before after, dirs = before ++ kd :: after /\ w0 = foldl (scanDir e) w before /\ same_dir (kd_Dir kd) w w0.

Lemma scanAll_effect e : forall dirs w, NoDup (map kd_Dir dirs) -> forall q : path,
  let w' := foldl (scanDir e) w dirs in
  disk_files (w_disk w') !! q = disk_files (w_disk w) !! q \/
  exists kd w0, scan_turn e dirs w kd w0 /\ q.1 = kd_Dir kd /\
    ((disk_files (w_disk w') !! q = None /\ expired e w0 kd q) \/
     (disk_files (w_disk w') !! q = Some 0 /\ created e (scan_batch e w0 kd) q)).
Proof.
  induction dirs as [|kd dirs IH] using rev_ind; intros w Hnd q; [now left|]. cbv zeta.
  rewrite map_app in Hnd. apply NoDup_app in Hnd as (Hnd & Hdis & _).
  rewrite foldl_app. cbn [foldl]. set (w1 := foldl (scanDir e) w dirs).
  assert (Hlast : scan_turn e (dirs ++ [kd]) w kd w1).
  { exists dirs, []. split; [done|]. split; [done|]. apply scans_same_dir. intros Hin. apply (Hdis _ Hin). now left. }
  destruct (se_files _ _ _ _ (scanDir_effect e w1 kd) q) as [->|(Hq & H)]; [|right; now exists kd, w1].
  destruct (IH w Hnd q) as [E|(kd0 & w0 & (before & after & -> & Hw0 & Hs) & Hq & H)]; [now left|right].
  exists kd0, w0. split; [|done]. exists before, (after ++ [kd]). split; [now rewrite <- app_assoc|done].
Qed.

Lemma string_app_inj_r s : forall a b, (a ++ s)%string = (b ++ s)%string -> a = b.
Proof.
  assert (Hlen : forall a b, String.length (a ++ b)%string = (String.length a + String.length b)%nat).
  { intros a b. induction a as [|c a IH]; [done|]. exact (f_equal S IH). }
  induction a as [|x a IH]; intros [|y b] E; [done|..].
  - apply (f_equal String.length) in E. rewrite !Hlen in E. cbn in E. lia.
  - apply (f_equal String.length) in E. rewrite !Hlen in E. cbn in E. lia.
  - change (String x (a ++ s) = String y (b ++ s))%string in E. injection E as -> E. f_equal. now apply IH.
Qed.

Lemma marker_inj p q : marker p = marker q -> p = q.
Proof. destruct p, q. unfold marker. cbn. intros [= -> E]. f_equal. now apply string_app_inj_r in E. Qed.

(** The batches an event hands to the script. *)
Definition alive_pending (w : World) : list pendingFile :=
  List.filter (fun f => exists_file (pf_path f) (w_disk w)) (jk_pending (w_keeper w)).
Definition handed (e : Env) (ev : event) (w : World) (batch : list pendingFile) : Prop :=
  match ev with
  | Rotation => exists rf rest size, jk_rotateCh (w_keeper w) = rf :: rest /\ disk_files (w_disk w) !! rf_Path rf = Some size /\
      batch = [mkPending (rf_Path rf) (rf_InstanceID rf) size (parseTimestampFromFilename (rf_Path rf).2)]
  | ScanTick => exists kd w0, scan_turn e (ke_dirs e) w kd w0 /\ batch = scan_batch e w0 kd
  | RetryTick => batch = alive_pending w
  | Sent _ => False
  end.

(** What one event does to each file: nothing, the removal of an expired one, or a
    marker the script vouched for. *)
Definition file_effect (e : Env) (ev : event) (w w' : World) : Prop := forall q : path,
  disk_files (w_disk w') !! q = disk_files (w_disk w) !! q \/
  (disk_files (w_disk w') !! q = None /\ ev = ScanTick /\ ke_done e = false /\
   exists kd w0, scan_turn e (ke_dirs e) w kd w0 /\ q.1 = kd_Dir kd /\ expired e w0 kd q) \/
  (disk_files (w_disk w') !! q = Some 0 /\ exists batch, handed e ev w batch /\ created e batch q).

Lemma archiving_effect e ev files w w' d' :
  archiving e files (w_disk w) d' -> handed e ev w files -> w_disk w' = d' -> file_effect e ev w w'.
Proof.
  intros [_ H] Hb E q. rewrite E. destruct (H q) as [Eq|(Eq & f & _ & -> & Hv)]; [now left|right; right]. split; [done|].
  exists files. split; [done|]. now exists (pf_path f).
Qed.

Lemma arm_disk w : w_disk (arm w) = w_disk w.
Proof. unfold arm. destruct (jk_pending (w_keeper w)); [done|]. now destruct (jk_armed (w_keeper w)). Qed.

Lemma rotation_effect e w w' : run_event e Rotation w = Some w' -> file_effect e Rotation w w'.
Proof.
  cbn [run_event]. unfold take_rotation. destruct (jk_rotateCh (w_keeper w)) as [|rf rest] eqn:Ech; [done|].
  cbn [mbind option_bind]. intros [= <-]. unfold handleRotation. cbn [with_keeper w_disk].
  assert (Hsame : forall w1, w_disk w1 = w_disk w -> file_effect e Rotation w (arm w1)).
  { intros w1 E q. left. now rewrite arm_disk, E. }
  destruct (kc_ArchiveTrigger cfg); try now apply Hsame.
  destruct (disk_files (w_disk w) !! rf_Path rf) as [size|] eqn:Ef; [|now apply Hsame].
  destruct (archiveFiles e _ _ (w_disk w)) as [k d] eqn:E. apply archiveFiles_disk in E.
  apply (archiving_effect _ _ _ _ _ _ E); [|apply arm_disk]. now exists rf, rest, size.
Qed.

Lemma retryArchive_effect e w w' : w_disk w' = w_disk (retryArchive e w) -> file_effect e RetryTick w w'.
Proof.
  unfold retryArchive. intros E'. destruct (jk_pending (w_keeper w)) eqn:Ep; [intros q; left; now rewrite E'|].
  rewrite <- Ep in E'. fold (alive_pending w) in E'. destruct (alive_pending w) as [|f fs] eqn:Ea; [intros q; left; now rewrite E'|].
  destruct (archive_results e (f :: fs) _ (w_disk w)) as [d failed] eqn:E. apply archive_results_archiving in E.
  apply (archiving_effect _ _ _ _ _ _ E); [exact (eq_sym Ea)|exact E'].
Qed.

Lemma event_effect e ev w w' : NoDup (map kd_Dir (ke_dirs e)) -> run_event e ev w = Some w' -> file_effect e ev w w'.
Proof.
  intros Hnd Hev. destruct ev as [| | |rf]; [now apply rotation_effect|..]; cbn [run_event] in Hev.
  - injection Hev as <-. unfold scanAll. intros q. rewrite arm_disk. destruct (ke_done e) eqn:Ed; [now left|].
    destruct (scanAll_effect e (ke_dirs e) w Hnd q) as [E|(kd & w0 & Ht & Hq & [[E Hx]|[E Hx]])]; [now left|right; left|right; right].
    + split; [done|]. split; [done|]. split; [done|]. now exists kd, w0.
    + split; [done|]. exists (scan_batch e w0 kd). split; [|done]. now exists kd, w0.
  - destruct (jk_armed (w_keeper w)); [|done]. injection Hev as <-. apply retryArchive_effect. now rewrite arm_disk.
  - injection Hev as <-. intros q. now left.
Qed.

(** C25: The keeper deletes only what has expired, and nothing unarchived that
    should have been archived, as far as the script's answers tell. In every event
    of the main loop, with distinct directories: a file disappears only in a scan
    that was not cancelled, and it is a journal file (or the marker of one) of the
    listing its directory's scan goes through, of which either the file and those
    after it together exceed the size cap, or its age exceeds the maximum and the
    minimum to keep; and besides archiving is off, or it is marked as archived, or
    it had failed to archive, the size cap is exceeded and the policy is to delete
    such files. A marker appears only for a file of a batch that this event hands to
    the script - the rotated file, the scan's batch, or the pending files that still
    exist - and only if the script's answer at that file's place in the batch is ok.
    Answers are matched by place, not by the path they carry, so a script that
    leaves one out vouches for another file ([answer_misattributed]). *)
Theorem deletions_justified e ev w w' :
  NoDup (map kd_Dir (ke_dirs e)) -> run_event e ev w = Some w' ->
  (forall q : path, is_Some (disk_files (w_disk w) !! q) -> disk_files (w_disk w') !! q = None ->
     ev = ScanTick /\ ke_done e = false /\ exists kd w0, scan_turn e (ke_dirs e) w kd w0 /\ q.1 = kd_Dir kd /\ expired e w0 kd q) /\
  (forall p, isArchived p (w_disk w') = true ->
     isArchived p (w_disk w) = true \/ exists batch, handed e ev w batch /\ vouched e batch p).
Proof.
  intros Hnd Hev. pose proof (event_effect e ev w w' Hnd Hev) as Heff. split.
  - intros q [s Hs] Hn. destruct (Heff q) as [E|[(_ & H)|(E & _)]]; [congruence|exact H|congruence].
  - intros p. unfold isArchived, exists_file.
    destruct (Heff (marker p)) as [->|[(-> & _)|(_ & batch & Hb & p' & ->%marker_inj & Hv)]]; [now left| |right; now exists batch].
    intros [x Hx]%bool_decide_eq_true. done.
Qed.

(** ** Names in a listing *)

Lemma NoDup_omap {A B} (f : A -> option B) l :
  NoDup l -> (forall x y z, f x = Some z -> f y = Some z -> x = y) -> NoDup (omap f l).
Proof.
  intros Hl Hinj. induction Hl as [|x l Hx Hl IH]; cbn; [constructor|]. destruct (f x) as [z|] eqn:E; [|exact IH].
  constructor; [|exact IH]. rewrite list_elem_of_omap. intros (y & Hy & Ey). now rewrite (Hinj x y z) in Hx.
Qed.

Lemma ReadDir_NoDup dir d es : ReadDir dir d = Some es -> NoDup es.*1.
Proof.
  intros Er. apply NoDup_fmap_fst.
  - intros n s1 s2 H1 H2. apply (ReadDir_elem dir d es n) in H1; [|exact Er].
    apply (ReadDir_elem dir d es n) in H2; [|exact Er]. congruence.
  - unfold ReadDir in Er. case_bool_decide; [|done]. injection Er as <-.
    rewrite merge_sort_Permutation. apply NoDup_omap; [apply NoDup_map_to_list|].
    intros [[a b] s] [[a' b'] s'] z. cbn. repeat case_bool_decide; try done. intros [= <-] [= <- <-]. congruence.
Qed.

Lemma list_files_NoDup d kd es : NoDup es.*1 -> NoDup (map jf_path (list_files d kd es)).
Proof.
  unfold list_files. induction es as [|[name size] es IH]; cbn; [constructor|]. intros Hnd.
  inversion Hnd as [|? ? Hn Hnd']; subst. destruct (HasSuffix name ".lpj"); [|now apply IH].
  cbn. constructor; [|now apply IH]. intros (f & E & Hf)%list_elem_of_fmap.
  apply list_files_elem in Hf as (n & s & Hin & _ & ->). cbn in E. injection E as <-.
  apply Hn, list_elem_of_fmap. now exists (name, s).
Qed.

Lemma scan_NoDup d kd es : ReadDir (kd_Dir kd) d = Some es -> NoDup (map jf_path (SortFunc (list_files d kd es))).
Proof. intros Er. rewrite SortFunc_perm. apply list_files_NoDup. now apply ReadDir_NoDup in Er. Qed.

Lemma marker_not_journal p : HasSuffix (marker p).2 ".lpj" = false.
Proof.
  unfold marker, HasSuffix. cbn [snd].
  assert (Hlen : forall a b, String.length (a ++ b)%string = (String.length a + String.length b)%nat).
  { intros a b. induction a as [|c a IH]; [done|]. exact (f_equal S IH). }
  rewrite Hlen. apply andb_false_iff. right. apply bool_decide_eq_false. cbn [String.length].
  replace (String.length p.2 + 9 - 4)%nat with (String.length p.2 + 5)%nat by lia.
  assert (E : forall s n m, String.substring (String.length s + n) m (s ++ ".archived")%string
                            = String.substring n m ".archived").
  { intros s n m. induction s as [|c s IH]; [done|]. exact IH. }
  rewrite E. done.
Qed.

(** ** Retention *)

Context (SortFunc_sorted : forall l, StronglySorted (fun a b => jf_created a <= jf_created b) (SortFunc l)).

Definition delete_all (e : Env) (files : list journalFileInfo) (d : Disk) : Disk :=
  foldl (fun d f => deleteFile e (jf_path f) d) d files.

Lemma delete_all_other e files : forall d q,
  (forall f, f ∈ files -> q <> jf_path f /\ q <> marker (jf_path f)) ->
  disk_files (delete_all e files d) !! q = disk_files d !! q.
Proof.
  induction files as [|f files IH]; intros d q Hq; [done|]. cbn [delete_all foldl].
  change (disk_files (delete_all e files (deleteFile e (jf_path f) d)) !! q = disk_files d !! q).
  rewrite IH by (intros g Hg; apply Hq; now right).
  destruct (deleteFile_lookup e (jf_path f) d q) as [H|[_ H]]; [exact H|].
  assert (Hf : f ∈ f :: files) by now left. destruct (Hq f Hf). tauto.
Qed.

Lemma deleteFile_gone e p d : (forall q, ke_remove e q = true) -> disk_files (deleteFile e p d) !! p = None.
Proof.
  intros Hr. unfold deleteFile, Remove at 1.
  assert (Hk : forall d' : Disk, disk_files d' !! p = None -> disk_files (Remove e (marker p) d').1 !! p = None).
  { intros d' Hn. destruct (Remove_lookup e (marker p) d' p) as [->|[-> _]]; done. }
  destruct (disk_files d !! p) eqn:E; [rewrite Hr|]; apply Hk; [cbn; now rewrite lookup_delete_eq|exact E].
Qed.

Lemma delete_all_gone e files : forall d f, (forall q, ke_remove e q = true) -> f ∈ files ->
  disk_files (delete_all e files d) !! jf_path f = None.
Proof.
  assert (Hkeep : forall files d (q : path), disk_files d !! q = None -> disk_files (delete_all e files d) !! q = None).
  { clear files. induction files as [|g files IH]; intros d q Hn; [exact Hn|]. apply IH.
    destruct (deleteFile_lookup e (jf_path g) d q) as [->|[-> _]]; done. }
  induction files as [|g files IH]; intros d f Hr; [now intros Hf%elem_of_nil|].
  intros [->|Hf]%elem_of_cons; [|now apply IH]. apply (Hkeep files). now apply deleteFile_gone.
Qed.

Lemma scan_files_retain e k : forall files ta np d, hasArchive cfg = false ->
  exists gone kept, files = gone ++ kept /\
    scan_files e k files (total_size files) ta np d = (ta, np, delete_all e gone d) /\
    (forall f b, kept = f :: b -> over_size (total_size kept) = false /\ too_old (ke_now e) (jf_created f) = false) /\
    (forall a f b, gone = a ++ f :: b ->
       over_size (total_size (f :: b ++ kept)) = true \/ too_old (ke_now e) (jf_created f) = true).
Proof.
  intros files ta np d Ha. revert d. induction files as [|f files IH]; intros d.
  { exists [], []. split; [done|]. split; [done|]. split; [intros ? ? [=]|intros [|? ?] ? ? [=]]. }
  cbn [scan_files]. destruct (over_size (total_size (f :: files)) || too_old (ke_now e) (jf_created f)) eqn:Eh.
  - rewrite Ha. cbn [andb]. cbv iota beta.
    replace (total_size (f :: files) - jf_size f) with (total_size files) by (unfold total_size; cbn; lia).
    destruct (IH (deleteFile e (jf_path f) d)) as (gone & kept & -> & -> & Hk & Hg).
    exists (f :: gone), kept. split; [done|]. split; [done|]. split; [exact Hk|].
    intros [|a0 a] g b [= -> E]; [subst b; now apply orb_true_iff|now apply (Hg a)].
  - unfold softThreshold. rewrite Ha, andb_false_r. cbn [andb].
    change ((0 =? 0) || (total_size (f :: files) <=? 0)) with true. cbv iota.
    apply orb_false_iff in Eh as [E1 E2].
    exists [], (f :: files). split; [done|]. split; [done|].
    split; [intros g b [= <- _]; now split|intros [|? ?] ? ? [=]].
Qed.

Lemma too_old_mono now a b : a <= b -> too_old now b = true -> too_old now a = true.
Proof.
  unfold too_old, time_Sub. intros Hab [[H1 H2]%andb_prop H3]%andb_prop. rewrite H1. cbn [andb].
  rewrite Z.gtb_ltb in H2. apply Z.ltb_lt in H2. apply andb_true_intro. split; [rewrite Z.gtb_ltb; apply Z.ltb_lt; lia|].
  apply orb_prop in H3 as [->|H3]; [done|]. rewrite Z.gtb_ltb in H3. apply Z.ltb_lt in H3. apply orb_true_iff. right.
  rewrite Z.gtb_ltb. apply Z.ltb_lt. lia.
Qed.

(** Retention.  Without archiving, a scan splits the journal files of a
    directory, oldest first, into those it deletes and those it leaves untouched:
    what is left fits the size cap and holds nothing too old, and each deleted
    file was too old or, with the newer ones, over the cap. *)
Theorem scanDir_retention e w kd es :
  hasArchive cfg = false -> (forall p, ke_remove e p = true) -> ReadDir (kd_Dir kd) (w_disk w) = Some es ->
  let w' := scanDir e w kd in
  exists gone kept, SortFunc (list_files (w_disk w) kd es) = gone ++ kept /\
    (forall f, f ∈ gone -> disk_files (w_disk w') !! jf_path f = None) /\
    (forall f, f ∈ kept -> disk_files (w_disk w') !! jf_path f = disk_files (w_disk w) !! jf_path f) /\
    (0 < kc_MaxSize cfg -> total_size kept <= kc_MaxSize cfg) /\
    (forall f, f ∈ kept -> too_old (ke_now e) (jf_created f) = false) /\
    (forall a f b, gone = a ++ f :: b ->
       over_size (total_size (f :: b ++ kept)) = true \/ too_old (ke_now e) (jf_created f) = true).
Proof.
  intros Ha Hr Er. cbv zeta. pose proof (scan_NoDup _ _ _ Er) as Hnd. pose proof (scan_member w kd es) as Hmem.
  pose proof (SortFunc_sorted (list_files (w_disk w) kd es)) as Hsort.
  unfold scanDir. rewrite Er. cbv zeta. set (files := SortFunc _) in *. clearbody files.
  destruct (scan_files_retain e (w_keeper w) files [] false (w_disk w) Ha) as (gone & kept & -> & -> & Hk & Hg).
  cbv iota beta.
  assert (Hd : forall k, archiveFiles e [] k (delete_all e gone (w_disk w)) = (k, delete_all e gone (w_disk w))) by done.
  rewrite Hd. rewrite (proj1 (update_pause_disk _ _ _)). cbn [w_disk].
  exists gone, kept. split; [done|]. split; [intros f Hf; now apply delete_all_gone|].
  split; [|split; [|split; [|exact Hg]]].
  - intros f Hf. apply delete_all_other. intros g Hg'. rewrite map_app in Hnd.
    apply NoDup_app in Hnd as (_ & Hdis & _). split.
    + intros E. apply (Hdis (jf_path g)); [now apply list_elem_of_fmap_2|]. rewrite <- E. now apply list_elem_of_fmap_2.
    + intros E. assert (Hf' : f ∈ gone ++ kept) by (apply elem_of_app; now right).
      destruct (Hmem f Hf') as (_ & Hs & _).
      rewrite E, marker_not_journal in Hs. done.
  - intros Hpos. destruct kept as [|f b]; [cbn; lia|]. destruct (Hk f b eq_refl) as [Ho _].
    unfold over_size in Ho. rewrite (proj2 (Z.ltb_lt _ _) Hpos), Z.gtb_ltb in Ho. cbn [andb] in Ho.
    now apply Z.ltb_ge in Ho.
  - intros f Hf. destruct kept as [|g b]; [now apply elem_of_nil in Hf|]. destruct (Hk g b eq_refl) as [_ Ho].
    apply not_true_is_false. intros Hold. apply elem_of_cons in Hf as [->|Hf]; [congruence|].
    rewrite (too_old_mono (ke_now e) (jf_created g) (jf_created f)) in Ho; [done| |exact Hold].
    apply StronglySorted_app_1_r in Hsort. inversion Hsort as [|? ? _ Hall]; subst. rewrite List.Forall_forall in Hall.
    apply Hall. now apply list_elem_of_In.
Qed.

(** ** The invariant of the keeper *)

(** The pause states the calls of [OnPauseChange] add up to. *)
Definition told (log : list (KeeperDir * bool)) : gmap string bool :=
  foldl (fun m '(kd, b) => <[kd_Dir kd := b]> m) ∅ log.

Record keeper_ok (w : World) : Prop := {
  ko_pending : NoDup (map pf_path (jk_pending (w_keeper w)));
  ko_backoff : jk_backoff (w_keeper w) = 0 \/ keeperInitialBackoff <= jk_backoff (w_keeper w) <= keeperMaxBackoff;
  ko_armed : jk_armed (w_keeper w) = true -> jk_pending (w_keeper w) <> [] /\ jk_backoff (w_keeper w) <> 0;
  ko_told : jk_paused (w_keeper w) = told (w_notified w);
  ko_changes : forall l kd b l', w_notified w = l ++ (kd, b) :: l' -> default false (told l !! kd_Dir kd) = negb b
}.

Lemma isPending_spec p k : isPending p k = false <-> p ∉ map pf_path (jk_pending k).
Proof.
  unfold isPending. rewrite <- not_true_iff_false, existsb_exists. split; intros H H'; apply H; clear H.
  - apply list_elem_of_fmap in H' as (f & -> & Hf). exists f. split; [now apply list_elem_of_In|].
    now apply bool_decide_eq_true.
  - destruct H' as (f & Hf & <-%bool_decide_eq_true). apply list_elem_of_fmap_2. now apply list_elem_of_In.
Qed.

(** A batch without repeated paths keeps the state in order. *)
Lemma archiveFiles_ok e files w k' d' : keeper_ok w -> NoDup (map pf_path files) ->
  archiveFiles e files (w_keeper w) (w_disk w) = (k', d') -> keeper_ok (mkWorld k' d' (w_notified w)).
Proof.
  intros [H1 H2 H3 H4 H5] Hnd E.
  destruct (archiveFiles_pending _ _ _ _ _ _ E) as (new & Ep & Hsub & Hnew & Epa & Ear & _ & Hb).
  constructor; cbn [w_keeper w_notified]; try rewrite Ep; try rewrite Epa; try rewrite Ear; try assumption.
  - rewrite map_app. apply NoDup_app. split; [exact H1|]. split.
    + intros p Hp (f & -> & Hf)%list_elem_of_fmap. rewrite Forall_forall in Hnew. specialize (Hnew f Hf).
      now apply isPending_spec in Hnew.
    + eapply sublist_NoDup; [exact Hnd|]. now apply fmap_sublist.
  - destruct Hb as [->|[-> _]]; [exact H2|now left].
  - intros Ha. destruct (H3 Ha) as [Hne Hb0]. destruct Hb as [->|[_ Hnil]].
    + split; [|exact Hb0]. destruct (jk_pending (w_keeper w)); [done|]. discriminate.
    + rewrite Ep in Hnil. destruct (jk_pending (w_keeper w)); [done|]. discriminate.
Qed.

Lemma told_app log kd b : told (log ++ [(kd, b)]) = <[kd_Dir kd := b]> (told log).
Proof. unfold told. now rewrite foldl_app. Qed.

Lemma update_pause_ok kd np w : keeper_ok w -> keeper_ok (update_pause kd np w).
Proof.
  intros [H1 H2 H3 H4 H5]. unfold update_pause. destruct (Bool.eqb np _) eqn:E; [now constructor|].
  apply eqb_false_iff in E. constructor; cbn [w_keeper w_notified jk_pending jk_backoff jk_armed jk_paused]; try assumption.
  - now rewrite told_app, H4.
  - intros l kd' b l' El. destruct l' as [|x l' _] using rev_ind.
    + apply app_inj_tail in El as [<- [= <- <-]]. rewrite <- H4. destruct np, (default false (jk_paused (w_keeper w) !! kd_Dir kd)); done.
    + rewrite app_comm_cons, app_assoc in El. apply app_inj_tail in El as [El _]. now apply (H5 l kd' b l').
Qed.

Lemma scanDir_ok e w kd : keeper_ok w -> keeper_ok (scanDir e w kd).
Proof.
  intros Hok. unfold scanDir. destruct (ReadDir (kd_Dir kd) (w_disk w)) as [es|] eqn:Er; [|exact Hok].
  cbv zeta. pose proof (scan_NoDup _ _ _ Er) as Hnd. set (files := SortFunc _) in *.
  destruct (scan_files e (w_keeper w) files (total_size files) [] false (w_disk w)) as [[ta np] d1] eqn:Es.
  destruct (scan_files_spec e (w_keeper w) files files _ _ _ _ _ _ (reflexivity files) Es)
    as (_ & _ & new & Eta & Hsub & _). cbn [app] in Eta.
  destruct (archiveFiles e ta (w_keeper w) d1) as [k2 d2] eqn:Ea. apply update_pause_ok.
  apply (archiveFiles_ok e ta (mkWorld (w_keeper w) d1 (w_notified w))); [now destruct Hok| |exact Ea].
  rewrite Eta, map_map. eapply sublist_NoDup; [exact Hnd|]. exact (fmap_sublist jf_path _ _ Hsub).
Qed.

Lemma scanAll_ok e w : keeper_ok w -> keeper_ok (scanAll e w).
Proof.
  intros Hok. unfold scanAll. destruct (ke_done e); [exact Hok|]. revert w Hok.
  induction (ke_dirs e) as [|kd dirs IH]; intros w Hok; [exact Hok|]. cbn. apply IH. now apply scanDir_ok.
Qed.

Lemma handleRotation_ok e rf w : keeper_ok w -> keeper_ok (handleRotation e rf w).
Proof.
  intros Hok. unfold handleRotation. destruct (kc_ArchiveTrigger cfg); try exact Hok.
  destruct (disk_files (w_disk w) !! rf_Path rf); [|exact Hok].
  destruct (archiveFiles e _ (w_keeper w) (w_disk w)) as [k d] eqn:E.
  eapply archiveFiles_ok; [exact Hok| |exact E]. cbn. apply NoDup_singleton.
Qed.

Lemma unarchived_paths w kd : NoDup (map pf_path (unarchived_in w kd)) /\
  Forall (fun f => (pf_path f).1 = kd_Dir kd) (unarchived_in w kd).
Proof.
  unfold unarchived_in. destruct (ReadDir (kd_Dir kd) (w_disk w)) as [es|] eqn:Er; [|split; constructor].
  pose proof (filter_sublist (fun f => negb (jf_archived f) && negb (isPending (jf_path f) (w_keeper w)))
    (list_files (w_disk w) kd es)) as Hs. split.
  - rewrite map_map. eapply sublist_NoDup; [|exact (fmap_sublist jf_path _ _ Hs)].
    apply list_files_NoDup. now apply ReadDir_NoDup in Er.
  - apply Forall_fmap, Forall_forall. intros f Hf.
    apply sublist_submseteq, (elem_of_submseteq _ _ f Hf) in Hs.
    now apply list_files_elem in Hs as (n & s & _ & _ & ->).
Qed.

Lemma sweep_paths w : forall dirs, NoDup (map kd_Dir dirs) ->
  NoDup (map pf_path (flat_map (unarchived_in w) dirs)) /\
  Forall (fun f => (pf_path f).1 ∈ map kd_Dir dirs) (flat_map (unarchived_in w) dirs).
Proof.
  induction dirs as [|kd dirs IH]; [repeat constructor|]. cbn. intros Hnd. inversion Hnd as [|? ? Hni Hnd']; subst.
  destruct (IH Hnd') as [IH1 IH2]. destruct (unarchived_paths w kd) as [H1 H2]. split.
  - rewrite map_app. apply NoDup_app. split; [exact H1|]. split; [|exact IH1].
    intros p (f & -> & Hf)%list_elem_of_fmap (g & E & Hg)%list_elem_of_fmap. rewrite Forall_forall in H2, IH2.
    specialize (H2 f Hf). specialize (IH2 g Hg). rewrite <- E, H2 in IH2. done.
  - apply Forall_app. split; (eapply Forall_impl; [eassumption|]); cbn; intros f Hf; [rewrite Hf; now left|now right].
Qed.

Lemma archiveUnarchived_ok e w : NoDup (map kd_Dir (ke_dirs e)) -> keeper_ok w -> keeper_ok (archiveUnarchived e w).
Proof.
  intros Hnd Hok. unfold archiveUnarchived. destruct (_ || ke_done e); [exact Hok|].
  destruct (archiveFiles e _ (w_keeper w) (w_disk w)) as [k d] eqn:E.
  eapply archiveFiles_ok; [exact Hok| |exact E]. now apply sweep_paths.
Qed.

Lemma arm_ok w : keeper_ok w -> keeper_ok (arm w).
Proof.
  intros Hok. unfold arm. destruct (jk_pending (w_keeper w)) as [|f fs] eqn:Ep; [exact Hok|].
  destruct (jk_armed (w_keeper w)); [exact Hok|]. destruct Hok as [H1 H2 H3 H4 H5].
  constructor; cbn; try assumption; [rewrite Ep in H1; exact H1|..].
  - destruct (Z.eqb_spec (jk_backoff (w_keeper w)) 0); [right; unfold keeperInitialBackoff, keeperMaxBackoff, hour, minute, second; lia|exact H2].
  - intros _. split; [done|]. destruct (Z.eqb_spec (jk_backoff (w_keeper w)) 0); [unfold keeperInitialBackoff, minute, second; lia|done].
Qed.

(** A retry, with its timer stopped. *)
Lemma retry_ok e w : keeper_ok w -> jk_armed (w_keeper w) = true -> keeper_ok (disarm (retryArchive e w)).
Proof.
  intros [H1 H2 H3 H4 H5] Harm. destruct (H3 Harm) as [Hne Hb]. unfold retryArchive.
  destruct (jk_pending (w_keeper w)) as [|f0 fs0] eqn:Ep; [done|]. rewrite <- Ep in *.
  pose proof (filter_sublist (fun f => exists_file (pf_path f) (w_disk w)) (jk_pending (w_keeper w))) as Hs.
  destruct (List.filter _ (jk_pending (w_keeper w))) as [|f fs]; [constructor; cbn; try assumption; [constructor|now left|done]|].
  destruct (archive_results e (f :: fs) _ (w_disk w)) as [d failed] eqn:Ea.
  apply archive_results_dirs in Ea as [_ Hsub].
  constructor; cbn; try assumption; [|clear -H2 Hb|done].
  - eapply sublist_NoDup; [exact H1|]. apply (fmap_sublist pf_path). now transitivity (f :: fs).
  - destruct failed; [now left|]. right. unfold keeperInitialBackoff, keeperMaxBackoff, hour, minute, second in *. lia.
Qed.

(** The keeper stays in order.  In every reachable state no file is pending
    twice, the retry delay is unset or between a minute and an hour, the retry
    timer runs only with something to retry, and the pause state of each directory
    is what the last callback told, each callback announcing a change. *)
Theorem keeper_invariant d0 w : reachable d0 w -> keeper_ok w.
Proof.
  induction 1 as [e Hnd|w e ev w' _ IH Hnd Hev].
  - apply archiveUnarchived_ok; [exact Hnd|]. apply scanAll_ok. constructor; cbn; [constructor|now left|done|done|].
    intros [|? ?] ? ? ? [=].
  - destruct ev as [| | |rf]; cbn [run_event] in Hev.
    + unfold take_rotation in Hev. destruct (jk_rotateCh (w_keeper w)); [done|]. injection Hev as <-.
      apply arm_ok, handleRotation_ok. now destruct IH.
    + injection Hev as <-. now apply arm_ok, scanAll_ok.
    + destruct (jk_armed (w_keeper w)) eqn:Ea; [|done]. injection Hev as <-. apply arm_ok. now apply retry_ok.
    + injection Hev as <-. unfold Send. destruct (_ <? 64)%nat; now destruct IH.
Qed.

(** ** Retries *)

Definition answers_ok (e : Env) : Prop :=
  forall batch i f, batch !! i = Some f -> exists r, ke_script e batch !! i = Some r /\ response_ok r = true.

Lemma archive_results_all e files : forall results d,
  (forall p, ke_create e p = true) ->
  (forall i f, files !! i = Some f -> exists r, results !! i = Some r /\ response_ok r = true) ->
  exists d', archive_results e files results d = (d', []) /\
    forall p : path, is_Some (disk_files d !! p) \/ (exists f, f ∈ files /\ p = marker (pf_path f)) ->
      is_Some (disk_files d' !! p).
Proof.
  induction files as [|f files IH]; intros results d Hc Hr; cbn [archive_results].
  - exists d. split; [done|]. intros p [H|(f & Hf & _)]; [exact H|]. now apply elem_of_nil in Hf.
  - destruct (Hr 0%nat f eq_refl) as (r & Er & Ok). destruct results as [|r' results]; [done|]. injection Er as ->.
    cbn [head tail]. rewrite Ok.
    destruct (IH results (markArchived e (pf_path f) d) Hc (fun i g Hg => Hr (S i) g Hg)) as (d' & -> & Hd').
    exists d'. split; [done|]. intros p Hp. apply Hd'. unfold markArchived. rewrite Hc. cbn.
    destruct (decide (p = marker (pf_path f))) as [->|Hne]; [left; rewrite lookup_insert_eq; eauto|].
    destruct Hp as [Hp|(g & Hg & ->)]; [left; now rewrite lookup_insert_ne by congruence|].
    apply elem_of_cons in Hg as [->|Hg]; [done|]. right. eauto.
Qed.

(** C32: a retry that the script answers finishes the work.  When the retry timer
    fires and the script archives what it is given, nothing stays pending, the
    delay is reset, the timer is off, and every pending file that still exists is
    marked as archived. *)
Theorem retry_archives e w :
  keeper_ok w -> jk_armed (w_keeper w) = true -> answers_ok e -> (forall p, ke_create e p = true) ->
  exists w', run_event e RetryTick w = Some w' /\ jk_pending (w_keeper w') = [] /\ jk_backoff (w_keeper w') = 0 /\
    jk_armed (w_keeper w') = false /\
    forall f, f ∈ jk_pending (w_keeper w) -> exists_file (pf_path f) (w_disk w) = true ->
      isArchived (pf_path f) (w_disk w') = true.
Proof.
  intros [_ _ H3 _ _] Harm Hok Hc. destruct (H3 Harm) as [Hne _]. cbn [run_event]. rewrite Harm.
  eexists. split; [reflexivity|]. unfold retryArchive.
  destruct (jk_pending (w_keeper w)) as [|f0 fs0] eqn:Ep; [done|]. rewrite <- Ep.
  destruct (List.filter _ (jk_pending (w_keeper w))) as [|f fs] eqn:Ef.
  - cbn. repeat split; try reflexivity. intros f Hf Hx. exfalso.
    assert (Hin : f ∈ List.filter (fun f => exists_file (pf_path f) (w_disk w)) (jk_pending (w_keeper w)))
      by (apply list_elem_of_In, filter_In; split; [now apply list_elem_of_In|exact Hx]).
    rewrite Ef in Hin. now apply elem_of_nil in Hin.
  - destruct (archive_results_all e (f :: fs) (ke_script e (f :: fs)) (w_disk w) Hc (Hok (f :: fs)))
      as (d' & -> & Hd'). cbn. repeat split; try reflexivity. intros g Hg Hx.
    unfold isArchived, exists_file. apply bool_decide_eq_true. apply Hd'. right. exists g. split; [|done].
    rewrite <- Ef. apply list_elem_of_In, filter_In. split; [now apply list_elem_of_In|exact Hx].
Qed.

End keeper.

(** * On a concrete disk *)

Definition older (a b : journalFileInfo) : Prop := jf_created a <= jf_created b.
#[global] Instance older_dec a b : Decision (older a b).
Proof. unfold older. apply _. Defined.
#[global] Instance older_trans : Transitive older.
Proof. intros a b c. unfold older. lia. Qed.
#[global] Instance older_total : Total older.
Proof. intros a b. unfold older. lia. Qed.

(** An order [slices.SortFunc] may give: insertion keeps equal elements in place. *)
Definition demo_sort : list journalFileInfo -> list journalFileInfo := merge_sort older.

Lemma demo_sort_perm l : demo_sort l ≡ₚ l.
Proof. apply merge_sort_Permutation. Qed.

Lemma demo_sort_sorted l : StronglySorted (fun a b => jf_created a <= jf_created b) (demo_sort l).
Proof. apply (StronglySorted_merge_sort older). Qed.

Definition demo_path (n : string) : path := ("/j"%string, n).
Definition demo_a : path := demo_path "nmea2k-20260302T140000.000Z.lpj".
Definition demo_b : path := demo_path "nmea2k-20260302T150000.000Z.lpj".
Definition demo_c : path := demo_path "backfill-20260301T090000.250Z.lpj".
Definition demo_disk : Disk := mkDisk {["/j"%string]} {[demo_a := 60; demo_b := 50; demo_c := 30]}.

Definition demo_keeper_cfg (policy : OverflowPolicy) (command : string) : KeeperConfig :=
  mkKeeperConfig 0 0 100 80 policy command ArchiveOnRotate.

Definition demo_env (script : list pendingFile -> list archiveResponse) : Env :=
  mkEnv (time_Date 2026 3 2 16 0 0 0) [mkKeeperDir "/j" "boat"] false script (fun _ => true) (fun _ => true).

Definition all_ok (fs : list pendingFile) : list archiveResponse := map (fun _ => mkResponse "" "ok" "") fs.
Definition none_ok (fs : list pendingFile) : list archiveResponse := [].

Lemma demo_dirs script : NoDup (map kd_Dir (ke_dirs (demo_env script))).
Proof. apply NoDup_singleton. Qed.

Definition demo_cfg := demo_keeper_cfg OverflowDeleteUnarchived "/bin/archive".

(** A start during which the script answers nothing: all files stay pending. *)
Definition demo_started : World := startup demo_cfg demo_sort (demo_env none_ok) (mkWorld NewJournalKeeper demo_disk []).

Lemma demo_started_reachable : reachable demo_cfg demo_sort demo_disk demo_started.
Proof. apply reach_start, demo_dirs. Qed.

Lemma keeper_invariant_witness : keeper_ok demo_started /\
  map pf_path (jk_pending (w_keeper demo_started)) = [demo_c; demo_a; demo_b].
Proof.
  split; [|vm_compute; reflexivity].
  exact (keeper_invariant demo_cfg demo_sort demo_sort_perm demo_disk demo_started demo_started_reachable).
Defined.

(** The next scan is over the cap: it deletes the oldest files, which failed to
    archive. *)
Definition demo_scanned : World := arm (scanAll demo_cfg demo_sort (demo_env none_ok) demo_started).

Lemma deletions_justified_witness :
  disk_files (w_disk demo_scanned) !! demo_c = None /\
  exists kd w0, scan_turn demo_cfg demo_sort (demo_env none_ok) [mkKeeperDir "/j" "boat"] demo_started kd w0 /\ "/j"%string = kd_Dir kd /\
    expired demo_cfg demo_sort (demo_env none_ok) w0 kd demo_c.
Proof.
  assert (Hgone : disk_files (w_disk demo_scanned) !! demo_c = None) by (vm_compute; reflexivity).
  split; [exact Hgone|].
  refine (proj2 (proj2 (proj1 (deletions_justified demo_cfg demo_sort demo_sort_perm (demo_env none_ok) ScanTick demo_started
    demo_scanned (demo_dirs none_ok) eq_refl) demo_c _ Hgone))).
  vm_compute. eauto.
Defined.

(** Without an archive script the scan keeps the newest files that fit. *)
Definition demo_plain := demo_keeper_cfg OverflowDeleteUnarchived "".
Definition demo_w0 : World := mkWorld NewJournalKeeper demo_disk [].
Definition demo_listing : list (string * Z) := default [] (ReadDir "/j" demo_disk).

Lemma scanDir_retention_witness : exists gone kept,
  demo_sort (list_files demo_disk (mkKeeperDir "/j" "boat") demo_listing) = gone ++ kept /\
  total_size kept <= 100 /\
  (forall f, f ∈ gone ->
     disk_files (w_disk (scanDir demo_plain demo_sort (demo_env none_ok) demo_w0 (mkKeeperDir "/j" "boat"))) !! jf_path f
     = None).
Proof.
  destruct (scanDir_retention demo_plain demo_sort demo_sort_perm demo_sort_sorted (demo_env none_ok) demo_w0
    (mkKeeperDir "/j" "boat") demo_listing eq_refl (fun _ => eq_refl) ltac:(vm_compute; reflexivity))
    as (gone & kept & H1 & H2 & _ & H4 & _).
  exists gone, kept. split; [exact H1|]. split; [apply H4; reflexivity|exact H2].
Defined.

Example demo_retained :
  map (fun p => disk_files (w_disk (scanDir demo_plain demo_sort (demo_env none_ok) demo_w0 (mkKeeperDir "/j" "boat"))) !! p)
    [demo_a; demo_b; demo_c] = [None; Some 50; None].
Proof. vm_compute. reflexivity. Qed.

Definition demo_armed : World := arm (scanAll demo_cfg demo_sort (mkEnv 0 [] false none_ok (fun _ => true) (fun _ => true)) demo_started).

Lemma all_ok_answers : answers_ok (demo_env all_ok).
Proof.
  intros batch i f Hf. exists (mkResponse "" "ok" ""). split; [|reflexivity].
  change (map (fun _ => mkResponse "" "ok" "") batch !! i = Some (mkResponse "" "ok" "")).
  rewrite list_lookup_fmap, Hf. reflexivity.
Qed.

Lemma demo_armed_ok : keeper_ok demo_armed.
Proof.
  apply arm_ok, scanAll_ok; [exact demo_sort_perm|].
  apply archiveUnarchived_ok; [apply demo_dirs|]. apply scanAll_ok; [exact demo_sort_perm|].
  constructor; cbn; [constructor|now left|done|done|]. intros [|? ?] ? ? ? [=].
Qed.

Lemma retry_archives_witness : exists w',
  run_event demo_cfg demo_sort (demo_env all_ok) RetryTick demo_armed = Some w' /\ jk_pending (w_keeper w') = [] /\
  length (jk_pending (w_keeper demo_armed)) = 3%nat.
Proof.
  destruct (retry_archives demo_cfg demo_sort (demo_env all_ok) demo_armed demo_armed_ok ltac:(vm_compute; reflexivity)
    all_ok_answers (fun _ => eq_refl)) as (w' & H1 & H2 & _).
  exists w'. split; [exact H1|]. split; [exact H2|]. vm_compute. reflexivity.
Defined.

(** After a failed startup sweep nothing is retried until the next event: the
    timer is armed at the end of a turn of the loop only. *)
Lemma startup_not_armed : (length (jk_pending (w_keeper demo_started)), jk_armed (w_keeper demo_started)) = (3%nat, false).
Proof. vm_compute. reflexivity. Qed.

(** Answers are matched by position: a script that says nothing about the first
    file it failed on and reports the second as archived has the first one marked,
    which the next scan may delete. *)
Lemma answer_misattributed :
  let script := fun fs => if (2 <=? length fs)%nat then [mkResponse "/j/nmea2k-20260302T140000.000Z.lpj" "ok" ""] else [] in
  let w := startup demo_cfg demo_sort (demo_env script) (mkWorld NewJournalKeeper demo_disk []) in
  (isArchived demo_c (w_disk w), isArchived demo_a (w_disk w)) = (true, false).
Proof. vm_compute. reflexivity. Qed.
