(* ===== verification/CanIO.v ===== *)
(** Reading and writing the CAN bus: [can.go], [can_bus.go], and the transmit
    router of [cmd/lplex-server/main.go].

    [CANReader] turns frames of the wire into [RxFrame]s, [CANWriter] turns
    requests into frames of the wire.  The socket and its frame type come from a
    third-party library; of a frame the code uses the four fields below.  The
    main theorem composes identifiers and fast packets: what one node writes,
    every node that reads the shared bus receives. *)

From S2P Require Import Prelude CanId FastPacket Devices VirtualDevice.

(** [can.Frame]: [Data] is an array of 8 bytes. *)
Record Frame := mkFrame { cf_ID : Z; cf_Length : Z; cf_Data : list Z; cf_IsExtended : bool }.

(** [copy(f.Data[:], data)] into a zero frame. *)
Definition pad8 (data : list Z) : list Z := take 8 data ++ replicate (8 - length data) 0.

(** What the reader's loop meets: the purge ticker, an error frame, a frame at
    the time [time.Now] gives for it. *)
Inductive rx_event :=
| RxPurge (now : time)
| RxError
| RxIn (f : Frame) (now : time).

Section can_io.
  Context (registry_fast : Z -> option bool).

(** * The reader *)

(** [frame.Data[:frame.Length]] of the 8-byte array. *)
Definition frame_data (f : Frame) : option (list Z) :=
  if cf_Length f <=? 8 then Some (take (Z.to_nat (cf_Length f)) (cf_Data f)) else None.

(** One frame: the assembler and the frame for the broker. *)
Definition read_frame (iface : string) (f : Frame) (now : time) (assembler : FastPacketAssembler)
    : option (FastPacketAssembler * option RxFrame) :=
  if negb (cf_IsExtended f) then Some (assembler, None)
  else
    let header := ParseCANID (cf_ID f) in
    data ← frame_data f;
    if IsFastPacket registry_fast (PGN header) then
      match Process assembler (PGN header) (Source header) data now with
      | (assembler, None) => Some (assembler, None)
      | (assembler, Some data) => Some (assembler, Some (mkRxFrame now header data iface 0))
      end
    else Some (assembler, Some (mkRxFrame now header data iface 0)).

Definition reader_step (iface : string) (ev : rx_event) (assembler : FastPacketAssembler)
    : option (FastPacketAssembler * option RxFrame) :=
  match ev with
  | RxPurge now => Some (PurgeStale assembler now, None)
  | RxError => Some (assembler, None)
  | RxIn f now => read_frame iface f now assembler
  end.

Definition newReader : FastPacketAssembler := NewFastPacketAssembler (750 * millisecond).

(** The loop of [CANReader], from an assembler; [None] is a panic. *)
Fixpoint CANReader (iface : string) (assembler : FastPacketAssembler) (evs : list rx_event)
    : option (FastPacketAssembler * list RxFrame) :=
  match evs with
  | [] => Some (assembler, [])
  | ev :: evs =>
      '(assembler, out) ← reader_step iface ev assembler;
      '(assembler, outs) ← CANReader iface assembler evs;
      Some (assembler, option_list out ++ outs)
  end.

(** * The writer *)

Definition txPaceInterval : duration := 50 * millisecond.

Record writer := mkWriter { seqCounter : Z; lastTx : time }.

Definition newWriter : writer := mkWriter 0 0.

(** When the transmission of a request taken at [now] starts. *)
Definition pace (now : time) (w : writer) : time :=
  let since := time_Sub now (lastTx w) in
  if since <? txPaceInterval then now + (txPaceInterval - since) else now.

(** The frames of a request and the sequence counter after it. *)
Definition tx_frames (req : TxRequest) (seq : Z) : list Frame * Z :=
  let canID := BuildCANID (tx_Header req) in
  let data := tx_Data req in
  if IsFastPacket registry_fast (PGN (tx_Header req)) && (8 <? length data)%nat then
    (map (fun frag => mkFrame canID 8 (pad8 frag) true) (FragmentFastPacket data seq), Z.land (u8 (seq + 1)) 0x07)
  else ([mkFrame canID (u8 (Z.of_nat (length data))) (pad8 data) true], seq).

(** The frames that get out, by the outcomes of [TransmitFrame]: the first error
    ends the request. *)
Fixpoint transmitted (oks : list bool) (frames : list Frame) : list Frame :=
  match frames with
  | [] => []
  | f :: frames => match oks with
                   | false :: _ => []
                   | _ => f :: transmitted (tail oks) frames
                   end
  end.

(** One turn of [CANWriter]: the request is taken at [now], the clock at the end
    shows [after].  The frames that got out, and when the first one started. *)
Definition write_request (req : TxRequest) (oks : list bool) (now after : time) (w : writer)
    : writer * (time * list Frame) :=
  let '(frames, seq) := tx_frames req (seqCounter w) in
  (mkWriter seq after, (pace now w, transmitted oks frames)).

(** The requests of a channel, each with its outcomes and clock readings. *)
Fixpoint CANWriter (reqs : list (TxRequest * list bool * time * time)) (w : writer)
    : writer * list (time * list Frame) :=
  match reqs with
  | [] => (w, [])
  | (req, oks, now, after) :: reqs =>
      let '(w, sent) := write_request req oks now after w in
      let '(w, rest) := CANWriter reqs w in
      (w, sent :: rest)
  end.

(** * The loopback bus *)

Record LoopbackBus := mkLoopback { lb_name : string; lb_frames : list RxFrame; lb_size : Z }.

Definition NewLoopbackBus (name : string) (bufSize : Z) : LoopbackBus :=
  mkLoopback name [] (if bufSize <=? 0 then 256 else bufSize).

Definition Inject (frame : RxFrame) (b : LoopbackBus) : LoopbackBus * bool :=
  let frame := mkRxFrame (rx_Timestamp frame) (rx_Header frame) (rx_Data frame) (lb_name b) (rx_Seq frame) in
  if Z.of_nat (length (lb_frames b)) <? lb_size b
  then (mkLoopback (lb_name b) (lb_frames b ++ [frame]) (lb_size b), true)
  else (b, false).

Definition loopback_read (b : LoopbackBus) : option (RxFrame * LoopbackBus) :=
  match lb_frames b with
  | [] => None
  | f :: rest => Some (f, mkLoopback (lb_name b) rest (lb_size b))
  end.

(** A transmitted frame comes back as received. *)
Definition loopback_write (req : TxRequest) (now : time) (b : LoopbackBus) : LoopbackBus :=
  (Inject (mkRxFrame now (tx_Header req) (tx_Data req) "" 0) b).1.

(** * The transmit router *)

(** The channels of the buses, each of 64 requests. *)
Abbreviation tx_chans := (gmap string (list TxRequest)).

Definition offer_tx (bus : string) (req : TxRequest) (chans : tx_chans) : tx_chans :=
  match chans !! bus with
  | Some q => if (length q <? 64)%nat then <[bus := q ++ [req]]> chans else chans
  | None => chans
  end.

Definition route_tx (defaultBus : string) (req : TxRequest) (chans : tx_chans) : tx_chans :=
  let bus := if bool_decide (tx_Bus req = EmptyString) then defaultBus else tx_Bus req in
  match chans !! bus with
  | Some _ => offer_tx bus req chans
  | None => offer_tx defaultBus req chans
  end.

(** * What the reader makes of a shared bus *)

(** The frames a node with address [src] put on the bus. *)
Definition own_frame (src : Z) (f : Frame) : bool := cf_IsExtended f && (Source (ParseCANID (cf_ID f)) =? src).

Definition own (src : Z) (evs : list rx_event) : list Frame :=
  omap (fun ev => match ev with RxIn f _ => if own_frame src f then Some f else None | _ => None end) evs.

(** The broker's frames of that node. *)
Definition from_node (src : Z) (outs : list RxFrame) : list RxFrame :=
  List.filter (fun f => Source (rx_Header f) =? src) outs.

Definition event_now (ev : rx_event) : option time :=
  match ev with RxPurge t | RxIn _ t => Some t | RxError => None end.

(** A frame as the kernel delivers it. *)
Definition frame_ok (f : Frame) : Prop := 0 <= cf_Length f <= 8 /\ length (cf_Data f) = 8%nat /\ bytes_ok (cf_Data f).
Definition rx_event_ok (ev : rx_event) : Prop := match ev with RxIn f _ => frame_ok f | _ => True end.

(** The assembler's view of the events. *)
Definition assembler_event (ev : rx_event) : option event :=
  match ev with
  | RxPurge now => Some (EvPurge now)
  | RxError => None
  | RxIn f now =>
      let h := ParseCANID (cf_ID f) in
      if cf_IsExtended f && IsFastPacket registry_fast (PGN h)
      then Some (EvFrame (PGN h, Source h) (take (Z.to_nat (cf_Length f)) (cf_Data f)) now)
      else None
  end.

Definition assembler_events (evs : list rx_event) : list event := omap assembler_event evs.

Lemma frame_data_ok f : frame_ok f -> frame_data f = Some (take (Z.to_nat (cf_Length f)) (cf_Data f)).
Proof. intros (? & _). unfold frame_data. now rewrite (proj2 (Z.leb_le _ _)) by lia. Qed.

Lemma assembler_events_ok evs : Forall rx_event_ok evs -> Forall event_bytes (assembler_events evs).
Proof.
  induction 1 as [|ev evs Hev _ IH]; [constructor|]. unfold assembler_events in *. cbn [omap list_omap].
  destruct ev as [t| |f t]; cbn [assembler_event]; [constructor; done|done|].
  destruct (_ && _); [|done]. constructor; [|done]. destruct Hev as (_ & _ & H). now apply Forall_take.
Qed.

Lemma assembler_window t0 evs tmo :
  Forall (fun ev => forall t, event_now ev = Some t -> t0 <= t <= t0 + tmo) evs ->
  Forall (in_window t0 tmo) (assembler_events evs).
Proof.
  induction 1 as [|ev evs Hev _ IH]; [constructor|]. unfold assembler_events in *. cbn [omap list_omap].
  destruct ev as [t| |f t]; cbn [assembler_event]; [|done|].
  - constructor; [|done]. exact (Hev t eq_refl).
  - destruct (_ && _); [|done]. constructor; [|done]. exact (Hev t eq_refl).
Qed.

Lemma run_app a evs1 evs2 :
  run a (evs1 ++ evs2) =
  let r := run a evs1 in ((run r.1 evs2).1, r.2 ++ (run r.1 evs2).2).
Proof.
  revert a. induction evs1 as [|[k d t|t] evs1 IH]; intros a; cbn [app run].
  - exact (surjective_pairing _).
  - rewrite IH. reflexivity.
  - apply IH.
Qed.

Lemma run_ok evs : forall a, assembler_ok a -> Forall event_bytes evs ->
  assembler_ok (run a evs).1 /\ timeout (run a evs).1 = timeout a.
Proof.
  induction evs as [|e evs IH]; intros a Hok Hb; [done|]. inversion Hb as [|? ? He Hb']; subst.
  destruct e as [[p s] d t|t]; cbn [run fst snd].
  - destruct (Process_PurgeStale_ok a p s d t Hok He) as (H1 & _).
    destruct (Process_refines_transfer a p s d t Hok) as (_ & _ & Ht & _).
    destruct (IH _ H1 Hb') as [H2 H3]. split; [done|]. now rewrite H3.
  - destruct (Process_PurgeStale_ok a 0 0 [] t Hok ltac:(constructor)) as (_ & _ & H1).
    destruct (IH _ H1 Hb') as [H2 H3]. split; [done|]. now rewrite H3.
Qed.

(** The reader never panics on what the kernel delivers, and its assembler is
    that of the fast-packet events. *)
Lemma reader_runs iface evs : forall a, Forall rx_event_ok evs ->
  exists outs, CANReader iface a evs = Some ((run a (assembler_events evs)).1, outs).
Proof.
  induction evs as [|ev evs IH]; intros a Hev; [by eexists|]. inversion Hev as [|? ? He Hev']; subst.
  unfold assembler_events in *. cbn [CANReader omap list_omap].
  destruct ev as [t| |f t]; cbn [reader_step assembler_event mbind option_bind run].
  - destruct (IH (PurgeStale a t) Hev') as [outs ->]. by eexists.
  - destruct (IH a Hev') as [outs ->]. by eexists.
  - unfold read_frame. destruct (cf_IsExtended f); cbn [negb andb mbind option_bind];
      [|destruct (IH a Hev') as [outs ->]; by eexists].
    rewrite frame_data_ok by done. cbn [mbind option_bind].
    destruct (IsFastPacket _ _); cbn [mbind option_bind].
    + cbn [run fst snd]. destruct (Process a _ _ _ _) as [a' [d|]]; cbn [mbind option_bind fst];
        destruct (IH a' Hev') as [outs ->]; by eexists.
    + destruct (IH a Hev') as [outs ->]. by eexists.
Qed.

Lemma CANReader_app iface a evs1 evs2 :
  CANReader iface a (evs1 ++ evs2) =
  '(a, outs1) ← CANReader iface a evs1; '(a, outs2) ← CANReader iface a evs2; Some (a, outs1 ++ outs2).
Proof.
  revert a. induction evs1 as [|ev evs1 IH]; intros a; cbn [app CANReader mbind option_bind].
  - now destruct (CANReader iface a evs2) as [[? ?]|].
  - destruct (reader_step iface ev a) as [[a1 out]|]; cbn [mbind option_bind]; [|done]. rewrite IH.
    destruct (CANReader iface a1 evs1) as [[a2 outs1]|]; cbn [mbind option_bind]; [|done].
    destruct (CANReader iface a2 evs2) as [[a3 outs2]|]; cbn [mbind option_bind]; [|done].
    now rewrite app_assoc.
Qed.

Lemma from_node_app src l1 l2 : from_node src (l1 ++ l2) = from_node src l1 ++ from_node src l2.
Proof. apply List.filter_app. Qed.

Lemma from_node_one src r : from_node src (option_list (Some r)) = if Source (rx_Header r) =? src then [r] else [].
Proof. reflexivity. Qed.

(** One event's output: of the node only from a frame of the node. *)
Lemma from_node_other src iface ev a a' out :
  reader_step iface ev a = Some (a', out) -> own src [ev] = [] -> from_node src (option_list out) = [].
Proof.
  destruct ev as [t| |f t]; cbn [reader_step]; [by intros [= _ <-]..|].
  unfold own, own_frame, read_frame. cbn [omap list_omap].
  destruct (cf_IsExtended f); cbn [negb andb]; [|by intros [= _ <-]].
  destruct (frame_data f) as [d|]; cbn [mbind option_bind]; [|done].
  destruct (Source _ =? src) eqn:E; [done|]. intros H _. revert H.
  destruct (IsFastPacket _ _); [destruct (Process a _ _ _ _) as [? [?|]]|]; intros [= _ <-];
    rewrite ?from_node_one; cbn [rx_Header]; now rewrite ?E.
Qed.

(** Nothing of a silent node. *)
Lemma silent_node src iface evs : forall a a' outs,
  own src evs = [] -> CANReader iface a evs = Some (a', outs) -> from_node src outs = [].
Proof.
  induction evs as [|ev evs IH]; intros a a' outs Hown; cbn [CANReader]; [by intros [= _ <-]|].
  assert (Hs : own src [ev] = [] /\ own src evs = []).
  { apply app_eq_nil. rewrite <- Hown. exact (eq_sym (omap_app _ [ev] evs)). }
  destruct (reader_step iface ev a) as [[a1 out]|] eqn:E1; cbn [mbind option_bind]; [|done].
  destruct (CANReader iface a1 evs) as [[a2 outs2]|] eqn:E2; cbn [mbind option_bind]; [|done].
  intros [= _ <-]. rewrite from_node_app.
  rewrite (from_node_other src iface ev a a1 out E1) by apply Hs. eapply IH; [apply Hs|exact E2].
Qed.

(** What a receiver sees of a request. *)
Definition received (f : RxFrame) : CANHeader * list Z * string := (rx_Header f, rx_Data f, rx_Bus f).

(** While the node sends fragments of one header, its frames for the broker are
    the payloads the assembler completes for its key. *)
Lemma fast_node h iface evs : forall a a' outs,
  Forall rx_event_ok evs -> IsFastPacket registry_fast (PGN h) = true ->
  Forall (fun f => ParseCANID (cf_ID f) = h) (own (Source h) evs) ->
  CANReader iface a evs = Some (a', outs) ->
  map received (from_node (Source h) outs) =
  omap (fun o => (fun d => (h, d, iface)) <$> o) (outputs_for (PGN h, Source h) (run a (assembler_events evs)).2).
Proof.
  induction evs as [|ev evs IH]; intros a a' outs Hev Hfast Hown; cbn [CANReader]; [by intros [= _ <-]|].
  inversion Hev as [|? ? He Hev']; subst.
  assert (Happ : own (Source h) (ev :: evs) = own (Source h) [ev] ++ own (Source h) evs)
    by exact (omap_app _ [ev] evs).
  rewrite Happ in Hown. apply Forall_app in Hown as [Ho1 Ho2].
  destruct (reader_step iface ev a) as [[a1 out]|] eqn:E1; cbn [mbind option_bind]; [|done].
  destruct (CANReader iface a1 evs) as [[a2 outs2]|] eqn:E2; cbn [mbind option_bind]; [|done].
  intros [= _ <-]. rewrite from_node_app, map_app.
  specialize (IH a1 a2 outs2 Hev' Hfast Ho2 E2). rewrite IH. clear IH E2 outs2 Happ.
  unfold assembler_events. cbn [omap list_omap].
  destruct ev as [t| |f t]; cbn [reader_step assembler_event run fst snd] in *; [by injection E1 as <- <-..|].
  unfold read_frame in E1. destruct (cf_IsExtended f) eqn:Ex; cbn [negb andb] in *; [|by injection E1 as <- <-].
  rewrite frame_data_ok in E1 by done. cbn [mbind option_bind] in E1.
  destruct (Z.eqb_spec (Source (ParseCANID (cf_ID f))) (Source h)) as [Es|Es].
  - unfold own, own_frame in Ho1. cbn [omap list_omap] in Ho1. rewrite Ex, (proj2 (Z.eqb_eq _ _) Es) in Ho1.
    cbn [andb] in Ho1. inversion Ho1 as [|? ? Hh _]; subst. rewrite Hfast in *.
    cbn [run fst snd outputs_for]. rewrite decide_True by done.
    destruct (Process a _ _ _ _) as [a3 [d|]]; injection E1 as <- <-;
      [rewrite from_node_one; cbn [rx_Header]; rewrite Z.eqb_refl|]; reflexivity.
  - assert (Hno : forall d,
       from_node (Source h) (option_list (Some (mkRxFrame t (ParseCANID (cf_ID f)) d iface 0))) = []).
    { intros d. rewrite from_node_one. cbn [rx_Header]. now rewrite (proj2 (Z.eqb_neq _ _) Es). }
    destruct (IsFastPacket registry_fast (PGN (ParseCANID (cf_ID f)))).
    + cbn [run fst snd outputs_for]. rewrite decide_False by congruence.
      destruct (Process a _ _ _ _) as [a3 [d|]]; injection E1 as <- <-;
        rewrite ?Hno; done.
    + injection E1 as <- <-. rewrite Hno. done.
Qed.

(** While the node sends single frames, the broker gets each of them. *)
Lemma single_node src iface evs : forall a a' outs,
  Forall rx_event_ok evs ->
  Forall (fun f => IsFastPacket registry_fast (PGN (ParseCANID (cf_ID f))) = false) (own src evs) ->
  CANReader iface a evs = Some (a', outs) ->
  map received (from_node src outs) =
  map (fun f => (ParseCANID (cf_ID f), take (Z.to_nat (cf_Length f)) (cf_Data f), iface)) (own src evs).
Proof.
  induction evs as [|ev evs IH]; intros a a' outs Hev Hown; cbn [CANReader]; [by intros [= _ <-]|].
  inversion Hev as [|? ? He Hev']; subst.
  assert (Happ : own src (ev :: evs) = own src [ev] ++ own src evs) by exact (omap_app _ [ev] evs).
  rewrite Happ in *. apply Forall_app in Hown as [Ho1 Ho2].
  destruct (reader_step iface ev a) as [[a1 out]|] eqn:E1; cbn [mbind option_bind]; [|done].
  destruct (CANReader iface a1 evs) as [[a2 outs2]|] eqn:E2; cbn [mbind option_bind]; [|done].
  intros [= _ <-]. rewrite from_node_app, !map_app.
  rewrite (IH a1 a2 outs2 Hev' Ho2 E2). f_equal.
  destruct (own src [ev]) as [|f l] eqn:Eo.
  { rewrite (from_node_other src iface ev a a1 out E1 Eo). done. }
  destruct ev as [t| |f' t]; [done..|]. unfold own, own_frame in Eo. cbn [omap list_omap] in Eo.
  destruct (cf_IsExtended f') eqn:Ex; cbn [andb] in Eo; [|done].
  destruct (Source _ =? src) eqn:Es; [|done]. injection Eo as <- <-. inversion Ho1 as [|? ? Hf _]; subst.
  cbn [reader_step] in E1. unfold read_frame in E1. rewrite Ex, frame_data_ok in E1 by done.
  cbn [negb mbind option_bind] in E1. rewrite Hf in E1. injection E1 as <- <-.
  rewrite from_node_one. cbn [rx_Header]. now rewrite Es.
Qed.

(** * What is written is received *)

Lemma frames_of_own h evs :
  IsFastPacket registry_fast (PGN h) = true ->
  Forall (fun f => ParseCANID (cf_ID f) = h) (own (Source h) evs) ->
  map fst (frames_of (PGN h, Source h) (assembler_events evs)) =
  map (fun f => take (Z.to_nat (cf_Length f)) (cf_Data f)) (own (Source h) evs).
Proof.
  intros Hfast. induction evs as [|ev evs IH]; intros Hown; [done|].
  assert (Happ : own (Source h) (ev :: evs) = own (Source h) [ev] ++ own (Source h) evs)
    by exact (omap_app _ [ev] evs).
  rewrite Happ in *. apply Forall_app in Hown as [Ho1 Ho2]. specialize (IH Ho2).
  rewrite map_app, <- IH. unfold assembler_events. cbn [omap list_omap].
  destruct ev as [t| |f t]; cbn [assembler_event frames_of]; [done..|].
  unfold own, own_frame in *. cbn [omap list_omap] in *.
  destruct (cf_IsExtended f); cbn [andb] in *; [|done].
  destruct (Z.eqb_spec (Source (ParseCANID (cf_ID f))) (Source h)) as [Es|Es].
  - inversion Ho1 as [|? ? Hh _]; subst. rewrite Hfast. cbn [frames_of]. now rewrite decide_True by done.
  - destruct (IsFastPacket registry_fast (PGN (ParseCANID _))); [|done]. cbn [frames_of]. now rewrite decide_False by congruence.
Qed.

Lemma fragments_eight data seq : Forall (fun frag => length frag = 8%nat) (FragmentFastPacket data seq).
Proof.
  unfold FragmentFastPacket. constructor.
  - cbn [length]. rewrite length_app, length_take, length_replicate. lia.
  - generalize (Nat.min 6 (length data)) as offset, 1 as n, (u8 (Z.shiftl (Z.land seq 7) 5)) as bits.
    generalize (length data) at 1 as fuel. induction fuel as [|fuel IH]; intros offset n bits; [constructor|].
    cbn [fragment_loop]. destruct (Nat.ltb_spec offset (length data)) as [Hc|]; [|constructor]. constructor; [|apply IH].
    cbn [length]. rewrite length_app, length_slice, length_replicate by lia. lia.
Qed.

Lemma pad8_exact l : length l = 8%nat -> pad8 l = l.
Proof. intros H. unfold pad8. rewrite H, take_ge by lia. apply app_nil_r. Qed.

Lemma pad8_short l : (length l <= 8)%nat -> take (length l) (pad8 l) = l.
Proof. intros H. unfold pad8. rewrite (take_ge l) by lia. now rewrite take_app_length. Qed.

(** A request that survives the wire: a header an identifier can carry, from this
    node, and a payload of a size its PGN allows. *)
Record sendable (src : Z) (req : TxRequest) : Prop := {
  sd_header : header_valid (tx_Header req);
  sd_source : Source (tx_Header req) = src;
  sd_size : if IsFastPacket registry_fast (PGN (tx_Header req))
            then (9 <= length (tx_Data req) <= 223)%nat else (length (tx_Data req) <= 8)%nat
}.

(** A stretch of the bus with the frames of one request: nothing of the node
    before the first one, and from it on everything within the timeout. *)
Definition carries (src : Z) (tmo : duration) (frames : list Frame) (piece : list rx_event) : Prop :=
  exists gap f t0 body, piece = gap ++ RxIn f t0 :: body /\ own src gap = [] /\ own_frame src f = true /\
    frames = f :: own src body /\
    Forall (fun ev => forall t, event_now ev = Some t -> t0 <= t <= t0 + tmo) (RxIn f t0 :: body).

Definition delivered (iface : string) (req : TxRequest) : CANHeader * list Z * string :=
  (tx_Header req, tx_Data req, iface).

Lemma omap_last {A B} (g : A -> B) n x :
  omap (fun o => g <$> o) (replicate n None ++ [Some x]) = [g x].
Proof. induction n as [|n IH]; [done|exact IH]. Qed.

Lemma piece_received src iface a req seq piece :
  assembler_ok a -> 0 <= timeout a <= max_duration -> sendable src req ->
  carries src (timeout a) (tx_frames req seq).1 piece -> Forall rx_event_ok piece ->
  exists a' outs, CANReader iface a piece = Some (a', outs) /\ assembler_ok a' /\ timeout a' = timeout a /\
    map received (from_node src outs) = [delivered iface req].
Proof.
  intros Hok Htmo [Hh <- Hsize] (gap & f & t0 & body & -> & Hgap & Hf & Hfr & Hwin) Hev.
  pose proof (parse_built _ Hh) as Hparse.
  assert (Hown : own (Source (tx_Header req)) (RxIn f t0 :: body) = (tx_frames req seq).1).
  { rewrite Hfr. unfold own. cbn [omap list_omap]. now rewrite Hf. }
  apply Forall_app in Hev as [Hev1 Hev2].
  destruct (reader_runs iface gap a Hev1) as [outs1 E1].
  destruct (run_ok (assembler_events gap) a Hok (assembler_events_ok _ Hev1)) as [Hok1 Htm1].
  set (a1 := (run a (assembler_events gap)).1) in *.
  destruct (reader_runs iface (RxIn f t0 :: body) a1 Hev2) as [outs2 E2].
  destruct (run_ok _ a1 Hok1 (assembler_events_ok _ Hev2)) as [Hok2 Htm2].
  eexists _, (outs1 ++ outs2). rewrite CANReader_app, E1. cbn [mbind option_bind]. rewrite E2. cbn [mbind option_bind].
  split; [done|]. split; [exact Hok2|]. split; [now rewrite Htm2|].
  rewrite from_node_app, (silent_node _ _ _ _ _ _ Hgap E1). cbn [app].
  unfold tx_frames in Hown, Hfr. destruct (IsFastPacket registry_fast (PGN (tx_Header req))) eqn:Hfast.
  - rewrite (proj2 (Nat.ltb_lt 8 _)) in Hown, Hfr by lia. cbn [andb fst] in Hown, Hfr.
    assert (Hall : Forall (fun f => ParseCANID (cf_ID f) = tx_Header req)
              (own (Source (tx_Header req)) (RxIn f t0 :: body))).
    { rewrite Hown. apply Forall_map, Forall_true. intros frag. exact Hparse. }
    erewrite (fast_node (tx_Header req)); [|exact Hev2|exact Hfast|exact Hall|exact E2].
    assert (Hframes : map fst (frames_of (PGN (tx_Header req), Source (tx_Header req))
              (assembler_events (RxIn f t0 :: body))) = FragmentFastPacket (tx_Data req) seq).
    { rewrite frames_of_own by done. rewrite Hown, map_map. rewrite <- (map_id (FragmentFastPacket _ _)) at 2.
      apply map_ext_Forall. eapply Forall_impl; [apply fragments_eight|].
      intros frag H8. cbn [cf_Length cf_Data]. rewrite pad8_exact by done. apply take_ge. rewrite H8. lia. }
    destruct (fragment_reassemble_ok a1 (PGN (tx_Header req), Source (tx_Header req)) (tx_Data req) seq t0
      (assembler_events (RxIn f t0 :: body))) as [_ Hout]; rewrite ?Htm1; try done; try lia.
    + now apply assembler_window.
    + now apply assembler_events_ok.
    + unfold assembler_events. cbn [omap list_omap assembler_event].
      unfold own_frame in Hf. apply andb_prop in Hf as [Hx Hs].
      assert (Ef : ParseCANID (cf_ID f) = tx_Header req).
      { rewrite Hown, Hfr in Hall. now inversion Hall. }
      rewrite Hx, Ef, Hfast. cbn [andb]. by eexists _, _.
    + rewrite Hout. apply (omap_last (fun d => (tx_Header req, d, iface))).
  - cbn [andb fst] in Hown. erewrite (single_node (Source (tx_Header req))); [|exact Hev2| |exact E2].
    + rewrite Hown. cbn [map cf_ID cf_Length cf_Data]. rewrite Hparse, wrap_small by lia.
      rewrite Nat2Z.id, pad8_short by done. reflexivity.
    + rewrite Hown. constructor; [|constructor]. cbn [cf_ID]. now rewrite Hparse.
Qed.

Lemma transmitted_all oks frames : Forall (eq true) oks -> transmitted oks frames = frames.
Proof.
  intros Hok. revert frames. induction Hok as [|? oks <- _ IH]; intros [|f frames]; cbn [transmitted tail]; try done.
  - f_equal. induction frames as [|g frames IH]; cbn [transmitted tail]; [done|]. now rewrite IH.
  - now rewrite IH.
Qed.

(** C3: The bus carries what a node writes. Let a node write requests whose
    headers fit an identifier and whose payloads have a size their PGN allows
    ([sendable]: 9 to 223 bytes for a fast-packet PGN, at most 8 for any other),
    with every transmission succeeding, while other nodes use the bus as they like,
    as long as the frames of one request arrive within the reassembly timeout. Then
    every reader of the bus passes on exactly these requests of the node, in order,
    with their headers and payloads, and never panics. The sizes matter: a
    fast-packet PGN of 8 bytes or less is lost ([short_fast_lost]) and a longer
    single-frame payload is cut ([long_single_cut]). *)
Theorem wire_roundtrip src iface a w reqs pieces :
  assembler_ok a -> 0 <= timeout a <= max_duration ->
  Forall (fun '(req, oks, _, _) => sendable src req /\ Forall (eq true) oks) reqs ->
  Forall2 (fun '(_, frames) piece => carries src (timeout a) frames piece) (CANWriter reqs w).2 pieces ->
  Forall rx_event_ok (concat pieces) ->
  exists a' outs, CANReader iface a (concat pieces) = Some (a', outs) /\
    map received (from_node src outs) = map (fun '(req, _, _, _) => delivered iface req) reqs.
Proof.
  revert a w pieces. induction reqs as [|[[[req oks] now] after] reqs IH]; intros a w pieces Hok Htmo Hreqs Hcar Hev.
  - cbn in Hcar. inversion Hcar; subst. by eexists _, _.
  - cbn [CANWriter write_request] in Hcar. apply Forall_cons in Hreqs as [[Hsend Hoks] Hreqs'].
    unfold write_request in Hcar. destruct (tx_frames req (seqCounter w)) as [frames seq] eqn:Ef.
    destruct (CANWriter reqs (mkWriter seq after)) as [w2 sent] eqn:Ew. cbn [snd] in Hcar.
    inversion Hcar as [|? piece ? pieces' Hp Hcar']; subst. cbn [concat] in *.
    apply Forall_app in Hev as [Hev1 Hev2]. rewrite transmitted_all in Hp by done.
    destruct (piece_received src iface a req (seqCounter w) piece) as (a1 & outs1 & E1 & Hok1 & Ht1 & Hr1);
      [done..|now rewrite Ef|done|].
    destruct (IH a1 (mkWriter seq after) pieces') as (a2 & outs2 & E2 & Hr2); rewrite ?Ht1, ?Ew; try done.
    exists a2, (outs1 ++ outs2). rewrite CANReader_app, E1. cbn [mbind option_bind]. rewrite E2. cbn [mbind option_bind].
    split; [done|]. now rewrite from_node_app, map_app, Hr1, Hr2.
Qed.

(** Transmissions keep their distance from the end of the one before. *)
Lemma pace_distance now w : lastTx w <= now -> lastTx w + txPaceInterval <= pace now w.
Proof.
  intros H. unfold pace, time_Sub, txPaceInterval, millisecond, min_duration, max_duration.
  destruct (Z.ltb_spec (Z.max (- 2 ^ 63) (Z.min (2 ^ 63 - 1) (now - lastTx w))) (50 * 1000000)); lia.
Qed.

End can_io.

(** * On a concrete bus *)

Definition demo_registry_fast (pgn : Z) : option bool :=
  if pgn =? 129029 then Some true else if pgn =? 127250 then Some false else None.

Definition demo_reqs : list (TxRequest * list bool * time * time) :=
  [(mkTxRequest (mkCANHeader 3 129029 5 255) (map Z.of_nat (seq 0 20)) "can0", [], 1000, 2000);
   (mkTxRequest (mkCANHeader 2 127250 5 255) [1; 2; 3] "can0", [true], 3000, 4000)].

(** Another node sends a transfer of the same PGN at the same time. *)
Definition demo_other : list Frame :=
  (tx_frames demo_registry_fast (mkTxRequest (mkCANHeader 3 129029 9 255) (replicate 12 7) "can0") 4).1.

Definition at_ms (k : Z) (fs : list Frame) : list rx_event := imap (fun i f => RxIn f ((k + Z.of_nat i) * millisecond)) fs.

Definition demo_sent : list (list Frame) := Eval vm_compute in map snd (CANWriter demo_registry_fast demo_reqs newWriter).2.
Definition demo_foreign : list rx_event := Eval vm_compute in at_ms 9 demo_other.
Definition demo_pieces : list (list rx_event) := Eval vm_compute in
  [firstn 1 demo_foreign ++ interleave (at_ms 10 (nth 0 demo_sent [])) (skipn 1 demo_foreign ++ [RxPurge (12 * millisecond)]);
   RxError :: at_ms 900 (nth 1 demo_sent [])].

Lemma wire_roundtrip_witness : exists a' outs,
  CANReader demo_registry_fast "can1" newReader (concat demo_pieces) = Some (a', outs) /\
  map received (from_node 5 outs) =
  [(mkCANHeader 3 129029 5 255, map Z.of_nat (seq 0 20), "can1"%string);
   (mkCANHeader 2 127250 5 255, [1; 2; 3], "can1"%string)].
Proof.
  apply (wire_roundtrip demo_registry_fast 5 "can1" newReader newWriter demo_reqs demo_pieces).
  - apply NewFastPacketAssembler_ok.
  - cbn. unfold max_duration, millisecond. lia.
  - repeat constructor; cbn; try lia; vm_compute; done.
  - constructor; [|constructor; [|constructor]].
    + exists (firstn 1 demo_foreign). eexists _, _, _. repeat split.
      cbn [timeout newReader NewFastPacketAssembler]. unfold millisecond.
      repeat (apply Forall_cons; split; [intros ? [= <-]; lia|]). now apply Forall_nil.
    + exists [RxError]. eexists _, _, _. repeat split.
      cbn [timeout newReader NewFastPacketAssembler]. unfold millisecond.
      repeat (apply Forall_cons; split; [intros ? [= <-]; lia|]). now apply Forall_nil.
  - unfold demo_pieces, rx_event_ok, frame_ok, bytes_ok, byte_ok. cbn [concat app]. repeat constructor; cbn; done || lia.
Defined.

(** ** Where the wire loses a request *)

(** A payload of at most 8 bytes of a fast-packet PGN goes out as a single frame,
    without the fast-packet header every receiver takes it to have: here the
    reader takes the first data byte for a frame counter and drops the message. *)
Lemma short_fast_lost :
  let req := mkTxRequest (mkCANHeader 3 129029 5 255) [1; 2; 3; 4; 5; 6] "can0" in
  let sent := (tx_frames demo_registry_fast req 0).1 in
  CANReader demo_registry_fast "can0" newReader (at_ms 0 sent) = Some (newReader, []).
Proof. vm_compute. reflexivity. Qed.

(** More than 8 bytes of any other PGN are cut to 8, with the full length in the
    frame's header: [CANReader] would panic on it. *)
Lemma long_single_cut :
  let req := mkTxRequest (mkCANHeader 3 127250 5 255) [1; 2; 3; 4; 5; 6; 7; 8; 9] "can0" in
  (tx_frames demo_registry_fast req 0).1 =
    [mkFrame (BuildCANID (tx_Header req)) 9 [1; 2; 3; 4; 5; 6; 7; 8] true].
Proof. vm_compute. reflexivity. Qed.
