(* ===== verification/SendPolicy.v ===== *)
(** Rules that decide which frames clients may send: [sendpolicy/sendpolicy.go].

    A rule is parsed from a small language and matches frames by PGN and by the
    NAME of the destination.  The parser's results are exactly the well-formed
    rules: each of them is the meaning of its own text.  Text is ASCII. *)

From S2P Require Import Prelude GoNum.
From Stdlib Require Import Ascii.

(** * Strings, as the [strings] package cuts them *)

Definition is_space (c : ascii) : bool :=
  let z := Z_of_ascii c in (z =? 32) || ((9 <=? z) && (z <=? 13)).

Fixpoint split_by (p : ascii -> bool) (s : string) : list string :=
  match s with
  | EmptyString => [EmptyString]
  | String c s =>
      if p c then EmptyString :: split_by p s
      else match split_by p s with
           | w :: ws => String c w :: ws
           | [] => [String c EmptyString]
           end
  end.

Definition Split (s : string) (sep : ascii) : list string := split_by (Ascii.eqb sep) s.

Definition nonblank (s : string) : bool := negb (bool_decide (s = EmptyString)).

Definition Fields (s : string) : list string := List.filter nonblank (split_by is_space s).

Fixpoint trim_left (s : string) : string :=
  match s with
  | String c s' => if is_space c then trim_left s' else s
  | EmptyString => EmptyString
  end.

Fixpoint trim_right (s : string) : string :=
  match s with
  | EmptyString => EmptyString
  | String c s => match trim_right s with
                  | EmptyString => if is_space c then EmptyString else String c EmptyString
                  | t => String c t
                  end
  end.

Definition TrimSpace (s : string) : string := trim_right (trim_left s).

(** [strings.Cut] at a one-character separator; [None] when it is not there. *)
Fixpoint Cut (s : string) (sep : ascii) : option (string * string) :=
  match s with
  | EmptyString => None
  | String c s => if Ascii.eqb c sep then Some (EmptyString, s)
                  else '(a, b) ← Cut s sep; Some (String c a, b)
  end.

(** * Rules *)

Record PGNMatcher := mkPGNMatcher { Singles : list Z; Ranges : list (Z * Z) }.

Record SendRule := mkSendRule { Allow : bool; PGNs : option PGNMatcher; Names : list Z }.

Record SendPolicy := mkSendPolicy { Enabled : bool; Rules : list SendRule }.

Definition Contains (m : PGNMatcher) (pgn : Z) : bool :=
  existsb (fun s => s =? pgn) (Singles m) || existsb (fun '(lo, hi) => (pgn >=? lo) && (pgn <=? hi)) (Ranges m).

Definition Matches (r : SendRule) (pgn dstNAME : Z) (nameKnown : bool) : bool :=
  if match PGNs r with Some m => negb (Contains m pgn) | None => false end then false
  else if (0 <? length (Names r))%nat then
    if negb nameKnown then false
    else if negb (contains (Names r) dstNAME) then false
    else true
  else true.

(** * Parsing *)

(** The error kinds, with the text or number the message quotes. *)
Inductive send_rule_error :=
| EmptyRule
| InvalidToken (token : string)
| InvalidPGN (text : string) (e : num_error)
| InvalidRange (lo hi : Z)
| EmptyPGNSpec
| InvalidName (text : string) (e : num_error)
| EmptyNameList
| UnknownKey (key : string).

(** [strconv.ParseUint] with its error wrapped. *)
Definition parse_uint_as (wrap_error : num_error -> send_rule_error) (s : string) (base : N) (bits : Z)
    : result send_rule_error Z :=
  match ParseUint s base bits with Ok v => Ok v | Err e => Err (wrap_error e) end.

(** One part of a PGN specification. *)
Definition parse_pgn_part (m : PGNMatcher) (part : string) : result send_rule_error PGNMatcher :=
  let part := TrimSpace part in
  if bool_decide (part = EmptyString) then Ok m
  else match Cut part "-" with
       | Some (lo, hi) =>
           loVal ← parse_uint_as (InvalidPGN lo) (TrimSpace lo) 10 32;
           hiVal ← parse_uint_as (InvalidPGN hi) (TrimSpace hi) 10 32;
           if loVal >? hiVal then Err (InvalidRange loVal hiVal)
           else Ok (mkPGNMatcher (Singles m) (Ranges m ++ [(u32 loVal, u32 hiVal)]))
       | None =>
           v ← parse_uint_as (InvalidPGN part) part 10 32;
           Ok (mkPGNMatcher (Singles m ++ [u32 v]) (Ranges m))
       end.

(** A loop that may fail. *)
Fixpoint fold_result {E A B} (f : A -> B -> result E A) (a : A) (bs : list B) : result E A :=
  match bs with
  | [] => Ok a
  | b :: bs => a ← f a b; fold_result f a bs
  end.

Definition parsePGNSpec (s : string) : result send_rule_error PGNMatcher :=
  m ← fold_result parse_pgn_part (mkPGNMatcher [] []) (Split s ",");
  if (length (Singles m) =? 0)%nat && (length (Ranges m) =? 0)%nat then Err EmptyPGNSpec else Ok m.

Definition parse_name_part (names : list Z) (part : string) : result send_rule_error (list Z) :=
  let part := TrimSpace part in
  if bool_decide (part = EmptyString) then Ok names
  else v ← parse_uint_as (InvalidName part) part 16 64; Ok (names ++ [v]).

Definition parseNameList (s : string) : result send_rule_error (list Z) :=
  names ← fold_result parse_name_part [] (Split s ",");
  if (length names =? 0)%nat then Err EmptyNameList else Ok names.

Definition parse_token (rule : SendRule) (token : string) : result send_rule_error SendRule :=
  match Cut token ":" with
  | None => Err (InvalidToken token)
  | Some (key, val) =>
      if bool_decide (key = "pgn"%string) then
        m ← parsePGNSpec val; Ok (mkSendRule (Allow rule) (Some m) (Names rule))
      else if bool_decide (key = "name"%string) then
        names ← parseNameList val; Ok (mkSendRule (Allow rule) (PGNs rule) names)
      else Err (UnknownKey key)
  end.

Definition ParseSendRule (s : string) : result send_rule_error SendRule :=
  let s := TrimSpace s in
  match s with
  | EmptyString => Err EmptyRule
  | String c rest =>
      let '(allow, s) := if Ascii.eqb c "!" then (false, TrimSpace rest) else (true, s) in
      fold_result parse_token (mkSendRule allow None []) (Fields s)
  end.

(** The error carries the number of the rule, from 1. *)
Fixpoint parse_rules_from (i : Z) (rules : list string) : result (Z * send_rule_error) (list SendRule) :=
  match rules with
  | [] => Ok []
  | s :: rules =>
      match ParseSendRule s with
      | Err e => Err (i, e)
      | Ok r => rest ← parse_rules_from (i + 1) rules; Ok (r :: rest)
      end
  end.

Definition ParseSendRules (rules : list string) : result (Z * send_rule_error) (list SendRule) := parse_rules_from 1 rules.

Example parses :
  map ParseSendRule ["pgn:59904,65280-65535 name:001c6e4000200000"; " ! pgn:1"; "!"; ""; "pgn:"; "pgn:9-3"; "foo:1"; "x"]%string =
  [Ok (mkSendRule true (Some (mkPGNMatcher [59904] [(65280, 65535)])) [0x001c6e4000200000]);
   Ok (mkSendRule false (Some (mkPGNMatcher [1] [])) []); Ok (mkSendRule false None []); Err EmptyRule;
   Err EmptyPGNSpec; Err (InvalidRange 9 3); Err (UnknownKey "foo"); Err (InvalidToken "x")].
Proof. vm_compute. reflexivity. Qed.

(** * Cutting text that was put together *)

Lemma append_cons c a b : (String c a ++ b)%string = String c (a ++ b).
Proof. reflexivity. Qed.

Lemma append_nil b : (EmptyString ++ b)%string = b.
Proof. reflexivity. Qed.

Lemma split_by_clean p w : all_chars (fun c => negb (p c)) w = true -> split_by p w = [w].
Proof.
  induction w as [|c w IH]; cbn [all_chars split_by]; [done|]. intros H. apply andb_prop in H as [Hc Hw].
  rewrite IH by done. now destruct (p c).
Qed.

Lemma split_by_app p w c rest : all_chars (fun c => negb (p c)) w = true -> p c = true ->
  split_by p (w ++ String c rest) = w :: split_by p rest.
Proof.
  intros Hw Hc. induction w as [|d w IH]; rewrite ?append_nil, ?append_cons; cbn [all_chars split_by] in *; [now rewrite Hc|].
  apply andb_prop in Hw as [Hd Hw]. rewrite IH by done. now destruct (p d).
Qed.

Lemma split_concat p c ws : p c = true -> ws <> [] ->
  Forall (fun w => all_chars (fun c => negb (p c)) w = true) ws ->
  split_by p (String.concat (String c EmptyString) ws) = ws.
Proof.
  intros Hc Hne Hws. induction Hws as [|w ws Hw Hws IH]; [done|].
  destruct ws as [|w' ws]; [now apply split_by_clean|].
  change (split_by p (w ++ String c (String.concat (String c EmptyString) (w' :: ws))) = w :: w' :: ws).
  rewrite split_by_app by done. now rewrite IH.
Qed.

Lemma Cut_clean w sep : all_chars (fun c => negb (Ascii.eqb c sep)) w = true -> Cut w sep = None.
Proof.
  induction w as [|c w IH]; cbn [all_chars Cut]; [done|]. intros H. apply andb_prop in H as [Hc Hw].
  destruct (Ascii.eqb c sep); [done|]. now rewrite IH.
Qed.

Lemma Cut_app w sep rest : all_chars (fun c => negb (Ascii.eqb c sep)) w = true ->
  Cut (w ++ String sep rest) sep = Some (w, rest).
Proof.
  induction w as [|c w IH]; rewrite ?append_nil, ?append_cons; cbn [all_chars Cut]; [now rewrite Ascii.eqb_refl|].
  intros H. apply andb_prop in H as [Hc Hw]. destruct (Ascii.eqb c sep); [done|]. now rewrite IH.
Qed.

Lemma trim_right_app a b : trim_right b = b -> b <> EmptyString -> trim_right (a ++ b) = (a ++ b)%string.
Proof.
  intros Hb Hne. induction a as [|c a IH]; [exact Hb|]. rewrite append_cons. cbn [trim_right]. rewrite IH.
  destruct (a ++ b)%string eqn:E; [|done]. destruct a; [done|discriminate E].
Qed.

Lemma trim_right_clean w : all_chars (fun c => negb (is_space c)) w = true -> trim_right w = w.
Proof.
  induction w as [|c w IH]; cbn [all_chars trim_right]; [done|]. intros H. apply andb_prop in H as [Hc Hw].
  rewrite IH by done. destruct w; [|done]. now destruct (is_space c).
Qed.

Lemma TrimSpace_clean w : all_chars (fun c => negb (is_space c)) w = true -> TrimSpace w = w.
Proof.
  intros H. unfold TrimSpace. assert (E : trim_left w = w).
  { destruct w as [|c w]; [done|]. cbn [all_chars trim_left] in *. apply andb_prop in H as [H _]. now destruct (is_space c). }
  rewrite E. now apply trim_right_clean.
Qed.

(** What is left after trimming starts with a character that is no space. *)
Lemma TrimSpace_head s c rest : TrimSpace s = String c rest -> is_space c = false.
Proof.
  unfold TrimSpace. induction s as [|d s IH]; [done|]. cbn [trim_left].
  destruct (is_space d) eqn:Ed; [exact IH|]. cbn [trim_right]. rewrite Ed.
  destruct (trim_right s); now intros [= <- _].
Qed.

Lemma Fields_nonempty c rest : is_space c = false -> Fields (String c rest) <> [].
Proof.
  intros Hc. unfold Fields. cbn [split_by]. rewrite Hc. now destruct (split_by is_space rest).
Qed.

(** * Numbers in rules *)

(** Letters and digits: nothing the parser cuts at. *)
Definition alnum (c : ascii) : bool := match digit_value c with Some _ => true | None => false end.

Lemma alnum_word c : alnum c = true ->
  negb (is_space c) && negb (Ascii.eqb "," c) && negb (Ascii.eqb c "-") && negb (Ascii.eqb c ":") = true.
Proof. destruct c as [[] [] [] [] [] [] [] []]; vm_compute; done. Qed.

Lemma isDigit_alnum c : isDigit c = true -> alnum c = true.
Proof. destruct c as [[] [] [] [] [] [] [] []]; vm_compute; done. Qed.

Definition dec (n : Z) : string := string_of_N (Z.to_N n).

Lemma dec_alnum n : all_chars alnum (dec n) = true.
Proof. eapply all_chars_weaken; [exact isDigit_alnum|apply string_of_N_digits]. Qed.

Lemma digit_value_hex d : 0 <= d < 16 -> digit_value (hex_digit d) = Some (Z.to_N d).
Proof.
  intros H. assert (Hd : In d (map Z.of_nat (seq 0 16))).
  { replace d with (Z.of_nat (Z.to_nat d)) by lia. apply in_map, in_seq. lia. }
  cbn in Hd. repeat destruct Hd as [<-|Hd]; try reflexivity. done.
Qed.

Lemma hex_pad_alnum n : forall z acc, all_chars alnum acc = true -> all_chars alnum (hex_pad n z acc) = true.
Proof.
  induction n as [|n IH]; intros z acc H; [done|]. cbn [hex_pad]. apply IH. cbn [all_chars]. rewrite H, andb_true_r.
  unfold alnum. rewrite digit_value_hex by (apply Z.mod_pos_bound; lia). done.
Qed.

Lemma parse_hex_pad n : forall z acc a, 0 <= z ->
  parse_digits 16 (hex_pad n z acc) a = parse_digits 16 acc (a * 16 ^ N.of_nat n + Z.to_N (z mod 16 ^ Z.of_nat n)).
Proof.
  induction n as [|n IH]; intros z acc a Hz.
  - cbn [hex_pad]. f_equal. change (16 ^ Z.of_nat 0) with 1. rewrite Z.mod_1_r. cbn. lia.
  - cbn [hex_pad]. rewrite IH by (apply Z.div_pos; lia). cbn [parse_digits].
    pose proof (Z.mod_pos_bound z 16 ltac:(lia)) as Hm.
    rewrite digit_value_hex by lia. rewrite (proj2 (N.ltb_lt _ _)) by lia. f_equal.
    rewrite !Nat2Z.inj_succ, Nat2N.inj_succ, Z.pow_succ_r, N.pow_succ_r' by lia.
    rewrite (Z.rem_mul_r z 16 (16 ^ Z.of_nat n)) by lia.
    pose proof (Z.mod_pos_bound (z / 16) (16 ^ Z.of_nat n) ltac:(lia)). lia.
Qed.

Lemma ParseUint_dec bits n : 0 <= n < 2 ^ bits -> ParseUint (dec n) 10 bits = Ok n.
Proof.
  intros H. unfold ParseUint, dec. pose proof (parse_string_of_N (Z.to_N n)) as E.
  destruct (string_of_N_cons (Z.to_N n)) as (c & r & Es). rewrite Es in *. rewrite E.
  rewrite Z2N.id by lia. now rewrite (proj2 (Z.ltb_lt _ _)) by lia.
Qed.

Lemma ParseUint_hex n : 0 <= n < 2 ^ 64 -> ParseUint (hex016 n) 16 64 = Ok n.
Proof.
  intros H. unfold ParseUint, hex016. pose proof (parse_hex_pad 16 n EmptyString 0 ltac:(lia)) as E.
  destruct (hex_pad 16 n EmptyString) as [|c r] eqn:Es; [discriminate Es|]. rewrite E. cbn [parse_digits].
  change (16 ^ Z.of_nat 16) with (2 ^ 64). rewrite Z.mod_small by lia. rewrite N.mul_0_l, N.add_0_l.
  rewrite Z2N.id by lia. now rewrite (proj2 (Z.ltb_lt _ _)) by lia.
Qed.

Lemma ParseUint_range s base bits v : ParseUint s base bits = Ok v -> 0 <= v < 2 ^ bits.
Proof.
  unfold ParseUint. destruct s; [done|]. destruct (parse_digits _ _ _) as [n|]; [|done].
  destruct (Z.ltb_spec (Z.of_N n) (2 ^ bits)); [|done]. intros [= <-]. lia.
Qed.

(** * Well-formed rules *)

Definition range_ok (r : Z * Z) : Prop := 0 <= r.1 <= r.2 /\ r.2 < 2 ^ 32.

Definition matcher_bounds (m : PGNMatcher) : Prop :=
  Forall (fun n => 0 <= n < 2 ^ 32) (Singles m) /\ Forall range_ok (Ranges m).

(** The matcher names some PGN, all bounds are [uint32], and the rule says more
    than nothing. *)
Record wf_rule (r : SendRule) : Prop := {
  wf_pgns : forall m, PGNs r = Some m -> matcher_bounds m /\ (Singles m <> [] \/ Ranges m <> []);
  wf_names : Forall (fun n => 0 <= n < 2 ^ 64) (Names r);
  wf_says : Allow r = true -> PGNs r = None -> Names r <> []
}.

(** ** The text of a rule *)

Definition show_range (r : Z * Z) : string := (dec r.1 ++ String "-" (dec r.2))%string.

Definition pgn_parts (m : PGNMatcher) : list string := map dec (Singles m) ++ map show_range (Ranges m).

Definition rule_tokens (r : SendRule) : list string :=
  match PGNs r with Some m => [("pgn:" ++ String.concat "," (pgn_parts m))%string] | None => [] end ++
  match Names r with [] => [] | ns => [("name:" ++ String.concat "," (map hex016 ns))%string] end.

Definition show_rule (r : SendRule) : string :=
  ((if Allow r then "" else "!") ++ String.concat " " (rule_tokens r))%string.

(** ** Reading it back *)

Lemma fold_result_app {E A B} (f : A -> B -> result E A) a b1 b2 :
  fold_result f a (b1 ++ b2) = (a ← fold_result f a b1; fold_result f a b2).
Proof.
  revert a. induction b1 as [|b b1 IH]; intros a; [done|]. cbn [app fold_result mbind result_bind].
  destruct (f a b); cbn [mbind result_bind]; [apply IH|done].
Qed.

(** A loop that keeps an invariant. *)
Lemma fold_result_inv {E A B} (f : A -> B -> result E A) (P : A -> Prop) bs : forall a a',
  (forall a b a', P a -> f a b = Ok a' -> P a') -> P a -> fold_result f a bs = Ok a' -> P a'.
Proof.
  induction bs as [|b bs IH]; intros a a' Hf Ha; cbn [fold_result]; [now intros [= <-]|].
  destruct (f a b) as [a1|] eqn:E1; cbn [mbind result_bind]; [|done]. intros H.
  exact (IH a1 a' Hf (Hf _ _ _ Ha E1) H).
Qed.

Lemma alnum_clean (p : ascii -> bool) s :
  (forall c, alnum c = true -> negb (p c) = true) -> all_chars alnum s = true ->
  all_chars (fun c => negb (p c)) s = true.
Proof. intros Hp. now apply all_chars_weaken. Qed.

(** Characters of a part: letters, digits and the dash of a range. *)
Definition part_char (c : ascii) : bool := alnum c || Ascii.eqb c "-".

Lemma part_char_word c : part_char c = true -> negb (is_space c) && negb (Ascii.eqb "," c) && negb (Ascii.eqb c ":") = true.
Proof. destruct c as [[] [] [] [] [] [] [] []]; vm_compute; done. Qed.

Lemma alnum_part s : all_chars alnum s = true -> all_chars part_char s = true.
Proof. apply all_chars_weaken. intros c H. unfold part_char. now rewrite H. Qed.

Lemma show_range_part r : all_chars part_char (show_range r) = true.
Proof.
  unfold show_range. rewrite all_chars_app, alnum_part by apply dec_alnum. cbn [all_chars andb].
  change (part_char "-") with true. now rewrite alnum_part by apply dec_alnum.
Qed.

Lemma part_space s : all_chars part_char s = true -> all_chars (fun c => negb (is_space c)) s = true.
Proof. apply all_chars_weaken. intros c H%part_char_word. now apply andb_prop in H as [[H _]%andb_prop _]. Qed.

Lemma part_comma s : all_chars part_char s = true -> all_chars (fun c => negb (Ascii.eqb "," c)) s = true.
Proof. apply all_chars_weaken. intros c H%part_char_word. now apply andb_prop in H as [[_ H]%andb_prop _]. Qed.

Lemma dec_nonempty n : dec n <> EmptyString.
Proof. unfold dec. destruct (string_of_N_cons (Z.to_N n)) as (c & s & ->). discriminate. Qed.

Lemma parse_single m n : 0 <= n < 2 ^ 32 -> parse_pgn_part m (dec n) = Ok (mkPGNMatcher (Singles m ++ [n]) (Ranges m)).
Proof.
  intros H. unfold parse_pgn_part. rewrite TrimSpace_clean by apply part_space, alnum_part, dec_alnum.
  rewrite bool_decide_eq_false_2 by apply dec_nonempty. rewrite Cut_clean.
  - unfold parse_uint_as. rewrite ParseUint_dec by done. cbn [mbind result_bind]. now rewrite wrap_small.
  - eapply alnum_clean; [|apply dec_alnum]. intros c Hc%alnum_word. now apply andb_prop in Hc as [[_ Hc]%andb_prop _].
Qed.

Lemma parse_range m r : range_ok r -> parse_pgn_part m (show_range r) = Ok (mkPGNMatcher (Singles m) (Ranges m ++ [r])).
Proof.
  destruct r as [lo hi]. intros [Hlo Hhi]. cbn [fst snd] in *. unfold parse_pgn_part.
  rewrite TrimSpace_clean by apply part_space, show_range_part.
  rewrite bool_decide_eq_false_2.
  2: { unfold show_range, dec. cbn [fst]. destruct (string_of_N_cons (Z.to_N lo)) as (c & s & ->). now rewrite append_cons. }
  unfold show_range. cbn [fst snd]. rewrite Cut_app.
  - rewrite !TrimSpace_clean by apply part_space, alnum_part, dec_alnum. unfold parse_uint_as.
    rewrite !ParseUint_dec by lia. cbn [mbind result_bind]. destruct (Z.gtb_spec lo hi); [lia|].
    now rewrite !wrap_small by lia.
  - eapply alnum_clean; [|apply dec_alnum]. intros c Hc%alnum_word. now apply andb_prop in Hc as [[_ Hc]%andb_prop _].
Qed.

Lemma parse_singles ns : forall m, Forall (fun n => 0 <= n < 2 ^ 32) ns ->
  fold_result parse_pgn_part m (map dec ns) = Ok (mkPGNMatcher (Singles m ++ ns) (Ranges m)).
Proof.
  induction ns as [|n ns IH]; intros m H; [destruct m; cbn; now rewrite app_nil_r|].
  inversion H; subst. cbn [map fold_result]. rewrite parse_single by done. cbn [mbind result_bind].
  rewrite IH by done. cbn [Singles Ranges]. now rewrite <- app_assoc.
Qed.

Lemma parse_ranges rs : forall m, Forall range_ok rs ->
  fold_result parse_pgn_part m (map show_range rs) = Ok (mkPGNMatcher (Singles m) (Ranges m ++ rs)).
Proof.
  induction rs as [|r rs IH]; intros m H; [destruct m; cbn; now rewrite app_nil_r|].
  inversion H; subst. cbn [map fold_result]. rewrite parse_range by done. cbn [mbind result_bind].
  rewrite IH by done. cbn [Singles Ranges]. now rewrite <- app_assoc.
Qed.

Lemma pgn_parts_clean m : Forall (fun w => all_chars part_char w = true) (pgn_parts m).
Proof.
  apply Forall_app. split; apply Forall_map, Forall_true; intros x; [apply alnum_part, dec_alnum|apply show_range_part].
Qed.

Lemma parsePGNSpec_show m : matcher_bounds m -> Singles m <> [] \/ Ranges m <> [] ->
  parsePGNSpec (String.concat "," (pgn_parts m)) = Ok m.
Proof.
  intros [H1 H2] Hne. unfold parsePGNSpec, Split. rewrite split_concat; [|done| |].
  - unfold pgn_parts. rewrite fold_result_app, parse_singles by done. cbn [mbind result_bind].
    rewrite parse_ranges by done. cbn [mbind result_bind Singles Ranges app]. destruct m as [ss rs]; cbn [Singles Ranges] in *.
    destruct ss, rs; cbn; try done. now destruct Hne.
  - unfold pgn_parts. intros [E1 E2]%app_eq_nil. apply map_eq_nil in E1, E2. now destruct Hne.
  - eapply Forall_impl; [apply pgn_parts_clean|]. intros w. apply part_comma.
Qed.

Lemma hex_part n : all_chars part_char (hex016 n) = true.
Proof. apply alnum_part, hex_pad_alnum. done. Qed.

Lemma parse_name acc n : 0 <= n < 2 ^ 64 -> parse_name_part acc (hex016 n) = Ok (acc ++ [n]).
Proof.
  intros H. unfold parse_name_part. rewrite TrimSpace_clean by apply part_space, hex_part.
  rewrite bool_decide_eq_false_2 by (intros E; apply (f_equal String.length) in E; discriminate E).
  unfold parse_uint_as. now rewrite ParseUint_hex.
Qed.

Lemma parse_names ns : forall acc, Forall (fun n => 0 <= n < 2 ^ 64) ns ->
  fold_result parse_name_part acc (map hex016 ns) = Ok (acc ++ ns).
Proof.
  induction ns as [|n ns IH]; intros acc H; [cbn; now rewrite app_nil_r|]. inversion H; subst.
  cbn [map fold_result]. rewrite parse_name by done. cbn [mbind result_bind]. rewrite IH by done.
  now rewrite <- app_assoc.
Qed.

Lemma parseNameList_show ns : Forall (fun n => 0 <= n < 2 ^ 64) ns -> ns <> [] ->
  parseNameList (String.concat "," (map hex016 ns)) = Ok ns.
Proof.
  intros H Hne. unfold parseNameList, Split. rewrite split_concat; [|done| |].
  - rewrite parse_names by done. cbn [mbind result_bind app]. now destruct ns.
  - intros E%map_eq_nil. done.
  - apply Forall_map, Forall_true. intros n. apply part_comma, hex_part.
Qed.

(** ** Rules read are well formed *)

Lemma parse_part_bounds m part m' : matcher_bounds m -> parse_pgn_part m part = Ok m' -> matcher_bounds m'.
Proof.
  intros [H1 H2]. unfold parse_pgn_part, parse_uint_as. destruct (bool_decide _); [intros [= <-]; done|].
  destruct (Cut _ _) as [[lo hi]|].
  - destruct (ParseUint (TrimSpace lo) 10 32) as [l|] eqn:E1; cbn [mbind result_bind]; [|done].
    destruct (ParseUint (TrimSpace hi) 10 32) as [h|] eqn:E2; cbn [mbind result_bind]; [|done].
    apply ParseUint_range in E1, E2. destruct (Z.gtb_spec l h); [done|]. intros [= <-].
    rewrite !wrap_small by lia. split; [done|]. cbn. apply Forall_app. split; [done|].
    constructor; [|done]. unfold range_ok. cbn. lia.
  - destruct (ParseUint _ 10 32) as [v|] eqn:E; cbn [mbind result_bind]; [|done]. apply ParseUint_range in E.
    intros [= <-]. rewrite wrap_small by lia. split; [|done]. cbn. apply Forall_app. split; [done|]. now constructor.
Qed.

Lemma parsePGNSpec_ok s m : parsePGNSpec s = Ok m -> matcher_bounds m /\ (Singles m <> [] \/ Ranges m <> []).
Proof.
  unfold parsePGNSpec. destruct (fold_result _ _ _) as [m'|] eqn:E; cbn [mbind result_bind]; [|done].
  apply (fold_result_inv _ matcher_bounds) in E; [|exact parse_part_bounds|split; constructor].
  destruct m' as [[|n ss] [|r rs]]; cbn [Singles Ranges length]; [done|..]; intros [= <-]; (split; [done|]); auto.
Qed.

Lemma parseNameList_ok s ns : parseNameList s = Ok ns -> Forall (fun n => 0 <= n < 2 ^ 64) ns /\ ns <> [].
Proof.
  unfold parseNameList. destruct (fold_result _ _ _) as [ns'|] eqn:E; cbn [mbind result_bind]; [|done].
  apply (fold_result_inv _ (Forall (fun n => 0 <= n < 2 ^ 64))) in E; [| |constructor].
  - destruct ns'; [done|]. now intros [= <-].
  - intros acc part acc' Ha. unfold parse_name_part, parse_uint_as. destruct (bool_decide _); [now intros [= <-]|].
    destruct (ParseUint _ 16 64) as [v|] eqn:Ev; cbn [mbind result_bind]; [|done]. apply ParseUint_range in Ev.
    intros [= <-]. apply Forall_app. split; [done|]. now constructor.
Qed.

(** What holds of the rule while its tokens are read; [said] once there was one. *)
Definition partial_ok (said : bool) (r : SendRule) : Prop :=
  (forall m, PGNs r = Some m -> matcher_bounds m /\ (Singles m <> [] \/ Ranges m <> [])) /\
  Forall (fun n => 0 <= n < 2 ^ 64) (Names r) /\
  (said = true -> PGNs r <> None \/ Names r <> []).

Lemma parse_token_ok said r token r' : partial_ok said r -> parse_token r token = Ok r' -> partial_ok true r'.
Proof.
  intros (H1 & H2 & H3). unfold parse_token. destruct (Cut token ":") as [[key val]|]; [|done].
  destruct (bool_decide _); [|destruct (bool_decide _); [|done]].
  - destruct (parsePGNSpec val) as [m|] eqn:E; cbn [mbind result_bind]; [|done]. intros [= <-].
    split; [intros m' [= <-]; now apply parsePGNSpec_ok in E|]. split; [done|]. now left.
  - destruct (parseNameList val) as [ns|] eqn:E; cbn [mbind result_bind]; [|done]. intros [= <-].
    apply parseNameList_ok in E as [E1 E2]. split; [done|]. split; [done|]. now right.
Qed.

Lemma parse_token_allow r token r' : parse_token r token = Ok r' -> Allow r' = Allow r.
Proof.
  unfold parse_token. destruct (Cut token ":") as [[key val]|]; [|done].
  destruct (bool_decide _); [|destruct (bool_decide _); [|done]].
  - destruct (parsePGNSpec val); cbn [mbind result_bind]; [|done]. now intros [= <-].
  - destruct (parseNameList val); cbn [mbind result_bind]; [|done]. now intros [= <-].
Qed.

Lemma parse_tokens_ok tokens r r' : partial_ok false r -> fold_result parse_token r tokens = Ok r' ->
  partial_ok (bool_decide (tokens <> [])) r' /\ Allow r' = Allow r.
Proof.
  intros Hr H. split.
  - destruct tokens as [|t ts]; [injection H as <-; exact Hr|]. cbn [fold_result] in H.
    destruct (parse_token r t) as [r1|] eqn:E; cbn [mbind result_bind] in H; [|done].
    rewrite bool_decide_eq_true_2 by done.
    eapply (fold_result_inv parse_token (partial_ok true)); [|eapply parse_token_ok; eauto|exact H].
    intros a b a'. apply parse_token_ok.
  - apply (fold_result_inv parse_token (fun x => Allow x = Allow r)) in H; [done| |done].
    intros a b a' Ha E. apply parse_token_allow in E. congruence.
Qed.

Lemma ParseSendRule_wf s r : ParseSendRule s = Ok r -> wf_rule r.
Proof.
  unfold ParseSendRule. destruct (TrimSpace s) as [|c rest] eqn:Es; [done|]. apply TrimSpace_head in Es.
  assert (Hnew : forall b, partial_ok false (mkSendRule b None [])) by (intros b; repeat split; done || constructor).
  destruct (Ascii.eqb c "!"); intros H; apply (parse_tokens_ok _ _ _ (Hnew _)) in H as [(H1 & H2 & H3) Ha];
    cbn [Allow] in Ha; split; try done; rewrite ?Ha; try done.
  intros _ HP HN. rewrite bool_decide_eq_true_2 in H3 by now apply Fields_nonempty.
  destruct (H3 eq_refl); congruence.
Qed.

(** ** Printed rules are read back *)

Definition no_space (s : string) : bool := all_chars (fun c => negb (is_space c)) s.

Lemma concat_clean p sep ws : all_chars p sep = true -> Forall (fun w => all_chars p w = true) ws ->
  all_chars p (String.concat sep ws) = true.
Proof.
  intros Hs H. induction H as [|w ws Hw Hws IH]; [done|]. destruct ws as [|w' ws]; [done|].
  change (all_chars p (w ++ sep ++ String.concat sep (w' :: ws))%string = true).
  now rewrite !all_chars_app, Hw, Hs, IH.
Qed.

Lemma rule_tokens_clean r : Forall (fun w => no_space w = true) (rule_tokens r).
Proof.
  unfold rule_tokens, no_space. apply Forall_app. split.
  - destruct (PGNs r) as [m|]; constructor; [|constructor]. rewrite all_chars_app. apply andb_true_iff. split; [done|].
    apply concat_clean; [done|]. eapply Forall_impl; [apply pgn_parts_clean|]. intros w. apply part_space.
  - destruct (Names r) as [|n ns]; constructor; [|constructor]. rewrite all_chars_app. apply andb_true_iff. split; [done|].
    apply concat_clean; [done|]. apply Forall_map, Forall_true. intros x. apply part_space, hex_part.
Qed.

Lemma rule_tokens_nonblank r : Forall (fun w => nonblank w = true) (rule_tokens r).
Proof.
  unfold rule_tokens. apply Forall_app. split.
  - destruct (PGNs r); constructor; done || constructor.
  - destruct (Names r); constructor; done || constructor.
Qed.

Lemma filter_all {A} (p : A -> bool) l : Forall (fun x => p x = true) l -> List.filter p l = l.
Proof. induction 1 as [|x l Hx _ IH]; cbn; [done|]. now rewrite Hx, IH. Qed.

(** Words with blanks between them are cut into the words. *)
Lemma Fields_words ws : Forall (fun w => no_space w = true) ws -> Forall (fun w => nonblank w = true) ws ->
  Fields (String.concat " " ws) = ws.
Proof.
  intros H1 H2. unfold Fields. destruct ws as [|w ws]; [done|]. rewrite split_concat; [by apply filter_all|done|done|].
  eapply Forall_impl; [exact H1|]. done.
Qed.

Lemma Fields_show r : Fields (String.concat " " (rule_tokens r)) = rule_tokens r.
Proof. apply Fields_words; [apply rule_tokens_clean|apply rule_tokens_nonblank]. Qed.

(** The text of the tokens is trimmed already. *)
Lemma trim_right_tokens ws : Forall (fun w => no_space w = true) ws -> Forall (fun w => nonblank w = true) ws ->
  trim_right (String.concat " " ws) = String.concat " " ws.
Proof.
  intros H1 H2. induction H1 as [|w ws Hw Hws IH]; [done|]. inversion H2 as [|? ? Hb Hbs]; subst.
  destruct ws as [|w' ws]; [now apply trim_right_clean|].
  change (trim_right (w ++ (" " ++ String.concat " " (w' :: ws))) = w ++ (" " ++ String.concat " " (w' :: ws)))%string.
  apply trim_right_app; [|done]. apply trim_right_app; [now apply IH|].
  inversion Hbs as [|? ? Hb' _]; subst. cbn [String.concat]. destruct w'; [done|]. now destruct ws.
Qed.

Lemma tokens_head r : rule_tokens r <> [] ->
  exists c rest, String.concat " " (rule_tokens r) = String c rest /\ is_space c = false /\ c <> "!"%char.
Proof.
  unfold rule_tokens. destruct (PGNs r) as [m|]; [|destruct (Names r) as [|n ns]; [done|]]; intros _.
  - destruct (Names r); cbn [app String.concat]; rewrite ?append_cons; by eexists _, _.
  - cbn [app String.concat]. rewrite append_cons. by eexists _, _.
Qed.

Lemma TrimSpace_words ws : Forall (fun w => no_space w = true) ws -> Forall (fun w => nonblank w = true) ws ->
  TrimSpace (String.concat " " ws) = String.concat " " ws.
Proof.
  intros H1 H2. unfold TrimSpace.
  assert (El : trim_left (String.concat " " ws) = String.concat " " ws).
  { destruct ws as [|w ws]; [done|]. apply Forall_cons in H1 as [H1 _]. apply Forall_cons in H2 as [H2 _]. destruct w as [|c w]; [done|].
    apply andb_prop in H1 as [Hc _]. apply negb_true_iff in Hc. cbn [String.concat]. destruct ws; rewrite ?append_cons; cbn [trim_left]; by rewrite Hc. }
  rewrite El. by apply trim_right_tokens.
Qed.

Lemma TrimSpace_show r : TrimSpace (String.concat " " (rule_tokens r)) = String.concat " " (rule_tokens r).
Proof. apply TrimSpace_words; [apply rule_tokens_clean|apply rule_tokens_nonblank]. Qed.

Lemma parse_show_tokens allow r : wf_rule r ->
  fold_result parse_token (mkSendRule allow None []) (rule_tokens r) = Ok (mkSendRule allow (PGNs r) (Names r)).
Proof.
  intros [H1 H2 _]. unfold rule_tokens. rewrite fold_result_app.
  assert (E : fold_result parse_token (mkSendRule allow None [])
    match PGNs r with Some m => [("pgn:" ++ String.concat "," (pgn_parts m))%string] | None => [] end =
    Ok (mkSendRule allow (PGNs r) [])).
  { destruct (PGNs r) as [m|]; [|done]. destruct (H1 m eq_refl). cbn [fold_result]. unfold parse_token.
    change ("pgn:" ++ ?x)%string with ("pgn" ++ String ":" x)%string. rewrite Cut_app by done.
    rewrite bool_decide_eq_true_2 by done. now rewrite parsePGNSpec_show. }
  rewrite E. cbn [mbind result_bind]. destruct (Names r) as [|n ns]; [done|]. cbn [fold_result]. unfold parse_token.
  change ("name:" ++ ?x)%string with ("name" ++ String ":" x)%string. rewrite Cut_app by done.
  rewrite bool_decide_eq_false_2, bool_decide_eq_true_2 by done. now rewrite parseNameList_show.
Qed.

Lemma ParseSendRule_show r : wf_rule r -> ParseSendRule (show_rule r) = Ok r.
Proof.
  intros Hwf. unfold ParseSendRule, show_rule. destruct r as [allow pgns names]. cbn [Allow]. destruct allow.
  - rewrite append_nil, TrimSpace_show. destruct (tokens_head (mkSendRule true pgns names)) as (c & rest & E & _ & Hc).
    { unfold rule_tokens. cbn [PGNs Names]. destruct pgns; [done|]. destruct names; [|done].
      now destruct (wf_says _ Hwf eq_refl eq_refl). }
    rewrite E at 1. destruct (Ascii.eqb_spec c "!"); [done|]. rewrite ?E, <- ?E, Fields_show.
    now rewrite parse_show_tokens.
  - assert (Et : TrimSpace ("!" ++ String.concat " " (rule_tokens (mkSendRule false pgns names))) =
      ("!" ++ String.concat " " (rule_tokens (mkSendRule false pgns names)))%string).
    { unfold TrimSpace. cbn [trim_left String.append].
      change (trim_left ("!" ++ ?x)%string) with ("!" ++ x)%string.
      destruct (String.concat " " (rule_tokens (mkSendRule false pgns names))) as [|c rest] eqn:E; [done|].
      apply trim_right_app; [|done]. rewrite <- E.
      apply trim_right_tokens; [apply rule_tokens_clean|apply rule_tokens_nonblank]. }
    rewrite Et, append_cons, append_nil, Ascii.eqb_refl, TrimSpace_show, Fields_show.
    now rewrite parse_show_tokens.
Qed.

(** The rules the parser gives are exactly those the language can say.  A rule
    read from any text is well formed, with PGN bounds in order, and its canonical
    text, in the documented syntax, is read as the same rule. *)
Theorem ParseSendRule_canonical s r : ParseSendRule s = Ok r ->
  wf_rule r /\ ParseSendRule (show_rule r) = Ok r.
Proof. intros H%ParseSendRule_wf. split; [done|]. now apply ParseSendRule_show. Qed.

Lemma ParseSendRule_canonical_witness :
  let r := mkSendRule true (Some (mkPGNMatcher [59904; 126208] [(65280, 65535)])) [0x001c6e4000200000] in
  show_rule r = "pgn:59904,126208,65280-65535 name:001c6e4000200000"%string /\
  wf_rule r /\ ParseSendRule (show_rule r) = Ok r.
Proof.
  split; [vm_compute; reflexivity|].
  apply (ParseSendRule_canonical "  pgn:65280-65535,59904,,126208  name:1C6E4000200000 "). vm_compute. reflexivity.
Defined.
