(* ===== verification/Server.v ===== *)
(** The HTTP and WebSocket interface: [server.go] and [websocket.go].

    Each handler is a function on the broker's state.  Request bodies come decoded
    ([encoding/json]; [None] is a body that does not decode), answers go out
    before encoding.  The clock, the rate limiter's answer, the identity of a new
    subscriber and the order in which maps are visited are arguments, as are the
    messages a client sends over an open WebSocket, which [wsReadLoop] handles one
    after another.  Streams that follow a subscription are the broker's fan-out and the consumer's
    [Next], modelled in their files. *)

From S2P Require Import Prelude CanId GoNum FilterLang SendPolicy Devices Filters Values VirtualDevice CanIO Ring Consumer Broker.
From Stdlib Require Import Ascii.

(** * Durations *)

Inductive duration_error :=
| DurStart
| DurFormat
| DurTimeUnit (unit : ascii)
| DurDateUnit (unit : ascii)
| DurFuel.

Section iso8601.
  (** Go computes in [int64]: [narrow] is [i64].  On unbounded integers it is the
      identity. *)
  Context (narrow : Z -> Z).

(** [val = val*10 + int(c-'0')]. *)
Fixpoint digits_value (s : string) (val : Z) : Z :=
  match s with
  | EmptyString => val
  | String c s => digits_value s (narrow (narrow (val * 10) + (Z_of_ascii c - 48)))
  end.

(** The duration of [val] units. *)
Definition unit_duration (inTime : bool) (unit : ascii) (val : Z) : option duration :=
  if inTime then
    if Ascii.eqb unit "H" then Some (narrow (val * hour))
    else if Ascii.eqb unit "M" then Some (narrow (val * minute))
    else if Ascii.eqb unit "S" then Some (narrow (val * second))
    else None
  else
    if Ascii.eqb unit "D" then Some (narrow (narrow (val * 24) * hour))
    else if Ascii.eqb unit "W" then Some (narrow (narrow (narrow (val * 7) * 24) * hour))
    else None.

Fixpoint iso_loop (fuel : nat) (rest : string) (inTime parsed : bool) (total : duration)
    : result duration_error duration :=
  match fuel with
  | O => Err DurFuel
  | S fuel =>
      match rest with
      | EmptyString => if parsed then Ok total else Err DurFormat
      | String c rest' =>
          if Ascii.eqb c "T" then iso_loop fuel rest' true parsed total
          else
            let '(digits, after) := span isDigit rest in
            match digits, after with
            | EmptyString, _ | _, EmptyString => Err DurFormat
            | _, String unit rest' =>
                match unit_duration inTime unit (digits_value digits 0) with
                | Some d => iso_loop fuel rest' inTime true (narrow (total + d))
                | None => Err (if inTime then DurTimeUnit unit else DurDateUnit unit)
                end
            end
      end
  end.

Definition parse_iso8601 (s : string) : result duration_error duration :=
  match s with
  | String c ((String _ _) as rest) =>
      if Ascii.eqb c "P" then iso_loop (S (String.length rest)) rest false false 0 else Err DurStart
  | _ => Err DurStart
  end.
End iso8601.

Definition ParseISO8601Duration : string -> result duration_error duration := parse_iso8601 i64.

Example durations :
  map ParseISO8601Duration ["PT5M"; "PT1H30M"; "P1DT1S"; "P"; "PT"; "5M"; "PT5"; "P5M"; "PT1D"; "PT3000000H"]%string =
  [Ok (5 * minute); Ok (90 * minute); Ok (86401 * second); Err DurStart; Err DurFormat; Err DurStart; Err DurFormat;
   Err (DurDateUnit "M"); Err (DurTimeUnit "D"); Ok (- 7646744073709551616)].
Proof. vm_compute. reflexivity. Qed.

(** * Client identifiers and hex data *)

(** The pattern of one to 64 letters, digits, hyphens and underscores. *)
Definition client_char (c : ascii) : bool := isIdentPart c || Ascii.eqb c "-".

Definition clientIDPattern (s : string) : bool :=
  all_chars client_char s && (1 <=? String.length s)%nat && (String.length s <=? 64)%nat.

(** * Filters in requests *)

Inductive filter_param_error :=
| BadPGN (s : string) (e : num_error)
| BadExcludePGN (s : string) (e : num_error)
| BadInstance (s : string) (e : num_error)
| BadName (s : string)
| BadExcludeName (s : string).

(** A list of numbers, each read or refused with the error of its parameter. *)
Fixpoint parse_uints {E} (err : string -> num_error -> E) (base : N) (bits : Z) (ss : list string) : result E (list Z) :=
  match ss with
  | [] => Ok []
  | s :: ss =>
      match ParseUint s base bits with
      | Err e => Err (err s e)
      | Ok v => vs ← parse_uints err base bits ss; Ok (v :: vs)
      end
  end.

(** The query parameters of a filter. *)
Record filter_query := mkFilterQuery {
  q_pgn : list string;
  q_exclude_pgn : list string;
  q_manufacturer : list string;
  q_instance : list string;
  q_name : list string;
  q_exclude_name : list string;
  q_bus : list string
}.

Definition no_filter_params (q : filter_query) : bool :=
  negb (nonempty (q_pgn q)) && negb (nonempty (q_exclude_pgn q)) && negb (nonempty (q_manufacturer q))
  && negb (nonempty (q_instance q)) && negb (nonempty (q_name q)) && negb (nonempty (q_exclude_name q))
  && negb (nonempty (q_bus q)).

Definition ParseFilterParams (q : filter_query) : result filter_param_error (option EventFilter) :=
  if no_filter_params q then Ok None
  else
    pgns ← parse_uints BadPGN 10 32 (q_pgn q);
    excludePGNs ← parse_uints BadExcludePGN 10 32 (q_exclude_pgn q);
    instances ← parse_uints BadInstance 10 8 (q_instance q);
    names ← parse_uints (fun s _ => BadName s) 16 64 (q_name q);
    excludeNames ← parse_uints (fun s _ => BadExcludeName s) 16 64 (q_exclude_name q);
    let f := mkEventFilter (map u32 pgns) (map u32 excludePGNs) (q_manufacturer q) (map u8 instances) names excludeNames
               (q_bus q) in
    Ok (if IsEmpty (Some f) then None else Some f).

(** The filter of a request body: numbers come decoded, NAMEs as hex text. *)
Record filter_body := mkFilterBody {
  fb_PGN : list Z;
  fb_ExcludePGN : list Z;
  fb_Manufacturer : list string;
  fb_Instance : list Z;
  fb_Name : list string;
  fb_ExcludeName : list string;
  fb_Bus : list string
}.

Definition body_filter (fb : filter_body) : result filter_param_error EventFilter :=
  names ← parse_uints (fun s _ => BadName s) 16 64 (fb_Name fb);
  excludeNames ← parse_uints (fun s _ => BadExcludeName s) 16 64 (fb_ExcludeName fb);
  Ok (mkEventFilter (fb_PGN fb) (fb_ExcludePGN fb) (fb_Manufacturer fb) (fb_Instance fb) names excludeNames (fb_Bus fb)).

(** * The server *)

Record Server := mkServer {
  sv_policy : SendPolicy;
  sv_apiKey : string;
  sv_limiter : option (float64 * Z);
  sv_readOnly : bool
}.

Definition NewServer (policy : SendPolicy) : Server := mkServer policy "" None false.

Definition SetAPIKey (key : string) (s : Server) : Server := mkServer (sv_policy s) key (sv_limiter s) (sv_readOnly s).
Definition SetSendPolicy (p : SendPolicy) (s : Server) : Server := mkServer p (sv_apiKey s) (sv_limiter s) (sv_readOnly s).
Definition SetReadOnly (ro : bool) (s : Server) : Server := mkServer (sv_policy s) (sv_apiKey s) (sv_limiter s) ro.

(** [rps > 0] is false of NaN. *)
Definition SetSendRateLimit (rps : float64) (burst : Z) (s : Server) : Server :=
  if compare_floats rps opGt (float_of_Z 0)
  then mkServer (sv_policy s) (sv_apiKey s) (Some (rps, burst)) (sv_readOnly s) else s.

Inductive api_error :=
| Unauthorized
| BadBody
| BadClientID
| BadBufferTimeout (e : duration_error)
| BadFilter (e : filter_param_error)
| SessionNotFound (id : string)
| RateLimited
| ReadOnlyMode
| SendDisabled
| DeniedByRule (pgn dst : Z)
| NoRuleMatched (pgn dst : Z)
| DeniedByPolicy
| BadHex
| NotReady
| TxQueueFull
| PGNRequired
| BadTimeout (e : duration_error)
| QueryTimeout.

Inductive reply_body :=
| NoBody
| ErrorText (e : api_error)
| SessionInfo (id : string) (seq cursor : Z) (devices : list Device)
| DeviceList (devices : list Device)
| ValueList (values : list (DeviceValues PGNValue))
| FrameStream (sub : nat)
| ConsumerStream (c : Consumer.Consumer)
| Event (ev : sse_event)
| Waiting (sub : nat) (timeout : duration).

Record reply := mkReply { code : Z; body : reply_body }.

Definition fail (code : Z) (e : api_error) : reply := mkReply code (ErrorText e).

(** What a call sees of the outside. *)
Record Call := mkCall {
  cl_now : time;
  cl_allow : bool;
  cl_sub : nat;
  cl_devices : DeviceRegistry -> list deviceKey;
  cl_values : ValueStore -> list valueKey
}.

(** ** Sending *)

(** The NAME a destination is known under; broadcasts have none. *)
Definition dst_name (b : Broker) (bus : string) (dst : Z) : option Z :=
  if dst =? 0xFF then None else dev_NAME <$> Devices.Get bus dst (devices (b_state b)).

Definition rule_matches (r : SendRule) (pgn : Z) (name : option Z) : bool :=
  Matches r pgn (default 0 name) (bool_decide (is_Some name)).

(** The loop over the rules: the first that matches. *)
Fixpoint first_match (rules : list SendRule) (pgn : Z) (name : option Z) : option SendRule :=
  match rules with
  | [] => None
  | r :: rules => if rule_matches r pgn name then Some r else first_match rules pgn name
  end.

(** [None] is allowed; all refusals are answered with 403. *)
Definition checkSendPolicy (s : Server) (b : Broker) (bus : string) (pgn dst : Z) : option api_error :=
  if sv_readOnly s then Some ReadOnlyMode
  else if negb (Enabled (sv_policy s)) then Some SendDisabled
  else if (length (Rules (sv_policy s)) =? 0)%nat then None
  else match first_match (Rules (sv_policy s)) pgn (dst_name b bus dst) with
       | Some r => if Allow r then None else Some (DeniedByRule pgn dst)
       | None => Some (NoRuleMatched pgn dst)
       end.

(** [None] when no virtual device is ready; otherwise the source to use. *)
Definition overrideSource (now : time) (b : Broker) (src : Z) : option Z :=
  match b_virtual b with
  | None => Some src
  | Some vdm => match ClaimedSource vdm with
                | Some addr => if Ready now vdm then Some addr else None
                | None => None
                end
  end.

Record send_request := mkSendRequest {
  sr_PGN : Z; sr_Src : Z; sr_Dst : Z; sr_Prio : Z; sr_Data : string; sr_Bus : string
}.

Definition rate_limited (s : Server) (c : Call) : bool :=
  match sv_limiter s with Some _ => negb (cl_allow c) | None => false end.

Definition handleSend (s : Server) (c : Call) (req : option send_request) (b : Broker) : Broker * reply :=
  if rate_limited s c then (b, fail 429 RateLimited)
  else match req with
  | None => (b, fail 400 BadBody)
  | Some req =>
      match checkSendPolicy s b (sr_Bus req) (sr_PGN req) (sr_Dst req) with
      | Some e => (b, fail 403 e)
      | None =>
          match hex_DecodeString (sr_Data req) with
          | None => (b, fail 400 BadHex)
          | Some data =>
              match overrideSource (cl_now c) b (sr_Src req) with
              | None => (b, fail 503 NotReady)
              | Some src =>
                  let header := mkCANHeader (sr_Prio req) (sr_PGN req) src (sr_Dst req) in
                  let '(b, ok) := QueueTx (mkTxRequest header data (sr_Bus req)) b in
                  (b, if ok then mkReply 202 NoBody else fail 503 TxQueueFull)
              end
          end
      end
  end.

Record query_request := mkQueryRequest { qr_PGN : Z; qr_Dst : Z; qr_Timeout : string; qr_Bus : string }.

(** [handleQuery] up to its wait: the subscription is in place and the request
    queued. *)
Definition query_start (s : Server) (c : Call) (req : option query_request) (b : Broker) : Broker * reply :=
  if rate_limited s c then (b, fail 429 RateLimited)
  else match req with
  | None => (b, fail 400 BadBody)
  | Some req =>
      if qr_PGN req =? 0 then (b, fail 400 PGNRequired)
      else
        let dst := if qr_Dst req =? 0 then 0xFF else qr_Dst req in
        match checkSendPolicy s b (qr_Bus req) (qr_PGN req) dst with
        | Some e => (b, fail 403 e)
        | None =>
            match (if bool_decide (qr_Timeout req = EmptyString) then Ok (2 * second)
                   else ParseISO8601Duration (qr_Timeout req)) with
            | Err e => (b, fail 400 (BadTimeout e))
            | Ok timeout =>
                if match b_virtual b with Some vdm => negb (Ready (cl_now c) vdm) | None => false end
                then (b, fail 503 NotReady)
                else
                  let b := Subscribe (cl_sub c) (Some (mkEventFilter [qr_PGN req] [] [] [] [] [] [])) b in
                  match SendISORequest (qr_Bus req) dst (qr_PGN req) b with
                  | (b, Err _) => (Unsubscribe (cl_sub c) b, fail 503 TxQueueFull)
                  | (b, Ok _) => (b, mkReply 200 (Waiting (cl_sub c) timeout))
                  end
            end
        end
  end.

(** The end of the wait: the first event of the subscriber, or the timeout. *)
Definition query_finish (sub : nat) (b : Broker) : Broker * reply :=
  (Unsubscribe sub b,
   match (ch ← sub_ch <$> subscribers (b_state b) !! sub; List.hd_error ch) with
   | Some ev => mkReply 200 (Event ev)
   | None => fail 504 QueryTimeout
   end).

(** [wsHandleSend]: a message on an open WebSocket. *)
Definition wsHandleSend (s : Server) (req : option send_request) (b : Broker) : Broker * option api_error :=
  match req with
  | None => (b, Some BadBody)
  | Some req =>
      if negb (Enabled (sv_policy s)) then (b, Some SendDisabled)
      else if (0 <? length (Rules (sv_policy s)))%nat
           && negb match first_match (Rules (sv_policy s)) (sr_PGN req) (dst_name b (sr_Bus req) (sr_Dst req)) with
                   | Some r => Allow r
                   | None => false
                   end
      then (b, Some DeniedByPolicy)
      else match hex_DecodeString (sr_Data req) with
           | None => (b, Some BadHex)
           | Some data =>
               let src := match b_virtual b with
                          | Some vdm => default (sr_Src req) (ClaimedSource vdm)
                          | None => sr_Src req
                          end in
               let header := mkCANHeader (sr_Prio req) (sr_PGN req) src (sr_Dst req) in
               let '(b, ok) := QueueTx (mkTxRequest header data (sr_Bus req)) b in
               (b, if ok then None else Some TxQueueFull)
           end
  end.

(** ** Sessions and snapshots *)

Record session_request := mkSessionRequest { ss_BufferTimeout : string; ss_Filter : option filter_body }.

(** The timeout and filter of a request, as [handleCreateSession] reads them. *)
Definition session_timeout (text : string) : result api_error duration :=
  if bool_decide (text = EmptyString) then Ok 0
  else match ParseISO8601Duration text with Ok d => Ok d | Err e => Err (BadBufferTimeout e) end.

Definition session_filter (fb : option filter_body) : result api_error (option EventFilter) :=
  match fb with
  | None => Ok None
  | Some fb => match body_filter fb with Ok f => Ok (Some f) | Err e => Err (BadFilter e) end
  end.

Definition handleCreateSession (c : Call) (clientID : string) (req : option session_request) (b : Broker)
    : Broker * reply :=
  if negb (clientIDPattern clientID) then (b, fail 400 BadClientID)
  else match req with
  | None => (b, fail 400 BadBody)
  | Some req =>
      match (bufTimeout ← session_timeout (ss_BufferTimeout req);
             filter ← session_filter (ss_Filter req);
             Ok (bufTimeout, filter)) with
      | Err e => (b, fail 400 e)
      | Ok (bufTimeout, filter) =>
          let '(b, session, seq) := CreateSession clientID bufTimeout filter (cl_now c) b in
          (b, mkReply 200 (SessionInfo (ID session) seq (Cursor session)
                (Devices.Snapshot (cl_devices c (devices (b_state b))) (devices (b_state b)))))
      end
  end.

Definition handleAck (c : Call) (clientID : string) (req : option Z) (b : Broker) : Broker * reply :=
  match req with
  | None => (b, fail 400 BadBody)
  | Some seq => match AckSession clientID seq (cl_now c) b with
                | (b, Err id) => (b, fail 404 (SessionNotFound id))
                | (b, Ok _) => (b, mkReply 204 NoBody)
                end
  end.

(** [NewConsumer]: registered under the subscriber's identity, its filter resolved
    against the devices known now. *)
Definition NewConsumer (c : Call) (cursor : Z) (filter : option EventFilter) (b : Broker)
    : Broker * Consumer.Consumer :=
  let filter := resolve filter (cl_devices c (devices (b_state b))) (devices (b_state b)) in
  (with_consumers b (<[cl_sub c := Broker.mkConsumer cursor filter false false]> (consumers (b_state b))),
   Consumer.mkConsumer cursor filter None).

(** [handleSSE] up to its loop. *)
Definition handleSSE (c : Call) (clientID : string) (b : Broker) : Broker * reply :=
  match GetSession clientID b with
  | None => (b, fail 404 (SessionNotFound clientID))
  | Some session =>
      let cursor := if 0 <? Cursor session then u64 (Cursor session + 1) else u64 (CurrentSeq b + 1) in
      let '(b, consumer) := NewConsumer c cursor (Filter session) b in
      (TouchSession clientID (cl_now c) b, mkReply 200 (ConsumerStream consumer))
  end.

(** [HandleEphemeralSSE] up to its loop; the start of [HandleWebSocket]. *)
Definition handle_events (c : Call) (q : filter_query) (b : Broker) : Broker * reply :=
  match ParseFilterParams q with
  | Err e => (b, fail 400 (BadFilter e))
  | Ok filter => (Subscribe (cl_sub c) filter b, mkReply 200 (FrameStream (cl_sub c)))
  end.

(** A message on a WebSocket: a send request, or one that is ignored. *)
Inductive ws_message := WSSend (req : option send_request) | WSOther.

(** [wsReadLoop], over the messages read so far. *)
Definition wsReadLoop (s : Server) (msgs : list ws_message) (b : Broker) : Broker :=
  foldl (fun b msg => match msg with WSSend req => (wsHandleSend s req b).1 | WSOther => b end) b msgs.

(** [HandleWebSocket] while the connection is open. *)
Definition HandleWebSocket (s : Server) (c : Call) (q : filter_query) (msgs : list ws_message) (b : Broker)
    : Broker * reply :=
  let '(b, r) := handle_events c q b in
  match ParseFilterParams q with Err _ => (b, r) | Ok _ => (wsReadLoop s msgs b, r) end.

Definition handleDevices (c : Call) (b : Broker) : reply :=
  mkReply 200 (DeviceList (Devices.Snapshot (cl_devices c (devices (b_state b))) (devices (b_state b)))).

Definition handleValues (c : Call) (q : filter_query) (b : Broker) : reply :=
  match ParseFilterParams q with
  | Err e => fail 400 (BadFilter e)
  | Ok filter => mkReply 200 (ValueList (Values.Snapshot (devices (b_state b)) filter
                   (cl_values c (values (b_state b))) (values (b_state b))))
  end.

(** ** Routing and authentication *)

(** The routes, a WebSocket with the messages its client has sent; [Registered] is one added with [HandleFunc], whose handler is the
    caller's and whose answer is an argument. *)
Inductive route :=
| RouteEvents (q : filter_query)
| RouteWebSocket (q : filter_query) (msgs : list ws_message)
| RouteCreateSession (id : string) (req : option session_request)
| RouteSessionEvents (id : string)
| RouteAck (id : string) (req : option Z)
| RouteSend (req : option send_request)
| RouteQuery (req : option query_request)
| RouteDevices
| RouteValues (q : filter_query)
| Registered (path : string) (answer : reply).

Definition route_path (r : route) : string :=
  match r with
  | RouteEvents _ => "/events"
  | RouteWebSocket _ _ => "/ws"
  | RouteCreateSession id _ => "/clients/" ++ id
  | RouteSessionEvents id => "/clients/" ++ id ++ "/events"
  | RouteAck id _ => "/clients/" ++ id ++ "/ack"
  | RouteSend _ => "/send"
  | RouteQuery _ => "/query"
  | RouteDevices => "/devices"
  | RouteValues _ => "/values"
  | Registered path _ => path
  end%string.

Definition route_handler (s : Server) (c : Call) (r : route) (b : Broker) : Broker * reply :=
  match r with
  | RouteEvents q => handle_events c q b
  | RouteWebSocket q msgs => HandleWebSocket s c q msgs b
  | RouteCreateSession id req => handleCreateSession c id req b
  | RouteSessionEvents id => handleSSE c id b
  | RouteAck id req => handleAck c id req b
  | RouteSend req => handleSend s c req b
  | RouteQuery req => query_start s c req b
  | RouteDevices => (b, handleDevices c b)
  | RouteValues q => (b, handleValues c q b)
  | Registered _ answer => (b, answer)
  end.

(** A request: its method is [OPTIONS] or that of its route; absent headers are
    empty. *)
Record http_request := mkHTTPRequest {
  rq_options : bool;
  rq_authorization : string;
  rq_xapikey : string;
  rq_route : route
}.

(** [auth[:7] == "Bearer "] with [len(auth) > 7]: the rest of the header. *)
Definition bearer_token (auth : string) : option string :=
  if (7 <? String.length auth)%nat && bool_decide (String.substring 0 7 auth = "Bearer "%string)
  then Some (String.substring 7 (String.length auth - 7) auth) else None.

Definition checkAPIKey (s : Server) (r : http_request) : bool :=
  match bearer_token (rq_authorization r) with
  | Some token => bool_decide (token = sv_apiKey s)
  | None => if negb (bool_decide (rq_xapikey r = EmptyString)) then bool_decide (rq_xapikey r = sv_apiKey s) else false
  end.

Definition isHealthEndpoint (path : string) : bool :=
  bool_decide (path = "/healthz"%string) || bool_decide (path = "/livez"%string)
  || bool_decide (path = "/readyz"%string) || bool_decide (path = "/metrics"%string).

Definition ServeHTTP (s : Server) (c : Call) (r : http_request) (b : Broker) : Broker * reply :=
  if rq_options r then (b, mkReply 204 NoBody)
  else if negb (bool_decide (sv_apiKey s = EmptyString)) && negb (isHealthEndpoint (route_path (rq_route r)))
          && negb (checkAPIKey s r)
  then (b, fail 401 Unauthorized)
  else route_handler s c (rq_route r) b.

(** * Durations are exact or wrap *)

Lemma i64_small_id z : i64 (i64 z) = i64 z.
Proof. apply i64_small, i64_range. Qed.

Lemma i64_mul_l a b : i64 (i64 a * b) = i64 (a * b).
Proof.
  unfold i64. f_equal. rewrite Z.mul_sub_distr_r.
  replace ((a + 2 ^ 63) mod 2 ^ 64 * b - 2 ^ 63 * b + 2 ^ 63) with ((a + 2 ^ 63) mod 2 ^ 64 * b + (2 ^ 63 - 2 ^ 63 * b)) by lia.
  rewrite Zplus_mod, Zmult_mod_idemp_l, <- Zplus_mod. f_equal. lia.
Qed.

Lemma i64_add_l a b : i64 (i64 a + b) = i64 (a + b).
Proof. rewrite Z.add_comm, i64_add_i64. f_equal. lia. Qed.

Lemma digits_value_i64 s : forall v, digits_value i64 s (i64 v) = i64 (digits_value (fun z => z) s v).
Proof.
  induction s as [|c s IH]; intros v; [done|]. cbn [digits_value]. rewrite <- IH. f_equal.
  now rewrite i64_mul_l, i64_add_l.
Qed.

Lemma unit_duration_i64 inTime unit v :
  unit_duration i64 inTime unit (i64 v) = i64 <$> unit_duration (fun z => z) inTime unit v.
Proof.
  unfold unit_duration. destruct inTime; repeat case_match; cbn [fmap option_fmap option_map];
    try done; f_equal; repeat progress (rewrite ?i64_mul_l, <- ?Z.mul_assoc); reflexivity.
Qed.

(** On a result, a function of the value. *)
Definition map_ok {E A B} (f : A -> B) (r : result E A) : result E B :=
  match r with Ok a => Ok (f a) | Err e => Err e end.

Lemma iso_loop_i64 fuel : forall rest inTime parsed total,
  iso_loop i64 fuel rest inTime parsed (i64 total) = map_ok i64 (iso_loop (fun z => z) fuel rest inTime parsed total).
Proof.
  induction fuel as [|fuel IH]; intros rest inTime parsed total; [done|]. cbn [iso_loop].
  destruct rest as [|c rest']; [now destruct parsed|]. destruct (Ascii.eqb c "T"); [apply IH|].
  destruct (span isDigit (String c rest')) as [[|d digits] [|unit after]]; try done.
  pose proof (digits_value_i64 (String d digits) 0) as Ev. change (i64 0) with 0 in Ev. rewrite Ev, unit_duration_i64.
  destruct (unit_duration _ inTime unit _) as [v|]; cbn [fmap option_fmap option_map]; [|done].
  rewrite i64_add_l, i64_add_i64. apply IH.
Qed.

Lemma iso_loop_fuel narrow fuel : forall rest inTime parsed total, (String.length rest < fuel)%nat ->
  iso_loop narrow fuel rest inTime parsed total <> Err DurFuel.
Proof.
  induction fuel as [|fuel IH]; intros rest inTime parsed total Hf; [lia|]. cbn [iso_loop].
  destruct rest as [|c rest']; [now destruct parsed|]. cbn [String.length] in Hf.
  destruct (Ascii.eqb c "T"); [apply IH; lia|].
  destruct (span isDigit (String c rest')) as [[|d digits] [|unit after]] eqn:E; try done.
  apply span_length in E. cbn [String.length] in E.
  destruct (unit_duration _ _ _ _); [apply IH; lia|now destruct inTime].
Qed.

(** Durations are read exactly, or wrap.  [ParseISO8601Duration] ends on every
    text, refuses what it would refuse on unbounded integers, and otherwise gives
    the exact number of nanoseconds reduced to an [int64]; so it is the exact
    duration whenever that fits. *)
Theorem ParseISO8601Duration_exact s :
  ParseISO8601Duration s = map_ok i64 (parse_iso8601 (fun z => z) s) /\
  ParseISO8601Duration s <> Err DurFuel /\
  forall d, parse_iso8601 (fun z => z) s = Ok d -> - 2 ^ 63 <= d < 2 ^ 63 -> ParseISO8601Duration s = Ok d.
Proof.
  assert (H : ParseISO8601Duration s = map_ok i64 (parse_iso8601 (fun z => z) s)).
  { unfold ParseISO8601Duration, parse_iso8601. destruct s as [|c [|d s]]; [done..|].
    destruct (Ascii.eqb c "P"); [|done]. apply (iso_loop_i64 _ _ _ _ 0). }
  split; [done|]. split.
  - unfold ParseISO8601Duration, parse_iso8601. destruct s as [|c [|d s]]; [done..|].
    destruct (Ascii.eqb c "P"); [|done]. apply iso_loop_fuel. lia.
  - intros d Hd Hr. rewrite H, Hd. cbn [map_ok]. now rewrite i64_small.
Qed.

Lemma ParseISO8601Duration_exact_witness : ParseISO8601Duration "P2DT3H4M5S" = Ok (183845 * second).
Proof. apply ParseISO8601Duration_exact; [vm_compute; reflexivity|unfold second; lia]. Defined.

(** * Who may send what *)

(** The meaning of a rule: the PGN is in its set, and it names the destination. *)
Definition selects (r : SendRule) (pgn : Z) (name : option Z) : Prop :=
  (forall m, SendPolicy.PGNs r = Some m -> pgn ∈ Singles m \/ exists lo hi, (lo, hi) ∈ Ranges m /\ lo <= pgn <= hi) /\
  (SendPolicy.Names r <> [] -> exists n, name = Some n /\ n ∈ SendPolicy.Names r).

(** The policy is enabled, and it has no rules or the first rule that selects the
    frame allows it. *)
Definition permits (p : SendPolicy) (pgn : Z) (name : option Z) : Prop :=
  Enabled p = true /\
  (Rules p = [] \/ exists before r after, Rules p = before ++ r :: after /\
     Forall (fun r' => ~ selects r' pgn name) before /\ selects r pgn name /\ Allow r = true).

Lemma Contains_spec m pgn :
  Contains m pgn = true <-> pgn ∈ Singles m \/ exists lo hi, (lo, hi) ∈ Ranges m /\ lo <= pgn <= hi.
Proof.
  unfold Contains. rewrite orb_true_iff, !existsb_exists. split.
  - intros [(s & Hs & ->%Z.eqb_eq)|([lo hi] & Hr & [H1 H2]%andb_prop)]; [left; now apply list_elem_of_In|].
    right. exists lo, hi. rewrite list_elem_of_In. split; [done|]. apply Z.geb_le in H1. apply Z.leb_le in H2. lia.
  - intros [Hs|(lo & hi & Hr & H)].
    + left. exists pgn. rewrite <- list_elem_of_In. split; [done|apply Z.eqb_refl].
    + right. exists (lo, hi). rewrite <- list_elem_of_In. split; [done|]. apply andb_true_iff. split; [apply Z.geb_le|apply Z.leb_le]; lia.
Qed.

Lemma names_spec (ns : list Z) (name : option Z) :
  (if (0 <? length ns)%nat then
     if negb (bool_decide (is_Some name)) then false else if negb (contains ns (default 0 name)) then false else true
   else true) = true <-> (ns <> [] -> exists n, name = Some n /\ n ∈ ns).
Proof.
  destruct ns as [|n ns]; cbn [length Nat.ltb Nat.leb]; [done|]. destruct name as [x|].
  - rewrite bool_decide_eq_true_2 by eauto. change (default 0 (Some x)) with x. cbn [negb].
    pose proof (contains_spec (n :: ns) x) as Hc. destruct (contains (n :: ns) x); cbn [negb]; (split; [|try done]).
    + intros _ _. exists x. split; [done|]. now apply Hc.
    + done.
    + intros H. destruct (H ltac:(done)) as (? & [= <-] & Hx%Hc). congruence.
  - rewrite bool_decide_eq_false_2 by (intros [? [=]]). cbn [negb]. split; [done|]. intros H.
    now destruct (H ltac:(done)) as (? & [=] & _).
Qed.

Lemma rule_matches_spec r pgn name : rule_matches r pgn name = true <-> selects r pgn name.
Proof.
  unfold rule_matches, Matches, selects. rewrite <- names_spec. destruct (SendPolicy.PGNs r) as [m|].
  - pose proof (Contains_spec m pgn) as Hc. destruct (Contains m pgn); cbn [negb].
    + split; [|tauto]. intros H. split; [|done]. intros ? [= <-]. now apply Hc.
    + split; [done|]. intros [H _]. specialize (H m eq_refl). apply Hc in H. congruence.
  - split; [|tauto]. intros H. split; [done|done].
Qed.

Lemma rule_rejects r pgn name : rule_matches r pgn name = false -> ~ selects r pgn name.
Proof. intros H Hs%rule_matches_spec. congruence. Qed.

(** The loop finds the first rule that selects the frame. *)
Lemma first_match_spec rules pgn name :
  match first_match rules pgn name with
  | Some r => exists before after, rules = before ++ r :: after /\
      Forall (fun r' => ~ selects r' pgn name) before /\ selects r pgn name
  | None => Forall (fun r' => ~ selects r' pgn name) rules
  end.
Proof.
  induction rules as [|r rules IH]; cbn [first_match]; [done|].
  destruct (rule_matches r pgn name) eqn:E.
  - exists [], rules. split; [done|]. split; [done|]. now apply rule_matches_spec.
  - apply rule_rejects in E. destruct (first_match rules pgn name) as [r'|].
    + destruct IH as (before & after & -> & H1 & H2). exists (r :: before), after. split; [done|]. split; [|done]. now constructor.
    + now constructor.
Qed.

Lemma first_match_allows p pgn name :
  Enabled p = true -> (Rules p = [] \/ exists r, first_match (Rules p) pgn name = Some r /\ Allow r = true) ->
  permits p pgn name.
Proof.
  intros He Hr. split; [done|]. destruct Hr as [Hr|(r & E & Ha)]; [now left|]. right.
  pose proof (first_match_spec (Rules p) pgn name) as H. rewrite E in H. destruct H as (before & after & H1 & H2 & H3).
  now exists before, r, after.
Qed.

Lemma checkSendPolicy_permits s b bus pgn dst : checkSendPolicy s b bus pgn dst = None ->
  sv_readOnly s = false /\ permits (sv_policy s) pgn (dst_name b bus dst).
Proof.
  unfold checkSendPolicy. destruct (sv_readOnly s); [done|]. destruct (Enabled (sv_policy s)) eqn:He; [|done].
  cbn [negb]. destruct (length (Rules (sv_policy s)) =? 0)%nat eqn:El.
  - intros _. split; [done|]. apply first_match_allows; [done|]. left. apply Nat.eqb_eq in El. now destruct (Rules (sv_policy s)).
  - destruct (first_match _ _ _) as [r|] eqn:Ef; [|done]. destruct (Allow r) eqn:Ea; [|done]. intros _. split; [done|].
    apply first_match_allows; [done|]. right. eauto.
Qed.

(** Sending does not touch the rest of the broker. *)
Lemma QueueTx_cases req b b' ok : QueueTx req b = (b', ok) ->
  (ok = true /\ b' = with_tx b (b_tx b ++ [req]) /\ (length (b_tx b') <= tx_capacity)%nat) \/ (ok = false /\ b' = b).
Proof.
  unfold QueueTx. destruct (Nat.ltb_spec (length (b_tx b)) tx_capacity); intros [= <- <-]; [left|now right].
  split; [done|]. split; [done|]. cbn. rewrite length_app. cbn. lia.
Qed.

Lemma Ready_claimed now m : Ready now m = true -> exists addr, ClaimedSource m = Some addr.
Proof.
  unfold Ready, ClaimedSource. induction (vdevices m) as [|d ds IH]; cbn [existsb List.find]; [done|].
  destruct (bool_decide (vd_state d = ClaimHeld)); cbn [andb orb]; [by eexists|exact IH].
Qed.

(** The source of a queued frame is a virtual device's claimed address, one of
    which is ready, when there are any. *)
Definition source_claimed (c : Call) (b : Broker) (src : Z) : Prop :=
  forall m, b_virtual b = Some m -> Ready (cl_now c) m = true /\ ClaimedSource m = Some src.

(** What a request on a route may queue. *)
Inductive send_allowed (s : Server) (c : Call) (b : Broker) : route -> TxRequest -> Prop :=
| allowed_send q src data :
    permits (sv_policy s) (sr_PGN q) (dst_name b (sr_Bus q) (sr_Dst q)) ->
    hex_DecodeString (sr_Data q) = Some data ->
    (b_virtual b = None -> src = sr_Src q) -> source_claimed c b src ->
    send_allowed s c b (RouteSend (Some q)) (mkTxRequest (mkCANHeader (sr_Prio q) (sr_PGN q) src (sr_Dst q)) data (sr_Bus q))
| allowed_query q dst src :
    dst = (if qr_Dst q =? 0 then 0xFF else qr_Dst q) -> qr_PGN q <> 0 ->
    permits (sv_policy s) (qr_PGN q) (dst_name b (qr_Bus q) dst) ->
    (b_virtual b = None -> src = 254) -> source_claimed c b src ->
    send_allowed s c b (RouteQuery (Some q)) (mkTxRequest (mkCANHeader 6 59904 src dst)
      [u8 (qr_PGN q); u8 (Z.shiftr (qr_PGN q) 8); u8 (Z.shiftr (qr_PGN q) 16)] (qr_Bus q)).

(** What a handler may do to the queue. *)
Definition queue_effect (s : Server) (c : Call) (r : route) (b b' : Broker) : Prop :=
  b_tx b' = b_tx b \/
  exists req, b_tx b' = b_tx b ++ [req] /\ (length (b_tx b') <= tx_capacity)%nat /\
    sv_readOnly s = false /\ rate_limited s c = false /\ send_allowed s c b r req.

Lemma handleSend_effect s c req b : queue_effect s c (RouteSend req) b (handleSend s c req b).1.
Proof.
  unfold handleSend. destruct (rate_limited s c) eqn:El; [now left|]. destruct req as [q|]; [|now left].
  destruct (checkSendPolicy _ _ _ _ _) eqn:Ep; [now left|]. apply checkSendPolicy_permits in Ep as [Hro Hp].
  destruct (hex_DecodeString (sr_Data q)) as [data|] eqn:Eh; [|now left].
  destruct (overrideSource (cl_now c) b (sr_Src q)) as [src|] eqn:Es; [|now left].
  destruct (QueueTx _ b) as [b' ok] eqn:Eq. apply QueueTx_cases in Eq as [(-> & -> & Hl)|[-> ->]]; [|now left].
  right. eexists. split; [reflexivity|]. split; [exact Hl|]. split; [done|]. split; [done|].
  apply allowed_send; [done|done| |].
  - intros Hv. unfold overrideSource in Es. rewrite Hv in Es. congruence.
  - intros m Hm. unfold overrideSource in Es. rewrite Hm in Es. destruct (ClaimedSource m) as [a|]; [|done].
    destruct (Ready (cl_now c) m); [|done]. split; [done|]. congruence.
Qed.

Lemma query_effect s c req b : queue_effect s c (RouteQuery req) b (query_start s c req b).1.
Proof.
  unfold query_start. destruct (rate_limited s c) eqn:El; [now left|]. destruct req as [q|]; [|now left].
  destruct (Z.eqb_spec (qr_PGN q) 0); [now left|].
  destruct (checkSendPolicy _ _ _ _ _) eqn:Ep; [now left|]. apply checkSendPolicy_permits in Ep as [Hro Hp].
  destruct (if bool_decide _ then _ else _) as [timeout|]; [|now left].
  destruct (match b_virtual b with Some vdm => _ | None => _ end) eqn:Er; [now left|].
  unfold SendISORequest. destruct (QueueTx _ _) as [b' ok] eqn:Eq.
  apply QueueTx_cases in Eq as [(-> & -> & Hl)|[-> ->]]; [|now left].
  right. eexists. split; [reflexivity|]. split; [exact Hl|]. split; [done|]. split; [done|].
  apply allowed_query; [done|done|done| |].
  - intros Hv. unfold isoRequestSource. cbn. now rewrite Hv.
  - intros m Hm. rewrite Hm in Er. apply negb_false_iff in Er. split; [done|].
    destruct (Ready_claimed _ _ Er) as [a Ha]. unfold isoRequestSource. cbn. now rewrite Hm, Ha.
Qed.

(** ** Over a WebSocket *)

(** What a message on a WebSocket may queue: the policy decides, and with virtual
    devices the source is a claimed address if there is one.  Neither the read-only
    switch nor the rate limiter is asked, nor whether a device is ready. *)
Definition ws_allowed (s : Server) (b : Broker) (q : send_request) (tx : TxRequest) : Prop :=
  permits (sv_policy s) (sr_PGN q) (dst_name b (sr_Bus q) (sr_Dst q)) /\
  exists data src, hex_DecodeString (sr_Data q) = Some data /\
    tx = mkTxRequest (mkCANHeader (sr_Prio q) (sr_PGN q) src (sr_Dst q)) data (sr_Bus q) /\
    src = match b_virtual b with Some m => default (sr_Src q) (ClaimedSource m) | None => sr_Src q end.

Lemma ws_send_effect s req b :
  let b' := (wsHandleSend s req b).1 in
  b' = b \/ exists q tx, req = Some q /\ ws_allowed s b q tx /\ b' = with_tx b (b_tx b ++ [tx]) /\
    (length (b_tx b') <= tx_capacity)%nat.
Proof.
  cbn zeta. unfold wsHandleSend. destruct req as [q|]; [|now left].
  destruct (Enabled (sv_policy s)) eqn:He; [|now left]. cbn [negb].
  destruct ((0 <? length (Rules (sv_policy s)))%nat && _) eqn:Er; [now left|].
  destruct (hex_DecodeString (sr_Data q)) as [data|] eqn:Eh; [|now left].
  destruct (QueueTx _ b) as [b' ok] eqn:Eq. apply QueueTx_cases in Eq as [(-> & -> & Hl)|[-> ->]]; [|now left].
  right. eexists q, _. split; [done|]. split; [|by split]. split; [|by eexists _, _].
  apply first_match_allows; [done|]. destruct (Rules (sv_policy s)) as [|r rs]; [now left|]. right.
  cbn [length Nat.ltb Nat.leb andb] in Er. apply negb_false_iff in Er.
  destruct (first_match (r :: rs) _ _) as [r'|]; [|done]. now exists r'.
Qed.

(** The frames a WebSocket's messages queue: those of some of them, in order. *)
Inductive ws_queued (s : Server) (b : Broker) : list ws_message -> list TxRequest -> Prop :=
| ws_none : ws_queued s b [] []
| ws_skip msg msgs txs : ws_queued s b msgs txs -> ws_queued s b (msg :: msgs) txs
| ws_take q msgs tx txs : ws_allowed s b q tx -> ws_queued s b msgs txs ->
    ws_queued s b (WSSend (Some q) :: msgs) (tx :: txs).

Lemma ws_queued_same s b b' msgs txs :
  b_virtual b' = b_virtual b -> devices (b_state b') = devices (b_state b) -> ws_queued s b' msgs txs -> ws_queued s b msgs txs.
Proof.
  intros Hv Hs. induction 1 as [|msg msgs txs _ IH|q msgs tx txs Ha _ IH]; [constructor|by constructor|].
  constructor; [|done]. unfold ws_allowed, dst_name in *. by rewrite Hv, Hs in Ha.
Qed.

Lemma wsReadLoop_effect s msgs : forall b, exists sent,
  wsReadLoop s msgs b = with_tx b (b_tx b ++ sent) /\ ws_queued s b msgs sent /\
  (sent = [] \/ (length (b_tx b ++ sent) <= tx_capacity)%nat).
Proof.
  induction msgs as [|msg msgs IH]; intros b.
  { exists []. rewrite app_nil_r. split_and!; [by destruct b|constructor|by left]. }
  cbn [wsReadLoop foldl]. fold (wsReadLoop s msgs).
  destruct msg as [req|]; [|destruct (IH b) as (sent & H1 & H2 & H3); exists sent; split_and!; [done|by constructor|done]].
  destruct (ws_send_effect s req b) as [->|(q & tx & -> & Ha & -> & Hl)].
  { destruct (IH b) as (sent & H1 & H2 & H3). exists sent. split_and!; [done|by constructor|done]. }
  destruct (IH (with_tx b (b_tx b ++ [tx]))) as (sent & H1 & H2 & H3). exists (tx :: sent). cbn [b_tx with_tx] in *.
  rewrite <- app_assoc in *. split_and!.
  - exact H1.
  - constructor; [done|]. eapply ws_queued_same; [| |exact H2]; reflexivity.
  - right. destruct H3 as [->|H3]; [exact Hl|exact H3].
Qed.

(** ** The gate *)

(** What a request on a route may add to the queue. *)
Definition may_queue (s : Server) (c : Call) (b : Broker) (r : route) (sent : list TxRequest) : Prop :=
  match r with
  | RouteSend _ | RouteQuery _ =>
      sent = [] \/ exists req, sent = [req] /\ sv_readOnly s = false /\ rate_limited s c = false /\ send_allowed s c b r req
  | RouteWebSocket _ msgs => ws_queued s b msgs sent
  | _ => sent = []
  end.

Lemma queue_effect_sent s c r b b' : queue_effect s c r b b' ->
  exists sent, b_tx b' = b_tx b ++ sent /\ (sent = [] \/ (length (b_tx b') <= tx_capacity)%nat) /\
    (sent = [] \/ exists req, sent = [req] /\ sv_readOnly s = false /\ rate_limited s c = false /\ send_allowed s c b r req).
Proof.
  intros [H|(req & H1 & H2 & H3)]; [exists []; rewrite app_nil_r; auto|]. exists [req]. split; [done|]. split; [by right|]. right. by exists req.
Qed.

Lemma handler_effect s c r b : exists sent, b_tx (route_handler s c r b).1 = b_tx b ++ sent /\
  (sent = [] \/ (length (b_tx (route_handler s c r b).1) <= tx_capacity)%nat) /\ may_queue s c b r sent.
Proof.
  assert (Hkeep : forall b', b_tx b' = b_tx b -> may_queue s c b r [] -> exists sent, b_tx b' = b_tx b ++ sent /\
    (sent = [] \/ (length (b_tx b') <= tx_capacity)%nat) /\ may_queue s c b r sent).
  { intros b' E Hm. exists []. rewrite app_nil_r. auto. }
  destruct r; cbn [route_handler may_queue] in *; try (by apply Hkeep);
    try (apply queue_effect_sent; apply handleSend_effect || apply query_effect).
  - unfold handle_events. destruct (ParseFilterParams q); by apply Hkeep.
  - unfold HandleWebSocket, handle_events. destruct (ParseFilterParams q) as [f|]; cbn [fst].
    + destruct (wsReadLoop_effect s msgs (Subscribe (cl_sub c) f b)) as (sent & -> & H2 & H3). exists sent. cbn [b_tx with_tx].
      split; [done|]. split; [exact H3|]. eapply ws_queued_same; [| |exact H2]; reflexivity.
    + exists []. rewrite app_nil_r. split_and!; [done|by left|]. clear. induction msgs; by constructor.
  - unfold handleCreateSession. destruct (clientIDPattern id); [|by apply Hkeep]. destruct req as [req|]; [|by apply Hkeep].
    cbn [negb]. destruct (session_timeout _ ≫= _) as [[bt f]|]; by apply Hkeep.
  - unfold handleSSE. destruct (GetSession id b); [|by apply Hkeep]. apply Hkeep; [|done]. unfold NewConsumer, TouchSession. cbn. now destruct (sessions (b_state b) !! id).
  - unfold handleAck. destruct req as [seq|]; [|by apply Hkeep]. unfold AckSession. destruct (sessions (b_state b) !! id); by apply Hkeep.
Qed.


(** * On a concrete server *)

Definition demo_call : Call := mkCall 9000 true 7 any_order any_order.

(** A boat with one device, on bus [can0] at address 6. *)
Definition demo_boat : Broker :=
  let b := mkBroker ring4 (mkBrokerState NewDeviceRegistry NewValueStore ∅ ∅ ∅) [] None None None None None
    (mkCounters 0 0 0 0 0) false 0 (5 * minute) in
  with_devices b (claim_in "can0" 6 demo_name ∅).

(** Its server: the one device may not be sent PGN 126208, everything else but
    the proprietary range is allowed. *)
Definition demo_rules : list SendRule :=
  [mkSendRule false (Some (mkPGNMatcher [126208] [])) [demo_name];
   mkSendRule false (Some (mkPGNMatcher [59904] [(65280, 65535)])) [];
   mkSendRule true (Some (mkPGNMatcher [] [(0, 0xFFFFFFFF)])) []].
Definition demo_server : Server := SetAPIKey "k" (NewServer (mkSendPolicy true demo_rules)).

Definition demo_send (pgn dst : Z) (bus : string) : send_request := mkSendRequest pgn 3 dst 2 "00ff" bus.
Definition demo_http (r : route) : http_request := mkHTTPRequest false "Bearer k" "" r.

Example demo_gate :
  (code (ServeHTTP demo_server demo_call (demo_http (RouteSend (Some (demo_send 127250 255 "can0")))) demo_boat).2,
   code (ServeHTTP demo_server demo_call (demo_http (RouteSend (Some (demo_send 126208 6 "can0")))) demo_boat).2,
   code (ServeHTTP demo_server demo_call (demo_http (RouteSend (Some (demo_send 65300 255 "can0")))) demo_boat).2,
   code (ServeHTTP demo_server demo_call (mkHTTPRequest false "" "x" RouteDevices) demo_boat).2) = (202, 403, 403, 401).
Proof. vm_compute. reflexivity. Qed.

(** ** Ways around the policy *)

(** In read-only mode a WebSocket client still sends. *)
Lemma websocket_ignores_read_only :
  let s := SetReadOnly true demo_server in
  (code (handleSend s demo_call (Some (demo_send 127250 255 "can0")) demo_boat).2,
   length (b_tx (wsHandleSend s (Some (demo_send 127250 255 "can0")) demo_boat).1)) = (403, 1%nat).
Proof. vm_compute. reflexivity. Qed.

(** Without a bus the frame goes to the default bus, but the destination's NAME is
    looked up on no bus, so a rule that names the device does not apply. *)
Lemma default_bus_hides_name :
  (code (handleSend demo_server demo_call (Some (demo_send 126208 6 "")) demo_boat).2,
   route_tx "can0" (mkTxRequest (mkCANHeader 2 126208 3 6) [0; 255] "") {["can0"%string := []]} !! "can0"%string) =
  (202, Some [mkTxRequest (mkCANHeader 2 126208 3 6) [0; 255] ""]).
Proof. vm_compute. reflexivity. Qed.

(** The PGN is judged as the client wrote it, but only 17 bits of it reach the
    wire, and not the low byte of an addressed PGN: denied PGNs have allowed
    aliases. *)
Lemma denied_pgn_alias :
  (code (handleSend demo_server demo_call (Some (demo_send (65300 + 2 ^ 17) 255 "can0")) demo_boat).2,
   PGN (ParseCANID (BuildCANID (mkCANHeader 2 (65300 + 2 ^ 17) 3 255))),
   code (handleSend demo_server demo_call (Some (demo_send 59905 6 "can0")) demo_boat).2,
   PGN (ParseCANID (BuildCANID (mkCANHeader 2 59905 3 6)))) = (202, 65300, 202, 59904).
Proof. vm_compute. reflexivity. Qed.

(** A query transmits PGN 59904, which the policy here denies, since the rule is
    looked up for the PGN asked for. *)
Lemma query_sends_denied_pgn :
  map (fun tx => PGN (tx_Header tx))
    (b_tx (query_start demo_server demo_call (Some (mkQueryRequest 127250 6 "" "can0")) demo_boat).1) = [59904].
Proof. vm_compute. reflexivity. Qed.

(** Device events go to every subscriber whatever its filter, so a query may be
    answered with one. *)
Lemma query_answered_by_device_event : exists d b,
  let b1 := (query_start demo_server demo_call (Some (mkQueryRequest 127250 6 "" "can0")) demo_boat).1 in
  b = fanOutDevice d b1 /\ (query_finish 7 b).2 = mkReply 200 (Event (EvDevice d)).
Proof.
  exists (new_device "can0" 9). eexists. split; [reflexivity|]. vm_compute. reflexivity.
Qed.
