(* ===== verification/Slots.v ===== *)
(** Client sessions that exist from the start: [slots.go].

    A slot of the configuration is what a client would put in its request; the
    theorem says that it is treated the same. *)

From S2P Require Import Prelude FilterLang Devices Filters Broker Server.

Record ClientSlotConfig := mkSlotConfig {
  sc_ID : string;
  sc_BufferTimeout : string;
  sc_Filter : option filter_body
}.

Record ClientSlot := mkClientSlot {
  sl_ID : string;
  sl_BufferTimeout : duration;
  sl_Filter : option EventFilter
}.

Inductive slot_error :=
| SlotIDRequired
| SlotIDInvalid (id : string)
| SlotBufferTimeout (e : duration_error)
| SlotFilter (e : filter_param_error).

Definition ParseClientSlot (cfg : ClientSlotConfig) : result slot_error ClientSlot :=
  if bool_decide (sc_ID cfg = EmptyString) then Err SlotIDRequired
  else if negb (clientIDPattern (sc_ID cfg)) then Err (SlotIDInvalid (sc_ID cfg))
  else
    bufTimeout ← (if bool_decide (sc_BufferTimeout cfg = EmptyString) then Ok 0
                  else match ParseISO8601Duration (sc_BufferTimeout cfg) with
                       | Ok d => Ok d
                       | Err e => Err (SlotBufferTimeout e)
                       end);
    filter ← match sc_Filter cfg with
             | None => Ok None
             | Some fb => match body_filter fb with Ok f => Ok (Some f) | Err e => Err (SlotFilter e) end
             end;
    Ok (mkClientSlot (sc_ID cfg) bufTimeout filter).

(** One session per slot; each creation reads the clock. *)
Fixpoint ApplySlots (now : nat -> time) (slots : list ClientSlot) (b : Broker) : Broker :=
  match slots with
  | [] => b
  | slot :: slots =>
      let '(b, _, _) := CreateSession (sl_ID slot) (sl_BufferTimeout slot) (sl_Filter slot) (now O) b in
      ApplySlots (fun i => now (S i)) slots b
  end.

(** The request a client would make, and its call. *)
Definition slot_request (cfg : ClientSlotConfig) : session_request :=
  mkSessionRequest (sc_BufferTimeout cfg) (sc_Filter cfg).

(** The requests for a list of slots, one after the other; their answers. *)
Fixpoint put_clients (calls : nat -> Call) (cfgs : list ClientSlotConfig) (b : Broker) : Broker * list reply :=
  match cfgs with
  | [] => (b, [])
  | cfg :: cfgs =>
      let '(b, r) := handleCreateSession (calls O) (sc_ID cfg) (Some (slot_request cfg)) b in
      let '(b, rs) := put_clients (fun i => calls (S i)) cfgs b in (b, r :: rs)
  end.

Fixpoint ParseClientSlots (cfgs : list ClientSlotConfig) : result slot_error (list ClientSlot) :=
  match cfgs with
  | [] => Ok []
  | cfg :: cfgs => slot ← ParseClientSlot cfg; slots ← ParseClientSlots cfgs; Ok (slot :: slots)
  end.

Lemma slot_is_request c cfg b :
  match ParseClientSlot cfg with
  | Ok slot => (handleCreateSession c (sc_ID cfg) (Some (slot_request cfg)) b).1 = ApplySlots (fun _ => cl_now c) [slot] b /\
      code (handleCreateSession c (sc_ID cfg) (Some (slot_request cfg)) b).2 = 200
  | Err _ => exists e, handleCreateSession c (sc_ID cfg) (Some (slot_request cfg)) b = (b, fail 400 e)
  end.
Proof.
  unfold ParseClientSlot, handleCreateSession, session_timeout, session_filter, slot_request.
  destruct (bool_decide_reflect (sc_ID cfg = EmptyString)) as [->|_]; [by eexists|].
  destruct (clientIDPattern (sc_ID cfg)); cbn [negb]; [|by eexists]. cbn [ss_BufferTimeout ss_Filter].
  destruct (bool_decide (sc_BufferTimeout cfg = EmptyString));
    [|destruct (ParseISO8601Duration (sc_BufferTimeout cfg)) as [d|e]; [|by eexists]];
    cbn [mbind result_bind]; (destruct (sc_Filter cfg) as [fb|]; [destruct (body_filter fb); [|by eexists]|]);
    cbn [mbind result_bind ApplySlots sl_ID sl_BufferTimeout sl_Filter]; split; reflexivity.
Qed.

(** A slot is a session request.  Slots parse exactly when the same requests
    over HTTP are all accepted, and then starting with the slots leaves the broker
    as the requests would. *)
Theorem slots_are_sessions calls cfgs b :
  (match ParseClientSlots cfgs with
   | Ok slots => (put_clients calls cfgs b).1 = ApplySlots (fun i => cl_now (calls i)) slots b
   | Err _ => True
   end) /\
  (is_ok (ParseClientSlots cfgs) = forallb (fun r => code r =? 200) (put_clients calls cfgs b).2).
Proof.
  revert calls b. induction cfgs as [|cfg cfgs IH]; intros calls b; [done|].
  cbn [ParseClientSlots put_clients]. pose proof (slot_is_request (calls O) cfg b) as H.
  destruct (ParseClientSlot cfg) as [slot|e]; cbn [mbind result_bind].
  - destruct (handleCreateSession _ _ _ b) as [b1 r]. cbn [fst snd] in H. destruct H as [-> Hr].
    specialize (IH (fun i => calls (S i)) (ApplySlots (fun _ => cl_now (calls O)) [slot] b)).
    destruct (put_clients _ cfgs _) as [b2 rs]. cbn [fst snd forallb] in *. rewrite Hr. cbn [Z.eqb Pos.eqb andb].
    destruct (ParseClientSlots cfgs) as [slots|e]; cbn [mbind result_bind is_ok] in *; [|done].
    destruct IH as [IH1 IH2]. split; [|done]. rewrite IH1. cbn [ApplySlots].
    now destruct (CreateSession _ _ _ _ b) as [[? ?] ?].
  - destruct H as [err ->]. destruct (put_clients _ cfgs b) as [b2 rs]. done.
Qed.
