(* ===== verification/Monitor.v ===== *)
(** Watching the boat: [bus_silence.go], [alerting.go] and [health.go].

    The silence monitor turns the age of the last frame into transitions, the
    alert manager queues them for a webhook and drops repeats, and the health
    status summarises broker and replication.  Delivering an alert is an HTTP
    request and is not modelled; a call reads the clock once. *)

From S2P Require Import Prelude Devices Ring Broker Holes ReplClient.

(** * Alerts *)

Inductive AlertType :=
| AlertBusSilence
| AlertBusResumed
| AlertDeviceRemoved
| AlertReplicationDisconnected
| AlertReplicationReconnected.

#[global] Instance AlertType_eq_dec : EqDecision AlertType.
Proof. solve_decision. Defined.

Definition alert_code (t : AlertType) : nat :=
  match t with
  | AlertBusSilence => 0 | AlertBusResumed => 1 | AlertDeviceRemoved => 2
  | AlertReplicationDisconnected => 3 | AlertReplicationReconnected => 4
  end%nat.
Definition alert_of_code (n : nat) : AlertType :=
  match n with
  | 0 => AlertBusSilence | 1 => AlertBusResumed | 2 => AlertDeviceRemoved
  | 3 => AlertReplicationDisconnected | _ => AlertReplicationReconnected
  end%nat.

#[global] Program Instance AlertType_countable : Countable AlertType :=
  inj_countable' alert_code alert_of_code _.
Next Obligation. now intros []. Qed.

(** What the details of an event carry, before JSON encoding and formatting. *)
Inductive alert_details :=
| SilenceDetails (lastFrame : time) (elapsed : duration)
| ResumedDetails (silence : duration)
| DeviceDetails (src : Z) (manufacturer model : string)
| ReasonDetails (reason : string)
| NoDetails.

Record AlertEvent := mkAlert {
  al_Timestamp : time;
  al_Type : AlertType;
  al_Severity : string;
  al_InstanceID : string;
  al_Details : alert_details
}.

Record AlertManager := mkAlertManager {
  am_DedupWindow : duration;
  am_InstanceID : string;
  am_ch : list AlertEvent;
  am_lastSent : gmap AlertType time
}.

(** [None] is the nil manager of an empty URL. *)
Definition NewAlertManager (webhookURL : string) (dedupWindow : duration) (instanceID : string) : option AlertManager :=
  if bool_decide (webhookURL = EmptyString) then None
  else Some (mkAlertManager (if dedupWindow =? 0 then 5 * minute else dedupWindow) instanceID [] ∅).

Definition alert_capacity : nat := 64.

Definition Fire (now : time) (event : AlertEvent) (am : AlertManager) : AlertManager :=
  let event := mkAlert (if time_IsZero (al_Timestamp event) then now else al_Timestamp event) (al_Type event)
    (al_Severity event) (if bool_decide (al_InstanceID event = EmptyString) then am_InstanceID am else al_InstanceID event)
    (al_Details event) in
  if match am_lastSent am !! al_Type event with
     | Some last => time_Sub now last <? am_DedupWindow am
     | None => false
     end then am
  else mkAlertManager (am_DedupWindow am) (am_InstanceID am)
    (if (length (am_ch am) <? alert_capacity)%nat then am_ch am ++ [event] else am_ch am)
    (<[al_Type event := now]> (am_lastSent am)).

(** The loop of [Run] takes the oldest event. *)
Definition take_alert (am : AlertManager) : option (AlertEvent * AlertManager) :=
  match am_ch am with
  | [] => None
  | e :: rest => Some (e, mkAlertManager (am_DedupWindow am) (am_InstanceID am) rest (am_lastSent am))
  end.

Definition FireBusSilence (now lastFrame : time) (elapsed : duration) : AlertManager -> AlertManager :=
  Fire now (mkAlert 0 AlertBusSilence "warning" "" (SilenceDetails lastFrame elapsed)).

Definition FireBusResumed (now : time) (silence : duration) : AlertManager -> AlertManager :=
  Fire now (mkAlert 0 AlertBusResumed "info" "" (ResumedDetails silence)).

Definition FireDeviceRemoved (now : time) (src : Z) (dev : option Device) : AlertManager -> AlertManager :=
  Fire now (mkAlert 0 AlertDeviceRemoved "warning" ""
    match dev with
    | Some d => DeviceDetails src (dev_Manufacturer d) (ModelID d)
    | None => DeviceDetails src "" ""
    end).

Definition FireReplicationDisconnected (now : time) (reason : string) : AlertManager -> AlertManager :=
  Fire now (mkAlert 0 AlertReplicationDisconnected "warning" "" (ReasonDetails reason)).

Definition FireReplicationReconnected (now : time) : AlertManager -> AlertManager :=
  Fire now (mkAlert 0 AlertReplicationReconnected "info" "" NoDetails).

(** * Bus silence *)

Record BusSilenceMonitor := mkMonitor { mn_timeout : duration; mn_silentAt : time }.

Definition NewBusSilenceMonitor (timeout : duration) : BusSilenceMonitor := mkMonitor timeout 0.

(** How often [Run] checks. *)
Definition check_interval (timeout : duration) : duration :=
  let interval := Z.quot timeout 2 in
  let interval := if interval >? 5 * second then 5 * second else interval in
  if interval <? second then second else interval.

(** One check, and the alert it fires. *)
Definition check (now lastFrame : time) (m : BusSilenceMonitor) (am : option AlertManager)
    : BusSilenceMonitor * option AlertManager :=
  if time_IsZero lastFrame then (m, am)
  else
    let elapsed := time_Sub now lastFrame in
    if mn_timeout m <=? elapsed then
      if time_IsZero (mn_silentAt m) then (mkMonitor (mn_timeout m) now, FireBusSilence now lastFrame elapsed <$> am)
      else (m, am)
    else
      if negb (time_IsZero (mn_silentAt m)) then
        (mkMonitor (mn_timeout m) 0, FireBusResumed now (time_Sub now (mn_silentAt m)) <$> am)
      else (m, am).

Definition IsSilent (m : BusSilenceMonitor) : bool := negb (time_IsZero (mn_silentAt m)).

(** * Health *)

Inductive health_text := HOk | HDegraded | HUnhealthy | HDisconnected | HSilent.

Record BrokerHealth := mkBrokerHealth {
  bh_Status : health_text;
  bh_FramesTotal : Z;
  bh_HeadSeq : Z;
  bh_LastFrameTime : time;
  bh_DeviceCount : nat;
  bh_RingEntries : Z;
  bh_RingCapacity : Z
}.

Record ReplicationHealth := mkReplHealth {
  rh_Status : health_text;
  rh_Connected : bool;
  rh_LiveLag : Z;
  rh_BackfillRemaining : Z;
  rh_LastAck : time
}.

(** The components map has at most the key [can_bus]. *)
Record HealthStatus := mkHealth {
  hs_Status : health_text;
  hs_Broker : BrokerHealth;
  hs_Replication : option ReplicationHealth;
  hs_can_bus : option health_text
}.

(** [replStatus] is what the callback gives: nothing when it is nil. *)
Definition buildHealth (now : time) (stats : BrokerStats) (replStatus : option ReplicationStatus)
    (silenceThreshold : duration) : HealthStatus :=
  let broker := mkBrokerHealth HOk (FramesTotal stats) (HeadSeq stats) (LastFrameTime stats) (DeviceCount stats)
    (RingEntries stats) (RingCapacity stats) in
  let silent := (0 <? silenceThreshold) && (0 <? FramesTotal stats) && negb (time_IsZero (LastFrameTime stats))
    && (time_Sub now (LastFrameTime stats) >? silenceThreshold) in
  let status := if silent then HDegraded else HOk in
  let bus := if silent then Some HSilent else None in
  match replStatus with
  | None => mkHealth status broker None bus
  | Some rs =>
      let rh s := mkReplHealth s (rs_Connected rs) (rs_LiveLag rs) (rs_BackfillRemainingSeqs rs) (rs_LastAck rs) in
      if rs_Connected rs then mkHealth status broker (Some (rh HOk)) bus
      else mkHealth (match status with HOk => HDegraded | st => st end) broker (Some (rh HDisconnected)) bus
  end.

Definition readiness_code (h : HealthStatus) : Z := match hs_Status h with HUnhealthy => 503 | _ => 200 end.
Definition health_code (h : HealthStatus) : Z := match hs_Status h with HOk | HDegraded => 200 | _ => 503 end.

(** * Repeated alerts are suppressed *)

(** Alerts are fired by the helpers above, which leave the timestamp to [Fire], and
    taken by [Run]. *)
Inductive alert_op :=
| AFire (now : time) (event : AlertEvent)
| ATake.

(** The manager and what has been taken. *)
Definition alert_step (st : AlertManager * list AlertEvent) (op : alert_op) : AlertManager * list AlertEvent :=
  let '(am, taken) := st in
  match op with
  | AFire now event => (Fire now event am, taken)
  | ATake => match take_alert am with Some (e, am) => (am, taken ++ [e]) | None => (am, taken) end
  end.

Definition run_alerts (am : AlertManager) (ops : list alert_op) : AlertManager * list AlertEvent :=
  foldl alert_step (am, []) ops.

Definition unstamped (op : alert_op) : Prop := match op with AFire _ e => al_Timestamp e = 0 | ATake => True end.

(** Every two alerts of one type are a window apart. *)
Definition spaced (w : duration) (log : list AlertEvent) : Prop :=
  forall i j a b, (i < j)%nat -> log !! i = Some a -> log !! j = Some b -> al_Type a = al_Type b ->
  al_Timestamp a + w <= al_Timestamp b.

Record alerts_ok (w : duration) (am : AlertManager) (taken : list AlertEvent) : Prop := {
  ao_window : am_DedupWindow am = w;
  ao_bounded : (length (am_ch am) <= alert_capacity)%nat;
  ao_last : forall e, e ∈ taken ++ am_ch am -> exists u : time, am_lastSent am !! al_Type e = Some u /\ al_Timestamp e <= u;
  ao_spaced : spaced w (taken ++ am_ch am)
}.

Lemma spaced_snoc w log e :
  spaced w log -> (forall a, a ∈ log -> al_Type a = al_Type e -> al_Timestamp a + w <= al_Timestamp e) ->
  spaced w (log ++ [e]).
Proof.
  intros Hs He i j a b Hij Ha Hb Ht. apply lookup_app_Some in Hb as [Hb|[Hlen Hb]].
  - rewrite lookup_app_l in Ha by (apply lookup_lt_Some in Hb; lia). eapply Hs; eauto.
  - assert (Ej : (j - length log)%nat = 0%nat).
    { apply lookup_lt_Some in Hb. cbn in Hb. lia. }
    rewrite Ej in Hb. injection Hb as <-. rewrite lookup_app_l in Ha by lia.
    apply He; [now apply list_elem_of_lookup_2 in Ha|done].
Qed.

Lemma Fire_ok w now e am taken :
  0 <= w <= max_duration -> al_Timestamp e = 0 -> alerts_ok w am taken -> alerts_ok w (Fire now e am) taken.
Proof.
  intros Hw Hz [H1 H2 H3 H4]. unfold Fire. rewrite Hz. cbn [time_IsZero Z.eqb al_Type].
  set (e' := mkAlert now (al_Type e) (al_Severity e) _ (al_Details e)).
  destruct (match am_lastSent am !! al_Type e with Some _ => _ | None => _ end) eqn:Es; [by split|].
  assert (Hgap : forall a, a ∈ taken ++ am_ch am -> al_Type a = al_Type e -> al_Timestamp a + w <= now).
  { intros a Ha Ht. destruct (H3 a Ha) as (u & Hu & Hle). rewrite Ht in Hu. rewrite Hu, H1 in Es.
    apply Z.ltb_ge in Es. unfold time_Sub, min_duration, max_duration in *. lia. }
  assert (Hlast : forall a, a ∈ taken ++ am_ch am \/ a = e' ->
    exists u : time, <[al_Type e := now]> (am_lastSent am) !! al_Type a = Some u /\ al_Timestamp a <= u).
  { intros a Ha. destruct (decide (al_Type a = al_Type e)) as [Ht|Hne].
    - rewrite Ht, lookup_insert_eq. exists now. split; [done|]. destruct Ha as [Ha| ->]; [|cbn; lia].
      specialize (Hgap a Ha Ht). lia.
    - rewrite lookup_insert_ne by done. destruct Ha as [Ha| ->]; [now apply H3|done]. }
  split; cbn [am_DedupWindow am_ch am_lastSent]; [done|..]; destruct (Nat.ltb_spec (length (am_ch am)) alert_capacity).
  - rewrite length_app. cbn. lia.
  - done.
  - intros a. rewrite app_assoc, elem_of_app, list_elem_of_singleton. apply Hlast.
  - intros a Ha. apply Hlast. now left.
  - rewrite app_assoc. apply spaced_snoc; [done|]. intros a Ha Ht. now apply Hgap.
  - done.
Qed.

Lemma take_ok w am taken e am' : alerts_ok w am taken -> take_alert am = Some (e, am') -> alerts_ok w am' (taken ++ [e]).
Proof.
  intros [H1 H2 H3 H4]. unfold take_alert. destruct (am_ch am) as [|x rest] eqn:Ec; [done|]. intros [= <- <-].
  split; cbn [am_DedupWindow am_ch am_lastSent]; rewrite <- ?app_assoc; cbn [app]; try done.
  cbn in H2. lia.
Qed.

Lemma run_alerts_ok w am taken ops : 0 <= w <= max_duration -> Forall unstamped ops -> alerts_ok w am taken ->
  let r := foldl alert_step (am, taken) ops in alerts_ok w r.1 r.2.
Proof.
  intros Hw Hops. revert am taken. induction Hops as [|op ops Hop _ IH]; intros am taken Hok; [done|].
  cbn [foldl alert_step]. destruct op as [now e|].
  - apply IH. now apply Fire_ok.
  - destruct (take_alert am) as [[e am']|] eqn:Et; [|now apply IH]. apply IH. eapply take_ok; eauto.
Qed.

(** The webhook is not flooded.  Whatever alerts are fired at whatever times,
    any two alerts of one type that are sent or wait to be sent are at least the
    window apart, and at most 64 wait. *)
Theorem alerts_deduped url w inst am ops :
  NewAlertManager url w inst = Some am -> 0 <= am_DedupWindow am <= max_duration -> Forall unstamped ops ->
  let r := run_alerts am ops in
  spaced (am_DedupWindow am) (r.2 ++ am_ch r.1) /\ (length (am_ch r.1) <= alert_capacity)%nat.
Proof.
  unfold NewAlertManager. destruct (bool_decide _); [done|]. intros [= <-]. cbn [am_DedupWindow]. intros Hw Hops.
  destruct (run_alerts_ok _ (mkAlertManager (if w =? 0 then 5 * minute else w) inst [] ∅) [] _ Hw Hops) as [H1 H2 H3 H4].
  - split; cbn; [done|lia| |]; [intros e He; now apply elem_of_nil in He|]. intros i j a b _ Ha. done.
  - split; [exact H4|exact H2].
Qed.

Definition demo_alerts : list alert_op :=
  [AFire (100 * second) (mkAlert 0 AlertBusSilence "warning" "" NoDetails); ATake;
   AFire (110 * second) (mkAlert 0 AlertBusResumed "info" "" NoDetails);
   AFire (120 * second) (mkAlert 0 AlertBusSilence "warning" "" NoDetails);
   AFire (500 * second) (mkAlert 0 AlertBusSilence "warning" "" NoDetails)].

Definition demo_manager : AlertManager := mkAlertManager (5 * minute) "boat" [] ∅.

Lemma alerts_deduped_witness :
  let r := run_alerts demo_manager demo_alerts in
  map al_Timestamp (r.2 ++ am_ch r.1) = [100 * second; 110 * second; 500 * second] /\
  spaced (5 * minute) (r.2 ++ am_ch r.1).
Proof.
  split; [vm_compute; reflexivity|].
  refine (proj1 (alerts_deduped "http://x" 0 "boat" demo_manager demo_alerts eq_refl _ _)).
  - cbn. unfold max_duration, minute, second. lia.
  - repeat constructor.
Defined.

(** ** The silence monitor *)

(** The verdict of a check, when a frame was ever received. *)
Definition bus_silent (timeout : duration) (now lastFrame : time) : bool := timeout <=? time_Sub now lastFrame.

(** Each check settles the state on its verdict, and fires one alert exactly when
    the state changes. *)
Lemma check_spec now lastFrame m am :
  now <> 0 -> lastFrame <> 0 ->
  let '(m', am') := check now lastFrame m am in
  mn_timeout m' = mn_timeout m /\ IsSilent m' = bus_silent (mn_timeout m) now lastFrame /\
  am' = match IsSilent m, IsSilent m' with
        | false, true => FireBusSilence now lastFrame (time_Sub now lastFrame) <$> am
        | true, false => FireBusResumed now (time_Sub now (mn_silentAt m)) <$> am
        | _, _ => am
        end.
Proof.
  intros Hn Hl. unfold check, IsSilent, bus_silent, time_IsZero. rewrite (proj2 (Z.eqb_neq lastFrame 0) Hl).
  destruct (mn_timeout m <=? time_Sub now lastFrame), (Z.eqb_spec (mn_silentAt m) 0) as [E|E];
    cbn [negb mn_silentAt mn_timeout]; rewrite ?E, ?(proj2 (Z.eqb_neq now 0) Hn); cbn [negb]; try done;
    rewrite ?(proj2 (Z.eqb_neq _ 0) E); done.
Qed.

Definition run_checks (st : BusSilenceMonitor * option AlertManager) (cs : list (time * time)) :
    BusSilenceMonitor * option AlertManager :=
  foldl (fun '(m, am) '(now, lastFrame) => check now lastFrame m am) st cs.

(** ** Where an operator is misled *)

(** The window that drops repeats also drops news: after silence, resumption and
    silence again within it, the last alert sent says that the bus resumed, and no
    other follows while the silence lasts. *)
Lemma silence_after_resume_hidden :
  let '(m, am) := run_checks (NewBusSilenceMonitor (30 * second), Some demo_manager)
    [(100 * second, 60 * second); (110 * second, 109 * second); (150 * second, 111 * second); (3000 * second, 111 * second)] in
  (IsSilent m, map al_Type (default [] (am_ch <$> am))) = (true, [AlertBusSilence; AlertBusResumed]).
Proof. vm_compute. reflexivity. Qed.

(** An alert dropped because the buffer was full counts as sent. *)
Lemma dropped_alert_counts :
  let full := mkAlertManager (5 * minute) "boat" (replicate 64 (mkAlert 1 AlertDeviceRemoved "" "" NoDetails)) ∅ in
  let e := mkAlert 0 AlertBusSilence "warning" "" NoDetails in
  let am := Fire (100 * second) e full in
  let drained := mkAlertManager (am_DedupWindow am) (am_InstanceID am) [] (am_lastSent am) in
  am_ch (Fire (160 * second) e drained) = [].
Proof. vm_compute. reflexivity. Qed.

(** Two devices that leave within the window give one alert. *)
Lemma second_removal_hidden :
  map al_Details (am_ch (FireDeviceRemoved (101 * second) 8 None (FireDeviceRemoved (100 * second) 7 None demo_manager))) =
  [DeviceDetails 7 "" ""].
Proof. vm_compute. reflexivity. Qed.

(** * What the health endpoints say *)

(** Health is the two signals it is made of.  The status is degraded exactly
    when a bus that had frames is silent beyond the threshold or replication is
    configured and disconnected, and ok otherwise; both endpoints answer 200 in
    every case. *)
Theorem health_status now stats rs threshold :
  let h := buildHealth now stats rs threshold in
  hs_Status h =
    (if bool_decide (is_Some (hs_can_bus h)) || match rs with Some r => negb (rs_Connected r) | None => false end
     then HDegraded else HOk) /\
  (is_Some (hs_can_bus h) <-> 0 < threshold /\ 0 < FramesTotal stats /\ LastFrameTime stats <> 0 /\
     threshold < time_Sub now (LastFrameTime stats)) /\
  readiness_code h = 200 /\ health_code h = 200.
Proof.
  cbn zeta. unfold buildHealth, readiness_code, health_code, time_IsZero.
  assert (Hs : (0 <? threshold) && (0 <? FramesTotal stats) && negb (LastFrameTime stats =? 0)
      && (time_Sub now (LastFrameTime stats) >? threshold) = true <->
    0 < threshold /\ 0 < FramesTotal stats /\ LastFrameTime stats <> 0 /\ threshold < time_Sub now (LastFrameTime stats)).
  { rewrite !andb_true_iff, !Z.ltb_lt, negb_true_iff, Z.eqb_neq, Z.gtb_lt. tauto. }
  destruct (_ && _) eqn:E; rewrite <- Hs;
    (destruct rs as [r|]; [destruct (rs_Connected r) eqn:Er|]); cbn [hs_Status hs_can_bus]; rewrite ?Er;
    (split; [reflexivity|split; [|split; reflexivity]]); split; try done; try (intros [? [=]]); eauto.
Qed.
