(* ===== verification/History.v ===== *)
(** Queries over the journal: [history.go].

    [queryJournalFiles] goes through the files in name order with the reader of
    [JournalReader], from the block [SeekToTime] finds.  Answers go out before
    encoding: a frame keeps its instant and its bytes where the code prints
    them. *)

From S2P Require Import Prelude CanId GoNum FilterLang Devices Server JournalFormat JournalReader JournalWriter JournalRoundTrip.

(** * Queries *)

(** What a query asks for; [None] is a nil set, that is no filter. *)
Record history_query := mkHistoryQuery {
  hq_from : time;
  hq_to : time;
  hq_pgns : option (gset Z);
  hq_srcs : option (gset Z);
  hq_interval : duration;
  hq_decode : bool
}.

(** [historyFrame], with the value of a decoder for the JSON it becomes. *)
Record historyFrame (Decoded : Type) := mkHistoryFrame {
  hf_Seq : Z;
  hf_Ts : time;
  hf_Prio : Z;
  hf_PGN : Z;
  hf_Src : Z;
  hf_Dst : Z;
  hf_Data : list Z;
  hf_Decoded : option Decoded
}.
Arguments mkHistoryFrame {Decoded}.
Arguments hf_Seq {Decoded}.

(** [downsampleKey] is (source, PGN). *)
Abbreviation buckets := (gmap (Z * Z) Z).

Definition in_set (s : option (gset Z)) (z : Z) : bool :=
  match s with None => true | Some s => bool_decide (z ∈ s) end.

(** [t.UnixNano() / int64(interval)]. *)
Definition time_bucket (interval : duration) (t : time) : Z :=
  Z.quot (i64 (t - unix_epoch_us * 1000)) interval.

(** The buckets after a frame that is new in its own, [None] if it is not. *)
Definition fresh_bucket (interval : duration) (e : Entry) (lastBucket : buckets) : option buckets :=
  if interval >? 0 then
    let bucket := time_bucket interval (e_Timestamp e) in
    let key := (Source (e_Header e), PGN (e_Header e)) in
    if bool_decide (lastBucket !! key = Some bucket) then None else Some (<[key := bucket]> lastBucket)
  else Some lastBucket.

(** Time order. *)
Abbreviation in_time := (StronglySorted (fun x y : Z * Entry => entry_time x <= entry_time y)).

Section history.
  Context (DecodeAll : list Z -> option (list Z)) (DecodeAllDict : list Z -> list Z -> option (list Z)).
  (** The registry's decoder of a PGN, where it has one and the payload decodes. *)
  Context {Decoded : Type} (Decode : Z -> list Z -> option Decoded).

Definition history_frame (q : history_query) (seq : Z) (e : Entry) : historyFrame Decoded :=
  let h := e_Header e in
  mkHistoryFrame seq (e_Timestamp e) (Priority h) (PGN h) (Source h) (Destination h) (e_Data e)
    (if hq_decode q then Decode (PGN h) (e_Data e) else None).

(** The loop over a file's frames; [None] is a panic, or fuel that ran out. *)
Fixpoint query_loop (fuel : nat) (q : history_query) (maxFrames : Z) (reader : Reader)
    (frames : list (historyFrame Decoded)) (lastBucket : buckets) : option (list (historyFrame Decoded) * buckets) :=
  match fuel with
  | O => None
  | S fuel =>
      match Next DecodeAll DecodeAllDict reader with
      | (reader, NextFrame) =>
          if zlen frames >=? maxFrames then Some (frames, lastBucket)
          else match jr_entry reader with
          | None => None
          | Some entry =>
              let header := e_Header entry in
              if hq_to q <? e_Timestamp entry then Some (frames, lastBucket)
              else if e_Timestamp entry <? hq_from q then query_loop fuel q maxFrames reader frames lastBucket
              else if negb (in_set (hq_pgns q) (PGN header)) then query_loop fuel q maxFrames reader frames lastBucket
              else if negb (in_set (hq_srcs q) (Source header)) then query_loop fuel q maxFrames reader frames lastBucket
              else match fresh_bucket (hq_interval q) entry lastBucket with
                   | None => query_loop fuel q maxFrames reader frames lastBucket
                   | Some lastBucket =>
                       let seq := if jr_version (jr_file reader) =? Version2 then FrameSeq reader else 0 in
                       query_loop fuel q maxFrames reader (frames ++ [history_frame q seq entry]) lastBucket
                   end
          end
      | (_, NextStop) => Some (frames, lastBucket)
      | _ => None
      end
  end.

(** A file that cannot be opened has no contents. *)
Definition queryOneFile (fuel : nat) (file : option (list Z)) (q : history_query) (maxFrames : Z) (lastBucket : buckets)
    : option (list (historyFrame Decoded) * buckets) :=
  match file with
  | None => Some ([], lastBucket)
  | Some f =>
      match NewReader f with
      | Err ErrPanic => None
      | Err _ => Some ([], lastBucket)
      | Ok reader =>
          match SeekToTime DecodeAll DecodeAllDict (hq_from q) reader with
          | (_, Some ErrPanic) => None
          | (_, Some _) => Some ([], lastBucket)
          | (reader, None) => query_loop fuel q maxFrames reader [] lastBucket
          end
      end
  end.

Fixpoint query_files (fuel : nat) (files : list (option (list Z))) (q : history_query) (limit : Z)
    (result : list (historyFrame Decoded)) (lastBucket : buckets) : option (list (historyFrame Decoded)) :=
  match files with
  | [] => Some result
  | file :: files =>
      if zlen result >=? limit then Some result
      else
        '(frames, lastBucket) ← queryOneFile fuel file q (limit - zlen result) lastBucket;
        query_files fuel files q limit (result ++ frames) lastBucket
  end.

Definition queryJournalFiles (fuel : nat) (files : list (option (list Z))) (q : history_query) (limit : Z)
    : option (list (historyFrame Decoded)) := query_files fuel files q limit [] ∅.

(** ** The handler *)

Inductive history_error :=
| NoJournal
| FromRequired
| BadFrom (s : string)
| BadTo (s : string)
| ToBeforeFrom
| BadHistoryPGN (s : string)
| BadHistorySrc (s : string)
| BadLimit
| BadInterval (s : string)
| IntervalNotPositive.

(** The parameters of the URL; an absent one is empty. *)
Record history_params := mkHistoryParams {
  hp_from : string;
  hp_to : string;
  hp_pgn : list string;
  hp_src : list string;
  hp_limit : string;
  hp_interval : string;
  hp_decode : string
}.

(** [ParseTime] is [time.Parse(time.RFC3339, _)], [ParseDuration] is
    [time.ParseDuration]. *)
Context (ParseTime : string -> option time) (ParseDuration : string -> option duration).

Definition param_set (vs : list Z) : option (gset Z) :=
  match vs with [] => None | _ => Some (list_to_set vs) end.

Definition history_limit (s : string) : result history_error Z :=
  if bool_decide (s = EmptyString) then Ok 10000
  else match ParseInt s with
       | Ok v => if v <=? 0 then Err BadLimit else Ok v
       | Err _ => Err BadLimit
       end.

Definition history_interval (s : string) : result history_error duration :=
  if bool_decide (s = EmptyString) then Ok 0
  else
    interval ← match ParseDuration s with
               | Some d => Ok d
               | None => match ParseISO8601Duration s with Ok d => Ok d | Err _ => Err (BadInterval s) end
               end;
    if interval <=? 0 then Err IntervalNotPositive else Ok interval.

(** The query of a request, with its limit. *)
Definition history_request (now : time) (p : history_params) : result history_error (history_query * Z) :=
  if bool_decide (hp_from p = EmptyString) then Err FromRequired
  else
    from ← match ParseTime (hp_from p) with Some t => Ok t | None => Err (BadFrom (hp_from p)) end;
    to ← (if bool_decide (hp_to p = EmptyString) then Ok now
          else match ParseTime (hp_to p) with Some t => Ok t | None => Err (BadTo (hp_to p)) end);
    if to <? from then Err ToBeforeFrom
    else
      pgns ← parse_uints (fun s _ => BadHistoryPGN s) 10 32 (hp_pgn p);
      srcs ← parse_uints (fun s _ => BadHistorySrc s) 10 8 (hp_src p);
      limit ← history_limit (hp_limit p);
      interval ← history_interval (hp_interval p);
      Ok (mkHistoryQuery from to (param_set pgns) (param_set srcs) interval
            (bool_decide (hp_decode p = "true"%string)), limit).

(** The answer's code and frames; [journal] is the journal directory, if any: the
    names and contents of its [.lpj] files.  [None] is a panic. *)
Definition handleHistory (fuel : nat) (now : time) (journal : option (list (string * option (list Z)))) (p : history_params)
    : option (result (Z * history_error) (list (historyFrame Decoded))) :=
  match journal with
  | None => Some (Err (503, NoJournal))
  | Some entries =>
      match history_request now p with
      | Err e => Some (Err (400, e))
      | Ok (q, limit) =>
          let files := merge_sort (fun a b => Is_true (String.leb a.1 b.1)) entries in
          Ok <$> queryJournalFiles fuel (map snd files) q limit
      end
  end.

(** * What a query selects *)

Definition wanted (q : history_query) (e : Z * Entry) : bool :=
  (hq_from q <=? entry_time e) && (entry_time e <=? hq_to q)
  && in_set (hq_pgns q) (PGN (e_Header e.2)) && in_set (hq_srcs q) (Source (e_Header e.2)).

(** The downsampling of a run of entries. *)
Fixpoint thin (interval : duration) (es : list (Z * Entry)) (lastBucket : buckets) : list (Z * Entry) * buckets :=
  match es with
  | [] => ([], lastBucket)
  | e :: es =>
      match fresh_bucket interval e.2 lastBucket with
      | None => thin interval es lastBucket
      | Some lastBucket => let '(kept, lastBucket) := thin interval es lastBucket in (e :: kept, lastBucket)
      end
  end.

Lemma thin_app interval a b lb :
  thin interval (a ++ b) lb =
  let '(x, lb) := thin interval a lb in let '(y, lb) := thin interval b lb in (x ++ y, lb).
Proof.
  revert lb. induction a as [|e a IH]; intros lb; cbn [app thin].
  - now destruct (thin interval b lb).
  - destruct (fresh_bucket interval e.2 lb) as [lb'|]; [|apply IH]. rewrite IH.
    destruct (thin interval a lb') as [x lb1]. now destruct (thin interval b lb1).
Qed.

Lemma thin_length interval es lb : (length (thin interval es lb).1 <= length es)%nat.
Proof.
  revert lb. induction es as [|e es IH]; intros lb; cbn [thin length]; [done|].
  destruct (fresh_bucket interval e.2 lb) as [lb'|]; [|specialize (IH lb); lia].
  specialize (IH lb'). destruct (thin interval es lb'). cbn [fst length] in *. lia.
Qed.

(** The loop on the entries the reader will give. *)
Fixpoint query_entries (q : history_query) (maxFrames : Z) (es : list (Z * Entry))
    (frames : list (historyFrame Decoded)) (lastBucket : buckets) : list (historyFrame Decoded) * buckets :=
  match es with
  | [] => (frames, lastBucket)
  | e :: es =>
      if zlen frames >=? maxFrames then (frames, lastBucket)
      else if hq_to q <? entry_time e then (frames, lastBucket)
      else if wanted q e then
        match fresh_bucket (hq_interval q) e.2 lastBucket with
        | None => query_entries q maxFrames es frames lastBucket
        | Some lastBucket => query_entries q maxFrames es (frames ++ [history_frame q e.1 e.2]) lastBucket
        end
      else query_entries q maxFrames es frames lastBucket
  end.

Lemma query_loop_entries q m fuel : forall jr es frames lb,
  read_all DecodeAll DecodeAllDict fuel jr = Some es -> jr_version (jr_file jr) = Version2 ->
  query_loop fuel q m jr frames lb = Some (query_entries q m es frames lb).
Proof.
  induction fuel as [|fuel IH]; intros jr es frames lb; cbn [read_all query_loop]; [done|].
  destruct (Next DecodeAll DecodeAllDict jr) as [jr' o] eqn:En. intros Hread Hv.
  destruct o; try done.
  - assert (Hv' : jr_version (jr_file jr') = Version2) by (now rewrite (Next_file _ _ _ _ En)).
    destruct (jr_entry jr') as [e|]; [|done]. destruct (read_all DecodeAll DecodeAllDict fuel jr') as [es'|] eqn:Er; [|done].
    cbn in Hread. injection Hread as <-. cbn [query_entries]. unfold wanted, entry_time. cbn [snd].
    destruct (zlen frames >=? m); [done|]. destruct (Z.ltb_spec (hq_to q) (e_Timestamp e)) as [|Hto]; [done|].
    rewrite (proj2 (Z.leb_le _ _) Hto), (Z.leb_antisym (e_Timestamp e)).
    destruct (Z.ltb_spec (e_Timestamp e) (hq_from q)); cbn [negb andb]; [by apply IH|].
    destruct (in_set (hq_pgns q) _); cbn [negb andb]; [|by apply IH].
    destruct (in_set (hq_srcs q) _); cbn [negb]; [|by apply IH].
    destruct (fresh_bucket _ e lb); [|by apply IH]. rewrite Hv'. cbn [Z.eqb Pos.eqb Version2 fst].
    by apply IH.
  - destruct (jr_err jr'); [done|]. injection Hread as <-. done.
Qed.

Lemma wanted_after q e es : hq_to q < entry_time e -> in_time (e :: es) ->
  List.filter (wanted q) (e :: es) = [].
Proof.
  intros Hlt [_ Hall]%StronglySorted_inv.
  assert (Hno : forall x, hq_to q < entry_time x -> wanted q x = false).
  { intros x Hx. unfold wanted. rewrite (proj2 (Z.leb_gt _ _) Hx), andb_false_r. done. }
  cbn [List.filter]. rewrite (Hno e Hlt). induction Hall as [|x es Hx _ IH]; [done|].
  cbn [List.filter]. rewrite Hno by lia. exact IH.
Qed.

(** On entries in time order the loop emits the wanted ones, thinned, up to the
    limit; unless the limit is reached the buckets are those of the thinning. *)
Lemma query_entries_spec q m es : forall frames lb, in_time es -> zlen frames <= m ->
  exists lb', query_entries q m es frames lb =
      (frames ++ take (Z.to_nat (m - zlen frames))
         (map (fun e => history_frame q e.1 e.2) (thin (hq_interval q) (List.filter (wanted q) es) lb).1), lb') /\
    (zlen frames + zlen (thin (hq_interval q) (List.filter (wanted q) es) lb).1 < m ->
     lb' = (thin (hq_interval q) (List.filter (wanted q) es) lb).2).
Proof.
  induction es as [|e es IH]; intros frames lb Hs Hm; cbn [query_entries].
  { exists lb. cbn. now rewrite take_nil, app_nil_r. }
  rewrite Z.geb_leb. destruct (Z.leb_spec m (zlen frames)).
  { exists lb. replace (Z.to_nat (m - zlen frames)) with 0%nat by lia. rewrite take_0, app_nil_r. split; [done|].
    intros. pose proof (zlen_nonneg (thin (hq_interval q) (List.filter (wanted q) (e :: es)) lb).1). lia. }
  destruct (Z.ltb_spec (hq_to q) (entry_time e)).
  { rewrite wanted_after by done. exists lb. cbn. now rewrite take_nil, app_nil_r. }
  apply StronglySorted_inv in Hs as [Hs _]. cbn [List.filter].
  destruct (wanted q e); [|by apply IH]. cbn [thin].
  destruct (fresh_bucket (hq_interval q) e.2 lb) as [lb1|]; [|by apply IH].
  destruct (IH (frames ++ [history_frame q e.1 e.2]) lb1 Hs ltac:(rewrite zlen_app, zlen_cons, zlen_nil; lia))
    as (lb' & -> & Hlb).
  destruct (thin (hq_interval q) (List.filter (wanted q) es) lb1) as [kept lb2]. cbn [fst snd map] in *.
  exists lb'. rewrite zlen_app, zlen_cons, zlen_nil in *. split; [|rewrite zlen_cons; intros; apply Hlb; lia].
  f_equal. replace (Z.to_nat (m - zlen frames)) with (S (Z.to_nat (m - (zlen frames + (1 + 0))))) by lia.
  cbn [take]. now rewrite <- app_assoc.
Qed.

(** ** One file *)

(** The instant is one the format can express. *)
Definition nano_range (t : time) : Prop := - 2 ^ 63 <= t - unix_epoch_us * 1000 < 2 ^ 63.

Definition at_time (t : time) (es : list (Z * Entry)) : list (Z * Entry) :=
  List.filter (fun e => entry_time e =? t) es.

(** A readable file with its entries, or one that cannot be opened. *)
Definition file_entries (q : history_query) (file : option (list Z)) (es : list (Z * Entry)) : Prop :=
  match file with
  | None => es = []
  | Some c => sound_file DecodeAll DecodeAllDict c es /\ in_time es /\ (length (at_time (hq_from q) es) <= 1)%nat
  end.

(** What the seek passes over is not wanted, if one frame at most is exactly at
    the start. *)
Lemma skipped_unwanted q skipped rest :
  in_time (skipped ++ rest) -> (length (at_time (hq_from q) (skipped ++ rest)) <= 1)%nat ->
  (skipped = [] \/ exists e rest', rest = e :: rest' /\ entry_time e <= hq_from q) ->
  List.filter (wanted q) (skipped ++ rest) = List.filter (wanted q) rest.
Proof.
  intros Hs Hone [->|(e & rest' & -> & Hle)]; [done|]. rewrite List.filter_app.
  replace (List.filter (wanted q) skipped) with (@nil (Z * Entry)); [done|]. symmetry.
  apply StronglySorted_app in Hs as (Hcross & _ & _). unfold at_time in Hone. rewrite List.filter_app, length_app in Hone.
  assert (Hlt : Forall (fun x => entry_time x < hq_from q) skipped).
  { apply Forall_forall. intros x Hx. pose proof (Hcross x e Hx (list_elem_of_here _ _)) as Hxe.
    destruct (Z.eq_dec (entry_time x) (hq_from q)) as [E|]; [|lia]. exfalso.
    cbn [List.filter] in Hone. rewrite (proj2 (Z.eqb_eq (entry_time e) _)) in Hone by lia.
    assert (Hin : In x (List.filter (fun y => entry_time y =? hq_from q) skipped)).
    { apply filter_In. split; [now apply list_elem_of_In|]. now apply Z.eqb_eq. }
    destruct (List.filter _ skipped); [done|]. cbn [length] in Hone. lia. }
  clear Hcross Hone. induction Hlt as [|x skipped Hx _ IH]; [done|]. cbn [List.filter]. rewrite IH.
  unfold wanted. now rewrite (proj2 (Z.leb_gt _ _) Hx).
Qed.

Lemma queryOneFile_spec fuel file es q m lb :
  file_entries q file es -> nano_range (hq_from q) -> (length es < fuel)%nat -> 0 <= m ->
  exists lb', queryOneFile fuel file q m lb =
      Some (take (Z.to_nat m) (map (fun e => history_frame q e.1 e.2)
              (thin (hq_interval q) (List.filter (wanted q) es) lb).1), lb') /\
    (zlen (thin (hq_interval q) (List.filter (wanted q) es) lb).1 < m ->
     lb' = (thin (hq_interval q) (List.filter (wanted q) es) lb).2).
Proof.
  intros Hf Hr Hfuel Hm. destruct file as [c|].
  2: { cbn in Hf. subst es. exists lb. cbn. now rewrite take_nil. }
  destruct Hf as (Hc & Hs & Hone). cbn [queryOneFile].
  destruct (decide (es = [])) as [->|Hne].
  { destruct (sound_file_empty _ _ _ Hc) as (jr & -> & Hb). unfold SeekToTime. rewrite Hb.
    exists lb. cbn. now rewrite take_nil. }
  destruct (sound_file_seek _ _ _ _ (hq_from q) Hc Hs) as (jr & jr' & skipped & rest & -> & -> & Hv & E & Hskip & Hread);
    [|done|].
  { unfold nano_range, unix_epoch_us in *.
    pose proof (Z.div_mod (hq_from q) 1000 ltac:(lia)). pose proof (Z.mod_pos_bound (hq_from q) 1000 ltac:(lia)). lia. }
  rewrite (query_loop_entries q m fuel jr' rest [] lb (Hread fuel Hfuel) Hv). rewrite E in Hs, Hone |- *.
  rewrite (skipped_unwanted q skipped rest Hs Hone Hskip). apply StronglySorted_app in Hs as (_ & _ & Hs).
  destruct (query_entries_spec q m rest [] lb Hs) as (lb' & -> & Hlb); [now rewrite zlen_nil|].
  rewrite zlen_nil, Z.sub_0_r in *. now exists lb'.
Qed.

(** ** All files *)

Lemma query_files_spec fuel q limit files ess :
  Forall2 (file_entries q) files ess -> nano_range (hq_from q) ->
  Forall (fun es : list (Z * Entry) => (length es < fuel)%nat) ess ->
  forall result lb, zlen result <= limit ->
  query_files fuel files q limit result lb =
    Some (result ++ take (Z.to_nat (limit - zlen result)) (map (fun e => history_frame q e.1 e.2)
            (thin (hq_interval q) (List.filter (wanted q) (concat ess)) lb).1)).
Proof.
  intros Hfiles Hr. induction Hfiles as [|file es files ess Hf _ IH]; intros Hfuel result lb Hl; cbn [query_files concat].
  { cbn. now rewrite take_nil, app_nil_r. }
  apply Forall_cons in Hfuel as [Hfu Hfuel]. rewrite Z.geb_leb.
  destruct (Z.leb_spec limit (zlen result)).
  { replace (Z.to_nat (limit - zlen result)) with 0%nat by lia. now rewrite take_0, app_nil_r. }
  destruct (queryOneFile_spec fuel file es q (limit - zlen result) lb Hf Hr Hfu ltac:(lia)) as (lb' & -> & Hlb).
  cbn [mbind option_bind]. rewrite List.filter_app, thin_app.
  set (t1 := thin (hq_interval q) (List.filter (wanted q) es) lb) in *. destruct t1 as [x lb1]. cbn [fst snd] in *.
  assert (Hx : zlen (map (fun e : Z * Entry => history_frame q e.1 e.2) x) = zlen x) by (unfold zlen; now rewrite length_map).
  destruct (Z.ltb_spec (zlen x) (limit - zlen result)) as [Hlt|Hge].
  - rewrite (Hlb Hlt), (take_ge (map _ x)) by (rewrite length_map; unfold zlen in *; lia).
    rewrite IH by (try done; rewrite zlen_app, Hx; lia). f_equal. rewrite <- app_assoc. f_equal.
    rewrite zlen_app, Hx. destruct (thin (hq_interval q) (List.filter (wanted q) (concat ess)) lb1) as [y lb2].
    cbn [fst]. rewrite map_app, take_app, (take_ge (map _ x)), length_map by (rewrite length_map; unfold zlen in *; lia).
    do 2 f_equal. unfold zlen in *. lia.
  - assert (Hlen : zlen (take (Z.to_nat (limit - zlen result)) (map (fun e : Z * Entry => history_frame q e.1 e.2) x))
             = limit - zlen result) by (unfold zlen in *; rewrite length_take, length_map; lia).
    rewrite IH by (try done; rewrite zlen_app, Hlen; lia). rewrite zlen_app, Hlen.
    replace (Z.to_nat (limit - (zlen result + (limit - zlen result)))) with 0%nat by lia.
    rewrite take_0, app_nil_r. f_equal. f_equal.
    destruct (thin (hq_interval q) (List.filter (wanted q) (concat ess)) lb1) as [y lb2].
    cbn [fst]. rewrite map_app, take_app_le by (rewrite length_map; unfold zlen in *; lia). done.
Qed.

End history.

(** * Downsampling

    Keeping a frame unless the last emitted one of its source and PGN is in the
    same bucket is, in time order, keeping the first of every bucket. *)

(** The elements whose key is new. *)
Fixpoint once {A K} `{EqDecision K} (key : A -> K) (seen : list K) (l : list A) : list A :=
  match l with
  | [] => []
  | a :: l => if decide (key a ∈ seen) then once key seen l else a :: once key (key a :: seen) l
  end.

Definition bucket_of (interval : duration) (e : Z * Entry) : (Z * Z) * Z :=
  ((Source (e_Header e.2), PGN (e_Header e.2)), time_bucket interval (entry_time e)).

Definition downsampled (interval : duration) (es : list (Z * Entry)) : list (Z * Entry) :=
  if interval >? 0 then once (bucket_of interval) [] es else es.

Lemma time_bucket_mono interval s t : 0 < interval -> nano_range s -> nano_range t -> s <= t ->
  time_bucket interval s <= time_bucket interval t.
Proof. unfold nano_range, time_bucket. intros Hi Hs Ht Hle. rewrite !i64_small by lia. apply Z.quot_le_mono; lia. Qed.

(** The map of last buckets stands for the buckets seen. *)
Record buckets_hold (interval : duration) (seen : list ((Z * Z) * Z)) (lb : buckets) (es : list (Z * Entry)) : Prop := {
  bh_seen : forall k b, lb !! k = Some b -> (k, b) ∈ seen;
  bh_last : forall k b, (k, b) ∈ seen -> exists b', lb !! k = Some b' /\ b <= b';
  bh_later : forall k b e, (k, b) ∈ seen -> e ∈ es -> b <= (bucket_of interval e).2
}.

Lemma thin_once interval es : 0 < interval -> forall seen lb,
  in_time es -> Forall (fun e => nano_range (entry_time e)) es -> buckets_hold interval seen lb es ->
  (thin interval es lb).1 = once (bucket_of interval) seen es.
Proof.
  intros Hi. induction es as [|e es IH]; intros seen lb Hs Hr [H1 H2 H3]; [done|]. cbn [thin once].
  apply StronglySorted_inv in Hs as [Hs Hle]. apply Forall_cons in Hr as [Hre Hr].
  unfold fresh_bucket. rewrite Z.gtb_ltb, (proj2 (Z.ltb_lt _ _) Hi).
  set (k := (Source (e_Header e.2), PGN (e_Header e.2))). set (b := time_bucket interval (e_Timestamp e.2)).
  assert (Eb : bucket_of interval e = (k, b)) by done. rewrite Eb.
  assert (Hlater : forall x, x ∈ es -> b <= (bucket_of interval x).2).
  { intros x Hx. rewrite Forall_forall in Hle, Hr. apply time_bucket_mono; auto. }
  destruct (bool_decide_reflect (lb !! k = Some b)) as [Hin|Hnew].
  - rewrite decide_True by now apply H1. apply IH; [done|done|]. constructor; [done|done|].
    intros k' b' x Hk Hx. apply (H3 k' b'); [done|now right].
  - rewrite decide_False.
    + specialize (IH ((k, b) :: seen) (<[k := b]> lb) Hs Hr). destruct (thin interval es (<[k := b]> lb)) as [kept lb2].
      cbn [fst] in *. rewrite IH; [done|]. constructor.
      * intros k' b' Hk. destruct (decide (k' = k)) as [->|]; [rewrite lookup_insert_eq in Hk; injection Hk as <-; by left|].
        rewrite lookup_insert_ne in Hk by done. right. now apply H1.
      * intros k' b' [[= -> ->]|Hk]%elem_of_cons; [exists b; now rewrite lookup_insert_eq|].
        destruct (decide (k' = k)) as [->|]; [|rewrite lookup_insert_ne by done; now apply H2].
        exists b. rewrite lookup_insert_eq. split; [done|]. now apply (H3 k b' e Hk); left.
      * intros k' b' x [[= -> ->]|Hk]%elem_of_cons Hx; [now apply Hlater|]. apply (H3 k' b'); [done|now right].
    + intros Hin. destruct (H2 k b Hin) as (b' & Hb' & Hle'). pose proof (H3 k b' e (H1 _ _ Hb') (list_elem_of_here _ _)) as Hle2.
      rewrite Eb in Hle2. cbn [snd] in Hle2. apply Hnew. rewrite Hb'. f_equal. lia.
Qed.

Lemma thin_downsampled interval es : in_time es -> Forall (fun e => nano_range (entry_time e)) es ->
  (thin interval es ∅).1 = downsampled interval es.
Proof.
  intros Hs Hr. unfold downsampled. rewrite Z.gtb_ltb. destruct (Z.ltb_spec 0 interval) as [Hi|Hi].
  - apply thin_once; [done|done|done|]. constructor; [done|set_solver|set_solver].
  - clear Hs Hr. induction es as [|e es IH]; [done|]. cbn [thin]. unfold fresh_bucket.
    rewrite Z.gtb_ltb, (proj2 (Z.ltb_ge _ _)) by lia. destruct (thin interval es ∅). cbn [fst] in *. now rewrite IH.
Qed.

(** * A writer's history *)

Lemma in_order_times fs : in_order fs -> in_time (map logged fs).
Proof.
  intros H. apply Sorted_StronglySorted; [intros x y z; lia|].
  induction fs as [|f fs IH]; [constructor|]. destruct fs as [|g fs]; [repeat constructor|].
  destruct H as (Hle & _ & H). constructor; [exact (IH H)|]. constructor.
  unfold entry_time, logged, time_UnixMicro. cbn. lia.
Qed.

Lemma at_time_part t ess es : es ∈ ess -> (length (at_time t es) <= length (at_time t (concat ess)))%nat.
Proof.
  unfold at_time. induction 1 as [es ess|es es' ess _ IH]; cbn [concat]; rewrite List.filter_app, length_app; lia.
Qed.

Lemma in_time_part ess es : es ∈ ess -> in_time (concat ess) -> in_time es.
Proof.
  induction 1 as [es ess|es es' ess _ IH]; cbn [concat]; intros (_ & H1 & H2)%StronglySorted_app; auto.
Qed.

Lemma in_time_filter (p : Z * Entry -> bool) es : in_time es -> in_time (List.filter p es).
Proof.
  induction 1 as [|e es Hs IH Hall]; [constructor|]. cbn [List.filter]. destruct (p e); [|exact IH].
  constructor; [exact IH|]. rewrite Forall_forall in *. intros x Hx. apply Hall.
  apply list_elem_of_In, filter_In in Hx as [Hx _]. now apply list_elem_of_In.
Qed.

Lemma wanted_range q e : nano_range (hq_from q) -> nano_range (hq_to q) -> wanted q e = true -> nano_range (entry_time e).
Proof. unfold wanted, nano_range. intros Hf Ht H. to_props. lia. Qed.

Section queries.
  Context (DecodeAll : list Z -> option (list Z)) (DecodeAllDict : list Z -> list Z -> option (list Z)).
  Context {Decoded : Type} (Decode : Z -> list Z -> option Decoded).

(** What a query answers over the frames [es] of a journal. *)
Definition history_answer (q : history_query) (limit : Z) (es : list (Z * Entry)) : list (historyFrame Decoded) :=
  take (Z.to_nat limit) (map (fun e => history_frame Decode q e.1 e.2)
    (downsampled (hq_interval q) (List.filter (wanted q) es))).

(** A query over finished files that are in time order, whoever wrote them. *)
Lemma query_sound_files q limit fuel files ess :
  files_sound DecodeAll DecodeAllDict files ess -> in_time (concat ess) ->
  (length (at_time (hq_from q) (concat ess)) <= 1)%nat -> nano_range (hq_from q) -> nano_range (hq_to q) ->
  0 <= limit -> (length (concat ess) < fuel)%nat ->
  queryJournalFiles DecodeAll DecodeAllDict Decode fuel (map (fun f => Some f.2) files) q limit
  = Some (history_answer q limit (concat ess)).
Proof.
  intros Hfiles Hs Hone Hf Ht Hl Hfuel. unfold queryJournalFiles.
  rewrite (query_files_spec DecodeAll DecodeAllDict Decode fuel q limit _ ess); rewrite ?zlen_nil, ?Z.sub_0_r; try done.
  - unfold history_answer. rewrite thin_downsampled; [done|now apply in_time_filter|].
    apply Forall_forall. intros e He. apply (wanted_range q); [done|done|].
    apply list_elem_of_In, filter_In in He as [_ He]. exact He.
  - assert (Hall : forall es, es ∈ ess -> in_time es /\ (length (at_time (hq_from q) es) <= 1)%nat).
    { intros es He. split; [now apply (in_time_part ess)|]. pose proof (at_time_part (hq_from q) _ _ He). lia. }
    clear -Hfiles Hall. induction Hfiles as [|[t c] es files ess Hc _ IH]; [constructor|].
    cbn [map]. constructor; [|apply IH; intros es' He; apply Hall; now right].
    split; [exact Hc|]. apply Hall. by left.
  - apply Forall_forall. intros es He. enough (length es <= length (concat ess))%nat by lia.
    clear -He. induction He as [es ess|es es' ess _ IH]; cbn [concat]; rewrite length_app; lia.
Qed.

End queries.

Section writer_history.
  Context (EncodeAll : list Z -> list Z) (EncodeAllDict : list Z -> option (list Z -> list Z)).
  Context (BuildZstdDict : list (list Z) -> option (list Z)).
  Context (DecodeAll : list Z -> option (list Z)) (DecodeAllDict : list Z -> list Z -> option (list Z)).
  Context (Z_law : zstd_law EncodeAll EncodeAllDict BuildZstdDict DecodeAll DecodeAllDict).
  Context (cfg : JournalConfig) (Hcfg : cfg_ok cfg).
  Context {Decoded : Type} (Decode : Z -> list Z -> option Decoded).

(** C7: A history query answers from the frames that were handed to the journal.
    Take the files of a writer's run as in [journal_roundtrip]: frames the format
    holds, room before every append, a name of its own for every file ([run_room]),
    files that can be created, and [Run] ending without an error. Suppose besides
    that at least one frame was handed over, that the frames' numbers are
    consecutive and their times do not go back ([in_order]), that at most one of
    them carries the very microsecond of the query's start (with several, those
    before the block the seek stops at are missed, see [boundary_frame_missed]),
    that both ends of the query are times the nanosecond format can express, and
    that the limit is not negative. Then, with more fuel than there are frames, the
    query gives exactly the frames between the two times, ends included, that pass
    the filters, thinned to the first of each bucket per source and PGN, and of
    those the first [limit]: in order, with sequence number, header and bytes. *)
Theorem history_of_journal w w' input e q limit fuel :
  NewJournalWriter cfg = Some (cfg, w) -> input_ok input -> env_ok e ->
  run_room EncodeAll EncodeAllDict BuildZstdDict cfg w input = true -> in_order (kept input) -> kept input <> [] ->
  Run EncodeAll EncodeAllDict BuildZstdDict cfg e w input = Ok w' ->
  (length (at_time (hq_from q) (map logged (kept input))) <= 1)%nat ->
  nano_range (hq_from q) -> nano_range (hq_to q) -> 0 <= limit -> (length (kept input) < fuel)%nat ->
  queryJournalFiles DecodeAll DecodeAllDict Decode fuel (map (fun f => Some f.2) (rotated (jw_file w'))) q limit
  = Some (history_answer Decode q limit (map logged (kept input))).
Proof.
  intros Hnew Hin He Hroom Hord Hne Hrun Hone Hf Ht Hl Hfuel.
  destruct (journal_files_sound _ _ _ _ _ Z_law cfg Hcfg w input e Hnew Hin He Hroom Hne) as (w1 & _ & H).
  destruct (file (jw_file w1)); [|congruence]. destruct H as (w2 & ess & Hrun' & _ & Hs & [_ Hc]). specialize (Hc Hord).
  replace w' with w2 by congruence. rewrite <- Hc in *.
  apply query_sound_files; try done; rewrite Hc; [now apply in_order_times|now rewrite length_map].
Qed.

End writer_history.

(** * Concrete queries *)

Definition demo_finished : result jerror JournalWriter := Eval vm_compute in
  Run tag_encode tag_dict tag_build demo_cfg demo_env demo_writer demo_input.
Definition demo_done : JournalWriter := Eval vm_compute in
  match demo_finished with Ok w => w | Err _ => demo_writer end.

(** A third of a second of position reports and product data, one per bucket of
    ten milliseconds. *)
Definition demo_query : history_query :=
  mkHistoryQuery (rx_Timestamp (demo_frame 20)) (rx_Timestamp (demo_frame 120)) (Some {[129025; 129029]}) None
    (10 * millisecond) false.

Definition no_decoder (_ : Z) (_ : list Z) : option unit := None.

Lemma history_of_journal_witness :
  queryJournalFiles tag_decode tag_undict no_decoder 401 (map (fun f => Some f.2) (rotated (jw_file demo_done))) demo_query 20
    = Some (history_answer no_decoder demo_query 20 (map logged (kept demo_input))) /\
  map hf_Seq (history_answer no_decoder demo_query 20 (map logged (kept demo_input)))
    = [121; 124; 127; 130; 131; 134; 137; 140; 144; 147; 150; 154; 157; 160; 164; 167; 170; 174; 177; 180].
Proof.
  split; [|vm_compute; reflexivity].
  apply (history_of_journal tag_encode tag_dict tag_build tag_decode tag_undict tag_law demo_cfg demo_cfg_ok no_decoder
    demo_writer demo_done demo_input demo_env demo_query 20 401 demo_new demo_input_ok demo_env_ok demo_room demo_in_order
    demo_kept); [vm_compute; reflexivity|vm_compute; lia|split; vm_compute; congruence|split; vm_compute; congruence|lia|
    vm_compute; lia].
Defined.

(** Two frames of the same microsecond on both sides of a block boundary: a query
    from that instant gives the second only. *)
Definition boundary_file : list Z :=
  jheader 4096 CompressionNone ++
  build_block 4096 1000000 10 [(0, 0x19F80123, [1; 2; 3; 4; 5; 6; 7; 8]); (500, 0x19F11223, [9])] ++
  build_block 4096 1000500 12 [(0, 0x19F80123, [1; 2; 3; 4; 5; 6; 7; 8]); (500, 0x19F11223, [9])].

Definition from_us (us : Z) : history_query :=
  mkHistoryQuery (time_UnixMicro us) (time_UnixMicro 2000000) None None 0 false.

Lemma boundary_frame_missed :
  map hf_Seq <$> queryJournalFiles demo_decode demo_dict_decode no_decoder 9 [Some boundary_file] (from_us 1000500) 100
    = Some [12; 13] /\
  map hf_Seq <$> queryJournalFiles demo_decode demo_dict_decode no_decoder 9 [Some boundary_file] (from_us 1000499) 100
    = Some [11; 12; 13].
Proof. vm_compute. done. Qed.
