(* ===== verification/PgnNaming.v ===== *)
(** The names of generated code: [pgngen/naming.go].

    A Go string is its bytes; the functions walk over its runes.  The tables of
    [unicode] are an interface: what is proved of them holds for ASCII. *)

From S2P Require Import Prelude.
From Stdlib Require Import Ascii.

(** * Runes *)

(** [utf8.RuneError], U+FFFD. *)
Definition RuneError : Z := 65533.

Definition is_continuation (b : Z) : bool := (128 <=? b) && (b <=? 191).

(** The range of the second byte of a sequence that starts with [b0]. *)
Definition second_byte_ok (b0 b1 : Z) : bool :=
  ((if b0 =? 224 then 160 else if b0 =? 240 then 144 else 128) <=? b1) &&
  (b1 <=? (if b0 =? 237 then 159 else if b0 =? 244 then 143 else 191)).

(** [utf8.DecodeRune]: the first rune and the number of its bytes. *)
Definition DecodeRune (bs : list Z) : Z * nat :=
  match bs with
  | [] => (RuneError, O)
  | b0 :: rest =>
      if b0 <? 128 then (b0, 1%nat)
      else if negb ((194 <=? b0) && (b0 <=? 244)) then (RuneError, 1%nat)
      else match rest with
           | [] => (RuneError, 1%nat)
           | b1 :: rest =>
               if negb (second_byte_ok b0 b1) then (RuneError, 1%nat)
               else if b0 <? 224 then ((b0 - 192) * 64 + (b1 - 128), 2%nat)
               else match rest with
                    | [] => (RuneError, 1%nat)
                    | b2 :: rest =>
                        if negb (is_continuation b2) then (RuneError, 1%nat)
                        else if b0 <? 240 then ((b0 - 224) * 4096 + (b1 - 128) * 64 + (b2 - 128), 3%nat)
                        else match rest with
                             | [] => (RuneError, 1%nat)
                             | b3 :: _ =>
                                 if negb (is_continuation b3) then (RuneError, 1%nat)
                                 else ((b0 - 240) * 262144 + (b1 - 128) * 4096 + (b2 - 128) * 64 + (b3 - 128), 4%nat)
                             end
                    end
           end
  end.

(** [utf8.AppendRune]: a rune's bytes; a surrogate or a number out of range is an error. *)
Definition EncodeRune (r : Z) : list Z :=
  let r := if (r <? 0) || (1114111 <? r) || ((55296 <=? r) && (r <=? 57343)) then RuneError else r in
  if r <? 128 then [r]
  else if r <? 2048 then [192 + r / 64; 128 + r mod 64]
  else if r <? 65536 then [224 + r / 4096; 128 + (r / 64) mod 64; 128 + r mod 64]
  else [240 + r / 262144; 128 + (r / 4096) mod 64; 128 + (r / 64) mod 64; 128 + r mod 64].

(** The runes of a string; every rune takes a byte at least. *)
Fixpoint runes_fuel (fuel : nat) (bs : list Z) : list Z :=
  match fuel, bs with
  | S fuel, _ :: _ => let '(r, n) := DecodeRune bs in r :: runes_fuel fuel (drop n bs)
  | _, _ => []
  end.

Definition runes (s : string) : list Z := runes_fuel (String.length s) (bytes_of_string s).
Definition string_of_runes (rs : list Z) : string := string_of_bytes (flat_map EncodeRune rs).

(** [unicode.IsUpper], [unicode.ToUpper] and [unicode.ToLower]. *)
Class Unicode := { IsUpper : Z -> bool; ToUpper : Z -> Z; ToLower : Z -> Z }.

(** What they are for ASCII. *)
Definition ascii_upper (r : Z) : bool := (65 <=? r) && (r <=? 90).
Definition ascii_lower (r : Z) : bool := (97 <=? r) && (r <=? 122).

#[export] Instance ascii_unicode : Unicode := {
  IsUpper := ascii_upper;
  ToUpper r := if ascii_lower r then r - 32 else r;
  ToLower r := if ascii_upper r then r + 32 else r
}.

(** * Names *)

(** One of [' '], ['-'], ['/'], [','], ['('], [')'] and ['&']. *)
Definition is_separator (r : Z) : bool := existsb (Z.eqb r) [32; 45; 47; 44; 40; 41; 38].

Section names.
Context `{U : Unicode}.

Fixpoint pascal_runes (upper : bool) (rs : list Z) : list Z :=
  match rs with
  | [] => []
  | r :: rs =>
      if (r =? 95) || is_separator r then pascal_runes true rs
      else if upper then ToUpper r :: pascal_runes false rs
      else r :: pascal_runes false rs
  end.

Definition toPascal (s : string) : string := string_of_runes (pascal_runes true (runes s)).

(** [b] with an underscore, unless it is empty or ends with one. *)
Definition underscore (b : list Z) : list Z :=
  match last b with None => b | Some r => if r =? 95 then b else b ++ [95] end.

(** [b] is the text written so far; [first] at the start of the string. *)
Fixpoint snake_runes (first prevUpper : bool) (b rs : list Z) : list Z :=
  match rs with
  | [] => b
  | r :: rs =>
      if is_separator r then snake_runes false prevUpper (underscore b) rs
      else if IsUpper r then
        snake_runes false true ((if negb first && negb prevUpper then underscore b else b) ++ [ToLower r]) rs
      else snake_runes false false (b ++ [r]) rs
  end.

(** [strings.TrimRight(s, _)] for one character. *)
Fixpoint trim_trailing (c : Z) (rs : list Z) : list Z :=
  match rs with
  | [] => []
  | r :: rs => match trim_trailing c rs with [] => if r =? c then [] else [r] | rs' => r :: rs' end
  end.

Definition toSnake (s : string) : string := string_of_runes (trim_trailing 95 (snake_runes true false [] (runes s))).

Definition toLowerCamel (s : string) : string :=
  let p := toPascal s in
  match runes p with [] => p | r :: rs => string_of_runes (ToLower r :: rs) end.

End names.

Definition isVowel (c : Z) : bool := existsb (Z.eqb c) [97; 101; 105; 111; 117].

(** A byte [i] from the end. *)
Definition byte_from_end (i : nat) (s : string) : option Z := rev (bytes_of_string s) !! i.

Definition toPlural (s : string) : string :=
  match byte_from_end 0 s with
  | None => s
  | Some c =>
      if (c =? 115) || (c =? 120) || (c =? 122) ||
         ((c =? 104) && match byte_from_end 1 s with Some d => (d =? 115) || (d =? 99) | None => false end)
      then (s ++ "es")%string
      else if (c =? 121) && match byte_from_end 1 s with Some d => negb (isVowel d) | None => false end
      then (String.substring 0 (String.length s - 1) s ++ "ies")%string
      else (s ++ "s")%string
  end.

Example name_texts :
  (map toPascal ["speed_water"; "Wind Data"; "AC Input, Basic (120 V)"],
   map toSnake ["speed_water"; "Speed Water"; "GNSS Position & SOG"; "WaterDepth"],
   map toLowerCamel ["VictronRegister"; "wind_speed"], map toPlural ["status"; "category"; "day"; "indicator"; "batch"]) =
  (["SpeedWater"; "WindData"; "ACInputBasic120V"], ["speed_water"; "speed_water"; "gnss_position_sog"; "water_depth"],
   ["victronRegister"; "windSpeed"], ["statuses"; "categories"; "days"; "indicators"; "batches"])%string.
Proof. vm_compute. reflexivity. Qed.

(** ** Encoded text reads back *)

Definition scalar_value (r : Z) : bool :=
  (0 <=? r) && (r <=? 1114111) && negb ((55296 <=? r) && (r <=? 57343)).

Lemma second_byte_ok_tail b0 b1 : 128 <= b1 <= 191 -> (b0 = 224 -> 160 <= b1) -> (b0 = 240 -> 144 <= b1) ->
  (b0 = 237 -> b1 <= 159) -> (b0 = 244 -> b1 <= 143) -> second_byte_ok b0 b1 = true.
Proof.
  intros. unfold second_byte_ok. destruct (Z.eqb_spec b0 224), (Z.eqb_spec b0 240), (Z.eqb_spec b0 237), (Z.eqb_spec b0 244); lia.
Qed.

Lemma DecodeRune_Encode r rest : scalar_value r = true ->
  DecodeRune (EncodeRune r ++ rest) = (r, length (EncodeRune r)).
Proof.
  unfold scalar_value, EncodeRune, is_continuation. intros H.
  destruct ((r <? 0) || (1114111 <? r) || ((55296 <=? r) && (r <=? 57343))) eqn:Es; [lia|].
  pose proof (Z.div_mod r 64 ltac:(lia)). pose proof (Z.mod_pos_bound r 64 ltac:(lia)).
  pose proof (Z.div_mod (r / 64) 64 ltac:(lia)). pose proof (Z.mod_pos_bound (r / 64) 64 ltac:(lia)).
  pose proof (Z.div_mod (r / 4096) 64 ltac:(lia)). pose proof (Z.mod_pos_bound (r / 4096) 64 ltac:(lia)).
  assert (E1 : r / 4096 = r / 64 / 64) by (rewrite Z.div_div by lia; reflexivity).
  assert (E2 : r / 262144 = r / 4096 / 64) by (rewrite Z.div_div by lia; reflexivity).
  destruct (Z.ltb_spec r 128); [|destruct (Z.ltb_spec r 2048); [|destruct (Z.ltb_spec r 65536)]];
    cbn [app DecodeRune length]; unfold is_continuation;
    repeat match goal with |- context [if ?c then _ else _] =>
      first [replace c with false by lia | replace c with true by lia
            | replace c with false by (rewrite second_byte_ok_tail by lia; done)] end; f_equal; lia.
Qed.
