(* ===== verification/PgnSchema.v ===== *)
(** The syntax tree of PGN definitions and its resolution: [pgngen/ast.go].

    [Resolve] computes where every field starts and refuses definitions that
    refer to unknown names, leave a variable-width field unaligned or cannot be
    told apart by a discriminator.  A Go [int] is a [Z] with the wrap-around of
    additions that can leave 64 bits; the iteration over the map of dispatch
    groups takes the visited order as an argument. *)

From S2P Require Import Prelude GoNum.
From Stdlib Require Import Ascii.

(** * The tree *)

Inductive FieldType :=
| TypeUint | TypeInt | TypeFloat | TypeString | TypeEnum | TypeReserved | TypeUnknown | TypeStringLAU
| TypeStruct | TypeBytes.

#[export] Instance FieldType_eq_dec : EqDecision FieldType.
Proof. solve_decision. Defined.

Record FieldDef := mkField {
  fd_Name : string;
  fd_Type : FieldType;
  fd_Bits : Z;
  fd_BitStart : Z;
  fd_Scale : float64;
  fd_Offset : float64;
  fd_Unit : string;
  fd_Desc : string;
  fd_EnumRef : string;
  fd_LookupRef : string;
  fd_StructRef : string;
  fd_RepeatRef : string;
  fd_Trim : string;
  fd_Tolerance : option float64;
  fd_Signed : bool;
  fd_MatchValue : option Z;
  fd_RepeatCount : Z;
  fd_GroupMode : string;
  fd_AliasPlural : string;
  fd_PGNRef : string;
  fd_CountRef : string;
  fd_Line : Z
}.

Record EnumValue := mkEnumValue { ev_Value : Z; ev_Name : string }.
Record EnumDef := mkEnum { en_Name : string; en_Values : list EnumValue; en_Line : Z }.
Record LookupValue := mkLookupValue { lv_Key : Z; lv_Name : string }.
Record LookupDef := mkLookup { lk_Name : string; lk_KeyType : string; lk_Values : list LookupValue; lk_Line : Z }.
Record StructDef := mkStruct { sd_Name : string; sd_Fields : list FieldDef; sd_Line : Z }.

(** [pd_Fields] is [None] for a name-only PGN. *)
Record PGNDef := mkPGN {
  pd_PGN : Z;
  pd_Description : string;
  pd_FastPacket : bool;
  pd_Interval : duration;
  pd_OnDemand : bool;
  pd_Draft : bool;
  pd_Fields : option (list FieldDef);
  pd_Line : Z
}.

Record Schema := mkSchema {
  sc_Enums : list EnumDef;
  sc_Lookups : list LookupDef;
  sc_Structs : list StructDef;
  sc_PGNs : list PGNDef
}.

(** ** Queries *)

Definition IsReserved (f : FieldDef) : bool := bool_decide (fd_Type f = TypeReserved).
Definition IsUnknown (f : FieldDef) : bool := bool_decide (fd_Type f = TypeUnknown).
Definition IsSkipped (f : FieldDef) : bool := IsReserved f || IsUnknown f.
Definition IsRepeated (f : FieldDef) : bool := fd_RepeatCount f >? 0.
Definition IsDynamicRepeat (f : FieldDef) : bool := negb (bool_decide (fd_RepeatRef f = EmptyString)).

(** [f.Scale != 0] *)
Definition float_nonzero (x : float64) : bool := match x with SpecFloat.S754_zero _ => false | _ => true end.
Definition HasScaling (f : FieldDef) : bool := float_nonzero (fd_Scale f) || float_nonzero (fd_Offset f).

(** The types whose width is known at run time only. *)
Definition variable_width (f : FieldDef) : bool :=
  match fd_Type f with TypeStringLAU | TypeStruct | TypeBytes => true | _ => false end.

Definition Struct_HasVariableWidth (sd : StructDef) : bool :=
  existsb (fun f => bool_decide (fd_Type f = TypeStringLAU)) (sd_Fields sd).

Definition FixedEntryBytes (sd : StructDef) : Z :=
  Z.quot (foldl (fun total f => i64 (total + fd_Bits f)) 0 (sd_Fields sd)) 8.

Definition IsNameOnly (p : PGNDef) : bool := match pd_Fields p with None => true | Some _ => false end.
Definition pgn_fields (p : PGNDef) : list FieldDef := default [] (pd_Fields p).
Definition PGN_HasVariableWidth (p : PGNDef) : bool := existsb variable_width (pgn_fields p).

(** The width a field adds to the static layout. *)
Definition static_bits (f : FieldDef) : Z :=
  if variable_width f then 0
  else if IsRepeated f then i64 (fd_Bits f * fd_RepeatCount f)
  else fd_Bits f.

Definition TotalBits (p : PGNDef) : Z := foldl (fun total f => i64 (total + static_bits f)) 0 (pgn_fields p).
Definition MinBytes (p : PGNDef) : Z := Z.quot (i64 (TotalBits p + 7)) 8.

(** * Errors *)

(** The digits of a positive number; a number of 64 bits has at most 20. *)
Fixpoint itoa_digits (fuel : nat) (n : Z) (buf : string) : string :=
  match fuel with
  | O => buf
  | S fuel => if 0 <? n then itoa_digits fuel (n / 10) (String (ascii_of_Z (48 + n mod 10)) buf) else buf
  end.

Definition itoa (n : Z) : string :=
  if n =? 0 then "0"%string
  else
    let neg := n <? 0 in
    let digits := itoa_digits 20 (if neg then i64 (- n) else n) "" in
    if neg then String "-" digits else digits.

Record ResolveError := mkResolveError { re_Line : Z; re_Message : string }.

Definition ResolveError_Error (e : ResolveError) : string :=
  if re_Line e >? 0 then ("line " ++ itoa (re_Line e) ++ ": " ++ re_Message e)%string else re_Message e.

(** * Resolution *)

Definition set_BitStart (offset : Z) (f : FieldDef) : FieldDef :=
  mkField (fd_Name f) (fd_Type f) (fd_Bits f) offset (fd_Scale f) (fd_Offset f) (fd_Unit f) (fd_Desc f) (fd_EnumRef f)
    (fd_LookupRef f) (fd_StructRef f) (fd_RepeatRef f) (fd_Trim f) (fd_Tolerance f) (fd_Signed f) (fd_MatchValue f)
    (fd_RepeatCount f) (fd_GroupMode f) (fd_AliasPlural f) (fd_PGNRef f) (fd_CountRef f) (fd_Line f).

(** What the parser took for an enumeration and is a struct. *)
Definition reclassify (structSet : gset string) (f : FieldDef) : FieldDef :=
  if bool_decide (fd_Type f = TypeEnum) && bool_decide (fd_EnumRef f ∈ structSet) then
    mkField (fd_Name f) TypeStruct (fd_Bits f) (fd_BitStart f) (fd_Scale f) (fd_Offset f) (fd_Unit f) (fd_Desc f) ""
      (fd_LookupRef f) (fd_EnumRef f) (fd_RepeatRef f) (fd_Trim f) (fd_Tolerance f) (fd_Signed f) (fd_MatchValue f)
      (fd_RepeatCount f) (fd_GroupMode f) (fd_AliasPlural f) (fd_PGNRef f) (fd_CountRef f) (fd_Line f)
  else f.

(** The first key of a lookup that was seen before. *)
Fixpoint duplicate_key (seen : gset Z) (vs : list LookupValue) : option Z :=
  match vs with
  | [] => None
  | v :: vs => if bool_decide (lv_Key v ∈ seen) then Some (lv_Key v) else duplicate_key ({[lv_Key v]} ∪ seen) vs
  end.

Fixpoint check_lookups (ls : list LookupDef) : result ResolveError unit :=
  match ls with
  | [] => Ok tt
  | l :: ls =>
      match duplicate_key ∅ (lk_Values l) with
      | Some k => Err (mkResolveError (lk_Line l) ("lookup " ++ lk_Name l ++ ": duplicate key " ++ itoa k)%string)
      | None => check_lookups ls
      end
  end.

Fixpoint check_structs (enumSet structSet : gset string) (sds : list StructDef) : result ResolveError (gset string) :=
  match sds with
  | [] => Ok structSet
  | sd :: sds =>
      if bool_decide (sd_Name sd ∈ structSet) then
        Err (mkResolveError (sd_Line sd) ("duplicate struct name: " ++ sd_Name sd)%string)
      else if bool_decide (sd_Name sd ∈ enumSet) then
        Err (mkResolveError (sd_Line sd) ("struct name conflicts with enum: " ++ sd_Name sd)%string)
      else check_structs enumSet ({[sd_Name sd]} ∪ structSet) sds
  end.

(** The offsets within a struct. *)
Fixpoint struct_layout (offset : Z) (fs : list FieldDef) : list FieldDef :=
  match fs with
  | [] => []
  | f :: fs => set_BitStart offset f :: struct_layout (i64 (offset + fd_Bits f)) fs
  end.

Definition field_error (f : FieldDef) (msg : string) : ResolveError :=
  mkResolveError (fd_Line f) ("field " ++ fd_Name f ++ ": " ++ msg)%string.

(** A reference from [f] to an earlier field, which must be an unsigned integer. *)
Definition check_ref (fieldNames : gmap string FieldDef) (f : FieldDef) (attr ref : string) : result ResolveError unit :=
  if bool_decide (ref = EmptyString) then Ok tt
  else match fieldNames !! ref with
       | None => Err (field_error f (attr ++ "=" ++ ref ++ " references unknown field"))
       | Some r =>
           if bool_decide (fd_Type r = TypeUint) then Ok tt
           else Err (field_error f (attr ++ "=" ++ ref ++ " must reference a uint field"))
       end.

Record name_sets := mkNameSets { enumSet : gset string; lookupSet : gset string; structSet : gset string }.

(** The checks of one field, [offset] being the end of the static layout so far
    with the field and [later] the fields after it. *)
Definition check_field (ns : name_sets) (offset : Z) (fieldNames : gmap string FieldDef) (f : FieldDef)
    (later : list FieldDef) : result ResolveError unit :=
  if bool_decide (fd_Type f = TypeEnum) && negb (bool_decide (fd_EnumRef f ∈ enumSet ns)) then
    Err (mkResolveError (fd_Line f) ("unknown enum type: " ++ fd_EnumRef f)%string)
  else if negb (bool_decide (fd_LookupRef f = EmptyString)) && negb (bool_decide (fd_LookupRef f ∈ lookupSet ns)) then
    Err (mkResolveError (fd_Line f) ("unknown lookup type: " ++ fd_LookupRef f)%string)
  else if bool_decide (fd_Type f = TypeStruct) && negb (bool_decide (fd_StructRef f ∈ structSet ns)) then
    Err (mkResolveError (fd_Line f) ("unknown struct type: " ++ fd_StructRef f)%string)
  else if bool_decide (fd_Type f = TypeStruct) && bool_decide (fd_RepeatRef f = EmptyString) then
    Err (field_error f "struct-typed fields require repeat=<field_name>")
  else
    _ ← check_ref fieldNames f "repeat" (fd_RepeatRef f);
    if variable_width f && negb (Z.rem offset 8 =? 0) then
      Err (field_error f ("variable-width field must be byte-aligned (cumulative bits = " ++ itoa offset ++ ")"))
    else if bool_decide (fd_Type f = TypeBytes) && existsb (fun g => negb (IsSkipped g)) later then
      Err (field_error f "bytes field must be the last field in the PGN")
    else
      _ ← check_ref fieldNames f "pgn_ref" (fd_PGNRef f);
      _ ← check_ref fieldNames f "count" (fd_CountRef f);
      if negb (Bool.eqb (bool_decide (fd_PGNRef f = EmptyString)) (bool_decide (fd_CountRef f = EmptyString))) then
        Err (field_error f "pgn_ref and count must be used together")
      else Ok tt.

(** The fields of a PGN, reclassified, with their offsets. *)
Fixpoint resolve_fields (ns : name_sets) (offset : Z) (fieldNames : gmap string FieldDef) (fs : list FieldDef)
    : result ResolveError (list FieldDef) :=
  match fs with
  | [] => Ok []
  | f :: fs =>
      let f := set_BitStart offset f in
      let offset := i64 (offset + static_bits f) in
      _ ← check_field ns offset fieldNames f fs;
      let fieldNames := if negb (IsSkipped f) && negb (bool_decide (fd_Name f = EmptyString))
                        then <[fd_Name f := f]> fieldNames else fieldNames in
      fs ← resolve_fields ns offset fieldNames fs;
      Ok (f :: fs)
  end.

Definition set_Fields (fs : list FieldDef) (p : PGNDef) : PGNDef :=
  mkPGN (pd_PGN p) (pd_Description p) (pd_FastPacket p) (pd_Interval p) (pd_OnDemand p) (pd_Draft p) (Some fs) (pd_Line p).

Fixpoint resolve_pgns (ns : name_sets) (ps : list PGNDef) : result ResolveError (list PGNDef) :=
  match ps with
  | [] => Ok []
  | p :: ps =>
      p ← match pd_Fields p with
          | None => Ok p
          | Some fs => fs ← resolve_fields ns 0 ∅ (map (reclassify (structSet ns)) fs); Ok (set_Fields fs p)
          end;
      ps ← resolve_pgns ns ps;
      Ok (p :: ps)
  end.

(** * Dispatch groups *)

Definition discriminatorField (p : PGNDef) : option FieldDef :=
  List.find (fun f => bool_decide (is_Some (fd_MatchValue f))) (pgn_fields p).

Definition hasMatchValues (p : PGNDef) : bool := bool_decide (is_Some (discriminatorField p)).

Definition same_place (d e : FieldDef) : bool :=
  bool_decide (fd_Name d = fd_Name e) && (fd_BitStart d =? fd_BitStart e) && (fd_Bits d =? fd_Bits e).

Definition pgn_error (line pgn : Z) (msg : string) : ResolveError :=
  mkResolveError line ("PGN " ++ itoa pgn ++ ": " ++ msg)%string.

Definition place_text (d : FieldDef) : string :=
  (fd_Name d ++ " at bit " ++ itoa (fd_BitStart d) ++ ":" ++ itoa (fd_Bits d))%string.

(** The variants one after the other: [matchValues] has the line of the variant
    with each value, [defaultCount] counts those without one. *)
Fixpoint check_variants (pgn : Z) (disc : FieldDef) (matchValues : gmap Z Z) (defaultCount : Z) (ps : list PGNDef)
    : result ResolveError unit :=
  match ps with
  | [] => Ok tt
  | p :: ps =>
      match discriminatorField p with
      | None =>
          if defaultCount + 1 >? 1
          then Err (pgn_error (pd_Line p) pgn "multiple default variants (without value= constraints)")
          else check_variants pgn disc matchValues (defaultCount + 1) ps
      | Some d =>
          if negb (same_place d disc) then
            Err (pgn_error (fd_Line d) pgn ("discriminator field mismatch: " ++ place_text d ++ " vs " ++ place_text disc))
          else
            let v := default 0 (fd_MatchValue d) in
            match matchValues !! v with
            | Some line =>
                Err (pgn_error (fd_Line d) pgn
                       ("duplicate match value " ++ itoa v ++ " (also at line " ++ itoa line ++ ")"))
            | None => check_variants pgn disc (<[v := pd_Line p]> matchValues) defaultCount ps
            end
      end
  end.

Fixpoint check_metadata (pgn : Z) (first : PGNDef) (ps : list PGNDef) : result ResolveError unit :=
  match ps with
  | [] => Ok tt
  | p :: ps =>
      if negb (Bool.eqb (pd_FastPacket p) (pd_FastPacket first)) then
        Err (pgn_error (pd_Line p) pgn "conflicting fast_packet metadata across variants")
      else if negb (pd_Interval p =? pd_Interval first) then
        Err (pgn_error (pd_Line p) pgn "conflicting interval metadata across variants")
      else if negb (Bool.eqb (pd_OnDemand p) (pd_OnDemand first)) then
        Err (pgn_error (pd_Line p) pgn "conflicting on_demand metadata across variants")
      else check_metadata pgn first ps
  end.

(** The variants of a PGN number in file order. *)
Definition variants (pgn : Z) (ps : list PGNDef) : list PGNDef :=
  List.filter (fun p => negb (IsNameOnly p) && (pd_PGN p =? pgn)) ps.

Definition validateDispatchGroup (pgn : Z) (ps : list PGNDef) : result ResolveError unit :=
  match omap discriminatorField ps, ps with
  | [], _ | _, [] =>
      Err (pgn_error 0 pgn "multiple definitions require at least one variant with a value= constraint")
  | disc :: _, first :: rest =>
      _ ← check_variants pgn disc ∅ 0 ps;
      check_metadata pgn first rest
  end.

Fixpoint validate_groups (order : list Z) (ps : list PGNDef) : result ResolveError unit :=
  match order with
  | [] => Ok tt
  | pgn :: order =>
      _ ← (if (length (variants pgn ps) <? 2)%nat then Ok tt else validateDispatchGroup pgn (variants pgn ps));
      validate_groups order ps
  end.

(** The numbers of the PGNs with fields: the keys of the map [groups]. *)
Definition group_keys (ps : list PGNDef) : gset Z :=
  list_to_set (map pd_PGN (List.filter (fun p => negb (IsNameOnly p)) ps)).

(** The schema after [Resolve]; [order] is the order in which the groups are
    visited. *)
Definition Resolve (order : list Z) (s : Schema) : result ResolveError Schema :=
  let enums := list_to_set (map en_Name (sc_Enums s)) in
  let lookups := list_to_set (map lk_Name (sc_Lookups s)) in
  _ ← check_lookups (sc_Lookups s);
  structs ← check_structs enums ∅ (sc_Structs s);
  let sds := map (fun sd => mkStruct (sd_Name sd) (struct_layout 0 (sd_Fields sd)) (sd_Line sd)) (sc_Structs s) in
  ps ← resolve_pgns (mkNameSets enums lookups structs) (sc_PGNs s);
  _ ← validate_groups order ps;
  Ok (mkSchema (sc_Enums s) (sc_Lookups s) sds ps).

(** * Numbers in messages *)

Lemma itoa_digits_reads fuel : forall n buf, 0 <= n < 10 ^ Z.of_nat fuel ->
  parse_digits 10 (itoa_digits fuel n buf) 0 = parse_digits 10 buf (Z.to_N n).
Proof.
  induction fuel as [|fuel IH]; intros n buf Hn; [cbn in *; now replace n with 0 by lia|]. cbn [itoa_digits].
  rewrite Nat2Z.inj_succ, Z.pow_succ_r in Hn by lia.
  destruct (Z.ltb_spec 0 n); [|now replace n with 0 by lia].
  pose proof (Z.div_mod n 10 ltac:(lia)). pose proof (Z.mod_pos_bound n 10 ltac:(lia)).
  rewrite IH by (split; [apply Z.div_pos; lia|apply Z.div_lt_upper_bound; lia]). cbn [parse_digits].
  unfold digit_value. rewrite Z_of_ascii_of_Z by (unfold byte_ok; lia).
  rewrite (proj2 (Z.leb_le 48 _)), (proj2 (Z.leb_le _ 57)) by lia. cbn [andb].
  replace (48 + n mod 10 - 48) with (n mod 10) by lia.
  rewrite (proj2 (N.ltb_lt _ _)) by lia. f_equal. lia.
Qed.

Lemma itoa_digits_head fuel n buf c s : 0 < n -> itoa_digits (S fuel) n buf = String c s ->
  buf = EmptyString -> isDigit c = true.
Proof.
  intros Hn E Hb. subst buf.
  assert (H : forall fuel n buf, all_chars isDigit buf = true -> 0 <= n -> all_chars isDigit (itoa_digits fuel n buf) = true).
  { clear. induction fuel as [|fuel IH]; intros n buf Hb Hn; [done|]. cbn [itoa_digits]. destruct (0 <? n); [|done].
    apply IH; [|apply Z.div_pos; lia]. cbn [all_chars]. rewrite Hb, andb_true_r. unfold isDigit.
    pose proof (Z.mod_pos_bound n 10 ltac:(lia)). rewrite Z_of_ascii_of_Z by (unfold byte_ok; lia). lia. }
  specialize (H (S fuel) n EmptyString eq_refl ltac:(lia)). rewrite E in H. cbn [all_chars] in H. now apply andb_true_iff in H.
Qed.

(** [itoa] prints a number that reads back, except the least one. *)
Lemma itoa_reads_back n : - 2 ^ 63 < n < 2 ^ 63 -> ParseInt (itoa n) = Ok n.
Proof.
  intros Hn. unfold itoa. destruct (Z.eqb_spec n 0) as [->|Hne]; [done|].
  assert (Habs : forall m, 0 < m < 2 ^ 63 -> exists c s, itoa_digits 20 m "" = String c s /\ isDigit c = true /\
    parse_digits 10 (String c s) 0 = Some (Z.to_N m)).
  { intros m Hm. pose proof (itoa_digits_reads 20 m "" ltac:(lia)) as E. cbn [parse_digits] in E.
    destruct (itoa_digits 20 m "") as [|c s] eqn:Ed; [injection E; lia|]. exists c, s. split; [done|]. split; [|done].
    now apply (itoa_digits_head 19 m "" c s). }
  destruct (Z.ltb_spec n 0).
  - rewrite i64_small by lia. destruct (Habs (- n) ltac:(lia)) as (c & s & -> & _ & E). cbn [ParseInt cut_sign].
    rewrite E. replace (- Z.of_N (Z.to_N (- n))) with n by lia.
    now rewrite (proj2 (Z.leb_le _ _)), (proj2 (Z.ltb_lt _ _)) by lia.
  - destruct (Habs n ltac:(lia)) as (c & s & -> & Hd & E). unfold ParseInt.
    replace (cut_sign (String c s)) with (false, String c s).
    + rewrite E, Z2N.id by lia. now rewrite (proj2 (Z.leb_le _ _)), (proj2 (Z.ltb_lt _ _)) by lia.
    + destruct c as [[] [] [] [] [] [] [] []]; try done; vm_compute in Hd; done.
Qed.

(** The least 64-bit number has no digits: its absolute value wraps to itself. *)
Lemma itoa_least : itoa (- 2 ^ 63) = "-"%string.
Proof. vm_compute. reflexivity. Qed.

(** * What resolution establishes *)

Fixpoint width (fs : list FieldDef) : Z :=
  match fs with [] => 0 | f :: fs => static_bits f + width fs end.

Lemma width_app a b : width (a ++ b) = width a + width b.
Proof. induction a as [|f a IH]; [done|]. cbn [app width]. lia. Qed.

(** The widths are not negative and their sum fits. *)
Definition widths_ok (fs : list FieldDef) : Prop := Forall (fun f => 0 <= static_bits f) fs /\ width fs < 2 ^ 63.

Lemma width_nonneg fs : Forall (fun f => 0 <= static_bits f) fs -> 0 <= width fs.
Proof. induction 1; cbn [width]; lia. Qed.

(** [ref] names a field among [before] that is an unsigned integer. *)
Definition refers (before : list FieldDef) (ref : string) : Prop :=
  ref <> EmptyString -> exists g, g ∈ before /\ fd_Name g = ref /\ fd_Type g = TypeUint.

(** A field of a resolved PGN, between the fields [before] and [later]. *)
Record field_resolved (ns : name_sets) (before : list FieldDef) (f : FieldDef) (later : list FieldDef) : Prop := {
  fr_start : fd_BitStart f = width before;
  fr_enum : fd_Type f = TypeEnum -> fd_EnumRef f ∈ enumSet ns;
  fr_lookup : fd_LookupRef f <> EmptyString -> fd_LookupRef f ∈ lookupSet ns;
  fr_struct : fd_Type f = TypeStruct -> fd_StructRef f ∈ structSet ns /\ fd_RepeatRef f <> EmptyString;
  fr_aligned : variable_width f = true -> (8 | fd_BitStart f);
  fr_bytes : fd_Type f = TypeBytes -> Forall (fun g => IsSkipped g = true) later;
  fr_repeat : refers before (fd_RepeatRef f);
  fr_pgn_ref : refers before (fd_PGNRef f);
  fr_count : refers before (fd_CountRef f);
  fr_paired : fd_PGNRef f = EmptyString <-> fd_CountRef f = EmptyString
}.

Inductive fields_resolved (ns : name_sets) : list FieldDef -> list FieldDef -> Prop :=
| resolved_nil before : fields_resolved ns before []
| resolved_cons before f fs :
    field_resolved ns before f fs -> fields_resolved ns (before ++ [f]) fs -> fields_resolved ns before (f :: fs).

(** The names map has the fields before the current one. *)
Definition names_hold (names : gmap string FieldDef) (before : list FieldDef) : Prop :=
  forall n g, names !! n = Some g -> g ∈ before /\ fd_Name g = n.

Lemma check_ref_ok (names : gmap string FieldDef) before f attr ref :
  names_hold names before -> check_ref names f attr ref = Ok tt -> refers before ref.
Proof.
  unfold check_ref, refers. intros Hn H Hne. rewrite bool_decide_false in H by done.
  destruct (names !! ref) as [g|] eqn:E; [|done]. destruct (bool_decide_reflect (fd_Type g = TypeUint)); [|done].
  destruct (Hn _ _ E). eauto.
Qed.

Lemma static_bits_set_BitStart o f : static_bits (set_BitStart o f) = static_bits f.
Proof. done. Qed.

Lemma check_field_ok ns (names : gmap string FieldDef) before f later :
  check_field ns (width before + static_bits f) names f later = Ok tt -> names_hold names before ->
  fd_BitStart f = width before -> field_resolved ns before f later.
Proof.
  unfold check_field. intros H Hn Hs.
  destruct (bool_decide_reflect (fd_Type f = TypeEnum)); cbn [andb] in H; [destruct (bool_decide_reflect (fd_EnumRef f ∈ enumSet ns)); [|done]|];
    cbn [negb] in H.
  all: destruct (bool_decide_reflect (fd_LookupRef f = EmptyString)); cbn [negb andb] in H;
    [|destruct (bool_decide_reflect (fd_LookupRef f ∈ lookupSet ns)); [|done]]; cbn [negb] in H.
  all: destruct (bool_decide_reflect (fd_Type f = TypeStruct)); cbn [andb] in H;
    [destruct (bool_decide_reflect (fd_StructRef f ∈ structSet ns)); [|done]; cbn [negb] in H;
     destruct (bool_decide_reflect (fd_RepeatRef f = EmptyString)); [done|]|].
  all: destruct (check_ref names f "repeat" (fd_RepeatRef f)) as [[]|] eqn:Er; [|done]; cbn [mbind result_bind] in H.
  all: destruct (variable_width f && _) eqn:Ev; [done|].
  all: destruct (bool_decide (fd_Type f = TypeBytes) && _) eqn:Eb; [done|].
  all: destruct (check_ref names f "pgn_ref" (fd_PGNRef f)) as [[]|] eqn:Ep; [|done]; cbn [mbind result_bind] in H.
  all: destruct (check_ref names f "count" (fd_CountRef f)) as [[]|] eqn:Ec; [|done]; cbn [mbind result_bind] in H.
  all: constructor; try done; try (eapply check_ref_ok; eassumption).
  all: try (intros Hv; rewrite Hv in Ev; cbn [andb] in Ev; apply negb_false_iff, Z.eqb_eq in Ev;
    assert (E0 : static_bits f = 0) by (unfold static_bits; now rewrite Hv);
    rewrite Hs; apply Z.rem_divide in Ev; [now replace (width before) with (width before + static_bits f) by lia|lia]).
  all: try (intros Ht; rewrite (bool_decide_true _ Ht) in Eb; cbn [andb] in Eb; apply Forall_forall; intros g Hg;
    destruct (IsSkipped g) eqn:Eg; [done|]; exfalso; apply not_true_iff_false in Eb; apply Eb, existsb_exists;
    exists g; split; [now apply list_elem_of_In|now rewrite Eg]).
  all: destruct (bool_decide_reflect (fd_PGNRef f = EmptyString)), (bool_decide_reflect (fd_CountRef f = EmptyString)); done.
Qed.

Lemma resolve_fields_ok ns fs : forall before names fs',
  resolve_fields ns (width before) names fs = Ok fs' -> names_hold names before ->
  Forall (fun f => 0 <= static_bits f) (before ++ fs) -> width (before ++ fs) < 2 ^ 63 ->
  fields_resolved ns before fs'.
Proof.
  induction fs as [|f fs IH]; intros before names fs' H Hn Hpos Hw; cbn [resolve_fields] in H;
    [injection H as <-; constructor|].
  rewrite static_bits_set_BitStart in H.
  apply Forall_app in Hpos as [Hp1 [Hpf Hp2]%Forall_cons]. rewrite width_app in Hw. cbn [width] in Hw.
  pose proof (width_nonneg _ Hp1). pose proof (width_nonneg _ Hp2).
  rewrite i64_small in H by lia.
  set (f' := set_BitStart (width before) f) in *.
  destruct (check_field ns (width before + static_bits f) names f' fs) as [[]|] eqn:Ec; [|done].
  cbn [mbind result_bind] in H.
  set (names' := if negb (IsSkipped f') && _ then <[fd_Name f' := f']> names else names) in H.
  destruct (resolve_fields ns (width before + static_bits f) names' fs) as [gs|] eqn:Er; [|done].
  cbn [mbind result_bind] in H. injection H as <-.
  assert (Hw' : width (before ++ [f']) = width before + static_bits f) by
    (rewrite width_app; cbn [width]; unfold f'; rewrite static_bits_set_BitStart; lia).
  rewrite <- Hw' in Er.
  assert (Hgs : map fd_Type gs = map fd_Type fs).
  { clear -Er. revert gs Er. generalize (width (before ++ [f'])), names'. induction fs as [|g fs IH]; intros o n gs; cbn [resolve_fields].
    - now intros [= <-].
    - destruct (check_field _ _ _ _ _); [|done]. cbn [mbind result_bind].
      destruct (resolve_fields _ _ _ fs) eqn:E; [|done]. cbn [mbind result_bind]. intros [= <-]. cbn [map].
      f_equal. now apply IH in E. }
  assert (Hf : field_resolved ns before f' fs) by (now apply check_field_ok with names).
  constructor.
  - destruct Hf. constructor; try done. intros Ht. specialize (fr_bytes0 Ht). clear -fr_bytes0 Hgs.
    revert gs Hgs. induction fr_bytes0 as [|g fs Hg _ IH]; intros [|g' gs]; try done. cbn [map]. intros [= E1 E2].
    constructor; [|now apply IH]. unfold IsSkipped, IsReserved, IsUnknown in *. now rewrite E1.
  - apply IH with names'; try done.
    + intros n g Hl. unfold names' in Hl. destruct (negb _ && _).
      * destruct (decide (n = fd_Name f')) as [->|Hne].
        -- rewrite lookup_insert_eq in Hl. injection Hl as <-. split; [|done]. apply elem_of_app. right. by left.
        -- rewrite lookup_insert_ne in Hl by done. destruct (Hn _ _ Hl). split; [|done]. apply elem_of_app. now left.
      * destruct (Hn _ _ Hl). split; [|done]. apply elem_of_app. now left.
    + rewrite <- app_assoc. apply Forall_app. split; [done|]. now constructor.
    + rewrite width_app, Hw'. lia.
Qed.

(** ** Dispatch groups *)

(** The value of its discriminator a variant stands for. *)
Definition match_value (p : PGNDef) : option Z := discriminatorField p ≫= fd_MatchValue.

Definition defaults (ps : list PGNDef) : list PGNDef := List.filter (fun p => negb (hasMatchValues p)) ps.

(** Variants that can be told apart by one field. *)
Record dispatchable (ps : list PGNDef) : Prop := {
  dg_disc : exists disc, Some disc ∈ map discriminatorField ps /\
    forall p d, p ∈ ps -> discriminatorField p = Some d -> same_place d disc = true;
  dg_values : NoDup (omap match_value ps);
  dg_defaults : (length (defaults ps) <= 1)%nat;
  dg_meta : forall p q, p ∈ ps -> q ∈ ps ->
    pd_FastPacket p = pd_FastPacket q /\ pd_Interval p = pd_Interval q /\ pd_OnDemand p = pd_OnDemand q
}.

Lemma discriminator_value p d : discriminatorField p = Some d -> exists v, fd_MatchValue d = Some v.
Proof. intros H. apply List.find_some in H as [_ H]. apply bool_decide_eq_true in H. exact H. Qed.

Lemma check_variants_ok pgn disc ps : forall values count,
  check_variants pgn disc values count ps = Ok tt -> 0 <= count <= 1 ->
  (forall p d, p ∈ ps -> discriminatorField p = Some d -> same_place d disc = true) /\
  NoDup (omap match_value ps) /\ (forall v, v ∈ omap match_value ps -> values !! v = None) /\
  count + Z.of_nat (length (defaults ps)) <= 1.
Proof.
  induction ps as [|p ps IH]; intros values count H Hc.
  { split; [intros p d Hp; now apply elem_of_nil in Hp|]. split; [constructor|]. split; [intros v Hv; now apply elem_of_nil in Hv|]. cbn. lia. }
  cbn [check_variants] in H. unfold defaults, hasMatchValues. cbn [omap list_omap List.filter].
  destruct (discriminatorField p) as [d|] eqn:Ed.
  - destruct (same_place d disc) eqn:Es; [|done]. cbn [negb] in H. destruct (discriminator_value _ _ Ed) as [v Ev].
    assert (Em : match_value p = Some v) by (unfold match_value; now rewrite Ed). rewrite Em, Ev in *. change (default 0 (Some v)) with v in H. destruct (values !! v) eqn:El; [done|].
    destruct (IH _ _ H Hc) as (H1 & H2 & H3 & H4). cbn [bool_decide]. rewrite bool_decide_true by by eexists. cbn [negb].
    split; [|split; [|split; [|done]]].
    + intros q e [->|Hq]%elem_of_cons He; [congruence|]. now apply (H1 q).
    + apply NoDup_cons. split; [|done]. intros Hin. apply H3 in Hin. by rewrite lookup_insert_eq in Hin.
    + intros v' [->|Hv]%elem_of_cons; [done|]. specialize (H3 _ Hv). now apply lookup_insert_None in H3.
  - assert (Em : match_value p = None) by (unfold match_value; now rewrite Ed). rewrite Em.
    rewrite bool_decide_false by (intros [? ?]; done). cbn [negb length].
    rewrite Z.gtb_ltb in H. destruct (Z.ltb_spec 1 (count + 1)); [done|].
    destruct (IH _ _ H ltac:(lia)) as (H1 & H2 & H3 & H4). split; [|split; [done|split; [done|]]].
    + intros q e [->|Hq]%elem_of_cons He; [congruence|]. now apply (H1 q).
    + unfold defaults, hasMatchValues in H4. lia.
Qed.

Lemma check_metadata_ok pgn first ps : check_metadata pgn first ps = Ok tt ->
  forall p, p ∈ ps -> pd_FastPacket p = pd_FastPacket first /\ pd_Interval p = pd_Interval first /\ pd_OnDemand p = pd_OnDemand first.
Proof.
  induction ps as [|p ps IH]; intros H q Hq; [now apply elem_of_nil in Hq|]. cbn [check_metadata] in H.
  destruct (Bool.eqb (pd_FastPacket p) _) eqn:E1; [|done]. destruct (Z.eqb_spec (pd_Interval p) (pd_Interval first)); [|done].
  destruct (Bool.eqb (pd_OnDemand p) _) eqn:E3; [|done]. apply eqb_prop in E1, E3.
  apply elem_of_cons in Hq as [->|Hq]; [done|]. now apply IH.
Qed.

Lemma validateDispatchGroup_ok pgn ps : validateDispatchGroup pgn ps = Ok tt -> dispatchable ps.
Proof.
  unfold validateDispatchGroup. destruct (omap discriminatorField ps) as [|disc ds] eqn:Ed; [done|].
  destruct ps as [|first rest]; [done|].
  destruct (check_variants pgn disc ∅ 0 (first :: rest)) as [[]|] eqn:Ev; [|done]. cbn [mbind result_bind]. intros Hm.
  destruct (check_variants_ok _ _ _ _ _ Ev ltac:(lia)) as (H1 & H2 & _ & H4). constructor; [|done|lia|].
  - exists disc. split; [|exact H1]. assert (Hin : disc ∈ omap discriminatorField (first :: rest)) by (rewrite Ed; by left).
    apply list_elem_of_omap in Hin as (p & Hp & E). apply list_elem_of_fmap. by exists p.
  - assert (Hf : forall p, p ∈ first :: rest -> pd_FastPacket p = pd_FastPacket first /\
      pd_Interval p = pd_Interval first /\ pd_OnDemand p = pd_OnDemand first).
    { intros p [->|Hp]%elem_of_cons; [done|]. now apply (check_metadata_ok pgn first rest). }
    intros p q Hp Hq. destruct (Hf p Hp) as (-> & -> & ->), (Hf q Hq) as (-> & -> & ->). done.
Qed.

Lemma validate_groups_ok order ps :
  validate_groups order ps = Ok tt <->
  Forall (fun pgn => (length (variants pgn ps) < 2)%nat \/ validateDispatchGroup pgn (variants pgn ps) = Ok tt) order.
Proof.
  induction order as [|pgn order IH]; [split; [constructor|done]|]. cbn [validate_groups]. rewrite Forall_cons, <- IH.
  destruct (Nat.ltb_spec (length (variants pgn ps)) 2); cbn [mbind result_bind]; [intuition|].
  destruct (validateDispatchGroup pgn (variants pgn ps)) as [[]|]; cbn [mbind result_bind];
    (split; [intros ?|intros [[?|?] ?]]); auto; try lia; done.
Qed.

(** ** The schema *)

Definition schema_sets (s : Schema) : name_sets :=
  mkNameSets (list_to_set (map en_Name (sc_Enums s))) (list_to_set (map lk_Name (sc_Lookups s)))
    (list_to_set (map sd_Name (sc_Structs s))).

(** The field lists of a schema whose widths fit; what the parser accepts does
    unless a definition is longer than 2^63 bits. *)
Definition widths_fit (s : Schema) : Prop :=
  Forall (fun p => widths_ok (map (reclassify (list_to_set (map sd_Name (sc_Structs s)))) (pgn_fields p))) (sc_PGNs s).

(** [order] visits every group. *)
Definition visits (order : list Z) (s : Schema) : Prop := forall pgn, pgn ∈ group_keys (sc_PGNs s) -> pgn ∈ order.

Lemma check_structs_names enums sds : forall seen out,
  check_structs enums seen sds = Ok out -> out = list_to_set (map sd_Name sds) ∪ seen.
Proof.
  induction sds as [|sd sds IH]; intros seen out H; cbn [check_structs map list_to_set] in *.
  { injection H as <-. set_solver. }
  destruct (bool_decide (sd_Name sd ∈ seen)); [done|]. destruct (bool_decide (sd_Name sd ∈ enums)); [done|].
  apply IH in H as ->. cbn. set_solver.
Qed.

Lemma resolve_pgns_ok ns ps : forall ps',
  resolve_pgns ns ps = Ok ps' -> Forall (fun p => widths_ok (map (reclassify (structSet ns)) (pgn_fields p))) ps ->
  Forall2 (fun p p' => pd_PGN p' = pd_PGN p /\ IsNameOnly p' = IsNameOnly p /\ fields_resolved ns [] (pgn_fields p')) ps ps'.
Proof.
  induction ps as [|p ps IH]; intros ps' H Hw; cbn [resolve_pgns] in H; [injection H as <-; constructor|].
  apply Forall_cons in Hw as [[Hp Hlt] Hw].
  destruct (pd_Fields p) as [fs|] eqn:Ef.
  - destruct (resolve_fields ns 0 ∅ (map (reclassify (structSet ns)) fs)) as [fs'|] eqn:Er; [|done]. cbn [mbind result_bind] in H.
    destruct (resolve_pgns ns ps) as [qs|]; [|done]. cbn [mbind result_bind] in H. injection H as <-.
    constructor; [|now apply IH]. unfold IsNameOnly, pgn_fields in *. rewrite Ef in *. cbn [default] in *.
    split; [done|]. split; [done|]. cbn [pd_Fields set_Fields default].
    apply (resolve_fields_ok ns _ [] ∅ fs' Er); [intros n g Hl; done|exact Hp|exact Hlt].
  - cbn [mbind result_bind] in H. destruct (resolve_pgns ns ps) as [qs|]; [|done]. cbn [mbind result_bind] in H.
    injection H as <-. constructor; [|now apply IH]. unfold pgn_fields. rewrite Ef. split; [done|]. split; [done|]. constructor.
Qed.

(** C12: what resolution promises to the code generators.  In a resolved schema
    every field starts where the widths before it end, so the fields of a PGN
    never overlap; names refer to what the schema defines, repeat counts and
    parameter references to an earlier unsigned field of the same PGN;
    variable-width fields start on a byte, and only skipped fields follow the
    remaining bytes.  PGNs that share a number are told apart by one field at one
    place, with distinct values and one default at most, and agree on their
    metadata.  The verdict does not depend on the order in which the groups are
    checked. *)
Theorem Resolve_sound order s s' :
  Resolve order s = Ok s' -> widths_fit s -> visits order s ->
  Forall (fun p => fields_resolved (schema_sets s) [] (pgn_fields p)) (sc_PGNs s') /\
  (forall pgn, (length (variants pgn (sc_PGNs s')) >= 2)%nat -> dispatchable (variants pgn (sc_PGNs s'))) /\
  forall order', visits order' s -> (forall pgn, pgn ∈ order' -> pgn ∈ group_keys (sc_PGNs s)) -> Resolve order' s = Ok s'.
Proof.
  unfold Resolve. intros H Hw Hvis.
  destruct (check_lookups (sc_Lookups s)) as [[]|]; [|done]. cbn [mbind result_bind] in *.
  destruct (check_structs (list_to_set (map en_Name (sc_Enums s))) ∅ (sc_Structs s)) as [structs|] eqn:Es; [|done].
  cbn [mbind result_bind] in *. apply check_structs_names in Es as ->. rewrite (right_id_L ∅ (∪)) in *.
  fold (schema_sets s) in *.
  destruct (resolve_pgns (schema_sets s) (sc_PGNs s)) as [ps|] eqn:Ep; [|done]. cbn [mbind result_bind] in *.
  destruct (validate_groups order ps) as [[]|] eqn:Ev; [|done]. cbn [mbind result_bind] in H. injection H as <-.
  cbn [sc_PGNs]. pose proof (resolve_pgns_ok _ _ _ Ep Hw) as Hps.
  assert (Hkeys : forall pgn p, p ∈ variants pgn ps -> pgn ∈ group_keys (sc_PGNs s)).
  { intros pgn p Hp. apply list_elem_of_In, filter_In in Hp as [Hp Hc]. to_props. apply list_elem_of_In in Hp.
    apply list_elem_of_lookup in Hp as [i Hi]. destruct (Forall2_lookup_r _ _ _ _ _ Hps Hi) as (q & Hq & E1 & E2 & _).
    unfold group_keys. apply elem_of_list_to_set, list_elem_of_fmap. exists q. split; [congruence|].
    apply list_elem_of_In, filter_In. split; [apply list_elem_of_In; by eapply list_elem_of_lookup_2|]. rewrite <- E2. now apply negb_true_iff. }
  split; [|split].
  - clear -Hps. induction Hps as [|p p' ps ps' (_ & _ & H) _ IH]; by constructor.
  - intros pgn Hlen. destruct (variants pgn ps) as [|p vs] eqn:Evs; [cbn in Hlen; lia|].
    assert (Hin : pgn ∈ order) by (apply Hvis, (Hkeys pgn p); rewrite Evs; by left).
    apply validate_groups_ok in Ev. rewrite Forall_forall in Ev. destruct (Ev _ Hin) as [Hl|Hg]; rewrite Evs in *; [lia|].
    exact (validateDispatchGroup_ok _ _ Hg).
  - intros order' _ Hsub. replace (validate_groups order' ps) with (@Ok ResolveError unit tt); [done|]. symmetry.
    apply validate_groups_ok in Ev. apply validate_groups_ok. rewrite Forall_forall in *. intros pgn Hpgn. apply Ev, Hvis, Hsub, Hpgn.
Qed.

(** * A small schema *)

Definition plain_field (name : string) (ty : FieldType) (bits : Z) : FieldDef :=
  mkField name ty bits 0 (SpecFloat.S754_zero false) (SpecFloat.S754_zero false) "" "" "" "" "" "" "" None
    (bool_decide (ty = TypeInt)) None 0 "" "" "" "" 0.

Definition with_enum (name : string) (f : FieldDef) : FieldDef :=
  mkField (fd_Name f) TypeEnum (fd_Bits f) 0 (fd_Scale f) (fd_Offset f) "" "" name "" "" (fd_RepeatRef f) "" None false None 0
    "" "" "" "" 0.
Definition with_repeat (count : Z) (ref : string) (f : FieldDef) : FieldDef :=
  mkField (fd_Name f) (fd_Type f) (fd_Bits f) 0 (fd_Scale f) (fd_Offset f) "" "" (fd_EnumRef f) "" "" ref "" None
    (fd_Signed f) None count "" "" "" "" 0.
Definition with_value (v : Z) (f : FieldDef) : FieldDef :=
  mkField (fd_Name f) (fd_Type f) (fd_Bits f) 0 (fd_Scale f) (fd_Offset f) "" "" "" "" "" "" "" None (fd_Signed f) (Some v) 0
    "" "" "" "" 0.

Definition plain_pgn (pgn : Z) (desc : string) (fs : list FieldDef) : PGNDef := mkPGN pgn desc false 0 false false (Some fs) 0.

Definition demo_satellite : StructDef :=
  mkStruct "satellite" [plain_field "prn" TypeUint 8; plain_field "elevation" TypeInt 16; plain_field "status" TypeUint 4;
                        plain_field "_" TypeReserved 4] 1.

Definition demo_schema : Schema :=
  mkSchema [mkEnum "WindReference" [mkEnumValue 0 "true_north"; mkEnumValue 2 "apparent"] 1] [] [demo_satellite]
    [plain_pgn 130306 "Wind Data"
       [plain_field "sid" TypeUint 8; plain_field "wind_speed" TypeUint 16; plain_field "wind_angle" TypeInt 16;
        with_enum "WindReference" (plain_field "wind_reference" TypeEnum 3); plain_field "_" TypeReserved 5];
     plain_pgn 129540 "Sats in View"
       [plain_field "sid" TypeUint 8; plain_field "count" TypeUint 8;
        with_enum "satellite" (with_repeat 0 "count" (plain_field "sats" TypeEnum 0))];
     plain_pgn 61184 "Victron" [with_value 358 (plain_field "manufacturer" TypeUint 11); plain_field "register" TypeUint 16];
     mkPGN 59392 "ISO Acknowledgement" false 0 false false None 9;
     plain_pgn 61184 "Other" [plain_field "manufacturer" TypeUint 11; with_repeat 3 "" (plain_field "levels" TypeUint 5)]].

Definition demo_order : list Z := [61184; 129540; 130306].

Definition demo_resolved : Schema := Eval vm_compute in
  match Resolve demo_order demo_schema with Ok s => s | Err _ => demo_schema end.

Lemma Resolve_sound_witness :
  map (fun p => map (fun f => (fd_Name f, fd_BitStart f)) (pgn_fields p)) (sc_PGNs demo_resolved) =
    [[("sid", 0); ("wind_speed", 8); ("wind_angle", 24); ("wind_reference", 40); ("_", 43)];
     [("sid", 0); ("count", 8); ("sats", 16)]; [("manufacturer", 0); ("register", 11)]; [];
     [("manufacturer", 0); ("levels", 11)]]%string /\
  Forall (fun p => fields_resolved (schema_sets demo_schema) [] (pgn_fields p)) (sc_PGNs demo_resolved) /\
  (forall pgn, (length (variants pgn (sc_PGNs demo_resolved)) >= 2)%nat -> dispatchable (variants pgn (sc_PGNs demo_resolved))) /\
  forall order', visits order' demo_schema -> (forall pgn, pgn ∈ order' -> pgn ∈ group_keys (sc_PGNs demo_schema)) ->
    Resolve order' demo_schema = Ok demo_resolved.
Proof.
  split; [vm_compute; reflexivity|]. apply (Resolve_sound demo_order demo_schema demo_resolved).
  - vm_compute. reflexivity.
  - unfold widths_fit, widths_ok. cbn [demo_schema sc_PGNs sc_Structs].
    repeat (apply Forall_cons; split; [split; [repeat (apply Forall_cons; split; [vm_compute; congruence|]); apply Forall_nil_2|
      vm_compute; reflexivity]|]); apply Forall_nil_2.
  - intros pgn H. unfold demo_order.
    change (group_keys (sc_PGNs demo_schema)) with (list_to_set (C := gset Z) [130306; 129540; 61184; 61184]) in H.
    set_solver.
Defined.

(** Enumerations named in a struct are not looked up: this schema resolves. *)
Lemma struct_enum_unchecked :
  is_ok (Resolve [] (mkSchema [] [] [mkStruct "s" [with_enum "NoSuchEnum" (plain_field "x" TypeEnum 8)] 1] [])) = true.
Proof. vm_compute. reflexivity. Qed.

(** A static repeat in a struct takes no room: the next field starts inside it. *)
Lemma struct_repeat_overlaps :
  map fd_BitStart (struct_layout 0 [with_repeat 3 "" (plain_field "a" TypeUint 8); plain_field "b" TypeUint 8]) = [0; 8].
Proof. reflexivity. Qed.
