(* ===== verification/PgnBits.v ===== *)
(** The bit expressions of the codecs [pgngen] generates: [pgngen/gen_go.go].

    The generator prints Go statements that read and write the bits of a payload.
    The expressions it composes are syntax here ([read_expr], [write_stmt]), with
    their text and their value; a generated [Decode] or [Encode] is the effect of
    the statements printed for the fields of a PGN.  [None] is an index or slice
    out of range, of a payload whose capacity is its length.  Statements the Go
    compiler refuses are told apart by their types. *)

From S2P Require Import Prelude GoNum PgnSchema.
From Stdlib Require Import Ascii.

(** * Expressions *)

(** Unsigned and signed integers of 8, 16, 32 or 64 bits. *)
Inductive gotype := GoUint (w : Z) | GoInt (w : Z).

#[export] Instance gotype_eq_dec : EqDecision gotype.
Proof. solve_decision. Defined.

Inductive read_expr :=
| RLoad (w off : Z)                       (* [data[off]], [binary.LittleEndian.Uint16(data[off:off+2])] *)
| RInt (w : Z) (e : read_expr)            (* [int16(e)] *)
| RShift (e : read_expr) (n : Z)          (* [(e >> n)] *)
| RMask (digits : nat) (e : read_expr) (mask : Z)
| RSignExtend (e : read_expr) (bits : Z). (* [signExtend(uint64(e), bits)] *)

(** [(uint64(1) << bits) - 1] *)
Definition bit_mask (bits : Z) : Z := u64 (u64 (Z.shiftl 1 bits) - 1).

Definition signExtendExpr (signed : bool) (e : read_expr) (bits : Z) : read_expr :=
  if signed then RSignExtend e bits else e.

Definition standard_width (bits : Z) : bool := (bits =? 8) || (bits =? 16) || (bits =? 32) || (bits =? 64).

Definition readBitsExpr (byteOff bitInByte bits : Z) (signed : bool) : read_expr :=
  if (bitInByte =? 0) && standard_width bits then
    if signed then RInt bits (RLoad bits byteOff) else RLoad bits byteOff
  else
    let mask := bit_mask bits in
    let shifted w := if bitInByte =? 0 then RLoad w byteOff else RShift (RLoad w byteOff) bitInByte in
    if bitInByte + bits <=? 8 then signExtendExpr signed (RMask 2 (shifted 8) mask) bits
    else if bitInByte + bits <=? 16 then signExtendExpr signed (RMask 4 (shifted 16) mask) bits
    else if bitInByte + bits <=? 32 then
      signExtendExpr signed (RMask 8 (RShift (RLoad 32 byteOff) bitInByte) mask) bits
    else signExtendExpr signed (RMask 16 (RShift (RLoad 64 byteOff) bitInByte) mask) bits.

(** ** Text *)

Definition hex_upper (z : Z) : ascii := if z <? 10 then ascii_of_Z (48 + z) else ascii_of_Z (55 + z).

Fixpoint hex_digits (fuel min : nat) (z : Z) (acc : string) : string :=
  match fuel with
  | O => acc
  | S fuel =>
      if (z =? 0) && (min =? 0)%nat then acc
      else hex_digits fuel (min - 1) (z / 16) (String (hex_upper (z mod 16)) acc)
  end.

(** [%02X] and the like, of a number of at most 64 bits. *)
Definition fmt_hex (min : nat) (z : Z) : string := hex_digits 16 (Nat.max 1 min) z "".

Definition go_uint (w : Z) : string := ("uint" ++ FormatInt w)%string.
Definition go_int (w : Z) : string := ("int" ++ FormatInt w)%string.

(** An offset, after the variable of a cursor if there is one. *)
Definition show_off (base : option string) (n : Z) : string :=
  match base with
  | None => FormatInt n
  | Some b => if n =? 0 then b else (b ++ "+" ++ FormatInt n)%string
  end.

Definition show_bytes (base : option string) (off w : Z) : string :=
  if w =? 8 then ("data[" ++ show_off base off ++ "]")%string
  else ("data[" ++ show_off base off ++ ":" ++ show_off base (off + w / 8) ++ "]")%string.

Fixpoint show_read (base : option string) (e : read_expr) : string :=
  match e with
  | RLoad w off =>
      if w =? 8 then show_bytes base off w
      else ("binary.LittleEndian.Uint" ++ FormatInt w ++ "(" ++ show_bytes base off w ++ ")")%string
  | RInt w e => (go_int w ++ "(" ++ show_read base e ++ ")")%string
  | RShift e n => ("(" ++ show_read base e ++ " >> " ++ FormatInt n ++ ")")%string
  | RMask digits e mask => (show_read base e ++ " & 0x" ++ fmt_hex digits mask)%string
  | RSignExtend e bits => ("signExtend(uint64(" ++ show_read base e ++ "), " ++ FormatInt bits ++ ")")%string
  end.

Example read_texts :
  map (show_read None) [readBitsExpr 3 0 8 true; readBitsExpr 1 0 16 false; readBitsExpr 0 5 3 false; readBitsExpr 0 0 11 false;
                        readBitsExpr 5 0 24 true] =
  ["int8(data[3])"; "binary.LittleEndian.Uint16(data[1:3])"; "(data[0] >> 5) & 0x07";
   "binary.LittleEndian.Uint16(data[0:2]) & 0x07FF";
   "signExtend(uint64((binary.LittleEndian.Uint32(data[5:9]) >> 0) & 0x00FFFFFF), 24)"]%string.
Proof. vm_compute. reflexivity. Qed.

(** ** Values *)

(** A signed reading of [w] bits. *)
Definition to_int (w z : Z) : Z := (z + 2 ^ (w - 1)) mod 2 ^ w - 2 ^ (w - 1).

Definition load (w off : Z) (data : list Z) : option Z :=
  if (0 <=? off) && (off + w / 8 <=? Z.of_nat (length data))
  then Some (le_val (slice (Z.to_nat off) (Z.to_nat (off + w / 8)) data)) else None.

(** [signExtend(v, bits)] of the helpers: two shifts of 64-bit words. *)
Definition signExtend (v bits : Z) : Z :=
  let shift := wrap 64 (64 - bits) in Z.shiftr (to_int 64 (u64 (Z.shiftl v shift))) shift.

(** The value at the cursor position [base]. *)
Fixpoint eval_read (base : Z) (data : list Z) (e : read_expr) : option Z :=
  match e with
  | RLoad w off => load w (base + off) data
  | RInt w e => to_int w <$> eval_read base data e
  | RShift e n => (fun v => Z.shiftr v n) <$> eval_read base data e
  | RMask _ e mask => (fun v => Z.land v mask) <$> eval_read base data e
  | RSignExtend e bits => (fun v => signExtend (u64 v) bits) <$> eval_read base data e
  end.

(** The static type of an expression. *)
Fixpoint read_type (e : read_expr) : gotype :=
  match e with
  | RLoad w _ => GoUint w
  | RInt w _ => GoInt w
  | RShift e _ | RMask _ e _ => read_type e
  | RSignExtend _ _ => GoInt 64
  end.

Definition convert (t : gotype) (z : Z) : Z :=
  match t with GoUint w => wrap w z | GoInt w => to_int w z end.

(** * Statements *)

Inductive write_stmt :=
| WStore (w off : Z)                     (* the whole word *)
| WUpdate (w off mask bit : Z).          (* some of its bits *)

(** [writeBitsStmt], without the expression written. *)
Definition writeBitsStmt (byteOff bitInByte bits : Z) : write_stmt :=
  if (bitInByte =? 0) && standard_width bits then WStore bits byteOff
  else
    let mask := bit_mask bits in
    if bitInByte + bits <=? 8 then WUpdate 8 byteOff mask bitInByte
    else if bitInByte + bits <=? 16 then WUpdate 16 byteOff mask bitInByte
    else if bitInByte + bits <=? 32 then WUpdate 32 byteOff mask bitInByte
    else WUpdate 64 byteOff mask bitInByte.

Definition store (w off v : Z) (data : list Z) : option (list Z) :=
  if (0 <=? off) && (off + w / 8 <=? Z.of_nat (length data))
  then Some (take (Z.to_nat off) data ++ le_bytes (Z.to_nat (w / 8)) v ++ drop (Z.to_nat (off + w / 8)) data) else None.

(** The statement with the value [raw], a [uint64]. *)
Definition exec_write (st : write_stmt) (raw : Z) (data : list Z) : option (list Z) :=
  match st with
  | WStore w off => store w off (wrap w raw) data
  | WUpdate w off mask bit =>
      v ← load w off data;
      store w off (Z.lor (Z.land v (wrap w (Z.lnot (wrap w (Z.shiftl mask bit)))))
                         (wrap w (u64 (Z.shiftl (Z.land raw mask) bit)))) data
  end.

Definition nl : string := String (ascii_of_Z 10) "".
Definition tab : string := String (ascii_of_Z 9) "".

Definition show_write (st : write_stmt) (raw : string) : string :=
  match st with
  | WStore w off =>
      if w =? 8 then (tab ++ "data[" ++ FormatInt off ++ "] = byte(" ++ raw ++ ")" ++ nl)%string
      else (tab ++ "binary.LittleEndian.PutUint" ++ FormatInt w ++ "(" ++ show_bytes None off w ++ ", " ++ go_uint w ++ "("
            ++ raw ++ "))" ++ nl)%string
  | WUpdate w off mask bit =>
      let hex := fmt_hex (Z.to_nat (w / 4)) mask in
      let value := ("((" ++ raw ++ " & 0x" ++ hex ++ ") << " ++ FormatInt bit ++ ")")%string in
      if w =? 8 then
        (tab ++ "data[" ++ FormatInt off ++ "] = (data[" ++ FormatInt off ++ "] & ^byte(0x" ++ hex ++ " << " ++ FormatInt bit ++ ")) | byte"
         ++ value ++ nl)%string
      else
        let cast := if w =? 64 then ""%string else go_uint w in
        let put := (tab ++ tab ++ "binary.LittleEndian.PutUint" ++ FormatInt w ++ "(" ++ show_bytes None off w ++ ", v)" ++ nl)%string in
        (tab ++ "{" ++ nl ++ tab ++ tab ++ "v := binary.LittleEndian.Uint" ++ FormatInt w ++ "(" ++ show_bytes None off w ++ ")" ++ nl
         ++ tab ++ tab ++ "v = (v & ^" ++ cast ++ "(0x" ++ hex ++ " << " ++ FormatInt bit ++ ")) | "
         ++ cast ++ value ++ nl ++ put ++ tab ++ "}" ++ nl)%string
  end.

(** The complement of an untyped constant is negative and no [uint64]: the
    compiler refuses the update of a 64-bit word. *)
Definition write_compiles (st : write_stmt) : bool :=
  match st with WStore _ _ => true | WUpdate w _ _ _ => negb (w =? 64) end.

(** * Bits of a payload

    A payload is one number, least significant byte first.  A field is a run of
    its bits. *)

Definition bits_at (N start n : Z) : Z := Z.land (Z.shiftr N start) (Z.ones n).

Definition update_bits (N start n v : Z) : Z :=
  Z.lor (Z.ldiff N (Z.shiftl (Z.ones n) start)) (Z.shiftl (Z.land v (Z.ones n)) start).

Lemma testbit_ones n i : 0 <= n -> 0 <= i -> Z.testbit (Z.ones n) i = (i <? n).
Proof. intros Hn Hi. destruct (Z.ltb_spec i n); [now apply Z.ones_spec_low|now apply Z.ones_spec_high]. Qed.

Lemma testbit_bits_at N s n i : 0 <= s -> 0 <= n -> 0 <= i -> Z.testbit (bits_at N s n) i = (i <? n) && Z.testbit N (i + s).
Proof.
  intros Hs Hn Hi. unfold bits_at. rewrite Z.land_spec, Z.shiftr_spec, testbit_ones by lia.
  apply andb_comm.
Qed.

Lemma testbit_update N s n v i : 0 <= s -> 0 <= n -> 0 <= i ->
  Z.testbit (update_bits N s n v) i = if (s <=? i) && (i <? s + n) then Z.testbit v (i - s) else Z.testbit N i.
Proof.
  intros Hs Hn Hi. unfold update_bits. rewrite Z.lor_spec, Z.ldiff_spec, !testbit_shiftl by lia.
  destruct (Z.leb_spec s i); cbn [andb]; [|now rewrite andb_true_r, orb_false_r].
  rewrite Z.land_spec, testbit_ones by lia.
  destruct (Z.ltb_spec (i - s) n), (Z.ltb_spec i (s + n)); try lia; cbn [negb]; now rewrite ?andb_false_r, ?andb_true_r, ?orb_false_r.
Qed.

Lemma bits_at_range N s n : 0 <= n -> 0 <= bits_at N s n < 2 ^ n.
Proof. intros Hn. unfold bits_at. rewrite Z.land_ones by lia. apply Z.mod_pos_bound. lia. Qed.

Lemma bits_at_div N s n : 0 <= s -> 0 <= n -> bits_at N s n = (N / 2 ^ s) mod 2 ^ n.
Proof. intros Hs Hn. unfold bits_at. now rewrite Z.land_ones, Z.shiftr_div_pow2 by lia. Qed.

(** Reading back what was written, and what was not. *)
Lemma bits_at_update_same N s n v : 0 <= s -> 0 <= n -> bits_at (update_bits N s n v) s n = v mod 2 ^ n.
Proof.
  intros Hs Hn. rewrite <- Z.land_ones by lia. apply Z.bits_inj'. intros i Hi.
  rewrite testbit_bits_at, testbit_update, Z.land_spec, testbit_ones by lia.
  destruct (Z.ltb_spec i n); cbn [andb]; [|now rewrite andb_false_r].
  rewrite (proj2 (Z.leb_le _ _)), (proj2 (Z.ltb_lt _ _)) by lia. cbn [andb]. rewrite andb_true_r. f_equal. lia.
Qed.

Lemma bits_at_update_other N s n v s' n' : 0 <= s -> 0 <= n -> 0 <= s' -> 0 <= n' -> s + n <= s' \/ s' + n' <= s ->
  bits_at (update_bits N s n v) s' n' = bits_at N s' n'.
Proof.
  intros Hs Hn Hs' Hn' Hd. apply Z.bits_inj'. intros i Hi. rewrite !testbit_bits_at, testbit_update by lia.
  destruct (Z.ltb_spec i n'); cbn [andb]; [|done].
  destruct (Z.leb_spec s (i + s')), (Z.ltb_spec (i + s') (s + n)); cbn [andb]; done || lia.
Qed.

(** ** Bytes *)

Lemma testbit_concat a r k i : 0 <= k -> 0 <= a < 2 ^ k -> 0 <= i ->
  Z.testbit (a + 2 ^ k * r) i = if i <? k then Z.testbit a i else Z.testbit r (i - k).
Proof.
  intros Hk Ha Hi. replace (a + 2 ^ k * r) with (Z.lor a (Z.shiftl r k)).
  - rewrite Z.lor_spec, testbit_shiftl by lia. destruct (Z.ltb_spec i k), (Z.leb_spec k i); try lia; cbn [andb].
    + now rewrite orb_false_r.
    + now rewrite (testbit_small k a) by lia.
  - rewrite Z.shiftl_mul_pow2 by lia. rewrite (Z.mul_comm r). symmetry. apply Z.add_nocarry_lor.
    apply Z.bits_inj'. intros j Hj. rewrite Z.land_spec, Z.bits_0, Z.mul_comm, <- Z.shiftl_mul_pow2, testbit_shiftl by lia.
    destruct (Z.leb_spec k j); cbn [andb]; [now rewrite (testbit_small k a) by lia|apply andb_false_r].
Qed.

Lemma pow256 n : 256 ^ Z.of_nat n = 2 ^ (8 * Z.of_nat n).
Proof. rewrite Z.pow_mul_r by lia. done. Qed.

Lemma le_val_app a b : le_val (a ++ b) = le_val a + 2 ^ (8 * Z.of_nat (length a)) * le_val b.
Proof.
  induction a as [|x a IH]; [cbn [app length le_val]; change (2 ^ (8 * Z.of_nat 0)) with 1; lia|].
  cbn [app length le_val]. rewrite IH, Nat2Z.inj_succ.
  replace (8 * Z.succ (Z.of_nat (length a))) with (8 + 8 * Z.of_nat (length a)) by lia.
  rewrite Z.pow_add_r by lia. change (2 ^ 8) with 256. lia.
Qed.

Lemma le_val_lt a : bytes_ok a -> 0 <= le_val a < 2 ^ (8 * Z.of_nat (length a)).
Proof. rewrite <- pow256. apply le_val_range. Qed.

(** A payload around the bytes of a word. *)
Lemma word_split (data : list Z) off k : (off + k <= length data)%nat ->
  data = take off data ++ slice off (off + k) data ++ drop (off + k) data /\
  length (take off data) = off /\ length (slice off (off + k) data) = k.
Proof.
  intros H. unfold slice. replace (off + k - off)%nat with k by lia. split; [|rewrite !length_take, length_drop; lia].
  rewrite <- (take_drop off data) at 1. f_equal. rewrite <- (take_drop k (drop off data)) at 1. now rewrite drop_drop.
Qed.

Definition word_width (w : Z) : Prop := w = 8 \/ w = 16 \/ w = 32 \/ w = 64.

Lemma word_bytes w : word_width w -> 0 < w <= 64 /\ w = 8 * (w / 8).
Proof. intros [->|[->|[->| ->]]]; (split; [lia|reflexivity]). Qed.

(** The bytes of a slice are a run of bits. *)
Lemma slice_bits o k data : (o + k <= length data)%nat -> bytes_ok data ->
  le_val (slice o (o + k) data) = bits_at (le_val data) (8 * Z.of_nat o) (8 * Z.of_nat k).
Proof.
  intros Hl Hb. destruct (word_split data o k Hl) as (E & L1 & L2).
  rewrite E at 2. rewrite E in Hb. apply Forall_app in Hb as [Hb1 [Hb2 Hb3]%Forall_app].
  pose proof (le_val_lt _ Hb1) as R1. pose proof (le_val_lt _ Hb2) as R2. rewrite L1 in R1. rewrite L2 in R2.
  apply Z.bits_inj'. intros i Hi. rewrite testbit_bits_at, !le_val_app, L1, L2 by lia.
  rewrite testbit_concat by lia. rewrite (proj2 (Z.ltb_ge (i + 8 * Z.of_nat o) _)) by lia.
  replace (i + 8 * Z.of_nat o - 8 * Z.of_nat o) with i by lia. rewrite testbit_concat by lia.
  destruct (Z.ltb_spec i (8 * Z.of_nat k)); cbn [andb]; [done|]. now apply (testbit_small (8 * Z.of_nat k)); [|lia].
Qed.

(** Writing over a slice. *)
Lemma splice_bits o bs data : (o + length bs <= length data)%nat -> bytes_ok data -> bytes_ok bs ->
  let data' := take o data ++ bs ++ drop (o + length bs) data in
  length data' = length data /\ bytes_ok data' /\
  le_val data' = update_bits (le_val data) (8 * Z.of_nat o) (8 * Z.of_nat (length bs)) (le_val bs).
Proof.
  intros Hl Hb Hbs data'. set (k := length bs) in *. destruct (word_split data o k Hl) as (E & L1 & L2).
  split; [unfold data'; rewrite !length_app, length_take, length_drop; lia|].
  rewrite E in Hb. apply Forall_app in Hb as [Hb1 [Hb2 Hb3]%Forall_app].
  split; [apply Forall_app; split; [done|]; now apply Forall_app|].
  pose proof (le_val_lt _ Hb1) as R1. pose proof (le_val_lt _ Hb2) as R2. pose proof (le_val_lt _ Hbs) as R3.
  rewrite L1 in R1. rewrite L2 in R2. unfold data'. rewrite E at 3. rewrite !le_val_app, L1, L2. fold k in R3 |- *.
  set (A := le_val (take o data)) in *. set (B := le_val (slice o (o + k) data)) in *. set (C := le_val (drop (o + k) data)) in *.
  set (w := 8 * Z.of_nat k) in *. set (v := le_val bs) in *.
  apply Z.bits_inj'. intros i Hi. rewrite testbit_update by lia.
  rewrite (testbit_concat A (v + 2 ^ w * C)), (testbit_concat A (B + 2 ^ w * C)) by lia.
  destruct (Z.ltb_spec i (8 * Z.of_nat o)), (Z.leb_spec (8 * Z.of_nat o) i); try lia; cbn [andb]; [done|].
  rewrite (testbit_concat v C), (testbit_concat B C) by lia.
  destruct (Z.ltb_spec (i - 8 * Z.of_nat o) w), (Z.ltb_spec i (8 * Z.of_nat o + w)); try lia; done.
Qed.

Lemma load_bits w off data : word_width w -> 0 <= off -> off + w / 8 <= Z.of_nat (length data) -> bytes_ok data ->
  load w off data = Some (bits_at (le_val data) (8 * off) w).
Proof.
  intros Hw Ho Hl Hb. destruct (word_bytes w Hw) as [Hw1 Hw2]. unfold load.
  rewrite (proj2 (Z.leb_le _ _) Ho), (proj2 (Z.leb_le _ _) Hl). cbn [andb]. f_equal.
  replace (Z.to_nat (off + w / 8)) with (Z.to_nat off + Z.to_nat (w / 8))%nat by lia.
  rewrite slice_bits by (done || lia). f_equal; lia.
Qed.

Lemma store_bits w off v data : word_width w -> 0 <= off -> off + w / 8 <= Z.of_nat (length data) -> bytes_ok data ->
  0 <= v < 2 ^ w ->
  exists data', store w off v data = Some data' /\ length data' = length data /\ bytes_ok data' /\
    le_val data' = update_bits (le_val data) (8 * off) w v.
Proof.
  intros Hw Ho Hl Hb Hv. destruct (word_bytes w Hw) as [Hw1 Hw2]. unfold store.
  rewrite (proj2 (Z.leb_le _ _) Ho), (proj2 (Z.leb_le _ _) Hl). cbn [andb]. eexists. split; [reflexivity|].
  replace (Z.to_nat (off + w / 8)) with (Z.to_nat off + length (le_bytes (Z.to_nat (w / 8)) v))%nat by (rewrite length_le_bytes; lia).
  destruct (splice_bits (Z.to_nat off) (le_bytes (Z.to_nat (w / 8)) v) data) as (H1 & H2 & H3);
    [rewrite length_le_bytes; lia|done|apply le_bytes_ok|].
  split; [done|]. split; [done|]. rewrite H3, length_le_bytes, le_val_bytes, pow256.
  replace (8 * Z.of_nat (Z.to_nat (w / 8))) with w by lia. rewrite Z.mod_small by lia. f_equal. lia.
Qed.

(** ** Reading and writing fields *)

(** The width of the word a field of an integer is read and written in. *)
Definition access_width (bitInByte bits : Z) : Z :=
  if (bitInByte =? 0) && standard_width bits then bits
  else if bitInByte + bits <=? 8 then 8
  else if bitInByte + bits <=? 16 then 16
  else if bitInByte + bits <=? 32 then 32
  else 64.

(** A field of [bits] bits from bit [s] that lies within one word. *)
Definition in_word (s bits : Z) : Prop := 0 <= s /\ 1 <= bits /\ s mod 8 + bits <= 64.

Definition reaches (base s bits : Z) (data : list Z) : Prop :=
  base + s / 8 + access_width (s mod 8) bits / 8 <= Z.of_nat (length data).

Lemma standard_width_word bits : standard_width bits = true -> word_width bits.
Proof. unfold standard_width, word_width. intros H. to_props. lia. Qed.

Lemma access_width_word b bits : word_width (access_width b bits).
Proof.
  unfold access_width. destruct ((b =? 0) && standard_width bits) eqn:E.
  - to_props. now apply standard_width_word.
  - unfold word_width. repeat case_step; auto.
Qed.

Lemma access_width_fits b bits : 0 <= b -> b + bits <= 64 -> b + bits <= access_width b bits.
Proof. intros Hb Hw. unfold access_width. destruct (Z.eqb_spec b 0); cbn [andb]; repeat case_step; to_props; lia. Qed.

Lemma bit_mask_ones bits : 1 <= bits <= 64 -> bit_mask bits = Z.ones bits.
Proof.
  intros Hb. unfold bit_mask, wrap. rewrite Z.ones_equiv, Z.shiftl_mul_pow2, Z.mul_1_l by lia.
  destruct (Z.eq_dec bits 64) as [->|Hne]; [reflexivity|].
  assert (2 ^ bits <= 2 ^ 63) by (apply Z.pow_le_mono_r; lia). assert (0 < 2 ^ bits) by lia.
  rewrite (Z.mod_small (2 ^ bits)) by lia. rewrite Z.mod_small by lia. lia.
Qed.

Lemma bits_at_mask N s w b bits : 0 <= s -> 0 <= b -> 0 <= bits -> b + bits <= w ->
  Z.land (Z.shiftr (bits_at N s w) b) (Z.ones bits) = bits_at N (s + b) bits.
Proof.
  intros Hs Hb Hn Hw. apply Z.bits_inj'. intros i Hi.
  rewrite Z.land_spec, Z.shiftr_spec, testbit_ones, !testbit_bits_at by lia.
  destruct (Z.ltb_spec i bits); rewrite ?andb_true_r, ?andb_false_r; [|done].
  rewrite (proj2 (Z.ltb_lt _ _)) by lia. cbn [andb]. f_equal. lia.
Qed.

(** A shifted and masked word is the field. *)
Lemma masked_read base s w bits data : word_width w -> 0 <= base -> in_word s bits -> s mod 8 + bits <= w ->
  base + s / 8 + w / 8 <= Z.of_nat (length data) -> bytes_ok data ->
  (fun v => Z.land (Z.shiftr v (s mod 8)) (bit_mask bits)) <$> load w (base + s / 8) data
  = Some (bits_at (le_val data) (8 * base + s) bits).
Proof.
  intros Hw Hb (Hs & H1 & H2) Hfit Hlen Hok. pose proof (Z.mod_pos_bound s 8 ltac:(lia)). pose proof (Z.div_pos s 8 Hs ltac:(lia)).
  rewrite load_bits by (done || lia). cbn [fmap option_fmap option_map]. f_equal. rewrite bit_mask_ones by lia.
  rewrite bits_at_mask by lia. f_equal. pose proof (Z.div_mod s 8 ltac:(lia)). lia.
Qed.

(** The unsigned read is the field's bits. *)
Lemma readBitsExpr_unsigned base s bits data :
  0 <= base -> in_word s bits -> reaches base s bits data -> bytes_ok data ->
  eval_read base data (readBitsExpr (s / 8) (s mod 8) bits false) = Some (bits_at (le_val data) (8 * base + s) bits).
Proof.
  intros Hbase Hin Hreach Hok. pose proof Hin as (Hs & H1 & H2).
  pose proof (Z.mod_pos_bound s 8 ltac:(lia)). pose proof (Z.div_pos s 8 Hs ltac:(lia)). pose proof (Z.div_mod s 8 ltac:(lia)).
  unfold reaches, access_width in Hreach. unfold readBitsExpr, signExtendExpr.
  destruct (Z.eqb_spec (s mod 8) 0) as [E0|Hne]; cbn [andb] in *.
  - destruct (standard_width bits) eqn:Es.
    + cbn [eval_read]. apply standard_width_word in Es. rewrite load_bits by (done || lia). do 2 f_equal. lia.
    + assert (Hm : forall w, word_width w -> s mod 8 + bits <= w -> base + s / 8 + w / 8 <= Z.of_nat (length data) ->
        (fun v => Z.land v (bit_mask bits)) <$> load w (base + s / 8) data = Some (bits_at (le_val data) (8 * base + s) bits)).
      { intros w Hw Hf Hl. rewrite <- (masked_read base s w bits data) by done. rewrite E0.
        destruct (load w _ data); cbn; [|done]. now rewrite Z.shiftr_0_r. }
      unfold word_width in Hm. repeat case_step; to_props; cbn [eval_read]; try (apply Hm; auto; lia);
        (rewrite <- option_fmap_compose; unfold compose; apply masked_read; unfold word_width; auto; lia).
  - repeat case_step; to_props; cbn [eval_read];
      (rewrite <- option_fmap_compose; unfold compose; apply masked_read; unfold word_width; auto; lia).
Qed.

(** ** Signs *)

Lemma to_int_small w z : 1 <= w -> 0 <= z < 2 ^ w -> to_int w z = if z <? 2 ^ (w - 1) then z else z - 2 ^ w.
Proof.
  intros Hw Hz. unfold to_int. assert (E : 2 ^ w = 2 * 2 ^ (w - 1)) by (rewrite <- Z.pow_succ_r by lia; f_equal; lia).
  destruct (Z.ltb_spec z (2 ^ (w - 1))).
  - rewrite Z.mod_small by lia. lia.
  - replace (z + 2 ^ (w - 1)) with (z - 2 ^ (w - 1) + 1 * 2 ^ w) by lia. rewrite Z.mod_add, Z.mod_small by lia. lia.
Qed.

Lemma signExtend_int v bits : 1 <= bits <= 64 -> 0 <= v < 2 ^ bits -> signExtend v bits = to_int bits v.
Proof.
  intros Hb Hv. unfold signExtend. rewrite (wrap_small 64 (64 - bits)) by lia. set (k := 64 - bits).
  assert (E : 2 ^ 64 = 2 ^ bits * 2 ^ k) by (rewrite <- Z.pow_add_r by lia; f_equal; lia).
  assert (E2 : 2 ^ 63 = 2 ^ (bits - 1) * 2 ^ k) by (rewrite <- Z.pow_add_r by lia; f_equal; lia).
  assert (Hk : 0 < 2 ^ k) by (apply Z.pow_pos_nonneg; lia).
  rewrite Z.shiftl_mul_pow2, wrap_small by nia. rewrite (to_int_small 64), to_int_small by nia.
  change (64 - 1) with 63. rewrite E2, Z.shiftr_div_pow2 by lia.
  destruct (Z.ltb_spec v (2 ^ (bits - 1))), (Z.ltb_spec (v * 2 ^ k) (2 ^ (bits - 1) * 2 ^ k)); try nia.
  - now apply Z.div_mul; lia.
  - rewrite E. replace (v * 2 ^ k - 2 ^ bits * 2 ^ k) with ((v - 2 ^ bits) * 2 ^ k) by lia. now apply Z.div_mul; lia.
Qed.

(** The signed read is the signed reading of the bits. *)
Lemma readBitsExpr_signed base s bits data :
  0 <= base -> in_word s bits -> reaches base s bits data -> bytes_ok data ->
  eval_read base data (readBitsExpr (s / 8) (s mod 8) bits true)
  = Some (to_int bits (bits_at (le_val data) (8 * base + s) bits)).
Proof.
  intros Hbase Hin Hreach Hok. pose proof (readBitsExpr_unsigned base s bits data Hbase Hin Hreach Hok) as Hu.
  pose proof Hin as (Hs & H1 & H2). pose proof (Z.mod_pos_bound s 8 ltac:(lia)).
  assert (Hext : forall e, eval_read base data e = Some (bits_at (le_val data) (8 * base + s) bits) ->
    eval_read base data (RSignExtend e bits) = Some (to_int bits (bits_at (le_val data) (8 * base + s) bits))).
  { intros e He. cbn [eval_read]. rewrite He. cbn [fmap option_fmap option_map]. f_equal.
    pose proof (bits_at_range (le_val data) (8 * base + s) bits ltac:(lia)) as Hr.
    rewrite wrap_small by (pose proof (Z.pow_le_mono_r 2 bits 64); lia). apply signExtend_int; [lia|exact Hr]. }
  unfold readBitsExpr, signExtendExpr in *. destruct ((s mod 8 =? 0) && standard_width bits).
  - cbn [eval_read] in *. now rewrite Hu.
  - repeat case_step; now apply Hext.
Qed.

Lemma update_bits_mod N s n v w : 0 <= s -> 0 <= n -> n <= w -> update_bits N s n (wrap w v) = update_bits N s n v.
Proof.
  intros Hs Hn Hw. apply Z.bits_inj'. intros i Hi. rewrite !testbit_update by lia.
  destruct (Z.leb_spec s i), (Z.ltb_spec i (s + n)); cbn [andb]; try done.
  rewrite testbit_wrap by lia. now rewrite (proj2 (Z.ltb_lt _ _)) by lia.
Qed.

(** Updating a word is updating its bits. *)
Lemma update_word N o w b bits mask raw : word_width w -> 0 <= o -> 0 <= b -> 1 <= bits -> b + bits <= w -> 
  mask = Z.ones bits ->
  update_bits N o w (Z.lor (Z.land (bits_at N o w) (wrap w (Z.lnot (wrap w (Z.shiftl mask b)))))
                           (wrap w (u64 (Z.shiftl (Z.land raw mask) b))))
  = update_bits N (o + b) bits raw.
Proof.
  intros Hw Ho Hb Hn Hfit ->. destruct (word_bytes w Hw) as [Hw1 _]. apply Z.bits_inj'. intros i Hi.
  rewrite !testbit_update by lia.
  destruct (Z.leb_spec o i), (Z.ltb_spec i (o + w)); cbn [andb].
  2-4: destruct (Z.leb_spec (o + b) i), (Z.ltb_spec i (o + b + bits)); cbn [andb]; done || lia.
  set (j := i - o). rewrite Z.lor_spec, Z.land_spec, testbit_bits_at by lia.
  rewrite (testbit_wrap w (Z.lnot _)), Z.lnot_spec, (testbit_wrap w (Z.shiftl (Z.ones bits) b)) by lia.
  rewrite (testbit_wrap w (u64 _)), (testbit_wrap 64), !testbit_shiftl by lia.
  replace (j + o) with i by lia. rewrite (proj2 (Z.ltb_lt j w)), (proj2 (Z.ltb_lt j 64)) by lia. cbn [andb].
  replace (i - (o + b)) with (j - b) by lia.
  destruct (Z.leb_spec b j), (Z.leb_spec (o + b) i); try lia; cbn [andb negb]; [|now rewrite andb_true_r, orb_false_r].
  rewrite Z.land_spec, testbit_ones by lia.
  destruct (Z.ltb_spec (j - b) bits), (Z.ltb_spec i (o + b + bits)); try lia; cbn [negb andb].
  - now rewrite andb_false_r, andb_true_r.
  - now rewrite andb_true_r, andb_false_r, orb_false_r.
Qed.

Lemma bits_at_word_range N o w : word_width w -> 0 <= bits_at N o w < 2 ^ w.
Proof. intros Hw. destruct (word_bytes w Hw). apply bits_at_range. lia. Qed.

(** The write changes the field's bits and nothing else. *)
Lemma writeBitsStmt_writes s bits raw data :
  in_word s bits -> reaches 0 s bits data -> bytes_ok data ->
  exists data', exec_write (writeBitsStmt (s / 8) (s mod 8) bits) raw data = Some data' /\
    length data' = length data /\ bytes_ok data' /\ le_val data' = update_bits (le_val data) s bits raw.
Proof.
  intros Hin Hreach Hok. pose proof Hin as (Hs & H1 & H2).
  pose proof (Z.mod_pos_bound s 8 ltac:(lia)). pose proof (Z.div_pos s 8 Hs ltac:(lia)). pose proof (Z.div_mod s 8 ltac:(lia)).
  unfold reaches, access_width in Hreach. rewrite Z.add_0_l in Hreach. unfold writeBitsStmt.
  destruct ((s mod 8 =? 0) && standard_width bits) eqn:Es.
  - to_props. assert (Hw : word_width bits) by now apply standard_width_word. destruct (word_bytes bits Hw). cbn [exec_write].
    destruct (store_bits bits (s / 8) (wrap bits raw) data Hw) as (data' & E & Hl & Hb & Hv);
      [lia|lia|done|apply wrap_range; lia|]. exists data'. split; [done|]. split; [done|]. split; [done|].
    rewrite Hv, update_bits_mod by lia. f_equal. lia.
  - assert (Hup : forall w, word_width w -> s mod 8 + bits <= w -> s / 8 + w / 8 <= Z.of_nat (length data) ->
      exists data', exec_write (WUpdate w (s / 8) (bit_mask bits) (s mod 8)) raw data = Some data' /\
        length data' = length data /\ bytes_ok data' /\ le_val data' = update_bits (le_val data) s bits raw).
    { intros w Hw Hf Hl. destruct (word_bytes w Hw) as [Hw1 _]. cbn [exec_write]. rewrite load_bits by (done || lia).
      cbn [mbind option_bind].
      match goal with |- context [store w (s / 8) ?x data] => destruct (store_bits w (s / 8) x data Hw) as (data' & E & Hlen & Hb & Hv) end;
        [lia|lia|done| |].
      { apply lor_range; [lia| |apply wrap_range; lia]. apply land_range; [lia|]. now apply bits_at_word_range. }
      exists data'. rewrite E. split; [done|]. split; [done|]. split; [done|]. rewrite Hv, (update_word _ _ _ _ bits) by (first [done | lia | apply bit_mask_ones; lia]).
      f_equal. lia. }
    unfold word_width in Hup. repeat case_step; to_props; apply Hup; auto; lia.
Qed.
