(* ===== verification/PgnCodec.v ===== *)
(** The codecs [pgngen] generates for PGNs: [pgngen/gen_go.go].

    The generator chooses a few statements per field; they are syntax here, with
    their text and their effect on a payload.  [Decode] and [Encode] of a PGN run
    the statements of its fields; a message maps the names of the fields to their
    values, a missing name being the zero value of its type.  The functions of
    the generated helpers ([decodeFixedStr], [decodeLAU], [decodeParamPairs]) are
    here too.  [None] is a panic. *)

From S2P Require Import Prelude GoNum PgnSchema PgnBits PgnNaming.
From Stdlib Require Import Ascii.

(** * Types *)

Inductive type_name := TInteger (t : gotype) | TEnumName (name : string) | TFloatName (w : Z) | TStringName.

#[export] Instance type_name_eq_dec : EqDecision type_name.
Proof. solve_decision. Defined.

Definition type_width (bits : Z) : Z := if bits <=? 8 then 8 else if bits <=? 16 then 16 else if bits <=? 32 then 32 else 64.
Definition uintGoType (bits : Z) : gotype := GoUint (type_width bits).
Definition intGoType (bits : Z) : gotype := GoInt (type_width bits).

Definition rawType (f : FieldDef) : gotype := if fd_Signed f then intGoType (fd_Bits f) else uintGoType (fd_Bits f).

Definition goFieldType (f : FieldDef) : type_name :=
  if HasScaling f then TFloatName 64
  else match fd_Type f with
       | TypeString => TStringName
       | TypeFloat => TFloatName (if fd_Bits f =? 32 then 32 else 64)
       | TypeEnum => TEnumName (fd_EnumRef f)
       | TypeInt => TInteger (intGoType (fd_Bits f))
       | _ => TInteger (uintGoType (fd_Bits f))
       end.

Definition show_gotype (t : gotype) : string := match t with GoUint w => go_uint w | GoInt w => go_int w end.

Definition show_type (t : type_name) : string :=
  match t with
  | TInteger t => show_gotype t
  | TEnumName n => n
  | TFloatName w => ("float" ++ FormatInt w)%string
  | TStringName => "string"
  end.

(** The names other fields refer to. *)
Definition referencedFields (fs : list FieldDef) : gset string :=
  list_to_set (List.filter (fun n => negb (bool_decide (n = EmptyString)))
    (flat_map (fun f => [fd_RepeatRef f; fd_PGNRef f; fd_CountRef f]) fs)).

Definition isNullable (f : FieldDef) (refs : gset string) : bool :=
  if IsRepeated f || bool_decide (is_Some (fd_MatchValue f)) then false
  else if bool_decide (fd_Name f ∈ refs) then false
  else if negb (bool_decide (fd_LookupRef f = EmptyString)) then false
  else if fd_Bits f =? 1 then false
  else match fd_Type f with
       | TypeUint | TypeInt | TypeEnum => true
       | _ => HasScaling f
       end.

(** The sentinel for a value that is not available. *)
Definition sentinel (bits : Z) (signed : bool) : Z :=
  if signed then u64 (u64 (Z.shiftl 1 (bits - 1)) - 1) else u64 (u64 (Z.shiftl 1 bits) - 1).

(** The index after the last byte a field's statements touch. *)
Definition fieldReadEnd (f : FieldDef) : Z :=
  let byteOff := Z.quot (fd_BitStart f) 8 in
  let bitInByte := Z.rem (fd_BitStart f) 8 in
  match fd_Type f with
  | TypeString => byteOff + Z.quot (fd_Bits f) 8
  | _ =>
      if bool_decide (fd_Type f = TypeFloat) && (fd_Bits f =? 32) then byteOff + 4
      else if bool_decide (fd_Type f = TypeFloat) && (fd_Bits f =? 64) then byteOff + 8
      else if (bitInByte =? 0) && standard_width (fd_Bits f) then byteOff + fd_Bits f / 8
      else if bitInByte + fd_Bits f <=? 8 then byteOff + 1
      else if bitInByte + fd_Bits f <=? 16 then byteOff + 2
      else if bitInByte + fd_Bits f <=? 32 then byteOff + 4
      else byteOff + 8
  end.

(** Where the [i]th element of a repeated field starts: [int] arithmetic. *)
Definition element_start (f : FieldDef) (i : Z) : Z := i64 (fd_BitStart f + i64 (i * fd_Bits f)).

Definition element (f : FieldDef) (i : Z) : FieldDef := set_BitStart (element_start f i) f.

Definition minBufferBytes (fs : list FieldDef) : Z :=
  foldl (fun n f =>
    let last := if IsRepeated f then element f (i64 (fd_RepeatCount f - 1)) else f in
    Z.max n (fieldReadEnd last)) 0 fs.

(** * Floats *)

(** What a conversion of a float out of range to a 64-bit integer gives is up to
    the platform; the flag is set for [int64]. *)
Class Platform := { float_overflow : bool -> float64 -> Z }.

(** A float without its fraction; [None] for infinities and NaN. *)
Definition truncate (x : float64) : option Z :=
  match x with
  | SpecFloat.S754_zero _ => Some 0
  | SpecFloat.S754_finite s m e =>
      Some (SpecFloat.cond_Zopp s (if 0 <=? e then Z.pos m * 2 ^ e else Z.pos m / 2 ^ (- e)))
  | _ => None
  end.

(** [math.Round]: halves away from zero. *)
Definition math_Round (x : float64) : float64 :=
  match x with
  | SpecFloat.S754_finite s m e =>
      if 0 <=? e then x
      else let q := (2 * Z.pos m + 2 ^ (- e)) / (2 * 2 ^ (- e)) in
           if q =? 0 then SpecFloat.S754_zero s else float_of_Z (SpecFloat.cond_Zopp s q)
  | _ => x
  end.

Section floats.
Context `{P : Platform}.

(** [int64(x)] and [uint64(x)] *)
Definition float_to_int64 (x : float64) : Z :=
  match truncate x with
  | Some z => if (- 2 ^ 63 <=? z) && (z <? 2 ^ 63) then z else i64 (float_overflow true x)
  | None => i64 (float_overflow true x)
  end.
Definition float_to_uint64 (x : float64) : Z :=
  match truncate x with
  | Some z => if (0 <=? z) && (z <? 2 ^ 64) then z else u64 (float_overflow false x)
  | None => u64 (float_overflow false x)
  end.
End floats.

Definition float_mul : float64 -> float64 -> float64 := SpecFloat.SFmul 53 1024.
Definition float_add : float64 -> float64 -> float64 := SpecFloat.SFadd 53 1024.
Definition float_sub : float64 -> float64 -> float64 := SpecFloat.SFsub 53 1024.
Definition float_div : float64 -> float64 -> float64 := SpecFloat.SFdiv 53 1024.

(** [formatFloat]: [%g], with a point. *)
Definition formatFloat (x : float64) : string :=
  let s := FormatFloat x in
  if all_chars (fun c => negb (existsb (Ascii.eqb c) ["."; "e"; "E"]%char)) s then (s ++ ".0")%string else s.

(** * Values *)

(** A value of a field: an integer or enumeration, a computed float, the bits of
    a stored float, the bytes of a string, a nil pointer. *)
Inductive fval := VInt (z : Z) | VFloat (x : float64) | VBits (z : Z) | VStr (bs : list Z) | VNil.

Record ParamPair := mkParamPair { pp_Field : Z; pp_Name : string; pp_Value : Z }.

Inductive value :=
| One (v : fval)
| Items (vs : list fval)                 (* a slice *)
| Keyed (vs : gmap Z fval)               (* a map *)
| Entries (es : list (gmap string fval)) (* a slice of structs *)
| Hex (bs : list Z)
| Pairs (ps : list ParamPair).

Abbreviation message := (gmap string value).

(** * Decoding a field *)

(** The expressions assigned to a field. *)
Inductive dexpr :=
| XRead (e : read_expr)
| XVar                                       (* [v], the raw value that was tested *)
| XConv (t : type_name) (e : dexpr)          (* [t(e)] *)
| XScaled (e : dexpr) (scale offset : option float64).   (* [float64(e) * scale + offset] *)

Inductive decode_stmt :=
| DStr (off n : Z) (trim : string)           (* [decodeTrimmedStr], [decodeFixedStr] *)
| DFloat (w off : Z)                         (* [math.Float32frombits], [math.Float64frombits] *)
| DNullable (read : read_expr) (sentinels : list Z) (var : string) (e : dexpr)
| DAssign (e : dexpr).

Definition nonzero (x : float64) : option float64 := if float_nonzero x then Some x else None.

Definition scaled (f : FieldDef) (e : dexpr) : dexpr := XScaled e (nonzero (fd_Scale f)) (nonzero (fd_Offset f)).

(** [maybeWrapCast], and the assignment to a field that is not a pointer. *)
Definition maybeWrapCast (f : FieldDef) (raw : read_expr) : dexpr :=
  if HasScaling f then scaled f (XRead raw)
  else if bool_decide (TInteger (rawType f) = goFieldType f) then XRead raw
  else XConv (goFieldType f) (XRead raw).

(** Integers and enumerations, at an offset that may be relative to a cursor. *)
Definition decode_integer (byteOff bitInByte : Z) (f : FieldDef) (refs : gset string) : decode_stmt :=
  let raw signed := readBitsExpr byteOff bitInByte (fd_Bits f) signed in
  if isNullable f refs then
    let sentinels := sentinel (fd_Bits f) (fd_Signed f) :: (if fd_Signed f then [sentinel (fd_Bits f) false] else []) in
    let v := if fd_Signed f then XConv (TInteger (intGoType (fd_Bits f))) XVar else XVar in
    if bool_decide (fd_Type f = TypeEnum) then
      DNullable (raw false) sentinels "e" (XConv (TEnumName (fd_EnumRef f)) XVar)
    else if HasScaling f then DNullable (raw false) sentinels "f" (scaled f v)
    else DNullable (raw false) sentinels "n" (XConv (goFieldType f) v)
  else DAssign (maybeWrapCast f (raw (fd_Signed f))).

Definition writeDecodeField (f : FieldDef) (refs : gset string) : decode_stmt :=
  let byteOff := fd_BitStart f / 8 in
  if bool_decide (fd_Type f = TypeString) then DStr byteOff (fd_Bits f / 8) (fd_Trim f)
  else if bool_decide (fd_Type f = TypeFloat) && (fd_Bits f =? 32) then DFloat 32 byteOff
  else if bool_decide (fd_Type f = TypeFloat) && (fd_Bits f =? 64) then DFloat 64 byteOff
  else decode_integer byteOff (fd_BitStart f mod 8) f refs.

(** ** Text *)

Fixpoint show_dexpr (base : option string) (e : dexpr) : string :=
  match e with
  | XRead e => show_read base e
  | XVar => "v"
  | XConv t e => (show_type t ++ "(" ++ show_dexpr base e ++ ")")%string
  | XScaled e scale offset =>
      ("float64(" ++ show_dexpr base e ++ ")" ++ match scale with Some s => " * " ++ formatFloat s | None => "" end
       ++ match offset with Some o => " + " ++ formatFloat o | None => "" end)%string
  end.

Definition show_hex (z : Z) : string := ("0x" ++ fmt_hex 1 z)%string.

(** The statements for [entry.goField]; [quote] is the verb [%q]. *)
Definition show_decode (quote : string -> string) (indent : string) (base : option string) (entry goField : string) (st : decode_stmt) : string :=
  let target := (entry ++ "." ++ goField)%string in
  match st with
  | DStr off n trim =>
      let bytes := ("data[" ++ FormatInt off ++ ":" ++ FormatInt (off + n) ++ "]")%string in
      if bool_decide (trim = EmptyString) then (indent ++ target ++ " = decodeFixedStr(" ++ bytes ++ ")" ++ nl)%string
      else (indent ++ target ++ " = decodeTrimmedStr(" ++ bytes ++ ", " ++ quote trim ++ ")" ++ nl)%string
  | DFloat w off =>
      (indent ++ target ++ " = math.Float" ++ FormatInt w ++ "frombits(" ++ show_read None (RLoad w off) ++ ")" ++ nl)%string
  | DNullable read sentinels var e =>
      let test := String.concat " && " (map (fun s => "v != " ++ show_hex s)%string sentinels) in
      (indent ++ "if v := " ++ show_read base read ++ "; " ++ test ++ " {" ++ nl
       ++ indent ++ tab ++ var ++ " := " ++ show_dexpr base e ++ nl
       ++ indent ++ tab ++ target ++ " = &" ++ var ++ nl ++ indent ++ "}" ++ nl)%string
  | DAssign e => (indent ++ target ++ " = " ++ show_dexpr base e ++ nl)%string
  end.

(** ** Effect *)

Section decode.
Context (base : Z) (data : list Z) (v : Z).

Fixpoint eval_int (e : dexpr) : option Z :=
  match e with
  | XRead r => eval_read base data r
  | XVar => Some v
  | XConv (TInteger t) e => convert t <$> eval_int e
  | XConv (TEnumName _) e => wrap 8 <$> eval_int e
  | _ => None
  end.

(** [string(n)] of an integer is its rune. *)
Definition eval_dexpr (e : dexpr) : option fval :=
  match e with
  | XScaled e scale offset =>
      z ← eval_int e;
      let x := match scale with Some s => float_mul (float_of_Z z) s | None => float_of_Z z end in
      Some (VFloat (match offset with Some o => float_add x o | None => x end))
  | XConv (TFloatName w) e =>
      (fun z => VFloat (if w =? 32 then SpecFloat.binary_normalize 24 128 z 0 false else float_of_Z z)) <$> eval_int e
  | XConv TStringName e => (fun z => VStr (EncodeRune z)) <$> eval_int e
  | _ => VInt <$> eval_int e
  end.
End decode.

(** [data[lo:hi]], up to the length. *)
Definition slice_of (lo hi : Z) (data : list Z) : option (list Z) :=
  if (0 <=? lo) && (lo <=? hi) && (hi <=? Z.of_nat (length data))
  then Some (slice (Z.to_nat lo) (Z.to_nat hi) data) else None.

Fixpoint decodeFixedStr (data : list Z) : list Z :=
  match data with
  | [] => []
  | b :: data => if (b =? 0) || (b =? 255) then [] else b :: decodeFixedStr data
  end.

(** [strings.TrimRight] with a cutset of ASCII characters. *)
Fixpoint trimRightASCII (cutset s : list Z) : list Z :=
  match s with
  | [] => []
  | b :: s => match trimRightASCII cutset s with
              | [] => if existsb (Z.eqb b) cutset then [] else [b]
              | s' => b :: s'
              end
  end.

Definition decodeTrimmedStr (data cutset : list Z) : list Z := trimRightASCII cutset (decodeFixedStr data).

Definition exec_decode (base : Z) (data : list Z) (st : decode_stmt) : option fval :=
  match st with
  | DStr off n trim =>
      (fun bs => VStr (if bool_decide (trim = EmptyString) then decodeFixedStr bs
                       else decodeTrimmedStr bs (bytes_of_string trim))) <$> slice_of off (off + n) data
  | DFloat w off => VBits <$> load w off data
  | DNullable read sentinels _ e =>
      v ← eval_read base data read;
      if existsb (Z.eqb v) sentinels then Some VNil else eval_dexpr base data v e
  | DAssign e => eval_dexpr base data 0 e
  end.

(** ** Typing *)

(** The type of an expression, [v] being of type [var]. *)
Definition dexpr_type (var : gotype) (e : dexpr) : type_name :=
  match e with
  | XRead r => TInteger (read_type r)
  | XVar => TInteger var
  | XConv t _ => t
  | XScaled _ _ _ => TFloatName 64
  end.

(** Whether the statement assigns to a field of type [t], or of type [*t]. *)
Definition decode_compiles (t : type_name) (pointer : bool) (st : decode_stmt) : bool :=
  match st with
  | DStr _ _ _ => negb pointer && bool_decide (t = TStringName)
  | DFloat w _ => negb pointer && bool_decide (t = TFloatName w)
  | DNullable read _ _ e => pointer && bool_decide (t = dexpr_type (read_type read) e)
  | DAssign e => negb pointer && bool_decide (t = dexpr_type (GoUint 8) e)
  end.

(** * Encoding a field *)

(** The raw value of a field's value. *)
Inductive enc_expr :=
| EUint                                                           (* [uint64(v)] *)
| ERound (signed : bool) (offset : option float64) (scale : float64).  (* [uint64(int64(math.Round((v - offset) / scale)))] *)

Inductive encode_stmt :=
| EStr (off n : Z)                                                (* [encodeFixedStr] *)
| EFloat (w off : Z)                                              (* [math.Float32bits], [math.Float64bits] *)
| EBits (pointer : bool) (st : write_stmt) (e : enc_expr)         (* if [v] is not nil *)
| EConst (st : write_stmt) (val : Z).

Definition encodeRawExpr (f : FieldDef) : enc_expr :=
  if HasScaling f then ERound (fd_Signed f) (nonzero (fd_Offset f)) (default (float_of_Z 1) (nonzero (fd_Scale f)))
  else EUint.

Definition field_write (f : FieldDef) : write_stmt := writeBitsStmt (fd_BitStart f / 8) (fd_BitStart f mod 8) (fd_Bits f).

Definition writeEncodeField (f : FieldDef) (refs : gset string) : encode_stmt :=
  let byteOff := fd_BitStart f / 8 in
  if bool_decide (fd_Type f = TypeString) then EStr byteOff (fd_Bits f / 8)
  else if bool_decide (fd_Type f = TypeFloat) && (fd_Bits f =? 32) then EFloat 32 byteOff
  else if bool_decide (fd_Type f = TypeFloat) && (fd_Bits f =? 64) then EFloat 64 byteOff
  else if isNullable f refs then
    EBits true (field_write f) (if bool_decide (fd_Type f = TypeEnum) then EUint else encodeRawExpr f)
  else EBits false (field_write f) (encodeRawExpr f).

Definition writeEncodeConstrained (f : FieldDef) (val : Z) : encode_stmt := EConst (field_write f) val.

(** ** Text *)

Definition show_enc (v : string) (e : enc_expr) : string :=
  match e with
  | EUint => ("uint64(" ++ v ++ ")")%string
  | ERound signed offset scale =>
      let x := match offset with Some o => ("(" ++ v ++ " - " ++ formatFloat o ++ ")")%string | None => v end in
      let r := ("math.Round(" ++ x ++ " / " ++ formatFloat scale ++ ")")%string in
      if signed then ("uint64(int64(" ++ r ++ "))")%string else ("uint64(" ++ r ++ ")")%string
  end.

Definition show_encode (goField : string) (st : encode_stmt) : string :=
  match st with
  | EStr off n =>
      (tab ++ "encodeFixedStr(data[" ++ FormatInt off ++ ":" ++ FormatInt (off + n) ++ "], m." ++ goField ++ ")" ++ nl)%string
  | EFloat w off =>
      (tab ++ "binary.LittleEndian.PutUint" ++ FormatInt w ++ "(" ++ show_bytes None off w ++ ", math.Float" ++ FormatInt w
       ++ "bits(m." ++ goField ++ "))" ++ nl)%string
  | EBits true st e =>
      (tab ++ "if m." ++ goField ++ " != nil {" ++ nl ++ tab ++ show_write st (show_enc ("*m." ++ goField) e)
       ++ tab ++ "}" ++ nl)%string
  | EBits false st e => show_write st (show_enc ("m." ++ goField) e)
  | EConst st val => show_write st ("uint64(" ++ FormatInt val ++ ")")
  end.

(** ** Effect *)

(** [encodeFixedStr]: the string cut to the field, or filled with 0xFF. *)
Definition encodeFixedStr (n : nat) (s : list Z) : list Z := take n s ++ replicate (n - length s) 255.

Section encode.
Context `{P : Platform}.

Definition eval_enc (e : enc_expr) (v : fval) : option Z :=
  match e, v with
  | EUint, VInt z => Some (u64 z)
  | EUint, VFloat x => Some (float_to_uint64 x)
  | ERound signed offset scale, VFloat x =>
      let x := match offset with Some o => float_sub x o | None => x end in
      let r := math_Round (float_div x scale) in
      Some (if signed then u64 (float_to_int64 r) else float_to_uint64 r)
  | _, _ => None
  end.

Definition exec_encode (st : encode_stmt) (v : fval) (data : list Z) : option (list Z) :=
  match st, v with
  | EStr off n, VStr s =>
      _ ← slice_of off (off + n) data;
      Some (take (Z.to_nat off) data ++ encodeFixedStr (Z.to_nat n) s ++ drop (Z.to_nat (off + n)) data)
  | EFloat w off, VBits z => store w off z data
  | EBits true _ _, VNil => Some data
  | EBits _ st e, _ => raw ← eval_enc e v; exec_write st raw data
  | EConst st val, _ => exec_write st (u64 val) data
  | _, _ => None
  end.
End encode.

(** A negative constant does not convert to a [uint64]. *)
Definition encode_compiles (st : encode_stmt) : bool :=
  match st with
  | EStr _ _ | EFloat _ _ => true
  | EBits _ st _ => write_compiles st
  | EConst st val => write_compiles st && (0 <=? val) && (val <? 2 ^ 64)
  end.

Definition demo_quote (s : string) : string := String (ascii_of_Z 34) (s ++ String (ascii_of_Z 34) EmptyString).

Definition at_bit (s : Z) (f : FieldDef) : FieldDef := set_BitStart s f.

Example field_texts :
  let angle := mkField "wind_angle" TypeInt 16 24 (float_of_decimal false 1 (-4)) (SpecFloat.S754_zero false) "" "" "" "" "" "" "" None true
                 None 0 "" "" "" "" 0 in
  (show_decode demo_quote tab None "m" "WindAngle" (writeDecodeField angle ∅),
   show_encode "WindAngle" (writeEncodeField angle ∅)) =
  (tab ++ "if v := binary.LittleEndian.Uint16(data[3:5]); v != 0x7FFF && v != 0xFFFF {" ++ nl
   ++ tab ++ tab ++ "f := float64(int16(v)) * 0.0001" ++ nl ++ tab ++ tab ++ "m.WindAngle = &f" ++ nl ++ tab ++ "}" ++ nl,
   tab ++ "if m.WindAngle != nil {" ++ nl ++ tab ++ tab
   ++ "binary.LittleEndian.PutUint16(data[3:5], uint16(uint64(int64(math.Round(*m.WindAngle / 0.0001)))))" ++ nl
   ++ tab ++ "}" ++ nl)%string.
Proof. vm_compute. reflexivity. Qed.

(** * PGNs of fixed width *)

(** [padded]: a short payload is filled with 0xFF. *)
Definition pad (n : Z) (data : list Z) : list Z := data ++ replicate (Z.to_nat n - length data) 255.

Definition indices (n : Z) : list Z := seqZ 0 n.

Definition element_read (f : FieldDef) (i : Z) : read_expr :=
  let bitOff := element_start f i in readBitsExpr (Z.quot bitOff 8) (Z.rem bitOff 8) (fd_Bits f) (fd_Signed f).

Definition element_write (f : FieldDef) (i : Z) : write_stmt :=
  let bitOff := element_start f i in writeBitsStmt (Z.quot bitOff 8) (Z.rem bitOff 8) (fd_Bits f).

(** The values of a repeated field. *)
Definition decode_repeated (f : FieldDef) (data : list Z) : option value :=
  vs ← mapM (fun i => eval_dexpr 0 data 0 (maybeWrapCast f (element_read f i))) (indices (fd_RepeatCount f));
  Some (if bool_decide (fd_GroupMode f = "map"%string)
        then Keyed (list_to_map (zip (map (Z.add 1) (indices (fd_RepeatCount f))) vs)) else Items vs).

Definition decode_field (refs : gset string) (data : list Z) (m : message) (f : FieldDef) : option message :=
  if IsSkipped f then Some m
  else if IsRepeated f then v ← decode_repeated f data; Some (<[fd_Name f := v]> m)
  else v ← exec_decode 0 data (writeDecodeField f refs); Some (<[fd_Name f := One v]> m).

Fixpoint decode_fields (refs : gset string) (data : list Z) (fs : list FieldDef) (m : message) : option message :=
  match fs with
  | [] => Some m
  | f :: fs => m ← decode_field refs data m f; decode_fields refs data fs m
  end.

(** [Decode] of [writeVariant]; there is no error. *)
Definition Decode (fs : list FieldDef) (data : list Z) : option message :=
  decode_fields (referencedFields fs) (pad (minBufferBytes fs) data) fs ∅.

(** The zero value of a field that is not repeated. *)
Definition zero_value (f : FieldDef) (refs : gset string) : fval :=
  if isNullable f refs then VNil
  else match goFieldType f with
       | TStringName => VStr []
       | TFloatName _ => if HasScaling f then VFloat (SpecFloat.S754_zero false)
                         else if (fd_Bits f =? 32) || (fd_Bits f =? 64) then VBits 0 else VFloat (SpecFloat.S754_zero false)
       | _ => VInt 0
       end.

Definition field_of (refs : gset string) (m : message) (f : FieldDef) : fval :=
  match m !! fd_Name f with Some (One v) => v | _ => zero_value f refs end.

Section encode_pgn.
Context `{P : Platform}.

Definition write_element (f : FieldDef) (v : option fval) (i : Z) (data : list Z) : option (list Z) :=
  match v with
  | None => Some data
  | Some v => raw ← eval_enc (encodeRawExpr f) v; exec_write (element_write f i) raw data
  end.

(** The elements present, at most as many as the field has. *)
Definition repeated_element (f : FieldDef) (m : message) (i : Z) : option fval :=
  match m !! fd_Name f with
  | Some (Keyed vs) => vs !! (1 + i)
  | Some (Items vs) => vs !! Z.to_nat i
  | _ => None
  end.

Fixpoint encode_repeated (f : FieldDef) (m : message) (js : list Z) (data : list Z) : option (list Z) :=
  match js with
  | [] => Some data
  | i :: js => data ← write_element f (repeated_element f m i) i data; encode_repeated f m js data
  end.

Definition encode_field (refs : gset string) (m : message) (data : list Z) (f : FieldDef) : option (list Z) :=
  if IsSkipped f then Some data
  else if IsRepeated f then encode_repeated f m (indices (fd_RepeatCount f)) data
  else match fd_MatchValue f with
       | Some val => exec_encode (writeEncodeConstrained f val) VNil data
       | None => exec_encode (writeEncodeField f refs) (field_of refs m f) data
       end.

Fixpoint encode_fields (refs : gset string) (m : message) (fs : list FieldDef) (data : list Z) : option (list Z) :=
  match fs with
  | [] => Some data
  | f :: fs => data ← encode_field refs m data f; encode_fields refs m fs data
  end.

(** [Encode] of [writeVariant], on a payload filled with 0xFF. *)
Definition Encode (fs : list FieldDef) (m : message) : option (list Z) :=
  encode_fields (referencedFields fs) m fs (replicate (Z.to_nat (minBufferBytes fs)) 255).

End encode_pgn.

(** Whether the statements of a field have the types of the struct the generator
    declares. *)
Definition field_compiles (refs : gset string) (f : FieldDef) : bool :=
  if IsSkipped f then true
  else if IsRepeated f then
    forallb (fun i => bool_decide (goFieldType f = dexpr_type (GoUint 8) (maybeWrapCast f (element_read f i))) &&
                      write_compiles (element_write f i)) (indices (fd_RepeatCount f))
  else
    decode_compiles (goFieldType f) (isNullable f refs) (writeDecodeField f refs) &&
    encode_compiles (match fd_MatchValue f with
                     | Some val => writeEncodeConstrained f val
                     | None => writeEncodeField f refs
                     end).

(** * Helpers of variable-width PGNs *)

(** The 16-bit code units of a text, surrogates apart. *)
Fixpoint utf16_runes (payload : list Z) : list Z :=
  match payload with
  | a :: b :: payload => le_val [a; b] :: utf16_runes payload
  | _ => []
  end.

(** [decodeLAU]: the string and the number of bytes taken. *)
Definition decodeLAU (data : list Z) : list Z * Z :=
  match data with
  | n :: encoding :: _ =>
      if n <? 2 then ([], 2)
      else
        let totalLen := Z.min n (Z.of_nat (length data)) in
        let payload := slice 2 (Z.to_nat totalLen) data in
        if (encoding =? 0) && (2 <=? length payload)%nat then (flat_map EncodeRune (utf16_runes payload), totalLen)
        else (payload, totalLen)
  | _ => ([], 0)
  end.

Definition readUintLE (data : list Z) : Z := le_val (take 8 data).

(** The layout of the fields of a PGN: names and widths in bytes. *)
Abbreviation field_table := (gmap Z (list (string * Z))).

(** [decodeParamPairs], with fuel for the pairs. *)
Fixpoint param_pairs (fields : list (string * Z)) (count : nat) (data : list Z) : list ParamPair :=
  match count, data with
  | S count, n :: rest =>
      match (if 1 <=? n then fields !! Z.to_nat (n - 1) else None) with
      | None => []
      | Some (name, w) =>
          if w <=? Z.of_nat (length rest)
          then mkParamPair n name (readUintLE (take (Z.to_nat w) rest)) :: param_pairs fields count (drop (Z.to_nat w) rest)
          else []
      end
  | _, _ => []
  end.

Definition decodeParamPairs (fieldTable : field_table) (targetPGN count : Z) (data : list Z) : list ParamPair :=
  param_pairs (default [] (fieldTable !! targetPGN)) (Z.to_nat (Z.min count (Z.of_nat (length data)))) data.

Section table.
Context `{U : Unicode}.

Definition byte_width (f : FieldDef) : Z := Z.quot (i64 (fd_Bits f + 7)) 8.

(** The entries of one field: a static repeat expands. *)
Definition layout_entries (f : FieldDef) : list (string * Z) :=
  if IsRepeated f then
    map (fun i => ((if IsSkipped f then EmptyString else toSnake (fd_Name f) ++ "_" ++ itoa (i + 1))%string, byte_width f))
      (indices (fd_RepeatCount f))
  else [((if IsSkipped f then EmptyString else toSnake (fd_Name f)), byte_width f)].

Definition has_dynamic (f : FieldDef) : bool := match fd_Type f with TypeStruct | TypeBytes => true | _ => false end.

(** [writeFieldTable]: the first definition of every number with fields. *)
Fixpoint writeFieldTable (seen : gset Z) (ps : list PGNDef) : list (Z * list (string * Z)) :=
  match ps with
  | [] => []
  | p :: ps =>
      if IsNameOnly p || bool_decide (pd_PGN p ∈ seen) then writeFieldTable seen ps
      else
        let seen := {[pd_PGN p]} ∪ seen in
        if existsb has_dynamic (pgn_fields p) then writeFieldTable seen ps
        else match flat_map layout_entries (pgn_fields p) with
             | [] => writeFieldTable seen ps
             | entries => (pd_PGN p, entries) :: writeFieldTable seen ps
             end
  end.

Definition fieldTable (s : Schema) : field_table := list_to_map (writeFieldTable ∅ (sc_PGNs s)).
End table.

(** * PGNs of variable width *)

(** The fields before the first of variable width, and the rest. *)
Fixpoint split_static (fs : list FieldDef) : list FieldDef * list FieldDef :=
  match fs with
  | [] => ([], [])
  | f :: fs' => if variable_width f then ([], fs) else let '(a, b) := split_static fs' in (f :: a, b)
  end.

Definition static_bytes (fs : list FieldDef) : Z :=
  Z.quot (foldl (fun n f => i64 (n + fd_Bits f)) 0 (split_static fs).1) 8.

Definition minStructFixedBytes (sd : StructDef) : Z :=
  foldl (fun n f => if bool_decide (fd_Type f = TypeStringLAU) then n + 2 else n + fd_Bits f / 8) 0 (sd_Fields sd).

Abbreviation entry := (gmap string fval).

(** [writeStructFieldDecodes]: an entry of fixed width at the cursor. *)
Fixpoint struct_fields (refs : gset string) (base : Z) (data : list Z) (fs : list FieldDef) (e : entry) : option entry :=
  match fs with
  | [] => Some e
  | f :: fs =>
      if IsSkipped f then struct_fields refs base data fs e
      else v ← exec_decode base data (decode_integer (fd_BitStart f / 8) (fd_BitStart f mod 8) f refs);
           struct_fields refs base data fs (<[fd_Name f := v]> e)
  end.

Fixpoint fixed_entries (refs : gset string) (sd : StructDef) (count : nat) (off : Z) (data : list Z) : option (list entry * Z) :=
  match count with
  | O => Some ([], off)
  | S count =>
      e ← struct_fields refs off data (sd_Fields sd) ∅;
      '(es, off) ← fixed_entries refs sd count (off + FixedEntryBytes sd) data;
      Some (e :: es, off)
  end.

(** [writeVarStructFieldDecodes]: the entry, or [None] when the loop over the
    entries is left, with the cursor. *)
Fixpoint var_struct_fields (refs : gset string) (off : Z) (data : list Z) (fs : list FieldDef) (e : entry)
    : option (option entry * Z) :=
  match fs with
  | [] => Some (Some e, off)
  | f :: fs =>
      if bool_decide (fd_Type f = TypeStringLAU) then
        rest ← slice_of off (Z.of_nat (length data)) data;
        let '(s, n) := decodeLAU rest in
        if n =? 0 then Some (None, off) else var_struct_fields refs (off + n) data fs (<[fd_Name f := VStr s]> e)
      else
        let nBytes := fd_Bits f / 8 in
        if IsSkipped f then var_struct_fields refs (off + Z.max 0 nBytes) data fs e
        else if (0 <? nBytes) && (Z.of_nat (length data) <? off + nBytes) then Some (None, off)
        else v ← exec_decode off data (decode_integer 0 (fd_BitStart f mod 8) f refs);
             var_struct_fields refs (off + Z.max 0 nBytes) data fs (<[fd_Name f := v]> e)
  end.

Fixpoint var_entries (refs : gset string) (sd : StructDef) (count : nat) (off : Z) (data : list Z) : option (list entry * Z) :=
  match count with
  | O => Some ([], off)
  | S count =>
      if Z.of_nat (length data) <? off + minStructFixedBytes sd then Some ([], off)
      else '(e, off) ← var_struct_fields refs off data (sd_Fields sd) ∅;
           match e with
           | None => Some ([], off)
           | Some e => '(es, off) ← var_entries refs sd count off data; Some (e :: es, off)
           end
  end.

(** [int(m.ref)] of an unsigned field that is not a pointer. *)
Definition count_of (m : message) (ref : string) : option Z :=
  match m !! ref with
  | None => Some 0
  | Some (One (VInt z)) => Some (i64 z)
  | _ => None
  end.

(** A step of the cursor: on to the next field, or [return m, nil]. *)
Inductive flow := Next (m : message) (off : Z) | Return (m : message).

Definition struct_named (sds : list StructDef) (name : string) : option StructDef :=
  List.find (fun sd => bool_decide (sd_Name sd = name)) sds.

(** The size and alignment of a field of the entries' struct type on a 64-bit
    machine; enumerations are [uint8]. *)
Definition entry_field_size (refs : gset string) (f : FieldDef) : Z * Z :=
  if bool_decide (fd_Type f = TypeStringLAU) then (16, 8)
  else if isNullable f refs then (8, 8)
  else match goFieldType f with
       | TInteger (GoUint w) | TInteger (GoInt w) | TFloatName w => (w / 8, w / 8)
       | TEnumName _ => (1, 1)
       | TStringName => (16, 8)
       end.

Definition align_up (n align : Z) : Z := (n + align - 1) / align * align.

(** The size of the struct type the generator declares for the entries. *)
Definition entry_size (sd : StructDef) : Z :=
  let refs := referencedFields (sd_Fields sd) in
  let '(size, align) := foldl (fun '(size, align) f =>
      if IsSkipped f then (size, align)
      else let '(n, a) := entry_field_size refs f in (align_up size a + n, Z.max align a)) (0, 1) (sd_Fields sd) in
  align_up size align.

(** Whether [make] of a slice of [cap] elements does not panic: the runtime
    refuses negative sizes and more than its address space. *)
Definition make_ok (size cap : Z) : bool := (0 <=? cap) && (size * cap <=? 2 ^ 48).

Definition decode_structs (sds : list StructDef) (refs : gset string) (data : list Z) (m : message) (off : Z) (f : FieldDef)
    : option flow :=
  sd ← struct_named sds (fd_StructRef f);
  count ← count_of m (fd_RepeatRef f);
  if Struct_HasVariableWidth sd then
    if negb (make_ok (entry_size sd) count) then None
    else '(es, off) ← var_entries refs sd (Z.to_nat count) off data; Some (Next (<[fd_Name f := Entries es]> m) off)
  else if FixedEntryBytes sd =? 0 then None
  else
    let avail := Z.quot (Z.of_nat (length data) - off) (FixedEntryBytes sd) in
    let count := if count >? avail then avail else count in
    if negb (make_ok (entry_size sd) count) then None
    else '(es, off) ← fixed_entries refs sd (Z.to_nat count) off data; Some (Next (<[fd_Name f := Entries es]> m) off).

Definition decode_bytes (table : field_table) (data : list Z) (m : message) (off : Z) (f : FieldDef) : option flow :=
  if bool_decide (fd_PGNRef f = EmptyString) then
    if off <? Z.of_nat (length data) then Some (Next (<[fd_Name f := Hex (drop (Z.to_nat off) data)]> m) off)
    else Some (Next m off)
  else
    pgn ← count_of m (fd_PGNRef f);
    count ← count_of m (fd_CountRef f);
    rest ← slice_of off (Z.of_nat (length data)) data;
    Some (Next (<[fd_Name f := Pairs (decodeParamPairs table (wrap 32 pgn) count rest)]> m) off).

(** A field of the tail. *)
Definition tail_field (table : field_table) (sds : list StructDef) (refs : gset string) (data : list Z) (m : message) (off : Z)
    (f : FieldDef) : option flow :=
  match fd_Type f with
  | TypeReserved | TypeUnknown =>
      let n := fd_Bits f / 8 in
      if 0 <? n then
        if Z.of_nat (length data) <? off + n then Some (Return m) else Some (Next m (off + n))
      else Some (Next m off)
  | TypeStringLAU =>
      rest ← slice_of off (Z.of_nat (length data)) data;
      let '(s, n) := decodeLAU rest in
      if n =? 0 then Some (Return m) else Some (Next (<[fd_Name f := One (VStr s)]> m) (off + n))
  | TypeStruct => decode_structs sds refs data m off f
  | TypeBytes => decode_bytes table data m off f
  | _ => v ← exec_decode 0 data (writeDecodeField f refs); Some (Next (<[fd_Name f := One v]> m) off)
  end.

Fixpoint decode_tail (table : field_table) (sds : list StructDef) (refs : gset string) (data : list Z) (fs : list FieldDef)
    (m : message) (off : Z) : option message :=
  match fs with
  | [] => Some m
  | f :: fs =>
      r ← tail_field table sds refs data m off f;
      match r with Next m off => decode_tail table sds refs data fs m off | Return m => Some m end
  end.

(** The fields of the static prefix, a repeated one as if it were not. *)
Fixpoint decode_prefix (refs : gset string) (data : list Z) (fs : list FieldDef) (m : message) : option message :=
  match fs with
  | [] => Some m
  | f :: fs =>
      if IsSkipped f then decode_prefix refs data fs m
      else v ← exec_decode 0 data (writeDecodeField f refs); decode_prefix refs data fs (<[fd_Name f := One v]> m)
  end.

(** [Decode] of [writeVariableWidthVariant]. *)
Definition DecodeVar (table : field_table) (sds : list StructDef) (p : PGNDef) (data : list Z) : option (result string message) :=
  let fs := pgn_fields p in
  let refs := referencedFields fs in
  if Z.of_nat (length data) <? static_bytes fs then
    Some (Err ("pgn " ++ FormatInt (pd_PGN p) ++ ": need at least " ++ FormatInt (static_bytes fs) ++ " bytes, got "
               ++ FormatInt (Z.of_nat (length data)))%string)
  else
    m ← decode_prefix refs data (split_static fs).1 ∅;
    m ← decode_tail table sds refs data (split_static fs).2 m (static_bytes fs);
    Some (Ok m).

(** * Dispatch and registry *)

(** What a decoder of the registry gives: a message of a variant, or nothing. *)
Definition decoded : Type := option (PGNDef * message).

Section registry.
Context (table : field_table) (sds : list StructDef).

(** The decoder of one variant. *)
Definition decode_variant (p : PGNDef) (data : list Z) : option (result string decoded) :=
  if PGN_HasVariableWidth p then
    r ← DecodeVar table sds p data;
    Some (match r with Ok m => Ok (Some (p, m)) | Err e => Err e end)
  else m ← Decode (pgn_fields p) data; Some (Ok (Some (p, m))).

Definition needsDispatch (ps : list PGNDef) : bool := (2 <=? length ps)%nat || existsb hasMatchValues ps.

(** The field read to choose: that of the first variant with one. *)
Definition dispatch_field (ps : list PGNDef) : FieldDef :=
  default (plain_field "" TypeUint 0) (head (omap discriminatorField ps)).

Definition default_variant (ps : list PGNDef) : option PGNDef := List.find (fun p => negb (hasMatchValues p)) ps.

(** [switch uint64(disc)] *)
Definition choose (ps : list PGNDef) (disc : Z) : option PGNDef :=
  match List.find (fun p => bool_decide (match_value p = Some disc)) ps with
  | Some p => Some p
  | None => default_variant ps
  end.

(** The function [writeDispatchFunc] writes for the variants of a number. *)
Definition dispatch (pgn : Z) (ps : list PGNDef) (data : list Z) : option (result string decoded) :=
  let disc := dispatch_field ps in
  if Z.of_nat (length data) <? fieldReadEnd disc then
    Some (Err ("PGN " ++ FormatInt pgn ++ ": need at least " ++ FormatInt (fieldReadEnd disc) ++ " bytes, got "
               ++ FormatInt (Z.of_nat (length data)))%string)
  else
    v ← eval_read 0 data (readBitsExpr (fd_BitStart disc / 8) (fd_BitStart disc mod 8) (fd_Bits disc) false);
    match choose ps (convert (uintGoType (fd_Bits disc)) v) with
    | Some p => decode_variant p data
    | None => Some (Ok None)
    end.

(** [Registry[pgn].Decode]; [None] for a number that is not there or has no
    decoder. *)
Definition registry_decode (ps : list PGNDef) (pgn : Z) : option (list Z -> option (result string decoded)) :=
  match variants pgn ps with
  | [] => None
  | p :: _ => Some (if needsDispatch (variants pgn ps) then dispatch pgn (variants pgn ps) else decode_variant p)
  end.

End registry.

(** The cases of the switch are constants of type [uint64], each once. *)
Definition dispatch_compiles (ps : list PGNDef) : Prop :=
  NoDup (omap match_value ps) /\ Forall (fun v => 0 <= v < 2 ^ 64) (omap match_value ps).

(** ** Metadata *)

Record PGNInfo := mkPGNInfo {
  pi_PGN : Z;
  pi_Description : string;
  pi_FastPacket : bool;
  pi_Interval : duration;
  pi_OnDemand : bool;
  pi_Draft : bool;
  pi_Tolerances : list (string * float64)
}.

Section metadata.
Context `{U : Unicode}.

(** [pgnMetaFields]; the interval is cut to milliseconds. *)
Definition pgnMetaFields (pgn : Z) (desc : string) (p : PGNDef) : PGNInfo :=
  mkPGNInfo pgn desc (pd_FastPacket p)
    (if pd_Interval p >? 0 then Z.quot (pd_Interval p) millisecond * millisecond else 0) (pd_OnDemand p) (pd_Draft p)
    (omap (fun f => (fun t => (toSnake (fd_Name f), t)) <$> fd_Tolerance f) (pgn_fields p)).

(** The name-only definition of a number: the last one. *)
Definition name_only (pgn : Z) (ps : list PGNDef) : option PGNDef :=
  List.find (fun p => IsNameOnly p && (pd_PGN p =? pgn)) (rev ps).

(** The entry of a number: its metadata, the description of the default variant,
    of the name-only definition or of the first variant. *)
Definition registry_info (ps : list PGNDef) (pgn : Z) : option PGNInfo :=
  match variants pgn ps with
  | [] => (fun p => pgnMetaFields pgn (pd_Description p) p) <$> name_only pgn ps
  | p :: _ =>
      let vs := variants pgn ps in
      if negb (needsDispatch vs) then Some (pgnMetaFields pgn (pd_Description p) p)
      else
        let desc := match default_variant vs, name_only pgn ps with
                    | Some d, _ => pd_Description d
                    | None, Some n => pd_Description n
                    | None, None => pd_Description p
                    end in
        Some (pgnMetaFields pgn desc p)
  end.
End metadata.
