(* ===== verification/PgnRoundTrip.v ===== *)
(** The codecs of fixed-width PGNs: their statements stay inside the buffer the
    generator allocates, what [Encode] writes [Decode] reads back, and a variant
    is dispatched to its own decoder.  [static_field], [codable] and [field_carried] say
    for which definitions and values; lemmas of [PgnVariable] show what happens to
    others. *)

From S2P Require Import Prelude GoNum PgnSchema PgnBits PgnCodec.

(** * Room for every access *)

(** The index after the bytes of a field of [bits] bits from bit [s]. *)
Definition access_end (s bits : Z) : Z := s / 8 + access_width (s mod 8) bits / 8.

Lemma access_end_words s bits : access_end s bits =
  s / 8 + (if s mod 8 + bits <=? 8 then 1 else if s mod 8 + bits <=? 16 then 2 else if s mod 8 + bits <=? 32 then 4 else 8).
Proof.
  unfold access_end, access_width. destruct (Z.eqb_spec (s mod 8) 0) as [->|]; cbn [andb]; [|now repeat case_step].
  destruct (standard_width bits) eqn:E; [|now repeat case_step].
  apply standard_width_word in E as [->|[->|[->| ->]]]; reflexivity.
Qed.

(** The elements of a repeated field end later and later. *)
Lemma access_end_step s bits : 0 <= s -> 0 <= bits -> access_end s bits <= access_end (s + bits) bits.
Proof.
  intros Hs Hb. rewrite !access_end_words.
  pose proof (Z.div_mod s 8 ltac:(lia)). pose proof (Z.mod_pos_bound s 8 ltac:(lia)).
  pose proof (Z.div_mod (s + bits) 8 ltac:(lia)). pose proof (Z.mod_pos_bound (s + bits) 8 ltac:(lia)).
  repeat case_step; to_props; lia.
Qed.

Lemma access_end_mono s bits i n : 0 <= s -> 0 <= bits -> 0 <= i -> i <= n ->
  access_end (s + i * bits) bits <= access_end (s + n * bits) bits.
Proof.
  intros Hs Hb Hi Hn. replace n with (i + Z.of_nat (Z.to_nat (n - i))) by lia.
  induction (Z.to_nat (n - i)) as [|k IH]; [rewrite Z.add_0_r; lia|].
  etransitivity; [exact IH|]. replace (s + (i + Z.of_nat (S k)) * bits) with (s + (i + Z.of_nat k) * bits + bits) by lia.
  apply access_end_step; nia.
Qed.

(** The types read and written as integers. *)
Definition integer_access (f : FieldDef) : Prop :=
  fd_Type f <> TypeString /\ (fd_Type f = TypeFloat -> fd_Bits f <> 32 /\ fd_Bits f <> 64).

Lemma fieldReadEnd_integer f : integer_access f -> 0 <= fd_BitStart f -> fieldReadEnd f = access_end (fd_BitStart f) (fd_Bits f).
Proof.
  intros [H1 H2] Hs. unfold fieldReadEnd, access_end, access_width. rewrite Z.quot_div_nonneg, Z.rem_mod_nonneg by lia.
  assert (E : forall w, (w = 32 \/ w = 64) -> bool_decide (fd_Type f = TypeFloat) && (fd_Bits f =? w) = false).
  { intros w Hw. destruct (bool_decide_reflect (fd_Type f = TypeFloat)) as [Ht|]; [|done]. cbn [andb].
    apply Z.eqb_neq. destruct (H2 Ht). destruct Hw; congruence. }
  destruct (fd_Type f) eqn:Et; try done; rewrite !E by auto; repeat case_step; done.
Qed.

(** The field whose end counts for the buffer. *)
Definition last_access (f : FieldDef) : FieldDef := if IsRepeated f then element f (i64 (fd_RepeatCount f - 1)) else f.

Lemma buffer_grows fs : forall n, n <= foldl (fun n f => Z.max n (fieldReadEnd (last_access f))) n fs.
Proof. induction fs as [|f fs IH]; intros n; cbn [foldl]; [lia|]. etransitivity; [|apply IH]. lia. Qed.

Lemma minBufferBytes_nonneg fs : 0 <= minBufferBytes fs.
Proof. apply (buffer_grows fs 0). Qed.

Lemma minBufferBytes_bound fs f : f ∈ fs -> fieldReadEnd (last_access f) <= minBufferBytes fs.
Proof.
  change (minBufferBytes fs) with (foldl (fun n f => Z.max n (fieldReadEnd (last_access f))) 0 fs). generalize 0.
  induction fs as [|g fs IH]; intros n; [now intros ?%elem_of_nil|]. intros [->|Hf]%elem_of_cons; cbn [foldl].
  - etransitivity; [|apply buffer_grows]. lia.
  - now apply IH.
Qed.

(** ** Statements that are within the payload *)

Lemma load_defined w off data : 0 <= off -> off + w / 8 <= Z.of_nat (length data) -> is_Some (load w off data).
Proof. intros H1 H2. unfold load. rewrite (proj2 (Z.leb_le _ _) H1), (proj2 (Z.leb_le _ _) H2). by eexists. Qed.

Lemma readBitsExpr_defined base s bits signed data : 0 <= base + s / 8 ->
  base + access_end s bits <= Z.of_nat (length data) ->
  is_Some (eval_read base data (readBitsExpr (s / 8) (s mod 8) bits signed)).
Proof.
  intros Hb He. unfold access_end in He.
  assert (Hl : is_Some (load (access_width (s mod 8) bits) (base + s / 8) data)) by (apply load_defined; lia).
  clear He. unfold access_width in Hl. unfold readBitsExpr, signExtendExpr.
  repeat case_step; cbn [eval_read]; destruct Hl as [v ->]; by eexists.
Qed.

Lemma store_defined w off v data : word_width w -> 0 <= off -> off + w / 8 <= Z.of_nat (length data) ->
  exists data', store w off v data = Some data' /\ length data' = length data.
Proof.
  intros Hw Ho Hl. destruct (word_bytes w Hw). unfold store.
  rewrite (proj2 (Z.leb_le 0 _)), (proj2 (Z.leb_le _ _) Hl) by lia. eexists. split; [done|].
  rewrite !length_app, length_take, length_le_bytes, length_drop. lia.
Qed.

Lemma writeBitsStmt_defined s bits raw data : 0 <= s -> access_end s bits <= Z.of_nat (length data) ->
  exists data', exec_write (writeBitsStmt (s / 8) (s mod 8) bits) raw data = Some data' /\ length data' = length data.
Proof.
  intros Hs He. pose proof (Z.div_pos s 8 Hs ltac:(lia)). unfold access_end in He.
  assert (Hw : word_width (access_width (s mod 8) bits)) by apply access_width_word.
  assert (Hst' : forall v, _) by exact (fun v => store_defined _ _ v data Hw (Z.div_pos s 8 Hs ltac:(lia)) He).
  assert (Hx : is_Some (load (access_width (s mod 8) bits) (s / 8) data)) by (apply load_defined; lia). destruct Hx as [x Hx].
  clear He Hw. unfold access_width in *. unfold writeBitsStmt.
  repeat case_step; cbn [exec_write]; rewrite ?Hx; cbn [mbind option_bind]; apply Hst'.
Qed.

(** The result of an expression over one read is defined when the read is. *)
Lemma wrap_cast_defined base data f raw : is_Some (eval_read base data raw) ->
  is_Some (eval_dexpr base data 0 (maybeWrapCast f raw)).
Proof.
  intros [z Hz]. unfold maybeWrapCast, scaled.
  destruct (HasScaling f); [cbn; rewrite Hz; by eexists|]. destruct (bool_decide _); [cbn; rewrite Hz; by eexists|].
  destruct (goFieldType f); cbn; rewrite Hz; by eexists.
Qed.

Lemma decode_integer_defined base s f refs data : 0 <= base + s / 8 -> base + access_end s (fd_Bits f) <= Z.of_nat (length data) ->
  is_Some (exec_decode base data (decode_integer (s / 8) (s mod 8) f refs)).
Proof.
  intros Hb He. unfold decode_integer. destruct (isNullable f refs).
  - destruct (readBitsExpr_defined base s (fd_Bits f) false data Hb He) as [z Hz].
    assert (Hd : forall ss v e, is_Some (eval_dexpr base data z e) ->
      is_Some (exec_decode base data (DNullable (readBitsExpr (s / 8) (s mod 8) (fd_Bits f) false) ss v e))).
    { intros ss v e H. cbn [exec_decode]. rewrite Hz. cbn [mbind option_bind]. destruct (existsb _ _); [by eexists|done]. }
    destruct (bool_decide _); [apply Hd; by eexists|]. destruct (HasScaling f) eqn:Es.
    + apply Hd. unfold scaled. destruct (fd_Signed f); by eexists.
    + apply Hd. destruct (fd_Signed f), (goFieldType f); by eexists.
  - cbn [exec_decode]. apply wrap_cast_defined. now apply readBitsExpr_defined.
Qed.

Lemma slice_of_defined lo n data : 0 <= lo -> 0 <= n -> lo + n <= Z.of_nat (length data) -> is_Some (slice_of lo (lo + n) data).
Proof.
  intros H1 H2 H3. unfold slice_of. rewrite (proj2 (Z.leb_le 0 lo)), (proj2 (Z.leb_le lo _)), (proj2 (Z.leb_le (lo + n) _)) by lia. by eexists.
Qed.

(** A field the generator can place in a fixed buffer. *)
Record static_field (f : FieldDef) : Prop := {
  sf_start : 0 <= fd_BitStart f;
  sf_bits : 0 <= fd_Bits f;
  sf_repeat : IsRepeated f = true -> integer_access f;
  sf_fits : IsRepeated f = true -> fd_RepeatCount f < 2 ^ 63 /\ fd_BitStart f + fd_Bits f * fd_RepeatCount f < 2 ^ 63
}.

(** The elements of such a field start where they should. *)
Lemma element_start_small f i : 0 <= fd_BitStart f -> 0 <= fd_Bits f -> 0 <= i <= fd_RepeatCount f ->
  fd_BitStart f + fd_Bits f * fd_RepeatCount f < 2 ^ 63 ->
  element_start f i = fd_BitStart f + i * fd_Bits f /\ 0 <= fd_BitStart f + i * fd_Bits f.
Proof. intros. unfold element_start. rewrite (i64_small (i * _)), i64_small by nia. nia. Qed.

Lemma last_index f : IsRepeated f = true -> fd_RepeatCount f < 2 ^ 63 ->
  i64 (fd_RepeatCount f - 1) = fd_RepeatCount f - 1 /\ 1 <= fd_RepeatCount f.
Proof. unfold IsRepeated. rewrite Z.gtb_ltb. intros H%Z.ltb_lt Hl. rewrite i64_small by lia. lia. Qed.

(** The cases of the statements: a string, a stored float, or an integer. *)
Lemma field_cases f :
  (fd_Type f = TypeString) \/
  (exists w, (w = 32 \/ w = 64) /\ fd_Type f = TypeFloat /\ fd_Bits f = w) \/
  (integer_access f).
Proof.
  unfold integer_access. destruct (decide (fd_Type f = TypeString)); [by left|right].
  destruct (decide (fd_Type f = TypeFloat)); [|right; done].
  destruct (decide (fd_Bits f = 32)); [left; exists 32; auto|]. destruct (decide (fd_Bits f = 64)); [left; exists 64; auto|].
  right. done.
Qed.

Lemma writeDecodeField_cases f refs :
  (fd_Type f = TypeString -> writeDecodeField f refs = DStr (fd_BitStart f / 8) (fd_Bits f / 8) (fd_Trim f)) /\
  (forall w, w = 32 \/ w = 64 -> fd_Type f = TypeFloat -> fd_Bits f = w -> writeDecodeField f refs = DFloat w (fd_BitStart f / 8)) /\
  (integer_access f -> writeDecodeField f refs = decode_integer (fd_BitStart f / 8) (fd_BitStart f mod 8) f refs).
Proof.
  unfold writeDecodeField. split; [|split].
  - intros E. now rewrite bool_decide_true.
  - intros w Hw Ht Hb. rewrite Ht, Hb. destruct Hw as [->| ->]; reflexivity.
  - intros [H1 H2]. rewrite bool_decide_false by done. destruct (bool_decide_reflect (fd_Type f = TypeFloat)) as [Ht|]; [|done].
    destruct (H2 Ht). cbn [andb]. now rewrite !(proj2 (Z.eqb_neq _ _)).
Qed.

Lemma writeEncodeField_cases f refs :
  (fd_Type f = TypeString -> writeEncodeField f refs = EStr (fd_BitStart f / 8) (fd_Bits f / 8)) /\
  (forall w, w = 32 \/ w = 64 -> fd_Type f = TypeFloat -> fd_Bits f = w -> writeEncodeField f refs = EFloat w (fd_BitStart f / 8)) /\
  (integer_access f -> writeEncodeField f refs = EBits (isNullable f refs) (field_write f)
    (if isNullable f refs && bool_decide (fd_Type f = TypeEnum) then EUint else encodeRawExpr f)).
Proof.
  unfold writeEncodeField. split; [|split].
  - intros E. now rewrite bool_decide_true.
  - intros w Hw Ht Hb. rewrite Ht, Hb. destruct Hw as [->| ->]; reflexivity.
  - intros [H1 H2]. rewrite bool_decide_false by done. destruct (bool_decide_reflect (fd_Type f = TypeFloat)) as [Ht|].
    + destruct (H2 Ht). cbn [andb]. rewrite !(proj2 (Z.eqb_neq _ _)) by done. now destruct (isNullable f refs).
    + cbn [andb]. now destruct (isNullable f refs).
Qed.

Lemma fieldReadEnd_cases f : 0 <= fd_BitStart f -> 0 <= fd_Bits f ->
  (fd_Type f = TypeString -> fieldReadEnd f = fd_BitStart f / 8 + fd_Bits f / 8) /\
  (forall w, w = 32 \/ w = 64 -> fd_Type f = TypeFloat -> fd_Bits f = w -> fieldReadEnd f = fd_BitStart f / 8 + w / 8).
Proof.
  intros Hs Hn. unfold fieldReadEnd. rewrite !Z.quot_div_nonneg by lia. split; [now intros ->|].
  intros w Hw Ht Hb. rewrite Ht, Hb. now destruct Hw as [->| ->].
Qed.

Lemma decode_stmt_defined f refs data : 0 <= fd_BitStart f -> 0 <= fd_Bits f -> fieldReadEnd f <= Z.of_nat (length data) ->
  is_Some (exec_decode 0 data (writeDecodeField f refs)).
Proof.
  intros Hs Hb He. pose proof (Z.div_pos _ 8 Hs ltac:(lia)). pose proof (Z.div_pos _ 8 Hb ltac:(lia)).
  destruct (writeDecodeField_cases f refs) as (C1 & C2 & C3), (fieldReadEnd_cases f Hs Hb) as (E1 & E2).
  destruct (field_cases f) as [Ht|[(w & Hw & Ht & Hbw)|Hi]].
  - rewrite C1 by done. rewrite E1 in He by done. cbn [exec_decode].
    destruct (slice_of_defined (fd_BitStart f / 8) (fd_Bits f / 8) data) as [bs ->]; try lia. by eexists.
  - rewrite (C2 w) by done. rewrite (E2 w) in He by done. cbn [exec_decode].
    destruct (load_defined w (fd_BitStart f / 8) data) as [z ->]; try lia. by eexists.
  - rewrite C3 by done. rewrite fieldReadEnd_integer in He by done. apply decode_integer_defined; lia.
Qed.

(** Where the elements of a repeated field are, and that they are inside what is
    checked for the last one. *)
Lemma element_end f n : static_field f -> IsRepeated f = true ->
  fieldReadEnd (element f (i64 (fd_RepeatCount f - 1))) <= n ->
  forall i, i ∈ indices (fd_RepeatCount f) -> element_start f i = fd_BitStart f + i * fd_Bits f /\
    0 <= fd_BitStart f + i * fd_Bits f /\ access_end (fd_BitStart f + i * fd_Bits f) (fd_Bits f) <= n.
Proof.
  intros [Hs Hb Hr Hf] Hrep He i Hi. apply elem_of_seqZ in Hi. destruct (Hf Hrep) as [Hc He0].
  destruct (last_index f Hrep Hc) as [Hl H1]. rewrite Hl in He.
  destruct (element_start_small f i Hs Hb ltac:(lia) He0) as [E E0].
  destruct (element_start_small f (fd_RepeatCount f - 1) Hs Hb ltac:(lia) He0) as [El El0].
  split; [done|]. split; [done|]. etransitivity; [|exact He].
  rewrite fieldReadEnd_integer; [|now apply Hr|cbn; now rewrite El]. cbn [element fd_BitStart fd_Bits set_BitStart]. rewrite El.
  apply (access_end_mono (fd_BitStart f) (fd_Bits f) i (fd_RepeatCount f - 1)); lia.
Qed.

(** The statements of such an element, with its place written out. *)
Lemma element_statements f i s : element_start f i = s -> 0 <= s ->
  element_read f i = readBitsExpr (s / 8) (s mod 8) (fd_Bits f) (fd_Signed f) /\
  element_write f i = writeBitsStmt (s / 8) (s mod 8) (fd_Bits f).
Proof. intros E Hs. unfold element_read, element_write. rewrite E, Z.quot_div_nonneg, Z.rem_mod_nonneg by lia. done. Qed.

Lemma decode_repeated_defined f data : static_field f -> IsRepeated f = true ->
  fieldReadEnd (element f (i64 (fd_RepeatCount f - 1))) <= Z.of_nat (length data) -> is_Some (decode_repeated f data).
Proof.
  intros Hf Hrep He. unfold decode_repeated.
  assert (Hm : is_Some (mapM (fun i => eval_dexpr 0 data 0 (maybeWrapCast f (element_read f i))) (indices (fd_RepeatCount f)))).
  { apply mapM_is_Some_2, Forall_forall. intros i Hi. apply wrap_cast_defined.
    destruct (element_end f _ Hf Hrep He i Hi) as (E & Hs & Hend). destruct (element_statements f i _ E Hs) as [-> _].
    apply readBitsExpr_defined; [|lia]. rewrite Z.add_0_l. apply Z.div_pos; lia. }
  destruct Hm as [vs ->]. by eexists.
Qed.

(** ** Values of the types of the fields *)

(** A value of the field's type, or of the elements' type of a repeated field. *)
Definition typed (f : FieldDef) (nullable : bool) (v : fval) : Prop :=
  match v with
  | VNil => integer_access f /\ nullable = true
  | VStr _ => fd_Type f = TypeString
  | VBits _ => fd_Type f = TypeFloat /\ (fd_Bits f = 32 \/ fd_Bits f = 64)
  | VInt _ => integer_access f /\ HasScaling f = false /\ fd_Type f <> TypeFloat
  | VFloat _ => integer_access f /\ (HasScaling f = true \/ fd_Type f = TypeFloat)
  end.

Definition message_typed (refs : gset string) (m : message) (f : FieldDef) : Prop :=
  IsSkipped f = false ->
  if IsRepeated f then forall i v, repeated_element f m i = Some v -> typed f false v /\ v <> VNil
  else fd_MatchValue f = None -> typed f (isNullable f refs) (field_of refs m f).

Section encoding.
Context `{P : Platform}.

Lemma typed_numeric f nullable v : integer_access f -> typed f nullable v ->
  (v = VNil /\ nullable = true) \/ (exists z, v = VInt z /\ HasScaling f = false) \/ (exists x, v = VFloat x).
Proof.
  intros [Hi1 Hi2] Ht. destruct v; cbn [typed] in Ht; [right; left|right; right| | |left].
  - exists z. now destruct Ht as (_ & ? & _).
  - by eexists.
  - destruct Ht as [Hty [Hb|Hb]]; destruct (Hi2 Hty); done.
  - done.
  - now destruct Ht.
Qed.

Lemma eval_enc_defined f nullable v : integer_access f -> typed f nullable v -> v <> VNil ->
  is_Some (eval_enc (encodeRawExpr f) v).
Proof.
  intros Hi Ht Hn. unfold encodeRawExpr.
  destruct (typed_numeric f nullable v Hi Ht) as [[? _]|[(z & -> & ->)|[x ->]]]; [done|by eexists|destruct (HasScaling f); by eexists].
Qed.

Lemma encode_stmt_defined f refs v data : static_field f -> typed f (isNullable f refs) v -> fieldReadEnd f <= Z.of_nat (length data) ->
  exists data', exec_encode (writeEncodeField f refs) v data = Some data' /\ length data' = length data.
Proof.
  intros [Hs Hb _ _] Ht He. pose proof (Z.div_pos _ 8 Hs ltac:(lia)). pose proof (Z.div_pos _ 8 Hb ltac:(lia)).
  destruct (writeEncodeField_cases f refs) as (C1 & C2 & C3), (fieldReadEnd_cases f Hs Hb) as (E1 & E2).
  destruct (field_cases f) as [Hty|[(w & Hw & Hty & Hbw)|Hi]].
  - rewrite C1 by done. rewrite E1 in He by done. destruct v; cbn [typed] in Ht; unfold integer_access in Ht; try (exfalso; intuition congruence).
    destruct (slice_of_defined (fd_BitStart f / 8) (fd_Bits f / 8) data) as [old Ho]; try lia. cbn [exec_encode]. rewrite Ho.
    eexists. split; [reflexivity|]. unfold encodeFixedStr. rewrite !length_app, !length_take, length_replicate, length_drop. lia.
  - rewrite (C2 w) by done. rewrite (E2 w) in He by done.
    destruct v; cbn [typed] in Ht; unfold integer_access in Ht; try (exfalso; intuition congruence).
    apply store_defined; [|lia..].
    unfold word_width. destruct Hw; auto.
  - rewrite C3 by done. rewrite fieldReadEnd_integer in He by done.
    destruct (typed_numeric f _ v Hi Ht) as [[-> ->]|Hn].
    + cbn [exec_encode]. by eexists.
    + assert (He' : is_Some (eval_enc (if isNullable f refs && bool_decide (fd_Type f = TypeEnum) then EUint else encodeRawExpr f) v)).
      { destruct (_ && _); [|apply eval_enc_defined with (isNullable f refs)]; destruct Hn as [(z & -> & _)|[x ->]]; done || by eexists. }
      destruct He' as [raw Hraw].
      destruct (writeBitsStmt_defined (fd_BitStart f) (fd_Bits f) raw data Hs He) as (data' & Hd & Hl). exists data'.
      split; [|done]. rewrite <- Hd. unfold exec_encode, field_write. destruct Hn as [(z & -> & _)|[x ->]]; destruct (isNullable f refs); now rewrite Hraw.
Qed.

Lemma constrained_defined f val v data : 0 <= fd_BitStart f -> access_end (fd_BitStart f) (fd_Bits f) <= Z.of_nat (length data) ->
  exists data', exec_encode (writeEncodeConstrained f val) v data = Some data' /\ length data' = length data.
Proof.
  intros Hs He. destruct (writeBitsStmt_defined (fd_BitStart f) (fd_Bits f) (u64 val) data Hs He) as (data' & Hd & Hl).
  exists data'. split; [|done]. now destruct v.
Qed.

Lemma encode_repeated_defined f m data js : static_field f -> IsRepeated f = true ->
  fieldReadEnd (element f (i64 (fd_RepeatCount f - 1))) <= Z.of_nat (length data) ->
  (forall i v, repeated_element f m i = Some v -> typed f false v /\ v <> VNil) ->
  (forall i, i ∈ js -> i ∈ indices (fd_RepeatCount f)) ->
  exists data', encode_repeated f m js data = Some data' /\ length data' = length data.
Proof.
  intros Hf Hrep He Ht. revert data He. induction js as [|i js IH]; intros data He Hj; [by exists data|]. cbn [encode_repeated].
  assert (Hw : exists data', write_element f (repeated_element f m i) i data = Some data' /\ length data' = length data).
  { unfold write_element. destruct (repeated_element f m i) as [v|] eqn:Ev; [|by exists data]. destruct (Ht i v Ev) as [Htv Hn].
    destruct (eval_enc_defined f false v (sf_repeat f Hf Hrep) Htv Hn) as [raw ->].
    destruct (element_end f _ Hf Hrep He i (Hj i (list_elem_of_here _ _))) as (E & Hs & Hend).
    destruct (element_statements f i _ E Hs) as [_ ->]. now apply writeBitsStmt_defined. }
  destruct Hw as (data1 & -> & Hl1). cbn [mbind option_bind]. destruct (IH data1) as (data' & -> & Hl).
  - now rewrite Hl1.
  - intros k Hk. apply Hj. now right.
  - exists data'. split; [done|]. congruence.
Qed.

(** A constrained field is an integer. *)
Definition encodable_field (f : FieldDef) : Prop := fd_MatchValue f <> None -> IsRepeated f = false -> integer_access f.

Lemma encode_field_defined refs m data f : static_field f -> encodable_field f -> message_typed refs m f ->
  fieldReadEnd (last_access f) <= Z.of_nat (length data) ->
  exists data', encode_field refs m data f = Some data' /\ length data' = length data.
Proof.
  intros Hf Hc Ht He. unfold encode_field, message_typed, encodable_field, last_access in *. destruct (IsSkipped f); [by exists data|]. specialize (Ht eq_refl).
  destruct (IsRepeated f) eqn:Hrep; [now apply encode_repeated_defined|].
  destruct (fd_MatchValue f) as [val|]; [|now apply encode_stmt_defined; [..|apply Ht|]].
  apply constrained_defined; [apply Hf|]. rewrite <- fieldReadEnd_integer; [done|now apply Hc|apply Hf].
Qed.

Lemma encode_fields_defined refs m fs : forall data,
  (forall f, f ∈ fs -> static_field f /\ encodable_field f /\ message_typed refs m f /\
     fieldReadEnd (last_access f) <= Z.of_nat (length data)) ->
  exists data', encode_fields refs m fs data = Some data' /\ length data' = length data.
Proof.
  induction fs as [|f fs IH]; intros data H; [by exists data|]. cbn [encode_fields].
  destruct (H f (list_elem_of_here _ _)) as (H1 & H2 & H3 & H4). destruct (encode_field_defined refs m data f H1 H2 H3 H4) as (data1 & -> & Hl1).
  cbn [mbind option_bind]. destruct (IH data1) as (data' & E & Hl); [|exists data'; rewrite <- Hl1; done].
  intros g Hg. rewrite Hl1. apply H. now right.
Qed.
End encoding.

Lemma decode_fields_defined refs data fs : forall m,
  (forall f, f ∈ fs -> static_field f /\
     fieldReadEnd (last_access f) <= Z.of_nat (length data)) ->
  is_Some (decode_fields refs data fs m).
Proof.
  induction fs as [|f fs IH]; intros m H; [by eexists|]. cbn [decode_fields].
  destruct (H f (list_elem_of_here _ _)) as [Hf He].
  assert (Hd : is_Some (decode_field refs data m f)).
  { unfold decode_field, last_access in *. destruct (IsSkipped f); [by eexists|]. destruct (IsRepeated f) eqn:Hrep.
    - destruct (decode_repeated_defined f data Hf Hrep He) as [v ->]. by eexists.
    - destruct (decode_stmt_defined f refs data (sf_start f Hf) (sf_bits f Hf) He) as [v ->]. by eexists. }
  destruct Hd as [m' ->]. cbn [mbind option_bind]. apply IH. intros g Hg. apply H. now right.
Qed.

Lemma length_pad n data : 0 <= n -> Z.of_nat (length (pad n data)) = Z.max n (Z.of_nat (length data)).
Proof. intros Hn. unfold pad. rewrite length_app, length_replicate. lia. Qed.

(** The statements of [Decode] and of [Encode] are within the buffer. *)
Lemma decode_in_bounds fs : Forall static_field fs -> forall data, exists m, Decode fs data = Some m.
Proof.
  rewrite Forall_forall. intros Hf data. pose proof (minBufferBytes_nonneg fs) as Hn. apply decode_fields_defined.
  intros f Hin. split; [now apply Hf|]. rewrite length_pad by done. pose proof (minBufferBytes_bound fs f Hin). lia.
Qed.

Lemma encode_in_bounds `{P : Platform} fs m : Forall (fun f => static_field f /\ encodable_field f) fs ->
  Forall (message_typed (referencedFields fs) m) fs ->
  exists data, Encode fs m = Some data /\ Z.of_nat (length data) = minBufferBytes fs.
Proof.
  rewrite !Forall_forall. intros Hf Ht. pose proof (minBufferBytes_nonneg fs) as Hn. unfold Encode.
  destruct (encode_fields_defined (referencedFields fs) m fs (replicate (Z.to_nat (minBufferBytes fs)) 255)) as (data & E & Hl).
  - intros f Hin. destruct (Hf f Hin). split; [done|]. split; [done|]. split; [now apply Ht|].
    rewrite length_replicate, Z2Nat.id by done. now apply minBufferBytes_bound.
  - exists data. split; [done|]. rewrite Hl, length_replicate. lia.
Qed.

(** C14: The statements generated for a PGN of fixed width stay inside the
    buffer the generator computes for it, when no field has a negative width or
    offset, every repeated field is of a type read as an integer (two repeated
    strings of three bytes read past the buffer, see [repeated_string_out_of_range])
    and ends below bit 2^63, so that the generator's arithmetic does not wrap
    ([static_field]), and every constrained field is of such a type too. Then
    [Decode] of a payload of any length, which it pads to the buffer, indexes no
    byte out of range and gives a message; and [Encode] of every message whose
    values have the Go types of the fields gives a payload of exactly the size of
    the buffer. Whether the Go compiler accepts the statements is another matter
    ([wide_field_does_not_compile]). *)
Theorem codec_in_bounds `{P : Platform} fs :
  Forall (fun f => static_field f /\ encodable_field f) fs ->
  (forall data, exists m, Decode fs data = Some m) /\
  (forall m, Forall (message_typed (referencedFields fs) m) fs ->
     exists data, Encode fs m = Some data /\ Z.of_nat (length data) = minBufferBytes fs).
Proof.
  intros Hf. split; [|intros m; now apply encode_in_bounds].
  apply decode_in_bounds, (Forall_impl _ _ _ Hf). now intros f [? _].
Qed.

(** * What the statements read and write *)

(** An integer type with its sign. *)
Record integer_field (f : FieldDef) : Prop := {
  if_type : fd_Type f = TypeUint \/ fd_Type f = TypeInt \/ fd_Type f = TypeEnum;
  if_signed : fd_Signed f = bool_decide (fd_Type f = TypeInt)
}.

Definition sentinels (f : FieldDef) : list Z :=
  sentinel (fd_Bits f) (fd_Signed f) :: (if fd_Signed f then [sentinel (fd_Bits f) false] else []).

Definition is_sentinel (f : FieldDef) (r : Z) : bool := existsb (Z.eqb r) (sentinels f).

Definition apply_scale (f : FieldDef) (z : Z) : float64 :=
  let x := match nonzero (fd_Scale f) with Some s => float_mul (float_of_Z z) s | None => float_of_Z z end in
  match nonzero (fd_Offset f) with Some o => float_add x o | None => x end.

(** A field that is a pointer is not sign-extended from its own width. *)
Definition raw_int (f : FieldDef) (nullable : bool) (r : Z) : Z :=
  if fd_Signed f then to_int (if nullable then type_width (fd_Bits f) else fd_Bits f) r else r.

(** The value of a field whose bits are [r]. *)
Definition read_value (f : FieldDef) (nullable : bool) (r : Z) : fval :=
  if nullable && is_sentinel f r then VNil
  else if HasScaling f then VFloat (apply_scale f (raw_int f nullable r))
  else VInt (if bool_decide (fd_Type f = TypeEnum) then wrap 8 r else raw_int f nullable r).

Lemma type_width_cover bits : bits <= 64 -> bits <= type_width bits <= 64 /\ 1 <= type_width bits.
Proof. intros H. unfold type_width. repeat case_step; to_props; lia. Qed.

Lemma to_int_range w z : 1 <= w -> - 2 ^ (w - 1) <= to_int w z < 2 ^ (w - 1).
Proof.
  intros Hw. unfold to_int. assert (E : 2 ^ w = 2 * 2 ^ (w - 1)) by (rewrite <- Z.pow_succ_r by lia; f_equal; lia).
  pose proof (Z.mod_pos_bound (z + 2 ^ (w - 1)) (2 ^ w) ltac:(lia)). lia.
Qed.

Lemma to_int_id w z : 1 <= w -> - 2 ^ (w - 1) <= z < 2 ^ (w - 1) -> to_int w z = z.
Proof.
  intros Hw Hz. unfold to_int. assert (E : 2 ^ w = 2 * 2 ^ (w - 1)) by (rewrite <- Z.pow_succ_r by lia; f_equal; lia).
  rewrite Z.mod_small by lia. lia.
Qed.

Lemma to_int_idemp w z : 1 <= w -> to_int w (to_int w z) = to_int w z.
Proof. intros Hw. apply to_int_id; [done|]. now apply to_int_range. Qed.

Lemma to_int_mod w z : 1 <= w -> to_int w (z mod 2 ^ w) = to_int w z.
Proof. intros Hw. unfold to_int. now rewrite Z.add_mod_idemp_l by lia. Qed.

Lemma integer_cases f : integer_field f ->
  (fd_Type f = TypeUint /\ fd_Signed f = false) \/ (fd_Type f = TypeInt /\ fd_Signed f = true) \/
  (fd_Type f = TypeEnum /\ fd_Signed f = false).
Proof. intros [[E|[E|E]] Hs]; rewrite E in Hs; auto. Qed.

Section reading.
Context (f : FieldDef) (s : Z) (data : list Z).
Context (Hf : integer_field f) (Hin : in_word s (fd_Bits f)) (Hreach : access_end s (fd_Bits f) <= Z.of_nat (length data)) (Hok : bytes_ok data).

Let r := bits_at (le_val data) s (fd_Bits f).

Lemma raw_unsigned : eval_read 0 data (readBitsExpr (s / 8) (s mod 8) (fd_Bits f) false) = Some r.
Proof. rewrite readBitsExpr_unsigned by done. done. Qed.

Lemma raw_read : eval_read 0 data (readBitsExpr (s / 8) (s mod 8) (fd_Bits f) (fd_Signed f)) = Some (raw_int f false r).
Proof. unfold raw_int. destruct (fd_Signed f); [now rewrite readBitsExpr_signed by done|apply raw_unsigned]. Qed.

Lemma raw_range : 0 <= r < 2 ^ fd_Bits f /\ 2 ^ fd_Bits f <= 2 ^ type_width (fd_Bits f) /\ 1 <= fd_Bits f <= 64.
Proof.
  destruct Hin as (? & ? & ?). pose proof (Z.mod_pos_bound s 8 ltac:(lia)).
  destruct (type_width_cover (fd_Bits f)) as [[? ?] ?]; [lia|].
  split; [apply bits_at_range; lia|]. split; [apply Z.pow_le_mono_r; lia|lia].
Qed.

(** A field that is not a pointer. *)
Lemma wrap_cast_reads :
  eval_dexpr 0 data 0 (maybeWrapCast f (readBitsExpr (s / 8) (s mod 8) (fd_Bits f) (fd_Signed f))) = Some (read_value f false r).
Proof.
  unfold maybeWrapCast, read_value. cbn [andb]. destruct (HasScaling f) eqn:Es.
  { cbn [eval_dexpr scaled eval_int]. rewrite raw_read. cbn [mbind option_bind]. do 2 f_equal. }
  destruct (integer_cases f Hf) as [[E Hs]|[[E Hs]|[E Hs]]]; unfold goFieldType, rawType; rewrite Es, E.
  - rewrite bool_decide_true by now rewrite Hs. rewrite bool_decide_false by done. cbn [eval_dexpr eval_int]. now rewrite raw_read.
  - rewrite bool_decide_true by now rewrite Hs. rewrite bool_decide_false by done. cbn [eval_dexpr eval_int]. now rewrite raw_read.
  - rewrite bool_decide_false by done. rewrite bool_decide_true by done. cbn [eval_dexpr eval_int]. rewrite raw_read.
    unfold raw_int. now rewrite Hs.
Qed.

Lemma decode_integer_reads refs : (isNullable f refs = true -> fd_Type f = TypeEnum -> HasScaling f = false) ->
  exec_decode 0 data (decode_integer (s / 8) (s mod 8) f refs) = Some (read_value f (isNullable f refs) r).
Proof.
  unfold decode_integer. intros Hsc. destruct (isNullable f refs); [specialize (Hsc eq_refl)|exact wrap_cast_reads].
  pose proof raw_range as (Hr & Hw & Hb). destruct (type_width_cover (fd_Bits f)) as [_ Htw]; [lia|].
  assert (Hd : forall var e v, eval_dexpr 0 data r e = Some v ->
    exec_decode 0 data (DNullable (readBitsExpr (s / 8) (s mod 8) (fd_Bits f) false) (sentinels f) var e) =
    Some (if is_sentinel f r then VNil else v)).
  { intros var e v He. cbn [exec_decode]. rewrite raw_unsigned. cbn [mbind option_bind]. unfold is_sentinel. now destruct (existsb _ _). }
  fold (sentinels f). unfold read_value, raw_int. cbn [andb].
  assert (Hw8 : wrap (type_width (fd_Bits f)) r = r) by (apply wrap_small; lia).
  destruct (integer_cases f Hf) as [[E Hs]|[[E Hs]|[E Hs]]]; rewrite ?Hs.
  1,2: rewrite bool_decide_false by congruence; destruct (HasScaling f) eqn:Es; apply Hd; unfold goFieldType; rewrite ?Es, ?E; cbn; try done.
  - now rewrite Hw8.
  - now rewrite to_int_idemp.
  - rewrite bool_decide_true by done. rewrite Hsc by done. now apply Hd.
Qed.
End reading.

(** ** Values that survive *)

(** The integers a field can hold: a nullable one that is narrower than its Go
    type is not sign-extended, an enumeration is a byte. *)
Definition int_range (f : FieldDef) (nullable : bool) : Z * Z :=
  if fd_Signed f then
    ((if nullable && negb (type_width (fd_Bits f) =? fd_Bits f) then 0 else - 2 ^ (fd_Bits f - 1)), 2 ^ (fd_Bits f - 1))
  else (0, 2 ^ (if bool_decide (fd_Type f = TypeEnum) then Z.min (fd_Bits f) 8 else fd_Bits f)).

Definition fits (f : FieldDef) (nullable : bool) (z : Z) : Prop :=
  (int_range f nullable).1 <= z < (int_range f nullable).2 /\
  (nullable = true -> is_sentinel f (z mod 2 ^ fd_Bits f) = false).

(** The bits of a value of an integer field. *)
Definition image `{P : Platform} (f : FieldDef) (v : fval) : Z :=
  match v with
  | VNil => Z.ones (fd_Bits f)
  | _ => match eval_enc (encodeRawExpr f) v with Some raw => raw mod 2 ^ fd_Bits f | None => 0 end
  end.

(** A value of an integer field that is what its bits stand for: an integer in
    range; a float that is one of the multiples of the scale, and that division
    and rounding take back to it. *)
Definition carried `{P : Platform} (f : FieldDef) (nullable : bool) (v : fval) : Prop :=
  match v with
  | VNil => nullable = true
  | VInt z => HasScaling f = false /\ fits f nullable z
  | VFloat x => HasScaling f = true /\
      exists z, fits f nullable z /\ apply_scale f z = x /\ eval_enc (encodeRawExpr f) v = Some (u64 z)
  | _ => False
  end.

Lemma ones_sentinel f : 1 <= fd_Bits f <= 64 -> is_sentinel f (Z.ones (fd_Bits f)) = true.
Proof.
  intros Hb. unfold is_sentinel, sentinels.
  assert (E : sentinel (fd_Bits f) false = Z.ones (fd_Bits f)) by exact (bit_mask_ones _ Hb).
  destruct (fd_Signed f); cbn [existsb]; rewrite E, Z.eqb_refl; [now rewrite orb_true_r|done].
Qed.

Lemma mod_mod_pow z a b : 0 <= b -> b <= a -> (z mod 2 ^ a) mod 2 ^ b = z mod 2 ^ b.
Proof.
  intros Hb Hab. rewrite <- !Z.land_ones by lia. rewrite <- Z.land_assoc. f_equal.
  apply Z.bits_inj'. intros i Hi. rewrite Z.land_spec, !testbit_ones by lia.
  destruct (Z.ltb_spec i a), (Z.ltb_spec i b); done || lia.
Qed.

Lemma fits_raw f nullable z : integer_field f -> 1 <= fd_Bits f <= 64 -> fits f nullable z ->
  raw_int f nullable (z mod 2 ^ fd_Bits f) = z /\
  (fd_Type f = TypeEnum -> wrap 8 (z mod 2 ^ fd_Bits f) = z).
Proof.
  intros Hf Hb [Hr _]. unfold int_range, raw_int in *. destruct (type_width_cover (fd_Bits f)) as [[Hw _] Hw1]; [lia|].
  assert (E2 : 2 ^ fd_Bits f = 2 * 2 ^ (fd_Bits f - 1)) by (rewrite <- Z.pow_succ_r by lia; f_equal; lia).
  destruct (integer_cases f Hf) as [[E Hs]|[[E Hs]|[E Hs]]]; rewrite Hs in *; cbn [fst snd] in Hr; rewrite E in *.
  - rewrite bool_decide_false in Hr by done. split; [now rewrite Z.mod_small|done].
  - split; [|done]. destruct nullable; cbn [andb] in Hr.
    + destruct (Z.eqb_spec (type_width (fd_Bits f)) (fd_Bits f)) as [Ew|]; cbn [negb] in Hr.
      * rewrite Ew, to_int_mod by lia. apply to_int_id; lia.
      * rewrite Z.mod_small by lia. apply to_int_id; [lia|].
        pose proof (Z.pow_le_mono_r 2 (fd_Bits f - 1) (type_width (fd_Bits f) - 1)). lia.
    + rewrite to_int_mod by lia. apply to_int_id; lia.
  - rewrite bool_decide_true in Hr by done.
    pose proof (Z.pow_le_mono_r 2 (Z.min (fd_Bits f) 8) (fd_Bits f)). pose proof (Z.pow_le_mono_r 2 (Z.min (fd_Bits f) 8) 8).
    rewrite Z.mod_small by lia. split; [done|]. intros _. apply wrap_small; lia.
Qed.

Lemma carried_reads `{P : Platform} f nullable v : integer_field f -> 1 <= fd_Bits f <= 64 -> carried f nullable v ->
  read_value f nullable (image f v) = v.
Proof.
  intros Hf Hb Hc. unfold read_value, image, carried in *.
  assert (Hu : forall z, u64 z mod 2 ^ fd_Bits f = z mod 2 ^ fd_Bits f) by (intros z; apply mod_mod_pow; lia).
  destruct v as [z|x| | |]; try done.
  - destruct Hc as [Hs Hz]. destruct (fits_raw f nullable z Hf Hb Hz) as [E1 E2]. unfold encodeRawExpr. rewrite Hs. cbn [eval_enc].
    rewrite Hu. destruct nullable; cbn [andb]; [rewrite (proj2 Hz) by done|];
      (destruct (bool_decide_reflect (fd_Type f = TypeEnum)); f_equal; auto).
  - destruct Hc as (Hs & z & Hz & Ex & Ee). rewrite Ee, Hs, Hu. destruct (fits_raw f nullable z Hf Hb Hz) as [E1 _].
    rewrite E1, Ex. destruct nullable; cbn [andb]; [rewrite (proj2 Hz) by done|]; done.
  - rewrite Hc. now rewrite ones_sentinel.
Qed.

(** * One field at a time *)

(** A write of [raw] over [n] bits from bit [s]. *)
Definition writes (s n raw : Z) (data data' : list Z) : Prop :=
  length data' = length data /\ bytes_ok data' /\ le_val data' = update_bits (le_val data) s n raw.

Lemma write_compiles_word s bits : 0 <= s -> 1 <= bits -> write_compiles (writeBitsStmt (s / 8) (s mod 8) bits) = true -> in_word s bits.
Proof.
  intros Hs Hb H. unfold in_word. split; [done|]. split; [done|]. unfold writeBitsStmt in H.
  destruct (Z.eqb_spec (s mod 8) 0) as [E|]; cbn [andb] in H; [destruct (standard_width bits) eqn:Es|];
    [apply standard_width_word, word_bytes in Es; lia|..];
    (destruct (Z.leb_spec (s mod 8 + bits) 8); [lia|]; destruct (Z.leb_spec (s mod 8 + bits) 16); [lia|];
     destruct (Z.leb_spec (s mod 8 + bits) 32); [lia|done]).
Qed.

Lemma bits_at_local N N' s n : 0 <= s -> 0 <= n -> (forall i, s <= i < s + n -> Z.testbit N i = Z.testbit N' i) ->
  bits_at N s n = bits_at N' s n.
Proof.
  intros Hs Hn H. apply Z.bits_inj'. intros i Hi. rewrite !testbit_bits_at by lia.
  destruct (Z.ltb_spec i n); cbn [andb]; [|done]. apply H. lia.
Qed.

Lemma writes_same s n raw data data' : 0 <= s -> 0 <= n -> writes s n raw data data' -> bits_at (le_val data') s n = raw mod 2 ^ n.
Proof. intros Hs Hn (_ & _ & ->). now apply bits_at_update_same. Qed.

Lemma writes_other s n raw data data' i : 0 <= s -> 0 <= n -> writes s n raw data data' -> 0 <= i -> i < s \/ s + n <= i ->
  Z.testbit (le_val data') i = Z.testbit (le_val data) i.
Proof.
  intros Hs Hn (_ & _ & ->) Hi Ho. rewrite testbit_update by lia.
  destruct (Z.leb_spec s i), (Z.ltb_spec i (s + n)); cbn [andb]; done || lia.
Qed.

Lemma exec_write_writes s bits raw data : in_word s bits -> access_end s bits <= Z.of_nat (length data) -> bytes_ok data ->
  exists data', exec_write (writeBitsStmt (s / 8) (s mod 8) bits) raw data = Some data' /\ writes s bits raw data data'.
Proof. intros Hin He Hok. destruct (writeBitsStmt_writes s bits raw data Hin He Hok) as (data' & E & H). now exists data'. Qed.

(** ** Strings *)

Lemma encodeFixedStr_length n s : length (encodeFixedStr n s) = n.
Proof. unfold encodeFixedStr. rewrite length_app, length_take, length_replicate. lia. Qed.

Lemma encodeFixedStr_ok n s : bytes_ok s -> bytes_ok (encodeFixedStr n s).
Proof.
  intros Hs. apply Forall_app. split; [now apply Forall_take|]. apply Forall_replicate. unfold byte_ok. lia.
Qed.

(** The strings a field of [n] bytes can hold. *)
Definition string_carried (n : Z) (trim : string) (s : list Z) : Prop :=
  Z.of_nat (length s) <= n /\ bytes_ok s /\ Forall (fun b => b <> 0 /\ b <> 255) s /\
  (trim <> EmptyString -> forall b, last s = Some b -> existsb (Z.eqb b) (bytes_of_string trim) = false).

Lemma decodeFixedStr_encode n s : (length s <= n)%nat -> Forall (fun b => b <> 0 /\ b <> 255) s ->
  decodeFixedStr (encodeFixedStr n s) = s.
Proof.
  intros Hn Hs. unfold encodeFixedStr. rewrite take_ge by lia. clear Hn. induction Hs as [|b s [H0 H255] _ IH].
  - cbn [app length]. now destruct (n - 0)%nat.
  - cbn [app length decodeFixedStr]. rewrite (proj2 (Z.eqb_neq _ _) H0), (proj2 (Z.eqb_neq _ _) H255). cbn [orb]. f_equal.
    clear -IH. revert IH. generalize (n - length s)%nat as k, (n - S (length s))%nat as k'. intros k k'.
    assert (H : forall j, decodeFixedStr (s ++ replicate j 255) = decodeFixedStr (s ++ replicate 0 255)).
    { intros j. induction s as [|c s IHs]; [now destruct j|]. cbn [app decodeFixedStr]. now rewrite IHs. }
    now rewrite (H k), (H k').
Qed.

Lemma trimRight_kept cutset s : (forall b, last s = Some b -> existsb (Z.eqb b) cutset = false) -> trimRightASCII cutset s = s.
Proof.
  induction s as [|b s IH]; intros H; [done|]. cbn [trimRightASCII]. destruct s as [|c s].
  - cbn [trimRightASCII]. now rewrite (H b).
  - rewrite IH; [done|]. intros d Hd. now apply H.
Qed.

Lemma string_reads n trim s : string_carried n trim s ->
  (if bool_decide (trim = EmptyString) then decodeFixedStr (encodeFixedStr (Z.to_nat n) s)
   else decodeTrimmedStr (encodeFixedStr (Z.to_nat n) s) (bytes_of_string trim)) = s.
Proof.
  intros (Hl & _ & Hs & Ht). unfold decodeTrimmedStr. rewrite decodeFixedStr_encode by (done || lia).
  destruct (bool_decide_reflect (trim = EmptyString)); [done|]. apply trimRight_kept, Ht. done.
Qed.

(** ** Fields *)

(** The fields the round trip is about: integers, enumerations, and strings and
    stored floats on a byte; the statements compile. *)
Record codable (refs : gset string) (f : FieldDef) : Prop := {
  cd_start : 0 <= fd_BitStart f;
  cd_bits : 1 <= fd_Bits f;
  cd_type : IsSkipped f = false -> integer_field f \/
    ((fd_Type f = TypeString /\ (8 | fd_Bits f) \/ fd_Type f = TypeFloat /\ (fd_Bits f = 32 \/ fd_Bits f = 64)) /\
     (8 | fd_BitStart f) /\ IsRepeated f = false /\ fd_MatchValue f = None);
  cd_room : IsRepeated f = true -> fd_BitStart f + fd_Bits f * fd_RepeatCount f < 2 ^ 63;
  cd_compiles : IsSkipped f = false -> field_compiles refs f = true
}.

Lemma integer_access_field f : integer_field f -> integer_access f.
Proof. intros [[E|[E|E]] _]; split; congruence. Qed.

Lemma codable_static refs f : codable refs f -> static_field f.
Proof.
  intros [Hs Hb Ht Hr _]. split; [done|lia| |].
  - intros Hrep. destruct (IsSkipped f) eqn:Hsk.
    + unfold IsSkipped, IsReserved, IsUnknown in Hsk. apply orb_true_iff in Hsk as [E|E]; apply bool_decide_eq_true in E; split; congruence.
    + destruct (Ht eq_refl) as [Hi|(_ & _ & ? & _)]; [exact (integer_access_field f Hi)|congruence].
  - intros Hrep. specialize (Hr Hrep). split; [|done]. unfold IsRepeated in Hrep. rewrite Z.gtb_ltb in Hrep. apply Z.ltb_lt in Hrep. nia.
Qed.

(** The end of such a field, by its kind. *)
Lemma codable_cases refs f : codable refs f ->
  (fd_Type f = TypeString -> fieldReadEnd f = fd_BitStart f / 8 + fd_Bits f / 8) /\
  (forall w, w = 32 \/ w = 64 -> fd_Type f = TypeFloat -> fd_Bits f = w -> fieldReadEnd f = fd_BitStart f / 8 + w / 8).
Proof. intros [Hs Hb _ _ _]. apply fieldReadEnd_cases; lia. Qed.

Lemma codable_end refs f : codable refs f -> integer_field f -> fieldReadEnd f = access_end (fd_BitStart f) (fd_Bits f).
Proof. intros Hc Hi. apply fieldReadEnd_integer; [now apply integer_access_field|apply Hc]. Qed.

Definition repeated_value (f : FieldDef) (vs : list fval) : value :=
  if bool_decide (fd_GroupMode f = "map"%string)
  then Keyed (list_to_map (zip (map (Z.add 1) (indices (fd_RepeatCount f))) vs)) else Items vs.

(** What a message has to hold for a field to be read back. *)
Definition field_carried `{P : Platform} (refs : gset string) (m : message) (f : FieldDef) : Prop :=
  if IsRepeated f then
    exists vs, m !! fd_Name f = Some (repeated_value f vs) /\ Z.of_nat (length vs) = fd_RepeatCount f /\ Forall (carried f false) vs
  else match fd_MatchValue f with
       | Some val => HasScaling f = false /\ fits f false val
       | None => match field_of refs m f with
                 | VStr s => fd_Type f = TypeString /\ string_carried (fd_Bits f / 8) (fd_Trim f) s
                 | VBits z => fd_Type f = TypeFloat /\ 0 <= z < 2 ^ fd_Bits f
                 | v => integer_field f /\ carried f (isNullable f refs) v
                 end
       end.

(** The value read back: the one stored, or the one the field is fixed to. *)
Definition expected (refs : gset string) (m : message) (f : FieldDef) : value :=
  if IsRepeated f then default (Items []) (m !! fd_Name f)
  else One (match fd_MatchValue f with Some val => VInt val | None => field_of refs m f end).

Definition field_bits `{P : Platform} (f : FieldDef) (v : fval) : Z :=
  match v with
  | VStr s => le_val (encodeFixedStr (Z.to_nat (fd_Bits f / 8)) s)
  | VBits z => z
  | _ => image f v
  end.

(** The bits of the number [N] are those of the message. *)
Definition holds `{P : Platform} (refs : gset string) (m : message) (f : FieldDef) (N : Z) : Prop :=
  if IsRepeated f then
    forall i v, i ∈ indices (fd_RepeatCount f) -> repeated_element f m i = Some v ->
      bits_at N (fd_BitStart f + i * fd_Bits f) (fd_Bits f) = image f v
  else bits_at N (fd_BitStart f) (fd_Bits f) =
       match fd_MatchValue f with Some val => val mod 2 ^ fd_Bits f | None => field_bits f (field_of refs m f) end.

Definition extent (f : FieldDef) : Z := if IsRepeated f then fd_Bits f * fd_RepeatCount f else fd_Bits f.

Lemma holds_local `{P : Platform} refs m f N N' : codable refs f -> holds refs m f N ->
  (forall i, fd_BitStart f <= i < fd_BitStart f + extent f -> Z.testbit N i = Z.testbit N' i) -> holds refs m f N'.
Proof.
  intros [Hs Hb _ _ _] Hh Hl. unfold holds, extent in *. destruct (IsRepeated f) eqn:Hr.
  - intros i v Hi Hv. rewrite <- (Hh i v Hi Hv). symmetry. apply elem_of_seqZ in Hi. apply bits_at_local; [nia|lia|].
    intros j Hj. apply Hl. nia.
  - rewrite <- Hh. symmetry. apply bits_at_local; [lia|lia|exact Hl].
Qed.

Lemma indices_lookup n i : 0 <= i < n -> indices n !! Z.to_nat i = Some i.
Proof. intros Hi. apply lookup_seqZ. lia. Qed.

Lemma repeated_element_value f m vs i : m !! fd_Name f = Some (repeated_value f vs) -> Z.of_nat (length vs) = fd_RepeatCount f ->
  i ∈ indices (fd_RepeatCount f) -> repeated_element f m i = vs !! Z.to_nat i.
Proof.
  intros Hm Hl Hi. apply elem_of_seqZ in Hi. unfold repeated_element. rewrite Hm. unfold repeated_value.
  destruct (bool_decide _); [|done].
  assert (Hk : length (map (Z.add 1) (indices (fd_RepeatCount f))) = length vs) by (rewrite length_map; unfold indices; rewrite length_seqZ; lia).
  destruct (lookup_lt_is_Some_2 vs (Z.to_nat i) ltac:(lia)) as [v Hv]. rewrite Hv. apply elem_of_list_to_map.
  - rewrite fst_zip by lia. apply NoDup_fmap; [intros a b; lia|apply NoDup_seqZ].
  - apply list_elem_of_lookup. exists (Z.to_nat i). apply lookup_zip_with_Some. exists (1 + i), v. split; [done|]. split; [|done].
    change (map (Z.add 1) (indices (fd_RepeatCount f))) with (Z.add 1 <$> indices (fd_RepeatCount f)).
    now rewrite list_lookup_fmap, indices_lookup by lia.
Qed.

Section fields.
Context `{P : Platform} (refs : gset string) (m : message) (f : FieldDef).
Context (Hc : codable refs f) (Hskip : IsSkipped f = false) (Hm : field_carried refs m f).

(** The elements of a repeated field, or the field, lie in words. *)
Lemma element_word i : IsRepeated f = true -> i ∈ indices (fd_RepeatCount f) -> in_word (fd_BitStart f + i * fd_Bits f) (fd_Bits f).
Proof.
  intros Hr Hi. destruct Hc as [Hs Hb _ Hroom Hcomp]. specialize (Hcomp Hskip). unfold field_compiles in Hcomp. rewrite Hskip, Hr in Hcomp.
  rewrite forallb_forall in Hcomp. apply list_elem_of_In in Hi as Hi'. apply Hcomp in Hi'. to_props. apply elem_of_seqZ in Hi.
  destruct (element_start_small f i Hs ltac:(lia) ltac:(lia) (Hroom Hr)) as [Ei Ei0].
  destruct (element_statements f i _ Ei Ei0) as [_ Ew]. rewrite Ew in *. now apply write_compiles_word.
Qed.

Lemma field_word : IsRepeated f = false -> integer_field f -> in_word (fd_BitStart f) (fd_Bits f).
Proof.
  intros Hr Hi. destruct Hc as [Hs Hb _ _ Hcomp]. specialize (Hcomp Hskip). unfold field_compiles in Hcomp. rewrite Hskip, Hr in Hcomp.
  apply andb_true_iff in Hcomp as [_ Hcomp]. apply write_compiles_word; [done|done|].
  destruct (fd_MatchValue f); [cbn in Hcomp; now to_props|].
  destruct (writeEncodeField_cases f refs) as (_ & _ & C). rewrite C in Hcomp; [exact Hcomp|].
  destruct Hi as [[E|[E|E]] _]; split; congruence.
Qed.


Lemma word_small s : in_word s (fd_Bits f) -> 1 <= fd_Bits f <= 64.
Proof. intros (? & ? & ?). pose proof (Z.mod_pos_bound s 8 ltac:(lia)). lia. Qed.

(** ** Reading *)

Lemma decode_repeated_holds data : IsRepeated f = true -> fieldReadEnd (last_access f) <= Z.of_nat (length data) -> bytes_ok data ->
  holds refs m f (le_val data) -> decode_repeated f data = m !! fd_Name f.
Proof.
  intros Hr He Hok Hh. unfold holds, field_carried, last_access in *. rewrite Hr in *. destruct Hm as (vs & Hmv & Hl & Hvs).
  assert (Hif : integer_field f) by (destruct (cd_type _ _ Hc Hskip) as [?|(_ & _ & ? & _)]; [done|congruence]).
  pose proof (codable_static refs f Hc) as Hsf.
  unfold decode_repeated. rewrite Hmv.
  assert (Hmap : mapM (fun i => eval_dexpr 0 data 0 (maybeWrapCast f (element_read f i))) (indices (fd_RepeatCount f)) = Some vs).
  { apply mapM_Some, Forall2_same_length_lookup. unfold indices. split; [rewrite length_seqZ; lia|].
    intros k i v Hi Hv. apply lookup_seqZ in Hi as [Hk Hk2]. assert (Hin : i ∈ indices (fd_RepeatCount f)) by (apply elem_of_seqZ; lia).
    destruct (element_end f _ Hsf Hr He i Hin) as (Ei & Hs0 & Hend). destruct (element_statements f i _ Ei Hs0) as [Er _]. pose proof (element_word i Hr Hin) as Hw.
    rewrite Er, wrap_cast_reads by done. f_equal.
    rewrite (Hh i v Hin) by (rewrite (repeated_element_value f m vs i) by done; replace (Z.to_nat i) with k by lia; done).
    apply carried_reads; [done|now apply (word_small _ Hw)|]. rewrite Forall_forall in Hvs. apply Hvs. by eapply list_elem_of_lookup_2. }
  rewrite Hmap. cbn [mbind option_bind]. unfold repeated_value. done.
Qed.

Lemma match_not_nullable val : fd_MatchValue f = Some val -> isNullable f refs = false.
Proof. intros E. unfold isNullable. rewrite (bool_decide_true (is_Some (fd_MatchValue f))) by (rewrite E; by eexists). now rewrite orb_true_r. Qed.

Lemma image_int val : HasScaling f = false -> 1 <= fd_Bits f <= 64 -> image f (VInt val) = val mod 2 ^ fd_Bits f.
Proof. intros Hs Hb. unfold image, encodeRawExpr. rewrite Hs. cbn [eval_enc]. apply mod_mod_pow; lia. Qed.

(** What the bits of a field that is not repeated say. *)
Lemma field_reads : IsRepeated f = false -> integer_field f -> 
  read_value f (isNullable f refs)
    (match fd_MatchValue f with Some val => val mod 2 ^ fd_Bits f | None => field_bits f (field_of refs m f) end) =
  match fd_MatchValue f with Some val => VInt val | None => field_of refs m f end.
Proof.
  intros Hr Hi. pose proof (word_small _ (field_word Hr Hi)) as Hb. unfold field_carried in Hm. rewrite Hr in Hm.
  destruct (fd_MatchValue f) as [val|] eqn:Em.
  - destruct Hm as [Hs Hv]. rewrite (match_not_nullable val Em), <- image_int by done. apply carried_reads; done.
  - destruct (field_of refs m f) eqn:Ef; cbn [field_bits]; try (apply carried_reads; [done|done|]; now destruct Hm);
      destruct Hm as [Ht _], Hi as [[E|[E|E]] _]; congruence.
Qed.

Lemma nullable_enum : IsRepeated f = false -> integer_field f -> isNullable f refs = true -> fd_Type f = TypeEnum -> HasScaling f = false.
Proof.
  intros Hr Hi Hn He. pose proof (cd_compiles _ _ Hc Hskip) as H. unfold field_compiles in H. rewrite Hskip, Hr in H.
  apply andb_true_iff in H as [H _]. destruct (writeDecodeField_cases f refs) as (_ & _ & C).
  rewrite C in H by now apply integer_access_field. unfold decode_integer in H. rewrite Hn, bool_decide_true in H by done.
  cbn [decode_compiles dexpr_type andb] in H. apply bool_decide_eq_true in H. unfold goFieldType in H.
  cbn [dexpr_type] in H. destruct (HasScaling f); [discriminate H|reflexivity].
Qed.

(** Strings and floats lie on bytes. *)
Lemma on_bytes : (8 | fd_BitStart f) -> fd_BitStart f = 8 * (fd_BitStart f / 8).
Proof. intros [k ->]. rewrite Z.div_mul by lia. lia. Qed.

Lemma string_slice data : fd_Type f = TypeString -> (8 | fd_Bits f) -> (8 | fd_BitStart f) ->
  fieldReadEnd f <= Z.of_nat (length data) -> bytes_ok data ->
  slice_of (fd_BitStart f / 8) (fd_BitStart f / 8 + fd_Bits f / 8) data =
  Some (le_bytes (Z.to_nat (fd_Bits f / 8)) (bits_at (le_val data) (fd_BitStart f) (fd_Bits f))).
Proof.
  intros Ht [k Hk] Ha He Hok. destruct (codable_cases refs f Hc) as (E & _). rewrite E in He by done. destruct Hc as [Hs Hb _ _ _].
  pose proof (on_bytes Ha). pose proof (Z.div_pos _ 8 Hs ltac:(lia)).
  assert (Hk8 : fd_Bits f = 8 * (fd_Bits f / 8)) by (rewrite Hk, Z.div_mul by lia; lia).
  unfold slice_of. rewrite (proj2 (Z.leb_le 0 _)), (proj2 (Z.leb_le (fd_BitStart f / 8) _)), (proj2 (Z.leb_le _ (Z.of_nat _))) by lia.
  cbn [andb]. f_equal. set (o := Z.to_nat (fd_BitStart f / 8)). set (n := Z.to_nat (fd_Bits f / 8)).
  replace (Z.to_nat (fd_BitStart f / 8 + fd_Bits f / 8)) with (o + n)%nat by lia.
  replace (fd_BitStart f) with (8 * Z.of_nat o) by lia. replace (fd_Bits f) with (8 * Z.of_nat n) by lia.
  rewrite <- slice_bits by (done || lia). symmetry. apply le_bytes_val.
  - apply Forall_take. now apply Forall_drop.
  - unfold slice. rewrite length_take, length_drop. lia.
Qed.

Lemma decode_field_holds data m0 : fieldReadEnd (last_access f) <= Z.of_nat (length data) -> bytes_ok data ->
  holds refs m f (le_val data) -> decode_field refs data m0 f = Some (<[fd_Name f := expected refs m f]> m0).
Proof.
  intros He Hok Hh. unfold decode_field, expected. rewrite Hskip. destruct (IsRepeated f) eqn:Hr.
  { rewrite (decode_repeated_holds data Hr He Hok Hh). unfold field_carried in Hm. rewrite Hr in Hm. destruct Hm as (vs & -> & _). done. }
  unfold holds, last_access in *. rewrite Hr in *. destruct (writeDecodeField_cases f refs) as (C1 & C2 & C3).
  destruct (cd_type _ _ Hc Hskip) as [Hi|([[Ht H8]|[Ht Hw]] & Ha & _ & Hmv)].
  - rewrite C3 by now apply integer_access_field. rewrite (codable_end refs f Hc) in He by done.
    rewrite decode_integer_reads by first [done|now apply field_word|now apply nullable_enum]. rewrite Hh, field_reads by done. done.
  - rewrite C1 by done. cbn [exec_decode]. rewrite (string_slice data) by done. rewrite Hh, Hmv. unfold field_carried in Hm. rewrite Hr, Hmv in Hm.
    destruct (field_of refs m f) eqn:Ef; try (destruct Hm as [[[E|[E|E]] _] _]; congruence); try (destruct Hm; congruence).
    destruct Hm as [_ Hs]. cbn [field_bits]. rewrite le_bytes_val by first [rewrite encodeFixedStr_length; done|apply encodeFixedStr_ok, Hs].
    cbn [fmap option_fmap option_map mbind option_bind]. now rewrite (string_reads (fd_Bits f / 8) (fd_Trim f) bs Hs).
  - rewrite (C2 (fd_Bits f)) by done. cbn [exec_decode]. destruct (codable_cases refs f Hc) as (_ & E). rewrite (E (fd_Bits f)) in He by done.
    pose proof (on_bytes Ha) as Hoff. pose proof (Z.div_pos _ 8 (cd_start _ _ Hc) ltac:(lia)).
    rewrite load_bits by first [done|lia|unfold word_width; lia]. rewrite <- Hoff, Hh, Hmv. unfold field_carried in Hm. rewrite Hr, Hmv in Hm.
    destruct (field_of refs m f) eqn:Ef; try (destruct Hm as [[[E'|[E'|E']] _] _]; congruence); try (destruct Hm; congruence). done.
Qed.
(** ** Writing *)

Lemma carried_eval nullable v : carried f nullable v -> v <> VNil ->
  exists raw, eval_enc (encodeRawExpr f) v = Some raw /\ image f v = raw mod 2 ^ fd_Bits f.
Proof.
  unfold carried, image. intros Hv Hn. destruct v as [z|x| | |]; try done.
  - destruct Hv as [Hs _]. unfold encodeRawExpr. rewrite Hs. cbn [eval_enc]. by eexists.
  - destruct Hv as (_ & z & _ & _ & ->). by eexists.
Qed.

Lemma encode_elements vs : IsRepeated f = true -> m !! fd_Name f = Some (repeated_value f vs) ->
  Z.of_nat (length vs) = fd_RepeatCount f -> Forall (carried f false) vs ->
  forall n k data, 0 <= k -> k + Z.of_nat n <= fd_RepeatCount f -> bytes_ok data ->
  fieldReadEnd (last_access f) <= Z.of_nat (length data) ->
  exists data', encode_repeated f m (seqZ k (Z.of_nat n)) data = Some data' /\ length data' = length data /\ bytes_ok data' /\
    (forall i v, i ∈ seqZ k (Z.of_nat n) -> repeated_element f m i = Some v ->
       bits_at (le_val data') (fd_BitStart f + i * fd_Bits f) (fd_Bits f) = image f v) /\
    (forall i, 0 <= i -> i < fd_BitStart f + k * fd_Bits f \/ fd_BitStart f + (k + Z.of_nat n) * fd_Bits f <= i ->
       Z.testbit (le_val data') i = Z.testbit (le_val data) i).
Proof.
  intros Hr Hmv Hl Hvs. assert (Hi : integer_field f) by (destruct (cd_type _ _ Hc Hskip) as [?|(_ & _ & ? & _)]; [done|congruence]).
  pose proof (codable_static refs f Hc) as Hsf.
  pose proof (cd_start _ _ Hc) as Hs0. pose proof (cd_bits _ _ Hc) as Hb0.
  induction n as [|n IH]; intros k data Hk Hkn Hok He.
  { exists data. rewrite seqZ_nil by lia. split; [done|]. split; [done|]. split; [done|]. split; [|done].
    intros i v Hiv. now apply elem_of_nil in Hiv. }
  rewrite seqZ_cons by lia. replace (Z.pred (Z.of_nat (S n))) with (Z.of_nat n) by lia. cbn [encode_repeated].
  assert (Hin : k ∈ indices (fd_RepeatCount f)) by (apply elem_of_seqZ; lia).
  destruct (lookup_lt_is_Some_2 vs (Z.to_nat k) ltac:(lia)) as [v Hv].
  assert (Hel : repeated_element f m k = Some v) by (rewrite (repeated_element_value f m vs k) by done; exact Hv).
  assert (Hcv : carried f false v) by (rewrite Forall_forall in Hvs; apply Hvs; by eapply list_elem_of_lookup_2).
  destruct (carried_eval false v Hcv) as (raw & Ee & Ei); [intros ->; done|].
  assert (He' := He). unfold last_access in He'. rewrite Hr in He'. destruct (element_end f _ Hsf Hr He' k Hin) as (Ek & Hsk & Hend).
  destruct (element_statements f k _ Ek Hsk) as [_ Ew].
  pose proof (element_word k Hr Hin) as Hw.
  destruct (exec_write_writes _ (fd_Bits f) raw data Hw Hend Hok) as (data1 & E1 & W1). pose proof W1 as (L1 & O1 & _).
  rewrite Hel. unfold write_element. rewrite Ee. cbn [mbind option_bind]. rewrite Ew, E1. cbn [mbind option_bind].
  destruct (IH (Z.succ k) data1) as (data' & E & L & O & Hh & Hu); [lia|lia|done|now rewrite L1|].
  exists data'. split; [done|]. split; [congruence|]. split; [done|]. split.
  - intros i w [->|Hiw]%elem_of_cons Hew; [|now apply Hh].
    rewrite Hel in Hew. injection Hew as <-. rewrite Ei, <- (writes_same _ (fd_Bits f) raw data data1) by (done || lia).
    apply bits_at_local; [lia|lia|]. intros j Hj. apply Hu; [lia|]. left. nia.
  - intros i Hi0 Ho. rewrite Hu by nia. apply (writes_other (fd_BitStart f + k * fd_Bits f) (fd_Bits f) raw); try done; nia.
Qed.

(** Writing a field sets its bits and leaves the others. *)
Definition sets_field (data data' : list Z) : Prop :=
  length data' = length data /\ bytes_ok data' /\ holds refs m f (le_val data') /\
  forall i, 0 <= i -> i < fd_BitStart f \/ fd_BitStart f + extent f <= i -> Z.testbit (le_val data') i = Z.testbit (le_val data) i.

Lemma writes_field raw data data' : IsRepeated f = false -> writes (fd_BitStart f) (fd_Bits f) raw data data' ->
  raw mod 2 ^ fd_Bits f = match fd_MatchValue f with Some val => val mod 2 ^ fd_Bits f | None => field_bits f (field_of refs m f) end ->
  sets_field data data'.
Proof.
  intros Hr Hw He. pose proof (cd_start _ _ Hc) as Hs. pose proof (cd_bits _ _ Hc) as Hb. pose proof Hw as (L & O & _).
  split; [done|]. split; [done|]. unfold holds, extent. rewrite Hr. split.
  - rewrite (writes_same _ (fd_Bits f) raw data) by (done || lia). exact He.
  - intros i Hi Ho. apply (writes_other (fd_BitStart f) (fd_Bits f) raw); done || lia.
Qed.

Lemma encode_integer_sets data : IsRepeated f = false -> integer_field f -> fieldReadEnd f <= Z.of_nat (length data) -> bytes_ok data ->
  (forall i, fd_BitStart f <= i < fd_BitStart f + extent f -> Z.testbit (le_val data) i = true) ->
  exists data', encode_field refs m data f = Some data' /\ sets_field data data'.
Proof.
  intros Hr Hi He Hok Hones. pose proof (field_word Hr Hi) as Hw. pose proof (word_small _ Hw) as Hb.
  rewrite (codable_end refs f Hc) in He by done.
  assert (Hx : forall raw, exists data', exec_write (field_write f) raw data = Some data' /\ writes (fd_BitStart f) (fd_Bits f) raw data data')
    by (intros raw; now apply exec_write_writes).
  unfold encode_field. rewrite Hskip, Hr. pose proof Hm as Hm'. unfold field_carried in Hm'. rewrite Hr in Hm'.
  destruct (fd_MatchValue f) as [val|] eqn:Em.
  - destruct (Hx (u64 val)) as (data' & E & W). exists data'. split; [exact E|]. apply (writes_field (u64 val)); [done|done|].
    rewrite Em. apply mod_mod_pow; lia.
  - destruct (writeEncodeField_cases f refs) as (_ & _ & C). rewrite C by now apply integer_access_field.
    assert (Hv : carried f (isNullable f refs) (field_of refs m f)).
    { destruct (field_of refs m f); try (now destruct Hm'); destruct Hm' as [Ht _], Hi as [[E|[E|E]] _]; congruence. }
    assert (Hfb : field_bits f (field_of refs m f) = image f (field_of refs m f)) by (now destruct (field_of refs m f)).
    assert (Hv' : field_of refs m f = VNil \/ field_of refs m f <> VNil) by (destruct (field_of refs m f); first [by left|by right]).
    destruct Hv' as [En|Hne].
    + assert (Hn : isNullable f refs = true) by (now rewrite En in Hv). rewrite En, Hn. exists data. split; [done|].
      split; [done|]. split; [done|]. split; [|done]. unfold holds. rewrite Hr, Em, En. cbn [field_bits image].
      apply Z.bits_inj'. intros i Hi0. rewrite testbit_bits_at, testbit_ones by (pose proof (cd_start _ _ Hc); lia).
      destruct (Z.ltb_spec i (fd_Bits f)); cbn [andb]; [|done]. apply Hones. unfold extent. rewrite Hr. lia.
    + destruct (carried_eval _ _ Hv Hne) as (raw & Ee & Ei). destruct (Hx raw) as (data' & E & W). exists data'.
      split; [|apply (writes_field raw); [done|done|rewrite Em, Hfb; congruence]].
      assert (Eenc : (if isNullable f refs && bool_decide (fd_Type f = TypeEnum) then EUint else encodeRawExpr f) = encodeRawExpr f).
      { destruct (isNullable f refs) eqn:En; [|done]. destruct (bool_decide_reflect (fd_Type f = TypeEnum)) as [Et|]; [|done].
        cbn [andb]. unfold encodeRawExpr. now rewrite nullable_enum. }
      rewrite Eenc. unfold exec_encode.
      destruct (field_of refs m f), (isNullable f refs); try done; rewrite Ee; exact E.
Qed.
Lemma encode_string_sets data : fd_Type f = TypeString -> (8 | fd_Bits f) -> (8 | fd_BitStart f) -> IsRepeated f = false ->
  fd_MatchValue f = None -> fieldReadEnd f <= Z.of_nat (length data) -> bytes_ok data ->
  exists data', encode_field refs m data f = Some data' /\ sets_field data data'.
Proof.
  intros Ht [k Hk] Ha Hr Hmv He Hok. destruct (codable_cases refs f Hc) as (E & _). rewrite E in He by done.
  pose proof (on_bytes Ha) as Hoff. pose proof (Z.div_pos _ 8 (cd_start _ _ Hc) ltac:(lia)). pose proof (cd_bits _ _ Hc).
  assert (Hk8 : fd_Bits f = 8 * (fd_Bits f / 8)) by (rewrite Hk, Z.div_mul by lia; lia).
  destruct (writeEncodeField_cases f refs) as (C & _ & _). unfold encode_field. rewrite Hskip, Hr, Hmv, C by done.
  pose proof Hm as Hm'. unfold field_carried in Hm'. rewrite Hr, Hmv in Hm'.
  destruct (field_of refs m f) as [| | |s|] eqn:Ef; try (destruct Hm' as [[[E'|[E'|E']] _] _]; congruence); try (destruct Hm'; congruence).
  destruct Hm' as (_ & Hl & Hso & _). cbn [exec_encode].
  destruct (slice_of_defined (fd_BitStart f / 8) (fd_Bits f / 8) data) as [old ->]; [lia..|]. cbn [mbind option_bind].
  eexists. split; [reflexivity|]. set (bs := encodeFixedStr (Z.to_nat (fd_Bits f / 8)) s).
  assert (Hbl : length bs = Z.to_nat (fd_Bits f / 8)) by apply encodeFixedStr_length.
  assert (Hbo : bytes_ok bs) by now apply encodeFixedStr_ok.
  replace (Z.to_nat (fd_BitStart f / 8 + fd_Bits f / 8)) with (Z.to_nat (fd_BitStart f / 8) + length bs)%nat by lia.
  destruct (splice_bits (Z.to_nat (fd_BitStart f / 8)) bs data) as (L & O & V); [lia|done|done|].
  apply (writes_field (le_val bs)); [done| |].
  - split; [done|]. split; [done|]. rewrite V. f_equal; lia.
  - rewrite Hmv, Ef. apply Z.mod_small. assert (E8 : fd_Bits f = 8 * Z.of_nat (length bs)) by lia. rewrite E8. now apply le_val_lt.
Qed.

Lemma encode_float_sets data : fd_Type f = TypeFloat -> fd_Bits f = 32 \/ fd_Bits f = 64 -> (8 | fd_BitStart f) -> IsRepeated f = false ->
  fd_MatchValue f = None -> fieldReadEnd f <= Z.of_nat (length data) -> bytes_ok data ->
  exists data', encode_field refs m data f = Some data' /\ sets_field data data'.
Proof.
  intros Ht Hw Ha Hr Hmv He Hok. destruct (codable_cases refs f Hc) as (_ & E). rewrite (E (fd_Bits f)) in He by done.
  pose proof (on_bytes Ha) as Hoff. pose proof (Z.div_pos _ 8 (cd_start _ _ Hc) ltac:(lia)).
  destruct (writeEncodeField_cases f refs) as (_ & C & _). unfold encode_field. rewrite Hskip, Hr, Hmv, (C (fd_Bits f)) by done.
  pose proof Hm as Hm'. unfold field_carried in Hm'. rewrite Hr, Hmv in Hm'.
  destruct (field_of refs m f) as [| |z| |] eqn:Ef; try (destruct Hm' as [[[E'|[E'|E']] _] _]; congruence); try (destruct Hm'; congruence).
  destruct Hm' as [_ Hz]. cbn [exec_encode].
  destruct (store_bits (fd_Bits f) (fd_BitStart f / 8) z data) as (data' & Es & L & O & V); [unfold word_width; lia|lia|lia|done|done|].
  exists data'. split; [done|]. apply (writes_field z); [done| |].
  - split; [done|]. split; [done|]. rewrite V. now rewrite <- Hoff.
  - rewrite Hmv, Ef. now apply Z.mod_small.
Qed.

Lemma encode_field_sets data : fieldReadEnd (last_access f) <= Z.of_nat (length data) -> bytes_ok data ->
  (forall i, fd_BitStart f <= i < fd_BitStart f + extent f -> Z.testbit (le_val data) i = true) ->
  exists data', encode_field refs m data f = Some data' /\ sets_field data data'.
Proof.
  intros He Hok Hones. destruct (IsRepeated f) eqn:Hr.
  - pose proof Hm as Hm'. unfold field_carried in Hm'. rewrite Hr in Hm'. destruct Hm' as (vs & Hmv & Hl & Hvs).
    destruct (encode_elements vs Hr Hmv Hl Hvs (Z.to_nat (fd_RepeatCount f)) 0 data) as (data' & E & L & O & Hh & Hu); [lia|lia|done|done|].
    exists data'. unfold encode_field. rewrite Hskip, Hr. rewrite Z2Nat.id in * by lia. split; [exact E|].
    split; [done|]. split; [done|]. unfold holds, extent. rewrite Hr. split; [exact Hh|]. intros i Hi Ho. apply Hu; [done|nia].
  - unfold last_access in He. rewrite Hr in He. destruct (cd_type _ _ Hc Hskip) as [Hi|([[Ht H8]|[Ht Hw]] & Ha & _ & Hmv)].
    + now apply encode_integer_sets.
    + now apply encode_string_sets.
    + now apply encode_float_sets.
Qed.
End fields.

(** * The fields of a PGN *)

(** Fields one after the other from bit [lo]. *)
Fixpoint laid_out (lo : Z) (fs : list FieldDef) : Prop :=
  match fs with
  | [] => True
  | f :: fs => fd_BitStart f = lo /\ laid_out (lo + extent f) fs
  end.

Lemma resolved_laid_out ns fs : forall before, fields_resolved ns before fs ->
  Forall (fun f => static_bits f = extent f) fs -> laid_out (width before) fs.
Proof.
  induction fs as [|f fs IH]; intros before H Hw; [done|]. inversion H as [|? ? ? Hf Hfs]; subst.
  apply Forall_cons in Hw as [Hwf Hw]. split; [apply Hf|]. specialize (IH _ Hfs Hw).
  rewrite width_app in IH. cbn [width] in IH. now rewrite Z.add_0_r, Hwf in IH.
Qed.

Lemma extent_nonneg refs f : codable refs f -> 0 <= extent f.
Proof.
  intros [_ Hb _ _ _]. unfold extent, IsRepeated. rewrite Z.gtb_ltb. destruct (Z.ltb_spec 0 (fd_RepeatCount f)); nia.
Qed.

Lemma laid_out_start refs lo fs : laid_out lo fs -> Forall (codable refs) fs -> forall f, f ∈ fs -> lo <= fd_BitStart f.
Proof.
  revert lo. induction fs as [|g fs IH]; intros lo Hlay Hc f Hf; [now apply elem_of_nil in Hf|]. destruct Hlay as [Hg Hl].
  apply Forall_cons in Hc as [Hcg Hc]. apply elem_of_cons in Hf as [->|Hf]; [lia|].
  pose proof (extent_nonneg _ _ Hcg). specialize (IH _ Hl Hc f Hf). lia.
Qed.

Lemma encode_fields_holds `{P : Platform} refs m fs : forall lo data,
  laid_out lo fs -> 0 <= lo -> Forall (codable refs) fs -> Forall (fun f => IsSkipped f = false -> field_carried refs m f) fs ->
  Forall (fun f => fieldReadEnd (last_access f) <= Z.of_nat (length data)) fs -> bytes_ok data ->
  (forall f i, f ∈ fs -> IsSkipped f = false -> fd_BitStart f <= i < fd_BitStart f + extent f -> Z.testbit (le_val data) i = true) ->
  exists data', encode_fields refs m fs data = Some data' /\ length data' = length data /\ bytes_ok data' /\
    Forall (fun f => IsSkipped f = false -> holds refs m f (le_val data')) fs /\
    forall i, 0 <= i < lo -> Z.testbit (le_val data') i = Z.testbit (le_val data) i.
Proof.
  induction fs as [|f fs IH]; intros lo data Hlay Hlo Hc Hm He Hok Hones.
  { exists data. split; [done|]. split; [done|]. split; [done|]. split; [constructor|done]. }
  destruct Hlay as [Hs Hlay]. pose proof Hc as Hcall. apply Forall_cons in Hc as [Hcf Hc]. apply Forall_cons in Hm as [Hmf Hm]. apply Forall_cons in He as [Hef He].
  pose proof (extent_nonneg _ _ Hcf) as Hx. cbn [encode_fields].
  assert (Hstep : exists data1, encode_field refs m data f = Some data1 /\ length data1 = length data /\ bytes_ok data1 /\
    (IsSkipped f = false -> holds refs m f (le_val data1)) /\
    forall i, 0 <= i -> i < lo \/ lo + extent f <= i -> Z.testbit (le_val data1) i = Z.testbit (le_val data) i).
  { destruct (IsSkipped f) eqn:Hsk.
    - exists data. unfold encode_field. rewrite Hsk. done.
    - destruct (encode_field_sets refs m f Hcf Hsk (Hmf eq_refl) data Hef Hok) as (data1 & E & L & O & Hh & Hu).
      { intros i Hi. apply (Hones f); [by left|done|done]. }
      exists data1. rewrite <- Hs. done. }
  destruct Hstep as (data1 & E1 & L1 & O1 & Hh1 & Hu1). rewrite E1. cbn [mbind option_bind].
  destruct (IH (lo + extent f) data1) as (data' & E & L & O & Hh & Hu); [done|lia|done|done| |done| |].
  - now rewrite L1.
  - intros g i Hg Hsg Hi. pose proof (laid_out_start refs _ _ Hlay Hc g Hg). rewrite Hu1 by lia. apply (Hones g); [by right|done|done].
  - exists data'. split; [done|]. split; [congruence|]. split; [done|]. split.
    + constructor; [|done]. intros Hsk. apply (holds_local refs m f (le_val data1)); [done|now apply Hh1|].
      intros i Hi. symmetry. apply Hu. lia.
    + intros i Hi. rewrite Hu by lia. apply Hu1; lia.
Qed.

Lemma decode_fields_holds `{P : Platform} refs m data fs : forall m0,
  Forall (codable refs) fs -> Forall (fun f => IsSkipped f = false -> field_carried refs m f) fs ->
  Forall (fun f => fieldReadEnd (last_access f) <= Z.of_nat (length data)) fs -> bytes_ok data ->
  Forall (fun f => IsSkipped f = false -> holds refs m f (le_val data)) fs ->
  NoDup (map fd_Name (List.filter (fun f => negb (IsSkipped f)) fs)) ->
  exists m', decode_fields refs data fs m0 = Some m' /\
    (forall f, f ∈ fs -> IsSkipped f = false -> m' !! fd_Name f = Some (expected refs m f)) /\
    (forall n, n ∉ map fd_Name (List.filter (fun f => negb (IsSkipped f)) fs) -> m' !! n = m0 !! n).
Proof.
  induction fs as [|f fs IH]; intros m0 Hc Hm He Hok Hh Hnd.
  { exists m0. split; [done|]. split; [intros f Hf; now apply elem_of_nil in Hf|done]. }
  apply Forall_cons in Hc as [Hcf Hc]. apply Forall_cons in Hm as [Hmf Hm]. apply Forall_cons in He as [Hef He]. apply Forall_cons in Hh as [Hhf Hh].
  cbn [decode_fields]. cbn [List.filter] in *. destruct (IsSkipped f) eqn:Hsk; cbn [negb] in *.
  - unfold decode_field. rewrite Hsk. cbn [mbind option_bind]. destruct (IH m0 Hc Hm He Hok Hh Hnd) as (m' & E & H1 & H2). exists m'.
    split; [done|]. split; [|done]. intros g [->|Hg]%elem_of_cons Hsg; [congruence|now apply H1].
  - rewrite (decode_field_holds refs m f Hcf Hsk (Hmf eq_refl) data m0 Hef Hok (Hhf eq_refl)). cbn [mbind option_bind map] in *.
    apply NoDup_cons in Hnd as [Hnin Hnd]. destruct (IH (<[fd_Name f := expected refs m f]> m0) Hc Hm He Hok Hh Hnd) as (m' & E & H1 & H2).
    exists m'. split; [done|]. split.
    + intros g [->|Hg]%elem_of_cons Hsg; [|now apply H1]. rewrite H2 by done. by rewrite lookup_insert_eq.
    + intros n Hn. apply not_elem_of_cons in Hn as [Hne Hn]. rewrite H2 by done. by rewrite lookup_insert_ne.
Qed.

(** ** Every bit of a field is in the buffer *)

Lemma word_within s bits : in_word s bits -> s + bits <= 8 * access_end s bits.
Proof.
  intros (Hs & Hb & Hw). pose proof (Z.mod_pos_bound s 8 ltac:(lia)). pose proof (Z.div_mod s 8 ltac:(lia)). unfold access_end.
  pose proof (access_width_fits (s mod 8) bits ltac:(lia) Hw). destruct (word_bytes _ (access_width_word (s mod 8) bits)). lia.
Qed.

Lemma extent_within refs f : codable refs f -> IsSkipped f = false ->
  fd_BitStart f + extent f <= 8 * fieldReadEnd (last_access f).
Proof.
  intros Hc Hskip. unfold extent, last_access. destruct (IsRepeated f) eqn:Hr.
  - assert (Hi : integer_field f) by (destruct (cd_type _ _ Hc Hskip) as [?|(_ & _ & ? & _)]; [done|congruence]).
    assert (H1 : 1 <= fd_RepeatCount f).
    { unfold IsRepeated in Hr. rewrite Z.gtb_ltb in Hr. apply Z.ltb_lt in Hr. lia. }
    assert (Hin : fd_RepeatCount f - 1 ∈ indices (fd_RepeatCount f)) by (apply elem_of_seqZ; lia).
    destruct (element_end f _ (codable_static refs f Hc) Hr (Z.le_refl _) _ Hin) as (_ & _ & Hend).
    pose proof (word_within _ _ (element_word refs f Hc Hskip _ Hr Hin)). lia.
  - destruct (cd_type _ _ Hc Hskip) as [Hi|([[Ht [k Hk]]|[Ht Hw]] & [j Hj] & _ & _)], (codable_cases refs f Hc) as (E1 & E2).
    + rewrite (codable_end refs f Hc) by done. apply word_within. now apply (field_word refs f Hc Hskip).
    + rewrite E1, Hj, Hk, !Z.div_mul by done. lia.
    + rewrite (E2 (fd_Bits f)), Hj, Z.div_mul by done.
      destruct Hw as [->| ->]; [change (32 / 8) with 4|change (64 / 8) with 8]; lia.
Qed.

Lemma codable_extent refs f : codable refs f -> static_bits f = extent f.
Proof.
  intros Hc. pose proof (extent_nonneg _ _ Hc) as Hx. destruct Hc as [Hs Hb Ht Hroom _]. unfold static_bits, extent in *.
  assert (Hv : variable_width f = false).
  { unfold variable_width. destruct (fd_Type f) eqn:E; try done; exfalso;
      (assert (Hsk : IsSkipped f = false) by (unfold IsSkipped, IsReserved, IsUnknown; rewrite E; done));
      destruct (Ht Hsk) as [[[?|[?|?]] _]|([[? _]|[? _]] & _)]; congruence. }
  rewrite Hv. destruct (IsRepeated f) eqn:Hr; [|done]. apply i64_small. specialize (Hroom eq_refl). lia.
Qed.

Lemma le_val_ones n : le_val (replicate n 255) = Z.ones (8 * Z.of_nat n).
Proof.
  induction n as [|n IH]; [done|]. cbn [replicate le_val]. rewrite IH, !Z.ones_equiv, Nat2Z.inj_succ.
  replace (8 * Z.succ (Z.of_nat n)) with (8 + 8 * Z.of_nat n) by lia. rewrite Z.pow_add_r by lia. change (2 ^ 8) with 256. lia.
Qed.

Lemma testbit_app a b i : bytes_ok a -> 0 <= i < 8 * Z.of_nat (length a) -> Z.testbit (le_val (a ++ b)) i = Z.testbit (le_val a) i.
Proof. intros Ha Hi. rewrite le_val_app, testbit_concat by (apply le_val_lt || lia; done || lia). now rewrite (proj2 (Z.ltb_lt _ _)) by lia. Qed.

(** The names of the fields of the struct. *)
Definition field_names (fs : list FieldDef) : list string := map fd_Name (List.filter (fun f => negb (IsSkipped f)) fs).

Section codec.
Context `{P : Platform} (ns : name_sets) (fs : list FieldDef) (m : message).
Context (Hres : fields_resolved ns [] fs) (Hcod : Forall (codable (referencedFields fs)) fs) (Hnames : NoDup (field_names fs)).
Context (Hmsg : Forall (fun f => IsSkipped f = false -> field_carried (referencedFields fs) m f) fs).

(** The payload [Encode] gives has the bits of every field, and is read back with
    any bytes after it. *)
Lemma encode_holds : exists data, Encode fs m = Some data /\ Z.of_nat (length data) = minBufferBytes fs /\ bytes_ok data /\
  Forall (fun f => IsSkipped f = false -> holds (referencedFields fs) m f (le_val data)) fs.
Proof.
  pose proof (minBufferBytes_nonneg fs) as Hn. unfold Encode.
  assert (Hlay : laid_out 0 fs).
  { apply (resolved_laid_out ns fs [] Hres). apply (Forall_impl _ _ _ Hcod). intros f. apply codable_extent. }
  destruct (encode_fields_holds (referencedFields fs) m fs 0 (replicate (Z.to_nat (minBufferBytes fs)) 255)) as (data & E & L & O & Hh & _);
    try done.
  - apply Forall_forall. intros f Hf. rewrite length_replicate, Z2Nat.id by done. now apply minBufferBytes_bound.
  - apply Forall_replicate. unfold byte_ok. lia.
  - intros f i Hf Hsk Hi. rewrite Forall_forall in Hcod. pose proof (extent_within _ f (Hcod f Hf) Hsk).
    pose proof (minBufferBytes_bound fs f Hf). pose proof (cd_start _ _ (Hcod f Hf)).
    rewrite le_val_ones, testbit_ones by lia. apply Z.ltb_lt. lia.
  - exists data. split; [done|]. split; [rewrite L, length_replicate; lia|]. done.
Qed.

Lemma holds_reads data extra : Z.of_nat (length data) = minBufferBytes fs -> bytes_ok data -> bytes_ok extra ->
  Forall (fun f => IsSkipped f = false -> holds (referencedFields fs) m f (le_val data)) fs ->
  exists m', Decode fs (data ++ extra) = Some m' /\
    forall f, f ∈ fs -> IsSkipped f = false -> m' !! fd_Name f = Some (expected (referencedFields fs) m f).
Proof.
  intros L O Ox Hh. unfold Decode, pad. rewrite length_app.
  replace (Z.to_nat (minBufferBytes fs) - (length data + length extra))%nat with 0%nat by lia. cbn [replicate]. rewrite app_nil_r.
  destruct (decode_fields_holds (referencedFields fs) m (data ++ extra) fs ∅) as (m' & E & H & _); [done|done| | | |done|].
  - apply Forall_forall. intros f Hf. rewrite length_app. pose proof (minBufferBytes_bound fs f Hf). lia.
  - now apply Forall_app.
  - rewrite Forall_forall in Hh, Hcod |- *. intros f Hf Hsk. apply (holds_local _ m f (le_val data)); [now apply Hcod|now apply Hh|].
    intros i Hi. pose proof (extent_within _ f (Hcod f Hf) Hsk). pose proof (minBufferBytes_bound fs f Hf).
    pose proof (cd_start _ _ (Hcod f Hf)). symmetry. apply testbit_app; [done|lia].
  - exists m'. done.
Qed.
End codec.

(** C8: The generated codecs agree on the values a field can carry. Take a
    resolved PGN of fixed width with distinct field names, whose fields are integers
    and enumerations, or strings and stored floats on whole bytes, neither repeated
    nor constrained, whose repeats end below bit 2^63, and whose statements compile
    ([codable]). Take a message in which every field that is not skipped holds a
    value it can carry ([field_carried]): an integer in the field's range that is
    not its sentinel for "not available" - where a nullable signed field narrower
    than its Go type carries no negative value, since [Decode] does not extend the
    sign ([narrow_signed_not_extended]), and an enumeration no more than a byte -;
    for a scaled field a float that is the scaled image of such an integer and that
    division and rounding take back to it; nil for a nullable field; a string that
    fits, without the bytes 0 and 255 and not ending in a trimmed character; any
    bits of a stored float; all elements of a repeated field; and a fixed value in
    range for a constrained one. Then [Encode] gives a payload of exactly the size
    of the buffer, and [Decode] of that payload, with any bytes after it, gives
    every such field the value it had, or the fixed value of a constrained field. *)
Theorem codec_roundtrip `{P : Platform} ns fs m :
  fields_resolved ns [] fs -> Forall (codable (referencedFields fs)) fs -> NoDup (field_names fs) ->
  Forall (fun f => IsSkipped f = false -> field_carried (referencedFields fs) m f) fs ->
  exists data, Encode fs m = Some data /\ Z.of_nat (length data) = minBufferBytes fs /\
    forall extra, bytes_ok extra -> exists m', Decode fs (data ++ extra) = Some m' /\
      forall f, f ∈ fs -> IsSkipped f = false -> m' !! fd_Name f = Some (expected (referencedFields fs) m f).
Proof.
  intros Hres Hcod Hnames Hmsg. destruct (encode_holds ns fs m Hres Hcod Hmsg) as (data & E & L & O & Hh).
  exists data. split; [done|]. split; [done|]. intros extra Ox. now apply holds_reads.
Qed.

(** * Dispatch *)

Lemma NoDup_omap_inj {A B} (g : A -> option B) (l : list A) x y v :
  NoDup (omap g l) -> x ∈ l -> y ∈ l -> g x = Some v -> g y = Some v -> x = y.
Proof.
  induction l as [|a l IH]; intros Hn Hx Hy Ex Ey; [now apply elem_of_nil in Hx|]. cbn [omap list_omap] in Hn.
  assert (Hin : forall z, z ∈ l -> g z = Some v -> v ∈ omap g l) by (intros z Hz Ez; apply list_elem_of_omap; eauto).
  apply elem_of_cons in Hx as [->|Hx], Hy as [->|Hy]; [done| | |].
  - rewrite Ex in Hn. apply NoDup_cons in Hn as [Hn _]. now destruct Hn; apply (Hin y).
  - rewrite Ey in Hn. apply NoDup_cons in Hn as [Hn _]. now destruct Hn; apply (Hin x).
  - apply IH; try done. destruct (g a); [now apply NoDup_cons in Hn as [_ Hn]|done].
Qed.

(** The variant with a value is chosen for it, whatever the order. *)
Lemma choose_variant ps p v : NoDup (omap match_value ps) -> p ∈ ps -> match_value p = Some v -> choose ps v = Some p.
Proof.
  intros Hn Hp Hv. unfold choose. destruct (List.find _ ps) as [q|] eqn:E.
  - apply List.find_some in E as [Hq Eq]. apply bool_decide_eq_true in Eq. apply list_elem_of_In in Hq. f_equal.
    now apply (NoDup_omap_inj match_value ps q p v).
  - apply list_elem_of_In in Hp. pose proof (List.find_none _ _ E p Hp) as H. apply bool_decide_eq_false in H. done.
Qed.

Lemma dispatch_field_place ps p d : dispatchable ps -> p ∈ ps -> discriminatorField p = Some d ->
  exists q, q ∈ ps /\ discriminatorField q = Some (dispatch_field ps) /\
    fd_BitStart (dispatch_field ps) = fd_BitStart d /\ fd_Bits (dispatch_field ps) = fd_Bits d.
Proof.
  intros [(disc & _ & Hsame) _ _ _] Hp Hd. unfold dispatch_field.
  assert (Hin : d ∈ omap discriminatorField ps) by (apply list_elem_of_omap; eauto).
  destruct (omap discriminatorField ps) as [|e es] eqn:E; [now apply elem_of_nil in Hin|]. 
  change (default (plain_field "" TypeUint 0) (head (e :: es))) with e.
  assert (He : e ∈ omap discriminatorField ps) by (rewrite E; by left). apply list_elem_of_omap in He as (q & Hq & Ee).
  exists q. split; [done|]. split; [done|]. pose proof (Hsame p d Hp Hd) as H1. pose proof (Hsame q e Hq Ee) as H2.
  unfold same_place in *. to_props. lia.
Qed.

Lemma variant_of p pgn ps : p ∈ variants pgn ps -> exists q qs, variants pgn ps = q :: qs.
Proof. intros H. destruct (variants pgn ps) as [|q qs]; [now apply elem_of_nil in H|eauto]. Qed.

(** A discriminator that can be read: an integer, and the value is one of its. *)
Record readable_discriminator (ps : list PGNDef) (d : FieldDef) (v : Z) : Prop := {
  rd_integer : integer_field d;
  rd_plain : IsRepeated d = false /\ IsSkipped d = false;
  rd_access : integer_access (dispatch_field ps);
  rd_value : 0 <= v < 2 ^ fd_Bits d
}.

(** C9: What a variant encodes is decoded as that variant. Take the variants of
    a PGN number as resolution accepts them (one discriminating place, distinct
    fixed values, at most one default: [dispatchable]) and one with a fixed value in
    the discriminator, an integer field neither repeated nor skipped whose fixed
    value fits its bits as an unsigned number ([readable_discriminator]), of fixed
    width, resolved, with distinct field names, whose fields and message values meet
    the conditions of [codec_roundtrip] ([codable] and [field_carried]: in
    particular no sentinel and no negative value of a nullable signed field narrower
    than its Go type). Then the payload [Encode] gives for it, followed by any
    bytes, goes through the registry's decoder of the number to the decoder of the
    same variant, and every field that is not skipped is read back with the value it
    had, or its fixed value: no other variant of the number takes the payload,
    whatever their order in the file. *)
Theorem registry_roundtrip `{P : Platform} table sds ns ps pgn p d v m :
  p ∈ variants pgn ps -> dispatchable (variants pgn ps) ->
  discriminatorField p = Some d -> fd_MatchValue d = Some v -> readable_discriminator (variants pgn ps) d v ->
  PGN_HasVariableWidth p = false -> fields_resolved ns [] (pgn_fields p) ->
  Forall (codable (referencedFields (pgn_fields p))) (pgn_fields p) -> NoDup (field_names (pgn_fields p)) ->
  Forall (fun f => IsSkipped f = false -> field_carried (referencedFields (pgn_fields p)) m f) (pgn_fields p) ->
  exists data decode, Encode (pgn_fields p) m = Some data /\ registry_decode table sds ps pgn = Some decode /\
    forall extra, bytes_ok extra -> exists m', decode (data ++ extra) = Some (Ok (Some (p, m'))) /\
      forall f, f ∈ pgn_fields p -> IsSkipped f = false -> m' !! fd_Name f = Some (expected (referencedFields (pgn_fields p)) m f).
Proof.
  intros Hp Hdisp Hd Hv [Hi [Hr Hsk] Hacc Hrange] Hstatic Hres Hcod Hnames Hmsg.
  destruct (encode_holds ns (pgn_fields p) m Hres Hcod Hmsg) as (data & E & L & O & Hh).
  destruct (variant_of p pgn ps Hp) as (q & qs & Hvs). pose proof Hd as Hdf. apply List.find_some in Hdf as [Hdin _]. apply list_elem_of_In in Hdin.
  assert (Hneeds : needsDispatch (variants pgn ps) = true).
  { unfold needsDispatch. apply orb_true_iff. right. apply existsb_exists. exists p. split; [now apply list_elem_of_In|].
    unfold hasMatchValues. apply bool_decide_eq_true. rewrite Hd. by eexists. }
  exists data, (dispatch table sds pgn (variants pgn ps)). split; [done|]. unfold registry_decode. rewrite Hneeds, Hvs. split; [done|].
  rewrite <- Hvs. intros extra Ox. destruct (holds_reads (pgn_fields p) m Hcod Hnames Hmsg data extra L O Ox Hh) as (m' & Em & Hm').
  exists m'. split; [|done]. destruct (dispatch_field_place _ p d Hdisp Hp Hd) as (_ & _ & _ & Es & Eb).
  rewrite Forall_forall in Hcod, Hh. pose proof (Hcod d Hdin) as Hcd. pose proof (Hh d Hdin Hsk) as Hhd. unfold holds in Hhd. rewrite Hr, Hv in Hhd.
  pose proof (field_word _ d Hcd Hsk Hr Hi) as Hw. pose proof (word_small d _ Hw) as Hb64.
  pose proof (minBufferBytes_bound _ d Hdin) as Hend. unfold last_access in Hend. rewrite Hr, (codable_end _ d Hcd) in Hend by done.
  pose proof (word_within _ _ Hw) as Hwith. pose proof (cd_start _ _ Hcd) as Hs0.
  unfold dispatch. rewrite fieldReadEnd_integer by (done || (rewrite Es; done)). rewrite Es, Eb, length_app.
  rewrite (proj2 (Z.ltb_ge _ _)) by lia.
  rewrite readBitsExpr_unsigned; [|lia|done|unfold reaches, access_end in *; rewrite length_app; lia|now apply Forall_app].
  cbn [mbind option_bind].
  assert (Hr' : bits_at (le_val (data ++ extra)) (8 * 0 + fd_BitStart d) (fd_Bits d) = v).
  { rewrite <- (Z.mod_small v (2 ^ fd_Bits d)), <- Hhd by done. apply bits_at_local; [lia|lia|]. intros i Hi'. apply testbit_app; [done|lia]. }
  rewrite Hr'. cbn [convert uintGoType]. rewrite wrap_small.
  - rewrite (choose_variant _ p v); [|apply Hdisp|done|unfold match_value; now rewrite Hd].
    unfold decode_variant. rewrite Hstatic, Em. done.
  - destruct (type_width_cover (fd_Bits d)) as [[? ?] ?]; [lia|]. pose proof (Z.pow_le_mono_r 2 (fd_Bits d) (type_width (fd_Bits d))). lia.
Qed.

(** * A small PGN *)

#[export] Instance demo_platform : Platform := {| float_overflow _ _ := 0 |}.

Definition with_scale (scale : float64) (f : FieldDef) : FieldDef :=
  mkField (fd_Name f) (fd_Type f) (fd_Bits f) 0 scale (fd_Offset f) "" "" "" "" "" "" "" None (fd_Signed f) None 0 "" "" "" "" 0.

Definition demo_fields : list FieldDef := Eval vm_compute in
  struct_layout 0
    [plain_field "sid" TypeUint 8; with_scale (float_of_decimal false 1 (-4)) (plain_field "wind_angle" TypeInt 16);
     with_enum "WindReference" (plain_field "wind_reference" TypeEnum 3); plain_field "_" TypeReserved 5;
     plain_field "name" TypeString 64; plain_field "pressure" TypeFloat 32; with_repeat 3 "" (plain_field "levels" TypeUint 4)].

Definition demo_angle : float64 := Eval vm_compute in apply_scale (nth 1 demo_fields (plain_field "" TypeUint 0)) (-12345).

Definition demo_message : message :=
  <["sid" := One VNil]> (<["wind_angle" := One (VFloat demo_angle)]> (<["wind_reference" := One (VInt 2)]>
  (<["name" := One (VStr [78; 77; 69; 65])]> (<["pressure" := One (VBits 1120403456)]>
  (<["levels" := Items [VInt 1; VInt 2; VInt 15]]> ∅)))))%string.

Example demo_payload : Encode demo_fields demo_message =
  Some [255; 199; 207; 250; 78; 77; 69; 65; 255; 255; 255; 255; 0; 0; 200; 66; 33; 255].
Proof. vm_compute. reflexivity. Qed.

Definition demo_sets : name_sets := mkNameSets {["WindReference"]}%string ∅ ∅.

Lemma demo_resolves : fields_resolved demo_sets [] demo_fields.
Proof.
  apply (resolve_fields_ok demo_sets demo_fields [] ∅ demo_fields).
  - vm_compute. reflexivity.
  - intros n g H. done.
  - repeat (apply Forall_cons; split; [vm_compute; congruence|]). apply Forall_nil_2.
  - vm_compute. reflexivity.
Qed.

Ltac solve_codable :=
  split; [vm_compute; congruence|vm_compute; congruence| |intros _; vm_compute; reflexivity|intros _; vm_compute; reflexivity];
  intros Hskip; first
    [ by vm_compute in Hskip
    | left; split; [solve [auto]|reflexivity]
    | right; split; [solve [left; split; [reflexivity|now exists 8]|auto]|];
      split; [first [now exists 4|now exists 12]|split; reflexivity]].

Lemma demo_codable : Forall (codable (referencedFields demo_fields)) demo_fields.
Proof. repeat (apply Forall_cons; split; [solve_codable|]). apply Forall_nil_2. Qed.

(** A field with the value [v] of the message. *)
Lemma field_carried_one `{P : Platform} refs m f v : IsRepeated f = false -> fd_MatchValue f = None -> field_of refs m f = v ->
  match v with
  | VStr s => fd_Type f = TypeString /\ string_carried (fd_Bits f / 8) (fd_Trim f) s
  | VBits z => fd_Type f = TypeFloat /\ 0 <= z < 2 ^ fd_Bits f
  | v => integer_field f /\ carried f (isNullable f refs) v
  end -> field_carried refs m f.
Proof. intros Hr Hm Hv H. unfold field_carried. rewrite Hr, Hm, Hv. destruct v; exact H. Qed.

Ltac solve_fits := split; [vm_compute; split; congruence|first [discriminate|intros _; vm_compute; reflexivity]].
Ltac solve_integer := split; [solve [auto]|reflexivity].

Lemma demo_carried : Forall (fun f => IsSkipped f = false -> field_carried (referencedFields demo_fields) demo_message f) demo_fields.
Proof.
  unfold demo_fields at 2. repeat (apply Forall_cons; split; [intros Hskip|]); [| | | | | | |apply Forall_nil_2].
  - apply field_carried_one with VNil; [reflexivity..|]. split; [solve_integer|reflexivity].
  - apply field_carried_one with (VFloat demo_angle); [reflexivity..|]. split; [solve_integer|]. split; [reflexivity|].
    exists (-12345). split; [solve_fits|]. split; vm_compute; reflexivity.
  - apply field_carried_one with (VInt 2); [reflexivity..|]. split; [solve_integer|]. split; [reflexivity|solve_fits].
  - done.
  - apply field_carried_one with (VStr [78; 77; 69; 65]); [reflexivity..|]. split; [done|].
    split; [vm_compute; congruence|]. split; [unfold bytes_ok, byte_ok; repeat (apply Forall_cons; split; [lia|]); apply Forall_nil_2|].
    split; [repeat (apply Forall_cons; split; [lia|]); apply Forall_nil_2|done].
  - apply field_carried_one with (VBits 1120403456); [reflexivity..|]. split; [done|]. vm_compute. split; congruence.
  - exists [VInt 1; VInt 2; VInt 15]. split; [reflexivity|]. split; [reflexivity|].
    repeat (apply Forall_cons; split; [split; [reflexivity|solve_fits]|]). apply Forall_nil_2.
Qed.

Lemma demo_names : NoDup (field_names demo_fields).
Proof. apply (bool_decide_unpack _). vm_compute. exact I. Qed.

Lemma codec_roundtrip_witness : exists data, Encode demo_fields demo_message = Some data /\
  Z.of_nat (length data) = minBufferBytes demo_fields /\
  forall extra, bytes_ok extra -> exists m', Decode demo_fields (data ++ extra) = Some m' /\
    forall f, f ∈ demo_fields -> IsSkipped f = false ->
      m' !! fd_Name f = Some (expected (referencedFields demo_fields) demo_message f).
Proof. exact (codec_roundtrip demo_sets demo_fields demo_message demo_resolves demo_codable demo_names demo_carried). Defined.

Lemma codec_in_bounds_witness :
  minBufferBytes demo_fields = 18 /\
  (forall data, exists m, Decode demo_fields data = Some m) /\
  (forall m, Forall (message_typed (referencedFields demo_fields) m) demo_fields ->
     exists data, Encode demo_fields m = Some data /\ Z.of_nat (length data) = minBufferBytes demo_fields).
Proof.
  split; [vm_compute; reflexivity|]. apply (codec_in_bounds demo_fields).
  apply Forall_forall. intros f Hf. pose proof demo_codable as Hc. rewrite Forall_forall in Hc. split.
  - exact (codable_static _ f (Hc f Hf)).
  - intros Hm. exfalso. apply Hm. clear -Hf. unfold demo_fields in Hf. repeat (apply elem_of_cons in Hf as [->|Hf]; [reflexivity|]).
    now apply elem_of_nil in Hf.
Defined.

(** Two variants of a number: one with a fixed manufacturer, and the rest. *)
Definition demo_victron : PGNDef := nth 2 (sc_PGNs demo_resolved) (plain_pgn 0 "" []).
Definition victron_message : message := {["register" := One (VInt 60927)]}%string.

Lemma victron_resolves : fields_resolved (schema_sets demo_schema) [] (pgn_fields demo_victron).
Proof.
  apply (resolve_fields_ok (schema_sets demo_schema) (pgn_fields demo_victron) [] ∅).
  - vm_compute. reflexivity.
  - intros n g H. done.
  - repeat (apply Forall_cons; split; [vm_compute; congruence|]). apply Forall_nil_2.
  - vm_compute. reflexivity.
Qed.

Lemma registry_roundtrip_witness :
  (data ← Encode (pgn_fields demo_victron) victron_message;
   decode ← registry_decode ∅ [] (sc_PGNs demo_resolved) 61184;
   r ← decode (data ++ [7]);
   match r with Ok (Some (p, m)) => Some (data, pd_Description p, m !! "register"%string) | _ => None end) =
    Some ([102; 249; 111; 255; 255], "Victron"%string, Some (One (VInt 60927))) /\
  exists data decode, Encode (pgn_fields demo_victron) victron_message = Some data /\
    registry_decode ∅ [] (sc_PGNs demo_resolved) 61184 = Some decode /\
    forall extra, bytes_ok extra -> exists m', decode (data ++ extra) = Some (Ok (Some (demo_victron, m'))) /\
      forall f, f ∈ pgn_fields demo_victron -> IsSkipped f = false ->
        m' !! fd_Name f = Some (expected (referencedFields (pgn_fields demo_victron)) victron_message f).
Proof.
  split; [vm_compute; reflexivity|].
  apply (registry_roundtrip ∅ [] (schema_sets demo_schema) (sc_PGNs demo_resolved) 61184 demo_victron
    (nth 0 (pgn_fields demo_victron) (plain_field "" TypeUint 0)) 358 victron_message).
  - left.
  - apply (validateDispatchGroup_ok 61184). vm_compute. reflexivity.
  - vm_compute. reflexivity.
  - reflexivity.
  - split; [split; [auto|reflexivity]|split; reflexivity|split; [|intros H]; discriminate|vm_compute; split; congruence].
  - reflexivity.
  - exact victron_resolves.
  - repeat (apply Forall_cons; split; [solve_codable|]). apply Forall_nil_2.
  - apply (bool_decide_unpack _). vm_compute. exact I.
  - repeat (apply Forall_cons; split; [intros _|]); [| |apply Forall_nil_2].
    + split; [reflexivity|solve_fits].
    + apply field_carried_one with (VInt 60927); [reflexivity..|]. split; [solve_integer|]. split; [reflexivity|solve_fits].
Defined.
