(* ===== verification/PgnVariable.v ===== *)
(** The decoders of variable-width PGNs do not panic: the checks on the
    definitions under which the cursor stays inside the payload, and the
    definitions outside them. *)

From S2P Require Import Prelude GoNum PgnSchema PgnBits PgnCodec PgnRoundTrip.

(** * Definitions the cursor can follow *)

(** A field the loops can count with: an unsigned integer of the static prefix, of
    [w] bits at most. *)
Definition count_field (w : Z) (ref : string) (g : FieldDef) : bool :=
  bool_decide (fd_Name g = ref) && bool_decide (fd_Type g = TypeUint) && negb (fd_Signed g) && negb (HasScaling g) &&
  (1 <=? fd_Bits g) && (fd_Bits g <=? w) && (fd_BitStart g mod 8 + fd_Bits g <=? 64).

Definition counts (w : Z) (prefix : list FieldDef) (ref : string) : bool :=
  negb (bool_decide (ref = EmptyString)) && existsb (count_field w ref) prefix.

(** Entries that contain what is read of them. *)
Definition fixed_struct_ok (sd : StructDef) : bool :=
  (0 <? FixedEntryBytes sd) &&
  forallb (fun f => IsSkipped f || ((0 <=? fd_BitStart f) && (access_end (fd_BitStart f) (fd_Bits f) <=? FixedEntryBytes sd)))
    (sd_Fields sd).

(** Entries of whole words and strings, with no gap of a byte or more. *)
Definition var_struct_ok (sd : StructDef) : bool :=
  forallb (fun f => bool_decide (fd_Type f = TypeStringLAU) ||
    (if IsSkipped f then fd_Bits f <? 8 else (fd_BitStart f mod 8 =? 0) && standard_width (fd_Bits f))) (sd_Fields sd).

Definition tail_ok (sds : list StructDef) (prefix : list FieldDef) (f : FieldDef) : bool :=
  match fd_Type f with
  | TypeReserved | TypeUnknown | TypeStringLAU => true
  | TypeStruct =>
      counts 16 prefix (fd_RepeatRef f) &&
      match struct_named sds (fd_StructRef f) with
      | Some sd => (0 <=? entry_size sd) && (entry_size sd <=? 2 ^ 32) && if Struct_HasVariableWidth sd then var_struct_ok sd else fixed_struct_ok sd
      | None => false
      end
  | TypeBytes => bool_decide (fd_PGNRef f = EmptyString) || (counts 62 prefix (fd_PGNRef f) && counts 62 prefix (fd_CountRef f))
  | _ => false
  end.

Definition prefix_ok (n : Z) (f : FieldDef) : bool :=
  (0 <=? fd_BitStart f) && (0 <=? fd_Bits f) && (fieldReadEnd f <=? n).

Definition cursor_ok (sds : list StructDef) (fs : list FieldDef) : bool :=
  let '(prefix, tail) := split_static fs in
  (0 <=? static_bytes fs) && forallb (prefix_ok (static_bytes fs)) prefix && forallb (tail_ok sds prefix) tail.

(** * The cursor stays inside *)

Lemma slice_from off data : 0 <= off <= Z.of_nat (length data) ->
  slice_of off (Z.of_nat (length data)) data = Some (drop (Z.to_nat off) data).
Proof.
  intros Ho. unfold slice_of. rewrite (proj2 (Z.leb_le 0 _)), (proj2 (Z.leb_le off _)), Z.leb_refl by lia. cbn [andb]. f_equal.
  unfold slice. rewrite Nat2Z.id. apply take_ge. rewrite length_drop. lia.
Qed.

Lemma decodeLAU_consumes data : bytes_ok data -> 0 <= (decodeLAU data).2 <= Z.of_nat (length data).
Proof.
  intros Hok. unfold decodeLAU. destruct data as [|n [|e data]]; cbn [snd]; [cbn; lia|cbn; lia|].
  apply Forall_cons in Hok as [Hn _]. unfold byte_ok in Hn. destruct (Z.ltb_spec n 2); [cbn; lia|].
  repeat case_step; cbn [snd length]; lia.
Qed.

Section cursor.
Context (refs : gset string) (data : list Z) (Hok : bytes_ok data).

Let len := Z.of_nat (length data).

Lemma lau_inside off : 0 <= off <= len -> exists s n,
  slice_of off len data = Some (drop (Z.to_nat off) data) /\ decodeLAU (drop (Z.to_nat off) data) = (s, n) /\ 0 <= n /\ off + n <= len.
Proof.
  intros Ho. pose proof (decodeLAU_consumes (drop (Z.to_nat off) data) ltac:(now apply Forall_drop)) as Hn.
  rewrite length_drop in Hn. destruct (decodeLAU (drop (Z.to_nat off) data)) as [s n] eqn:E. exists s, n.
  split; [now apply slice_from|]. split; [done|]. cbn [snd] in Hn. unfold len in *. lia.
Qed.

(** ** Entries of fixed width *)

Lemma struct_fields_inside base fs size : 0 <= base -> base + size <= len ->
  forallb (fun f => IsSkipped f || ((0 <=? fd_BitStart f) && (access_end (fd_BitStart f) (fd_Bits f) <=? size))) fs = true ->
  forall e, is_Some (struct_fields refs base data fs e).
Proof.
  intros Hb Hl. induction fs as [|f fs IH]; intros H e; [by eexists|]. cbn [forallb] in H. apply andb_true_iff in H as [Hf H].
  cbn [struct_fields]. destruct (IsSkipped f); [now apply IH|]. cbn [orb] in Hf. to_props.
  destruct (decode_integer_defined base (fd_BitStart f) f refs data) as [v ->]; [|fold len; lia|now apply IH].
  pose proof (Z.div_pos (fd_BitStart f) 8). lia.
Qed.

Lemma fixed_entries_inside sd : fixed_struct_ok sd = true -> forall count off, 0 <= off -> off + Z.of_nat count * FixedEntryBytes sd <= len ->
  exists es off', fixed_entries refs sd count off data = Some (es, off') /\ off <= off' <= len.
Proof.
  unfold fixed_struct_ok. intros H. apply andb_true_iff in H as [Hp Hf]. apply Z.ltb_lt in Hp.
  induction count as [|count IH]; intros off Ho Hl; [exists [], off; split; [done|lia]|]. cbn [fixed_entries].
  destruct (struct_fields_inside off (sd_Fields sd) (FixedEntryBytes sd) Ho) with (e := ∅ : gmap string fval) as [e ->]; [nia|done|].
  cbn [mbind option_bind]. destruct (IH (off + FixedEntryBytes sd)) as (es & off' & -> & Hi); [lia|nia|].
  cbn [mbind option_bind]. exists (e :: es), off'. split; [done|lia].
Qed.

(** ** Entries of variable width *)

Lemma var_fields_inside fs : forallb (fun f => bool_decide (fd_Type f = TypeStringLAU) ||
    (if IsSkipped f then fd_Bits f <? 8 else (fd_BitStart f mod 8 =? 0) && standard_width (fd_Bits f))) fs = true ->
  forall off e, 0 <= off <= len -> exists r off', var_struct_fields refs off data fs e = Some (r, off') /\ 0 <= off' <= len.
Proof.
  induction fs as [|f fs IH]; intros H off e Ho; [exists (Some e), off; done|]. cbn [forallb] in H. apply andb_true_iff in H as [Hf H].
  specialize (IH H). cbn [var_struct_fields]. fold len. destruct (bool_decide (fd_Type f = TypeStringLAU)); cbn [orb] in Hf.
  - destruct (lau_inside off Ho) as (s & n & -> & E & Hn & Hl). cbn [mbind option_bind]. rewrite E.
    destruct (n =? 0); [exists None, off; done|]. apply IH. lia.
  - destruct (IsSkipped f).
    + apply Z.ltb_lt in Hf. apply IH. pose proof (Z.div_lt_upper_bound (fd_Bits f) 8 1). lia.
    + apply andb_true_iff in Hf as [E0%Z.eqb_eq Es]. pose proof (word_bytes _ (standard_width_word _ Es)) as Hw.
      destruct (Z.ltb_spec 0 (fd_Bits f / 8)); [|lia]. cbn [andb]. destruct (Z.ltb_spec len (off + fd_Bits f / 8)); [exists None, off; done|].
      rewrite E0. destruct (decode_integer_defined off 0 f refs data) as [v Ev].
      * change (0 / 8) with 0. lia.
      * unfold access_end, access_width. change (0 mod 8 =? 0) with true. rewrite Es. cbn [andb]. fold len. change (0 / 8) with 0. lia.
      * change (0 / 8) with 0 in Ev. change (0 mod 8) with 0 in Ev. rewrite Ev. cbn [mbind option_bind]. apply IH. lia.
Qed.

Lemma var_entries_inside sd : var_struct_ok sd = true -> forall count off, 0 <= off <= len ->
  exists es off', var_entries refs sd count off data = Some (es, off') /\ 0 <= off' <= len.
Proof.
  intros H. induction count as [|count IH]; intros off Ho; [exists [], off; done|]. cbn [var_entries].
  destruct (Z.of_nat (length data) <? off + minStructFixedBytes sd); [exists [], off; done|].
  destruct (var_fields_inside (sd_Fields sd) H off ∅ Ho) as (r & off1 & -> & Ho1). cbn [mbind option_bind].
  destruct r as [e|]; [|exists [], off1; done]. destruct (IH off1 Ho1) as (es & off' & -> & Ho'). exists (e :: es), off'. done.
Qed.
End cursor.

(** * The fields of a PGN *)

Lemma split_static_app fs : fs = (split_static fs).1 ++ (split_static fs).2.
Proof.
  induction fs as [|f fs IH]; [done|]. cbn [split_static]. destruct (variable_width f); [done|].
  destruct (split_static fs) as [a b]. cbn [fst snd app] in *. now rewrite <- IH.
Qed.

(** The message has a number for every count. *)
Definition counted (prefix : list FieldDef) (refs : gset string) (m : message) : Prop :=
  forall w ref, counts w prefix ref = true -> ref ∈ refs -> exists z, m !! ref = Some (One (VInt z)) /\ 0 <= z < 2 ^ w.

Lemma counted_count_of prefix refs m w ref : counted prefix refs m -> w <= 62 -> counts w prefix ref = true -> ref ∈ refs ->
  exists z, count_of m ref = Some z /\ 0 <= z < 2 ^ w.
Proof.
  intros Hm Hw Hr Hin. destruct (Hm w ref Hr Hin) as (z & E & Hz). exists z. unfold count_of. rewrite E.
  pose proof (Z.pow_le_mono_r 2 w 62 ltac:(lia) Hw). rewrite i64_small by lia. done.
Qed.

Lemma count_field_props w ref g : count_field w ref g = true ->
  fd_Name g = ref /\ fd_Type g = TypeUint /\ fd_Signed g = false /\ HasScaling g = false /\ 1 <= fd_Bits g <= w /\
  fd_BitStart g mod 8 + fd_Bits g <= 64.
Proof. unfold count_field. intros H. to_props. auto 10. Qed.

Section decoder.
Context (table : field_table) (sds : list StructDef) (refs : gset string) (data : list Z) (Hok : bytes_ok data).

Let len := Z.of_nat (length data).

(** The value of a field that counts. *)
Lemma count_field_reads w ref g : count_field w ref g = true -> ref ∈ refs -> 0 <= fd_BitStart g -> fieldReadEnd g <= len ->
  exists z, exec_decode 0 data (writeDecodeField g refs) = Some (VInt z) /\ 0 <= z < 2 ^ w.
Proof.
  intros (Hname & Ht & Hsg & Hsc & Hb & Hw8)%count_field_props Hin Hs He. subst ref.
  assert (Hi : integer_field g) by (split; [now left|rewrite Hsg, Ht; done]).
  assert (Ha : integer_access g) by (split; congruence).
  destruct (writeDecodeField_cases g refs) as (_ & _ & C). rewrite C by done. rewrite fieldReadEnd_integer in He by done.
  assert (Hn : isNullable g refs = false).
  { unfold isNullable. destruct (_ || _); [done|]. now rewrite bool_decide_true. }
  assert (Hw : in_word (fd_BitStart g) (fd_Bits g)) by (split; [done|split; lia]).
  exists (bits_at (le_val data) (fd_BitStart g) (fd_Bits g)). split.
  - rewrite decode_integer_reads by (done || congruence). rewrite Hn. unfold read_value, raw_int. cbn [andb]. rewrite Hsg, Hsc.
    rewrite bool_decide_false by congruence. done.
  - pose proof (bits_at_range (le_val data) (fd_BitStart g) (fd_Bits g) ltac:(lia)). pose proof (Z.pow_le_mono_r 2 (fd_Bits g) w). lia.
Qed.

Lemma decode_prefix_inside prefix n : n <= len -> forallb (prefix_ok n) prefix = true -> NoDup (field_names prefix) ->
  forall m, exists m', decode_prefix refs data prefix m = Some m' /\ counted prefix refs m' /\
    forall name, name ∉ field_names prefix -> m' !! name = m !! name.
Proof.
  intros Hn. induction prefix as [|f fs IH]; intros H Hnd m.
  { exists m. split; [done|]. split; [|done]. intros w ref Hr. unfold counts in Hr. cbn in Hr. now rewrite andb_false_r in Hr. }
  cbn [forallb] in H. apply andb_true_iff in H as [Hf H]. unfold prefix_ok in Hf. to_props. cbn [decode_prefix].
  unfold field_names in *. cbn [List.filter] in *. destruct (IsSkipped f) eqn:Hsk; cbn [negb map] in *.
  - destruct (IH H Hnd m) as (m' & E & Hc & Hu). exists m'. split; [done|]. split; [|done].
    intros w ref Hr. apply Hc. unfold counts in *. cbn [existsb] in Hr. destruct (count_field w ref f) eqn:Ef; [|done].
    apply count_field_props in Ef as (_ & Et & _). unfold IsSkipped, IsReserved, IsUnknown in Hsk. rewrite Et in Hsk. done.
  - apply NoDup_cons in Hnd as [Hnin Hnd].
    destruct (decode_stmt_defined f refs data) as [v Ev]; [done|done|fold len; lia|].
    rewrite Ev. cbn [mbind option_bind]. destruct (IH H Hnd (<[fd_Name f := One v]> m)) as (m' & E & Hc & Hu).
    exists m'. split; [done|]. split.
    + intros w ref Hr Hin. unfold counts in Hr. cbn [existsb] in Hr. destruct (count_field w ref f) eqn:Ef.
      * destruct (count_field_reads w ref f Ef Hin) as (z & Ez & Hz); [done|lia|]. rewrite Ez in Ev. injection Ev as <-.
        apply count_field_props in Ef as (<- & _). exists z. split; [|done]. rewrite Hu by done. by rewrite lookup_insert_eq.
      * apply Hc; [|done]. exact Hr.
    + intros name Hname. apply not_elem_of_cons in Hname as [Hne Hname]. rewrite Hu by done. by rewrite lookup_insert_ne.
Qed.
Lemma counts_name w prefix ref : counts w prefix ref = true -> ref ∈ field_names prefix.
Proof.
  unfold counts. intros [_ H]%andb_true_iff. apply existsb_exists in H as (g & Hg & Hc). apply count_field_props in Hc as (<- & Ht & _).
  unfold field_names. apply list_elem_of_fmap. exists g. split; [done|]. apply list_elem_of_In, filter_In. split; [done|].
  unfold IsSkipped, IsReserved, IsUnknown. now rewrite Ht.
Qed.

Lemma counted_insert prefix m name v : name ∉ field_names prefix -> counted prefix refs m -> counted prefix refs (<[name := v]> m).
Proof.
  intros Hn Hm w ref Hr Hin. destruct (Hm w ref Hr Hin) as (z & E & Hz). exists z. split; [|done].
  rewrite lookup_insert_ne; [done|]. intros ->. now apply Hn, (counts_name w).
Qed.

(** The names a field of the tail refers to. *)
Definition refs_in (f : FieldDef) : Prop :=
  (fd_RepeatRef f <> EmptyString -> fd_RepeatRef f ∈ refs) /\ (fd_PGNRef f <> EmptyString -> fd_PGNRef f ∈ refs) /\
  (fd_CountRef f <> EmptyString -> fd_CountRef f ∈ refs).

Lemma counts_ref w prefix ref (H : ref <> EmptyString -> ref ∈ refs) m : counted prefix refs m -> w <= 62 -> counts w prefix ref = true ->
  exists z, count_of m ref = Some z /\ 0 <= z < 2 ^ w.
Proof.
  intros Hm Hw Hr. apply (counted_count_of prefix refs); [done|done|done|]. apply H. unfold counts in Hr. apply andb_true_iff in Hr as [Hr _].
  intros ->. done.
Qed.

Section tail.
Context (prefix : list FieldDef) (m : message) (off : Z) (f : FieldDef).
Context (Hm : counted prefix refs m) (Hoff : 0 <= off <= len) (Hf : tail_ok sds prefix f = true) (Hrefs : refs_in f).
Context (Hname : IsSkipped f = false -> fd_Name f ∉ field_names prefix).

(** A step that ends, or goes on with the cursor inside. *)
Definition flow_ok (r : flow) : Prop :=
  match r with Next m' off' => counted prefix refs m' /\ 0 <= off' <= len | Return _ => True end.

Lemma counted_next v : variable_width f = true -> counted prefix refs (<[fd_Name f := v]> m).
Proof.
  intros Hv. apply counted_insert; [|done]. apply Hname. unfold variable_width, IsSkipped, IsReserved, IsUnknown in *.
  now destruct (fd_Type f).
Qed.

Lemma decode_structs_inside : fd_Type f = TypeStruct -> exists r, decode_structs sds refs data m off f = Some r /\ flow_ok r.
Proof.
  intros Ht. pose proof Hf as H. unfold tail_ok in H. rewrite Ht in H. apply andb_true_iff in H as [Hc H]. unfold decode_structs.
  destruct (struct_named sds (fd_StructRef f)) as [sd|]; [|done]. cbn [mbind option_bind].
  destruct (counts_ref 16 prefix _ (proj1 Hrefs) m Hm ltac:(lia) Hc) as (z & -> & Hz). cbn [mbind option_bind].
  apply andb_true_iff in H as [[Hs0%Z.leb_le Hs1%Z.leb_le]%andb_true_iff H].
  assert (Hmake : forall k, 0 <= k < 2 ^ 16 -> make_ok (entry_size sd) k = true).
  { intros k Hk. unfold make_ok. apply andb_true_iff. split; [apply Z.leb_le; lia|]. apply Z.leb_le. nia. }
  destruct (Struct_HasVariableWidth sd).
  - rewrite Hmake by done. cbn [negb]. destruct (var_entries_inside refs data Hok sd H (Z.to_nat z) off Hoff) as (es & off' & -> & Ho').
    eexists. split; [reflexivity|]. split; [apply counted_next; unfold variable_width; now rewrite Ht|done].
  - pose proof H as Hp. unfold fixed_struct_ok in Hp. apply andb_true_iff in Hp as [Hp%Z.ltb_lt _]. destruct (Z.eqb_spec (FixedEntryBytes sd) 0); [lia|].
    fold len. set (avail := Z.quot (len - off) (FixedEntryBytes sd)).
    assert (Ha : 0 <= avail /\ avail * FixedEntryBytes sd <= len - off).
    { unfold avail. rewrite Z.quot_div_nonneg by lia. pose proof (Z.div_pos (len - off) (FixedEntryBytes sd)).
      pose proof (Z.mul_div_le (len - off) (FixedEntryBytes sd)). lia. }
    rewrite Z.gtb_ltb. set (k := if avail <? z then avail else z). assert (Hk : 0 <= k <= avail) by (unfold k; destruct (Z.ltb_spec avail z); lia).
    rewrite Hmake by (unfold k; destruct (Z.ltb_spec avail z); lia). cbn [negb].
    destruct (fixed_entries_inside refs data sd H (Z.to_nat k) off) as (es & off' & -> & Ho'); [lia|fold len; nia|].
    eexists. split; [reflexivity|]. split; [apply counted_next; unfold variable_width; now rewrite Ht|fold len in Ho'; lia].
Qed.

Lemma decode_bytes_inside : fd_Type f = TypeBytes -> exists r, decode_bytes table data m off f = Some r /\ flow_ok r.
Proof.
  intros Ht. pose proof Hf as H. unfold tail_ok in H. rewrite Ht in H. unfold decode_bytes.
  destruct (bool_decide (fd_PGNRef f = EmptyString)).
  - destruct (off <? Z.of_nat (length data)); (eexists; split; [reflexivity|]; split; [|exact Hoff]); [apply counted_next; unfold variable_width; now rewrite Ht|done].
  - cbn [orb] in H. apply andb_true_iff in H as [H1 H2]. destruct Hrefs as (_ & R1 & R2).
    destruct (counts_ref 62 prefix _ R1 m Hm ltac:(lia) H1) as (z1 & -> & _). destruct (counts_ref 62 prefix _ R2 m Hm ltac:(lia) H2) as (z2 & -> & _).
    cbn [mbind option_bind]. rewrite slice_from by done. eexists. split; [reflexivity|]. split; [apply counted_next; unfold variable_width; now rewrite Ht|done].
Qed.

Lemma tail_field_inside : exists r, tail_field table sds refs data m off f = Some r /\ flow_ok r.
Proof.
  assert (Hskip : forall n, exists r, (if 0 <? n then if Z.of_nat (length data) <? off + n then Some (Return m) else Some (Next m (off + n))
      else Some (Next m off)) = Some r /\ flow_ok r).
  { intros n. fold len. destruct (Z.ltb_spec 0 n); [destruct (Z.ltb_spec len (off + n))|]; (eexists; split; [reflexivity|]); try done.
    split; [done|lia]. }
  unfold tail_field. pose proof Hf as H. unfold tail_ok in H. destruct (fd_Type f) eqn:Ht; try discriminate H; try apply Hskip.
  - destruct (lau_inside data Hok off Hoff) as (s & n & E1 & E2 & Hn & Hl). rewrite E1. cbn [mbind option_bind]. rewrite E2.
    destruct (n =? 0); eexists; (split; [reflexivity|]); [done|]. split; [apply counted_next; unfold variable_width; now rewrite Ht|fold len in Hl; lia].
  - now apply decode_structs_inside.
  - now apply decode_bytes_inside.
Qed.
End tail.

Lemma decode_tail_inside prefix fs : forallb (tail_ok sds prefix) fs = true -> (forall f, f ∈ fs -> refs_in f /\ (IsSkipped f = false -> fd_Name f ∉ field_names prefix)) ->
  forall m off, counted prefix refs m -> 0 <= off <= len -> is_Some (decode_tail table sds refs data fs m off).
Proof.
  induction fs as [|f fs IH]; intros H Hfs m off Hm Ho; [by eexists|]. cbn [forallb] in H. apply andb_true_iff in H as [Hf H].
  cbn [decode_tail]. destruct (Hfs f (list_elem_of_here _ _)) as [Hr Hn].
  destruct (tail_field_inside prefix m off f Hm Ho Hf Hr Hn) as (r & -> & Hr'). cbn [mbind option_bind].
  destruct r as [m' off'|m']; [|by eexists]. destruct Hr'. apply IH; try done. intros g Hg. apply Hfs. now right.
Qed.
End decoder.

Lemma referenced fs f : f ∈ fs -> refs_in (referencedFields fs) f.
Proof.
  intros Hf. unfold refs_in, referencedFields.
  assert (H : forall n, n ∈ [fd_RepeatRef f; fd_PGNRef f; fd_CountRef f] -> n <> EmptyString ->
    n ∈ (list_to_set (List.filter (fun n => negb (bool_decide (n = EmptyString)))
      (flat_map (fun f => [fd_RepeatRef f; fd_PGNRef f; fd_CountRef f]) fs)) : gset string)).
  { intros n Hn Hne. apply elem_of_list_to_set, list_elem_of_In, filter_In. split; [|now rewrite bool_decide_false].
    apply in_flat_map. exists f. split; now apply list_elem_of_In. }
  split; [|split]; intros Hne; apply H; try done; set_solver.
Qed.

(** C10: A decoder of variable width does not panic on any payload, when its
    definition stays within what the generated code checks ([cursor_ok], which can
    be evaluated): every field of the static prefix is read inside the bytes that
    are checked; entries of fixed width contain what is read of them (see
    [short_entry_out_of_range]); entries of variable width are whole words and
    strings; the entries' Go type is at most 2^32 bytes; the fields that count
    entries are unsigned, unscaled, of at most 16 bits and in the prefix (the
    capacity of the entries is allocated from the count unchecked: a count of 48
    bits makes the decoder panic, see [unchecked_capacity_panics]), and those that
    number or count parameters have at most 62 bits. With distinct field names, the
    generated [Decode] then indexes no byte that is not there and allocates no slice
    the runtime refuses: it gives an error exactly for a payload shorter than the
    prefix, and for every other payload of bytes a message. Running out of memory is
    not modelled. *)
Theorem variable_decode_total table sds p data :
  cursor_ok sds (pgn_fields p) = true -> NoDup (field_names (pgn_fields p)) -> bytes_ok data ->
  exists r, DecodeVar table sds p data = Some r /\ (is_ok r = true <-> static_bytes (pgn_fields p) <= Z.of_nat (length data)).
Proof.
  intros Hc Hnd Hok. unfold DecodeVar. set (fs := pgn_fields p) in *. set (refs := referencedFields fs).
  unfold cursor_ok in Hc. pose proof (split_static_app fs) as Happ. destruct (split_static fs) as [prefix tail] eqn:Es. cbn [fst snd] in *.
  apply andb_true_iff in Hc as [[Hn Hp]%andb_true_iff Ht]. apply Z.leb_le in Hn.
  destruct (Z.ltb_spec (Z.of_nat (length data)) (static_bytes fs)) as [Hlt|Hge].
  { eexists. split; [reflexivity|]. cbn. split; [done|lia]. }
  assert (Hsplit : field_names fs = field_names prefix ++ field_names tail).
  { unfold field_names. now rewrite Happ, List.filter_app, map_app. }
  rewrite Hsplit in Hnd. apply NoDup_app in Hnd as (Hnd1 & Hdis & _).
  destruct (decode_prefix_inside refs data Hok prefix (static_bytes fs) Hge Hp) with (m := ∅ : message) as (m & -> & Hcm & _).
  { done. }
  cbn [mbind option_bind].
  destruct (decode_tail_inside table sds refs data Hok prefix tail Ht) with (m := m) (off := static_bytes fs) as [m' ->].
  - intros f Hf. split; [apply referenced; rewrite Happ; apply elem_of_app; now right|]. intros Hsk Hin. apply (Hdis (fd_Name f) Hin).
    unfold field_names. apply list_elem_of_fmap. exists f. split; [done|]. apply list_elem_of_In, filter_In.
    split; [now apply list_elem_of_In|now rewrite Hsk].
  - done.
  - lia.
  - eexists. split; [reflexivity|]. cbn. split; [lia|done].
Qed.

(** * The satellites of [pgn/defs/navigation.pgn] *)

Definition satellite_in_view : StructDef := Eval vm_compute in
  mkStruct "satellite_in_view"
    (struct_layout 0
       [plain_field "prn" TypeUint 8; plain_field "elevation" TypeInt 16; plain_field "azimuth" TypeUint 16;
        plain_field "snr" TypeInt 16; plain_field "range_residuals" TypeInt 32; plain_field "status" TypeUint 4;
        plain_field "_" TypeReserved 4]) 248.

Definition with_struct (name ref : string) (f : FieldDef) : FieldDef :=
  mkField (fd_Name f) TypeStruct 0 (fd_BitStart f) (fd_Scale f) (fd_Offset f) "" "" "" "" name ref "" None false None 0 "" "" "" "" 0.

Definition sats_in_view : PGNDef := Eval vm_compute in
  plain_pgn 129540 "GNSS Sats in View"
    (struct_layout 0
       [plain_field "sid" TypeUint 8; plain_field "range_residual_mode" TypeUint 2; plain_field "_" TypeReserved 6;
        plain_field "sats_in_view" TypeUint 8;
        with_struct "satellite_in_view" "sats_in_view" (plain_field "satellites" TypeStruct 0)]).

(** Three bytes and one satellite of the two announced. *)
Definition sats_payload : list Z := [1; 253; 2; 12; 232; 3; 16; 39; 255; 127; 255; 255; 255; 127; 242].

Lemma variable_decode_total_witness :
  (r ← DecodeVar ∅ [satellite_in_view] sats_in_view sats_payload;
   match r with
   | Ok m => Some (m !! "sats_in_view", match m !! "satellites" with
                                         | Some (Entries es) => Some (map (fun e => (e !! "prn", e !! "elevation", e !! "snr", e !! "status")) es)
                                         | _ => None
                                         end)
   | Err _ => None
   end)%string =
  Some (Some (One (VInt 2)), Some [(Some (VInt 12), Some (VInt 1000), Some VNil, Some (VInt 2))]) /\
  exists r, DecodeVar ∅ [satellite_in_view] sats_in_view sats_payload = Some r /\
    (is_ok r = true <-> static_bytes (pgn_fields sats_in_view) <= Z.of_nat (length sats_payload)).
Proof.
  split; [vm_compute; reflexivity|]. apply (variable_decode_total ∅ [satellite_in_view] sats_in_view sats_payload).
  - vm_compute. reflexivity.
  - apply (bool_decide_unpack _). vm_compute. exact I.
  - unfold bytes_ok, byte_ok, sats_payload. repeat (apply Forall_cons; split; [lia|]). apply Forall_nil_2.
Defined.

(** * Definitions the generator does not refuse *)

(** A signed nullable field of 24 bits is not sign-extended: -1000 reads back as
    a large positive number ([dc_current] of PGN 127751). *)
Lemma narrow_signed_not_extended :
  let f := set_BitStart 32 (plain_field "dc_current" TypeInt 24) in
  (data ← Encode [f] {["dc_current" := One (VInt (-1000))]}%string; m ← Decode [f] data; m !! "dc_current"%string)
  = Some (One (VInt 16776216)).
Proof. vm_compute. reflexivity. Qed.

(** A field of 48 bits decodes, and its encoder is refused by the compiler. *)
Lemma wide_field_does_not_compile :
  let f := plain_field "stamp" TypeUint 48 in
  decode_compiles (goFieldType f) true (writeDecodeField f ∅) = true /\ encode_compiles (writeEncodeField f ∅) = false.
Proof. vm_compute. split; reflexivity. Qed.

(** A float of a struct is read as the integer its bits are. *)
Lemma struct_float_is_integer :
  exec_decode 0 [0; 0; 128; 63] (decode_integer 0 0 (plain_field "depth" TypeFloat 32) ∅) =
  Some (VFloat (SpecFloat.binary_normalize 24 128 1065353216 0 false)).
Proof. vm_compute. reflexivity. Qed.

(** The bytes of the statements for strings count for the buffer, but a repeated
    string is read as an integer: two strings of three bytes read a seventh byte
    of six. *)
Lemma repeated_string_out_of_range :
  Decode [with_repeat 2 "" (plain_field "codes" TypeString 24)] [65; 66; 67; 68; 69; 70] = None.
Proof. vm_compute. reflexivity. Qed.

(** An entry that ends with a field of 24 bits reads a byte after it. *)
Lemma short_entry_out_of_range :
  let sd := mkStruct "e" [plain_field "pgn" TypeUint 24] 1 in
  let p := plain_pgn 126464 "List" [plain_field "n" TypeUint 8; set_BitStart 8 (with_struct "e" "n" (plain_field "es" TypeStruct 0))] in
  DecodeVar ∅ [sd] p [1; 5; 6; 7] = None.
Proof. vm_compute. reflexivity. Qed.

(** The capacity of the entries comes from the payload unchecked: a count of 48
    bits makes the decoder panic, whatever follows it. *)
Lemma unchecked_capacity_panics :
  let sd := mkStruct "waypoint" [plain_field "name" TypeStringLAU 0] 1 in
  let p := plain_pgn 130999 "Waypoints" [plain_field "count" TypeUint 48; set_BitStart 48 (with_struct "waypoint" "count" (plain_field "points" TypeStruct 0))] in
  DecodeVar ∅ [sd] p [255; 255; 255; 255; 255; 255] = None.
Proof. vm_compute. reflexivity. Qed.

(** Fields of a few bits in an entry of variable width do not advance the cursor. *)
Lemma nibbles_read_twice :
  (var_struct_fields ∅ 0 [33; 2; 1] [plain_field "a" TypeUint 4; set_BitStart 4 (plain_field "b" TypeUint 4); plain_field "s" TypeStringLAU 0] ∅)
    ≫= (fun r => match r with (Some e, off) => Some (e !! "a", e !! "b", off) | _ => None end)%string
  = Some (Some (VInt 1), Some (VInt 2), 3).
Proof. vm_compute. reflexivity. Qed.
