(* ===== verification/PgnJson.v ===== *)
(** The JSON side of the generated codecs: [pgngen/gen_go.go].

    The methods the generator writes for an enumeration ([String], [MarshalJSON],
    [UnmarshalJSON]), for [HexBytes] and for [Uint8s], the declarations of the
    structs with their tags, and the lookup methods.  What [encoding/json] does
    with a string and a small number is defined on their bytes. *)

From S2P Require Import Prelude GoNum PgnSchema PgnBits PgnNaming PgnCodec.
From Stdlib Require Import Ascii.

(** * JSON strings *)

Definition dquote : Z := 34.
Definition quoted (s : string) : string := String (ascii_of_Z dquote) (s ++ String (ascii_of_Z dquote) EmptyString).

Definition hex_of (z : Z) : Z := if z <? 10 then 48 + z else 87 + z.

(** The escape [\u00XX] of a byte. *)
Definition u00 (b : Z) : list Z := [92; 117; 48; 48; hex_of (b / 16); hex_of (b mod 16)].

(** What [encoding/json] writes for an ASCII character; it escapes HTML. *)
Definition escape_ascii (b : Z) : list Z :=
  if (b =? 34) || (b =? 92) then [92; b]
  else if b =? 8 then [92; 98]
  else if b =? 12 then [92; 102]
  else if b =? 10 then [92; 110]
  else if b =? 13 then [92; 114]
  else if b =? 9 then [92; 116]
  else if (b <? 32) || existsb (Z.eqb b) [60; 62; 38] then u00 b
  else [b].

(** A sequence that is not UTF-8 becomes [\ufffd]; U+2028 and U+2029 are escaped. *)
Definition escape_rune (r : Z) (width : nat) (bs : list Z) : list Z :=
  if (r =? RuneError) && Nat.eqb width 1 then [92; 117; 102; 102; 102; 100]
  else if (r =? 8232) || (r =? 8233) then [92; 117; 50; 48; 50; 56 + (r - 8232)]
  else take width bs.

Fixpoint quote_fuel (fuel : nat) (bs : list Z) : list Z :=
  match fuel, bs with
  | S fuel, b :: rest =>
      if b <? 128 then escape_ascii b ++ quote_fuel fuel rest
      else let '(r, n) := DecodeRune bs in escape_rune r n bs ++ quote_fuel fuel (drop n bs)
  | _, _ => []
  end.

Definition quote_bytes (bs : list Z) : list Z := quote_fuel (length bs) bs.

(** [json.Marshal] of a string. *)
Definition json_quote (s : string) : string := quoted (string_of_bytes (quote_bytes (bytes_of_string s))).

Definition hex_digit_value (b : Z) : option Z :=
  if (48 <=? b) && (b <=? 57) then Some (b - 48)
  else if (97 <=? b) && (b <=? 102) then Some (b - 87)
  else if (65 <=? b) && (b <=? 70) then Some (b - 55)
  else None.

(** [getu4]: the four hexadecimal digits after [\u]. *)
Definition getu4 (bs : list Z) : option (Z * list Z) :=
  match bs with
  | a :: b :: c :: d :: rest =>
      a ← hex_digit_value a; b ← hex_digit_value b; c ← hex_digit_value c; d ← hex_digit_value d;
      Some (((a * 16 + b) * 16 + c) * 16 + d, rest)
  | _ => None
  end.

Definition is_surrogate (r : Z) : bool := (55296 <=? r) && (r <=? 57343).

(** The rune of an escape [\u]: a pair of surrogates is one rune, one alone is an
    error's rune. *)
Definition unquote_u (bs : list Z) : option (list Z * list Z) :=
  '(r, rest) ← getu4 bs;
  if negb (is_surrogate r) then Some (EncodeRune r, rest)
  else
    match rest with
    | 92 :: 117 :: rest2 =>
        match getu4 rest2 with
        | Some (r2, rest3) =>
            if (r <? 56320) && (56320 <=? r2) && (r2 <=? 57343)
            then Some (EncodeRune ((r - 55296) * 1024 + (r2 - 56320) + 65536), rest3)
            else Some (EncodeRune RuneError, rest)
        | None => Some (EncodeRune RuneError, rest)
        end
    | _ => Some (EncodeRune RuneError, rest)
    end.

(** The first character of the inside of a string: its bytes and what follows. *)
Definition unquote_char (bs : list Z) : option (list Z * list Z) :=
  match bs with
  | [] => None
  | 92 :: c :: rest =>
      if existsb (Z.eqb c) [34; 92; 47] then Some ([c], rest)
      else if c =? 98 then Some ([8], rest)
      else if c =? 102 then Some ([12], rest)
      else if c =? 110 then Some ([10], rest)
      else if c =? 114 then Some ([13], rest)
      else if c =? 116 then Some ([9], rest)
      else if c =? 117 then unquote_u rest
      else None
  | b :: rest =>
      if (b =? 92) || (b =? 34) || (b <? 32) then None
      else if b <? 128 then Some ([b], rest)
      else let '(r, n) := DecodeRune bs in Some (EncodeRune r, drop n bs)
  end.

(** The characters up to the closing quote, the last byte. *)
Fixpoint unquote_fuel (fuel : nat) (bs : list Z) : option (list Z) :=
  match bs with
  | [34] => Some []
  | _ =>
      match fuel with
      | O => None
      | S fuel => '(c, rest) ← unquote_char bs; s ← unquote_fuel fuel rest; Some (c ++ s)
      end
  end.

(** [json.Unmarshal] of a string's text, without space around it. *)
Definition json_unquote (text : string) : option string :=
  match bytes_of_string text with
  | 34 :: bs => string_of_bytes <$> unquote_fuel (length bs) bs
  | _ => None
  end.

(** [json.Unmarshal] into a [uint8]; [null] leaves the zero. *)
Definition json_uint8 (text : string) : option Z :=
  if bool_decide (text = "null"%string) then Some 0
  else match ParseUint text 10 8 with Ok n => Some n | Err _ => None end.

Example json_strings :
  (json_quote "AC & DC", json_unquote (json_quote "AC & DC"), json_unquote (json_quote "tab	and é"), json_unquote "5",
   json_unquote (string_of_bytes [34; 92; 117; 100; 56; 51; 100; 92; 117; 100; 101; 48; 48; 34])) =
  (quoted "AC \u0026 DC", Some "AC & DC", Some "tab	and é", None, Some "😀")%string.
Proof. vm_compute. reflexivity. Qed.

(** * Enumerations *)

(** What the compiler asks of the constants and of the switches of an
    enumeration: bytes, each once; labels, each once. *)
Record enum_compiles (e : EnumDef) : Prop := {
  ec_values : NoDup (map ev_Value (en_Values e));
  ec_bytes : Forall (fun v => byte_ok (ev_Value v)) (en_Values e);
  ec_labels : NoDup (map ev_Name (en_Values e))
}.

(** The case of a value, the case of a label. *)
Definition enum_label (e : EnumDef) (v : Z) : option string :=
  ev_Name <$> List.find (fun x => ev_Value x =? v) (en_Values e).
Definition enum_value (e : EnumDef) (s : string) : option Z :=
  ev_Value <$> List.find (fun x => bool_decide (ev_Name x = s)) (en_Values e).

Definition enum_String (e : EnumDef) (v : Z) : string :=
  match enum_label e v with Some n => n | None => (en_Name e ++ "(" ++ FormatInt v ++ ")")%string end.

(** A known value is its label between quotes, as it is; another is a number. *)
Definition enum_MarshalJSON (e : EnumDef) (v : Z) : string :=
  match enum_label e v with Some n => quoted n | None => FormatInt v end.

Inductive enum_error := BadJSON | UnknownLabel (enum label : string).

Definition enum_UnmarshalJSON (e : EnumDef) (data : string) : result enum_error Z :=
  match bytes_of_string data with
  | 34 :: _ =>
      match json_unquote data with
      | None => Err BadJSON
      | Some s => match enum_value e s with Some v => Ok v | None => Err (UnknownLabel (en_Name e) s) end
      end
  | _ => match json_uint8 data with Some n => Ok n | None => Err BadJSON end
  end.

(** * Byte slices *)

(** [HexBytes] and [Uint8s]: [None] is the nil slice. *)
Definition HexBytes_MarshalJSON (h : option (list Z)) : string :=
  match h with None => "null"%string | Some bs => json_quote (hex_encode bs) end.

Definition HexBytes_UnmarshalJSON (data : string) : option (option (list Z)) :=
  if bool_decide (data = "null"%string) then Some None
  else s ← json_unquote data; bs ← hex_DecodeString s; Some (Some bs).

Definition Uint8s_MarshalJSON (u : option (list Z)) : string :=
  match u with
  | None => "null"
  | Some vs => "[" ++ String.concat "," (map FormatInt vs) ++ "]"
  end%string.

Definition repeatSliceType (elemType : string) : string :=
  if bool_decide (elemType = "uint8"%string) then "Uint8s"%string else ("[]" ++ elemType)%string.

(** * Structs *)

(** A member of a generated struct: its name, its type, its JSON name, whether it
    is left out when empty, its unit. *)
Record go_member := mkMember {
  gm_Name : string;
  gm_Type : string;
  gm_JSON : string;
  gm_OmitEmpty : bool;
  gm_Unit : string
}.

Section members.
Context `{U : Unicode}.

Definition repeatGoFieldName (f : FieldDef) : string :=
  toPascal (if bool_decide (fd_AliasPlural f = EmptyString) then toPlural (fd_Name f) else fd_AliasPlural f).
Definition repeatJSONName (f : FieldDef) : string :=
  toSnake (if bool_decide (fd_AliasPlural f = EmptyString) then toPlural (fd_Name f) else fd_AliasPlural f).

(** A field that holds one value: a pointer, left out when nil, if the value may be
    unavailable. *)
Definition plain_member (refs : gset string) (f : FieldDef) : go_member :=
  let goType := show_type (goFieldType f) in
  if isNullable f refs
  then mkMember (toPascal (fd_Name f)) ("*" ++ goType)%string (toSnake (fd_Name f)) true (fd_Unit f)
  else mkMember (toPascal (fd_Name f)) goType (toSnake (fd_Name f)) false (fd_Unit f).

Definition repeated_member (f : FieldDef) : go_member :=
  let goType := show_type (goFieldType f) in
  mkMember (repeatGoFieldName f)
    (if bool_decide (fd_GroupMode f = "map"%string) then ("map[int]" ++ goType)%string else repeatSliceType goType)
    (repeatJSONName f) false (fd_Unit f).

(** The struct of [writeVariant]. *)
Definition variant_member (refs : gset string) (f : FieldDef) : go_member :=
  if IsRepeated f then repeated_member f else plain_member refs f.

(** The struct of [writeVariableWidthVariant]; a text, a list of structs or bytes
    has no unit. *)
Definition variable_member (refs : gset string) (f : FieldDef) : go_member :=
  match fd_Type f with
  | TypeStringLAU => mkMember (toPascal (fd_Name f)) "string" (toSnake (fd_Name f)) false ""
  | TypeStruct => mkMember (toPascal (fd_Name f)) ("[]" ++ toPascal (fd_StructRef f))%string (toSnake (fd_Name f)) true ""
  | TypeBytes =>
      mkMember (toPascal (fd_Name f)) (if bool_decide (fd_PGNRef f = EmptyString) then "HexBytes" else "[]ParamPair")%string
        (toSnake (fd_Name f)) true ""
  | _ => plain_member refs f
  end.

(** The struct of an entry of a variable-length group. *)
Definition entry_member (refs : gset string) (f : FieldDef) : go_member :=
  match fd_Type f with
  | TypeStringLAU => mkMember (toPascal (fd_Name f)) "string" (toSnake (fd_Name f)) false ""
  | _ => plain_member refs f
  end.

Definition visible (fs : list FieldDef) : list FieldDef := List.filter (fun f => negb (IsSkipped f)) fs.

Definition pgn_member (p : PGNDef) (f : FieldDef) : go_member :=
  let refs := referencedFields (pgn_fields p) in
  if PGN_HasVariableWidth p then variable_member refs f else variant_member refs f.

Definition pgn_members (p : PGNDef) : list go_member := map (pgn_member p) (visible (pgn_fields p)).
Definition struct_members (sd : StructDef) : list go_member :=
  map (entry_member (referencedFields (sd_Fields sd))) (visible (sd_Fields sd)).

(** The line of a member; [quote] is [%q]. *)
Definition show_member (quote : string -> string) (m : go_member) : string :=
  let tag := if gm_OmitEmpty m then quoted (gm_JSON m ++ ",omitempty") else quote (gm_JSON m) in
  (tab ++ gm_Name m ++ " " ++ gm_Type m ++ " `json:" ++ tag ++ "`"
   ++ (if bool_decide (gm_Unit m = EmptyString) then EmptyString else " // " ++ gm_Unit m) ++ nl)%string.

Definition show_struct (quote : string -> string) (header name : string) (ms : list go_member) : string :=
  (header ++ "type " ++ name ++ " struct {" ++ nl ++ String.concat "" (map (show_member quote) ms) ++ "}" ++ nl ++ nl)%string.

Definition pgn_struct (quote : string -> string) (p : PGNDef) : string :=
  let name := toPascal (pd_Description p) in
  show_struct quote ("// " ++ name ++ " represents PGN " ++ FormatInt (pd_PGN p) ++ " — " ++ pd_Description p ++ "." ++ nl)
    name (pgn_members p).

Definition entry_struct (quote : string -> string) (sd : StructDef) : string :=
  let name := toPascal (sd_Name sd) in
  show_struct quote ("// " ++ name ++ " is a sub-structure entry type." ++ nl) name (struct_members sd).

(** ** The members of a message's JSON *)

(** [isEmptyValue]: a nil pointer, an empty slice; a message has no entry for a
    field that is still zero. *)
Definition empty_value (v : option value) : bool :=
  match v with
  | None | Some (One VNil) | Some (Entries []) | Some (Hex []) | Some (Pairs []) => true
  | Some _ => false
  end.

(** The fields [json.Marshal] writes for a message. *)
Definition marshalled (p : PGNDef) (m : message) : list FieldDef :=
  List.filter (fun f => negb (gm_OmitEmpty (pgn_member p f) && empty_value (m !! fd_Name f))) (visible (pgn_fields p)).

Definition json_names (p : PGNDef) (m : message) : list string := map (fun f => gm_JSON (pgn_member p f)) (marshalled p m).

(** * Lookups *)

Definition lookup_named (ls : list LookupDef) (name : string) : option LookupDef :=
  List.find (fun l => bool_decide (lk_Name l = name)) (rev ls).

(** The fields with a lookup table, with the table. *)
Definition lookup_fields (ls : list LookupDef) (p : PGNDef) : list (FieldDef * LookupDef) :=
  omap (fun f => if bool_decide (fd_LookupRef f = EmptyString) then None else (pair f) <$> lookup_named ls (fd_LookupRef f))
    (pgn_fields p).

(** The generated table at a key: the empty string for a key that is not there. *)
Definition table_name (l : LookupDef) (key : Z) : string :=
  default EmptyString (lv_Name <$> List.find (fun v => lv_Key v =? key) (lk_Values l)).

Definition table_key (m : message) (f : FieldDef) : Z :=
  match m !! fd_Name f with Some (One (VInt z)) => z | _ => 0 end.

(** [LookupFields]: the names of the values, by the JSON names of their fields. *)
Definition LookupFields (ls : list LookupDef) (p : PGNDef) (m : message) : list (string * string) :=
  map (fun '(f, l) => (toSnake (fd_Name f), table_name l (table_key m f))) (lookup_fields ls p).

(** The text of the two methods. *)
Definition lookup_methods (ls : list LookupDef) (p : PGNDef) : string :=
  let structName := toPascal (pd_Description p) in
  String.concat "" (map (fun '(f, l) =>
    let methodName := (toPascal (fd_Name f) ++ "Name")%string in
    ("// " ++ methodName ++ " returns the human-readable name for this field's value, or empty if unknown." ++ nl
     ++ "func (m " ++ structName ++ ") " ++ methodName ++ "() string {" ++ nl
     ++ tab ++ "return " ++ toLowerCamel (lk_Name l) ++ "Names[m." ++ toPascal (fd_Name f) ++ "]" ++ nl ++ "}" ++ nl ++ nl)%string)
    (lookup_fields ls p)).

Definition lookup_fields_method (quote : string -> string) (ls : list LookupDef) (p : PGNDef) : string :=
  match lookup_fields ls p with
  | [] => EmptyString
  | fields =>
      ("// LookupFields returns JSON field name -> resolved lookup name for all lookup fields." ++ nl
       ++ "// Empty string means the value has no match in the lookup table." ++ nl
       ++ "func (m " ++ toPascal (pd_Description p) ++ ") LookupFields() map[string]string {" ++ nl
       ++ tab ++ "return map[string]string{" ++ nl
       ++ String.concat "" (map (fun '(f, l) =>
            tab ++ tab ++ quote (toSnake (fd_Name f)) ++ ": " ++ toLowerCamel (lk_Name l) ++ "Names[m." ++ toPascal (fd_Name f) ++ "],"
            ++ nl)%string fields)
       ++ tab ++ "}" ++ nl ++ "}" ++ nl ++ nl)%string
  end.

End members.

(** * Properties *)

(** ** Strings *)

(** Every ASCII character reads back from its escape. *)
Lemma unquote_escape b rest : 0 <= b < 128 -> unquote_char (escape_ascii b ++ rest) = Some ([b], rest).
Proof.
  intros Hb.
  assert (H : Forall (fun b => unquote_char (escape_ascii b ++ rest) = Some ([b], rest)) (seqZ 0 128)).
  { cbv [seqZ Z.to_nat Pos.to_nat Pos.iter_op Nat.add seq fmap list_fmap]. repeat (constructor; [reflexivity|]). constructor. }
  apply (Forall_forall _ _) with (x := b) in H; [done|]. apply elem_of_seqZ. lia.
Qed.

Lemma escape_ascii_open b rest : 0 <= b < 128 -> escape_ascii b ++ rest <> [34].
Proof. intros Hb E. pose proof (unquote_escape b rest Hb) as H. rewrite E in H. discriminate. Qed.

Lemma unquote_fuel_step fuel bs : bs <> [34] ->
  unquote_fuel (S fuel) bs = ('(c, rest) ← unquote_char bs; s ← unquote_fuel fuel rest; Some (c ++ s)).
Proof. intros H. cbn [unquote_fuel]. by repeat case_match; subst. Qed.

Lemma escape_ascii_length b : (1 <= length (escape_ascii b))%nat.
Proof. unfold escape_ascii, u00. repeat case_match; cbn; lia. Qed.

Lemma quote_unquote bs : Forall (fun b => 0 <= b < 128) bs ->
  forall fuel, (length bs <= fuel)%nat -> unquote_fuel fuel (quote_fuel (length bs) bs ++ [34]) = Some bs.
Proof.
  induction 1 as [|b bs Hb _ IH]; intros fuel Hf; [by destruct fuel|].
  cbn [length] in Hf. destruct fuel as [|fuel]; [lia|]. cbn [length quote_fuel].
  rewrite (proj2 (Z.ltb_lt b 128)), <- app_assoc, unquote_fuel_step by (lia || by apply escape_ascii_open).
  rewrite unquote_escape by done. cbn [mbind option_bind]. rewrite IH by lia. done.
Qed.

Lemma quote_length bs : Forall (fun b => 0 <= b < 128) bs -> (length bs <= length (quote_fuel (length bs) bs))%nat.
Proof.
  induction 1 as [|b bs Hb _ IH]; [done|]. cbn [length quote_fuel]. rewrite (proj2 (Z.ltb_lt b 128)) by lia.
  rewrite length_app. pose proof (escape_ascii_length b). lia.
Qed.

Definition ascii_text (s : string) : Prop := Forall (fun b => 0 <= b < 128) (bytes_of_string s).

Lemma escape_ascii_bytes b : 0 <= b < 128 -> bytes_ok (escape_ascii b).
Proof.
  intros Hb. unfold bytes_ok, byte_ok, escape_ascii, u00, hex_of.
  pose proof (Z.mod_pos_bound b 16 ltac:(lia)). pose proof (Z.div_pos b 16 ltac:(lia) ltac:(lia)).
  assert (b / 16 < 16) by (apply Z.div_lt_upper_bound; lia).
  repeat case_match; repeat constructor; lia.
Qed.

Lemma quote_bytes_ok bs : Forall (fun b => 0 <= b < 128) bs -> bytes_ok (quote_fuel (length bs) bs).
Proof.
  induction 1 as [|b bs Hb _ IH]; [constructor|]. cbn [length quote_fuel]. rewrite (proj2 (Z.ltb_lt b 128)) by lia.
  apply Forall_app. split; [by apply escape_ascii_bytes|done].
Qed.

Lemma bytes_of_quoted s : bytes_of_string (quoted s) = 34 :: bytes_of_string s ++ [34].
Proof.
  unfold quoted. induction s as [|c s IH]; [done|]. injection IH as IH. cbn [bytes_of_string String.append app].
  change (34 :: Z_of_ascii c :: bytes_of_string (s ++ String (ascii_of_Z dquote) EmptyString)%string = 34 :: Z_of_ascii c :: bytes_of_string s ++ [34]).
  by rewrite IH.
Qed.

(** A string of ASCII characters, control characters and quotes included, reads back from its JSON. *)
Lemma json_string_roundtrip s : ascii_text s -> json_unquote (json_quote s) = Some s.
Proof.
  intros H. unfold json_unquote, json_quote, quote_bytes. rewrite bytes_of_quoted, bytes_of_string_of_bytes by by apply quote_bytes_ok.
  rewrite quote_unquote by (done || (rewrite length_app; pose proof (quote_length _ H); lia)).
  cbn [fmap option_fmap option_map]. by rewrite string_of_bytes_of_string.
Qed.

(** Characters JSON writes as they are. *)
Definition plain_char (b : Z) : bool := (32 <=? b) && (b <? 128) && negb (existsb (Z.eqb b) [34; 92]).
Definition plain_text (s : string) : Prop := Forall (fun b => plain_char b = true) (bytes_of_string s).

Lemma unquote_plain bs : Forall (fun b => plain_char b = true) bs ->
  forall fuel, (length bs <= fuel)%nat -> unquote_fuel fuel (bs ++ [34]) = Some bs.
Proof.
  induction 1 as [|b bs Hb _ IH]; intros fuel Hf; [by destruct fuel|].
  cbn [length] in Hf. destruct fuel as [|fuel]; [lia|]. unfold plain_char in Hb. cbn [existsb] in Hb.
  apply andb_true_iff in Hb as [[Hl Hu]%andb_true_iff Hn].
  assert (H34 : (b =? 34) = false) by (by destruct (b =? 34)). assert (H92 : (b =? 92) = false) by (destruct (b =? 34); [done|]; by destruct (b =? 92)).
  rewrite unquote_fuel_step by (cbn; intros [= -> _]; done). cbn [app].
  assert (Hc : unquote_char (b :: bs ++ [34]) = Some ([b], bs ++ [34])).
  { unfold unquote_char. rewrite H34, H92, Hu, (proj2 (Z.ltb_ge b 32)) by lia.
    repeat case_match; subst; first [done | discriminate | lia]. }
  rewrite Hc. cbn [mbind option_bind]. rewrite IH by lia. done.
Qed.

Lemma json_unquote_plain s : plain_text s -> json_unquote (quoted s) = Some s.
Proof.
  intros H. unfold json_unquote. rewrite bytes_of_quoted, unquote_plain by (done || (rewrite length_app; lia)).
  cbn [fmap option_fmap option_map]. by rewrite string_of_bytes_of_string.
Qed.

(** ** Enumerations *)

Lemma find_by {A B} (f : A -> B) (test : B -> A -> bool) (xs : list A) x :
  (forall b y, test b y = true <-> f y = b) -> NoDup (map f xs) -> In x xs -> List.find (test (f x)) xs = Some x.
Proof.
  intros Ht Hd Hi. destruct (List.find (test (f x)) xs) as [y|] eqn:E.
  - apply List.find_some in E as [Hy Hxy]. apply Ht in Hxy. f_equal. revert Hd Hi Hy Hxy. clear. induction xs as [|z xs IH]; [done|].
    cbn. intros [Hn Hd]%NoDup_cons Hi Hy E.
    destruct Hi as [->|Hi], Hy as [->|Hy]; [done| | |by apply IH].
    + exfalso. apply Hn. rewrite <- E. apply list_elem_of_In, in_map, Hy.
    + exfalso. apply Hn. rewrite E. apply list_elem_of_In, in_map, Hi.
  - exfalso. apply (List.find_none _ _ E x) in Hi. by rewrite (proj2 (Ht (f x) x) eq_refl) in Hi.
Qed.

Lemma enum_label_In e v n : enum_label e v = Some n -> exists x, In x (en_Values e) /\ ev_Value x = v /\ ev_Name x = n.
Proof.
  unfold enum_label. destruct (List.find _ _) as [x|] eqn:E; [|done]. intros [= <-].
  apply List.find_some in E as [Hi Hv%Z.eqb_eq]. by exists x.
Qed.

Lemma enum_value_label e x : enum_compiles e -> In x (en_Values e) -> enum_value e (ev_Name x) = Some (ev_Value x).
Proof.
  intros H Hi. unfold enum_value.
  pose proof (find_by ev_Name (fun s y => bool_decide (ev_Name y = s)) _ x
                (fun b y => bool_decide_eq_true _) (ec_labels _ H) Hi) as E.
  cbn beta in E. by rewrite E.
Qed.

Lemma json_uint8_FormatInt v : 0 <= v < 256 ->
  json_uint8 (FormatInt v) = Some v /\ match bytes_of_string (FormatInt v) with 34 :: _ => False | _ => True end.
Proof.
  intros Hv.
  assert (H : Forall (fun v => json_uint8 (FormatInt v) = Some v /\
                match bytes_of_string (FormatInt v) with 34 :: _ => False | _ => True end) (seqZ 0 256)).
  { cbv [seqZ Z.to_nat Pos.to_nat Pos.iter_op Nat.add seq fmap list_fmap]. repeat (constructor; [by vm_compute|]). constructor. }
  apply (Forall_forall _ _) with (x := v) in H; [done|]. apply elem_of_seqZ. lia.
Qed.

(** Every byte, a value of the enumeration or not, reads back from the JSON of the
    generated type, when the labels need no escape. *)
Lemma enum_json_roundtrip e v :
  enum_compiles e -> Forall (fun x => plain_text (ev_Name x)) (en_Values e) -> 0 <= v < 256 ->
  enum_UnmarshalJSON e (enum_MarshalJSON e v) = Ok v.
Proof.
  intros He Hp Hv. unfold enum_MarshalJSON, enum_UnmarshalJSON. destruct (enum_label e v) as [n|] eqn:El.
  - apply enum_label_In in El as (x & Hi & <- & <-). rewrite bytes_of_quoted, json_unquote_plain, enum_value_label; [done|done|done|].
    rewrite List.Forall_forall in Hp. by apply Hp.
  - destruct (json_uint8_FormatInt v Hv) as [-> H]. by repeat case_match.
Qed.

(** A label with a quote makes JSON that is not read. *)
Lemma enum_label_escape :
  let e := mkEnum "Mode" [mkEnumValue 1 (String (ascii_of_Z 34) "x")] 0 in
  enum_compiles e /\ enum_UnmarshalJSON e (enum_MarshalJSON e 1) = Err BadJSON.
Proof. split; [|done]. split; cbn; [apply NoDup_singleton|repeat constructor; done|apply NoDup_singleton]. Qed.

(** ** Bytes *)

Lemma hex_encode_plain bs : bytes_ok bs -> ascii_text (hex_encode bs).
Proof.
  unfold ascii_text. induction 1 as [|b bs Hb _ IH]; [constructor|]. unfold byte_ok in Hb. cbn [hex_encode bytes_of_string].
  assert (Hd : forall d, 0 <= d < 16 -> 0 <= Z_of_ascii (hex_digit d) < 128).
  { intros d Hd. assert (H : Forall (fun d => 0 <= Z_of_ascii (hex_digit d) < 128) (seqZ 0 16)) by (vm_compute; repeat constructor; done).
    apply (Forall_forall _ _) with (x := d) in H; [done|]. apply elem_of_seqZ. lia. }
  constructor; [apply Hd; split; [apply Z.div_pos|apply Z.div_lt_upper_bound]; lia|].
  constructor; [apply Hd, Z.mod_pos_bound; lia|done].
Qed.

(** The bytes of a field read back from their JSON, the nil slice and the empty one
    apart from each other. *)
Lemma HexBytes_json_roundtrip h : (forall bs, h = Some bs -> bytes_ok bs) -> HexBytes_UnmarshalJSON (HexBytes_MarshalJSON h) = Some h.
Proof.
  intros H. destruct h as [bs|]; [|done]. specialize (H bs eq_refl). unfold HexBytes_MarshalJSON, HexBytes_UnmarshalJSON.
  rewrite bool_decide_eq_false_2 by done. rewrite json_string_roundtrip by by apply hex_encode_plain.
  cbn [mbind option_bind]. by rewrite hex_decode_encode.
Qed.
