(* ===== verification/PgnOutputs.v ===== *)
(** The files [pgngen] writes from a schema: the parts of the Go file that are not
    codecs ([pgngen/gen_go.go]), the Protocol Buffers file ([pgngen/gen_proto.go])
    and the JSON Schema ([pgngen/gen_jsonschema.go]).

    The texts are built as the generators build them.  A JSON document is a tree
    whose objects are sorted by key, as [encoding/json] writes a map. *)

From S2P Require Import Prelude GoNum PgnSchema PgnBits PgnNaming PgnCodec PgnJson.
From Stdlib Require Import Ascii.

Definition lines (ls : list string) : string := String.concat "" (map (fun l => (l ++ nl)%string) ls).

(** * Go: imports, enumerations, tables *)

(** [isBitField]: a field that is not an aligned machine word. *)
Definition isBitField (f : FieldDef) : bool :=
  negb (Z.rem (fd_BitStart f) 8 =? 0) || negb (existsb (Z.eqb (fd_Bits f)) [8; 16; 32; 64]).

Definition coded (s : Schema) : list PGNDef := List.filter (fun p => negb (IsNameOnly p)) (sc_PGNs s).

Definition needsBinary (s : Schema) : bool :=
  existsb (fun p => PGN_HasVariableWidth p ||
                    existsb (fun f => (16 <=? fd_Bits f) && negb (isBitField f)) (visible (pgn_fields p))) (coded s).
Definition needsMath (s : Schema) : bool := existsb (fun p => existsb HasScaling (visible (pgn_fields p))) (coded s).
Definition needsFmt (s : Schema) : bool := negb (Nat.eqb (length (coded s)) 0).
Definition needsJSON (s : Schema) : bool := negb (Nat.eqb (length (sc_Enums s)) 0).

Definition imports (s : Schema) : list string :=
  (if needsBinary s then ["encoding/binary"] else []) ++
  (if needsJSON s then ["encoding/json"] else []) ++
  (if needsFmt s then ["fmt"] else []) ++
  (if needsMath s then ["math"] else []) ++
  (if needsJSON s then ["strconv"] else []) ++ ["time"]%string.

Definition go_header (s : Schema) (pkg : string) : string :=
  lines (["// Code generated by pgngen; DO NOT EDIT."; ""; "package " ++ pkg; ""; "import ("]%string
    ++ map (fun i => (tab ++ quoted i)%string) (imports s) ++ [")"; ""]%string).

Section go_text.
Context `{U : Unicode} (quote : string -> string).

Definition const_name (e : EnumDef) (v : EnumValue) : string := (en_Name e ++ toPascal (ev_Name v))%string.

(** A constant for each value, [String] and the JSON methods. *)
Definition go_enum (e : EnumDef) : string :=
  let n := en_Name e in
  lines (["// " ++ n ++ " is a lookup enumeration."; "type " ++ n ++ " uint8"; ""; "const ("]%string
    ++ map (fun v => (tab ++ const_name e v ++ " " ++ n ++ " = " ++ FormatInt (ev_Value v))%string) (en_Values e)
    ++ [")"; ""; "func (v " ++ n ++ ") String() string {"; tab ++ "switch v {"]%string
    ++ flat_map (fun v => [tab ++ "case " ++ const_name e v ++ ":"; tab ++ tab ++ "return " ++ quote (ev_Name v)]%string) (en_Values e)
    ++ [tab ++ "default:"; tab ++ tab ++ "return fmt.Sprintf(" ++ quoted (n ++ "(%d)") ++ ", v)"; tab ++ "}"; "}"; "";
        "func (v " ++ n ++ ") MarshalJSON() ([]byte, error) {"; tab ++ "switch v {"]%string
    ++ flat_map (fun v => [tab ++ "case " ++ const_name e v ++ ":";
                           tab ++ tab ++ "return []byte(" ++ quote (quoted (ev_Name v)) ++ "), nil"]%string) (en_Values e)
    ++ [tab ++ "default:"; tab ++ tab ++ "return []byte(strconv.FormatUint(uint64(v), 10)), nil"; tab ++ "}"; "}"; "";
        "func (v *" ++ n ++ ") UnmarshalJSON(data []byte) error {";
        tab ++ "if len(data) > 0 && data[0] == '" ++ String (ascii_of_Z dquote) "' {"; tab ++ tab ++ "var s string";
        tab ++ tab ++ "if err := json.Unmarshal(data, &s); err != nil {"; tab ++ tab ++ tab ++ "return err"; tab ++ tab ++ "}";
        tab ++ tab ++ "switch s {"]%string
    ++ flat_map (fun v => [tab ++ tab ++ "case " ++ quote (ev_Name v) ++ ":"; tab ++ tab ++ tab ++ "*v = " ++ const_name e v]%string) (en_Values e)
    ++ [tab ++ tab ++ "default:"; tab ++ tab ++ tab ++ "return fmt.Errorf(" ++ quoted ("unknown " ++ n ++ " value: %q") ++ ", s)";
        tab ++ tab ++ "}"; tab ++ tab ++ "return nil"; tab ++ "}"; tab ++ "var n uint8";
        tab ++ "if err := json.Unmarshal(data, &n); err != nil {"; tab ++ tab ++ "return err"; tab ++ "}";
        tab ++ "*v = " ++ n ++ "(n)"; tab ++ "return nil"; "}"; ""]%string).

(** A lookup table; a key is printed as its 64 bits. *)
Definition go_lookup (l : LookupDef) : string :=
  let varName := (toLowerCamel (lk_Name l) ++ "Names")%string in
  lines (["// " ++ varName ++ " maps " ++ lk_Name l ++ " keys to human-readable names.";
           "var " ++ varName ++ " = map[" ++ lk_KeyType l ++ "]string{"]%string
    ++ map (fun v => (tab ++ "0x" ++ fmt_hex 1 (u64 (lv_Key v)) ++ ": " ++ quote (lv_Name v) ++ ",")%string) (lk_Values l)
    ++ ["}"; ""]%string).

End go_text.

(** * Protocol Buffers *)

(** A field of a message: whether it is a list, its type, its name, its number,
    its comment. *)
Record proto_field := mkProto {
  pf_Repeated : bool;
  pf_Type : string;
  pf_Name : string;
  pf_Num : Z;
  pf_Comment : string
}.

Definition protoFieldType (f : FieldDef) : string :=
  if HasScaling f then "double"
  else match fd_Type f with
       | TypeString | TypeStringLAU => "string"
       | TypeFloat => if (fd_Bits f =? 32)%Z then "float" else "double"
       | TypeEnum => fd_EnumRef f
       | TypeInt => if (fd_Bits f <=? 32)%Z then "sint32" else "sint64"
       | _ => if (fd_Bits f <=? 32)%Z then "uint32" else "uint64"
       end%string.

Definition unit_comment (f : FieldDef) : string :=
  if bool_decide (fd_Unit f = EmptyString) then EmptyString else (" // " ++ fd_Unit f)%string.

(** The comment of a message's field: its unit and its lookup. *)
Definition field_comment (f : FieldDef) : string :=
  if bool_decide (fd_LookupRef f = EmptyString) then unit_comment f
  else if bool_decide (fd_Unit f = EmptyString) then (" // see " ++ fd_LookupRef f ++ " lookup")%string
  else (unit_comment f ++ "; see " ++ fd_LookupRef f ++ " lookup")%string.

Section proto.
Context `{U : Unicode}.

(** [strings.ToUpper] of a name that is UTF-8. *)
Definition toScreamingSnake (s : string) : string := string_of_runes (map ToUpper (runes (toSnake s))).

(** The values of an enumeration: one for zero comes first if there is none. *)
Definition proto_values (e : EnumDef) : list (string * Z) :=
  (if existsb (fun v => ev_Value v =? 0) (en_Values e) then [] else [((toScreamingSnake (en_Name e) ++ "_UNSPECIFIED")%string, 0)]) ++
  map (fun v => ((toScreamingSnake (en_Name e) ++ "_" ++ toScreamingSnake (ev_Name v))%string, ev_Value v)) (en_Values e).

Definition struct_field (num : Z) (f : FieldDef) : proto_field :=
  mkProto false (protoFieldType f) (toSnake (fd_Name f)) num (unit_comment f).

Definition pgn_field (num : Z) (f : FieldDef) : proto_field :=
  match fd_Type f with
  | TypeBytes => mkProto false "bytes" (toSnake (fd_Name f)) num (field_comment f)
  | TypeStruct => mkProto true (toPascal (fd_StructRef f)) (toSnake (fd_Name f)) num (field_comment f)
  | _ =>
      if IsRepeated f then mkProto true (protoFieldType f) (repeatJSONName f) num (field_comment f)
      else mkProto false (protoFieldType f) (toSnake (fd_Name f)) num (field_comment f)
  end.

(** The numbers go up by one, the fields that are skipped apart. *)
Fixpoint numbered_from {A B} (build : Z -> A -> B) (fieldNum : Z) (xs : list A) : list B :=
  match xs with
  | [] => []
  | x :: xs => build fieldNum x :: numbered_from build (fieldNum + 1) xs
  end.

Definition struct_message (sd : StructDef) : list proto_field := numbered_from struct_field 1 (visible (sd_Fields sd)).
Definition pgn_message (p : PGNDef) : list proto_field := numbered_from pgn_field 1 (visible (pgn_fields p)).

(** The cases of [DecodedPGN]; the number 1 is the PGN's. *)
Definition oneof_field (num : Z) (p : PGNDef) : proto_field :=
  mkProto false (toPascal (pd_Description p)) (toSnake (pd_Description p)) num "".
Definition oneof (s : Schema) : list proto_field := numbered_from oneof_field 2 (coded s).

Definition show_proto_field (pf : proto_field) : string :=
  ((if pf_Repeated pf then "repeated " else "") ++ pf_Type pf ++ " " ++ pf_Name pf ++ " = " ++ FormatInt (pf_Num pf) ++ ";"
   ++ pf_Comment pf)%string.

Definition proto_block (header : string) (body : list string) : list string := header :: body ++ ["}"; ""]%string.

Definition proto_enum (e : EnumDef) : list string :=
  proto_block ("enum " ++ en_Name e ++ " {") (map (fun '(n, v) => "  " ++ n ++ " = " ++ FormatInt v ++ ";")%string (proto_values e)).

Definition proto_message (name : string) (fs : list proto_field) : list string :=
  proto_block ("message " ++ name ++ " {") (map (fun pf => "  " ++ show_proto_field pf)%string fs).

Definition GenerateProto (s : Schema) (pkg : string) : string :=
  lines (["// Code generated by pgngen; DO NOT EDIT."; ""; "syntax = " ++ quoted "proto3" ++ ";"; ""; "package " ++ pkg ++ ";"; "";
          "option go_package = " ++ quoted pkg ++ ";"; ""]%string
    ++ flat_map proto_enum (sc_Enums s)
    ++ flat_map (fun sd => proto_message (toPascal (sd_Name sd)) (struct_message sd)) (sc_Structs s)
    ++ flat_map (fun p => ("// PGN " ++ FormatInt (pd_PGN p) ++ " — " ++ pd_Description p)%string ::
                          proto_message (toPascal (pd_Description p)) (pgn_message p)) (coded s)
    ++ ["// DecodedPGN wraps any decoded PGN message."; "message DecodedPGN {"; "  uint32 pgn = 1;"; "  oneof message {"]%string
    ++ map (fun pf => "    " ++ show_proto_field pf)%string (oneof s) ++ ["  }"; "}"]%string).

End proto.

(** * JSON Schema *)

Inductive jvalue :=
| JText (s : string) | JInt (z : Z) | JBool (b : bool) | JList (vs : list jvalue) | JMap (ms : list (string * jvalue)).

(** [m[k] = v]; the keys are kept in order. *)
Fixpoint put {A} (k : string) (v : A) (ms : list (string * A)) : list (string * A) :=
  match ms with
  | [] => [(k, v)]
  | (k', v') :: ms' =>
      match String.compare k k' with
      | Lt => (k, v) :: ms
      | Eq => (k, v) :: ms'
      | Gt => (k', v') :: put k v ms'
      end
  end.

Fixpoint get {A} (k : string) (ms : list (string * A)) : option A :=
  match ms with
  | [] => None
  | (k', v) :: ms => if bool_decide (k = k') then Some v else get k ms
  end.

Definition jmap (ms : list (string * jvalue)) : jvalue := JMap (foldl (fun acc '(k, v) => put k v acc) [] ms).

(** [json.MarshalIndent] with two spaces. *)
Fixpoint MarshalIndent (indent : string) (v : jvalue) : string :=
  let inner := (indent ++ "  ")%string in
  let block (open close : string) (items : list string) : string :=
    match items with
    | [] => open ++ close
    | _ => open ++ nl ++ String.concat ("," ++ nl) (map (String.append inner) items) ++ nl ++ indent ++ close
    end%string in
  match v with
  | JText s => json_quote s
  | JInt z => FormatInt z
  | JBool b => if b then "true" else "false"
  | JList vs => block "[" "]" (map (MarshalIndent inner) vs)
  | JMap ms => block "{" "}" (map (fun '(k, v) => json_quote k ++ ": " ++ MarshalIndent inner v) ms)
  end%string.

Abbreviation props := (list (string * jvalue)).

Definition type_is (t : string) : string * jvalue := ("type"%string, JText t).
Definition ref_to (name : string) : string * jvalue := ("$ref"%string, JText ("#/$defs/" ++ name)%string).

Definition jsonSchemaFieldType (f : FieldDef) : props :=
  if HasScaling f then [type_is "number"]
  else match fd_Type f with
       | TypeString | TypeStringLAU => [type_is "string"]
       | TypeFloat => [type_is "number"]
       | TypeEnum => [ref_to (fd_EnumRef f)]
       | _ => [type_is "integer"]
       end.

Section schema.
Context `{U : Unicode}.

Definition pair_items : jvalue :=
  jmap [type_is "object";
        ("properties", jmap [("field", jmap [type_is "integer"]); ("name", jmap [type_is "string"]); ("value", jmap [type_is "integer"])]);
        ("required", JList [JText "field"; JText "value"])]%string.

(** The name and the schema of a PGN's field. *)
Definition field_schema (f : FieldDef) : string * props :=
  match fd_Type f with
  | TypeBytes =>
      (toSnake (fd_Name f),
       if bool_decide (fd_PGNRef f = EmptyString) then [type_is "string"; ("description", JText "hex-encoded raw bytes")]
       else [type_is "array"; ("items", pair_items)])
  | TypeStruct => (toSnake (fd_Name f), [type_is "array"; ("items", jmap [ref_to (toPascal (fd_StructRef f))])])
  | _ =>
      if IsRepeated f then
        (repeatJSONName f,
         if bool_decide (fd_GroupMode f = "map") then [type_is "object"; ("additionalProperties", jmap (jsonSchemaFieldType f))]
         else [type_is "array"; ("items", jmap (jsonSchemaFieldType f)); ("minItems", JInt (fd_RepeatCount f));
               ("maxItems", JInt (fd_RepeatCount f))])
      else (toSnake (fd_Name f), jsonSchemaFieldType f)
  end%string.

(** The unit, or the description, and the lookup. *)
Definition describe (f : FieldDef) (prop : props) : props :=
  let prop := if bool_decide (fd_Unit f = EmptyString) then prop else put "description"%string (JText (fd_Unit f)) prop in
  let prop := if bool_decide (fd_Desc f = EmptyString) then prop else put "description"%string (JText (fd_Desc f)) prop in
  if bool_decide (fd_LookupRef f = EmptyString) then prop
  else put "description"%string
         (JText (match get "description" prop with
                 | Some (JText desc) => desc ++ "; see " ++ fd_LookupRef f ++ " lookup"
                 | _ => "see " ++ fd_LookupRef f ++ " lookup"
                 end)%string) prop.

Definition sorted (ms : props) : props := foldl (fun acc '(k, v) => put k v acc) [] ms.

Definition pgn_property (f : FieldDef) : string * jvalue :=
  let '(name, prop) := field_schema f in (name, JMap (describe f (sorted prop))).

Definition struct_property (f : FieldDef) : string * jvalue :=
  (toSnake (fd_Name f),
   JMap (let prop := sorted (jsonSchemaFieldType f) in
         if bool_decide (fd_Unit f = EmptyString) then prop else put "description"%string (JText (fd_Unit f)) prop)).

(** The properties of an object, and all their names as required. *)
Definition properties (ms : list (string * jvalue)) : props := sorted ms.
Definition required_names (ms : list (string * jvalue)) : list string := map fst ms.

Definition object_schema (more : list (string * jvalue)) (ms : list (string * jvalue)) : jvalue :=
  jmap (more ++ [type_is "object"; ("properties", JMap (properties ms)); ("required", JList (map JText (required_names ms)));
                 ("additionalProperties", JBool false)]%string).

Definition pgn_properties (p : PGNDef) : list (string * jvalue) := map pgn_property (visible (pgn_fields p)).
Definition struct_properties (sd : StructDef) : list (string * jvalue) := map struct_property (visible (sd_Fields sd)).

Definition schema_defs (s : Schema) : props :=
  sorted (map (fun sd => (toPascal (sd_Name sd), object_schema [] (struct_properties sd))) (sc_Structs s)
    ++ map (fun e => (en_Name e, jmap [type_is "string"; ("enum"%string, JList (map (fun v => JText (ev_Name v)) (en_Values e)))])) (sc_Enums s)
    ++ map (fun p => (toPascal (pd_Description p),
         object_schema [("description", JText ("PGN " ++ FormatInt (pd_PGN p) ++ " — " ++ pd_Description p))]%string (pgn_properties p)))
       (coded s)).

Definition schema_document (s : Schema) : jvalue :=
  jmap [("$schema", JText "https://json-schema.org/draft/2020-12/schema"); ("title", JText "NMEA 2000 Decoded PGN Messages");
        ("description", JText "Schema for decoded NMEA 2000 PGN messages generated by pgngen");
        ("$defs", JMap (schema_defs s));
        ("oneOf", JList (map (fun p => jmap [ref_to (toPascal (pd_Description p))]) (coded s)))]%string.

Definition GenerateJSONSchema (s : Schema) : string := (MarshalIndent "" (schema_document s) ++ nl)%string.

End schema.

(** * Properties *)

(** ** Objects *)

Lemma compare_eq k k' : String.compare k k' = Eq -> k = k'.
Proof. apply String.compare_eq_iff. Qed.

Lemma get_put_eq {A} k (v : A) ms : get k (put k v ms) = Some v.
Proof.
  induction ms as [|[k' v'] ms IH]; cbn [put]; [cbn; by rewrite bool_decide_true|].
  destruct (String.compare k k') eqn:E; cbn [get]; [by rewrite bool_decide_true|by rewrite bool_decide_true|].
  case_bool_decide as Hk; [|done]. subst k'. pose proof (String.compare_antisym k k) as H. rewrite E in H. discriminate.
Qed.

Lemma get_put_ne {A} k k0 (v : A) ms : k <> k0 -> get k (put k0 v ms) = get k ms.
Proof.
  intros Hn. induction ms as [|[k' v'] ms IH]; cbn [put]; [cbn; by rewrite bool_decide_false|].
  destruct (String.compare k0 k') eqn:E; cbn [get].
  - apply compare_eq in E. subst k'. by rewrite bool_decide_false by done.
  - by rewrite (bool_decide_false (k = k0)) by done.
  - by rewrite IH.
Qed.

Lemma get_sorted_from (ms : props) : forall acc k,
  is_Some (get k (foldl (fun acc '(k, v) => put k v acc) acc ms)) <-> is_Some (get k acc) \/ In k (map fst ms).
Proof.
  induction ms as [|[k1 v1] ms IH]; intros acc k; cbn [foldl map fst]; [cbn; tauto|].
  rewrite IH. cbn [In]. destruct (String.eqb_spec k k1) as [->|Hn].
  - rewrite get_put_eq. split; [by auto|]. intros _. left. by eexists.
  - rewrite get_put_ne by done. split; [tauto|]. intros [H|[E|H]]; [auto|congruence|auto].
Qed.

(** The keys of an object are the names put into it. *)
Lemma get_sorted (ms : props) k : is_Some (get k (sorted ms)) <-> In k (map fst ms).
Proof. unfold sorted. rewrite get_sorted_from. cbn. split; [intros [[x H]|H]; [done|done]|auto]. Qed.

(** ** Numbers *)

Lemma numbered_nums {A} (build : Z -> A -> proto_field) : (forall n x, pf_Num (build n x) = n) ->
  forall xs n, map pf_Num (numbered_from build n xs) = seqZ n (Z.of_nat (length xs)).
Proof.
  intros Hb xs. induction xs as [|x xs IH]; intros n; [done|]. cbn [numbered_from map length]. rewrite IH, Hb.
  rewrite (seqZ_cons n) by lia. f_equal. f_equal; lia.
Qed.

Lemma pgn_field_num `{U : Unicode} n f : pf_Num (pgn_field n f) = n.
Proof. unfold pgn_field. by repeat case_match. Qed.

(** A message's fields are numbered 1, 2, ... in the order of the definition; the
    cases of [DecodedPGN] have the numbers after the PGN's, so no number is taken
    twice. *)
Lemma proto_numbers `{U : Unicode} s p sd :
  map pf_Num (pgn_message p) = seqZ 1 (Z.of_nat (length (visible (pgn_fields p)))) /\
  map pf_Num (struct_message sd) = seqZ 1 (Z.of_nat (length (visible (sd_Fields sd)))) /\
  NoDup (1 :: map pf_Num (oneof s)).
Proof.
  split_and!; [by apply numbered_nums, pgn_field_num|by apply numbered_nums|].
  unfold oneof. rewrite numbered_nums by done. apply NoDup_cons. split; [rewrite elem_of_seqZ; lia|apply NoDup_seqZ].
Qed.

(** [proto3] asks for an enumeration that starts with zero: it does unless the zero
    is there but is not the first value. *)
Lemma proto_enum_zero `{U : Unicode} e :
  (exists n, head (proto_values e) = Some (n, 0)) <->
  (Forall (fun v => ev_Value v <> 0) (en_Values e) \/ ev_Value <$> head (en_Values e) = Some 0).
Proof.
  unfold proto_values. destruct (existsb _ _) eqn:E.
  - destruct (en_Values e) as [|v vs]; [done|]. cbn. split.
    + intros [n [= _ H]]. right. by rewrite H.
    + intros [H|[= H]]; [|rewrite H; by eexists].
      exfalso. apply existsb_exists in E as (x & Hi & Hx%Z.eqb_eq). rewrite List.Forall_forall in H. by apply (H x Hi).
  - split; [intros _|intros _; by eexists]. left. apply List.Forall_forall. intros x Hi Hx.
    apply not_true_iff_false in E. apply E, existsb_exists. exists x. split; [done|by apply Z.eqb_eq].
Qed.

Lemma proto_enum_zero_second :
  let e := mkEnum "Mode" [mkEnumValue 1 "on"; mkEnumValue 0 "off"] 0 in
  proto_values e = [("MODE_ON", 1); ("MODE_OFF", 0)]%string.
Proof. vm_compute. reflexivity. Qed.

(** ** Types *)

Definition gotype_range (t : gotype) : Z * Z :=
  match t with GoUint w => (0, 2 ^ w) | GoInt w => (- 2 ^ (w - 1), 2 ^ (w - 1)) end.

(** The integers a Protocol Buffers type holds. *)
Definition proto_range (t : string) : option (Z * Z) :=
  if bool_decide (t = "sint32"%string) then Some (- 2 ^ 31, 2 ^ 31)
  else if bool_decide (t = "sint64"%string) then Some (- 2 ^ 63, 2 ^ 63)
  else if bool_decide (t = "uint32"%string) then Some (0, 2 ^ 32)
  else if bool_decide (t = "uint64"%string) then Some (0, 2 ^ 64)
  else None.

(** Every value of a field that is an integer in Go is a value of its type in the
    Protocol Buffers file. *)
Lemma proto_holds_integers f t :
  goFieldType f = TInteger t -> fd_Type f <> TypeStringLAU ->
  exists lo hi, proto_range (protoFieldType f) = Some (lo, hi) /\ lo <= fst (gotype_range t) /\ snd (gotype_range t) <= hi.
Proof.
  unfold goFieldType, protoFieldType, intGoType, uintGoType, type_width. intros H Hl.
  destruct (HasScaling f); [done|].
  destruct (fd_Type f); try discriminate; try done; injection H as <-;
    (destruct (fd_Bits f <=? 32) eqn:E32;
     [|rewrite (proj2 (Z.leb_gt (fd_Bits f) 8)), (proj2 (Z.leb_gt (fd_Bits f) 16)) by lia];
     repeat case_match; do 2 eexists; (split; [vm_compute; reflexivity|cbn; lia])).
Qed.

(** ** The JSON Schema against the JSON of a message *)

(** Of the fields of a variable-width PGN none is repeated: the generator of such a
    PGN declares one value for it. *)
Definition members_agree (p : PGNDef) : Prop :=
  PGN_HasVariableWidth p = true -> Forall (fun f => IsRepeated f = false) (visible (pgn_fields p)).

Lemma pgn_property_name `{U : Unicode} p f :
  In f (visible (pgn_fields p)) -> members_agree p -> fst (pgn_property f) = gm_JSON (pgn_member p f).
Proof.
  intros Hi Ha. unfold pgn_property.
  assert (Hp : forall refs, gm_JSON (plain_member refs f) = toSnake (fd_Name f)) by (intros; unfold plain_member; by case_match).
  destruct (field_schema f) as [n prop] eqn:E. cbn [fst]. change n with (n, prop).1. rewrite <- E. clear n prop E.
  unfold pgn_member. destruct (PGN_HasVariableWidth p) eqn:Ev.
  - specialize (Ha Ev). rewrite List.Forall_forall in Ha. specialize (Ha f Hi).
    unfold field_schema, variable_member. rewrite Ha. destruct (fd_Type f); cbn [fst gm_JSON]; done || by rewrite Hp.
  - assert (Hv : variable_width f = false).
    { apply not_true_iff_false. intros H. apply not_true_iff_false in Ev. apply Ev, existsb_exists. exists f. split; [|done].
      by apply List.filter_In in Hi as [? _]. }
    unfold variable_width in Hv. unfold field_schema, variant_member. destruct (fd_Type f); try discriminate;
      (destruct (IsRepeated f); [by case_match|cbn [fst]; by rewrite Hp]).
Qed.

(** The schema requires the members of the generated struct, in their order. *)
Lemma required_members `{U : Unicode} p : members_agree p -> required_names (pgn_properties p) = map gm_JSON (pgn_members p).
Proof.
  intros Ha. unfold required_names, pgn_properties, pgn_members. rewrite !List.map_map. apply List.map_ext_in.
  intros f Hi. by apply pgn_property_name.
Qed.

(** An object has only names that are properties, and all those required. *)
Definition names_valid (ms : list (string * jvalue)) (names : list string) : Prop :=
  (forall n, In n names -> is_Some (get n (properties ms))) /\ (forall n, In n (required_names ms) -> In n names).

(** The schema never rejects a message for a member it does not know; it accepts its
    members just when no member was left out as empty, although the struct's tags
    say a value may be missing. *)
Lemma schema_accepts_full_messages `{U : Unicode} p m :
  members_agree p -> NoDup (map gm_JSON (pgn_members p)) ->
  names_valid (pgn_properties p) (json_names p m) <->
  Forall (fun f => gm_OmitEmpty (pgn_member p f) = true -> empty_value (m !! fd_Name f) = false) (visible (pgn_fields p)).
Proof.
  intros Ha Hd. unfold names_valid, properties. rewrite required_members by done.
  unfold pgn_members in *. rewrite List.map_map in *.
  assert (Hm : forall f, In f (marshalled p m) <->
    In f (visible (pgn_fields p)) /\ (gm_OmitEmpty (pgn_member p f) = true -> empty_value (m !! fd_Name f) = false)).
  { intros f. unfold marshalled. rewrite List.filter_In, negb_true_iff, andb_false_iff.
    split; intros [H1 H2]; (split; [done|]); [intros H3; destruct H2 as [H2|H2]; congruence|].
    destruct (gm_OmitEmpty _); auto. }
  rewrite List.Forall_forall. split.
  - intros [_ Hr] f Hi. specialize (Hr _ (in_map (fun f => gm_JSON (pgn_member p f)) _ _ Hi)).
    apply in_map_iff in Hr as (g & Eg & [Hg Hf]%Hm). enough (g = f) as -> by done.
    revert Hd Hi Hg Eg. clear. induction (visible (pgn_fields p)) as [|h fs IH]; [done|]. cbn [map In].
    intros [Hn Hd]%NoDup_cons Hi Hg E. destruct Hi as [->|Hi], Hg as [->|Hg]; [done| | |by apply IH].
    + exfalso. apply Hn. rewrite <- E. apply list_elem_of_In. by apply in_map with (f := fun f => gm_JSON (pgn_member p f)).
    + exfalso. apply Hn. rewrite E. apply list_elem_of_In. by apply in_map with (f := fun f => gm_JSON (pgn_member p f)).
  - intros Hf. split.
    + intros n (f & <- & [Hi _]%Hm)%in_map_iff. apply get_sorted.
      change (map fst (pgn_properties p)) with (required_names (pgn_properties p)). rewrite required_members by done.
      unfold pgn_members. rewrite List.map_map. by apply in_map with (f := fun f => gm_JSON (pgn_member p f)).
    + intros n (f & <- & Hi)%in_map_iff. apply in_map with (f := fun f => gm_JSON (pgn_member p f)), Hm. auto.
Qed.

Lemma empty_message_rejected `{U : Unicode} p names : (json_names p <$> Decode (pgn_fields p) []) = Some [] ->
  required_names (pgn_properties p) = "sid"%string :: names ->
  exists m, Decode (pgn_fields p) [] = Some m /\ json_names p m = [] /\ required_names (pgn_properties p) = "sid"%string :: names /\
    ~ names_valid (pgn_properties p) (json_names p m).
Proof.
  intros Hj Hr. destruct (Decode (pgn_fields p) []) as [m|]; [|done]. injection Hj as Hn. exists m. split_and!; [done..|].
  intros [_ H]. rewrite Hn, Hr in H. apply (H "sid"%string). by left.
Qed.

(** What a decoder leaves out the schema still asks for: of the wind message of the
    demonstration, decoded from a payload with nothing in it, every member is
    missing. *)
Lemma unavailable_wind_rejected :
  let p := nth 0 (sc_PGNs demo_resolved) (plain_pgn 0 "" []) in
  exists m, Decode (pgn_fields p) [] = Some m /\ json_names p m = [] /\
    required_names (pgn_properties p) = ["sid"; "wind_speed"; "wind_angle"; "wind_reference"]%string /\
    ~ names_valid (pgn_properties p) (json_names p m).
Proof. cbv zeta. apply empty_message_rejected; vm_compute; reflexivity. Qed.

(** ** Imports *)

Definition mentions (text name : string) : bool := match String.index 0 name text with Some _ => true | None => false end.

(** The imports are not those of the text.  A schema of enumerations alone has no
    [fmt] for the methods it writes; a stored float has no [math], and a field of
    twelve bits no [encoding/binary], for the statements of its codec; a text of
    eight bytes imports [encoding/binary] that its statements do not use. *)
Lemma imports_missing :
  let decode f := show_decode quoted tab None "m" "X" (writeDecodeField f ∅) in
  let encode f := show_encode "X" (writeEncodeField f ∅) in
  let file f := mkSchema [] [] [] [plain_pgn 65280 "x" [f]] in
  let e := mkEnum "Mode" [mkEnumValue 0 "off"] 0 in
  let float := at_bit 0 (plain_field "x" TypeFloat 32) in
  let twelve := at_bit 0 (plain_field "x" TypeUint 12) in
  let text := at_bit 0 (plain_field "x" TypeString 64) in
  (imports (mkSchema [e] [] [] []), mentions (go_enum quoted e) "fmt.Sprintf") =
    (["encoding/json"; "strconv"; "time"]%string, true) /\
  (imports (file float), mentions (decode float) "math.Float32frombits") = (["encoding/binary"; "fmt"; "time"]%string, true) /\
  (imports (file twelve), mentions (decode twelve) "binary.LittleEndian") = (["fmt"; "time"]%string, true) /\
  (imports (file text), mentions (decode text) "binary.", mentions (encode text) "binary.") =
    (["encoding/binary"; "fmt"; "time"]%string, false, false).
Proof. vm_compute. split_and!; reflexivity. Qed.

(** The texts of a small schema. *)
Example proto_text :
  let f := at_bit 0 (plain_field "wind_speed" TypeUint 16) in
  map show_proto_field (pgn_message (plain_pgn 1 "x" [f; at_bit 16 (plain_field "r" TypeReserved 4); at_bit 20 (plain_field "id" TypeInt 40)])) =
  ["uint32 wind_speed = 1;"; "sint64 id = 2;"]%string.
Proof. vm_compute. reflexivity. Qed.

Example schema_text :
  MarshalIndent "" (jmap [("b", JList []); ("a", JList [JInt 1; JText "x<y"])]%string) =
  ("{" ++ nl ++ "  " ++ quoted "a" ++ ": [" ++ nl ++ "    1," ++ nl ++ "    " ++ quoted "x\u003cy" ++ nl ++ "  ]," ++ nl
   ++ "  " ++ quoted "b" ++ ": []" ++ nl ++ "}")%string.
Proof. vm_compute. reflexivity. Qed.
