(* ===== verification/GoLiteral.v ===== *)
(** Number literals as Go's [strconv] reads them: base prefixes, underscores,
    exponents, hexadecimal floats and special values. *)

From S2P Require Import Prelude GoNum.
From Stdlib Require Import SpecFloat Ascii.

(** The lower-case form of a letter, by setting one bit. *)
Definition lower (b : Z) : Z := Z.lor b 32.

Definition is_digit (b : Z) : bool := (48 <=? b) && (b <=? 57).
Definition is_sign (b : Z) : bool := (b =? 43) || (b =? 45).

(** ** Underscores *)

(** What the last character was: a digit, an underscore, the start or another. *)
Inductive saw := SawStart | SawDigit | SawUnderscore | SawOther.

Fixpoint underscores_ok (hex : bool) (last : saw) (s : list Z) : bool :=
  match s with
  | [] => match last with SawUnderscore => false | _ => true end
  | b :: s =>
      if is_digit b || (hex && (97 <=? lower b) && (lower b <=? 102)) then underscores_ok hex SawDigit s
      else if b =? 95 then match last with SawDigit => underscores_ok hex SawUnderscore s | _ => false end
      else match last with SawUnderscore => false | _ => underscores_ok hex SawOther s end
  end.

(** [underscoreOK] *)
Definition underscoreOK (s : list Z) : bool :=
  let s := match s with b :: s' => if is_sign b then s' else s | [] => s end in
  match s with
  | b :: c :: s' =>
      if (b =? 48) && ((lower c =? 98) || (lower c =? 111) || (lower c =? 120))
      then underscores_ok (lower c =? 120) SawDigit s' else underscores_ok false SawStart s
  | _ => underscores_ok false SawStart s
  end.

(** ** Integers *)

(** The base of a literal and its digits; a single [0] is decimal. *)
Definition base_prefix (s : list Z) : N * list Z :=
  match s with
  | b :: rest =>
      if b =? 48 then
        match rest with
        | c :: (_ :: _) as rest' =>
            if lower c =? 98 then (2%N, rest')
            else if lower c =? 111 then (8%N, rest')
            else if lower c =? 120 then (16%N, rest')
            else (8%N, rest)
        | _ => (8%N, rest)
        end
      else (10%N, s)
  | [] => (10%N, s)
  end.

(** The value of a literal without sign. *)
Definition literal_value (u : list Z) : option N :=
  match u with
  | [] => None
  | _ =>
      let '(base, digits) := base_prefix u in
      n ← parse_digits base (string_of_bytes (List.filter (fun b => negb (b =? 95)) digits)) 0;
      if existsb (Z.eqb 95) digits && negb (underscoreOK u) then None else Some n
  end.

(** [strconv.ParseInt(s, 0, 64)]. *)
Definition ParseInt0 (s : string) : result num_error Z :=
  let bs := bytes_of_string s in
  let '(neg, u) := match bs with b :: u => if is_sign b then (b =? 45, u) else (false, bs) | [] => (false, bs) end in
  match literal_value u with
  | None => Err ErrSyntax
  | Some n =>
      let z := if neg then - Z.of_N n else Z.of_N n in
      if (- 2 ^ 63 <=? z) && (z <? 2 ^ 63) then Ok z else Err ErrRange
  end.

(** [strconv.ParseUint(s, 0, bits)]. *)
Definition ParseUint0 (s : string) (bits : Z) : result num_error Z :=
  match literal_value (bytes_of_string s) with
  | None => Err ErrSyntax
  | Some n => if Z.of_N n <? 2 ^ bits then Ok (Z.of_N n) else Err ErrRange
  end.

(** ** Floats *)

(** The mantissa of a float: its digits as a number, how many follow the dot, and
    whether there were any; underscores are skipped. *)
Record mantissa := mkMantissa { mt_digits : N; mt_frac : Z; mt_dot : bool; mt_any : bool }.

Definition digit_of (hex : bool) (b : Z) : option N :=
  if is_digit b then Some (Z.to_N (b - 48))
  else if hex && (97 <=? lower b) && (lower b <=? 102) then Some (Z.to_N (lower b - 87)) else None.

Fixpoint read_mantissa (hex : bool) (m : mantissa) (s : list Z) : mantissa * list Z :=
  match s with
  | [] => (m, [])
  | b :: s' =>
      if b =? 95 then read_mantissa hex m s'
      else if b =? 46 then
        if mt_dot m then (m, s) else read_mantissa hex (mkMantissa (mt_digits m) (mt_frac m) true (mt_any m)) s'
      else match digit_of hex b with
           | None => (m, s)
           | Some d =>
               read_mantissa hex (mkMantissa (mt_digits m * (if hex then 16 else 10) + d)%N
                 (if mt_dot m then mt_frac m + 1 else mt_frac m) (mt_dot m) true) s'
           end
  end.

(** The digits of an exponent, capped as the source caps them. *)
Fixpoint read_exponent (e : Z) (s : list Z) : Z * list Z :=
  match s with
  | b :: s' =>
      if b =? 95 then read_exponent e s'
      else if is_digit b then read_exponent (if e <? 10000 then e * 10 + (b - 48) else e) s'
      else (e, s)
  | [] => (e, [])
  end.

(** An exponent after [expChar], with its sign; [None] when it is malformed. *)
Definition read_exp (expChar : Z) (s : list Z) : option (option Z * list Z) :=
  match s with
  | b :: s' =>
      if lower b =? expChar then
        let '(neg, s') := match s' with c :: t => if is_sign c then (c =? 45, t) else (false, s') | [] => (false, s') end in
        match s' with
        | c :: _ => if is_digit c then let '(e, t) := read_exponent 0 s' in Some (Some (if neg then - e else e), t) else None
        | [] => None
        end
      else Some (None, s)
  | [] => Some (None, [])
  end.

Definition is_word (word s : list Z) : bool := bool_decide (map lower s = word).

(** [inf], [infinity] and [nan]. *)
Definition special (s : list Z) : option float64 :=
  let '(neg, signed, u) := match s with b :: u => if is_sign b then (b =? 45, true, u) else (false, false, s) | [] => (false, false, s) end in
  if is_word [105; 110; 102] u || is_word [105; 110; 102; 105; 110; 105; 116; 121] u then Some (S754_infinity neg)
  else if negb signed && is_word [110; 97; 110] u then Some S754_nan else None.

(** [strconv.ParseFloat(s, 64)], correctly rounded. *)
Definition ParseFloat64 (text : string) : result num_error float64 :=
  let s := bytes_of_string text in
  match special s with
  | Some x => Ok x
  | None =>
      let '(neg, u) := match s with b :: u => if is_sign b then (b =? 45, u) else (false, s) | [] => (false, s) end in
      let '(hex, d) := match u with
                       | z :: x :: (_ :: _) as d => if (z =? 48) && (lower x =? 120) then (true, d) else (false, u)
                       | _ => (false, u)
                       end in
      let '(m, rest) := read_mantissa hex (mkMantissa 0 0 false false) d in
      if negb (mt_any m) then Err ErrSyntax
      else match read_exp (if hex then 112 else 101) rest with
           | Some (e, []) =>
               if hex && bool_decide (e = None) then Err ErrSyntax
               else if existsb (Z.eqb 95) s && negb (underscoreOK s) then Err ErrSyntax
               else
                 let e := default 0 e in
                 let x := if hex then
                            match mt_digits m with
                            | N0 => S754_zero neg
                            | Npos p => binary_normalize 53 1024 (cond_Zopp neg (Zpos p)) (e - 4 * mt_frac m) neg
                            end
                          else float_of_decimal neg (mt_digits m) (e - mt_frac m) in
                 match x with S754_infinity _ => Err ErrRange | _ => Ok x end
           | _ => Err ErrSyntax
           end
  end.

Example literal_examples :
  (map ParseInt0 ["0x1F"; "-010"; "0b101"; "1_000"; "1__0"; "0x"; "08"; "-"; "9223372036854775808"],
   map (fun s => match ParseFloat64 s with Ok x => Some (FormatFloat x) | Err _ => None end)
     ["1e-7"; "0.0001"; "-2.5E2"; "0x1p-2"; "Inf"; "nan"; "1_0.5"; "1e400"; "."; "1e"; "+.5"])%string =
  ([Ok 31; Ok (-8); Ok 5; Ok 1000; Err ErrSyntax; Err ErrSyntax; Err ErrSyntax; Err ErrSyntax; Err ErrRange],
   [Some "1e-07"; Some "0.0001"; Some "-250"; Some "0.25"; Some "+Inf"; Some "NaN"; Some "10.5"; None; None; None; Some "0.5"])%string.
Proof. vm_compute. reflexivity. Qed.
