(* ===== verification/PgnParser.v ===== *)
(** The parser of PGN definitions: [pgngen/parser.go].

    A text is a list of lines, a line its bytes.  The parser's position is the
    number of lines before it with the lines that are left.  A failure is an
    error with its line, a slice out of range, or a line on which [tokenize] does
    not end. *)

From S2P Require Import Prelude GoNum GoLiteral PgnNaming PgnSchema PgnBits PgnCodec PgnRoundTrip.
From Stdlib Require Import Ascii.

(** * Tokens *)

(** [unicode.IsSpace], the white space of Unicode. *)
Definition IsSpace (r : Z) : bool :=
  ((9 <=? r) && (r <=? 13)) || existsb (Z.eqb r) [32; 133; 160; 5760; 8232; 8233; 8239; 8287; 12288] ||
  ((8192 <=? r) && (r <=? 8202)).

(** The runes of a text with their bytes. *)
Fixpoint rune_bytes (fuel : nat) (bs : list Z) : list (Z * list Z) :=
  match fuel, bs with
  | S fuel, _ :: _ => let '(r, n) := DecodeRune bs in (r, take n bs) :: rune_bytes fuel (drop n bs)
  | _, _ => []
  end.

Fixpoint drop_spaces (rs : list (Z * list Z)) : list (Z * list Z) :=
  match rs with
  | (r, _) :: rs' => if IsSpace r then drop_spaces rs' else rs
  | [] => []
  end.

(** [strings.TrimSpace] *)
Definition TrimSpace (bs : list Z) : list Z :=
  concat (map snd (rev (drop_spaces (rev (drop_spaces (rune_bytes (length bs) bs)))))).

(** What precedes the first [b], with it, and what follows. *)
Fixpoint cut_after (b : Z) (s : list Z) : option (list Z * list Z) :=
  match s with
  | [] => None
  | c :: s => if c =? b then Some ([c], s) else match cut_after b s with Some (x, y) => Some (c :: x, y) | None => None end
  end.

Definition quote : Z := 34.

(** A token up to white space, which may contain quoted text; a byte is taken for
    a rune. *)
Fixpoint word (inQuote : bool) (s : list Z) : list Z * list Z :=
  match s with
  | [] => ([], [])
  | b :: s' =>
      if inQuote then let '(w, rest) := word (negb (b =? quote)) s' in (b :: w, rest)
      else if b =? quote then let '(w, rest) := word true s' in (b :: w, rest)
      else if IsSpace b then ([], s)
      else let '(w, rest) := word false s' in (b :: w, rest)
  end.

(** The loop of [tokenize]; [None] when it has not ended. *)
Fixpoint tokenize_loop (fuel : nat) (line : list Z) : option (list (list Z)) :=
  match line with
  | [] => Some []
  | b :: rest =>
      match fuel with
      | O => None
      | S fuel =>
          if b =? quote then
            match cut_after quote rest with
            | None => Some [line]
            | Some (w, rest) => ts ← tokenize_loop fuel (TrimSpace rest); Some ((b :: w) :: ts)
            end
          else
            let '(w, rest) := word false line in
            ts ← tokenize_loop fuel (TrimSpace rest); Some (w :: ts)
      end
  end.

Definition tokenize (line : list Z) : option (list string) :=
  map string_of_bytes <$> tokenize_loop (S (length line)) (TrimSpace line).

(** A comment ends the line, unless it is in quotes. *)
Fixpoint stripComment_loop (inQuote : bool) (line : list Z) : list Z :=
  match line with
  | [] => []
  | b :: line =>
      let inQuote := xorb inQuote (b =? quote) in
      if (b =? 35) && negb inQuote then [] else b :: stripComment_loop inQuote line
  end.

Definition stripComment (line : list Z) : list Z := stripComment_loop false line.

Fixpoint index_of (c : ascii) (s : string) : option (string * string) :=
  match s with
  | EmptyString => None
  | String d s => if Ascii.eqb c d then Some (EmptyString, s)
                  else match index_of c s with Some (a, b) => Some (String d a, b) | None => None end
  end.

Definition splitAttr (s : string) : option (string * string) := index_of "=" s.

Definition unquote (s : string) : string :=
  match rev (bytes_of_string s), bytes_of_string s with
  | z :: _ :: _, a :: rest => if (a =? quote) && (z =? quote) then string_of_bytes (removelast rest) else s
  | _, _ => s
  end.

(** * Errors *)

Inductive duration_error := BadMilliseconds (s : string) | BadSeconds (s : string) | NotPositive (s : string) | BadSuffix (s : string).

Inductive parse_message :=
| UnexpectedKeyword (s : string)
| ExpectedEnum | ExpectedEnumValue | InvalidEnumValue (s : string)
| ExpectedLookup | InvalidKeyType (s : string) | ExpectedLookupValue | InvalidLookupKey (s : string)
| ExpectedStruct | EmptyStruct | ExpectedPGN | InvalidPGN (s : string) | EmptyPGN
| UnknownPGNAttr (s : string) | InvalidInterval (v : string) (e : duration_error)
| Unterminated (block : string)
| FieldTooShort | MissingType (f : string) | InvalidWidth (f s : string) | MissingWidth (f : string)
| InvalidAttr (f s : string) | UnknownAttr (f k : string) | InvalidValue (f k v : string)
| SkippedField (k : string) | OnlyFor (f k ty : string) | CannotHave (f ty k : string)
| StringWidth (f : string) | RepeatWith (f k : string) | NeedsRepeat (f k : string).

Inductive failure := PErr (line : Z) (msg : parse_message) | PPanic | PHang.

Definition at_line {A} (pos : Z) (r : result parse_message A) : result failure A :=
  match r with Ok a => Ok a | Err m => Err (PErr (pos + 1) m) end.

(** * Fields *)

(** A duration in milliseconds or seconds; the product wraps. *)
Definition parseDuration (s : string) : result duration_error duration :=
  let n := String.length s in
  let positive unit digits err :=
    match ParseInt digits with
    | Err _ => Err err
    | Ok z => if z <=? 0 then Err (NotPositive s) else Ok (i64 (z * unit))
    end in
  if String.eqb (String.substring (n - 2) 2 s) "ms" then positive millisecond (String.substring 0 (n - 2) s) (BadMilliseconds s)
  else if String.eqb (String.substring (n - 1) 1 s) "s" then positive second (String.substring 0 (n - 1) s) (BadSeconds s)
  else Err (BadSuffix s).

Definition classifyType (s : string) : FieldType * bool * string :=
  if existsb (String.eqb s) ["uint8"; "uint16"; "uint32"; "uint64"]%string then (TypeUint, false, EmptyString)
  else if existsb (String.eqb s) ["int8"; "int16"; "int32"; "int64"]%string then (TypeInt, true, EmptyString)
  else if existsb (String.eqb s) ["float32"; "float64"]%string then (TypeFloat, false, EmptyString)
  else if String.eqb s "string" then (TypeString, false, EmptyString)
  else if String.eqb s "string_lau" then (TypeStringLAU, false, EmptyString)
  else if String.eqb s "bytes" then (TypeBytes, false, EmptyString)
  else (TypeEnum, false, s).

(** An attribute that was read. *)
Inductive attr :=
| AScale (x : float64) | AOffset (x : float64) | AUnit (s : string) | ADesc (s : string) | AValue (z : Z) | ALookup (s : string)
| ARepeatRef (s : string) | ARepeat (n : Z) | AGroup (s : string) | ATolerance (x : float64) | ATrim (s : string)
| AAlias (s : string) | APGNRef (s : string) | ACountRef (s : string).

Definition set_attr (a : attr) (f : FieldDef) : FieldDef :=
  mkField (fd_Name f) (fd_Type f) (fd_Bits f) (fd_BitStart f)
    (match a with AScale x => x | _ => fd_Scale f end) (match a with AOffset x => x | _ => fd_Offset f end)
    (match a with AUnit s => s | _ => fd_Unit f end) (match a with ADesc s => s | _ => fd_Desc f end) (fd_EnumRef f)
    (match a with ALookup s => s | _ => fd_LookupRef f end) (fd_StructRef f)
    (match a with ARepeatRef s => s | _ => fd_RepeatRef f end) (match a with ATrim s => s | _ => fd_Trim f end)
    (match a with ATolerance x => Some x | _ => fd_Tolerance f end) (fd_Signed f)
    (match a with AValue z => Some z | _ => fd_MatchValue f end) (match a with ARepeat n => n | _ => fd_RepeatCount f end)
    (match a with AGroup s => s | _ => fd_GroupMode f end) (match a with AAlias s => s | _ => fd_AliasPlural f end)
    (match a with APGNRef s => s | _ => fd_PGNRef f end) (match a with ACountRef s => s | _ => fd_CountRef f end) (fd_Line f).

Definition negative_float (x : float64) : bool := SpecFloat.SFltb x (SpecFloat.S754_zero false).

Definition parse_attr (f : FieldDef) (k v : string) : result parse_message attr :=
  let number c := match ParseFloat64 v with Ok x => Ok (c x) | Err _ => Err (InvalidValue (fd_Name f) k v) end in
  let visible r := if IsSkipped f then Err (SkippedField k) else r in
  let only ty name c := if bool_decide (fd_Type f = ty) then Ok (c v) else Err (OnlyFor (fd_Name f) k name) in
  if String.eqb k "scale" then number AScale
  else if String.eqb k "offset" then number AOffset
  else if String.eqb k "unit" then Ok (AUnit (unquote v))
  else if String.eqb k "desc" then Ok (ADesc (unquote v))
  else if String.eqb k "value" then
    visible (match ParseInt v with Ok z => Ok (AValue z) | Err _ => Err (InvalidValue (fd_Name f) k v) end)
  else if String.eqb k "lookup" then visible (Ok (ALookup (unquote v)))
  else if String.eqb k "repeat" then
    visible (match ParseInt v with
             | Err _ => Ok (ARepeatRef v)
             | Ok n => if n <? 2 then Err (InvalidValue (fd_Name f) k v) else Ok (ARepeat n)
             end)
  else if String.eqb k "group" then
    if String.eqb (unquote v) "map" then Ok (AGroup (unquote v)) else Err (InvalidValue (fd_Name f) k (unquote v))
  else if String.eqb k "tolerance" then
    match ParseFloat64 v with
    | Ok x => if negative_float x then Err (InvalidValue (fd_Name f) k v) else Ok (ATolerance x)
    | Err _ => Err (InvalidValue (fd_Name f) k v)
    end
  else if String.eqb k "trim" then only TypeString "string"%string (fun v => ATrim (unquote v))
  else if String.eqb k "as" then Ok (AAlias (unquote v))
  else if String.eqb k "pgn_ref" then only TypeBytes "bytes"%string APGNRef
  else if String.eqb k "count" then only TypeBytes "bytes"%string ACountRef
  else Err (UnknownAttr (fd_Name f) k).

Fixpoint parse_attrs (f : FieldDef) (tokens : list string) : result parse_message FieldDef :=
  match tokens with
  | [] => Ok f
  | t :: tokens =>
      match splitAttr t with
      | None => Err (InvalidAttr (fd_Name f) t)
      | Some (k, v) => a ← parse_attr f k v; parse_attrs (set_attr a f) tokens
      end
  end.

Definition nonempty (s : string) : bool := negb (bool_decide (s = EmptyString)).
Definition has_repeat (f : FieldDef) : bool := (0 <? fd_RepeatCount f) || nonempty (fd_RepeatRef f).

(** What a field of a type without width cannot have. *)
Definition check_bare (ty : string) (trim : bool) (f : FieldDef) : result parse_message unit :=
  let refuse k := Err (CannotHave (fd_Name f) ty k) in
  if HasScaling f then refuse "scale"%string
  else if bool_decide (is_Some (fd_Tolerance f)) then refuse "tolerance"%string
  else if bool_decide (is_Some (fd_MatchValue f)) then refuse "value"%string
  else if nonempty (fd_LookupRef f) then refuse "lookup"%string
  else if has_repeat f then refuse "repeat"%string
  else if trim && nonempty (fd_Trim f) then refuse "trim"%string
  else Ok tt.

Definition check_parsed (f : FieldDef) : result parse_message unit :=
  if bool_decide (fd_Type f = TypeString) && negb (Z.rem (fd_Bits f) 8 =? 0) then Err (StringWidth (fd_Name f))
  else
    _ ← (if bool_decide (fd_Type f = TypeStringLAU) then check_bare "string_lau" false f else Ok tt);
    _ ← (if bool_decide (fd_Type f = TypeBytes) then check_bare "bytes" true f else Ok tt);
    if (0 <? fd_RepeatCount f) && bool_decide (is_Some (fd_MatchValue f)) then Err (RepeatWith (fd_Name f) "value")
    else if (0 <? fd_RepeatCount f) && nonempty (fd_LookupRef f) then Err (RepeatWith (fd_Name f) "lookup")
    else if (0 <? fd_RepeatCount f) && bool_decide (fd_Type f = TypeEnum) then Err (RepeatWith (fd_Name f) "enum")
    else if nonempty (fd_GroupMode f) && negb (has_repeat f) then Err (NeedsRepeat (fd_Name f) "group")
    else if nonempty (fd_AliasPlural f) && negb (has_repeat f) then Err (NeedsRepeat (fd_Name f) "as")
    else Ok tt.

Definition new_field (name : string) (ty : FieldType) (bits : Z) (signed : bool) (enum : string) (line : Z) : FieldDef :=
  mkField name ty bits 0 (SpecFloat.S754_zero false) (SpecFloat.S754_zero false) "" "" enum "" "" "" "" None signed None 0
    "" "" "" "" line.

(** The type of a field and the tokens after it. *)
Definition parse_type (name : string) (tokens : list string) : result parse_message (FieldType * bool * string * list string) :=
  if String.eqb name "_" then Ok (TypeReserved, false, EmptyString, tokens)
  else if String.eqb name "?" then Ok (TypeUnknown, false, EmptyString, tokens)
  else match tokens with
       | [] => Err (MissingType name)
       | t :: tokens => Ok (classifyType t, tokens)
       end.

(** The width of a field, which some types can do without. *)
Definition parse_width (name : string) (ty : FieldType) (tokens : list string) : result parse_message (Z * list string) :=
  match tokens with
  | (String ":" digits as t) :: tokens' =>
      match ParseInt digits with
      | Ok bits => if bits <=? 0 then Err (InvalidWidth name t) else Ok (bits, tokens')
      | Err _ => Err (InvalidWidth name t)
      end
  | _ => match ty with
         | TypeStringLAU | TypeBytes | TypeEnum => Ok (0, tokens)
         | _ => Err (MissingWidth name)
         end
  end.

Definition parseField (line : Z) (tokens : list string) : result parse_message FieldDef :=
  match tokens with
  | name :: (_ :: _) as rest =>
      '(ty, signed, enum, rest) ← parse_type name rest;
      '(bits, rest) ← parse_width name ty rest;
      f ← parse_attrs (new_field name ty bits signed enum line) rest;
      _ ← check_parsed f;
      Ok f
  | _ => Err FieldTooShort
  end.

(** * Blocks *)

(** The position and the lines from it on. *)
Record cursor := mkCursor { cu_pos : Z; cu_lines : list (list Z) }.

(** The tokens of a line without its comment. *)
Definition line_tokens (line : list Z) : result failure (list string) :=
  match tokenize (stripComment line) with Some ts => Ok ts | None => Err PHang end.

(** The lines of a block up to the one that closes it: [item] reads one, [close]
    is asked at the end. *)
Fixpoint block {A} (name : string) (item : Z -> list string -> result parse_message A) (close : list A -> result parse_message unit)
    (pos : Z) (lines : list (list Z)) (acc : list A) : result failure (list A * cursor) :=
  match lines with
  | [] => Err (PErr (pos + 1) (Unterminated name))
  | line :: lines =>
      toks ← line_tokens line;
      match toks with
      | [] => block name item close (pos + 1) lines acc
      | t :: _ =>
          if String.eqb t "}" then _ ← at_line pos (close acc); Ok (acc, mkCursor (pos + 1) lines)
          else a ← at_line pos (item (pos + 1) toks); block name item close (pos + 1) lines (acc ++ [a])
      end
  end.

Definition enum_item (_ : Z) (toks : list string) : result parse_message EnumValue :=
  match toks with
  | v :: eq :: name :: _ =>
      if String.eqb eq "=" then
        match ParseInt v with Ok z => Ok (mkEnumValue z (unquote name)) | Err _ => Err (InvalidEnumValue v) end
      else Err ExpectedEnumValue
  | _ => Err ExpectedEnumValue
  end.

Definition lookup_item (_ : Z) (toks : list string) : result parse_message LookupValue :=
  match toks with
  | v :: eq :: name :: _ =>
      if String.eqb eq "=" then
        match ParseInt0 v with Ok z => Ok (mkLookupValue z (unquote name)) | Err _ => Err (InvalidLookupKey v) end
      else Err ExpectedLookupValue
  | _ => Err ExpectedLookupValue
  end.

Definition never_refuse {A} (_ : list A) : result parse_message unit := Ok tt.
Definition refuse_empty {A} (m : parse_message) (acc : list A) : result parse_message unit :=
  match acc with [] => Err m | _ => Ok tt end.

(** The first line of a definition has been read; [lines] are those after it. *)
Definition parseEnum (pos : Z) (tokens : list string) (lines : list (list Z)) : result failure (EnumDef * cursor) :=
  match tokens with
  | _ :: name :: brace :: _ =>
      if String.eqb brace "{" then
        '(vs, c) ← block "enum" enum_item never_refuse (pos + 1) lines [];
        Ok (mkEnum name vs (pos + 1), c)
      else Err (PErr (pos + 1) ExpectedEnum)
  | _ => Err (PErr (pos + 1) ExpectedEnum)
  end.

Definition validLookupKeyTypes : list string := ["uint8"; "uint16"; "uint32"; "uint64"]%string.

Definition parseLookup (pos : Z) (tokens : list string) (lines : list (list Z)) : result failure (LookupDef * cursor) :=
  match tokens with
  | _ :: name :: ty :: brace :: _ =>
      if String.eqb brace "{" then
        if existsb (String.eqb ty) validLookupKeyTypes then
          '(vs, c) ← block "lookup" lookup_item never_refuse (pos + 1) lines [];
          Ok (mkLookup name ty vs (pos + 1), c)
        else Err (PErr (pos + 1) (InvalidKeyType ty))
      else Err (PErr (pos + 1) ExpectedLookup)
  | _ => Err (PErr (pos + 1) ExpectedLookup)
  end.

Definition parseStruct (pos : Z) (tokens : list string) (lines : list (list Z)) : result failure (StructDef * cursor) :=
  match tokens with
  | _ :: name :: brace :: _ =>
      if String.eqb brace "{" then
        '(fs, c) ← block "struct" parseField (refuse_empty EmptyStruct) (pos + 1) lines [];
        Ok (mkStruct name fs (pos + 1), c)
      else Err (PErr (pos + 1) ExpectedStruct)
  | _ => Err (PErr (pos + 1) ExpectedStruct)
  end.

(** The attributes between the description and the brace. *)
Fixpoint pgn_attrs (d : PGNDef) (attrs : list string) : result parse_message PGNDef :=
  let flags fast ondemand draft interval :=
    mkPGN (pd_PGN d) (pd_Description d) (pd_FastPacket d || fast) interval (pd_OnDemand d || ondemand) (pd_Draft d || draft)
      (pd_Fields d) (pd_Line d) in
  match attrs with
  | [] => Ok d
  | a :: attrs =>
      if String.eqb a "fast_packet" then pgn_attrs (flags true false false (pd_Interval d)) attrs
      else if String.eqb a "on_demand" then pgn_attrs (flags false true false (pd_Interval d)) attrs
      else if String.eqb a "draft" then pgn_attrs (flags false false true (pd_Interval d)) attrs
      else match splitAttr a with
           | None => Err (UnknownPGNAttr a)
           | Some (k, v) =>
               if String.eqb k "interval" then
                 match parseDuration v with
                 | Ok t => pgn_attrs (flags false false false t) attrs
                 | Err e => Err (InvalidInterval v e)
                 end
               else Err (UnknownPGNAttr k)
           end
  end.

Definition parsePGN (pos : Z) (tokens : list string) (lines : list (list Z)) : result failure (PGNDef * cursor) :=
  match tokens with
  | _ :: number :: desc :: attrs =>
      match ParseUint number 10 32 with
      | Err _ => Err (PErr (pos + 1) (InvalidPGN number))
      | Ok pgn =>
          let d := mkPGN pgn (unquote desc) false 0 false false None (pos + 1) in
          let hasBrace := match last tokens with Some t => String.eqb t "{" | None => false end in
          match attrs, hasBrace with
          | [], true => Err PPanic                       (* [tokens[3:2]] *)
          | _, _ =>
              d ← at_line pos (pgn_attrs d (if hasBrace then removelast attrs else attrs));
              if hasBrace then
                '(fs, c) ← block "pgn" parseField (refuse_empty EmptyPGN) (pos + 1) lines [];
                Ok (set_Fields fs d, c)
              else Ok (d, mkCursor (pos + 1) lines)
          end
      end
  | _ => Err (PErr (pos + 1) ExpectedPGN)
  end.

(** * Texts *)

Definition empty_schema : Schema := mkSchema [] [] [] [].
Definition merge (a b : Schema) : Schema :=
  mkSchema (sc_Enums a ++ sc_Enums b) (sc_Lookups a ++ sc_Lookups b) (sc_Structs a ++ sc_Structs b) (sc_PGNs a ++ sc_PGNs b).

(** The definition that starts with these tokens. *)
Definition parse_definition (pos : Z) (tokens : list string) (lines : list (list Z)) : result failure (Schema * cursor) :=
  match tokens with
  | t :: _ =>
      if String.eqb t "enum" then '(e, c) ← parseEnum pos tokens lines; Ok (mkSchema [e] [] [] [], c)
      else if String.eqb t "lookup" then '(l, c) ← parseLookup pos tokens lines; Ok (mkSchema [] [l] [] [], c)
      else if String.eqb t "struct" then '(sd, c) ← parseStruct pos tokens lines; Ok (mkSchema [] [] [sd] [], c)
      else if String.eqb t "pgn" then '(d, c) ← parsePGN pos tokens lines; Ok (mkSchema [] [] [] [d], c)
      else Err (PErr (pos + 1) (UnexpectedKeyword t))
  | [] => Ok (empty_schema, mkCursor (pos + 1) lines)
  end.

(** The loop of [parse]; every definition takes a line at least. *)
Fixpoint parse_loop (fuel : nat) (s : Schema) (c : cursor) : result failure Schema :=
  match cu_lines c with
  | [] => Ok s
  | line :: lines =>
      match fuel with
      | O => Err PHang
      | S fuel =>
          toks ← line_tokens line;
          '(d, c) ← parse_definition (cu_pos c) toks lines;
          parse_loop fuel (merge s d) c
      end
  end.

(** [strings.Split(src, newline)] *)
Fixpoint split_lines (line : list Z) (bs : list Z) : list (list Z) :=
  match bs with
  | [] => [line]
  | b :: bs => if b =? 10 then line :: split_lines [] bs else split_lines (line ++ [b]) bs
  end.

Definition Parse (src : list Z) : result failure Schema :=
  let lines := split_lines [] src in parse_loop (length lines) empty_schema (mkCursor 0 lines).

Inductive files_error := InFile (name : string) (f : failure) | Unresolved (e : ResolveError).

Fixpoint parse_sources (merged : Schema) (sources : list (string * list Z)) : result files_error Schema :=
  match sources with
  | [] => Ok merged
  | (name, src) :: sources =>
      match Parse src with
      | Err f => Err (InFile name f)
      | Ok s => parse_sources (merge merged s) sources
      end
  end.

(** [ParseFiles]: the sources in the order the map gives them, then the groups in
    the order of theirs. *)
Definition ParseFiles (order : list Z) (sources : list (string * list Z)) : result files_error Schema :=
  s ← parse_sources empty_schema sources;
  match Resolve order s with Ok s => Ok s | Err e => Err (Unresolved e) end.

Definition text (ls : list string) : list Z := bytes_of_string (String.concat nl ls).
Definition dq (s : string) : string := String (ascii_of_Z 34) (s ++ String (ascii_of_Z 34) EmptyString).

Definition demo_text : list Z := text
  ["# wind"; "enum WindReference {"; "  0 = " ++ dq "true_north"; "  2 = " ++ dq "apparent # wind"; "}"; "";
   "pgn 130306 " ++ dq "Wind Data" ++ " interval=100ms {"; "  sid   uint8 :8";
   "  wind_speed uint16 :16 scale=0.01 unit=" ++ dq "m/s" ++ " # knots"; "  wind_reference  WindReference   :3"; "  _ :5"; "}";
   "pgn 59392 " ++ dq "ISO Acknowledgement"]%string.

Example demo_parse :
  match Parse demo_text with
  | Ok s => Some (map en_Values (sc_Enums s), map (fun p => (pd_PGN p, pd_Description p, pd_Interval p,
              option_map (map (fun f => (fd_Name f, fd_Bits f, FormatFloat (fd_Scale f), fd_Unit f, fd_Line f))) (pd_Fields p))) (sc_PGNs s))
  | Err _ => None
  end =
  Some ([[mkEnumValue 0 "true_north"; mkEnumValue 2 "apparent # wind"]],
        [(130306, "Wind Data", 100000000, Some [("sid", 8, "0", "", 8); ("wind_speed", 16, "0.01", "m/s", 9);
           ("wind_reference", 3, "0", "", 10); ("_", 5, "0", "", 11)]);
         (59392, "ISO Acknowledgement", 0, None)])%string.
Proof. vm_compute. reflexivity. Qed.

(** * Every text is read to the end *)

(** The bytes that are white space as runes and not as text stop the tokenizer
    for good; U+00A0 and U+0085 are made of them. *)
Definition plain_byte (b : Z) : Prop := 0 <= b < 256 /\ b <> 133 /\ b <> 160.

Lemma DecodeRune_ascii b rest : 0 <= b < 128 -> DecodeRune (b :: rest) = (b, 1%nat).
Proof. intros Hb. cbn [DecodeRune]. now rewrite (proj2 (Z.ltb_lt _ _)) by lia. Qed.

Lemma DecodeRune_width bs : bs <> [] -> (1 <= (DecodeRune bs).2)%nat.
Proof.
  intros Hne. destruct bs as [|b0 rest]; [done|]. cbn [DecodeRune]. repeat (case_step; cbn [snd]; try lia).
Qed.

Lemma rune_bytes_concat fuel : forall bs, (length bs <= fuel)%nat -> concat (map snd (rune_bytes fuel bs)) = bs.
Proof.
  induction fuel as [|fuel IH]; intros [|b bs] Hl; try done; [cbn in Hl; lia|]. cbn [rune_bytes].
  pose proof (DecodeRune_width (b :: bs) ltac:(done)) as Hw. destruct (DecodeRune (b :: bs)) as [r n]. cbn [snd] in Hw. cbn [map concat snd].
  rewrite IH; [apply take_drop|]. rewrite length_drop. cbn [length] in *. lia.
Qed.

(** A suffix of the runes, then a prefix of them. *)
Lemma drop_spaces_suffix rs : exists k, drop_spaces rs = drop k rs.
Proof.
  induction rs as [|[r w] rs [k IH]]; [now exists O|]. cbn [drop_spaces]. destruct (IsSpace r); [now exists (S k)|now exists O].
Qed.

Lemma drop_spaces_head rs r w rs' : drop_spaces rs = (r, w) :: rs' -> IsSpace r = false.
Proof.
  induction rs as [|[q v] rs IH]; [done|]. cbn [drop_spaces]. destruct (IsSpace q) eqn:E; [apply IH|]. now intros [= <- <- <-].
Qed.

Lemma trim_prefix rs : exists k, rev (drop_spaces (rev rs)) = take k rs.
Proof.
  destruct (drop_spaces_suffix (rev rs)) as [k ->]. exists (length rs - k)%nat. rewrite skipn_rev. apply rev_involutive.
Qed.

Lemma TrimSpace_Forall (Q : Z -> Prop) bs : Forall Q bs -> Forall Q (TrimSpace bs).
Proof.
  intros H. unfold TrimSpace. destruct (trim_prefix (drop_spaces (rune_bytes (length bs) bs))) as [k ->].
  destruct (drop_spaces_suffix (rune_bytes (length bs) bs)) as [j ->].
  rewrite <- (rune_bytes_concat (length bs) bs) in H by lia. apply Forall_concat in H.
  change (Forall (Forall Q) (snd <$> rune_bytes (length bs) bs)) in H. apply (Forall_fmap snd) in H. apply Forall_concat.
  change (Forall (Forall Q) (snd <$> take k (drop j (rune_bytes (length bs) bs)))). apply (Forall_fmap snd).
  now apply Forall_take, Forall_drop.
Qed.

Lemma concat_sublist {A} (l l' : list (list A)) : sublist l l' -> (length (concat l) <= length (concat l'))%nat.
Proof. induction 1; cbn [concat]; rewrite ?length_app; lia. Qed.

Lemma TrimSpace_length bs : (length (TrimSpace bs) <= length bs)%nat.
Proof.
  unfold TrimSpace. destruct (trim_prefix (drop_spaces (rune_bytes (length bs) bs))) as [k ->].
  destruct (drop_spaces_suffix (rune_bytes (length bs) bs)) as [j ->].
  transitivity (length (concat (map snd (rune_bytes (length bs) bs)))); [|now rewrite rune_bytes_concat by lia].
  apply concat_sublist, (fmap_sublist snd). etransitivity; [apply sublist_take|apply sublist_drop].
Qed.

(** The bytes of a rune: an ASCII byte is its own rune. *)
Lemma rune_bytes_ascii fuel : forall bs, Forall (fun '(r, w) => exists b w', w = b :: w' /\ (0 <= b < 128 -> r = b)) (rune_bytes fuel bs).
Proof.
  induction fuel as [|fuel IH]; intros [|b bs]; try constructor. cbn [rune_bytes].
  pose proof (DecodeRune_width (b :: bs) ltac:(done)) as Hw. destruct (DecodeRune (b :: bs)) as [r n] eqn:E. cbn [snd] in Hw.
  constructor; [|apply IH]. destruct n as [|n]; [lia|]. exists b, (take n bs). split; [done|]. intros Hb.
  rewrite DecodeRune_ascii in E by done. congruence.
Qed.

(** A trimmed text does not start with white space. *)
Lemma TrimSpace_no_space bs b rest : TrimSpace bs = b :: rest -> 0 <= b < 128 -> IsSpace b = false.
Proof.
  unfold TrimSpace. pose proof (rune_bytes_ascii (length bs) bs) as Hrs. set (rs := rune_bytes (length bs) bs) in *.
  destruct (trim_prefix (drop_spaces rs)) as [k ->]. destruct (drop_spaces_suffix rs) as [j Hj]. rewrite Hj. intros E Hb.
  destruct (drop j rs) as [|[r w] rs'] eqn:Ed; [now rewrite firstn_nil in E|]. pose proof (drop_spaces_head _ _ _ _ Hj) as Hr.
  apply (Forall_drop _ j) in Hrs. rewrite Ed in Hrs. apply Forall_cons in Hrs as [(c & w' & -> & Hc) _].
  destruct k as [|k]; [done|]. cbn [take map concat snd app] in E. injection E as -> _. now rewrite <- (Hc Hb).
Qed.

(** ** Tokens *)

Lemma cut_after_rest q s w rest : cut_after q s = Some (w, rest) -> s = w ++ rest.
Proof.
  revert w rest. induction s as [|c s IH]; intros w rest; cbn [cut_after]; [done|].
  destruct (c =? q); [now intros [= <- <-]|]. destruct (cut_after q s) as [[x y]|]; [|done]. intros [= <- <-].
  cbn [app]. f_equal. now apply IH.
Qed.

Lemma word_rest s : forall q, s = (word q s).1 ++ (word q s).2.
Proof.
  induction s as [|b s IH]; intros q; [done|]. cbn [word].
  destruct q; [|destruct (b =? quote); [|destruct (IsSpace b); [done|]]];
    match goal with |- context [word ?q s] => specialize (IH q); destruct (word q s) as [w rest] end; cbn [fst snd app] in *; now f_equal.
Qed.

Lemma plain_space b : plain_byte b -> IsSpace b = true -> b < 128.
Proof. unfold plain_byte, IsSpace. cbn [existsb]. intros Hb H. lia. Qed.

Lemma TrimSpace_plain_head line b rest : Forall plain_byte line -> TrimSpace line = b :: rest -> IsSpace b = false.
Proof.
  intros Hp E. destruct (IsSpace b) eqn:Eb; [|done]. pose proof (TrimSpace_Forall _ _ Hp) as Hf. rewrite E in Hf.
  apply Forall_cons in Hf as [Hb _]. pose proof (plain_space b Hb Eb). rewrite <- Eb. apply (TrimSpace_no_space line b rest E).
  unfold plain_byte in Hb. lia.
Qed.

Lemma tokenize_loop_total fuel : forall line, (length line < fuel)%nat -> Forall plain_byte line ->
  (forall b rest, line = b :: rest -> IsSpace b = false) -> is_Some (tokenize_loop fuel line).
Proof.
  induction fuel as [|fuel IH]; intros [|b rest] Hl Hp Hh; try (by eexists); [cbn in Hl; lia|]. cbn [tokenize_loop].
  assert (Hnext : forall rest', (length rest' < length (b :: rest))%nat -> Forall plain_byte rest' -> is_Some (tokenize_loop fuel (TrimSpace rest'))).
  { intros rest' Hl' Hp'. apply IH.
    - pose proof (TrimSpace_length rest'). lia.
    - now apply TrimSpace_Forall.
    - intros c tl E. now apply (TrimSpace_plain_head rest' c tl). }
  destruct (b =? quote) eqn:Eq.
  - destruct (cut_after quote rest) as [[w tl]|] eqn:Ec; [|by eexists]. apply cut_after_rest in Ec.
    destruct (Hnext tl) as [ts ->]; [rewrite Ec; cbn [length]; rewrite length_app; lia| |by eexists].
    apply Forall_cons in Hp as [_ Hp]. rewrite Ec in Hp. now apply Forall_app in Hp.
  - pose proof (word_rest (b :: rest) false) as Hw. destruct (word false (b :: rest)) as [w tl] eqn:Ew. cbn [fst snd] in Hw.
    assert (Hne : w <> []).
    { cbn [word] in Ew. rewrite Eq, (Hh b rest eq_refl) in Ew. destruct (word false rest) as [w' tl']. injection Ew as <- <-. done. }
    destruct (Hnext tl) as [ts ->]; [rewrite Hw, length_app; destruct w; [done|cbn [length]; lia]| |by eexists].
    rewrite Hw in Hp. now apply Forall_app in Hp.
Qed.

Lemma tokenize_total line : Forall plain_byte line -> is_Some (tokenize line).
Proof.
  intros Hp. unfold tokenize.
  destruct (tokenize_loop_total (S (length line)) (TrimSpace line)) as [ts ->]; [| | |by eexists].
  - pose proof (TrimSpace_length line). lia.
  - now apply TrimSpace_Forall.
  - intros b rest E. now apply (TrimSpace_plain_head line b rest).
Qed.

(** The second byte of U+00E0 is taken for white space and never removed: no
    amount of fuel ends the loop. *)
Lemma tokenize_stuck fuel rest : tokenize_loop fuel (TrimSpace (160 :: rest)) = None \/ TrimSpace (160 :: rest) <> 160 :: rest.
Proof.
  destruct (decide (TrimSpace (160 :: rest) = 160 :: rest)) as [E|]; [left|by right]. rewrite E.
  induction fuel as [|fuel IH]; [done|]. cbn [tokenize_loop word]. change (160 =? quote) with false. change (IsSpace 160) with true.
  cbn match. rewrite E, IH. done.
Qed.

Lemma unquoted_accent_hangs fuel : tokenize_loop fuel (TrimSpace (bytes_of_string "unit=" ++ [195; 160])) = None.
Proof.
  destruct fuel as [|fuel]; [reflexivity|].
  change (tokenize_loop (S fuel) (TrimSpace (bytes_of_string "unit=" ++ [195; 160])))
    with (ts ← tokenize_loop fuel (TrimSpace [160]); Some (([117; 110; 105; 116; 61; 195] : list Z) :: ts)).
  destruct (tokenize_stuck fuel []) as [->|E]; [done|]. exfalso. apply E. reflexivity.
Qed.

Lemma stripComment_Forall (Q : Z -> Prop) line : Forall Q line -> Forall Q (stripComment line).
Proof.
  unfold stripComment. generalize false. induction line as [|b line IH]; intros q H; [done|]. apply Forall_cons in H as [Hb H].
  cbn [stripComment_loop]. destruct (_ && _); [constructor|]. constructor; [done|now apply IH].
Qed.

Lemma line_tokens_total line : Forall plain_byte line -> exists toks, line_tokens line = Ok toks /\ tokenize (stripComment line) = Some toks.
Proof.
  intros H. unfold line_tokens. destruct (tokenize_total (stripComment line)) as [ts E]; [now apply stripComment_Forall|].
  exists ts. now rewrite E.
Qed.

(** ** Definitions *)

(** A cursor [k] lines on. *)
Definition advances (pos : Z) (lines : list (list Z)) (c : cursor) : Prop :=
  exists k, (k <= length lines)%nat /\ c = mkCursor (pos + Z.of_nat k) (drop k lines).

(** The keyword [pgn], a number and a brace, with no description between them. *)
Definition bare_pgn (line : list Z) : Prop :=
  exists number pgn, tokenize (stripComment line) = Some ["pgn"; number; "{"]%string /\ ParseUint number 10 32 = Ok pgn.

(** A result of a parser from line [pos] on: a value with its cursor, or an error
    at one of the lines, or a panic of the line [here]. *)
Definition reads {A} (here : Prop) (pos : Z) (lines : list (list Z)) (r : result failure (A * cursor)) : Prop :=
  match r with
  | Ok (_, c) => advances pos lines c
  | Err (PErr n _) => pos <= n <= pos + Z.of_nat (length lines) + 1
  | Err PPanic => here
  | Err PHang => False
  end.

Lemma block_reads {A} name item (close : list A -> result parse_message unit) lines : forall pos acc,
  Forall (Forall plain_byte) lines -> reads False pos lines (block name item close pos lines acc).
Proof.
  induction lines as [|line lines IH]; intros pos acc Hp; cbn [block]; [cbn; lia|]. apply Forall_cons in Hp as [Hl Hp].
  destruct (line_tokens_total line Hl) as (toks & -> & _). cbn [mbind result_bind].
  assert (Hnext : forall acc, reads False pos (line :: lines) (block name item close (pos + 1) lines acc)).
  { intros acc'. specialize (IH (pos + 1) acc' Hp). unfold reads in *. destruct (block _ _ _ _ _ _) as [[v c]|[n m| |]]; try done.
    - destruct IH as (k & Hk & ->). exists (S k). split; [cbn [length]; lia|]. cbn [drop]. f_equal. lia.
    - cbn [length]. lia. }
  destruct toks as [|t toks]; [apply Hnext|]. destruct (String.eqb t "}").
  - destruct (close acc); cbn; [|lia]. exists 1%nat. split; [cbn [length]; lia|done].
  - destruct (item (pos + 1) (t :: toks)); cbn [at_line mbind result_bind]; [apply Hnext|cbn; lia].
Qed.

(** The lines after the first of a definition. *)
Lemma block_then {A B} here name item (close : list A -> result parse_message unit) (mk : list A -> B) pos lines :
  Forall (Forall plain_byte) lines ->
  reads here (pos + 1) lines ('(vs, c) ← block name item close (pos + 1) lines []; Ok (mk vs, c)).
Proof.
  intros Hp. pose proof (block_reads name item close lines (pos + 1) [] Hp) as H. unfold reads in *.
  now destruct (block _ _ _ _ _ _) as [[v c]|[n m| |]].
Qed.

Lemma parse_definition_reads line pos toks lines : tokenize (stripComment line) = Some toks -> Forall (Forall plain_byte) lines ->
  reads (bare_pgn line) (pos + 1) lines (parse_definition pos toks lines) \/
  exists m, parse_definition pos toks lines = Err (PErr (pos + 1) m).
Proof.
  intros Hline Hp.
  assert (Hhere : forall A m, reads (A := A) (bare_pgn line) (pos + 1) lines (Err (PErr (pos + 1) m))) by (intros; cbn; lia).
  destruct toks as [|t toks]; [left; exists O; cbn; split; [lia|f_equal; lia]|]. left. unfold parse_definition.
  destruct (String.eqb t "enum"); [|destruct (String.eqb t "lookup"); [|destruct (String.eqb t "struct"); [|destruct (String.eqb_spec t "pgn") as [->|]; [|apply Hhere]]]].
  - unfold parseEnum. destruct toks as [|name [|brace toks]]; try apply Hhere. destruct (String.eqb brace "{"); [|apply Hhere].
    pose proof (block_then (bare_pgn line) "enum" enum_item never_refuse (fun vs => mkEnum name vs (pos + 1)) pos lines Hp) as H.
    unfold reads in *. now destruct (block _ _ _ _ _ _) as [[v c]|[n m| |]].
  - unfold parseLookup. destruct toks as [|name [|ty [|brace toks]]]; try apply Hhere. destruct (String.eqb brace "{"); [|apply Hhere].
    destruct (existsb _ _); [|apply Hhere].
    pose proof (block_then (bare_pgn line) "lookup" lookup_item never_refuse (fun vs => mkLookup name ty vs (pos + 1)) pos lines Hp) as H.
    unfold reads in *. now destruct (block _ _ _ _ _ _) as [[v c]|[n m| |]].
  - unfold parseStruct. destruct toks as [|name [|brace toks]]; try apply Hhere. destruct (String.eqb brace "{"); [|apply Hhere].
    pose proof (block_then (bare_pgn line) "struct" parseField (refuse_empty EmptyStruct) (fun fs => mkStruct name fs (pos + 1)) pos lines Hp) as H.
    unfold reads in *. now destruct (block _ _ _ _ _ _) as [[v c]|[n m| |]].
  - unfold parsePGN. destruct toks as [|number [|desc attrs]]; try apply Hhere. destruct (ParseUint number 10 32) as [pgn|] eqn:Enum; [|apply Hhere].
    set (d := mkPGN pgn _ _ _ _ _ _ _).
    assert (Hrest : forall hasBrace : bool, reads (bare_pgn line) (pos + 1) lines
      ('(d, c) ← (d ← at_line pos (pgn_attrs d (if hasBrace then removelast attrs else attrs));
         if hasBrace then '(fs, c) ← block "pgn" parseField (refuse_empty EmptyPGN) (pos + 1) lines []; Ok (set_Fields fs d, c)
         else Ok (d, mkCursor (pos + 1) lines)); Ok (mkSchema [] [] [] [d], c))).
    { intros hasBrace. destruct (pgn_attrs d _) as [d'|m]; cbn [at_line mbind result_bind]; [|apply Hhere]. destruct hasBrace.
      - pose proof (block_then (bare_pgn line) "pgn" parseField (refuse_empty EmptyPGN) (fun fs => set_Fields fs d') pos lines Hp) as H.
        unfold reads in *. now destruct (block _ _ _ _ _ _) as [[v c]|[n m| |]].
      - exists O. cbn. split; [lia|f_equal; lia]. }
    destruct attrs as [|a attrs]; [|destruct (match last _ with Some _ => _ | None => _ end); [apply (Hrest true)|apply (Hrest false)]].
    cbn [last]. destruct (String.eqb_spec desc "{") as [->|]; [|apply (Hrest false)]. cbn. exists number, pgn. done.
Qed.

Lemma split_lines_Forall (Q : Z -> Prop) bs : forall line, Forall Q line -> Forall Q bs -> Forall (Forall Q) (split_lines line bs).
Proof.
  induction bs as [|b bs IH]; intros line Hl H; cbn [split_lines]; [now constructor|]. apply Forall_cons in H as [Hb H].
  destruct (b =? 10); [constructor; [done|now apply IH]|]. apply IH; [|done]. apply Forall_app. now split; [|constructor].
Qed.

(** How the loop ends. *)
Definition ends (pos : Z) (lines : list (list Z)) (r : result failure Schema) : Prop :=
  match r with
  | Ok _ => True
  | Err (PErr n _) => pos + 1 <= n <= pos + Z.of_nat (length lines) + 1
  | Err PPanic => exists line, line ∈ lines /\ bare_pgn line
  | Err PHang => False
  end.

Lemma parse_loop_ends fuel : forall s pos lines, (length lines <= fuel)%nat -> Forall (Forall plain_byte) lines ->
  ends pos lines (parse_loop fuel s (mkCursor pos lines)).
Proof.
  induction fuel as [|fuel IH]; intros s pos [|line lines] Hl Hp; try done; [cbn in Hl; lia|]. apply Forall_cons in Hp as [Hline Hp].
  cbn [parse_loop cu_lines cu_pos]. destruct (line_tokens_total line Hline) as (toks & -> & Et). cbn [mbind result_bind].
  destruct (parse_definition_reads line pos toks lines Et Hp) as [H|[m ->]]; [|cbn; lia].
  destruct (parse_definition pos toks lines) as [[d c]|[n m| |]]; cbn [mbind result_bind]; cbn [reads] in H; try done.
  - destruct H as (k & Hk & ->). cbn [length] in Hl.
    specialize (IH (merge s d) (pos + 1 + Z.of_nat k) (drop k lines) ltac:(rewrite length_drop; lia) (Forall_drop _ _ _ Hp)). unfold ends in *.
    destruct (parse_loop _ _ _) as [s'|[n m| |]]; try done.
    + rewrite length_drop in IH. cbn [length]. lia.
    + destruct IH as (l & Hin & Hb). exists l. split; [|done]. right. rewrite <- (take_drop k lines). apply elem_of_app. by right.
  - cbn [ends length]. lia.
  - cbn. exists line. split; [by left|done].
Qed.

(** C16: The parser reads every text to the end. On a text of bytes other than
    133 and 160, which are white space as runes, [Parse] ends: with a schema; with
    an error at a line of the text or just after it; or with a slice out of range,
    and then a line of the text is the keyword pgn, a number that parses as 32 bits
    and an opening brace, with nothing else but blanks and a comment ([bare_pgn]).
    The fuel of the loops, a step for a byte and a step for a line, is enough. *)
Theorem Parse_ends src : Forall plain_byte src ->
  match Parse src with
  | Ok _ => True
  | Err (PErr n _) => 1 <= n <= Z.of_nat (length (split_lines [] src)) + 1
  | Err PPanic => exists line, line ∈ split_lines [] src /\ bare_pgn line
  | Err PHang => False
  end.
Proof.
  intros H. pose proof (split_lines_Forall plain_byte src [] ltac:(constructor) H) as Hl.
  pose proof (parse_loop_ends (length (split_lines [] src)) empty_schema 0 (split_lines [] src) ltac:(lia) Hl) as He.
  unfold Parse. unfold ends in He. destruct (parse_loop _ _ _) as [s|[n m| |]]; done || lia.
Qed.

Lemma Parse_ends_witness :
  Parse (text ["pgn 130306 {"]%string) = Err PPanic /\
  match Parse (text ["pgn 130306 {"]%string) with
  | Ok _ => True
  | Err (PErr n _) => 1 <= n <= Z.of_nat (length (split_lines [] (text ["pgn 130306 {"]%string))) + 1
  | Err PPanic => exists line, line ∈ split_lines [] (text ["pgn 130306 {"]%string) /\ bare_pgn line
  | Err PHang => False
  end.
Proof.
  split; [vm_compute; reflexivity|]. apply (Parse_ends (text ["pgn 130306 {"]%string)).
  unfold plain_byte. vm_compute. repeat (apply List.Forall_cons; [repeat split; congruence|]). apply List.Forall_nil.
Defined.
