(* ===== verification/PgnPipeline.v ===== *)
(** From the text of definitions to the codecs: what the parser and the resolution
    together establish is what the generated statements need. *)

From S2P Require Import Prelude GoNum GoLiteral PgnSchema PgnBits PgnCodec PgnRoundTrip PgnParser.

(** * What the parser establishes *)

Record parsed_field (f : FieldDef) : Prop := {
  pf_bits : 0 < fd_Bits f < 2 ^ 63 \/
    (fd_Bits f = 0 /\ (fd_Type f = TypeStringLAU \/ fd_Type f = TypeBytes \/ fd_Type f = TypeEnum));
  pf_type : fd_Type f <> TypeStruct;
  pf_signed : fd_Signed f = bool_decide (fd_Type f = TypeInt);
  pf_string : fd_Type f = TypeString -> (8 | fd_Bits f);
  pf_count : fd_RepeatCount f = 0 \/ 2 <= fd_RepeatCount f < 2 ^ 63;
  pf_repeat : IsRepeated f = true -> fd_MatchValue f = None /\ fd_LookupRef f = EmptyString /\ fd_Type f <> TypeEnum;
  pf_skipped : IsSkipped f = true ->
    fd_MatchValue f = None /\ fd_LookupRef f = EmptyString /\ fd_RepeatRef f = EmptyString /\ fd_RepeatCount f = 0;
  pf_bare : fd_Type f = TypeStringLAU \/ fd_Type f = TypeBytes ->
    HasScaling f = false /\ fd_Tolerance f = None /\ fd_MatchValue f = None /\ fd_LookupRef f = EmptyString /\
    fd_RepeatCount f = 0 /\ fd_RepeatRef f = EmptyString;
  pf_trim : fd_Trim f <> EmptyString -> fd_Type f = TypeString;
  pf_params : fd_PGNRef f <> EmptyString \/ fd_CountRef f <> EmptyString -> fd_Type f = TypeBytes
}.

(** What holds of the field while its attributes are read. *)
Record reading_field (ty : FieldType) (bits : Z) (signed : bool) (f : FieldDef) : Prop := {
  rf_type : fd_Type f = ty;
  rf_bits : fd_Bits f = bits;
  rf_signed : fd_Signed f = signed;
  rf_count : fd_RepeatCount f = 0 \/ 2 <= fd_RepeatCount f < 2 ^ 63;
  rf_skipped : IsSkipped f = true ->
    fd_MatchValue f = None /\ fd_LookupRef f = EmptyString /\ fd_RepeatRef f = EmptyString /\ fd_RepeatCount f = 0;
  rf_trim : fd_Trim f <> EmptyString -> ty = TypeString;
  rf_params : fd_PGNRef f <> EmptyString \/ fd_CountRef f <> EmptyString -> ty = TypeBytes
}.

Lemma parse_attr_reading ty bits signed f k v a : parse_attr f k v = Ok a -> reading_field ty bits signed f ->
  reading_field ty bits signed (set_attr a f).
Proof.
  intros H [H1 H2 H3 H4 H5 H6 H7]. unfold parse_attr in H.
  assert (Hs : IsSkipped (set_attr a f) = IsSkipped f) by done.
  repeat match type of H with
  | (if ?b then _ else _) = _ => destruct b eqn:?
  | match ?x with Ok _ => _ | Err _ => _ end = _ => destruct x eqn:?
  end; try discriminate H; injection H as <-; constructor; cbn; rewrite ?Hs; auto; try congruence;
    try (intros Hsk; rewrite Hsk in *; congruence).
  - match goal with E : ParseInt v = Ok _ |- _ => pose proof (ParseInt_range _ _ E) end. to_props. lia.
  - match goal with E : bool_decide (fd_Type f = TypeString) = true |- _ => apply bool_decide_eq_true in E end. congruence.
  - match goal with E : bool_decide (fd_Type f = TypeBytes) = true |- _ => apply bool_decide_eq_true in E end. congruence.
  - match goal with E : bool_decide (fd_Type f = TypeBytes) = true |- _ => apply bool_decide_eq_true in E end. congruence.
Qed.

Lemma parse_attrs_reading ty bits signed tokens : forall f f', parse_attrs f tokens = Ok f' -> reading_field ty bits signed f ->
  reading_field ty bits signed f'.
Proof.
  induction tokens as [|t tokens IH]; intros f f' H Hf; cbn [parse_attrs] in H; [now injection H as <-|].
  destruct (splitAttr t) as [[k v]|]; [|done]. destruct (parse_attr f k v) as [a|] eqn:E; [|done]. cbn [mbind result_bind] in H.
  apply (IH _ _ H). now apply (parse_attr_reading ty bits signed f k v).
Qed.

Lemma nonempty_false s : nonempty s = false -> s = EmptyString.
Proof. unfold nonempty. rewrite negb_false_iff. apply bool_decide_eq_true. Qed.

Lemma has_repeat_false f : has_repeat f = false -> fd_RepeatCount f <= 0 /\ fd_RepeatRef f = EmptyString.
Proof. unfold has_repeat. intros H. to_props. split; [lia|now apply nonempty_false]. Qed.

Lemma check_bare_ok ty trim f : check_bare ty trim f = Ok tt ->
  HasScaling f = false /\ fd_Tolerance f = None /\ fd_MatchValue f = None /\ fd_LookupRef f = EmptyString /\
  fd_RepeatCount f <= 0 /\ fd_RepeatRef f = EmptyString.
Proof.
  unfold check_bare. intros H. destruct (HasScaling f); [done|].
  destruct (bool_decide (is_Some (fd_Tolerance f))) eqn:E1; [done|]. destruct (bool_decide (is_Some (fd_MatchValue f))) eqn:E2; [done|].
  destruct (nonempty (fd_LookupRef f)) eqn:E3; [done|]. destruct (has_repeat f) eqn:E4; [done|].
  apply bool_decide_eq_false, eq_None_not_Some in E1, E2. apply nonempty_false in E3. apply has_repeat_false in E4 as [? ?]. done.
Qed.

Lemma parse_type_ok name tokens ty signed enum rest : parse_type name tokens = Ok (ty, signed, enum, rest) ->
  ty <> TypeStruct /\ signed = bool_decide (ty = TypeInt).
Proof.
  unfold parse_type, classifyType. intros H.
  repeat match type of H with
  | (if ?b then _ else _) = _ => destruct b
  | match ?x with [] => _ | _ => _ end = _ => destruct x
  | Ok (if ?b then _ else _, _) = _ => destruct b
  end; simplify_eq; done.
Qed.

Lemma parse_width_ok name ty tokens bits rest : parse_width name ty tokens = Ok (bits, rest) ->
  0 < bits < 2 ^ 63 \/ (bits = 0 /\ (ty = TypeStringLAU \/ ty = TypeBytes \/ ty = TypeEnum)).
Proof.
  assert (Hnone : match ty with TypeStringLAU | TypeBytes | TypeEnum => Ok (0, tokens) | _ => Err (MissingWidth name) end = Ok (bits, rest) ->
    bits = 0 /\ (ty = TypeStringLAU \/ ty = TypeBytes \/ ty = TypeEnum)).
  { destruct ty; intros H; simplify_eq; auto. }
  unfold parse_width. intros H. destruct tokens as [|[|c digits] tokens]; [now right; apply Hnone..|].
  destruct c as [[] [] [] [] [] [] [] []]; try (now right; apply Hnone). left.
  destruct (ParseInt digits) as [z|] eqn:E; [|done]. apply ParseInt_range in E. destruct (Z.leb_spec z 0); [done|]. simplify_eq. lia.
Qed.

Lemma check_parsed_ok ty bits signed f : reading_field ty bits signed f -> check_parsed f = Ok tt ->
  0 < bits < 2 ^ 63 \/ (bits = 0 /\ (ty = TypeStringLAU \/ ty = TypeBytes \/ ty = TypeEnum)) ->
  ty <> TypeStruct -> signed = bool_decide (ty = TypeInt) -> parsed_field f.
Proof.
  intros [<- <- <- H4 H5 H6 H7] H Hb Hs Hsig. unfold check_parsed in H. destruct (bool_decide (fd_Type f = TypeString) && _) eqn:E1; [done|].
  assert (Hbare : fd_Type f = TypeStringLAU \/ fd_Type f = TypeBytes -> exists ty trim, check_bare ty trim f = Ok tt).
  { intros [Ht|Ht]; rewrite (bool_decide_true _ Ht) in H.
    - destruct (check_bare "string_lau" false f) as [[]|] eqn:E; [eauto|done].
    - rewrite (bool_decide_false (fd_Type f = TypeStringLAU)) in H by (rewrite Ht; discriminate). cbn [mbind result_bind] in H.
      destruct (check_bare "bytes" true f) as [[]|] eqn:E; [eauto|done]. }
  destruct (if bool_decide (fd_Type f = TypeStringLAU) then _ else _) as [[]|]; [|done]. cbn [mbind result_bind] in H.
  destruct (if bool_decide (fd_Type f = TypeBytes) then _ else _) as [[]|]; [|done]. cbn [mbind result_bind] in H.
  constructor; try done.
  - intros Ht. rewrite (bool_decide_true _ Ht) in E1. cbn [andb] in E1. apply negb_false_iff, Z.eqb_eq, Z.rem_divide in E1; [done|lia].
  - unfold IsRepeated. intros Hr. rewrite Z.gtb_ltb in Hr. rewrite Hr in H. cbn [andb] in H.
    destruct (bool_decide (is_Some (fd_MatchValue f))) eqn:E2; [done|]. destruct (nonempty (fd_LookupRef f)) eqn:E3; [done|].
    destruct (bool_decide_reflect (fd_Type f = TypeEnum)); [done|].
    apply bool_decide_eq_false, eq_None_not_Some in E2. apply nonempty_false in E3. done.
  - intros Ht. destruct (Hbare Ht) as (ty & trim & (? & ? & ? & ? & ? & ?)%check_bare_ok). repeat split; try done. lia.
Qed.

(** A field is read into one that the checks of the parser describe. *)
Lemma parseField_sound line tokens f : parseField line tokens = Ok f -> parsed_field f.
Proof.
  unfold parseField. intros H. destruct tokens as [|name [|t rest]]; [done..|].
  destruct (parse_type name (t :: rest)) as [[[[ty signed] enum] toks]|] eqn:E1; [|done]. cbn [mbind result_bind] in H.
  destruct (parse_width name ty toks) as [[bits toks']|] eqn:E2; [|done]. cbn [mbind result_bind] in H.
  destruct (parse_attrs _ toks') as [f'|] eqn:E3; [|done]. cbn [mbind result_bind] in H.
  destruct (check_parsed f') as [[]|] eqn:E4; [|done]. cbn [mbind result_bind] in H. injection H as <-.
  apply parse_type_ok in E1 as [Hs Hsig]. apply (check_parsed_ok ty bits signed); [|done|by apply parse_width_ok in E2|done|done].
  apply (parse_attrs_reading _ _ _ _ _ _ E3). constructor; cbn; try done; auto. now intros [|].
Qed.

(** ** Schemas *)

(** The fields of a schema as the parser leaves them. *)
Record schema_parsed (s : Schema) : Prop := {
  sp_pgns : Forall (fun p => Forall parsed_field (pgn_fields p)) (sc_PGNs s);
  sp_structs : Forall (fun sd => Forall parsed_field (sd_Fields sd)) (sc_Structs s)
}.

Lemma block_Forall {A} (Q : A -> Prop) name item (close : list A -> result parse_message unit) lines :
  (forall line toks a, item line toks = Ok a -> Q a) ->
  forall pos acc vs c, block name item close pos lines acc = Ok (vs, c) -> Forall Q acc -> Forall Q vs.
Proof.
  intros Hitem. induction lines as [|line lines IH]; intros pos acc vs c H Hacc; cbn [block] in H; [done|].
  destruct (line_tokens line) as [toks|]; [|done]. cbn [mbind result_bind] in H. destruct toks as [|t toks]; [by eapply IH|].
  destruct (String.eqb t "}").
  - destruct (close acc); [|done]. cbn in H. now injection H as <- _.
  - destruct (item (pos + 1) (t :: toks)) as [a|] eqn:E; [|done]. cbn [at_line mbind result_bind] in H. eapply IH; [exact H|].
    apply Forall_app. split; [done|]. constructor; [|done]. by eapply Hitem.
Qed.

Lemma parse_fields close pos lines fs c name : block name parseField close pos lines [] = Ok (fs, c) -> Forall parsed_field fs.
Proof. intros H. eapply block_Forall; [exact parseField_sound|exact H|constructor]. Qed.

Lemma pgn_attrs_fields attrs : forall d d', pgn_attrs d attrs = Ok d' -> pd_Fields d' = pd_Fields d.
Proof.
  induction attrs as [|a attrs IH]; intros d d' H; cbn [pgn_attrs] in H; [now injection H as <-|].
  repeat match type of H with
  | (if ?b then _ else _) = _ => destruct b
  | match ?x with Some _ => _ | None => _ end = _ => destruct x as [[? ?]|]
  | match ?x with Ok _ => _ | Err _ => _ end = _ => destruct x
  end; try discriminate H; now apply IH in H.
Qed.

Lemma parsePGN_sound pos tokens lines d c : parsePGN pos tokens lines = Ok (d, c) -> Forall parsed_field (pgn_fields d).
Proof.
  unfold parsePGN. intros H. destruct tokens as [|t [|number [|desc attrs]]]; try done. destruct (ParseUint number 10 32) as [pgn|]; [|done].
  set (hasBrace := match last _ with Some t => _ | None => _ end) in H. set (d0 := mkPGN pgn _ _ _ _ _ _ _) in H.
  assert (Hrest : (d ← at_line pos (pgn_attrs d0 (if hasBrace then removelast attrs else attrs));
      if hasBrace then '(fs, c) ← block "pgn" parseField (refuse_empty EmptyPGN) (pos + 1) lines []; Ok (set_Fields fs d, c)
      else Ok (d, mkCursor (pos + 1) lines)) = Ok (d, c)) by (destruct attrs, hasBrace; done).
  clear H. destruct (pgn_attrs d0 _) as [d'|] eqn:Ea; [|done]. cbn [at_line mbind result_bind] in Hrest. apply pgn_attrs_fields in Ea.
  destruct hasBrace.
  - destruct (block _ _ _ _ _ _) as [[fs c']|] eqn:Eb; [|done]. cbn [mbind result_bind] in Hrest. injection Hrest as <- _.
    by apply parse_fields in Eb.
  - injection Hrest as <- _. unfold pgn_fields. rewrite Ea. constructor.
Qed.

Lemma parse_definition_sound pos tokens lines s c : parse_definition pos tokens lines = Ok (s, c) -> schema_parsed s.
Proof.
  unfold parse_definition. intros H. destruct tokens as [|t tokens]; [injection H as <- _; split; constructor|].
  destruct (String.eqb t "enum"); [|destruct (String.eqb t "lookup"); [|destruct (String.eqb t "struct"); [|destruct (String.eqb t "pgn"); [|done]]]].
  - destruct (parseEnum _ _ _) as [[e c']|]; [|done]. injection H as <- _. split; constructor.
  - destruct (parseLookup _ _ _) as [[l c']|]; [|done]. injection H as <- _. split; constructor.
  - destruct (parseStruct _ _ _) as [[sd c']|] eqn:E; [|done]. injection H as <- _. split; [constructor|]. constructor; [|constructor].
    unfold parseStruct in E. destruct tokens as [|name [|brace tokens]]; try done. destruct (String.eqb brace "{"); [|done].
    destruct (block _ _ _ _ _ _) as [[fs c'']|] eqn:Eb; [|done]. injection E as <- _. by apply parse_fields in Eb.
  - destruct (parsePGN _ _ _) as [[d c']|] eqn:E; [|done]. injection H as <- _. split; [|constructor]. constructor; [|constructor].
    by apply parsePGN_sound in E.
Qed.

Lemma merge_sound a b : schema_parsed a -> schema_parsed b -> schema_parsed (merge a b).
Proof. intros [] []. split; cbn; now apply Forall_app. Qed.

Lemma parse_loop_sound fuel : forall s c s', parse_loop fuel s c = Ok s' -> schema_parsed s -> schema_parsed s'.
Proof.
  induction fuel as [|fuel IH]; intros s c s' H Hs; cbn [parse_loop] in H; destruct (cu_lines c) as [|line lines]; try done;
    try (now injection H as <-).
  destruct (line_tokens line) as [toks|]; [|done]. cbn [mbind result_bind] in H.
  destruct (parse_definition (cu_pos c) toks lines) as [[d c']|] eqn:E; [|done]. cbn [mbind result_bind] in H.
  apply (IH _ _ _ H). apply merge_sound; [done|]. by eapply parse_definition_sound.
Qed.

Lemma parse_sources_sound sources : forall m s, parse_sources m sources = Ok s -> schema_parsed m -> schema_parsed s.
Proof.
  induction sources as [|[name src] sources IH]; intros m s H Hm; cbn [parse_sources] in H; [now injection H as <-|].
  destruct (Parse src) as [d|] eqn:E; [|done]. apply (IH _ _ H). apply merge_sound; [done|]. unfold Parse in E.
  apply (parse_loop_sound _ _ _ _ E). split; constructor.
Qed.

(** * What resolution keeps *)

Lemma resolve_fields_from ns fs : forall o names fs', resolve_fields ns o names fs = Ok fs' ->
  width fs' = width fs /\ forall f', f' ∈ fs' -> exists b f, f ∈ fs /\ f' = set_BitStart b f.
Proof.
  induction fs as [|f fs IH]; intros o names fs' H; cbn [resolve_fields] in H.
  { injection H as <-. split; [done|]. intros f' Hf'. by apply elem_of_nil in Hf'. }
  destruct (check_field _ _ _ _ _) as [[]|]; [|done]. cbn [mbind result_bind] in H.
  destruct (resolve_fields _ _ _ fs) as [gs|] eqn:E; [|done]. cbn [mbind result_bind] in H. injection H as <-.
  destruct (IH _ _ _ E) as [Hw Hin]. split; [cbn [width]; now rewrite Hw, static_bits_set_BitStart|].
  intros f' Hf'. apply elem_of_cons in Hf' as [->|Hf'].
  - exists o, f. split; [by left|done].
  - destruct (Hin f' Hf') as (b & g & Hg & ->). exists b, g. split; [by right|done].
Qed.

(** A resolved definition comes from one of the parsed ones, and is as wide. *)
Definition comes_from (structs : gset string) (p p' : PGNDef) : Prop :=
  width (pgn_fields p') = width (map (reclassify structs) (pgn_fields p)) /\
  forall f', f' ∈ pgn_fields p' -> exists b f, f ∈ pgn_fields p /\ f' = set_BitStart b (reclassify structs f).

Lemma resolve_pgns_from ns ps : forall ps', resolve_pgns ns ps = Ok ps' -> forall p', p' ∈ ps' ->
  exists p, p ∈ ps /\ comes_from (structSet ns) p p'.
Proof.
  induction ps as [|p ps IH]; intros ps' H p' Hp'; cbn [resolve_pgns] in H.
  { injection H as <-. by apply elem_of_nil in Hp'. }
  destruct (match pd_Fields p with Some _ => _ | None => _ end) as [q|] eqn:Eq; [|done]. cbn [mbind result_bind] in H.
  destruct (resolve_pgns ns ps) as [qs|] eqn:E; [|done]. cbn [mbind result_bind] in H. injection H as <-.
  apply elem_of_cons in Hp' as [->|Hp'].
  - exists p. split; [by left|]. unfold comes_from, pgn_fields in *. destruct (pd_Fields p) as [fs|] eqn:Ef.
    + destruct (resolve_fields _ _ _ _) as [gs|] eqn:Eg; [|done]. cbn [mbind result_bind] in Eq. injection Eq as <-. cbn.
      destruct (resolve_fields_from _ _ _ _ _ Eg) as [Hw Hin]. split; [exact Hw|]. intros f' Hf'.
      destruct (Hin f' Hf') as (b & g & Hg & ->). apply list_elem_of_fmap in Hg as (f & -> & Hf). exists b, f. done.
    + injection Eq as <-. rewrite Ef. split; [done|]. intros f' Hf'. by apply elem_of_nil in Hf'.
  - destruct (IH _ eq_refl p' Hp') as (q' & Hq' & Hf). exists q'. split; [by right|done].
Qed.

(** What the generated statements need of a resolved field. *)
Record prepared (f : FieldDef) : Prop := {
  pr_start : 0 <= fd_BitStart f;
  pr_bits : 0 <= fd_Bits f < 2 ^ 63;
  pr_count : fd_RepeatCount f = 0 \/ 2 <= fd_RepeatCount f < 2 ^ 63;
  pr_repeat : IsRepeated f = true -> fd_MatchValue f = None /\ fd_LookupRef f = EmptyString /\ fd_Type f <> TypeEnum;
  pr_signed : fd_Signed f = bool_decide (fd_Type f = TypeInt)
}.

Lemma parsed_prepared structs f b : parsed_field f -> 0 <= b -> prepared (set_BitStart b (reclassify structs f)).
Proof.
  intros [H1 _ H3 _ H5 H6 _ _ _ _] Hb. unfold reclassify. destruct (bool_decide_reflect (fd_Type f = TypeEnum)) as [Ht|]; cbn [andb].
  - destruct (bool_decide (fd_EnumRef f ∈ structs)); constructor; cbn; try done; try lia.
    + intros Hr. by destruct (H6 Hr) as (? & ? & ?).
    + rewrite H3, Ht. done.
  - constructor; cbn; try done; try lia.
Qed.

Lemma fields_resolved_start ns before fs : fields_resolved ns before fs -> Forall (fun f => 0 <= static_bits f) (before ++ fs) ->
  Forall (fun f => 0 <= fd_BitStart f) fs.
Proof.
  induction 1 as [|before f fs Hf _ IH]; intros Hw; [constructor|]. constructor.
  - rewrite (fr_start _ _ _ _ Hf). apply Forall_app in Hw as [Hw _]. now apply width_nonneg.
  - apply IH. now rewrite <- app_assoc.
Qed.

Lemma Resolve_pgns order s s' : Resolve order s = Ok s' -> resolve_pgns (schema_sets s) (sc_PGNs s) = Ok (sc_PGNs s').
Proof.
  unfold Resolve. intros H. destruct (check_lookups (sc_Lookups s)) as [[]|]; [|done]. cbn [mbind result_bind] in *.
  destruct (check_structs (list_to_set (map en_Name (sc_Enums s))) ∅ (sc_Structs s)) as [structs|] eqn:Es; [|done].
  cbn [mbind result_bind] in *. apply check_structs_names in Es as ->. rewrite (right_id_L ∅ (∪)) in *. fold (schema_sets s) in *.
  destruct (resolve_pgns (schema_sets s) (sc_PGNs s)) as [ps|]; [|done]. cbn [mbind result_bind] in *.
  destruct (validate_groups order ps) as [[]|]; [|done]. cbn [mbind result_bind] in H. now injection H as <-.
Qed.

(** ** Lengths *)

(** The bits a field adds to a definition, and a definition's, in whole numbers. *)
Definition added_bits (f : FieldDef) : Z :=
  if variable_width f then 0 else if IsRepeated f then fd_Bits f * fd_RepeatCount f else fd_Bits f.
Fixpoint length_in_bits (fs : list FieldDef) : Z :=
  match fs with [] => 0 | f :: fs => added_bits f + length_in_bits fs end.

(** No definition is as long as an [int] can count. *)
Definition lengths_fit (s : Schema) : Prop := Forall (fun p => length_in_bits (pgn_fields p) < 2 ^ 63) (sc_PGNs s).

Lemma length_in_bits_app a b : length_in_bits (a ++ b) = length_in_bits a + length_in_bits b.
Proof. induction a as [|f a IH]; [done|]. cbn [app length_in_bits]. lia. Qed.

Lemma added_nonneg f : parsed_field f -> 0 <= added_bits f.
Proof. intros []. unfold added_bits. destruct (variable_width f); [lia|]. destruct (IsRepeated f); nia. Qed.

Lemma length_nonneg fs : Forall parsed_field fs -> 0 <= length_in_bits fs.
Proof. induction 1 as [|f fs Hf _ IH]; [done|]. cbn [length_in_bits]. pose proof (added_nonneg f Hf). lia. Qed.

(** An enumeration that turns out to be a struct adds less. *)
Lemma reclassify_added structs f : parsed_field f -> added_bits f < 2 ^ 63 ->
  0 <= static_bits (reclassify structs f) <= added_bits f.
Proof.
  intros Hf Hb. pose proof (added_nonneg f Hf) as Hn. unfold reclassify.
  destruct (bool_decide (fd_Type f = TypeEnum) && bool_decide (fd_EnumRef f ∈ structs)); [cbn; lia|].
  unfold static_bits, added_bits in *. destruct (variable_width f); [lia|]. destruct (IsRepeated f); [|lia]. rewrite i64_small; lia.
Qed.

Lemma reclassify_widths structs fs : Forall parsed_field fs -> length_in_bits fs < 2 ^ 63 ->
  Forall (fun f => 0 <= static_bits f) (map (reclassify structs) fs) /\ width (map (reclassify structs) fs) <= length_in_bits fs.
Proof.
  induction 1 as [|f fs Hf Hfs IH]; intros Hl; [split; [constructor|done]|]. cbn [length_in_bits map width] in *.
  pose proof (added_nonneg f Hf). pose proof (length_nonneg fs Hfs).
  destruct (reclassify_added structs f Hf) as [H1 H2]; [lia|]. destruct IH as [I1 I2]; [lia|]. split; [now constructor|lia].
Qed.

Lemma lengths_widths s : schema_parsed s -> lengths_fit s -> widths_fit s.
Proof.
  intros [Hp _] Hl. unfold widths_fit, lengths_fit in *. rewrite Forall_forall in *. intros p Hin.
  destruct (reclassify_widths (list_to_set (map sd_Name (sc_Structs s))) (pgn_fields p) (Hp p Hin) (Hl p Hin)) as [H1 H2].
  split; [done|]. pose proof (Hl p Hin). cbn beta in *. lia.
Qed.

Lemma added_le f fs : Forall parsed_field fs -> f ∈ fs -> added_bits f <= length_in_bits fs.
Proof.
  induction 1 as [|g fs Hg Hfs IH]; [by intros ?%elem_of_nil|]. cbn [length_in_bits]. pose proof (length_nonneg fs Hfs). pose proof (added_nonneg g Hg).
  intros [->|Hf]%elem_of_cons; [lia|]. specialize (IH Hf). lia.
Qed.

(** What repeats is of fixed width. *)
Lemma reclassified_repeat structs b g : parsed_field g -> added_bits g < 2 ^ 63 ->
  let f := set_BitStart b (reclassify structs g) in
  IsRepeated f = true -> variable_width f = false /\ fd_Bits f * fd_RepeatCount f < 2 ^ 63.
Proof.
  intros Hg Ha f Hr. destruct Hg as [_ Ht _ _ _ Hrep _ Hbare _ _]. unfold f, reclassify in *.
  assert (Hr' : IsRepeated g = true) by (destruct (_ && _); exact Hr).
  destruct (Hrep Hr') as (_ & _ & He). rewrite (bool_decide_false (fd_Type g = TypeEnum)) in * by done. cbn [andb] in *.
  assert (Hv : variable_width g = false).
  { unfold variable_width. destruct (fd_Type g) eqn:E; try done.
    all: destruct (Hbare ltac:(auto)) as (_ & _ & _ & _ & H0 & _); unfold IsRepeated in Hr'; now rewrite H0 in Hr'. }
  split; [exact Hv|]. unfold added_bits in Ha. rewrite Hv, Hr' in Ha. exact Ha.
Qed.

(** Where a resolved field ends: repeats counted, below 2^63. *)
Definition ends_fit (f : FieldDef) : Prop :=
  IsRepeated f = true -> fd_RepeatCount f < 2 ^ 63 /\ fd_BitStart f + fd_Bits f * fd_RepeatCount f < 2 ^ 63.

Lemma resolved_ends ns before fs : fields_resolved ns before fs ->
  Forall (fun f => prepared f /\ 0 <= static_bits f) (before ++ fs) -> width (before ++ fs) < 2 ^ 63 ->
  Forall (fun f => IsRepeated f = true -> variable_width f = false /\ fd_Bits f * fd_RepeatCount f < 2 ^ 63) fs ->
  Forall ends_fit fs.
Proof.
  induction 1 as [|before f fs Hf _ IH]; intros Hw Hl Hv; [constructor|]. apply Forall_cons in Hv as [Hv Hvs].
  constructor; [|apply IH; rewrite <- ?app_assoc; done].
  intros Hr. destruct (Hv Hr) as [Hvw Hb]. apply Forall_app in Hw as [Hw1 Hw2]. apply Forall_cons in Hw2 as [[Hp Hs] Hw2].
  destruct Hp as [_ [Hb0 _] Hc _ _]. split; [lia|]. rewrite (fr_start _ _ _ _ Hf). rewrite width_app in Hl. cbn [width] in Hl.
  assert (Hn : forall gs, Forall (fun f => prepared f /\ 0 <= static_bits f) gs -> 0 <= width gs).
  { intros gs Hg. apply width_nonneg. eapply Forall_impl; [exact Hg|]. now intros g [_ ?]. }
  pose proof (Hn _ Hw1). pose proof (Hn _ Hw2). unfold static_bits in Hl. rewrite Hvw, Hr in Hl.
  assert (0 <= fd_Bits f * fd_RepeatCount f) by nia. rewrite i64_small in Hl by lia. lia.
Qed.

(** The fields of every PGN the parser and the resolution accept. *)
Lemma resolved_prepared order s s' : schema_parsed s -> lengths_fit s -> Resolve order s = Ok s' ->
  forall p, p ∈ sc_PGNs s' -> Forall prepared (pgn_fields p) /\ Forall ends_fit (pgn_fields p).
Proof.
  intros Hsp Hl H p Hin. pose proof (lengths_widths s Hsp Hl) as Hw. apply Resolve_pgns in H.
  pose proof (resolve_pgns_ok _ _ _ H Hw) as Hok. destruct (resolve_pgns_from _ _ _ H p Hin) as (p0 & Hp0 & Hwd & Hfrom).
  destruct Hsp as [Hp _]. unfold lengths_fit in Hl. rewrite Forall_forall in Hp, Hl. specialize (Hp p0 Hp0). specialize (Hl p0 Hp0). cbn beta in Hl.
  destruct (reclassify_widths (structSet (schema_sets s)) (pgn_fields p0) Hp Hl) as [Hnn Hle].
  assert (Hres : fields_resolved (schema_sets s) [] (pgn_fields p)).
  { apply list_elem_of_lookup in Hin as [i Hi]. destruct (Forall2_lookup_r _ _ _ _ _ Hok Hi) as (q & _ & _ & _ & Hr). exact Hr. }
  assert (Hbits : Forall (fun f => 0 <= static_bits f) (pgn_fields p)).
  { rewrite Forall_forall in *. intros f Hf. destruct (Hfrom f Hf) as (b & g & Hg & ->). rewrite static_bits_set_BitStart.
    apply Hnn, list_elem_of_fmap. by exists g. }
  assert (Hprep : Forall prepared (pgn_fields p)).
  { pose proof (fields_resolved_start _ _ _ Hres Hbits) as Hstart. rewrite Forall_forall in Hp, Hstart |- *. intros f Hf.
    pose proof (Hstart f Hf) as Hs. destruct (Hfrom f Hf) as (b & g & Hg & ->). now apply parsed_prepared; [apply Hp|]. }
  split; [done|]. apply (resolved_ends _ [] _ Hres); cbn [app].
  - apply Forall_and. done.
  - lia.
  - rewrite Forall_forall in Hp |- *. intros f Hf Hr. destruct (Hfrom f Hf) as (b & g & Hg & ->).
    refine (reclassified_repeat _ b g (Hp g Hg) _ Hr).
    apply (Z.le_lt_trans _ (length_in_bits (pgn_fields p0))); [|done]. apply added_le; [now apply Forall_forall|done].
Qed.

Lemma prepared_static f : prepared f -> (IsRepeated f = true -> ends_fit f) ->
  (IsRepeated f = true \/ fd_MatchValue f <> None -> integer_access f) ->
  static_field f /\ encodable_field f.
Proof.
  intros [] He Hi. split; [constructor; [done|lia|auto|intros Hr; now apply He]|]. intros Hm _. auto.
Qed.

(** C15: From the text of definitions to the bounds of the codecs. Take the
    schema the parser and the resolution make of the texts of any definition files,
    none of whose PGNs is as long as 2^63 bits, repeats counted ([lengths_fit], no
    wrap-around). Every field of its PGNs then has an offset that is not negative, a
    width in [0, 2^63), a repeat count that is 0 or at least 2, no fixed value,
    lookup or enumeration if it repeats, and the sign of its type ([prepared]). For
    a PGN of fixed width whose repeated and constrained fields are of types read as
    integers - the parser also lets strings repeat, see
    [repeated_string_out_of_range] - the statements stay inside the computed buffer:
    [Decode] gives a message for payloads of every length, and [Encode] of every
    message whose values have the Go types of the fields gives a payload of exactly
    the size of the buffer. That the Go compiler accepts the statements is not
    claimed: for a field of 48 bits it does not ([wide_field_does_not_compile]). *)
Theorem parsed_codecs_in_bounds `{P : Platform} order sources s p :
  ParseFiles order sources = Ok s ->
  (forall s0, parse_sources empty_schema sources = Ok s0 -> lengths_fit s0) ->
  p ∈ sc_PGNs s ->
  Forall prepared (pgn_fields p) /\
  (PGN_HasVariableWidth p = false ->
   Forall (fun f => IsRepeated f = true \/ fd_MatchValue f <> None -> integer_access f) (pgn_fields p) ->
   (forall data, exists m, Decode (pgn_fields p) data = Some m) /\
   forall m, Forall (message_typed (referencedFields (pgn_fields p)) m) (pgn_fields p) ->
     exists data, Encode (pgn_fields p) m = Some data /\ Z.of_nat (length data) = minBufferBytes (pgn_fields p)).
Proof.
  unfold ParseFiles. intros H Hfit Hin. destruct (parse_sources empty_schema sources) as [s0|] eqn:E0; [|done].
  cbn [mbind result_bind] in H. destruct (Resolve order s0) as [s1|] eqn:E1; [|done]. injection H as <-.
  assert (Hs0 : schema_parsed s0) by (apply (parse_sources_sound _ _ _ E0); split; constructor).
  destruct (resolved_prepared order s0 s1 Hs0 (Hfit _ eq_refl) E1 p Hin) as [Hprep Hends]. split; [done|]. intros _ Hi.
  assert (Hboth : Forall (fun f => static_field f /\ encodable_field f) (pgn_fields p)).
  { rewrite Forall_forall in *. intros f Hf. apply prepared_static; [now apply Hprep|intros _; now apply Hends|now apply Hi]. }
  split; [|intros m; now apply encode_in_bounds]. apply decode_in_bounds, (Forall_impl _ _ _ Hboth). now intros f [? _].
Qed.

(** ** A file *)

Definition demo_file : list (string * list Z) :=
  [("wind.pgn", demo_text);
   ("tank.pgn", text ["pgn 127505 " ++ dq "Fluid Level" ++ " {"; "  instance uint8 :4 value=3"; "  kind uint8 :4";
     "  level int16 :16 scale=0.004 unit=" ++ dq "%"; "  cells uint8 :6 repeat=3"; "  _ :6"; "}"])]%string.

Definition demo_parsed : Schema := Eval vm_compute in
  match parse_sources empty_schema demo_file with Ok s => s | Err _ => empty_schema end.
Definition demo_merged : Schema := Eval vm_compute in
  match ParseFiles [127505; 130306] demo_file with Ok s => s | Err _ => empty_schema end.
Definition demo_tank : PGNDef := Eval vm_compute in nth 2 (sc_PGNs demo_merged) (plain_pgn 0 "" []).

Lemma parsed_codecs_in_bounds_witness :
  map (fun f => (fd_Name f, fd_BitStart f, fd_Bits f)) (pgn_fields demo_tank) =
    [("instance", 0, 4); ("kind", 4, 4); ("level", 8, 16); ("cells", 24, 6); ("_", 42, 6)]%string /\
  minBufferBytes (pgn_fields demo_tank) = 6 /\
  Forall prepared (pgn_fields demo_tank) /\
  (forall data, exists m, Decode (pgn_fields demo_tank) data = Some m) /\
  forall m, Forall (message_typed (referencedFields (pgn_fields demo_tank)) m) (pgn_fields demo_tank) ->
    exists data, Encode (pgn_fields demo_tank) m = Some data /\ Z.of_nat (length data) = minBufferBytes (pgn_fields demo_tank).
Proof.
  split; [vm_compute; reflexivity|]. split; [vm_compute; reflexivity|].
  destruct (parsed_codecs_in_bounds [127505; 130306] demo_file demo_merged demo_tank) as [Hp Hc].
  - vm_compute. reflexivity.
  - intros s0 H. replace (parse_sources empty_schema demo_file) with (@Ok files_error Schema demo_parsed) in H by (vm_compute; reflexivity).
    injection H as <-.
    unfold lengths_fit. cbn [demo_parsed sc_PGNs]. repeat (apply Forall_cons; split; [vm_compute; reflexivity|]); apply Forall_nil_2.
  - right. right. left.
  - split; [exact Hp|]. apply Hc; [vm_compute; reflexivity|].
    repeat (apply Forall_cons; split; [intros _; split; [discriminate|intros E; discriminate E]|]). apply Forall_nil_2.
Defined.
