(* ===== verification/GoTime.v ===== *)
(** Durations in Go notation, as [time.ParseDuration] reads them, and boolean
    words as [strconv.ParseBool] does. *)

From S2P Require Import Prelude GoNum GoLiteral.
From Stdlib Require Import SpecFloat Ascii.

(** ** Pieces of a duration *)

(** [leadingInt]: the digits and what follows; [None] when they leave 64 bits. *)
Fixpoint leadingInt (x : Z) (s : list Z) : option (Z * list Z) :=
  match s with
  | b :: s' =>
      if is_digit b then
        if x >? 2 ^ 63 / 10 then None
        else let x := x * 10 + (b - 48) in if x >? 2 ^ 63 then None else leadingInt x s'
      else Some (x, s)
  | [] => Some (x, s)
  end.

(** [leadingFraction]: digits that do not fit are dropped. *)
Fixpoint leadingFraction (overflow : bool) (x : Z) (scale : float64) (s : list Z) : Z * float64 * list Z :=
  match s with
  | b :: s' =>
      if is_digit b then
        if overflow || (x >? (2 ^ 63 - 1) / 10) then leadingFraction true x scale s'
        else
          let y := x * 10 + (b - 48) in
          if y >? 2 ^ 63 then leadingFraction true x scale s'
          else leadingFraction false y (SFmul 53 1024 scale (float_of_Z 10)) s'
      else (x, scale, s)
  | [] => (x, scale, s)
  end.

(** The bytes of a unit: up to a digit or a point. *)
Fixpoint unit_bytes (s : list Z) : list Z * list Z :=
  match s with
  | b :: s' => if (b =? 46) || is_digit b then ([], s) else let '(u, rest) := unit_bytes s' in (b :: u, rest)
  | [] => ([], [])
  end.

Definition microsecond : duration := 1000.

(** [unitMap]; both code points for a micro sign are allowed. *)
Definition unit_of (u : list Z) : option duration :=
  if bool_decide (u = bytes_of_string "ns") then Some 1
  else if bool_decide (u = bytes_of_string "us") || bool_decide (u = [194; 181; 115]) || bool_decide (u = [206; 188; 115]) then Some microsecond
  else if bool_decide (u = bytes_of_string "ms") then Some millisecond
  else if bool_decide (u = bytes_of_string "s") then Some second
  else if bool_decide (u = bytes_of_string "m") then Some minute
  else if bool_decide (u = bytes_of_string "h") then Some hour
  else None.

(** A conversion to [uint64] of a number that fits. *)
Definition trunc (x : float64) : Z :=
  match x with
  | S754_finite s m e => (if s then -1 else 1) * (if 0 <=? e then Z.pos m * 2 ^ e else Z.pos m / 2 ^ (- e))
  | _ => 0
  end.

(** [uint64(float64(f) * (float64(unit) / scale))] *)
Definition fraction (f unit : Z) (scale : float64) : Z :=
  trunc (SFmul 53 1024 (float_of_Z f) (SFdiv 53 1024 (float_of_Z unit) scale)).

(** ** Durations *)

Inductive duration_syntax := InvalidDuration | MissingUnit | UnknownUnit (u : list Z).

(** A number with its unit, and the rest. *)
Definition duration_term (s : list Z) : result duration_syntax (Z * list Z) :=
  match s with
  | [] => Err InvalidDuration
  | b :: _ =>
      if negb ((b =? 46) || is_digit b) then Err InvalidDuration
      else match leadingInt 0 s with
           | None => Err InvalidDuration
           | Some (v, s1) =>
               let pre := negb (length s1 =? length s)%nat in
               let '(f, scale, s2, post) :=
                 match s1 with
                 | c :: s1' =>
                     if c =? 46 then let '(f, scale, s2) := leadingFraction false 0 (float_of_Z 1) s1' in
                                     (f, scale, s2, negb (length s2 =? length s1')%nat)
                     else (0, float_of_Z 1, s1, false)
                 | [] => (0, float_of_Z 1, s1, false)
                 end in
               if negb pre && negb post then Err InvalidDuration
               else
                 let '(u, rest) := unit_bytes s2 in
                 match u with
                 | [] => Err MissingUnit
                 | _ =>
                     match unit_of u with
                     | None => Err (UnknownUnit u)
                     | Some unit =>
                         if v >? 2 ^ 63 / unit then Err InvalidDuration
                         else
                           let v := v * unit in
                           let v := if f >? 0 then v + fraction f unit scale else v in
                           if v >? 2 ^ 63 then Err InvalidDuration else Ok (v, rest)
                     end
                 end
           end
  end.

(** The terms one after the other; every term takes a byte at least. *)
Fixpoint duration_terms (fuel : nat) (d : Z) (s : list Z) : result duration_syntax Z :=
  match s with
  | [] => Ok d
  | _ =>
      match fuel with
      | O => Err InvalidDuration
      | S fuel =>
          '(v, s) ← duration_term s;
          if d + v >? 2 ^ 63 then Err InvalidDuration else duration_terms fuel (d + v) s
      end
  end.

(** [time.ParseDuration] *)
Definition ParseDuration (text : string) : result duration_syntax duration :=
  let s := bytes_of_string text in
  let '(neg, s) := match s with b :: s' => if is_sign b then (b =? 45, s') else (false, s) | [] => (false, s) end in
  if bool_decide (s = [48]) then Ok 0
  else match s with
       | [] => Err InvalidDuration
       | _ =>
           d ← duration_terms (length s) 0 s;
           if neg then Ok (- d)
           else if d >? 2 ^ 63 - 1 then Err InvalidDuration else Ok d
       end.

Example go_durations :
  map ParseDuration ["5m"; "0"; "-1.5h"; "1h30m"; "100ms"; "1.5"; ""; "5x"; ".5s"; "3000000h"]%string =
  [Ok (5 * minute); Ok 0; Ok (- 90 * minute); Ok (90 * minute); Ok (100 * millisecond); Err MissingUnit; Err InvalidDuration;
   Err (UnknownUnit [120]); Ok (500 * millisecond); Err InvalidDuration].
Proof. vm_compute. reflexivity. Qed.

(** ** Boolean words *)

(** [strconv.ParseBool] *)
Definition ParseBool (s : string) : option bool :=
  if existsb (String.eqb s) ["1"; "t"; "T"; "TRUE"; "true"; "True"]%string then Some true
  else if existsb (String.eqb s) ["0"; "f"; "F"; "FALSE"; "false"; "False"]%string then Some false
  else None.

(** ** Bounds *)

Lemma duration_terms_bound fuel : forall d s r, duration_terms fuel d s = Ok r -> d <= 2 ^ 63 -> r <= 2 ^ 63.
Proof.
  induction fuel as [|fuel IH]; intros d [|b s] r H Hd; cbn [duration_terms] in H; try (injection H as <-; done); [done|].
  destruct (duration_term (b :: s)) as [[v rest]|]; [|done]. cbn [mbind result_bind] in H.
  rewrite Z.gtb_ltb in H. destruct (Z.ltb_spec (2 ^ 63) (d + v)); [done|]. now apply (IH _ _ _ H).
Qed.
