(* ===== verification/Config.v ===== *)
(** The configuration file of the server: [cmd/lplex-server/config.go].

    What the HOCON library makes of a file is an argument: the strings and arrays
    found at a path, and the text its values print as.  Flags have the kinds of
    the [flag] package; setting one parses its text.  The iteration over
    [configToFlag] takes the visited order as an argument. *)

From S2P Require Import Prelude GoNum GoLiteral GoTime FilterLang Devices Filters RequestRules SendPolicy Broker Server Slots.
From Stdlib Require Import Ascii.

(** * Values of a file *)

(** A value of the library: objects have each key once, and the values of other
    types are told apart by a number the code never looks at. *)
Inductive hvalue :=
| HString (s : string)
| HBoolean (b : bool)
| HArray (vs : list hvalue)
| HObject (kvs : list (string * hvalue))
| HOther (n : nat).

Definition hobject : Type := list (string * hvalue).

(** What the library promises: the text of a value. *)
Class HoconText := value_text : hvalue -> string.

(** A parsed file. *)
Record hocon := mkHocon { GetString : string -> string; GetArray : string -> list hvalue }.

Fixpoint key_of (obj : hobject) (key : string) : option hvalue :=
  match obj with
  | [] => None
  | (k, v) :: obj => if String.eqb k key then Some v else key_of obj key
  end.

Definition hasKey (obj : hobject) (key : string) : bool := bool_decide (is_Some (key_of obj key)).

(** * Flags *)

Inductive flag_value := FString (s : string) | FInt (z : Z) | FInt64 (z : Z) | FBool (b : bool) | FFloat64 (x : float64).

Abbreviation flags := (gmap string flag_value).

(** The text as a value of the same kind. *)
Definition parse_flag (old : flag_value) (text : string) : option flag_value :=
  match old with
  | FString _ => Some (FString text)
  | FInt _ => match ParseInt0 text with Ok z => Some (FInt z) | Err _ => None end
  | FInt64 _ => match ParseInt0 text with Ok z => Some (FInt64 z) | Err _ => None end
  | FBool _ => FBool <$> ParseBool text
  | FFloat64 _ => match ParseFloat64 text with Ok x => Some (FFloat64 x) | Err _ => None end
  end.

(** [flag.Set] *)
Definition flag_Set (name text : string) (fs : flags) : option flags :=
  old ← fs !! name; v ← parse_flag old text; Some (<[name := v]> fs).

Definition configToFlag : list (string * string) :=
  [("interface", "interface"); ("interfaces", "interfaces"); ("port", "port"); ("max-buffer-duration", "max-buffer-duration");
   ("journal.dir", "journal-dir"); ("journal.prefix", "journal-prefix"); ("journal.block-size", "journal-block-size");
   ("journal.compression", "journal-compression"); ("journal.rotate.duration", "journal-rotate-duration");
   ("journal.rotate.size", "journal-rotate-size"); ("journal.retention.max-age", "journal-retention-max-age");
   ("journal.retention.min-keep", "journal-retention-min-keep"); ("journal.retention.max-size", "journal-retention-max-size");
   ("journal.retention.soft-pct", "journal-retention-soft-pct");
   ("journal.retention.overflow-policy", "journal-retention-overflow-policy");
   ("journal.archive.command", "journal-archive-command"); ("journal.archive.trigger", "journal-archive-trigger");
   ("ring-size", "ring-size"); ("loopback", "loopback"); ("device.idle-timeout", "device-idle-timeout");
   ("send.enabled", "send-enabled"); ("virtual-device.enabled", "virtual-device"); ("virtual-device.name", "virtual-device-name");
   ("virtual-device.model-id", "virtual-device-model-id"); ("virtual-device.claim-heartbeat", "virtual-device-claim-heartbeat");
   ("virtual-device.product-info-heartbeat", "virtual-device-product-info-heartbeat");
   ("bus-silence-timeout", "bus-silence-timeout"); ("replication.target", "replication-target");
   ("replication.instance-id", "replication-instance-id"); ("replication.tls.cert", "replication-tls-cert");
   ("replication.tls.key", "replication-tls-key"); ("replication.tls.ca", "replication-tls-ca");
   ("replication.max-live-lag", "replication-max-live-lag"); ("replication.lag-check-interval", "replication-lag-check-interval");
   ("replication.min-lag-reconnect-interval", "replication-min-lag-reconnect-interval"); ("read-only", "read-only");
   ("api-key", "api-key"); ("send.rate-limit", "send-rate-limit"); ("send.rate-burst", "send-rate-burst");
   ("health.bus-silence-threshold", "bus-silence-threshold")]%string.

(** The flags [main] declares, with their defaults. *)
Definition declared_flags : flags := list_to_map
  [("interface", FString "can0"); ("interfaces", FString ""); ("port", FInt 8089); ("max-buffer-duration", FString "PT5M");
   ("version", FBool false); ("journal-dir", FString ""); ("journal-prefix", FString "nmea2k");
   ("journal-block-size", FInt 262144); ("journal-rotate-duration", FString "PT1H"); ("journal-rotate-size", FInt64 0);
   ("journal-compression", FString "zstd"); ("journal-retention-max-age", FString ""); ("journal-retention-min-keep", FString "");
   ("journal-retention-max-size", FInt64 0); ("journal-retention-soft-pct", FInt 80);
   ("journal-retention-overflow-policy", FString "delete-unarchived"); ("journal-archive-command", FString "");
   ("journal-archive-trigger", FString ""); ("bus-silence-threshold", FString ""); ("replication-target", FString "");
   ("replication-instance-id", FString ""); ("replication-tls-cert", FString ""); ("replication-tls-key", FString "");
   ("replication-tls-ca", FString ""); ("replication-max-live-lag", FInt 10000); ("replication-lag-check-interval", FInt 1000);
   ("replication-min-lag-reconnect-interval", FString "30s"); ("device-idle-timeout", FString "5m"); ("send-enabled", FBool false);
   ("send-rules", FString ""); ("virtual-device", FBool false); ("virtual-device-name", FString "");
   ("virtual-device-model-id", FString "lplex-server"); ("virtual-device-claim-heartbeat", FString "60s");
   ("virtual-device-product-info-heartbeat", FString "5m"); ("ring-size", FInt 65536); ("loopback", FBool false);
   ("bus-silence-timeout", FString ""); ("config", FString ""); ("validate-config", FBool false); ("otel-endpoint", FString "");
   ("otel-sample-ratio", FFloat64 (float_of_Z 1)); ("alert-webhook-url", FString ""); ("alert-dedup-window", FString "5m");
   ("mqtt-broker", FString ""); ("mqtt-topic-prefix", FString "lplex"); ("mqtt-client-id", FString "lplex-server");
   ("mqtt-qos", FInt 0); ("mqtt-username", FString ""); ("mqtt-password", FString ""); ("api-key", FString "");
   ("read-only", FBool false); ("send-rate-limit", FFloat64 (float_of_Z 0)); ("send-rate-burst", FInt 10); ("mdns", FBool true)]%string.

(** * Finding the file *)

(** What [os.Stat] says of a path. *)
Inductive stat := IsFile | IsDir | NotFound | StatFailed.

Inductive find_error := ConfigNotFound (p : string) | ConfigCheck (p : string) | ConfigIsDirectory (p : string).

Definition search_paths : list string :=
  ["./lplex-server.conf"; "/etc/lplex/lplex-server.conf"; "./lplex.conf"; "/etc/lplex/lplex.conf"]%string.

(** The file the flag names, or the first there is of some paths. *)
Definition find_config (paths : list string) (Stat : string -> stat) (configFlag : string) : result find_error string :=
  if nonblank configFlag then
    match Stat configFlag with
    | NotFound => Err (ConfigNotFound configFlag)
    | StatFailed => Err (ConfigCheck configFlag)
    | IsDir => Err (ConfigIsDirectory configFlag)
    | IsFile => Ok configFlag
    end
  else
    match List.find (fun p => match Stat p with IsFile | IsDir => true | _ => false end) paths with
    | Some p => Ok p
    | None => Ok EmptyString
    end.

Definition findConfigFile : (string -> stat) -> string -> result find_error string := find_config search_paths.

(** * Errors *)

(** The path an error names. *)
Definition index_path (name : string) (i : nat) : string := (name ++ "[" ++ FormatInt (Z.of_nat i) ++ "]")%string.

Inductive config_error :=
| BadFlag (key flag : string)
| NotStringOrObject (p : string)
| NotObject (p : string)
| NotString (p : string)
| NotStringOrArray (p : string)
| EmptyRuleObject (p : string)
| RuleNameKind (p : string)
| BadNumber (p : string) (e : num_error)
| NotByte (p : string) (n : Z)
| Required (p : string)
| BadDuration (p : string) (e : duration_syntax)
| BadHex (p : string)
| BadVia (p : string) (via : string)
| BadSlot (e : slot_error)
| SendRulesFlag.

(** An error of the code, or a type assertion that panics. *)
Inductive config_failure := CErr (e : config_error) | CPanic.

Abbreviation config := (result config_failure).

Definition cerr {A} (e : config_error) : config A := Err (CErr e).

(** [v.(hocon.String)] and [v.(hocon.Boolean)] *)
Definition as_string (v : hvalue) : config string := match v with HString s => Ok s | _ => Err CPanic end.
Definition as_bool (v : hvalue) : config bool := match v with HBoolean b => Ok b | _ => Err CPanic end.

(** * Send rules *)

Fixpoint as_strings (vs : list hvalue) : config (list string) :=
  match vs with
  | [] => Ok []
  | v :: vs => s ← as_string v; ss ← as_strings vs; Ok (s :: ss)
  end.

Definition deny_part (obj : hobject) : config (list string) :=
  match key_of obj "deny" with
  | Some v => b ← as_bool v; Ok (if (b : bool) then ["!"%string] else [])
  | None => Ok []
  end.

Definition pgn_part (obj : hobject) : config (list string) :=
  match key_of obj "pgn" with
  | Some v => s ← as_string v; Ok [("pgn:" ++ s)%string]
  | None => Ok []
  end.

Definition name_part (p : string) (obj : hobject) : config (list string) :=
  match key_of obj "name" with
  | Some (HString s) => Ok [("name:" ++ s)%string]
  | Some (HArray vs) => ss ← as_strings vs; Ok [("name:" ++ String.concat "," ss)%string]
  | Some _ => cerr (RuleNameKind p)
  | None => Ok []
  end.

Definition hoconRuleToDSL (p : string) (obj : hobject) : config string :=
  deny ← deny_part obj;
  pgn ← pgn_part obj;
  name ← name_part p obj;
  match deny ++ pgn ++ name with
  | [] => cerr (EmptyRuleObject p)
  | parts => Ok (String.concat " " parts)
  end.

(** The elements of the array, from number [i]. *)
Fixpoint rule_texts (i : nat) (elems : list hvalue) : config (list string) :=
  match elems with
  | [] => Ok []
  | elem :: elems =>
      s ← match elem with
          | HString s => Ok s
          | HObject obj => hoconRuleToDSL (index_path "send.rules" i) obj
          | _ => cerr (NotStringOrObject (index_path "send.rules" i))
          end;
      ss ← rule_texts (S i) elems; Ok (s :: ss)
  end.

(** The rules of a text, between semicolons. *)
Definition split_rules (s : string) : list string := List.filter nonblank (map SendPolicy.TrimSpace (Split s ";")).

Definition parseSendPolicy (enabled : bool) (rulesStr : string) : result (Z * send_rule_error) SendPolicy :=
  if nonblank rulesStr then rules ← ParseSendRules (split_rules rulesStr); Ok (mkSendPolicy enabled rules)
  else Ok (mkSendPolicy enabled []).

Section values.
Context `{HoconText}.

(** * Scalars and arrays *)

Definition hoconStr (obj : hobject) (key : string) : option string :=
  match key_of obj key with Some (HString s) => Some s | _ => None end.

Definition hoconBool (obj : hobject) (key : string) : option bool :=
  (fun v => String.eqb (value_text v) "true") <$> key_of obj key.

(** [hoconU32], [hoconU16] and [hoconU8]: a number of [bits] bits. *)
Definition hoconU (bits : Z) (obj : hobject) (key path : string) : config (option Z) :=
  match key_of obj key with
  | None => Ok None
  | Some v => match ParseUint0 (value_text v) bits with Ok n => Ok (Some n) | Err e => cerr (BadNumber path e) end
  end.

Definition intOr (obj : hobject) (key : string) (def : Z) : Z :=
  match key_of obj key with
  | Some v => match ParseInt (value_text v) with Ok n => n | Err _ => def end
  | None => def
  end.

Fixpoint string_elements (path : string) (i : nat) (vs : list hvalue) : config (list string) :=
  match vs with
  | [] => Ok []
  | HString s :: vs => ss ← string_elements path (S i) vs; Ok (s :: ss)
  | _ => cerr (NotString (index_path path i))
  end.

Definition hoconStringArray (v : hvalue) (path : string) : config (list string) :=
  match v with
  | HString s => Ok [s]
  | HArray vs => string_elements path 0 vs
  | _ => cerr (NotStringOrArray path)
  end.

Definition parse_u32 (v : hvalue) (path : string) : config Z :=
  match ParseUint (value_text v) 10 32 with Ok n => Ok n | Err e => cerr (BadNumber path e) end.

Fixpoint u32_elements (path : string) (i : nat) (vs : list hvalue) : config (list Z) :=
  match vs with
  | [] => Ok []
  | v :: vs => n ← parse_u32 v (index_path path i); ns ← u32_elements path (S i) vs; Ok (n :: ns)
  end.

Definition hoconUint32Array (v : hvalue) (path : string) : config (list Z) :=
  match v with
  | HArray vs => u32_elements path 0 vs
  | _ => n ← parse_u32 v path; Ok [n]
  end.

(** * Client slots *)

(** An optional list of an object. *)
Definition list_at {A} (read : hvalue -> string -> config (list A)) (obj : hobject) (key path : string) : config (list A) :=
  match key_of obj key with Some v => read v path | None => Ok [] end.

Fixpoint check_bytes (path : string) (ns : list Z) : config (list Z) :=
  match ns with
  | [] => Ok []
  | n :: ns => if n >? 255 then cerr (NotByte path n) else ns ← check_bytes path ns; Ok (n :: ns)
  end.

Definition slot_filter (prefix : string) (obj : hobject) : config filter_body :=
  pgn ← list_at hoconUint32Array obj "pgn" (prefix ++ ".filter.pgn");
  exclude ← list_at hoconUint32Array obj "exclude-pgn" (prefix ++ ".filter.exclude-pgn");
  manufacturer ← list_at hoconStringArray obj "manufacturer" (prefix ++ ".filter.manufacturer");
  vals ← list_at hoconUint32Array obj "instance" (prefix ++ ".filter.instance");
  instance ← check_bytes (prefix ++ ".filter.instance") vals;
  name ← list_at hoconStringArray obj "name" (prefix ++ ".filter.name");
  excludeName ← list_at hoconStringArray obj "exclude-name" (prefix ++ ".filter.exclude-name");
  bus ← list_at hoconStringArray obj "bus" (prefix ++ ".filter.bus");
  Ok (mkFilterBody pgn exclude manufacturer instance name excludeName bus).

Definition slot_config (obj : hobject) (index : nat) : config ClientSlotConfig :=
  let prefix := index_path "clients.slots" index in
  id ← match key_of obj "id" with Some v => as_string v | None => cerr (Required prefix) end;
  timeout ← match key_of obj "buffer-timeout" with Some v => as_string v | None => Ok EmptyString end;
  filter ← match key_of obj "filter" with
           | Some (HObject fobj) => fb ← slot_filter prefix fobj; Ok (Some fb)
           | Some _ => cerr (NotObject (prefix ++ ".filter"))
           | None => Ok None
           end;
  Ok (mkSlotConfig id timeout filter).

Definition parseHOCNSlot (obj : hobject) (index : nat) : config ClientSlot :=
  cfg ← slot_config obj index;
  match ParseClientSlot cfg with Ok slot => Ok slot | Err e => cerr (BadSlot e) end.

(** * Request rules *)

Definition parse_match (prefix : string) (m : hobject) : config Match :=
  let str key := default EmptyString (hoconStr m key) in
  code ← hoconU 16 m "manufacturer-code" (prefix ++ ".match.manufacturer-code");
  class ← hoconU 8 m "device-class" (prefix ++ ".match.device-class");
  function ← hoconU 8 m "device-function" (prefix ++ ".match.device-function");
  source ← hoconU 8 m "source" (prefix ++ ".match.source");
  Ok (mkMatch (str "manufacturer"%string) (default 0 code) (str "model-id"%string) class function (str "name"%string) source (str "bus"%string)).

(** A duration of the object; [None] when it has none. *)
Definition duration_at (obj : hobject) (key path : string) : config (option duration) :=
  match hoconStr obj key with
  | None => Ok None
  | Some s => match ParseDuration s with Ok d => Ok (Some d) | Err e => cerr (BadDuration path e) end
  end.

(** The payload template. *)
Definition template_at (obj : hobject) (path : string) : config (list Z) :=
  match hoconStr obj "frame-template" with
  | None => Ok []
  | Some s => match hex_DecodeString s with Some bs => Ok bs | None => cerr (BadHex path) end
  end.

Definition parseRequestRule (obj : hobject) (index : nat) : config Rule :=
  let prefix := index_path "requests" index in
  name ← match hoconStr obj "name" with Some s => Ok s | None => cerr (Required (prefix ++ ".name")) end;
  m ← match key_of obj "match" with
      | Some (HObject m) => parse_match prefix m
      | Some _ => cerr (NotObject (prefix ++ ".match"))
      | None => Ok (mkMatch "" 0 "" None None "" None "")
      end;
  let via := match hoconStr obj "via" with Some s => ToLower s | None => "iso"%string end in
  let onOnline := default false (hoconBool obj "on-online") in
  let toDevice := default false (hoconBool obj "to-device") in
  dst ← hoconU 8 obj "dst" (prefix ++ ".dst");
  mi ← duration_at obj "min-interval" (prefix ++ ".min-interval");
  match mi with
  | None => cerr (Required (prefix ++ ".min-interval"))
  | Some minInterval =>
      maxAge ← duration_at obj "max-age" (prefix ++ ".max-age");
      invalidate ← list_at hoconUint32Array obj "invalidate-on" (prefix ++ ".invalidate-on");
      if negb (hasKey obj "want") then cerr (Required (prefix ++ ".want"))
      else
        wants ← list_at hoconUint32Array obj "want" (prefix ++ ".want");
        let rule via wants pgn template wo wl ro rl :=
          mkRule name m wants via toDevice (default 0 dst) pgn 0 template wo wl ro rl minInterval (default 0 maxAge) onOnline invalidate in
        if String.eqb via "iso" then
          Ok (rule ViaISORequest (map (fun p => mkWant p 0 false) wants) 0 [] 0 0 0 0)
        else if String.eqb via "frame" then
          fp ← hoconU 32 obj "frame-pgn" (prefix ++ ".frame-pgn");
          match fp with
          | None => cerr (Required (prefix ++ ".frame-pgn"))
          | Some fp =>
              template ← template_at obj (prefix ++ ".frame-template");
              Ok (rule ViaFrame (map (fun sk => mkWant fp sk true) wants) fp template
                    (intOr obj "subkey-write-offset" 0) (intOr obj "subkey-write-len" 0)
                    (intOr obj "subkey-read-offset" 0) (intOr obj "subkey-read-len" 0))
          end
        else cerr (BadVia prefix via)
  end.

(** * Applying a file *)

Record configResult := mkConfigResult {
  cr_Slots : list ClientSlot;
  cr_RequestRules : list Rule;
  cr_RequestGlobalMinInterval : duration
}.

(** The keys one after the other. *)
Fixpoint apply_flags (explicit : gset string) (cfg : hocon) (order : list (string * string)) (fs : flags) : config flags :=
  match order with
  | [] => Ok fs
  | (configKey, flagName) :: order =>
      if bool_decide (flagName ∈ explicit) then apply_flags explicit cfg order fs
      else
        let val := GetString cfg configKey in
        if negb (nonblank val) then apply_flags explicit cfg order fs
        else match flag_Set flagName val fs with
             | Some fs => apply_flags explicit cfg order fs
             | None => cerr (BadFlag configKey flagName)
             end
  end.

Definition apply_rules (explicit : gset string) (cfg : hocon) (fs : flags) : config flags :=
  if bool_decide ("send-rules"%string ∈ explicit) then Ok fs
  else match GetArray cfg "send.rules" with
       | [] => Ok fs
       | elems =>
           parts ← rule_texts 0 elems;
           match flag_Set "send-rules" (String.concat ";" parts) fs with Some fs => Ok fs | None => cerr SendRulesFlag end
       end.

(** The objects of an array, each read with its number. *)
Fixpoint objects {A} (read : hobject -> nat -> config A) (name : string) (i : nat) (elems : list hvalue) : config (list A) :=
  match elems with
  | [] => Ok []
  | HObject obj :: elems => a ← read obj i; rest ← objects read name (S i) elems; Ok (a :: rest)
  | _ => cerr (NotObject (index_path name i))
  end.

Definition applyConfig (explicit : gset string) (order : list (string * string)) (cfg : hocon) (fs : flags)
    : config (flags * configResult) :=
  fs ← apply_flags explicit cfg order fs;
  fs ← apply_rules explicit cfg fs;
  slots ← objects parseHOCNSlot "clients.slots" 0 (GetArray cfg "clients.slots");
  let s := GetString cfg "requests-global-min-interval" in
  globalMin ← (if nonblank s
               then match ParseDuration s with Ok d => Ok d | Err e => cerr (BadDuration "requests-global-min-interval" e) end
               else Ok 0);
  rules ← objects parseRequestRule "requests" 0 (GetArray cfg "requests");
  Ok (fs, mkConfigResult slots rules globalMin).
End values.

(** * Flags and files *)

(** What a flag is worth after a file was applied: the command line wins, then
    the file, then what it was. *)
Definition key_for (name : string) : option string :=
  fst <$> List.find (fun '(_, flag) => String.eqb flag name) configToFlag.

Definition configured (explicit : gset string) (cfg : hocon) (fs : flags) (name : string) : option flag_value :=
  if bool_decide (name ∈ explicit) then fs !! name
  else match key_for name with
       | Some key => if nonblank (GetString cfg key) then old ← fs !! name; parse_flag old (GetString cfg key) else fs !! name
       | None => fs !! name
       end.

Lemma configToFlag_once : NoDup (map snd configToFlag).
Proof. apply (bool_decide_unpack _). vm_compute. exact I. Qed.

Lemma configToFlag_declared : Forall (fun '(_, flag) => is_Some (declared_flags !! flag)) configToFlag.
Proof. repeat (apply Forall_cons; split; [vm_compute; by eexists|]). apply Forall_nil_2. Qed.

(** An entry leaves its flag, or sets it. *)
Definition changes (explicit : gset string) (cfg : hocon) (e : string * string) : bool :=
  negb (bool_decide (e.2 ∈ explicit)) && nonblank (GetString cfg e.1).

Definition settable (explicit : gset string) (cfg : hocon) (fs : flags) (e : string * string) : Prop :=
  changes explicit cfg e = true -> exists old, fs !! e.2 = Some old /\ is_Some (parse_flag old (GetString cfg e.1)).

Section apply_flags.
Context (explicit : gset string) (cfg : hocon).

Lemma apply_flags_cons e order fs :
  apply_flags explicit cfg (e :: order) fs =
  if changes explicit cfg e then
    match flag_Set e.2 (GetString cfg e.1) fs with Some fs => apply_flags explicit cfg order fs | None => cerr (BadFlag e.1 e.2) end
  else apply_flags explicit cfg order fs.
Proof. destruct e as [key flag]. unfold changes. cbn. destruct (bool_decide (flag ∈ explicit)), (nonblank (GetString cfg key)); done. Qed.

Lemma flag_Set_other name text fs fs' other : flag_Set name text fs = Some fs' -> other <> name -> fs' !! other = fs !! other.
Proof.
  unfold flag_Set. destruct (fs !! name) as [old|]; [|done]. cbn [mbind option_bind]. destruct (parse_flag old text) as [v|]; [|done].
  intros [= <-] Hne. by rewrite lookup_insert_ne.
Qed.

(** Only the entries that change something matter. *)
Lemma apply_flags_changes order : forall fs,
  apply_flags explicit cfg order fs = apply_flags explicit cfg (List.filter (changes explicit cfg) order) fs.
Proof.
  induction order as [|e order IH]; intros fs; [done|]. cbn [List.filter]. rewrite apply_flags_cons. destruct (changes explicit cfg e) eqn:Ec.
  - rewrite apply_flags_cons, Ec. destruct (flag_Set _ _ fs); [apply IH|done].
  - apply IH.
Qed.

(** Entries for different flags do not disturb each other. *)
Lemma apply_flags_settable order : forall fs, NoDup (map snd order) ->
  (exists fs', apply_flags explicit cfg order fs = Ok fs') <-> Forall (settable explicit cfg fs) order.
Proof.
  induction order as [|e order IH]; intros fs Hnd; [split; [constructor|by eexists]|]. cbn [map] in Hnd. apply NoDup_cons in Hnd as [Hni Hnd].
  rewrite apply_flags_cons, Forall_cons.
  assert (Hset : forall fs', flag_Set e.2 (GetString cfg e.1) fs = Some fs' -> Forall (settable explicit cfg fs') order <-> Forall (settable explicit cfg fs) order).
  { intros fs' E. rewrite !Forall_forall. assert (H : forall e', e' ∈ order -> fs' !! e'.2 = fs !! e'.2).
    { intros e' He'. apply (flag_Set_other _ _ _ _ _ E). intros Heq. apply Hni. rewrite <- Heq. apply list_elem_of_fmap. by exists e'. }
    unfold settable. split; intros Ha e' He' Hc; [rewrite <- H by done|rewrite H by done]; by apply Ha. }
  unfold settable at 1. destruct (changes explicit cfg e).
  - unfold flag_Set in *. destruct (fs !! e.2) as [old|] eqn:Eo; cbn [mbind option_bind] in *.
    + destruct (parse_flag old (GetString cfg e.1)) as [v|] eqn:Ev.
      * transitivity (Forall (settable explicit cfg (<[e.2 := v]> fs)) order); [apply (IH _ Hnd)|]. rewrite (Hset _ eq_refl).
        split; [|tauto]. intros Ho. split; [|done]. intros _. exists old. rewrite Ev. split; [done|by eexists].
      * split; [intros [? H]; done|]. intros [H _]. destruct (H eq_refl) as (o & [= <-] & [v Hv]). congruence.
    + split; [intros [? H]; done|]. intros [H _]. by destruct (H eq_refl) as (o & ? & _).
  - transitivity (Forall (settable explicit cfg fs) order); [apply (IH _ Hnd)|]. split; [|tauto]. intros Ho. split; [done|done].
Qed.

Lemma apply_flags_value order : forall fs fs', NoDup (map snd order) -> apply_flags explicit cfg order fs = Ok fs' ->
  forall name, fs' !! name = match List.find (fun '(_, flag) => String.eqb flag name) order with
                             | Some (key, flag) => if changes explicit cfg (key, flag) then old ← fs !! name; parse_flag old (GetString cfg key) else fs !! name
                             | None => fs !! name
                             end.
Proof.
  induction order as [|[key flag] order IH]; intros fs fs' Hnd H name; [by injection H as <-|]. cbn [map snd] in Hnd. apply NoDup_cons in Hnd as [Hni Hnd].
  rewrite apply_flags_cons in H. cbn [fst snd] in H. cbn [List.find].
  assert (Hnone : flag = name -> List.find (fun '(_, flag) => String.eqb flag name) order = None).
  { intros <-. destruct (List.find _ order) as [[k f]|] eqn:E; [|done]. apply List.find_some in E as [Hin Ef]. apply String.eqb_eq in Ef as ->.
    exfalso. apply Hni, list_elem_of_fmap. exists (k, flag). split; [done|by apply list_elem_of_In]. }
  destruct (changes explicit cfg (key, flag)) eqn:Ec.
  - destruct (flag_Set flag (GetString cfg key) fs) as [fs1|] eqn:Es; [|done]. rewrite (IH _ _ Hnd H name).
    destruct (String.eqb_spec flag name) as [->|Hne].
    + rewrite Hnone by done. unfold flag_Set in Es. destruct (fs !! name) as [old|] eqn:Eo; [|done]. cbn [mbind option_bind] in *.
      destruct (parse_flag old (GetString cfg key)) as [v|]; [|done]. injection Es as <-. by rewrite lookup_insert_eq, Ec.
    + by rewrite (flag_Set_other _ _ _ _ name Es) by done.
  - rewrite (IH _ _ Hnd H name). destruct (String.eqb_spec flag name) as [->|Hne]; [|done]. by rewrite Hnone, Ec by done.
Qed.
End apply_flags.

Lemma find_flag (order : list (string * string)) key name : NoDup (map snd order) -> (key, name) ∈ order ->
  List.find (fun '(_, flag) => String.eqb flag name) order = Some (key, name).
Proof.
  induction order as [|[k f] order IH]; intros Hnd Hin; [by apply elem_of_nil in Hin|]. cbn [map snd] in Hnd.
  apply NoDup_cons in Hnd as [Hni Hnd]. cbn [List.find]. apply elem_of_cons in Hin as [[= -> ->]|Hin]; [by rewrite String.eqb_refl|].
  destruct (String.eqb_spec f name) as [->|]; [|by apply IH]. exfalso. apply Hni, list_elem_of_fmap. by exists (key, name).
Qed.

Lemma find_flag_perm (order order' : list (string * string)) name : NoDup (map snd order) -> order ≡ₚ order' ->
  List.find (fun '(_, flag) => String.eqb flag name) order = List.find (fun '(_, flag) => String.eqb flag name) order'.
Proof.
  intros Hnd Hp. assert (Hnd' : NoDup (map snd order')) by (by rewrite <- Hp).
  destruct (List.find _ order) as [[key f]|] eqn:E.
  - apply List.find_some in E as [Hin Ef]. apply String.eqb_eq in Ef as ->. symmetry. apply find_flag; [done|]. rewrite <- Hp. by apply list_elem_of_In.
  - destruct (List.find _ order') as [[key f]|] eqn:E'; [|done]. apply List.find_some in E' as [Hin Ef]. apply String.eqb_eq in Ef as ->.
    exfalso. apply list_elem_of_In in Hin. rewrite <- Hp in Hin. by rewrite (find_flag order key name Hnd Hin) in E.
Qed.

(** The flags after the keys were applied, in any order. *)
Lemma apply_flags_configured explicit cfg fs fs' order : order ≡ₚ configToFlag -> apply_flags explicit cfg order fs = Ok fs' ->
  forall name, fs' !! name = configured explicit cfg fs name.
Proof.
  intros Hp H name. assert (Hnd : NoDup (map snd order)) by (rewrite Hp; exact configToFlag_once).
  rewrite (apply_flags_value explicit cfg order fs fs' Hnd H name). rewrite (find_flag_perm order configToFlag name Hnd Hp).
  unfold configured, key_for. destruct (List.find _ configToFlag) as [[key f]|] eqn:E; cbn [fmap option_fmap option_map fst].
  - apply List.find_some in E as [_ Ef]. apply String.eqb_eq in Ef as ->. unfold changes. cbn [fst snd].
    destruct (bool_decide (name ∈ explicit)), (nonblank (GetString cfg key)); done.
  - by destruct (bool_decide (name ∈ explicit)).
Qed.

Lemma apply_flags_order explicit cfg fs fs' order order' : order ≡ₚ configToFlag -> order' ≡ₚ configToFlag ->
  apply_flags explicit cfg order fs = Ok fs' -> apply_flags explicit cfg order' fs = Ok fs'.
Proof.
  intros Hp Hp' H. assert (Hnd : forall o, o ≡ₚ configToFlag -> NoDup (map snd o)) by (intros o ->; exact configToFlag_once).
  assert (Hs : Forall (settable explicit cfg fs) order) by (apply apply_flags_settable; [by apply Hnd|by exists fs']).
  rewrite Hp, <- Hp' in Hs. apply (apply_flags_settable _ _ _ _ (Hnd _ Hp')) in Hs as [fs'' H'']. rewrite H''. f_equal. apply map_eq. intros name.
  by rewrite (apply_flags_configured _ _ _ _ _ Hp H), (apply_flags_configured _ _ _ _ _ Hp' H'').
Qed.

Lemma apply_rules_other explicit cfg fs fs' name : apply_rules explicit cfg fs = Ok fs' ->
  name <> "send-rules"%string \/ "send-rules"%string ∈ explicit -> fs' !! name = fs !! name.
Proof.
  unfold apply_rules. intros H Hn. destruct (bool_decide_reflect ("send-rules"%string ∈ explicit)); [by injection H as <-|].
  destruct (GetArray cfg "send.rules") as [|e es]; [by injection H as <-|].
  destruct (rule_texts 0 (e :: es)) as [parts|]; [|done]. cbn [mbind result_bind] in H.
  destruct (flag_Set _ _ fs) as [fs1|] eqn:E; [|done]. injection H as <-. destruct Hn as [Hn|]; [|done]. by apply (flag_Set_other _ _ _ _ name E).
Qed.

(** C36: a configuration file gives way to the command line and to nothing else.
    When the server accepts a file, every flag that the command line sets keeps
    its value; every other flag that the file gives a text to has the value that
    text stands for, and its text was read without error; all other flags keep
    their defaults.  The result does not depend on the order in which the keys
    are visited. *)
Theorem config_precedence `{HoconText} explicit order cfg fs fs' r :
  order ≡ₚ configToFlag -> applyConfig explicit order cfg fs = Ok (fs', r) ->
  (forall name, name <> "send-rules"%string -> fs' !! name = configured explicit cfg fs name) /\
  ("send-rules"%string ∈ explicit -> fs' !! "send-rules"%string = fs !! "send-rules"%string) /\
  Forall (settable explicit cfg fs) configToFlag /\
  forall order', order' ≡ₚ configToFlag -> applyConfig explicit order' cfg fs = Ok (fs', r).
Proof.
  intros Hp Happ. unfold applyConfig in *. destruct (apply_flags explicit cfg order fs) as [fs1|] eqn:E1; [|done]. cbn [mbind result_bind] in *.
  destruct (apply_rules explicit cfg fs1) as [fs2|] eqn:E2; [|done]. cbn [mbind result_bind] in *.
  assert (fs2 = fs') as ->.
  { destruct (objects parseHOCNSlot _ _ _); [|done]. cbn [mbind result_bind] in Happ.
    destruct (if nonblank _ then _ else _); [|done]. cbn [mbind result_bind] in Happ.
    destruct (objects parseRequestRule _ _ _); [|done]. by injection Happ as -> _. }
  pose proof (apply_flags_configured _ _ _ _ _ Hp E1) as Hc.
  assert (Hnd : NoDup (map snd order)) by (rewrite Hp; exact configToFlag_once).
  split; [|split; [|split]].
  - intros name Hn. rewrite (apply_rules_other _ _ _ _ _ E2) by (by left). apply Hc.
  - intros Hin. rewrite (apply_rules_other _ _ _ _ _ E2) by (by right). rewrite Hc. unfold configured. by rewrite bool_decide_true.
  - rewrite <- Hp. apply apply_flags_settable; [done|by exists fs1].
  - intros order' Hp'. rewrite (apply_flags_order _ _ _ _ _ _ Hp Hp' E1). cbn [mbind result_bind]. by rewrite E2.
Qed.

(** * Rules written as objects *)

(** What an element of the array says, read without the detour through text. *)
Definition denies (obj : hobject) : bool := match key_of obj "deny" with Some (HBoolean b) => b | _ => false end.

Definition read_names (ss : list string) : result send_rule_error (list Z) :=
  names ← fold_result parse_name_part [] ss; if (length names =? 0)%nat then Err EmptyNameList else Ok names.

Definition object_pgns (obj : hobject) : result send_rule_error (option PGNMatcher) :=
  match key_of obj "pgn" with Some (HString s) => m ← parsePGNSpec s; Ok (Some m) | _ => Ok None end.

Definition texts (vs : list hvalue) : list string := omap (fun v => match v with HString s => Some s | _ => None end) vs.

Definition object_names (obj : hobject) : result send_rule_error (list Z) :=
  match key_of obj "name" with
  | Some (HString s) => parseNameList s
  | Some (HArray vs) => read_names (texts vs)
  | _ => Ok []
  end.

Definition element_rule (elem : hvalue) : result send_rule_error SendRule :=
  match elem with
  | HString s => ParseSendRule s
  | HObject obj => m ← object_pgns obj; names ← object_names obj; Ok (mkSendRule (negb (denies obj)) m names)
  | _ => Err EmptyRule
  end.

Fixpoint element_rules (i : Z) (elems : list hvalue) : result (Z * send_rule_error) (list SendRule) :=
  match elems with
  | [] => Ok []
  | elem :: elems =>
      match element_rule elem with
      | Err e => Err (i, e)
      | Ok r => rest ← element_rules (i + 1) elems; Ok (r :: rest)
      end
  end.

(** Texts without what the rules are cut at. *)
Definition no_semicolon (s : string) : bool := all_chars (fun c => negb (Ascii.eqb ";" c)) s.
Definition no_comma (s : string) : bool := all_chars (fun c => negb (Ascii.eqb "," c)) s.
Definition rule_word (s : string) : bool := no_space s && no_semicolon s.

Definition element_ok (elem : hvalue) : Prop :=
  match elem with
  | HString s => nonblank (SendPolicy.TrimSpace s) = true /\ no_semicolon s = true
  | HObject obj =>
      (forall s, key_of obj "pgn" = Some (HString s) -> rule_word s = true) /\
      (forall s, key_of obj "name" = Some (HString s) -> rule_word s = true) /\
      (forall vs, key_of obj "name" = Some (HArray vs) -> Forall (fun s => rule_word s && no_comma s = true) (texts vs))
  | _ => True
  end.

Lemma trim_right_idem s : trim_right (trim_right s) = trim_right s.
Proof.
  induction s as [|c s IH]; [done|]. cbn [trim_right]. destruct (trim_right s) as [|d t] eqn:E.
  - destruct (is_space c) eqn:Ec; [done|]. cbn. by rewrite Ec.
  - change (match trim_right (String d t) with EmptyString => if is_space c then EmptyString else String c EmptyString | t' => String c t' end = String c (String d t)).
    by rewrite IH.
Qed.

Lemma TrimSpace_idem s : SendPolicy.TrimSpace (SendPolicy.TrimSpace s) = SendPolicy.TrimSpace s.
Proof.
  destruct (SendPolicy.TrimSpace s) as [|c t] eqn:E; [done|]. pose proof (SendPolicy.TrimSpace_head _ _ _ E) as Hc.
  unfold SendPolicy.TrimSpace in *. cbn [trim_left]. rewrite Hc, <- E. apply trim_right_idem.
Qed.

Lemma ParseSendRule_trim s : ParseSendRule (SendPolicy.TrimSpace s) = ParseSendRule s.
Proof. unfold ParseSendRule. by rewrite TrimSpace_idem. Qed.

Lemma as_strings_texts vs ss : as_strings vs = Ok ss -> ss = texts vs.
Proof.
  revert ss. induction vs as [|v vs IH]; intros ss H; cbn [as_strings] in H; [by injection H as <-|].
  destruct v; try done. cbn [as_string mbind result_bind] in H. destruct (as_strings vs) as [ss'|]; [|done]. cbn [mbind result_bind] in H.
  injection H as <-. cbn. f_equal. by apply IH.
Qed.

(** The tokens of an object, and what they are read as. *)
Lemma tokens_rule allow ws : Forall (fun w => no_space w = true) ws -> Forall (fun w => nonblank w = true) ws ->
  (allow = true -> exists c rest, String.concat " " ws = String c rest /\ c <> "!"%char) ->
  ParseSendRule (String.concat " " (if allow then ws else "!"%string :: ws)) = fold_result parse_token (mkSendRule allow None []) ws.
Proof.
  intros H1 H2 Hhead. unfold ParseSendRule. destruct allow.
  - rewrite TrimSpace_words by done. destruct (Hhead eq_refl) as (c & rest & E & Hc). rewrite E. destruct (Ascii.eqb_spec c "!"); [done|].
    rewrite <- E. by rewrite Fields_words.
  - rewrite TrimSpace_words by (by constructor). destruct ws as [|w ws]; [done|].
    change (String.concat " " ("!" :: w :: ws))%string with (String "!" (String " " (String.concat " " (w :: ws)))).
    lazy beta iota. rewrite Ascii.eqb_refl.
    change (SendPolicy.TrimSpace (String " " (String.concat " " (w :: ws)))) with (SendPolicy.TrimSpace (String.concat " " (w :: ws))).
    by rewrite TrimSpace_words, Fields_words.
Qed.

Lemma parse_pgn_token r s : parse_token r ("pgn:" ++ s) = (m ← parsePGNSpec s; Ok (mkSendRule (Allow r) (Some m) (Names r))).
Proof. reflexivity. Qed.

Lemma parse_name_token r s : parse_token r ("name:" ++ s) = (names ← parseNameList s; Ok (mkSendRule (Allow r) (PGNs r) names)).
Proof. reflexivity. Qed.

Lemma parseNameList_concat ss : Forall (fun s => no_comma s = true) ss -> parseNameList (String.concat "," ss) = read_names ss.
Proof.
  intros H. unfold parseNameList, read_names. destruct ss as [|s ss]; [done|]. unfold Split. by rewrite split_concat by done.
Qed.

Lemma rule_word_parts s : rule_word s = true -> no_space s = true /\ no_semicolon s = true.
Proof. apply andb_prop. Qed.

(** A part of an object: a word the parser takes for one token. *)
Definition rule_token (w : string) : Prop :=
  no_space w = true /\ no_semicolon w = true /\ exists c r, w = String c r /\ c <> "!"%char.

Lemma token_app key s : rule_token key -> no_space s = true -> no_semicolon s = true -> rule_token (key ++ s).
Proof.
  intros (H1 & H2 & c & r & -> & Hc) Hs1 Hs2. unfold rule_token, no_space, no_semicolon in *.
  split; [|split; [|exists c, (r ++ s)%string; done]]; rewrite all_chars_app; by apply andb_true_iff.
Qed.

Lemma pgn_part_rule obj pgn : (forall s, key_of obj "pgn" = Some (HString s) -> rule_word s = true) -> pgn_part obj = Ok pgn ->
  Forall rule_token pgn /\ forall r rest, fold_result parse_token r (pgn ++ rest) =
    (m ← object_pgns obj; fold_result parse_token (mkSendRule (Allow r) (match m with Some _ => m | None => PGNs r end) (Names r)) rest).
Proof.
  unfold pgn_part, object_pgns. intros Hp H. destruct (key_of obj "pgn") as [v|]; [|injection H as <-; split; [constructor|by intros [] rest]].
  destruct v as [s| | | |]; try done. cbn [as_string mbind result_bind] in H. injection H as <-. destruct (rule_word_parts _ (Hp s eq_refl)). split.
  - constructor; [|constructor]. apply token_app; [|done..]. split; [done|]. split; [done|by eexists _, _].
  - intros r rest. cbn [app fold_result]. rewrite parse_pgn_token. by destruct (parsePGNSpec s).
Qed.

Lemma name_part_rule p obj name : (forall s, key_of obj "name" = Some (HString s) -> rule_word s = true) ->
  (forall vs, key_of obj "name" = Some (HArray vs) -> Forall (fun s => rule_word s && no_comma s = true) (texts vs)) ->
  name_part p obj = Ok name ->
  Forall rule_token name /\ forall r, Names r = [] ->
    fold_result parse_token r name = (names ← object_names obj; Ok (mkSendRule (Allow r) (PGNs r) names)).
Proof.
  unfold name_part, object_names. intros Hn Ha H. assert (Hkey : rule_token "name:") by (split; [done|]; split; [done|by eexists _, _]).
  destruct (key_of obj "name") as [v|]; [|injection H as <-; split; [constructor|intros [] E; cbn in *; by rewrite E]].
  destruct v as [s| |vs| |]; try done; cbn [mbind result_bind] in H.
  - injection H as <-. destruct (rule_word_parts _ (Hn s eq_refl)). split; [constructor; [by apply token_app|constructor]|].
    intros r _. cbn [fold_result]. rewrite parse_name_token. by destruct (parseNameList s).
  - destruct (as_strings vs) as [ss|] eqn:Es; [|done]. cbn [mbind result_bind] in H. injection H as <-. apply as_strings_texts in Es as ->.
    specialize (Ha vs eq_refl). split.
    + constructor; [|constructor]. apply token_app; [done|apply concat_clean; [done|]..]; eapply Forall_impl; try exact Ha;
        intros s Hs; apply andb_prop in Hs as [Hs _]; by destruct (rule_word_parts _ Hs).
    + intros r _. cbn [fold_result]. rewrite parse_name_token, parseNameList_concat; [by destruct (read_names (texts vs))|].
      eapply Forall_impl; [exact Ha|]. intros s Hs. by apply andb_prop in Hs as [_ Hs].
Qed.

Lemma deny_part_bang obj deny : deny_part obj = Ok deny -> deny = if denies obj then ["!"%string] else [].
Proof.
  unfold deny_part, denies. destruct (key_of obj "deny") as [v|]; [|by intros [= <-]]. destruct v; try done. cbn. by intros [= <-].
Qed.

(** Words joined by blanks are no blank text and have no semicolon. *)
Lemma tokens_text ws : ws <> [] -> Forall (fun w => no_space w = true) ws -> Forall (fun w => nonblank w = true) ws ->
  Forall (fun w => no_semicolon w = true) ws ->
  nonblank (SendPolicy.TrimSpace (String.concat " " ws)) = true /\ no_semicolon (String.concat " " ws) = true.
Proof.
  intros Hne H1 H2 H3. split; [|by apply concat_clean]. rewrite TrimSpace_words by done. destruct ws as [|w ws]; [done|].
  apply Forall_cons in H2 as [H2 _]. destruct w; [done|]. by destruct ws.
Qed.

Lemma object_rule p obj t : element_ok (HObject obj) -> hoconRuleToDSL p obj = Ok t ->
  ParseSendRule t = element_rule (HObject obj) /\ nonblank (SendPolicy.TrimSpace t) = true /\ no_semicolon t = true.
Proof.
  intros (Hp & Hn & Ha) H. unfold hoconRuleToDSL in H. cbn [element_rule].
  destruct (deny_part obj) as [deny|] eqn:Ed; [|done]. cbn [mbind result_bind] in H.
  destruct (pgn_part obj) as [pgn|] eqn:Ep; [|done]. cbn [mbind result_bind] in H.
  destruct (name_part p obj) as [name|] eqn:En; [|done]. cbn [mbind result_bind] in H.
  apply deny_part_bang in Ed as ->. apply (pgn_part_rule obj pgn Hp) in Ep as [Hpw Hpr]. apply (name_part_rule p obj name Hn Ha) in En as [Hnw Hnr].
  assert (Hw : Forall rule_token (pgn ++ name)) by (by apply Forall_app).
  assert (H1 : Forall (fun w => no_space w = true) (pgn ++ name)) by (eapply Forall_impl; [exact Hw|]; by intros w (? & _)).
  assert (H2 : Forall (fun w => nonblank w = true) (pgn ++ name)) by (eapply Forall_impl; [exact Hw|]; by intros w (_ & _ & ? & ? & -> & _)).
  assert (H3 : Forall (fun w => no_semicolon w = true) (pgn ++ name)) by (eapply Forall_impl; [exact Hw|]; by intros w (_ & ? & _)).
  assert (Et : t = String.concat " " (if negb (denies obj) then pgn ++ name else "!"%string :: pgn ++ name) /\ (denies obj = false -> pgn ++ name <> [])).
  { destruct (denies obj); cbn [app] in H; [by injection H as <-|]. cbn [negb]. destruct (pgn ++ name); [done|by injection H as <-]. }
  destruct Et as [-> Hne]. split.
  - rewrite tokens_rule; [|done|done|].
    + rewrite Hpr. destruct (object_pgns obj) as [m|]; [|done]. cbn [mbind result_bind]. rewrite Hnr by done. cbn [Allow PGNs Names].
      destruct (object_names obj); [|done]. by destruct m.
    + intros Hd. apply negb_true_iff in Hd. specialize (Hne Hd). destruct (pgn ++ name) as [|w ws]; [done|].
      apply Forall_cons in Hw as [(_ & _ & c & r & -> & Hc) _]. exists c. destruct ws; by eexists.
  - destruct (denies obj); cbn [negb]; apply tokens_text; try (by constructor); try done. by apply Hne.
Qed.

Lemma element_text i elem t : element_ok elem ->
  match elem with HString s => Ok s | HObject obj => hoconRuleToDSL (index_path "send.rules" i) obj | _ => cerr (NotStringOrObject (index_path "send.rules" i)) end = Ok t ->
  ParseSendRule t = element_rule elem /\ nonblank (SendPolicy.TrimSpace t) = true /\ no_semicolon t = true.
Proof. intros Hok H. destruct elem; try done; [by injection H as <-|]. by apply (object_rule (index_path "send.rules" i)). Qed.

Lemma rule_texts_rules elems : forall i n parts, Forall element_ok elems -> rule_texts i elems = Ok parts ->
  parse_rules_from n (map SendPolicy.TrimSpace parts) = element_rules n elems /\
  Forall (fun t => nonblank (SendPolicy.TrimSpace t) = true /\ no_semicolon t = true) parts.
Proof.
  induction elems as [|elem elems IH]; intros i n parts Hok H; cbn [rule_texts] in H; [by injection H as <-|].
  apply Forall_cons in Hok as [He Hok]. destruct (match elem with HString _ => _ | _ => _ end) as [t|] eqn:Et; [|done]. cbn [mbind result_bind] in H.
  destruct (rule_texts (S i) elems) as [ts|] eqn:Ets; [|done]. cbn [mbind result_bind] in H. injection H as <-.
  destruct (element_text i elem t He Et) as (E & Hb & Hs). destruct (IH (S i) (n + 1) ts Hok Ets) as [IH1 IH2]. split; [|by constructor].
  cbn [map parse_rules_from element_rules]. rewrite ParseSendRule_trim, E, IH1. done.
Qed.

Lemma split_rules_texts parts : parts <> [] -> Forall (fun t => nonblank (SendPolicy.TrimSpace t) = true /\ no_semicolon t = true) parts ->
  split_rules (String.concat ";" parts) = map SendPolicy.TrimSpace parts.
Proof.
  intros Hne H. unfold split_rules, Split. rewrite split_concat; [|done|done|by eapply Forall_impl; [exact H|]; intros t [_ ?]].
  apply filter_all. apply Forall_map. eapply Forall_impl; [exact H|]. by intros t [? _].
Qed.

(** C17: Rules written as objects mean what they say, when nothing in them is
    syntax of the rule language. The file's rules, strings and objects, are turned
    into texts of the rule language, joined with semicolons into one flag, cut apart
    and parsed again. Suppose every string rule is not blank and has no semicolon,
    the strings of an object's pgn and name have no blanks and no semicolons, and
    those of a list of names no commas either ([element_ok]; other texts would be
    cut into other rules), and the elements are of shapes the server turns into
    texts (otherwise it refuses the file). Then the policy that comes out has one
    rule for each element, in order: a string's own rule, and for an object the rule
    that denies if it says so, with the PGNs and the destinations it lists. An
    element that is refused is refused with the number and the error of its own
    text. *)
Theorem rule_elements_mean enabled elems parts : Forall element_ok elems -> rule_texts 0 elems = Ok parts ->
  parseSendPolicy enabled (String.concat ";" parts) = (rules ← element_rules 1 elems; Ok (mkSendPolicy enabled rules)).
Proof.
  intros Hok H. destruct (rule_texts_rules elems 0 1 parts Hok H) as [E Hp]. unfold parseSendPolicy.
  destruct parts as [|t ts]; [destruct elems as [|elem elems]; [done|]|].
  - cbn [rule_texts] in H. destruct (match elem with HString _ => _ | _ => _ end); [|done]. cbn [mbind result_bind] in H. by destruct (rule_texts 1 elems).
  - rewrite split_rules_texts by done. unfold ParseSendRules. rewrite E.
    apply Forall_cons in Hp as [[Hb _] _]. destruct t as [|c t]; [done|]. by destruct ts.
Qed.

(** * A file *)

Lemma Ok_of {E A} (r : result E A) (d : A) : is_ok r = true -> r = Ok (match r with Ok a => a | Err _ => d end).
Proof. by destruct r. Qed.

#[export] Instance demo_text : HoconText := fun v =>
  match v with HString s => s | HBoolean true => "true"%string | HBoolean false => "false"%string | _ => EmptyString end.

Definition demo_rules : list hvalue :=
  [HString "!pgn:65280-65535"; HString "pgn:59904";
   HObject [("deny", HBoolean true); ("pgn", HString "126208"); ("name", HString "001c6e4000200000")]%string;
   HObject [("pgn", HString "129025-129029"); ("name", HArray [HString "001c6e4000200000"; HString "001c6e4000200001"])]%string].

Definition demo_slot : hobject :=
  [("id", HString "chart-plotter"); ("buffer-timeout", HString "PT5M"); ("filter", HObject [("pgn", HArray [HString "129025"; HString "129026"])])]%string.

Definition demo_request : hobject :=
  [("name", HString "product info"); ("match", HObject [("device-class", HString "0x19")]); ("want", HString "126996"); ("min-interval", HString "30s");
   ("max-age", HString "1h"); ("on-online", HBoolean true)]%string.

Definition demo_config : hocon := mkHocon
  (fun path => if String.eqb path "ring-size" then "1024" else if String.eqb path "journal.dir" then "/var/log/lplex"
               else if String.eqb path "read-only" then "true" else "")%string
  (fun path => if String.eqb path "send.rules" then demo_rules else if String.eqb path "clients.slots" then [HObject demo_slot]
               else if String.eqb path "requests" then [HObject demo_request] else []).

Definition demo_explicit : gset string := {["ring-size"%string]}.

Definition demo_applied : flags * configResult :=
  match applyConfig demo_explicit configToFlag demo_config declared_flags with Ok r => r | Err _ => (declared_flags, mkConfigResult [] [] 0) end.

Lemma config_precedence_witness :
  (demo_applied.1 !! "ring-size"%string, demo_applied.1 !! "journal-dir"%string, demo_applied.1 !! "read-only"%string) =
    (Some (FInt 65536), Some (FString "/var/log/lplex"), Some (FBool true)) /\
  (forall name, name <> "send-rules"%string -> demo_applied.1 !! name = configured demo_explicit demo_config declared_flags name) /\
  ("send-rules"%string ∈ demo_explicit -> demo_applied.1 !! "send-rules"%string = declared_flags !! "send-rules"%string) /\
  Forall (settable demo_explicit demo_config declared_flags) configToFlag /\
  forall order', order' ≡ₚ configToFlag ->
    applyConfig demo_explicit order' demo_config declared_flags = Ok (demo_applied.1, demo_applied.2).
Proof.
  split; [vm_compute; reflexivity|].
  apply (config_precedence demo_explicit configToFlag demo_config declared_flags demo_applied.1 demo_applied.2); [reflexivity|].
  rewrite <- surjective_pairing. apply Ok_of. vm_compute. reflexivity.
Defined.

Example demo_result :
  map (fun r => (r_Name r, map w_PGN (r_Wants r), MinInterval r, m_DeviceClass (r_Match r))) (cr_RequestRules demo_applied.2) =
    [("product info"%string, [126996], 30 * second, Some 25)] /\
  map sl_ID (cr_Slots demo_applied.2) = ["chart-plotter"%string].
Proof. vm_compute. split; reflexivity. Qed.

Lemma rule_elements_mean_witness :
  rule_texts 0 demo_rules = Ok ["!pgn:65280-65535"; "pgn:59904"; "! pgn:126208 name:001c6e4000200000";
                                "pgn:129025-129029 name:001c6e4000200000,001c6e4000200001"]%string /\
  parseSendPolicy true "!pgn:65280-65535;pgn:59904;! pgn:126208 name:001c6e4000200000;pgn:129025-129029 name:001c6e4000200000,001c6e4000200001" =
    (rules ← element_rules 1 demo_rules; Ok (mkSendPolicy true rules)).
Proof.
  split; [vm_compute; reflexivity|].
  apply (rule_elements_mean true demo_rules ["!pgn:65280-65535"; "pgn:59904"; "! pgn:126208 name:001c6e4000200000";
    "pgn:129025-129029 name:001c6e4000200000,001c6e4000200001"]%string); [|vm_compute; reflexivity].
  repeat (apply Forall_cons; split; [|]); [split; reflexivity|split; reflexivity| | |apply Forall_nil_2];
    (split; [|split]; cbn; intros ? [= <-]; try reflexivity; repeat (apply Forall_cons; split; [reflexivity|]); apply Forall_nil_2).
Defined.

(** A type assertion on a value of another kind panics: a number for an identifier. *)
Lemma slot_number_panics : parseHOCNSlot [("id"%string, HOther 7)] 0 = Err CPanic.
Proof. reflexivity. Qed.

(** A number that cannot be read is taken for zero. *)
Lemma subkey_number_ignored : intOr [("subkey-write-len"%string, HString "two")] "subkey-write-len" 0 = 0.
Proof. vm_compute. reflexivity. Qed.
