(* ===== verification/Startup.v ===== *)
(** From configuration to running parts: [cmd/lplex-server/main.go] and
    [cmd/lplex-server/validate.go].

    [main] reads its flags once and either exits or has built the broker, the HTTP
    server, the journal with its keeper, the buses and the monitors.  Tracing,
    mDNS, MQTT and listening on sockets are left out.  [reloadConfig] is what a
    SIGHUP does to the HTTP server. *)

From S2P Require Import Prelude GoNum GoLiteral GoTime FilterLang Devices Filters RequestRules SendPolicy VirtualDevice Ring Broker JournalFormat JournalWriter Keeper ReplServer ReplClient Monitor Server Slots Config.
From Stdlib Require Import Ascii.

(** * Flags *)

Definition str (fs : flags) (name : string) : string := match fs !! name with Some (FString s) => s | _ => EmptyString end.
Definition int (fs : flags) (name : string) : Z := match fs !! name with Some (FInt z | FInt64 z) => z | _ => 0 end.
Definition bool_flag (fs : flags) (name : string) : bool := match fs !! name with Some (FBool b) => b | _ => false end.
Definition float_flag (fs : flags) (name : string) : float64 :=
  match fs !! name with Some (FFloat64 x) => x | _ => float_of_Z 0 end.

Definition compression_of (s : string) : option Z :=
  if String.eqb s "none" then Some CompressionNone
  else if String.eqb s "zstd" then Some CompressionZstd
  else if String.eqb s "zstd-dict" then Some CompressionZstdDict
  else None.

(** * Validation *)

Inductive verdict := NotSet | Valid | Failed | Warned.

#[export] Instance verdict_eq_dec : EqDecision verdict.
Proof. solve_decision. Defined.

(** A line of the report. *)
Definition report : Type := list (string * verdict).

Definition check_setting (name value : string) (valid : bool) : string * verdict :=
  (name, if negb (nonblank value) then NotSet else if valid then Valid else Failed).

(** A check of a number, whose text is never empty. *)
Definition check_number (name : string) (valid : bool) : string * verdict := (name, if valid then Valid else Failed).

Definition power_of_2 (n : Z) : bool := Z.land n (n - 1) =? 0.

Definition iso_check (fs : flags) (name : string) : string * verdict := check_setting name (str fs name) (is_ok (ParseISO8601Duration (str fs name))).
Definition go_check (fs : flags) (name : string) : string * verdict := check_setting name (str fs name) (is_ok (ParseDuration (str fs name))).

Definition checks (fs : flags) : report :=
  [iso_check fs "max-buffer-duration"; go_check fs "device-idle-timeout"; iso_check fs "journal-rotate-duration";
   iso_check fs "journal-retention-max-age"; iso_check fs "journal-retention-min-keep"; iso_check fs "bus-silence-timeout";
   iso_check fs "bus-silence-threshold"; go_check fs "alert-dedup-window"; go_check fs "virtual-device-claim-heartbeat";
   go_check fs "virtual-device-product-info-heartbeat"; go_check fs "replication-min-lag-reconnect-interval";
   check_number "ring-size" ((0 <? int fs "ring-size") && power_of_2 (int fs "ring-size"));
   check_number "journal-block-size" ((4096 <=? int fs "journal-block-size") && power_of_2 (int fs "journal-block-size"));
   check_number "journal-retention-soft-pct" ((1 <=? int fs "journal-retention-soft-pct") && (int fs "journal-retention-soft-pct" <=? 99));
   check_setting "journal-compression" (str fs "journal-compression") (bool_decide (is_Some (compression_of (str fs "journal-compression"))));
   check_setting "journal-retention-overflow-policy" (str fs "journal-retention-overflow-policy")
     (bool_decide (is_Some (ParseOverflowPolicy (str fs "journal-retention-overflow-policy"))));
   check_setting "journal-archive-trigger" (str fs "journal-archive-trigger")
     (bool_decide (is_Some (ParseArchiveTrigger (str fs "journal-archive-trigger"))))].

Definition rule_checks (fs : flags) : report :=
  if nonblank (str fs "send-rules")
  then [check_setting "send-rules" (str fs "send-rules") (is_ok (ParseSendRules (split_rules (str fs "send-rules"))))] else [].

Definition device_checks (fs : flags) : report :=
  if bool_flag fs "virtual-device" then
    if nonblank (str fs "virtual-device-name")
    then [check_setting "virtual-device-name" (str fs "virtual-device-name") (is_ok (ParseUint (str fs "virtual-device-name") 16 64))]
    else [("virtual-device-name"%string, Failed)]
  else [].

Definition warnings (fs : flags) : report :=
  (if (0 <? int fs "journal-retention-max-size") && negb (nonblank (str fs "journal-retention-max-age")) then [("retention policy"%string, Warned)] else []) ++
  (if nonblank (str fs "journal-archive-command") && negb (nonblank (str fs "journal-archive-trigger")) then [("archive config"%string, Warned)] else []).

(** The report and the exit code. *)
Definition runValidateConfig (fs : flags) : report * Z :=
  let lines := checks fs ++ rule_checks fs ++ device_checks fs ++ warnings fs in
  (lines, if existsb (fun l => bool_decide (l.2 = Failed)) lines then 1 else 0).

(** * Starting *)

Inductive startup_error := Invalid (flag : string) | JournalInit | StartPanic.

Abbreviation started := (result startup_error).

Definition iso_flag (fs : flags) (name : string) : started duration :=
  match ParseISO8601Duration (str fs name) with Ok d => Ok d | Err _ => Err (Invalid name) end.

(** A duration that may be left empty, which is [0]. *)
Definition iso_optional (fs : flags) (name : string) : started duration :=
  if nonblank (str fs name) then iso_flag fs name else Ok 0.

Definition go_flag (fs : flags) (name : string) : started duration :=
  match ParseDuration (str fs name) with Ok d => Ok d | Err _ => Err (Invalid name) end.

Definition buildKeeperConfig (fs : flags) : started (option KeeperConfig) :=
  maxAge ← iso_optional fs "journal-retention-max-age";
  minKeep ← iso_optional fs "journal-retention-min-keep";
  match ParseArchiveTrigger (str fs "journal-archive-trigger") with
  | None => Err (Invalid "journal-archive-trigger")
  | Some trigger =>
      match ParseOverflowPolicy (str fs "journal-retention-overflow-policy") with
      | None => Err (Invalid "journal-retention-overflow-policy")
      | Some policy =>
          let maxSize := int fs "journal-retention-max-size" in
          let cmd := str fs "journal-archive-command" in
          if (maxAge =? 0) && (maxSize =? 0) && negb (nonblank cmd) then Ok None
          else Ok (Some (mkKeeperConfig maxAge minKeep maxSize (int fs "journal-retention-soft-pct") policy cmd trigger))
      end
  end.

(** The journal, with its keeper. *)
Definition setup_journal (fs : flags) : started (option (JournalConfig * JournalWriter * option KeeperConfig)) :=
  if negb (nonblank (str fs "journal-dir")) then Ok None
  else
    rotateDur ← iso_optional fs "journal-rotate-duration";
    match compression_of (str fs "journal-compression") with
    | None => Err (Invalid "journal-compression")
    | Some compression =>
        keeper ← buildKeeperConfig fs;
        match NewJournalWriter (mkJournalConfig (int fs "journal-block-size") compression rotateDur (int fs "journal-rotate-size") 0) with
        | None => Err JournalInit
        | Some (cfg, jw) => Ok (Some (cfg, jw, keeper))
        end
    end.

Definition virtual_devices (host version : string) (fs : flags) : started (list VirtualDeviceConfig) :=
  if negb (bool_flag fs "virtual-device") then Ok []
  else match ParseUint (str fs "virtual-device-name") 16 64 with
       | Err _ => Err (Invalid "virtual-device-name")
       | Ok name => Ok [mkVirtualDeviceConfig name (mkVirtualProductInfo (str fs "virtual-device-model-id") version "" host 0)]
       end.

(** [0] is mapped to the broker's value for never. *)
Definition broker_config (host version : string) (fs : flags) (rules : list Rule) (globalMin : duration) : started BrokerConfig :=
  bufDuration ← iso_flag fs "max-buffer-duration";
  idle ← go_flag fs "device-idle-timeout";
  vds ← virtual_devices host version fs;
  claim ← go_flag fs "virtual-device-claim-heartbeat";
  product ← go_flag fs "virtual-device-product-info-heartbeat";
  Ok (mkBrokerConfig (int fs "ring-size") bufDuration false 0 (if idle =? 0 then -1 else idle) vds claim product rules globalMin).

Definition setup_server (fs : flags) : started Server :=
  match parseSendPolicy (bool_flag fs "send-enabled") (str fs "send-rules") with
  | Err _ => Err (Invalid "send-rules")
  | Ok policy =>
      let srv := NewServer policy in
      let srv := if bool_flag fs "read-only" then SetReadOnly true srv else srv in
      let srv := if nonblank (str fs "api-key") then SetAPIKey (str fs "api-key") srv else srv in
      Ok (if compare_floats (float_flag fs "send-rate-limit") opGt (float_of_Z 0)
          then SetSendRateLimit (float_flag fs "send-rate-limit") (int fs "send-rate-burst") srv else srv)
  end.

Definition interfaces (fs : flags) : list string :=
  if nonblank (str fs "interfaces") then List.filter nonblank (map SendPolicy.TrimSpace (Split (str fs "interfaces") ","))
  else [str fs "interface"].

(** Without a bus, the router's default is [buses[0]]. *)
Definition setup_buses (fs : flags) : started (list string) :=
  match interfaces fs with [] => Err StartPanic | names => Ok names end.

Definition setup_replication (fs : flags) : started (option ReplicationClientConfig) :=
  if nonblank (str fs "replication-target") && nonblank (str fs "replication-instance-id") then
    minLag ← go_flag fs "replication-min-lag-reconnect-interval";
    Ok (Some (mkReplConfig (u64 (int fs "replication-max-live-lag")) (int fs "replication-lag-check-interval") minLag))
  else Ok None.

(** What [main] has built when it serves. *)
Record Setup := mkSetup {
  su_broker : Broker;
  su_server : Server;
  su_journal : option (JournalConfig * JournalWriter * option KeeperConfig);
  su_buses : list string;
  su_alerts : option AlertManager;
  su_silence : option BusSilenceMonitor;
  su_replication : option ReplicationClientConfig;
  su_threshold : duration
}.

Definition start_server (host version : string) (now : nat -> time) (fs : flags) (r : option configResult) : started Setup :=
  cfg ← broker_config host version fs (match r with Some r => cr_RequestRules r | None => [] end)
          (match r with Some r => cr_RequestGlobalMinInterval r | None => 0 end);
  match NewBroker cfg with
  | None => Err StartPanic
  | Some b =>
      srv ← setup_server fs;
      journal ← setup_journal fs;
      let b := match r with Some r => ApplySlots now (cr_Slots r) b | None => b end in
      buses ← setup_buses fs;
      dedup ← go_flag fs "alert-dedup-window";
      silence ← iso_optional fs "bus-silence-timeout";
      replication ← setup_replication fs;
      threshold ← iso_optional fs "bus-silence-threshold";
      Ok (mkSetup b srv journal buses (NewAlertManager (str fs "alert-webhook-url") dedup (str fs "replication-instance-id"))
            (if nonblank (str fs "bus-silence-timeout") then Some (NewBusSilenceMonitor silence) else None) replication threshold)
  end.

(** * Reloading *)

Definition reload_rate (cfg : hocon) (srv : Server) : Server :=
  if nonblank (GetString cfg "send.rate-limit") then
    match ParseFloat64 (GetString cfg "send.rate-limit") with
    | Ok rl =>
        if compare_floats rl opGt (float_of_Z 0) then
          let burst := if nonblank (GetString cfg "send.rate-burst")
                       then match ParseInt (GetString cfg "send.rate-burst") with Ok b => b | Err _ => 10 end else 10 in
          SetSendRateLimit rl burst srv
        else srv
    | Err _ => srv
    end
  else srv.

(** Only the rules written as strings are read. *)
Definition reload_rules (cfg : hocon) : string :=
  match GetArray cfg "send.rules" with [] => EmptyString | elems => String.concat ";" (texts elems) end.

Definition reloadConfig (cfgPath : string) (parsed : option hocon) (srv : Server) : Server :=
  if negb (nonblank cfgPath) then srv
  else match parsed with
       | None => srv
       | Some cfg =>
           let srv := match parseSendPolicy (String.eqb (GetString cfg "send.enabled") "true") (reload_rules cfg) with
                      | Ok policy => SetSendPolicy policy srv
                      | Err _ => srv
                      end in
           let srv := if nonblank (GetString cfg "api-key") then SetAPIKey (GetString cfg "api-key") srv else srv in
           let srv := SetReadOnly (String.eqb (GetString cfg "read-only") "true") srv in
           reload_rate cfg srv
       end.

(** * A valid configuration starts *)

(** The settings that may not be empty, which validation takes for not set. *)
Definition required (fs : flags) : Prop :=
  Forall (fun name => nonblank (str fs name) = true)
    ["max-buffer-duration"; "device-idle-timeout"; "virtual-device-claim-heartbeat"; "virtual-device-product-info-heartbeat"; "alert-dedup-window"]%string /\
  (nonblank (str fs "journal-dir") = true -> nonblank (str fs "journal-compression") = true) /\
  (nonblank (str fs "replication-target") = true -> nonblank (str fs "replication-min-lag-reconnect-interval") = true).

Lemma no_failure fs lines : runValidateConfig fs = (lines, 0) ->
  Forall (fun l => l.2 <> Failed) (checks fs) /\ Forall (fun l => l.2 <> Failed) (rule_checks fs) /\ Forall (fun l => l.2 <> Failed) (device_checks fs).
Proof.
  unfold runValidateConfig. intros H. destruct (existsb _ _) eqn:E; [done|].
  assert (Hall : Forall (fun l => l.2 <> Failed) (checks fs ++ rule_checks fs ++ device_checks fs ++ warnings fs)).
  { apply Forall_forall. intros l Hl Hf. apply not_true_iff_false in E. apply E, existsb_exists. exists l. split; [by apply list_elem_of_In|by apply bool_decide_eq_true]. }
  apply Forall_app in Hall as [H1 Hall]. apply Forall_app in Hall as [H2 Hall]. by apply Forall_app in Hall as [H3 _].
Qed.

Lemma check_passed name value valid : (check_setting name value valid).2 <> Failed -> nonblank value = true -> valid = true.
Proof. unfold check_setting. cbn. intros H Hv. rewrite Hv in H. by destruct valid. Qed.

Lemma check_number_passed name valid : (check_number name valid).2 <> Failed -> valid = true.
Proof. unfold check_number. cbn. by destruct valid. Qed.

Lemma iso_passed fs name : (iso_check fs name).2 <> Failed -> nonblank (str fs name) = true -> exists d, iso_flag fs name = Ok d.
Proof.
  unfold iso_check, iso_flag. intros H Hv. apply (check_passed _ _ _ H) in Hv. destruct (ParseISO8601Duration (str fs name)); [by eexists|done].
Qed.

Lemma iso_optional_passed fs name : (iso_check fs name).2 <> Failed -> exists d, iso_optional fs name = Ok d.
Proof. unfold iso_optional. intros H. destruct (nonblank (str fs name)) eqn:E; [by apply iso_passed|by eexists]. Qed.

Lemma go_passed fs name : (go_check fs name).2 <> Failed -> nonblank (str fs name) = true -> exists d, go_flag fs name = Ok d.
Proof. unfold go_check, go_flag. intros H Hv. apply (check_passed _ _ _ H) in Hv. destruct (ParseDuration (str fs name)); [by eexists|done]. Qed.

Lemma NewBroker_starts c : 0 < RingSize c -> power_of_2 (RingSize c) = true -> exists b, NewBroker c = Some b.
Proof.
  unfold NewBroker, new_ring, power_of_2. intros H1 H2. rewrite (proj2 (Z.eqb_neq (RingSize c) 0)) by lia. rewrite H2. cbn [negb mbind option_bind]. by eexists.
Qed.

(** The checks of a part make the part. *)
Lemma broker_config_starts host version fs rules gm : Forall (fun l => l.2 <> Failed) (checks fs) -> Forall (fun l => l.2 <> Failed) (device_checks fs) ->
  required fs -> exists cfg, broker_config host version fs rules gm = Ok cfg /\ RingSize cfg = int fs "ring-size".
Proof.
  intros Hc Hd (Hreq & _ & _). unfold checks in Hc. rewrite !Forall_cons in Hc. rewrite !Forall_cons in Hreq.
  destruct Hc as (C1 & C2 & _ & _ & _ & _ & _ & _ & C9 & C10 & _). destruct Hreq as (R1 & R2 & R3 & R4 & _).
  unfold broker_config. destruct (iso_passed _ _ C1 R1) as [d1 ->], (go_passed _ _ C2 R2) as [d2 ->]. cbn [mbind result_bind].
  assert (exists vds, virtual_devices host version fs = Ok vds) as [vds ->].
  { unfold virtual_devices, device_checks in *. destruct (bool_flag fs "virtual-device"); cbn [negb]; [|by eexists].
    destruct (nonblank (str fs "virtual-device-name")) eqn:E; [|by apply Forall_cons in Hd as [Hd _]].
    apply Forall_cons in Hd as [Hd _]. apply (check_passed _ _ _ Hd) in E. destruct (ParseUint _ 16 64); [by eexists|done]. }
  cbn [mbind result_bind]. destruct (go_passed _ _ C9 R3) as [d3 ->], (go_passed _ _ C10 R4) as [d4 ->]. cbn [mbind result_bind].
  by eexists.
Qed.

Lemma server_starts fs : Forall (fun l => l.2 <> Failed) (rule_checks fs) -> exists srv, setup_server fs = Ok srv.
Proof.
  unfold rule_checks, setup_server, parseSendPolicy. destruct (nonblank (str fs "send-rules")) eqn:E; [|by eexists]. intros [H _]%Forall_cons.
  apply (check_passed _ _ _ H) in E. destruct (ParseSendRules _); [by eexists|done].
Qed.

Lemma journal_starts fs : Forall (fun l => l.2 <> Failed) (checks fs) -> required fs -> exists j, setup_journal fs = Ok j.
Proof.
  intros Hc (_ & Hj & _). unfold checks in Hc. rewrite !Forall_cons in Hc.
  destruct Hc as (_ & _ & C3 & C4 & C5 & _ & _ & _ & _ & _ & _ & _ & C13 & _ & C15 & C16 & C17 & _).
  unfold setup_journal. destruct (nonblank (str fs "journal-dir")); cbn [negb]; [|by eexists]. specialize (Hj eq_refl).
  destruct (iso_optional_passed _ _ C3) as [d ->]. cbn [mbind result_bind]. apply check_passed, bool_decide_eq_true in C15 as [comp ->]; [|done].
  assert (exists k, buildKeeperConfig fs = Ok k) as [k ->].
  { unfold buildKeeperConfig. destruct (iso_optional_passed _ _ C4) as [d1 ->], (iso_optional_passed _ _ C5) as [d2 ->]. cbn [mbind result_bind].
    assert (is_Some (ParseArchiveTrigger (str fs "journal-archive-trigger"))) as [t ->].
    { destruct (nonblank (str fs "journal-archive-trigger")) eqn:E; [by apply (check_passed _ _ _ C17), bool_decide_eq_true in E|].
      unfold nonblank in E. apply negb_false_iff, bool_decide_eq_true in E. rewrite E. by eexists. }
    assert (is_Some (ParseOverflowPolicy (str fs "journal-retention-overflow-policy"))) as [p ->].
    { destruct (nonblank (str fs "journal-retention-overflow-policy")) eqn:E; [by apply (check_passed _ _ _ C16), bool_decide_eq_true in E|].
      unfold nonblank in E. apply negb_false_iff, bool_decide_eq_true in E. rewrite E. by eexists. }
    match goal with |- exists _, (if ?b then _ else _) = _ => destruct b end; by eexists. }
  cbn [mbind result_bind]. apply check_number_passed, andb_prop in C13 as [Hb1 Hb2]. apply Z.leb_le in Hb1.
  unfold NewJournalWriter, setDefaults, validate. cbn [JournalWriter.BlockSize].
  rewrite (proj2 (Z.eqb_neq (int fs "journal-block-size") 0)), (proj2 (Z.ltb_ge _ 4096)) by lia. unfold power_of_2 in Hb2. rewrite Hb2. by eexists.
Qed.

(** C18: a configuration that validation accepts starts.  When [-validate-config]
    exits with 0, the settings that may not be empty are not, and there is an
    interface, then [main] parses every setting, builds every part and serves; no
    later check refuses what validation let through, and the ring and the journal
    accept their sizes. *)
Theorem validated_config_starts host version now fs r lines :
  runValidateConfig fs = (lines, 0) -> required fs -> interfaces fs <> [] ->
  exists setup, start_server host version now fs r = Ok setup.
Proof.
  intros Hv Hreq Hif. destruct (no_failure fs lines Hv) as (Hc & Hr & Hd). pose proof Hc as Hc'. unfold checks in Hc'. rewrite !Forall_cons in Hc'.
  destruct Hc' as (_ & _ & _ & _ & _ & C6 & C7 & C8 & _ & _ & C11 & C12 & _). unfold start_server.
  destruct (broker_config_starts host version fs (match r with Some r => cr_RequestRules r | None => [] end)
    (match r with Some r => cr_RequestGlobalMinInterval r | None => 0 end) Hc Hd Hreq) as (cfg & -> & Hring).
  cbn [mbind result_bind]. apply check_number_passed, andb_prop in C12 as [Hr1 Hr2]. apply Z.ltb_lt in Hr1.
  destruct (NewBroker_starts cfg) as [b ->]; [by rewrite Hring..|].
  destruct (server_starts fs Hr) as [srv ->]. cbn [mbind result_bind]. destruct (journal_starts fs Hc Hreq) as [j ->]. cbn [mbind result_bind].
  assert (exists buses, setup_buses fs = Ok buses) as [buses ->] by (unfold setup_buses; destruct (interfaces fs); [done|by eexists]).
  destruct Hreq as (Hreq & _ & Hrep). rewrite !Forall_cons in Hreq. destruct Hreq as (_ & _ & _ & _ & R5 & _). cbn [mbind result_bind].
  destruct (go_passed _ _ C8 R5) as [d ->]. cbn [mbind result_bind]. destruct (iso_optional_passed _ _ C6) as [d1 ->]. cbn [mbind result_bind].
  assert (exists rc, setup_replication fs = Ok rc) as [rc ->].
  { unfold setup_replication. destruct (nonblank (str fs "replication-target")) eqn:E; [|by eexists]. cbn [andb].
    destruct (nonblank (str fs "replication-instance-id")); [|by eexists]. destruct (go_passed _ _ C11 (Hrep eq_refl)) as [d2 ->]. by eexists. }
  cbn [mbind result_bind]. destruct (iso_optional_passed _ _ C7) as [d3 ->]. cbn [mbind result_bind]. by eexists.
Qed.

(** * Reloading is restarting *)

Definition reload_flags : list string := ["send-enabled"; "send-rules"; "api-key"; "read-only"; "send-rate-limit"; "send-rate-burst"]%string.

(** A flag the file may set: from its key when that has a text, else the default. *)
Lemma configured_flag explicit cfg fs name key d : key_for name = Some key -> name ∉ explicit -> fs !! name = Some d ->
  configured explicit cfg fs name = if nonblank (GetString cfg key) then parse_flag d (GetString cfg key) else Some d.
Proof. unfold configured. intros -> Hn ->. rewrite bool_decide_false by done. by destruct (nonblank (GetString cfg key)). Qed.

Lemma reload_defaults :
  (declared_flags !! "send-enabled" = Some (FBool false) /\ declared_flags !! "send-rules" = Some (FString "") /\
   declared_flags !! "api-key" = Some (FString "") /\ declared_flags !! "read-only" = Some (FBool false) /\
   declared_flags !! "send-rate-limit" = Some (FFloat64 (float_of_Z 0)) /\ declared_flags !! "send-rate-burst" = Some (FInt 10))%string.
Proof. vm_compute. repeat split; reflexivity. Qed.

(** The words the reload knows. *)
Definition plain_bool (s : string) : Prop := s = EmptyString \/ s = "true"%string \/ s = "false"%string.

Definition all_texts (elems : list hvalue) : Prop := Forall (fun v => exists s, v = HString s) elems.

Lemma rule_texts_all elems : forall i parts, all_texts elems -> rule_texts i elems = Ok parts -> parts = texts elems.
Proof.
  induction elems as [|elem elems IH]; intros i parts Ha H; cbn [rule_texts] in H; [by injection H as <-|].
  apply Forall_cons in Ha as [[s ->] Ha]. cbn [mbind result_bind] in H. destruct (rule_texts (S i) elems) as [ss|] eqn:E; [|done].
  cbn [mbind result_bind] in H. injection H as <-. cbn. f_equal. by apply (IH (S i)).
Qed.

(** The rules flag after a file of strings was applied. *)
Lemma apply_rules_texts explicit cfg fs fs' : apply_rules explicit cfg fs = Ok fs' -> "send-rules"%string ∉ explicit ->
  fs !! "send-rules"%string = Some (FString "") -> all_texts (GetArray cfg "send.rules") -> str fs' "send-rules" = reload_rules cfg.
Proof.
  unfold apply_rules, reload_rules. intros H Hn Hd Ha. rewrite bool_decide_false in H by done.
  destruct (GetArray cfg "send.rules") as [|elem elems]; [injection H as <-; unfold str; by rewrite Hd|].
  destruct (rule_texts 0 (elem :: elems)) as [parts|] eqn:E; [|done]. cbn [mbind result_bind] in H. apply rule_texts_all in E as ->; [|done].
  unfold flag_Set in H. rewrite Hd in H. cbn [mbind option_bind parse_flag] in H. injection H as <-. unfold str. by rewrite lookup_insert_eq.
Qed.

Lemma bool_of_text fs name text : fs !! name = (if nonblank text then parse_flag (FBool false) text else Some (FBool false)) ->
  plain_bool text -> bool_flag fs name = String.eqb text "true".
Proof. unfold bool_flag. by intros -> [->|[->| ->]]. Qed.

Lemma Ok_inj {E A} (a b : A) : @Ok E A a = Ok b -> a = b.
Proof. by intros [= ->]. Qed.

Lemma SetSendRateLimit_sets rps burst s : compare_floats rps opGt (float_of_Z 0) = true ->
  SetSendRateLimit rps burst s = mkServer (sv_policy s) (sv_apiKey s) (Some (rps, burst)) (sv_readOnly s).
Proof. unfold SetSendRateLimit. by intros ->. Qed.

(** The server's parts that a reload sets. *)
Record same_gate (cfg : hocon) (before after started : Server) : Prop := {
  sg_policy : sv_policy after = sv_policy started;
  sg_readOnly : sv_readOnly after = sv_readOnly started;
  sg_apiKey : sv_apiKey after = if nonblank (GetString cfg "api-key") then sv_apiKey started else sv_apiKey before;
  sg_limiter : sv_limiter after = match sv_limiter started with Some l => Some l | None => sv_limiter before end
}.

Lemma applyConfig_flags `{HoconText} explicit order cfg fs fs' r : order ≡ₚ configToFlag -> applyConfig explicit order cfg fs = Ok (fs', r) ->
  exists fs1, apply_flags explicit cfg order fs = Ok fs1 /\ apply_rules explicit cfg fs1 = Ok fs'.
Proof.
  unfold applyConfig. intros Hp Happ. destruct (apply_flags explicit cfg order fs) as [fs1|]; [|done]. cbn [mbind result_bind] in Happ.
  destruct (apply_rules explicit cfg fs1) as [fs2|] eqn:E2; [|done]. cbn [mbind result_bind] in Happ. exists fs1. split; [done|].
  destruct (objects parseHOCNSlot _ _ _); [|done]. cbn [mbind result_bind] in Happ.
  destruct (if nonblank _ then _ else _); [|done]. cbn [mbind result_bind] in Happ.
  destruct (objects parseRequestRule _ _ _); [|done]. injection Happ as <- _. exact E2.
Qed.

(** The limiter and the burst of the file. *)
Lemma rate_of_file cfg (fs : flags) :
  fs !! "send-rate-limit"%string = (if nonblank (GetString cfg "send.rate-limit") then parse_flag (FFloat64 (float_of_Z 0)) (GetString cfg "send.rate-limit")
                                    else Some (FFloat64 (float_of_Z 0))) ->
  fs !! "send-rate-burst"%string = (if nonblank (GetString cfg "send.rate-burst") then parse_flag (FInt 10) (GetString cfg "send.rate-burst") else Some (FInt 10)) ->
  is_Some (fs !! "send-rate-burst"%string) -> ParseInt (GetString cfg "send.rate-burst") = ParseInt0 (GetString cfg "send.rate-burst") ->
  forall srv, reload_rate cfg srv =
    if compare_floats (float_flag fs "send-rate-limit") opGt (float_of_Z 0)
    then SetSendRateLimit (float_flag fs "send-rate-limit") (int fs "send-rate-burst") srv else srv.
Proof.
  intros V5 V6 Hs Hburst srv. unfold reload_rate, float_flag, int. rewrite V5. destruct (nonblank (GetString cfg "send.rate-limit")); [|done].
  cbn [parse_flag]. destruct (ParseFloat64 (GetString cfg "send.rate-limit")) as [rl|]; [|done].
  destruct (compare_floats rl opGt (float_of_Z 0)); [|done]. rewrite V6 in *. destruct (nonblank (GetString cfg "send.rate-burst")); [|done].
  rewrite Hburst. cbn [parse_flag] in *. destruct (ParseInt0 (GetString cfg "send.rate-burst")); [done|]. by destruct Hs.
Qed.

(** C19: A reload sets what a restart would. Take a configuration file the
    server can start with, whose send rules are all strings, whose booleans
    send.enabled and read-only are written true or false or not at all, and whose
    burst reads the same in base 10 and with a base prefix, and a command line that
    gives none of the flags a reload sets. After a SIGHUP the running HTTP server,
    whatever its settings were, has the send policy and the read-only mode it would
    have after a start with that file. Of the API key and the rate limit the file
    sets the values: where it sets none, the reloaded server keeps its own, while a
    started one has none. *)
Theorem reload_is_restart `{HoconText} explicit order cfg fs fs' r path started srv :
  order ≡ₚ configToFlag -> applyConfig explicit order cfg fs = Ok (fs', r) ->
  Forall (fun name => name ∉ explicit /\ fs !! name = declared_flags !! name) reload_flags ->
  setup_server fs' = Ok started -> nonblank path = true ->
  all_texts (GetArray cfg "send.rules") -> plain_bool (GetString cfg "send.enabled") -> plain_bool (GetString cfg "read-only") ->
  ParseInt (GetString cfg "send.rate-burst") = ParseInt0 (GetString cfg "send.rate-burst") ->
  same_gate cfg srv (reloadConfig path (Some cfg) srv) started.
Proof.
  intros Hp Happ Hfl Hstart Hpath Hrules Hb1 Hb2 Hburst. destruct (applyConfig_flags _ _ _ _ _ _ Hp Happ) as (fs1 & E1 & E2).
  pose proof (apply_flags_configured _ _ _ _ _ Hp E1) as Hc. unfold reload_flags in Hfl. rewrite !Forall_cons in Hfl.
  destruct Hfl as ([N1 D1] & [N2 D2] & [N3 D3] & [N4 D4] & [N5 D5] & [N6 D6] & _).
  destruct reload_defaults as (F1 & F2 & F3 & F4 & F5 & F6). rewrite F1 in D1. rewrite F2 in D2. rewrite F3 in D3. rewrite F4 in D4. rewrite F5 in D5. rewrite F6 in D6. clear F1 F2 F3 F4 F5 F6.
  assert (Hval : forall name key d, key_for name = Some key -> name ∉ explicit -> fs !! name = Some d -> name <> "send-rules"%string ->
    fs' !! name = if nonblank (GetString cfg key) then parse_flag d (GetString cfg key) else Some d).
  { intros name key d Hk Hn Hd Hne. rewrite (apply_rules_other _ _ _ _ _ E2) by (by left). rewrite Hc. by apply configured_flag. }
  pose proof (Hval "send-enabled" "send.enabled" (FBool false) eq_refl N1 D1 ltac:(discriminate))%string as V1.
  pose proof (Hval "api-key" "api-key" (FString "") eq_refl N3 D3 ltac:(discriminate))%string as V3.
  pose proof (Hval "read-only" "read-only" (FBool false) eq_refl N4 D4 ltac:(discriminate))%string as V4.
  pose proof (Hval "send-rate-limit" "send.rate-limit" (FFloat64 (float_of_Z 0)) eq_refl N5 D5 ltac:(discriminate))%string as V5.
  pose proof (Hval "send-rate-burst" "send.rate-burst" (FInt 10) eq_refl N6 D6 ltac:(discriminate))%string as V6.
  assert (V2 : str fs' "send-rules" = reload_rules cfg).
  { apply (apply_rules_texts explicit cfg fs1); try done. rewrite Hc. unfold configured. rewrite bool_decide_false by done. exact D2. }
  apply (bool_of_text _ _ _ V1) in Hb1. apply (bool_of_text _ _ _ V4) in Hb2.
  unfold setup_server in Hstart. rewrite V2, Hb1, Hb2 in Hstart. unfold reloadConfig. rewrite Hpath. cbn [negb].
  assert (V3' : str fs' "api-key" = GetString cfg "api-key").
  { unfold str. rewrite V3. destruct (nonblank (GetString cfg "api-key")) eqn:E; [done|]. unfold nonblank in E.
    by apply negb_false_iff, bool_decide_eq_true in E. }
  assert (V6' : is_Some (fs' !! "send-rate-burst"%string)).
  { assert (Hnd : NoDup (map snd order)) by (rewrite Hp; exact configToFlag_once).
    assert (Hs : Forall (settable explicit cfg fs) configToFlag) by (rewrite <- Hp; apply apply_flags_settable; [done|by exists fs1]).
    rewrite Forall_forall in Hs. specialize (Hs ("send.rate-burst", "send-rate-burst")%string ltac:(apply list_elem_of_In; cbn; tauto)).
    rewrite V6. destruct (nonblank (GetString cfg "send.rate-burst")) eqn:E; [|by eexists]. unfold settable, changes in Hs. cbn [fst snd] in Hs.
    rewrite bool_decide_false, E in Hs by done. destruct (Hs eq_refl) as (old & Ho & Hv). rewrite D6 in Ho. by injection Ho as <-. }
  rewrite V3' in Hstart. rewrite (rate_of_file cfg fs' V5 V6 V6' Hburst).
  destruct (parseSendPolicy (String.eqb (GetString cfg "send.enabled") "true") (reload_rules cfg)) as [policy|]; [|done]. apply Ok_inj in Hstart as <-.
  destruct (compare_floats (float_flag fs' "send-rate-limit") opGt (float_of_Z 0)) eqn:Er; rewrite ?(SetSendRateLimit_sets _ _ _ Er);
    destruct (nonblank (GetString cfg "api-key")) eqn:Ek, (String.eqb (GetString cfg "read-only") "true"); constructor; rewrite ?Ek; done.
Qed.

(** ** A file with objects is another file after a reload *)

(** Rules written as objects are not read again: with no others, the policy that
    replaces them allows everything. *)
Lemma reload_drops_objects path cfg srv : nonblank path = true -> GetString cfg "send.enabled" = "true"%string ->
  Forall (fun v => exists obj, v = HObject obj) (GetArray cfg "send.rules") ->
  sv_policy (reloadConfig path (Some cfg) srv) = mkSendPolicy true [].
Proof.
  intros Hpath Hen Hobj. unfold reloadConfig. rewrite Hpath, Hen. cbn [negb].
  assert (E : parseSendPolicy (String.eqb "true" "true") (reload_rules cfg) = Ok (mkSendPolicy true [])).
  { unfold reload_rules. destruct (GetArray cfg "send.rules") as [|elem elems]; [done|].
    replace (texts (elem :: elems)) with (@nil string); [done|]. induction Hobj as [|v vs [obj ->] _ IH]; done. }
  rewrite E. clear E. set (srv' := SetSendPolicy (mkSendPolicy true []) srv). change (mkSendPolicy true []) with (sv_policy srv'). generalize srv'. clear.
  intros srv. assert (Hrate : forall s, sv_policy (reload_rate cfg s) = sv_policy s).
  { intros s. unfold reload_rate, SetSendRateLimit. repeat case_step; done. }
  rewrite Hrate. by destruct (nonblank (GetString cfg "api-key")).
Qed.

(** The read-only mode of the command line ends with a reload. *)
Lemma reload_forgets_readonly path cfg srv : nonblank path = true -> GetString cfg "read-only" = EmptyString ->
  sv_readOnly (reloadConfig path (Some cfg) srv) = false.
Proof.
  intros Hpath Hro. unfold reloadConfig. rewrite Hpath, Hro. cbn [negb].
  assert (Hrate : forall s, sv_readOnly (reload_rate cfg s) = sv_readOnly s).
  { intros s. unfold reload_rate, SetSendRateLimit. repeat case_step; done. }
  rewrite Hrate. by destruct (nonblank (GetString cfg "api-key")).
Qed.

(** ** The demonstration file *)

Definition demo_string_config : hocon := mkHocon
  (fun path => if String.eqb path "send.enabled" then "true" else if String.eqb path "read-only" then "false"
               else if String.eqb path "send.rate-limit" then "2.5" else if String.eqb path "send.rate-burst" then "4" else "")%string
  (fun path => if String.eqb path "send.rules" then [HString "!pgn:65280-65535"; HString "pgn:59904"] else []).

Definition demo_string_applied : flags * configResult :=
  match applyConfig ∅ configToFlag demo_string_config declared_flags with Ok r => r | Err _ => (declared_flags, mkConfigResult [] [] 0) end.

Definition demo_started : Server :=
  match setup_server demo_string_applied.1 with Ok srv => srv | Err _ => NewServer (mkSendPolicy false []) end.

Definition demo_running : Server := mkServer (mkSendPolicy false []) "secret" None true.

Lemma reload_is_restart_witness :
  (sv_policy demo_started, sv_readOnly demo_started, sv_apiKey (reloadConfig "lplex.conf" (Some demo_string_config) demo_running)) =
    (mkSendPolicy true [mkSendRule false (Some (mkPGNMatcher [] [(65280, 65535)])) []; mkSendRule true (Some (mkPGNMatcher [59904] [])) []], false, "secret"%string) /\
  same_gate demo_string_config demo_running (reloadConfig "lplex.conf" (Some demo_string_config) demo_running) demo_started.
Proof.
  split; [vm_compute; reflexivity|].
  apply (reload_is_restart ∅ configToFlag demo_string_config declared_flags demo_string_applied.1 demo_string_applied.2).
  - reflexivity.
  - rewrite <- surjective_pairing. apply Ok_of. vm_compute. reflexivity.
  - unfold reload_flags. repeat (apply Forall_cons; split; [split; [apply not_elem_of_empty|reflexivity]|]). apply Forall_nil_2.
  - vm_compute. reflexivity.
  - reflexivity.
  - repeat (apply Forall_cons; split; [by eexists|]). apply Forall_nil_2.
  - right. left. reflexivity.
  - right. right. reflexivity.
  - vm_compute. reflexivity.
Defined.

Lemma validated_config_starts_witness :
  map (fun l => l.2) (runValidateConfig demo_applied.1).1 =
    [Valid; Valid; Valid; NotSet; NotSet; NotSet; NotSet; Valid; Valid; Valid; Valid; Valid; Valid; Valid; Valid; Valid; NotSet; Valid] /\
  exists setup, start_server "boat" "1.0" (fun _ => 1) demo_applied.1 (Some demo_applied.2) = Ok setup.
Proof.
  split; [vm_compute; reflexivity|].
  apply (validated_config_starts "boat" "1.0" (fun _ => 1) demo_applied.1 (Some demo_applied.2) (runValidateConfig demo_applied.1).1).
  - vm_compute. reflexivity.
  - split; [|split; intros _; vm_compute; reflexivity]. repeat (apply Forall_cons; split; [vm_compute; reflexivity|]). apply Forall_nil_2.
  - vm_compute. discriminate.
Defined.

(** Validation takes a setting that must not be empty for one that is not set. *)
Lemma empty_required_passes :
  let fs := <["device-idle-timeout"%string := FString ""]> declared_flags in
  (runValidateConfig fs).2 = 0 /\ start_server "boat" "1.0" (fun _ => 1) fs None = Err (Invalid "device-idle-timeout").
Proof. vm_compute. split; reflexivity. Qed.

(** A list of interfaces without a name passes too, and the router indexes an
    empty list. *)
Lemma no_interface_panics :
  let fs := <["interfaces"%string := FString ","]> declared_flags in
  (runValidateConfig fs).2 = 0 /\ start_server "boat" "1.0" (fun _ => 1) fs None = Err StartPanic.
Proof. vm_compute. split; reflexivity. Qed.
