(* ===== verification/GoUrl.v ===== *)
(** Query strings of URLs, as [net/url] writes and reads them. *)

From S2P Require Import Prelude GoNum SendPolicy Server.
From Stdlib Require Import Ascii.

(** ** Escaping *)

(** The characters that stand for themselves in a query. *)
Definition unreserved (c : ascii) : bool :=
  let z := Z_of_ascii c in
  ((97 <=? z) && (z <=? 122)) || ((65 <=? z) && (z <=? 90)) || ((48 <=? z) && (z <=? 57)) ||
  (z =? 45) || (z =? 95) || (z =? 46) || (z =? 126).

(** Upper-case hexadecimal. *)
Definition upper_hex (d : Z) : ascii := ascii_of_Z (if d <? 10 then 48 + d else 55 + d).

Fixpoint QueryEscape (s : string) : string :=
  match s with
  | EmptyString => EmptyString
  | String c s =>
      if unreserved c then String c (QueryEscape s)
      else if Ascii.eqb c " " then String "+" (QueryEscape s)
      else String "%" (String (upper_hex (Z_of_ascii c / 16)) (String (upper_hex (Z_of_ascii c mod 16)) (QueryEscape s)))
  end.

(** [None] for a percent sign without two hexadecimal digits. *)
Fixpoint QueryUnescape (s : string) : option string :=
  match s with
  | EmptyString => Some EmptyString
  | String "%" (String a (String b s)) =>
      x ← hex_value a; y ← hex_value b; rest ← QueryUnescape s; Some (String (ascii_of_Z (x * 16 + y)) rest)
  | String c s =>
      if Ascii.eqb c "%" then None
      else rest ← QueryUnescape s; Some (String (if Ascii.eqb c "+" then " "%char else c) rest)
  end.

(** ** Values *)

Abbreviation url_values := (gmap string (list string)).

Definition values_of (v : url_values) (key : string) : list string := default [] (v !! key).

Definition Add (key value : string) (v : url_values) : url_values := <[key := values_of v key ++ [value]]> v.

(** The pairs in the order of the sorted keys, without their escapes. *)
Definition value_pairs (v : url_values) : list (string * string) :=
  concat (map (fun k => map (pair k) (values_of v k)) (merge_sort String.le (map_to_list v).*1)).

Definition encode_pair (p : string * string) : string := (QueryEscape p.1 ++ "=" ++ QueryEscape p.2)%string.

Definition Encode (v : url_values) : string := String.concat "&" (map encode_pair (value_pairs v)).

(** One setting of a query; what cannot be read is left out. *)
Definition parse_setting (v : url_values) (setting : string) : url_values :=
  if negb (all_chars (fun c => negb (Ascii.eqb ";" c)) setting) then v
  else if bool_decide (setting = EmptyString) then v
  else
    let '(key, value) := match Cut setting "=" with Some kv => kv | None => (setting, EmptyString) end in
    match QueryUnescape key, QueryUnescape value with
    | Some key, Some value => Add key value v
    | _, _ => v
    end.

Definition ParseQuery (query : string) : url_values := foldl parse_setting ∅ (Split query "&").

Example encodes :
  Encode (Add "pgn" "129025" (Add "manufacturer" "Garmin & Co; 100%+" (Add "pgn" "60928" ∅))) =
  "manufacturer=Garmin+%26+Co%3B+100%25%2B&pgn=60928&pgn=129025"%string.
Proof. vm_compute. reflexivity. Qed.

(** ** What was written is read *)

Lemma hex_byte_reads b : 0 <= b < 256 ->
  hex_value (upper_hex (b / 16)) = Some (b / 16) /\ hex_value (upper_hex (b mod 16)) = Some (b mod 16).
Proof.
  intros Hb. assert (H : forall d, 0 <= d < 16 -> hex_value (upper_hex d) = Some d).
  { intros d Hd. assert (Hin : In d (map Z.of_nat (seq 0 16))).
    { replace d with (Z.of_nat (Z.to_nat d)) by lia. apply in_map, in_seq. lia. }
    cbn in Hin. repeat destruct Hin as [<-|Hin]; try reflexivity. done. }
  split; apply H; [split; [apply Z.div_pos|apply Z.div_lt_upper_bound]; lia|apply Z.mod_pos_bound; lia].
Qed.

Lemma unescape_percent a b s : QueryUnescape (String "%" (String a (String b s))) =
  (x ← hex_value a; y ← hex_value b; rest ← QueryUnescape s; Some (String (ascii_of_Z (x * 16 + y)) rest)).
Proof. reflexivity. Qed.

Lemma unescape_plain c s : Ascii.eqb c "%" = false ->
  QueryUnescape (String c s) = (rest ← QueryUnescape s; Some (String (if Ascii.eqb c "+" then " "%char else c) rest)).
Proof. intros H. destruct c as [[] [] [] [] [] [] [] []]; try reflexivity; discriminate H. Qed.

Lemma unreserved_plain c : unreserved c = true -> Ascii.eqb c "%" = false /\ Ascii.eqb c "+" = false.
Proof. destruct c as [[] [] [] [] [] [] [] []]; vm_compute; done. Qed.

Lemma QueryUnescape_Escape s : QueryUnescape (QueryEscape s) = Some s.
Proof.
  induction s as [|c s IH]; [done|]. cbn [QueryEscape]. destruct (unreserved c) eqn:Eu.
  - destruct (unreserved_plain c Eu) as [H1 H2]. rewrite unescape_plain, IH, H2 by done. done.
  - destruct (Ascii.eqb_spec c " ") as [->|].
    + rewrite unescape_plain, IH by done. done.
    + pose proof (Z_of_ascii_ok c) as Hc. unfold byte_ok in Hc. destruct (hex_byte_reads (Z_of_ascii c)) as [H1 H2]; [done|].
      rewrite unescape_percent, H1, H2, IH. cbn [mbind option_bind].
      replace (Z_of_ascii c / 16 * 16 + Z_of_ascii c mod 16) with (Z_of_ascii c) by (pose proof (Z.div_mod (Z_of_ascii c) 16); lia).
      by rewrite ascii_of_Z_of_ascii.
Qed.

(** An escaped text has none of the characters a query is cut at. *)
Definition query_clean (c : ascii) : bool := negb (Ascii.eqb "&" c) && negb (Ascii.eqb ";" c) && negb (Ascii.eqb c "=").

Lemma query_clean_parts c : query_clean c = true ->
  negb (Ascii.eqb "&" c) = true /\ negb (Ascii.eqb ";" c) = true /\ negb (Ascii.eqb c "=") = true.
Proof. unfold query_clean. intros H. apply andb_prop in H as [H ?]. by apply andb_prop in H as [? ?]. Qed.

Lemma unreserved_clean c : unreserved c = true -> query_clean c = true.
Proof. destruct c as [[] [] [] [] [] [] [] []]; vm_compute; done. Qed.

Lemma upper_hex_clean d : 0 <= d < 16 -> query_clean (upper_hex d) = true.
Proof.
  intros Hd. assert (Hin : In d (map Z.of_nat (seq 0 16))).
  { replace d with (Z.of_nat (Z.to_nat d)) by lia. apply in_map, in_seq. lia. }
  cbn in Hin. repeat destruct Hin as [<-|Hin]; try reflexivity. done.
Qed.

Lemma QueryEscape_clean s : all_chars query_clean (QueryEscape s) = true.
Proof.
  induction s as [|c s IH]; [done|]. cbn [QueryEscape]. destruct (unreserved c) eqn:Eu; [|destruct (Ascii.eqb c " ")]; cbn [all_chars]; rewrite IH.
  - by rewrite unreserved_clean.
  - done.
  - pose proof (Z_of_ascii_ok c) as Hc. unfold byte_ok in Hc.
    rewrite !upper_hex_clean; [done|apply Z.mod_pos_bound; lia|split; [apply Z.div_pos|apply Z.div_lt_upper_bound]; lia].
Qed.

Lemma clean_no (p : ascii -> bool) s : (forall c, query_clean c = true -> p c = true) -> all_chars p (QueryEscape s) = true.
Proof. intros H. eapply all_chars_weaken; [exact H|apply QueryEscape_clean]. Qed.

Lemma parse_encoded v p : parse_setting v (encode_pair p) = Add p.1 p.2 v.
Proof.
  unfold parse_setting, encode_pair. rewrite !all_chars_app.
  rewrite !(clean_no (fun c => negb (Ascii.eqb ";" c))) by (intros c Hc; by apply query_clean_parts).
  change (all_chars (fun c => negb (Ascii.eqb ";" c)) "=") with true. cbn [andb negb].
  rewrite bool_decide_false by (intros E; destruct (QueryEscape p.1); discriminate E).
  change ("=" ++ QueryEscape p.2)%string with (String "=" (QueryEscape p.2)).
  rewrite Cut_app by (apply clean_no; intros c Hc; by apply query_clean_parts).
  by rewrite !QueryUnescape_Escape.
Qed.

Definition read_pairs (ps : list (string * string)) : url_values := foldl (fun v p => Add p.1 p.2 v) ∅ ps.

Lemma encode_pair_clean p : all_chars (fun c => negb (Ascii.eqb "&" c)) (encode_pair p) = true.
Proof.
  unfold encode_pair. rewrite !all_chars_app. rewrite !(clean_no (fun c => negb (Ascii.eqb "&" c))); [done|..];
    intros c Hc; by apply query_clean_parts.
Qed.

Lemma ParseQuery_pairs ps : ParseQuery (String.concat "&" (map encode_pair ps)) = read_pairs ps.
Proof.
  unfold ParseQuery, Split. destruct ps as [|p ps]; [done|]. rewrite split_concat; [|done|done|].
  - unfold read_pairs. generalize (∅ : url_values). generalize (p :: ps). clear. intros ps. induction ps as [|p ps IH]; intros v; [done|].
    cbn [map foldl]. rewrite parse_encoded. apply IH.
  - apply Forall_map, Forall_true. intros x. apply encode_pair_clean.
Qed.

(** The values of a key among pairs. *)
Definition pair_values (key : string) (ps : list (string * string)) : list string :=
  map snd (List.filter (fun p => String.eqb p.1 key) ps).

Lemma foldl_Add ps : forall v key, values_of (foldl (fun v p => Add p.1 p.2 v) v ps) key = values_of v key ++ pair_values key ps.
Proof.
  induction ps as [|[k x] ps IH]; intros v key; cbn [foldl]; [by rewrite app_nil_r|]. rewrite IH. unfold pair_values. cbn [List.filter fst snd].
  unfold Add, values_of at 1. destruct (String.eqb_spec k key) as [->|Hne].
  - rewrite lookup_insert_eq. cbn [map snd]. change (default [] (Some ?l)) with l. by rewrite <- app_assoc.
  - by rewrite lookup_insert_ne.
Qed.

Lemma pair_values_app key a b : pair_values key (a ++ b) = pair_values key a ++ pair_values key b.
Proof. unfold pair_values. by rewrite List.filter_app, map_app. Qed.

Lemma pair_values_key k xs key : pair_values key (map (pair k) xs) = if String.eqb k key then xs else [].
Proof.
  induction xs as [|x xs IH]; [by destruct (String.eqb k key)|]. unfold pair_values in *. cbn [map List.filter fst].
  destruct (String.eqb k key); cbn [map snd]; by rewrite IH.
Qed.

Lemma pair_values_concat key v ks : NoDup ks -> key ∈ ks \/ v !! key = None ->
  pair_values key (concat (map (fun k => map (pair k) (values_of v k)) ks)) = values_of v key.
Proof.
  intros Hnd Hin. assert (Hnot : forall ks, key ∉ ks -> pair_values key (concat (map (fun k => map (pair k) (values_of v k)) ks)) = []).
  { clear. induction ks as [|k ks IH]; intros Hk; [done|]. cbn [map concat]. rewrite pair_values_app, pair_values_key.
    apply not_elem_of_cons in Hk as [Hk1 Hk2]. destruct (String.eqb_spec k key); [congruence|]. by apply IH. }
  induction ks as [|k ks IH].
  - destruct Hin as [Hin|Hn]; [by apply elem_of_nil in Hin|]. unfold values_of. by rewrite Hn.
  - apply NoDup_cons in Hnd as [Hk Hnd]. cbn [map concat]. rewrite pair_values_app, pair_values_key. destruct (String.eqb_spec k key) as [->|Hne].
    + by rewrite Hnot, app_nil_r.
    + apply IH; [done|]. destruct Hin as [Hin|]; [left|by right]. apply elem_of_cons in Hin as [->|]; [done|done].
Qed.

(** Every key has its values back, in order. *)
Lemma ParseQuery_Encode v key : values_of (ParseQuery (Encode v)) key = values_of v key.
Proof.
  unfold Encode. rewrite ParseQuery_pairs. unfold read_pairs. rewrite foldl_Add. unfold values_of at 1. rewrite lookup_empty. cbn [default app].
  apply pair_values_concat.
  - rewrite merge_sort_Permutation. apply NoDup_fst_map_to_list.
  - rewrite merge_sort_Permutation. destruct (v !! key) as [xs|] eqn:E; [left|by right]. apply list_elem_of_fmap. exists (key, xs).
    split; [done|]. by apply elem_of_map_to_list.
Qed.
