(* ===== verification/Client.v ===== *)
(** The client library: [lplexc/].

    Requests are the routes of [Server]; a transport is a function from a request
    to the reply it brings, or nothing.  Filters travel as query strings on
    ephemeral streams and as JSON objects in sessions.  The reconnecting streams
    are loops over what each attempt to connect comes to. *)

From S2P Require Import Prelude CanId GoNum SendPolicy Devices Filters Values Ring Broker Consumer Server GoUrl.
From Stdlib Require Import Ascii.

(** * Filters *)

Record Filter := mkFilter {
  cf_PGNs : list Z;
  cf_ExcludePGNs : list Z;
  cf_Manufacturers : list string;
  cf_Instances : list Z;
  cf_Names : list string;
  cf_ExcludeNames : list string
}.

Definition is_nil {A} (l : list A) : bool := match l with [] => true | _ => false end.

(** [None] is the nil filter. *)
Definition IsEmpty (f : option Filter) : bool :=
  match f with
  | None => true
  | Some f => is_nil (cf_PGNs f) && is_nil (cf_ExcludePGNs f) && is_nil (cf_Manufacturers f) && is_nil (cf_Instances f) &&
              is_nil (cf_Names f) && is_nil (cf_ExcludeNames f)
  end.

Definition add_all (key : string) (xs : list string) (v : url_values) : url_values := foldl (fun v x => Add key x v) v xs.

Definition filterQueryParams (f : Filter) : string :=
  let v := add_all "pgn" (map dec (cf_PGNs f)) ∅ in
  let v := add_all "exclude_pgn" (map dec (cf_ExcludePGNs f)) v in
  let v := add_all "manufacturer" (cf_Manufacturers f) v in
  let v := add_all "instance" (map dec (cf_Instances f)) v in
  let v := add_all "name" (cf_Names f) v in
  let v := add_all "exclude_name" (cf_ExcludeNames f) v in
  Encode v.

(** The query of a stream: none for a filter that is nil or empty. *)
Definition stream_query (f : option Filter) : string :=
  match f with Some fl => if IsEmpty f then EmptyString else filterQueryParams fl | None => EmptyString end.

(** What the server's handlers take from the query of a request. *)
Definition request_filter (query : string) : filter_query :=
  let q := ParseQuery query in
  mkFilterQuery (values_of q "pgn") (values_of q "exclude_pgn") (values_of q "manufacturer") (values_of q "instance")
    (values_of q "name") (values_of q "exclude_name") (values_of q "bus").

(** A member of the JSON object: a list of numbers or of texts; a list of bytes is
    one text in base 64, which both ends read as the list. *)
Inductive json_list := JNumbers (ns : list Z) | JBytes (bs : list Z) | JTexts (ss : list string).

(** [filterSessionJSON]: members for the lists that are not empty. *)
Definition filterSessionJSON (f : Filter) : list (string * json_list) :=
  (if is_nil (cf_PGNs f) then [] else [("pgn"%string, JNumbers (cf_PGNs f))]) ++
  (if is_nil (cf_ExcludePGNs f) then [] else [("exclude_pgn"%string, JNumbers (cf_ExcludePGNs f))]) ++
  (if is_nil (cf_Manufacturers f) then [] else [("manufacturer"%string, JTexts (cf_Manufacturers f))]) ++
  (if is_nil (cf_Instances f) then [] else [("instance"%string, JBytes (cf_Instances f))]) ++
  (if is_nil (cf_Names f) then [] else [("name"%string, JTexts (cf_Names f))]) ++
  (if is_nil (cf_ExcludeNames f) then [] else [("exclude_name"%string, JTexts (cf_ExcludeNames f))]).

(** The members of an object by name, as the server's request type has them. *)
Fixpoint member (obj : list (string * json_list)) (key : string) : option json_list :=
  match obj with [] => None | (k, v) :: obj => if String.eqb k key then Some v else member obj key end.
Definition numbers (obj : list (string * json_list)) (key : string) : list Z := match member obj key with Some (JNumbers ns) => ns | _ => [] end.
Definition bytes_member (obj : list (string * json_list)) (key : string) : list Z := match member obj key with Some (JBytes bs) => bs | _ => [] end.
Definition words (obj : list (string * json_list)) (key : string) : list string := match member obj key with Some (JTexts ss) => ss | _ => [] end.

Definition decode_filter (obj : list (string * json_list)) : filter_body :=
  mkFilterBody (numbers obj "pgn") (numbers obj "exclude_pgn") (words obj "manufacturer") (bytes_member obj "instance")
    (words obj "name") (words obj "exclude_name") (words obj "bus").

(** * Requests *)

Inductive client_error :=
| TransportError
| BadStatus (request : string) (code : Z) (body : reply_body)
| DecodeError.

(** What a request brings: [None] when the transport fails. *)
Definition transport : Type := route -> option reply.

(** A request that succeeds with one status. *)
Definition do_request (Do : transport) (name : string) (ok : Z) (r : route) : result client_error reply_body :=
  match Do r with
  | None => Err TransportError
  | Some rep => if code rep =? ok then Ok (body rep) else Err (BadStatus name (code rep) (body rep))
  end.

Definition Subscribe (Do : transport) (f : option Filter) : result client_error reply_body :=
  do_request Do "GET /events" 200 (RouteEvents (request_filter (stream_query f))).

Definition Send (Do : transport) (pgn src dst prio : Z) (data : list Z) : result client_error unit :=
  _ ← do_request Do "POST /send" 202 (RouteSend (Some (mkSendRequest pgn src dst prio (hex_encode data) "")));
  Ok tt.

Definition RequestPGN (Do : transport) (pgn dst : Z) : result client_error reply_body :=
  do_request Do "POST /query" 200 (RouteQuery (Some (mkQueryRequest pgn dst "" ""))).

Definition GetValues (Do : transport) (f : option Filter) : result client_error reply_body :=
  do_request Do "GET /values" 200 (RouteValues (request_filter (stream_query f))).

Definition GetDevices (Do : transport) : result client_error reply_body := do_request Do "GET /devices" 200 RouteDevices.

(** * Sessions *)

Record SessionConfig := mkSessionConfig { sc_ClientID : string; sc_BufferTimeout : string; sc_Filter : option Filter }.

Record Session := mkSession { se_config : SessionConfig; se_info : reply_body; se_lastAcked : Z }.

Definition session_body (cfg : SessionConfig) : session_request :=
  mkSessionRequest (sc_BufferTimeout cfg)
    (match sc_Filter cfg with
     | Some f => if IsEmpty (Some f) then None else Some (decode_filter (filterSessionJSON f))
     | None => None
     end).

Definition CreateSession (Do : transport) (cfg : SessionConfig) : result client_error Session :=
  info ← do_request Do "PUT /clients" 200 (RouteCreateSession (sc_ClientID cfg) (Some (session_body cfg)));
  Ok (mkSession cfg info 0).

Definition Session_Subscribe (Do : transport) (s : Session) : result client_error reply_body :=
  do_request Do "GET /clients/events" 200 (RouteSessionEvents (sc_ClientID (se_config s))).

Definition Ack (Do : transport) (seq : Z) (s : Session) : result client_error Session :=
  _ ← do_request Do "ack" 204 (RouteAck (sc_ClientID (se_config s)) (Some seq));
  Ok (mkSession (se_config s) (se_info s) seq).

(** * Streams that reconnect *)

Record BackoffConfig := mkBackoff { InitialInterval : duration; MaxInterval : duration; MaxRetries : Z }.

Definition defaultBackoff : BackoffConfig := mkBackoff second (30 * second) 0.

(** [nextBackoff] *)
Definition nextBackoff (current max : duration) : duration := let next := i64 (current * 2) in if next >? max then max else next.

(** The variables of the loop. *)
Record backoff := mkBackoffState { bo_interval : duration; bo_retries : Z }.

(** [sleepBackoff]: the wait and the next state, or the end of the retries; a
    cancelled wait ends the loop as well. *)
Definition sleepBackoff (c : BackoffConfig) (cancelled : bool) (b : backoff) : option (duration * backoff) :=
  if (MaxRetries c >? 0) && (bo_retries b >=? MaxRetries c) then None
  else if cancelled then None
  else Some (bo_interval b, mkBackoffState (nextBackoff (bo_interval b) (MaxInterval c)) (bo_retries b + 1)).

(** What an attempt comes to: no connection, or a stream with the events it
    delivered before it ended.  [cancelled] says that the context is done before
    the attempt, after it, or during the wait. *)
Inductive attempt E := Unreachable | Streamed (events : list E).
Arguments Unreachable {E}.
Arguments Streamed {E} events.

Inductive cancel := NoCancel | BeforeAttempt | AfterAttempt | DuringWait.

Definition fresh_backoff (c : BackoffConfig) : backoff := mkBackoffState (InitialInterval c) 0.

(** [reconnectLoop] and [watchLoop] over a run of attempts: what the channel gets,
    the waits, and whether the loop has ended. *)
Fixpoint reconnectLoop {E} (c : BackoffConfig) (b : backoff) (run : list (attempt E * cancel)) : list E * list duration * bool :=
  match run with
  | [] => ([], [], false)
  | (a, stop) :: run =>
      match stop with
      | BeforeAttempt => ([], [], true)
      | _ =>
          let '(events, b) := match a with Unreachable => ([], b) | Streamed events => (events, fresh_backoff c) end in
          match stop with
          | AfterAttempt => (events, [], true)
          | _ =>
              match sleepBackoff c (match stop with DuringWait => true | _ => false end) b with
              | None => (events, [], true)
              | Some (wait, b) =>
                  let '(more, waits, ended) := reconnectLoop c b run in (events ++ more, wait :: waits, ended)
              end
          end
      end
  end.

(** * Reading a stream of events *)

Definition newline : ascii := "010"%char.

(** What the server writes for an event ([sseDataPrefix], [sseDataSuffix]). *)
Definition sse_chunk (json : string) : string := ("data: " ++ json ++ String newline (String newline EmptyString))%string.

Definition sse_stream (jsons : list string) : string := foldr (fun json s => sse_chunk json ++ s)%string EmptyString jsons.

(** [bufio.Scanner] with its default buffer: the line, its newline included, fits in
    64 KiB; a carriage return at its end is dropped.  The flag says that the scan
    reached the end of the stream. *)
Definition MaxScanTokenSize : Z := 64 * 1024.

Fixpoint drop_CR (s : string) : string :=
  match s with
  | EmptyString => EmptyString
  | String c EmptyString => if Ascii.eqb c "013" then EmptyString else s
  | String c s => String c (drop_CR s)
  end.

Fixpoint scan_lines (pieces : list string) : list string * bool :=
  match pieces with
  | [] => ([], true)
  | p :: pieces =>
      if MaxScanTokenSize <=? Z.of_nat (String.length p) then ([], false)
      else if is_nil pieces && negb (nonblank p) then ([], true)
      else let '(lines, ended) := scan_lines pieces in (drop_CR p :: lines, ended)
  end.

Fixpoint CutPrefix (prefix s : string) : option string :=
  match prefix, s with
  | EmptyString, _ => Some s
  | String p prefix, String c s => if Ascii.eqb p c then CutPrefix prefix s else None
  | String _ _, EmptyString => None
  end.

Section Events.
(** [encoding/json]: the names of an object's members, a device, a frame. *)
Context {D F : Type} (members : string -> option (list string)) (as_device : string -> option D) (as_frame : string -> option F).

Inductive client_event := DeviceEvent (d : D) | FrameEvent (f : F).

Definition line_event (line : string) : option client_event :=
  data ← CutPrefix "data: " line;
  names ← members data;
  if bool_decide ("type"%string ∈ names) then DeviceEvent <$> as_device data else FrameEvent <$> as_frame data.

(** The calls of [Subscription.Next] until the first error: the events, and whether
    that error is the end of the stream. *)
Definition Subscription_events (stream : string) : list client_event * bool :=
  let '(lines, ended) := scan_lines (Split stream newline) in (omap line_event lines, ended).

(** A JSON text as the encoder writes it: no line breaks, and of a length the
    scanner takes. *)
Definition json_line (json : string) : Prop :=
  all_chars (fun c => negb (Ascii.eqb c "013") && negb (Ascii.eqb newline c)) json = true /\ Z.of_nat (String.length json) + 6 < MaxScanTokenSize.

Definition json_event (json : string) : option client_event :=
  names ← members json;
  if bool_decide ("type"%string ∈ names) then DeviceEvent <$> as_device json else FrameEvent <$> as_frame json.

Lemma drop_CR_clean s : all_chars (fun c => negb (Ascii.eqb c "013")) s = true -> drop_CR s = s.
Proof.
  induction s as [|c [|c' s] IH]; [done| |].
  - cbn. destruct (Ascii.eqb c "013"); done.
  - intros H. cbn [drop_CR]. f_equal. apply IH. cbn [all_chars] in *. by apply andb_prop in H as [_ ?].
Qed.

Lemma split_first p w c s : all_chars (fun c => negb (p c)) w = true -> p c = true -> split_by p (w ++ String c s) = w :: split_by p s.
Proof.
  intros Hw Hc. induction w as [|d w IH].
  { change (split_by p (String c s) = EmptyString :: split_by p s). cbn [split_by]. by rewrite Hc. }
  change (split_by p (String d (w ++ String c s)) = String d w :: split_by p s). cbn [split_by]. cbn [all_chars] in Hw.
  apply andb_prop in Hw as [Hd Hw]. rewrite IH by done. by destruct (p d).
Qed.

Lemma split_nonempty p s : is_nil (split_by p s) = false.
Proof. destruct s as [|c s]; cbn; [done|]. destruct (p c); [done|]. by destruct (split_by p s). Qed.

Lemma split_chunk json rest : all_chars (fun c => negb (Ascii.eqb newline c)) json = true ->
  Split (sse_chunk json ++ rest) newline = ("data: " ++ json)%string :: EmptyString :: Split rest newline.
Proof.
  intros Hj. unfold Split, sse_chunk.
  replace (("data: " ++ json ++ String newline (String newline "")) ++ rest)%string
    with (("data: " ++ json) ++ String newline (String newline rest))%string by (rewrite !string_app_assoc; reflexivity).
  rewrite split_first; [|by rewrite all_chars_app|done]. f_equal.
Qed.

Lemma split_stream jsons : Forall json_line jsons ->
  Split (sse_stream jsons) newline = concat (map (fun j => ["data: " ++ j; ""]%string) jsons) ++ [EmptyString].
Proof.
  induction 1 as [|j jsons [Hj _] _ IH]; [done|]. cbn [sse_stream foldr]. rewrite split_chunk.
  - fold (sse_stream jsons). by rewrite IH.
  - eapply all_chars_weaken; [|exact Hj]. by intros c [_ ?]%andb_prop.
Qed.

Lemma scan_stream jsons : Forall json_line jsons ->
  scan_lines (concat (map (fun j => ["data: " ++ j; ""]%string) jsons) ++ [EmptyString]) =
  (concat (map (fun j => ["data: " ++ j; ""]%string) jsons), true).
Proof.
  induction 1 as [|j jsons [Hj Hl] _ IH]; [done|]. cbn [map concat]. rewrite <- app_assoc. cbn [app scan_lines].
  rewrite (proj2 (Z.leb_gt _ _)) by (rewrite string_length_app; cbn; unfold MaxScanTokenSize in *; lia). cbn [is_nil andb].
  change (MaxScanTokenSize <=? Z.of_nat (String.length "")) with false.
  assert (Hn : is_nil (concat (map (fun j => ["data: " ++ j; ""]%string) jsons) ++ [EmptyString]) = false) by (by destruct (concat _)).
  rewrite Hn, IH. cbn [andb drop_CR]. rewrite drop_CR_clean; [done|]. rewrite all_chars_app. cbn.
  eapply all_chars_weaken; [|exact Hj]. by intros c [? _]%andb_prop.
Qed.

(** The client reads the events the server wrote, in order, and then the end. *)
Lemma Subscription_reads jsons : Forall json_line jsons -> Subscription_events (sse_stream jsons) = (omap json_event jsons, true).
Proof.
  intros H. unfold Subscription_events. rewrite split_stream, scan_stream by done. f_equal. clear H.
  induction jsons as [|j jsons IH]; [done|]. cbn [map concat app omap list_omap].
  change (line_event ("data: " ++ j)) with (json_event j). cbn [line_event]. rewrite IH. done.
Qed.
(** Any event with a type is a device to the client, the removal of one as well. *)
Lemma removal_is_a_device json names d :
  members json = Some names -> "type"%string ∈ names -> as_device json = Some d ->
  line_event ("data: " ++ json) = Some (DeviceEvent d).
Proof. intros Hn Ht Hd. change (json_event json = Some (DeviceEvent d)). unfold json_event. rewrite Hn. cbn. by rewrite bool_decide_true, Hd. Qed.
End Events.

(** ** Watching one PGN *)

(** [readSubscription]: the frames of the stream whose data is hexadecimal and
    which the decoder accepts. *)
Definition watch_frame {V} (Decode : list Z -> option V) (data : string) : option V := bs ← hex_DecodeString data; Decode bs.

Inductive watch_error := NotInRegistry | NoDecoder.

(** [Watch]: the registry has the PGN with a decoder. *)
Definition Watch {V} (Registry : Z -> option (option (list Z -> option V))) (pgn : Z) : result watch_error (list Z -> option V) :=
  match Registry pgn with None => Err NotInRegistry | Some None => Err NoDecoder | Some (Some d) => Ok d end.

(** ** Finding a server *)

Record ServiceEntry := mkEntry { en_Instance : string; en_AddrIPv4 : list string; en_AddrIPv6 : list string; en_Port : Z }.

Inductive discover_error := NoAddresses | NoService (name : string).

Definition entryURL (e : ServiceEntry) : result discover_error string :=
  match en_AddrIPv4 e, en_AddrIPv6 e with
  | a :: _, _ => Ok ("http://" ++ a ++ ":" ++ FormatInt (en_Port e))%string
  | [], a :: _ => Ok ("http://[" ++ a ++ "]:" ++ FormatInt (en_Port e))%string
  | [], [] => Err NoAddresses
  end.

(** The entries that arrive before the deadline. *)
Fixpoint discover (name : string) (entries : list ServiceEntry) : result discover_error string :=
  match entries with
  | [] => Err (NoService name)
  | e :: entries => if nonblank name && negb (String.eqb (en_Instance e) name) then discover name entries else entryURL e
  end.

(** * Filters arrive as they are *)

(** What a filter asks of the server: its numbers as they are, its NAMEs read as
    hexadecimal; the client has no buses to ask for. *)
Definition filter_meaning (f : Filter) : result filter_param_error EventFilter :=
  names ← parse_uints (fun s _ => BadName s) 16 64 (cf_Names f);
  excludeNames ← parse_uints (fun s _ => BadExcludeName s) 16 64 (cf_ExcludeNames f);
  Ok (mkEventFilter (cf_PGNs f) (cf_ExcludePGNs f) (cf_Manufacturers f) (cf_Instances f) names excludeNames []).

(** [uint32] and [uint8] *)
Definition filter_fits (f : Filter) : Prop :=
  Forall (fun p => 0 <= p < 2 ^ 32) (cf_PGNs f) /\ Forall (fun p => 0 <= p < 2 ^ 32) (cf_ExcludePGNs f) /\
  Forall (fun i => 0 <= i < 256) (cf_Instances f).

Lemma add_all_values key xs : forall v k,
  values_of (add_all key xs v) k = values_of v k ++ (if String.eqb key k then xs else []).
Proof.
  intros v k. unfold add_all. pose proof (foldl_Add (map (pair key) xs) v k) as H. rewrite pair_values_key in H. rewrite <- H.
  clear H. revert v. induction xs as [|x xs IH]; intros v; [done|]. cbn [map foldl]. apply IH.
Qed.

Lemma request_filterQueryParams f :
  request_filter (filterQueryParams f) =
  mkFilterQuery (map dec (cf_PGNs f)) (map dec (cf_ExcludePGNs f)) (cf_Manufacturers f) (map dec (cf_Instances f)) (cf_Names f)
    (cf_ExcludeNames f) [].
Proof.
  unfold request_filter, filterQueryParams. rewrite !ParseQuery_Encode, !add_all_values. unfold values_of. rewrite !lookup_empty. cbn.
  by rewrite !app_nil_r.
Qed.

Lemma parse_uints_dec {E} (err : string -> num_error -> E) bits xs : Forall (fun x => 0 <= x < 2 ^ bits) xs ->
  parse_uints err 10 bits (map dec xs) = Ok xs.
Proof.
  induction 1 as [|x xs Hx _ IH]; [done|]. cbn [map parse_uints]. rewrite ParseUint_dec by done. by rewrite IH.
Qed.

Lemma parse_uints_nil {E} (err : string -> num_error -> E) base bits ss xs :
  parse_uints err base bits ss = Ok xs -> is_nil xs = is_nil ss.
Proof.
  destruct ss as [|s ss]; cbn [parse_uints]; [by intros [= <-]|]. destruct (ParseUint s base bits); [|done].
  destruct (parse_uints err base bits ss); [|done]. by intros [= <-].
Qed.

Lemma filter_fits_small f : filter_fits f -> map u32 (cf_PGNs f) = cf_PGNs f /\ map u32 (cf_ExcludePGNs f) = cf_ExcludePGNs f /\ map u8 (cf_Instances f) = cf_Instances f.
Proof.
  intros (H1 & H2 & H3). repeat split; rewrite <- map_id; apply map_ext_Forall; (eapply Forall_impl; [eassumption|]); intros x Hx; by rewrite wrap_small.
Qed.

(** A filter that is not empty is not taken for none. *)
Lemma meaning_nonempty f e : filter_meaning f = Ok e -> Filters.IsEmpty (Some e) = IsEmpty (Some f).
Proof.
  unfold filter_meaning. destruct (parse_uints _ _ _ (cf_Names f)) as [ns|] eqn:E1; [|done]. cbn [mbind result_bind].
  destruct (parse_uints _ _ _ (cf_ExcludeNames f)) as [es|] eqn:E2; [|done]. cbn [mbind result_bind]. intros [= <-].
  apply parse_uints_nil in E1, E2.
  destruct f as [[] [] [] [] [] []], ns, es; solve [discriminate | reflexivity].
Qed.

(** C37: a client's filter means the same to the server on every way it travels *)
Theorem filter_travels cfg f : filter_fits f ->
  let arrives := if IsEmpty (Some f) then Ok None else e ← filter_meaning f; Ok (Some e) in
  ParseFilterParams (request_filter (stream_query (Some f))) = arrives /\
  (sc_Filter cfg = Some f ->
   session_filter (ss_Filter (session_body cfg)) = match arrives with Ok e => Ok e | Err e => Err (BadFilter e) end).
Proof.
  intros Hf arrives. pose proof (filter_fits_small f Hf) as (U1 & U2 & U3). destruct Hf as (F1 & F2 & F3).
  subst arrives. unfold stream_query, session_body. destruct (IsEmpty (Some f)) eqn:Ee.
  { split; [done|]. intros ->. by rewrite Ee. }
  split.
  - rewrite request_filterQueryParams. unfold ParseFilterParams, no_filter_params.
    cbn [q_pgn q_exclude_pgn q_manufacturer q_instance q_name q_exclude_name q_bus].
    rewrite !parse_uints_dec by done. cbn [mbind result_bind].
    pose proof (meaning_nonempty f) as Hm. unfold filter_meaning in *.
    match goal with |- (if ?c then _ else _) = _ => assert (Hc : c = false) end.
    { destruct f as [[] [] [] [] [] []]; try reflexivity. discriminate Ee. }
    rewrite Hc. clear Hc.
    destruct (parse_uints _ _ _ (cf_Names f)); [|done]. cbn [mbind result_bind] in *.
    destruct (parse_uints _ _ _ (cf_ExcludeNames f)); [|done]. cbn [mbind result_bind] in *. rewrite U1, U2, U3.
    by rewrite (Hm _ eq_refl), Ee.
  - intros ->. rewrite Ee. cbn [ss_Filter session_filter]. unfold body_filter, decode_filter. cbn [fb_PGN fb_ExcludePGN fb_Manufacturer fb_Instance fb_Name fb_ExcludeName fb_Bus].
    assert (Hd : decode_filter (filterSessionJSON f) = mkFilterBody (cf_PGNs f) (cf_ExcludePGNs f) (cf_Manufacturers f) (cf_Instances f) (cf_Names f) (cf_ExcludeNames f) []).
    { destruct f as [[] [] [] [] [] []]; reflexivity. }
    injection Hd as -> -> -> -> -> -> ->. unfold filter_meaning.
    destruct (parse_uints _ _ _ (cf_Names f)); [|done]. cbn [mbind result_bind].
    by destruct (parse_uints _ _ _ (cf_ExcludeNames f)).
Qed.

(** * Waits *)

(** The wait before attempt [k + 1] after [k] failures in a row. *)
Definition backoff_wait (c : BackoffConfig) (k : Z) : duration := Z.min (InitialInterval c * 2 ^ k) (MaxInterval c).

Definition backoff_ok (c : BackoffConfig) : Prop := 0 < InitialInterval c <= MaxInterval c /\ MaxInterval c < 2 ^ 62.

Lemma backoff_wait_range c k : backoff_ok c -> 0 <= k -> InitialInterval c <= backoff_wait c k <= MaxInterval c.
Proof. intros [H1 H2] Hk. unfold backoff_wait. pose proof (Z.pow_pos_nonneg 2 k). nia. Qed.

Lemma nextBackoff_wait c k : backoff_ok c -> 0 <= k -> nextBackoff (backoff_wait c k) (MaxInterval c) = backoff_wait c (k + 1).
Proof.
  intros Hc Hk. pose proof (backoff_wait_range c k Hc Hk) as Hr. destruct Hc as [H1 H2]. unfold nextBackoff.
  rewrite i64_small by lia. unfold backoff_wait in *. rewrite Z.pow_add_r by lia.
  destruct (Z.gtb_spec (Z.min (InitialInterval c * 2 ^ k) (MaxInterval c) * 2) (MaxInterval c)); lia.
Qed.

(** The state after [k] failures in a row. *)
Definition backoff_after (c : BackoffConfig) (k : Z) : backoff := mkBackoffState (backoff_wait c k) k.

Lemma fresh_backoff_after c : backoff_ok c -> fresh_backoff c = backoff_after c 0.
Proof. intros [H1 H2]. unfold fresh_backoff, backoff_after, backoff_wait. f_equal. lia. Qed.

Definition retries_left (c : BackoffConfig) (k : Z) : bool := (MaxRetries c <=? 0) || (k <? MaxRetries c).

Lemma retries_left_spec c k : retries_left c k = true <-> MaxRetries c <= 0 \/ k < MaxRetries c.
Proof. unfold retries_left. by rewrite orb_true_iff, Z.leb_le, Z.ltb_lt. Qed.

Lemma retries_over_spec c k : retries_left c k = false <-> 0 < MaxRetries c <= k.
Proof. unfold retries_left. rewrite orb_false_iff, Z.leb_gt, Z.ltb_ge. lia. Qed.

Lemma sleepBackoff_after c k : backoff_ok c -> 0 <= k ->
  sleepBackoff c false (backoff_after c k) = if retries_left c k then Some (backoff_wait c k, backoff_after c (k + 1)) else None.
Proof.
  intros Hc Hk. unfold sleepBackoff, retries_left, backoff_after. cbn [bo_interval bo_retries]. rewrite nextBackoff_wait by done.
  destruct (Z.gtb_spec (MaxRetries c) 0), (Z.leb_spec (MaxRetries c) 0), (Z.geb_spec k (MaxRetries c)), (Z.ltb_spec k (MaxRetries c)); cbn; try lia; done.
Qed.

(** [n] attempts in a row that do not connect, after [k] others. *)
Lemma failures_wait {E} c (rest : list (attempt E * cancel)) n : backoff_ok c -> forall k, 0 <= k ->
  retries_left c (k + Z.of_nat n - 1) = true ->
  reconnectLoop c (backoff_after c k) (replicate n (Unreachable, NoCancel) ++ rest) =
    let '(events, waits, ended) := reconnectLoop c (backoff_after c (k + Z.of_nat n)) rest in
    (events, map (backoff_wait c) (seqZ k (Z.of_nat n)) ++ waits, ended).
Proof.
  intros Hc. induction n as [|n IH]; intros k Hk Hr.
  - rewrite Z.add_0_r. cbn. by destruct (reconnectLoop _ _ _) as [[? ?] ?].
  - cbn [replicate app reconnectLoop]. rewrite sleepBackoff_after by done.
    apply retries_left_spec in Hr as Hr'. rewrite (proj2 (retries_left_spec c k)) by lia.
    rewrite IH; [|lia|apply retries_left_spec; lia].
    replace (k + 1 + Z.of_nat n) with (k + Z.of_nat (S n)) by lia.
    destruct (reconnectLoop _ (backoff_after c (k + Z.of_nat (S n))) rest) as [[events waits] ended].
    rewrite (seqZ_cons k) by lia. cbn [map app]. by replace (Z.pred (Z.of_nat (S n))) with (Z.of_nat n) by lia.
Qed.

Lemma waits_in_range {E} c (run : list (attempt E * cancel)) : backoff_ok c -> forall k, 0 <= k ->
  let '(_, waits, _) := reconnectLoop c (backoff_after c k) run in
  Forall (fun w => InitialInterval c <= w <= MaxInterval c) waits.
Proof.
  intros Hc. induction run as [|[a stop] run IH]; intros k Hk; [by constructor|]. cbn [reconnectLoop].
  assert (Hstep : forall (events : list E) k stopped, 0 <= k ->
    let '(_, waits, _) := match sleepBackoff c stopped (backoff_after c k) with
      | None => (events, [], true)
      | Some (wait, b) => let '(more, waits, ended) := reconnectLoop c b run in (events ++ more, wait :: waits, ended)
      end in Forall (fun w => InitialInterval c <= w <= MaxInterval c) waits).
  { intros events j stopped Hj. destruct stopped.
    { unfold sleepBackoff. destruct ((MaxRetries c >? 0) && _); by constructor. }
    rewrite sleepBackoff_after by done. destruct (retries_left c j); [|by constructor].
    specialize (IH (j + 1) ltac:(lia)). destruct (reconnectLoop c (backoff_after c (j + 1)) run) as [[? ?] ?].
    constructor; [by apply backoff_wait_range|done]. }
  destruct a as [|events]; cbn [fst snd]; [|rewrite fresh_backoff_after by done]; destruct stop; try (by constructor); by apply Hstep.
Qed.

(** A stream that is lost is tried again after waits that double up to the limit *)
Theorem reconnect_waits {E} c n (rest : list (attempt E * cancel)) : backoff_ok c ->
  reconnectLoop c (fresh_backoff c) (replicate n (Unreachable, NoCancel) ++ rest) =
    (if retries_left c (Z.of_nat n - 1) then
       let '(events, waits, ended) := reconnectLoop c (backoff_after c (Z.of_nat n)) rest in
       (events, map (backoff_wait c) (seqZ 0 (Z.of_nat n)) ++ waits, ended)
     else ([], map (backoff_wait c) (seqZ 0 (MaxRetries c)), true)) /\
  (forall b events,
     reconnectLoop c b ((Streamed events, NoCancel) :: rest) =
       let '(more, waits, ended) := reconnectLoop c (backoff_after c 1) rest in (events ++ more, InitialInterval c :: waits, ended)) /\
  (let '(_, waits, _) := reconnectLoop c (fresh_backoff c) rest in Forall (fun w => InitialInterval c <= w <= MaxInterval c) waits).
Proof.
  intros Hc. rewrite fresh_backoff_after by done. split_and!.
  - destruct (retries_left c (Z.of_nat n - 1)) eqn:Hr; [by rewrite (failures_wait c rest n Hc 0) by done|].
    apply retries_over_spec in Hr. replace n with (Z.to_nat (MaxRetries c) + S (n - Z.to_nat (MaxRetries c) - 1))%nat by lia.
    rewrite replicate_add, <- app_assoc, failures_wait; [|done..|apply retries_left_spec; lia].
    cbn [replicate app reconnectLoop]. rewrite sleepBackoff_after by (lia || done).
    rewrite (proj2 (retries_over_spec c _)) by lia. by rewrite app_nil_r, Z2Nat.id by lia.
  - intros b events. cbn [reconnectLoop]. rewrite fresh_backoff_after, sleepBackoff_after by done.
    rewrite (proj2 (retries_left_spec c 0)) by lia. unfold backoff_wait. destruct Hc.
    by rewrite Z.mul_1_r, Z.min_l by lia.
  - apply waits_in_range; [done|lia].
Qed.

(** * Sessions against the server *)

(** A request of the client carries no key. *)
Definition client_request (r : route) : http_request := mkHTTPRequest false "" "" r.
Definition exchange (sv : Server) (c : Call) (r : route) (b : Broker) : Broker * reply := ServeHTTP sv c (client_request r) b.
Definition via (sv : Server) (c : Call) (b : Broker) : transport := fun r => Some (exchange sv c r b).2.

(** The loop of [handleSSE]: each read runs against the journal files and the ring
    as they are then; a wait reads again, an error ends the stream. *)
Fixpoint stream_loop (views : list (option (list JournalFile) * Ring)) (k : Consumer.Consumer) : Consumer.Consumer * list Frame :=
  match views with
  | [] => (k, [])
  | (dir, r) :: views =>
      match Next dir r k with
      | (k, NextFrame f) => let '(k', frames) := stream_loop views k in (k', f :: frames)
      | (k, NextWait) => stream_loop views k
      | (k, _) => (k, [])
      end
  end.

Section Episodes.
Context (log : Z -> option ringEntry) (sv : Server).

(** What the reads see is the log. *)
Definition view_in_log (v : option (list JournalFile) * Ring) : Prop := ring_in_log log v.2 /\ Forall (file_law log) (default [] v.1).

(** The frame [s] came in the stream, or its filter left it out, at one of the
    reads, which saw the ring start where [views] says. *)
Definition accounted (views : list (option (list JournalFile) * Ring)) (f : option resolvedFilter) (frames : list Frame) (s : Z) : Prop :=
  exists v, v ∈ views /\
    (skipped log (tail v.2) f s \/ exists fr, fr ∈ frames /\ f_Seq fr = s /\ delivers log (tail v.2) f fr).

(** A stream the client read: what each read saw, its filter and its frames. *)
Record stream_read := mkStreamRead {
  sr_views : list (option (list JournalFile) * Ring);
  sr_filter : option resolvedFilter;
  sr_frames : list Frame
}.

Definition seen_in (streams : list stream_read) (s : Z) : Prop :=
  exists st, st ∈ streams /\ accounted (sr_views st) (sr_filter st) (sr_frames st) s.

Lemma accounted_later v views f frames more s : accounted views f frames s -> (forall fr, fr ∈ frames -> fr ∈ more) ->
  accounted (v :: views) f more s.
Proof.
  intros (w & Hw & H) Hm. exists w. split; [by apply elem_of_cons; right|].
  destruct H as [H|(x & Hx & H)]; [by left|right]. exists x. split; [by apply Hm|done].
Qed.

Lemma stream_loop_accounts views : Forall view_in_log views -> forall k k' frames,
  journal_law log (Consumer.journal k) -> 0 <= cursor k < 2 ^ 64 -> stream_loop views k = (k', frames) ->
  cursor k <= cursor k' < 2 ^ 64 /\ forall s, cursor k <= s < cursor k' -> accounted views (Consumer.filter k) frames s.
Proof.
  induction 1 as [|[dir r] views [Hr Hd] _ IH]; intros k k' frames Hj Hc Hs; cbn [stream_loop] in Hs.
  { injection Hs as <- <-. split; [lia|]. intros; lia. }
  destruct (Next dir r k) as [k1 res] eqn:En.
  pose proof (Next_sound log dir r k k1 res Hr Hd Hj Hc En) as (Hf & Hj1 & Hc1 & Hres).
  assert (Hskip : forall a, all_skipped log (tail r) (Consumer.filter k) (cursor k) a ->
    cursor k <= a /\ forall s fs, cursor k <= s < a -> accounted ((dir, r) :: views) (Consumer.filter k) fs s).
  { intros a [H1 H2]. split; [done|]. intros s fs Hin. exists (dir, r). split; [by apply elem_of_cons; left|left]. by apply H2. }
  destruct res as [fr| | |].
  - destruct (stream_loop views k1) as [k2 fs] eqn:El. injection Hs as <- <-.
    destruct (IH k1 k2 fs Hj1 Hc1 El) as [H1 H2]. destruct Hres as (Ha & Hn & Hdel). apply Hskip in Ha as [Hle Ha].
    rewrite Hf in H2. split; [lia|]. intros s Hin. destruct (Z.lt_trichotomy s (f_Seq fr)) as [Hlt|[->|Hgt]]; [apply Ha; lia| |].
    + exists (dir, r). split; [by apply elem_of_cons; left|right]. exists fr. split; [by apply elem_of_cons; left|done].
    + apply (accounted_later _ _ _ fs); [apply H2; lia|]. intros x Hx. by apply elem_of_cons; right.
  - injection Hs as <- <-. apply Hskip in Hres as [H1 H2]. split; [lia|]. intros s. apply H2.
  - injection Hs as <- <-. apply Hskip in Hres as [H1 H2]. split; [lia|]. intros s. apply H2.
  - destruct Hres as [Hres _]. apply Hskip in Hres as [H1 H2]. destruct (IH k1 k' frames Hj1 Hc1 Hs) as [H3 H4].
    rewrite Hf in H4. split; [lia|]. intros s Hin. destruct (Z.lt_ge_cases s (cursor k1)); [apply H2; lia|].
    apply (accounted_later _ _ _ frames); [apply H4; lia|done].
Qed.

(** The client's session and the server it talks to; [cv_reached] is past every
    number its streams have come to. *)
Record client_view := mkClientView {
  cv_session : Session;
  cv_broker : Broker;
  cv_reached : Z;
  cv_streams : list stream_read
}.

Definition session_id (se : Session) : string := sc_ClientID (se_config se).
Definition acked (id : string) (b : Broker) : option Z := Cursor <$> sessions (b_state b) !! id.

(** A stream the client opens and reads until it breaks; an acknowledgement of a
    number a stream has come to; anything else the server does that leaves the
    cursor of the session. *)
Inductive session_step : client_view -> client_view -> Prop :=
| step_stream se b n streams c k views k' frames :
    Session_Subscribe (via sv c b) se = Ok (ConsumerStream k) -> Forall view_in_log views -> stream_loop views k = (k', frames) ->
    session_step (mkClientView se b n streams)
      (mkClientView se (exchange sv c (RouteSessionEvents (session_id se)) b).1 (Z.max n (cursor k')) (mkStreamRead views (Consumer.filter k) frames :: streams))
| step_ack se b n streams c seq se' :
    Ack (via sv c b) seq se = Ok se' -> 0 < seq < n ->
    session_step (mkClientView se b n streams) (mkClientView se' (exchange sv c (RouteAck (session_id se) (Some seq)) b).1 n streams)
| step_elsewhere se b n streams b' :
    acked (session_id se) b' = acked (session_id se) b -> session_step (mkClientView se b n streams) (mkClientView se b' n streams).

(** A request that succeeds is the handler's answer. *)
Lemma via_handler c b name ok r body : do_request (via sv c b) name ok r = Ok body -> ok <> 401 ->
  exists b', exchange sv c r b = (b', mkReply ok body) /\ route_handler sv c r b = (b', mkReply ok body).
Proof.
  unfold do_request, via. destruct (exchange sv c r b) as [b' [co bo]] eqn:E. cbn. destruct (Z.eqb_spec co ok) as [->|]; [|done].
  intros [= ->] Hok. exists b'. split; [done|]. revert E. unfold exchange, ServeHTTP. cbn [rq_options client_request rq_route].
  destruct (negb _ && _ && _); [|done]. by intros [= <- <-].
Qed.

Lemma subscribe_resumes c b se k a : Session_Subscribe (via sv c b) se = Ok (ConsumerStream k) ->
  acked (session_id se) b = Some a -> 0 < a < 2 ^ 64 - 1 ->
  cursor k = a + 1 /\ Consumer.journal k = None /\ acked (session_id se) (exchange sv c (RouteSessionEvents (session_id se)) b).1 = Some a.
Proof.
  intros (b' & E & H)%via_handler Ha Hr; [|done]. unfold session_id in *. rewrite E. cbn [route_handler fst] in *.
  revert H Ha. unfold handleSSE, acked, GetSession. destruct (sessions (b_state b) !! sc_ClientID (se_config se)) as [s|] eqn:Es; [|done].
  cbn [fmap option_fmap option_map]. intros H [= <-]. rewrite (proj2 (Z.ltb_lt 0 (Cursor s))) in H by lia. unfold NewConsumer, TouchSession in H.
  cbn in H. rewrite Es in H. injection H as <- <-. cbn. rewrite lookup_insert, decide_True by done. cbn. by rewrite wrap_small by lia.
Qed.

Lemma ack_moves c b se seq se' : Ack (via sv c b) seq se = Ok se' ->
  session_id se' = session_id se /\ acked (session_id se) (exchange sv c (RouteAck (session_id se) (Some seq)) b).1 = Some seq.
Proof.
  unfold Ack. destruct (do_request _ _ _ _) as [body|] eqn:H; [|done]. cbn [mbind result_bind]. intros [= <-]. split; [done|].
  apply via_handler in H as (b' & E & H); [|done]. unfold session_id in *. rewrite E. cbn [route_handler fst] in *.
  revert H. unfold handleAck, AckSession, acked. destruct (sessions (b_state b) !! sc_ClientID (se_config se)); [|done].
  intros [= <- _]. cbn. by rewrite lookup_insert, decide_True.
Qed.

(** From cursor [a] on: the numbers up to the cursor and below [cv_reached] are
    accounted for. *)
Definition session_safe (a : Z) (v : client_view) : Prop :=
  exists cur, acked (session_id (cv_session v)) (cv_broker v) = Some cur /\ 0 < cur < 2 ^ 64 - 1 /\ cv_reached v < 2 ^ 64 /\
    forall s, a < s -> s <= cur \/ s < cv_reached v -> seen_in (cv_streams v) s.

Lemma seen_in_more st streams s : seen_in streams s -> seen_in (st :: streams) s.
Proof. intros (x & Hx & Hs). exists x. split; [by apply elem_of_cons; right|done]. Qed.

Lemma session_step_safe a v v' : session_step v v' -> session_safe a v -> session_safe a v'.
Proof.
  intros Hstep (cur & Ha & Hcur & Hn & Hsafe). destruct Hstep as [se b n streams c k views k' frames Hk Hv Hl|se b n streams c seq se' Hack Hseq|se b n streams b' Hb];
    unfold session_safe; cbn [cv_session cv_broker cv_reached cv_streams] in *.
  - destruct (subscribe_resumes c b se k cur Hk Ha Hcur) as (Hc & Hj & Ha').
    destruct (stream_loop_accounts views Hv k k' frames) as [Hr Hacc]; [by rewrite Hj|lia|done|].
    exists cur. split_and!; try done; try lia. intros s Hs Hin.
    destruct (Z.le_gt_cases s cur); [apply seen_in_more, Hsafe; [done|by left]|].
    destruct (Z.lt_ge_cases s n); [apply seen_in_more, Hsafe; [done|by right]|].
    exists (mkStreamRead views (Consumer.filter k) frames). split; [by apply elem_of_cons; left|]. apply Hacc. lia.
  - destruct (ack_moves c b se seq se' Hack) as [Hid Ha']. exists seq. rewrite Hid. split_and!; try done; try lia.
    intros s Hs Hin. apply Hsafe; [done|]. right. lia.
  - exists cur. by rewrite Hb.
Qed.


End Episodes.

(** * Concrete runs *)

Definition demo_filter : Filter := mkFilter [129025; 127250] [60928] ["Garmin & Co; 100%+"%string] [0; 7] ["00a1b2c3d4e5f607"%string] [].
Definition demo_config (f : option Filter) : SessionConfig := mkSessionConfig "app" "PT5M" f.

Lemma filter_travels_witness :
  filter_fits demo_filter /\
  exists e, ParseFilterParams (request_filter (stream_query (Some demo_filter))) = Ok (Some e) /\
    session_filter (ss_Filter (session_body (demo_config (Some demo_filter)))) = Ok (Some e).
Proof.
  assert (Hf : filter_fits demo_filter) by (repeat split; repeat constructor; lia).
  split; [exact Hf|]. destruct (filter_travels (demo_config (Some demo_filter)) demo_filter Hf) as [H1 H2].
  rewrite H1, (H2 eq_refl). eexists. split; vm_compute; reflexivity.
Defined.

(** The default waits with seven retries: the eighth failure ends the loop; after a
    stream the waits start again. *)
Definition demo_backoff : BackoffConfig := mkBackoff second (30 * second) 7.

Lemma reconnect_waits_witness :
  backoff_ok demo_backoff /\
  reconnectLoop demo_backoff (fresh_backoff demo_backoff) (replicate 9 (Unreachable, NoCancel) ++ [(Streamed [5], NoCancel)]) =
    ([], map (fun k => k * second) [1; 2; 4; 8; 16; 30; 30], true).
Proof.
  assert (Hc : backoff_ok demo_backoff) by (split; vm_compute; split; congruence).
  split; [exact Hc|]. destruct (reconnect_waits demo_backoff 9 [(Streamed [5], NoCancel)] Hc) as [H _].
  rewrite H. vm_compute. reflexivity.
Defined.

Definition demo_session : Session := mkSession (demo_config None) NoBody 1.
Definition demo_session_boat : Broker :=
  with_sessions demo_boat {["app"%string := mkClientSession "app" 1 (5 * minute) 1000 None]}.
Definition demo_open_server : Server := NewServer (mkSendPolicy true []).
Definition demo_views : list (option (list JournalFile) * Ring) := replicate 5 (Some [demo_file], demo_ring).

Lemma demo_views_in_log : Forall (view_in_log demo_log) demo_views.
Proof.
  apply Forall_replicate. split; [apply demo_ring_in_log|]. apply Forall_cons. split; [apply demo_file_law|by apply Forall_nil].
Qed.

(** A stream of frames 2 to 6, of which the client acknowledges 5. *)
Definition demo_stream : Consumer.Consumer := Consumer.mkConsumer 2 None None.
Definition demo_streamed : Consumer.Consumer * list Frame := Eval vm_compute in stream_loop demo_views demo_stream.
Definition demo_session_end : client_view :=
  mkClientView (mkSession (demo_config None) NoBody 5)
    (exchange demo_open_server demo_call (RouteAck "app" (Some 5))
       (exchange demo_open_server demo_call (RouteSessionEvents "app") demo_session_boat).1).1
    7 [mkStreamRead demo_views None demo_streamed.2].

Lemma demo_session_run :
  rtc (session_step demo_log demo_open_server) (mkClientView demo_session demo_session_boat 0 []) demo_session_end.
Proof.
  eapply rtc_l.
  { apply (step_stream _ _ demo_session demo_session_boat 0 [] demo_call demo_stream demo_views demo_streamed.1 demo_streamed.2);
      [vm_compute; reflexivity|apply demo_views_in_log|vm_compute; reflexivity]. }
  eapply rtc_l; [|apply rtc_refl].
  refine (step_ack _ _ demo_session _ 7 [mkStreamRead demo_views None demo_streamed.2] demo_call 5 (mkSession (demo_config None) NoBody 5) _ _);
    [vm_compute; reflexivity|lia].
Qed.


(** A session without an acknowledgement resumes after the newest frame, whatever
    was sent to it before. *)
Example unacked_session_is_live :
  match Session_Subscribe (via demo_open_server demo_call
          (with_ring (with_sessions demo_boat {["app"%string := mkClientSession "app" 0 (5 * minute) 1000 None]}) demo_ring)) demo_session with
  | Ok (ConsumerStream k) => cursor k
  | _ => 0
  end = 7.
Proof. vm_compute. reflexivity. Qed.
