(* ===== verification/Dump.v ===== *)
(** Streams and replays at the terminal: [cmd/lplex/cmd_dump.go], [decode.go],
    [devices_table.go] and [cmd_tail.go].

    [lplex dump] shows the frames of a live stream or of journal files through the
    same filters; what is printed for a frame is not modelled, which frames are
    shown and with what change is. *)

From S2P Require Import RequestRules Prelude Diff ChangeTracker CanId GoNum SendPolicy JournalFormat JournalReader FilterLang Ring Devices Filters Values Broker Consumer Server GoUrl Client.

(** * Devices *)

(** [lplexc.Device], without its traffic. *)
Record ClientDevice := mkClientDevice {
  cd_Src : Z;
  cd_Name : string;
  cd_Manufacturer : string;
  cd_ManufacturerCode : Z;
  cd_DeviceClass : Z;
  cd_DeviceFunction : Z;
  cd_DeviceInstance : Z;
  cd_UniqueNumber : Z;
  cd_ModelID : string;
  cd_SoftwareVersion : string;
  cd_ModelVersion : string;
  cd_ModelSerial : string;
  cd_ProductCode : Z
}.

Abbreviation deviceMap := (gmap Z ClientDevice).

Definition update (d : ClientDevice) (dm : deviceMap) : deviceMap := <[cd_Src d := d]> dm.
Definition loadAll (ds : list ClientDevice) (dm : deviceMap) : deviceMap := foldl (fun dm d => update d dm) dm ds.

Definition journal_device (jd : JDevice) : ClientDevice :=
  let fields := DecodeNAME (jd_NAME jd) in
  mkClientDevice (jd_Source jd) (NAMEHex fields) (CanId.Manufacturer fields) (CanId.ManufacturerCode fields) (CanId.DeviceClass fields)
    (CanId.DeviceFunction fields) (CanId.DeviceInstance fields) (CanId.UniqueNumber fields) (jd_ModelID jd) (jd_SoftwareVersion jd)
    (jd_ModelVersion jd) (jd_ModelSerial jd) (jd_ProductCode jd).

Definition loadDeviceTable (table : list JDevice) (dm : deviceMap) : deviceMap := loadAll (map journal_device table) dm.

(** * Filters *)

(** The filter flags of a command. *)
Record frame_flags := mkFrameFlags {
  ff_pgns : list Z;
  ff_excludePGNs : list Z;
  ff_manufacturers : list string;
  ff_instances : list Z;
  ff_names : list string;
  ff_excludeNames : list string
}.

Definition no_flags (ff : frame_flags) : bool :=
  is_nil (ff_pgns ff) && is_nil (ff_excludePGNs ff) && is_nil (ff_manufacturers ff) && is_nil (ff_instances ff) && is_nil (ff_names ff) &&
  is_nil (ff_excludeNames ff).

Definition buildFilter (ff : frame_flags) : option Client.Filter :=
  if no_flags ff then None
  else Some (Client.mkFilter (map u32 (ff_pgns ff)) (map u32 (ff_excludePGNs ff)) (ff_manufacturers ff) (map u8 (ff_instances ff))
               (ff_names ff) (ff_excludeNames ff)).

(** The names that are the device's, letters of either case. *)
Definition named (dev : ClientDevice) (names : list string) : bool := existsb (EqualFold (cd_Name dev)) names.

Definition matchesReplayFilter (header : CANHeader) (devices : deviceMap) (ff : frame_flags) : bool :=
  if no_flags ff then true
  else if negb (is_nil (ff_pgns ff)) && negb (existsb (fun p => u32 p =? PGN header) (ff_pgns ff)) then false
  else if existsb (fun p => u32 p =? PGN header) (ff_excludePGNs ff) then false
  else if match devices !! Source header with
          | Some dev => named dev (ff_excludeNames ff)
          | None => false
          end then false
  else if negb (is_nil (ff_manufacturers ff)) || negb (is_nil (ff_instances ff)) || negb (is_nil (ff_names ff)) then
    match devices !! Source header with
    | None => false
    | Some dev =>
        if negb (is_nil (ff_manufacturers ff)) && negb (existsb (EqualFold (cd_Manufacturer dev)) (ff_manufacturers ff)) then false
        else if negb (is_nil (ff_instances ff)) && negb (existsb (fun i => u8 i =? cd_DeviceInstance dev) (ff_instances ff)) then false
        else if negb (is_nil (ff_names ff)) && negb (named dev (ff_names ff)) then false
        else true
    end
  else true.

(** * Frames *)

(** [lplexc.Frame]: the server's frame without its bus. *)
Definition entryToFrame (e : Entry) (seq : Z) : frameJSON :=
  let h := e_Header e in
  mkFrameJSON seq (e_Timestamp e) "" (Priority h) (PGN h) (Source h) (Destination h) (hex_encode (e_Data e)).

Section Display.
(** The registry of decoders, and the names a decoded value gives its numbers. *)
Context (Decode : Z -> option (list Z -> option go_value)) (LookupFields : go_value -> option (gmap string string)).

(** The value, if there is a decoder and the data is hexadecimal. *)
Definition decodeFrameRaw (f : frameJSON) : option go_value :=
  decode ← Decode (fj_PGN f);
  data ← hex_DecodeString (fj_Data f);
  decode data.

Definition device_lookups (prefix : string) (src : Z) (dm : deviceMap) (lookups : gmap string string) : gmap string string :=
  match dm !! src with
  | Some d => <[(prefix ++ ".name")%string := cd_Name d]> (<[(prefix ++ ".model_id")%string := cd_ModelID d]>
                (<[(prefix ++ ".manufacturer")%string := cd_Manufacturer d]> lookups))
  | None => lookups
  end.

Definition matchesDisplayFilter (df : option FilterLang.Filter) (f : frameJSON) (decoded : option go_value) (dm : deviceMap) : bool :=
  match df with
  | None => true
  | Some df =>
      let lookups := default ∅ (v ← decoded; LookupFields v) in
      let lookups := device_lookups "src" (fj_Src f) dm lookups in
      let lookups := device_lookups "dst" (fj_Dst f) dm lookups in
      Match df (mkEvalContext (fj_PGN f) (fj_Src f) (fj_Dst f) (fj_Prio f) decoded (Some lookups))
  end.

(** * What is shown *)

(** An idle pair, or a frame with its change and, for a delta, the bytes of the
    difference and of the payload. *)
Inductive shown :=
| ShownIdle (e : ChangeEvent)
| ShownFrame (f : frameJSON) (change : option (ChangeEventType * nat * nat)).

Context {Other : Type} `{EqDecision Other} (Registry : gmap Z (@RegistryInfo Other)) (tick_order : ChangeTracker -> list trackerKey).

(** The flags of a command that decide what is shown. *)
Record display := mkDisplay { ds_decode : bool; ds_filter : option FilterLang.Filter }.

(** The devices, the tracker with [--changes], the frames that matched. *)
Record dump_state := mkDumpState { du_devices : deviceMap; du_tracker : option ChangeTracker; du_matched : Z }.

Definition with_tracker (s : dump_state) (ct : option ChangeTracker) : dump_state := mkDumpState (du_devices s) ct (du_matched s).

(** From the tracker to the screen, the same for replays and streams; [None] is a
    panic of a diff method. *)
Definition show_frame (ds : display) (ts : time) (data : list Z) (f : frameJSON) (s : dump_state) : option (dump_state * list shown) :=
  let screen change :=
    let decoded := if ds_decode ds || bool_decide (is_Some (ds_filter ds)) then decodeFrameRaw f else None in
    if matchesDisplayFilter (ds_filter ds) f decoded (du_devices s) then [ShownFrame f change] else [] in
  match du_tracker s with
  | None => Some (s, screen None)
  | Some ct =>
      '(ct, ev) ← Process ts (fj_Src f) (fj_PGN f) data (fj_Seq f) ct;
      let s := with_tracker s (Some ct) in
      match ev with
      | None => Some (s, [])
      | Some ce =>
          Some (s, screen (Some (ev_Type ce,
            match ev_Type ce with Delta => length (ev_Data ce) | _ => 0%nat end,
            match ev_Type ce with Delta => length data | _ => 0%nat end)))
      end
  end.

Definition tick (now : time) (s : dump_state) : dump_state * list shown :=
  match du_tracker s with
  | None => (s, [])
  | Some ct => let '(ct, evs) := Tick Registry now (tick_order ct) ct in (with_tracker s (Some ct), map ShownIdle evs)
  end.

(** ** A replay *)

(** A frame of the journal with its number and, where it is the first of a block,
    the table of the block. *)
Record replay_step := mkReplayStep { rs_entry : Entry; rs_seq : Z; rs_table : option (list JDevice) }.

Definition load_table (table : option (list JDevice)) (s : dump_state) : dump_state :=
  match table with Some t => mkDumpState (loadDeviceTable t (du_devices s)) (du_tracker s) (du_matched s) | None => s end.

Definition replay_frame (ff : frame_flags) (ds : display) (r : replay_step) (s : dump_state) : option (dump_state * list shown) :=
  let s := load_table (rs_table r) s in
  let e := rs_entry r in
  if negb (matchesReplayFilter (e_Header e) (du_devices s) ff) then Some (s, [])
  else
    let s := mkDumpState (du_devices s) (du_tracker s) (u64 (du_matched s + 1)) in
    let seq := if rs_seq r =? 0 then du_matched s else rs_seq r in
    let '(s, idles) := tick (e_Timestamp e) s in
    '(s, frames) ← show_frame ds (e_Timestamp e) (e_Data e) (entryToFrame e seq) s;
    Some (s, idles ++ frames).

Fixpoint runReplay (ff : frame_flags) (ds : display) (rs : list replay_step) (s : dump_state) : option (dump_state * list shown) :=
  match rs with
  | [] => Some (s, [])
  | r :: rs =>
      '(s, out) ← replay_frame ff ds r s;
      '(s, more) ← runReplay ff ds rs s;
      Some (s, out ++ more)
  end.

(** ** A stream *)

(** What the loop of [streamEvents] and its ticker see. *)
Inductive stream_input :=
| InDevice (d : ClientDevice)
| InFrame (f : frameJSON)
| InTick (now : time).

(** The PGNs are checked again. *)
Definition pgn_passes (f : option Client.Filter) (pgn : Z) : bool :=
  match f with
  | None => true
  | Some f => (is_nil (cf_PGNs f) || contains (cf_PGNs f) pgn) && negb (contains (cf_ExcludePGNs f) pgn)
  end.

Definition stream_event (f : option Client.Filter) (ds : display) (i : stream_input) (s : dump_state) : option (dump_state * list shown) :=
  match i with
  | InDevice d => Some (mkDumpState (update d (du_devices s)) (du_tracker s) (du_matched s), [])
  | InTick now => Some (tick now s)
  | InFrame fr =>
      if negb (pgn_passes f (fj_PGN fr)) then Some (s, [])
      else match du_tracker s, hex_DecodeString (fj_Data fr) with
           | Some _, None => Some (s, [])
           | _, data => show_frame ds (fj_Ts fr) (default [] data) fr s
           end
  end.

Fixpoint streamEvents (f : option Client.Filter) (ds : display) (ins : list stream_input) (s : dump_state) : option (dump_state * list shown) :=
  match ins with
  | [] => Some (s, [])
  | i :: ins =>
      '(s, out) ← stream_event f ds i s;
      '(s, more) ← streamEvents f ds ins s;
      Some (s, out ++ more)
  end.

(** The last number seen, which [runBuffered] acknowledges. *)
Definition lastSeq (ins : list stream_input) (last : Z) : Z :=
  foldl (fun last i => match i with InFrame f => if 0 <? fj_Seq f then fj_Seq f else last | _ => last end) last ins.

End Display.

(** * A replay shows what the stream showed *)

(** A NAME of the command line and the number the server reads. *)
Definition name_text (n : string) (v : Z) : Prop := 0 < v < 2 ^ 64 /\ ToLower n = hex016 v /\ ParseUint n 16 64 = Ok v.

(** A device as the server describes it. *)
Definition client_device (d : Device) : ClientDevice :=
  mkClientDevice (dev_Source d) (dev_NAMEHex d) (dev_Manufacturer d) (dev_ManufacturerCode d) (dev_DeviceClass d) (dev_DeviceFunction d)
    (dev_DeviceInstance d) (dev_UniqueNumber d) (ModelID d) (SoftwareVersion d) (ModelVersion d) (ModelSerial d) (ProductCode d).

(** The terminal knows the devices of the bus. *)
Definition knows (bus : string) (reg : DeviceRegistry) (dm : deviceMap) : Prop :=
  forall src, dm !! src = client_device <$> reg !! (bus, src).

(** The manufacturers of the flags are spelled as the server spells them: not by
    code, not in other letters. *)
Definition spelled (ms : list string) (reg : DeviceRegistry) : Prop :=
  forall k d m, reg !! k = Some d -> m ∈ ms ->
    EqualFold (dev_Manufacturer d) m = bool_decide (m = dev_Manufacturer d) || bool_decide (m = pretty (dev_ManufacturerCode d)).

(** The filter the server makes of the flags. *)
Definition flags_filter (ff : frame_flags) : result filter_param_error (option EventFilter) :=
  match buildFilter ff with None => Ok None | Some f => e ← filter_meaning f; Ok (Some e) end.

(** A device without a claim has no NAME text. *)
Definition unnamed_blank (reg : DeviceRegistry) : Prop := forall k d, reg !! k = Some d -> dev_NAME d = 0 -> dev_NAMEHex d = EmptyString.

Lemma hex_digit_lower d : 0 <= d < 16 -> RequestRules.lower (hex_digit d) = hex_digit d.
Proof. apply (hex_digits_all (fun d => RequestRules.lower (hex_digit d) = hex_digit d)). repeat constructor. Qed.

Lemma hex_pad_lower n : forall z acc, ToLower acc = acc -> ToLower (hex_pad n z acc) = hex_pad n z acc.
Proof.
  induction n as [|n IH]; intros z acc H; [done|]. cbn [hex_pad]. apply IH. cbn [ToLower]. rewrite H.
  by rewrite hex_digit_lower by (apply Z.mod_pos_bound; lia).
Qed.

Lemma name_text_matches d n v : device_ok d -> (dev_NAME d = 0 -> dev_NAMEHex d = EmptyString) -> name_text n v ->
  EqualFold (dev_NAMEHex d) n = (dev_NAME d =? v).
Proof.
  intros Hd Hb (Hv & Hn & _). unfold EqualFold. rewrite Hn. apply eq_true_iff_eq. rewrite bool_decide_eq_true, Z.eqb_eq.
  destruct (Z.eq_dec (dev_NAME d) 0) as [E0|E0].
  - rewrite Hb by done. split; [|lia]. intros E. exfalso. pose proof (ParseUint_hex v ltac:(lia)) as H. by rewrite <- E in H.
  - destruct (ok_identity _ Hd E0) as [-> _]. cbn [NAMEHex DecodeNAME]. unfold hex016 at 1. rewrite hex_pad_lower by done. fold (hex016 (dev_NAME d)).
    split; [|by intros ->]. intros E. pose proof (ParseUint_hex v ltac:(lia)) as H1. rewrite <- E, ParseUint_hex in H1 by apply Hd. by injection H1.
Qed.

Lemma names_match d ns vs : device_ok d -> (dev_NAME d = 0 -> dev_NAMEHex d = EmptyString) -> Forall2 name_text ns vs ->
  named (client_device d) ns = contains vs (dev_NAME d).
Proof.
  intros Hd Hb H. unfold named, contains. cbn [cd_Name client_device]. induction H as [|n v ns vs Hn _ IH]; [done|].
  cbn [existsb]. rewrite IH, (name_text_matches d n v) by done. apply eq_true_iff_eq.
  rewrite orb_true_iff, Z.eqb_eq, !bool_decide_eq_true, elem_of_cons. tauto.
Qed.

Lemma name_texts_parse {E} (err : string -> num_error -> E) ns vs : Forall2 name_text ns vs -> parse_uints err 16 64 ns = Ok vs.
Proof. induction 1 as [|n v ns vs (_ & _ & Hp) _ IH]; [done|]. cbn [parse_uints]. by rewrite Hp, IH. Qed.

Lemma existsb_contains (f : Z -> Z) l x : existsb (fun p => f p =? x) l = contains (map f l) x.
Proof.
  unfold contains. induction l as [|p l IH]; [done|]. cbn [existsb map]. rewrite IH. apply eq_true_iff_eq.
  rewrite orb_true_iff, Z.eqb_eq, !bool_decide_eq_true, elem_of_cons. intuition congruence.
Qed.

Lemma nonempty_is_nil {A} (l : list A) : nonempty l = negb (is_nil l).
Proof. by destruct l. Qed.

(** The filter of flags whose NAMEs are these numbers. *)
Definition flags_event (ff : frame_flags) (vs xs : list Z) : option EventFilter :=
  if no_flags ff then None
  else Some (mkEventFilter (map u32 (ff_pgns ff)) (map u32 (ff_excludePGNs ff)) (ff_manufacturers ff) (map u8 (ff_instances ff)) vs xs []).

Lemma flags_filter_value ff vs xs : Forall2 name_text (ff_names ff) vs -> Forall2 name_text (ff_excludeNames ff) xs ->
  flags_filter ff = Ok (flags_event ff vs xs).
Proof.
  intros Hv Hx. unfold flags_filter, flags_event, buildFilter. destruct (no_flags ff); [done|]. unfold filter_meaning.
  cbn [cf_PGNs cf_ExcludePGNs cf_Manufacturers cf_Instances cf_Names cf_ExcludeNames].
  by rewrite !(name_texts_parse _ _ _ Hv), !(name_texts_parse _ _ _ Hx).
Qed.

Lemma Forall2_is_nil {A B} (R : A -> B -> Prop) l k : Forall2 R l k -> is_nil l = is_nil k.
Proof. by destruct 1. Qed.

Lemma is_nil_map {A B} (f : A -> B) l : is_nil (map f l) = is_nil l.
Proof. by destruct l. Qed.

Lemma spelled_matches ff vs xs d k reg : spelled (ff_manufacturers ff) reg -> reg !! k = Some d ->
  existsb (EqualFold (dev_Manufacturer d)) (ff_manufacturers ff) =
  matchesManufacturer (mkEventFilter (map u32 (ff_pgns ff)) (map u32 (ff_excludePGNs ff)) (ff_manufacturers ff) (map u8 (ff_instances ff)) vs xs []) d.
Proof.
  intros Hs Hk. unfold matchesManufacturer. cbn [Manufacturers]. unfold spelled in Hs. induction (ff_manufacturers ff) as [|m ms IH]; [done|].
  cbn [existsb]. rewrite (Hs k d m Hk) by (by apply elem_of_cons; left). f_equal. apply IH. intros k' d' m' H1 H2. apply (Hs k'); [done|].
  by apply elem_of_cons; right.
Qed.

Lemma replay_filter_agrees bus reg dm ff vs xs h :
  registry_ok reg -> unnamed_blank reg -> knows bus reg dm -> spelled (ff_manufacturers ff) reg ->
  Forall2 name_text (ff_names ff) vs -> Forall2 name_text (ff_excludeNames ff) xs ->
  matchesReplayFilter h dm ff = matches (flags_event ff vs xs) bus h reg.
Proof.
  intros Hreg Hb Hk Hs Hv Hx. unfold matchesReplayFilter, flags_event. destruct (no_flags ff) eqn:En; [done|].
  unfold matches. assert (He : Filters.IsEmpty (Some (mkEventFilter (map u32 (ff_pgns ff)) (map u32 (ff_excludePGNs ff)) (ff_manufacturers ff) (map u8 (ff_instances ff)) vs xs [])) = false).
  { unfold Filters.IsEmpty. cbn [PGNs ExcludePGNs Manufacturers Instances Names ExcludeNames Buses]. rewrite !nonempty_is_nil, !negb_involutive, !is_nil_map.
    rewrite <- (Forall2_is_nil _ _ _ Hv), <- (Forall2_is_nil _ _ _ Hx). unfold no_flags in En. by rewrite En. }
  rewrite He. unfold device_criteria, matchesDevice. cbn [PGNs ExcludePGNs Manufacturers Instances Names ExcludeNames Buses].
  rewrite !nonempty_is_nil, !is_nil_map, !existsb_contains, <- (Forall2_is_nil _ _ _ Hv), <- (Forall2_is_nil _ _ _ Hx). cbn [is_nil negb andb].
  rewrite !Hk. unfold Get. destruct (reg !! (bus, Source h)) as [d|] eqn:Ed; cbn [fmap option_fmap option_map].
  - pose proof (ok_entry _ Hreg _ _ Ed) as [_ Hd]. rewrite !(names_match d _ _ Hd (Hb _ _ Ed) Hv), !(names_match d _ _ Hd (Hb _ _ Ed) Hx).
    cbn [cd_Manufacturer cd_DeviceInstance client_device]. rewrite (spelled_matches ff vs xs d _ reg Hs Ed), existsb_contains.
    destruct (negb (is_nil (ff_pgns ff)) && _); [done|].
    assert (Hc : forall A (l : list A) c, (is_nil l = true -> c = false) -> negb (is_nil l) && c = c) by (intros A [|] c Hc; [symmetry; by apply Hc|done]).
    rewrite (Hc _ (ff_excludePGNs ff)) by (by destruct (ff_excludePGNs ff)). destruct (contains (map u32 (ff_excludePGNs ff)) (PGN h)); [done|].
    rewrite (Hc _ (ff_excludeNames ff)) by (intros Hn; destruct (ff_excludeNames ff); [by inversion Hx|done]). destruct (contains xs (dev_NAME d)); [done|].
    destruct (is_nil (ff_manufacturers ff)), (is_nil (ff_instances ff)), (is_nil (ff_names ff)); reflexivity.
  - rewrite andb_false_r. destruct (negb (is_nil (ff_pgns ff)) && _); [done|]. destruct (ff_excludePGNs ff) as [|p ps]; [cbn [map]|];
      cbn [is_nil negb andb]; destruct (contains _ (PGN h)) eqn:Ec; try done; by destruct (is_nil (ff_manufacturers ff)), (is_nil (ff_instances ff)), (is_nil (ff_names ff)).
Qed.

Section Agreement.
Context (Decode : Z -> option (list Z -> option go_value)) (LookupFields : go_value -> option (gmap string string)).
Context {Other : Type} `{EqDecision Other} (Registry : gmap Z (@RegistryInfo Other)) (tick_order : ChangeTracker -> list trackerKey).
Context (bus : string).

(** What the server sends a stream for a frame of the journal while its registry is
    [reg]: the devices of a new block, and the frame if the filter lets it through. *)
Definition streamed (fe : option EventFilter) (x : replay_step * DeviceRegistry) : list stream_input :=
  let e := rs_entry x.1 in
  map (fun jd => InDevice (journal_device jd)) (default [] (rs_table x.1)) ++
  if matches fe bus (e_Header e) x.2 then [InFrame (entryToFrame e (rs_seq x.1))] else [].

(** The stream without the turns of its ticker, which come every 500 ms. *)
Definition unticked (ins : list stream_input) : list stream_input :=
  List.filter (fun i => match i with InTick _ => false | _ => true end) ins.

(** The terminal's devices are those of the registry at every frame. *)
Fixpoint knows_along (xs : list (replay_step * DeviceRegistry)) (dm : deviceMap) : Prop :=
  match xs with
  | [] => True
  | x :: xs => let dm := loadDeviceTable (default [] (rs_table x.1)) dm in knows bus x.2 dm /\ knows_along xs dm
  end.

Record step_fits (ff : frame_flags) (x : replay_step * DeviceRegistry) : Prop := {
  sf_seq : rs_seq x.1 <> 0;
  sf_data : bytes_ok (e_Data (rs_entry x.1));
  sf_registry : registry_ok x.2;
  sf_blank : unnamed_blank x.2;
  sf_spelled : spelled (ff_manufacturers ff) x.2
}.

(** States that differ only in the count of frames. *)
Definition alike (s s' : dump_state) : Prop := du_devices s = du_devices s' /\ du_tracker s = du_tracker s'.

Definition alike_out (a b : option (dump_state * list shown)) : Prop :=
  match a, b with
  | Some (s, out), Some (s', out') => alike s s' /\ out = out'
  | None, None => True
  | _, _ => False
  end.

Lemma show_alike ds ts data f s s' : alike s s' ->
  alike_out (show_frame Decode LookupFields ds ts data f s) (show_frame Decode LookupFields ds ts data f s').
Proof.
  intros Ha. pose proof Ha as [H1 H2]. unfold show_frame. rewrite <- H1, <- H2. destruct (du_tracker s) as [ct|]; [|done].
  destruct (Process _ _ _ _ _ _) as [[ct' [ce|]]|]; cbn [alike_out mbind option_bind with_tracker]; unfold alike; cbn; rewrite ?H1; repeat split.
Qed.

Lemma show_devices ds ts data f s s1 out : show_frame Decode LookupFields ds ts data f s = Some (s1, out) -> du_devices s1 = du_devices s.
Proof.
  unfold show_frame. destruct (du_tracker s) as [ct|]; [|by intros [= <- <-]].
  destruct (Process _ _ _ _ _ _) as [[ct' [ce|]]|]; [by intros [= <- <-]..|done].
Qed.

(** Without [--changes] the ticker does nothing. *)
Lemma stream_unticked f ds ins : forall s, du_tracker s = None ->
  streamEvents Decode LookupFields Registry tick_order f ds ins s = streamEvents Decode LookupFields Registry tick_order f ds (unticked ins) s.
Proof.
  induction ins as [|i ins IH]; intros s Hs; [done|]. unfold unticked. cbn [List.filter]. fold (unticked ins).
  assert (Hnext : forall s1 out, stream_event Decode LookupFields Registry tick_order f ds i s = Some (s1, out) -> du_tracker s1 = None).
  { intros s1 out. destruct i as [d|fr|now]; cbn [stream_event]; [by intros [= <- _]| |unfold tick; rewrite Hs; by intros [= <- _]].
    destruct (negb _); [by intros [= <- _]|]. rewrite Hs. unfold show_frame. rewrite Hs. by intros [= <- _]. }
  destruct i as [d|fr|now]; cbn [streamEvents].
  1, 2: destruct (stream_event _ _ _ _ _ _ _ s) as [[s1 out]|]; [|done]; cbn [mbind option_bind]; by rewrite (IH s1 (Hnext s1 out eq_refl)).
  cbn [stream_event]. unfold tick. rewrite Hs. cbn [mbind option_bind]. rewrite (IH s Hs). by destruct (streamEvents _ _ _ _ _ _ _ s) as [[? ?]|].
Qed.

Lemma streamEvents_app f ds a b s :
  streamEvents Decode LookupFields Registry tick_order f ds (a ++ b) s =
  ('(s, out) ← streamEvents Decode LookupFields Registry tick_order f ds a s;
   '(s, more) ← streamEvents Decode LookupFields Registry tick_order f ds b s;
   Some (s, out ++ more)).
Proof.
  revert s. induction a as [|i a IH]; intros s; cbn [streamEvents app].
  - cbn. by destruct (streamEvents _ _ _ _ _ _ b s) as [[? ?]|].
  - destruct (stream_event _ _ _ _ _ _ i s) as [[s1 out1]|]; [|done]. cbn. rewrite IH.
    destruct (streamEvents _ _ _ _ _ _ a s1) as [[s2 out2]|]; [|done]. cbn.
    destruct (streamEvents _ _ _ _ _ _ b s2) as [[s3 out3]|]; [|done]. cbn. by rewrite app_assoc.
Qed.

Lemma stream_table f ds table s :
  streamEvents Decode LookupFields Registry tick_order f ds (map (fun jd => InDevice (journal_device jd)) table) s =
  Some (mkDumpState (loadDeviceTable table (du_devices s)) (du_tracker s) (du_matched s), []).
Proof.
  unfold loadDeviceTable, loadAll. revert s. induction table as [|jd table IH]; intros [dm ct m]; [done|].
  cbn [map streamEvents stream_event mbind option_bind]. by rewrite IH.
Qed.

Lemma pgn_passes_matches ff vs xs h reg : matches (flags_event ff vs xs) bus h reg = true -> pgn_passes (buildFilter ff) (PGN h) = true.
Proof.
  unfold flags_event, buildFilter. destruct (no_flags ff) eqn:En; [done|]. unfold pgn_passes, matches. cbn [cf_PGNs cf_ExcludePGNs PGNs ExcludePGNs Buses].
  rewrite !nonempty_is_nil. cbn [is_nil negb andb]. destruct (Filters.IsEmpty _) eqn:Ee.
  - unfold Filters.IsEmpty in Ee. cbn [PGNs ExcludePGNs] in Ee. rewrite !nonempty_is_nil, !negb_involutive in Ee.
    apply andb_prop in Ee as [[[[[[E1 E2]%andb_prop _]%andb_prop _]%andb_prop _]%andb_prop _]%andb_prop _]. rewrite E1.
    by destruct (map u32 (ff_excludePGNs ff)).
  - destruct (contains (map u32 (ff_excludePGNs ff)) (PGN h)) eqn:Ec.
    + destruct (map u32 (ff_excludePGNs ff)); [done|]. cbn [is_nil negb andb]. by destruct (negb (is_nil _) && _).
    + by destruct (is_nil (map u32 (ff_pgns ff))), (contains (map u32 (ff_pgns ff)) (PGN h)).
Qed.

Lemma frame_agrees ff ds vs xs x s s' :
  Forall2 name_text (ff_names ff) vs -> Forall2 name_text (ff_excludeNames ff) xs -> step_fits ff x -> du_tracker s = None -> alike s s' ->
  knows bus x.2 (loadDeviceTable (default [] (rs_table x.1)) (du_devices s)) ->
  alike_out (replay_frame Decode LookupFields Registry tick_order ff ds x.1 s)
    (streamEvents Decode LookupFields Registry tick_order (buildFilter ff) ds (streamed (flags_event ff vs xs) x) s') /\
  forall s1 out, replay_frame Decode LookupFields Registry tick_order ff ds x.1 s = Some (s1, out) ->
    du_devices s1 = loadDeviceTable (default [] (rs_table x.1)) (du_devices s) /\ du_tracker s1 = None.
Proof.
  intros Hv Hx [Hseq Hdata Hreg Hb Hsp] Hnt [H1 H2] Hk. unfold replay_frame, streamed. rewrite streamEvents_app, stream_table. cbn [mbind option_bind].
  assert (Hl : load_table (rs_table x.1) s = mkDumpState (loadDeviceTable (default [] (rs_table x.1)) (du_devices s)) (du_tracker s) (du_matched s))
    by (destruct (rs_table x.1), s; reflexivity).
  rewrite Hl. cbn [du_devices du_tracker du_matched]. rewrite (replay_filter_agrees bus x.2 _ ff vs xs) by done.
  rewrite <- H1, <- H2, Hnt. set (dm := loadDeviceTable _ (du_devices s)) in *.
  destruct (matches (flags_event ff vs xs) bus (e_Header (rs_entry x.1)) x.2) eqn:Em; cbn [negb]; [|split; [done|by intros s1 out [= <- <-]]].
  rewrite (proj2 (Z.eqb_neq _ _)) by done. unfold tick. cbn [streamEvents stream_event mbind option_bind du_tracker].
  pose proof (pgn_passes_matches _ _ _ _ _ Em) as Hp.
  change (fj_PGN (entryToFrame _ _)) with (PGN (e_Header (rs_entry x.1))). rewrite Hp. cbn [negb].
  split; [split; [done|by rewrite app_nil_r]|intros s1 out [= <- _]; done].
Qed.

(** Without [--changes], a replay shows what the stream of the same frames shows,
    whenever the ticker of the stream runs: for flags whose NAMEs the server reads
    and whose manufacturers are spelled as it spells them, the output of
    [runReplay] over journal entries is that of [streamEvents] over the events the
    server's filter lets through, where at every frame the terminal knows exactly
    the devices of the server's registry. *)
Theorem replay_is_stream ff ds vs xs steps s ins :
  Forall2 name_text (ff_names ff) vs -> Forall2 name_text (ff_excludeNames ff) xs -> du_tracker s = None ->
  Forall (step_fits ff) steps -> knows_along steps (du_devices s) ->
  unticked ins = concat (map (streamed (flags_event ff vs xs)) steps) ->
  flags_filter ff = Ok (flags_event ff vs xs) /\
  snd <$> runReplay Decode LookupFields Registry tick_order ff ds (map fst steps) s =
  snd <$> streamEvents Decode LookupFields Registry tick_order (buildFilter ff) ds ins s.
Proof.
  intros Hv Hx Hnt Hf Hk Hins. split; [by apply flags_filter_value|]. rewrite (stream_unticked _ _ ins s Hnt), Hins.
  assert (H : forall s', alike s s' ->
    alike_out (runReplay Decode LookupFields Registry tick_order ff ds (map fst steps) s)
      (streamEvents Decode LookupFields Registry tick_order (buildFilter ff) ds (concat (map (streamed (flags_event ff vs xs)) steps)) s')).
  { clear Hins. revert s Hnt Hk. induction Hf as [|x steps Hx1 _ IH]; intros s Hnt Hk s' Ha; [by cbn|]. destruct Hk as [Hk Hks].
    cbn [map runReplay concat]. rewrite streamEvents_app. destruct (frame_agrees ff ds vs xs x s s' Hv Hx Hx1 Hnt Ha Hk) as [Hfr Hdv].
    destruct (replay_frame _ _ _ _ _ _ _ s) as [[s1 out]|], (streamEvents _ _ _ _ _ _ _ s') as [[s1' out']|]; try done.
    destruct Hfr as [Ha1 <-]. cbn [mbind option_bind]. destruct (Hdv _ _ eq_refl) as [Hd1 Hn1]. rewrite <- Hd1 in Hks. specialize (IH s1 Hn1 Hks s1' Ha1).
    destruct (runReplay _ _ _ _ _ _ _ s1) as [[s2 out2]|], (streamEvents _ _ _ _ _ _ _ s1') as [[s2' out2']|]; try done.
    by destruct IH as [Ha2 <-]. }
  specialize (H s ltac:(by split)). destruct (runReplay _ _ _ _ _ _ _ s) as [[? ?]|], (streamEvents _ _ _ _ _ _ _ s) as [[? ?]|]; try done.
  by destruct H as [_ <-].
Qed.
End Agreement.

(** * Buffered streams *)

(** The number of the newest frame, as the session's description has it. *)
Definition info_seq (se : Session) : Z := match se_info se with SessionInfo _ seq _ _ => seq | _ => 0 end.

(** [tailWithHistory]: the number before the last [n], none if there are not so many. *)
Definition tail_start (seq n : Z) : Z := if n <? seq then seq - n else 0.

Definition create_route (cfg : SessionConfig) : route := RouteCreateSession (sc_ClientID cfg) (Some (session_body cfg)).
Definition ack_route (se : Session) (seq : Z) : route := RouteAck (sc_ClientID (se_config se)) (Some seq).

(** The session and the cursor [tail --last n] sets before it streams. *)
Definition tailWithHistory (sv : Server) (c : Call) (n : Z) (cfg : SessionConfig) (b : Broker) : Broker * result client_error Session :=
  match Client.CreateSession (via sv c b) cfg with
  | Err e => ((exchange sv c (create_route cfg) b).1, Err e)
  | Ok se =>
      let b := (exchange sv c (create_route cfg) b).1 in
      let start := tail_start (info_seq se) n in
      if 0 <? start then ((exchange sv c (ack_route se start) b).1, Ack (via sv c b) start se) else (b, Ok se)
  end.

(** [runBuffered] up to its stream. *)
Definition runBuffered (sv : Server) (c : Call) (cfg : SessionConfig) (b : Broker) : Broker * result client_error reply_body :=
  match Client.CreateSession (via sv c b) cfg with
  | Err e => ((exchange sv c (create_route cfg) b).1, Err e)
  | Ok se =>
      let b := (exchange sv c (create_route cfg) b).1 in
      ((exchange sv c (RouteSessionEvents (sc_ClientID cfg)) b).1, Session_Subscribe (via sv c b) se)
  end.

(** [ackFinal] *)
Definition ackFinal (sv : Server) (c : Call) (id : string) (seq : Z) (b : Broker) : Broker :=
  if 0 <? seq then
    let cfg := mkSessionConfig id "PT0S" None in
    let b' := (exchange sv c (create_route cfg) b).1 in
    match Client.CreateSession (via sv c b) cfg with
    | Ok se => (exchange sv c (ack_route se seq) b').1
    | Err _ => b'
    end
  else b.

(** A server without a key that takes the session of a command. *)
Definition serves (sv : Server) (cfg : SessionConfig) (timeout : duration) (fe : option EventFilter) : Prop :=
  sv_apiKey sv = EmptyString /\ clientIDPattern (sc_ClientID cfg) = true /\
  session_timeout (ss_BufferTimeout (session_body cfg)) = Ok timeout /\ session_filter (ss_Filter (session_body cfg)) = Ok fe.

Lemma exchange_open sv c r b : sv_apiKey sv = EmptyString -> exchange sv c r b = route_handler sv c r b.
Proof. intros H. unfold exchange, ServeHTTP. cbn [rq_options client_request rq_route]. by rewrite H. Qed.

(** What the broker makes of a session that is created or updated. *)
Definition kept_session (cfg : SessionConfig) (timeout : duration) (fe : option EventFilter) (now : time) (b : Broker) : ClientSession :=
  let timeout := if maxBufferDuration b <? timeout then maxBufferDuration b else timeout in
  mkClientSession (match sessions (b_state b) !! sc_ClientID cfg with Some s => ID s | None => sc_ClientID cfg end)
    (match sessions (b_state b) !! sc_ClientID cfg with Some s => if timeout =? 0 then 0 else Cursor s | None => 0 end) timeout now
    (if Filters.IsEmpty fe then None else fe).

Lemma create_served sv c cfg timeout fe b : serves sv cfg timeout fe ->
  exchange sv c (create_route cfg) b =
    (with_sessions b (<[sc_ClientID cfg := kept_session cfg timeout fe (cl_now c) b]> (sessions (b_state b))),
     mkReply 200 (SessionInfo (ID (kept_session cfg timeout fe (cl_now c) b)) (u64 (head (b_ring b) - 1)) (Cursor (kept_session cfg timeout fe (cl_now c) b))
       (Devices.Snapshot (cl_devices c (devices (b_state b))) (devices (b_state b))))).
Proof.
  intros (Hk & Hid & Ht & Hf). rewrite exchange_open by done. unfold create_route. cbn [route_handler]. unfold handleCreateSession. rewrite Hid, Ht. cbn [negb mbind result_bind].
  rewrite Hf. cbn [mbind result_bind]. unfold Broker.CreateSession, kept_session. destruct (sessions (b_state b) !! sc_ClientID cfg); reflexivity.
Qed.

Lemma client_creates sv c cfg timeout fe b : serves sv cfg timeout fe ->
  exists se, Client.CreateSession (via sv c b) cfg = Ok se /\ info_seq se = u64 (head (b_ring b) - 1) /\ se_config se = cfg.
Proof.
  intros Hs. unfold Client.CreateSession, do_request, via. fold (create_route cfg). rewrite (create_served sv c cfg timeout fe b Hs). eexists. by split.
Qed.

Lemma client_acks sv c se seq b s : sv_apiKey sv = EmptyString -> sessions (b_state b) !! session_id se = Some s ->
  exchange sv c (ack_route se seq) b =
    (with_sessions b (<[session_id se := mkClientSession (ID s) seq (BufferTimeout s) (cl_now c) (Broker.Filter s)]> (sessions (b_state b))), mkReply 204 NoBody).
Proof. intros Hk Hs. rewrite exchange_open by done. cbn [route_handler ack_route]. unfold handleAck, AckSession. unfold session_id in Hs. by rewrite Hs. Qed.

Lemma client_streams sv c id b s : sv_apiKey sv = EmptyString -> sessions (b_state b) !! id = Some s ->
  exists k, (exchange sv c (RouteSessionEvents id) b).2 = mkReply 200 (ConsumerStream k) /\
    cursor k = (if 0 <? Cursor s then u64 (Cursor s + 1) else u64 (CurrentSeq b + 1)).
Proof.
  intros Hk Hs. rewrite exchange_open by done. cbn [route_handler]. unfold handleSSE, GetSession. rewrite Hs. unfold NewConsumer.
  eexists. split; [reflexivity|done].
Qed.

(** C38: lplex tail --last n starts at the right frame when there are more than
    n. Against a server without an API key that takes the command's session, new and
    with a positive timeout (the server's own limit being positive too), setting up
    the session succeeds; and when the command then streams it, whatever frames the
    broker has taken in between, it starts n frames before the head the broker had
    when the session was created, if that head was past more than n frames;
    otherwise it starts at the head the broker has when the stream begins and shows
    none of the frames before ([tail_of_everything_is_live], against its log
    message). *)
Theorem tail_starts sv c n cfg timeout fe b :
  serves sv cfg timeout fe -> 0 < timeout -> 0 < maxBufferDuration b -> sessions (b_state b) !! sc_ClientID cfg = None ->
  0 < n -> 1 <= head (b_ring b) < 2 ^ 64 ->
  exists b1 se, tailWithHistory sv c n cfg b = (b1, Ok se) /\
    forall c' later, 1 <= head later < 2 ^ 64 ->
    exists b2 k, runBuffered sv c' cfg (with_ring b1 later) = (b2, Ok (ConsumerStream k)) /\
      cursor k = if n <? head (b_ring b) - 1 then head (b_ring b) - n else head later.
Proof.
  intros Hs Ht Hmax Hnew Hn Hh. pose proof (proj1 Hs) as Hkey. destruct (client_creates sv c cfg timeout fe b Hs) as (se & Hse & Hseq & Hcfg).
  unfold tailWithHistory. rewrite Hse, Hseq, (create_served sv c cfg timeout fe b Hs). cbn [fst]. rewrite wrap_small by lia.
  set (ks := kept_session cfg timeout fe (cl_now c) b). set (b1 := with_sessions b _).
  assert (Hks : sessions (b_state b1) !! sc_ClientID cfg = Some ks) by (cbn; by rewrite lookup_insert, decide_True).
  unfold tail_start.
  assert (Hrun : forall c' later b' s, 1 <= head later < 2 ^ 64 -> sessions (b_state b') !! sc_ClientID cfg = Some s -> b_ring b' = later ->
    maxBufferDuration b' = maxBufferDuration b ->
    exists b2 k, runBuffered sv c' cfg b' = (b2, Ok (ConsumerStream k)) /\ cursor k = if 0 <? Cursor s then u64 (Cursor s + 1) else head later).
  { intros c' later b' s Hlater Hb' Hring Hmx. unfold runBuffered. destruct (client_creates sv c' cfg timeout fe b' Hs) as (se' & Hse' & _ & Hcfg').
    rewrite Hse', (create_served sv c' cfg timeout fe b' Hs). cbn [fst]. set (b2 := with_sessions b' _).
    assert (Hks2 : sessions (b_state b2) !! sc_ClientID cfg = Some (kept_session cfg timeout fe (cl_now c') b')) by (cbn; by rewrite lookup_insert, decide_True).
    destruct (client_streams sv c' (sc_ClientID cfg) b2 _ Hkey Hks2) as (k & Ek & Hck).
    eexists _, k. split; [unfold Session_Subscribe, do_request, via; rewrite Hcfg', Ek; reflexivity|]. rewrite Hck. unfold kept_session. rewrite Hb', Hmx. cbn [Cursor].
    assert (E0 : (let t := if maxBufferDuration b <? timeout then maxBufferDuration b else timeout in t =? 0) = false)
      by (cbn zeta; apply Z.eqb_neq; destruct (maxBufferDuration b <? timeout) eqn:?; lia).
    cbn zeta in E0.
    rewrite E0. destruct (0 <? Cursor s); [done|]. unfold CurrentSeq. change (b_ring b2) with (b_ring b'). rewrite Hring.
    rewrite (proj2 (Z.eqb_neq _ _)) by lia. rewrite (wrap_small 64 (head later - 1)) by lia. rewrite wrap_small by lia. lia. }
  destruct (Z.ltb_spec n (head (b_ring b) - 1)).
  - rewrite (proj2 (Z.ltb_lt 0 _)) by lia. set (start := head (b_ring b) - 1 - n).
    assert (Hid : sessions (b_state b1) !! session_id se = Some ks) by (unfold session_id; by rewrite Hcfg).
    pose proof (client_acks sv c se start b1 ks Hkey Hid) as Ha. set (b2 := with_sessions b1 _) in Ha.
    exists b2. eexists. split; [rewrite Ha; unfold Ack, do_request, via; fold (ack_route se start); rewrite Ha; reflexivity|].
    intros c' later Hlater.
    destruct (Hrun c' later (with_ring b2 later) (mkClientSession (ID ks) start (BufferTimeout ks) (cl_now c) (Broker.Filter ks)) Hlater)
      as (b3 & k & Hb3 & Hk); [|done..|].
    { cbn. unfold session_id. by rewrite Hcfg, lookup_insert, decide_True. }
    exists b3, k. split; [done|]. rewrite Hk. cbn [Cursor]. rewrite (proj2 (Z.ltb_lt 0 _)) by lia. rewrite wrap_small by lia. lia.
  - rewrite Z.ltb_irrefl. exists b1, se. split; [done|]. intros c' later Hlater.
    destruct (Hrun c' later (with_ring b1 later) ks Hlater Hks eq_refl eq_refl) as (b3 & k & Hb3 & Hk). exists b3, k. split; [done|].
    rewrite Hk. unfold ks, kept_session. rewrite Hnew. done.
Qed.

(** The last acknowledgement of [lplex dump] sets the timeout of the session to
    nothing, so the next tick of the broker forgets it with its cursor. *)
Lemma final_ack_forgets sv c id seq now b :
  serves sv (mkSessionConfig id "PT0S" None) 0 None -> 0 < seq -> 0 <= maxBufferDuration b -> cl_now c < now ->
  acked id (ackFinal sv c id seq b) = Some seq /\ sessions (b_state (expireSessions now (ackFinal sv c id seq b))) !! id = None.
Proof.
  intros Hs Hseq Hmax Hnow. pose proof (proj1 Hs) as Hkey. set (cfg := mkSessionConfig id "PT0S" None) in *.
  destruct (client_creates sv c cfg 0 None b Hs) as (se & Hse & _ & Hcfg). unfold ackFinal. rewrite (proj2 (Z.ltb_lt 0 _)) by lia. fold cfg.
  rewrite Hse, (create_served sv c cfg 0 None b Hs). cbn [fst]. set (b1 := with_sessions b _).
  rewrite (client_acks sv c se seq b1 (kept_session cfg 0 None (cl_now c) b) Hkey).
  2:{ unfold session_id. rewrite Hcfg. cbn. by rewrite lookup_insert, decide_True. }
  cbn [fst]. unfold session_id, acked. rewrite Hcfg. cbn [sc_ClientID cfg]. split.
  - cbn. by rewrite lookup_insert, decide_True.
  - unfold expireSessions. cbn [b_state with_sessions with_state sessions]. apply map_lookup_filter_None. right. intros s.
    rewrite lookup_insert, decide_True by done. intros [= <-] Hnot. apply Hnot. cbn [snd LastActivity BufferTimeout kept_session].
    destruct (Z.ltb_spec (maxBufferDuration b) 0); [lia|]. unfold time_Sub, min_duration, max_duration. lia.
Qed.

(** ** What the flags cannot say *)

(** The NAME of the example in the help text is refused by the server. *)
Example documented_name_refused :
  flags_filter (mkFrameFlags [] [] [] [] [] ["0x00A3B2C4D5E6F7FF"%string]) = Err (BadExcludeName "0x00A3B2C4D5E6F7FF").
Proof. vm_compute. reflexivity. Qed.

(** Letters of the other case, or the code, name a manufacturer to only one of the two. *)
Definition garmin : Device := decodeNAME (Z.shiftl 229 21 + 5) "can0" 6.
Definition by_manufacturer (m : string) : frame_flags := mkFrameFlags [] [] [m] [] [] [].

Example manufacturers_differ :
  map (fun m => (matchesReplayFilter (mkCANHeader 2 127250 6 255) {[6 := client_device garmin]} (by_manufacturer m),
                 matches (flags_event (by_manufacturer m) [] []) "can0" (mkCANHeader 2 127250 6 255) {[("can0"%string, 6) := garmin]}))
    ["Garmin"; "garmin"; "229"]%string = [(true, true); (true, false); (false, true)].
Proof. vm_compute. reflexivity. Qed.

(** ** Concrete runs *)

Definition garmin_entry : JDevice := mkJDevice 6 (Z.shiftl 229 21 + 5) 0 "" "" "" "".
Definition garmin_registry : DeviceRegistry := {[("can0"%string, 6) := garmin]}.
Definition demo_flags : frame_flags := mkFrameFlags [127250; 129025] [129025] ["Garmin"%string] [] [hex016 (Z.shiftl 229 21 + 5)] [].
Definition demo_step (q pgn : Z) (data : list Z) (table : option (list JDevice)) : replay_step * DeviceRegistry :=
  (mkReplayStep (mkJEntry (63000000000 * second + q) (mkCANHeader 2 pgn 6 255) data) q table, garmin_registry).
Definition demo_steps : list (replay_step * DeviceRegistry) :=
  [demo_step 1 127250 [1; 2] (Some [garmin_entry]); demo_step 2 129025 [3] None; demo_step 3 127250 [1; 2] None; demo_step 4 127250 [1; 7] (Some [garmin_entry])].
Definition demo_dump : dump_state := mkDumpState ∅ None 0.

Lemma garmin_registry_ok : registry_ok garmin_registry /\ unnamed_blank garmin_registry /\ spelled ["Garmin"%string] garmin_registry.
Proof.
  assert (Hg : forall k d, garmin_registry !! k = Some d -> k = ("can0"%string, 6) /\ d = garmin) by (intros k d H; unfold garmin_registry in H; apply lookup_singleton_Some in H as [<- <-]; done).
  split_and!.
  - split.
    + intros k d [-> ->]%Hg. split; [reflexivity|]. constructor; try (apply fits_empty); try (vm_compute; split; congruence).
      intros _. vm_compute. repeat split.
    + intros k1 k2 d1 d2 [-> ->]%Hg [-> ->]%Hg. done.
  - intros k d [-> ->]%Hg. done.
  - intros k d m [-> ->]%Hg ->%list_elem_of_singleton. reflexivity.
Qed.

Lemma garmin_known dm : dm = {[6 := client_device garmin]} -> knows "can0" garmin_registry dm.
Proof.
  intros -> src. unfold garmin_registry. destruct (decide (src = 6)) as [->|Hne]; [by rewrite !lookup_singleton_eq|].
  rewrite !lookup_singleton_ne by congruence. done.
Qed.

(** The stream with its ticker in between. *)
Definition demo_stream_inputs : list stream_input := Eval vm_compute in
  match flags_filter demo_flags with
  | Ok fe => match concat (map (streamed "can0" fe) demo_steps) with i :: ins => InTick 5 :: i :: InTick 6 :: ins | [] => [] end
  | Err _ => []
  end.

Lemma replay_is_stream_witness :
  snd <$> streamEvents (fun _ => None) (fun _ => None) (∅ : gmap Z (@RegistryInfo unit)) (fun _ => []) (buildFilter demo_flags) (mkDisplay false None)
      demo_stream_inputs demo_dump =
    Some [ShownFrame (mkFrameJSON 1 (63000000000 * second + 1) "" 2 127250 6 255 "0102") None;
          ShownFrame (mkFrameJSON 3 (63000000000 * second + 3) "" 2 127250 6 255 "0102") None;
          ShownFrame (mkFrameJSON 4 (63000000000 * second + 4) "" 2 127250 6 255 "0107") None].
Proof.
  destruct garmin_registry_ok as (Hr & Hb & Hs).
  destruct (replay_is_stream (fun _ => None) (fun _ => None) (∅ : gmap Z (@RegistryInfo unit)) (fun _ => []) "can0" demo_flags (mkDisplay false None)
    [Z.shiftl 229 21 + 5] [] demo_steps demo_dump demo_stream_inputs) as (Hfe & E).
  - repeat constructor. all: vm_compute; congruence.
  - constructor.
  - reflexivity.
  - assert (Hf : forall q pgn data t, 0 < q -> bytes_ok data -> step_fits demo_flags (demo_step q pgn data t)).
    { intros q pgn data t Hq Hd. constructor; cbn; [lia|exact Hd|exact Hr|exact Hb|exact Hs]. }
    repeat (apply Forall_cons; split; [apply Hf; [lia|repeat constructor; lia]|]). by apply Forall_nil.
  - repeat split; apply garmin_known; vm_compute; reflexivity.
  - vm_compute. reflexivity.
  - rewrite <- E. vm_compute. reflexivity.
Defined.

Definition demo_tail : SessionConfig := mkSessionConfig "boat-tail-7" "PT1M" None.

Lemma tail_starts_witness :
  serves demo_open_server demo_tail minute None /\
  exists b1 se, tailWithHistory demo_open_server demo_call 3 demo_tail (with_ring demo_boat demo_ring) = (b1, Ok se) /\
    exists b2 k, runBuffered demo_open_server demo_call demo_tail (with_ring b1 demo_ring) = (b2, Ok (ConsumerStream k)) /\ cursor k = 4.
Proof.
  assert (Hs : serves demo_open_server demo_tail minute None) by (repeat split; vm_compute; reflexivity).
  split; [exact Hs|].
  destruct (tail_starts demo_open_server demo_call 3 demo_tail minute None (with_ring demo_boat demo_ring) Hs) as (b1 & se & H1 & H2);
    [vm_compute; try reflexivity; split; congruence..|].
  exists b1, se. split; [exact H1|]. apply (H2 demo_call demo_ring). vm_compute. split; congruence.
Defined.

(** With no more frames than asked for, nothing is replayed. *)
Example tail_of_everything_is_live :
  match runBuffered demo_open_server demo_call demo_tail (tailWithHistory demo_open_server demo_call 6 demo_tail (with_ring demo_boat demo_ring)).1 with
  | (_, Ok (ConsumerStream k)) => cursor k
  | _ => 0
  end = 7.
Proof. vm_compute. reflexivity. Qed.
