(* ===== verification/Verify.v ===== *)
(** Journal integrity: [cmd/lplex/cmd_verify.go].

    [lplex verify] reads every frame of its files and checks that the numbers
    follow one another, within a file and from file to file. *)

From S2P Require Import Prelude CanId Devices JournalFormat JournalReader JournalWriter JournalRoundTrip.

Inductive verify_error :=
| OpenFailed
| BadHeader (e : jerror)
| SequenceGap (frame expected got missing : Z)
| ReadFailed (e : jerror)
| NoReadableFrames.

Record verifyResult := mkVerifyResult {
  vr_Blocks : Z;
  vr_Frames : Z;
  vr_Errors : list verify_error;
  vr_FirstSeq : Z;
  vr_LastSeq : Z
}.

(** One turn of the loop over the frames, with [lastSeq]. *)
Definition verify_frame (seq : Z) (s : verifyResult * Z) : verifyResult * Z :=
  let '(r, lastSeq) := s in
  let frames := vr_Frames r + 1 in
  if 0 <? seq then
    let first := if vr_FirstSeq r =? 0 then seq else vr_FirstSeq r in
    let gap := if (0 <? lastSeq) && negb (seq =? u64 (lastSeq + 1))
      then [SequenceGap frames (u64 (lastSeq + 1)) seq (u64 (seq - lastSeq - 1))] else [] in
    (mkVerifyResult (vr_Blocks r) frames (vr_Errors r ++ gap) first seq, seq)
  else (mkVerifyResult (vr_Blocks r) frames (vr_Errors r) (vr_FirstSeq r) (vr_LastSeq r), lastSeq).

Definition verify_frames (seqs : list Z) (s : verifyResult * Z) : verifyResult * Z := foldl (fun s seq => verify_frame seq s) s seqs.

Section verify.
Context (DecodeAll : list Z -> option (list Z)) (DecodeAllDict : list Z -> list Z -> option (list Z)).

(** The numbers of the frames that [Next] yields and the error it ends with;
    [None] is a panic.  The fuel bounds the number of frames. *)
Fixpoint read_seqs (fuel : nat) (jr : Reader) : option (list Z * option jerror) :=
  match fuel with
  | O => None
  | S fuel =>
      match Next DecodeAll DecodeAllDict jr with
      | (jr', NextFrame) => '(seqs, e) ← read_seqs fuel jr'; Some (FrameSeq jr' :: seqs, e)
      | (jr', NextStop) => Some ([], jr_err jr')
      | _ => None
      end
  end.

(** A file that cannot be opened is [None]. *)
Definition verifyFile (fuel : nat) (file : option (list Z)) : option verifyResult :=
  match file with
  | None => Some (mkVerifyResult 0 0 [OpenFailed] 0 0)
  | Some bytes =>
      match NewReader bytes with
      | Err e => Some (mkVerifyResult 0 0 [BadHeader e] 0 0)
      | Ok jr =>
          let blocks := zlen (jr_blocks (jr_file jr)) in
          '(seqs, e) ← read_seqs fuel jr;
          let '(r, _) := verify_frames seqs (mkVerifyResult blocks 0 [] 0 0, 0) in
          let errors := vr_Errors r ++ match e with Some e => [ReadFailed e] | None => [] end ++
            (if (0 <? blocks) && (vr_Frames r =? 0) && (jr_version (jr_file jr) =? Version2) then [NoReadableFrames] else []) in
          Some (mkVerifyResult blocks (vr_Frames r) errors (vr_FirstSeq r) (vr_LastSeq r))
      end
  end.

(** The gap between a file and the next. *)
Definition cross_gap (prev cur : verifyResult) : bool :=
  (0 <? vr_LastSeq prev) && (0 <? vr_FirstSeq cur) && negb (vr_FirstSeq cur =? u64 (vr_LastSeq prev + 1)).

Fixpoint cross_gaps (rs : list verifyResult) : Z :=
  match rs with
  | prev :: (cur :: _) as rs => (if cross_gap prev cur then 1 else 0) + cross_gaps rs
  | _ => 0
  end.

Definition total_errors (rs : list verifyResult) : Z := Z.of_nat (sum_list_with (fun r => length (vr_Errors r)) rs) + cross_gaps rs.

(** The files in the order of their names; the number of errors found. *)
Definition runVerify (fuel : nat) (files : list (option (list Z))) : option (list verifyResult * Z) :=
  rs ← mapM (verifyFile fuel) files;
  Some (rs, total_errors rs).

(** The numbers of a file that opens and reads to its end, with a frame if it has
    blocks. *)
Definition file_numbers (fuel : nat) (file : option (list Z)) : option (list Z) :=
  bytes ← file;
  match NewReader bytes with
  | Err _ => None
  | Ok jr =>
      '(seqs, e) ← read_seqs fuel jr;
      match e with
      | Some _ => None
      | None =>
          if (0 <? zlen (jr_blocks (jr_file jr))) && (zlen seqs =? 0) && (jr_version (jr_file jr) =? Version2) then None
          else Some (List.filter (fun n => 0 <? n) seqs)
      end
  end.

End verify.

(** * What passes *)

(** Numbers that follow one another, from [last] if that is not 0. *)
Fixpoint chained (last : Z) (ns : list Z) : bool :=
  match ns with [] => true | n :: ns => ((last =? 0) || (n =? u64 (last + 1))) && chained n ns end.

Definition numbered (seqs : list Z) : list Z := List.filter (fun n => 0 <? n) seqs.

(** The last of the numbers, [last] if there is none. *)
Definition final (last : Z) (ns : list Z) : Z := foldl (fun _ n => n) last ns.

Lemma chained_app a b : forall last, chained last (a ++ b) = chained last a && chained (final last a) b.
Proof. induction a as [|n a IH]; intros last; [done|]. cbn [app chained final foldl]. rewrite IH. by rewrite andb_assoc. Qed.

Lemma final_app a b last : final last (a ++ b) = final (final last a) b.
Proof. apply foldl_app. Qed.

Lemma verify_frames_spec seqs : Forall (fun n => 0 <= n) seqs -> forall r lastSeq, 0 <= lastSeq -> 0 <= vr_FirstSeq r ->
  let '(r', lastSeq') := verify_frames seqs (r, lastSeq) in
  vr_Frames r' = vr_Frames r + zlen seqs /\ vr_Blocks r' = vr_Blocks r /\
  (vr_Errors r' = [] <-> vr_Errors r = [] /\ chained lastSeq (numbered seqs) = true) /\
  vr_FirstSeq r' = (if vr_FirstSeq r =? 0 then default 0 (head (numbered seqs)) else vr_FirstSeq r) /\
  vr_LastSeq r' = final (vr_LastSeq r) (numbered seqs).
Proof.
  induction 1 as [|n seqs Hn _ IH]; intros r lastSeq Hl Hf.
  { cbn. repeat split; try (unfold zlen; cbn; lia); try tauto. destruct (Z.eqb_spec (vr_FirstSeq r) 0); cbn; lia. }
  cbn [verify_frames foldl]. unfold verify_frame at 2. destruct (Z.ltb_spec 0 n) as [Hpos|Hpos].
  - set (r1 := mkVerifyResult _ _ _ _ _). specialize (IH r1 n Hn).
    assert (Hf1 : 0 < vr_FirstSeq r1) by (cbn; destruct (Z.eqb_spec (vr_FirstSeq r) 0); lia). specialize (IH ltac:(lia)).
    unfold verify_frames in IH. destruct (foldl _ (r1, n) seqs) as [r' l']. destruct IH as (H1 & H2 & H3 & H4 & H5).
    unfold numbered. cbn [List.filter]. rewrite (proj2 (Z.ltb_lt 0 n)) by lia. fold (numbered seqs). cbn [chained head default final foldl].
    rewrite (proj2 (Z.eqb_neq (vr_FirstSeq r1) 0)) in H4 by lia. split_and!.
    + rewrite H1. cbn. rewrite zlen_cons. lia.
    + done.
    + rewrite H3. cbn [r1 vr_Errors]. rewrite app_nil, andb_true_iff, orb_true_iff, !Z.eqb_eq.
      destruct (Z.ltb_spec 0 lastSeq), (Z.eqb_spec n (u64 (lastSeq + 1))); cbn [andb negb]; intuition (try lia; try done).
    + rewrite H4. cbn. by destruct (vr_FirstSeq r =? 0).
    + by rewrite H5.
  - specialize (IH (mkVerifyResult (vr_Blocks r) (vr_Frames r + 1) (vr_Errors r) (vr_FirstSeq r) (vr_LastSeq r)) lastSeq Hl Hf).
    unfold verify_frames in IH. destruct (foldl _ _ seqs) as [r' l']. unfold numbered. cbn [List.filter]. rewrite (proj2 (Z.ltb_ge 0 n)) by lia. fold (numbered seqs).
    destruct IH as (H1 & IH). split; [|exact IH]. rewrite H1. cbn. rewrite zlen_cons. lia.
Qed.

Lemma numbered_pos seqs : Forall (fun n => 0 < n) (numbered seqs).
Proof. apply List.Forall_forall. intros n [_ H]%filter_In. lia. Qed.

Section passes.
Context (DecodeAll : list Z -> option (list Z)) (DecodeAllDict : list Z -> list Z -> option (list Z)).

Lemma FrameSeq_nonneg jr : 0 <= FrameSeq jr.
Proof. unfold FrameSeq. destruct (_ || _); [lia|]. apply wrap_range. lia. Qed.

Lemma read_seqs_nonneg fuel : forall jr seqs e, read_seqs DecodeAll DecodeAllDict fuel jr = Some (seqs, e) -> Forall (fun n => 0 <= n) seqs.
Proof.
  induction fuel as [|fuel IH]; intros jr seqs e; cbn [read_seqs]; [done|]. destruct (Next _ _ jr) as [jr' []]; try done.
  - destruct (read_seqs _ _ fuel jr') as [[ss e']|] eqn:E; [|done]. intros [= <- <-]. constructor; [apply FrameSeq_nonneg|by eapply IH].
  - intros [= <- _]. constructor.
Qed.

Lemma verifyFile_numbers fuel file r : verifyFile DecodeAll DecodeAllDict fuel file = Some r ->
  match file_numbers DecodeAll DecodeAllDict fuel file with
  | Some ns => (vr_Errors r = [] <-> chained 0 ns = true) /\ vr_FirstSeq r = default 0 (head ns) /\ vr_LastSeq r = final 0 ns /\ Forall (fun n => 0 < n) ns
  | None => vr_Errors r <> []
  end.
Proof.
  unfold verifyFile, file_numbers. destruct file as [bytes|]; cbn [mbind option_bind]; [|by intros [= <-]].
  destruct (NewReader bytes) as [jr|e]; [|by intros [= <-]]. destruct (read_seqs _ _ fuel jr) as [[seqs e]|] eqn:Es; [|done]. cbn [mbind option_bind].
  pose proof (verify_frames_spec seqs (read_seqs_nonneg _ _ _ _ Es) (mkVerifyResult (zlen (jr_blocks (jr_file jr))) 0 [] 0 0) 0 ltac:(lia) ltac:(cbn; lia)) as H.
  destruct (verify_frames _ _) as [r' l']. destruct H as (H1 & H2 & H3 & H4 & H5). cbn [vr_Frames vr_Errors vr_FirstSeq vr_LastSeq] in *.
  intros [= <-]. cbn [vr_Errors vr_FirstSeq vr_LastSeq]. rewrite H1. destruct e as [e|].
  - intros [_ [[=] _]%app_nil]%app_nil.
  - rewrite Z.add_0_l. destruct ((0 <? _) && _ && _); [by intros [_ [_ [=]]%app_nil]%app_nil|]. rewrite !app_nil_r. fold (numbered seqs).
    split_and!; [|done..|apply numbered_pos]. rewrite H3. intuition.
Qed.

Lemma final_pos ns : Forall (fun n => 0 < n) ns -> forall last, 0 < last \/ ns <> [] -> 0 < final last ns.
Proof. induction 1 as [|n ns Hn _ IH]; intros last Hl; [by destruct Hl|]. cbn [final foldl]. apply IH. by left. Qed.

(** What a result says of the numbers of its file. *)
Definition result_of (r : verifyResult) (ns : list Z) : Prop :=
  (vr_Errors r = [] <-> chained 0 ns = true) /\ vr_FirstSeq r = default 0 (head ns) /\ vr_LastSeq r = final 0 ns /\
  Forall (fun n => 0 < n) ns.

(** A file goes on where the one before it stopped, if both have numbers. *)
Definition follows (ns ms : list Z) : bool :=
  match ns, ms with _ :: _, m :: _ => m =? u64 (final 0 ns + 1) | _, _ => true end.

(** Each file's numbers follow one another, and neighbouring files do. *)
Fixpoint joined (nss : list (list Z)) : bool :=
  match nss with
  | [] => true
  | ns :: rest => chained 0 ns && match rest with ms :: _ => follows ns ms | [] => true end && joined rest
  end.

(** Where no file is without numbers, all of them follow one another. *)
Lemma joined_chained nss : Forall (fun ns => Forall (fun n => 0 < n) ns /\ ns <> []) nss -> joined nss = chained 0 (concat nss).
Proof.
  induction 1 as [|ns nss [Hp Hne] Hrest IH]; [done|]. cbn [joined concat]. rewrite IH, chained_app. clear IH.
  pose proof (final_pos ns Hp 0 ltac:(by right)) as Hfin. destruct Hrest as [|ms nss [_ Hms] _]; [by rewrite andb_true_r|].
  destruct ms as [|m ms]; [done|]. destruct ns as [|n ns]; [done|]. cbn [concat app chained follows] in *. rewrite Z.eqb_refl.
  rewrite (proj2 (Z.eqb_neq (final 0 (n :: ns)) 0)) by lia. cbn [orb andb]. by rewrite andb_assoc.
Qed.

Lemma cross_gaps_nonneg rs : 0 <= cross_gaps rs.
Proof. induction rs as [|r [|c rs] IH]; cbn [cross_gaps] in *; [lia..|]. destruct (cross_gap r c); lia. Qed.

Lemma cross_gaps_cons r c rs : cross_gaps (r :: c :: rs) = (if cross_gap r c then 1 else 0) + cross_gaps (c :: rs).
Proof. reflexivity. Qed.

Lemma cross_gap_follows r c ns ms : result_of r ns -> result_of c ms -> cross_gap r c = negb (follows ns ms).
Proof.
  intros (_ & _ & Hl & Hp) (_ & Hf & _ & Hm). unfold cross_gap. rewrite Hl, Hf.
  destruct ns as [|n ns]; [done|]. pose proof (final_pos _ Hp 0 ltac:(by right)) as Hfin. rewrite (proj2 (Z.ltb_lt 0 (final 0 (n :: ns)))) by done.
  destruct ms as [|m ms]; [done|]. apply Forall_cons in Hm as [Hm _]. change (default 0 (head (m :: ms))) with m.
  by rewrite (proj2 (Z.ltb_lt 0 m) Hm).
Qed.

Lemma total_errors_joined rs nss : Forall2 result_of rs nss -> total_errors rs = 0 <-> joined nss = true.
Proof.
  unfold total_errors. induction 1 as [|r ns rs nss Hr Hrs IH]; [done|]. cbn [sum_list_with joined].
  pose proof Hr as (He & _). rewrite !andb_true_iff, <- He, <- IH, Nat2Z.inj_add. clear IH.
  assert (H0 : Z.of_nat (length (vr_Errors r)) = 0 <-> vr_Errors r = []) by (destruct (vr_Errors r); cbn; [tauto|split; [lia|done]]).
  pose proof (cross_gaps_nonneg rs) as Hg. destruct Hrs as [|c ms rs nss Hc Hrs].
  - cbn [cross_gaps sum_list_with]. rewrite <- H0. cbn. intuition lia.
  - rewrite cross_gaps_cons, (cross_gap_follows r c ns ms Hr Hc). rewrite <- H0.
    destruct (follows ns ms); cbn [negb]; intuition lia.
Qed.

(** C39: lplex verify finds no error exactly when every file opens and reads to
    its end, with a frame if it has version 2 blocks, the numbers within each file
    follow one another, and so do the last number of a file and the first of the
    next, where both of these neighbours have numbers; frames without a number, as
    old files have, are not compared. So a gap across a file without numbers is not
    found ([gap_hidden_by_empty_file]); when every file has numbers, no error means
    that the numbers of all frames, from file to file, follow one another. This is
    for every run of [runVerify] that ends, with fuel for the frames of a file. *)
Theorem verify_consecutive fuel files rs n :
  runVerify DecodeAll DecodeAllDict fuel files = Some (rs, n) ->
  (n = 0 <-> exists nss, mapM (file_numbers DecodeAll DecodeAllDict fuel) files = Some nss /\ joined nss = true) /\
  forall nss, mapM (file_numbers DecodeAll DecodeAllDict fuel) files = Some nss -> Forall (fun ns => ns <> []) nss ->
    (n = 0 <-> chained 0 (concat nss) = true).
Proof.
  unfold runVerify. destruct (mapM _ files) as [rs'|] eqn:Em; [|done]. cbn [mbind option_bind]. intros [= -> <-]. apply mapM_Some in Em.
  destruct (mapM (file_numbers DecodeAll DecodeAllDict fuel) files) as [nss|] eqn:En.
  - apply mapM_Some in En. assert (Hres : Forall2 result_of rs nss).
    { revert nss En. induction Em as [|f r files rs Hr _ IH]; intros nss En; inversion En as [|? ns ? nss' Hns Hnss]; subst; constructor; [|by apply IH].
      pose proof (verifyFile_numbers fuel f r Hr) as H. by rewrite Hns in H. }
    rewrite (total_errors_joined rs nss Hres). split; [split; [by eauto|by intros (? & [= <-] & ?)]|].
    intros nss' [= <-] Hne. rewrite (total_errors_joined rs nss Hres), joined_chained; [done|]. clear -Hres Hne.
    induction Hres as [|r ns rs nss (_ & _ & _ & Hp) _ IH]; [constructor|]. apply Forall_cons in Hne as [Hn Hne]. constructor; [done|by apply IH].
  - split; [|done]. split; [|by intros (? & [=] & _)]. intros Ht. exfalso. unfold total_errors in Ht. pose proof (cross_gaps_nonneg rs) as Hg.
    assert (Hs : sum_list_with (fun r => length (vr_Errors r)) rs = 0%nat) by lia. clear Ht Hg.
    induction Em as [|f r files rs Hr _ IH]; [done|]. cbn [sum_list_with] in Hs. cbn [mapM] in En.
    pose proof (verifyFile_numbers fuel f r Hr) as H. destruct (file_numbers _ _ _ f) as [ns|].
    + cbn [mbind option_bind] in En. apply IH; [|lia]. by destruct (mapM _ files).
    + destruct (vr_Errors r); [done|cbn in Hs; lia].
Qed.

End passes.

(** A journal that reads to its end has these numbers. *)
Lemma read_all_seqs DecodeAll DecodeAllDict fuel : forall jr es, read_all DecodeAll DecodeAllDict fuel jr = Some es ->
  read_seqs DecodeAll DecodeAllDict fuel jr = Some (map fst es, None).
Proof.
  induction fuel as [|fuel IH]; intros jr es; cbn [read_all read_seqs]; [done|]. destruct (Next _ _ jr) as [jr' []]; try done.
  - destruct (jr_entry jr') as [e|]; [|done]. destruct (read_all _ _ fuel jr') as [es'|] eqn:E; [|done]. intros [= <-]. by rewrite (IH _ _ E).
  - destruct (jr_err jr'); [done|]. by intros [= <-].
Qed.

(** The files of a writer whose frames came without a break pass. *)
Lemma written_files_chained fs : Forall frame_ok fs -> in_order fs -> Forall (fun f => 0 < rx_Seq f) fs ->
  chained 0 (numbered (map fst (map logged fs))) = true.
Proof.
  intros Hok Hord Hpos. assert (Hn : numbered (map fst (map logged fs)) = map rx_Seq fs).
  { clear Hok Hord. induction Hpos as [|f fs Hf _ IH]; [done|]. unfold numbered in *. cbn [map List.filter fst logged].
    rewrite (proj2 (Z.ltb_lt 0 (rx_Seq f))) by lia. by rewrite IH. }
  rewrite Hn. clear Hn. assert (H : forall last, last = 0 \/ (exists f, head fs = Some f /\ rx_Seq f = u64 (last + 1)) \/ fs = [] -> chained last (map rx_Seq fs) = true); [|apply H; auto].
  induction Hok as [|f fs Hf Hok IH]; intros last Hl; [done|]. cbn [map chained]. apply Forall_cons in Hpos as [Hp Hpos].
  apply andb_true_iff. split.
  - destruct Hl as [->|[(g & [= <-] & ->)|[=]]]; [done|]. rewrite Z.eqb_refl. apply orb_true_r.
  - destruct fs as [|g fs]; [done|]. destruct Hord as (_ & Hg & Hord). apply IH; [done..|]. right. left. exists g. split; [done|].
    apply Forall_cons in Hok as [Hokg _]. pose proof (fr_seq _ Hokg). rewrite wrap_small by lia. lia.
Qed.

(** * Concrete files *)

(** A file of one uncompressed block with the frames [q] and [q + 1]. *)
Definition plain_journal (q : Z) : list Z := jheader 4096 CompressionNone ++ build_block 4096 (1000000 * q) q (demo_raws 1).
Definition plain_pass (files : list Z) : option Z :=
  snd <$> runVerify (fun _ => None) (fun _ _ => None) 5 (map (fun q => Some (plain_journal q)) files).

Lemma verify_consecutive_witness :
  plain_pass [10; 12] = Some 0 /\
  exists nss, mapM (file_numbers (fun _ => None) (fun _ _ => None) 5) [Some (plain_journal 10); Some (plain_journal 12)] = Some nss /\
    chained 0 (concat nss) = true.
Proof.
  destruct (runVerify (fun _ => None) (fun _ _ => None) 5 [Some (plain_journal 10); Some (plain_journal 12)]) as [[rs n]|] eqn:E;
    [|vm_compute in E; discriminate E].
  destruct (verify_consecutive (fun _ => None) (fun _ _ => None) 5 _ rs n E) as [_ H].
  assert (Hn : plain_pass [10; 12] = Some n) by (unfold plain_pass; cbn [map]; rewrite E; reflexivity).
  assert (H0 : plain_pass [10; 12] = Some 0) by (vm_compute; reflexivity).
  split; [exact H0|]. exists [[10; 11]; [12; 13]].
  assert (Em : mapM (file_numbers (fun _ => None) (fun _ _ => None) 5) [Some (plain_journal 10); Some (plain_journal 12)] =
               Some [[10; 11]; [12; 13]]) by (vm_compute; reflexivity).
  split; [exact Em|]. apply (H _ Em); [|rewrite H0 in Hn; injection Hn as <-; reflexivity].
  repeat (apply Forall_cons; split; [discriminate|]). by apply Forall_nil.
Defined.

(** Missing frames are found within a file and between files, but not across a
    file without numbers. *)
Example gap_between_files : plain_pass [10; 13] = Some 1.
Proof. vm_compute. reflexivity. Qed.
Definition empty_journal : list Z := jheader 4096 CompressionNone.
Example gap_hidden_by_empty_file :
  snd <$> runVerify (fun _ => None) (fun _ _ => None) 5 [Some (plain_journal 10); Some empty_journal; Some (plain_journal 900)] = Some 0.
Proof. vm_compute. reflexivity. Qed.
