(* ===== verification/Alarms.v ===== *)
(** Alarms: [pgn/diagnostics.go] and [cmd/lplex/cmd_alarms.go].

    Decoded diagnostics become alarm records; records of the same alarm that
    follow one another closely become one episode. *)

From S2P Require Import Prelude GoNum CanId JournalFormat JournalReader.

(** * Diagnostics *)

(** [RVCISODiagnostics]: fields that are not available are [None]. *)
Record RVCISODiagnostics := mkDiagnostics {
  RedLamp : option Z;
  YellowLamp : option Z;
  Fmi : option Z;
  SpnMsb : option Z;
  SpnIsb : option Z;
  SpnLsb : option Z
}.

Definition FMIDescription (fmi : Z) : string :=
  match fmi with
  | 0 => "data above normal (most severe)"
  | 1 => "data below normal (most severe)"
  | 2 => "data erratic or incorrect"
  | 3 => "voltage above normal / shorted high"
  | 4 => "voltage below normal / shorted low"
  | 5 => "current below normal / open circuit"
  | 6 => "current above normal / grounded"
  | 7 => "mechanical system not responding"
  | 8 => "abnormal frequency / pulse width"
  | 9 => "abnormal update rate"
  | 10 => "abnormal rate of change"
  | 11 => "root cause not known"
  | 12 => "bad intelligent device or component"
  | 13 => "out of calibration"
  | 14 => "special instruction"
  | 15 => "data above normal (least severe)"
  | 16 => "data above normal (moderately severe)"
  | 17 => "data below normal (least severe)"
  | 18 => "data below normal (moderately severe)"
  | 19 => "received network data in error"
  | 20 => "data drifted high"
  | 21 => "data drifted low"
  | 31 => "condition exists / not available"
  | _ => "reserved"
  end%string.

Definition SPN (m : RVCISODiagnostics) : option Z :=
  match SpnMsb m, SpnIsb m, SpnLsb m with
  | Some msb, Some isb, Some lsb =>
      let spn := Z.lor (Z.lor (u32 (Z.shiftl msb 11)) (u32 (Z.shiftl isb 3))) lsb in
      if spn =? 0x7FFFF then None else Some spn
  | _, _, _ => None
  end.

Section alarms.
(** [RVCLampStatusOn], a value of the generated schema. *)
Context (RVCLampStatusOn : Z).

Definition lit (lamp : option Z) : bool := match lamp with Some s => s =? RVCLampStatusOn | None => false end.

Definition IsActiveFault (m : RVCISODiagnostics) : bool := lit (RedLamp m) || lit (YellowLamp m) || bool_decide (is_Some (Fmi m)).

Definition Severity (m : RVCISODiagnostics) : string :=
  (if lit (RedLamp m) then "red" else if lit (YellowLamp m) then "yellow" else "none")%string.

Definition VictronChargerErrorRegister : Z := 0xEDDA.

Definition VictronChargerErrorText (code : Z) : string :=
  match code with
  | 0 => "no error"
  | 2 => "battery voltage too high"
  | 17 => "charger temperature too high"
  | 18 => "charger over-current"
  | 20 => "bulk time limit exceeded"
  | 26 => "terminals overheated"
  | 33 => "input voltage too high"
  | 34 => "input current too high"
  | 38 => "input shutdown (battery over-voltage)"
  | 67 => "BMS connection lost"
  | 116 => "calibration data lost"
  | 119 => "settings data invalid/corrupt"
  | _ => ""
  end%string.

(** * Records *)

(** The decoded values that can be alarms. *)
Inductive decoded_value :=
| DDiagnostics (d : RVCISODiagnostics)
| DVictronRegister (register : Z) (payload : option Z)
| DOther.

Record alarmRecord := mkAlarm {
  al_Time : time;
  al_Src : Z;
  al_Severity : string;
  al_Source : string;
  al_Code : string;
  al_Detail : string;
  al_SPN : option Z
}.

Definition alarm_key (r : alarmRecord) : string := (FormatInt (al_Src r) ++ "|" ++ al_Source r ++ "|" ++ al_Code r)%string.

Definition extractAlarms (decoded : decoded_value) (src : Z) (ts : time) : list alarmRecord :=
  match decoded with
  | DDiagnostics d =>
      if negb (IsActiveFault d) then []
      else
        let '(code, detail) := match Fmi d with
          | Some fmi => (("FMI " ++ FormatInt fmi)%string, FMIDescription fmi)
          | None => ("lamp"%string, "warning lamp active"%string) end in
        [mkAlarm ts src (Severity d) "WS500 DM1" code detail (SPN d)]
  | DVictronRegister register payload =>
      match payload with
      | Some p =>
          if negb (register =? VictronChargerErrorRegister) || (p =? 0) then []
          else
            let detail := VictronChargerErrorText p in
            let detail := if bool_decide (detail = EmptyString) then ("charger error " ++ FormatInt p)%string else detail in
            [mkAlarm ts src "error" "Victron charger" ("err " ++ FormatInt p) detail None]
      | None => []
      end
  | DOther => []
  end.

(** The records of the frames of a file, in their order, with the times of the first
    and the last frame; frames without a decoder, or that it refuses, give none. *)
Definition scanJournalAlarms (Decode : Z -> option (list Z -> option decoded_value)) (es : list Entry) : list alarmRecord * option time * option time :=
  (concat (map (fun e =>
     match (dec ← Decode (PGN (e_Header e)); dec (e_Data e)) with
     | Some v => extractAlarms v (Source (e_Header e)) (e_Timestamp e)
     | None => []
     end) es),
   e_Timestamp <$> head es, e_Timestamp <$> last es).

(** * Episodes *)

Record alarmEpisode := mkEpisode {
  ep_First : time;
  ep_Last : time;
  ep_Src : Z;
  ep_Severity : string;
  ep_Source : string;
  ep_Code : string;
  ep_Detail : string;
  ep_SPN : option Z;
  ep_Count : Z
}.

(** [sort.SliceStable] by a time. *)
Fixpoint insert_by {A} (key : A -> time) (x : A) (l : list A) : list A :=
  match l with [] => [x] | y :: l' => if key x <=? key y then x :: l else y :: insert_by key x l' end.
Definition sort_stable {A} (key : A -> time) (l : list A) : list A := foldr (insert_by key) [] l.

Definition open_episode (r : alarmRecord) : alarmEpisode :=
  mkEpisode (al_Time r) (al_Time r) (al_Src r) (al_Severity r) (al_Source r) (al_Code r) (al_Detail r) (al_SPN r) 1.

Definition extend_episode (r : alarmRecord) (ep : alarmEpisode) : alarmEpisode :=
  mkEpisode (ep_First ep) (al_Time r) (ep_Src ep) (ep_Severity ep) (ep_Source ep) (ep_Code ep) (ep_Detail ep) (ep_SPN ep) (ep_Count ep + 1).

(** One turn of the loop: the open episodes and the finished ones. *)
Definition group_step (gap : duration) (s : gmap string alarmEpisode * list alarmEpisode) (r : alarmRecord) : gmap string alarmEpisode * list alarmEpisode :=
  let '(opened, done) := s in
  let k := alarm_key r in
  match opened !! k with
  | Some ep =>
      if time_Sub (al_Time r) (ep_Last ep) <=? gap then (<[k := extend_episode r ep]> opened, done)
      else (<[k := open_episode r]> opened, done ++ [ep])
  | None => (<[k := open_episode r]> opened, done)
  end.

(** [order] is the order in which the open episodes are visited. *)
Definition groupEpisodes (order : gmap string alarmEpisode -> list string) (records : list alarmRecord) (gap : duration) : list alarmEpisode :=
  let '(opened, done) := foldl (group_step gap) (∅, []) (sort_stable al_Time records) in
  sort_stable ep_First (done ++ omap (fun k => opened !! k) (order opened)).

End alarms.

(** * Sorting *)

Section sorting.
Context {A : Type} (key : A -> time).

Abbreviation sorted := (StronglySorted (fun x y => key x <= key y)).

Lemma insert_by_in x l y : y ∈ insert_by key x l <-> y = x \/ y ∈ l.
Proof.
  induction l as [|z l IH]; cbn [insert_by]; [rewrite list_elem_of_singleton; set_solver|]. destruct (key x <=? key z); set_solver.
Qed.

Lemma insert_by_sorted x l : sorted l -> sorted (insert_by key x l).
Proof.
  induction 1 as [|y l Hl IH Hy]; cbn [insert_by]; [repeat constructor|]. destruct (Z.leb_spec (key x) (key y)).
  - constructor; [by constructor|]. constructor; [done|]. eapply Forall_impl; [exact Hy|]. cbn. intros; lia.
  - constructor; [done|]. apply Forall_forall. intros z [->|Hz]%insert_by_in; [lia|]. rewrite Forall_forall in Hy. by apply Hy.
Qed.

Lemma sort_stable_sorted l : sorted (sort_stable key l).
Proof. induction l as [|x l IH]; [constructor|]. by apply insert_by_sorted. Qed.

(** The order of elements that satisfy a predicate is the order they have alone. *)
Lemma filter_insert (p : A -> bool) x l : sorted l -> 
  List.filter p (insert_by key x l) = if p x then insert_by key x (List.filter p l) else List.filter p l.
Proof.
  induction 1 as [|y l Hl IH Hy]; cbn [insert_by List.filter]; [by destruct (p x)|]. destruct (Z.leb_spec (key x) (key y)) as [Hle|Hlt].
  - cbn [List.filter]. destruct (p x); [|done]. destruct (p y); cbn [insert_by].
    + by rewrite (proj2 (Z.leb_le _ _)).
    + destruct (List.filter p l) as [|z k] eqn:Ef; [done|]. cbn [insert_by].
      assert (Hz : z ∈ l) by (apply list_elem_of_In; apply (filter_In p z l); rewrite Ef; by left).
      rewrite Forall_forall in Hy. specialize (Hy z Hz). by rewrite (proj2 (Z.leb_le _ _)) by lia.
  - cbn [List.filter]. rewrite IH. destruct (p y), (p x); cbn [insert_by]; try done. by rewrite (proj2 (Z.leb_gt _ _)).
Qed.

Lemma filter_sort_stable (p : A -> bool) l : List.filter p (sort_stable key l) = sort_stable key (List.filter p l).
Proof.
  induction l as [|x l IH]; [done|]. cbn [sort_stable foldr List.filter]. rewrite filter_insert by apply sort_stable_sorted.
  fold (sort_stable key l). rewrite IH. by destruct (p x).
Qed.

Lemma sort_stable_id l : sorted l -> sort_stable key l = l.
Proof.
  induction 1 as [|x l Hl IH Hx]; [done|]. cbn [sort_stable foldr]. fold (sort_stable key l). rewrite IH.
  destruct l as [|y l]; [done|]. cbn [insert_by]. apply Forall_cons in Hx as [Hxy _]. by rewrite (proj2 (Z.leb_le _ _)).
Qed.

Lemma filter_sorted (p : A -> bool) l : sorted l -> sorted (List.filter p l).
Proof.
  induction 1 as [|x l Hl IH Hx]; [constructor|]. cbn [List.filter]. destruct (p x); [|done]. constructor; [done|].
  apply List.Forall_forall. intros y [Hy _]%filter_In. rewrite Forall_forall in Hx. apply Hx. by apply list_elem_of_In.
Qed.

Lemma sort_stable_length l : length (sort_stable key l) = length l.
Proof.
  induction l as [|x l IH]; [done|]. cbn [sort_stable foldr length]. fold (sort_stable key l). rewrite <- IH.
  generalize (sort_stable key l). clear. intros k. induction k as [|y k IH]; [done|]. cbn [insert_by]. destruct (key x <=? key y); [done|]. cbn. by rewrite IH.
Qed.
End sorting.

(** * Episodes of one alarm *)

(** The runs of one alarm's records, in order of time: an episode goes on while the
    next record comes within the gap after its last. *)
Fixpoint runs_from (gap : duration) (ep : alarmEpisode) (rs : list alarmRecord) : list alarmEpisode :=
  match rs with
  | [] => [ep]
  | r :: rs => if time_Sub (al_Time r) (ep_Last ep) <=? gap then runs_from gap (extend_episode r ep) rs else ep :: runs_from gap (open_episode r) rs
  end.
Definition runs (gap : duration) (rs : list alarmRecord) : list alarmEpisode :=
  match rs with [] => [] | r :: rs => runs_from gap (open_episode r) rs end.

Definition ep_key (ep : alarmEpisode) : string := (FormatInt (ep_Src ep) ++ "|" ++ ep_Source ep ++ "|" ++ ep_Code ep)%string.

Definition of_alarm (k : string) (r : alarmRecord) : bool := String.eqb (alarm_key r) k.
Definition of_key (k : string) (ep : alarmEpisode) : bool := String.eqb (ep_key ep) k.

Lemma open_key r : ep_key (open_episode r) = alarm_key r.
Proof. done. Qed.
Lemma extend_key r ep : ep_key (extend_episode r ep) = ep_key ep.
Proof. done. Qed.

(** What a finished run and an open episode say of the records so far. *)
Definition so_far (gap : duration) (k : string) (seen : list alarmRecord) (s : gmap string alarmEpisode * list alarmEpisode) : Prop :=
  match s.1 !! k with
  | Some ep => exists fin, List.filter (of_key k) s.2 = fin /\
      forall rs, runs gap (List.filter (of_alarm k) seen ++ rs) = fin ++ runs_from gap ep rs
  | None => List.filter (of_key k) s.2 = [] /\ List.filter (of_alarm k) seen = []
  end.

Definition keyed (s : gmap string alarmEpisode * list alarmEpisode) : Prop := forall k ep, s.1 !! k = Some ep -> ep_key ep = k.

Lemma group_step_keyed gap s r : keyed s -> keyed (group_step gap s r).
Proof.
  destruct s as [opened fin]. unfold keyed, group_step. cbn [fst]. intros H k ep.
  destruct (opened !! alarm_key r) as [e|] eqn:Eo; [destruct (_ <=? gap)|]; cbn [fst];
    (destruct (decide (alarm_key r = k)) as [<-|Hne]; [rewrite lookup_insert_eq; intros [= <-]|rewrite lookup_insert_ne by done; apply H]);
    rewrite ?extend_key; auto.
Qed.

Lemma group_step_so_far gap k seen s r : keyed s -> so_far gap k seen s -> so_far gap k (seen ++ [r]) (group_step gap s r).
Proof.
  destruct s as [opened fin]. intros Hkey H. unfold so_far in *. cbn [fst snd group_step] in *. rewrite List.filter_app. cbn [List.filter].
  unfold of_alarm at 2 4. destruct (String.eqb_spec (alarm_key r) k) as [<-|Hne].
  - destruct (opened !! alarm_key r) as [ep|] eqn:Eo.
    + destruct H as (f & Hf & H). destruct (Z.leb_spec (time_Sub (al_Time r) (ep_Last ep)) gap) as [Hle|Hgt]; cbn [fst snd]; rewrite lookup_insert_eq.
      * exists f. split; [done|]. intros rs. rewrite <- app_assoc. cbn [app]. rewrite H. cbn [runs_from]. by rewrite (proj2 (Z.leb_le _ _)).
      * eexists. split; [reflexivity|]. intros rs. rewrite <- app_assoc, List.filter_app. cbn [app List.filter]. unfold of_key at 2.
        rewrite (Hkey _ _ Eo), String.eqb_refl, H. cbn [runs_from]. rewrite (proj2 (Z.leb_gt _ _)) by done. by rewrite Hf, <- app_assoc.
    + cbn [fst snd]. rewrite lookup_insert_eq. destruct H as [Hf Hs]. exists []. split; [done|]. intros rs. by rewrite Hs.
  - assert (E : (group_step gap (opened, fin) r).1 !! k = opened !! k /\ List.filter (of_key k) (group_step gap (opened, fin) r).2 = List.filter (of_key k) fin).
    { cbn [group_step]. destruct (opened !! alarm_key r) as [ep|] eqn:Eo; [destruct (_ <=? gap)|]; cbn [fst snd]; rewrite lookup_insert_ne by done; [done| |done].
      split; [done|]. rewrite List.filter_app. cbn [List.filter]. unfold of_key at 2. rewrite (Hkey _ _ Eo). destruct (String.eqb_spec (alarm_key r) k); [done|]. apply app_nil_r. }
    cbn [group_step] in E. destruct E as [-> ->]. rewrite app_nil_r. exact H.
Qed.

Lemma group_steps gap k rs : forall seen s, keyed s -> so_far gap k seen s ->
  keyed (foldl (group_step gap) s rs) /\ so_far gap k (seen ++ rs) (foldl (group_step gap) s rs).
Proof.
  induction rs as [|r rs IH]; intros seen s Hk Hs; cbn [foldl]; [by rewrite app_nil_r|].
  specialize (IH (seen ++ [r]) (group_step gap s r) (group_step_keyed _ _ _ Hk) (group_step_so_far _ _ _ _ _ Hk Hs)).
  by rewrite <- app_assoc in IH.
Qed.

(** The open episodes of one key, whatever the order of the visit. *)
Lemma open_of_key opened (order : list string) k : NoDup order -> (forall k, k ∈ order <-> is_Some (opened !! k)) -> keyed (opened, []) ->
  List.filter (of_key k) (omap (fun k => opened !! k) order) = match opened !! k with Some ep => [ep] | None => [] end.
Proof.
  intros Hnd Hr Hk. assert (Hnot : forall order, k ∉ order -> List.filter (of_key k) (omap (fun k => opened !! k) order) = []).
  { clear Hnd Hr order. intros order. induction order as [|j order IH]; intros Hj; [done|]. apply not_elem_of_cons in Hj as [Hj Ho]. cbn [omap list_omap].
    destruct (opened !! j) as [ep|] eqn:Ej; [|by apply IH]. cbn [List.filter]. unfold of_key at 1. rewrite (Hk j ep Ej).
    destruct (String.eqb_spec j k); [by subst|]. by apply IH. }
  destruct (opened !! k) as [ep|] eqn:Ek; [|apply Hnot; rewrite Hr, Ek; by intros []].
  assert (Hin : k ∈ order) by (rewrite Hr, Ek; by eexists). clear Hr.
  induction order as [|j order IH]; [by apply elem_of_nil in Hin|]. apply NoDup_cons in Hnd as [Hj Hnd]. cbn [omap list_omap].
  apply elem_of_cons in Hin as [<-|Hin].
  - rewrite Ek. cbn [List.filter]. unfold of_key at 1. rewrite (Hk k ep Ek), String.eqb_refl. f_equal. by apply Hnot.
  - specialize (IH Hnd Hin). destruct (opened !! j) as [ep'|] eqn:Ej; [|done]. cbn [List.filter]. unfold of_key at 1. rewrite (Hk j ep' Ej).
    destruct (String.eqb_spec j k); [by subst|done].
Qed.

(** The episodes of an alarm come in the order of their first records. *)
Lemma runs_from_sorted gap rs : forall ep, StronglySorted (fun x y => al_Time x <= al_Time y) rs ->
  Forall (fun r => ep_First ep <= al_Time r) rs ->
  StronglySorted (fun x y => ep_First x <= ep_First y) (runs_from gap ep rs) /\ Forall (fun e => ep_First ep <= ep_First e) (runs_from gap ep rs).
Proof.
  induction rs as [|r rs IH]; intros ep Hs Hf; cbn [runs_from]; [repeat constructor; lia|].
  apply StronglySorted_inv in Hs as [Hs Hr]. apply Forall_cons in Hf as [Hf Hfs]. destruct (_ <=? gap).
  - by apply (IH (extend_episode r ep)).
  - destruct (IH (open_episode r) Hs Hr) as [H1 H2]. split.
    + constructor; [done|]. eapply Forall_impl; [exact H2|]. cbn. intros; lia.
    + constructor; [lia|]. eapply Forall_impl; [exact H2|]. cbn. intros; lia.
Qed.

Lemma runs_sorted gap rs : StronglySorted (fun x y => al_Time x <= al_Time y) rs -> StronglySorted (fun x y => ep_First x <= ep_First y) (runs gap rs).
Proof.
  intros H. destruct rs as [|r rs]; [constructor|]. apply StronglySorted_inv in H as [H Hr]. by apply (runs_from_sorted gap rs (open_episode r)).
Qed.

(** Every record counts in one episode. *)
Lemma runs_from_count gap rs : forall ep, foldr Z.add 0 (map ep_Count (runs_from gap ep rs)) = ep_Count ep + zlen rs.
Proof.
  induction rs as [|r rs IH]; intros ep; cbn [runs_from]; [cbn; unfold zlen; cbn; lia|]. rewrite zlen_cons. destruct (_ <=? gap).
  - rewrite IH. cbn. lia.
  - cbn [map foldr]. rewrite IH. cbn. lia.
Qed.

Lemma runs_count gap rs : foldr Z.add 0 (map ep_Count (runs gap rs)) = zlen rs.
Proof. destruct rs as [|r rs]; [done|]. cbn [runs]. rewrite runs_from_count, zlen_cons. cbn. lia. Qed.

(** For every alarm the episodes are the maximal runs of its records in order
    of time with no more than the gap between neighbours, and every record counts in
    one of them.  The episodes are in order of their start, and the order in which
    the open ones are visited at the end changes none of it. *)
Theorem groupEpisodes_runs order records gap :
  (forall opened, ranges (order opened) opened) ->
  StronglySorted (fun x y => ep_First x <= ep_First y) (groupEpisodes order records gap) /\
  forall k, let mine := List.filter (of_alarm k) records in
    List.filter (of_key k) (groupEpisodes order records gap) = runs gap (sort_stable al_Time mine) /\
    foldr Z.add 0 (map ep_Count (List.filter (of_key k) (groupEpisodes order records gap))) = zlen mine.
Proof.
  intros Hord. unfold groupEpisodes.
  assert (H0 : keyed (∅, []) /\ forall k, so_far gap k [] (∅, [])) by (split; [intros k ep; cbn; by rewrite lookup_empty|intros k; unfold so_far; cbn; by rewrite lookup_empty]).
  destruct H0 as [Hk0 Hs0]. pose proof (fun k => group_steps gap k (sort_stable al_Time records) [] _ Hk0 (Hs0 k)) as H. cbn [app] in H.
  destruct (foldl (group_step gap) (∅, []) (sort_stable al_Time records)) as [opened fin]. split; [apply sort_stable_sorted|].
  intros k. destruct (H k) as [Hk Hs]. destruct (Hord opened) as [Hnd Hr].
  assert (E : List.filter (of_key k) (sort_stable ep_First (fin ++ omap (fun k => opened !! k) (order opened))) =
              runs gap (sort_stable al_Time (List.filter (of_alarm k) records))).
  { rewrite filter_sort_stable, List.filter_app, (open_of_key opened _ k Hnd Hr Hk), <- filter_sort_stable. unfold so_far in Hs. cbn [fst snd] in Hs.
    assert (Hf : List.filter (of_key k) fin ++ match opened !! k with Some ep => [ep] | None => [] end = runs gap (List.filter (of_alarm k) (sort_stable al_Time records))).
    { destruct (opened !! k) as [ep|]; [|destruct Hs as [-> ->]; done]. destruct Hs as (f & -> & Hs). specialize (Hs []). by rewrite app_nil_r in Hs. }
    rewrite Hf. apply sort_stable_id, runs_sorted, filter_sorted, sort_stable_sorted. }
  split; [exact E|]. rewrite E, runs_count. unfold zlen. by rewrite sort_stable_length.
Qed.

(** * A concrete scan *)

Definition demo_alarm (t : Z) (src fmi : Z) : list alarmRecord :=
  extractAlarms 1 (DDiagnostics (mkDiagnostics (Some 1) None (Some fmi) (Some 2) (Some 3) (Some 4))) src (t * second).
Definition demo_alarms : list alarmRecord :=
  demo_alarm 500 7 2 ++ demo_alarm 0 7 2 ++ demo_alarm 100 7 2 ++ demo_alarm 90 8 31 ++ extractAlarms 1 (DVictronRegister 0xEDDA (Some 67)) 7 (10 * second).

Lemma groupEpisodes_runs_witness :
  (forall opened : gmap string alarmEpisode, ranges (any_order opened) opened) /\
  map (fun e => (ep_First e / second, ep_Last e / second, ep_Src e, ep_Code e, ep_Count e)) (groupEpisodes any_order demo_alarms (120 * second)) =
    [(0, 100, 7, "FMI 2"%string, 2); (10, 10, 7, "err 67"%string, 1); (90, 90, 8, "FMI 31"%string, 1); (500, 500, 7, "FMI 2"%string, 1)] /\
  map ep_Count (List.filter (of_key "7|WS500 DM1|FMI 2") (groupEpisodes any_order demo_alarms (120 * second))) = [2; 1].
Proof.
  split; [apply any_order_ranges|]. split; [vm_compute; reflexivity|].
  destruct (groupEpisodes_runs any_order demo_alarms (120 * second) any_order_ranges) as [_ H].
  rewrite (proj1 (H "7|WS500 DM1|FMI 2"%string)). vm_compute. reflexivity.
Defined.

(** The number of the parameter, put together from its octets. *)
Lemma SPN_octets spn : 0 <= spn < 0x7FFFF ->
  SPN (mkDiagnostics None None None (Some (Z.shiftr spn 11)) (Some (Z.land (Z.shiftr spn 3) 0xFF)) (Some (Z.land spn 7))) = Some spn.
Proof.
  intros H. unfold SPN. cbn [SpnMsb SpnIsb SpnLsb]. assert (Hs : 0 <= spn < 2 ^ 19) by lia.
  assert (E : Z.lor (Z.lor (u32 (Z.shiftl (Z.shiftr spn 11) 11)) (u32 (Z.shiftl (Z.land (Z.shiftr spn 3) 0xFF) 3))) (Z.land spn 7) = wrap 32 spn).
  { apply Z.bits_inj'. intros i Hi. destruct (Z.lt_ge_cases i 32).
    - enum_bits i 32; bit_norm; bit_small; reflexivity.
    - rewrite !Z.lor_spec, !testbit_wrap, Z.land_spec by lia. rewrite (proj2 (Z.ltb_ge _ _)) by lia. cbn [andb orb].
      rewrite (testbit_small 19 spn) by lia. done. }
  rewrite E, wrap_small by lia. by rewrite (proj2 (Z.eqb_neq _ _)) by lia.
Qed.
