(* ===== verification/Switches.v ===== *)
(** Switch banks: [cmd/lplex/cmd_switches.go].

    The states of the switches of a bank, and the commands that set them: each goes
    to the device that reports the bank. *)

From S2P Require Import RequestRules Prelude CanId GoNum SendPolicy Devices Filters Values VirtualDevice Ring Broker Consumer Server GoUrl Client Dump.
From Stdlib Require Import Ascii.

(** * Reading a bank *)

(** [switchState]: its two bits; every pair of bits is one of the four. *)
Inductive switchState := switchOff | switchOn | switchError | switchUnavailable.

Definition switch_state (bits : Z) : switchState :=
  match bits with 0 => switchOff | 1 => switchOn | 2 => switchError | _ => switchUnavailable end.
Definition switch_bits (s : switchState) : Z :=
  match s with switchOff => 0 | switchOn => 1 | switchError => 2 | switchUnavailable => 3 end.

#[export] Instance switchState_dec : EqDecision switchState.
Proof. solve_decision. Defined.

Definition switchState_String (s : switchState) : string :=
  (match s with switchOff => "OFF" | switchOn => "ON" | switchError => "ERR" | switchUnavailable => "N/A" end)%string.

(** The four switches of a byte; [None] when the bank has ended. *)
Fixpoint byte_switches (b : Z) (bits : list Z) (states : list switchState) : list switchState * bool :=
  match bits with
  | [] => (states, false)
  | bit :: bits =>
      match switch_state (Z.land (Z.shiftr b (bit * 2)) 3) with
      | switchUnavailable => (states, true)
      | st => byte_switches b bits (states ++ [st])
      end
  end.

Fixpoint bank_loop (bytes : list Z) (states : list switchState) : list switchState :=
  match bytes with
  | [] => states
  | b :: bytes => let '(states, ended) := byte_switches b [0; 1; 2; 3] states in if ended : bool then states else bank_loop bytes states
  end.

Definition decodeSwitchBank (data : list Z) : list switchState :=
  match data with _ :: ((_ :: _) as bytes) => bank_loop bytes [] | _ => [] end.

(** * Arguments *)

Inductive switch_error :=
| NoStateInArgument (arg : string)
| BadSwitchNumber (num : string)
| BadSwitchState (state : string)
| InstanceRequired
| ValuesFailed (e : client_error)
| NoSuchBank (instance : Z)
| ManySuchBanks (instance : Z) (matches : list Z)
| SendFailed (num : Z) (e : client_error).

(** The number and whether the switch goes on. *)
Definition parseSwitchArg (arg : string) : result switch_error (Z * bool) :=
  match Cut arg "="%char with
  | None => Err (NoStateInArgument arg)
  | Some (num, state) =>
      match ParseInt num with
      | Err _ => Err (BadSwitchNumber num)
      | Ok n =>
          if (n <? 1) || (28 <? n) then Err (BadSwitchNumber num)
          else if bool_decide (ToLower state = "on"%string) || bool_decide (ToLower state = "1"%string) then Ok (n, true)
          else if bool_decide (ToLower state = "off"%string) || bool_decide (ToLower state = "0"%string) then Ok (n, false)
          else Err (BadSwitchState state)
      end
  end.

Fixpoint parse_args (args : list string) : result switch_error (list (Z * bool)) :=
  match args with
  | [] => Ok []
  | arg :: args => s ← parseSwitchArg arg; ss ← parse_args args; Ok (s :: ss)
  end.

(** * Commands *)

(** A command for all fields of PGN 127500 of one connection. *)
Definition buildLoadControllerCommand (connectionID state : Z) : list Z :=
  let commandedPGN := 127500 in
  [1; u8 commandedPGN; u8 (Z.shiftr commandedPGN 8); u8 (Z.shiftr commandedPGN 16); 0xF8; 8;
   1; 0xFF; 2; connectionID; 3; state; 4; 0; 0; 5; 0; 6; 100; 7; 100; 8; 100].

(** The devices whose last value of PGN 127501 is of the bank. *)
Definition bank_owners (values : list (DeviceValues PGNValue)) (instance : Z) : list Z :=
  concat (map (fun dv => omap (fun pv =>
    if negb (pv_PGN pv =? 127501) then None
    else match hex_DecodeString (pv_Data pv) with
         | Some (b :: _) => if b =? instance then Some (dv_Source dv) else None
         | _ => None
         end) (dv_Values dv)) values).

Definition resolveSwitchBankDevice (Do : transport) (instance : Z) : result switch_error Z :=
  match GetValues Do (Some (Client.mkFilter [127501] [] [] [] [] [])) with
  | Err e => Err (ValuesFailed e)
  | Ok (ValueList values) =>
      match bank_owners values instance with
      | [] => Err (NoSuchBank instance)
      | [src] => Ok src
      | srcs => Err (ManySuchBanks instance srcs)
      end
  | Ok _ => Err (ValuesFailed DecodeError)
  end.

(** The flags of the command: negative numbers stand for none. *)
Record switch_flags := mkSwitchFlags { sw_dst : Z; sw_instance : Z; sw_src : Z; sw_prio : Z }.

Definition switch_dst (Do : transport) (fl : switch_flags) : result switch_error Z :=
  if 0 <=? sw_dst fl then Ok (u8 (sw_dst fl))
  else if sw_instance fl <? 0 then Err InstanceRequired
  else resolveSwitchBankDevice Do (u8 (sw_instance fl)).

Definition switch_command (set : Z * bool) : list Z := buildLoadControllerCommand (u8 (set.1 - 1)) (if set.2 then 2 else 0).

Definition switch_route (fl : switch_flags) (dst : Z) (set : Z * bool) : route :=
  RouteSend (Some (mkSendRequest 126208 (sw_src fl) dst (sw_prio fl) (hex_encode (switch_command set)) "")).

Section Server.
Context (sv : Server) (c : Call).

(** One command after the other, up to the first that fails. *)
Fixpoint send_switches (fl : switch_flags) (dst : Z) (sets : list (Z * bool)) (b : Broker) : Broker * result switch_error unit :=
  match sets with
  | [] => (b, Ok tt)
  | set :: sets =>
      let b' := (exchange sv c (switch_route fl dst set) b).1 in
      match Client.Send (via sv c b) 126208 (sw_src fl) dst (sw_prio fl) (switch_command set) with
      | Err e => (b', Err (SendFailed set.1 e))
      | Ok _ => send_switches fl dst sets b'
      end
  end.

Definition runSwitchesSet (fl : switch_flags) (args : list string) (b : Broker) : Broker * result switch_error unit :=
  match parse_args args with
  | Err e => (b, Err e)
  | Ok sets =>
      match switch_dst (via sv c b) fl with
      | Err e => (b, Err e)
      | Ok dst => send_switches fl dst sets b
      end
  end.

End Server.

(** * What is read and sent *)

(** The states up to the first that is not available. *)
Fixpoint available (ss : list switchState) : list switchState :=
  match ss with [] => [] | s :: ss => if decide (s = switchUnavailable) then [] else s :: available ss end.

(** The pairs of bits of a bank, the lowest first. *)
Definition bank_pairs (bytes : list Z) : list switchState :=
  concat (map (fun b => map (fun bit => switch_state (Z.land (Z.shiftr b (bit * 2)) 3)) [0; 1; 2; 3]) bytes).

Lemma byte_switches_available b bits : forall states,
  let ss := map (fun bit => switch_state (Z.land (Z.shiftr b (bit * 2)) 3)) bits in
  byte_switches b bits states = (states ++ available ss, bool_decide (switchUnavailable ∈ ss)).
Proof.
  induction bits as [|bit bits IH]; intros states; cbn [map byte_switches available].
  { by rewrite app_nil_r. }
  specialize (IH (states ++ [switch_state (Z.land (Z.shiftr b (bit * 2)) 3)])). cbn zeta in IH.
  assert (Hc : forall s ss, s <> switchUnavailable -> bool_decide (switchUnavailable ∈ s :: ss) = bool_decide (switchUnavailable ∈ ss)).
  { intros s ss Hs. apply bool_decide_ext. rewrite elem_of_cons. intuition congruence. }
  destruct (switch_state (Z.land (Z.shiftr b (bit * 2)) 3)); [rewrite IH, decide_False, Hc, <- app_assoc by done; reflexivity..|].
  rewrite decide_True, app_nil_r by done. by rewrite bool_decide_true by (apply elem_of_cons; by left).
Qed.

Lemma available_app a b : available (a ++ b) = if bool_decide (switchUnavailable ∈ a) then available a else available a ++ available b.
Proof.
  induction a as [|s a IH]; cbn [app available]; [done|].
  destruct (decide (s = switchUnavailable)) as [->|Hs]; [by rewrite bool_decide_true by (apply elem_of_cons; by left)|]. rewrite IH.
  rewrite (bool_decide_ext (switchUnavailable ∈ s :: a) (switchUnavailable ∈ a)) by (rewrite elem_of_cons; intuition congruence).
  by destruct (bool_decide _).
Qed.

Lemma decodeSwitchBank_available i bytes : decodeSwitchBank (i :: bytes) = available (bank_pairs bytes).
Proof.
  assert (H : forall states, bank_loop bytes states = states ++ available (bank_pairs bytes)).
  { induction bytes as [|b bytes IH]; intros states; cbn [bank_loop bank_pairs map concat]; [by rewrite app_nil_r|].
    rewrite byte_switches_available, available_app. destruct (bool_decide _); [done|]. rewrite IH. by rewrite app_assoc. }
  destruct bytes; [done|]. apply (H []).
Qed.

Lemma parse_args_all args sets : parse_args args = Ok sets <-> Forall2 (fun arg set => parseSwitchArg arg = Ok set) args sets.
Proof.
  revert sets. induction args as [|arg args IH]; intros sets; cbn [parse_args].
  - split; [intros [= <-]; constructor|intros H; by inversion H].
  - split.
    + destruct (parseSwitchArg arg) as [s|] eqn:E; [|done]. cbn [mbind result_bind]. destruct (parse_args args) as [ss|] eqn:Es; [|done]. cbn [mbind result_bind].
      intros [= <-]. constructor; [done|]. by apply IH.
    + intros H. inversion H as [|? s ? ss Hs Hss]; subst. rewrite Hs. cbn [mbind result_bind]. apply IH in Hss. by rewrite Hss.
Qed.

Lemma parseSwitchArg_range arg n on : parseSwitchArg arg = Ok (n, on) -> 1 <= n <= 28.
Proof.
  unfold parseSwitchArg. destruct (Cut arg "="%char) as [[num state]|]; [|done]. destruct (ParseInt num) as [m|]; [|done].
  destruct (Z.ltb_spec m 1), (Z.ltb_spec 28 m); cbn [orb]; try done. destruct (_ || _); [intros [= <- _]; lia|]. destruct (_ || _); [intros [= <- _]; lia|done].
Qed.

(** A server that takes the frames of a client: sending is enabled without rules,
    and nothing stands in the way of the queue. *)
Record open_for_sending (sv : Server) (b : Broker) : Prop := {
  os_key : sv_apiKey sv = EmptyString;
  os_readOnly : sv_readOnly sv = false;
  os_policy : sv_policy sv = mkSendPolicy true [];
  os_limiter : sv_limiter sv = None;
  os_virtual : b_virtual b = None
}.

Lemma hex_of_command set : hex_DecodeString (hex_encode (switch_command set)) = Some (switch_command set).
Proof.
  apply hex_decode_encode. unfold switch_command, buildLoadControllerCommand. destruct set as [n on]. cbn [fst snd].
  repeat (constructor; [first [apply (wrap_range 8); lia | destruct on; split; lia | split; vm_compute; congruence]|]). constructor.
Qed.

Definition switch_tx (fl : switch_flags) (dst : Z) (set : Z * bool) : TxRequest :=
  mkTxRequest (mkCANHeader (sw_prio fl) 126208 (sw_src fl) dst) (switch_command set) "".

Lemma send_switch_open sv c fl dst set b : open_for_sending sv b ->
  exchange sv c (switch_route fl dst set) b =
    (if (length (b_tx b) <? tx_capacity)%nat then (with_tx b (b_tx b ++ [switch_tx fl dst set]), mkReply 202 NoBody) else (b, fail 503 TxQueueFull)).
Proof.
  intros [Hk Hr Hp Hl Hv]. rewrite exchange_open by done. cbn [route_handler switch_route]. unfold handleSend, rate_limited, checkSendPolicy, overrideSource.
  rewrite Hl, Hr, Hp, Hv. cbn [sr_Bus sr_PGN sr_Dst sr_Data sr_Src sr_Prio Enabled Rules negb length]. rewrite hex_of_command.
  cbn [Nat.eqb]. unfold QueueTx. by destruct (_ <? _)%nat.
Qed.

Lemma open_with_tx sv b q : open_for_sending sv b -> open_for_sending sv (with_tx b q).
Proof. intros []. by constructor. Qed.

Definition queue_room (b : Broker) : nat := (tx_capacity - length (b_tx b))%nat.

(** The result of a run of sends: all of them, or the first without room. *)
Definition sent_result (room : nat) (sets : list (Z * bool)) : result switch_error unit :=
  match sets !! room with
  | None => Ok tt
  | Some set => Err (SendFailed set.1 (BadStatus "POST /send" 503 (ErrorText TxQueueFull)))
  end.

Lemma send_switches_open sv c fl dst sets : forall b, open_for_sending sv b -> (length (b_tx b) <= tx_capacity)%nat ->
  send_switches sv c fl dst sets b = (with_tx b (b_tx b ++ map (switch_tx fl dst) (take (queue_room b) sets)), sent_result (queue_room b) sets).
Proof.
  induction sets as [|set sets IH]; intros b Hb Hlen; cbn [send_switches].
  { unfold sent_result. rewrite take_nil, app_nil_r, lookup_nil. f_equal. by destruct b. }
  unfold Client.Send, do_request, via. fold (switch_route fl dst set). rewrite (send_switch_open sv c fl dst set b Hb).
  destruct (Nat.ltb_spec (length (b_tx b)) tx_capacity) as [Hlt|Hge]; cbn [fst snd code body mbind result_bind].
  - rewrite IH by (first [by apply open_with_tx | cbn [b_tx with_tx]; rewrite length_app; cbn [length]; lia]).
    assert (Er : queue_room b = S (queue_room (with_tx b (b_tx b ++ [switch_tx fl dst set])))) by (unfold queue_room; cbn [b_tx with_tx]; rewrite length_app; cbn [length]; lia).
    rewrite Er. cbn [take map]. cbn [b_tx with_tx]. rewrite <- app_assoc. reflexivity.
  - assert (Er : queue_room b = 0%nat) by (unfold queue_room; lia). rewrite Er. cbn [take map sent_result lookup list_lookup]. rewrite app_nil_r.
    cbn. f_equal. by destruct b.
Qed.

(** C40: lplex switches set is all or nothing before it sends. Against a server
    open for sending - no API key, not read-only, sending enabled without rules, no
    rate limiter and no virtual device ([open_for_sending]) - whose queue is within
    its capacity: it parses every argument, each a switch from 1 to 28, and, if no
    destination is given, asks for the values of PGN 127501, before it sends; it
    goes on only when exactly one device is shown with the bank, and that is the
    destination. Then it queues one command per switch, in order, until the queue is
    full, which is the error it reports. An argument that is wrong, or a bank shown
    by none or by several devices, is an error with the broker as it was. (The
    server keeps one value of the PGN for a source, so of a device with several
    banks only the last one reported is shown, see [two_banks_one_found].) *)
Theorem switches_set sv c fl args b :
  open_for_sending sv b -> (length (b_tx b) <= tx_capacity)%nat ->
  match parse_args args, switch_dst (via sv c b) fl with
  | Ok sets, Ok dst =>
      runSwitchesSet sv c fl args b =
        (with_tx b (b_tx b ++ map (switch_tx fl dst) (take (queue_room b) sets)), sent_result (queue_room b) sets) /\
      Forall2 (fun arg set => parseSwitchArg arg = Ok set /\ 1 <= set.1 <= 28) args sets /\
      (sw_dst fl < 0 -> exists values, GetValues (via sv c b) (Some (Client.mkFilter [127501] [] [] [] [] [])) = Ok (ValueList values) /\
         bank_owners values (u8 (sw_instance fl)) = [dst])
  | _, _ => exists e, runSwitchesSet sv c fl args b = (b, Err e)
  end.
Proof.
  intros Hb Hlen. unfold runSwitchesSet. destruct (parse_args args) as [sets|e] eqn:Ea; [|by eexists].
  destruct (switch_dst (via sv c b) fl) as [dst|e] eqn:Ed; [|by eexists]. split; [by apply send_switches_open|]. split.
  - apply parse_args_all in Ea. eapply Forall2_impl; [exact Ea|]. intros arg [n on] H. split; [done|]. by eapply parseSwitchArg_range.
  - intros Hneg. unfold switch_dst in Ed. rewrite (proj2 (Z.leb_gt 0 (sw_dst fl))) in Ed by lia. destruct (sw_instance fl <? 0); [done|].
    unfold resolveSwitchBankDevice in Ed. destruct (GetValues _ _) as [[]|]; try done. eexists. split; [reflexivity|].
    destruct (bank_owners values (u8 (sw_instance fl))) as [|src [|]]; try done. by injection Ed as <-.
Qed.

(** ** A concrete command *)

(** The boat's device reports bank 3: on, off, error, on, and no more. *)
Definition switch_boat : Broker :=
  with_values demo_boat (Record_ "can0" 6 127501 1000 [3; 0x61; 0xFF] 41 (values (b_state demo_boat))).

Example bank_reads : decodeSwitchBank [3; 0x61; 0xFF] = [switchOn; switchOff; switchError; switchOn].
Proof. reflexivity. Qed.

Definition switch_demo_flags : switch_flags := mkSwitchFlags (-1) 3 0 3.

Lemma switches_set_witness :
  open_for_sending demo_open_server switch_boat /\
  map (fun tx => (Destination (tx_Header tx), nth 9 (tx_Data tx) 0, nth 11 (tx_Data tx) 0))
    (b_tx (runSwitchesSet demo_open_server demo_call switch_demo_flags ["1=on"; "4=OFF"]%string switch_boat).1) = [(6, 0, 2); (6, 3, 0)].
Proof.
  assert (Ho : open_for_sending demo_open_server switch_boat) by (constructor; reflexivity).
  split; [exact Ho|]. pose proof (switches_set demo_open_server demo_call switch_demo_flags ["1=on"; "4=OFF"]%string switch_boat Ho ltac:(cbn; unfold tx_capacity; lia)) as H.
  assert (Ea : parse_args ["1=on"; "4=OFF"]%string = Ok [(1, true); (4, false)]) by (vm_compute; reflexivity).
  assert (Ed : switch_dst (via demo_open_server demo_call switch_boat) switch_demo_flags = Ok 6) by (vm_compute; reflexivity).
  rewrite Ea, Ed in H. destruct H as [-> _]. vm_compute. reflexivity.
Defined.

(** A device with two banks is found for the one it reported last only: the store
    keeps one value of a PGN for a source. *)
Example two_banks_one_found :
  let b := with_values demo_boat (Record_ "can0" 6 127501 2000 [4; 0x61; 0xFF] 42 (values (b_state switch_boat))) in
  (switch_dst (via demo_open_server demo_call b) (mkSwitchFlags (-1) 3 0 3), switch_dst (via demo_open_server demo_call b) (mkSwitchFlags (-1) 4 0 3)) =
  (Err (NoSuchBank 3), Ok 6).
Proof. vm_compute. reflexivity. Qed.
