(* ===== verification/Cloud.v ===== *)
(** The cloud program: [cmd/lplex-cloud/main.go] and [config.go].

    From the configuration file to the instance manager, the keeper, the
    replication server and its listener; who may connect to it; and the HTTP
    routes.  What the files of certificates hold and what the data directory
    lists are arguments; sockets and tracing are left out. *)

From S2P Require Import Prelude GoNum GoLiteral GoTime FilterLang CanId Devices Filters Values RequestRules SendPolicy Ring Broker Server Slots Config JournalFormat JournalWriter Keeper Startup EventLog ReplServer.

(** * Configuration *)

Definition configToFlag : list (string * string) :=
  [("listen", "listen"); ("acme.domain", "acme-domain"); ("acme.email", "acme-email"); ("tls.client-ca", "tls-client-ca");
   ("grpc.listen", "grpc-listen"); ("grpc.tls.cert", "tls-cert"); ("grpc.tls.key", "tls-key"); ("grpc.tls.client-ca", "tls-client-ca");
   ("http.listen", "http-listen"); ("data-dir", "data-dir"); ("journal.retention.max-age", "journal-retention-max-age");
   ("journal.retention.min-keep", "journal-retention-min-keep"); ("journal.retention.max-size", "journal-retention-max-size");
   ("journal.retention.soft-pct", "journal-retention-soft-pct"); ("journal.retention.overflow-policy", "journal-retention-overflow-policy");
   ("journal.rotate-duration", "journal-rotate-duration"); ("journal.rotate-size", "journal-rotate-size");
   ("journal.archive.command", "journal-archive-command"); ("journal.archive.trigger", "journal-archive-trigger");
   ("ring-size", "ring-size"); ("device.idle-timeout", "device-idle-timeout"); ("replication.rate-limit", "replication-rate-limit");
   ("replication.rate-burst", "replication-rate-burst"); ("replication.max-live-lag", "replication-max-live-lag")]%string.

Definition declared_flags : flags := list_to_map
  [("grpc-listen", FString ":9443"); ("http-listen", FString ":8080"); ("listen", FString ":443"); ("acme-domain", FString "");
   ("acme-email", FString ""); ("data-dir", FString "/data/lplex"); ("tls-cert", FString ""); ("tls-key", FString "");
   ("tls-client-ca", FString ""); ("journal-retention-max-age", FString ""); ("journal-retention-min-keep", FString "");
   ("journal-retention-max-size", FInt64 0); ("journal-retention-soft-pct", FInt 80);
   ("journal-retention-overflow-policy", FString "delete-unarchived"); ("journal-archive-command", FString "");
   ("journal-archive-trigger", FString ""); ("journal-rotate-duration", FString "PT1H"); ("journal-rotate-size", FInt64 0);
   ("replication-rate-limit", FInt DefaultMaxFrameRate); ("replication-rate-burst", FInt DefaultRateBurst);
   ("replication-max-live-lag", FInt DefaultMaxLiveLag); ("ring-size", FInt 65536); ("device-idle-timeout", FString "5m");
   ("config", FString ""); ("version", FBool false); ("otel-endpoint", FString ""); ("otel-sample-ratio", FFloat64 (float_of_Z 1))]%string.

Definition search_paths : list string := ["./lplex-cloud.conf"; "/etc/lplex-cloud/lplex-cloud.conf"]%string.

Definition findConfigFile : (string -> stat) -> string -> result find_error string := find_config search_paths.

(** [order] is the order in which the map is visited. *)
Definition applyConfig (explicit : gset string) (order : list (string * string)) (cfg : hocon) (fs : flags) : config flags :=
  apply_flags explicit cfg order fs.

(** * Starting *)

Inductive cloud_error := DataDirFailed | BadSetting (e : startup_error) | TLSFailed.

Definition setting {A} (r : started A) : result cloud_error A := match r with Ok a => Ok a | Err e => Err (BadSetting e) end.

Definition buildKeeperConfig (fs : flags) : started (option KeeperConfig) :=
  maxAge ← iso_optional fs "journal-retention-max-age";
  minKeep ← iso_optional fs "journal-retention-min-keep";
  match ParseArchiveTrigger (str fs "journal-archive-trigger") with
  | None => Err (Invalid "journal-archive-trigger")
  | Some archiveTrigger =>
      match ParseOverflowPolicy (str fs "journal-retention-overflow-policy") with
      | None => Err (Invalid "journal-retention-overflow-policy")
      | Some overflowPolicy =>
          let maxSize := int fs "journal-retention-max-size" in
          let archiveCmd := str fs "journal-archive-command" in
          if (maxAge =? 0) && (maxSize =? 0) && negb (nonblank archiveCmd) then Ok None
          else Ok (Some (mkKeeperConfig maxAge minKeep maxSize (int fs "journal-retention-soft-pct") overflowPolicy archiveCmd archiveTrigger))
      end
  end.

(** [DirFunc]: an instance for every directory; a directory that cannot be read
    has none. *)
Definition instance_dirs (dataDir : string) (entries : option (list (string * bool))) : list KeeperDir :=
  match entries with
  | None => []
  | Some es => omap (fun '(name, is_dir) =>
      if is_dir : bool then Some (mkKeeperDir (dataDir ++ "/instances/" ++ name ++ "/journal") name) else None) es
  end.

(** What the keeper and the manager tell each other. *)
Definition on_pause (notice : KeeperDir * bool) (im : InstanceManager) : InstanceManager :=
  SetInstancePaused (kd_InstanceID (fst notice)) (snd notice) im.
Definition on_rotate (instanceID : string) (rf : RotatedFile) (k : JournalKeeper) : JournalKeeper :=
  Send (mkRotated (rf_Path rf) instanceID) k.

(** ** Listeners *)

(** [tls.ClientAuthType], and whether certificates load. *)
Inductive client_auth := NoClientCert | VerifyClientCertIfGiven | RequireAndVerifyClientCert.

Record tls_files := mkFiles { LoadX509KeyPair : string -> string -> bool; loadCAPool : string -> bool }.

Definition buildServerTLS (files : tls_files) (certFile keyFile clientCAFile : string) : result cloud_error client_auth :=
  if negb (LoadX509KeyPair files certFile keyFile) then Err TLSFailed
  else if nonblank clientCAFile then
    if loadCAPool files clientCAFile then Ok RequireAndVerifyClientCert else Err TLSFailed
  else Ok NoClientCert.

(** The gRPC side of a listener; [None] is without TLS. *)
Definition startDualPortServer (files : tls_files) (certFile keyFile clientCAFile : string) : result cloud_error (option client_auth) :=
  if nonblank certFile && nonblank keyFile then auth ← buildServerTLS files certFile keyFile clientCAFile; Ok (Some auth)
  else Ok None.

Definition startACMEServer (files : tls_files) (clientCAFile : string) : result cloud_error (option client_auth) :=
  if nonblank clientCAFile then
    if loadCAPool files clientCAFile then Ok (Some VerifyClientCertIfGiven) else Err TLSFailed
  else Ok (Some NoClientCert).

(** A request to the single port of ACME mode goes to gRPC or to HTTP. *)
Definition is_grpc (protoMajor : Z) (contentType : string) : bool :=
  (protoMajor =? 2) && String.prefix "application/grpc" contentType.

Record CloudSetup := mkCloudSetup {
  cs_manager : InstanceManager;
  cs_keeper : option KeeperConfig;
  cs_replication : ReplicationServer;
  cs_listener : option client_auth
}.

(** [main]; a data directory that cannot be read is [None]. *)
Definition start_cloud (dirs : option (list (string * load_result))) (files : tls_files) (fs : flags) : result cloud_error CloudSetup :=
  match dirs with
  | None => Err DataDirFailed
  | Some dirs =>
      let im := NewInstanceManager dirs in
      devTimeout ← setting (go_flag fs "device-idle-timeout");
      let im := SetDeviceIdleTimeout (if devTimeout =? 0 then -1 else devTimeout) im in
      let im := if int fs "ring-size" =? 65536 then im else SetRingSize (int fs "ring-size") im in
      rotateDur ← setting (iso_optional fs "journal-rotate-duration");
      let im := SetJournalRotation rotateDur (int fs "journal-rotate-size") im in
      keeper ← setting (buildKeeperConfig fs);
      let im := match keeper with Some _ => SetOnRotate im | None => im end in
      let repl := ReplServer.mkServer (int fs "replication-rate-limit") (int fs "replication-rate-burst") (u64 (int fs "replication-max-live-lag")) in
      listener ← (if nonblank (str fs "acme-domain") then startACMEServer files (str fs "tls-client-ca")
                  else startDualPortServer files (str fs "tls-cert") (str fs "tls-key") (str fs "tls-client-ca"));
      Ok (mkCloudSetup im keeper repl listener)
  end.

(** ** Connections *)

(** What a client presents: nothing, a certificate the CA did not sign, or one with
    its chain to the CA, by common name. *)
Inductive credential := NoCertificate | Unverified | Verified (cn : string) (chain : list string) (chains : list (list string)).

(** The handshake of [crypto/tls]: the peer that the handlers see, unless the
    connection is refused.  A server that does not ask gets no certificate. *)
Definition accept (listener : option client_auth) (cr : credential) (ids : list string) : option RpcContext :=
  match listener, cr with
  | None, _ => Some (mkRpc None ids)
  | Some NoClientCert, _ => Some (mkRpc (Some []) ids)
  | Some VerifyClientCertIfGiven, NoCertificate => Some (mkRpc (Some []) ids)
  | Some _, Verified cn chain chains => Some (mkRpc (Some ((cn :: chain) :: chains)) ids)
  | Some _, _ => None
  end.

(** * HTTP *)

Inductive cloud_route :=
| GetInstances
| GetStatus (id : string)
| GetEvents (id : string) (q : filter_query)
| GetReplicationEvents (id : string) (limit : string)
| GetInstanceDevices (id : string)
| GetInstanceValues (id : string) (q : filter_query)
| GetDecodedValues (id : string) (q : filter_query)
| GetHealth
| GetMetrics.

Section http.
(** The generated registry of decoders, as [DecodedSnapshot] has it, and the order
    in which maps are visited. *)
Context {Fields : Type} (pgn_registry : Z -> option (string * option (list Z -> option Fields))) (order : InstanceManager -> list string).

Inductive cloud_body :=
| InstanceNotFound
| InstanceList (l : list InstanceSummary)
| InstanceReport (s : InstanceStatus)
| EventList (l : list ReplicationEvent)
| DecodedList (l : list (DeviceValues (@DecodedPGNValue Fields)))
| CloudHealth (total up : nat)
| Samples (l : list (string * option string * Z))
| BrokerReply (r : reply).

Record cloud_reply := mkCloudReply { cr_code : Z; cr_body : cloud_body }.

Definition not_found : cloud_reply := mkCloudReply 404 InstanceNotFound.

Definition from_broker (r : reply) : cloud_reply := mkCloudReply (Server.code r) (BrokerReply r).

(** The number of events a client gets. *)
Definition event_limit (q : string) : Z :=
  let limit := if nonblank q then match ParseInt q with Ok n => if 0 <? n then n else 100 | Err _ => 100 end else 100 in
  if 1024 <? limit then 1024 else limit.

(** A route that needs the broker of an instance, which it starts. *)
Definition on_broker (id : string) (handle : Broker -> Broker * cloud_reply) (im : InstanceManager) : option (InstanceManager * cloud_reply) :=
  '(im, rb) ← GetInstanceBroker id im;
  match rb with
  | None => Some (im, not_found)
  | Some rb =>
      let '(b, r) := handle (rb_broker rb) in
      match instances im !! id with
      | Some s => Some (put_instance id (set_broker s (Some (mkRunning b (rb_rx rb) (rb_writer rb) (rb_cfg rb) (rb_paused rb))) (is_journal s)) im, r)
      | None => Some (im, r)
      end
  end.

Definition decoded_values (c : Call) (q : filter_query) (b : Broker) : cloud_reply :=
  match ParseFilterParams q with
  | Err e => from_broker (fail 400 (BadFilter e))
  | Ok filter => mkCloudReply 200 (DecodedList (DecodedSnapshot pgn_registry (devices (b_state b)) filter
                   (cl_values c (values (b_state b))) (values (b_state b))))
  end.

(** How many instances there are and how many are connected. *)
Definition cloudHealth (im : InstanceManager) : cloud_reply :=
  let instances := List_ (order im) im in
  mkCloudReply 200 (CloudHealth (length instances) (length (List.filter sm_Connected instances))).

(** The samples of [/metrics]: name, instance and value. *)
Definition cloudMetrics (im : InstanceManager) : cloud_reply :=
  let instances := List_ (order im) im in
  mkCloudReply 200 (Samples
    ([("lplex_cloud_instances_total"%string, None, zlen instances);
      ("lplex_cloud_instances_connected"%string, None, zlen (List.filter sm_Connected instances))] ++
     concat (map (fun inst =>
       [("lplex_cloud_instance_connected"%string, Some (sm_ID inst), if sm_Connected inst then 1 else 0);
        ("lplex_cloud_instance_lag_seqs"%string, Some (sm_ID inst), sm_LagSeqs inst);
        ("lplex_cloud_instance_cursor"%string, Some (sm_ID inst), sm_Cursor inst);
        ("lplex_cloud_instance_holes"%string, Some (sm_ID inst), Z.of_nat (sm_Holes inst))]) instances))).

Definition cloud_http (c : Call) (r : cloud_route) (im : InstanceManager) : option (InstanceManager * cloud_reply) :=
  match r with
  | GetInstances => Some (im, mkCloudReply 200 (InstanceList (List_ (order im) im)))
  | GetStatus id =>
      Some (im, match Get id im with Some s => mkCloudReply 200 (InstanceReport (Status s)) | None => not_found end)
  | GetEvents id q => on_broker id (fun b => let '(b, r) := handle_events c q b in (b, from_broker r)) im
  | GetReplicationEvents id limit =>
      match Get id im with
      | None => Some (im, not_found)
      | Some s => events ← RecentEvents (event_limit limit) s; Some (im, mkCloudReply 200 (EventList events))
      end
  | GetInstanceDevices id => on_broker id (fun b => (b, from_broker (handleDevices c b))) im
  | GetInstanceValues id q => on_broker id (fun b => (b, from_broker (handleValues c q b))) im
  | GetDecodedValues id q => on_broker id (fun b => (b, decoded_values c q b)) im
  | GetHealth => Some (im, cloudHealth im)
  | GetMetrics => Some (im, cloudMetrics im)
  end.

(** * A running cloud *)

Inductive rpc :=
| CallHandshake (now : time) (persist_ok : bool) (req : HandshakeRequest)
| CallLive (now : time) (eof : bool) (msgs : list (LiveEnv * live_msg))
| CallBackfill (now : time) (eof persist_ok : bool) (msgs : list (BackfillEnv * option Block)).

Inductive cloud_event :=
| OverHTTP (c : Call) (r : cloud_route)
| OverGRPC (cr : credential) (ids : list string) (call : rpc).

(** [None] is a panic. *)
Definition serve_rpc (srv : ReplicationServer) (ctx : RpcContext) (call : rpc) (im : InstanceManager) : option InstanceManager :=
  match call with
  | CallHandshake now ok req => fst <$> Handshake ctx now ok req im
  | CallLive now eof msgs => '(im, _, _) ← Live srv ctx now eof msgs im; Some im
  | CallBackfill now eof ok msgs => '(im, _, _) ← Backfill ctx now eof ok msgs im; Some im
  end.

Definition cloud_step (cs : CloudSetup) (ev : cloud_event) (im : InstanceManager) : option InstanceManager :=
  match ev with
  | OverHTTP c r => fst <$> cloud_http c r im
  | OverGRPC cr ids call =>
      match accept (cs_listener cs) cr ids with None => Some im | Some ctx => serve_rpc (cs_replication cs) ctx call im end
  end.

Fixpoint run_cloud (cs : CloudSetup) (evs : list cloud_event) (im : InstanceManager) : option InstanceManager :=
  match evs with
  | [] => Some im
  | ev :: evs => im ← cloud_step cs ev im; run_cloud cs evs im
  end.

(** ** Who may change what *)

(** The broker has been subscribed to, and nothing else. *)
Definition subscribed : Broker -> Broker -> Prop := rtc (fun b b' => exists sub f, b' = Subscribe sub f b).

(** What reading over HTTP can do to an instance: its broker is started if it was
    not running, as a replication call would start it, and is subscribed to. *)
Definition untouched (s s' : InstanceState) : Prop :=
  s' = s \/ exists s1 rb b, ensureBroker s = Some s1 /\ is_broker s1 = Some rb /\ subscribed (rb_broker rb) b /\
    s' = set_broker s1 (Some (mkRunning b (rb_rx rb) (rb_writer rb) (rb_cfg rb) (rb_paused rb))) (is_journal s1).

Definition kept (o o' : option InstanceState) : Prop :=
  match o, o' with None, None => True | Some s, Some s' => untouched s s' | _, _ => False end.

#[local] Instance kept_preorder : PreOrder kept.
Proof.
  split.
  - intros [s|]; [|done]. by left.
  - intros [s1|] [s2|] [s3|]; try done. intros [->|(t & rb & b & E & Hrb & Hb & ->)]; [done|].
    intros [->|(t' & rb' & b' & E' & Hrb' & Hb' & ->)]; right; [by exists t, rb, b|].
    cbn in E'. injection E' as <-. cbn in Hrb'. injection Hrb' as <-. cbn in *. exists t, rb, b'. split_and!; [done..|by etransitivity|done].
Qed.

(** The state is well formed, and HTTP has done no more than read. *)
Definition read_only (im im' : InstanceManager) : Prop := im_ok im' /\ forall id, kept (instances im !! id) (instances im' !! id).

Lemma untouched_ok s s' : untouched s s' -> state_ok s -> state_ok s'.
Proof.
  intros [->|(s1 & rb & b & E & _ & _ & ->)]; [done|]. intros Hok. destruct (ensureBroker_runs s (proj1 Hok)) as (s2 & E2 & _ & Hr & He).
  rewrite E in E2. injection E2 as <-. apply (state_ok_same s); done.
Qed.

Lemma read_only_put im im' id s s' : read_only im im' -> instances im' !! id = Some s -> untouched s s' -> read_only im (put_instance id s' im').
Proof.
  intros [Hok Hk] Es Hu. split.
  - split; [apply Hok|]. intros id' t. cbn. destruct (decide (id' = id)) as [->|Hne]; [rewrite lookup_insert_eq|rewrite lookup_insert_ne by done; apply Hok].
    intros [= <-]. exact (untouched_ok _ _ Hu (get_ok id im' s Hok Es)).
  - intros id'. cbn. destruct (decide (id' = id)) as [->|Hne]; [rewrite lookup_insert_eq|by rewrite lookup_insert_ne].
    transitivity (instances im' !! id); [apply Hk|]. by rewrite Es.
Qed.

Lemma on_broker_reads id h im : (forall b, subscribed b (h b).1) -> im_ok im ->
  exists im' r, on_broker id h im = Some (im', r) /\ read_only im im'.
Proof.
  intros Hh Hok. assert (Hrefl : read_only im im) by (split; [done|intros i; reflexivity]). unfold on_broker, GetInstanceBroker, Get.
  destruct (instances im !! id) as [s|] eqn:Es; [|by eexists _, _]. destruct (ensureBroker_runs s (proj1 (get_ok _ _ _ Hok Es))) as (s' & E & [rb Hrb] & _).
  rewrite E. cbn [mbind option_bind]. rewrite Hrb. specialize (Hh (rb_broker rb)). destruct (h (rb_broker rb)) as [b r]. cbn [fst] in Hh.
  cbn [put_instance with_instances instances] in *. rewrite lookup_insert_eq. eexists _, _. split; [reflexivity|].
  set (s2 := set_broker _ _ _). assert (Hp : put_instance id s2 (put_instance id s' im) = put_instance id s2 im).
  { unfold put_instance, with_instances. cbn. by rewrite insert_insert_eq. }
  rewrite Hp. eapply read_only_put; [exact Hrefl|exact Es|]. right. by exists s', rb, b.
Qed.

Lemma handle_events_subscribed c q b : subscribed b (handle_events c q b).1.
Proof.
  unfold handle_events. destruct (ParseFilterParams q); [|apply rtc_refl]. cbn [fst]. apply rtc_once. by eexists _, _.
Qed.

Lemma cloud_http_reads c r im : im_ok im -> exists im' a, cloud_http c r im = Some (im', a) /\ read_only im im'.
Proof.
  intros Hok. assert (Hrefl : read_only im im) by (split; [done|intros i; reflexivity]).
  destruct r; cbn [cloud_http] in *; try (by eexists _, _); try (apply on_broker_reads; [intros b; apply rtc_refl|done]).
  - apply on_broker_reads; [|done]. intros b. pose proof (handle_events_subscribed c q b) as H. by destruct (handle_events c q b).
  - unfold Get. destruct (instances im !! id) as [s|] eqn:Es; [|by eexists _, _]. destruct (get_ok _ _ _ Hok Es) as [_ [es He]].
    unfold RecentEvents. rewrite (Recent_holds _ _ _ He). by eexists _, _.
Qed.

(** The instance a call is for: the one of the certificate, or whatever it says. *)
Definition claims (ctx : RpcContext) (call : rpc) : string :=
  match rpc_tls ctx, call, rpc_ids ctx with
  | Some ((cn :: _) :: _), _, _ => cn
  | _, CallHandshake _ _ req, _ => hq_InstanceId req
  | _, _, id :: _ => id
  | _, _, [] => EmptyString
  end.

Lemma extract_claims ctx call : (forall now ok req, call <> CallHandshake now ok req) ->
  extractInstanceID ctx = Ok (claims ctx call) \/ extractInstanceID ctx = Err Unauthenticated.
Proof.
  intros Hc. unfold extractInstanceID, claims. destruct (rpc_tls ctx) as [[|[|cn chain] chains]|], call, (rpc_ids ctx); try (by left); try (by right); by destruct (Hc now persist_ok req).
Qed.

Lemma verify_claims ctx now ok req : verifyIdentity ctx (hq_InstanceId req) = Ok tt -> hq_InstanceId req = claims ctx (CallHandshake now ok req).
Proof.
  unfold verifyIdentity, claims. destruct (rpc_tls ctx) as [[|[|cn chain] chains]|]; try done. by case_bool_decide.
Qed.

Lemma serve_rpc_only srv ctx call im : im_ok im -> exists im', serve_rpc srv ctx call im = Some im' /\ only (claims ctx call) im im'.
Proof.
  intros Hok. destruct call as [now ok req|now eof msgs|now eof ok msgs]; cbn [serve_rpc].
  - destruct (Handshake_ok ctx now ok req im (claims ctx (CallHandshake now ok req))) as (im' & r & -> & Ho & _); [apply verify_claims|done|]. by exists im'.
  - destruct (live_loop_ok srv ctx now eof (claims ctx (CallLive now eof msgs)) msgs im (mkLive None 0 0 0 [])) as (im' & ls & c & E & Ho); [|done|done|].
    { intros id Hid. destruct (extract_claims ctx (CallLive now eof msgs) ltac:(done)) as [H|H]; rewrite H in Hid; [by injection Hid|done]. }
    unfold Live. rewrite E. by exists im'.
  - destruct (extract_claims ctx (CallBackfill now eof ok msgs) ltac:(done)) as [He|He].
    + destruct (Backfill_ok ctx now eof ok msgs im _ He Hok) as (im' & sent & c & -> & Ho). by exists im'.
    + unfold Backfill. rewrite He. exists im. split; [done|apply only_refl].
Qed.

(** A call with the certificate of [id]. *)
Definition certified (ev : cloud_event) (id : string) : Prop :=
  match ev with OverGRPC (Verified cn _ _) _ _ => cn = id | _ => False end.

Lemma cloud_step_ok cs ev im : im_ok im ->
  exists im', cloud_step cs ev im = Some im' /\ im_ok im' /\
    (cs_listener cs = Some RequireAndVerifyClientCert -> forall id, ~ certified ev id -> kept (instances im !! id) (instances im' !! id)).
Proof.
  intros Hok. destruct ev as [c r|cr ids call]; cbn [cloud_step].
  - destruct (cloud_http_reads c r im Hok) as (im' & a & -> & [Hok' Hk]). by exists im'.
  - destruct (accept (cs_listener cs) cr ids) as [ctx|] eqn:Ea.
    + destruct (serve_rpc_only (cs_replication cs) ctx call im Hok) as (im' & -> & Ho). exists im'. split_and!; [done|by apply Ho|].
      intros Hl id Hid. rewrite Hl in Ea. destruct cr as [| |cn chain chains]; try done. injection Ea as <-.
      rewrite (on_others _ _ _ Ho id); [reflexivity|]. cbn. intros ->. by apply Hid.
    + exists im. split_and!; [done|done|reflexivity].
Qed.

Lemma run_cloud_ok cs evs : forall im, im_ok im ->
  exists im', run_cloud cs evs im = Some im' /\ im_ok im' /\
    (cs_listener cs = Some RequireAndVerifyClientCert -> forall id, Forall (fun ev => ~ certified ev id) evs ->
     kept (instances im !! id) (instances im' !! id)).
Proof.
  induction evs as [|ev evs IH]; intros im Hok; cbn [run_cloud]; [by exists im|].
  destruct (cloud_step_ok cs ev im Hok) as (im1 & -> & Hok1 & H1). cbn [mbind option_bind].
  destruct (IH im1 Hok1) as (im2 & -> & Hok2 & H2). exists im2. split_and!; [done..|]. intros Hl id [Hev Hevs]%Forall_cons.
  etransitivity; [by apply H1|by apply H2].
Qed.
End http.

(** ** What a start gives *)

Lemma NewInstanceManager_ok dirs : im_ok (NewInstanceManager dirs).
Proof.
  unfold NewInstanceManager. split; [done|]. cbn [instances].
  assert (H : forall m : gmap string InstanceState, (forall id s, m !! id = Some s -> state_ok s) ->
    forall id s, foldl (fun m '(id, r) => match r with LoadErr => m | LoadNone => <[id := loaded id None]> m | LoadOk p => <[id := loaded id (Some p)]> m end) m dirs !! id = Some s ->
    state_ok s); [|apply H; intros id s; by rewrite lookup_empty].
  induction dirs as [|[id r] dirs IH]; intros m Hm; [done|]. cbn [foldl]. apply IH.
  assert (Hins : forall p id' s, <[id := loaded id p]> m !! id' = Some s -> state_ok s).
  { assert (Hl : forall id p, state_ok (loaded id p)) by (intros ? p; split; [by destruct p|exists []; destruct p; apply NewEventLog_holds]).
    intros p id' s. destruct (decide (id' = id)) as [->|Hne]; [rewrite lookup_insert_eq; intros [= <-]; apply Hl|rewrite lookup_insert_ne by done; apply Hm]. }
  destruct r; [done|apply Hins..].
Qed.

Lemma tuned_ok f im ring : (forall s, is_ringSize (f s) = is_ringSize s \/ is_ringSize (f s) = ring) ->
  (forall s, is_events (f s) = is_events s) -> ring_ok ring = true ->
  (forall id s, instances im !! id = Some s -> state_ok s) ->
  forall id s, (f <$> instances im) !! id = Some s -> state_ok s.
Proof.
  intros Hf He Hr Hok id s. rewrite lookup_fmap. destruct (instances im !! id) as [t|] eqn:Et; [|done]. cbn. intros [= <-].
  destruct (Hok id t Et) as [H1 H2]. unfold state_ok. rewrite He. split; [|done]. by destruct (Hf t) as [->| ->].
Qed.

Lemma start_cloud_ok dirs files fs cs : start_cloud dirs files fs = Ok cs -> ring_ok (int fs "ring-size") = true -> im_ok (cs_manager cs).
Proof.
  unfold start_cloud. intros H Hr. destruct dirs as [dirs|]; [|done]. destruct (setting (go_flag fs "device-idle-timeout")) as [idle|]; [|done]. cbn [mbind result_bind] in H.
  destruct (setting (iso_optional fs "journal-rotate-duration")) as [rot|]; [|done]. cbn [mbind result_bind] in H.
  destruct (setting (buildKeeperConfig fs)) as [keeper|]; [|done]. cbn [mbind result_bind] in H.
  destruct (if nonblank (str fs "acme-domain") then _ else _) as [l|]; [|done]. cbn [mbind result_bind] in H. injection H as <-. cbn [cs_manager].
  set (im1 := SetDeviceIdleTimeout _ _).
  assert (H1 : im_ok im1).
  { destruct (NewInstanceManager_ok dirs) as [Ha Hb]. split; [done|]. apply (tuned_ok _ _ 0); [intros s; by left|done|done|exact Hb]. }
  set (im2 := if _ =? 65536 then im1 else _).
  assert (H2 : im_ok im2).
  { unfold im2. destruct (_ =? 65536); [done|]. split; [exact Hr|]. apply (tuned_ok _ im1 (int fs "ring-size")); [intros s; by right|done|done|apply H1]. }
  set (im3 := SetJournalRotation _ _ im2).
  assert (H3 : im_ok im3) by (split; [apply H2|]; apply (tuned_ok _ im2 0); [intros s; by left|done|done|apply H2]).
  destruct keeper; [|exact H3]. split; [apply H3|]. intros id s. cbn. rewrite map_lookup_imap. destruct (_ !! id) as [t|] eqn:Et; [|done]. cbn. intros [= <-].
  exact (get_ok id im3 t H3 Et).
Qed.

(** C6: A cloud that starts with a ring size that is a power of two never panics,
    whatever HTTP requests and gRPC calls arrive in whatever order, one at a time.
    If it serves gRPC on its own port (no ACME domain) with a certificate, a key and
    a client CA, then an instance for which no call comes with that boat's
    certificate is kept: there is no such instance before or after, or all that
    happened to it is that HTTP requests started its broker, as a replication call
    would, and subscribed to it; its cursor, holes, events, persisted state, journal
    and what its broker holds are as they were. *)
Theorem cloud_boats_isolated {Fields} (registry : Z -> option (string * option (list Z -> option Fields))) order dirs files fs cs evs :
  start_cloud dirs files fs = Ok cs -> ring_ok (int fs "ring-size") = true ->
  exists im', run_cloud registry order cs evs (cs_manager cs) = Some im' /\ im_ok im' /\
    (str fs "acme-domain" = EmptyString -> Forall (fun name => nonblank (str fs name) = true) ["tls-cert"; "tls-key"; "tls-client-ca"]%string ->
     forall id, Forall (fun ev => ~ certified ev id) evs -> kept (instances (cs_manager cs) !! id) (instances im' !! id)).
Proof.
  intros Hs Hr. destruct (run_cloud_ok registry order cs evs (cs_manager cs) (start_cloud_ok dirs files fs cs Hs Hr)) as (im' & E & Hok & Hk).
  exists im'. split_and!; [done..|]. intros Hacme Hset. apply Hk. rewrite !Forall_cons in Hset. destruct Hset as (H1 & H2 & H3 & _).
  revert Hs. unfold start_cloud. rewrite Hacme. destruct dirs as [dirs|]; [|done]. destruct (setting (go_flag fs "device-idle-timeout")); [|done]. cbn [mbind result_bind].
  destruct (setting (iso_optional fs "journal-rotate-duration")); [|done]. cbn [mbind result_bind].
  destruct (setting (buildKeeperConfig fs)); [|done]. cbn [mbind result_bind]. change (nonblank EmptyString) with false. cbv iota.
  unfold startDualPortServer, buildServerTLS. rewrite H1, H2, H3. cbn [andb]. destruct (LoadX509KeyPair _ _ _); [|done]. cbn [negb].
  destruct (loadCAPool _ _); [|done]. cbn [mbind result_bind]. by intros [= <-].
Qed.

(** Both programs read the keeper's settings alike. *)
Lemma buildKeeperConfig_same fs : buildKeeperConfig fs = Startup.buildKeeperConfig fs.
Proof. reflexivity. Qed.

(** The events a client gets are the newest, newest first, at most 1024. *)
Lemma replication_events_newest {Fields} (registry : Z -> option (string * option (list Z -> option Fields))) order c id limit im s es :
  instances im !! id = Some s -> log_holds (is_events s) es ->
  cloud_http registry order c (GetReplicationEvents id limit) im =
    Some (im, mkCloudReply 200 (EventList (take (Z.to_nat (event_limit limit)) (reverse es)))).
Proof.
  intros Hs Hl. cbn [cloud_http]. unfold Get. rewrite Hs. unfold RecentEvents. rewrite (Recent_holds _ _ _ Hl). cbn [mbind option_bind].
  rewrite Z.min_l; [done|]. unfold event_limit, eventLogSize. cbv zeta. destruct (Z.ltb_spec 1024 (if nonblank limit then match ParseInt limit with Ok n => if 0 <? n then n else 100 | Err _ => 100 end else 100)); lia.
Qed.

(** ** The order of the keys *)

(** At most one of the two keys of the client CA has a text. *)
Definition one_ca (explicit : gset string) (cfg : hocon) : Prop :=
  "tls-client-ca"%string ∈ explicit \/ nonblank (GetString cfg "tls.client-ca") = false \/ nonblank (GetString cfg "grpc.tls.client-ca") = false.

Lemma filter_perm {A} (f : A -> bool) (l l' : list A) : l ≡ₚ l' -> List.filter f l ≡ₚ List.filter f l'.
Proof.
  induction 1 as [|x l l' _ IH|x y l|l l' l'' _ IH1 _ IH2]; cbn [List.filter]; [done| | |by etransitivity].
  - destruct (f x); [by constructor|done].
  - destruct (f x), (f y); try done. constructor.
Qed.

Lemma changes_once explicit cfg : one_ca explicit cfg -> NoDup (map snd (List.filter (changes explicit cfg) configToFlag)).
Proof.
  intros Hone. assert (Hsub : forall (drop : string * string) rest, (changes explicit cfg drop = false) -> configToFlag ≡ₚ drop :: rest -> NoDup (map snd rest) ->
    NoDup (map snd (List.filter (changes explicit cfg) configToFlag))).
  { intros drop rest Hd Hp Hnd. rewrite (Permutation_map snd (filter_perm (changes explicit cfg) _ _ Hp)). cbn [List.filter]. rewrite Hd. clear -Hnd.
    induction rest as [|e rest IH]; [constructor|]. cbn [map] in Hnd. apply NoDup_cons in Hnd as [Hn Hnd]. cbn [List.filter].
    destruct (changes explicit cfg e); [|by apply IH]. cbn [map]. apply NoDup_cons. split; [|by apply IH].
    intros Hin. apply Hn. apply list_elem_of_fmap in Hin as (x & -> & Hx). apply list_elem_of_fmap. exists x. split; [done|].
    apply list_elem_of_In. apply list_elem_of_In in Hx. by apply filter_In in Hx as [Hx _]. }
  assert (Hca : changes explicit cfg ("tls.client-ca", "tls-client-ca")%string = false \/ changes explicit cfg ("grpc.tls.client-ca", "tls-client-ca")%string = false).
  { unfold changes. cbn [fst snd]. destruct Hone as [Hin|[-> | ->]]; [|left; apply andb_false_r|right; apply andb_false_r].
    left. by rewrite bool_decide_true. }
  destruct Hca as [Hca|Hca].
  - apply (Hsub _ (take 3 configToFlag ++ drop 4 configToFlag) Hca); [|apply (bool_decide_unpack _); vm_compute; exact I].
    symmetry. apply (Permutation_middle (take 3 configToFlag) (drop 4 configToFlag)).
  - apply (Hsub _ (take 7 configToFlag ++ drop 8 configToFlag) Hca); [|apply (bool_decide_unpack _); vm_compute; exact I].
    symmetry. apply (Permutation_middle (take 7 configToFlag) (drop 8 configToFlag)).
Qed.

(** Unless a file gives both, the order in which its keys are visited does not
    matter. *)
Lemma cloud_config_order explicit cfg fs fs' order order' : one_ca explicit cfg -> order ≡ₚ configToFlag -> order' ≡ₚ configToFlag ->
  applyConfig explicit order cfg fs = Ok fs' -> applyConfig explicit order' cfg fs = Ok fs'.
Proof.
  unfold applyConfig. intros Hone Hp Hp'. rewrite (apply_flags_changes explicit cfg order), (apply_flags_changes explicit cfg order'). intros H.
  assert (Hnd : forall o, o ≡ₚ configToFlag -> NoDup (map snd (List.filter (changes explicit cfg) o))).
  { intros o Ho. rewrite (Permutation_map snd (filter_perm (changes explicit cfg) _ _ Ho)). by apply changes_once. }
  assert (Hs : Forall (settable explicit cfg fs) (List.filter (changes explicit cfg) order)) by (apply apply_flags_settable; [by apply Hnd|by exists fs']).
  rewrite (filter_perm _ _ _ Hp), <- (filter_perm _ _ _ Hp') in Hs. apply (apply_flags_settable _ _ _ _ (Hnd _ Hp')) in Hs as [fs'' H'']. rewrite H''. f_equal.
  apply map_eq. intros name. rewrite (apply_flags_value _ _ _ _ _ (Hnd _ Hp') H'' name), (apply_flags_value _ _ _ _ _ (Hnd _ Hp) H name).
  rewrite (find_flag_perm (List.filter _ order) (List.filter (changes explicit cfg) order') name (Hnd _ Hp)); [done|].
  rewrite (filter_perm _ _ _ Hp). symmetry. by apply filter_perm.
Qed.

(** * Concrete clouds *)

Definition with_settings (settings : list (string * flag_value)) : flags := foldr (fun '(k, v) fs => <[k := v]> fs) declared_flags settings.
Definition all_files : tls_files := mkFiles (fun _ _ => true) (fun _ => true).
Definition demo_tls : list (string * flag_value) :=
  [("tls-cert", FString "server.crt"); ("tls-key", FString "server.key"); ("tls-client-ca", FString "ca.crt"); ("ring-size", FInt 16)]%string.
Definition demo_acme : list (string * flag_value) :=
  [("acme-domain", FString "lplex.example.com"); ("tls-client-ca", FString "ca.crt"); ("ring-size", FInt 16)]%string.
Definition demo_dirs : list (string * load_result) := [("boat", LoadNone); ("other", LoadOk (mkPersist "other" 5 [] 5 0 0))]%string.
Definition demo_cloud (settings : list (string * flag_value)) : CloudSetup :=
  match start_cloud (Some demo_dirs) all_files (with_settings settings) with
  | Ok cs => cs
  | Err _ => mkCloudSetup demo_mgr None (ReplServer.mkServer 0 0 0) None
  end.

Definition no_decoders (pgn : Z) : option (string * option (list Z -> option unit)) := None.
Definition any_instances (im : InstanceManager) : list string := any_order (instances im).
Definition demo_rpc : rpc := CallHandshake 1 true (mkHandshake "boat" 3 0).
Definition demo_push (q : Z) : rpc := CallLive 2 true [(mkLiveEnv 2 true false true true, LFrame (demo_live q))].
Definition demo_traffic : list cloud_event :=
  [OverGRPC (Verified "boat" [] []) ["other"%string] demo_rpc; OverGRPC NoCertificate ["other"%string] (demo_push 6);
   OverHTTP demo_call (GetEvents "other" (mkFilterQuery [] [] [] [] [] [] [])); OverGRPC (Verified "boat" [] []) ["other"%string] (demo_push 1)].

(** Where the instances of a run are. *)
Definition cursors (cs : CloudSetup) (evs : list cloud_event) : option (list (string * Z)) :=
  im ← run_cloud no_decoders any_instances cs evs (cs_manager cs);
  Some (omap (fun id => (fun s => (id, is_Cursor s)) <$> instances im !! id) ["boat"; "other"]%string).

Lemma demo_tls_started : start_cloud (Some demo_dirs) all_files (with_settings demo_tls) = Ok (demo_cloud demo_tls).
Proof. vm_compute. reflexivity. Qed.

(** The boat connects and pushes; a stranger's push and a reader leave the other
    instance where it was. *)
Lemma cloud_boats_isolated_witness :
  cursors (demo_cloud demo_tls) demo_traffic = Some [("boat", 1); ("other", 5)]%string /\
  exists im', run_cloud no_decoders any_instances (demo_cloud demo_tls) demo_traffic (cs_manager (demo_cloud demo_tls)) = Some im' /\
    kept (instances (cs_manager (demo_cloud demo_tls)) !! "other"%string) (instances im' !! "other"%string).
Proof.
  split; [vm_compute; reflexivity|].
  destruct (cloud_boats_isolated no_decoders any_instances (Some demo_dirs) all_files (with_settings demo_tls) (demo_cloud demo_tls) demo_traffic demo_tls_started)
    as (im' & E & _ & Hk); [vm_compute; reflexivity|].
  exists im'. split; [exact E|]. apply Hk; [vm_compute; reflexivity|repeat (apply Forall_cons; split; [vm_compute; reflexivity|]); apply Forall_nil_2|].
  unfold demo_traffic. repeat (apply Forall_cons; split; [intros Hc; first [discriminate Hc|destruct Hc]|]). apply Forall_nil_2.
Defined.

(** In ACME mode the certificate is optional: the handshake refuses a client without
    one, the streams take its word for who it is. *)
Example acme_takes_anyone :
  cursors (demo_cloud demo_acme) [OverGRPC NoCertificate ["other"%string] (CallHandshake 1 true (mkHandshake "other" 9 0))] = Some [("boat", 0); ("other", 5)]%string /\
  cursors (demo_cloud demo_acme) [OverGRPC NoCertificate ["other"%string] (demo_push 6)] = Some [("boat", 0); ("other", 6)]%string.
Proof. split; vm_compute; reflexivity. Qed.

(** Without a server certificate the CA is not looked at. *)
Example ca_without_certificate : startDualPortServer all_files "" "" "ca.crt" = Ok None.
Proof. reflexivity. Qed.

(** Nothing checks the size of the ring: the cloud starts and the first boat to
    connect brings it down. *)
Example bad_ring_starts :
  let settings := [("ring-size", FInt 1000)]%string in
  (is_ok (start_cloud (Some demo_dirs) all_files (with_settings settings)), cursors (demo_cloud settings) [OverGRPC NoCertificate [] demo_rpc]) = (true, None).
Proof. vm_compute. reflexivity. Qed.

(** With both keys of the client CA in a file, the order of the visit decides. *)
Definition two_cas : hocon := mkHocon
  (fun key => if String.eqb key "tls.client-ca" then "a.crt" else if String.eqb key "grpc.tls.client-ca" then "b.crt" else "")%string (fun _ => []).

Example client_ca_by_order :
  map (fun order => match applyConfig ∅ order two_cas declared_flags with Ok fs => str fs "tls-client-ca" | Err _ => EmptyString end)
    [configToFlag; rev configToFlag] = ["b.crt"; "a.crt"]%string.
Proof. vm_compute. reflexivity. Qed.

(** A pause announced while the instance has no broker is forgotten: its writer
    starts unpaused, and the keeper will not say it again. *)
Example pause_is_lost :
  let cs := demo_cloud demo_tls in
  let kd := mkKeeperDir "/data/lplex/instances/boat/journal" "boat" in
  match run_cloud no_decoders any_instances cs [OverGRPC (Verified "boat" [] []) [] demo_rpc] (on_pause (kd, true) (cs_manager cs)) with
  | Some im => rb_paused <$> (s ← instances im !! "boat"%string; is_broker s)
  | None => None
  end = Some false.
Proof. vm_compute. reflexivity. Qed.
