(* ===== verification/Simulate.v ===== *)
(** Journals played into a server: [cmd/lplex/cmd_simulate.go].

    The frames of journal files go through a broker with the whole HTTP API in
    front.  The delays of the playback and its cancellation between frames are left
    out. *)

From S2P Require Import Prelude GoNum FilterLang CanId Devices Filters RequestRules SendPolicy Ring Broker Server Slots Keeper JournalFormat JournalReader JournalWriter JournalRoundTrip.

(** * Files *)

Inductive sim_error :=
| NoSource
| DirFailed
| NoJournals
| FileNotOpened
| NotAJournal (e : jerror)
| BadStartTime
| SeekFailed (e : jerror)
| ReadFailed (e : jerror)
| BadSlots
| BadSlot (e : slot_error).

(** [entries] is the directory, each with whether it is one itself. *)
Definition resolveJournalFiles (simFile simDir : string) (entries : option (list (string * bool))) : result sim_error (list string) :=
  if nonblank simFile then Ok [simFile]
  else match entries with
       | None => Err DirFailed
       | Some entries =>
           let files := omap (fun '(name, is_dir) =>
             if negb is_dir && HasSuffix (ToLower name) ".lpj" then Some (simDir ++ "/" ++ name)%string else None) entries in
           match files with [] => Err NoJournals | _ => Ok (merge_sort String.le files) end
       end.

(** [runSimulate] before its files. *)
Definition sim_files (simFile simDir : string) (entries : option (list (string * bool))) : result sim_error (list string) :=
  if negb (nonblank simFile) && negb (nonblank simDir) then Err NoSource else resolveJournalFiles simFile simDir entries.

(** * Playing *)

Definition sim_frame (e : Entry) : RxFrame := mkRxFrame (e_Timestamp e) (e_Header e) (e_Data e) "" 0.

Section replay.
Context (DecodeAll : list Z -> option (list Z)) (DecodeAllDict : list Z -> list Z -> option (list Z)).

(** The frames sent to the broker; [None] is a panic.  The fuel bounds their
    number. *)
Fixpoint replay_frames (fuel : nat) (jr : Reader) : option (list RxFrame * option jerror) :=
  match fuel with
  | O => None
  | S fuel =>
      match Next DecodeAll DecodeAllDict jr with
      | (jr', NextFrame) => entry ← jr_entry jr'; '(frames, e) ← replay_frames fuel jr'; Some (sim_frame entry :: frames, e)
      | (jr', NextStop) => Some ([], jr_err jr')
      | _ => None
      end
  end.

Definition play_reader (fuel : nat) (jr : Reader) : option (list RxFrame * option sim_error) :=
  '(frames, e) ← replay_frames fuel jr; Some (frames, option_map ReadFailed e).

(** [start] is the [--start] flag, inside it the time if it is one. *)
Definition replayOneFile (fuel : nat) (start : option (option time)) (isFirst : bool) (file : option (list Z)) : option (list RxFrame * option sim_error) :=
  match file with
  | None => Some ([], Some FileNotOpened)
  | Some bytes =>
      match NewReader bytes with
      | Err e => Some ([], Some (NotAJournal e))
      | Ok reader =>
          match start, isFirst with
          | Some None, true => Some ([], Some BadStartTime)
          | Some (Some t), true =>
              match SeekToTime DecodeAll DecodeAllDict t reader with
              | (_, Some e) => Some ([], Some (SeekFailed e))
              | (reader, None) => play_reader fuel reader
              end
          | _, _ => play_reader fuel reader
          end
      end
  end.

Fixpoint replay_files (fuel : nat) (start : option (option time)) (isFirst : bool) (files : list (option (list Z))) : option (list RxFrame * option sim_error) :=
  match files with
  | [] => Some ([], None)
  | file :: files =>
      '(frames, e) ← replayOneFile fuel start isFirst file;
      match e with
      | Some e => Some (frames, Some e)
      | None => '(more, e) ← replay_files fuel start false files; Some (frames ++ more, e)
      end
  end.

Definition replayAll (fuel : nat) (start : option (option time)) : list (option (list Z)) -> option (list RxFrame * option sim_error) :=
  replay_files fuel start true.

(** [passes] is how often the files are played before the context is cancelled;
    without [--loop] they are played once. *)
Fixpoint replayInto (fuel : nat) (start : option (option time)) (passes : nat) (files : list (option (list Z))) : option (list RxFrame * option sim_error) :=
  match passes with
  | O => Some ([], None)
  | S passes =>
      '(frames, e) ← replayAll fuel start files;
      match e with
      | Some e => Some (frames, Some e)
      | None => '(more, e) ← replayInto fuel start passes files; Some (frames ++ more, e)
      end
  end.

End replay.

(** * The server *)

(** The slots of the flag; [json] is what decoding it gives. *)
Fixpoint parse_slots (configs : list ClientSlotConfig) : result sim_error (list ClientSlot) :=
  match configs with
  | [] => Ok []
  | cfg :: configs =>
      match ParseClientSlot cfg with
      | Err e => Err (BadSlot e)
      | Ok slot => slots ← parse_slots configs; Ok (slot :: slots)
      end
  end.

Definition parseSimSlots (json : option (list ClientSlotConfig)) : result sim_error (list ClientSlot) :=
  match json with None => Err BadSlots | Some configs => parse_slots configs end.

Definition sim_config (ringSize : Z) : BrokerConfig := mkBrokerConfig ringSize (10 * minute) false 0 (-1) [] 0 0 [] 0.

(** The broker and the server; [None] is the panic of [NewBroker]. *)
Definition sim_server (now : nat -> time) (ringSize : Z) (slots : list ClientSlot) : option (Broker * Server) :=
  b ← NewBroker (sim_config ringSize); Some (ApplySlots now slots b, NewServer (mkSendPolicy false [])).

(** * A recording played back *)

Lemma replay_frames_read DecodeAll DecodeAllDict fuel : forall jr es, read_all DecodeAll DecodeAllDict fuel jr = Some es ->
  replay_frames DecodeAll DecodeAllDict fuel jr = Some (map (fun x => sim_frame (snd x)) es, None).
Proof.
  induction fuel as [|fuel IH]; intros jr es; cbn [read_all replay_frames]; [done|]. destruct (Next _ _ jr) as [jr' []]; try done.
  - destruct (jr_entry jr') as [e|]; [|done]. destruct (read_all _ _ fuel jr') as [es'|] eqn:E; [|done]. intros [= <-].
    cbn [mbind option_bind]. by rewrite (IH _ _ E).
  - destruct (jr_err jr'); [done|]. by intros [= <-].
Qed.

Lemma replay_files_read DecodeAll DecodeAllDict files ess : files_read DecodeAll DecodeAllDict files ess ->
  forall fuel isFirst, Forall (fun es => (length es < fuel)%nat) ess ->
  replay_files DecodeAll DecodeAllDict fuel None isFirst (map (fun f => Some (snd f)) files) = Some (map (fun x => sim_frame (snd x)) (concat ess), None).
Proof.
  unfold files_read. induction 1 as [|[t c] es files ess Hf _ IH]; intros fuel isFirst Hfuel; [done|]. apply Forall_cons in Hfuel as [Hlen Hfuel].
  destruct Hf as (jr & Hjr & Hread). cbn [map snd replay_files]. unfold replayOneFile. rewrite Hjr. unfold play_reader.
  rewrite (replay_frames_read _ _ _ _ _ (Hread fuel Hlen)). cbn [mbind option_bind fmap option_fmap option_map].
  rewrite (IH fuel false Hfuel). cbn [mbind option_bind concat]. by rewrite map_app.
Qed.

(** A frame as a simulation sees it again. *)
Definition replayed (f : RxFrame) : RxFrame := mkRxFrame (time_UnixMicro (us f)) (rx_Header f) (rx_Data f) "" 0.

Lemma sim_frame_logged fs : map (fun x => sim_frame (snd x)) (map logged fs) = map replayed fs.
Proof. rewrite map_map. reflexivity. Qed.

(** A session that starts from a slot leaves the log alone. *)
Lemma ApplySlots_log slots : forall now b, b_ring (ApplySlots now slots b) = b_ring b /\ replicaMode (ApplySlots now slots b) = replicaMode b /\
  (broker_ok b -> broker_ok (ApplySlots now slots b)).
Proof.
  induction slots as [|slot slots IH]; intros now b; [done|]. cbn [ApplySlots]. unfold CreateSession. destruct (sessions (b_state b) !! sl_ID slot);
    (match goal with |- context [ApplySlots ?n slots ?b1] => destruct (IH n b1) as (-> & -> & Hok) end; split_and!; [done..|]; intros Hb; apply Hok; destruct Hb; by constructor).
Qed.

(** A new simulation: its log is empty and its first frame gets number 1. *)
Lemma sim_server_new now ringSize slots b srv : sim_server now ringSize slots = Some (b, srv) ->
  broker_ok b /\ replicaMode b = false /\ new_ring ringSize 0 = Some (b_ring b).
Proof.
  unfold sim_server. destruct (NewBroker (sim_config ringSize)) as [b0|] eqn:E; [|done]. cbn [mbind option_bind]. intros [= <- _].
  destruct (ApplySlots_log slots now b0) as (-> & -> & Hok). split; [apply Hok, (NewBroker_ok _ _ E); constructor|].
  unfold NewBroker in E. cbn [RingSize InitialHead sim_config] in E. destruct (new_ring ringSize 0) as [r|]; [|done]. cbn in E. injection E as <-. done.
Qed.

Lemma frames_bop_ok ops : Forall (fun f => bytes_ok (rx_Data f)) (frames_of ops) -> Forall bop_ok ops.
Proof.
  induction ops as [|[now f|rord now|t now] ops IH]; cbn; [constructor|..]; intros H; [apply Forall_cons in H as [H1 H]|..]; constructor; auto; exact I.
Qed.

Lemma kept_bytes input : input_ok input -> Forall (fun f => bytes_ok (rx_Data f)) (map replayed (kept input)).
Proof.
  unfold input_ok, kept. induction 1 as [|[[e p] f] input [_ Hf] _ IH]; [constructor|]. cbn [omap list_omap]. destruct p; [done|]. constructor; [|done].
  apply (proj1 (fr_data _ Hf)).
Qed.

(** Frames played into a simulation, with ticks anywhere between them. *)
Lemma simulated_log now k slots b srv ord ops : 0 <= k < 63 -> sim_server now (2 ^ k) slots = Some (b, srv) -> oracle_ok ord ->
  Forall (fun f => bytes_ok (rx_Data f)) (frames_of ops) -> zlen (frames_of ops) < 2 ^ 62 ->
  exists b', run_broker ord b ops = Some b' /\ CurrentSeq b' = zlen (frames_of ops) /\
    forall s, readEntry s (b_ring b') =
      if (1 <=? s) && (zlen (frames_of ops) + 1 - 2 ^ k <=? s) then (fun f => frame_entry f s) <$> frames_of ops !! Z.to_nat (s - 1) else None.
Proof.
  intros Hk Hsim Hord Hbytes Hlen. destruct (sim_server_new _ _ _ _ _ Hsim) as (Hb & Hm & Hring). apply frames_bop_ok in Hbytes.
  destruct (run_broker_runs ord b ops Hb Hord Hbytes) as (b' & Hrun & _). exists b'. split; [done|].
  destruct (run_broker_log ord ops b b' Hb Hord Hbytes Hm Hrun) as [Hr _].
  assert (Hc : Forall carries_seq (map frame_entry (frames_of ops))) by (apply Forall_forall; intros f (fr & -> & _)%list_elem_of_fmap; done).
  assert (Hsize : (if 2 ^ k =? 0 then 65536 else 2 ^ k) = 2 ^ k) by (rewrite (proj2 (Z.eqb_neq _ _)); [done|]; pose proof (Z.pow_pos_nonneg 2 k); lia).
  assert (Hh : head (b_ring b) = 1).
  { revert Hring. unfold new_ring. rewrite Hsize. destruct (negb _); [done|]. by intros [= <-]. }
  unfold zlen in *. pose proof (fun s => ring_sound (2 ^ k) 0 (b_ring b) k (map frame_entry (frames_of ops)) s Hring Hk Hsize Hc) as H.
  rewrite length_map, Hh, <- Hr in H. split.
  - destruct (H 0 ltac:(lia)) as [Hhead _]. unfold CurrentSeq. rewrite Hhead, (proj2 (Z.eqb_neq _ _)) by lia. rewrite wrap_small by lia. lia.
  - intros s. destruct (H s ltac:(lia)) as [_ ->]. replace (1 + Z.of_nat (length (frames_of ops)) - 2 ^ k) with (Z.of_nat (length (frames_of ops)) + 1 - 2 ^ k) by lia.
    destruct (_ && _); [|done]. rewrite list_lookup_fmap. by destruct (frames_of ops !! _).
Qed.

Section recording.
Context (EncodeAll : list Z -> list Z) (EncodeAllDict : list Z -> option (list Z -> list Z)) (BuildZstdDict : list (list Z) -> option (list Z))
        (DecodeAll : list Z -> option (list Z)) (DecodeAllDict : list Z -> list Z -> option (list Z))
        (Hzstd : zstd_law EncodeAll EncodeAllDict BuildZstdDict DecodeAll DecodeAllDict) (cfg : JournalConfig) (Hcfg : cfg_ok cfg).

(** C11: A recording played back is the recording. Take a writer's run as in
    [journal_roundtrip] - frames the format holds, room before every append, a name
    of its own for every file ([run_room]), files that can be created - over at
    least one frame and fewer than 2^62, with consecutive numbers and times that do
    not go back ([in_order]), that has a file open at the end. Then [Run] ends
    without an error and, with enough fuel, [replayAll] reads the frames handed over
    from its files without an error; and when they go through the broker of a
    simulation with a ring of 2^k entries (k < 63), with any ticks between them,
    they are numbered from 1 in order and the ring reads back exactly the last 2^k
    of them. *)
Theorem simulation_replays_recording w input e w1 k now slots b srv ord :
  NewJournalWriter cfg = Some (cfg, w) -> input_ok input -> env_ok e -> run_room EncodeAll EncodeAllDict BuildZstdDict cfg w input = true ->
  in_order (kept input) -> kept input <> [] ->
  run_frames EncodeAll EncodeAllDict BuildZstdDict cfg w input = Ok w1 -> is_Some (file (jw_file w1)) ->
  0 <= k < 63 -> sim_server now (2 ^ k) slots = Some (b, srv) -> oracle_ok ord -> zlen (kept input) < 2 ^ 62 ->
  exists w', Run EncodeAll EncodeAllDict BuildZstdDict cfg e w input = Ok w' /\
  exists need, forall fuel, (need < fuel)%nat ->
    replayAll DecodeAll DecodeAllDict fuel None (map (fun f => Some (snd f)) (rotated (jw_file w'))) = Some (map replayed (kept input), None) /\
    forall ops, frames_of ops = map replayed (kept input) ->
    exists b', run_broker ord b ops = Some b' /\ CurrentSeq b' = zlen (kept input) /\
      forall s, readEntry s (b_ring b') =
        if (1 <=? s) && (zlen (kept input) + 1 - 2 ^ k <=? s)
        then (fun f => frame_entry (replayed f) s) <$> kept input !! Z.to_nat (s - 1) else None.
Proof.
  intros Hnew Hin He Hroom Hord Hne Hrun [fl Hfl] Hk Hsim Hoo Hlen.
  destruct (journal_files_sound EncodeAll EncodeAllDict BuildZstdDict DecodeAll DecodeAllDict Hzstd cfg Hcfg w input e Hnew Hin He Hroom Hne) as (w1' & E & H).
  rewrite Hrun in E. injection E as <-. rewrite Hfl in H. destruct H as (w' & ess & HRun & _ & Hs & [_ Hc]). specialize (Hc Hord). exists w'. split; [done|].
  exists (length (kept input)). intros fuel Hfuel. split.
  - unfold replayAll. rewrite (replay_files_read _ _ _ ess (files_sound_read _ _ _ _ Hs)); [by rewrite Hc, sim_frame_logged|].
    assert (Hl : (length (concat ess) < fuel)%nat) by (by rewrite Hc, length_map). clear -Hl.
    induction ess as [|es ess IH]; [constructor|]. cbn [concat] in Hl. rewrite length_app in Hl. constructor; [lia|apply IH; lia].
  - intros ops Hops. destruct (simulated_log now k slots b srv ord ops Hk Hsim Hoo) as (b' & Hb' & Hseq & Hread).
    + rewrite Hops. by apply kept_bytes.
    + rewrite Hops. unfold zlen in *. by rewrite length_map.
    + exists b'. rewrite Hops in Hseq, Hread. unfold zlen in *. rewrite length_map in Hseq, Hread. split_and!; [done..|]. intros s. rewrite (Hread s).
      destruct (_ && _); [|done]. rewrite list_lookup_fmap. by destruct (kept input !! _).
Qed.
End recording.

(** * A concrete simulation *)

(** The 400 recorded frames go through a ring of 256: the last is there under its
    number, the first is gone. *)
Lemma simulation_replays_recording_witness :
  exists w' b srv need, Run tag_encode tag_dict tag_build demo_cfg demo_env demo_writer demo_input = Ok w' /\
    sim_server (fun _ => 0) (2 ^ 8) [] = Some (b, srv) /\
    replayAll tag_decode tag_undict (S need) None (map (fun f => Some (snd f)) (rotated (jw_file w'))) = Some (map replayed (kept demo_input), None) /\
    exists b', run_broker any_order b (map (BFrame 7) (map replayed (kept demo_input))) = Some b' /\ CurrentSeq b' = 400 /\
      readEntry 400 (b_ring b') = Some (frame_entry (replayed (JournalRoundTrip.demo_frame 399)) 400) /\ readEntry 1 (b_ring b') = None.
Proof.
  destruct (sim_server (fun _ => 0) (2 ^ 8) []) as [[b srv]|] eqn:E; [|vm_compute in E; discriminate E].
  destruct (simulation_replays_recording tag_encode tag_dict tag_build tag_decode tag_undict tag_law demo_cfg demo_cfg_ok
    demo_writer demo_input demo_env demo_w 8 (fun _ => 0) [] b srv any_order demo_new demo_input_ok demo_env_ok demo_room demo_in_order demo_kept
    demo_run_frames (ex_intro _ demo_file demo_has_file) ltac:(lia) E any_order_ranges) as (w' & HRun & need & H).
  { vm_compute. reflexivity. }
  exists w', b, srv, need. destruct (H (S need) ltac:(lia)) as [Hr Hb]. split_and!; [exact HRun|reflexivity|exact Hr|].
  destruct (Hb (map (BFrame 7) (map replayed (kept demo_input)))) as (b' & Hb' & Hseq & Hread).
  { clear. induction (map replayed (kept demo_input)) as [|f fs IH]; [reflexivity|]. cbn [map frames_of omap list_omap]. f_equal. exact IH. }
  exists b'. split_and!; [exact Hb'|rewrite Hseq; vm_compute; reflexivity| |]; rewrite Hread; vm_compute; reflexivity.
Defined.

(** A file that cannot be opened stops the replay: nothing of the files after it is
    played. *)
Example unreadable_file_stops : replayAll tag_decode tag_undict 9 None [None; Some demo_file] = Some ([], Some FileNotOpened).
Proof. reflexivity. Qed.
