(* ===== verification/Boats.v ===== *)
(** Which server a command talks to: [cmd/lplex/config.go] and [resolve.go].

    The file of boats, the choice of a boat, its address and what it adds to the
    exclusions.  The HOCON library, discovery on the network and the environment
    are arguments. *)

From S2P Require Import RequestRules Prelude CanId GoNum GoTime FilterLang SendPolicy Devices Config Server GoUrl Client Dump.
From Stdlib Require Import Ascii.

(** * The file *)

Record BoatConfig := mkBoatConfig {
  bt_Name : string;
  bt_MDNS : string;
  bt_Cloud : string;
  bt_ExcludePGNs : list Z;
  bt_ExcludeNames : list string
}.

Record DumpConfig := mkDumpConfig {
  dc_Boats : gmap string BoatConfig;
  dc_DefaultBoat : string;
  dc_MDNSTimeout : duration;
  dc_ExcludePGNs : list Z;
  dc_ExcludeNames : list string
}.

Definition no_config : DumpConfig := mkDumpConfig ∅ "" 0 [] [].

(** The first of the files there is, else the first. *)
Definition defaultConfigPath (home : option string) (Stat : string -> stat) : string :=
  match home with
  | None => EmptyString
  | Some home =>
      let p name := (home ++ "/.config/lplex/" ++ name)%string in
      match List.find (fun name => match Stat (p name) with IsFile | IsDir => true | _ => false end) ["lplex.conf"; "lplexcli.conf"; "lplexdump.conf"]%string with
      | Some name => p name
      | None => p "lplex.conf"%string
      end
  end.

(** [strings.Trim] of double quotes. *)
Definition is_quote (c : ascii) : bool := Ascii.eqb c (ascii_of_nat 34).
Fixpoint drop_quotes (s : string) : string := match s with String c s' => if is_quote c then drop_quotes s' else s | EmptyString => EmptyString end.
Fixpoint drop_last_quotes (s : string) : string :=
  match s with
  | EmptyString => EmptyString
  | String c s => match drop_last_quotes s with EmptyString => if is_quote c then EmptyString else String c EmptyString | s => String c s end
  end.
Definition TrimQuotes (s : string) : string := drop_last_quotes (drop_quotes s).

Inductive boat_error :=
| ConfigUnreadable (path : string)
| ConfigPathIsDir (path : string)
| ConfigUnparsed (path : string)
| BadMDNSTimeout (e : duration_syntax)
| BadExcludePGN (boat : option string) (text : string)
| NotANumber (boat : option string)
| BoatWithoutServer (name : string)
| NoBoats
| ManyBoats (names : list string)
| BoatNotFound (name : string) (names : list string).

Section file.
Context `{HoconText} (is_number : hvalue -> bool).

(** What the library finds at a path, and the boats in the order of the visit. *)
Record boat_file := mkBoatFile { Get : string -> option hvalue; boat_names : list string }.

Definition getString (cfg : boat_file) (path : string) : string :=
  match Get cfg path with None => EmptyString | Some (HString s) => TrimQuotes s | Some v => value_text v end.

Definition getStringArray (cfg : boat_file) (path : string) : list string :=
  match Get cfg path with
  | None => []
  | Some (HArray arr) => map (fun elem => TrimQuotes (value_text elem)) arr
  | Some v => [TrimQuotes (value_text v)]
  end.

Definition parse_pgn (boat : option string) (v : hvalue) : result boat_error Z :=
  match ParseUint (TrimSpace (value_text v)) 10 32 with Ok n => Ok n | Err _ => Err (BadExcludePGN boat (value_text v)) end.

Fixpoint parse_pgns (boat : option string) (vs : list hvalue) : result boat_error (list Z) :=
  match vs with [] => Ok [] | v :: vs => n ← parse_pgn boat v; ns ← parse_pgns boat vs; Ok (n :: ns) end.

Definition getUint32Array (boat : option string) (cfg : boat_file) (path : string) : result boat_error (list Z) :=
  match Get cfg path with
  | None => Ok []
  | Some (HArray arr) => parse_pgns boat arr
  | Some v =>
      if is_number v || match v with HString _ => true | _ => false end then n ← parse_pgn boat v; Ok [n]
      else Err (NotANumber boat)
  end.

Definition boat_path (name key : string) : string := ("boats." ++ name ++ "." ++ key)%string.

Definition load_boat (cfg : boat_file) (name : string) : result boat_error BoatConfig :=
  let mdns := getString cfg (boat_path name "mdns") in
  let cloud := getString cfg (boat_path name "cloud") in
  if negb (nonblank mdns) && negb (nonblank cloud) then Err (BoatWithoutServer name)
  else
    ep ← getUint32Array (Some name) cfg (boat_path name "exclude-pgn");
    Ok (mkBoatConfig name mdns cloud ep (getStringArray cfg (boat_path name "exclude-name"))).

Fixpoint load_boats (cfg : boat_file) (names : list string) : result boat_error (gmap string BoatConfig) :=
  match names with
  | [] => Ok ∅
  | name :: names => bc ← load_boat cfg name; boats ← load_boats cfg names; Ok (<[name := bc]> boats)
  end.

Definition loadConfig (Stat : string -> stat) (ParseResource : string -> option boat_file) (path : string) : result boat_error DumpConfig :=
  if negb (nonblank path) then Ok no_config
  else match Stat path with
       | NotFound => Ok no_config
       | StatFailed => Err (ConfigUnreadable path)
       | IsDir => Err (ConfigPathIsDir path)
       | IsFile =>
           match ParseResource path with
           | None => Err (ConfigUnparsed path)
           | Some cfg =>
               let v := getString cfg "mdns-timeout" in
               timeout ← (if nonblank v then match ParseDuration v with Ok d => Ok d | Err e => Err (BadMDNSTimeout e) end else Ok 0);
               ep ← getUint32Array None cfg "exclude-pgn";
               boats ← load_boats cfg (boat_names cfg);
               Ok (mkDumpConfig boats (getString cfg "default-boat") timeout ep (getStringArray cfg "exclude-name"))
           end
       end.

(** * The boat *)

(** [order] is the order in which the names are listed in an error, [env] the
    variable [LPLEX_BOAT]. *)
Definition resolveBoat (order : gmap string BoatConfig -> list string) (env : string) (name : string) (dc : DumpConfig) : result boat_error BoatConfig :=
  if bool_decide (dc_Boats dc = ∅) then Err NoBoats
  else
    let name := if nonblank name then name else if nonblank env then env else dc_DefaultBoat dc in
    if negb (nonblank name) then
      match map_to_list (dc_Boats dc) with
      | [(_, bc)] => Ok bc
      | _ => Err (ManyBoats (order (dc_Boats dc)))
      end
    else match dc_Boats dc !! name with
         | Some bc => Ok bc
         | None => Err (BoatNotFound name (order (dc_Boats dc)))
         end.

(** The boat, the timeout, and the exclusions of the file and of the boat. *)
Definition loadBoatConfig (order : gmap string BoatConfig -> list string) (env : string) (Stat : string -> stat) (ParseResource : string -> option boat_file)
    (home : option string) (boatName configPath : string) (boatSet : bool) : result boat_error (option BoatConfig * duration * list Z * list string) :=
  let cfgPath := if nonblank configPath then configPath else defaultConfigPath home Stat in
  dc ← loadConfig Stat ParseResource cfgPath;
  if boatSet || negb (bool_decide (dc_Boats dc = ∅)) then
    match resolveBoat order env boatName dc with
    | Err e => if negb boatSet then Ok (None, dc_MDNSTimeout dc, dc_ExcludePGNs dc, dc_ExcludeNames dc) else Err e
    | Ok bc => Ok (Some bc, dc_MDNSTimeout dc, dc_ExcludePGNs dc ++ bt_ExcludePGNs bc, dc_ExcludeNames dc ++ bt_ExcludeNames bc)
    end
  else Ok (None, dc_MDNSTimeout dc, dc_ExcludePGNs dc, dc_ExcludeNames dc).

End file.

(** * The address *)

(** What a command that cannot go on says. *)
Inductive exit_reason := CloudNeedsBoat | NoCloudURL (boat : string) | NothingDiscovered | BoatUnreachable (boat : string).

Section address.
Context (flagCloud : bool) (discoverNamed : string -> option string) (discoverAny : option string).

Definition resolveBoatServer (boat : BoatConfig) : result exit_reason string :=
  if flagCloud then if nonblank (bt_Cloud boat) then Ok (bt_Cloud boat) else Err (NoCloudURL (bt_Name boat))
  else
    let cloud := if nonblank (bt_Cloud boat) then Ok (bt_Cloud boat) else Err (BoatUnreachable (bt_Name boat)) in
    if nonblank (bt_MDNS boat) then match discoverNamed (bt_MDNS boat) with Some url => Ok url | None => cloud end else cloud.

Definition resolveServerURL (serverFlag : string) (boat : option BoatConfig) : result exit_reason string :=
  if nonblank serverFlag then Ok serverFlag
  else match boat with
       | Some boat => resolveBoatServer boat
       | None => if flagCloud then Err CloudNeedsBoat else match discoverAny with Some url => Ok url | None => Err NothingDiscovered end
       end.

(** A boat has somewhere to look: with a cloud address it is always found. *)
Lemma resolveBoatServer_cloud boat : nonblank (bt_Cloud boat) = true ->
  exists url, resolveBoatServer boat = Ok url /\ (url = bt_Cloud boat \/ flagCloud = false /\ discoverNamed (bt_MDNS boat) = Some url).
Proof.
  intros Hc. unfold resolveBoatServer. rewrite Hc. destruct flagCloud; [by eauto|]. destruct (nonblank (bt_MDNS boat)); [|by eauto].
  destruct (discoverNamed (bt_MDNS boat)); by eauto.
Qed.
End address.

(** * What a file does to a command *)

(** The flags of a command with the exclusions of the file. *)
Definition with_exclusions (pgns : list Z) (names : list string) (ff : frame_flags) : frame_flags :=
  mkFrameFlags (ff_pgns ff) (ff_excludePGNs ff ++ pgns) (ff_manufacturers ff) (ff_instances ff) (ff_names ff) (ff_excludeNames ff ++ names).

Section exclusions.
Context `{HoconText} (is_number : hvalue -> bool).

Lemma parse_pgns_range boat vs ns : parse_pgns boat vs = Ok ns -> Forall (fun n => 0 <= n < 2 ^ 32) ns.
Proof.
  revert ns. induction vs as [|v vs IH]; intros ns; cbn [parse_pgns]; [by intros [= <-]|]. unfold parse_pgn at 1.
  destruct (ParseUint _ 10 32) as [n|] eqn:E; [|done]. cbn [mbind result_bind]. destruct (parse_pgns boat vs); [|done]. intros [= <-]. constructor; [|by apply IH].
  by eapply ParseUint_range.
Qed.

Lemma getUint32Array_range boat cfg path ns : getUint32Array is_number boat cfg path = Ok ns -> Forall (fun n => 0 <= n < 2 ^ 32) ns.
Proof.
  unfold getUint32Array. destruct (Get cfg path) as [v|]; [|by intros [= <-]]. assert (Hone : forall ns, (n ← parse_pgn boat v; Ok [n]) = Ok ns -> Forall (fun n => 0 <= n < 2 ^ 32) ns).
  { intros ms Hm. apply (parse_pgns_range boat [v]). exact Hm. }
  destruct v as [s|b|arr|kvs|k]; try (by apply parse_pgns_range); match goal with |- context [if ?c then _ else _] => destruct c end; try done; apply Hone.
Qed.

(** What loading gives: numbers of 32 bits. *)
Definition ranged (ns : list Z) : Prop := Forall (fun n => 0 <= n < 2 ^ 32) ns.

Lemma load_boats_ranged cfg names : forall boats, load_boats is_number cfg names = Ok boats -> forall name bc, boats !! name = Some bc -> ranged (bt_ExcludePGNs bc).
Proof.
  induction names as [|n names IH]; intros boats; cbn [load_boats]; [intros [= <-] name bc; by rewrite lookup_empty|].
  destruct (load_boat is_number cfg n) as [b|] eqn:Eb; [|done]. cbn [mbind result_bind]. destruct (load_boats is_number cfg names) as [bs|]; [|done]. intros [= <-] name bc.
  destruct (decide (n = name)) as [->|Hne]; [rewrite lookup_insert_eq; intros [= <-]|rewrite lookup_insert_ne by done; by apply IH].
  unfold load_boat in Eb. destruct (_ && _); [done|]. destruct (getUint32Array _ _ _ _) as [ep|] eqn:Ee; [|done]. injection Eb as <-. by eapply getUint32Array_range.
Qed.

Lemma loadConfig_ranged Stat Parse path dc : loadConfig is_number Stat Parse path = Ok dc ->
  ranged (dc_ExcludePGNs dc) /\ forall name bc, dc_Boats dc !! name = Some bc -> ranged (bt_ExcludePGNs bc).
Proof.
  assert (H0 : ranged (dc_ExcludePGNs no_config) /\ forall name bc, dc_Boats no_config !! name = Some bc -> ranged (bt_ExcludePGNs bc))
    by (split; [constructor|intros name bc; cbn; by rewrite lookup_empty]).
  unfold loadConfig. destruct (nonblank path); cbn [negb]; [|by intros [= <-]]. destruct (Stat path); try done; [|by intros [= <-]].
  destruct (Parse path) as [cfg|]; [|done]. destruct (if nonblank _ then _ else _); [|done]. cbn [mbind result_bind].
  destruct (getUint32Array is_number None cfg "exclude-pgn") as [ep|] eqn:Ee; [|done]. cbn [mbind result_bind].
  destruct (load_boats is_number cfg (boat_names cfg)) as [boats|] eqn:Eb; [|done]. intros [= <-]. split; [by eapply getUint32Array_range|by eapply load_boats_ranged].
Qed.

Lemma resolveBoat_in order env name dc bc : resolveBoat order env name dc = Ok bc -> exists n, dc_Boats dc !! n = Some bc.
Proof.
  unfold resolveBoat. destruct (bool_decide _); [done|]. destruct (negb _).
  - destruct (map_to_list (dc_Boats dc)) as [|[n b] [|]] eqn:E; try done. intros [= <-]. exists n. apply elem_of_map_to_list. rewrite E. by left.
  - destruct (dc_Boats dc !! _) as [b|] eqn:E; [|done]. intros [= <-]. by eexists.
Qed.

(** What a file excludes, for everyone or for the boat, is excluded: no frame of
    such a PGN passes the filter of a stream or of a replay, whatever the flags; a
    boat is one of the file, and the only one if nothing chooses. *)
Theorem exclusions_hold order env Stat Parse home boatName configPath boatSet boat timeout pgns names :
  loadBoatConfig is_number order env Stat Parse home boatName configPath boatSet = Ok (boat, timeout, pgns, names) ->
  ranged pgns /\
  (forall bc, boat = Some bc -> (forall p, p ∈ bt_ExcludePGNs bc -> p ∈ pgns) /\ (forall n, n ∈ bt_ExcludeNames bc -> n ∈ names)) /\
  forall ff p, p ∈ pgns ->
    pgn_passes (buildFilter (with_exclusions pgns names ff)) p = false /\
    forall header devices, PGN header = p -> matchesReplayFilter header devices (with_exclusions pgns names ff) = false.
Proof.
  intros Hload.
  assert (Hr : ranged pgns /\ (forall bc, boat = Some bc -> (forall p, p ∈ bt_ExcludePGNs bc -> p ∈ pgns) /\ (forall n, n ∈ bt_ExcludeNames bc -> n ∈ names))).
  { unfold loadBoatConfig in Hload. destruct (loadConfig is_number Stat Parse _) as [dc|] eqn:Ed; [|done]. cbn [mbind result_bind] in Hload.
    apply loadConfig_ranged in Ed as [Hg Hb]. destruct (boatSet || _); [|injection Hload as <- <- <- <-; by split].
    destruct (resolveBoat order env boatName dc) as [bc|] eqn:Er.
    - injection Hload as <- <- <- <-. apply resolveBoat_in in Er as [n Hn]. split; [apply Forall_app; split; [done|by apply (Hb n)]|].
      intros bc' [= <-]. split; intros x Hx; apply elem_of_app; by right.
    - destruct boatSet; [done|]. injection Hload as <- <- <- <-. by split. }
  destruct Hr as [Hr Hboat]. split_and!; [done..|]. intros ff p Hp.
  assert (Hu : u32 p = p) by (unfold ranged in Hr; rewrite Forall_forall in Hr; apply wrap_small; by apply Hr).
  assert (Hne : is_nil (ff_excludePGNs ff ++ pgns) = false) by (destruct (ff_excludePGNs ff), pgns; try done; by apply elem_of_nil in Hp).
  assert (Hflags : no_flags (with_exclusions pgns names ff) = false).
  { unfold no_flags. cbn [with_exclusions ff_pgns ff_excludePGNs]. rewrite Hne. by rewrite andb_false_r. }
  assert (Hex : existsb (fun q => u32 q =? p) (ff_excludePGNs ff ++ pgns) = true).
  { apply existsb_exists. exists p. split; [apply in_or_app; right; by apply list_elem_of_In|]. rewrite Hu. apply Z.eqb_refl. }
  split.
  - unfold buildFilter. rewrite Hflags. unfold pgn_passes. cbn [cf_PGNs cf_ExcludePGNs with_exclusions ff_excludePGNs].
    rewrite (existsb_contains u32) in Hex. rewrite Hex. apply andb_false_r.
  - intros header devices <-. unfold matchesReplayFilter. rewrite Hflags. cbn [with_exclusions ff_pgns ff_excludePGNs]. rewrite Hex.
    by destruct (_ && _).
Qed.
End exclusions.

(** * A concrete file *)

Definition demo_text (v : hvalue) : string := match v with HString s => s | HBoolean true => "true" | HBoolean false => "false" | HOther n => FormatInt (Z.of_nat n) | _ => "" end.
#[local] Instance demo_hocon : HoconText := demo_text.
Definition demo_number (v : hvalue) : bool := match v with HOther _ => true | _ => false end.

Definition demo_boats : boat_file := mkBoatFile
  (fun path => if String.eqb path "exclude-pgn" then Some (HOther 60928)
               else if String.eqb path "boats.dockwise.mdns" then Some (HString "inuc1")
               else if String.eqb path "boats.dockwise.cloud" then Some (HString "https://lplex.example.com")
               else if String.eqb path "boats.dockwise.exclude-pgn" then Some (HArray [HOther 129025; HString " 127250 "])
               else if String.eqb path "boats.tender.mdns" then Some (HString "inuc2")
               else None)
  ["dockwise"; "tender"]%string.

Abbreviation demo_load env boatName :=
  (loadBoatConfig demo_number any_order env (fun _ => IsFile) (fun _ => Some demo_boats) (Some "/home/me"%string) boatName "" false).

Lemma exclusions_hold_witness :
  exists boat timeout pgns names, demo_load "dockwise"%string "" = Ok (Some boat, timeout, pgns, names) /\ pgns = [60928; 129025; 127250] /\
    pgn_passes (buildFilter (with_exclusions pgns names (mkFrameFlags [127250] [] [] [] [] []))) 127250 = false.
Proof.
  assert (Hv : match demo_load "dockwise"%string "" with Ok (Some _, _, pgns, _) => Some pgns | _ => None end = Some [60928; 129025; 127250]) by (vm_compute; reflexivity).
  destruct (demo_load "dockwise"%string "") as [[[[[boat|] timeout] pgns] names]|] eqn:E; try discriminate Hv. injection Hv as Hp.
  exists boat, timeout, pgns, names. split_and!; [reflexivity|exact Hp|].
  destruct (exclusions_hold demo_number _ _ _ _ _ _ _ _ _ _ _ _ E) as (_ & _ & H). apply H. rewrite Hp. apply list_elem_of_In. cbn. tauto.
Defined.

(** A boat that [LPLEX_BOAT] misspells is no error: the command goes on without a
    boat, and without its exclusions, to whatever server answers first. *)
Example misspelled_boat_ignored :
  match demo_load "dokwise"%string "" with
  | Ok (boat, _, pgns, _) => (boat, pgns, resolveServerURL false (fun _ => None) (Some "http://other:8089"%string) "" boat)
  | Err _ => (None, [], Err NothingDiscovered)
  end = (None, [60928], Ok "http://other:8089"%string).
Proof. vm_compute. reflexivity. Qed.

(** The exclusion of the configuration's example is one the server refuses. *)
Example example_exclusion_refused :
  flags_filter (with_exclusions [] ["0x00A3B2C4D5E6F7FF"%string] (mkFrameFlags [] [] [] [] [] [])) = Err (BadExcludeName "0x00A3B2C4D5E6F7FF").
Proof. vm_compute. reflexivity. Qed.
