(* ===== verification/Export.v ===== *)
(** What the server tells other systems: [metrics.go] and [mqtt.go].

    The samples of [/metrics], with floating-point numbers as the values that are
    printed with a number of decimals; and the bridge that publishes the stream of
    frames to an MQTT broker, whose client is an argument. *)

From S2P Require Import Prelude GoNum CanId Devices Filters Ring Broker JournalWriter ReplServer ReplClient.
From Stdlib Require Import SpecFloat.

(** * Metrics *)

Inductive sample_value := Whole (z : Z) | Decimal (places : nat) (x : float64).

Definition float_div (x y : float64) : float64 := SFdiv 53 1024 x y.

Definition utilization (s : BrokerStats) : float64 :=
  if 0 <? RingCapacity s then float_div (float_of_Z (RingEntries s)) (float_of_Z (RingCapacity s)) else float_of_Z 0.

(** A time in seconds, [0] when there is none. *)
Definition timestamp_sample (t : time) : sample_value :=
  if time_IsZero t then Whole 0 else Decimal 3 (float_div (float_of_Z t) (float_of_Z (10 ^ 9))).

(** [Duration.Seconds] *)
Definition Seconds (d : duration) : float64 :=
  SFadd 53 1024 (float_of_Z (Z.quot d second)) (float_div (float_of_Z (Z.rem d second)) (float_of_Z (10 ^ 9))).

Record JournalWriterStats := mkWriterStats { ws_BlocksWritten : Z; ws_BytesWritten : Z; ws_LastBlockWriteDuration : duration }.

Definition broker_samples (s : BrokerStats) : list (string * sample_value) :=
  [("lplex_frames_total", Whole (FramesTotal s)); ("lplex_ring_buffer_entries", Whole (RingEntries s));
   ("lplex_ring_buffer_capacity", Whole (RingCapacity s)); ("lplex_ring_buffer_utilization", Decimal 6 (utilization s));
   ("lplex_broker_head_seq", Whole (HeadSeq s)); ("lplex_active_sessions", Whole (Z.of_nat (ActiveSessions s)));
   ("lplex_active_subscribers", Whole (Z.of_nat (ActiveSubscribers s))); ("lplex_active_consumers", Whole (Z.of_nat (ActiveConsumers s)));
   ("lplex_consumer_max_lag_seqs", Whole (ConsumerMaxLag s)); ("lplex_devices_total", Whole (Z.of_nat (DeviceCount s)));
   ("lplex_devices_added_total", Whole (DevicesAdded s)); ("lplex_devices_removed_total", Whole (DevicesRemoved s));
   ("lplex_last_frame_timestamp_seconds", timestamp_sample (LastFrameTime s)); ("lplex_journal_drops_total", Whole (JournalDrops s))]%string.

Definition journal_samples (js : JournalWriterStats) : list (string * sample_value) :=
  [("lplex_journal_blocks_written_total", Whole (ws_BlocksWritten js)); ("lplex_journal_bytes_written_total", Whole (ws_BytesWritten js));
   ("lplex_journal_last_block_write_duration_seconds", Decimal 6 (Seconds (ws_LastBlockWriteDuration js)))]%string.

Definition replication_samples (rs : ReplicationStatus) : list (string * sample_value) :=
  [("lplex_replication_connected", Whole (if rs_Connected rs then 1 else 0)); ("lplex_replication_live_lag_seqs", Whole (rs_LiveLag rs));
   ("lplex_replication_backfill_remaining_seqs", Whole (rs_BackfillRemainingSeqs rs));
   ("lplex_replication_last_ack_timestamp_seconds", timestamp_sample (rs_LastAck rs));
   ("lplex_replication_live_frames_sent_total", Whole (rs_LiveFramesSent rs));
   ("lplex_replication_backfill_blocks_sent_total", Whole (rs_BackfillBlocksSent rs));
   ("lplex_replication_backfill_bytes_sent_total", Whole (rs_BackfillBytesSent rs)); ("lplex_replication_reconnects_total", Whole (rs_Reconnects rs))]%string.

Definition from_optional {A B} (f : A -> list B) (o : option A) : list B := match o with Some a => f a | None => [] end.

Definition writeMetrics (s : BrokerStats) (replStatus : option ReplicationStatus) (journalStats : option JournalWriterStats) : list (string * sample_value) :=
  broker_samples s ++ from_optional journal_samples journalStats ++ from_optional replication_samples replStatus.

Definition MetricsHandler (b : Broker) (replStatus : option ReplicationStatus) (journalStats : option JournalWriterStats) : list (string * sample_value) :=
  writeMetrics (Stats b) replStatus journalStats.

(** No metric is given twice. *)
Lemma metrics_once s rs js : NoDup (map fst (writeMetrics s rs js)).
Proof.
  apply (sublist_NoDup _ (map fst (broker_samples s ++ journal_samples (mkWriterStats 0 0 0) ++ replication_samples (mkReplStatus false 0 0 [] 0 0 0 0 0 0 0)))).
  { apply (bool_decide_unpack _). vm_compute. exact I. }
  unfold writeMetrics. rewrite !map_app. apply sublist_app; [done|]. apply sublist_app; [destruct js|destruct rs]; cbn [from_optional]; (apply sublist_nil_l || reflexivity).
Qed.

(** * The bridge *)

Record MQTTBridgeConfig := mkBridgeConfig {
  mq_TopicPrefix : string;
  mq_ClientID : string;
  mq_QoS : Z;
  mq_Filter : option EventFilter
}.

Definition NewMQTTBridge (cfg : MQTTBridgeConfig) : MQTTBridgeConfig :=
  mkBridgeConfig (if bool_decide (mq_TopicPrefix cfg = EmptyString) then "lplex"%string else mq_TopicPrefix cfg)
    (if bool_decide (mq_ClientID cfg = EmptyString) then "lplex-server"%string else mq_ClientID cfg) (mq_QoS cfg) (mq_Filter cfg).

Record message := mkMessage { ms_topic : string; ms_qos : Z; ms_retained : bool; ms_payload : sse_event }.

(** A publication that fails is logged and no more. *)
Definition publish_mqtt (cfg : MQTTBridgeConfig) (data : sse_event) : message := mkMessage (mq_TopicPrefix cfg ++ "/frames") (mq_QoS cfg) false data.

(** [Run] up to its loop, under a fresh subscription; [None] when the connection to
    the MQTT broker fails. *)
Definition start_bridge (cfg : MQTTBridgeConfig) (connected : bool) (sub : nat) (b : Broker) : option Broker :=
  if connected then Some (Subscribe sub (mq_Filter cfg) b) else None.

(** One turn of the loop: the next event of the channel, if there is one. *)
Definition bridge_takes (cfg : MQTTBridgeConfig) (sub : nat) (b : Broker) : Broker * option message :=
  match subscribers (b_state b) !! sub with
  | Some s =>
      match sub_ch s with
      | data :: ch => (with_subscribers b (<[sub := mkSubscriber ch (sub_filter s)]> (subscribers (b_state b))), Some (publish_mqtt cfg data))
      | [] => (b, None)
      end
  | None => (b, None)
  end.

(** What waits for the bridge. *)
Definition waiting (sub : nat) (b : Broker) : list sse_event := match subscribers (b_state b) !! sub with Some s => sub_ch s | None => [] end.

(** The messages of [n] turns. *)
Fixpoint bridge_turns (cfg : MQTTBridgeConfig) (sub : nat) (n : nat) (b : Broker) : Broker * list message :=
  match n with
  | O => (b, [])
  | S n =>
      let '(b, m) := bridge_takes cfg sub b in
      let '(b, ms) := bridge_turns cfg sub n b in (b, match m with Some m => m :: ms | None => ms end)
  end.

(** Everything goes to one topic, in order, each event once. *)
Lemma bridge_in_order cfg sub n : forall b,
  snd (bridge_turns cfg sub n b) = map (publish_mqtt cfg) (take n (waiting sub b)) /\ waiting sub (fst (bridge_turns cfg sub n b)) = drop n (waiting sub b).
Proof.
  induction n as [|n IH]; intros b; cbn [bridge_turns]; [done|]. unfold bridge_takes. unfold waiting at 1 3.
  destruct (subscribers (b_state b) !! sub) as [s|] eqn:Es; [destruct (sub_ch s) as [|data ch] eqn:Ec|].
  - specialize (IH b). destruct (bridge_turns cfg sub n b) as [b' ms]. cbn [fst snd] in *. unfold waiting in IH at 1 3. rewrite Es, Ec in IH.
    by rewrite take_nil, drop_nil in IH |- *.
  - set (b1 := with_subscribers b _). specialize (IH b1). destruct (bridge_turns cfg sub n b1) as [b' ms]. cbn [fst snd] in *.
    assert (Hw : waiting sub b1 = ch) by (unfold waiting; cbn; by rewrite lookup_insert_eq). rewrite Hw in IH. destruct IH as [-> ->]. done.
  - specialize (IH b). destruct (bridge_turns cfg sub n b) as [b' ms]. cbn [fst snd] in *. unfold waiting in IH at 1 3. rewrite Es in IH.
    by rewrite take_nil, drop_nil in IH |- *.
Qed.

(** A device that comes or goes is published like a frame. *)
Example devices_on_the_frame_topic :
  let cfg := NewMQTTBridge (mkBridgeConfig "" "" 0 None) in
  match demo_broker with
  | Some b =>
      match start_bridge cfg true 3 b with
      | Some b => map (fun m => (ms_topic m, match ms_payload m with EvFrame _ => true | _ => false end)) (snd (bridge_turns cfg 3 2 (fanOutDeviceRemoved "can0" 7 b)))
      | None => []
      end
  | None => []
  end = [("lplex/frames"%string, false)].
Proof. vm_compute. reflexivity. Qed.
