(* ===== verification/Prefetch.v ===== *)
(** Reading ahead: the prefetching half of [journal/reader.go].

    A goroutine decompresses the next block while the frames of the loaded one are
    read.  Goroutines are jobs that start and finish at any point of a schedule, and
    a receive from their channel lets them run until it is closed.  [blockData]
    shares its array with [blockBuf] or, after a swap, with the prefetch buffer.
    What a read or a decompression that fails leaves in a buffer is not modelled. *)

From S2P Require Import Prelude CanId JournalFormat JournalReader.

(** * State *)

(** Which buffer [blockData] is a slice of. *)
Inductive holder := InBlockBuf | InPrefetchBuf.

Record prefetch := mkPrefetch {
  pf_block : Z;
  pf_buf : list Z;
  pf_done : option nat;
  pf_err : option jerror
}.

(** A goroutine: once it runs, the channel its [defer close] captured. *)
Record job := mkJob {
  job_done : option (option nat);
  job_dict : list Z;
  job_data : list Z
}.

Inductive fault := ClosedTwice | NoOneCloses.

(** [pr_chans] tells which of the channels made so far are closed. *)
Record PReader := mkPReader {
  pr_jr : Reader;
  pr_holder : holder;
  pr_pf : option prefetch;
  pr_jobs : list job;
  pr_chans : list bool;
  pr_fault : option fault
}.

Definition with_jr (p : PReader) (jr : Reader) (h : holder) : PReader := mkPReader jr h (pr_pf p) (pr_jobs p) (pr_chans p) (pr_fault p).
Definition with_pf (p : PReader) (pf : prefetch) : PReader := mkPReader (pr_jr p) (pr_holder p) (Some pf) (pr_jobs p) (pr_chans p) (pr_fault p).
Definition with_jobs (p : PReader) (jobs : list job) : PReader := mkPReader (pr_jr p) (pr_holder p) (pr_pf p) jobs (pr_chans p) (pr_fault p).
Definition with_fault (p : PReader) (e : fault) : PReader := mkPReader (pr_jr p) (pr_holder p) (pr_pf p) (pr_jobs p) (pr_chans p) (Some e).

(** A reader without prefetching. *)
Definition plain (jr : Reader) : PReader := mkPReader jr InBlockBuf None [] [] None.

Definition EnablePrefetch (p : PReader) : PReader :=
  match pr_pf p with
  | Some _ => p
  | None => with_pf p (mkPrefetch (-1) (replicate (Z.to_nat (jr_blockSize (jr_file (pr_jr p)))) 0) None None)
  end.

(** The bytes of [blockData]. *)
Definition data (p : PReader) : list Z :=
  match pr_holder p, pr_pf p with InPrefetchBuf, Some pf => pf_buf pf | _, _ => blockBuf (jr_block (pr_jr p)) end.

(** The reader as its frames see it. *)
Definition view (p : PReader) : Reader := set_block (pr_jr p) (set_buf (jr_block (pr_jr p)) (data p)).

(** Back in its buffers after a frame. *)
Definition put_back (p : PReader) (jr : Reader) : PReader :=
  with_jr p (set_block jr (set_buf (jr_block jr) (blockBuf (jr_block (pr_jr p))))) (pr_holder p).

Section prefetch.
Context (DecodeAll : list Z -> option (list Z)) (DecodeAllDict : list Z -> list Z -> option (list Z)).

(** * Goroutines *)

Definition job_result (f : OpenJournal) (j : job) : result jerror (list Z) :=
  match (if bool_decide (job_dict j = []) then DecodeAll (job_data j) else DecodeAllDict (job_dict j) (job_data j)) with
  | Some d => if zlen d =? jr_blockSize f then Ok d else Err ErrDecompress
  | None => Err ErrDecompress
  end.

(** The first statement evaluates [jr.pf.done] for the deferred close. *)
Definition start_job (i : nat) (p : PReader) : PReader :=
  match pr_jobs p !! i, pr_pf p with
  | Some (mkJob None dict d), Some pf => with_jobs p (<[i := mkJob (Some (pf_done pf)) dict d]> (pr_jobs p))
  | _, _ => p
  end.

Definition finish_job (i : nat) (p : PReader) : PReader :=
  match pr_jobs p !! i, pr_pf p with
  | Some j, Some pf =>
      match job_done j with
      | None => p
      | Some ch =>
          let pf := match job_result (jr_file (pr_jr p)) j with
                    | Ok d => mkPrefetch (pf_block pf) d (pf_done pf) (pf_err pf)
                    | Err e => mkPrefetch (pf_block pf) (pf_buf pf) (pf_done pf) (Some e)
                    end in
          let p := with_pf (with_jobs p (delete i (pr_jobs p))) pf in
          match ch with
          | Some c => if default true (pr_chans p !! c) then with_fault p ClosedTwice
                      else mkPReader (pr_jr p) (pr_holder p) (pr_pf p) (pr_jobs p) (<[c := true]> (pr_chans p)) (pr_fault p)
          | None => with_fault p ClosedTwice
          end
      end
  | _, _ => p
  end.

(** [<-jr.pf.done]: the goroutines run until the channel is closed. *)
Fixpoint receive (fuel : nat) (c : nat) (p : PReader) : PReader :=
  if default false (pr_chans p !! c) then p
  else match fuel with O => with_fault p NoOneCloses | S fuel => receive fuel c (finish_job 0 (start_job 0 p)) end.

Definition wait (c : nat) (p : PReader) : PReader := receive (length (pr_jobs p)) c p.

Definition cancelPrefetch (p : PReader) : PReader :=
  match pr_pf p with
  | Some pf =>
      match pf_done pf with
      | None => p
      | Some c =>
          let p := wait c p in
          match pr_pf p with Some pf => with_pf p (mkPrefetch (-1) (pf_buf pf) None (pf_err pf)) | None => p end
      end
  | None => p
  end.

(** * Reading ahead *)

Definition prefetchUncompressed (n off : Z) (pf : prefetch) (p : PReader) : PReader :=
  match read_full (jr_r (jr_file (pr_jr p))) off (jr_blockSize (jr_file (pr_jr p))) with
  | Err _ => p
  | Ok buf => mkPReader (pr_jr p) (pr_holder p) (Some (mkPrefetch n buf (Some (length (pr_chans p))) None)) (pr_jobs p) (pr_chans p ++ [true]) (pr_fault p)
  end.

(** The dictionary, if there is one, and the compressed bytes that are read for a
    goroutine. *)
Definition compressed_ahead (f : OpenJournal) (off : Z) : result jerror (list Z * list Z) :=
  let sfl := seqFieldLen (jr_version f) in
  let hdrLen := BlockHeaderLen + sfl in
  hdr ← read_full (jr_r f) off hdrLen;
  let compressedLen := uint hdr (8 + sfl) 4 in
  if (compressedLen =? 0) || (compressedLen >? jr_blockSize f * 2) then Err ErrBlockRange
  else compressed ← read_full (jr_r f) (off + hdrLen) compressedLen; Ok ([], compressed).

Definition dict_ahead (f : OpenJournal) (off : Z) : result jerror (list Z * list Z) :=
  let sfl := seqFieldLen (jr_version f) in
  let hdrLen := BlockHeaderLenDict + sfl in
  hdr ← read_full (jr_r f) off hdrLen;
  let dictLen := uint hdr (8 + sfl) 4 in
  let compressedLen := uint hdr (12 + sfl) 4 in
  if (compressedLen =? 0) || (compressedLen + dictLen >? jr_blockSize f * 2) then Err ErrBlockRange
  else
    dictData ← (if dictLen >? 0 then read_full (jr_r f) (off + hdrLen) dictLen else Ok []);
    compressed ← read_full (jr_r f) (off + hdrLen + dictLen) compressedLen;
    Ok (dictData, compressed).

Definition prefetchCompressed (n off : Z) (pf : prefetch) (p : PReader) : PReader :=
  let f := jr_file (pr_jr p) in
  match (if jr_compression f =? CompressionZstdDict then dict_ahead f off else compressed_ahead f off) with
  | Err _ => p
  | Ok (dict, d) =>
      mkPReader (pr_jr p) (pr_holder p) (Some (mkPrefetch n (pf_buf pf) (Some (length (pr_chans p))) None))
        (pr_jobs p ++ [mkJob None dict d]) (pr_chans p ++ [false]) (pr_fault p)
  end.

Definition startPrefetch (n : Z) (p : PReader) : PReader :=
  let f := jr_file (pr_jr p) in
  match pr_pf p, jr_blocks f !! Z.to_nat n with
  | Some pf, Some b =>
      if n >=? zlen (jr_blocks f) then p
      else if jr_compression f =? CompressionNone then prefetchUncompressed n (bi_Offset b) pf p
      else prefetchCompressed n (bi_Offset b) pf p
  | _, _ => p
  end.

(** * Loading *)

(** The channel of block [n], if it is the one read ahead. *)
Definition ahead (n : Z) (p : PReader) : option nat := pf ← pr_pf p; if pf_block pf =? n then pf_done pf else None.

Definition load_normal (n : Z) (p : PReader) : PReader * option jerror :=
  match JournalReader.loadBlock DecodeAll DecodeAllDict n (pr_jr p) with
  | (jr, None) => (startPrefetch (n + 1) (with_jr p jr InBlockBuf), None)
  | (jr, Some e) => (with_jr p jr (pr_holder p), Some e)
  end.

Definition other (h : holder) : holder := match h with InBlockBuf => InPrefetchBuf | InPrefetchBuf => InBlockBuf end.

(** The two buffers change places; [blockData] stays where it was. *)
Definition swap (pf : prefetch) (p : PReader) : PReader :=
  mkPReader (set_block (pr_jr p) (set_buf (jr_block (pr_jr p)) (pf_buf pf))) (other (pr_holder p))
    (Some (mkPrefetch (-1) (blockBuf (jr_block (pr_jr p))) None (pf_err pf))) (pr_jobs p) (pr_chans p) (pr_fault p).

Definition loadBlock (n : Z) (p : PReader) : PReader * option jerror :=
  match ahead n p with
  | None => load_normal n p
  | Some c =>
      let p := wait c p in
      match pr_pf p with
      | None => load_normal n p
      | Some pf =>
          match pf_err pf with
          | None =>
              let p := swap pf p in
              match parseLoadedBlock n (pr_jr p) with
              | (jr, None) => (startPrefetch (n + 1) (with_jr p jr InBlockBuf), None)
              | (jr, Some e) => (with_jr p jr (pr_holder p), Some e)
              end
          | Some _ => load_normal n (with_pf p (mkPrefetch (-1) (pf_buf pf) None (pf_err pf)))
          end
      end
  end.

Fixpoint next_loop (fuel : nat) (p : PReader) : PReader * next_outcome :=
  match fuel with
  | O => (p, NextFuel)
  | S fuel =>
      let jr := pr_jr p in
      if blockLoaded (jr_block jr) && (frameIdx (jr_block jr) <? frameCount (jr_block jr)) then
        match parseNextFrame (view p) with
        | Ok jr' => (put_back p jr', NextFrame)
        | Err ErrPanic => (p, NextPanic)
        | Err _ => next_loop fuel (with_jr p (set_err (set_block jr (unload (jr_block jr))) None) (pr_holder p))
        end
      else
        let nextBlock := jr_currentBlock jr + 1 in
        if nextBlock >=? zlen (jr_blocks (jr_file jr)) then (p, NextStop)
        else match loadBlock nextBlock p with
             | (p, None) => next_loop fuel p
             | (p, Some e) => (with_jr p (set_err (pr_jr p) (Some e)) (pr_holder p), NextStop)
             end
  end.

Definition Next (p : PReader) : PReader * next_outcome := next_loop (next_fuel (pr_jr p)) p.

Definition SeekBlock (n : Z) (p : PReader) : PReader * option jerror :=
  if (n <? 0) || (n >=? zlen (jr_blocks (jr_file (pr_jr p)))) then (p, Some ErrBlockRange)
  else loadBlock n (cancelPrefetch p).

Definition seek_load (r : result jerror Z) (p : PReader) : PReader * option jerror :=
  match r with Err e => (p, Some e) | Ok n => loadBlock n p end.

Definition SeekToSeq (target : Z) (p : PReader) : PReader * option jerror :=
  let p := cancelPrefetch p in
  let f := jr_file (pr_jr p) in
  if negb (jr_version f =? Version2) then (p, Some ErrNoSeq)
  else if zlen (jr_blocks f) =? 0 then (p, Some ErrEmpty)
  else seek_load (seek_block bi_BaseSeq (fun b => s ← read_full (jr_r f) (bi_Offset b + 8) 8; Ok (le_val s)) target f) p.

Definition SeekToTime (t : time) (p : PReader) : PReader * option jerror :=
  let p := cancelPrefetch p in
  let f := jr_file (pr_jr p) in
  if zlen (jr_blocks f) =? 0 then (p, Some ErrEmpty)
  else seek_load (seek_block bi_BaseTime (fun b => s ← read_full (jr_r f) (bi_Offset b) 8; Ok (i64 (le_val s))) (Time_UnixMicro t) f) p.

(** [InspectBlock] loads without cancelling; its result is [JournalReader]'s. *)
Definition InspectBlock (n : Z) (p : PReader) : PReader :=
  let f := jr_file (pr_jr p) in
  if (n <? 0) || (n >=? zlen (jr_blocks f)) then p
  else match jr_blocks f !! Z.to_nat n with
       | Some b => if is_ok (inspect_header f (bi_Offset b)) then (loadBlock n p).1 else p
       | None => p
       end.

(** * Schedules *)

Inductive call := CallNext | CallSeekBlock (n : Z) | CallSeekToSeq (s : Z) | CallSeekToTime (t : time) | CallClose.

(** What the caller learns: after a frame, the frame, its number and the devices at
    its place. *)
Inductive answer :=
| AFrame (e : option Entry) (seq : Z) (devices : result jerror (list JDevice))
| AStop (o : next_outcome) (e : option jerror)
| ASeek (e : option jerror)
| AClosed.

Definition next_answer (jr : Reader) (o : next_outcome) : answer :=
  match o with
  | NextFrame => AFrame (jr_entry jr) (FrameSeq jr) (BlockDevicesAt (frameIdx (jr_block jr) - 1) jr)
  | _ => AStop o (jr_err jr)
  end.

Definition plain_call (c : call) (jr : Reader) : Reader * answer :=
  match c with
  | CallNext => let '(jr, o) := JournalReader.Next DecodeAll DecodeAllDict jr in (jr, next_answer jr o)
  | CallSeekBlock n => let '(jr, e) := JournalReader.SeekBlock DecodeAll DecodeAllDict n jr in (jr, ASeek e)
  | CallSeekToSeq s => let '(jr, e) := JournalReader.SeekToSeq DecodeAll DecodeAllDict s jr in (jr, ASeek e)
  | CallSeekToTime t => let '(jr, e) := JournalReader.SeekToTime DecodeAll DecodeAllDict t jr in (jr, ASeek e)
  | CallClose => (jr, AClosed)
  end.

(** [Close] also frees the decoders, which are made again when needed. *)
Definition call_step (c : call) (p : PReader) : PReader * answer :=
  match c with
  | CallNext => let '(p, o) := Next p in (p, next_answer (view p) o)
  | CallSeekBlock n => let '(p, e) := SeekBlock n p in (p, ASeek e)
  | CallSeekToSeq s => let '(p, e) := SeekToSeq s p in (p, ASeek e)
  | CallSeekToTime t => let '(p, e) := SeekToTime t p in (p, ASeek e)
  | CallClose => (cancelPrefetch p, AClosed)
  end.

Inductive event := ECall (c : call) | EStart (i : nat) | EFinish (i : nat).

Fixpoint run_plain (cs : list call) (jr : Reader) : list answer :=
  match cs with [] => [] | c :: cs => let '(jr, a) := plain_call c jr in a :: run_plain cs jr end.

Fixpoint run (evs : list event) (p : PReader) : PReader * list answer :=
  match evs with
  | [] => (p, [])
  | ECall c :: evs => let '(p, a) := call_step c p in let '(p, out) := run evs p in (p, a :: out)
  | EStart i :: evs => run evs (start_job i p)
  | EFinish i :: evs => run evs (finish_job i p)
  end.

Definition calls (evs : list event) : list call := omap (fun ev => match ev with ECall c => Some c | _ => None end) evs.

(** * Reading ahead reads the same *)

(** The lengths in the headers stay inside their blocks, which [prefetchCompressed]
    does not look at. *)
Definition fits (f : OpenJournal) (n : nat) (b : blockInfo) : bool :=
  (jr_compression f =? CompressionNone) ||
  match inspect_header f (bi_Offset b) with
  | Err _ => true
  | Ok (dictLen, compressedLen) =>
      match blockPayloadLimit f (Z.of_nat n) (header_len (jr_compression f) (jr_version f)) with
      | Ok m => (dictLen <=? u32 m) && (compressedLen <=? m - dictLen)
      | Err _ => false
      end
  end.

Definition payloads_fit (f : OpenJournal) : bool := forallb (fun '(n, b) => fits f n b) (imap pair (jr_blocks f)).

Lemma payloads_fit_at f n b : payloads_fit f = true -> jr_blocks f !! n = Some b -> fits f n b = true.
Proof.
  unfold payloads_fit. rewrite forallb_forall. intros H Hb. apply (H (n, b)). apply list_elem_of_In, list_elem_of_lookup. exists n.
  by rewrite list_lookup_imap, Hb.
Qed.

Abbreviation jload := (JournalReader.loadBlock DecodeAll DecodeAllDict).
Abbreviation stored := (JournalReader.stored DecodeAll DecodeAllDict).

(** The bytes a load decompresses. *)
Definition payload (f : OpenJournal) (n off : Z) : result jerror (list Z) :=
  if jr_compression f =? CompressionZstdDict then dict_payload DecodeAll DecodeAllDict f n off else compressed_payload DecodeAll f n off.

(** A load does one thing to every reader of the file. *)
Lemma load_cases f n : (exists e, forall jr, jr_file jr = f -> jload n jr = (jr, Some e)) \/ exists d, stored f n d.
Proof.
  unfold JournalReader.stored, JournalReader.loadBlock. destruct (jr_blocks f !! Z.to_nat n) as [b|] eqn:Eb; [|left; eexists; intros jr Hf; by rewrite Hf, Eb].
  destruct (jr_compression f =? CompressionNone) eqn:Ec.
  - destruct (read_full (jr_r f) (bi_Offset b) (jr_blockSize f)) as [d|e] eqn:Er; [right; exists d|left; exists e]; intros jr Hf; rewrite Hf, Eb, Ec; cbn [negb];
      unfold loadUncompressedBlock; by rewrite Hf, Er.
  - destruct (payload f n (bi_Offset b)) as [d|e] eqn:Ep; unfold payload in Ep.
    2: { left. exists e. intros jr Hf. rewrite Hf, Eb, Ec. cbn [negb]. unfold loadCompressedBlock. by rewrite Hf, Ep. }
    destruct (zlen d =? jr_blockSize f) eqn:El; [right; exists d|left; exists ErrDecompress]; intros jr Hf; rewrite Hf, Eb, Ec; cbn [negb];
      unfold loadCompressedBlock; by rewrite Hf, Ep, El.
Qed.

(** What parsing does depends on the file and the bytes. *)
Lemma parse_cases f n d :
  (forall jr, jr_file jr = f -> parseLoadedBlock n (set_block jr (set_buf (jr_block jr) d)) = (set_block jr (set_buf (jr_block jr) d), Some ErrChecksum)) \/
  exists k, blockBuf k = d /\ forall jr, jr_file jr = f -> parseLoadedBlock n (set_block jr (set_buf (jr_block jr) d)) = (mkReader f n k (jr_entry jr) (jr_err jr), None).
Proof.
  unfold parseLoadedBlock. destruct (uint d (jr_blockSize f - 4) 4 =? Checksum (sub d 0 (jr_blockSize f - 4))) eqn:E.
  - right. eexists. split; [|intros jr Hf; unfold set_block, set_buf; cbn; rewrite Hf, E; cbn [negb]; reflexivity]. reflexivity.
  - left. intros jr Hf. unfold set_block, set_buf. cbn. by rewrite Hf, E.
Qed.

(** The same reader but for the bytes of its buffer. *)
Definition same_state (jr q : Reader) : Prop :=
  jr_file jr = jr_file q /\ jr_currentBlock jr = jr_currentBlock q /\ jr_entry jr = jr_entry q /\ jr_err jr = jr_err q /\
  set_buf (jr_block jr) [] = set_buf (jr_block q) [].

(** What a goroutine gives for block [n] is what a load finds. *)
Definition promise_ok (f : OpenJournal) (n : Z) (j : job) : Prop := forall d, job_result f j = Ok d -> stored f n d.

(** The block read ahead is the next one; its channel is closed and its bytes are
    there, or one goroutine will close it. *)
Definition reading_ahead (jr : Reader) (p : PReader) (pf : prefetch) (c : nat) : Prop :=
  pf_block pf = jr_currentBlock jr + 1 /\
  ((pr_chans p !! c = Some true /\ pr_jobs p = [] /\ (pf_err pf = None -> stored (jr_file jr) (pf_block pf) (pf_buf pf))) \/
   (pr_chans p !! c = Some false /\ pf_err pf = None /\ exists j, pr_jobs p = [j] /\ job_done j ∈ [None; Some (Some c)] /\ promise_ok (jr_file jr) (pf_block pf) j)).

Definition idle (p : PReader) : Prop := pr_jobs p = [] /\ match pr_pf p with Some pf => pf_done pf = None | None => True end.

Definition ahead_ok (jr : Reader) (p : PReader) : Prop :=
  idle p \/ exists pf c, pr_pf p = Some pf /\ pf_done pf = Some c /\ reading_ahead jr p pf c.

Record sync (jr : Reader) (p : PReader) : Prop := {
  sy_fault : pr_fault p = None;
  sy_block : -1 <= jr_currentBlock jr;
  sy_state : same_state jr (pr_jr p);
  sy_data : (pr_holder p = InBlockBuf /\ jr = pr_jr p) \/ exhausted jr;
  sy_ahead : ahead_ok jr p
}.

Lemma same_state_refl jr : same_state jr jr.
Proof. by repeat split. Qed.

Lemma plain_sync jr : -1 <= jr_currentBlock jr -> sync jr (plain jr).
Proof. constructor; [done|done|apply same_state_refl|by left|by left]. Qed.

Lemma enable_sync jr p : sync jr p -> sync jr (EnablePrefetch p).
Proof.
  intros [Hf Hn Hs Hd Ha]. unfold EnablePrefetch. destruct (pr_pf p) eqn:Ep; [by constructor|]. constructor; [done..|]. left.
  destruct Ha as [[Hj _]|(pf & c & E & _)]; [by split|]. by rewrite Ep in E.
Qed.

Lemma read_full_some r pos n d : read_full r pos n = Ok d -> 0 < n -> d <> [].
Proof.
  unfold read_full. destruct (_ && _) eqn:E; [|done]. intros [= <-] Hn H. to_props. apply (f_equal zlen) in H. rewrite length_sub in H by lia. change (zlen []) with 0 in H. lia.
Qed.

(** What is read for a goroutine is what a load decompresses. *)
Lemma ahead_promise f n b st dict d :
  payloads_fit f = true -> 0 <= n -> jr_blocks f !! Z.to_nat n = Some b -> jr_compression f =? CompressionNone = false ->
  (if jr_compression f =? CompressionZstdDict then dict_ahead f (bi_Offset b) else compressed_ahead f (bi_Offset b)) = Ok (dict, d) ->
  promise_ok f n (mkJob st dict d).
Proof.
  intros Hfit Hn Hb Hc Ha x Hx jr Hf. pose proof (payloads_fit_at _ _ _ Hfit Hb) as Hm. unfold fits in Hm. rewrite Hc in Hm. cbn [orb] in Hm. rewrite Z2Nat.id in Hm by done.
  unfold job_result in Hx. cbn [job_dict job_data] in Hx.
  assert (Hp : payload f n (bi_Offset b) = match (if bool_decide (dict = []) then DecodeAll d else DecodeAllDict dict d) with Some d => Ok d | None => Err ErrDecompress end).
  { unfold payload, header_len in *. unfold inspect_header in Hm. destruct (jr_compression f =? CompressionZstdDict).
    - unfold dict_ahead in Ha. unfold dict_payload. destruct (read_full _ (bi_Offset b) _) as [hdr|]; [|done]. cbn [mbind result_bind] in *.
      destruct (blockPayloadLimit f n _) as [m|]; [|done]. cbn [mbind result_bind] in *.
      set (dl := uint hdr (8 + seqFieldLen (jr_version f)) 4) in *. set (cl := uint hdr (12 + seqFieldLen (jr_version f)) 4) in *.
      apply andb_true_iff in Hm as [H1%Z.leb_le H2%Z.leb_le]. destruct (Z.eqb_spec cl 0); [done|]. cbn [orb] in *. destruct (_ >? jr_blockSize f * 2); [done|].
      rewrite Z.gtb_ltb, (proj2 (Z.ltb_ge _ _)) by lia. rewrite Z.gtb_ltb, (proj2 (Z.ltb_ge _ _)) by lia.
      destruct (if dl >? 0 then _ else _) as [dd|] eqn:Ed; [|done]. cbn [mbind result_bind] in *. destruct (read_full _ _ cl) as [cd|]; [|done]. cbn [mbind result_bind] in *.
      injection Ha as -> ->. rewrite Z.gtb_ltb in Ed |- *. destruct (Z.ltb_spec 0 dl).
      + by rewrite bool_decide_false by (by eapply read_full_some).
      + injection Ed as <-. by rewrite bool_decide_true.
    - unfold compressed_ahead in Ha. unfold compressed_payload. rewrite Hc in Hm. cbn [negb] in Hm. destruct (read_full _ (bi_Offset b) _) as [hdr|]; [|done]. cbn [mbind result_bind] in *.
      destruct (blockPayloadLimit f n _) as [m|]; [|done]. cbn [mbind result_bind] in *.
      set (cl := uint hdr (8 + seqFieldLen (jr_version f)) 4) in *. apply andb_true_iff in Hm as [_ H2%Z.leb_le].
      destruct (Z.eqb_spec cl 0); [done|]. cbn [orb] in *. destruct (_ >? jr_blockSize f * 2); [done|].
      rewrite Z.gtb_ltb, (proj2 (Z.ltb_ge _ _)) by lia. destruct (read_full _ _ cl) as [cd|]; [|done]. cbn [mbind result_bind] in *. injection Ha as <- <-. done. }
  destruct (if bool_decide _ then _ else _) as [y|]; [|done]. destruct (zlen y =? _) eqn:El; [|done]. injection Hx as ->.
  unfold JournalReader.loadBlock. rewrite Hf, Hb, Hc. cbn [negb]. unfold loadCompressedBlock. rewrite Hf. unfold payload in Hp. by rewrite Hp, El.
Qed.

(** The goroutines' steps change nothing a reader relies on. *)
Lemma start_sync i jr p : sync jr p -> sync jr (start_job i p).
Proof.
  intros [Hf Hn Hs Hd Ha]. unfold start_job. destruct (pr_jobs p !! i) as [[[] dict d]|] eqn:Ej; try by constructor. destruct (pr_pf p) as [pf|] eqn:Ep; [|by constructor].
  destruct Ha as [[Hj _]|(pf' & c & E & Hc & Hb & Hr)]; [by rewrite Hj in Ej|]. rewrite Ep in E. injection E as <-.
  destruct Hr as [(_ & Hj & _)|(Ho & He & j & Hj & Hs' & Hp)]; [by rewrite Hj in Ej|].
  rewrite Hj in Ej |- *. destruct i as [|i]; [|done]. injection Ej as ->. constructor; [done..|]. right. exists pf, c. unfold reading_ahead. split_and!; [done..|]. right. split_and!; [done..|].
  eexists. split; [reflexivity|]. split; [cbn [job_done]; rewrite Hc; set_solver|]. exact Hp.
Qed.

Lemma finish_sync i jr p : sync jr p -> sync jr (finish_job i p).
Proof.
  intros [Hf Hn Hs Hd Ha]. unfold finish_job. destruct (pr_jobs p !! i) as [j|] eqn:Ej; [|by constructor]. destruct (pr_pf p) as [pf|] eqn:Ep; [|by constructor].
  destruct Ha as [[Hj _]|(pf' & c & E & Hc & Hb & Hr)]; [by rewrite Hj in Ej|]. rewrite Ep in E. injection E as <-.
  destruct Hr as [(_ & Hj & _)|(Ho & He & j' & Hj & Hs' & Hp)]; [by rewrite Hj in Ej|]. rewrite Hj in Ej. destruct i as [|i]; [|done]. injection Ej as <-.
  destruct (job_done j') as [ch|] eqn:Ed; [|constructor; [done..|]; right; exists pf, c; unfold reading_ahead; split_and!; [done..|]; right; split_and!; [done..|]; exists j'; rewrite Ed; by split_and!].
  assert (ch = Some c) as -> by set_solver. cbn [pr_chans with_pf with_jobs]. rewrite Ho. cbn [from_option id]. rewrite Hj.
  constructor; [done..|]. right. eexists _, c. split; [reflexivity|].
  assert (Hl : <[c := true]> (pr_chans p) !! c = Some true) by (apply list_lookup_insert_eq; by eapply lookup_lt_Some).
  destruct (job_result (jr_file (pr_jr p)) j') as [d|e] eqn:Er; (split; [done|]); (split; [done|]); left; split_and!; try done.
  intros _. apply Hp. destruct Hs as [-> _]. exact Er.
Qed.

(** A receive gets what it waits for. *)
Lemma wait_sync jr p pf c : sync jr p -> pr_pf p = Some pf -> pf_done pf = Some c ->
  sync jr (wait c p) /\ pr_jr (wait c p) = pr_jr p /\ pr_holder (wait c p) = pr_holder p /\ pr_jobs (wait c p) = [] /\
  exists pf', pr_pf (wait c p) = Some pf' /\ pf_block pf' = pf_block pf /\ pf_block pf = jr_currentBlock jr + 1 /\
    (pf_err pf' = None -> stored (jr_file jr) (pf_block pf') (pf_buf pf')).
Proof.
  intros H Ep Hc. destruct (sy_ahead _ _ H) as [[_ Hi]|(pf1 & c1 & E & Hc1 & Hb & Hr)]; [rewrite Ep, Hc in Hi; done|].
  rewrite Ep in E. injection E as <-. rewrite Hc in Hc1. injection Hc1 as <-. unfold wait.
  destruct Hr as [(Ho & Hj & Hst)|(Ho & He & j & Hj & Hs' & Hp)].
  - rewrite Hj. cbn [length receive]. rewrite Ho. cbn [from_option id]. split_and!; try done. by exists pf.
  - rewrite Hj. cbn [length receive]. rewrite Ho. cbn [from_option id]. pose proof (finish_sync 0 _ _ (start_sync 0 _ _ H)) as H1. revert H1.
    assert (Hst : start_job 0 p = with_jobs p [mkJob (Some (Some c)) (job_dict j) (job_data j)]).
    { unfold start_job. rewrite Hj. cbn [lookup list_lookup]. destruct j as [[ch|] dict d]; [|by rewrite Ep, Hc].
      assert (ch = Some c) as -> by set_solver. destruct p; cbn in *; by subst. }
    rewrite Hst. unfold finish_job. cbn [pr_jobs with_jobs lookup list_lookup pr_pf]. rewrite Ep. cbn [job_done pr_chans with_pf with_jobs]. rewrite Ho. cbn [from_option id].
    intros H1. assert (Hl : <[c := true]> (pr_chans p) !! c = Some true) by (apply list_lookup_insert_eq; by eapply lookup_lt_Some).
    cbn [pr_chans]. rewrite Hl. cbn [from_option id]. split; [exact H1|]. split_and!; try done. eexists. split; [reflexivity|].
    destruct (job_result _ _) as [d|e] eqn:Er; split_and!; try done. intros _. cbn [pf_block pf_buf]. apply Hp. destruct (sy_state _ _ H) as [-> _]. exact Er.
Qed.

Lemma cancel_sync jr p : sync jr p -> sync jr (cancelPrefetch p) /\ idle (cancelPrefetch p).
Proof.
  intros H. pose proof H as [Hf Hn Hs Hd Ha]. unfold cancelPrefetch. destruct (pr_pf p) as [pf|] eqn:Ep.
  - destruct (pf_done pf) as [c|] eqn:Ec.
    + destruct (wait_sync _ _ _ _ H Ep Ec) as ([Hf1 Hn1 Hs1 Hd1 _] & _ & _ & Hj & pf' & -> & _). assert (Hi : idle (with_pf (wait c p) (mkPrefetch (-1) (pf_buf pf') None (pf_err pf')))) by by split.
      split; [|done]. constructor; [done..|]. by left.
    + split; [done|]. destruct Ha as [Hi|(pf1 & c & E & Hc & _)]; [done|]. rewrite Ep in E. injection E as <-. by rewrite Ec in Hc.
  - split; [done|]. destruct Ha as [Hi|(pf1 & c & E & Hc & _)]; [done|]. by rewrite Ep in E.
Qed.

Lemma startPrefetch_sync jr p : payloads_fit (jr_file jr) = true -> sync jr p -> idle p -> sync jr (startPrefetch (jr_currentBlock jr + 1) p).
Proof.
  intros Hfit H [Hj Hi]. pose proof H as [Hf Hn Hs Hd Ha]. unfold startPrefetch. destruct Hs as (Hfile & Hs). rewrite <- Hfile.
  destruct (pr_pf p) as [pf|] eqn:Ep; [|done]. destruct (jr_blocks (jr_file jr) !! _) as [b|] eqn:Eb; [|done]. destruct (_ >=? _); [done|].
  assert (Hl : forall x, (pr_chans p ++ [x]) !! length (pr_chans p) = Some x) by (intros x; by rewrite lookup_app_r, Nat.sub_diag).
  destruct (jr_compression (jr_file jr) =? CompressionNone) eqn:Ec.
  - unfold prefetchUncompressed. rewrite <- Hfile. destruct (read_full _ _ _) as [buf|] eqn:Er; [|done].
    constructor; [done|done|by split|done|]. right. eexists _, _. split; [reflexivity|]. split; [reflexivity|]. split; [done|]. left. split; [apply Hl|]. split; [done|].
    intros _ jr' Hf'. unfold JournalReader.loadBlock. cbn [pf_block pf_buf]. rewrite Hf', Eb, Ec. cbn [negb]. unfold loadUncompressedBlock. by rewrite Hf', Er.
  - unfold prefetchCompressed. rewrite <- Hfile. destruct (if _ =? CompressionZstdDict then _ else _) as [[dict d]|] eqn:Ea; [|done].
    constructor; [done|done|by split|done|]. right. eexists _, _. split; [reflexivity|]. split; [reflexivity|]. split; [done|]. right. split; [apply Hl|]. split; [done|].
    exists (mkJob None dict d). cbn [pr_jobs pf_block]. rewrite Hj. split; [done|]. split; [by left|]. by eapply ahead_promise; [|lia|..].
Qed.

(** A failed parse leaves two readers alike. *)
Lemma set_buf_sync jr p d : sync jr p -> idle p -> sync (set_block jr (set_buf (jr_block jr) d)) (with_jr p (set_block (pr_jr p) (set_buf (jr_block (pr_jr p)) d)) (pr_holder p)).
Proof.
  intros [Hf Hn (H1 & H2 & H3 & H4 & H5) Hd Ha] Hi. constructor; [done|done| | |by left].
  - by repeat split.
  - destruct Hd as [[-> ->]|Hd]; [by left|by right].
Qed.

Definition loads_alike (jr : Reader) (r : Reader * option jerror) (s : PReader * option jerror) : Prop :=
  r.2 = s.2 /\ sync r.1 s.1 /\ jr_file r.1 = jr_file jr.

Lemma load_normal_sync jr p n : payloads_fit (jr_file jr) = true -> 0 <= n -> sync jr p -> idle p -> loads_alike jr (jload n jr) (load_normal n p).
Proof.
  intros Hfit Hn H Hi. pose proof H as [Hf Hc Hs Hd Ha]. destruct Hs as (Hfile & Hcur & He & Herr & Hb). unfold load_normal.
  destruct (load_cases (jr_file jr) n) as [[e Hl]|[d Hl]].
  - rewrite !Hl by done. split; [done|]. split; [|done]. destruct p. constructor; try done.
  - rewrite !Hl by done. destruct (parse_cases (jr_file jr) n d) as [Hp|(k & Hk & Hp)]; rewrite !Hp by done; (split; [done|]); (split; [|done]); cbn [fst].
    + by apply set_buf_sync.
    + rewrite He, Herr. apply (startPrefetch_sync (mkReader (jr_file jr) n k (jr_entry (pr_jr p)) (jr_err (pr_jr p)))); [done| |exact Hi].
      constructor; [done|cbn; lia|done|by left|by left].
Qed.

(** So does one with the bytes read ahead, between two blocks. *)
Lemma swap_sync jr p pf : sync jr p -> pr_jobs p = [] -> exhausted jr ->
  sync (set_block jr (set_buf (jr_block jr) (pf_buf pf))) (swap pf p) /\ idle (swap pf p).
Proof.
  intros [Hf Hn (H1 & H2 & H3 & H4 & H5) Hd Ha] Hj Hx. assert (Hi : idle (swap pf p)) by by split. split; [|done]. constructor; [done|done| |by right|by left].
  by repeat split.
Qed.

Lemma load_sync jr p n : payloads_fit (jr_file jr) = true -> 0 <= n -> sync jr p ->
  idle p \/ exhausted jr /\ n = jr_currentBlock jr + 1 -> loads_alike jr (jload n jr) (loadBlock n p).
Proof.
  intros Hfit Hn H Hx. unfold loadBlock, ahead. destruct (pr_pf p) as [pf|] eqn:Ep; cbn [mbind option_bind].
  2: { apply load_normal_sync; try done. destruct (sy_ahead _ _ H) as [?|(pf & c & E & _)]; [done|]. by rewrite Ep in E. }
  destruct (pf_done pf) as [c|] eqn:Ec.
  2: { destruct (_ =? _); (apply load_normal_sync; [done..|]); (destruct (sy_ahead _ _ H) as [?|(pf1 & c & E & Hc & _)]; [done|]); rewrite Ep in E; injection E as <-; by rewrite Ec in Hc. }
  destruct Hx as [[_ Hi]|[Hx ->]]; [by rewrite Ep, Ec in Hi|]. destruct (wait_sync _ _ _ _ H Ep Ec) as (Hw & Hwj & Hwh & Hjobs & pf' & Epf & Hb & Hb1 & Hst).
  rewrite Hb1, Z.eqb_refl, Epf. rewrite Hb, Hb1 in Hst. destruct (pf_err pf') as [e|] eqn:Ee.
  - apply load_normal_sync; [done..| |by split]. pose proof Hw as [Hf Hc Hs Hd Ha]. constructor; [done..|]. left. by split.
  - destruct (swap_sync jr _ pf' Hw Hjobs Hx) as [Hs Hi]. pose proof (sy_state _ _ Hw) as (Hfile & _ & He & Herr & _). rewrite (Hst eq_refl jr eq_refl).
    cbn [swap pr_jr]. destruct (parse_cases (jr_file jr) (jr_currentBlock jr + 1) (pf_buf pf')) as [Hp|(k & Hk & Hp)]; rewrite !Hp by done; (split; [done|]); (split; [|done]); cbn [fst].
    + exact Hs.
    + rewrite He, Herr. apply (startPrefetch_sync (mkReader (jr_file jr) (jr_currentBlock jr + 1) k (jr_entry (pr_jr (wait c p))) (jr_err (pr_jr (wait c p))))); [done| |exact Hi].
      constructor; [apply Hs|cbn; lia|done|by left|by left].
Qed.

(** * Calls *)

Lemma view_sync jr p : sync jr p -> exhausted jr \/ view p = jr.
Proof.
  intros H. destruct (sy_data _ _ H) as [[Hh ->]|Hx]; [right|by left]. unfold view, data. rewrite Hh. by destruct (pr_jr p) as [? ? []].
Qed.

Lemma same_state_loop jr q : same_state jr q ->
  blockLoaded (jr_block jr) = blockLoaded (jr_block q) /\ frameIdx (jr_block jr) = frameIdx (jr_block q) /\ frameCount (jr_block jr) = frameCount (jr_block q).
Proof. intros (_ & _ & _ & _ & H). destruct (jr_block jr), (jr_block q). by injection H. Qed.

Lemma parseNextFrame_keeps jr jr' : parseNextFrame jr = Ok jr' ->
  jr_file jr' = jr_file jr /\ jr_currentBlock jr' = jr_currentBlock jr /\ jr_err jr' = jr_err jr /\ blockBuf (jr_block jr') = blockBuf (jr_block jr).
Proof. unfold parseNextFrame. destruct (parse_frame _ _ _) as [[[[? ?] ?] ?]|]; [|done]. cbn [mbind result_bind]. by intros [= <-]. Qed.

(** A reader that only moves inside its block stays in step. *)
Lemma moved_sync jr p jr' : sync jr p -> pr_holder p = InBlockBuf -> jr_file jr' = jr_file jr -> jr_currentBlock jr' = jr_currentBlock jr ->
  sync jr' (with_jr p jr' InBlockBuf) /\ view (with_jr p jr' InBlockBuf) = jr'.
Proof.
  intros [Hf Hn Hs Hd Ha] Hh E1 E2. split; [|by destruct jr' as [? ? []]]. constructor; [done|by rewrite E2|done|by left|].
  destruct Ha as [Hi|(pf & c & E & Hc & Hb & Hr)]; [by left|]. right. exists pf, c. split_and!; try done. unfold reading_ahead. rewrite E1, E2. by split.
Qed.

(** After a frame the readers are the same. *)
Lemma next_loop_sync fuel : forall jr p, payloads_fit (jr_file jr) = true -> sync jr p ->
  let r := JournalReader.next_loop DecodeAll DecodeAllDict fuel jr in let s := next_loop fuel p in
  r.2 = s.2 /\ sync r.1 s.1 /\ jr_file r.1 = jr_file jr /\ next_answer r.1 r.2 = next_answer (view s.1) s.2.
Proof.
  induction fuel as [|fuel IH]; intros jr p Hfit H; cbn [JournalReader.next_loop next_loop fst snd].
  { split_and!; try done. cbn. destruct (sy_state _ _ H) as (_ & _ & _ & Herr & _). by rewrite Herr. }
  pose proof (sy_state _ _ H) as Hs. destruct (same_state_loop _ _ Hs) as (Hl & Hix & Hct). destruct Hs as (Hfile & Hcur & He & Herr & Hb). rewrite <- Hl, <- Hix, <- Hct.
  destruct (blockLoaded (jr_block jr) && (frameIdx (jr_block jr) <? frameCount (jr_block jr))) eqn:Ex.
  - destruct (sy_data _ _ H) as [[Hh Hj]|Hx]; [|by unfold exhausted in Hx; rewrite Ex in Hx]. destruct (view_sync _ _ H) as [Hx| ->]; [by unfold exhausted in Hx; rewrite Ex in Hx|].
    destruct (parseNextFrame jr) as [jr'|e] eqn:Ep.
    + destruct (parseNextFrame_keeps _ _ Ep) as (E1 & E2 & E3 & E4).
      assert (Hb' : put_back p jr' = with_jr p jr' InBlockBuf) by (unfold put_back; rewrite <- Hj, <- E4, Hh; by destruct jr' as [? ? []]).
      destruct (moved_sync _ _ jr' H Hh E1 E2) as [H1 H2]. rewrite Hb'. cbn [fst snd]. by rewrite H2.
    + rewrite <- Hj, Hh. destruct (moved_sync _ _ (set_err (set_block jr (unload (jr_block jr))) None) H Hh eq_refl eq_refl) as [H1 _].
      destruct e; try exact (IH (set_err (set_block jr (unload (jr_block jr))) None) _ Hfit H1). split_and!; [done|exact H|done|]. cbn [fst snd next_answer]. by rewrite Herr.
  - rewrite <- Hcur, <- Hfile. destruct (_ >=? _) eqn:Eg; [split_and!; try done; cbn [fst snd next_answer]; by rewrite Herr|].
    destruct (load_sync jr p (jr_currentBlock jr + 1) Hfit) as (E1 & E2 & E3); [pose proof (sy_block _ _ H); lia|done|by right|].
    destruct (jload _ jr) as [jr' [e|]], (loadBlock _ p) as [p' [e'|]]; try done; cbn [fst snd] in *.
    + injection E1 as <-. split_and!; try done.
      destruct E2 as [Hf Hn (A1 & A2 & A3 & A4 & A5) Hd Ha]. constructor; try done. destruct Hd as [[Hd ->]|Hd]; [by left|by right].
    + rewrite <- E3 in Hfit. destruct (IH jr' p' Hfit E2) as (B1 & B2 & B3 & B4). split_and!; try done. by rewrite B3.
Qed.

Lemma seek_loop_nonneg key blocks target fuel : forall lo hi res n, 0 <= lo -> 0 <= res -> seek_loop fuel key blocks target lo hi res = Ok n -> 0 <= n.
Proof.
  induction fuel as [|fuel IH]; intros lo hi res n Hlo Hres; cbn [seek_loop]; [by intros [= <-]|]. destruct (Z.leb_spec lo hi); [|by intros [= <-]].
  pose proof (Z.div_pos (hi - lo) 2). destruct (blocks !! _); [|done]. destruct (key _) as [k|]; [|done]. cbn [mbind result_bind]. destruct (_ <=? _); apply IH; lia.
Qed.

Lemma seek_block_nonneg mem disk target f n : seek_block mem disk target f = Ok n -> 0 <= n.
Proof. unfold seek_block. destruct (negb _); [intros [= <-]; lia|]. apply seek_loop_nonneg; lia. Qed.

Lemma seek_sync r jr p : payloads_fit (jr_file jr) = true -> sync jr p -> idle p -> (forall n, r = Ok n -> 0 <= n) ->
  loads_alike jr (JournalReader.seek_load DecodeAll DecodeAllDict r jr) (seek_load r p).
Proof. intros Hfit H Hi Hr. destruct r as [n|e]; [apply load_sync; auto|by split_and!]. Qed.

Lemma call_sync c jr p : payloads_fit (jr_file jr) = true -> sync jr p ->
  (plain_call c jr).2 = (call_step c p).2 /\ sync (plain_call c jr).1 (call_step c p).1 /\ jr_file (plain_call c jr).1 = jr_file jr.
Proof.
  intros Hfit H. pose proof (sy_state _ _ H) as (Hfile & Hcur & _). destruct (cancel_sync _ _ H) as [Hc Hi]. pose proof (sy_state _ _ Hc) as (Hcfile & _).
  assert (Hseek : forall r s, loads_alike jr r s -> ASeek r.2 = ASeek s.2 /\ sync r.1 s.1 /\ jr_file r.1 = jr_file jr) by (by intros r s (-> & ? & ?)).
  destruct c; cbn [plain_call call_step].
  - destruct (next_loop_sync (next_fuel jr) jr p Hfit H) as (A & B & C & D). unfold JournalReader.Next, Next.
    assert (E : next_fuel (pr_jr p) = next_fuel jr) by (unfold next_fuel; by rewrite <- Hfile, <- Hcur). rewrite E.
    destruct (JournalReader.next_loop _ _ _ jr) as [jr' o], (next_loop _ p) as [p' o']. by split_and!.
  - unfold JournalReader.SeekBlock, SeekBlock. rewrite <- Hfile. destruct (_ || _) eqn:Er; [by split_and!|]. to_props.
    pose proof (Hseek _ _ (load_sync jr (cancelPrefetch p) n Hfit ltac:(lia) Hc (or_introl Hi))) as Hl.
    destruct (jload n jr), (loadBlock n (cancelPrefetch p)). exact Hl.
  - unfold JournalReader.SeekToSeq, SeekToSeq. rewrite <- Hcfile. destruct (negb _); [by split_and!|]. destruct (_ =? 0); [by split_and!|].
    match goal with |- context [seek_load ?r (cancelPrefetch p)] => pose proof (Hseek _ _ (seek_sync r jr (cancelPrefetch p) Hfit Hc Hi ltac:(intros ?; apply seek_block_nonneg))) as Hl;
      destruct (JournalReader.seek_load DecodeAll DecodeAllDict r jr), (seek_load r (cancelPrefetch p)) end. exact Hl.
  - unfold JournalReader.SeekToTime, SeekToTime. rewrite <- Hcfile. destruct (_ =? 0); [by split_and!|].
    match goal with |- context [seek_load ?r (cancelPrefetch p)] => pose proof (Hseek _ _ (seek_sync r jr (cancelPrefetch p) Hfit Hc Hi ltac:(intros ?; apply seek_block_nonneg))) as Hl;
      destruct (JournalReader.seek_load DecodeAll DecodeAllDict r jr), (seek_load r (cancelPrefetch p)) end. exact Hl.
  - by split_and!.
Qed.

(** C13: Reading ahead is invisible: over any schedule of a caller's reads, seeks and
    closes and of the goroutines' starts and finishes, a reader with prefetching
    gives the caller exactly the frames, numbers, devices and errors a reader
    without it gives, no channel is closed twice, and none is waited for that no one
    closes, on a file whose headers keep their lengths inside their blocks. *)
Theorem prefetch_invisible jr evs :
  -1 <= jr_currentBlock jr -> payloads_fit (jr_file jr) = true ->
  (run evs (EnablePrefetch (plain jr))).2 = run_plain (calls evs) jr /\ pr_fault (run evs (EnablePrefetch (plain jr))).1 = None.
Proof.
  intros Hn Hfit. generalize (enable_sync _ _ (plain_sync jr Hn)). generalize (EnablePrefetch (plain jr)). revert jr Hn Hfit.
  induction evs as [|[c|i|i] evs IH]; intros jr Hn Hfit p H; cbn [run calls omap list_omap].
  - split; [done|apply H].
  - destruct (call_sync c jr p Hfit H) as (A & B & C). cbn [run_plain]. fold (calls evs). destruct (plain_call c jr) as [jr' a], (call_step c p) as [p' a']. cbn [fst snd] in *.
    rewrite <- C in Hfit. destruct (IH jr' (sy_block _ _ B) Hfit p' B) as [D E]. destruct (run evs p') as [p'' out]. cbn [fst snd] in *. by rewrite A, D.
  - apply IH; [done..|by apply start_sync].
  - apply IH; [done..|by apply finish_sync].
Qed.

(** ** Files the writer leaves *)

(** A file of stored blocks, finished or torn, keeps its lengths. *)
Lemma journal_fits bs comp cs tail :
  Forall (stored_chunk DecodeAll DecodeAllDict comp) cs -> zlen (journal_bytes bs comp cs tail) < 2 ^ 32 ->
  payloads_fit (mkOpenJournal (journal_bytes bs comp cs tail) bs comp Version2 (infos comp 16 cs)) = true.
Proof.
  intros Hst Hlen. set (f := mkOpenJournal _ _ _ _ _). unfold payloads_fit. apply forallb_forall. intros [n b] Hin.
  apply list_elem_of_In, list_elem_of_lookup in Hin as [i Hi]. rewrite list_lookup_imap in Hi.
  destruct (jr_blocks f !! i) as [b'|] eqn:Eb; [|done]. injection Hi as <- <-. unfold fits. change (jr_compression f) with comp. change (jr_version f) with Version2.
  destruct (Z.eqb_spec comp CompressionNone) as [|Hc]; [done|]. cbn [orb].
  change (jr_blocks f) with (infos comp 16 cs) in Eb. change 16 with (zlen (jheader bs comp)) in Eb.
  destruct (infos_at comp cs (jheader bs comp) tail i b' Eb) as (a & c & Ha & Hat & Hle & Hend & Hnext).
  pose proof (proj1 (Forall_forall _ _) Hst (a, c) (list_elem_of_lookup_2 _ _ _ Ha)) as [Hch _]. cbn [fst snd] in Hch.
  destruct (chunk_scan_fields DecodeAll DecodeAllDict comp a c Hc Hch) as (hdr & body & dl & cl & Ec & Hl & _ & Hdl & Hcl & _ & Hbody & Hdl0 & Hcl0).
  assert (Hlc : zlen c = header_len comp Version2 + dl + cl) by (rewrite Ec, zlen_app; lia).
  assert (Hh : holds_at (jr_r f) (bi_Offset b') hdr) by (rewrite Ec in Hat; by apply holds_at_app in Hat as [Hat _]).
  assert (Hi : inspect_header f (bi_Offset b') = Ok (dl, cl)).
  { unfold inspect_header. change (jr_compression f) with comp. change (jr_version f) with Version2. unfold header_len in Hl.
    change (8 + seqFieldLen Version2) with 16. change (12 + seqFieldLen Version2) with 20. destruct (comp =? CompressionZstdDict).
    - rewrite (read_full_at _ _ _ _ Hh Hl). cbn [mbind result_bind]. by rewrite Hdl, Hcl.
    - rewrite (proj2 (Z.eqb_neq _ _)) by done. cbn [negb]. rewrite (read_full_at _ _ _ _ Hh Hl). cbn [mbind result_bind]. by rewrite Hdl, Hcl. }
  rewrite Hi. pose proof (zlen_nonneg (jheader bs comp)) as H0.
  assert (Hall : zlen (jheader bs comp ++ chunks_bytes cs) <= zlen (jr_r f)) by (change (jr_r f) with (journal_bytes bs comp cs tail); unfold journal_bytes; rewrite app_assoc, !zlen_app; pose proof (zlen_nonneg tail); lia).
  change (zlen (journal_bytes bs comp cs tail)) with (zlen (jr_r f)) in Hlen.
  pose proof (blockPayloadLimit_ok f (Z.of_nat i) b' (header_len comp Version2) ltac:(lia)) as Hm. rewrite Nat2Z.id in Hm.
  replace (Z.to_nat (Z.of_nat i + 1)) with (S i) in Hm by lia. specialize (Hm Eb).
  change (zlen (jheader bs comp)) with 16 in Hnext, Hle. change (jr_blocks f) with (infos comp 16 cs) in Hm.
  assert (Hhl : 20 <= header_len comp Version2) by (rewrite header_len_v2; destruct (comp =? _); lia). pose proof (zlen_nonneg body).
  destruct (infos comp 16 cs !! S i) as [b''|]; rewrite Hm by lia; apply andb_true_iff; split; apply Z.leb_le; rewrite ?wrap_small by lia; lia.
Qed.
End prefetch.

(** * Concrete schedules *)

Definition demo_schedule : list event :=
  [ECall CallNext; EStart 0; ECall CallNext; ECall CallNext; EFinish 0; ECall CallNext; ECall CallNext; EStart 0; EFinish 0;
   ECall (CallSeekToSeq 42); ECall CallNext; ECall (CallSeekBlock 0); EStart 0; ECall CallClose; ECall CallNext].

Lemma demo_fits : payloads_fit (jr_file demo_open) = true.
Proof. vm_compute. reflexivity. Qed.

(** Over four blocks, the goroutines early, late or only when waited for. *)
Lemma prefetch_invisible_witness :
  (run demo_decode demo_dict_decode demo_schedule (EnablePrefetch (plain demo_open))).2 = run_plain demo_decode demo_dict_decode (calls demo_schedule) demo_open /\
  length (calls demo_schedule) = 10%nat.
Proof. split; [exact (proj1 (prefetch_invisible demo_decode demo_dict_decode demo_open demo_schedule ltac:(cbn; lia) demo_fits))|reflexivity]. Defined.

(** [InspectBlock] starts a second goroutine over one that has not run yet; both
    capture the new channel, and the second to finish closes it again, which is a
    panic. *)
Example inspect_closes_twice :
  let p := (Next demo_decode demo_dict_decode (EnablePrefetch (plain demo_open))).1 in
  let p := InspectBlock demo_decode demo_dict_decode 0 p in
  pr_fault (finish_job demo_decode demo_dict_decode 0 (finish_job demo_decode demo_dict_decode 0 (start_job 1 (start_job 0 p)))) = Some ClosedTwice.
Proof. vm_compute. reflexivity. Qed.

(** If the first one has run, its bytes can replace those of the block that was
    asked for. *)
Example inspect_mixes_blocks :
  let p := (Next demo_decode demo_dict_decode (EnablePrefetch (plain demo_open))).1 in
  let p := InspectBlock demo_decode demo_dict_decode 2 (start_job 0 p) in
  let p := finish_job demo_decode demo_dict_decode 0 (finish_job demo_decode demo_dict_decode 1 (start_job 1 p)) in
  match Next demo_decode demo_dict_decode (Next demo_decode demo_dict_decode (Next demo_decode demo_dict_decode p).1).1 with
  | (p, NextFrame) => (jr_currentBlock (pr_jr p), FrameSeq (pr_jr p))
  | _ => (0, 0)
  end = (3, 20).
Proof. vm_compute. reflexivity. Qed.
