(* ===== verification/Compress.v ===== *)
(** Responses compressed on their way out: [compress.go].

    A response writer of [net/http] is its headers, what was sent of them, and the
    bytes of the body.  A handler is the sequence of its calls.  Sniffing of content
    types is left out, and a compressed body is written at once when it is closed. *)

From S2P Require Import Prelude.

(** * The writer of [net/http] *)

Record Response := mkResponse {
  rs_header : gmap string string;
  rs_sent : option (Z * gmap string string);
  rs_body : list Z
}.

Definition informational (code : Z) : bool := (100 <=? code) && (code <=? 199) && negb (code =? 101).
Definition body_allowed (code : Z) : bool := negb ((100 <=? code) && (code <=? 199)) && negb (code =? 204) && negb (code =? 304).

Definition rw_WriteHeader (code : Z) (r : Response) : Response :=
  match rs_sent r with
  | Some _ => r
  | None => if informational code then r else mkResponse (rs_header r) (Some (code, rs_header r)) (rs_body r)
  end.

(** The header goes before the body. *)
Definition committed (r : Response) : Response := rw_WriteHeader 200 r.

Definition may_write (r : Response) : bool := match rs_sent r with Some (code, _) => body_allowed code | None => true end.

Definition rw_Write (b : list Z) (r : Response) : Response :=
  let r := committed r in
  if may_write r then mkResponse (rs_header r) (rs_sent r) (rs_body r ++ b) else r.

Definition with_header (r : Response) (h : gmap string string) : Response := mkResponse h (rs_sent r) (rs_body r).

Inductive rop := SetHeader (k v : string) | DelHeader (k : string) | DoWriteHeader (code : Z) | DoWrite (b : list Z) | DoFlush.

Definition rw_step (r : Response) (op : rop) : Response :=
  match op with
  | SetHeader k v => with_header r (<[k := v]> (rs_header r))
  | DelHeader k => with_header r (delete k (rs_header r))
  | DoWriteHeader code => rw_WriteHeader code r
  | DoWrite b => rw_Write b r
  | DoFlush => committed r
  end.

Definition empty_response : Response := mkResponse ∅ None [].
Definition serve (ops : list rop) : Response := foldl rw_step empty_response ops.

(** * The compressing writer *)

Definition has_substring (s sub : string) : bool := match String.index 0 sub s with Some _ => true | None => false end.

Inductive gz_op := GzWrite (b : list Z) | GzFlush.

Record compressResponseWriter := mkCompress {
  cw_rw : Response;
  cw_gz : option (list gz_op);
  cw_decided : bool;
  cw_passthru : bool
}.

Definition ContentType (h : gmap string string) : string := default EmptyString (h !! "Content-Type"%string).
Definition is_stream (h : gmap string string) : bool := String.prefix "text/event-stream" (ContentType h).

Definition cw_init (cw : compressResponseWriter) : compressResponseWriter :=
  if cw_decided cw then cw
  else if is_stream (rs_header (cw_rw cw)) then mkCompress (cw_rw cw) (cw_gz cw) true true
  else mkCompress (with_header (cw_rw cw) (delete "Content-Length"%string (<["Content-Encoding"%string := "gzip"%string]> (rs_header (cw_rw cw)))))
         (Some []) true (cw_passthru cw).

Definition with_rw (cw : compressResponseWriter) (r : Response) : compressResponseWriter := mkCompress r (cw_gz cw) (cw_decided cw) (cw_passthru cw).
Definition gz_add (op : gz_op) (cw : compressResponseWriter) : compressResponseWriter :=
  mkCompress (committed (cw_rw cw)) (option_map (fun ops => ops ++ [op]) (cw_gz cw)) (cw_decided cw) (cw_passthru cw).

Definition cw_WriteHeader (code : Z) (cw : compressResponseWriter) : compressResponseWriter :=
  let cw := cw_init cw in with_rw cw (rw_WriteHeader code (cw_rw cw)).

(** The compressor writes its own header first, which sends that of the response. *)
Definition cw_Write (b : list Z) (cw : compressResponseWriter) : compressResponseWriter :=
  let cw := cw_init cw in
  if cw_passthru cw then with_rw cw (rw_Write b (cw_rw cw)) else gz_add (GzWrite b) cw.

Definition cw_Flush (cw : compressResponseWriter) : compressResponseWriter :=
  let cw := match cw_gz cw with Some _ => gz_add GzFlush cw | None => cw end in
  with_rw cw (committed (cw_rw cw)).

Definition cw_step (cw : compressResponseWriter) (op : rop) : compressResponseWriter :=
  match op with
  | DoWriteHeader code => cw_WriteHeader code cw
  | DoWrite b => cw_Write b cw
  | DoFlush => cw_Flush cw
  | _ => with_rw cw (rw_step (cw_rw cw) op)
  end.

Section compress.
Context (gzip : list gz_op -> list Z).

Definition cw_close (cw : compressResponseWriter) : Response :=
  match cw_gz cw with Some ops => rw_Write (gzip ops) (cw_rw cw) | None => cw_rw cw end.

Definition CompressHandler (accept : string) (ops : list rop) : Response :=
  if negb (has_substring accept "gzip") then serve ops else cw_close (foldl cw_step (mkCompress empty_response None false false) ops).

(** * What the client reads *)

Context (gunzip : list Z -> option (list Z)).

Definition written (ops : list gz_op) : list Z := concat (map (fun op => match op with GzWrite b => b | GzFlush => [] end) ops).
Context (Hgzip : forall ops, gunzip (gzip ops) = Some (written ops)).

Definition read_body (r : Response) : option (list Z) :=
  match rs_sent r with
  | Some (code, h) => if body_allowed code && bool_decide (h !! "Content-Encoding"%string = Some "gzip"%string) then gunzip (rs_body r) else Some (rs_body r)
  | None => Some (rs_body r)
  end.

(** A call that leaves the two headers of the compression alone and sends no
    informational status. *)
Definition plain_op (op : rop) : bool :=
  match op with
  | SetHeader k _ | DelHeader k => negb (bool_decide (k = "Content-Encoding"%string)) && negb (bool_decide (k = "Content-Length"%string))
  | DoWriteHeader code => negb (informational code)
  | _ => true
  end.

Definition header_op (op : rop) : bool := match op with SetHeader _ _ | DelHeader _ => true | _ => false end.

(** The first call that sends is no flush, but for an event stream whose headers
    are complete. *)
Fixpoint orderly (h : gmap string string) (ops : list rop) : bool :=
  match ops with
  | [] => true
  | SetHeader k v :: ops => orderly (<[k := v]> h) ops
  | DelHeader k :: ops => orderly (delete k h) ops
  | DoFlush :: ops => is_stream h && negb (existsb header_op ops)
  | _ :: _ => true
  end.

Definition other_headers (h : gmap string string) : gmap string string := delete "Content-Length"%string (delete "Content-Encoding"%string h).
Definition gzipped (h : gmap string string) : gmap string string := delete "Content-Length"%string (<["Content-Encoding"%string := "gzip"%string]> h).

Lemma other_gzipped h : other_headers (gzipped h) = other_headers h.
Proof. unfold other_headers, gzipped. by rewrite (delete_delete _ "Content-Encoding"%string), delete_delete_eq, delete_insert_eq. Qed.

(** No header but those of the handler. *)
Definition unencoded (r : Response) : Prop :=
  rs_header r !! "Content-Encoding"%string = None /\ forall code h, rs_sent r = Some (code, h) -> h !! "Content-Encoding"%string = None.

(** Not compressing: the two writers are one. *)
Definition same (ops : list rop) (r : Response) (cw : compressResponseWriter) : Prop :=
  cw_rw cw = r /\ cw_gz cw = None /\
  (cw_decided cw = true /\ cw_passthru cw = true \/
   cw_decided cw = false /\ cw_passthru cw = false /\
   (rs_sent r = None /\ rs_body r = [] /\ orderly (rs_header r) ops = true \/ is_stream (rs_header r) = true /\ existsb header_op ops = false)).

(** Compressing: what was written waits in the compressor. *)
Definition compressing (r : Response) (cw : compressResponseWriter) : Prop :=
  cw_decided cw = true /\ cw_passthru cw = false /\ rs_header (cw_rw cw) = gzipped (rs_header r) /\ rs_body (cw_rw cw) = [] /\
  exists gops code h, cw_gz cw = Some gops /\ rs_sent r = Some (code, h) /\ rs_sent (cw_rw cw) = Some (code, gzipped h) /\
    rs_body r = if body_allowed code then written gops else [].

Lemma written_snoc gops op : written (gops ++ [op]) = written gops ++ match op with GzWrite b => b | GzFlush => [] end.
Proof. unfold written. by rewrite map_app, concat_app; cbn [map concat]; rewrite app_nil_r. Qed.

Lemma committed_sent r x : rs_sent r = Some x -> committed r = r.
Proof. unfold committed, rw_WriteHeader. by intros ->. Qed.

Lemma compressing_step op r cw : plain_op op = true -> compressing r cw -> compressing (rw_step r op) (cw_step cw op).
Proof.
  intros Hop (Hd & Hp & Hh & Hb & gops & code & h & Hg & Hs & Hs' & Hbody). destruct op as [k v|k|c|b|]; cbn [cw_step rw_step plain_op] in *.
  - apply andb_true_iff in Hop as [H1%negb_true_iff%bool_decide_eq_false H2%negb_true_iff%bool_decide_eq_false]. split_and!; try done; [|by exists gops, code, h].
    cbn. rewrite Hh. unfold gzipped. by rewrite <- delete_insert_ne, insert_insert_ne.
  - apply andb_true_iff in Hop as [H1%negb_true_iff%bool_decide_eq_false H2%negb_true_iff%bool_decide_eq_false]. split_and!; try done; [|by exists gops, code, h].
    cbn. rewrite Hh. unfold gzipped. by rewrite delete_delete, <- delete_insert_ne.
  - unfold cw_WriteHeader, cw_init, rw_WriteHeader. rewrite Hd, Hs, Hs'. split_and!; try done. by exists gops, code, h.
  - unfold cw_Write, cw_init, rw_Write. rewrite Hd, Hp. unfold gz_add. rewrite (committed_sent _ _ Hs), (committed_sent _ _ Hs'), Hg. unfold may_write. rewrite Hs.
    split_and!; try done; [by destruct (body_allowed code)|]. exists (gops ++ [GzWrite b]), code, h. split_and!; try done; [by destruct (body_allowed code)|].
    rewrite written_snoc. destruct (body_allowed code); cbn [rs_body]; by rewrite Hbody.
  - unfold cw_Flush. rewrite Hg. unfold gz_add. cbn [with_rw cw_rw]. rewrite !(committed_sent _ _ Hs'), (committed_sent _ _ Hs), Hg. split_and!; try done.
    exists (gops ++ [GzFlush]), code, h. split_and!; try done. by rewrite written_snoc, app_nil_r.
Qed.

Lemma unencoded_step op r : plain_op op = true -> unencoded r -> unencoded (rw_step r op).
Proof.
  intros Hop [H1 H2]. assert (Hc : forall code, unencoded (rw_WriteHeader code r)).
  { intros code. unfold rw_WriteHeader. destruct (rs_sent r) as [[c h]|] eqn:Es; [split; [done|]; intros c' h'; rewrite Es; apply H2|].
    destruct (informational code); [split; [done|]; intros c' h'; by rewrite Es|]. split; [done|]. by intros c' h' [= <- <-]. }
  destruct op as [k v|k|c|b|]; cbn [rw_step plain_op] in *; [| |apply Hc| |apply Hc].
  - apply andb_true_iff in Hop as [Hk%negb_true_iff%bool_decide_eq_false _]. split; [by cbn; rewrite lookup_insert_ne|done].
  - apply andb_true_iff in Hop as [Hk%negb_true_iff%bool_decide_eq_false _]. split; [by cbn; rewrite lookup_delete_ne|done].
  - unfold rw_Write. destruct (Hc 200) as [H3 H4]. destruct (may_write _); by split.
Qed.

Lemma same_step op ops r cw : plain_op op = true -> same (op :: ops) r cw -> same ops (rw_step r op) (cw_step cw op) \/ compressing (rw_step r op) (cw_step cw op).
Proof.
  intros Hop (<- & Hg & [[Hd Hp]|(Hd & Hp & Hu)]).
  - left. assert (Hx : forall r', same ops r' (with_rw cw r')) by (intros r'; split; [done|]; split; [done|]; by left).
    destruct op; cbn [cw_step rw_step]; try apply Hx; unfold cw_WriteHeader, cw_Write, cw_Flush, cw_init; rewrite ?Hd, ?Hp, ?Hg; apply Hx.
  - destruct op as [k v|k|code|b|]; cbn [cw_step rw_step plain_op] in *.
    + left. split; [done|]. split; [done|]. right. split; [done|]. split; [done|]. destruct Hu as [(H1 & H2 & H3)|[_ H]]; [by left|done].
    + left. split; [done|]. split; [done|]. right. split; [done|]. split; [done|]. destruct Hu as [(H1 & H2 & H3)|[_ H]]; [by left|done].
    + unfold cw_WriteHeader, cw_init. rewrite Hd. destruct (is_stream (rs_header (cw_rw cw))) eqn:Es.
      * left. split; [done|]. split; [done|]. by left.
      * right. destruct Hu as [(H1 & H2 & _)|[H _]]; [|by rewrite H in Es]. apply negb_true_iff in Hop. cbn [with_rw cw_rw with_header].
        unfold rw_WriteHeader. cbn [with_header rs_sent]. rewrite H1, Hop. split_and!; try done. exists [], code, (rs_header (cw_rw cw)). split_and!; try done.
        cbn. rewrite H2. by destruct (body_allowed code).
    + unfold cw_Write, cw_init. rewrite Hd. destruct (is_stream (rs_header (cw_rw cw))) eqn:Es; cbn [cw_passthru].
      * left. split; [done|]. split; [done|]. by left.
      * right. destruct Hu as [(H1 & H2 & _)|[H _]]; [|by rewrite H in Es]. rewrite Hp. unfold gz_add, rw_Write, committed, rw_WriteHeader. cbn [cw_rw with_header rs_sent]. rewrite H1.
        change (informational 200) with false. unfold may_write. cbn [rs_sent rs_header rs_body]. change (body_allowed 200) with true.
        split_and!; try done. exists [GzWrite b], 200, (rs_header (cw_rw cw)). split_and!; try done. cbn. by rewrite H2, app_nil_r.
    + left. unfold cw_Flush. rewrite Hg. split; [done|]. split; [done|]. right. split; [done|]. split; [done|]. right.
      assert (Hh : rs_header (committed (cw_rw cw)) = rs_header (cw_rw cw)) by (unfold committed, rw_WriteHeader; by destruct (rs_sent (cw_rw cw)), (informational 200)).
      rewrite Hh. destruct Hu as [(_ & _ & H)|H]; [|done]. cbn [orderly] in H. apply andb_true_iff in H as [H1 H2%negb_true_iff]. by split.
Qed.

Lemma run_alike ops : forall r cw, forallb plain_op ops = true -> unencoded r -> same ops r cw \/ compressing r cw ->
  unencoded (foldl rw_step r ops) /\ (same [] (foldl rw_step r ops) (foldl cw_step cw ops) \/ compressing (foldl rw_step r ops) (foldl cw_step cw ops)).
Proof.
  induction ops as [|op ops IH]; intros r cw Hops Hu H; [done|]. cbn [forallb foldl] in *. apply andb_true_iff in Hops as [Hop Hops].
  apply IH; [done|by apply unencoded_step|]. destruct H as [H|H]; [by apply same_step|right; by apply compressing_step].
Qed.

(** Compression is invisible to a client that undoes it: for a handler that leaves
    the encoding to the wrapper and flushes only what it has begun, the client reads
    the status, the body and the other headers it would read without it, and an
    event stream is sent as it is. *)
Theorem compress_transparent accept ops :
  forallb plain_op ops = true -> orderly ∅ ops = true ->
  let r := serve ops in let r' := CompressHandler accept ops in
  read_body r' = Some (rs_body r) /\ fst <$> rs_sent r' = fst <$> rs_sent r /\
  other_headers ∘ snd <$> rs_sent r' = other_headers ∘ snd <$> rs_sent r /\
  (forall code h, rs_sent r' = Some (code, h) -> h !! "Content-Encoding"%string = None -> r' = r).
Proof.
  intros Hops Hord. unfold CompressHandler, serve. set (cw := mkCompress empty_response None false false).
  assert (Hu0 : unencoded empty_response) by (split; [apply lookup_empty|done]).
  assert (H0 : same ops empty_response cw) by (split; [done|]; split; [done|]; right; split; [done|]; split; [done|]; by left).
  destruct (run_alike ops empty_response cw Hops Hu0 (or_introl H0)) as [[Hu1 Hu2] H].
  assert (Hsame : forall r, unencoded r -> read_body r = Some (rs_body r)).
  { intros r [_ H2]. unfold read_body. destruct (rs_sent r) as [[code h]|]; [|done]. rewrite (H2 code h eq_refl). rewrite bool_decide_false by done. by rewrite andb_false_r. }
  set (r := foldl rw_step empty_response ops) in *. destruct (negb _); [split_and!; try done; by apply Hsame|].
  destruct H as [(<- & Hg & _)|H].
  - unfold cw_close. rewrite Hg. split_and!; try done. by apply Hsame.
  - destruct H as (_ & _ & Hh & Hb & gops & code & h & Hg & Hs & Hs' & Hbody). unfold cw_close, rw_Write. rewrite Hg, (committed_sent _ _ Hs').
    unfold may_write. rewrite Hs'. unfold read_body. destruct (body_allowed code) eqn:Ea; cbn [rs_sent rs_body]; rewrite ?Hs'.
    + rewrite Ea. cbn [andb]. assert (He : gzipped h !! "Content-Encoding"%string = Some "gzip"%string) by (unfold gzipped; by rewrite lookup_delete_ne, lookup_insert_eq).
      rewrite bool_decide_true by done. rewrite Hb, app_nil_l, Hgzip, Hbody. split_and!; [done|by rewrite Hs|rewrite Hs; cbn; by rewrite other_gzipped|].
      intros c' h' [= <- <-]. by rewrite He.
    + rewrite Ea. cbn [andb]. rewrite Hb, Hbody. split_and!; [done|by rewrite Hs|rewrite Hs; cbn; by rewrite other_gzipped|].
      intros c' h' [= <- <-]. unfold gzipped. by rewrite lookup_delete_ne, lookup_insert_eq.
Qed.
End compress.

(** * Concrete responses *)

Definition tag_gzip (ops : list gz_op) : list Z := 31 :: 139 :: written ops.
Definition tag_gunzip (b : list Z) : option (list Z) := match b with 31 :: 139 :: b => Some b | _ => None end.

Definition json_handler : list rop := [SetHeader "Content-Type" "application/json"; DoWrite [91]; DoFlush; DoWrite [93]].
Definition stream_handler : list rop := [SetHeader "Content-Type" "text/event-stream"; DoFlush; DoWrite [100; 10]; DoFlush].

Example json_compressed : rs_body (CompressHandler tag_gzip "br, gzip" json_handler) = [31; 139; 91; 93].
Proof. vm_compute. reflexivity. Qed.

Lemma compress_transparent_witness :
  orderly ∅ json_handler = true /\ read_body tag_gunzip (CompressHandler tag_gzip "gzip" json_handler) = Some [91; 93] /\
  CompressHandler tag_gzip "gzip" stream_handler = serve stream_handler.
Proof.
  split; [vm_compute; reflexivity|]. split.
  - destruct (compress_transparent tag_gzip tag_gunzip (fun ops => eq_refl) "gzip" json_handler eq_refl eq_refl) as [-> _]. reflexivity.
  - destruct (compress_transparent tag_gzip tag_gunzip (fun ops => eq_refl) "gzip" stream_handler eq_refl eq_refl) as (_ & _ & _ & H). eapply H; vm_compute; reflexivity.
Defined.

(** A client that refuses gzip gets it. *)
Example refusal_ignored : rs_body (CompressHandler tag_gzip "gzip;q=0, identity" json_handler) = [31; 139; 91; 93].
Proof. vm_compute. reflexivity. Qed.

(** An answer without a body is labelled as compressed. *)
Example empty_answer_labelled :
  (fun x => x.2 !! "Content-Encoding"%string) <$> rs_sent (CompressHandler tag_gzip "gzip" [DoWriteHeader 204]) = Some (Some "gzip"%string).
Proof. vm_compute. reflexivity. Qed.

(** A handler that flushed before it wrote would send compressed bytes without
    saying so; only the event streams do, which are not compressed. *)
Example early_flush_garbles : read_body tag_gunzip (CompressHandler tag_gzip "gzip" [DoFlush; DoWrite [91]]) = Some [31; 139; 91].
Proof. vm_compute. reflexivity. Qed.
