(* ===== verification/Vendor.v ===== *)
(** Decoders written by hand: [pgn/garmin.go] and [pgn/ac_utility.go].

    Slices of a payload are an [option]: [None] is the panic of a slice out of range. *)

From S2P Require Import Prelude GoNum.
From Stdlib Require Import SpecFloat.

(** [binary.LittleEndian] of [d[off:off+n]]. *)
Definition le_word (n off : nat) (d : list Z) : option Z :=
  if (off + n <=? length d)%nat then Some (le_val (take n (drop off d))) else None.

Lemma le_word_some n off d : (off + n <= length d)%nat -> exists v, le_word n off d = Some v.
Proof. intros H. unfold le_word. rewrite (proj2 (Nat.leb_le _ _)) by done. by eexists. Qed.

Definition float_mul (x y : float64) : float64 := SFmul 53 1024 x y.
Definition float_sub (x y : float64) : float64 := SFsub 53 1024 x y.

(** The value of a field, none for the one that says so. *)
Definition unless (absent : Z) {A} (f : Z -> A) (v : Z) : option A := if v =? absent then None else Some (f v).

(** * Garmin *)

Definition garminManufacturerCode : Z := 229.

Record GarminActiveWaypoint := mkActiveWaypoint {
  gw_DistanceToWaypoint : option float64;
  gw_EtaTime : option float64;
  gw_EtaDate : option Z;
  gw_WaypointLatitude : option float64;
  gw_WaypointLongitude : option float64
}.

Record GarminDestinationNav := mkDestinationNav {
  gd_DistanceToDestination : option float64;
  gd_EtaTime : option float64;
  gd_EtaDate : option Z;
  gd_DestinationId : option Z;
  gd_DestinationLatitude : option float64;
  gd_DestinationLongitude : option float64
}.

Definition optU32Scaled (d : list Z) (off : nat) (scale : float64) : option (option float64) :=
  v ← le_word 4 off d; Some (unless 0xFFFFFFFF (fun v => float_mul (float_of_Z v) scale) v).

Definition int32 (z : Z) : Z := (z + 2 ^ 31) mod 2 ^ 32 - 2 ^ 31.

Definition optLatLon (d : list Z) (off : nat) : option (option float64) :=
  v ← le_word 4 off d; Some (unless 0x7FFFFFFF (fun v => float_mul (float_of_Z v) (float_of_decimal false 1 (-7))) (int32 v)).

Definition cm : float64 := float_of_decimal false 1 (-2).
Definition tenth_ms : float64 := float_of_decimal false 1 (-4).

Definition decodeGarminActiveWaypoint (d : list Z) : option GarminActiveWaypoint :=
  if (length d <? 34)%nat then Some (mkActiveWaypoint None None None None None)
  else
    distance ← optU32Scaled d 6 cm;
    eta ← optU32Scaled d 14 tenth_ms;
    date ← le_word 2 18 d;
    lat ← optLatLon d 26;
    lon ← optLatLon d 30;
    Some (mkActiveWaypoint distance eta (unless 0xFFFF (fun v => v) date) lat lon).

Definition decodeGarminDestinationNav (d : list Z) : option GarminDestinationNav :=
  if (length d <? 29)%nat then Some (mkDestinationNav None None None None None None)
  else
    distance ← optU32Scaled d 7 cm;
    eta ← optU32Scaled d 11 tenth_ms;
    date ← le_word 2 15 d;
    dest ← le_word 4 17 d;
    lat ← optLatLon d 21;
    lon ← optLatLon d 25;
    Some (mkDestinationNav distance eta (unless 0xFFFF (fun v => v) date) (unless 0xFFFFFFFF (fun v => v) dest) lat lon).

Inductive proprietary := ActiveWaypoint (m : GarminActiveWaypoint) | DestinationNav (m : GarminDestinationNav).

(** [Some None] leaves the frame undecoded. *)
Definition decodeProprietaryFastPacket (data : list Z) : option (option proprietary) :=
  if (length data <? 4)%nat then Some None
  else
    code ← le_word 2 0 data;
    if negb (Z.land code 0x07FF =? garminManufacturerCode) then Some None
    else
      b2 ← data !! 2%nat;
      b3 ← data !! 3%nat;
      if (b2 =? 0x61) && (b3 =? 0x06) then m ← decodeGarminActiveWaypoint data; Some (Some (ActiveWaypoint m))
      else if (b2 =? 0x12) && (b3 =? 0x07) then m ← decodeGarminDestinationNav data; Some (Some (DestinationNav m))
      else Some None.

(** * Shore power *)

Definition acPowerOffset : float64 := float_of_Z 2000000000.

Record UtilityACPower := mkACPower { ac_RealPower : option float64; ac_ApparentPower : option float64 }.

Record UtilityACBasicQuantities := mkACBasic {
  ac_LineLineVoltage : option float64;
  ac_LineNeutralVoltage : option float64;
  ac_ACFrequency : option float64;
  ac_ACRMSCurrent : option float64
}.

(** A short payload is filled up with ones. *)
Definition padded (data : list Z) : list Z := if (length data <? 8)%nat then data ++ replicate (8 - length data) 0xFF else data.

Definition power (v : Z) : float64 := float_sub (float_of_Z v) acPowerOffset.

Definition decodeACPower (data : list Z) : option UtilityACPower :=
  let data := padded data in
  real ← le_word 4 0 data;
  apparent ← le_word 4 4 data;
  Some (mkACPower (unless 0xFFFFFFFF power real) (unless 0xFFFFFFFF power apparent)).

Definition decodeACBasicQuantities (data : list Z) : option UtilityACBasicQuantities :=
  let data := padded data in
  ll ← le_word 2 0 data;
  ln ← le_word 2 2 data;
  freq ← le_word 2 4 data;
  amps ← le_word 2 6 data;
  Some (mkACBasic (unless 0xFFFF float_of_Z ll) (unless 0xFFFF float_of_Z ln)
          (unless 0xFFFF (fun v => SFdiv 53 1024 (float_of_Z v) (float_of_Z 128)) freq) (unless 0xFFFF float_of_Z amps)).

Inductive vendor_value := Proprietary (m : proprietary) | Power (m : UtilityACPower) | Quantities (m : UtilityACBasicQuantities).

(** The entries that the two files add to the registry. *)
Definition vendor_registry (pgn : Z) : option (list Z -> option (option vendor_value)) :=
  if pgn =? 126720 then Some (option_map (option_map Proprietary) ∘ decodeProprietaryFastPacket)
  else if (pgn =? 65013) || (pgn =? 65010) || (pgn =? 65016) then Some (option_map (Some ∘ Power) ∘ decodeACPower)
  else if (pgn =? 65014) || (pgn =? 65011) then Some (option_map (Some ∘ Quantities) ∘ decodeACBasicQuantities)
  else None.

(** * No decoder panics *)

Ltac read_word :=
  match goal with |- context [le_word ?n ?off ?d] =>
    let v := fresh "v" in destruct (le_word_some n off d) as [v ->]; [|cbn [mbind option_bind]] end.

Lemma length_padded data : (8 <= length (padded data))%nat.
Proof. unfold padded. destruct (Nat.ltb_spec (length data) 8); rewrite ?length_app, ?length_replicate; lia. Qed.

Lemma waypoint_total d : exists m, decodeGarminActiveWaypoint d = Some m.
Proof.
  unfold decodeGarminActiveWaypoint, optU32Scaled, optLatLon. destruct (Nat.ltb_spec (length d) 34); [by eexists|].
  repeat (read_word; [lia|]). by eexists.
Qed.

Lemma destination_total d : exists m, decodeGarminDestinationNav d = Some m.
Proof.
  unfold decodeGarminDestinationNav, optU32Scaled, optLatLon. destruct (Nat.ltb_spec (length d) 29); [by eexists|].
  repeat (read_word; [lia|]). by eexists.
Qed.

(** Whatever the payload, a registered decoder answers. *)
Theorem vendor_decoders_total pgn decode data : vendor_registry pgn = Some decode -> exists m, decode data = Some m.
Proof.
  assert (Hp : exists m, decodeProprietaryFastPacket data = Some m).
  { unfold decodeProprietaryFastPacket. destruct (Nat.ltb_spec (length data) 4) as [|Hl]; [by eexists|]. read_word; [lia|]. destruct (negb _); [by eexists|].
    destruct (lookup_lt_is_Some_2 data 2) as [b2 ->]; [lia|]. destruct (lookup_lt_is_Some_2 data 3) as [b3 ->]; [lia|]. cbn [mbind option_bind].
    destruct (waypoint_total data) as [m1 ->], (destination_total data) as [m2 ->]. destruct (_ && _); [by eexists|]. destruct (_ && _); by eexists. }
  pose proof (length_padded data) as Hl. unfold vendor_registry. destruct (pgn =? 126720); [|destruct (_ || _); [|destruct (_ || _); [|done]]]; intros [= <-].
  all: unfold compose.
  - destruct Hp as [m ->]. by eexists.
  - unfold decodeACPower. repeat (read_word; [lia|]). by eexists.
  - unfold decodeACBasicQuantities. repeat (read_word; [lia|]). by eexists.
Qed.

Lemma vendor_decoders_total_witness : exists m, (option_map (Some ∘ Power) ∘ decodeACPower) [1] = Some m.
Proof. apply (vendor_decoders_total 65013 _ [1] eq_refl). Defined.

(** What is there of a payload reads like the whole of it. *)
Lemma ac_fields real apparent rest : 0 <= real < 0xFFFFFFFF -> 0 <= apparent < 0xFFFFFFFF ->
  decodeACPower (le32 real ++ le32 apparent ++ rest) = Some (mkACPower (Some (power real)) (Some (power apparent))).
Proof.
  intros H1 H2. unfold decodeACPower, padded. rewrite (proj2 (Nat.ltb_ge _ _)) by (rewrite !length_app; cbn; lia). unfold le_word.
  rewrite (proj2 (Nat.leb_le _ _)) by (rewrite !length_app; cbn; lia). cbn [mbind option_bind]. rewrite (proj2 (Nat.leb_le _ _)) by (rewrite !length_app; cbn; lia). cbn [mbind option_bind].
  change (take 4 (drop 0 (le32 real ++ le32 apparent ++ rest))) with (le32 real). change (take 4 (drop 4 (le32 real ++ le32 apparent ++ rest))) with (le32 apparent).
  rewrite !le_val_le32 by lia.
  unfold unless. by rewrite !(proj2 (Z.eqb_neq _ _)) by lia.
Qed.

(** A field that is cut reads as a value: three of the four bytes of a power of
    1000 W read as more than two gigawatts. *)
Example cut_field_is_no_gap : decodeACPower (take 3 (le32 2000001000)) = Some (mkACPower (Some (float_of_Z 2281702376)) None).
Proof. vm_compute. reflexivity. Qed.

Example waypoint_decodes :
  let d := [0xE5; 0x98; 0x61; 0x06; 0; 0] ++ le32 123456 ++ [0; 0; 0; 0] ++ le32 0xFFFFFFFF ++ le16 20000 ++ replicate 6 0 ++ le32 0x7FFFFFFF ++ le32 1000000000 in
  decodeProprietaryFastPacket d =
    Some (Some (ActiveWaypoint (mkActiveWaypoint (Some (float_mul (float_of_Z 123456) cm)) None (Some 20000) None (Some (float_of_Z 100))))).
Proof. vm_compute. reflexivity. Qed.
